(* ===== verification/_CoqProject ===== *)
-Q . S2P
Prelude.v
Heap.v
Hoare.v
Float.v
Params.v
Types.v
Misc.v
Snapshot.v
Engine.v
EngineFacts.v
HeaderRules.v
StateDB.v
StateFacts.v
StateRevert.v
JournalFacts.v
StateAlike.v
StateIface.v
Contracts.v
Finalize.v
FinalizeContext.v
FinalizeFacts.v
FinalizeProps.v
Blacklist.v
BlacklistFacts.v
Upgrade.v
StateTransition.v
TransitionFacts.v
TransitionProps.v
Processor.v
Miner.v
TxQueue.v
StateAgree.v
BlockFacts.v
MinerFacts.v
Congress.v
TxQueueProps.v
MinerProps.v
Parallel.v
ParallelProps.v
TxSortedMap.v
TxList.v
TxListFacts.v
TxListHolds.v
TxListProps.v
Signing.v
Text.v
X402.v
X402Props.v
Rewards.v
TxPrices.v
TxPricesFacts.v
TxPoolState.v
TxPool.v
TxPoolReorg.v
TxPoolFacts.v
TxPoolMethods.v
TxPoolHandlers.v
TxPoolAccounts.v
TxPoolPending.v
TxPoolQueue.v
TxPoolRun.v
TxPoolProps.v
ChainDB.v
Genesis.v
HeaderChain.v
BlockChain.v
ChainImport.v
ChainFacts.v
ChainReorg.v
ChainSwitch.v
ChainWrite.v
ChainImported.v
ChainSafe.v
ChainProps.v
ChainRewind.v
VMCode.v
VMState.v
VMRun.v
VMFacts.v
VMProps.v
