(* ===== verification/Prelude.v ===== *)
(** * The Splendor blockchain node: a verification development

    The program is the Go node of the Splendor chain ([Core-Blockchain/node_src]),
    an Ethereum client whose blocks are sealed by a rotating set of validators
    (the Congress engine) and governed by system contracts.  File names below are
    relative to that directory.

    ** Parts and how they interact

    A block is _prepared_ by the engine from the chain of headers and the parent's
    validator set, its transactions are applied to the state one by one, it is
    _finalised_ (fees, punishments, epoch changes, governance), sealed and sent
    out; every other node verifies the header against the snapshot of the
    validator set it derives from the headers alone, applies the same
    transactions and finalises.  The parts are modelled bottom up:

    - [Prelude]: machine words, results and the state monad with panics, bytes,
      third-party caches and their laws, counting lemmas, tactics, hints.
    - [Params] (params/config.go): fork schedule, its order and compatibility.
    - [Types] (core/types/block.go, consensus/consensus.go): headers, the chain
      the engine reads, the cryptographic primitives as a class.
    - [Misc] (consensus/misc): gas limit and base fee rules.
    - [Snapshot] (consensus/congress/snapshot.go): the validator set and the
      recent signers, [apply] of headers, epoch changes, turns.
    - [Engine], [EngineFacts], [HeaderRules] (consensus/congress/congress.go): the
      retrieval of snapshots through caches, database and checkpoints, header and
      seal verification, sealing; the specification is [ideal], the snapshot
      obtained by applying all headers from the genesis block, and [header_valid].
    - [StateDB], [StateFacts], [StateRevert] (core/state): accounts, storage, the
      journal, nested snapshots and their reversion; [StateIface] is the interface
      ([AccountState], [AccountLaws]) through which the parts below use it, and
      its implementation by [StateDB].
    - [Contracts] (congress.go, congress_govern.go, vmcaller, systemcontract/abi.go):
      the messages to the system contracts.
    - [Finalize], [FinalizeContext], [FinalizeFacts], [FinalizeProps]: fees,
      punishment, epochs, governance; [Prepare], [Finalize], [FinalizeAndAssemble].
    - [Blacklist], [BlacklistFacts] (congress.go, blacklist_validator.go): the
      address lists, their caches, who may transact and create contracts.
    - [Upgrade] (systemcontract/upgrade.go and the contracts' files): code and
      initialisation of the system contracts at the fork blocks.
    - [StateTransition], [TransitionFacts], [TransitionProps]
      (core/state_transition.go, gaspool.go, types/meta_transaction.go): buying
      gas, meta transactions, refund and tip.
    - [StateAlike], [StateAgree], [JournalFacts] (core/state/journal.go,
      statedb.go): states that differ in their journals, logs and caches only are
      _alike_; a transaction cannot tell them apart.  The class [Journal] states what
      the block level needs of a journal; [StateAgree] derives it for [StateDB].
    - [Processor], [BlockFacts] (core/state_processor.go, core/evm.go,
      core/block_validator.go): the transactions of a block one after the other,
      receipts, the hooks of the engine ([PoSA]), the comparison with the header.
    - [Congress] (consensus/congress): the engine as an instance of [PoSA].
    - [Miner], [MinerFacts], [MinerProps] (miner/worker.go): the environment and the
      loop that tries pending transactions and undoes the failed ones.
    - [Heap], [TxQueue], [TxQueueProps] (core/types/transaction.go over Go's
      container/heap): the pending transactions by price and nonce.
    - [Parallel], [ParallelProps] (core/parallel_state_processor.go): batches, and
      the pipeline of three goroutines as a step relation over two channels.
    - [TxSortedMap], [TxList], [TxListFacts], [TxListProps]
      (core/tx_list.go, core/tx_noncer.go): the transactions of an account by nonce,
      over a map, a heap of nonces and a cached sorting; strict and gapped lists.
    - [Signing] (core/types/*_tx.go, transaction_signing.go): the types of
      transactions and the signers of the forks, and what signing guarantees.
    - [Text] (common/types.go, common/hexutil): numbers and addresses as text, with
      readers that take them back.
    - [X402], [X402Props] (eth/api_x402.go): payments over the node's API, their
      verification and settlement.
    - [Float]: the operations of Go's float64 on [spec_float].
    - [Rewards] (eth/api_x402_validator_rewards.go): the tally of the
      validators' shares in payments.
    - [TxListHolds]: the content of the lists of an account through their methods.
    - [Hoare]: loops and triples for the state monad, with the property that no
      method panics built in.
    - [TxPrices], [TxPricesFacts] (core/tx_pool.go [txLookup], core/tx_list.go
      [txPricedList]): the lookup by hash and the two heaps of remote prices.  The
      order of the runtime's walks and the clock are a [Runtime], asked by ticks.
    - [TxPoolState], [TxPool], [TxPoolReorg] (core/tx_pool.go, common/prque): the
      pool's fields as one record; adding, promoting, demoting, removing; the
      limits, the reset to a new head, the queries.
    - [TxPoolFacts]: the pool as three stores by account - known, pending, queued -
      and the invariant [inv] that relates them to the fields, also inside a
      method.  [TxPoolMethods], [TxPoolHandlers] (adding),
      [TxPoolAccounts] (promotion, demotion, counts), [TxPoolPending],
      [TxPoolQueue] (limits, eviction, price) and [TxPoolRun] (reset, [runReorg])
      prove what each method does to the stores; [TxPoolProps] does so for any run
      of calls and states it for clients.
    - [ChainDB] (core/rawdb/accessors_chain.go, accessors_indexes.go, core/types/block.go,
      receipt.go): the key-value store as one map per prefix, the accessors, batches.
    - [Genesis] (core/genesis.go): the first state and block, and what a node does with
      a specification when it starts.
    - [HeaderChain] (core/headerchain.go): headers and difficulties through LRU caches,
      [writeHeaders], ancestors.
    - [BlockChain] (core/blockchain.go, blockchain_reader.go): the head, [reorg] and its
      events, [writeBlockWithState].  States, processing and the engine are the class
      [ChainWorld], which [ChainWrite.ChainWorldLaws] gives laws; the interrupt flag and
      the random source are fields of the header chain.
    - [ChainImport] (core/blockchain.go, blockchain_insert.go, block_validator.go): the
      iterator, the validation of bodies, [insertChain], side chains, queued blocks.
    - [ChainFacts]: stored blocks, parents, paths, total difficulties, the invariant
      [store_ok], and what reads through caches return; the _view_ of a chain is all of
      it but the caches.  [ChainReorg] finds the branches, [ChainSwitch] proves what a
      switch leaves ([chain_core], [chain_full]), [ChainWrite] writes, [ChainImported]
      and [ChainSafe] carry the invariant through the loops of an import, [ChainProps]
      states it for clients and tries it on a small chain.
    - [ChainRewind] (core/blockchain.go, headerchain.go): [SetHead], which rewinds the
      chain, the reset, and the heads a node finds when it opens its database; there is
      no freezer.  A state that cannot be opened lets the rewind go on below the target.
    - [VMCode] (core/vm/opcodes.go, analysis.go): the numbers of the instructions and
      the bitmap that tells instructions from the data of pushes.
    - [VMState] (core/vm/stack.go, memory.go, contract.go, common.go, memory_table.go,
      gas.go, gas_table.go, operations_acl.go): a frame of execution, what the frames
      of a transaction share, and every price.  The arithmetic of 256-bit words is the
      class [Uint256], the precompiled contracts and the derivation of addresses are
      the class [Runtime].
    - [VMRun] (core/vm/evm.go, instructions.go, jump_table.go, eips.go, interpreter.go):
      calls, creations, a definition for each instruction, the tables of all forks, the
      loop.  The entry points are written against the interpreter, [RunWith] ties the
      knot.
    - [VMFacts]: instructions and prices as _tame_ computations: they run operations of
      the account state and leave the gas, the memory or the stack alone.  [VMProps]
      adds up a round, the loop and the calls ([run_ok]), and states it for callers.

    ** Conventions

    A [uint64] is a [Z] and the operators [+w -w *w] wrap; big integers are plain
    [Z], nil ones [None].  A call ends in [Ok], [Err] or [Panic]; methods that
    mutate thread their receiver through the monad [ST], and keep what they did
    before an error.  Hashes and addresses are the big-endian integers of their
    bytes.  The iteration order of a Go map, where it can matter, is an argument.
    Code that is not modelled enters as operations of classes ([Crypto],
    [Backend], [Codec], [VM], [TxVM], [TxSigning], [MetaCodec], [Bytecode],
    caches) whose documented behaviour is stated as laws ([CacheLaws],
    [SnapshotDBLaws], [VMLaws], [CodecLaws], [TxVMLaws], [AccountLaws], ...); every
    theorem with such hypotheses is exercised on a concrete instance.

    ** What the theorems show

    - Consensus state: retrieval of snapshots refines the ideal one whatever the
      caches hold; [apply] is a function of the headers (batches, cache), keeps
      its invariant, spaces the blocks of a signer, and accepts exactly the next
      free signers; one validator is in turn.
    - Headers: [verifyHeader] decides the declarative rules; accepted headers can
      be extended; what [Seal] seals is accepted; where the tests of sealing,
      verification and application disagree.
    - Block production: which checks a header of [Prepare] leaves open; what
      [FinalizeAndAssemble] builds, its epoch step having succeeded, is accepted by
      [Finalize] with the same state;
      the validators of an epoch header are the contract's; what happens when the
      epoch step fails; the fee transfer.
    - State: reverting undoes any run of operations but [Erase]; what [Erase] does to
      storage, and that a read after it outlives its revert.
    - Transactions: where the money goes, gas accounting without a panic, atomicity of the
      checks,
      intrinsic gas, the overdraft of self-sponsored meta transactions.
    - Lists and upgrades: the cached lists are the contract's; who is refused; a
      rule index that makes every node panic; the upgrades run at their forks.
    - Blocks: what the miner fills is what the verifiers compute
      ([mined_block_processes]); receipts are one per ordinary transaction, with
      running sums of gas; the miner's loop ends.
    - The queue of the miner is one list per account, best head first.
    - The parallel processor: its pipeline never deadlocks and computes what its
      stages compute in order; when batches, pipeline and the state processor
      agree, and what happens when they do not.
    - Lists of transactions: the heap-backed map answers as one sorted list; only
      [Add] opens a gap in a strict list, and when (the pool does so: [pending_gap]); what filtering removes; what outbids.
    - Signatures: what is signed is recovered, and refused on other chains.
    - Payments: which are accepted, that a signed message determines the payment,
      that a nonce is used once, and that no settlement succeeds.
    - Shares of validators: the tally is exact; the ranking ranks nobody.
    - The pool: no run of calls panics or tears it apart; what [add] and its errors
      mean; the limits after a reorganisation; the state of the new head, and what is
      pending in it;
      which transactions a reset adds again; what the price limit drops; what
      [Pending] lists.
    - The chain: any run of calls from the genesis block on keeps the store linked and
      the numbering that of the head's branch, and none panics where the processor, the
      validator and the states do not (importing the genesis block excepted); which block a write
      makes the head; what a switch announces, and the numbers it forgets; the lookups
      of transactions; receipts read back; an import on a known state returns; what a
      rewind keeps and deletes; a node that is opened again, the state of its head there,
      finds its heads.
    - The genesis block: who holds what in its state; its setup is idempotent.
    - The virtual machine: every call and creation ends and never gives back more gas
      than it got; a call that fails leaves the account state as it was; jumps go to
      instructions only; a store to a contract that is not in the access list panics.

    ** Fuel

    [findSnapshot] walks back one block per unit of fuel and is started with the
    number of the block: [snapshot_refines] shows that suffices.  The loops of
    [clearOldest] and [checkCompatibleLoop] are bounded by the size of their map
    and by the fork blocks; their theorems show that the bound is not reached.
    The loop of the miner, [commitLoop], takes one unit per round;
    [commit_terminates] shows that one more than the pending transactions is
    enough.  The sifting of the heap, [up] and [down], is bounded by the length
    of the heap ([heapInit_ok], [heapFix_root], [heapPop_ok]).  The loops of [Forward] and
    [Ready] pop at most the whole heap of nonces ([Forward_spec], [Ready_spec]).  A number has
    no more digits than bits ([bigText_spec]).
    In the pool, [equalize] and [reduce] take a round for each pending transaction at
    most ([loop_spec]), [collectOffenders] one for each spammer, [descend] and [meet]
    one for each block number ([descend_spec], [meet_spec]), the loops over the price
    heaps the length of the heaps ([dropStale_spec], [discardLoop_spec]).
    In the chain, the walks down the branches take a block number each
    ([ChainReorg]), [markersAbove] one for each canonical number, the loops over a batch
    its length ([ChainImported.held_importLoop], [ChainSafe.held_storeSide]).  [insertChain]
    calls itself for the segments of a pruned branch, and its fuel is that depth: one is
    enough where the state of the parent is there ([import_returns]); the other theorems
    hold for every depth, running out of it included.  A rewind takes one round for each
    block number ([always_rewindLoop]); [levelsFrom] ends after the stored headers
    ([levelsFrom_spec]).
    The interpreter, [VMRun.loop], takes a unit for each round, and the calls made in a
    round have what is left: more fuel than gas is enough ([calls_end]), since every
    round costs gas and a call gets less than its caller has.  [setPush] takes a
    few rounds for the at most 32 bytes of a push ([codeBitmapLoop_ok]).
    All other recursion is structural.

    ** Not modelled

    The precompiled contracts, tracers, tries and database encodings, networking, the
    RPC layer, goroutines and timing of the miner: upstream code or I/O.  Blocks and
    transactions use the machine through the classes [VM] and [TxVM], which [VMRun] does
    not instantiate.  Own code that is left out: receipts of the fast synchronisation,
    the freezer, the goroutines that
    schedule the pool and its journal, the broadcast of payments, the worker pool of
    the parallel processor. *)

From stdpp Require Export base gmap sets list strings sorting fin_maps option.
From Stdlib Require Export ZArith Lia ZifyNat.
From Stdlib Require Import Strings.Byte.

#[global] Open Scope Z_scope.

(** [lia] also decides goals with [/] and [mod] by constants. *)
Ltac Zify.zify_post_hook ::= Z.to_euclidean_division_equations.

(** ** Machine words

    A Go [uint64] is a [Z] in [0, 2^64); every operation of the code that may
    wrap is written with [u64].  [i64] is the two's complement reading used by
    conversions to [int64].  Subtractions and additions that the code guards are
    wrapped all the same: the guards are then what the theorems rely on. *)

Definition u64 (z : Z) : Z := z mod 18446744073709551616.
Definition i64 (z : Z) : Z := (z + 9223372036854775808) mod 18446744073709551616 - 9223372036854775808.
Definition i32 (z : Z) : Z := (z + 2147483648) mod 4294967296 - 2147483648.
Definition MaxUint64 : Z := 18446744073709551615.

Definition is_u64 (z : Z) : Prop := 0 <= z < 18446744073709551616.

(** Go's integer division truncates toward zero; [Z.quot] does the same. *)
Declare Scope word_scope.
Delimit Scope word_scope with word.
Notation "a +w b" := (u64 (a + b)) (at level 50, left associativity) : word_scope.
Notation "a -w b" := (u64 (a - b)) (at level 50, left associativity) : word_scope.
Notation "a *w b" := (u64 (a * b)) (at level 40, left associativity) : word_scope.
#[global] Open Scope word_scope.

Lemma u64_range z : is_u64 (u64 z).
Proof. unfold is_u64, u64. lia. Qed.

Lemma u64_small z : is_u64 z -> u64 z = z.
Proof. unfold is_u64, u64. intros. apply Z.mod_small. lia. Qed.

Lemma u64_nonneg z : 0 <= u64 z.
Proof. pose proof (u64_range z). unfold is_u64 in *. lia. Qed.

Lemma i64_small z : -9223372036854775808 <= z < 9223372036854775808 -> i64 z = z.
Proof. unfold i64. intros. rewrite Z.mod_small; lia. Qed.

(** Turn every word operation into its arithmetic and finish with [lia]. *)
Ltac word_lia := unfold is_u64, MaxUint64, u64, i64, i32 in *; lia.

(** ** Results

    A Go function that returns an [error] ends in one of three ways: a value,
    an error value, or a run-time panic (nil dereference, division by zero,
    explicit [panic]).  The sentinel errors of the code are constructors, errors
    built on the spot carry their text. *)

Inductive error : Type :=
  (* consensus/congress/congress.go *)
  | errUnknownBlock | errMissingVanity | errMissingSignature | errExtraValidators
  | errInvalidExtraValidators | errInvalidMixDigest | errInvalidUncleHash
  | errInvalidDifficulty | errWrongDifficulty | ErrInvalidTimestamp
  | errInvalidVotingChain | errUnauthorizedValidator | errRecentlySigned
  | errInvalidValidatorsLength | errInvalidCoinbase | errInvalidSysGovCount
  (* consensus/errors.go *)
  | ErrUnknownAncestor | ErrFutureBlock | ErrPrunedAncestor
  (* core/error.go, core/blockchain.go *)
  | ErrKnownBlock | ErrBannedHash | ErrNoGenesis | errInsertionInterrupted | errChainStopped
  (* core/error.go, core/types, core/vm *)
  | ErrGasLimitReached | ErrNonceTooHigh | ErrNonceTooLow | ErrNonceMax
  | ErrSenderNoEOA | ErrInsufficientFunds | ErrInsufficientFundsForTransfer
  | ErrIntrinsicGas | ErrGasUintOverflow | ErrFeeCapVeryHigh | ErrTipVeryHigh
  | ErrTipAboveFeeCap | ErrFeeCapTooLow | ErrUnauthorizedDeveloper
  | ErrAddressDenied | ErrInvalidMetaSig | ErrInvalidMetaDataLen
  | ErrExecutionReverted | ErrTaskPanicked | ErrTxTypeNotSupported
  (* core/vm/errors.go *)
  | ErrOutOfGas | ErrCodeStoreOutOfGas | ErrDepth | ErrInsufficientBalance
  | ErrContractAddressCollision | ErrMaxCodeSizeExceeded | ErrInvalidJump
  | ErrWriteProtection | ErrReturnDataOutOfBounds | ErrInvalidCode | ErrNonceUintOverflow
  | ErrStackUnderflow (stackLen required : Z) | ErrStackOverflow (stackLen limit : Z)
  | ErrInvalidOpCode (opcode : Z)
  (* errors built on the spot, and errors of code outside the repository *)
  | errorf (msg : string)
  | txError (index : Z) (hash : Z) (cause : error)   (* could not apply tx %d [%v]: %w *)
  | extError (code : Z)
  (* the recursion bound of a model definition; its theorems exclude it *)
  | ErrOutOfFuel.

#[export] Instance error_eq_dec : EqDecision error.
Proof. intros e1 e2. unfold Decision. decide equality; apply Z.eq_dec || apply String.string_dec. Defined.

Inductive res (A : Type) : Type :=
  | Ok (a : A)
  | Err (e : error)
  | Panic.
Arguments Ok {A} a.
Arguments Err {A} e.
Arguments Panic {A}.

#[export] Instance res_ret : MRet res := fun A a => Ok a.
#[export] Instance res_bind : MBind res := fun A B f m =>
  match m with Ok a => f a | Err e => Err e | Panic => Panic end.
#[export] Instance res_map : FMap res := fun A B f m =>
  match m with Ok a => Ok (f a) | Err e => Err e | Panic => Panic end.

Definition is_ok {A} (r : res A) : bool := match r with Ok _ => true | _ => false end.

(** [guard]: the early return [if cond { return err }]. *)
Definition fail_if (b : bool) (e : error) : res unit := if b then Err e else Ok tt.

Lemma bind_ok {A B} (m : res A) (f : A -> res B) b :
  m ≫= f = Ok b -> exists a, m = Ok a /\ f a = Ok b.
Proof. destruct m; simpl; intros; try discriminate. eauto. Qed.

Lemma fail_if_ok b e : fail_if b e = Ok tt <-> b = false.
Proof. destruct b; simpl; split; congruence. Qed.

(** ** State and errors

    Methods that mutate the object they are called on thread its state; an
    error keeps the mutations made before it, as in Go. *)

Definition ST (S A : Type) : Type := S -> res A * S.

#[export] Instance st_ret {S} : MRet (ST S) := fun A a s => (Ok a, s).
#[export] Instance st_bind {S} : MBind (ST S) := fun A B f m s =>
  match m s with
  | (Ok a, s') => f a s'
  | (Err e, s') => (Err e, s')
  | (Panic, s') => (Panic, s')
  end.

Definition st_get {S} : ST S S := fun s => (Ok s, s).
Definition st_put {S} (s : S) : ST S unit := fun _ => (Ok tt, s).
Definition st_modify {S} (f : S -> S) : ST S unit := fun s => (Ok tt, f s).
Definition st_err {S A} (e : error) : ST S A := fun s => (Err e, s).
Definition st_panic {S A} : ST S A := fun s => (Panic, s).
Definition st_lift {S A} (r : res A) : ST S A := fun s => (r, s).
Definition st_fail_if {S} (b : bool) (e : error) : ST S unit :=
  if b then st_err e else mret tt.

(** Inspect the error of a call instead of returning it. *)
Definition st_catch {S A} (m : ST S A) : ST S (res A) := fun s =>
  match m s with (Panic, s) => (Panic, s) | (r, s) => (Ok r, s) end.
Definition st_try {S A} (m : ST S A) : ST S (option A) := fun s =>
  match m s with (Ok a, s) => (Ok (Some a), s) | (Err _, s) => (Ok None, s) | (Panic, s) => (Panic, s) end.

Lemma st_bind_ok {S A B} (m : ST S A) (f : A -> ST S B) s b s' :
  (m ≫= f) s = (Ok b, s') ->
  exists a s1, m s = (Ok a, s1) /\ f a s1 = (Ok b, s').
Proof.
  unfold mbind, st_bind. destruct (m s) as [[a|e|] s1]; intros; simplify_eq. eauto.
Qed.

(** A computation that leaves the part [f] of the state alone. *)
Definition st_keeps {S A B} (f : S -> B) (m : ST S A) : Prop := forall s, f (m s).2 = f s.

Lemma st_keeps_ret {S A B} (f : S -> B) (a : A) : st_keeps f (mret a).
Proof. done. Qed.
Lemma st_keeps_lift {S A B} (f : S -> B) (r : res A) : st_keeps f (st_lift r).
Proof. done. Qed.
Lemma st_keeps_get {S B} (f : S -> B) : st_keeps f st_get.
Proof. done. Qed.
Lemma st_keeps_err {S A B} (f : S -> B) e : st_keeps (A:=A) f (st_err e).
Proof. done. Qed.
Lemma st_keeps_panic {S A B} (f : S -> B) : st_keeps (A:=A) f st_panic.
Proof. done. Qed.
Lemma st_keeps_fail_if {S B} (f : S -> B) b e : st_keeps f (st_fail_if b e).
Proof. by destruct b. Qed.
Lemma st_keeps_modify {S B} (f : S -> B) g : (forall s, f (g s) = f s) -> st_keeps f (st_modify g).
Proof. done. Qed.
Lemma st_keeps_bind {S A A' B} (f : S -> B) (m : ST S A) (k : A -> ST S A') :
  st_keeps f m -> (forall a, st_keeps f (k a)) -> st_keeps f (m ≫= k).
Proof.
  intros Hm Hk s. specialize (Hm s). unfold mbind, st_bind.
  destruct (m s) as [[a|e|] s']; simpl in *; rewrite ?Hk; done.
Qed.
Lemma st_keeps_if {S A B} (f : S -> B) (b : bool) (m1 m2 : ST S A) :
  st_keeps f m1 -> st_keeps f m2 -> st_keeps f (if b then m1 else m2).
Proof. by destruct b. Qed.

(** Case analysis on the conditions of the code, outermost first. *)
Ltac case_if :=
  match goal with
  | |- context [if ?b then _ else _] => let E := fresh "E" in destruct b eqn:E
  | H : context [if ?b then _ else _] |- _ => let E := fresh "E" in destruct b eqn:E
  end.

(** Decompose a successful run [m ≫= f = Ok _] (or its stateful form). *)
Ltac inv_bind H :=
  match type of H with
  | (_ ≫= _) = Ok _ =>
      let a := fresh "a" in let H1 := fresh "Hm" in
      apply bind_ok in H as (a & H1 & H)
  | (_ ≫= _) _ = (Ok _, _) =>
      let a := fresh "a" in let s := fresh "s" in let H1 := fresh "Hm" in
      apply st_bind_ok in H as (a & s & H1 & H)
  end.

(** Boolean tests on integers as propositions. *)
Ltac bool_Z :=
  repeat match goal with
  | H : (_ && _)%bool = true |- _ => apply andb_prop in H as [? ?]
  | H : (_ || _)%bool = false |- _ => apply orb_false_elim in H as [? ?]
  | H : negb _ = true |- _ => apply negb_true_iff in H
  | H : negb _ = false |- _ => apply negb_false_iff in H
  | H : (_ <? _) = true |- _ => apply Z.ltb_lt in H
  | H : (_ <? _) = false |- _ => apply Z.ltb_ge in H
  | H : (_ <=? _) = true |- _ => apply Z.leb_le in H
  | H : (_ <=? _) = false |- _ => apply Z.leb_gt in H
  | H : (_ =? _) = true |- _ => apply Z.eqb_eq in H
  | H : (_ =? _) = false |- _ => apply Z.eqb_neq in H
  | H : bool_decide _ = true |- _ => apply bool_decide_eq_true in H
  | H : bool_decide _ = false |- _ => apply bool_decide_eq_false in H
  end.

(** ** Bytes, addresses and hashes

    [common.Address] ([20]byte) and [common.Hash] ([32]byte) are represented by
    the big-endian integer of their bytes: [bytes.Compare] on arrays of equal
    length is then the comparison of the integers. *)

Abbreviation byte := Byte.byte.
Abbreviation Address := Z (only parsing).
Abbreviation Hash := Z (only parsing).

Definition byteZ (b : byte) : Z := Z.of_N (Byte.to_N b).
Definition Zbyte (z : Z) : byte := default Byte.x00 (Byte.of_N (Z.to_N (z mod 256))).

#[export] Instance byte_eq_dec : EqDecision byte := Byte.byte_eq_dec.

Lemma byteZ_range b : 0 <= byteZ b < 256.
Proof. unfold byteZ. pose proof (Byte.to_N_bounded b). lia. Qed.

Lemma byteZ_Zbyte z : byteZ (Zbyte z) = z mod 256.
Proof.
  unfold byteZ, Zbyte.
  destruct (Byte.of_N (Z.to_N (z mod 256))) as [b|] eqn:E; simpl.
  - apply Byte.to_of_N in E. rewrite E. rewrite Z2N.id; [done|]. lia.
  - apply Byte.of_N_None_iff in E. lia.
Qed.

Lemma Zbyte_byteZ b : Zbyte (byteZ b) = b.
Proof.
  unfold Zbyte. rewrite Z.mod_small by apply byteZ_range.
  unfold byteZ. rewrite N2Z.id, Byte.of_to_N. done.
Qed.

(** [len] of a slice. *)
Definition zlen {A} (l : list A) : Z := Z.of_nat (length l).

(** Big-endian reading and fixed-width writing. *)
Fixpoint be_acc (acc : Z) (l : list byte) : Z :=
  match l with [] => acc | b :: l => be_acc (acc * 256 + byteZ b) l end.
Definition be_decode (l : list byte) : Z := be_acc 0 l.

Fixpoint be_encode (n : nat) (z : Z) : list byte :=
  match n with O => [] | S n => be_encode n (z / 256) ++ [Zbyte z] end.

Lemma be_acc_app acc l1 l2 : be_acc acc (l1 ++ l2) = be_acc (be_acc acc l1) l2.
Proof. revert acc. induction l1; simpl; auto. Qed.

Lemma length_be_encode n z : length (be_encode n z) = n.
Proof. revert z. induction n; simpl; intros; [done|]. rewrite length_app, IHn. simpl. lia. Qed.

Lemma be_decode_encode n z : be_decode (be_encode n z) = z mod 256 ^ Z.of_nat n.
Proof.
  unfold be_decode. revert z. induction n as [|n IH]; intros z.
  - simpl. by rewrite Z.mod_1_r.
  - cbn [be_encode]. rewrite be_acc_app, IH. simpl be_acc. rewrite byteZ_Zbyte.
    rewrite Nat2Z.inj_succ, Z.pow_succ_r by lia.
    rewrite Z.rem_mul_r by lia. lia.
Qed.

(** ** Third-party caches

    The caches of the node ([lru.ARCCache], [lru.Cache] of hashicorp/golang-lru)
    may forget entries at any time but never invent one. *)

Class Cache (C K V : Type) := {
  cache_get : K -> C -> option V * C;
  cache_add : K -> V -> C -> C;
  cache_mem : C -> K -> V -> Prop;
}.

Class CacheLaws (C K V : Type) `{Cache C K V} := {
  cache_get_sound : forall k c v c', cache_get k c = (Some v, c') -> cache_mem c k v;
  cache_get_keeps : forall k c o c' k' v', cache_get k c = (o, c') ->
    cache_mem c' k' v' -> cache_mem c k' v';
  cache_add_mem : forall k v c k' v', cache_mem (cache_add k v c) k' v' ->
    (k' = k /\ v' = v) \/ cache_mem c k' v';
}.

(** An unbounded map is such a cache: the laws can be met. *)
#[export] Instance gmap_cache {K V} `{Countable K} : Cache (gmap K V) K V := {
  cache_get k c := (c !! k, c);
  cache_add k v c := <[k := v]> c;
  cache_mem c k v := c !! k = Some v;
}.

#[export] Instance gmap_cache_laws {K V} `{Countable K} : CacheLaws (gmap K V) K V.
Proof.
  split; simpl.
  - intros. by simplify_eq.
  - intros. by simplify_eq.
  - intros k v c k' v'. rewrite lookup_insert. case_decide; intros; simplify_eq; auto.
Qed.

(** A cache all of whose entries agree with a reference predicate. *)
Definition cache_coherent {C K V} `{Cache C K V} (P : K -> V -> Prop) (c : C) : Prop :=
  forall k v, cache_mem c k v -> P k v.

Section CacheFacts.
Context {C K V : Type} `{CacheLaws C K V} (P : K -> V -> Prop).

Lemma coherent_hit c k v c' : cache_coherent P c -> cache_get k c = (Some v, c') -> P k v.
Proof. intros Hc Hg. by eapply Hc, cache_get_sound. Qed.

Lemma coherent_get c k o c' : cache_coherent P c -> cache_get k c = (o, c') -> cache_coherent P c'.
Proof. intros Hc Hg k' v' Hm. by eapply Hc, cache_get_keeps. Qed.

Lemma coherent_add c k v : cache_coherent P c -> P k v -> cache_coherent P (cache_add k v c).
Proof. intros Hc HP k' v' Hm. apply cache_add_mem in Hm as [[-> ->]|Hm]; auto. Qed.
End CacheFacts.

(** ** Counting keys and values of finite maps *)

Lemma map_size_window {A} (m : gmap Z A) (lo : Z) (n : nat) :
  (forall k v, m !! k = Some v -> lo <= k < lo + Z.of_nat n) -> (size m <= n)%nat.
Proof.
  intros Hk. rewrite <- (size_dom (D:=gset Z)).
  assert (Hn : size (list_to_set (seqZ lo (Z.of_nat n)) : gset Z) = n).
  { rewrite size_list_to_set by apply NoDup_seqZ. rewrite length_seqZ. lia. }
  rewrite <- Hn. apply subseteq_size. intros k [v Hv]%elem_of_dom.
  apply elem_of_list_to_set, elem_of_seqZ. eapply Hk; eauto.
Qed.

Definition map_values {A} `{Countable A} (m : gmap Z A) : gset A := list_to_set (map_to_list m).*2.

Lemma elem_of_map_values {A} `{Countable A} (m : gmap Z A) v :
  v ∈ map_values m <-> exists k, m !! k = Some v.
Proof.
  unfold map_values. rewrite elem_of_list_to_set, list_elem_of_fmap. split.
  - intros ([k v'] & -> & Hin). exists k. by apply elem_of_map_to_list.
  - intros [k Hk]. exists (k, v). split; [done|]. by apply elem_of_map_to_list.
Qed.

Lemma size_map_values {A} `{Countable A} (m : gmap Z A) : (size (map_values m) <= size m)%nat.
Proof.
  unfold map_values. rewrite <- length_map_to_list.
  etrans; [|apply Nat.eq_le_incl, (length_fmap snd)].
  generalize ((map_to_list m).*2) as l. induction l as [|a l IH]; simpl; [done|].
  rewrite size_union_alt, size_singleton. pose proof (subseteq_size (list_to_set l ∖ {[a]}) (list_to_set l : gset A)).
  assert (list_to_set l ∖ {[a]} ⊆ (list_to_set l : gset A)) by set_solver. lia.
Qed.

Lemma Exists_map_to_list {A} (P : Z * A -> Prop) (m : gmap Z A) :
  Exists P (map_to_list m) <-> exists k v, m !! k = Some v /\ P (k, v).
Proof.
  rewrite List.Exists_exists. setoid_rewrite <- list_elem_of_In. split.
  - intros ([k v] & Hin & HP). exists k, v. by rewrite <- elem_of_map_to_list.
  - intros (k & v & Hk & HP). exists (k, v). split; [by apply elem_of_map_to_list|done].
Qed.

Create HintDb node discriminated.
#[export] Hint Resolve st_keeps_ret st_keeps_lift st_keeps_get st_keeps_err st_keeps_panic st_keeps_fail_if
  st_keeps_modify st_keeps_bind st_keeps_if : node.
#[export] Hint Resolve u64_range u64_nonneg byteZ_range coherent_get coherent_add : node.
