(* ===== verification/Heap.v ===== *)
(** * Binary heaps (container/heap)

    The operations of Go's heap package on a slice, and what the users of a heap
    rely on: the elements stay the same up to order, none is before the first. *)

From S2P Require Import Prelude.

Section Heap.
Context {X : Type} (less : X -> X -> bool).
Implicit Types (l : list X) (i j n : nat).

(** [Swap]; the callers stay in range. *)
Definition swap l i j : list X :=
  match l !! i, l !! j with
  | Some x, Some y => <[j := x]> (<[i := y]> l)
  | _, _ => l
  end.

Definition lessAt l i j : bool :=
  match l !! i, l !! j with Some x, Some y => less x y | _, _ => false end.

(** [down(h, i0, n)], with the index reached; the index at least doubles, so [n]
    rounds are enough. *)
Fixpoint down (fuel : nat) l i n : list X * nat :=
  match fuel with
  | O => (l, i)
  | S fuel =>
      let j1 := (2 * i + 1)%nat in
      if (n <=? j1)%nat then (l, i) else
      let j2 := S j1 in
      let j := if (j2 <? n)%nat && lessAt l j2 j1 then j2 else j1 in
      if negb (lessAt l j i) then (l, i) else down fuel (swap l i j) j n
  end.

(** [up(h, j)] *)
Fixpoint up (fuel : nat) l j : list X :=
  match fuel with
  | O => l
  | S fuel =>
      let i := ((j - 1) / 2)%nat in
      if (i =? j)%nat || negb (lessAt l j i) then l else up fuel (swap l i j) i
  end.

(** [heap.Init]: from the last parent to the root. *)
Fixpoint initFrom l i : list X :=
  match i with
  | O => l
  | S i => initFrom (down (length l) l i (length l)).1 i
  end.
Definition heapInit l : list X := initFrom l (length l / 2).

(** [heap.Fix] *)
Definition heapFix l i : list X :=
  let '(l', k) := down (length l) l i (length l) in
  if (i <? k)%nat then l' else up (length l') l' i.

(** [heap.Pop]; an index out of range on the empty heap. *)
Definition heapPop l : res (X * list X) :=
  let n := (length l - 1)%nat in
  if (length l =? 0)%nat then Panic else
  let l := (down n (swap l 0 n) 0 n).1 in
  match l !! n with Some x => Ok (x, take n l) | None => Panic end.

(** [heap.Push] *)
Definition heapPush l (x : X) : list X := up (length l) (l ++ [x]) (length l).

(** [heap.Remove]: the last element takes the place of the removed one. *)
Definition heapRemove l i : res (X * list X) :=
  if (length l <=? i)%nat then Panic else
  let n := (length l - 1)%nat in
  let l := if (n =? i)%nat then l else
             let '(l', k) := down n (swap l i n) i n in
             if (i <? k)%nat then l' else up n l' i in
  match l !! n with Some x => Ok (x, take n l) | None => Panic end.

(** ** The order *)

(** [before]: the elements in a strict weak order. *)
Class WeakOrder : Prop := {
  less_asym : forall x y, less x y = true -> less y x = false;
  notless_trans : forall x y z, less x y = false -> less y z = false -> less x z = false;
}.
Context `{!WeakOrder}.

(** Parents are not after their children, for the parents from [k] on. *)
Definition ordered l n k : Prop :=
  forall c, (0 < c < n)%nat -> (k <= (c - 1) / 2)%nat -> lessAt l c ((c - 1) / 2) = false.
Definition heap l : Prop := ordered l (length l) 0.

Lemma lookup_swap l i j k : (i < length l)%nat -> (j < length l)%nat ->
  swap l i j !! k = if decide (k = j) then l !! i else if decide (k = i) then l !! j else l !! k.
Proof.
  intros Hi Hj. unfold swap. destruct (lookup_lt_is_Some_2 l i Hi) as [x Hx], (lookup_lt_is_Some_2 l j Hj) as [y Hy].
  rewrite Hx, Hy. destruct (decide (k = j)) as [->|Hkj]; [apply list_lookup_insert_eq; by rewrite length_insert|].
  rewrite list_lookup_insert_ne by done. destruct (decide (k = i)) as [->|Hki]; [by apply list_lookup_insert_eq|].
  by apply list_lookup_insert_ne.
Qed.

Lemma swap_perm l i j : swap l i j ≡ₚ l.
Proof.
  unfold swap. destruct (l !! i) as [x|] eqn:Hi, (l !! j) as [y|] eqn:Hj; try done. by apply Permutation_insert_swap.
Qed.

Lemma swap_length l i j : length (swap l i j) = length l.
Proof. apply Permutation_length, swap_perm. Qed.

Lemma lessAt_eq l l' i j i' j' : l !! i = l' !! i' -> l !! j = l' !! j' -> lessAt l i j = lessAt l' i' j'.
Proof. unfold lessAt. by intros -> ->. Qed.

Lemma lessAt_asym l i j : lessAt l i j = true -> lessAt l j i = false.
Proof. unfold lessAt. destruct (l !! i), (l !! j); try done. apply less_asym. Qed.

Lemma down_perm fuel : forall l i n, (down fuel l i n).1 ≡ₚ l.
Proof.
  induction fuel as [|fuel IH]; intros l i n; [done|]. simpl. case_if; [done|]. case_if; [done|].
  by rewrite IH, swap_perm.
Qed.

Lemma down_frame fuel : forall l i n k, (n <= k)%nat -> (n <= length l)%nat -> (down fuel l i n).1 !! k = l !! k.
Proof.
  induction fuel as [|fuel IH]; intros l i n k Hk Hn; [done|]. cbn [down].
  destruct (n <=? 2 * i + 1)%nat eqn:E1; [done|]. apply Nat.leb_gt in E1.
  set (j := if _ && _ then _ else _).
  assert (Hj : (i < j < n)%nat).
  { unfold j. destruct (S (2 * i + 1) <? n)%nat eqn:E2; simpl; [apply Nat.ltb_lt in E2; destruct (lessAt _ _ _); lia|lia]. }
  clearbody j. case_if; [done|]. rewrite IH by (rewrite ?swap_length; lia). rewrite lookup_swap by lia.
  rewrite !decide_False by lia. done.
Qed.

Lemma parent_child c i : (0 < c)%nat -> ((c - 1) / 2 = i)%nat <-> (c = 2 * i + 1 \/ c = 2 * i + 2)%nat.
Proof. lia. Qed.

(** Sifting down restores the order below [i]. *)
Lemma down_ordered fuel : forall l i n k,
  (n <= length l)%nat -> (n - i <= fuel)%nat ->
  (forall c, (0 < c < n)%nat -> (k <= (c - 1) / 2)%nat -> ((c - 1) / 2 <> i)%nat -> lessAt l c ((c - 1) / 2) = false) ->
  (forall c, (0 < c < n)%nat -> ((c - 1) / 2 = i)%nat -> (0 < i)%nat -> (k <= (i - 1) / 2)%nat -> lessAt l c ((i - 1) / 2) = false) ->
  ordered (down fuel l i n).1 n k.
Proof.
  induction fuel as [|fuel IH]; intros l i n k Hn Hf Hord Hgrand.
  { intros c Hc Hk. apply Hord; [done|done|]. lia. }
  cbn [down]. destruct (n <=? 2 * i + 1)%nat eqn:E1.
  { apply Nat.leb_le in E1. intros c Hc Hk. apply Hord; [done|done|]. lia. }
  apply Nat.leb_gt in E1. set (b := (S (2 * i + 1) <? n)%nat && lessAt l (S (2 * i + 1)) (2 * i + 1)).
  set (j := if b then _ else _).
  assert (Hj : (i < j < n)%nat /\ ((j - 1) / 2 = i)%nat).
  { unfold j, b. destruct (S (2 * i + 1) <? n)%nat eqn:E2; cbn [andb]; [apply Nat.ltb_lt in E2; destruct (lessAt _ _ _); lia|lia]. }
  assert (Hbest : forall c, (0 < c < n)%nat -> ((c - 1) / 2 = i)%nat -> c <> j -> lessAt l c j = false).
  { intros c Hc Hp Hcj. apply parent_child in Hp; [|lia]. unfold j, b in *.
    destruct (S (2 * i + 1) <? n)%nat eqn:E2; cbn [andb] in *.
    - destruct (lessAt l _ _) eqn:E3.
      + replace c with (2 * i + 1)%nat by lia. by apply lessAt_asym.
      + replace c with (S (2 * i + 1)) by lia. done.
    - apply Nat.ltb_ge in E2. lia. }
  clearbody j. clear b. destruct Hj as [Hj Hpj]. destruct (lessAt l j i) eqn:E3; simpl.
  - apply IH; [by rewrite swap_length|lia| |].
    + intros c Hc Hk Hne. destruct (decide ((c - 1) / 2 = i)%nat) as [Hp|Hp].
      * rewrite Hp. destruct (decide (c = j)) as [->|Hcj].
        -- rewrite (lessAt_eq (swap l i j) l j i i j) by (rewrite lookup_swap by lia; repeat case_decide; congruence || lia).
           by apply lessAt_asym.
        -- rewrite (lessAt_eq (swap l i j) l c i c j) by (rewrite lookup_swap by lia; repeat case_decide; congruence || lia).
           by apply Hbest.
      * destruct (decide (c = i)) as [->|Hci].
        -- rewrite (lessAt_eq (swap l i j) l i ((i - 1) / 2) j ((i - 1) / 2))
             by (rewrite lookup_swap by lia; repeat case_decide; congruence || lia).
           apply Hgrand; lia.
        -- rewrite (lessAt_eq (swap l i j) l c ((c - 1) / 2) c ((c - 1) / 2))
             by (rewrite lookup_swap by lia; repeat case_decide; congruence || lia). by apply Hord.
    + intros c Hc Hp _ Hk. rewrite Hpj in *.
      rewrite (lessAt_eq (swap l i j) l c i c j) by (rewrite lookup_swap by lia; repeat case_decide; congruence || lia).
      replace j with ((c - 1) / 2)%nat at 1. apply Hord; lia.
  - intros c Hc Hk. destruct (decide ((c - 1) / 2 = i)%nat) as [Hp|Hp]; [|by apply Hord]. rewrite Hp.
    destruct (decide (c = j)) as [->|Hcj]; [done|]. specialize (Hbest c Hc Hp Hcj).
    unfold lessAt in *. destruct (l !! c) as [x|] eqn:Ex, (l !! j) as [y|] eqn:Ey, (l !! i) as [z|] eqn:Ez; try done;
      [by eapply notless_trans|apply lookup_ge_None in Ey; lia].
Qed.

Lemma initFrom_ordered i : forall l, (2 * i <= length l)%nat -> ordered l (length l) i -> heap (initFrom l i) /\ initFrom l i ≡ₚ l.
Proof.
  induction i as [|i IH]; intros l Hi Ho; [done|]. simpl. pose proof (down_perm (length l) l i (length l)) as Hp.
  assert (Hl : length (down (length l) l i (length l)).1 = length l) by (by apply Permutation_length).
  destruct (IH (down (length l) l i (length l)).1) as [Hh Hperm]; [lia| |split; [done|by rewrite Hperm]].
  rewrite Hl. apply down_ordered; [done|lia| |].
  - intros c Hc Hk Hne. apply Ho; [done|lia].
  - intros c Hc Hp' H0 Hk. lia.
Qed.

Lemma heapInit_ok l : heap (heapInit l) /\ heapInit l ≡ₚ l.
Proof. apply initFrom_ordered; [lia|]. intros c Hc Hk. lia. Qed.

(** Nothing is before the root. *)
Lemma heap_best l x y : heap l -> head l = Some x -> y ∈ l -> less y x = false.
Proof.
  intros Hh Hx Hy. apply list_elem_of_lookup in Hy as [c Hc]. destruct l as [|x0 l]; [done|]. injection Hx as ->.
  revert y Hc. induction (lt_wf c) as [c _ IH]. intros y Hc. destruct (decide (c = 0)%nat) as [->|Hne].
  - injection Hc as <-. destruct (less x x) eqn:E; [|done]. pose proof (less_asym _ _ E). congruence.
  - assert (Hlt : (c < length (x :: l))%nat) by (by apply lookup_lt_Some in Hc).
    destruct (lookup_lt_is_Some_2 (x :: l) ((c - 1) / 2)) as [z Hz]; [lia|].
    assert (Hcz : less y z = false).
    { pose proof (Hh c ltac:(lia) ltac:(lia)) as Hl. unfold lessAt in Hl. by rewrite Hc, Hz in Hl. }
    eapply notless_trans; [exact Hcz|]. eapply (IH ((c - 1) / 2)%nat); [lia|done].
Qed.

(** Replacing the root and sifting it. *)
Lemma heapFix_root x l y : (heap (x :: l) -> heap (heapFix (y :: l) 0)) /\ heapFix (y :: l) 0 ≡ₚ y :: l.
Proof.
  unfold heapFix. set (h := y :: l).
  pose proof (down_perm (length h) h 0 (length h)) as Hp.
  assert (Ho : heap (x :: l) -> ordered (down (length h) h 0 (length h)).1 (length h) 0).
  { intros Hh. apply down_ordered; [done|lia| |intros; lia]. intros c Hc _ Hne.
    rewrite (lessAt_eq h (x :: l) c ((c - 1) / 2) c ((c - 1) / 2)); [apply Hh; simpl in *; lia|..];
      unfold h; rewrite !lookup_cons_ne_0 by lia; done. }
  destruct (down (length h) h 0 (length h)) as [l' k]. cbn [fst] in *.
  assert (Hl : length l' = length h) by (by apply Permutation_length).
  assert (Hup : up (length l') l' 0 = l') by (by destruct (length l')).
  destruct (0 <? k)%nat; rewrite ?Hup; (split; [intros Hh; unfold heap; rewrite Hl; auto|done]).
Qed.

(** Taking the root. *)
Lemma heapPop_ok x l : exists l', heapPop (x :: l) = Ok (x, l') /\ (heap (x :: l) -> heap l') /\ l' ≡ₚ l.
Proof.
  unfold heapPop. cbn [length Nat.eqb]. rewrite Nat.sub_succ, Nat.sub_0_r. set (n := length l).
  set (h := swap (x :: l) 0 n). assert (Hlen : length h = S n) by (unfold h; by rewrite swap_length).
  pose proof (down_perm n h 0 n) as Hp. set (d := (down n h 0 n).1) in *.
  assert (Hd : length d = S n) by (by rewrite (Permutation_length Hp)).
  assert (Hlast : d !! n = Some x).
  { unfold d. rewrite down_frame by lia. unfold h. rewrite lookup_swap by (cbn; lia). by rewrite decide_True. }
  cbv zeta. rewrite Hlast. exists (take n d). split; [done|]. split.
  - intros Hh.
    assert (Ho : ordered d n 0).
    { apply down_ordered; [lia|lia| |intros; lia]. intros c Hc _ Hne. unfold h.
      rewrite (lessAt_eq _ (x :: l) c ((c - 1) / 2) c ((c - 1) / 2)); [apply Hh; cbn; lia|..];
        rewrite lookup_swap by (cbn; lia); rewrite !decide_False by lia; done. }
    intros c Hc Hk. rewrite length_take in Hc.
    rewrite (lessAt_eq _ d c ((c - 1) / 2) c ((c - 1) / 2)) by (apply lookup_take_lt; lia). apply Ho; lia.
  - apply (Permutation_cons_inv (a := x)). rewrite <- (swap_perm (x :: l) 0 n). fold h. rewrite <- Hp.
    assert (Hsplit : d = take n d ++ [x]).
    { rewrite <- (take_drop_middle d n x Hlast) at 1. by rewrite (drop_ge d (S n)) by lia. }
    rewrite Hsplit at 2. by rewrite Permutation_cons_append.
Qed.

(** Sifting up restores the order above [j]. *)
Lemma up_perm fuel : forall l j, up fuel l j ≡ₚ l.
Proof.
  induction fuel as [|fuel IH]; intros l j; [done|]. cbn [up]. case_if; [done|]. by rewrite IH, swap_perm.
Qed.

Lemma up_frame fuel : forall l j k, (j < k)%nat -> (k < length l)%nat -> up fuel l j !! k = l !! k.
Proof.
  induction fuel as [|fuel IH]; intros l j k Hj Hk; [done|]. cbn [up]. case_if; [done|].
  rewrite IH by (rewrite ?swap_length; lia). rewrite lookup_swap by lia. by rewrite !decide_False by lia.
Qed.

Lemma up_ordered fuel : forall l j n, (n <= length l)%nat -> (j < n)%nat -> (j <= fuel)%nat ->
  (forall c, (0 < c < n)%nat -> c <> j -> lessAt l c ((c - 1) / 2) = false) ->
  (forall c, (0 < c < n)%nat -> ((c - 1) / 2 = j)%nat -> (0 < j)%nat -> lessAt l c ((j - 1) / 2) = false) ->
  ordered (up fuel l j) n 0.
Proof.
  induction fuel as [|fuel IH]; intros l j n Hn Hj Hf Hord Hgrand.
  { intros c Hc _. apply Hord; lia. }
  cbn [up]. set (i := ((j - 1) / 2)%nat). destruct (i =? j)%nat eqn:E1; cbn [orb].
  { apply Nat.eqb_eq in E1. intros c Hc _. apply Hord; lia. }
  apply Nat.eqb_neq in E1. destruct (lessAt l j i) eqn:E2; cbn [negb].
  2: { intros c Hc _. destruct (decide (c = j)) as [->|]; [done|by apply Hord]. }
  assert (Hij : (i < j)%nat) by lia. apply IH; [by rewrite swap_length|lia|lia| |].
  - intros c Hc Hci. destruct (decide (c = j)) as [->|Hcj].
    + change ((j - 1) / 2)%nat with i. rewrite (lessAt_eq (swap l i j) l j i i j) by (rewrite lookup_swap by lia; repeat case_decide; congruence || lia).
      by apply lessAt_asym.
    + destruct (decide ((c - 1) / 2 = j)%nat) as [Hp|Hp].
      * rewrite Hp. rewrite (lessAt_eq (swap l i j) l c j c i) by (rewrite lookup_swap by lia; repeat case_decide; congruence || lia).
        apply Hgrand; lia.
      * destruct (decide ((c - 1) / 2 = i)%nat) as [Hq|Hq].
        -- rewrite Hq. rewrite (lessAt_eq (swap l i j) l c i c j) by (rewrite lookup_swap by lia; repeat case_decide; congruence || lia).
           specialize (Hord c Hc Hcj). rewrite Hq in Hord. apply lessAt_asym in E2. unfold lessAt in *.
           destruct (l !! c) as [x|] eqn:Ex, (l !! j) as [y|] eqn:Ey, (l !! i) as [z|] eqn:Ez; try done;
             [by eapply notless_trans|apply lookup_ge_None in Ez; lia].
        -- rewrite (lessAt_eq (swap l i j) l c ((c - 1) / 2) c ((c - 1) / 2))
             by (rewrite lookup_swap by lia; repeat case_decide; congruence || lia). by apply Hord.
  - intros c Hc Hp Hi. set (g := ((i - 1) / 2)%nat). assert (Hig : lessAt l i g = false) by (apply Hord; lia).
    destruct (decide (c = j)) as [->|Hcj].
    + by rewrite (lessAt_eq (swap l i j) l j g i g) by (rewrite lookup_swap by lia; repeat case_decide; congruence || lia).
    + rewrite (lessAt_eq (swap l i j) l c g c g) by (rewrite lookup_swap by lia; repeat case_decide; congruence || lia).
      pose proof (Hord c Hc Hcj) as Hci. rewrite Hp in Hci. unfold lessAt in *.
      destruct (l !! c) as [x|] eqn:Ex, (l !! i) as [y|] eqn:Ey, (l !! g) as [z|] eqn:Ez; try done;
        [by eapply notless_trans|apply lookup_ge_None in Ey; lia].
Qed.

Lemma heapPush_ok l x : (heap l -> heap (heapPush l x)) /\ heapPush l x ≡ₚ x :: l.
Proof.
  unfold heapPush. split; [|rewrite up_perm; by rewrite <- Permutation_cons_append].
  intros Hh. unfold heap. rewrite (Permutation_length (up_perm _ _ _)), length_app. cbn [length].
  apply up_ordered; rewrite ?length_app; cbn [length]; [lia|lia|lia| |intros; lia].
  intros c Hc Hne. rewrite (lessAt_eq _ l c ((c - 1) / 2) c ((c - 1) / 2)) by (apply lookup_app_l; lia). apply Hh; lia.
Qed.

(** Moving the last element into the hole at [i] and sifting it either way. *)
Lemma heapRemove_ok l i x : l !! i = Some x ->
  exists l', heapRemove l i = Ok (x, l') /\ (heap l -> heap l') /\ x :: l' ≡ₚ l.
Proof.
  intros Hx. pose proof (lookup_lt_Some _ _ _ Hx) as Hi. unfold heapRemove.
  rewrite (proj2 (Nat.leb_gt _ _)) by lia. set (n := (length l - 1)%nat). cbv zeta.
  set (d := if (n =? i)%nat then l else _).
  assert (Hd : d ≡ₚ l /\ d !! n = Some x /\ (heap l -> ordered d n 0)).
  { unfold d. destruct (n =? i)%nat eqn:E.
    { apply Nat.eqb_eq in E. subst i. split_and!; [done|done|]. intros Hh c Hc Hk. apply Hh; lia. }
    apply Nat.eqb_neq in E. set (h := swap l i n).
    pose proof (down_perm n h i n) as Hp. assert (Hlen : length h = length l) by (unfold h; apply swap_length).
    assert (Hhn : h !! n = Some x) by (unfold h; rewrite lookup_swap by lia; rewrite decide_True by done; done).
    assert (Hh0 : heap l -> forall c p, (c < n)%nat -> (p < n)%nat -> c <> i -> p <> i -> lessAt h c p = lessAt l c p).
    { intros _ c q Hc Hq Hci Hqi. apply lessAt_eq; unfold h; rewrite lookup_swap by lia; repeat case_decide; congruence || lia. }
    assert (Hord : heap l -> (forall c, (0 < c < n)%nat -> c <> i -> ((c - 1) / 2 <> i)%nat -> lessAt h c ((c - 1) / 2) = false) /\
      (forall c, (0 < c < n)%nat -> ((c - 1) / 2 = i)%nat -> (0 < i)%nat -> lessAt h c ((i - 1) / 2) = false)).
    { intros Hh. split.
      - intros c Hc Hci Hpi. rewrite Hh0 by (done || lia). apply Hh; lia.
      - intros c Hc Hpi H0. rewrite Hh0 by (done || lia).
        pose proof (Hh c ltac:(lia) ltac:(lia)) as Hc1. pose proof (Hh i ltac:(lia) ltac:(lia)) as Hc2. rewrite Hpi in Hc1.
        unfold lessAt in *. rewrite Hx in *. destruct (l !! c), (l !! ((i - 1) / 2)%nat); try done. by eapply notless_trans. }
    assert (Hdn : (down n h i n).1 !! n = Some x) by (rewrite down_frame by lia; done).
    destruct (down n h i n) as [l' k] eqn:Ed. cbn [fst] in *.
    assert (Hl' : length l' = length l) by (by rewrite (Permutation_length Hp), Hlen).
    assert (Hperm : l' ≡ₚ l) by (rewrite Hp; apply swap_perm).
    split; [destruct (i <? k)%nat; rewrite ?up_perm; done|]. split.
    { destruct (i <? k)%nat; [done|]. by rewrite up_frame by lia. }
    intros Hh. destruct (Hord Hh) as [Ho Hg].
    destruct (decide (0 < i)%nat) as [Hpos|Hpos]; [destruct (lessAt h i ((i - 1) / 2)) eqn:El|].
    - (* before its parent: it does not sink *)
      assert (Hstay : forall c, (0 < c < n)%nat -> ((c - 1) / 2 = i)%nat -> lessAt h c i = false).
      { intros c Hc Hp'. specialize (Hg c Hc Hp' Hpos). apply lessAt_asym in El. unfold lessAt in *.
        destruct (h !! c) as [a|] eqn:Ea, (h !! i) as [b|] eqn:Eb, (h !! ((i - 1) / 2)%nat) as [z|] eqn:Ez; try done;
          [by eapply notless_trans|apply lookup_ge_None in Ez; lia]. }
      assert (Hsame : down n h i n = (h, i)).
      { replace (down n h i n) with (down (S (n - 1)) h i n) by (f_equal; lia).
        cbn [down]. destruct (n <=? 2 * i + 1)%nat eqn:E1; [done|]. apply Nat.leb_gt in E1.
        set (j := if _ && _ then _ else _). assert (Hj : (0 < j < n)%nat /\ ((j - 1) / 2 = i)%nat).
        { unfold j. clearbody n. clear -E1. destruct (S (2 * i + 1) <? n)%nat eqn:E2; cbn [andb]; [apply Nat.ltb_lt in E2; destruct (lessAt _ _ _); lia|lia]. }
        clearbody j. by rewrite Hstay by lia. }
      rewrite Hsame in Ed. injection Ed as <- <-. rewrite Nat.ltb_irrefl. apply up_ordered; [lia|lia|lia| |done].
      intros c Hc Hci. destruct (decide ((c - 1) / 2 = i)%nat) as [Hp'|]; [|by apply Ho]. rewrite Hp'. by apply Hstay.
    - (* not before its parent: it does not rise *)
      assert (Hod : ordered (down n h i n).1 n 0).
      { apply down_ordered; [lia|lia| |auto]. intros c Hc _ Hne. destruct (decide (c = i)) as [->|]; [done|by apply Ho]. }
      rewrite Ed in Hod. cbn [fst] in Hod. destruct (i <? k)%nat; [done|]. apply up_ordered; [lia|lia|lia|intros; apply Hod; lia|].
      intros c Hc Hp' _. pose proof (Hod c Hc ltac:(lia)) as Hc1. pose proof (Hod i ltac:(lia) ltac:(lia)) as Hc2. rewrite Hp' in Hc1.
      unfold lessAt in *. destruct (l' !! c) as [a|] eqn:Ea, (l' !! i) as [b|] eqn:Eb, (l' !! ((i - 1) / 2)%nat) as [z|] eqn:Ez; try done;
        [by eapply notless_trans|apply lookup_ge_None in Eb; lia].
    - assert (Hod : ordered (down n h i n).1 n 0).
      { apply down_ordered; [lia|lia| |intros; lia]. intros c Hc _ Hne. apply Ho; lia. }
      rewrite Ed in Hod. cbn [fst] in Hod. destruct (i <? k)%nat; [done|]. apply up_ordered; [lia|lia|lia|intros; apply Hod; lia|lia]. }
  clearbody d. destruct Hd as (Hp & Hn & Ho). rewrite Hn. exists (take n d). split; [done|].
  assert (Hdl : length d = length l) by (by apply Permutation_length). split.
  - intros Hh c Hc Hk. rewrite length_take in Hc.
    rewrite (lessAt_eq _ d c ((c - 1) / 2) c ((c - 1) / 2)) by (apply lookup_take_lt; lia). apply Ho; [done|lia|lia].
  - rewrite <- Hp. rewrite <- (take_drop_middle d n x Hn) at 2. rewrite (drop_ge d (S n)) by lia.
    by rewrite Permutation_cons_append.
Qed.
End Heap.
Arguments heap {X} less l. Arguments WeakOrder {X} less.
