(* ===== verification/Hoare.v ===== *)
(** * Loops and triples for the state monad

    [range] over a slice as a loop of [ST], and triples that say how a stateful
    method ends: never in a panic, with a value or an error that satisfy their
    postconditions. *)

From S2P Require Import Prelude.

Fixpoint st_each {S A} (f : A -> ST S unit) (l : list A) : ST S unit :=
  match l with [] => mret tt | x :: l => _ ← f x; st_each f l end.

(** The values of the rounds that have one. *)
Fixpoint st_collect {S A B} (f : A -> ST S (list B)) (l : list A) : ST S (list B) :=
  match l with [] => mret [] | x :: l => y ← f x; ys ← st_collect f l; mret (y ++ ys) end.

(** A slice that may hold nil: the body dereferences every element. *)
Definition st_each_some {S A} (f : A -> ST S unit) : list (option A) -> ST S unit :=
  st_each (fun o => match o with Some x => f x | None => st_panic end).

Definition triple {S A} (P : S -> Prop) (m : ST S A) (Q : A -> S -> Prop) (E : error -> S -> Prop) : Prop :=
  forall s, P s -> match m s with (Ok a, s') => Q a s' | (Err e, s') => E e s' | (Panic, _) => False end.
(** No error either. *)
Definition always {S A} (P : S -> Prop) (m : ST S A) (Q : A -> S -> Prop) : Prop := triple P m Q (fun _ _ => False).

Section Triples.
Context {S : Type}.
Implicit Types (P R : S -> Prop) (E : error -> S -> Prop).

Lemma triple_conseq {A} P P' (m : ST S A) (Q Q' : A -> S -> Prop) E E' :
  triple P' m Q' E' -> (forall s, P s -> P' s) -> (forall a s, Q' a s -> Q a s) -> (forall e s, E' e s -> E e s) -> triple P m Q E.
Proof. intros Hm HP HQ HE s Hs. specialize (Hm s (HP s Hs)). destruct (m s) as [[a|e|] s']; auto. Qed.

Lemma triple_ret {A} (a : A) (Q : A -> S -> Prop) E : triple (Q a) (mret a) Q E.
Proof. by intros s Hs. Qed.

Lemma triple_bind {A B} P (m : ST S A) (f : A -> ST S B) (R : A -> S -> Prop) Q E :
  triple P m R E -> (forall a, triple (R a) (f a) Q E) -> triple P (m ≫= f) Q E.
Proof.
  intros Hm Hf s Hs. specialize (Hm s Hs). unfold mbind, st_bind. destruct (m s) as [[a|e|] s']; [|done|done]. by apply Hf.
Qed.

Lemma triple_get {B} P (f : S -> ST S B) Q E : (forall s, P s -> triple (fun s' => s' = s) (f s) Q E) -> triple P (st_get ≫= f) Q E.
Proof. intros Hf s Hs. exact (Hf s Hs s eq_refl). Qed.

Lemma triple_modify (f : S -> S) (Q : unit -> S -> Prop) E : triple (fun s => Q tt (f s)) (st_modify f) Q E.
Proof. by intros s Hs. Qed.
Lemma triple_put (s : S) (Q : unit -> S -> Prop) E : triple (fun _ => Q tt s) (st_put s) Q E.
Proof. by intros s' Hs. Qed.
Lemma triple_err {A} e (Q : A -> S -> Prop) E : triple (E e) (st_err e) Q E.
Proof. by intros s Hs. Qed.
Lemma triple_lift {A} (a : A) P (Q : A -> S -> Prop) E : (forall s, P s -> Q a s) -> triple P (st_lift (Ok a)) Q E.
Proof. intros HQ s Hs. by apply HQ. Qed.
Lemma triple_fail_if P b e (Q : unit -> S -> Prop) E :
  (forall s, P s -> b = true -> E e s) -> (forall s, P s -> b = false -> Q tt s) -> triple P (st_fail_if b e) Q E.
Proof. intros HE HQ s Hs. destruct b; simpl; auto. Qed.
Lemma triple_if {A} P (b : bool) (m1 m2 : ST S A) Q E :
  (b = true -> triple P m1 Q E) -> (b = false -> triple P m2 Q E) -> triple P (if b then m1 else m2) Q E.
Proof. destruct b; auto. Qed.

Lemma triple_pure {A} (phi : Prop) P (m : ST S A) Q E : (phi -> triple P m Q E) -> triple (fun s => phi /\ P s) m Q E.
Proof. intros Hm s [Hphi Hs]. by apply Hm. Qed.

Lemma triple_exists {A X} (P : X -> S -> Prop) (m : ST S A) Q E : (forall x, triple (P x) m Q E) -> triple (fun s => exists x, P x s) m Q E.
Proof. intros Hm s [x Hs]. by apply (Hm x). Qed.

(** A run from one state. *)
Lemma triple_run {A} P (m : ST S A) Q E s : triple P m Q E -> P s ->
  (exists a s', m s = (Ok a, s') /\ Q a s') \/ (exists e s', m s = (Err e, s') /\ E e s').
Proof. intros Hm Hs. specialize (Hm s Hs). destruct (m s) as [[a|e|] s']; [left|right|done]; eauto. Qed.
Lemma always_run {A} P (m : ST S A) Q s : always P m Q -> P s -> exists a s', m s = (Ok a, s') /\ Q a s'.
Proof. intros Hm Hs. destruct (triple_run _ _ _ _ s Hm Hs) as [?|(e & s' & _ & [])]. done. Qed.
Lemma always_of {A} P (m : ST S A) Q : (forall s, P s -> exists a s', m s = (Ok a, s') /\ Q a s') -> always P m Q.
Proof. intros Hm s Hs. destruct (Hm s Hs) as (a & s' & -> & HQ). done. Qed.

(** A loop over a list with an invariant on what is still to come. *)
Lemma triple_each {A} (f : A -> ST S unit) (I : list A -> S -> Prop) E : (forall x l, triple (I (x :: l)) (f x) (fun _ => I l) E) ->
  forall l, triple (I l) (st_each f l) (fun _ => I []) E.
Proof.
  intros Hf l. induction l as [|x l IH]; [apply (triple_ret tt (fun _ => I []))|].
  eapply triple_bind; [apply Hf|]. intros []. exact IH.
Qed.
Lemma triple_each_some {A} (f : A -> ST S unit) (I : list A -> S -> Prop) E : (forall x l, triple (I (x :: l)) (f x) (fun _ => I l) E) ->
  forall l, triple (I l) (st_each_some f (Some <$> l)) (fun _ => I []) E.
Proof.
  intros Hf l. induction l as [|x l IH]; [apply (triple_ret tt (fun _ => I []))|].
  eapply triple_bind; [apply Hf|]. intros []. exact IH.
Qed.

Lemma triple_collect {A B} (f : A -> ST S (list B)) (I : list A -> list B -> S -> Prop) E :
  (forall x l ys, triple (I (x :: l) ys) (f x) (fun y => I l (ys ++ y)) E) ->
  forall l ys, triple (I l ys) (st_collect f l) (fun y => I [] (ys ++ y)) E.
Proof.
  intros Hf l. induction l as [|x l IH]; intros ys.
  - intros s Hs. simpl. by rewrite app_nil_r.
  - cbn [st_collect]. eapply triple_bind; [apply Hf|]. intros y. cbv beta. eapply triple_bind; [apply IH|]. intros ys'. cbv beta.
    intros s Hs. simpl. by rewrite app_assoc.
Qed.

Lemma triple_try {A} P (m : ST S A) (Q : option A -> S -> Prop) E :
  triple P m (fun a => Q (Some a)) (fun _ => Q None) -> triple P (st_try m) Q E.
Proof. intros Hm s Hs. specialize (Hm s Hs). unfold st_try. destruct (m s) as [[a|e|] s']; done. Qed.
Lemma triple_catch {A} P (m : ST S A) (Q : res A -> S -> Prop) E :
  triple P m (fun a => Q (Ok a)) (fun e => Q (Err e)) -> triple P (st_catch m) Q E.
Proof. intros Hm s Hs. specialize (Hm s Hs). unfold st_catch. destruct (m s) as [[a|e|] s']; done. Qed.
End Triples.

(** ** What a method never spoils

    [preserves I m]: whatever [m] answers, even a panic, [I] still holds. *)
Definition preserves {S A} (I : S -> Prop) (m : ST S A) : Prop := forall s, I s -> I (m s).2.

Section Preserves.
Context {S : Type} (I : S -> Prop).

Lemma preserves_ret {A} (a : A) : preserves I (mret a).
Proof. by intros s. Qed.
Lemma preserves_lift {A} (r : res A) : preserves I (st_lift r).
Proof. by intros s. Qed.
Lemma preserves_err {A} e : preserves I (st_err (A:=A) e).
Proof. by intros s. Qed.
Lemma preserves_panic {A} : preserves I (st_panic (A:=A)).
Proof. by intros s. Qed.
Lemma preserves_fail_if b e : preserves I (st_fail_if b e).
Proof. intros s Hs. by destruct b. Qed.
Lemma preserves_modify f : (forall s, I s -> I (f s)) -> preserves I (st_modify f).
Proof. intros Hf s Hs. by apply Hf. Qed.
Lemma preserves_put s : I s -> preserves I (st_put s).
Proof. by intros Hs s'. Qed.
Lemma preserves_bind {A B} (m : ST S A) (f : A -> ST S B) : preserves I m -> (forall a, preserves I (f a)) -> preserves I (m ≫= f).
Proof. intros Hm Hf s Hs. specialize (Hm s Hs). unfold mbind, st_bind. destruct (m s) as [[a|e|] s']; [by apply Hf|done|done]. Qed.
Lemma preserves_get {B} (f : S -> ST S B) : (forall s, I s -> preserves I (f s)) -> preserves I (st_get ≫= f).
Proof. intros Hf s Hs. by apply (Hf s Hs). Qed.
Lemma preserves_if {A} (b : bool) (m1 m2 : ST S A) : preserves I m1 -> preserves I m2 -> preserves I (if b then m1 else m2).
Proof. by destruct b. Qed.
Lemma preserves_each {A} (f : A -> ST S unit) l : (forall x, preserves I (f x)) -> preserves I (st_each f l).
Proof. intros Hf. induction l as [|x l IH]; [apply preserves_ret|]. by apply preserves_bind. Qed.
Lemma preserves_each_some {A} (f : A -> ST S unit) l : (forall x, preserves I (f x)) -> preserves I (st_each_some f l).
Proof. intros Hf. apply preserves_each. intros [x|]; [apply Hf|apply preserves_panic]. Qed.
Lemma preserves_collect {A B} (f : A -> ST S (list B)) l : (forall x, preserves I (f x)) -> preserves I (st_collect f l).
Proof.
  intros Hf. induction l as [|x l IH]; [apply preserves_ret|]. apply preserves_bind; [done|]. intros y. apply preserves_bind; [exact IH|]. intros ys. apply preserves_ret.
Qed.
Lemma preserves_try {A} (m : ST S A) : preserves I m -> preserves I (st_try m).
Proof. intros Hm s Hs. specialize (Hm s Hs). unfold st_try. by destruct (m s) as [[a|e|] s']. Qed.
Lemma preserves_catch {A} (m : ST S A) : preserves I m -> preserves I (st_catch m).
Proof. intros Hm s Hs. specialize (Hm s Hs). unfold st_catch. by destruct (m s) as [[a|e|] s']. Qed.

(** Next to what a triple says. *)
Lemma triple_preserves {A} P (m : ST S A) (Q : A -> S -> Prop) E : triple P m Q E -> preserves I m ->
  triple (fun s => P s /\ I s) m (fun a s => Q a s /\ I s) (fun e s => E e s /\ I s).
Proof. intros Hm Hi s [Hs HI]. specialize (Hm s Hs). specialize (Hi s HI). by destruct (m s) as [[a|e|] s']. Qed.
End Preserves.

Create HintDb frame.
#[export] Hint Resolve preserves_ret preserves_lift preserves_err preserves_panic preserves_fail_if preserves_put : frame.

(** One step into a method. *)
Ltac frame_step :=
  match goal with
  | |- preserves _ (mbind _ st_get) => apply preserves_get; intros ? ?
  | |- preserves _ (mbind _ _) => apply preserves_bind; [|intros ?]
  | |- preserves _ (st_each _ _) => apply preserves_each; intros ?
  | |- preserves _ (st_each_some _ _) => apply preserves_each_some; intros ?
  | |- preserves _ (st_collect _ _) => apply preserves_collect; intros ?
  | |- preserves _ (st_try _) => apply preserves_try
  | |- preserves _ (st_catch _) => apply preserves_catch
  | |- preserves _ (match ?x with _ => _ end) => destruct x
  end.
