(* ===== verification/Float.v ===== *)
(** * Double precision numbers

    Go's [float64] operations as those of the specification of binary64, and
    the conversions from and to integers. *)

From S2P Require Import Prelude.
From Stdlib Require Export Floats.SpecFloat.

Definition f64_of_Z (z : Z) : spec_float := binary_normalize 53 1024 z 0 false.
Definition f64_mul : spec_float -> spec_float -> spec_float := SFmul 53%Z 1024%Z.
Definition f64_div : spec_float -> spec_float -> spec_float := SFdiv 53%Z 1024%Z.

(** [uint64(f)]: truncation; outside the range of the type the language leaves
    the result to the implementation, here [oob]. *)
Definition f64_to_u64 (oob : spec_float -> Z) (f : spec_float) : Z :=
  match f with
  | S754_zero _ => 0
  | S754_finite false m e =>
      let z := if 0 <=? e then Zpos m * 2 ^ e else Zpos m / 2 ^ (- e) in
      if z <? 18446744073709551616 then z else oob f
  | _ => oob f
  end.

(** [int64(f)], in the same way. *)
Definition f64_to_i64 (oob : spec_float -> Z) (f : spec_float) : Z :=
  match f with
  | S754_zero _ => 0
  | S754_finite s m e =>
      let z := if 0 <=? e then Zpos m * 2 ^ e else Zpos m / 2 ^ (- e) in
      let z := if s then - z else z in
      if (-9223372036854775808 <=? z) && (z <? 9223372036854775808) then z else oob f
  | _ => oob f
  end.

Definition f64_add : spec_float -> spec_float -> spec_float := SFadd 53%Z 1024%Z.
Definition f64_lt : spec_float -> spec_float -> bool := SFltb.

(** A decimal constant: the double nearest to a quotient. *)
Definition f64_const (num den : Z) : spec_float := f64_div (f64_of_Z num) (f64_of_Z den).
