(* ===== verification/Params.v ===== *)
(** * Chain configuration and fork schedule (params/config.go)

    Fork predicates, the order check of a schedule, and the compatibility check
    made when a node restarts with a new configuration over an old database.
    A [*big.Int] block number is an [option Z], [None] being nil. *)

From S2P Require Import Prelude.

Record CongressConfig : Type := mkCongressConfig {
  Period : Z;
  Epoch : Z;
  EnableDevVerification : bool;
}.

(** The engine section is reduced to the Congress engine: the other two engine
    configurations are never read by the modelled code. *)
Record ChainConfig : Type := mkChainConfig {
  ChainID : option Z;
  HomesteadBlock : option Z;
  DAOForkBlock : option Z;
  DAOForkSupport : bool;
  EIP150Block : option Z;
  EIP150Hash : Hash;
  EIP155Block : option Z;
  EIP158Block : option Z;
  ByzantiumBlock : option Z;
  ConstantinopleBlock : option Z;
  PetersburgBlock : option Z;
  IstanbulBlock : option Z;
  MuirGlacierBlock : option Z;
  BerlinBlock : option Z;
  LondonBlock : option Z;
  ArrowGlacierBlock : option Z;
  TerminalTotalDifficulty : option Z;
  RedCoastBlock : option Z;
  SophonBlock : option Z;
  Congress : option CongressConfig;
}.

Definition isForked (s head : option Z) : bool :=
  match s, head with
  | Some s, Some head => s <=? head
  | _, _ => false
  end.

Definition configNumEqual (x y : option Z) : bool :=
  match x, y with
  | None, None => true
  | Some x, Some y => x =? y
  | _, _ => false
  end.

Definition isForkIncompatible (s1 s2 head : option Z) : bool :=
  (isForked s1 head || isForked s2 head) && negb (configNumEqual s1 s2).

Definition IsHomestead (c : ChainConfig) (num : option Z) : bool := isForked (HomesteadBlock c) num.
Definition IsDAOFork (c : ChainConfig) (num : option Z) : bool := isForked (DAOForkBlock c) num.
Definition IsEIP150 (c : ChainConfig) (num : option Z) : bool := isForked (EIP150Block c) num.
Definition IsEIP155 (c : ChainConfig) (num : option Z) : bool := isForked (EIP155Block c) num.
Definition IsEIP158 (c : ChainConfig) (num : option Z) : bool := isForked (EIP158Block c) num.
Definition IsByzantium (c : ChainConfig) (num : option Z) : bool := isForked (ByzantiumBlock c) num.
Definition IsConstantinople (c : ChainConfig) (num : option Z) : bool := isForked (ConstantinopleBlock c) num.
Definition IsMuirGlacier (c : ChainConfig) (num : option Z) : bool := isForked (MuirGlacierBlock c) num.
Definition IsPetersburg (c : ChainConfig) (num : option Z) : bool :=
  isForked (PetersburgBlock c) num
  || (match PetersburgBlock c with None => true | Some _ => false end
      && isForked (ConstantinopleBlock c) num).
Definition IsIstanbul (c : ChainConfig) (num : option Z) : bool := isForked (IstanbulBlock c) num.
Definition IsBerlin (c : ChainConfig) (num : option Z) : bool := isForked (BerlinBlock c) num.
Definition IsLondon (c : ChainConfig) (num : option Z) : bool := isForked (LondonBlock c) num.
Definition IsArrowGlacier (c : ChainConfig) (num : option Z) : bool := isForked (ArrowGlacierBlock c) num.
Definition IsRedCoast (c : ChainConfig) (num : option Z) : bool := isForked (RedCoastBlock c) num.
Definition IsSophon (c : ChainConfig) (num : option Z) : bool := isForked (SophonBlock c) num.

Definition IsTerminalPoWBlock (c : ChainConfig) (parentTotalDiff totalDiff : Z) : bool :=
  match TerminalTotalDifficulty c with
  | None => false
  | Some t => (parentTotalDiff <? t) && (t <=? totalDiff)
  end.

(** ** [Rules] *)

Record Rules : Type := mkRules {
  rChainID : Z;
  rIsHomestead : bool; rIsEIP150 : bool; rIsEIP155 : bool; rIsEIP158 : bool;
  rIsByzantium : bool; rIsConstantinople : bool; rIsPetersburg : bool; rIsIstanbul : bool;
  rIsBerlin : bool; rIsLondon : bool;
}.

Definition Rules_of (c : ChainConfig) (num : option Z) : Rules :=
  {| rChainID := default 0 (ChainID c);
     rIsHomestead := IsHomestead c num; rIsEIP150 := IsEIP150 c num;
     rIsEIP155 := IsEIP155 c num; rIsEIP158 := IsEIP158 c num;
     rIsByzantium := IsByzantium c num; rIsConstantinople := IsConstantinople c num;
     rIsPetersburg := IsPetersburg c num; rIsIstanbul := IsIstanbul c num;
     rIsBerlin := IsBerlin c num; rIsLondon := IsLondon c num |}.

(** ** [CheckConfigForkOrder] *)

Record fork : Type := mkFork {
  fname : string;
  fblock : option Z;
  foptional : bool;
  fminValue : option Z;
}.

(** The zero value [fork{}] both loops start from. *)
Definition zeroFork : fork := mkFork "" None false None.

(** One iteration of the first loop: the check against [lastFork] (skipped
    while its name is empty) and the update of [lastFork]. *)
Definition checkForkStep (lastFork cur : fork) : res fork :=
  _ ← (if String.eqb (fname lastFork) "" then Ok tt else
       match fblock lastFork, fblock cur with
       | None, Some _ => Err (errorf "unsupported fork ordering: not enabled, but enabled at")
       | Some l, Some b => fail_if (b <? l) (errorf "unsupported fork ordering: enabled at, but enabled at")
       | _, None => Ok tt
       end);
  Ok (if negb (foptional cur) || bool_decide (is_Some (fblock cur)) then cur else lastFork).

(** The second loop adds the minimal block and demands strict growth. *)
Definition checkCongressForkStep (lastFork cur : fork) : res fork :=
  _ ← (match fblock cur, fminValue cur with
       | Some b, Some m => fail_if (b <? m) (errorf "unsupported fork ordering: must greater than")
       | _, _ => Ok tt
       end);
  _ ← (if String.eqb (fname lastFork) "" then Ok tt else
       match fblock lastFork, fblock cur with
       | None, Some _ => Err (errorf "unsupported fork ordering: not enabled, but enabled at")
       | Some l, Some b => fail_if (b <=? l) (errorf "unsupported fork ordering: enabled at, but enabled at")
       | _, None => Ok tt
       end);
  Ok (if negb (foptional cur) || bool_decide (is_Some (fblock cur)) then cur else lastFork).

Fixpoint foldRes {A B} (f : A -> B -> res A) (a : A) (l : list B) : res A :=
  match l with
  | [] => Ok a
  | b :: l => a' ← f a b; foldRes f a' l
  end.

Definition ethereumForks (c : ChainConfig) : list fork :=
  [ mkFork "homesteadBlock" (HomesteadBlock c) false None;
    mkFork "daoForkBlock" (DAOForkBlock c) true None;
    mkFork "eip150Block" (EIP150Block c) false None;
    mkFork "eip155Block" (EIP155Block c) false None;
    mkFork "eip158Block" (EIP158Block c) false None;
    mkFork "byzantiumBlock" (ByzantiumBlock c) false None;
    mkFork "constantinopleBlock" (ConstantinopleBlock c) false None;
    mkFork "petersburgBlock" (PetersburgBlock c) false None;
    mkFork "istanbulBlock" (IstanbulBlock c) false None;
    mkFork "muirGlacierBlock" (MuirGlacierBlock c) true None;
    mkFork "berlinBlock" (BerlinBlock c) false None;
    mkFork "londonBlock" (LondonBlock c) false None ].

Definition congressForks (c : ChainConfig) : list fork :=
  [ mkFork "redCoastBlock" (RedCoastBlock c) false (Some 2);
    mkFork "sophonBlock" (SophonBlock c) false None ].

Definition CheckConfigForkOrder (c : ChainConfig) : res unit :=
  _ ← foldRes checkForkStep zeroFork (ethereumForks c);
  _ ← foldRes checkCongressForkStep zeroFork (congressForks c);
  Ok tt.

(** ** Compatibility of a stored and a new configuration *)

Record ConfigCompatError : Type := mkCompatError {
  What : string;
  StoredConfig : option Z;
  NewConfig : option Z;
  RewindTo : Z;
}.

Definition newCompatError (what : string) (storedblock newblock : option Z) : ConfigCompatError :=
  let rew :=
    match storedblock, newblock with
    | None, _ => newblock
    | Some s, None => Some s
    | Some s, Some n => if s <? n then Some s else Some n
    end in
  mkCompatError what storedblock newblock
    (match rew with
     | Some r => if 0 <? r then u64 r -w 1 else 0
     | None => 0
     end).

(** A sequence of checks, the first failing one giving the error. *)
Fixpoint firstIncompat (l : list (bool * ConfigCompatError)) : option ConfigCompatError :=
  match l with
  | [] => None
  | (b, e) :: l => if b then Some e else firstIncompat l
  end.

Definition forkCheck (what : string) (s1 s2 head : option Z) : bool * ConfigCompatError :=
  (isForkIncompatible s1 s2 head, newCompatError what s1 s2).

Definition checkCompatible (c newcfg : ChainConfig) (head : option Z) : option ConfigCompatError :=
  firstIncompat
  [ forkCheck "Homestead fork block" (HomesteadBlock c) (HomesteadBlock newcfg) head;
    forkCheck "DAO fork block" (DAOForkBlock c) (DAOForkBlock newcfg) head;
    (IsDAOFork c head && negb (Bool.eqb (DAOForkSupport c) (DAOForkSupport newcfg)),
     newCompatError "DAO fork support flag" (DAOForkBlock c) (DAOForkBlock newcfg));
    forkCheck "EIP150 fork block" (EIP150Block c) (EIP150Block newcfg) head;
    forkCheck "EIP155 fork block" (EIP155Block c) (EIP155Block newcfg) head;
    forkCheck "EIP158 fork block" (EIP158Block c) (EIP158Block newcfg) head;
    (IsEIP158 c head && negb (configNumEqual (ChainID c) (ChainID newcfg)),
     newCompatError "EIP158 chain ID" (EIP158Block c) (EIP158Block newcfg));
    forkCheck "Byzantium fork block" (ByzantiumBlock c) (ByzantiumBlock newcfg) head;
    forkCheck "Constantinople fork block" (ConstantinopleBlock c) (ConstantinopleBlock newcfg) head;
    (isForkIncompatible (PetersburgBlock c) (PetersburgBlock newcfg) head
       && isForkIncompatible (ConstantinopleBlock c) (PetersburgBlock newcfg) head,
     newCompatError "Petersburg fork block" (PetersburgBlock c) (PetersburgBlock newcfg));
    forkCheck "Istanbul fork block" (IstanbulBlock c) (IstanbulBlock newcfg) head;
    forkCheck "Muir Glacier fork block" (MuirGlacierBlock c) (MuirGlacierBlock newcfg) head;
    forkCheck "Berlin fork block" (BerlinBlock c) (BerlinBlock newcfg) head;
    forkCheck "London fork block" (LondonBlock c) (LondonBlock newcfg) head;
    forkCheck "RedCoast fork block" (RedCoastBlock c) (RedCoastBlock newcfg) head;
    forkCheck "Arrow Glacier fork block" (ArrowGlacierBlock c) (ArrowGlacierBlock newcfg) head ].

(** The [for] loop of [CheckCompatible]; [None] is exhausted fuel, and
    [CheckCompatible_terminates] shows that it is never reached. *)
Fixpoint checkCompatibleLoop (fuel : nat) (c newcfg : ChainConfig) (bhead : Z)
    (lasterr : option ConfigCompatError) : option (option ConfigCompatError) :=
  match fuel with
  | O => None
  | S fuel =>
      match checkCompatible c newcfg (Some bhead) with
      | None => Some lasterr
      | Some err =>
          match lasterr with
          | Some l => if RewindTo err =? RewindTo l then Some lasterr
                      else checkCompatibleLoop fuel c newcfg (RewindTo err) (Some err)
          | None => checkCompatibleLoop fuel c newcfg (RewindTo err) (Some err)
          end
      end
  end.

Definition CheckCompatible (fuel : nat) (c newcfg : ChainConfig) (height : Z)
    : option (option ConfigCompatError) :=
  checkCompatibleLoop fuel c newcfg height None.

(** ** Fork order *)

(** [b] may only be scheduled when [a] is, and not before it. *)
Definition notAfter (a b : option Z) : Prop :=
  forall y, b = Some y -> exists x, a = Some x /\ x <= y.

#[export] Instance notAfter_preorder : PreOrder notAfter.
Proof.
  split.
  - intros a y ->. exists y. split; [done|lia].
  - intros a b c Hab Hbc z Hz. destruct (Hbc z Hz) as (y & Hy & ?).
    destruct (Hab y Hy) as (x & ? & ?). exists x. split; [done|lia].
Qed.

Lemma isForked_mono a b n : notAfter a b -> isForked b n = true -> isForked a n = true.
Proof.
  intros Hab. destruct b as [y|], n as [n|]; simpl; try discriminate.
  destruct (Hab y eq_refl) as (x & -> & ?). intros. bool_Z. apply Z.leb_le. lia.
Qed.

Lemma foldRes_cons {A B} (f : A -> B -> res A) a b l r :
  foldRes f a (b :: l) = Ok r -> exists a', f a b = Ok a' /\ foldRes f a' l = Ok r.
Proof. simpl. intros H. inv_bind H. eauto. Qed.

(** What one accepted iteration establishes, for a mandatory fork. *)
Lemma checkForkStep_ok last cur next :
  checkForkStep last cur = Ok next ->
  (fname last <> ""%string -> notAfter (fblock last) (fblock next)) /\
  (foptional cur = false -> next = cur) /\ (next = cur \/ next = last).
Proof.
  unfold checkForkStep. intros H. inv_bind H. simplify_eq. split; [|split].
  - intros Hn. apply String.eqb_neq in Hn. rewrite Hn in Hm.
    destruct (negb (foptional cur) || _) eqn:Ho; [|reflexivity].
    intros y Hy. rewrite Hy in Hm. destruct (fblock last) as [x|]; simplify_eq.
    destruct (y <? x) eqn:E; simpl in Hm; simplify_eq. bool_Z. eauto.
  - by intros ->.
  - destruct (negb (foptional cur) || _); auto.
Qed.

Lemma checkCongressForkStep_ok last cur next :
  foptional cur = false -> checkCongressForkStep last cur = Ok next ->
  next = cur /\
  (forall b m, fblock cur = Some b -> fminValue cur = Some m -> m <= b) /\
  (fname last <> ""%string -> forall b, fblock cur = Some b -> exists l, fblock last = Some l /\ l < b).
Proof.
  unfold checkCongressForkStep. intros Ho H. inv_bind H. inv_bind H. rewrite Ho in H. simplify_eq/=.
  split_and!; [done|..].
  - intros b m Hb Hm'. rewrite Hb, Hm' in Hm. destruct (b <? m) eqn:E; simpl in Hm; simplify_eq. by bool_Z.
  - intros Hn b Hb. apply String.eqb_neq in Hn. rewrite Hn, Hb in Hm0.
    destruct (fblock last) as [l|]; simplify_eq.
    destruct (b <=? l) eqn:E; simpl in Hm0; simplify_eq. bool_Z. eauto.
Qed.

(** The order in which the mandatory Ethereum forks are listed. *)
Definition mandatoryForks (c : ChainConfig) : list (option Z) :=
  [ HomesteadBlock c; EIP150Block c; EIP155Block c; EIP158Block c; ByzantiumBlock c;
    ConstantinopleBlock c; PetersburgBlock c; IstanbulBlock c; BerlinBlock c; LondonBlock c ].

Ltac fork_step :=
  match goal with
  | H : foldRes checkForkStep ?last (?f :: _) = Ok _ |- _ =>
      let a := fresh "f" in let H1 := fresh "Hle" in let H2 := fresh "Hsame" in
      let H3 := fresh in
      apply foldRes_cons in H as (a & H3 & H);
      apply checkForkStep_ok in H3 as (H1 & H2 & H3);
      destruct H3 as [->| ->]
  end.

Lemma ethereum_forks_sorted c last :
  foldRes checkForkStep zeroFork (ethereumForks c) = Ok last ->
  StronglySorted notAfter (mandatoryForks c).
Proof.
  unfold ethereumForks. intros H. apply Sorted_StronglySorted; [exact _|].
  apply foldRes_cons in H as (f0 & H0 & H). apply checkForkStep_ok in H0 as (_ & H0 & _).
  rewrite (H0 eq_refl) in *. clear H0 f0. cbn [fname fblock foptional] in *.
  repeat (fork_step; cbn [fname fblock foptional] in *;
    try match goal with Hs : false = false -> _ |- _ => discriminate (Hs eq_refl) end).
  all: repeat match goal with Hl : _ <> ""%string -> _ |- _ => specialize (Hl ltac:(discriminate)) end.
  all: repeat constructor; try assumption; etransitivity; eassumption.
Qed.

Lemma congress_forks_ordered c last :
  foldRes checkCongressForkStep zeroFork (congressForks c) = Ok last ->
  (forall r, RedCoastBlock c = Some r -> 2 <= r) /\
  (forall s, SophonBlock c = Some s -> exists r, RedCoastBlock c = Some r /\ r < s).
Proof.
  unfold congressForks. intros H.
  apply foldRes_cons in H as (f1 & H1 & H). apply checkCongressForkStep_ok in H1 as (-> & Hmin & _); [|done].
  apply foldRes_cons in H as (f2 & H2 & H). apply checkCongressForkStep_ok in H2 as (-> & _ & Hlt); [|done].
  specialize (Hlt ltac:(discriminate)). simpl in *. split; [|done]. intros; eapply Hmin; eauto.
Qed.

Lemma accepted_forks_ordered c :
  CheckConfigForkOrder c = Ok tt ->
  (forall r, RedCoastBlock c = Some r -> 2 <= r) /\
  (forall s, SophonBlock c = Some s -> exists r, RedCoastBlock c = Some r /\ r < s).
Proof. unfold CheckConfigForkOrder. intros H. inv_bind H. inv_bind H. by eapply congress_forks_ordered. Qed.

(** A schedule accepted by [CheckConfigForkOrder] activates the forks in
    order: at every block where a mandatory fork is active all the mandatory
    forks listed before it are active, and Sophon is active only after RedCoast,
    which cannot be scheduled before block 2 and comes strictly earlier. *)
Theorem CheckConfigForkOrder_sound c :
  CheckConfigForkOrder c = Ok tt ->
  (forall i j a b n, (i < j)%nat -> mandatoryForks c !! i = Some a -> mandatoryForks c !! j = Some b ->
     isForked b n = true -> isForked a n = true) /\
  (forall n, IsSophon c n = true -> IsRedCoast c n = true) /\
  (forall r, RedCoastBlock c = Some r -> 2 <= r) /\
  (forall s, SophonBlock c = Some s -> exists r, RedCoastBlock c = Some r /\ r < s).
Proof.
  unfold CheckConfigForkOrder. intros H. inv_bind H. inv_bind H.
  apply ethereum_forks_sorted in Hm.
  destruct (congress_forks_ordered c a0 Hm0) as [Hmin Hlt].
  split_and!; [| |done|done].
  - intros i j x y n Hij Hx Hy. apply isForked_mono.
    eapply (StronglySorted_app_1_elem_of notAfter (take j (mandatoryForks c)) (drop j (mandatoryForks c))).
    + by rewrite take_drop.
    + apply list_elem_of_lookup. exists i. by rewrite lookup_take_lt by lia.
    + apply list_elem_of_lookup. exists 0%nat. rewrite lookup_drop, Nat.add_0_r. done.
  - intros n. apply isForked_mono. intros s Hs. destruct (Hlt s Hs) as (r & ? & ?).
    exists r. split; [done|lia].
Qed.

(** The main network's schedule: every Ethereum fork at genesis, and the two
    Congress forks at blocks 2 and 5. *)
Definition sampleConfig : ChainConfig :=
  mkChainConfig (Some 2691) (Some 0) None false (Some 0) 0 (Some 0) (Some 0) (Some 0) (Some 0)
    (Some 0) (Some 0) (Some 0) (Some 0) (Some 0) None None (Some 2) (Some 5)
    (Some (mkCongressConfig 1 50 false)).

Lemma CheckConfigForkOrder_sound_witness :
  CheckConfigForkOrder sampleConfig = Ok tt /\ IsRedCoast sampleConfig (Some 7) = true.
Proof.
  split; [vm_compute; reflexivity|].
  apply (CheckConfigForkOrder_sound sampleConfig); vm_compute; reflexivity.
Defined.

(** ** Compatibility *)

Lemma firstIncompat_elim l e (P : ConfigCompatError -> Prop) :
  Forall (fun p => p.1 = true -> P p.2) l -> firstIncompat l = Some e -> P e.
Proof.
  induction 1 as [|[b e'] l Hb _ IH]; simpl; [done|].
  destruct b; intros; simplify_eq; auto.
Qed.

(** The rewind target lies strictly below the head the check was made at, or
    is the genesis block. *)
Definition rewindsBelow (h : Z) (e : ConfigCompatError) : Prop :=
  0 <= RewindTo e /\ (RewindTo e = 0 \/ RewindTo e < h).

Lemma newCompatError_below what s1 s2 h :
  is_u64 h -> isForked s1 (Some h) || isForked s2 (Some h) = true ->
  rewindsBelow h (newCompatError what s1 s2).
Proof.
  intros Hh Hf. unfold rewindsBelow, newCompatError. simpl.
  destruct s1 as [a|], s2 as [b|]; simpl in *; rewrite ?orb_true_iff, ?orb_false_r in Hf;
    repeat case_if; bool_Z; try word_lia;
    repeat match goal with H : _ \/ _ |- _ => destruct H end; bool_Z; word_lia.
Qed.

Lemma forkCheck_below what s1 s2 h :
  is_u64 h -> (forkCheck what s1 s2 (Some h)).1 = true ->
  rewindsBelow h (forkCheck what s1 s2 (Some h)).2.
Proof.
  unfold forkCheck, isForkIncompatible. simpl. intros Hh Hb. apply andb_prop in Hb as [Hb _].
  by apply newCompatError_below.
Qed.

Lemma checkCompatible_below c n h e :
  is_u64 h -> checkCompatible c n (Some h) = Some e -> rewindsBelow h e.
Proof.
  intros Hh. apply firstIncompat_elim.
  repeat first [apply Forall_nil_2 | apply Forall_cons_2];
    try (apply forkCheck_below; exact Hh); cbn [fst snd]; intros Hb;
    repeat match goal with H : (_ && _)%bool = true |- _ => apply andb_prop in H as [? ?] end;
    apply newCompatError_below; try exact Hh.
  - unfold IsDAOFork in *. by apply orb_true_iff; left.
  - unfold IsEIP158 in *. by apply orb_true_iff; left.
  - unfold isForkIncompatible in *.
    match goal with H : (_ && _)%bool = true |- _ => by apply andb_prop in H as [? _] end.
Qed.

(** The state of the loop between two iterations: the last error is the one
    reported at an earlier head and the head has been rewound to its target. *)
Lemma checkCompatibleLoop_spec c n : forall fuel h last,
  is_u64 h -> (forall l, last = Some l -> RewindTo l = h) ->
  (Z.to_nat h + 1 < fuel + (match last with Some _ => 1 | None => 0 end))%nat ->
  exists r, checkCompatibleLoop fuel c n h last = Some r /\
    (r = None -> last = None /\ checkCompatible c n (Some h) = None) /\
    (forall e, r = Some e -> 0 <= RewindTo e <= h /\
       (0 < RewindTo e -> checkCompatible c n (Some (RewindTo e)) = None)).
Proof.
  induction fuel as [|fuel IH]; intros h last Hh Hlast Hfuel.
  { destruct last; lia. }
  simpl. destruct (checkCompatible c n (Some h)) as [err|] eqn:E.
  - destruct (checkCompatible_below _ _ _ _ Hh E) as [Hpos Hlt].
    destruct last as [l|].
    + specialize (Hlast l eq_refl). destruct (RewindTo err =? RewindTo l) eqn:El; bool_Z.
      * exists (Some l). split_and!; [done|done|]. intros e [= <-]. split; [word_lia|].
        intros Hl. lia.
      * destruct (IH (RewindTo err) (Some err)) as (r & Hr & H1 & H2); [word_lia|congruence|word_lia|].
        exists r. split_and!; [done|intros ->; by destruct H1|]. intros e He.
        destruct (H2 e He). split; [word_lia|done].
    + destruct (IH (RewindTo err) (Some err)) as (r & Hr & H1 & H2); [word_lia|congruence|word_lia|].
      exists r. split_and!; [done|intros ->; by destruct H1|]. intros e He.
      destruct (H2 e He). split; [word_lia|done].
  - exists last. split_and!; [done|by intros ->|]. intros e ->.
    specialize (Hlast e eq_refl). subst h. split; [word_lia|done].
Qed.

(** [CheckCompatible] returns after at most height + 2 checks; without an
    error the configurations agree on everything active at the current height;
    with an error the advised rewind target is not above the head and, unless
    it is the genesis block, the configurations are compatible there. *)
Theorem CheckCompatible_correct c newcfg height fuel :
  is_u64 height -> (Z.to_nat height + 2 <= fuel)%nat ->
  exists r, CheckCompatible fuel c newcfg height = Some r /\
    (r = None <-> checkCompatible c newcfg (Some height) = None) /\
    (forall e, r = Some e -> 0 <= RewindTo e <= height /\
       (0 < RewindTo e -> checkCompatible c newcfg (Some (RewindTo e)) = None)).
Proof.
  intros Hh Hf. unfold CheckCompatible.
  destruct (checkCompatibleLoop_spec c newcfg fuel height None) as (r & Hr & H1 & H2);
    [done|done|lia|].
  exists r. split_and!; [done| |done]. split; [intros ?; by apply H1|].
  intros Hc. destruct fuel; [lia|]. simpl in Hr. rewrite Hc in Hr. congruence.
Qed.

Definition setBerlin (c : ChainConfig) (b : option Z) : ChainConfig :=
  mkChainConfig (ChainID c) (HomesteadBlock c) (DAOForkBlock c) (DAOForkSupport c) (EIP150Block c)
    (EIP150Hash c) (EIP155Block c) (EIP158Block c) (ByzantiumBlock c) (ConstantinopleBlock c)
    (PetersburgBlock c) (IstanbulBlock c) (MuirGlacierBlock c) b (LondonBlock c) (ArrowGlacierBlock c)
    (TerminalTotalDifficulty c) (RedCoastBlock c) (SophonBlock c) (Congress c).

Lemma CheckCompatible_correct_witness :
  exists r, CheckCompatible 12 (setBerlin sampleConfig (Some 7)) (setBerlin sampleConfig (Some 9)) 10 = Some r /\
    (r = None <-> checkCompatible (setBerlin sampleConfig (Some 7)) (setBerlin sampleConfig (Some 9)) (Some 10) = None) /\
    (forall e, r = Some e -> 0 <= RewindTo e <= 10 /\
       (0 < RewindTo e ->
        checkCompatible (setBerlin sampleConfig (Some 7)) (setBerlin sampleConfig (Some 9)) (Some (RewindTo e)) = None)).
Proof. apply CheckCompatible_correct; [unfold is_u64; lia | vm_compute; lia]. Defined.

Definition setSophon (c : ChainConfig) (b : option Z) : ChainConfig :=
  mkChainConfig (ChainID c) (HomesteadBlock c) (DAOForkBlock c) (DAOForkSupport c) (EIP150Block c)
    (EIP150Hash c) (EIP155Block c) (EIP158Block c) (ByzantiumBlock c) (ConstantinopleBlock c)
    (PetersburgBlock c) (IstanbulBlock c) (MuirGlacierBlock c) (BerlinBlock c) (LondonBlock c) (ArrowGlacierBlock c)
    (TerminalTotalDifficulty c) (RedCoastBlock c) b (Congress c).

Lemma configNumEqual_refl x : configNumEqual x x = true.
Proof. destruct x; simpl; [apply Z.eqb_refl|done]. Qed.

Lemma isForkIncompatible_refl x h : isForkIncompatible x x h = false.
Proof. unfold isForkIncompatible. by rewrite configNumEqual_refl, andb_false_r. Qed.

(** Rescheduling the Sophon fork is never reported, even for a node that is
    already past it: [checkCompatible] has no Sophon check. *)
Theorem checkCompatible_ignores_Sophon c b head :
  checkCompatible c (setSophon c b) head = None.
Proof.
  unfold checkCompatible, forkCheck. simpl.
  by rewrite !isForkIncompatible_refl, Bool.eqb_reflx, configNumEqual_refl, !andb_false_r.
Qed.
