(* ===== verification/Types.v ===== *)
(** * Block headers and the header chain (core/types/block.go, consensus/consensus.go)

    The header record, the read access to the chain the engine is given, and
    the cryptographic primitives it relies on, which are not Go code of the
    repository: they are the operations of a class. *)

From S2P Require Import Prelude Params.

(** [core/types.AccessList] *)
Abbreviation AccessList := (list (Address * list Hash)).

(** [core/types.Header].  A nil [*big.Int] is [None]; byte arrays of fixed
    length are integers. *)
Record Header : Type := mkHeader {
  ParentHash : Hash;
  UncleHash : Hash;
  Coinbase : Address;
  Root : Hash;
  TxHash : Hash;
  ReceiptHash : Hash;
  Bloom : Z;
  Difficulty : option Z;
  Number : option Z;
  GasLimit : Z;
  GasUsed : Z;
  Time : Z;
  Extra : list byte;
  MixDigest : Hash;
  Nonce : Z;
  BaseFee : option Z;
}.

(** [header.Number.Uint64()], on headers whose number is set: the entry point
    [verifyHeader] refuses a nil number, headers of the chain have one. *)
Definition NumberU64 (h : Header) : Z := u64 (default 0 (Number h)).

(** Primitives computed by code outside the modelled part: the Keccak-256 hash
    of the RLP encoding of a header ([Header.Hash]), of its unsigned part
    ([SealHash]), and secp256k1 public key recovery followed by the address
    derivation ([crypto.Ecrecover], [crypto.Keccak256]). *)
Class Crypto : Type := {
  HeaderHash : Header -> Hash;
  SealHash : Header -> Hash;
  EcrecoverAddr : Hash -> list byte -> res Address;
  EmptyUncleHash : Hash;
}.

(** [consensus.ChainHeaderReader]: read access to the local chain. *)
Record ChainHeaderReader : Type := mkChain {
  Config : ChainConfig;
  CurrentHeader : option Header;
  GetHeader : Hash -> Z -> option Header;
  GetHeaderByNumber : Z -> option Header;
  GetHeaderByHash : Hash -> option Header;
}.

(** Collision freedom of the header hash on a set of headers. *)
Definition CollisionFree `{Crypto} (U : Header -> Prop) : Prop :=
  forall h1 h2, U h1 -> U h2 -> HeaderHash h1 = HeaderHash h2 -> h1 = h2.

(** Updating single fields of a header, as the engine does in place. *)
Definition set_Difficulty (d : option Z) (h : Header) : Header :=
  mkHeader (ParentHash h) (UncleHash h) (Coinbase h) (Root h) (TxHash h) (ReceiptHash h) (Bloom h) d
    (Number h) (GasLimit h) (GasUsed h) (Time h) (Extra h) (MixDigest h) (Nonce h) (BaseFee h).
Definition set_Coinbase (a : Address) (h : Header) : Header :=
  mkHeader (ParentHash h) (UncleHash h) a (Root h) (TxHash h) (ReceiptHash h) (Bloom h) (Difficulty h)
    (Number h) (GasLimit h) (GasUsed h) (Time h) (Extra h) (MixDigest h) (Nonce h) (BaseFee h).
Definition set_Extra (e : list byte) (h : Header) : Header :=
  mkHeader (ParentHash h) (UncleHash h) (Coinbase h) (Root h) (TxHash h) (ReceiptHash h) (Bloom h) (Difficulty h)
    (Number h) (GasLimit h) (GasUsed h) (Time h) e (MixDigest h) (Nonce h) (BaseFee h).
Definition set_Time (t : Z) (h : Header) : Header :=
  mkHeader (ParentHash h) (UncleHash h) (Coinbase h) (Root h) (TxHash h) (ReceiptHash h) (Bloom h) (Difficulty h)
    (Number h) (GasLimit h) (GasUsed h) t (Extra h) (MixDigest h) (Nonce h) (BaseFee h).
Definition set_MixDigest (m : Hash) (h : Header) : Header :=
  mkHeader (ParentHash h) (UncleHash h) (Coinbase h) (Root h) (TxHash h) (ReceiptHash h) (Bloom h) (Difficulty h)
    (Number h) (GasLimit h) (GasUsed h) (Time h) (Extra h) m (Nonce h) (BaseFee h).
Definition set_Nonce (n : Z) (h : Header) : Header :=
  mkHeader (ParentHash h) (UncleHash h) (Coinbase h) (Root h) (TxHash h) (ReceiptHash h) (Bloom h) (Difficulty h)
    (Number h) (GasLimit h) (GasUsed h) (Time h) (Extra h) (MixDigest h) n (BaseFee h).
Definition set_Root (r : Hash) (h : Header) : Header :=
  mkHeader (ParentHash h) (UncleHash h) (Coinbase h) r (TxHash h) (ReceiptHash h) (Bloom h) (Difficulty h)
    (Number h) (GasLimit h) (GasUsed h) (Time h) (Extra h) (MixDigest h) (Nonce h) (BaseFee h).
Definition set_UncleHash (u : Hash) (h : Header) : Header :=
  mkHeader (ParentHash h) u (Coinbase h) (Root h) (TxHash h) (ReceiptHash h) (Bloom h) (Difficulty h)
    (Number h) (GasLimit h) (GasUsed h) (Time h) (Extra h) (MixDigest h) (Nonce h) (BaseFee h).

(** ** A concrete instance

    A toy instance of the primitives, on which the properties are exercised:
    the hash of a header is its number plus one, the signature bytes are the
    signer's address. *)
Definition toyCrypto : Crypto := {|
  HeaderHash h := NumberU64 h + 1;
  SealHash h := NumberU64 h + 1;
  EcrecoverAddr _ sig := Ok (be_decode sig);
  EmptyUncleHash := 7;
|}.

(** The header of block [number] sealed by [signer], on top of block
    [number - 1], with the given validator list in its extra-data. *)
Definition toyHeader (number signer difficulty : Z) (vals : list byte) : Header :=
  mkHeader number 7 signer 0 0 0 0 (Some difficulty) (Some number) 20000000000 5000000000 (100 + number)
    (repeat Byte.x00 32 ++ vals ++ be_encode 65 signer) 0 0 (Some 1000000000).
