(* ===== verification/Misc.v ===== *)
(** * Fee market and header rules shared by the engines (consensus/misc)

    Gas limit drift, the EIP-1559 base fee with this chain's parameters
    (denominator 4, elasticity 4, floor 1 gwei), the fork hash check. *)

From S2P Require Import Prelude Params Types.

(** params/protocol_params.go *)
Definition GasLimitBoundDivisor : Z := 1024.
Definition MinGasLimit : Z := 5000.
Definition BaseFeeChangeDenominator : Z := 4.
Definition ElasticityMultiplier : Z := 4.
Definition InitialBaseFee : Z := 1000000000.
Definition MinimumBaseFee : Z := 1000000000.

(** Unsigned limits are compared through [int64]. *)
Definition VerifyGaslimit (parentGasLimit headerGasLimit : Z) : res unit :=
  let diff := i64 (i64 parentGasLimit - i64 headerGasLimit) in
  let diff := if diff <? 0 then i64 (diff * -1) else diff in
  let limit := parentGasLimit / GasLimitBoundDivisor in
  if limit <=? u64 diff then Err (errorf "invalid gas limit: have, want +-=")
  else if headerGasLimit <? MinGasLimit then Err (errorf "invalid gas limit below 5000")
  else Ok tt.

(** [big.Int.Div] panics on a zero divisor and truncates to the Euclidean
    quotient; all the divisors here are nonnegative. *)
Definition bigDiv (x y : Z) : res Z := if y =? 0 then Panic else Ok (x / y).

Definition CalcBaseFee (config : ChainConfig) (parent : Header) : res Z :=
  if negb (IsLondon config (Number parent)) then Ok 0 else
  match BaseFee parent with
  | None => Ok InitialBaseFee
  | Some parentBaseFee =>
      let parentGasTarget := GasLimit parent / ElasticityMultiplier in
      if GasUsed parent =? parentGasTarget then Ok parentBaseFee
      else if parentGasTarget <? GasUsed parent then
        let gasUsedDelta := GasUsed parent -w parentGasTarget in
        y ← bigDiv (parentBaseFee * gasUsedDelta) parentGasTarget;
        baseFeeDelta ← bigDiv y BaseFeeChangeDenominator;
        let baseFeeDelta := if baseFeeDelta =? 0 then 1 else baseFeeDelta in
        Ok (parentBaseFee + baseFeeDelta)
      else
        let gasUsedDelta := parentGasTarget -w GasUsed parent in
        y ← bigDiv (parentBaseFee * gasUsedDelta) parentGasTarget;
        baseFeeDelta ← bigDiv y BaseFeeChangeDenominator;
        let result := parentBaseFee - baseFeeDelta in
        if result <? MinimumBaseFee then Ok MinimumBaseFee else Ok result
  end.

Definition VerifyEip1559Header (config : ChainConfig) (parent header : Header) : res unit :=
  _ ← VerifyGaslimit (GasLimit parent) (GasLimit header);
  match BaseFee header with
  | None => Err (errorf "header is missing baseFee")
  | Some baseFee =>
      expectedBaseFee ← CalcBaseFee config parent;
      if baseFee =? expectedBaseFee then Ok tt
      else Err (errorf "invalid baseFee: have, want, parentBaseFee, parentGasUsed")
  end.

Definition VerifyForkHashes `{Crypto} (config : ChainConfig) (header : Header) (uncle : bool) : res unit :=
  if uncle then Ok tt else
  if match EIP150Block config, Number header with
     | Some b, Some n => b =? n
     | _, _ => false
     end
  then if negb (EIP150Hash config =? 0) && negb (EIP150Hash config =? HeaderHash header)
       then Err (errorf "homestead gas reprice fork: have, want") else Ok tt
  else Ok tt.

(** ** Gas limit *)

(** On limits below 2^63, which [verifyHeader] enforces, the check accepts
    exactly the limits that moved by less than 1/1024 of the parent's and are
    at least 5000: the signed arithmetic does not overflow. *)
Theorem VerifyGaslimit_correct p h :
  0 <= p < 2 ^ 63 -> 0 <= h < 2 ^ 63 ->
  (VerifyGaslimit p h = Ok tt <-> Z.abs (p - h) < p / 1024 /\ 5000 <= h).
Proof.
  intros Hp Hh. unfold VerifyGaslimit, GasLimitBoundDivisor, MinGasLimit.
  rewrite (i64_small p), (i64_small h), (i64_small (p - h)) by lia.
  assert (Hd : (if p - h <? 0 then i64 ((p - h) * -1) else p - h) = Z.abs (p - h)).
  { destruct (p - h <? 0) eqn:E; bool_Z; [rewrite i64_small|]; lia. }
  rewrite Hd, u64_small by word_lia.
  repeat case_if; bool_Z; split; intros; simplify_eq; try done; lia.
Qed.

Lemma VerifyGaslimit_correct_witness :
  VerifyGaslimit 10000000000 10009000000 = Ok tt <->
  Z.abs (10000000000 - 10009000000) < 10000000000 / 1024 /\ 5000 <= 10009000000.
Proof. apply VerifyGaslimit_correct; lia. Defined.

(** ** Base fee *)

Section BaseFee.
Context (config : ChainConfig) (parent : Header) (fee : Z).
Hypothesis London : IsLondon config (Number parent) = true.
Hypothesis Fee : BaseFee parent = Some fee.
Hypothesis FeePos : 0 <= fee.
Hypothesis Used : 0 <= GasUsed parent <= GasLimit parent.
Hypothesis Limit : 5000 <= GasLimit parent < 18446744073709551616.

Let target := GasLimit parent / 4.

(** The three regimes of the fee, with the arithmetic spelled out. *)
Lemma CalcBaseFee_eq :
  CalcBaseFee config parent = Ok (
    if GasUsed parent =? target then fee
    else if target <? GasUsed parent then
      fee + Z.max 1 (fee * (GasUsed parent - target) / target / 4)
    else Z.max MinimumBaseFee (fee - fee * (target - GasUsed parent) / target / 4)).
Proof.
  unfold CalcBaseFee, ElasticityMultiplier, BaseFeeChangeDenominator, bigDiv.
  rewrite London, Fee. simpl negb. cbv iota. fold target.
  assert (Ht : 1250 <= target) by (subst target; lia).
  destruct (GasUsed parent =? target) eqn:E1; [done|].
  destruct (target =? 0) eqn:E0; bool_Z; [lia|].
  destruct (target <? GasUsed parent) eqn:E2; bool_Z; cbn -[Z.div Z.mul Z.max].
  - rewrite u64_small by word_lia.
    assert (0 <= fee * (GasUsed parent - target) / target) by (apply Z.div_pos; nia).
    case_if; bool_Z; do 2 f_equal; lia.
  - rewrite u64_small by (subst target; word_lia).
    unfold MinimumBaseFee. case_if; bool_Z; f_equal; lia.
Qed.

Lemma target_pos : 1250 <= target.
Proof. subst target. lia. Qed.

(** The relative change of the gas, as a bound on the fee step. *)
Lemma fee_step_bound d k : 0 <= d <= k * target -> 0 <= fee * d / target <= fee * k.
Proof.
  pose proof target_pos. intros Hd. split; [apply Z.div_pos; nia|].
  apply Z.div_le_upper_bound; nia.
Qed.
End BaseFee.

(** The base fee of the next block is defined (no division by zero), never
    negative and never below the 1 gwei floor once the parent respects it;
    it rises by at least one wei and at most doubles when the parent used more
    than a quarter of its limit, is unchanged at exactly a quarter, and falls
    by at most a quarter of itself below. *)
Theorem CalcBaseFee_bounds config parent fee :
  IsLondon config (Number parent) = true ->
  BaseFee parent = Some fee -> MinimumBaseFee <= fee ->
  0 <= GasUsed parent <= GasLimit parent ->
  5000 <= GasLimit parent < 18446744073709551616 ->
  exists next, CalcBaseFee config parent = Ok next /\ MinimumBaseFee <= next /\
    (GasLimit parent / 4 < GasUsed parent -> fee < next <= 2 * fee) /\
    (GasUsed parent = GasLimit parent / 4 -> next = fee) /\
    (GasUsed parent < GasLimit parent / 4 -> fee - fee / 4 <= next <= fee).
Proof.
  intros HL Hf Hmin Hu Hl. unfold MinimumBaseFee in Hmin.
  eexists; split; [apply CalcBaseFee_eq; eauto; lia|].
  pose proof (target_pos parent Hl) as Ht. unfold MinimumBaseFee.
  destruct (_ =? _) eqn:E1; bool_Z; [split_and!; lia|].
  destruct (_ <? _) eqn:E2; bool_Z.
  - pose proof (fee_step_bound parent fee ltac:(lia) Hu Hl (GasUsed parent - GasLimit parent / 4) 4
                  ltac:(lia)) as Hb.
    split_and!; try lia.
  - pose proof (fee_step_bound parent fee ltac:(lia) Hu Hl (GasLimit parent / 4 - GasUsed parent) 1
                  ltac:(lia)) as Hb.
    split_and!; try lia.
Qed.

Definition sampleHeader : Header :=
  mkHeader 0 0 0 0 0 0 0 (Some 2) (Some 9) 20000000000 12000000000 100 [] 0 0 (Some 2000000000).

Lemma CalcBaseFee_bounds_witness :
  exists next, CalcBaseFee sampleConfig sampleHeader = Ok next /\ MinimumBaseFee <= next /\
    (20000000000 / 4 < 12000000000 -> 2000000000 < next <= 2 * 2000000000) /\
    (12000000000 = 20000000000 / 4 -> next = 2000000000) /\
    (12000000000 < 20000000000 / 4 -> 2000000000 - 2000000000 / 4 <= next <= 2000000000).
Proof.
  apply (CalcBaseFee_bounds sampleConfig sampleHeader 2000000000); vm_compute; try done.
Defined.
