(* ===== verification/Snapshot.v ===== *)
(** * Authorization snapshots (consensus/congress/snapshot.go)

    The validator set in force after a block and the recent signers that may
    not sign again yet, updated header by header. *)

From S2P Require Import Prelude Params Types.

Definition extraVanity : Z := 32.
Definition extraSeal : Z := 65.
Definition AddressLength : Z := 20.

(** Fields [Number] and [Hash] are named [sNumber] and [sHash]; [config] and
    [sigcache], which never change, are arguments of the methods. *)
Record Snapshot : Type := mkSnapshot {
  sNumber : Z;
  sHash : Hash;
  Validators : gset Address;
  Recents : gmap Z Address;
}.

Definition newSnapshot (number : Z) (hash : Hash) (validators : list Address) : Snapshot :=
  mkSnapshot number hash (list_to_set validators) ∅.



(** [make([]common.Address, (len(extra)-extraVanity-extraSeal)/20)] followed by
    the copies; [make] panics on a negative length. *)
Definition extraValidators (extra : list byte) : res (list Address) :=
  let n := Z.quot (zlen extra - extraVanity - extraSeal) AddressLength in
  if n <? 0 then Panic
  else Ok ((fun i => be_decode (take 20 (drop (32 + 20 * i) extra))) <$> seq 0 (Z.to_nat n)).

(** [validators]: the set in ascending order. *)
Definition validators (s : Snapshot) : list Address := merge_sort Z.le (elements (Validators s)).

Fixpoint offsetOf (l : list Address) (v : Address) : Z :=
  match l with
  | [] => 0
  | x :: l => if x =? v then 0 else 1 + offsetOf l v
  end.

(** [number % uint64(len(validators))] panics on an empty set. *)
Definition inturn (s : Snapshot) (number : Z) (validator : Address) : res bool :=
  let vs := validators s in
  if zlen vs =? 0 then Panic else Ok (number mod zlen vs =? offsetOf vs validator).

(** [len(snap.Validators)/2 + 1] *)
Definition recentLimit (n : nat) : Z := Z.of_nat n / 2 + 1.

(** ** Clean-up of the recent signers at an epoch *)

(** The scan for the smallest block number, from [math.MaxUint64]. *)
Definition oldestBlock {A} (m : gmap Z A) : Z :=
  map_fold (fun blockNum _ oldest => if blockNum <? oldest then blockNum else oldest) MaxUint64 m.

(** [for cond(len(m)) { delete(m, oldest) }]; [clearOldest_stops] shows that
    the fuel, the size of the map, is enough for the condition to fail. *)
Fixpoint clearOldest {A} (fuel : nat) (cond : nat -> bool) (m : gmap Z A) : gmap Z A :=
  if cond (size m) then
    match fuel with
    | O => m
    | S fuel => clearOldest fuel cond (delete (oldestBlock m) m)
    end
  else m.

(** [for blockNum := range snap.Recents { if number >= newLimit &&
    blockNum <= number-newLimit { delete(...) } }] *)
Definition dropOlder (number newLimit : Z) (r : gmap Z Address) : gmap Z Address :=
  filter (fun kv => ~ (newLimit <= number /\ kv.1 <= number -w newLimit)) r.

(** [for i := 0; i < entriesToClear; i++ { delete(..., number-oldLimit-uint64(i)) }] *)
Fixpoint clearReduced (n : nat) (i number oldLimit : Z) (r : gmap Z Address) : gmap Z Address :=
  match n with
  | O => r
  | S n => clearReduced n (i + 1) number oldLimit (delete (number -w oldLimit -w i) r)
  end.

Definition cleanupRecents (number : Z) (old new : gset Address) (recents : gmap Z Address)
    : gmap Z Address :=
  let oldValidatorCount := size old in
  let newValidatorCount := size new in
  let newLimit := recentLimit newValidatorCount in
  let oldLimit := recentLimit oldValidatorCount in
  let r :=
    if (oldValidatorCount <? newValidatorCount)%nat then
      let r := dropOlder number newLimit recents in
      clearOldest (size r) (fun len => (newValidatorCount <=? len)%nat) r
    else if (newValidatorCount <? oldValidatorCount)%nat then
      let entriesToClear := (oldValidatorCount / 2 - newValidatorCount / 2)%nat in
      let r := clearReduced entriesToClear 0 number oldLimit recents in
      dropOlder number newLimit r
    else
      let validatorsChanged := bool_decide (~ new ⊆ old) in
      let r := if validatorsChanged then filter (fun kv => kv.2 ∈ new) recents else recents in
      dropOlder number newLimit r in
  if (newValidatorCount <=? size r)%nat then
    let targetRecentCount := (newValidatorCount * 2 / 3)%nat in
    clearOldest (size r) (fun len => (targetRecentCount <? len)%nat) r
  else r.

(** ** Applying headers *)

Section Apply.
Context `{Crypto} `{Cache C Hash Address}.

(** [ecrecover]: the signer of a header, through the signature cache. *)
Definition recoverSigner (header : Header) : res Address :=
  if zlen (Extra header) <? extraSeal then Err errMissingSignature
  else EcrecoverAddr (SealHash header)
         (drop (Z.to_nat (zlen (Extra header) - extraSeal)) (Extra header)).

Definition ecrecover (header : Header) : ST C Address := fun sigcache =>
  match cache_get (HeaderHash header) sigcache with
  | (Some address, sigcache) => (Ok address, sigcache)
  | (None, sigcache) =>
      match recoverSigner header with
      | Ok validator => (Ok validator, cache_add (HeaderHash header) validator sigcache)
      | Err e => (Err e, sigcache)
      | Panic => (Panic, sigcache)
      end
  end.

(** The body of the loop up to [snap.Recents[number] = validator]. *)
Definition recordSigner (snap : Snapshot) (number : Z) (validator : Address) : res Snapshot :=
  let limit := recentLimit (size (Validators snap)) in
  let recents := if limit <=? number then delete (number -w limit) (Recents snap) else Recents snap in
  _ ← fail_if (bool_decide (validator ∉ Validators snap)) errUnauthorizedValidator;
  _ ← fail_if (bool_decide (Exists (fun kv => kv.2 = validator) (map_to_list recents))) errRecentlySigned;
  Ok (mkSnapshot (sNumber snap) (sHash snap) (Validators snap) (<[number := validator]> recents)).

(** The validator set change at the first block of an epoch. *)
Definition epochChange (cfg : CongressConfig) (snap : Snapshot) (header : Header) : res Snapshot :=
  let number := NumberU64 header in
  if Epoch cfg =? 0 then (if 0 <? number then Panic else Ok snap) else
  if (0 <? number) && (number mod Epoch cfg =? 0) then
    vs ← extraValidators (Extra header);
    let newValidators : gset Address := list_to_set vs in
    Ok (mkSnapshot (sNumber snap) (sHash snap) newValidators
          (cleanupRecents number (Validators snap) newValidators (Recents snap)))
  else Ok snap.

(** One iteration of the loop over the headers. *)
Definition applyHeader (cfg : CongressConfig) (snap : Snapshot) (header : Header) : ST C Snapshot :=
  validator ← ecrecover header;
  snap ← st_lift (recordSigner snap (NumberU64 header) validator);
  st_lift (epochChange cfg snap header).

Fixpoint applyLoop (cfg : CongressConfig) (snap : Snapshot) (headers : list Header) : ST C Snapshot :=
  match headers with
  | [] => mret snap
  | header :: headers => snap ← applyHeader cfg snap header; applyLoop cfg snap headers
  end.

(** [headers[i+1].Number.Uint64() != headers[i].Number.Uint64()+1] *)
Fixpoint contiguous (number : Z) (headers : list Header) : bool :=
  match headers with
  | [] => true
  | h :: hs => (NumberU64 h =? number +w 1) && contiguous (NumberU64 h) hs
  end.

(** The checks on the header numbers: the inner gaps first, then the first
    header against the snapshot; both report the same error. *)
Definition checkNumbers (s : Snapshot) (headers : list Header) : res unit :=
  match headers with
  | [] => Ok tt
  | h :: hs =>
      _ ← fail_if (negb (contiguous (NumberU64 h) hs)) errInvalidVotingChain;
      fail_if (negb (NumberU64 h =? sNumber s +w 1)) errInvalidVotingChain
  end.

Definition apply (cfg : CongressConfig) (s : Snapshot) (headers : list Header) : ST C Snapshot :=
  match headers with
  | [] => mret s
  | h0 :: _ =>
      _ ← st_lift (checkNumbers s headers);
      snap ← applyLoop cfg s headers;
      mret (mkSnapshot (u64 (sNumber snap + zlen headers))
              (HeaderHash (List.last headers h0)) (Validators snap) (Recents snap))
  end.
End Apply.

(** The cache that forgets everything: [apply] on it recovers every signer. *)
#[export] Instance no_cache {K V} : Cache unit K V := {
  cache_get _ c := (None, c);
  cache_add _ _ c := c;
  cache_mem _ _ _ := False;
}.
#[export] Instance no_cache_laws {K V} : CacheLaws unit K V.
Proof. split; simpl; intros; simplify_eq; auto. Qed.

(** ** The scan and the clean-up loops *)

Definition u64_keys {A} (m : gmap Z A) : Prop := forall k v, m !! k = Some v -> is_u64 k.

Lemma oldestBlock_spec {A} (m : gmap Z A) :
  (forall k v, m !! k = Some v -> oldestBlock m <= k) /\
  (oldestBlock m = MaxUint64 \/ is_Some (m !! oldestBlock m)).
Proof.
  unfold oldestBlock. set (f := fun blockNum (_ : A) oldest => _).
  apply (map_fold_weak_ind (fun b m => (forall k v, m !! k = Some v -> b <= k) /\
                                       (b = MaxUint64 \/ is_Some (m !! b))) f MaxUint64).
  - split; [intros k v; by rewrite lookup_empty|auto].
  - intros i x m' r Hi [Hle Hr]. unfold f. split.
    + intros k v. rewrite lookup_insert. case_decide as Hik; intros Hk.
      * rewrite <- Hik. case_if; bool_Z; lia.
      * specialize (Hle k v Hk). case_if; bool_Z; lia.
    + case_if; bool_Z.
      * right. rewrite lookup_insert_eq. eauto.
      * destruct Hr as [?|[v Hv]]; [auto|]. right. rewrite lookup_insert. case_decide; eauto.
Qed.

Lemma oldestBlock_present {A} (m : gmap Z A) :
  u64_keys m -> m ≠ ∅ -> is_Some (m !! oldestBlock m).
Proof.
  intros Hk Hne. destruct (oldestBlock_spec m) as [Hle [Hmax|?]]; [|done].
  destruct (map_choose m Hne) as (k & v & Hkv). specialize (Hle k v Hkv). specialize (Hk k v Hkv).
  replace (oldestBlock m) with k by word_lia. eauto.
Qed.

Lemma clearOldest_subseteq {A} fuel cond (m : gmap Z A) : clearOldest fuel cond m ⊆ m.
Proof.
  revert m. induction fuel as [|fuel IH]; intros m; simpl; case_if; try done.
  etrans; [apply IH|apply delete_subseteq].
Qed.

(** The fuel suffices: the loop leaves with its condition false. *)
Lemma clearOldest_stops {A} cond fuel (m : gmap Z A) :
  u64_keys m -> (size m <= fuel)%nat -> cond O = false ->
  cond (size (clearOldest fuel cond m)) = false.
Proof.
  revert m. induction fuel as [|fuel IH]; intros m Hk Hf H0; simpl.
  - assert (Hz : size m = O) by lia. rewrite Hz, H0. by rewrite Hz.
  - destruct (cond (size m)) eqn:E; [|done].
    destruct (decide (m = ∅)) as [->|Hne]; [rewrite map_size_empty in E; congruence|].
    pose proof (oldestBlock_present m Hk Hne) as Ho.
    apply IH; [|rewrite map_size_delete_Some by done; lia|done].
    intros k v. rewrite lookup_delete. case_decide; [done|]. apply Hk.
Qed.

(** What is deleted is older than everything that stays. *)
Lemma clearOldest_keeps_newest {A} cond fuel (m : gmap Z A) k v k' v' :
  m !! k = Some v -> clearOldest fuel cond m !! k = None ->
  clearOldest fuel cond m !! k' = Some v' -> k < k'.
Proof.
  revert m. induction fuel as [|fuel IH]; intros m Hk; simpl; case_if; try congruence.
  intros Hn Hs. destruct (decide (k = oldestBlock m)) as [->|Hne].
  - pose proof (lookup_weaken _ _ _ _ Hs (clearOldest_subseteq _ _ _)) as Hd.
    rewrite lookup_delete in Hd. case_decide; [done|].
    destruct (oldestBlock_spec m) as [Hle _]. specialize (Hle _ _ Hd). lia.
  - apply (IH (delete (oldestBlock m) m)); [|done|done]. apply lookup_delete_Some. split; [congruence|done].
Qed.

Lemma clearReduced_subseteq n i number oldLimit r : clearReduced n i number oldLimit r ⊆ r.
Proof.
  revert i r. induction n as [|n IH]; intros i r; simpl; [done|].
  etrans; [apply IH|apply delete_subseteq].
Qed.

#[export] Hint Resolve clearOldest_subseteq clearReduced_subseteq delete_subseteq map_filter_subseteq : node.

Lemma dropOlder_subseteq number newLimit r : dropOlder number newLimit r ⊆ r.
Proof. apply map_filter_subseteq. Qed.

Lemma lookup_dropOlder number newLimit r k v :
  dropOlder number newLimit r !! k = Some v -> r !! k = Some v /\ (newLimit <= number -> number -w newLimit < k).
Proof. unfold dropOlder. rewrite map_lookup_filter_Some. simpl. intros [? ?]. split; [done|lia]. Qed.

(** All three branches end in the sweep of the entries older than the new
    limit, and the clean-up only ever deletes. *)
Lemma cleanupRecents_dropOlder number old new r :
  cleanupRecents number old new r ⊆ r /\
  (forall k v, cleanupRecents number old new r !! k = Some v ->
     recentLimit (size new) <= number -> number -w recentLimit (size new) < k).
Proof.
  unfold cleanupRecents.
  set (r1 := if (size old <? size new)%nat then _ else _).
  assert (H1 : exists r0, r0 ⊆ r /\ r1 ⊆ dropOlder number (recentLimit (size new)) r0).
  { subst r1. repeat case_if; simpl.
    - exists r. split; [done|apply clearOldest_subseteq].
    - eexists. split; [|done]. apply clearReduced_subseteq.
    - eexists. split; [|done]. apply map_filter_subseteq.
    - exists r. done. }
  destruct H1 as (r0 & Hr0 & H1).
  set (r2 := if (size new <=? size r1)%nat then _ else r1).
  assert (H2 : r2 ⊆ r1) by (subst r2; case_if; [apply clearOldest_subseteq|done]).
  split.
  - etrans; [exact H2|]. etrans; [exact H1|]. etrans; [apply dropOlder_subseteq|done].
  - intros k v Hk. eapply lookup_weaken in Hk; [|etrans; [exact H2|exact H1]].
    by apply lookup_dropOlder in Hk as [_ ?].
Qed.

(** After the clean-up a non-empty validator set outnumbers its recent signers. *)
Lemma cleanupRecents_room number old new r :
  u64_keys r -> new ≠ ∅ -> (size (cleanupRecents number old new r) < size new)%nat.
Proof.
  intros Hk Hne. unfold cleanupRecents.
  set (r1 := if (size old <? size new)%nat then _ else _).
  assert (H1 : r1 ⊆ r).
  { subst r1. repeat case_if; eauto 6 with node; unfold dropOlder;
      repeat (etrans; [first [apply clearOldest_subseteq|apply map_filter_subseteq|apply clearReduced_subseteq]|]); done. }
  assert (Hpos : (0 < size new)%nat).
  { destruct (size new) eqn:E; [|lia]. apply size_empty_inv in E. set_solver. }
  case_if; [|apply Nat.leb_gt in E; lia].
  assert (Hs : (size new * 2 / 3 <? size (clearOldest (size r1) (fun len => (size new * 2 / 3 <? len)%nat) r1))%nat = false).
  { apply (clearOldest_stops (fun len => (size new * 2 / 3 <? len)%nat)); [|done|by apply Nat.ltb_ge; lia].
    intros k v ?. eapply Hk, lookup_weaken; eauto. }
  apply Nat.ltb_ge in Hs. lia.
Qed.

(** ** The invariant *)

(** Every recent entry is at most [recentLimit] blocks old, and a validator
    has one recent entry at most. *)
Definition window_ok (number : Z) (nv : nat) (r : gmap Z Address) : Prop :=
  forall k v, r !! k = Some v -> 0 <= k <= number /\ number < k + recentLimit nv.
Definition distinct_signers (r : gmap Z Address) : Prop :=
  forall k1 k2 v, r !! k1 = Some v -> r !! k2 = Some v -> k1 = k2.

Record recents_ok (number : Z) (s : Snapshot) : Prop := {
  ok_number : is_u64 number;
  ok_window : window_ok number (size (Validators s)) (Recents s);
  ok_distinct : distinct_signers (Recents s);
}.

Definition snapshot_ok (s : Snapshot) : Prop := recents_ok (sNumber s) s.

Lemma distinct_subseteq r1 r2 : r1 ⊆ r2 -> distinct_signers r2 -> distinct_signers r1.
Proof. intros Hs Hd k1 k2 v H1 H2. eapply Hd; eapply lookup_weaken; eauto. Qed.

Lemma newSnapshot_ok number hash vs : is_u64 number -> snapshot_ok (newSnapshot number hash vs).
Proof. split; simpl; [done|intros ??; by rewrite lookup_empty|intros ???; by rewrite lookup_empty]. Qed.

(** The entries left when the signer of block [number + 1] is checked. *)
Definition shiftedRecents (s : Snapshot) (number : Z) : gmap Z Address :=
  let limit := recentLimit (size (Validators s)) in
  if limit <=? number then delete (number -w limit) (Recents s) else Recents s.

Lemma recordSigner_spec s number v :
  recordSigner s number v =
    if bool_decide (v ∈ Validators s) then
      if bool_decide (v ∈ map_values (shiftedRecents s number)) then Err errRecentlySigned
      else Ok (mkSnapshot (sNumber s) (sHash s) (Validators s) (<[number := v]> (shiftedRecents s number)))
    else Err errUnauthorizedValidator.
Proof.
  unfold recordSigner. fold (shiftedRecents s number). set (r := shiftedRecents s number).
  destruct (decide (v ∈ Validators s)) as [Hv|Hv].
  - rewrite (bool_decide_eq_true_2 (v ∈ _)) by done. rewrite (bool_decide_eq_false_2 (v ∉ _)) by (intros Hc; done). simpl.
    assert (He : bool_decide (Exists (fun kv : Z * Address => kv.2 = v) (map_to_list r)) = bool_decide (v ∈ map_values r)).
    { apply bool_decide_ext. rewrite Exists_map_to_list, elem_of_map_values. split; [intros (k & v0 & Hk & <-)|intros [k Hk]]; eauto. }
    rewrite He. by destruct (bool_decide (v ∈ map_values r)).
  - rewrite (bool_decide_eq_false_2 (v ∈ _)) by done. by rewrite (bool_decide_eq_true_2 (v ∉ _)).
Qed.

Lemma recordSigner_ok s number v s' :
  recordSigner s number v = Ok s' ->
  v ∈ Validators s /\ (forall k, shiftedRecents s number !! k <> Some v) /\
  s' = mkSnapshot (sNumber s) (sHash s) (Validators s) (<[number := v]> (shiftedRecents s number)).
Proof.
  rewrite recordSigner_spec. repeat case_bool_decide; intros; simplify_eq.
  split_and!; [done| |done]. intros k Hk. match goal with H : _ ∉ _ |- _ => apply H end.
  apply elem_of_map_values. eauto.
Qed.

Lemma recentLimit_pos n : 1 <= recentLimit n.
Proof. unfold recentLimit. lia. Qed.

Lemma shifted_window s number :
  recents_ok number s -> is_u64 (number + 1) -> window_ok (number + 1) (size (Validators s)) (shiftedRecents s (number + 1)).
Proof.
  intros [Hn Hw _] Hu k v. unfold shiftedRecents. pose proof (recentLimit_pos (size (Validators s))) as Hl.
  case_if; bool_Z.
  - rewrite lookup_delete_Some. intros [Hne Hk]. specialize (Hw k v Hk).
    rewrite u64_small in Hne by word_lia. lia.
  - intros Hk. specialize (Hw k v Hk). lia.
Qed.

Lemma shifted_subseteq s number : shiftedRecents s number ⊆ Recents s.
Proof. unfold shiftedRecents. case_if; [apply delete_subseteq|done]. Qed.

Lemma recordSigner_preserves s number v s' :
  recents_ok number s -> is_u64 (number + 1) ->
  recordSigner s (number + 1) v = Ok s' -> recents_ok (number + 1) s'.
Proof.
  intros Hok Hu Hr. apply recordSigner_ok in Hr as (Hv & Hfresh & ->).
  pose proof (shifted_window s number Hok Hu) as Hw.
  pose proof (recentLimit_pos (size (Validators s))) as Hl.
  split; simpl; [done|..].
  - intros k v'. rewrite lookup_insert. case_decide as Hk; [intros; subst k; word_lia|apply Hw].
  - pose proof (distinct_subseteq _ _ (shifted_subseteq s (number + 1)) (ok_distinct _ _ Hok)) as Hd.
    intros k1 k2 w. rewrite !lookup_insert. repeat case_decide; intros; simplify_eq; try done.
    + by destruct (Hfresh k2).
    + by destruct (Hfresh k1).
    + by eapply Hd.
Qed.

Lemma epochChange_preserves cfg s h s' :
  recents_ok (NumberU64 h) s -> epochChange cfg s h = Ok s' -> recents_ok (NumberU64 h) s'.
Proof.
  intros Hok. unfold epochChange. repeat case_if; intros He; simplify_eq; try done.
  inv_bind He. simplify_eq.
  destruct (cleanupRecents_dropOlder (NumberU64 h) (Validators s) (list_to_set a) (Recents s)) as [Hsub Hold].
  pose proof (recentLimit_pos (size (list_to_set a : gset Z))) as Hl.
  split; simpl; [apply Hok| |].
  - intros k v Hk. pose proof (ok_window _ _ Hok k v (lookup_weaken _ _ _ _ Hk Hsub)) as Hw.
    split; [lia|]. destruct (Z.le_gt_cases (recentLimit (size (list_to_set a : gset Z))) (NumberU64 h)) as [Hle|Hgt]; [|lia].
    specialize (Hold k v Hk Hle). pose proof (ok_number _ _ Hok). rewrite u64_small in Hold by word_lia. lia.
  - by eapply distinct_subseteq, ok_distinct.
Qed.

(** How many validators can sign next: those not among the shifted entries. *)
Definition freeSigners (s : Snapshot) : gset Address :=
  Validators s ∖ map_values (shiftedRecents s (sNumber s + 1)).

Lemma freeSigners_size s :
  snapshot_ok s -> is_u64 (sNumber s + 1) ->
  (size (Validators s) - size (Validators s) / 2 <= size (freeSigners s))%nat.
Proof.
  intros Hok Hu. unfold freeSigners.
  pose proof (shifted_window s (sNumber s) Hok Hu) as Hw.
  set (n := size (Validators s)) in *. set (r := shiftedRecents s (sNumber s + 1)) in *.
  assert (Hr : (size r <= n / 2)%nat).
  { apply (map_size_window r (sNumber s + 2 - recentLimit n)). intros k v Hk.
    pose proof (ok_window _ _ Hok k v (lookup_weaken _ _ _ _ Hk (shifted_subseteq s _))) as Hk'.
    specialize (Hw k v Hk). unfold recentLimit in *. rewrite Nat2Z.inj_div. lia. }
  pose proof (size_map_values r). rewrite size_difference_alt.
  assert (Hi : Validators s ∩ map_values r ⊆ map_values r) by apply intersection_subseteq_r.
  apply subseteq_size in Hi. fold n. lia.
Qed.

(** ** [apply] *)

Definition applyPure `{Crypto} (cfg : CongressConfig) (s : Snapshot) (headers : list Header) : res Snapshot :=
  (apply (C:=unit) cfg s headers tt).1.

Section ApplyFacts.
Context `{Crypto} `{CacheLaws C Hash Address}.

Lemma epochChange_number cfg s h s' : epochChange cfg s h = Ok s' -> sNumber s' = sNumber s.
Proof.
  unfold epochChange. repeat case_if; intros He; simplify_eq/=; try done.
  inv_bind He. by simplify_eq.
Qed.

Lemma applyHeader_ok cfg s h (c : C) s' c' :
  applyHeader cfg s h c = (Ok s', c') ->
  exists v s1, ecrecover h c = (Ok v, c') /\ recordSigner s (NumberU64 h) v = Ok s1 /\
    epochChange cfg s1 h = Ok s' /\ sNumber s' = sNumber s.
Proof.
  unfold applyHeader. intros Hr. inv_bind Hr. inv_bind Hr.
  unfold st_lift in *. injection Hm0 as Hm0 <-. injection Hr as Hr <-.
  exists a, a0. split_and!; [done..|].
  rewrite (epochChange_number _ _ _ _ Hr). by apply recordSigner_ok in Hm0 as (_ & _ & ->).
Qed.

(** The loop reads neither the number nor the hash of the snapshot. *)
Definition relabel (n : Z) (hash : Hash) (s : Snapshot) : Snapshot :=
  mkSnapshot n hash (Validators s) (Recents s).

Lemma recordSigner_relabel n hash s number v :
  recordSigner (relabel n hash s) number v = relabel n hash <$> recordSigner s number v.
Proof.
  unfold recordSigner, relabel, mbind, res_bind, fmap, res_map. simpl.
  destruct (fail_if _ _); [|done..]. by destruct (fail_if _ _).
Qed.

Lemma epochChange_relabel n hash cfg s h :
  epochChange cfg (relabel n hash s) h = relabel n hash <$> epochChange cfg s h.
Proof. unfold epochChange, relabel. simpl. repeat case_if; try done. by destruct (extraValidators _). Qed.

Lemma applyHeader_relabel n hash cfg s h (c : C) :
  applyHeader cfg (relabel n hash s) h c =
    (relabel n hash <$> (applyHeader cfg s h c).1, (applyHeader cfg s h c).2).
Proof.
  unfold applyHeader, mbind, st_bind, st_lift.
  destruct (ecrecover h c) as [[v|e|] c1]; try done.
  rewrite recordSigner_relabel. destruct (recordSigner s (NumberU64 h) v) as [s1|e|]; try done.
  simpl. by rewrite epochChange_relabel.
Qed.

Lemma applyLoop_relabel n hash cfg hs : forall s (c : C),
  applyLoop cfg (relabel n hash s) hs c =
    (relabel n hash <$> (applyLoop cfg s hs c).1, (applyLoop cfg s hs c).2).
Proof.
  induction hs as [|h hs IH]; intros s c; [done|].
  simpl. unfold mbind, st_bind. rewrite applyHeader_relabel.
  destruct (applyHeader cfg s h c) as [[s1|e|] c1]; simpl; done.
Qed.

Lemma checkNumbers_contiguous s hs :
  checkNumbers s hs = Ok tt <-> contiguous (sNumber s) hs = true.
Proof.
  destruct hs as [|h hs]; simpl; [done|].
  destruct (NumberU64 h =? _), (contiguous _ hs); simpl; split; congruence.
Qed.

Lemma contiguous_app n hs1 hs2 :
  is_u64 (n + zlen hs1) -> is_u64 n ->
  contiguous n (hs1 ++ hs2) = contiguous n hs1 && contiguous (n + zlen hs1) hs2.
Proof.
  revert n. induction hs1 as [|h hs1 IH]; intros n Hu Hn; simpl.
  - by rewrite Z.add_0_r.
  - unfold zlen in *. simpl in Hu. destruct (NumberU64 h =? n +w 1) eqn:E; simpl; [|done].
    bool_Z. rewrite E, u64_small by word_lia. rewrite IH by word_lia.
    do 2 f_equal. simpl. lia.
Qed.

Lemma applyLoop_app cfg s hs1 hs2 (c : C) :
  applyLoop cfg s (hs1 ++ hs2) c = (s1 ← applyLoop cfg s hs1; applyLoop cfg s1 hs2) c.
Proof.
  revert s c. induction hs1 as [|h hs1 IH]; intros s c; [done|].
  simpl. unfold mbind, st_bind. destruct (applyHeader cfg s h c) as [[s1|e|] c1]; simpl; done.
Qed.

Lemma applyHeader_preserves cfg number s h (c : C) s' c' :
  recents_ok number s -> is_u64 (number + 1) -> NumberU64 h = number + 1 ->
  applyHeader cfg s h c = (Ok s', c') -> recents_ok (number + 1) s' /\ sNumber s' = sNumber s.
Proof.
  intros Hok Hu Hn Ha. apply applyHeader_ok in Ha as (v & s1 & _ & Hr & He & Hs).
  split; [|done]. rewrite Hn in Hr. apply recordSigner_preserves in Hr; [|done..].
  rewrite <- Hn in *. by eapply epochChange_preserves.
Qed.

Lemma applyLoop_preserves cfg : forall hs number s (c : C) s' c',
  recents_ok number s -> is_u64 (number + zlen hs) -> contiguous number hs = true ->
  applyLoop cfg s hs c = (Ok s', c') ->
  recents_ok (number + zlen hs) s' /\ sNumber s' = sNumber s.
Proof.
  induction hs as [|h hs IH]; intros number s c s' c' Hok Hu Hc Ha; simpl in *.
  - unfold mret, st_ret in Ha. simplify_eq. unfold zlen. simpl. by rewrite Z.add_0_r.
  - inv_bind Ha. apply andb_prop in Hc as [Hn Hc]. bool_Z.
    pose proof (ok_number _ _ Hok). unfold zlen in *. simpl in Hu.
    rewrite u64_small in Hn by word_lia.
    destruct (applyHeader_preserves cfg number s h c a s0 Hok ltac:(word_lia) Hn Hm) as [Hok' Hs].
    rewrite Hn in Hc.
    destruct (IH (number + 1) a s0 s' c' Hok' ltac:(word_lia) Hc Ha) as [Hok'' Hs'].
    split; [|congruence]. simpl. by replace (number + Z.of_nat (S (length hs))) with (number + 1 + Z.of_nat (length hs)) by lia.
Qed.

Lemma applyLoop_number cfg hs : forall s (c : C) s' c',
  applyLoop cfg s hs c = (Ok s', c') -> sNumber s' = sNumber s.
Proof.
  induction hs as [|h hs IH]; intros s c s' c' Ha; simpl in Ha.
  - unfold mret, st_ret in Ha. congruence.
  - inv_bind Ha. apply applyHeader_ok in Hm as (_ & _ & _ & _ & _ & <-). eauto.
Qed.

Lemma apply_ok cfg s hs (c : C) s' c' :
  hs ≠ [] -> apply cfg s hs c = (Ok s', c') <->
  exists s1 h0, contiguous (sNumber s) hs = true /\ applyLoop cfg s hs c = (Ok s1, c') /\
    s' = mkSnapshot (u64 (sNumber s1 + zlen hs)) (HeaderHash (List.last hs h0)) (Validators s1) (Recents s1).
Proof.
  intros Hne. destruct hs as [|h hs]; [done|]. split.
  - unfold apply. intros Ha. inv_bind Ha. inv_bind Ha. unfold st_lift, mret, st_ret in *. simplify_eq.
    destruct a. exists a0, h. split_and!; [by apply checkNumbers_contiguous|congruence|done].
  - intros (s1 & h0 & Hc & Ha & ->). apply checkNumbers_contiguous in Hc.
    unfold apply, mbind, st_bind, st_lift. rewrite Hc, Ha. unfold mret, st_ret.
    do 3 f_equal. clear. revert h. induction hs as [|h' hs IH]; intros h; [done|]. simpl. destruct hs; [done|]. apply (IH h).
Qed.
End ApplyFacts.

Lemma apply_preserves `{Crypto} `{CacheLaws C Hash Address} cfg s hs (c : C) s' c' :
  snapshot_ok s -> is_u64 (sNumber s + zlen hs) ->
  apply cfg s hs c = (Ok s', c') ->
  snapshot_ok s' /\ sNumber s' = sNumber s + zlen hs.
Proof.
  intros Hok Hu Ha. destruct (decide (hs = [])) as [->|Hne].
  - unfold apply, mret, st_ret in Ha. simplify_eq. unfold zlen. simpl. split; [done|lia].
  - apply apply_ok in Ha as (s1 & h0 & Hc & Ha & ->); [|done].
    apply applyLoop_preserves with (number := sNumber s) in Ha as [Hok' Hs]; [|done..].
    rewrite Hs. simpl. rewrite u64_small by done. split; [|done].
    destruct Hok'. by split.
Qed.

(** [apply] preserves the snapshot invariant: after any accepted batch the
    snapshot is at the last header, every recent entry is within the
    [n/2 + 1] blocks before it for the set then in force, and no validator
    has two entries. *)
Theorem apply_preserves_invariant `{Crypto} `{CacheLaws C Hash Address} cfg s hs (c : C) s' c' :
  snapshot_ok s -> is_u64 (sNumber s + zlen hs) ->
  apply cfg s hs c = (Ok s', c') ->
  snapshot_ok s' /\ sNumber s' = sNumber s + zlen hs.
Proof. apply apply_preserves. Qed.

Lemma last_app_ne {A} (l1 l2 : list A) d d' : l2 ≠ [] -> List.last (l1 ++ l2) d = List.last l2 d'.
Proof.
  intros Hne. destruct (exists_last Hne) as (l & x & ->).
  by rewrite app_assoc, !List.last_last.
Qed.

(** Applying two batches one after the other is applying their
    concatenation: the snapshot of a block does not depend on the ancestor it
    is computed from. *)
Theorem apply_app `{Crypto} `{CacheLaws C Hash Address} cfg s hs1 hs2 (c : C) s' c' :
  hs1 ≠ [] -> hs2 ≠ [] -> snapshot_ok s -> is_u64 (sNumber s + zlen (hs1 ++ hs2)) ->
  apply cfg s (hs1 ++ hs2) c = (Ok s', c') <->
  exists s1 c1, apply cfg s hs1 c = (Ok s1, c1) /\ apply cfg s1 hs2 c1 = (Ok s', c').
Proof.
  intros Hn1 Hn2 Hok Hu. unfold zlen in Hu. rewrite length_app in Hu.
  pose proof (ok_number _ _ Hok) as Hs.
  assert (Hn : hs1 ++ hs2 ≠ []) by (destruct hs1; done).
  assert (Hu1 : is_u64 (sNumber s + zlen hs1)) by (unfold zlen; word_lia).
  assert (Hlen : zlen (hs1 ++ hs2) = zlen hs1 + zlen hs2) by (unfold zlen; rewrite length_app; lia).
  rewrite (apply_ok cfg s (hs1 ++ hs2)) by done. rewrite contiguous_app by done.
  setoid_rewrite andb_true_iff. setoid_rewrite applyLoop_app. split.
  - intros (s1 & h0 & [Hc1 Hc2] & Ha & ->). inv_bind Ha.
    destruct (applyLoop_preserves _ _ _ _ _ _ _ Hok Hu1 Hc1 Hm) as [_ Hsa].
    exists (relabel (u64 (sNumber a + zlen hs1)) (HeaderHash (List.last hs1 h0)) a), s0.
    split; [apply apply_ok; [done|]; exists a, h0; done|].
    assert (Hs1 : sNumber s1 = sNumber a) by (eapply applyLoop_number; eauto).
    apply apply_ok; [done|]. eexists _, h0. rewrite Hsa, u64_small by done.
    split_and!; [done|rewrite applyLoop_relabel, Ha; done|].
    rewrite Hs1, Hsa, Hlen. simpl. f_equal; [f_equal; lia|]. f_equal. by apply last_app_ne.
  - intros (s1 & c1 & Hr1 & Hr2). apply apply_ok in Hr1 as (a & h0 & Hc1 & Ha & ->); [|done].
    destruct (applyLoop_preserves _ _ _ _ _ _ _ Hok Hu1 Hc1 Ha) as [_ Hsa].
    change (mkSnapshot ?n ?h (Validators a) (Recents a)) with (relabel n h a) in Hr2.
    apply apply_ok in Hr2 as (b & h1 & Hc2 & Hb & ->); [|done].
    assert (Hsb := applyLoop_number _ _ _ _ _ _ Hb).
    rewrite applyLoop_relabel in Hb. simpl in Hc2, Hsb. rewrite Hsa, u64_small in Hc2, Hsb by done.
    destruct (applyLoop cfg a hs2 c1) as [[b'|e|] c2] eqn:Hb'; simplify_eq/=.
    exists b', h0. split_and!; [done..| |].
    + unfold mbind, st_bind. by rewrite Ha.
    + rewrite (applyLoop_number _ _ _ _ _ _ Hb'), Hsa, Hlen, (u64_small (sNumber s + zlen hs1)) by done.
      f_equal; [f_equal; lia|].
      f_equal. symmetry. by apply last_app_ne.
Qed.

(** ** Who may sign the next block *)

Definition extraOk (cfg : CongressConfig) (h : Header) : Prop :=
  Epoch cfg <> 0 /\ (NumberU64 h mod Epoch cfg = 0 -> extraVanity + extraSeal <= zlen (Extra h)).

Lemma extraValidators_ok extra :
  extraVanity + extraSeal <= zlen extra -> exists vs, extraValidators extra = Ok vs.
Proof.
  unfold extraValidators, extraVanity, extraSeal, AddressLength. intros Hl.
  case_if; bool_Z; [|eauto]. assert (0 <= Z.quot (zlen extra - 32 - 65) 20) by (apply Z.quot_pos; lia). lia.
Qed.

Lemma epochChange_ok cfg s h : extraOk cfg h -> exists s', epochChange cfg s h = Ok s'.
Proof.
  unfold epochChange. intros [He Hx]. case_if; bool_Z; [lia|]. case_if; bool_Z; [|eauto].
  destruct (extraValidators_ok (Extra h)) as [vs ->]; [by apply Hx|]. simpl. eauto.
Qed.

(** The rule of the next block.  A header of the next number is accepted
    exactly when its signer is one of the free signers; another validator is
    refused as having recently signed and a stranger as unauthorized.  At least
    half of the validators, rounded up, are free: with a non-empty set the chain
    can always be extended. *)
Theorem apply_next_signer `{Crypto} `{CacheLaws C Hash Address} cfg s h (c : C) v c' :
  snapshot_ok s -> is_u64 (sNumber s + 1) -> NumberU64 h = sNumber s + 1 ->
  ecrecover h c = (Ok v, c') -> extraOk cfg h ->
  (v ∈ freeSigners s -> exists s', apply cfg s [h] c = (Ok s', c')) /\
  (v ∉ Validators s -> apply cfg s [h] c = (Err errUnauthorizedValidator, c')) /\
  (v ∈ Validators s -> v ∉ freeSigners s -> apply cfg s [h] c = (Err errRecentlySigned, c')) /\
  (size (Validators s) - size (Validators s) / 2 <= size (freeSigners s))%nat.
Proof.
  intros Hok Hu Hn Hv Hx. split_and!; [..|by apply freeSigners_size].
  all: unfold apply, checkNumbers, applyLoop, applyHeader, mbind, st_bind, st_lift; simpl;
       rewrite Hn, (u64_small (sNumber s + 1)), Z.eqb_refl by done; simpl; rewrite Hv;
       rewrite recordSigner_spec; unfold freeSigners.
  - intros [Hin Hfree]%elem_of_difference.
    rewrite bool_decide_eq_true_2, bool_decide_eq_false_2 by done.
    destruct (epochChange_ok cfg (mkSnapshot (sNumber s) (sHash s) (Validators s)
      (<[sNumber s + 1 := v]> (shiftedRecents s (sNumber s + 1)))) h Hx) as [s' ->].
    unfold mret, st_ret. eauto.
  - intros Hin. by rewrite bool_decide_eq_false_2.
  - intros Hin Hfree. rewrite !bool_decide_eq_true_2; [done| |done].
    destruct (decide (v ∈ map_values (shiftedRecents s (sNumber s + 1)))); [done|].
    by destruct Hfree; apply elem_of_difference.
Qed.

(** Three validators, two of which signed blocks 8 and 9. *)
Definition toySnapshot : Snapshot :=
  mkSnapshot 9 10 {[11; 22; 33]} {[8 := 11; 9 := 22]}.

Lemma toySnapshot_ok : snapshot_ok toySnapshot.
Proof.
  split; [unfold is_u64; simpl; lia| |].
  - intros k v. unfold toySnapshot, Recents. intros Hk.
    apply lookup_insert_Some in Hk as [[<- <-]|[_ Hk]]; [vm_compute; repeat split; discriminate|].
    apply lookup_singleton_Some in Hk as [<- <-]. vm_compute; repeat split; discriminate.
  - intros k1 k2 v. unfold toySnapshot, Recents. intros Hk1 Hk2.
    apply lookup_insert_Some in Hk1 as [[<- <-]|[_ Hk1]]; apply lookup_insert_Some in Hk2 as [[<- ?]|[_ Hk2]];
      try apply lookup_singleton_Some in Hk1 as [<- <-]; try apply lookup_singleton_Some in Hk2 as [<- ?]; simplify_eq; done.
Qed.

Definition toyCongress : CongressConfig := mkCongressConfig 1 50 false.

Lemma apply_next_signer_witness :
  (33 ∈ freeSigners toySnapshot -> exists s', apply (H:=toyCrypto) (C:=gmap Z Z) toyCongress toySnapshot [toyHeader 10 33 2 []] ∅ = (Ok s', {[11 := 33]})) /\
  (33 ∉ Validators toySnapshot -> apply (H:=toyCrypto) (C:=gmap Z Z) toyCongress toySnapshot [toyHeader 10 33 2 []] ∅ = (Err errUnauthorizedValidator, {[11 := 33]})) /\
  (33 ∈ Validators toySnapshot -> 33 ∉ freeSigners toySnapshot ->
     apply (H:=toyCrypto) (C:=gmap Z Z) toyCongress toySnapshot [toyHeader 10 33 2 []] ∅ = (Err errRecentlySigned, {[11 := 33]})) /\
  (size (Validators toySnapshot) - size (Validators toySnapshot) / 2 <= size (freeSigners toySnapshot))%nat.
Proof.
  apply (apply_next_signer (H:=toyCrypto) toyCongress toySnapshot (toyHeader 10 33 2 [])).
  - apply toySnapshot_ok.
  - unfold is_u64; simpl; lia.
  - vm_compute. reflexivity.
  - vm_compute. reflexivity.
  - split; [discriminate|]. intros _. vm_compute. discriminate.
Defined.

Lemma apply_preserves_invariant_witness :
  snapshot_ok toySnapshot /\
  exists s', apply (H:=toyCrypto) (C:=unit) toyCongress toySnapshot [toyHeader 10 33 2 []; toyHeader 11 11 1 []] tt = (Ok s', tt) /\
    snapshot_ok s' /\ sNumber s' = 9 + 2.
Proof.
  split; [apply toySnapshot_ok|]. eexists. split; [vm_compute; reflexivity|].
  eapply (apply_preserves_invariant (H:=toyCrypto) (C:=unit) toyCongress toySnapshot [toyHeader 10 33 2 []; toyHeader 11 11 1 []] tt).
  - apply toySnapshot_ok.
  - vm_compute. split; congruence.
  - vm_compute. reflexivity.
Defined.

Lemma apply_app_witness :
  exists s', apply (H:=toyCrypto) (C:=unit) toyCongress toySnapshot [toyHeader 10 33 2 []; toyHeader 11 11 1 []] tt = (Ok s', tt) /\
    exists s1 c1, apply (H:=toyCrypto) (C:=unit) toyCongress toySnapshot [toyHeader 10 33 2 []] tt = (Ok s1, c1) /\
      apply (H:=toyCrypto) toyCongress s1 [toyHeader 11 11 1 []] c1 = (Ok s', tt).
Proof.
  eexists. split; [vm_compute; reflexivity|].
  apply (apply_app (H:=toyCrypto) (C:=unit) toyCongress toySnapshot [toyHeader 10 33 2 []] [toyHeader 11 11 1 []] tt).
  - discriminate.
  - discriminate.
  - apply toySnapshot_ok.
  - vm_compute. split; congruence.
  - vm_compute. reflexivity.
Defined.

(** ** Spacing of the blocks of one validator *)

Section Spacing.
Context `{Crypto} `{CacheLaws C Hash Address} (cfg : CongressConfig).

Definition noEpoch (h : Header) : Prop := NumberU64 h mod Epoch cfg <> 0.

Lemma epochChange_none s h s' : noEpoch h -> epochChange cfg s h = Ok s' -> s' = s.
Proof. unfold noEpoch, epochChange. intros Hn. repeat case_if; intros; simplify_eq; bool_Z; done. Qed.

(** A header that was applied stays among the recent entries until
    [recentLimit] blocks later. *)
Lemma applyLoop_keeps k v : forall hs number s (c : C) s' c',
  Recents s !! k = Some v -> is_u64 number -> is_u64 (number + zlen hs) -> contiguous number hs = true ->
  Forall noEpoch hs -> 0 <= k <= number -> number + zlen hs < k + recentLimit (size (Validators s)) ->
  applyLoop cfg s hs c = (Ok s', c') ->
  Recents s' !! k = Some v /\ Validators s' = Validators s.
Proof.
  induction hs as [|h hs IH]; intros number s c s' c' Hk Hn Hu Hc He Hk0 Hlim Ha; simpl in *.
  { unfold mret, st_ret in Ha. by simplify_eq. }
  inv_bind Ha. apply andb_prop in Hc as [Hh Hc]. bool_Z. unfold zlen in *. simpl in Hu, Hlim.
  rewrite u64_small in Hh by word_lia. apply Forall_cons_1 in He as [Heh He].
  apply applyHeader_ok in Hm as (w & s1 & _ & Hr & Hec & _).
  apply (epochChange_none _ _ _ Heh) in Hec. subst a.
  apply recordSigner_ok in Hr as (_ & Hfresh & ->).
  rewrite Hh in Hc, Ha, Hfresh.
  assert (Hsh : shiftedRecents s (number + 1) !! k = Some v).
  { unfold shiftedRecents. case_if; [|done]. apply lookup_delete_Some. split; [|done].
    bool_Z. pose proof (recentLimit_pos (size (Validators s))). rewrite u64_small by word_lia. lia. }
  apply IH with (number := number + 1) in Ha; simpl; try done; try word_lia.
  apply lookup_insert_Some. right. split; [lia|done].
Qed.

Lemma applyHeader_pure_signer s h s' :
  (applyHeader (C:=unit) cfg s h tt).1 = Ok s' ->
  exists v s1, recoverSigner h = Ok v /\ recordSigner s (NumberU64 h) v = Ok s1 /\ epochChange cfg s1 h = Ok s'.
Proof.
  destruct (applyHeader cfg s h tt) as [r []] eqn:Ha. simpl. intros ->.
  apply applyHeader_ok in Ha as (v & s1 & Hv & ? & ? & _). exists v, s1. split_and!; [|done..].
  unfold ecrecover in Hv. simpl in Hv. destruct (recoverSigner h); simplify_eq. done.
Qed.
End Spacing.

Lemma contiguous_numbers n hs1 h hs2 :
  is_u64 n -> is_u64 (n + zlen (hs1 ++ h :: hs2)) -> contiguous n (hs1 ++ h :: hs2) = true ->
  NumberU64 h = n + zlen hs1 + 1 /\ contiguous n hs1 = true /\ contiguous (n + zlen hs1 + 1) hs2 = true.
Proof.
  intros Hn Hu Hc. unfold zlen in Hu. rewrite length_app in Hu. simpl in Hu.
  rewrite contiguous_app in Hc by (unfold zlen; word_lia).
  apply andb_prop in Hc as [Hc1 Hc]. simpl in Hc. apply andb_prop in Hc as [Hh Hc]. bool_Z.
  rewrite u64_small in Hh by (unfold zlen; word_lia). rewrite Hh in Hc. done.
Qed.

(** A run split at one of its headers. *)
Lemma applyLoop_at `{Crypto} cfg number s l1 h l2 s' :
  recents_ok number s -> is_u64 (number + zlen (l1 ++ h :: l2)) ->
  contiguous number (l1 ++ h :: l2) = true -> Forall (noEpoch cfg) (l1 ++ h :: l2) ->
  applyLoop (C:=unit) cfg s (l1 ++ h :: l2) tt = (Ok s', tt) ->
  exists a v a', Validators a = Validators s /\ recoverSigner h = Ok v /\
    NumberU64 h = number + zlen l1 + 1 /\ recordSigner a (NumberU64 h) v = Ok a' /\
    applyLoop (C:=unit) cfg s l1 tt = (Ok a, tt) /\ applyLoop (C:=unit) cfg a' l2 tt = (Ok s', tt) /\
    recents_ok (NumberU64 h) a' /\ contiguous (NumberU64 h) l2 = true.
Proof.
  intros Hok Hu Hc He Hl. pose proof (ok_number _ _ Hok) as Hn.
  destruct (contiguous_numbers _ _ _ _ Hn Hu Hc) as (Hh & Hc1 & Hc2).
  unfold zlen in Hu. rewrite length_app in Hu. simpl in Hu.
  apply Forall_app in He as [He1 He]. apply Forall_cons_1 in He as [Heh _].
  rewrite applyLoop_app in Hl. inv_bind Hl. simpl in Hl. inv_bind Hl. destruct s0, s1.
  destruct (applyHeader_pure_signer cfg a h a0) as (v & s1 & Hv & Hr & Hec); [by rewrite Hm0|].
  apply epochChange_none in Hec as ->; [|done].
  assert (Hoka : recents_ok (number + zlen l1) a).
  { eapply applyLoop_preserves; [exact Hok|unfold zlen; word_lia|exact Hc1|exact Hm]. }
  exists a, v, s1. split_and!; try done.
  - clear -Hm He1. revert s Hm He1. induction l1 as [|x l1 IH]; intros s Hm He1; simpl in Hm.
    + unfold mret, st_ret in Hm. by simplify_eq.
    + inv_bind Hm. destruct s0. apply Forall_cons_1 in He1 as [He He1].
      apply applyHeader_ok in Hm0 as (w & s1 & _ & Hr & Hec & _).
      apply epochChange_none in Hec; [|done]. subst.
      rewrite (IH _ Hm He1). by apply recordSigner_ok in Hr as (_ & _ & ->).
  - rewrite Hh. apply recordSigner_preserves with a v; [done|unfold zlen; word_lia|by rewrite <- Hh].
  - by rewrite Hh.
Qed.

(** C40: Between two epochs a validator that signs a block cannot sign again
    before [n/2 + 1] blocks, [n] being the number of validators: two accepted
    headers with the same signer are at least that far apart. *)
Theorem apply_signer_spacing `{Crypto} cfg s l1 hi l2 hj l3 s' v :
  snapshot_ok s -> is_u64 (sNumber s + zlen (l1 ++ hi :: l2 ++ hj :: l3)) ->
  Forall (noEpoch cfg) (l1 ++ hi :: l2 ++ hj :: l3) ->
  applyPure cfg s (l1 ++ hi :: l2 ++ hj :: l3) = Ok s' ->
  recoverSigner hi = Ok v -> recoverSigner hj = Ok v ->
  NumberU64 hi + recentLimit (size (Validators s)) <= NumberU64 hj.
Proof.
  intros Hok Hu He Ha Hvi Hvj. unfold applyPure in Ha.
  destruct (apply cfg s _ tt) as [r []] eqn:Hap. simpl in Ha. subst r.
  apply apply_ok in Hap as (s1 & _ & Hc & Hl & _); [|by destruct l1].
  destruct (applyLoop_at cfg (sNumber s) s l1 hi (l2 ++ hj :: l3) s1 Hok Hu Hc He Hl)
    as (a & v1 & a' & Hva & Hv1 & Hni & Hr & _ & Hl' & Hok' & Hc').
  assert (v1 = v) as -> by congruence.
  apply Forall_app in He as [_ He]. apply Forall_cons_1 in He as [_ He].
  assert (Hlen : zlen (l1 ++ hi :: l2 ++ hj :: l3) = zlen l1 + 1 + zlen (l2 ++ hj :: l3))
    by (unfold zlen; rewrite length_app; simpl; lia).
  destruct (applyLoop_at cfg (NumberU64 hi) a' l2 hj l3 s1) as (b & v2 & b' & Hvb & Hv2 & Hnj & Hr2 & Hl2 & _);
    [done|by replace (NumberU64 hi + zlen (l2 ++ hj :: l3)) with (sNumber s + zlen (l1 ++ hi :: l2 ++ hj :: l3)) by lia|done..|].
  assert (v2 = v) as -> by congruence.
  apply recordSigner_ok in Hr as (_ & _ & ->). simpl in Hvb.
  destruct (Z.le_gt_cases (NumberU64 hi + recentLimit (size (Validators s))) (NumberU64 hj)) as [|Hgt]; [done|].
  exfalso. clear Hlen. unfold zlen in Hni, Hnj, Hu. repeat (rewrite length_app in Hu; simpl in Hu).
  pose proof (ok_number _ _ Hok) as Hs. pose proof (ok_number _ _ Hok') as Hi.
  apply Forall_app in He as [He2 _].
  apply (applyLoop_keeps cfg (NumberU64 hi) v l2 (NumberU64 hi)) in Hl2 as [Hk _]; simpl; rewrite ?Hva;
    unfold zlen; try done; try word_lia.
  - apply recordSigner_ok in Hr2 as (_ & Hfresh & _). destruct (Hfresh (NumberU64 hi)).
    unfold shiftedRecents. rewrite Hvb, Hva. case_if; [|done]. bool_Z.
    apply lookup_delete_Some. split; [|done]. pose proof (recentLimit_pos (size (Validators s))).
    rewrite u64_small by word_lia. lia.
  - apply lookup_insert_eq.
  - rewrite contiguous_app in Hc' by (unfold zlen; word_lia). by apply andb_prop in Hc' as [? _].
Qed.

Lemma apply_signer_spacing_witness :
  exists s', applyPure (H:=toyCrypto) toyCongress toySnapshot
      ([] ++ toyHeader 10 33 2 [] :: [toyHeader 11 11 1 []] ++ toyHeader 12 33 1 [] :: []) = Ok s' /\
    10 + recentLimit 3 <= 12.
Proof.
  eexists. split; [vm_compute; reflexivity|].
  eapply (apply_signer_spacing (H:=toyCrypto) toyCongress toySnapshot [] (toyHeader 10 33 2 [])
           [toyHeader 11 11 1 []] (toyHeader 12 33 1 []) [] _ 33 toySnapshot_ok).
  - vm_compute. split; congruence.
  - repeat constructor; vm_compute; discriminate.
  - vm_compute. reflexivity.
  - vm_compute. reflexivity.
  - vm_compute. reflexivity.
Defined.

(** ** The signature cache *)

(** Cached signers agree with the recovery on the headers in play. *)
Definition sigs_coherent `{Crypto} `{Cache C Hash Address} (U : Header -> Prop) (c : C) : Prop :=
  cache_coherent (fun hash v => exists h, U h /\ HeaderHash h = hash /\ recoverSigner h = Ok v) c.

Section Transparency.
Context `{Crypto} `{CacheLaws C Hash Address} (U : Header -> Prop).
Hypothesis HU : CollisionFree U.

Lemma ecrecover_transparent h (c : C) :
  U h -> sigs_coherent U c ->
  exists c', ecrecover h c = (recoverSigner h, c') /\ sigs_coherent U c'.
Proof.
  intros Hh Hc. unfold ecrecover. destruct (cache_get (HeaderHash h) c) as [[v|] c1] eqn:Hg.
  - destruct (coherent_hit _ _ _ _ _ Hc Hg) as (h' & Hh' & He & Hv).
    rewrite (HU h h' Hh Hh') by done. exists c1. rewrite Hv. split; [done|]. by eapply coherent_get.
  - pose proof (coherent_get _ _ _ _ _ Hc Hg) as Hc1.
    destruct (recoverSigner h) eqn:Hr; [|by exists c1..].
    eexists. split; [done|]. apply coherent_add; [done|]. eauto.
Qed.

Lemma applyHeader_transparent cfg s h (c : C) :
  U h -> sigs_coherent U c ->
  exists c', applyHeader cfg s h c = ((applyHeader (C:=unit) cfg s h tt).1, c') /\ sigs_coherent U c'.
Proof.
  intros Hh Hc. destruct (ecrecover_transparent h c Hh Hc) as (c' & He & Hc').
  exists c'. split; [|done]. unfold applyHeader, mbind, st_bind, st_lift. rewrite He.
  assert (Hu : ecrecover (C:=unit) h tt = (recoverSigner h, tt)) by (unfold ecrecover; simpl; by destruct (recoverSigner h)).
  rewrite Hu. destruct (recoverSigner h) as [v|e|]; try done.
  by destruct (recordSigner s (NumberU64 h) v).
Qed.

Lemma applyLoop_transparent cfg hs : forall s (c : C),
  Forall U hs -> sigs_coherent U c ->
  exists c', applyLoop cfg s hs c = ((applyLoop (C:=unit) cfg s hs tt).1, c') /\ sigs_coherent U c'.
Proof.
  induction hs as [|h hs IH]; intros s c Hhs Hc; [by exists c|].
  apply Forall_cons_1 in Hhs as [Hh Hhs].
  destruct (applyHeader_transparent cfg s h c Hh Hc) as (c1 & Hr & Hc1).
  simpl. unfold mbind, st_bind. rewrite Hr.
  destruct (applyHeader cfg s h tt) as [[s1|e|] []]; simpl; [|by exists c1..].
  destruct (IH s1 c1 Hhs Hc1) as (c' & Hl & Hc'). rewrite Hl. eauto.
Qed.
End Transparency.

Lemma apply_transparent `{Crypto} `{CacheLaws C Hash Address} (U : Header -> Prop) cfg s hs (c : C) :
  CollisionFree U -> Forall U hs -> sigs_coherent U c ->
  exists c', apply cfg s hs c = (applyPure cfg s hs, c') /\ sigs_coherent U c'.
Proof.
  intros HU Hhs Hc. unfold applyPure. destruct hs as [|h hs]; [by exists c|].
  unfold apply, mbind, st_bind, st_lift.
  destruct (checkNumbers s (h :: hs)) as [u|e|]; [|by exists c..].
  destruct (applyLoop_transparent U HU cfg (h :: hs) s c Hhs Hc) as (c' & Hl & Hc').
  rewrite Hl. exists c'. split; [|done].
  destruct (applyLoop cfg s (h :: hs) tt) as [[s1|e|] []]; done.
Qed.

(** The signature cache is transparent: as long as its entries are right
    and no two of the headers collide, applying headers through it gives the
    result of recovering every signer, whatever it forgets, and leaves it right. *)
Theorem apply_cache_transparent `{Crypto} `{CacheLaws C Hash Address} (U : Header -> Prop) cfg s hs (c : C) :
  CollisionFree U -> Forall U hs -> sigs_coherent U c ->
  exists c', apply cfg s hs c = (applyPure cfg s hs, c') /\ sigs_coherent U c'.
Proof. apply apply_transparent. Qed.

Definition toyHeaders : list Header := [toyHeader 10 33 2 []; toyHeader 11 11 1 []].

Lemma toyHeaders_collision_free : CollisionFree (H:=toyCrypto) (fun h => h ∈ toyHeaders).
Proof.
  intros h1 h2 H1 H2. unfold toyHeaders in *.
  repeat match goal with
  | H : _ ∈ _ :: _ |- _ => apply elem_of_cons in H as [->|H]
  | H : _ ∈ [] |- _ => by apply not_elem_of_nil in H
  end; vm_compute; congruence.
Qed.

Lemma apply_cache_transparent_witness :
  exists c', apply (H:=toyCrypto) (C:=gmap Z Z) toyCongress toySnapshot toyHeaders {[11 := 33]}
     = (applyPure (H:=toyCrypto) toyCongress toySnapshot toyHeaders, c') /\
    sigs_coherent (H:=toyCrypto) (fun h => h ∈ toyHeaders) c'.
Proof.
  apply (apply_cache_transparent (H:=toyCrypto) (C:=gmap Z Z) (fun h => h ∈ toyHeaders)).
  - apply toyHeaders_collision_free.
  - repeat first [apply Forall_nil_2 | apply Forall_cons_2]; unfold toyHeaders; [left|right; left].
  - intros k v. simpl. intros Hk. apply lookup_singleton_Some in Hk as [<- <-].
    exists (toyHeader 10 33 2 []). split_and!; [left|reflexivity|vm_compute; reflexivity].
Defined.

(** ** Turns *)

Lemma validators_permutation s : validators s ≡ₚ elements (Validators s).
Proof. apply merge_sort_Permutation. Qed.

Lemma elem_of_validators s v : v ∈ validators s <-> v ∈ Validators s.
Proof. by rewrite validators_permutation, elem_of_elements. Qed.

Lemma validators_NoDup s : NoDup (validators s).
Proof. rewrite validators_permutation. apply NoDup_elements. Qed.

Lemma length_validators s : length (validators s) = size (Validators s).
Proof. by rewrite validators_permutation. Qed.

Lemma offsetOf_range l v : 0 <= offsetOf l v <= zlen l.
Proof. unfold zlen. induction l as [|x l IH]; simpl; [lia|]. case_if; lia. Qed.

Lemma offsetOf_lookup l v (i : nat) :
  NoDup l -> (i < length l)%nat -> (offsetOf l v = Z.of_nat i <-> l !! i = Some v).
Proof.
  intros Hnd. revert i. induction Hnd as [|x l Hx Hnd IH]; intros i Hi; simpl in *; [lia|].
  destruct (x =? v) eqn:E; bool_Z.
  - subst x. destruct i as [|i]; simpl; [done|]. split; [lia|].
    intros Hl. destruct Hx. apply list_elem_of_lookup. eauto.
  - destruct i as [|i]; simpl.
    + pose proof (offsetOf_range l v). split; [lia|congruence].
    + rewrite <- IH by lia. lia.
Qed.

(** At every height exactly one validator of a non-empty set is in turn,
    the one at index [number mod n] of the set in ascending order; no other
    address is.  On an empty set the test panics. *)
Theorem inturn_unique s number :
  0 <= number ->
  (Validators s = ∅ -> forall w, inturn s number w = Panic) /\
  (Validators s <> ∅ -> exists v, v ∈ Validators s /\ Sorted Z.le (validators s) /\
     validators s !! Z.to_nat (number mod Z.of_nat (size (Validators s))) = Some v /\
     forall w, inturn s number w = Ok (bool_decide (w = v))).
Proof.
  intros Hnum. split.
  - intros He w. unfold inturn.
    unfold zlen. rewrite length_validators, He. done.
  - intros Hne. set (n := size (Validators s)).
    assert (Hn : (0 < n)%nat).
    { subst n. destruct (size (Validators s)) eqn:E; [|lia]. apply size_empty_inv in E. set_solver. }
    set (i := Z.to_nat (number mod Z.of_nat n)).
    assert (Hi : (i < length (validators s))%nat) by (rewrite length_validators; subst i n; lia).
    destruct (lookup_lt_is_Some_2 _ _ Hi) as [v Hv]. exists v. split_and!.
    + apply elem_of_validators, list_elem_of_lookup. eauto.
    + apply Sorted_merge_sort. intros ??. lia.
    + done.
    + intros w. unfold inturn, zlen. rewrite length_validators. fold n.
      destruct (Z.of_nat n =? 0) eqn:E; bool_Z; [lia|]. f_equal.
      pose proof (offsetOf_lookup (validators s) w i (validators_NoDup s) Hi) as Ho.
      apply eq_true_iff_eq. rewrite Z.eqb_eq, bool_decide_eq_true.
      replace (number mod Z.of_nat n) with (Z.of_nat i) by (subst i; lia).
      split; [intros Hoi; symmetry in Hoi; apply Ho in Hoi; congruence|intros ->; symmetry; by apply Ho].
Qed.

Lemma inturn_unique_witness :
  (Validators toySnapshot = ∅ -> forall w, inturn toySnapshot 10 w = Panic) /\
  (Validators toySnapshot <> ∅ -> exists v, v ∈ Validators toySnapshot /\ Sorted Z.le (validators toySnapshot) /\
     validators toySnapshot !! Z.to_nat (10 mod Z.of_nat (size (Validators toySnapshot))) = Some v /\
     forall w, inturn toySnapshot 10 w = Ok (bool_decide (w = v))).
Proof. apply (inturn_unique toySnapshot 10). lia. Defined.
