(* ===== verification/Engine.v ===== *)
(** * The Congress engine: snapshots on demand and header verification
    (consensus/congress/congress.go, consensus/congress/api.go)

    The engine keeps a cache of snapshots, a cache of signatures and a database
    of checkpoint snapshots; [snapshot] rebuilds the snapshot of any block from
    them, [verifyHeader] and [verifySeal] decide whether a header is valid, and
    [Seal] whether the local validator may sign. *)

From S2P Require Import Prelude Params Types Misc Snapshot.

Definition checkpointInterval : Z := 1024.
Definition FullImmutabilityThreshold : Z := 90000.
Definition epochLength : Z := 30000.
Definition diffInTurn : Z := 2.
Definition diffNoTurn : Z := 1.

(** [loadSnapshot] and [Snapshot.store]: the database composed with the JSON
    codec of snapshots.  A lookup may fail, and so may a write. *)
Class SnapshotDB (D : Type) := {
  loadSnapshot : Hash -> D -> option Snapshot;
  store : Snapshot -> D -> option D;
}.

(** A lookup returns what was stored last, and writes succeed. *)
Class SnapshotDBLaws (D : Type) `{SnapshotDB D} := {
  load_store : forall s d d' k s', store s d = Some d' -> loadSnapshot k d' = Some s' ->
    (k = sHash s /\ s' = s) \/ loadSnapshot k d = Some s';
  store_keeps : forall s d d' k, store s d = Some d' -> k <> sHash s ->
    loadSnapshot k d' = loadSnapshot k d;
  store_total : forall s d, is_Some (store s d);
}.

#[export] Instance gmap_db : SnapshotDB (gmap Hash Snapshot) := {
  loadSnapshot h d := d !! h;
  store s d := Some (<[sHash s := s]> d);
}.
#[export] Instance gmap_db_laws : SnapshotDBLaws (gmap Hash Snapshot).
Proof.
  split; simpl.
  - intros s d d' k s' Hd. simplify_eq. rewrite lookup_insert. case_decide; intros; simplify_eq; auto.
  - intros s d d' k Hd Hk. simplify_eq. rewrite lookup_insert_ne; congruence.
  - eauto.
Qed.

(** The fields of [Congress] the header rules use; [RC], [C] and [D] are the
    types of the snapshot cache, the signature cache and the database. *)
Record CongressEngine {RC C D : Type} : Type := mkEngine {
  chainConfig : ChainConfig;
  config : CongressConfig;
  validator : Address;
  fakeDiff : bool;
  recents : RC;
  signatures : C;
  db : D;
}.
Arguments CongressEngine : clear implicits.

Section Engine.
Context `{Crypto} `{Cache C Hash Address} `{Cache RC Hash Snapshot} `{SnapshotDB D}.
#[local] Abbreviation Congress := (CongressEngine RC C D).

(** [New]: a zero epoch is replaced by the default. *)
Definition New (cfg : ChainConfig) (conf : CongressConfig) (rc : RC) (sc : C) (d : D) : Congress :=
  let conf := if Epoch conf =? 0
    then mkCongressConfig (Period conf) epochLength (EnableDevVerification conf) else conf in
  mkEngine RC C D cfg conf 0 false rc sc d.

Definition Authorize (val : Address) (c : Congress) : Congress :=
  mkEngine RC C D (chainConfig c) (config c) val (fakeDiff c) (recents c) (signatures c) (db c).

Definition set_recents (rc : RC) (c : Congress) : Congress :=
  mkEngine RC C D (chainConfig c) (config c) (validator c) (fakeDiff c) rc (signatures c) (db c).
Definition set_signatures (sc : C) (c : Congress) : Congress :=
  mkEngine RC C D (chainConfig c) (config c) (validator c) (fakeDiff c) (recents c) sc (db c).
Definition set_db (d : D) (c : Congress) : Congress :=
  mkEngine RC C D (chainConfig c) (config c) (validator c) (fakeDiff c) (recents c) (signatures c) d.

(** Run a computation on the signature cache. *)
Definition with_sigs {A} (m : ST C A) : ST Congress A := fun c =>
  let '(r, sc) := m (signatures c) in (r, set_signatures sc c).

(** [header.Number.Uint64()]: a nil number is a nil dereference. *)
Definition Number_Uint64 (h : Header) : res Z :=
  match Number h with None => Panic | Some n => Ok (u64 n) end.

(** [number % c.config.Epoch == 0] *)
Definition isEpochBlock (cfg : CongressConfig) (number : Z) : res bool :=
  if Epoch cfg =? 0 then Panic else Ok (number mod Epoch cfg =? 0).

(** [snap.store(c.db)] *)
Definition storeSnapshot (s : Snapshot) : ST Congress unit := fun c =>
  match store s (db c) with
  | Some d => (Ok tt, set_db d c)
  | None => (Err (extError 1), c)
  end.

(** ** Retrieving a snapshot *)

(** May the search stop at this block and trust the validators of its header? *)
Definition trusted (cfg : CongressConfig) (chain : ChainHeaderReader) (number nheaders : Z) : res bool :=
  if number =? 0 then Ok true else
  epoch ← isEpochBlock cfg number;
  Ok (epoch && ((FullImmutabilityThreshold <? nheaders) ||
                bool_decide (GetHeaderByNumber chain (number -w 1) = None))).

(** The next header to gather: the last explicit parent if there is one. *)
Definition gather (chain : ChainHeaderReader) (number : Z) (hash : Hash) (parents : list Header)
    : res (Header * list Header) :=
  match list.last parents with
  | Some header =>
      if negb (HeaderHash header =? hash) then Err ErrUnknownAncestor else
      n ← Number_Uint64 header;
      if negb (n =? number) then Err ErrUnknownAncestor else Ok (header, removelast parents)
  | None =>
      match GetHeader chain hash number with
      | None => Err ErrUnknownAncestor
      | Some header => Ok (header, [])
      end
  end.

(** The search of [snapshot] for a known snapshot.  The headers gathered on the
    way are consed, hence already in the order the reversal of the code gives. *)
Fixpoint findSnapshot (fuel : nat) (chain : ChainHeaderReader) (number : Z) (hash : Hash)
    (parents headers : list Header) : ST Congress (Snapshot * list Header) :=
  c ← st_get;
  let '(hit, rc) := cache_get hash (recents c) in
  _ ← st_put (set_recents rc c);
  match hit with
  | Some s => mret (s, headers)
  | None =>
      match (if number mod checkpointInterval =? 0 then loadSnapshot hash (db c) else None) with
      | Some s => mret (s, headers)
      | None =>
          trust ← st_lift (trusted (config c) chain number (zlen headers));
          match (if (trust : bool) then GetHeaderByNumber chain number else None) with
          | Some checkpoint =>
              vs ← st_lift (extraValidators (Extra checkpoint));
              let snap := newSnapshot number (HeaderHash checkpoint) vs in
              _ ← storeSnapshot snap;
              mret (snap, headers)
          | None =>
              match fuel with
              | O => st_err ErrOutOfFuel
              | S fuel =>
                  hp ← st_lift (gather chain number hash parents);
                  findSnapshot fuel chain (number -w 1) (ParentHash hp.1) hp.2 (hp.1 :: headers)
              end
          end
      end
  end.

(** The search goes back one block per step and ends at the genesis block, so
    [number] steps back are enough ([snapshot_refines] relies on it). *)
Definition snapshot (chain : ChainHeaderReader) (number : Z) (hash : Hash) (parents : list Header)
    : ST Congress Snapshot :=
  sh ← findSnapshot (Z.to_nat number) chain number hash parents [];
  let headers := sh.2 in
  c ← st_get;
  snap ← with_sigs (apply (config c) sh.1 headers);
  _ ← st_modify (fun c => set_recents (cache_add (sHash snap) snap (recents c)) c);
  _ ← (if (sNumber snap mod checkpointInterval =? 0) && (0 <? zlen headers)
       then storeSnapshot snap else mret tt);
  mret snap.

(** ** Verifying a header *)

(** [header.Difficulty.Cmp(d) != 0] on a possibly nil difficulty. *)
Definition difficultyIs (header : Header) (d : Z) : res bool :=
  match Difficulty header with None => Panic | Some x => Ok (x =? d) end.

(** The loop over the recents only looks for an offending entry, so the
    iteration order of the map does not matter. *)
Definition signedRecently (snap : Snapshot) (number : Z) (signer : Address) : bool :=
  let limit := recentLimit (size (Validators snap)) in
  bool_decide (Exists (fun kv => kv.2 = signer /\ number -w limit < kv.1) (map_to_list (Recents snap))).

Definition verifySeal (chain : ChainHeaderReader) (header : Header) (parents : list Header)
    : ST Congress unit :=
  number ← st_lift (Number_Uint64 header);
  _ ← st_fail_if (number =? 0) errUnknownBlock;
  snap ← snapshot chain (number -w 1) (ParentHash header) parents;
  signer ← with_sigs (ecrecover header);
  _ ← st_fail_if (negb (signer =? Coinbase header)) errInvalidCoinbase;
  _ ← st_fail_if (bool_decide (signer ∉ Validators snap)) errUnauthorizedValidator;
  _ ← st_fail_if (signedRecently snap number signer) errRecentlySigned;
  c ← st_get;
  if fakeDiff c then mret tt else
  turn ← st_lift (inturn snap number signer);
  right ← st_lift (difficultyIs header (if (turn : bool) then diffInTurn else diffNoTurn));
  st_fail_if (negb right) errWrongDifficulty.

Definition VerifySeal (chain : ChainHeaderReader) (header : Header) : ST Congress unit :=
  verifySeal chain header [].

Definition checkParent (parent : option Header) (number : Z) (header : Header) : res Header :=
  match parent with
  | None => Err ErrUnknownAncestor
  | Some parent =>
      n ← Number_Uint64 parent;
      if negb (n =? number -w 1) || negb (HeaderHash parent =? ParentHash header)
      then Err ErrUnknownAncestor else Ok parent
  end.

(** The checks of a header against its parent. *)
Definition checkCascading (ccfg : ChainConfig) (cfg : CongressConfig) (parent header : Header) : res unit :=
  _ ← fail_if (Time header <? Time parent +w Period cfg) ErrInvalidTimestamp;
  _ ← fail_if (GasLimit header <? GasUsed header) (errorf "invalid gasUsed: have, gasLimit");
  if negb (IsLondon ccfg (Number header)) then
    _ ← fail_if (bool_decide (is_Some (BaseFee header))) (errorf "invalid baseFee before fork: have, want <nil>");
    VerifyGaslimit (GasLimit parent) (GasLimit header)
  else VerifyEip1559Header ccfg parent header.

Definition verifyCascadingFields (chain : ChainHeaderReader) (header : Header) (parents : list Header)
    : ST Congress unit :=
  number ← st_lift (Number_Uint64 header);
  if number =? 0 then mret tt else
  let parent := match list.last parents with
    | Some parent => Some parent
    | None => GetHeader chain (ParentHash header) (number -w 1)
    end in
  parent ← st_lift (checkParent parent number header);
  c ← st_get;
  _ ← st_lift (checkCascading (Config chain) (config c) parent header);
  verifySeal chain header parents.

(** The checks that need no other header; [now] is [time.Now().Unix()]. *)
Definition checkStandalone (now : Z) (ccfg : ChainConfig) (cfg : CongressConfig) (header : Header) : res unit :=
  match Number header with
  | None => Err errUnknownBlock
  | Some n =>
      let number := u64 n in
      _ ← fail_if (now <? Time header) ErrFutureBlock;
      _ ← fail_if (zlen (Extra header) <? extraVanity) errMissingVanity;
      _ ← fail_if (zlen (Extra header) <? extraVanity + extraSeal) errMissingSignature;
      isEpoch ← isEpochBlock cfg number;
      let validatorsBytes := zlen (Extra header) - extraVanity - extraSeal in
      _ ← fail_if (negb isEpoch && negb (validatorsBytes =? 0)) errExtraValidators;
      _ ← fail_if (isEpoch && negb (Z.rem validatorsBytes AddressLength =? 0)) errExtraValidators;
      _ ← fail_if (negb (MixDigest header =? 0)) errInvalidMixDigest;
      _ ← fail_if (negb (UncleHash header =? EmptyUncleHash)) errInvalidUncleHash;
      _ ← fail_if ((0 <? number) && bool_decide (Difficulty header = None)) errInvalidDifficulty;
      _ ← fail_if (9223372036854775807 <? GasLimit header) (errorf "invalid gasLimit: have, max");
      VerifyForkHashes ccfg header false
  end.

Definition verifyHeader (now : Z) (chain : ChainHeaderReader) (header : Header) (parents : list Header)
    : ST Congress unit :=
  c ← st_get;
  _ ← st_lift (checkStandalone now (Config chain) (config c) header);
  verifyCascadingFields chain header parents.

Definition VerifyHeader (now : Z) (chain : ChainHeaderReader) (header : Header) : ST Congress unit :=
  verifyHeader now chain header [].

(** [VerifyHeaders]: the results in the order of the input, each header checked
    with the ones before it as parents, whatever their own outcome.  A panic
    ends the goroutine and with it the process. *)
Fixpoint verifyHeadersFrom (now : Z) (chain : ChainHeaderReader) (parents headers : list Header)
    : ST Congress (list (res unit)) :=
  match headers with
  | [] => mret []
  | header :: headers =>
      r ← st_catch (verifyHeader now chain header parents);
      rs ← verifyHeadersFrom now chain (parents ++ [header]) headers;
      mret (r :: rs)
  end.

Definition VerifyHeaders (now : Z) (chain : ChainHeaderReader) (headers : list Header)
    : ST Congress (list (res unit)) :=
  verifyHeadersFrom now chain [] headers.

Definition VerifyUncles (uncles : list Header) : res unit :=
  fail_if (0 <? zlen uncles) (errorf "uncles not allowed").

(** ** Sealing *)

Definition calcDifficulty (snap : Snapshot) (val : Address) : res Z :=
  turn ← inturn snap (sNumber snap +w 1) val;
  Ok (if (turn : bool) then diffInTurn else diffNoTurn).

(** A failed retrieval gives a nil difficulty. *)
Definition CalcDifficulty (chain : ChainHeaderReader) (parent : Header) : ST Congress (option Z) :=
  number ← st_lift (Number_Uint64 parent);
  snap ← st_try (snapshot chain number (HeaderHash parent) []);
  match snap with
  | None => mret None
  | Some snap => c ← st_get; d ← st_lift (calcDifficulty snap (validator c)); mret (Some d)
  end.

(** The scan for the oldest recent entry: its block and its signer, from
    [math.MaxUint64] and the zero address. *)
Definition oldestEntry (r : gmap Z Address) : Z * Address :=
  map_fold (fun recentSeen recentValidator best =>
    if recentSeen <? best.1 then (recentSeen, recentValidator) else best) (MaxUint64, 0) r.

(** What [Seal] decides at a recent entry of the local validator: sign at once
    ([break]) or give up ([return nil]). *)
Definition sealAtEntry (snap : Snapshot) (number : Z) (val : Address) (seen : Z) : res bool :=
  let limit := recentLimit (size (Validators snap)) in
  if (limit <=? number) && (seen <=? number -w limit) then Ok true else
  let recentCount := Z.of_nat (size (Recents snap)) in
  let validatorCount := Z.of_nat (size (Validators snap)) in
  if (Z.quot (validatorCount * 3) 4 <=? recentCount) && (val =? (oldestEntry (Recents snap)).2)
  then Ok true else
  if validatorCount <=? recentCount then
    turn ← inturn snap number val;
    if (turn : bool) then Ok true else Ok (val =? (oldestEntry (Recents snap)).2)
  else Ok false.

(** The loop over the recents, in an iteration order [order] of the map, ends at
    the first entry of the local validator. *)
Fixpoint sealPermitted (snap : Snapshot) (number : Z) (val : Address) (order : list (Z * Address)) : res bool :=
  match order with
  | [] => Ok true
  | (seen, recent) :: order =>
      if recent =? val then sealAtEntry snap number val seen
      else sealPermitted snap number val order
  end.

Inductive SealOutcome : Type :=
  | Paused            (* empty block on a 0-period chain *)
  | MustWait          (* signed recently *)
  | Sealed (h : Header).

(** [copy(header.Extra[len(header.Extra)-extraSeal:], sighash)] *)
Definition putSeal (header : Header) (sighash : list byte) : res Header :=
  let n := zlen (Extra header) - extraSeal in
  if n <? 0 then Panic else
  let sig := take (Z.to_nat extraSeal) sighash in
  Ok (set_Extra (take (Z.to_nat n) (Extra header) ++ sig ++
                 drop (Z.to_nat n + length sig) (Extra header)) header).

(** [Seal] up to the goroutine that delivers the sealed block after its delay.
    [signFn] is the account's signing function. *)
Definition Seal (chain : ChainHeaderReader) (signFn : Address -> Header -> res (list byte))
    (order : list (Z * Address)) (header : Header) (ntxs : Z) : ST Congress SealOutcome :=
  number ← st_lift (Number_Uint64 header);
  _ ← st_fail_if (number =? 0) errUnknownBlock;
  c ← st_get;
  if (Period (config c) =? 0) && (ntxs =? 0) then mret Paused else
  let val := validator c in
  snap ← snapshot chain (number -w 1) (ParentHash header) [];
  _ ← st_fail_if (bool_decide (val ∉ Validators snap)) errUnauthorizedValidator;
  permitted ← st_lift (sealPermitted snap number val order);
  if negb permitted then mret MustWait else
  _ ← st_lift (difficultyIs header diffNoTurn);
  sighash ← st_lift (signFn val header);
  h ← st_lift (putSeal header sighash);
  mret (Sealed h).

(** ** The RPC interface *)

(** [rpc.BlockNumber]: nil and [LatestBlockNumber] (-1) mean the head. *)
Definition headerAt (chain : ChainHeaderReader) (number : option Z) : option Header :=
  match number with
  | None => CurrentHeader chain
  | Some n => if n =? -1 then CurrentHeader chain else GetHeaderByNumber chain (u64 n)
  end.

Definition GetSnapshot (chain : ChainHeaderReader) (number : option Z) : ST Congress Snapshot :=
  match headerAt chain number with
  | None => st_err errUnknownBlock
  | Some header => n ← st_lift (Number_Uint64 header); snapshot chain n (HeaderHash header) []
  end.

Definition GetSnapshotAtHash (chain : ChainHeaderReader) (hash : Hash) : ST Congress Snapshot :=
  match GetHeaderByHash chain hash with
  | None => st_err errUnknownBlock
  | Some header => n ← st_lift (Number_Uint64 header); snapshot chain n (HeaderHash header) []
  end.

Definition GetValidators (chain : ChainHeaderReader) (number : option Z) : ST Congress (list Address) :=
  snap ← GetSnapshot chain number; mret (validators snap).

Definition GetValidatorsAtHash (chain : ChainHeaderReader) (hash : Hash) : ST Congress (list Address) :=
  snap ← GetSnapshotAtHash chain hash; mret (validators snap).

(** [Status]: the number of in-turn blocks and the blocks per sealer over the
    last [numBlocks] blocks; the percentage the code reports is
    [100 * optimals / numBlocks] in floating point. *)
Record status : Type := mkStatus {
  optimals : Z;
  SigningStatus : gmap Address Z;
  NumBlocks : Z;
}.

Fixpoint statusLoop (chain : ChainHeaderReader) (ns : list Z) (st : status) : res status :=
  match ns with
  | [] => Ok st
  | n :: ns =>
      match GetHeaderByNumber chain n with
      | None => Err (errorf "missing block")
      | Some h =>
          good ← difficultyIs h diffInTurn;
          let count := default 0 (SigningStatus st !! Coinbase h) in
          statusLoop chain ns (mkStatus (if (good : bool) then optimals st + 1 else optimals st)
            (<[Coinbase h := count + 1]> (SigningStatus st)) (NumBlocks st))
      end
  end.

Definition Status (chain : ChainHeaderReader) : ST Congress status :=
  match CurrentHeader chain with
  | None => st_panic
  | Some header =>
      fin ← st_lift (Number_Uint64 header);
      snap ← snapshot chain fin (HeaderHash header) [];
      let '(start, numBlocks) := if fin <? 64 then (1, fin -w 1) else (fin -w 64, 64) in
      let signStatus := list_to_map ((fun v => (v, 0)) <$> validators snap) in
      st_lift (statusLoop chain (seqZ start (fin - start)) (mkStatus 0 signStatus numBlocks))
  end.
End Engine.
