(* ===== verification/EngineFacts.v ===== *)
(** * The engine retrieves the right snapshots

    The snapshot of a block is specified without caches, database or batch:
    apply every header from the genesis block on.  [snapshot] implements this. *)

From S2P Require Import Prelude Params Types Misc Snapshot Engine.

(** ** [apply] on contiguous headers *)

Section ApplyEq.
Context `{Crypto} (cfg : CongressConfig).

Lemma applyPure_eq s hs :
  hs <> [] -> contiguous (sNumber s) hs = true ->
  applyPure cfg s hs = relabel (u64 (sNumber s + zlen hs)) (HeaderHash (List.last hs (toyHeader 0 0 0 [])))
                         <$> (applyLoop cfg s hs tt).1.
Proof.
  intros Hne Hc. apply checkNumbers_contiguous in Hc. unfold applyPure, apply.
  destruct hs as [|h hs]; [done|]. unfold mbind, st_bind, st_lift. rewrite Hc.
  destruct (applyLoop cfg s (h :: hs) tt) as [[s1|e|] []] eqn:E; simpl; try done.
  apply applyLoop_number in E. rewrite E. unfold relabel. do 2 f_equal.
  clear. revert h. induction hs as [|h' hs IH]; intros h; [done|]. simpl. destruct hs; [done|]. apply (IH h).
Qed.

(** Splitting a batch, errors included. *)
Lemma applyPure_split s hs1 hs2 s1 :
  is_u64 (sNumber s) -> is_u64 (sNumber s + zlen (hs1 ++ hs2)) -> contiguous (sNumber s) (hs1 ++ hs2) = true ->
  applyPure cfg s hs1 = Ok s1 -> applyPure cfg s1 hs2 = applyPure cfg s (hs1 ++ hs2).
Proof.
  intros Hs Hu Hc Ha. unfold zlen in Hu. rewrite length_app in Hu.
  destruct hs1 as [|h1 hs1']; [by injection Ha as <-|]. set (hs1 := h1 :: hs1') in *.
  destruct hs2 as [|h2 hs2']; [rewrite app_nil_r; rewrite Ha; done|]. set (hs2 := h2 :: hs2') in *.
  assert (Hu1 : is_u64 (sNumber s + zlen hs1)) by (unfold zlen; word_lia).
  rewrite contiguous_app in Hc by done. apply andb_prop in Hc as [Hc1 Hc2].
  rewrite applyPure_eq in Ha by done.
  destruct (applyLoop cfg s hs1 tt) as [[a|e|] []] eqn:E1; [|done..].
  injection Ha as <-. rewrite u64_small by done.
  rewrite (applyPure_eq s (hs1 ++ hs2)); [|done|].
  2: { rewrite contiguous_app, Hc1, Hc2; done. }
  rewrite (applyPure_eq (relabel _ _ a)); [|done|done].
  rewrite applyLoop_relabel, applyLoop_app. unfold mbind, st_bind. rewrite E1.
  assert (Hl : List.last (hs1 ++ hs2) (toyHeader 0 0 0 []) = List.last hs2 (toyHeader 0 0 0 []))
    by (by apply last_app_ne).
  assert (Hz : zlen (hs1 ++ hs2) = zlen hs1 + zlen hs2) by (unfold zlen; rewrite length_app; lia).
  rewrite Hl, Hz. destruct (applyLoop cfg a hs2 tt) as [[b|e|] []]; [|done..].
  unfold relabel, fmap, res_map, fst. cbn [sNumber]. do 3 f_equal. lia.
Qed.
End ApplyEq.

(** Retrieving a snapshot changes the caches and the database only. *)
Section Keeps.
Context `{Crypto} `{Cache C Hash Address} `{Cache RC Hash Snapshot} `{SnapshotDB D}.

Definition engine_id (c : CongressEngine RC C D) : ChainConfig * CongressConfig * Address * bool :=
  (chainConfig c, config c, validator c, fakeDiff c).

Lemma storeSnapshot_keeps s : st_keeps engine_id (storeSnapshot s).
Proof. intros c. unfold storeSnapshot. by destruct (store s (db c)). Qed.

Lemma with_sigs_keeps {A} (m : ST C A) : st_keeps engine_id (with_sigs (RC:=RC) (D:=D) m).
Proof. intros c. unfold with_sigs. by destruct (m (signatures c)). Qed.

Lemma findSnapshot_keeps chain : forall fuel number hash parents headers,
  st_keeps engine_id (findSnapshot (C:=C) (RC:=RC) (D:=D) fuel chain number hash parents headers).
Proof.
  induction fuel as [|fuel IH]; intros number hash parents headers c; cbn [findSnapshot];
    unfold mbind at 1, st_bind at 1, st_get at 1; destruct (cache_get hash (recents c)) as [hit rc];
    unfold mbind at 1, st_bind at 1, st_put at 1;
    change (engine_id c) with (engine_id (set_recents rc c)); generalize (set_recents rc c) as c1.
  all: destruct hit; [done|]; destruct (if _ =? 0 then _ else None); [done|].
  all: match goal with |- forall c1, engine_id (?m c1).2 = _ => change (st_keeps engine_id m) end.
  all: apply st_keeps_bind; [done|]; intros trust; destruct (if trust then _ else None).
  all: eauto 10 using storeSnapshot_keeps with node.
Qed.

Lemma snapshot_keeps chain number hash parents :
  st_keeps engine_id (snapshot (C:=C) (RC:=RC) (D:=D) chain number hash parents).
Proof.
  unfold snapshot. apply st_keeps_bind; [apply findSnapshot_keeps|]. intros sh.
  apply st_keeps_bind; [done|]. intros c. apply st_keeps_bind; [apply with_sigs_keeps|]. intros s.
  apply st_keeps_bind; [done|]. intros []. apply st_keeps_bind; [|done].
  apply st_keeps_if; [apply storeSnapshot_keeps|done].
Qed.
End Keeps.

(** ** The specification of a snapshot *)

(** A chain of headers from the genesis block on. *)
Record linked_chain `{Crypto} (genesis : Header) (hs : list Header) : Prop := {
  chain_numbers : forall i h, (genesis :: hs) !! i = Some h -> Number h = Some (Z.of_nat i);
  chain_parents : forall i h p, (genesis :: hs) !! S i = Some h -> (genesis :: hs) !! i = Some p ->
    ParentHash h = HeaderHash p;
  chain_u64 : is_u64 (zlen hs);
  chain_collision_free : CollisionFree (fun h => h ∈ genesis :: hs);
}.

(** The local database: it starts at the same genesis block and holds every
    number up to its head. *)
Record chain_view (chain : ChainHeaderReader) (genesis : Header) : Prop := {
  view_genesis : GetHeaderByNumber chain 0 = Some genesis;
  view_prefix : forall n, 0 < n -> GetHeaderByNumber chain (n - 1) = None -> GetHeaderByNumber chain n = None;
}.

(** [parents] is the batch from block [a] up to block [n]; the headers before
    it are in the database. *)
Record batch_ok `{Crypto} (chain : ChainHeaderReader) (cs : list Header) (n a : nat) (parents : list Header) : Prop := {
  batch_parents : parents = drop a (take (S n) cs);
  batch_rest : forall i h, (i < a)%nat -> (i <= n)%nat -> cs !! i = Some h ->
    GetHeader chain (HeaderHash h) (Z.of_nat i) = Some h;
}.

Lemma elem_of_take_drop {A} (x : A) i j l : x ∈ drop i (take j l) -> x ∈ l.
Proof.
  rewrite !list_elem_of_lookup. intros [k Hk]. rewrite lookup_drop, lookup_take_Some in Hk.
  destruct Hk as [Hk _]. eauto.
Qed.

Section Retrieval.
Context `{Crypto} `{CacheLaws C Hash Address} `{CacheLaws RC Hash Snapshot} `{SnapshotDBLaws D}.
Context (cfg : CongressConfig) (genesis : Header) (hs : list Header) (vals : list Address).
Local Abbreviation cs := (genesis :: hs).

(** The snapshot after block [n]. *)
Definition ideal (n : nat) : res Snapshot :=
  applyPure cfg (newSnapshot 0 (HeaderHash genesis) vals) (take n hs).

Definition ideal_at (k : Hash) (s : Snapshot) : Prop :=
  forall i h, cs !! i = Some h -> HeaderHash h = k -> ideal i = Ok s.

(** The caches and the database hold only right entries about this chain. *)
Record engine_ok (c : CongressEngine RC C D) : Prop := {
  engine_cfg : config c = cfg;
  engine_recents : cache_coherent ideal_at (recents c);
  engine_db : forall k s, loadSnapshot k (db c) = Some s -> ideal_at k s;
  engine_sigs : sigs_coherent (fun h => h ∈ cs) (signatures c);
}.

Hypothesis Linked : linked_chain genesis hs.
Hypothesis EpochSet : Epoch cfg <> 0.
Hypothesis GenesisVals : extraValidators (Extra genesis) = Ok vals.

Lemma same_hash_same_block i j h h' :
  cs !! i = Some h -> cs !! j = Some h' -> HeaderHash h = HeaderHash h' -> i = j.
Proof.
  intros Hi Hj He.
  assert (h = h') as <-.
  { apply (chain_collision_free _ _ Linked); [..|done]; apply list_elem_of_lookup; eauto. }
  apply (chain_numbers _ _ Linked) in Hi. apply (chain_numbers _ _ Linked) in Hj.
  rewrite Hi in Hj. injection Hj. lia.
Qed.

Lemma chain_NumberU64 i h : cs !! i = Some h -> Number_Uint64 h = Ok (Z.of_nat i) /\ NumberU64 h = Z.of_nat i.
Proof.
  intros Hi. pose proof (chain_numbers _ _ Linked _ _ Hi) as Hn. unfold Number_Uint64, NumberU64. rewrite Hn.
  simpl. rewrite u64_small; [done|]. apply lookup_lt_Some in Hi. simpl in Hi.
  pose proof (chain_u64 _ _ Linked). unfold zlen in *. word_lia.
Qed.

Lemma contiguous_segment (j n : nat) :
  contiguous (Z.of_nat j) (drop j (take n hs)) = true.
Proof.
  remember (drop j (take n hs)) as l eqn:El. revert j El.
  induction l as [|h l IH]; intros j El; [done|]. simpl.
  assert (Hh : drop j (take n hs) !! O = Some h) by (by rewrite <- El).
  rewrite lookup_drop, lookup_take_Some in Hh. destruct Hh as [Hh Hlt]. rewrite Nat.add_0_r in *.
  pose proof (chain_NumberU64 (S j) h Hh) as [_ Hn]. rewrite Hn.
  assert (Hj := lookup_lt_Some _ _ _ Hh). pose proof (chain_u64 _ _ Linked) as Hu. unfold zlen in Hu.
  rewrite u64_small by word_lia. rewrite IH.
  - rewrite andb_true_r. apply Z.eqb_eq. lia.
  - replace (S j) with (j + 1)%nat by lia. rewrite <- drop_drop, <- El. done.
Qed.

Lemma ideal_contiguous n : contiguous 0 (take n hs) = true.
Proof. pose proof (contiguous_segment 0 n) as Hc. by rewrite drop_0 in Hc. Qed.

(** The ideal snapshot of block [n] is labelled with that block. *)
Lemma ideal_label n h s : cs !! n = Some h -> ideal n = Ok s -> sHash s = HeaderHash h /\ sNumber s = Z.of_nat n.
Proof.
  intros Hn Hi. unfold ideal in Hi. destruct n as [|n].
  - simpl in *. unfold applyPure in Hi. simplify_eq/=. done.
  - simpl in Hn. assert (Hl := lookup_lt_Some _ _ _ Hn).
    assert (Hne : take (S n) hs <> []) by (destruct hs; simpl in *; [lia|done]).
    pose proof (chain_u64 _ _ Linked) as Hu. unfold zlen in Hu.
    rewrite applyPure_eq in Hi; [|done|apply ideal_contiguous].
    destruct (applyLoop _ _ _ _) as [[b|e|] []]; simplify_eq/=.
    unfold zlen. rewrite length_take, u64_small by word_lia. split; [|lia].
    rewrite (take_S_r _ _ h) by done. by rewrite List.last_last.
Qed.

Lemma ideal_split j n s : (j <= n)%nat -> ideal j = Ok s -> applyPure cfg s (drop j (take n hs)) = ideal n.
Proof.
  intros Hj Hi. unfold ideal in *.
  assert (Ht : take j hs ++ drop j (take n hs) = take n hs).
  { rewrite <- (take_drop j (take n hs)) at 2. rewrite take_take. by rewrite Nat.min_l. }
  pose proof (chain_u64 _ _ Linked) as Hu. unfold zlen in Hu.
  erewrite applyPure_split; [by rewrite Ht|..|exact Hi].
  - done.
  - rewrite Ht. unfold zlen. simpl. rewrite length_take. word_lia.
  - rewrite Ht. apply ideal_contiguous.
Qed.

Lemma ideal_ok n s : ideal n = Ok s -> snapshot_ok s.
Proof.
  unfold ideal, applyPure. intros Hi. pose proof (chain_u64 _ _ Linked) as Hu. unfold zlen in Hu.
  destruct (apply cfg (newSnapshot 0 (HeaderHash genesis) vals) (take n hs) tt) as [r []] eqn:Ha. simpl in Hi. subst r.
  apply apply_preserves in Ha; [tauto|by apply newSnapshot_ok|]. simpl. unfold zlen. rewrite length_take. word_lia.
Qed.

Lemma ideal_0 : ideal 0 = Ok (newSnapshot 0 (HeaderHash genesis) vals).
Proof. done. Qed.

(** ** Steps of the search *)

Lemma gather_step chain n a (k : nat) h :
  batch_ok chain cs n a (drop a (take (S n) cs)) -> (k <= n)%nat -> cs !! k = Some h ->
  gather chain (Z.of_nat k) (HeaderHash h) (drop a (take (S k) cs)) = Ok (h, drop a (take k cs)).
Proof.
  intros Hb Hk Hh. unfold gather. rewrite (take_S_r cs k h) by done.
  assert (Hl := lookup_lt_Some _ _ _ Hh).
  destruct (decide (a <= k)%nat) as [Ha|Ha].
  - rewrite drop_app_le by (rewrite length_take; lia).
    rewrite last_snoc, Z.eqb_refl. simpl.
    destruct (chain_NumberU64 _ _ Hh) as [-> _]. simpl. rewrite Z.eqb_refl. simpl.
    by rewrite removelast_last.
  - rewrite !drop_ge by (rewrite ?length_app, ?length_take; simpl; lia).
    simpl. by rewrite (batch_rest _ _ _ _ _ Hb) by (done || lia).
Qed.

Lemma not_trusted chain (k n : nat) :
  chain_view chain genesis -> (0 < k)%nat -> (k <= n)%nat -> Z.of_nat (n - k) <= FullImmutabilityThreshold ->
  is_u64 (Z.of_nat k) ->
  exists b, trusted cfg chain (Z.of_nat k) (Z.of_nat (n - k)) = Ok b /\
    (if b then GetHeaderByNumber chain (Z.of_nat k) else None) = None.
Proof.
  intros Hv Hk Hn Ht Hu. unfold trusted, isEpochBlock.
  destruct (Z.of_nat k =? 0) eqn:E0; bool_Z; [lia|].
  destruct (Epoch cfg =? 0) eqn:E1; bool_Z; [lia|]. simpl.
  eexists. split; [done|]. destruct (_ && _) eqn:E; [|done]. apply andb_prop in E as [_ E].
  apply orb_prop in E as [Hlt|Hnone]; bool_Z; [lia|].
  apply (view_prefix _ _ Hv); [lia|]. rewrite u64_small in Hnone by word_lia. done.
Qed.

Lemma engine_ok_recents c rc :
  engine_ok c -> cache_coherent ideal_at rc -> engine_ok (set_recents rc c).
Proof. intros Hc Hrc. destruct Hc. split; done. Qed.

(** Recording the ideal snapshot of a block, in the cache or in the database. *)
Lemma ideal_at_own n h s : cs !! n = Some h -> ideal n = Ok s -> ideal_at (sHash s) s.
Proof.
  intros Hn Hi i h' Hh' Heq. destruct (ideal_label _ _ _ Hn Hi) as [Hl _].
  rewrite (same_hash_same_block i n h' h); [done..|congruence].
Qed.

Lemma store_ideal c n h s :
  engine_ok c -> cs !! n = Some h -> ideal n = Ok s ->
  exists c', storeSnapshot s c = (Ok tt, c') /\ engine_ok c'.
Proof.
  intros Hc Hn Hi. unfold storeSnapshot. destruct (store_total s (db c)) as [d Hd]. rewrite Hd.
  eexists. split; [done|]. destruct Hc. split; [done|done| |done]. simpl. intros k s' Hl.
  destruct (load_store _ _ _ _ _ Hd Hl) as [[-> ->]|Hold]; [|by eauto].
  by eapply ideal_at_own.
Qed.

(** The block where the search may stop at the latest: the genesis block, or a
    checkpoint whose snapshot is in the database; the headers after it are
    not too many to be trusted blindly. *)
Definition anchored (c : CongressEngine RC C D) (m n : nat) : Prop :=
  (m <= n)%nat /\ Z.of_nat (n - m) <= FullImmutabilityThreshold /\
  (m = O \/ Z.of_nat m mod checkpointInterval = 0 /\
     exists h s, cs !! m = Some h /\ loadSnapshot (HeaderHash h) (db c) = Some s).

Lemma segment_cons (k n : nat) h : (k < n)%nat -> cs !! S k = Some h ->
  drop k (take n hs) = h :: drop (S k) (take n hs).
Proof. intros Hk Hh. simpl in Hh. apply drop_S. by rewrite lookup_take_lt. Qed.

(** The search finds the ideal snapshot of an ancestor and the headers since. *)
Lemma findSnapshot_spec chain (m n a : nat) : forall (k : nat) c h,
  engine_ok c -> chain_view chain genesis ->
  batch_ok chain cs n a (drop a (take (S n) cs)) ->
  anchored c m n -> (m <= k)%nat -> (k <= n)%nat -> (n < length cs)%nat -> cs !! k = Some h ->
  exists j s c',
    findSnapshot k chain (Z.of_nat k) (HeaderHash h) (drop a (take (S k) cs)) (drop k (take n hs)) c
      = (Ok (s, drop j (take n hs)), c') /\
    (j <= n)%nat /\ ideal j = Ok s /\ engine_ok c'.
Proof.
  induction k as [|k IH]; intros c h Hc Hv Hb Han Hmk Hkn Hlen Hh;
    cbn [findSnapshot]; unfold mbind at 1, st_bind at 1, st_get at 1;
    destruct (cache_get (HeaderHash h) (recents c)) as [hit rc] eqn:Hg;
    pose proof (coherent_get _ _ _ _ _ (engine_recents _ Hc) Hg) as Hrc;
    pose proof (engine_ok_recents _ _ Hc Hrc) as Hc1.
  1, 2: unfold mbind at 1, st_bind at 1, st_put at 1; destruct hit as [s|];
    [eexists _, s, _; split_and!; [done|lia| |done];
     eapply (coherent_hit _ _ _ _ _ (engine_recents _ Hc) Hg); done|].
  - change (Z.of_nat 0 mod checkpointInterval =? 0) with true. cbv iota.
    destruct (loadSnapshot (HeaderHash h) (db c)) as [s|] eqn:Hl.
    { eexists O, s, _. split_and!; [done|lia| |done]. by eapply (engine_db _ Hc). }
    unfold mbind at 1, st_bind at 1, st_lift at 1, trusted. change (Z.of_nat 0) with 0. simpl (_ =? 0). cbv iota.
    rewrite (view_genesis _ _ Hv). simpl in Hh. injection Hh as <-.
    unfold mbind at 1, st_bind at 1, st_lift at 1. rewrite GenesisVals. cbv zeta.
    destruct (store_ideal (set_recents rc c) 0 genesis (newSnapshot 0 (HeaderHash genesis) vals) Hc1)
      as (c' & Hs & Hc'); [done..|].
    unfold mbind, st_bind. rewrite Hs.
    eexists O, _, c'. split_and!; [done|lia|done|done].
  - destruct (if Z.of_nat (S k) mod checkpointInterval =? 0 then _ else None) as [s|] eqn:Hl.
    { eexists (S k), s, _. split_and!; [done|lia| |done].
      destruct (_ =? 0); [|done]. by eapply (engine_db _ Hc). }
    destruct (decide (m = S k)) as [->|Hm].
    { exfalso. destruct Han as (_ & _ & [?|(Hmod & h' & s & Hh' & Hs)]); [lia|].
      rewrite Hmod, Z.eqb_refl in Hl. by simplify_eq. }
    assert (Hu : is_u64 (Z.of_nat (S k))).
    { pose proof (chain_u64 _ _ Linked) as Hz. unfold zlen in Hz. simpl in Hlen. word_lia. }
    assert (Hz : zlen (drop (S k) (take n hs)) = Z.of_nat (n - S k)).
    { unfold zlen. rewrite length_drop, length_take. simpl in Hlen. f_equal. lia. }
    destruct (not_trusted chain (S k) n Hv ltac:(lia) Hkn) as (b & Ht & Hno); [|done|].
    { destruct Han as (? & ? & _). lia. }
    unfold mbind at 1, st_bind at 1, st_lift at 1. rewrite Hz.
    replace (config (set_recents rc c)) with cfg by (symmetry; apply (engine_cfg _ Hc1)).
    replace (config c) with cfg by (symmetry; apply (engine_cfg _ Hc)).
    rewrite Ht, Hno. unfold mbind at 1, st_bind at 1, st_lift at 1.
    rewrite (gather_step chain n a (S k) h) by done. cbn [fst snd].
    destruct (cs !! k) as [p|] eqn:Hp.
    2: { apply lookup_ge_None in Hp. lia. }
    rewrite (chain_parents _ _ Linked k h p) by done.
    rewrite u64_small by word_lia. replace (Z.of_nat (S k) - 1) with (Z.of_nat k) by lia.
    rewrite <- (segment_cons k n h) by (done || lia).
    apply IH; try done; lia.
Qed.

(** What [snapshot] adds once an ancestor's snapshot is found. *)
Lemma snapshot_finish c n h :
  engine_ok c -> cs !! n = Some h ->
  forall j s chain parents c0,
  findSnapshot (Z.to_nat (Z.of_nat n)) chain (Z.of_nat n) (HeaderHash h) parents [] c0
    = (Ok (s, drop j (take n hs)), c) ->
  (j <= n)%nat -> ideal j = Ok s ->
  exists c', snapshot chain (Z.of_nat n) (HeaderHash h) parents c0 = (ideal n, c') /\ engine_ok c'.
Proof.
  intros Hc Hn j s chain parents c0 Hf Hj Hs. unfold snapshot.
  unfold mbind at 1, st_bind at 1. rewrite Hf. cbn [fst snd].
  unfold mbind at 1, st_bind at 1, st_get at 1. unfold mbind at 1, st_bind at 1, with_sigs at 1.
  rewrite (engine_cfg _ Hc).
  destruct (apply_transparent (fun h => h ∈ cs) cfg s (drop j (take n hs)) (signatures c))
    as (sc & Ha & Hsc); [apply (chain_collision_free _ _ Linked)| |apply (engine_sigs _ Hc)|].
  { apply Forall_forall. intros x Hx%list_elem_of_In. apply elem_of_cons. right.
    eapply elem_of_take_drop. exact Hx. }
  rewrite Ha, (ideal_split j n s Hj Hs).
  assert (Hc1 : engine_ok (set_signatures sc c)) by (destruct Hc; by split).
  destruct (ideal n) as [s'|e|] eqn:Hi; [|by eexists..].
  unfold mbind at 1, st_bind at 1, st_modify at 1.
  assert (Hc2 : engine_ok (set_recents (cache_add (sHash s') s' (recents (set_signatures sc c))) (set_signatures sc c))).
  { apply engine_ok_recents; [done|]. apply coherent_add; [apply (engine_recents _ Hc1)|].
    by eapply ideal_at_own. }
  case_if; unfold mbind, st_bind.
  - destruct (store_ideal _ _ _ _ Hc2 Hn Hi) as (c' & Hst & Hc'). rewrite Hst. by exists c'.
  - by eexists.
Qed.
End Retrieval.

Lemma snapshot_correct `{Crypto} `{CacheLaws C Hash Address} `{CacheLaws RC Hash Snapshot}
    `{SnapshotDBLaws D} cfg genesis hs vals chain n a m h (c : CongressEngine RC C D) :
  linked_chain genesis hs -> Epoch cfg <> 0 -> extraValidators (Extra genesis) = Ok vals ->
  chain_view chain genesis -> engine_ok cfg genesis hs vals c ->
  (genesis :: hs) !! n = Some h ->
  batch_ok chain (genesis :: hs) n a (drop a (take (S n) (genesis :: hs))) ->
  anchored genesis hs c m n ->
  exists c',
    snapshot chain (Z.of_nat n) (HeaderHash h) (drop a (take (S n) (genesis :: hs))) c
      = (ideal cfg genesis hs vals n, c') /\
    engine_ok cfg genesis hs vals c'.
Proof.
  intros Hl He Hx Hv Hc Hn Hb Han. pose proof (lookup_lt_Some _ _ _ Hn) as Hlen.
  destruct (findSnapshot_spec cfg genesis hs vals Hl He Hx chain m n a n c h)
    as (j & s & c1 & Hf & Hj & Hs & Hc1); [done..|apply Han|done|done|done|].
  rewrite (drop_ge (take n hs) n) in Hf by (rewrite length_take; lia).
  eapply snapshot_finish; try done. by rewrite Nat2Z.id.
Qed.

(** C1: [snapshot] returns the ideal snapshot of the block it is asked for,
    the headers applied one by one from the genesis block on, error or not:
    whatever the caches have kept or forgotten, whichever checkpoints the
    database holds, and whether the last headers are in the database or come
    as a batch of explicit parents - as long as the genesis block or a stored
    checkpoint is within 90000 headers ([anchored]), where the code does not yet
    trust a checkpoint blindly.  It terminates, and it leaves the caches and the
    database in a state with the same guarantee. *)
Theorem snapshot_refines `{Crypto} `{CacheLaws C Hash Address} `{CacheLaws RC Hash Snapshot}
    `{SnapshotDBLaws D} cfg genesis hs vals chain n a m h (c : CongressEngine RC C D) :
  linked_chain genesis hs -> Epoch cfg <> 0 -> extraValidators (Extra genesis) = Ok vals ->
  chain_view chain genesis -> engine_ok cfg genesis hs vals c ->
  (genesis :: hs) !! n = Some h ->
  batch_ok chain (genesis :: hs) n a (drop a (take (S n) (genesis :: hs))) ->
  anchored genesis hs c m n ->
  exists c',
    snapshot chain (Z.of_nat n) (HeaderHash h) (drop a (take (S n) (genesis :: hs))) c
      = (ideal cfg genesis hs vals n, c') /\
    engine_ok cfg genesis hs vals c'.
Proof. apply snapshot_correct. Qed.

(** ** A concrete chain *)

Definition toyGenesis : Header := toyHeader 0 0 1 (be_encode 20 11 ++ be_encode 20 22 ++ be_encode 20 33).
Definition toyBlocks : list Header := [toyHeader 1 22 2 []; toyHeader 2 33 2 []; toyHeader 3 11 2 []].
Definition toyConfig : ChainConfig := sampleConfig.

Definition toyChain : ChainHeaderReader :=
  let cs := toyGenesis :: toyBlocks in
  let byNumber n := cs !! Z.to_nat n in
  mkChain toyConfig (list.last cs)
    (fun hash n => h ← byNumber n; if HeaderHash (Crypto:=toyCrypto) h =? hash then Some h else None)
    byNumber
    (fun hash => byNumber (hash - 1)).

Definition toyEngine : CongressEngine (gmap Z Snapshot) (gmap Z Z) (gmap Z Snapshot) :=
  Authorize 11 (New toyConfig toyCongress ∅ ∅ ∅).

(** Split a lookup in a concrete list into its cases. *)
Ltac list_cases H :=
  repeat (match type of H with
          | (_ :: _) !! ?i = Some _ => is_var i; destruct i; [|simpl in H]; [injection H as <-|]
          end); try done.

Lemma toy_linked : linked_chain (H:=toyCrypto) toyGenesis toyBlocks.
Proof.
  split.
  - intros i h Hi. unfold toyBlocks in Hi. list_cases Hi.
  - intros i h p Hi Hp. unfold toyBlocks in *. list_cases Hp; injection Hi as <-; done.
  - done.
  - intros h1 h2 Hin1 Hin2. unfold toyBlocks in *.
    repeat match goal with
    | H : _ ∈ _ :: _ |- _ => apply elem_of_cons in H as [->|H]
    | H : _ ∈ [] |- _ => by apply not_elem_of_nil in H
    end; vm_compute; congruence.
Qed.

Lemma toy_view : chain_view toyChain toyGenesis.
Proof.
  split; [done|]. intros n Hn. unfold toyChain. cbn [GetHeaderByNumber].
  rewrite !lookup_ge_None. lia.
Qed.

Lemma toy_engine_ok vals :
  engine_ok (H:=toyCrypto) toyCongress toyGenesis toyBlocks vals toyEngine.
Proof. split; [done|intros k v; simpl; by rewrite lookup_empty..]. Qed.

Lemma snapshot_refines_witness :
  extraValidators (Extra toyGenesis) = Ok [11; 22; 33] /\
  is_ok (ideal (H:=toyCrypto) toyCongress toyGenesis toyBlocks [11; 22; 33] 2) = true /\
  exists c', snapshot (H:=toyCrypto) toyChain (Z.of_nat 2) 3 (drop 2 (take 3 (toyGenesis :: toyBlocks))) toyEngine
     = (ideal (H:=toyCrypto) toyCongress toyGenesis toyBlocks [11; 22; 33] 2, c') /\
    engine_ok (H:=toyCrypto) toyCongress toyGenesis toyBlocks [11; 22; 33] c'.
Proof.
  split; [vm_compute; reflexivity|]. split; [vm_compute; reflexivity|].
  apply (snapshot_refines (H:=toyCrypto) toyCongress toyGenesis toyBlocks [11; 22; 33] toyChain 2 2 0
           (toyHeader 2 33 2 []) toyEngine).
  - apply toy_linked.
  - done.
  - vm_compute; reflexivity.
  - apply toy_view.
  - apply toy_engine_ok.
  - reflexivity.
  - split; [reflexivity|]. intros i h Hi _ Hl. unfold toyBlocks in Hl. list_cases Hl; try lia.
  - split_and!; [lia|unfold FullImmutabilityThreshold; lia|by left].
Defined.
