(* ===== verification/HeaderRules.v ===== *)
(** * What the engine accepts and what it seals

    The header rules as one predicate on a header, its parent and the snapshot
    of its parent; [verifyHeader] decides it.  Whether an accepted header can
    then be applied, and whether [Seal] only seals acceptable blocks. *)

From S2P Require Import Prelude Params Types Misc Snapshot Engine EngineFacts.

(** ** The rules, without caches *)

Section Rules.
Context `{Crypto}.

(** The rules on the seal, given the snapshot of the parent. *)
Definition sealRules (fake : bool) (s : Snapshot) (header : Header) : res unit :=
  let number := NumberU64 header in
  signer ← recoverSigner header;
  _ ← fail_if (negb (signer =? Coinbase header)) errInvalidCoinbase;
  _ ← fail_if (bool_decide (signer ∉ Validators s)) errUnauthorizedValidator;
  _ ← fail_if (signedRecently s number signer) errRecentlySigned;
  if fake then Ok tt else
  turn ← inturn s number signer;
  right ← difficultyIs header (if (turn : bool) then diffInTurn else diffNoTurn);
  fail_if (negb right) errWrongDifficulty.

Definition headerRules (now : Z) (ccfg : ChainConfig) (cfg : CongressConfig) (fake : bool)
    (s : Snapshot) (parent header : Header) : res unit :=
  _ ← checkStandalone now ccfg cfg header;
  _ ← checkCascading ccfg cfg parent header;
  sealRules fake s header.

(** A valid child of [parent], whose snapshot is [s]. *)
Record header_valid (now : Z) (ccfg : ChainConfig) (cfg : CongressConfig) (fake : bool)
    (s : Snapshot) (parent h : Header) : Prop := {
  valid_time : u64 (Time parent + Period cfg) <= Time h <= now;
  valid_vanity : 97 <= zlen (Extra h);
  valid_extra : if decide (NumberU64 h mod Epoch cfg = 0)
                then (zlen (Extra h) - 97) mod 20 = 0 else zlen (Extra h) = 97;
  valid_fields : MixDigest h = 0 /\ UncleHash h = EmptyUncleHash /\ Difficulty h <> None;
  valid_gas : GasUsed h <= GasLimit h < 2 ^ 63 /\ VerifyGaslimit (GasLimit parent) (GasLimit h) = Ok tt;
  valid_forks : VerifyForkHashes ccfg h false = Ok tt;
  valid_fee : if IsLondon ccfg (Number h)
              then exists fee, BaseFee h = Some fee /\ CalcBaseFee ccfg parent = Ok fee
              else BaseFee h = None;
  valid_signer : recoverSigner h = Ok (Coinbase h) /\ Coinbase h ∈ Validators s;
  valid_recent : signedRecently s (NumberU64 h) (Coinbase h) = false;
  valid_difficulty : fake = false -> exists turn, inturn s (NumberU64 h) (Coinbase h) = Ok turn /\
                       Difficulty h = Some (if turn then 2 else 1);
}.

Lemma bind_ok_iff {A B} (m : res A) (f : A -> res B) b :
  m ≫= f = Ok b <-> exists a, m = Ok a /\ f a = Ok b.
Proof. split; [apply bind_ok|]. intros (a & -> & Hf). exact Hf. Qed.

Lemma guard_ok_iff {B} b e (k : res B) (r : B) :
  (fail_if b e ≫= fun _ => k) = Ok r <-> b = false /\ k = Ok r.
Proof. destruct b; simpl; split; [done|by intros [? _]|done|by intros [_ ?]]. Qed.

Lemma checkStandalone_iff now ccfg cfg h n :
  Number h = Some n -> 0 < u64 n -> Epoch cfg <> 0 ->
  checkStandalone now ccfg cfg h = Ok tt <->
    Time h <= now /\ 97 <= zlen (Extra h) /\
    (if decide (NumberU64 h mod Epoch cfg = 0)
     then (zlen (Extra h) - 97) mod 20 = 0 else zlen (Extra h) = 97) /\
    (MixDigest h = 0 /\ UncleHash h = EmptyUncleHash /\ Difficulty h <> None) /\
    GasLimit h < 2 ^ 63 /\ VerifyForkHashes ccfg h false = Ok tt.
Proof.
  intros Hn Hpos He. unfold checkStandalone, isEpochBlock, NumberU64. rewrite Hn. simpl default.
  destruct (Epoch cfg =? 0) eqn:E; bool_Z; [lia|].
  rewrite !guard_ok_iff. cbn -[Z.modulo Z.rem zlen u64]. rewrite !guard_ok_iff.
  unfold extraVanity, extraSeal, AddressLength.
  assert (Hd : (0 <? u64 n) = true) by (apply Z.ltb_lt; lia). rewrite Hd. simpl (true && _).
  rewrite bool_decide_eq_false, !negb_false_iff, !Z.eqb_eq, !Z.ltb_ge.
  destruct (decide (u64 n mod Epoch cfg = 0)) as [Hz|Hz].
  - rewrite Hz, Z.eqb_refl. simpl negb. simpl andb. rewrite negb_false_iff, Z.eqb_eq. split.
    + intros (? & ? & ? & _ & Hr & ?). rewrite Z.rem_mod_nonneg in Hr by lia.
      replace (zlen (Extra h) - 97) with (zlen (Extra h) - 32 - 65) by lia. intuition lia.
    + intros (? & ? & Hr & ?). rewrite Z.rem_mod_nonneg by lia.
      replace (zlen (Extra h) - 32 - 65) with (zlen (Extra h) - 97) by lia. intuition lia.
  - apply Z.eqb_neq in Hz. rewrite Hz. simpl negb. simpl andb. rewrite negb_false_iff, Z.eqb_eq.
    split; intros; intuition lia.
Qed.

Lemma checkCascading_iff ccfg cfg parent h :
  checkCascading ccfg cfg parent h = Ok tt <->
    u64 (Time parent + Period cfg) <= Time h /\ GasUsed h <= GasLimit h /\
    VerifyGaslimit (GasLimit parent) (GasLimit h) = Ok tt /\
    (if IsLondon ccfg (Number h)
     then exists fee, BaseFee h = Some fee /\ CalcBaseFee ccfg parent = Ok fee
     else BaseFee h = None).
Proof.
  unfold checkCascading. rewrite !guard_ok_iff, !Z.ltb_ge.
  destruct (IsLondon ccfg (Number h)); simpl negb; cbv iota.
  - unfold VerifyEip1559Header. rewrite bind_ok_iff.
    assert (Hf : match BaseFee h with
        | None => Err (errorf "header is missing baseFee")
        | Some baseFee => expectedBaseFee ← CalcBaseFee ccfg parent;
            if baseFee =? expectedBaseFee then Ok tt
            else Err (errorf "invalid baseFee: have, want, parentBaseFee, parentGasUsed")
        end = Ok tt <-> exists fee, BaseFee h = Some fee /\ CalcBaseFee ccfg parent = Ok fee).
    { destruct (BaseFee h) as [fee|]; [|split; [done|by intros (? & ? & _)]].
      rewrite bind_ok_iff. split.
      - intros (x & Hx & Hb). destruct (fee =? x) eqn:E; bool_Z; [|done]. subst. eauto.
      - intros (x & Hx & Hb). simplify_eq. exists x. by rewrite Z.eqb_refl. }
    setoid_rewrite Hf. split.
    + intros (? & ? & [] & ? & ?). done.
    + intros (? & ? & ? & ?). split_and!; [done..|]. by exists tt.
  - rewrite guard_ok_iff, bool_decide_eq_false. rewrite <- eq_None_not_Some.
    split; intros; intuition.
Qed.

Lemma sealRules_iff fake s h :
  sealRules fake s h = Ok tt <->
    (recoverSigner h = Ok (Coinbase h) /\ Coinbase h ∈ Validators s) /\
    signedRecently s (NumberU64 h) (Coinbase h) = false /\
    (fake = false -> exists turn, inturn s (NumberU64 h) (Coinbase h) = Ok turn /\
                       Difficulty h = Some (if turn then 2 else 1)).
Proof.
  unfold sealRules. rewrite bind_ok_iff. setoid_rewrite guard_ok_iff. setoid_rewrite guard_ok_iff.
  setoid_rewrite guard_ok_iff. setoid_rewrite negb_false_iff. setoid_rewrite Z.eqb_eq.
  setoid_rewrite bool_decide_eq_false.
  assert (Hturn : forall v, (if fake then Ok tt else
        turn ← inturn s (NumberU64 h) v;
        right ← difficultyIs h (if (turn : bool) then diffInTurn else diffNoTurn);
        fail_if (negb right) errWrongDifficulty) = Ok tt <->
      (fake = false -> exists turn, inturn s (NumberU64 h) v = Ok turn /\
                       Difficulty h = Some (if turn then 2 else 1))).
  { intros v. destruct fake; [done|]. rewrite bind_ok_iff. unfold difficultyIs.
    split.
    - intros (t & Ht & Hd) _. exists t. split; [done|]. destruct (Difficulty h) as [d|]; [|done].
      simpl in Hd. apply fail_if_ok, negb_false_iff, Z.eqb_eq in Hd. subst. by destruct t.
    - intros Hx. destruct (Hx eq_refl) as (t & Ht & Hd). exists t. split; [done|]. rewrite Hd.
      simpl. apply fail_if_ok, negb_false_iff, Z.eqb_eq. by destruct t. }
  setoid_rewrite Hturn. split.
  - intros (v & Hv & -> & Hin & Hs & Ht). apply dec_stable in Hin. done.
  - intros ((Hv & Hin) & Hs & Ht). exists (Coinbase h). split_and!; try done. by intros ?.
Qed.

Lemma headerRules_iff now ccfg cfg fake s parent h n :
  Number h = Some n -> 0 < u64 n -> Epoch cfg <> 0 ->
  headerRules now ccfg cfg fake s parent h = Ok tt <-> header_valid now ccfg cfg fake s parent h.
Proof.
  intros Hn Hpos He. unfold headerRules.
  rewrite bind_ok_iff. setoid_rewrite bind_ok_iff. split.
  - intros ([] & H1 & [] & H2 & H3).
    apply (checkStandalone_iff _ _ _ _ n) in H1; [|done..]. apply checkCascading_iff in H2. apply sealRules_iff in H3.
    split; intuition.
  - intros []. exists tt. split; [by apply (checkStandalone_iff _ _ _ _ n); intuition|].
    exists tt. split; [apply checkCascading_iff|apply sealRules_iff]; intuition.
Qed.
End Rules.

(** ** Recently signed

    [verifySeal] looks at the recents of the parent's snapshot without the
    shift of [apply]; the two tests agree from block [n/2 + 1] on. *)

Lemma signedRecently_spec s number v :
  signedRecently s number v = false <->
  forall k, Recents s !! k = Some v -> k <= number -w recentLimit (size (Validators s)).
Proof.
  unfold signedRecently. rewrite bool_decide_eq_false, Exists_map_to_list. split.
  - intros Hn k Hk. apply Z.nlt_ge. intros Hlt. apply Hn. exists k, v. done.
  - intros Hall (k & v' & Hk & He & Hlt). simpl in He. subst v'. specialize (Hall k Hk). simpl in Hlt. lia.
Qed.

Lemma signedRecently_shifted s number v :
  snapshot_ok s -> number = sNumber s + 1 -> is_u64 number ->
  recentLimit (size (Validators s)) <= number ->
  signedRecently s number v = bool_decide (v ∈ map_values (shiftedRecents s number)).
Proof.
  intros Hok -> Hu Hlim.
  assert (Hiff : signedRecently s (sNumber s + 1) v = false <-> v ∉ map_values (shiftedRecents s (sNumber s + 1))).
  { rewrite signedRecently_spec, elem_of_map_values.
    pose proof (recentLimit_pos (size (Validators s))) as Hpos.
    unfold shiftedRecents. rewrite (proj2 (Z.leb_le _ _) Hlim), u64_small by word_lia. split.
    - intros Hall [k Hk]. apply lookup_delete_Some in Hk as [Hne Hk]. specialize (Hall k Hk).
      pose proof (ok_window _ _ Hok k v Hk). lia.
    - intros Hne k Hk. apply Z.nlt_ge. intros Hlt. apply Hne. exists k. apply lookup_delete_Some. split; [lia|done]. }
  case_bool_decide as Hv.
  - apply not_false_is_true. rewrite Hiff. auto.
  - by apply Hiff.
Qed.

Lemma not_recent_free s number v :
  signedRecently s number v = false -> snapshot_ok s -> number = sNumber s + 1 -> is_u64 number ->
  recentLimit (size (Validators s)) <= number -> v ∉ map_values (shiftedRecents s number).
Proof. intros Hs Hok Hn Hu Hlim. rewrite signedRecently_shifted in Hs by done. by apply bool_decide_eq_false in Hs. Qed.

Lemma early_agreement s v :
  snapshot_ok s -> is_u64 (sNumber s + 1) -> v ∈ Validators s ->
  recentLimit (size (Validators s)) <= sNumber s + 1 ->
  recordSigner s (sNumber s + 1) v = Err errRecentlySigned -> signedRecently s (sNumber s + 1) v = true.
Proof.
  intros Hok Hu Hv Hl. rewrite recordSigner_spec, bool_decide_eq_true_2 by done.
  rewrite signedRecently_shifted by done. by destruct (bool_decide (v ∈ map_values _)).
Qed.

(** Before that block the subtraction wraps around and the test never fails. *)
Lemma signedRecently_early s number v :
  snapshot_ok s -> number = sNumber s + 1 -> is_u64 number ->
  number < recentLimit (size (Validators s)) <= 2 ^ 63 -> signedRecently s number v = false.
Proof.
  intros Hok -> Hu Hlim. apply signedRecently_spec. intros k Hk.
  pose proof (ok_window _ _ Hok k v Hk). pose proof (ok_number _ _ Hok). word_lia.
Qed.

(** ** [verifyHeader] decides the rules *)

Section Verify.
Context `{Crypto} `{CacheLaws C Hash Address} `{CacheLaws RC Hash Snapshot} `{SnapshotDBLaws D}.
Context (cfg : CongressConfig) (genesis : Header) (hs : list Header) (h : Header) (vals : list Address).
Context (chain : ChainHeaderReader) (a m : nat) (c : CongressEngine RC C D).
Local Abbreviation cs := (genesis :: (hs ++ [h])).
Local Abbreviation n := (length hs).
Local Abbreviation parents := (drop a (take (S n) cs)).

Hypothesis Linked : linked_chain genesis (hs ++ [h]).
Hypothesis EpochSet : Epoch cfg <> 0.
Hypothesis GenesisVals : extraValidators (Extra genesis) = Ok vals.
Hypothesis View : chain_view chain genesis.
Hypothesis Engine : engine_ok cfg genesis (hs ++ [h]) vals c.
Hypothesis Batch : batch_ok chain cs n a parents.
Hypothesis Anchor : anchored genesis (hs ++ [h]) c m n.

Lemma child_lookup : cs !! S n = Some h.
Proof. simpl. by rewrite lookup_app_r, Nat.sub_diag. Qed.

Lemma child_number : Number h = Some (Z.of_nat (S n)) /\ Number_Uint64 h = Ok (Z.of_nat (S n)) /\
  NumberU64 h = Z.of_nat (S n) /\ is_u64 (Z.of_nat (S n)).
Proof.
  pose proof child_lookup as Hl. destruct (chain_NumberU64 genesis (hs ++ [h]) Linked _ _ Hl) as [H7 H8].
  split_and!; [by eapply chain_numbers|done|done|].
  pose proof (chain_u64 _ _ Linked) as Hu. unfold zlen in Hu. rewrite length_app in Hu. simpl in Hu. word_lia.
Qed.

Lemma parent_lookup : exists p, cs !! n = Some p.
Proof. apply lookup_lt_is_Some_2. simpl. rewrite length_app. simpl. lia. Qed.

Lemma checkParent_ok p : cs !! n = Some p -> checkParent (Some p) (Z.of_nat (S n)) h = Ok p.
Proof.
  intros Hp. unfold checkParent. destruct (chain_NumberU64 genesis (hs ++ [h]) Linked _ _ Hp) as [-> _].
  destruct child_number as (_ & _ & _ & Hu). simpl.
  rewrite (chain_parents _ _ Linked n h p child_lookup Hp), Z.eqb_refl.
  rewrite u64_small by word_lia.
  replace (Z.of_nat n =? Z.of_nat (S n) - 1) with true by (symmetry; apply Z.eqb_eq; lia). done.
Qed.

Lemma parent_found p : cs !! n = Some p ->
  match list.last parents with
  | Some parent => Some parent
  | None => GetHeader chain (ParentHash h) (Z.of_nat (S n) -w 1)
  end = Some p.
Proof.
  intros Hp. destruct child_number as (_ & _ & _ & Hu).
  rewrite u64_small by word_lia. replace (Z.of_nat (S n) - 1) with (Z.of_nat n) by lia.
  rewrite (take_S_r cs n p) by done.
  assert (Hl := lookup_lt_Some _ _ _ Hp).
  destruct (decide (a <= n)%nat) as [Ha|Ha].
  - rewrite drop_app_le by (rewrite length_take; lia). by rewrite last_snoc.
  - rewrite drop_ge by (rewrite length_app, length_take; simpl; lia). simpl.
    rewrite (chain_parents _ _ Linked n h p child_lookup Hp).
    apply (batch_rest _ _ _ _ _ Batch); [lia|lia|done].
Qed.

(** The seal rules through the caches. *)
Lemma verifySeal_rules s p :
  cs !! n = Some p -> ideal cfg genesis (hs ++ [h]) vals n = Ok s ->
  exists c', verifySeal chain h parents c = (sealRules (fakeDiff c) s h, c') /\
             engine_ok cfg genesis (hs ++ [h]) vals c'.
Proof.
  intros Hp Hs. destruct child_number as (_ & Hnum & HnumU & Hu).
  destruct (snapshot_correct cfg genesis (hs ++ [h]) vals chain n a m p c) as (c1 & Hr & Hc1); [done..|].
  assert (Hfake : fakeDiff c1 = fakeDiff c) by
    (pose proof (snapshot_keeps chain (Z.of_nat n) (HeaderHash p) parents c) as Hk; rewrite Hr in Hk; by injection Hk).
  unfold verifySeal. unfold mbind at 1, st_bind at 1, st_lift at 1. rewrite Hnum.
  unfold mbind at 1, st_bind at 1, st_fail_if at 1.
  destruct (Z.of_nat (S n) =? 0) eqn:E; bool_Z; [lia|]. clear E.
  unfold mret at 1, st_ret at 1. unfold mbind at 1, st_bind at 1.
  rewrite u64_small by word_lia. replace (Z.of_nat (S n) - 1) with (Z.of_nat n) by lia.
  rewrite (chain_parents _ _ Linked n h p child_lookup Hp), Hr, Hs.
  unfold mbind at 1, st_bind at 1, with_sigs at 1.
  destruct (ecrecover_transparent (fun x => x ∈ cs) (chain_collision_free _ _ Linked) h (signatures c1))
    as (sc & He & Hsc); [|apply (engine_sigs _ _ _ _ _ Hc1)|].
  { apply list_elem_of_lookup. eauto using child_lookup. }
  rewrite He. exists (set_signatures sc c1). split; [|destruct Hc1; by split].
  unfold sealRules. rewrite HnumU. destruct (recoverSigner h) as [v|e|]; [|done..].
  unfold mbind, st_bind, st_fail_if, res_bind, fail_if, st_err, st_lift, mret, st_ret, st_get.
  destruct (negb (v =? Coinbase h)); [done|].
  destruct (bool_decide (v ∉ Validators s)); [done|].
  destruct (signedRecently s (Z.of_nat (S n)) v); [done|]. change (fakeDiff (set_signatures sc c1)) with (fakeDiff c1).
  rewrite Hfake.
  destruct (fakeDiff c); [done|].
  destruct (inturn s (Z.of_nat (S n)) v) as [t|e|]; [|done..].
  destruct (difficultyIs h _) as [r|e|]; [|done..]. by destruct r.
Qed.

(** All the rules through the caches. *)
Lemma verifyHeader_rules now s p :
  cs !! n = Some p -> ideal cfg genesis (hs ++ [h]) vals n = Ok s ->
  exists c', verifyHeader now chain h parents c = (headerRules now (Config chain) cfg (fakeDiff c) s p h, c') /\
             engine_ok cfg genesis (hs ++ [h]) vals c'.
Proof.
  intros Hp Hs. destruct child_number as (_ & Hnum & _ & Hu).
  destruct (verifySeal_rules s p Hp Hs) as (c' & Hv & Hc').
  unfold verifyHeader, headerRules. unfold mbind at 1, st_bind at 1, st_get at 1.
  rewrite (engine_cfg _ _ _ _ _ Engine). unfold mbind at 1, st_bind at 1, st_lift at 1.
  destruct (checkStandalone now (Config chain) cfg h) as [[]|e|]; [|by exists c..].
  unfold verifyCascadingFields. unfold mbind at 1, st_bind at 1, st_lift at 1. rewrite Hnum.
  destruct (Z.of_nat (S n) =? 0) eqn:E; bool_Z; [lia|]. clear E.
  cbv zeta. rewrite (parent_found p Hp).
  unfold mbind at 1, st_bind at 1, st_lift at 1. rewrite (checkParent_ok p Hp).
  unfold mbind at 1, st_bind at 1, st_get at 1. rewrite (engine_cfg _ _ _ _ _ Engine).
  unfold mbind at 1, st_bind at 1, st_lift at 1. simpl mbind.
  destruct (checkCascading (Config chain) cfg p h) as [[]|e|]; [|by exists c..].
  exists c'. split; [|done]. exact Hv.
Qed.

(** An accepted header extends the ideal chain, from the first block that may
    reuse a signer on. *)
Lemma valid_extends now ccfg fake s p :
  cs !! n = Some p -> ideal cfg genesis (hs ++ [h]) vals n = Ok s ->
  snapshot_ok s -> sNumber s = Z.of_nat n ->
  header_valid now ccfg cfg fake s p h ->
  recentLimit (size (Validators s)) <= Z.of_nat (S n) ->
  exists s', ideal cfg genesis (hs ++ [h]) vals (S n) = Ok s'.
Proof.
  intros Hp Hs Hok Hsn Hval Hlim. destruct child_number as (_ & _ & HnumU & Hu).
  assert (Hseg : drop n (take (S n) (hs ++ [h])) = [h]).
  { rewrite take_ge by (rewrite length_app; simpl; lia). rewrite drop_app_le, drop_all by lia. done. }
  pose proof (ideal_split cfg genesis (hs ++ [h]) vals Linked n (S n) s ltac:(lia) Hs) as Hsplit.
  rewrite Hseg in Hsplit. rewrite <- Hsplit. clear Hsplit.
  destruct (valid_signer _ _ _ _ _ _ _ Hval) as [Hsig Hin].
  pose proof (valid_recent _ _ _ _ _ _ _ Hval) as Hrec. rewrite HnumU in Hrec.
  apply not_recent_free in Hrec; [|done|rewrite Hsn; lia|done|done].
  rewrite applyPure_eq; [|done|].
  2: { simpl. rewrite HnumU, Hsn, u64_small by word_lia. rewrite andb_true_r. apply Z.eqb_eq. lia. }
  unfold applyLoop, applyHeader, mbind, st_bind, st_lift.
  assert (He : ecrecover (C:=unit) h tt = (Ok (Coinbase h), tt)) by (unfold ecrecover; simpl; by rewrite Hsig).
  rewrite He, HnumU, recordSigner_spec, bool_decide_eq_true_2, bool_decide_eq_false_2 by done.
  destruct (epochChange_ok cfg (mkSnapshot (sNumber s) (sHash s) (Validators s)
    (<[Z.of_nat (S n) := Coinbase h]> (shiftedRecents s (Z.of_nat (S n))))) h) as [s' ->].
  { split; [done|]. intros _. apply (valid_vanity _ _ _ _ _ _ _ Hval). }
  unfold mret, st_ret. simpl. eauto.
Qed.
End Verify.

(** C2: [verifyHeader] decides the header rules.  On a child of block [n] of
    the chain, with the explicit parents or the database leading back to a
    trusted ancestor, its outcome is that of the rules evaluated on the ideal
    snapshot of block [n], error by error; it accepts exactly the valid
    children (time window, extra-data layout, empty mix digest and uncles, gas
    limits, base fee, seal by an authorized validator that did not sign
    recently, difficulty matching the turn). *)
Theorem verifyHeader_correct `{Crypto} `{CacheLaws C Hash Address} `{CacheLaws RC Hash Snapshot}
    `{SnapshotDBLaws D} cfg genesis hs h vals chain a m (c : CongressEngine RC C D) now s p :
  linked_chain genesis (hs ++ [h]) -> Epoch cfg <> 0 -> extraValidators (Extra genesis) = Ok vals ->
  chain_view chain genesis -> engine_ok cfg genesis (hs ++ [h]) vals c ->
  batch_ok chain (genesis :: (hs ++ [h])) (length hs) a (drop a (take (S (length hs)) (genesis :: (hs ++ [h])))) ->
  anchored genesis (hs ++ [h]) c m (length hs) ->
  (genesis :: (hs ++ [h])) !! length hs = Some p ->
  ideal cfg genesis (hs ++ [h]) vals (length hs) = Ok s ->
  exists c',
    verifyHeader now chain h (drop a (take (S (length hs)) (genesis :: (hs ++ [h])))) c
      = (headerRules now (Config chain) cfg (fakeDiff c) s p h, c') /\
    engine_ok cfg genesis (hs ++ [h]) vals c' /\
    (headerRules now (Config chain) cfg (fakeDiff c) s p h = Ok tt <->
       header_valid now (Config chain) cfg (fakeDiff c) s p h).
Proof.
  intros Hl He Hx Hv Hc Hb Ha Hp Hs.
  destruct (verifyHeader_rules cfg genesis hs h vals chain a m c Hl He Hx Hv Hc Hb Ha now s p Hp Hs) as (c' & Hr & Hc').
  exists c'. split_and!; [done|done|].
  destruct (child_number genesis hs h Hl) as (Hn & _ & _ & Hu).
  apply (headerRules_iff _ _ _ _ _ _ _ _ Hn); [|done]. rewrite u64_small by done. lia.
Qed.

(** A header that [verifyHeader] accepts can be applied: the snapshot of
    the new block exists, so its children can be verified in turn, provided
    the block is at or above number [n/2 + 1] (see [early_double_sign]). *)
Theorem accepted_header_extends `{Crypto} `{CacheLaws C Hash Address} `{CacheLaws RC Hash Snapshot}
    `{SnapshotDBLaws D} cfg genesis hs h vals chain a m (c c' : CongressEngine RC C D) now s p :
  linked_chain genesis (hs ++ [h]) -> Epoch cfg <> 0 -> extraValidators (Extra genesis) = Ok vals ->
  chain_view chain genesis -> engine_ok cfg genesis (hs ++ [h]) vals c ->
  batch_ok chain (genesis :: (hs ++ [h])) (length hs) a (drop a (take (S (length hs)) (genesis :: (hs ++ [h])))) ->
  anchored genesis (hs ++ [h]) c m (length hs) ->
  (genesis :: (hs ++ [h])) !! length hs = Some p ->
  ideal cfg genesis (hs ++ [h]) vals (length hs) = Ok s ->
  recentLimit (size (Validators s)) <= Z.of_nat (S (length hs)) ->
  verifyHeader now chain h (drop a (take (S (length hs)) (genesis :: (hs ++ [h])))) c = (Ok tt, c') ->
  exists s', ideal cfg genesis (hs ++ [h]) vals (S (length hs)) = Ok s' /\ snapshot_ok s'.
Proof.
  intros Hl He Hx Hv Hc Hb Ha Hp Hs Hlim Hver.
  destruct (verifyHeader_rules cfg genesis hs h vals chain a m c Hl He Hx Hv Hc Hb Ha now s p Hp Hs) as (c1 & Hr & Hc1).
  rewrite Hr in Hver. injection Hver as Hrules _.
  destruct (child_number genesis hs h Hl) as (Hn & _ & _ & Hu).
  apply (headerRules_iff _ _ _ _ _ _ _ _ Hn) in Hrules; [|rewrite u64_small by done; lia|done].
  assert (Hsn : sNumber s = Z.of_nat (length hs)) by (eapply ideal_label; eauto).
  destruct (valid_extends cfg genesis hs h vals Hl He now (Config chain) (fakeDiff c) s p) as [s' Hs']; try done.
  { eapply ideal_ok; eauto. }
  exists s'. split; [done|]. eapply ideal_ok; eauto.
Qed.

(** From block [n/2 + 1] on the recently-signed test of [verifySeal] is the
    one of [apply].  Before that block its unsigned subtraction wraps around:
    it lets every validator sign again, while [apply] refuses the same header,
    so that no child of the accepted block can be verified. *)
Theorem early_double_sign s number v :
  snapshot_ok s -> number = sNumber s + 1 -> is_u64 number -> v ∈ Validators s ->
  recentLimit (size (Validators s)) <= 2 ^ 63 ->
  (recentLimit (size (Validators s)) <= number ->
     signedRecently s number v = true <-> recordSigner s number v = Err errRecentlySigned) /\
  (number < recentLimit (size (Validators s)) ->
     signedRecently s number v = false /\
     (v ∈ map_values (Recents s) -> recordSigner s number v = Err errRecentlySigned)).
Proof.
  intros Hok Hn Hu Hv Hbig. rewrite recordSigner_spec, bool_decide_eq_true_2 by done. split.
  - intros Hlim. rewrite signedRecently_shifted by done. by destruct (bool_decide (v ∈ map_values _)).
  - intros Hlim. split; [by eapply signedRecently_early|]. intros Hrec. unfold shiftedRecents.
    rewrite (proj2 (Z.leb_gt _ _) Hlim). by rewrite bool_decide_eq_true_2.
Qed.

(** ** What [Seal] permits *)

Lemma oldestEntry_spec (r : gmap Z Address) :
  (forall k v, r !! k = Some v -> is_u64 k) -> r <> ∅ ->
  r !! (oldestEntry r).1 = Some (oldestEntry r).2 \/ (oldestEntry r).1 = MaxUint64.
Proof.
  intros _ _. unfold oldestEntry. set (f := fun (k : Z) (v : Address) (best : Z * Address) => _).
  apply (map_fold_weak_ind (fun b m => m !! b.1 = Some b.2 \/ b.1 = MaxUint64) f (MaxUint64, 0)); [by right|].
  intros i x m b Hi Hb. unfold f. case_if; simpl.
  - left. apply lookup_insert_eq.
  - destruct Hb as [Hb|Hb]; [|by right]. left. rewrite lookup_insert_ne; [done|]. intros ->. congruence.
Qed.

Lemma oldestEntry_least (r : gmap Z Address) k v :
  r !! k = Some v -> (oldestEntry r).1 <= k.
Proof.
  unfold oldestEntry. set (f := fun (k : Z) (v : Address) (best : Z * Address) => _). revert k v.
  apply (map_fold_weak_ind (fun b m => forall k v, m !! k = Some v -> b.1 <= k) f (MaxUint64, 0)).
  - intros k v. by rewrite lookup_empty.
  - intros i x m b Hi Hb k v Hk. apply lookup_insert_Some in Hk as [[<- _]|[_ Hk]]; unfold f.
    + case_if; bool_Z; simpl; lia.
    + specialize (Hb _ _ Hk). case_if; bool_Z; simpl; lia.
Qed.

Section SealRules.
Context (s : Snapshot) (number : Z) (v : Address) (seen : Z).
Local Abbreviation nv := (size (Validators s)).
Hypothesis Valid : snapshot_ok s.
Hypothesis Num : number = sNumber s + 1.
Hypothesis NumU : is_u64 number.
Hypothesis Seen : Recents s !! seen = Some v.

Lemma seen_window : 0 <= seen < number /\ number <= seen + recentLimit nv.
Proof. pose proof (ok_window _ _ Valid seen v Seen). lia. Qed.

(** A validator holding the oldest entry leaves room before it. *)
Lemma oldest_is_own : v = (oldestEntry (Recents s)).2 -> forall k w, Recents s !! k = Some w -> seen <= k.
Proof.
  intros Hv k w Hk. pose proof seen_window as Hw.
  assert (Hold := oldestEntry_least _ _ _ Seen).
  destruct (oldestEntry_spec (Recents s)) as [Ho|Ho].
  - intros k' v' Hk'. pose proof (ok_window _ _ Valid k' v' Hk'). word_lia.
  - intros He. rewrite He, lookup_empty in Seen. done.
  - rewrite <- Hv in Ho. assert (seen = (oldestEntry (Recents s)).1) as -> by (eapply (ok_distinct _ _ Valid); eauto).
    by eapply oldestEntry_least.
  - pose proof (ok_number _ _ Valid). word_lia.
Qed.

Lemma recents_count (lo : Z) : (forall k w, Recents s !! k = Some w -> lo <= k) -> lo <= number ->
  Z.of_nat (size (Recents s)) <= number - lo.
Proof.
  intros Hlo Hle. pose proof (map_size_window (Recents s) lo (Z.to_nat (number - lo))) as Hs.
  enough (size (Recents s) <= Z.to_nat (number - lo))%nat by lia. apply Hs.
  intros k w Hk. specialize (Hlo k w Hk). pose proof (ok_window _ _ Valid k w Hk). lia.
Qed.

(** With other than two validators the deadlock overrides never apply to an
    entry that is still in the window. *)
Lemma sealAtEntry_strict : nv <> 2%nat -> v ∈ Validators s ->
  sealAtEntry s number v seen = Ok (bool_decide (seen + recentLimit nv <= number)).
Proof.
  intros Hn2 Hv. pose proof seen_window as Hw. pose proof (recentLimit_pos nv) as Hl.
  assert (Hpos : (0 < nv)%nat).
  { destruct nv eqn:E; [|lia]. apply size_empty_inv in E. set_solver. }
  unfold sealAtEntry. case_bool_decide as Hc.
  - destruct (_ <=? number) eqn:E1; bool_Z; [|lia]. rewrite u64_small by word_lia.
    destruct (seen <=? _) eqn:E2; bool_Z; [done|lia].
  - destruct ((recentLimit nv <=? number) && _) eqn:E1.
    { bool_Z. rewrite u64_small in * by word_lia. lia. }
    destruct (_ && (v =? _)) eqn:E2.
    { exfalso. bool_Z. pose proof (recents_count seen (oldest_is_own ltac:(done)) ltac:(lia)).
      unfold recentLimit in *. lia. }
    destruct (Z.of_nat nv <=? Z.of_nat (size (Recents s))) eqn:E3; [|done].
    exfalso. bool_Z. unfold recentLimit in *.
    pose proof (recents_count (Z.max 0 (number - recentLimit nv))) as Hcnt. unfold recentLimit in Hcnt.
    enough (Z.of_nat (size (Recents s)) <= Z.of_nat nv / 2 + 1 /\ Z.of_nat (size (Recents s)) <= number) by lia.
    assert (Hall : forall k w, Recents s !! k = Some w -> Z.max 0 (number - (Z.of_nat nv / 2 + 1)) <= k).
    { intros k w Hk. pose proof (ok_window _ _ Valid k w Hk) as Hx. unfold recentLimit in Hx. lia. }
    specialize (Hcnt Hall). lia.
Qed.
End SealRules.

(** The loop over the recents in any order: only the validator's own entry counts. *)
Lemma sealPermitted_entry s number v order :
  snapshot_ok s -> order ≡ₚ map_to_list (Recents s) ->
  (exists seen, Recents s !! seen = Some v /\ sealPermitted s number v order = sealAtEntry s number v seen) \/
  ((forall seen, Recents s !! seen <> Some v) /\ sealPermitted s number v order = Ok true).
Proof.
  intros Hok Hperm.
  assert (Hin : forall k w, (k, w) ∈ order <-> Recents s !! k = Some w).
  { intros k w. rewrite Hperm. apply elem_of_map_to_list. }
  assert (Hgen : forall l, (forall k w, (k, w) ∈ l -> Recents s !! k = Some w) ->
    (exists seen, Recents s !! seen = Some v /\ sealPermitted s number v l = sealAtEntry s number v seen) \/
    ((forall k, (k, v) ∉ l) /\ sealPermitted s number v l = Ok true)).
  { induction l as [|[k w] l IH]; intros Hl.
    - right. split; [intros k; apply not_elem_of_nil|done].
    - simpl. destruct (w =? v) eqn:E; bool_Z.
      + left. exists k. split; [|done]. subst w. apply Hl. by left.
      + destruct IH as [?|[Hno Hp]]; [intros; apply Hl; by right|by left|]. right.
        split; [|done]. intros k' Hk'. apply elem_of_cons in Hk' as [?|?]; [congruence|by eapply Hno]. }
  destruct (Hgen order) as [?|[Hno Hp]]; [intros; by apply Hin|by left|].
  right. split; [|done]. intros k Hk. by apply (Hno k), Hin.
Qed.

Lemma shifted_lookup s number v k :
  snapshot_ok s -> number = sNumber s + 1 -> is_u64 number ->
  shiftedRecents s number !! k = Some v <->
  Recents s !! k = Some v /\ number < k + recentLimit (size (Validators s)).
Proof.
  intros Hok Hn Hu. unfold shiftedRecents. pose proof (recentLimit_pos (size (Validators s))).
  case_if; bool_Z.
  - rewrite u64_small by word_lia. rewrite lookup_delete_Some. split.
    + intros [Hne Hk]. split; [done|]. pose proof (ok_window _ _ Hok k v Hk). lia.
    + intros [Hk Hlt]. split; [lia|done].
  - split; [|tauto]. intros Hk. split; [done|]. pose proof (ok_window _ _ Hok k v Hk). lia.
Qed.

Lemma seal_iff_apply s number v order :
  snapshot_ok s -> number = sNumber s + 1 -> is_u64 number -> v ∈ Validators s ->
  order ≡ₚ map_to_list (Recents s) -> size (Validators s) <> 2%nat ->
  exists b, sealPermitted s number v order = Ok b /\
            (b = true <-> is_ok (recordSigner s number v) = true).
Proof.
  intros Hok Hn Hu Hv Hperm H2.
  rewrite recordSigner_spec, bool_decide_eq_true_2 by done.
  destruct (sealPermitted_entry s number v order Hok Hperm) as [(seen & Hs & ->)|[Hno ->]].
  - rewrite sealAtEntry_strict by done. eexists. split; [done|]. rewrite bool_decide_eq_true. split.
    + intros Hle. rewrite bool_decide_eq_false_2; [done|]. rewrite elem_of_map_values. intros [k Hk].
      apply shifted_lookup in Hk as [Hk Hlt]; [|done..].
      assert (k = seen) by (eapply (ok_distinct _ _ Hok); eauto). lia.
    + case_bool_decide as Hin; [done|]. intros _. apply Z.nlt_ge. intros Hlt. apply Hin.
      apply elem_of_map_values. exists seen. by apply shifted_lookup.
  - exists true. split; [done|]. rewrite bool_decide_eq_false_2; [done|].
    rewrite elem_of_map_values. intros [k Hk]. apply shifted_lookup in Hk as [Hk _]; [|done..]. by eapply Hno.
Qed.

(** [Seal] signs exactly when [apply] would accept the block: with any
    number of validators but two, and for every iteration order of the recents
    map, it goes ahead if and only if the local validator is not among the
    shifted recents.  The deadlock overrides are never taken. *)
Theorem seal_permitted_iff s number v order :
  snapshot_ok s -> number = sNumber s + 1 -> is_u64 number -> v ∈ Validators s ->
  order ≡ₚ map_to_list (Recents s) -> size (Validators s) <> 2%nat ->
  exists b, sealPermitted s number v order = Ok b /\
            (b = true <-> is_ok (recordSigner s number v) = true).
Proof. apply seal_iff_apply. Qed.

(** With two validators the override fires: when the only recent entry is
    the local validator's own, for the block just before, [Seal] goes ahead,
    and every node refuses the block it produces as recently signed. *)
Theorem seal_override_rejected s v order :
  size (Validators s) = 2%nat -> v ∈ Validators s ->
  1 <= sNumber s < 18446744073709551615 -> Recents s = {[sNumber s := v]} ->
  order = [(sNumber s, v)] ->
  sealPermitted s (sNumber s + 1) v order = Ok true /\
  signedRecently s (sNumber s + 1) v = true /\
  recordSigner s (sNumber s + 1) v = Err errRecentlySigned.
Proof.
  intros H2 Hv Hn Hr ->. assert (Hl : recentLimit (size (Validators s)) = 2) by (rewrite H2; done).
  assert (Hok : snapshot_ok s).
  { split; [word_lia|intros k w|intros k1 k2 w]; rewrite Hr; [rewrite Hl|];
      rewrite ?lookup_singleton_Some; lia. }
  assert (Hrec : recordSigner s (sNumber s + 1) v = Err errRecentlySigned).
  { rewrite recordSigner_spec, !bool_decide_eq_true_2; [done| |done].
    apply elem_of_map_values. exists (sNumber s). apply shifted_lookup; [done|done|word_lia|].
    rewrite Hr, Hl. split; [apply lookup_singleton_eq|lia]. }
  split_and!; [|apply early_agreement; rewrite ?Hl; try done; word_lia|done].
  simpl. rewrite Z.eqb_refl. unfold sealAtEntry. rewrite Hl, H2, Hr, map_size_singleton.
  rewrite (u64_small (sNumber s + 1 - 2)) by word_lia.
  replace ((2 <=? sNumber s + 1) && (sNumber s <=? sNumber s + 1 - 2)) with false
    by (symmetry; apply andb_false_iff; right; apply Z.leb_gt; lia).
  assert (Ho : (oldestEntry {[sNumber s := v]}).2 = v).
  { unfold oldestEntry. rewrite map_fold_singleton. simpl.
    rewrite (proj2 (Z.ltb_lt _ _)); [done|unfold MaxUint64; lia]. }
  rewrite Ho, Z.eqb_refl. done.
Qed.

(** ** Sealed blocks are valid *)

(** The account signs the seal hash, with a signature of the right length, and
    recovery gives the account back. *)
Definition signs_correctly `{Crypto} (signFn : Address -> Header -> res (list byte)) (val : Address) : Prop :=
  forall h sig h', signFn val h = Ok sig -> putSeal h sig = Ok h' ->
    length sig = 65%nat /\ EcrecoverAddr (SealHash h') sig = Ok val.

Lemma putSeal_ok h sig h' :
  putSeal h sig = Ok h' -> length sig = 65%nat ->
  65 <= zlen (Extra h) /\ zlen (Extra h') = zlen (Extra h) /\
  drop (Z.to_nat (zlen (Extra h') - extraSeal)) (Extra h') = sig /\
  (forall e, set_Extra e h' = set_Extra e h).
Proof.
  unfold putSeal, extraSeal. intros Hp Hl. case_if; bool_Z; [done|].
  assert (Hlen : 65 <= zlen (Extra h)) by lia. unfold zlen in *.
  rewrite (take_ge sig) in Hp by lia. injection Hp as <-. simpl.
  assert (Hx : length (take (Z.to_nat (Z.of_nat (length (Extra h)) - 65)) (Extra h) ++ sig ++
       drop (Z.to_nat (Z.of_nat (length (Extra h)) - 65) + length sig) (Extra h)) = length (Extra h)).
  { rewrite !length_app, length_take, length_drop. lia. }
  split_and!; [done|lia| |done].
  rewrite Hx. rewrite drop_app_ge by (rewrite length_take; lia). rewrite length_take.
  replace (Z.to_nat (Z.of_nat (length (Extra h)) - 65) - Z.to_nat (Z.of_nat (length (Extra h)) - 65) `min` length (Extra h))%nat
    with 0%nat by lia.
  rewrite drop_0, (drop_ge (Extra h)) by lia. by rewrite app_nil_r.
Qed.

Section SealSound.
Context `{Crypto} `{Cache C Hash Address} `{Cache RC Hash Snapshot} `{SnapshotDB D}.

Lemma Seal_inv chain signFn order h ntxs (c c2 : CongressEngine RC C D) h' :
  Seal chain signFn order h ntxs c = (Ok (Sealed h'), c2) ->
  exists number s c1 sig,
    Number_Uint64 h = Ok number /\ number <> 0 /\
    snapshot chain (number -w 1) (ParentHash h) [] c = (Ok s, c1) /\
    validator c ∈ Validators s /\ sealPermitted s number (validator c) order = Ok true /\
    signFn (validator c) h = Ok sig /\ putSeal h sig = Ok h'.
Proof.
  unfold Seal. unfold mbind, st_bind, st_lift, st_fail_if, st_get, st_err, mret, st_ret. intros Hs.
  destruct (Number_Uint64 h) as [number|e|] eqn:Hnum; [|done..].
  destruct (number =? 0) eqn:E0; [done|]. bool_Z.
  destruct (_ && _); [done|].
  destruct (snapshot _ _ _ _ c) as [[s|e|] c1] eqn:Hsnap; [|done..].
  destruct (bool_decide _) eqn:Hin; [done|]. apply bool_decide_eq_false, dec_stable in Hin.
  destruct (sealPermitted _ _ _ _) as [[]|e|] eqn:Hperm; [|done..].
  simpl negb in Hs. cbv iota in Hs.
  destruct (difficultyIs h diffNoTurn) as [d|e|]; [|done..].
  destruct (signFn (validator c) h) as [sig|e|] eqn:Hsig; [|done..].
  destruct (putSeal h sig) as [hs|e|] eqn:Hput; [|done..].
  injection Hs as <- <-. by exists number, s, c1, sig.
Qed.

(** A block that [Seal] signs satisfies every rule on the seal: with a
    header prepared for the local validator (its address as coinbase, the
    difficulty of [calcDifficulty]) and any number of validators but two,
    [verifySeal] accepts it on every node that has the parent's snapshot. *)
Theorem sealed_block_accepted chain signFn order h ntxs (c c1 c2 : CongressEngine RC C D) s h' d :
  snapshot chain (NumberU64 h -w 1) (ParentHash h) [] c = (Ok s, c1) ->
  snapshot_ok s -> NumberU64 h = sNumber s + 1 -> is_u64 (NumberU64 h) ->
  size (Validators s) <> 2%nat -> order ≡ₚ map_to_list (Recents s) ->
  recentLimit (size (Validators s)) <= 2 ^ 63 ->
  Coinbase h = validator c -> calcDifficulty s (validator c) = Ok d -> Difficulty h = Some d ->
  signs_correctly signFn (validator c) ->
  Seal chain signFn order h ntxs c = (Ok (Sealed h'), c2) ->
  sealRules false s h' = Ok tt.
Proof.
  intros Hsnap Hok Hn Hu Hsz Hperm Hlim Hcb Hd Hdiff Hsign Hseal.
  apply Seal_inv in Hseal as (number & s' & c1' & sig & Hnum & Hn0 & Hsn & Hin & Hp & Hsig & Hput).
  assert (Hnum' : NumberU64 h = number).
  { unfold Number_Uint64, NumberU64 in *. destruct (Number h); [|done]. by injection Hnum. }
  rewrite <- Hnum' in *. rewrite Hsnap in Hsn. injection Hsn as <- <-.
  destruct (Hsign h sig h' Hsig Hput) as [Hlen Hrec].
  destruct (putSeal_ok h sig h' Hput Hlen) as (Hx & Hxl & Hdrop & Hsame).
  assert (Hfields : Coinbase h' = Coinbase h /\ Difficulty h' = Difficulty h /\ Number h' = Number h).
  { specialize (Hsame []). unfold set_Extra in Hsame. by injection Hsame. }
  destruct Hfields as (Hcb' & Hd' & Hnn').
  assert (Hnn : NumberU64 h' = NumberU64 h) by (unfold NumberU64; by rewrite Hnn').
  apply sealRules_iff. rewrite Hnn, Hcb', Hcb, Hd', Hdiff. split_and!.
  - unfold recoverSigner. rewrite Hxl. unfold extraSeal. rewrite (proj2 (Z.ltb_ge _ _)) by lia.
    unfold extraSeal in Hdrop. rewrite Hxl in Hdrop. by rewrite Hdrop.
  - done.
  - destruct (seal_iff_apply s (NumberU64 h) (validator c) order Hok Hn Hu Hin Hperm Hsz) as (b & Hb & Hiff).
    rewrite Hp in Hb. injection Hb as <-. destruct Hiff as [Hiff _]. specialize (Hiff eq_refl).
    destruct (Z.le_gt_cases (recentLimit (size (Validators s))) (NumberU64 h)).
    + rewrite signedRecently_shifted by done. rewrite recordSigner_spec, bool_decide_eq_true_2 in Hiff by done.
      by destruct (bool_decide (_ ∈ map_values _)).
    + by apply signedRecently_early.
  - intros _. unfold calcDifficulty in Hd. apply bind_ok in Hd as (t & Ht & He). injection He as <-.
    exists t. rewrite u64_small in Ht by (rewrite <- Hn; done). rewrite Hn. split; [done|]. by destruct t.
Qed.
End SealSound.

(** ** Concrete instances *)

Definition toyPrefix : list Header := [toyHeader 1 22 2 []; toyHeader 2 33 2 []].
Definition toyNext : Header := toyHeader 3 11 2 [].
Definition toyVals : list Address := [11; 22; 33].

(** Block 3 on top of block 2, which is the explicit parent. *)
Lemma toy_batch : batch_ok (H:=toyCrypto) toyChain (toyGenesis :: (toyPrefix ++ [toyNext])) 2 2
  (drop 2 (take 3 (toyGenesis :: (toyPrefix ++ [toyNext])))).
Proof. split; [reflexivity|]. intros i h Hi _ Hl. simpl in Hl. list_cases Hl; lia. Qed.

Lemma toy_anchor : anchored (H:=toyCrypto) toyGenesis (toyPrefix ++ [toyNext]) toyEngine 0 2.
Proof. split_and!; [lia|unfold FullImmutabilityThreshold; lia|by left]. Qed.

Definition toyIdeal : Snapshot :=
  match ideal (H:=toyCrypto) toyCongress toyGenesis (toyPrefix ++ [toyNext]) toyVals 2 with
  | Ok s => s
  | _ => newSnapshot 0 0 []
  end.

Lemma toyIdeal_ok : snapshot_ok toyIdeal.
Proof.
  apply (ideal_ok (H:=toyCrypto) toyCongress toyGenesis (toyPrefix ++ [toyNext]) toyVals toy_linked 2).
  vm_compute. reflexivity.
Qed.

Lemma verifyHeader_correct_witness :
  is_ok (headerRules (H:=toyCrypto) 1000 toyConfig toyCongress false toyIdeal (toyHeader 2 33 2 []) toyNext) = true /\
  exists c',
    verifyHeader (H:=toyCrypto) 1000 toyChain toyNext (drop 2 (take 3 (toyGenesis :: (toyPrefix ++ [toyNext])))) toyEngine
      = (headerRules (H:=toyCrypto) 1000 toyConfig toyCongress false toyIdeal (toyHeader 2 33 2 []) toyNext, c') /\
    engine_ok (H:=toyCrypto) toyCongress toyGenesis (toyPrefix ++ [toyNext]) toyVals c' /\
    (headerRules (H:=toyCrypto) 1000 toyConfig toyCongress false toyIdeal (toyHeader 2 33 2 []) toyNext = Ok tt <->
     header_valid (H:=toyCrypto) 1000 toyConfig toyCongress false toyIdeal (toyHeader 2 33 2 []) toyNext).
Proof.
  split; [vm_compute; reflexivity|].
  apply (verifyHeader_correct (H:=toyCrypto) toyCongress toyGenesis toyPrefix toyNext toyVals toyChain 2 0).
  - apply toy_linked.
  - done.
  - vm_compute; reflexivity.
  - apply toy_view.
  - apply toy_engine_ok.
  - apply toy_batch.
  - apply toy_anchor.
  - reflexivity.
  - vm_compute; reflexivity.
Defined.

Lemma accepted_header_extends_witness :
  exists s', ideal (H:=toyCrypto) toyCongress toyGenesis (toyPrefix ++ [toyNext]) toyVals 3 = Ok s' /\ snapshot_ok s'.
Proof.
  destruct (verifyHeader (H:=toyCrypto) 1000 toyChain toyNext
    (drop 2 (take 3 (toyGenesis :: (toyPrefix ++ [toyNext])))) toyEngine) as [r c'] eqn:E.
  apply (accepted_header_extends (H:=toyCrypto) toyCongress toyGenesis toyPrefix toyNext toyVals toyChain 2 0
           toyEngine c' 1000 toyIdeal (toyHeader 2 33 2 [])).
  - apply toy_linked.
  - done.
  - vm_compute; reflexivity.
  - apply toy_view.
  - apply toy_engine_ok.
  - apply toy_batch.
  - apply toy_anchor.
  - reflexivity.
  - vm_compute; reflexivity.
  - vm_compute; discriminate.
  - change (length toyPrefix) with 2%nat. rewrite E.
    assert (Hr : r = Ok tt) by (apply (f_equal fst) in E; vm_compute in E; by rewrite <- E).
    by rewrite Hr.
Defined.

(** Five validators; block 1 was signed by 11, which signs block 2 as well. *)
Definition earlySnapshot : Snapshot := mkSnapshot 1 2 {[11; 22; 33; 44; 55]} {[1 := 11]}.

Lemma earlySnapshot_ok : snapshot_ok earlySnapshot.
Proof.
  split; [unfold is_u64; simpl; lia|intros k v|intros k1 k2 v]; unfold earlySnapshot, Recents.
  - intros Hk. apply lookup_singleton_Some in Hk as [<- <-]. vm_compute; repeat split; discriminate.
  - intros Hk1 Hk2. apply lookup_singleton_Some in Hk1 as [<- <-]. by apply lookup_singleton_Some in Hk2 as [<- _].
Qed.

Lemma early_double_sign_witness :
  (recentLimit (size (Validators earlySnapshot)) <= 2 ->
     signedRecently earlySnapshot 2 11 = true <-> recordSigner earlySnapshot 2 11 = Err errRecentlySigned) /\
  (2 < recentLimit (size (Validators earlySnapshot)) ->
     signedRecently earlySnapshot 2 11 = false /\
     (11 ∈ map_values (Recents earlySnapshot) -> recordSigner earlySnapshot 2 11 = Err errRecentlySigned)).
Proof.
  apply early_double_sign.
  - apply earlySnapshot_ok.
  - reflexivity.
  - unfold is_u64. lia.
  - by apply (bool_decide_unpack _).
  - vm_compute. discriminate.
Defined.

Lemma seal_permitted_iff_witness :
  exists b, sealPermitted toySnapshot 10 33 (map_to_list (Recents toySnapshot)) = Ok b /\
            (b = true <-> is_ok (recordSigner toySnapshot 10 33) = true).
Proof.
  apply seal_permitted_iff.
  - apply toySnapshot_ok.
  - reflexivity.
  - unfold is_u64. lia.
  - by apply (bool_decide_unpack _).
  - done.
  - by vm_compute.
Defined.

Lemma seal_override_rejected_witness :
  let s := mkSnapshot 1 2 {[11; 22]} {[1 := 11]} in
  sealPermitted s 2 11 [(1, 11)] = Ok true /\ signedRecently s 2 11 = true /\
  recordSigner s 2 11 = Err errRecentlySigned.
Proof.
  intros s. apply (seal_override_rejected s 11 [(1, 11)]).
  - reflexivity.
  - by apply (bool_decide_unpack _).
  - simpl. lia.
  - reflexivity.
  - reflexivity.
Defined.

(** The toy account signs with its own address, padded to 65 bytes. *)
Definition toySign (val : Address) (h : Header) : res (list byte) := Ok (be_encode 65 val).

Lemma toy_signs : signs_correctly (H:=toyCrypto) toySign 11.
Proof.
  intros h sig h' Hs _. unfold toySign in Hs.
  assert (Hsig : sig = be_encode 65 11) by congruence. rewrite Hsig. split; vm_compute; reflexivity.
Qed.

Definition toySealed : Header :=
  match putSeal toyNext (be_encode 65 11) with Ok h => h | _ => toyNext end.

Lemma sealed_block_accepted_witness :
  sealRules (H:=toyCrypto) false toyIdeal toySealed = Ok tt.
Proof.
  destruct (snapshot (H:=toyCrypto) toyChain 2 3 [] toyEngine) as [r c1] eqn:E1.
  assert (Hr : r = Ok toyIdeal) by (apply (f_equal fst) in E1; vm_compute in E1; rewrite <- E1; vm_compute; reflexivity).
  destruct (Seal (H:=toyCrypto) toyChain toySign (map_to_list (Recents toyIdeal)) toyNext 1 toyEngine) as [q c2] eqn:E2.
  assert (Hq : q = Ok (Sealed toySealed)) by (apply (f_equal fst) in E2; vm_compute in E2; rewrite <- E2; vm_compute; reflexivity).
  apply (sealed_block_accepted (H:=toyCrypto) toyChain toySign (map_to_list (Recents toyIdeal)) toyNext 1
           toyEngine c1 c2 toyIdeal toySealed 2).
  - change (NumberU64 toyNext -w 1) with 2. change (ParentHash toyNext) with 3. rewrite E1. by rewrite Hr.
  - apply toyIdeal_ok.
  - reflexivity.
  - vm_compute; split; congruence.
  - by vm_compute.
  - done.
  - vm_compute; discriminate.
  - reflexivity.
  - vm_compute; reflexivity.
  - reflexivity.
  - apply toy_signs.
  - rewrite E2. by rewrite Hq.
Defined.
