(* ===== verification/StateDB.v ===== *)
(** * The account state and its journal
    (core/state/statedb.go, state_object.go, journal.go, access_list.go)

    The live objects of a block's execution, the reads that fall through to the
    database, the writes that leave an entry in the journal, the snapshots and
    the revert that replays the journal backwards, and the end of a transaction. *)

From S2P Require Import Prelude.

(** Keccak-256 of the empty string and the root of the empty trie. *)
Definition emptyCodeHash : Hash := 0xc5d2460186f7233c927e7db2dcc703c0e500b653ca82273b7bfad8045d85a470.
Definition emptyRoot : Hash := 0x56e81f171bcc55a6ff8345e692c0f86e5b48e01b996cadc001622fb5e363b421.
Definition ripemd : Address := 3.

(** [types.StateAccount] *)
Record StateAccount : Type := mkAccount {
  Nonce : Z;
  Balance : Z;
  ARoot : Hash;
  CodeHash : Hash;
}.

(** The database under the state: the accounts and the storage of the parent
    block, by trie root and by snapshot, and the contract code by hash.  Reads
    of it do not fail here. *)
Class Backend : Type := {
  accountAt : Address -> option StateAccount;
  trieGet : Hash -> Hash -> Hash;
  snapStorage : Address -> Hash -> Hash;
  ContractCode : Hash -> option (list byte);
  Keccak256Hash : list byte -> Hash;
}.

(** [stateObject]; [trie] is the root the storage trie was opened at, [None]
    before the first access. *)
Record stateObject : Type := mkObject {
  address : Address;
  data : StateAccount;
  trie : option Hash;
  code : option (list byte);
  originStorage : gmap Hash Hash;
  pendingStorage : gmap Hash Hash;
  dirtyStorage : gmap Hash Hash;
  dirtyCode : bool;
  suicided : bool;
  deleted : bool;
}.

Definition obj_address (x : Address) (s : stateObject) : stateObject :=
  mkObject x (data s) (trie s) (code s) (originStorage s) (pendingStorage s) (dirtyStorage s) (dirtyCode s) (suicided s) (deleted s).
Definition obj_data (x : StateAccount) (s : stateObject) : stateObject :=
  mkObject (address s) x (trie s) (code s) (originStorage s) (pendingStorage s) (dirtyStorage s) (dirtyCode s) (suicided s) (deleted s).
Definition obj_trie (x : option Hash) (s : stateObject) : stateObject :=
  mkObject (address s) (data s) x (code s) (originStorage s) (pendingStorage s) (dirtyStorage s) (dirtyCode s) (suicided s) (deleted s).
Definition obj_code (x : option (list byte)) (s : stateObject) : stateObject :=
  mkObject (address s) (data s) (trie s) x (originStorage s) (pendingStorage s) (dirtyStorage s) (dirtyCode s) (suicided s) (deleted s).
Definition obj_originStorage (x : gmap Hash Hash) (s : stateObject) : stateObject :=
  mkObject (address s) (data s) (trie s) (code s) x (pendingStorage s) (dirtyStorage s) (dirtyCode s) (suicided s) (deleted s).
Definition obj_pendingStorage (x : gmap Hash Hash) (s : stateObject) : stateObject :=
  mkObject (address s) (data s) (trie s) (code s) (originStorage s) x (dirtyStorage s) (dirtyCode s) (suicided s) (deleted s).
Definition obj_dirtyStorage (x : gmap Hash Hash) (s : stateObject) : stateObject :=
  mkObject (address s) (data s) (trie s) (code s) (originStorage s) (pendingStorage s) x (dirtyCode s) (suicided s) (deleted s).
Definition obj_dirtyCode (x : bool) (s : stateObject) : stateObject :=
  mkObject (address s) (data s) (trie s) (code s) (originStorage s) (pendingStorage s) (dirtyStorage s) x (suicided s) (deleted s).
Definition obj_suicided (x : bool) (s : stateObject) : stateObject :=
  mkObject (address s) (data s) (trie s) (code s) (originStorage s) (pendingStorage s) (dirtyStorage s) (dirtyCode s) x (deleted s).
Definition obj_deleted (x : bool) (s : stateObject) : stateObject :=
  mkObject (address s) (data s) (trie s) (code s) (originStorage s) (pendingStorage s) (dirtyStorage s) (dirtyCode s) (suicided s) x.

Definition data_Nonce (n : Z) (d : StateAccount) : StateAccount := mkAccount n (Balance d) (ARoot d) (CodeHash d).
Definition data_Balance (b : Z) (d : StateAccount) : StateAccount := mkAccount (Nonce d) b (ARoot d) (CodeHash d).
Definition data_Root (r : Hash) (d : StateAccount) : StateAccount := mkAccount (Nonce d) (Balance d) r (CodeHash d).
Definition data_CodeHash (h : Hash) (d : StateAccount) : StateAccount := mkAccount (Nonce d) (Balance d) (ARoot d) h.

Definition empty (o : stateObject) : bool :=
  (Nonce (data o) =? 0) && (Balance (data o) =? 0) && (CodeHash (data o) =? emptyCodeHash).

(** A nil code hash and a zero root stand for the empty ones; accounts read
    from the database have them already. *)
Definition newObject (addr : Address) (d : StateAccount) : stateObject :=
  mkObject addr (if ARoot d =? 0 then data_Root emptyRoot d else d) None None ∅ ∅ ∅ false false false.

Definition zeroAccount : StateAccount := mkAccount 0 0 0 emptyCodeHash.

(** The access list of EIP-2930: an address maps to -1 or to the index of its
    slots. *)
Record accessList : Type := mkAccessList {
  addresses : gmap Address Z;
  slots : list (gset Hash);
}.
Definition newAccessList : accessList := mkAccessList ∅ [].

Record Log : Type := mkLog {
  LAddress : Address;
  LTopics : list Hash;
  LData : list byte;
  LTxHash : Hash;
  LTxIndex : Z;
  LIndex : Z;
}.

(** The entries of the journal. *)
Inductive journalEntry : Type :=
  | createObjectChange (account : Address)
  | resetObjectChange (prev : stateObject) (prevdestruct : bool)
  | suicideChange (account : Address) (prev : bool) (prevbalance : Z)
  | balanceChange (account : Address) (prev : Z)
  | nonceChange (account : Address) (prev : Z)
  | storageChange (account : Address) (key prevalue : Hash)
  | codeChange (account : Address) (prevcode : option (list byte)) (prevhash : Hash)
  | refundChange (prev : Z)
  | addLogChange (txhash : Hash)
  | addPreimageChange (hash : Hash)
  | touchChange (account : Address)
  | accessListAddAccountChange (account : Address)
  | accessListAddSlotChange (account : Address) (slot : Hash)
  | eraseChange (account : Address) (prevcode : option (list byte)) (prevhash prevroot : Hash).

Definition dirtied (e : journalEntry) : option Address :=
  match e with
  | createObjectChange a | suicideChange a _ _ | balanceChange a _ | nonceChange a _
  | storageChange a _ _ | codeChange a _ _ | touchChange a | eraseChange a _ _ _ => Some a
  | resetObjectChange _ _ | refundChange _ | addLogChange _ | addPreimageChange _
  | accessListAddAccountChange _ | accessListAddSlotChange _ _ => None
  end.

(** [StateDB]; [hasSnap] tells whether a snapshot layer is in use, in which case
    [snapDestructs] are the accounts whose snapshot data is void (the code keys
    them by the hash of the address). *)
Record StateDB : Type := mkStateDB {
  hasSnap : bool;
  snapDestructs : gset Address;
  stateObjects : gmap Address stateObject;
  stateObjectsPending : gset Address;
  stateObjectsDirty : gset Address;
  refund : Z;
  thash : Hash;
  txIndex : Z;
  logs : gmap Hash (list Log);
  logSize : Z;
  preimages : gmap Hash (list byte);
  acl : accessList;
  entries : list journalEntry;
  dirties : gmap Address Z;
  validRevisions : list (Z * nat);
  nextRevisionId : Z;
}.

Definition set_hasSnap (x : bool) (s : StateDB) : StateDB :=
  mkStateDB x (snapDestructs s) (stateObjects s) (stateObjectsPending s) (stateObjectsDirty s) (refund s) (thash s) (txIndex s) (logs s) (logSize s) (preimages s) (acl s) (entries s) (dirties s) (validRevisions s) (nextRevisionId s).
Definition set_snapDestructs (x : gset Address) (s : StateDB) : StateDB :=
  mkStateDB (hasSnap s) x (stateObjects s) (stateObjectsPending s) (stateObjectsDirty s) (refund s) (thash s) (txIndex s) (logs s) (logSize s) (preimages s) (acl s) (entries s) (dirties s) (validRevisions s) (nextRevisionId s).
Definition set_stateObjects (x : gmap Address stateObject) (s : StateDB) : StateDB :=
  mkStateDB (hasSnap s) (snapDestructs s) x (stateObjectsPending s) (stateObjectsDirty s) (refund s) (thash s) (txIndex s) (logs s) (logSize s) (preimages s) (acl s) (entries s) (dirties s) (validRevisions s) (nextRevisionId s).
Definition set_stateObjectsPending (x : gset Address) (s : StateDB) : StateDB :=
  mkStateDB (hasSnap s) (snapDestructs s) (stateObjects s) x (stateObjectsDirty s) (refund s) (thash s) (txIndex s) (logs s) (logSize s) (preimages s) (acl s) (entries s) (dirties s) (validRevisions s) (nextRevisionId s).
Definition set_stateObjectsDirty (x : gset Address) (s : StateDB) : StateDB :=
  mkStateDB (hasSnap s) (snapDestructs s) (stateObjects s) (stateObjectsPending s) x (refund s) (thash s) (txIndex s) (logs s) (logSize s) (preimages s) (acl s) (entries s) (dirties s) (validRevisions s) (nextRevisionId s).
Definition set_refund (x : Z) (s : StateDB) : StateDB :=
  mkStateDB (hasSnap s) (snapDestructs s) (stateObjects s) (stateObjectsPending s) (stateObjectsDirty s) x (thash s) (txIndex s) (logs s) (logSize s) (preimages s) (acl s) (entries s) (dirties s) (validRevisions s) (nextRevisionId s).
Definition set_thash (x : Hash) (s : StateDB) : StateDB :=
  mkStateDB (hasSnap s) (snapDestructs s) (stateObjects s) (stateObjectsPending s) (stateObjectsDirty s) (refund s) x (txIndex s) (logs s) (logSize s) (preimages s) (acl s) (entries s) (dirties s) (validRevisions s) (nextRevisionId s).
Definition set_txIndex (x : Z) (s : StateDB) : StateDB :=
  mkStateDB (hasSnap s) (snapDestructs s) (stateObjects s) (stateObjectsPending s) (stateObjectsDirty s) (refund s) (thash s) x (logs s) (logSize s) (preimages s) (acl s) (entries s) (dirties s) (validRevisions s) (nextRevisionId s).
Definition set_logs (x : gmap Hash (list Log)) (s : StateDB) : StateDB :=
  mkStateDB (hasSnap s) (snapDestructs s) (stateObjects s) (stateObjectsPending s) (stateObjectsDirty s) (refund s) (thash s) (txIndex s) x (logSize s) (preimages s) (acl s) (entries s) (dirties s) (validRevisions s) (nextRevisionId s).
Definition set_logSize (x : Z) (s : StateDB) : StateDB :=
  mkStateDB (hasSnap s) (snapDestructs s) (stateObjects s) (stateObjectsPending s) (stateObjectsDirty s) (refund s) (thash s) (txIndex s) (logs s) x (preimages s) (acl s) (entries s) (dirties s) (validRevisions s) (nextRevisionId s).
Definition set_preimages (x : gmap Hash (list byte)) (s : StateDB) : StateDB :=
  mkStateDB (hasSnap s) (snapDestructs s) (stateObjects s) (stateObjectsPending s) (stateObjectsDirty s) (refund s) (thash s) (txIndex s) (logs s) (logSize s) x (acl s) (entries s) (dirties s) (validRevisions s) (nextRevisionId s).
Definition set_acl (x : accessList) (s : StateDB) : StateDB :=
  mkStateDB (hasSnap s) (snapDestructs s) (stateObjects s) (stateObjectsPending s) (stateObjectsDirty s) (refund s) (thash s) (txIndex s) (logs s) (logSize s) (preimages s) x (entries s) (dirties s) (validRevisions s) (nextRevisionId s).
Definition set_entries (x : list journalEntry) (s : StateDB) : StateDB :=
  mkStateDB (hasSnap s) (snapDestructs s) (stateObjects s) (stateObjectsPending s) (stateObjectsDirty s) (refund s) (thash s) (txIndex s) (logs s) (logSize s) (preimages s) (acl s) x (dirties s) (validRevisions s) (nextRevisionId s).
Definition set_dirties (x : gmap Address Z) (s : StateDB) : StateDB :=
  mkStateDB (hasSnap s) (snapDestructs s) (stateObjects s) (stateObjectsPending s) (stateObjectsDirty s) (refund s) (thash s) (txIndex s) (logs s) (logSize s) (preimages s) (acl s) (entries s) x (validRevisions s) (nextRevisionId s).
Definition set_validRevisions (x : list (Z * nat)) (s : StateDB) : StateDB :=
  mkStateDB (hasSnap s) (snapDestructs s) (stateObjects s) (stateObjectsPending s) (stateObjectsDirty s) (refund s) (thash s) (txIndex s) (logs s) (logSize s) (preimages s) (acl s) (entries s) (dirties s) x (nextRevisionId s).
Definition set_nextRevisionId (x : Z) (s : StateDB) : StateDB :=
  mkStateDB (hasSnap s) (snapDestructs s) (stateObjects s) (stateObjectsPending s) (stateObjectsDirty s) (refund s) (thash s) (txIndex s) (logs s) (logSize s) (preimages s) (acl s) (entries s) (dirties s) (validRevisions s) x.

(** [New]: no object is loaded yet. *)
Definition New (snap : bool) : StateDB :=
  mkStateDB snap ∅ ∅ ∅ ∅ 0 0 0 ∅ 0 ∅ newAccessList [] ∅ [] 0.

(** ** Journal *)

Definition journal_dirty (a : Address) (s : StateDB) : StateDB :=
  set_dirties (<[a := default 0 (dirties s !! a) + 1]> (dirties s)) s.

Definition journal_append (e : journalEntry) (s : StateDB) : StateDB :=
  let s := set_entries (entries s ++ [e]) s in
  match dirtied e with Some a => journal_dirty a s | None => s end.

Definition journal_undirty (a : Address) (s : StateDB) : StateDB :=
  let n := default 0 (dirties s !! a) - 1 in
  set_dirties (if n =? 0 then delete a (dirties s) else <[a := n]> (dirties s)) s.

Definition setStateObject (o : stateObject) (s : StateDB) : StateDB :=
  set_stateObjects (<[address o := o]> (stateObjects s)) s.

Section Ops.
Context `{Backend}.

(** ** Reading objects *)

(** A read loads the account into the live objects. *)
Definition getDeletedStateObject (addr : Address) (s : StateDB) : option stateObject * StateDB :=
  match stateObjects s !! addr with
  | Some o => (Some o, s)
  | None =>
      match accountAt addr with
      | None => (None, s)
      | Some d => let o := newObject addr d in (Some o, setStateObject o s)
      end
  end.

Definition getStateObject (addr : Address) (s : StateDB) : option stateObject * StateDB :=
  let '(o, s) := getDeletedStateObject addr s in
  (match o with Some o => if deleted o then None else Some o | None => None end, s).

Definition createObject (addr : Address) (s : StateDB) : stateObject * option stateObject * StateDB :=
  let '(prev, s) := getDeletedStateObject addr s in
  let newobj := newObject addr zeroAccount in
  match prev with
  | None =>
      let s := journal_append (createObjectChange addr) s in
      (newobj, None, setStateObject newobj s)
  | Some prev =>
      let prevdestruct := hasSnap s && bool_decide (addr ∈ snapDestructs s) in
      let s := if hasSnap s && negb prevdestruct then set_snapDestructs ({[addr]} ∪ snapDestructs s) s else s in
      let s := journal_append (resetObjectChange prev prevdestruct) s in
      (newobj, if deleted prev then None else Some prev, setStateObject newobj s)
  end.

Definition GetOrNewStateObject (addr : Address) (s : StateDB) : stateObject * StateDB :=
  match getStateObject addr s with
  | (Some o, s) => (o, s)
  | (None, s) => let '(o, _, s) := createObject addr s in (o, s)
  end.

Definition CreateAccount (addr : Address) (s : StateDB) : StateDB :=
  match createObject addr s with
  | (o, Some prev, s) => setStateObject (obj_data (data_Balance (Balance (data prev)) (data o)) o) s
  | (_, None, s) => s
  end.

(** The storage trie is opened on first access and stays open. *)
Definition getTrie (o : stateObject) : Hash * stateObject :=
  match trie o with
  | Some r => (r, o)
  | None => (ARoot (data o), obj_trie (Some (ARoot (data o))) o)
  end.

Definition obj_GetCommittedState (key : Hash) (o : stateObject) (s : StateDB) : Hash * StateDB :=
  match pendingStorage o !! key with
  | Some v => (v, s)
  | None =>
      match originStorage o !! key with
      | Some v => (v, s)
      | None =>
          if hasSnap s then
            if bool_decide (address o ∈ snapDestructs s) then (0, s)
            else let value := snapStorage (address o) key in
                 (value, setStateObject (obj_originStorage (<[key := value]> (originStorage o)) o) s)
          else
            let '(root, o) := getTrie o in
            let value := trieGet root key in
            (value, setStateObject (obj_originStorage (<[key := value]> (originStorage o)) o) s)
      end
  end.

Definition obj_GetState (key : Hash) (o : stateObject) (s : StateDB) : Hash * StateDB :=
  match dirtyStorage o !! key with
  | Some v => (v, s)
  | None => obj_GetCommittedState key o s
  end.

(** [Code]: loaded by hash and kept. *)
Definition obj_Code (o : stateObject) : option (list byte) * stateObject :=
  match code o with
  | Some c => (Some c, o)
  | None =>
      if CodeHash (data o) =? emptyCodeHash then (None, o)
      else let c := ContractCode (CodeHash (data o)) in (c, obj_code c o)
  end.

Definition Exist (addr : Address) (s : StateDB) : bool * StateDB :=
  let '(o, s) := getStateObject addr s in (bool_decide (is_Some o), s).

Definition Empty (addr : Address) (s : StateDB) : bool * StateDB :=
  let '(o, s) := getStateObject addr s in (match o with None => true | Some o => empty o end, s).

Definition GetBalance (addr : Address) (s : StateDB) : Z * StateDB :=
  let '(o, s) := getStateObject addr s in (match o with None => 0 | Some o => Balance (data o) end, s).

Definition GetNonce (addr : Address) (s : StateDB) : Z * StateDB :=
  let '(o, s) := getStateObject addr s in (match o with None => 0 | Some o => Nonce (data o) end, s).

Definition GetCodeHash (addr : Address) (s : StateDB) : Hash * StateDB :=
  let '(o, s) := getStateObject addr s in (match o with None => 0 | Some o => CodeHash (data o) end, s).

Definition GetCode (addr : Address) (s : StateDB) : list byte * StateDB :=
  match getStateObject addr s with
  | (None, s) => ([], s)
  | (Some o, s) => let '(c, o) := obj_Code o in (default [] c, setStateObject o s)
  end.

Definition GetState (addr : Address) (key : Hash) (s : StateDB) : Hash * StateDB :=
  match getStateObject addr s with
  | (None, s) => (0, s)
  | (Some o, s) => obj_GetState key o s
  end.

Definition GetCommittedState (addr : Address) (key : Hash) (s : StateDB) : Hash * StateDB :=
  match getStateObject addr s with
  | (None, s) => (0, s)
  | (Some o, s) => obj_GetCommittedState key o s
  end.

Definition HasSuicided (addr : Address) (s : StateDB) : bool * StateDB :=
  let '(o, s) := getStateObject addr s in (match o with None => false | Some o => suicided o end, s).

(** ** Writing *)

Definition touch (o : stateObject) (s : StateDB) : StateDB :=
  let s := journal_append (touchChange (address o)) s in
  if address o =? ripemd then journal_dirty (address o) s else s.

Definition obj_setBalance (amount : Z) (o : stateObject) : stateObject :=
  obj_data (data_Balance amount (data o)) o.
Definition obj_setNonce (n : Z) (o : stateObject) : stateObject := obj_data (data_Nonce n (data o)) o.
Definition obj_setCode (h : Hash) (c : option (list byte)) (o : stateObject) : stateObject :=
  obj_dirtyCode true (obj_data (data_CodeHash h (data o)) (obj_code c o)).
Definition obj_setState (key value : Hash) (o : stateObject) : stateObject :=
  obj_dirtyStorage (<[key := value]> (dirtyStorage o)) o.

Definition obj_SetBalance (amount : Z) (o : stateObject) (s : StateDB) : StateDB :=
  setStateObject (obj_setBalance amount o) (journal_append (balanceChange (address o) (Balance (data o))) s).

Definition obj_AddBalance (amount : Z) (o : stateObject) (s : StateDB) : StateDB :=
  if amount =? 0 then (if empty o then touch o s else s)
  else obj_SetBalance (Balance (data o) + amount) o s.

Definition obj_SubBalance (amount : Z) (o : stateObject) (s : StateDB) : StateDB :=
  if amount =? 0 then (if empty o then touch o s else s)
  else obj_SetBalance (Balance (data o) - amount) o s.

Definition AddBalance (addr : Address) (amount : Z) (s : StateDB) : StateDB :=
  let '(o, s) := GetOrNewStateObject addr s in obj_AddBalance amount o s.

Definition SubBalance (addr : Address) (amount : Z) (s : StateDB) : StateDB :=
  let '(o, s) := GetOrNewStateObject addr s in obj_SubBalance amount o s.

Definition SetBalance (addr : Address) (amount : Z) (s : StateDB) : StateDB :=
  let '(o, s) := GetOrNewStateObject addr s in obj_SetBalance amount o s.

Definition SetNonce (addr : Address) (nonce : Z) (s : StateDB) : StateDB :=
  let '(o, s) := GetOrNewStateObject addr s in
  setStateObject (obj_setNonce nonce o) (journal_append (nonceChange addr (Nonce (data o))) s).

Definition SetCode (addr : Address) (c : list byte) (s : StateDB) : StateDB :=
  let '(o, s) := GetOrNewStateObject addr s in
  let '(prevcode, o) := obj_Code o in
  setStateObject (obj_setCode (Keccak256Hash c) (Some c) o)
    (journal_append (codeChange addr prevcode (CodeHash (data o))) s).

(** A write of the current value leaves no trace. *)
Definition SetState (addr : Address) (key value : Hash) (s : StateDB) : StateDB :=
  let '(o, s) := GetOrNewStateObject addr s in
  let '(prev, s) := obj_GetState key o s in
  if prev =? value then s else
  let o := default o (stateObjects s !! addr) in
  setStateObject (obj_setState key value o) (journal_append (storageChange addr key prev) s).

(** [stateObjectsDestruct] is never allocated, neither by [New] nor by [Copy]:
    the assignment to its entry panics. *)
Definition SetStorage (addr : Address) (storage : list (Hash * Hash)) (s : StateDB) : res StateDB := Panic.

Definition Suicide (addr : Address) (s : StateDB) : bool * StateDB :=
  match getStateObject addr s with
  | (None, s) => (false, s)
  | (Some o, s) =>
      let s := journal_append (suicideChange addr (suicided o) (Balance (data o))) s in
      (true, setStateObject (obj_setBalance 0 (obj_suicided true o)) s)
  end.

Definition Erase (addr : Address) (s : StateDB) : bool * StateDB :=
  match getStateObject addr s with
  | (None, s) => (false, s)
  | (Some o, s) =>
      let '(prevcode, o) := obj_Code o in
      let s := journal_append (eraseChange addr prevcode (CodeHash (data o)) (ARoot (data o))) s in
      let o := obj_code (Some []) o in
      let o := obj_data (data_Root emptyRoot (data_CodeHash emptyCodeHash (data o))) o in
      (true, setStateObject (obj_dirtyCode true (obj_trie None o)) s)
  end.

Definition AddRefund (gas : Z) (s : StateDB) : StateDB :=
  set_refund (refund s +w gas) (journal_append (refundChange (refund s)) s).

Definition SubRefund (gas : Z) (s : StateDB) : res StateDB :=
  let s' := journal_append (refundChange (refund s)) s in
  if refund s <? gas then Panic else Ok (set_refund (refund s -w gas) s').

Definition AddLog (addr : Address) (topics : list Hash) (d : list byte) (s : StateDB) : StateDB :=
  let s := journal_append (addLogChange (thash s)) s in
  let log := mkLog addr topics d (thash s) (txIndex s) (logSize s) in
  let s := set_logs (<[thash s := default [] (logs s !! thash s) ++ [log]]> (logs s)) s in
  set_logSize (logSize s + 1) s.

Definition AddPreimage (hash : Hash) (preimage : list byte) (s : StateDB) : StateDB :=
  match preimages s !! hash with
  | Some _ => s
  | None => set_preimages (<[hash := preimage]> (preimages s)) (journal_append (addPreimageChange hash) s)
  end.

(** ** Access list *)

Definition ContainsAddress (al : accessList) (a : Address) : bool := bool_decide (is_Some (addresses al !! a)).

Definition Contains (al : accessList) (a : Address) (slot : Hash) : res (bool * bool) :=
  match addresses al !! a with
  | None => Ok (false, false)
  | Some idx =>
      if idx =? -1 then Ok (true, false)
      else match slots al !! Z.to_nat idx with
           | Some m => Ok (true, bool_decide (slot ∈ m))
           | None => Panic
           end
  end.

Definition al_AddAddress (a : Address) (al : accessList) : bool * accessList :=
  match addresses al !! a with
  | Some _ => (false, al)
  | None => (true, mkAccessList (<[a := -1]> (addresses al)) (slots al))
  end.

Definition al_AddSlot (a : Address) (slot : Hash) (al : accessList) : res (bool * bool * accessList) :=
  match addresses al !! a with
  | None => Ok (true, true, mkAccessList (<[a := Z.of_nat (length (slots al))]> (addresses al)) (slots al ++ [{[slot]}]))
  | Some idx =>
      if idx =? -1 then
        Ok (false, true, mkAccessList (<[a := Z.of_nat (length (slots al))]> (addresses al)) (slots al ++ [{[slot]}]))
      else match slots al !! Z.to_nat idx with
           | None => Panic
           | Some m =>
               if bool_decide (slot ∈ m) then Ok (false, false, al)
               else Ok (false, true, mkAccessList (addresses al) (<[Z.to_nat idx := {[slot]} ∪ m]> (slots al)))
           end
  end.

Definition al_DeleteSlot (a : Address) (slot : Hash) (al : accessList) : res accessList :=
  match addresses al !! a with
  | None => Panic
  | Some idx =>
      if idx <? 0 then Panic else
      match slots al !! Z.to_nat idx with
      | None => Panic
      | Some m =>
          let m := m ∖ {[slot]} in
          if bool_decide (m = ∅) then Ok (mkAccessList (<[a := -1]> (addresses al)) (take (Z.to_nat idx) (slots al)))
          else Ok (mkAccessList (addresses al) (<[Z.to_nat idx := m]> (slots al)))
      end
  end.

Definition al_DeleteAddress (a : Address) (al : accessList) : accessList :=
  mkAccessList (delete a (addresses al)) (slots al).

Definition AddAddressToAccessList (a : Address) (s : StateDB) : StateDB :=
  match al_AddAddress a (acl s) with
  | (true, al) => journal_append (accessListAddAccountChange a) (set_acl al s)
  | (false, _) => s
  end.

Definition AddSlotToAccessList (a : Address) (slot : Hash) (s : StateDB) : res StateDB :=
  r ← al_AddSlot a slot (acl s);
  let '(addrMod, slotMod, al) := r in
  let s := set_acl al s in
  let s := if (addrMod : bool) then journal_append (accessListAddAccountChange a) s else s in
  Ok (if (slotMod : bool) then journal_append (accessListAddSlotChange a slot) s else s).

(** [PrepareAccessList]; a creation has no recipient. *)
Fixpoint addSlots (a : Address) (keys : list Hash) (s : StateDB) : res StateDB :=
  match keys with
  | [] => Ok s
  | key :: keys => s ← AddSlotToAccessList a key s; addSlots a keys s
  end.

Fixpoint addTuples (al : list (Address * list Hash)) (s : StateDB) : res StateDB :=
  match al with
  | [] => Ok s
  | (a, keys) :: al => s ← addSlots a keys (AddAddressToAccessList a s); addTuples al s
  end.

Definition PrepareAccessList (sender : Address) (dst : option Address) (precompiles : list Address)
    (al : list (Address * list Hash)) (s : StateDB) : res StateDB :=
  let s := AddAddressToAccessList sender s in
  let s := match dst with Some a => AddAddressToAccessList a s | None => s end in
  addTuples al (fold_left (fun s a => AddAddressToAccessList a s) precompiles s).

(** ** Revert *)

(** [s.getStateObject(addr).f()], a nil dereference if there is no object. *)
Definition on_object (addr : Address) (f : stateObject -> stateObject) (s : StateDB) : res StateDB :=
  match getStateObject addr s with
  | (None, _) => Panic
  | (Some o, s) => Ok (setStateObject (f o) s)
  end.

(** Reverting an erasure opens the storage trie, unless one is open already. *)
Definition revertErase (h : Hash) (c : option (list byte)) (root : Hash) (o : stateObject) : stateObject :=
  let o := obj_data (data_Root root (data_CodeHash h (data o))) (obj_code c o) in
  obj_dirtyCode true (snd (getTrie o)).

Definition revertEntry (e : journalEntry) (s : StateDB) : res StateDB :=
  match e with
  | createObjectChange a =>
      Ok (set_stateObjectsDirty (stateObjectsDirty s ∖ {[a]}) (set_stateObjects (delete a (stateObjects s)) s))
  | resetObjectChange prev prevdestruct =>
      let s := setStateObject prev s in
      Ok (if negb prevdestruct && hasSnap s then set_snapDestructs (snapDestructs s ∖ {[address prev]}) s else s)
  | suicideChange a prev prevbalance =>
      match getStateObject a s with
      | (None, s) => Ok s
      | (Some o, s) => Ok (setStateObject (obj_setBalance prevbalance (obj_suicided prev o)) s)
      end
  | balanceChange a prev => on_object a (obj_setBalance prev) s
  | nonceChange a prev => on_object a (obj_setNonce prev) s
  | codeChange a prevcode prevhash => on_object a (obj_setCode prevhash prevcode) s
  | storageChange a key prevalue => on_object a (obj_setState key prevalue) s
  | refundChange prev => Ok (set_refund prev s)
  | addLogChange txhash =>
      let l := default [] (logs s !! txhash) in
      if (length l =? 0)%nat then Panic else
      let s := set_logs (if (length l =? 1)%nat then delete txhash (logs s)
                         else <[txhash := removelast l]> (logs s)) s in
      Ok (set_logSize (logSize s - 1) s)
  | addPreimageChange hash => Ok (set_preimages (delete hash (preimages s)) s)
  | touchChange _ => Ok s
  | accessListAddAccountChange a => Ok (set_acl (al_DeleteAddress a (acl s)) s)
  | accessListAddSlotChange a slot => al ← al_DeleteSlot a slot (acl s); Ok (set_acl al s)
  | eraseChange a prevcode prevhash prevroot => on_object a (revertErase prevhash prevcode prevroot) s
  end.

(** The loop of [journal.revert], newest entry first. *)
Fixpoint revertEntries (es : list journalEntry) (s : StateDB) : res StateDB :=
  match es with
  | [] => Ok s
  | e :: es =>
      s ← revertEntry e s;
      revertEntries es (match dirtied e with Some a => journal_undirty a s | None => s end)
  end.

Definition journal_revert (snapshot : nat) (s : StateDB) : res StateDB :=
  if (length (entries s) <? snapshot)%nat then Panic else
  s' ← revertEntries (reverse (drop snapshot (entries s))) s;
  Ok (set_entries (take snapshot (entries s)) s').

Definition Snapshot (s : StateDB) : Z * StateDB :=
  let id := nextRevisionId s in
  (id, set_validRevisions (validRevisions s ++ [(id, length (entries s))]) (set_nextRevisionId (id + 1) s)).

(** The ids ascend, so the binary search finds the first one that is not
    smaller than [revid]. *)
Definition RevertToSnapshot (revid : Z) (s : StateDB) : res StateDB :=
  match list_find (fun r => revid <= r.1) (validRevisions s) with
  | Some (idx, (id, journalIndex)) =>
      if id =? revid then
        s ← journal_revert journalIndex s;
        Ok (set_validRevisions (take idx (validRevisions s)) s)
      else Panic
  | None => Panic
  end.

(** ** The end of a transaction *)

(** [Prepare] *)
Definition Prepare (th : Hash) (ti : Z) (s : StateDB) : StateDB :=
  set_acl newAccessList (set_txIndex ti (set_thash th s)).

Definition clearJournalAndRefund (s : StateDB) : StateDB :=
  let s := if bool_decide (entries s = []) then s else set_refund 0 (set_dirties ∅ (set_entries [] s)) in
  set_validRevisions [] s.

(** [finalise] of an object: dirty slots become pending. *)
Definition obj_finalise (o : stateObject) : stateObject :=
  obj_dirtyStorage ∅ (obj_pendingStorage (dirtyStorage o ∪ pendingStorage o) o).

Definition finaliseOne (deleteEmptyObjects : bool) (addr : Address) (s : StateDB) : StateDB :=
  match stateObjects s !! addr with
  | None => s
  | Some o =>
      let s :=
        if suicided o || (deleteEmptyObjects && empty o) then
          let s := setStateObject (obj_deleted true o) s in
          if hasSnap s then set_snapDestructs ({[addr]} ∪ snapDestructs s) s else s
        else setStateObject (obj_finalise o) s in
      set_stateObjectsDirty ({[addr]} ∪ stateObjectsDirty s)
        (set_stateObjectsPending ({[addr]} ∪ stateObjectsPending s) s)
  end.

(** The loop over the dirty addresses; each one is handled on its own. *)
Definition Finalise (deleteEmptyObjects : bool) (s : StateDB) : StateDB :=
  clearJournalAndRefund (fold_right (finaliseOne deleteEmptyObjects) s (map_to_list (dirties s)).*1).
End Ops.
