(* ===== verification/StateFacts.v ===== *)
(** * Reverting restores the state

    Two states are equivalent when no read tells them apart; loads and cached
    reads stay within a class.  Every operation leaves journal entries whose
    revert leads back to the class of the state it started from, hence so does
    every sequence of operations, with calls nested to any depth. *)

From S2P Require Import Prelude StateDB.

(** ** What an object shows *)

Record objview : Type := mkView {
  v_data : StateAccount;
  v_root : Hash;
  v_code : option (list byte);
  v_suicided : bool;
  v_deleted : bool;
}.

Section View.
Context `{Backend}.

(** The root the storage trie is, or will be, opened at. *)
Definition trie_root (o : stateObject) : Hash := default (ARoot (data o)) (trie o).

Definition code_val (o : stateObject) : option (list byte) :=
  match code o with
  | Some c => Some c
  | None => if CodeHash (data o) =? emptyCodeHash then None else ContractCode (CodeHash (data o))
  end.

Definition view_obj (o : stateObject) : objview :=
  mkView (data o) (trie_root o) (code_val o) (suicided o) (deleted o).

Definition committed (s : StateDB) (o : stateObject) (key : Hash) : Hash :=
  match pendingStorage o !! key with
  | Some v => v
  | None =>
      match originStorage o !! key with
      | Some v => v
      | None =>
          if hasSnap s then (if bool_decide (address o ∈ snapDestructs s) then 0 else snapStorage (address o) key)
          else trieGet (trie_root o) key
      end
  end.

Definition storage (s : StateDB) (o : stateObject) (key : Hash) : Hash :=
  match dirtyStorage o !! key with Some v => v | None => committed s o key end.

(** The object of an address, loaded or not. *)
Definition obj_at (s : StateDB) (a : Address) : option stateObject :=
  match stateObjects s !! a with Some o => Some o | None => newObject a <$> accountAt a end.

Definition view (s : StateDB) (a : Address) : option objview := view_obj <$> obj_at s a.
Definition stor (s : StateDB) (a : Address) (k : Hash) : Hash :=
  match obj_at s a with Some o => storage s o k | None => 0 end.
Definition comm (s : StateDB) (a : Address) (k : Hash) : Hash :=
  match obj_at s a with Some o => committed s o k | None => 0 end.

(** The parts of the state that are not objects. *)
Definition rest (s : StateDB) :=
  (hasSnap s, snapDestructs s, refund s, (thash s, txIndex s, logs s, logSize s), preimages s, acl s,
   stateObjectsPending s, stateObjectsDirty s).

(** Equivalent states: equal to every reader. *)
Record state_equiv (s1 s2 : StateDB) : Prop := {
  equiv_view : forall a, view s1 a = view s2 a;
  equiv_stor : forall a k, stor s1 a k = stor s2 a k;
  equiv_comm : forall a k, comm s1 a k = comm s2 a k;
  equiv_rest : rest s1 = rest s2;
}.

#[export] Instance state_equiv_equivalence : Equivalence state_equiv.
Proof.
  split.
  - intros s. by split.
  - intros s1 s2 [E1 E2 E3 E4]. split; intros; symmetry; auto.
  - intros s1 s2 s3 [E1 E2 E3 E4] [K1 K2 K3 K4].
    split; intros; [by rewrite E1|by rewrite E2|by rewrite E3|by rewrite E4].
Qed.

(** Live objects are kept at their address; only loaded objects are dirty;
    revisions are numbered below the next one and lie within the journal. *)
Record wf (s : StateDB) : Prop := {
  wf_address : forall a o, stateObjects s !! a = Some o -> address o = a;
  wf_dirty : stateObjectsDirty s ⊆ dom (stateObjects s);
  wf_revisions : forall id k, (id, k) ∈ validRevisions s -> id < nextRevisionId s /\ (k <= length (entries s))%nat;
}.

Lemma obj_at_address s a o : wf s -> obj_at s a = Some o -> address o = a.
Proof.
  intros Hw. unfold obj_at. destruct (stateObjects s !! a) as [o'|] eqn:E.
  - intros. simplify_eq. by eapply wf_address.
  - intros Ho. apply fmap_Some in Ho as (d & _ & ->). unfold newObject. done.
Qed.

(** ** Storing an object *)

Lemma obj_at_set o s a :
  obj_at (setStateObject o s) a = if decide (address o = a) then Some o else obj_at s a.
Proof.
  unfold obj_at, setStateObject. cbn [stateObjects set_stateObjects]. rewrite lookup_insert.
  by destruct (decide (address o = a)).
Qed.

Lemma view_set o s a : view (setStateObject o s) a = if decide (address o = a) then Some (view_obj o) else view s a.
Proof. unfold view. rewrite obj_at_set. by destruct (decide _). Qed.

Lemma stor_set o s a k :
  stor (setStateObject o s) a k = if decide (address o = a) then storage s o k else stor s a k.
Proof. unfold stor. rewrite obj_at_set. by destruct (decide _). Qed.

Lemma comm_set o s a k :
  comm (setStateObject o s) a k = if decide (address o = a) then committed s o k else comm s a k.
Proof. unfold comm. rewrite obj_at_set. by destruct (decide _). Qed.

Lemma committed_ext s1 s2 o k :
  hasSnap s1 = hasSnap s2 -> snapDestructs s1 = snapDestructs s2 -> committed s1 o k = committed s2 o k.
Proof. intros Hh Hd. unfold committed. by rewrite Hh, Hd. Qed.

Lemma storage_ext s1 s2 o k :
  hasSnap s1 = hasSnap s2 -> snapDestructs s1 = snapDestructs s2 -> storage s1 o k = storage s2 o k.
Proof. intros Hh Hd. unfold storage. by rewrite (committed_ext s1 s2). Qed.

(** ** Loads

    [loaded s s']: [s'] is [s] with some objects read from the database. *)
Record loaded (s s' : StateDB) : Prop := {
  loaded_at : forall b, obj_at s' b = obj_at s b;
  loaded_wf : wf s';
  loaded_rest : rest s' = rest s;
  loaded_entries : entries s' = entries s;
  loaded_dirties : dirties s' = dirties s;
  loaded_revisions : validRevisions s' = validRevisions s /\ nextRevisionId s' = nextRevisionId s;
}.

Lemma loaded_refl s : wf s -> loaded s s.
Proof. by split. Qed.

Lemma getDeleted_spec s a o s' :
  wf s -> getDeletedStateObject a s = (o, s') ->
  o = obj_at s a /\ loaded s s' /\ (forall x, o = Some x -> stateObjects s' !! a = Some x) /\
  (o = None -> s' = s /\ stateObjects s !! a = None).
Proof.
  intros Hw. unfold getDeletedStateObject, obj_at.
  destruct (stateObjects s !! a) as [o'|] eqn:E.
  - intros Heq. injection Heq as <- <-. split_and!; [done|by apply loaded_refl|by intros x [= <-]|done].
  - destruct (accountAt a) as [d|] eqn:Ed; intros Heq; injection Heq as <- <-.
    2: { split_and!; [done|by apply loaded_refl|done|done]. }
    split_and!; [done| |intros x [= <-]; apply lookup_insert_eq|done].
    split; [| |done..].
    + intros b. rewrite obj_at_set. simpl. case_decide as Hb; [|done]. subst b. unfold obj_at. by rewrite E, Ed.
    + destruct Hw as [Ha Hd Hr]. split; [|simpl|done].
      * intros b o. simpl. rewrite lookup_insert_Some. intros [[<- <-]|[_ Hb]]; [done|by eapply Ha].
      * rewrite dom_insert_L. set_solver.
Qed.

Lemma loaded_equiv s s' : loaded s s' -> state_equiv s' s.
Proof.
  intros [Ho _ Hr _ _ _]. split; [..|done].
  - intros a. unfold view. by rewrite Ho.
  - intros a k. unfold stor. rewrite Ho. destruct (obj_at s a); [|done]. apply storage_ext; by injection Hr.
  - intros a k. unfold comm. rewrite Ho. destruct (obj_at s a); [|done]. apply committed_ext; by injection Hr.
Qed.

(** The live object of an address. *)
Definition live (s : StateDB) (a : Address) : option stateObject :=
  match obj_at s a with Some o => if deleted o then None else Some o | None => None end.

Lemma get_spec s a o s' :
  wf s -> getStateObject a s = (o, s') ->
  o = live s a /\ loaded s s' /\
  (forall x, o = Some x -> stateObjects s' !! a = Some x /\ address x = a /\ obj_at s a = Some x /\ deleted x = false).
Proof.
  intros Hw. unfold getStateObject, live. destruct (getDeletedStateObject a s) as [o1 s1] eqn:E.
  destruct (getDeleted_spec s a o1 s1 Hw E) as (Ho & Hl & Hin & _). intros Heq. injection Heq as <- <-.
  rewrite <- Ho. split_and!; [by destruct o1|done|].
  intros x Hx. destruct o1 as [o1|]; [|done]. destruct (deleted o1) eqn:Hd; simplify_eq.
  split_and!; [by apply Hin|by eapply obj_at_address|done|done].
Qed.

(** ** Changing one object *)

(** [f] acts on what an object shows, by [g] and, on its storage, by [h]. *)
Record acts (f : stateObject -> stateObject) (g : objview -> objview) (h : Hash -> Hash -> Hash) : Prop := {
  acts_address : forall o, address (f o) = address o;
  acts_view : forall o, view_obj (f o) = g (view_obj o);
  acts_storage : forall s o k, storage s (f o) k = h k (storage s o k);
  acts_committed : forall s o k, committed s (f o) k = committed s o k;
}.

Definition same_slot (k v : Hash) : Hash := v.

Lemma acts_setBalance b : acts (obj_setBalance b)
  (fun v => mkView (data_Balance b (v_data v)) (v_root v) (v_code v) (v_suicided v) (v_deleted v)) same_slot.
Proof.
  split; intros; reflexivity.
Qed.

Lemma acts_setNonce n : acts (obj_setNonce n)
  (fun v => mkView (data_Nonce n (v_data v)) (v_root v) (v_code v) (v_suicided v) (v_deleted v)) same_slot.
Proof.
  split; intros; reflexivity.
Qed.

Lemma acts_setCode hc c : acts (obj_setCode hc c)
  (fun v => mkView (data_CodeHash hc (v_data v)) (v_root v)
     (match c with Some x => Some x | None => if hc =? emptyCodeHash then None else ContractCode hc end)
     (v_suicided v) (v_deleted v)) same_slot.
Proof.
  split; [done| |intros; reflexivity..]. intros o. by destruct c.
Qed.

Lemma acts_setState key value : acts (obj_setState key value) (fun v => v)
  (fun k v => if decide (key = k) then value else v).
Proof.
  split; [done|intros; reflexivity| |intros; reflexivity]. intros s o k. unfold storage, obj_setState. simpl. rewrite lookup_insert.
  by destruct (decide (key = k)).
Qed.

Lemma acts_suicided b : acts (obj_suicided b)
  (fun v => mkView (v_data v) (v_root v) (v_code v) b (v_deleted v)) same_slot.
Proof.
  split; intros; reflexivity.
Qed.

Lemma acts_compose f1 g1 h1 f2 g2 h2 : acts f1 g1 h1 -> acts f2 g2 h2 ->
  acts (fun o => f2 (f1 o)) (fun v => g2 (g1 v)) (fun k v => h2 k (h1 k v)).
Proof.
  intros [] []. split; intros.
  - by rewrite acts_address1.
  - by rewrite acts_view1, acts_view0.
  - by rewrite acts_storage1, acts_storage0.
  - by rewrite acts_committed1.
Qed.

(** Equivalent states stay equivalent when the object of an address is changed
    the same way in both. *)
Lemma set_proper f g h s1 s2 a o1 o2 :
  acts f g h -> state_equiv s1 s2 -> wf s1 -> wf s2 ->
  obj_at s1 a = Some o1 -> obj_at s2 a = Some o2 ->
  state_equiv (setStateObject (f o1) s1) (setStateObject (f o2) s2).
Proof.
  intros Hf He Hw1 Hw2 Ho1 Ho2.
  pose proof (obj_at_address _ _ _ Hw1 Ho1) as Ha1. pose proof (obj_at_address _ _ _ Hw2 Ho2) as Ha2.
  assert (Hr := equiv_rest _ _ He).
  split.
  - intros b. rewrite !view_set, !(acts_address _ _ _ Hf), Ha1, Ha2. case_decide; [|apply He].
    rewrite !(acts_view _ _ _ Hf). pose proof (equiv_view _ _ He a) as Hv. unfold view in Hv.
    rewrite Ho1, Ho2 in Hv. apply (inj Some) in Hv. by rewrite Hv.
  - intros b k. rewrite !stor_set, !(acts_address _ _ _ Hf), Ha1, Ha2. case_decide; [|apply He].
    rewrite !(acts_storage _ _ _ Hf). pose proof (equiv_stor _ _ He a k) as Hv. unfold stor in Hv.
    rewrite Ho1, Ho2 in Hv. by rewrite Hv.
  - intros b k. rewrite !comm_set, !(acts_address _ _ _ Hf), Ha1, Ha2. case_decide; [|apply He].
    rewrite !(acts_committed _ _ _ Hf). pose proof (equiv_comm _ _ He a k) as Hv. unfold comm in Hv.
    by rewrite Ho1, Ho2 in Hv.
  - exact Hr.
Qed.

Lemma wf_set o s : wf s -> wf (setStateObject o s).
Proof.
  intros [Ha Hd Hr]. split; [|simpl|done].
  - intros b o'. simpl. rewrite lookup_insert_Some. intros [[<- <-]|[_ Hb]]; [done|by eapply Ha].
  - rewrite dom_insert_L. set_solver.
Qed.

(** ** Reverting an entry respects equivalence *)

Lemma committed_frame s1 s2 o k :
  hasSnap s1 = hasSnap s2 -> (address o ∈ snapDestructs s1 <-> address o ∈ snapDestructs s2) ->
  committed s1 o k = committed s2 o k.
Proof. intros Hh Hd. unfold committed. by rewrite Hh, (bool_decide_ext _ _ Hd). Qed.

Lemma storage_frame s1 s2 o k :
  hasSnap s1 = hasSnap s2 -> (address o ∈ snapDestructs s1 <-> address o ∈ snapDestructs s2) ->
  storage s1 o k = storage s2 o k.
Proof. intros Hh Hd. unfold storage. by rewrite (committed_frame s1 s2). Qed.

(** States with the same objects show the same. *)
Lemma frame_equiv s s' :
  stateObjects s' = stateObjects s -> rest s' = rest s -> state_equiv s' s.
Proof.
  intros Ho Hr. assert (Hat : forall a, obj_at s' a = obj_at s a) by (intros; unfold obj_at; by rewrite Ho).
  split; [..|done].
  - intros a. unfold view. by rewrite Hat.
  - intros a k. unfold stor. rewrite Hat. destruct (obj_at s a); [|done]. apply storage_ext; by injection Hr.
  - intros a k. unfold comm. rewrite Hat. destruct (obj_at s a); [|done]. apply committed_ext; by injection Hr.
Qed.

(** Equivalent objects, whatever the rest becomes, as long as reads through the
    snapshot layer are the same. *)
Lemma objects_equiv s1 s2 t1 t2 :
  state_equiv s1 s2 -> stateObjects t1 = stateObjects s1 -> stateObjects t2 = stateObjects s2 ->
  hasSnap t1 = hasSnap s1 -> hasSnap t2 = hasSnap s2 ->
  snapDestructs t1 = snapDestructs s1 -> snapDestructs t2 = snapDestructs s2 ->
  rest t1 = rest t2 -> state_equiv t1 t2.
Proof.
  intros He Ho1 Ho2 Hh1 Hh2 Hd1 Hd2 Hr.
  assert (Hat1 : forall a, obj_at t1 a = obj_at s1 a) by (intros; unfold obj_at; by rewrite Ho1).
  assert (Hat2 : forall a, obj_at t2 a = obj_at s2 a) by (intros; unfold obj_at; by rewrite Ho2).
  split; [..|done].
  - intros a. unfold view. rewrite Hat1, Hat2. apply He.
  - intros a k. pose proof (equiv_stor _ _ He a k) as Hs. unfold stor in *. rewrite Hat1, Hat2.
    destruct (obj_at s1 a), (obj_at s2 a);
      rewrite ?(storage_ext t1 s1), ?(storage_ext t2 s2) by done; done.
  - intros a k. pose proof (equiv_comm _ _ He a k) as Hs. unfold comm in *. rewrite Hat1, Hat2.
    destruct (obj_at s1 a), (obj_at s2 a);
      rewrite ?(committed_ext t1 s1), ?(committed_ext t2 s2) by done; done.
Qed.

Lemma live_equiv s1 s2 a : state_equiv s1 s2 ->
  match live s1 a, live s2 a with
  | Some o1, Some o2 => view_obj o1 = view_obj o2
  | None, None => True
  | _, _ => False
  end.
Proof.
  intros He. pose proof (equiv_view _ _ He a) as Hv. unfold view in Hv. unfold live.
  destruct (obj_at s1 a) as [o1|], (obj_at s2 a) as [o2|]; simpl in Hv; try done.
  apply (inj Some) in Hv. assert (Hd : deleted o1 = deleted o2) by (by injection Hv).
  rewrite Hd. by destruct (deleted o2).
Qed.

(** Both runs succeed in equivalent states, or both panic. *)
Definition same_outcome (r1 r2 : res StateDB) : Prop :=
  match r1, r2 with
  | Ok s1, Ok s2 => state_equiv s1 s2 /\ wf s1 /\ wf s2
  | Panic, Panic => True
  | _, _ => False
  end.

Lemma loaded_proper s1 s2 t1 t2 : state_equiv s1 s2 -> loaded s1 t1 -> loaded s2 t2 -> state_equiv t1 t2.
Proof. intros He H1 H2. rewrite (loaded_equiv _ _ H1), (loaded_equiv _ _ H2). done. Qed.

(** The object of an address in two equivalent states, after loading it. *)
Lemma get_proper s1 s2 a o1 t1 o2 t2 :
  state_equiv s1 s2 -> wf s1 -> wf s2 ->
  getStateObject a s1 = (o1, t1) -> getStateObject a s2 = (o2, t2) ->
  state_equiv t1 t2 /\ wf t1 /\ wf t2 /\
  ((o1 = None /\ o2 = None) \/
   exists x1 x2, o1 = Some x1 /\ o2 = Some x2 /\ obj_at t1 a = Some x1 /\ obj_at t2 a = Some x2).
Proof.
  intros He Hw1 Hw2 E1 E2.
  destruct (get_spec _ _ _ _ Hw1 E1) as (Ho1 & Hl1 & Hx1).
  destruct (get_spec _ _ _ _ Hw2 E2) as (Ho2 & Hl2 & Hx2).
  split_and!; [by eapply loaded_proper|apply Hl1|apply Hl2|].
  pose proof (live_equiv s1 s2 a He) as Hlive. rewrite <- Ho1, <- Ho2 in Hlive.
  destruct o1 as [x1|], o2 as [x2|]; try done; [right|by left].
  exists x1, x2. rewrite (loaded_at _ _ Hl1), (loaded_at _ _ Hl2).
  split_and!; [done..|by apply Hx1|by apply Hx2].
Qed.

Lemma on_object_proper f g h a s1 s2 :
  acts f g h -> state_equiv s1 s2 -> wf s1 -> wf s2 -> same_outcome (on_object a f s1) (on_object a f s2).
Proof.
  intros Hf He Hw1 Hw2. unfold on_object.
  destruct (getStateObject a s1) as [o1 t1] eqn:E1, (getStateObject a s2) as [o2 t2] eqn:E2.
  destruct (get_proper _ _ _ _ _ _ _ He Hw1 Hw2 E1 E2) as (Ht & Hv1 & Hv2 & [[-> ->]|(x1 & x2 & -> & -> & Hx1 & Hx2)]);
    [done|]. split_and!; [by eapply set_proper|by apply wf_set..].
Qed.

(** Every entry but the one of an erasure. *)
Definition revertible (e : journalEntry) : Prop :=
  match e with eraseChange _ _ _ _ => False | _ => True end.

Lemma delete_object_proper s1 s2 a :
  state_equiv s1 s2 -> wf s1 -> wf s2 ->
  same_outcome (revertEntry (createObjectChange a) s1) (revertEntry (createObjectChange a) s2).
Proof.
  intros He Hw1 Hw2. simpl.
  assert (Hat : forall s b, obj_at (set_stateObjectsDirty (stateObjectsDirty s ∖ {[a]})
      (set_stateObjects (delete a (stateObjects s)) s)) b = if decide (a = b) then newObject a <$> accountAt a else obj_at s b).
  { intros s b. unfold obj_at. simpl. rewrite lookup_delete. case_decide; [by subst|done]. }
  assert (Hwf : forall s, wf s -> wf (set_stateObjectsDirty (stateObjectsDirty s ∖ {[a]})
      (set_stateObjects (delete a (stateObjects s)) s))).
  { intros s [Ha Hd Hr]. split; simpl; [|rewrite dom_delete_L; set_solver|done].
    intros b o. rewrite lookup_delete_Some. intros [_ Hb]. by eapply Ha. }
  pose proof (equiv_rest _ _ He) as Hr.
  split_and!; [|by apply Hwf..]. split.
  - intros b. unfold view. rewrite !Hat. case_decide; [done|apply He].
  - intros b k. unfold stor. rewrite !Hat. case_decide.
    + destruct (newObject a <$> accountAt a); [|done]. apply storage_ext; by injection Hr.
    + pose proof (equiv_stor _ _ He b k) as Hs. unfold stor in Hs. by destruct (obj_at s1 b), (obj_at s2 b).
  - intros b k. unfold comm. rewrite !Hat. case_decide.
    + destruct (newObject a <$> accountAt a); [|done]. apply committed_ext; by injection Hr.
    + pose proof (equiv_comm _ _ He b k) as Hs. unfold comm in Hs. by destruct (obj_at s1 b), (obj_at s2 b).
  - unfold rest in *. injection Hr as ???????????. cbn. congruence.
Qed.

Lemma reset_object_proper s1 s2 prev pd :
  state_equiv s1 s2 -> wf s1 -> wf s2 ->
  same_outcome (revertEntry (resetObjectChange prev pd) s1) (revertEntry (resetObjectChange prev pd) s2).
Proof.
  intros He Hw1 Hw2. pose proof (equiv_rest _ _ He) as Hr.
  assert (Hsnap : hasSnap s1 = hasSnap s2) by (by injection Hr).
  assert (Hds : snapDestructs s1 = snapDestructs s2) by (by injection Hr).
  set (res := fun s => if negb pd && hasSnap s then set_snapDestructs (snapDestructs s ∖ {[address prev]}) (setStateObject prev s)
                 else setStateObject prev s).
  assert (Hres : forall s, revertEntry (resetObjectChange prev pd) s = Ok (res s)).
  { intros s. simpl. unfold res. by destruct (negb pd && hasSnap s). }
  assert (Hat : forall s b, obj_at (res s) b = if decide (address prev = b) then Some prev else obj_at s b).
  { intros s b. rewrite <- obj_at_set. unfold res, obj_at. by destruct (_ && _). }
  assert (Hrest : hasSnap (res s1) = hasSnap (res s2) /\ snapDestructs (res s1) = snapDestructs (res s2)).
  { unfold res. rewrite Hsnap. destruct (_ && _); simpl; by rewrite ?Hds. }
  assert (Hfr : forall s b o, wf s -> obj_at s b = Some o -> address prev <> b ->
     hasSnap (res s) = hasSnap s /\ (address o ∈ snapDestructs (res s) <-> address o ∈ snapDestructs s)).
  { intros s b o Hw Ho Hb. pose proof (obj_at_address _ _ _ Hw Ho). unfold res.
    destruct (_ && _); simpl; [|done]. split; [done|]. set_solver. }
  assert (Hwf : forall s, wf s -> wf (res s)).
  { intros s Hw. unfold res. destruct (_ && _); [|by apply wf_set].
    destruct (wf_set prev s Hw). by split. }
  assert (Hst : forall s b k, wf s -> address prev <> b ->
     stor (res s) b k = stor s b k /\ comm (res s) b k = comm s b k).
  { intros s b k Hw Hb. unfold stor, comm. rewrite Hat, decide_False by done.
    destruct (obj_at s b) as [o|] eqn:Eo; [|done]. destruct (Hfr s b o Hw Eo Hb) as [Hh Hd].
    split; [by apply storage_frame|by apply committed_frame]. }
  rewrite !Hres. split_and!; [|by apply Hwf..]. split.
  - intros b. unfold view. rewrite !Hat. case_decide; [done|apply He].
  - intros b k. destruct (decide (address prev = b)) as [Hb|Hb].
    + unfold stor. rewrite !Hat, !decide_True by done. apply storage_ext; apply Hrest.
    + rewrite (proj1 (Hst s1 b k Hw1 Hb)), (proj1 (Hst s2 b k Hw2 Hb)). apply He.
  - intros b k. destruct (decide (address prev = b)) as [Hb|Hb].
    + unfold comm. rewrite !Hat, !decide_True by done. apply committed_ext; apply Hrest.
    + rewrite (proj2 (Hst s1 b k Hw1 Hb)), (proj2 (Hst s2 b k Hw2 Hb)). apply He.
  - unfold res. rewrite Hsnap. unfold rest in *. injection Hr as ???????????.
    destruct (_ && _); cbn; congruence.
Qed.

(** A change outside the objects. *)
Lemma rest_proper (f : StateDB -> StateDB) s1 s2 :
  state_equiv s1 s2 -> wf s1 -> wf s2 ->
  (forall s, stateObjects (f s) = stateObjects s /\ hasSnap (f s) = hasSnap s /\ snapDestructs (f s) = snapDestructs s /\
     stateObjectsDirty (f s) = stateObjectsDirty s /\
     validRevisions (f s) = validRevisions s /\ nextRevisionId (f s) = nextRevisionId s /\ entries (f s) = entries s) ->
  rest (f s1) = rest (f s2) -> same_outcome (Ok (f s1)) (Ok (f s2)).
Proof.
  intros He Hw1 Hw2 Hf Hr.
  assert (Hwf : forall s, wf s -> wf (f s)).
  { intros s [Ha Hd Hrev]. destruct (Hf s) as (E1 & E2 & E3 & E5 & E6 & E7 & E8).
    split; rewrite ?E1, ?E5, ?E6, ?E7, ?E8; done. }
  split_and!; [|by apply Hwf..].
  destruct (Hf s1) as (E1 & E2 & E3 & _), (Hf s2) as (F1 & F2 & F3 & _).
  by eapply objects_equiv.
Qed.

Lemma revertEntry_proper e s1 s2 :
  revertible e -> state_equiv s1 s2 -> wf s1 -> wf s2 -> same_outcome (revertEntry e s1) (revertEntry e s2).
Proof.
  intros Hrev He Hw1 Hw2. pose proof (equiv_rest _ _ He) as Hr.
  assert (Hr' := Hr). unfold rest in Hr'. injection Hr' as ???????????.
  destruct e; try done; [by apply delete_object_proper|by apply reset_object_proper|..]; cbn [revertEntry].
  - destruct (getStateObject account s1) as [o1 t1] eqn:E1, (getStateObject account s2) as [o2 t2] eqn:E2.
    destruct (get_proper _ _ _ _ _ _ _ He Hw1 Hw2 E1 E2) as (Ht & Hv1 & Hv2 & [[-> ->]|(x1 & x2 & -> & -> & Hx1 & Hx2)]); [done|].
    split_and!; [|by apply wf_set..].
    eapply (set_proper (fun o => obj_setBalance prevbalance (obj_suicided prev o))); try done.
    apply acts_compose; [apply acts_suicided|apply acts_setBalance].
  - eapply on_object_proper; [apply acts_setBalance|done..].
  - eapply on_object_proper; [apply acts_setNonce|done..].
  - eapply on_object_proper; [apply acts_setState|done..].
  - eapply on_object_proper; [apply acts_setCode|done..].
  - apply (rest_proper (set_refund prev)); try done. unfold rest. cbn. congruence.
  - replace (logs s2) with (logs s1) by done. destruct (length _ =? 0)%nat; [done|].
    set (l := if (length _ =? 1)%nat then _ else _).
    apply (rest_proper (fun s => set_logSize (logSize (set_logs l s) - 1) (set_logs l s))); try done.
    unfold rest. cbn. congruence.
  - apply (rest_proper (fun s => set_preimages (delete hash (preimages s)) s)); try done. unfold rest. cbn. congruence.
  - apply (rest_proper (fun s => set_acl (al_DeleteAddress account (acl s)) s)); try done. unfold rest. cbn. congruence.
  - replace (acl s2) with (acl s1) by done. destruct (al_DeleteSlot account slot (acl s1)) as [al|e|] eqn:Ea; simpl; [|..].
    + apply (rest_proper (set_acl al)); try done. unfold rest. cbn. congruence.
    + exfalso. unfold al_DeleteSlot in Ea. repeat case_match; congruence.
    + done.
Qed.

(** ** Undoing a run of operations *)

Lemma undirty_equiv a s : state_equiv (journal_undirty a s) s.
Proof. by apply frame_equiv. Qed.

Lemma undirty_wf a s : wf s -> wf (journal_undirty a s).
Proof. intros []. by split. Qed.

Definition undirty_of (e : journalEntry) (s : StateDB) : StateDB :=
  match dirtied e with Some a => journal_undirty a s | None => s end.

Lemma undirty_of_equiv e s : state_equiv (undirty_of e s) s.
Proof. unfold undirty_of. destruct (dirtied e); [apply undirty_equiv|done]. Qed.

Lemma undirty_of_wf e s : wf s -> wf (undirty_of e s).
Proof. unfold undirty_of. destruct (dirtied e); [apply undirty_wf|done]. Qed.

Lemma revertEntries_cons e es s :
  revertEntries (e :: es) s = (s' ← revertEntry e s; revertEntries es (undirty_of e s')).
Proof. done. Qed.

Lemma revertEntries_app es1 es2 s :
  revertEntries (es1 ++ es2) s = (s' ← revertEntries es1 s; revertEntries es2 s').
Proof.
  revert s. induction es1 as [|e es1 IH]; intros s; [done|]. simpl app. rewrite !revertEntries_cons.
  destruct (revertEntry e s) as [s1|x|]; [|done..]. simpl mbind. apply IH.
Qed.

Lemma revertEntries_proper es s1 s2 :
  Forall revertible es -> state_equiv s1 s2 -> wf s1 -> wf s2 ->
  same_outcome (revertEntries es s1) (revertEntries es s2).
Proof.
  intros Hrev. revert s1 s2. induction Hrev as [|e es He Hrev IH]; intros s1 s2 Heq Hw1 Hw2; [done|].
  rewrite !revertEntries_cons. pose proof (revertEntry_proper e s1 s2 He Heq Hw1 Hw2) as Hout.
  destruct (revertEntry e s1) as [t1|x|], (revertEntry e s2) as [t2|y|]; simpl in Hout; try done.
  destruct Hout as (Ht & Hv1 & Hv2). simpl mbind. apply IH; [|by apply undirty_of_wf..].
  by rewrite !undirty_of_equiv.
Qed.

(** [s'] comes from [s] by journalled changes whose revert leads back to [s]. *)
Definition undoes (s s' : StateDB) : Prop :=
  exists es, entries s' = entries s ++ es /\ Forall revertible es /\ wf s' /\
    exists r, revertEntries (reverse es) s' = Ok r /\ state_equiv r s /\ wf r.

Lemma undoes_same s s' : entries s' = entries s -> state_equiv s' s -> wf s' -> undoes s s'.
Proof.
  intros He Heq Hw. exists []. rewrite app_nil_r. split_and!; [done|constructor|done|]. by exists s'.
Qed.

Lemma undoes_loaded s s' : loaded s s' -> undoes s s'.
Proof. intros Hl. apply undoes_same; [apply Hl|by apply loaded_equiv|apply Hl]. Qed.

Lemma undoes_trans s1 s2 s3 : wf s2 -> undoes s1 s2 -> undoes s2 s3 -> undoes s1 s3.
Proof.
  intros Hw2 (es1 & He1 & Hr1 & _ & r1 & Hrun1 & Heq1 & Hwr1) (es2 & He2 & Hr2 & Hw3 & r2 & Hrun2 & Heq2 & Hwr2).
  exists (es1 ++ es2). rewrite He2, He1, app_assoc. split_and!; [done|by apply Forall_app|done|].
  rewrite reverse_app, revertEntries_app, Hrun2. simpl mbind.
  pose proof (revertEntries_proper (reverse es1) r2 s2 ltac:(by apply Forall_reverse) Heq2 Hwr2 Hw2) as Hout.
  rewrite Hrun1 in Hout. destruct (revertEntries (reverse es1) r2) as [r|x|]; try done.
  destruct Hout as (Hr & Hwr & _). exists r. split_and!; [done|by rewrite Hr|done].
Qed.

Lemma undoes_one e s s' :
  entries s' = entries s ++ [e] -> revertible e -> wf s' ->
  (exists r, revertEntry e s' = Ok r /\ state_equiv r s /\ wf r) -> undoes s s'.
Proof.
  intros He Hrev Hw (r & Hr & Heq & Hwr). exists [e]. split_and!; [done|by constructor|done|].
  exists (undirty_of e r). change (reverse [e]) with [e]. rewrite revertEntries_cons, Hr. simpl.
  split_and!; [done|by rewrite undirty_of_equiv|by apply undirty_of_wf].
Qed.

Lemma append_entries e s : entries (journal_append e s) = entries s ++ [e].
Proof. unfold journal_append, journal_dirty. by destruct (dirtied e). Qed.

Lemma append_objects e s : stateObjects (journal_append e s) = stateObjects s /\ rest (journal_append e s) = rest s.
Proof. unfold journal_append, journal_dirty. by destruct (dirtied e). Qed.

Lemma append_equiv e s : state_equiv (journal_append e s) s.
Proof. apply frame_equiv; apply append_objects. Qed.

Lemma append_wf e s : wf s -> wf (journal_append e s).
Proof.
  intros [Ha Hd Hr]. unfold journal_append, journal_dirty.
  destruct (dirtied e); split; simpl; try done; intros id k Hin; destruct (Hr id k Hin);
    (split; [done|rewrite length_app; lia]).
Qed.

Lemma append_at e s a : obj_at (journal_append e s) a = obj_at s a.
Proof. unfold obj_at. by rewrite (proj1 (append_objects e s)). Qed.

(** A journalled change of one object, undone by [f']. *)
Lemma undoes_object e a o o' f' s :
  wf s -> stateObjects s !! a = Some o -> deleted o' = false -> address o' = a ->
  revertible e -> (forall t, revertEntry e t = on_object a f' t) ->
  address (f' o') = a -> view_obj (f' o') = view_obj o ->
  (forall t k, hasSnap t = hasSnap s -> snapDestructs t = snapDestructs s ->
     storage t (f' o') k = storage s o k /\ committed t (f' o') k = committed s o k) ->
  undoes s (setStateObject o' (journal_append e s)).
Proof.
  intros Hw Ho Hdel Ha' Hrev Hrevert Haf Hview Hstor.
  assert (Hoa : obj_at s a = Some o) by (unfold obj_at; by rewrite Ho).
  set (s' := setStateObject o' (journal_append e s)).
  assert (Hw' : wf s') by (by apply wf_set, append_wf).
  eapply undoes_one; [apply append_entries|done|done|]. rewrite Hrevert. unfold on_object, getStateObject, getDeletedStateObject.
  replace (stateObjects s' !! a) with (Some o') by (symmetry; unfold s'; simpl; rewrite Ha'; apply lookup_insert_eq).
  rewrite Hdel. exists (setStateObject (f' o') s'). split_and!; [done| |by apply wf_set].
  assert (Hr : rest s' = rest s) by apply (proj2 (append_objects e s)).
  assert (Hh : hasSnap s' = hasSnap s /\ snapDestructs s' = snapDestructs s) by (unfold s', journal_append, journal_dirty; by destruct (dirtied e)).
  assert (Hat : forall b, a <> b -> obj_at s' b = obj_at s b).
  { intros b Hb. unfold s'. rewrite obj_at_set, decide_False by congruence. apply append_at. }
  split; [| | |exact Hr].
  - intros b. rewrite view_set, Haf. case_decide as Hb; [subst b|].
    + unfold view. rewrite Hoa. simpl. by rewrite Hview.
    + unfold view. by rewrite Hat.
  - intros b k. rewrite stor_set, Haf. case_decide as Hb; [subst b|].
    + unfold stor. rewrite Hoa. apply Hstor; apply Hh.
    + unfold stor. rewrite Hat by done. destruct (obj_at s b); [|done]. apply storage_ext; apply Hh.
  - intros b k. rewrite comm_set, Haf. case_decide as Hb; [subst b|].
    + unfold comm. rewrite Hoa. apply Hstor; apply Hh.
    + unfold comm. rewrite Hat by done. destruct (obj_at s b); [|done]. apply committed_ext; apply Hh.
Qed.
End View.
