(* ===== verification/StateRevert.v ===== *)
(** * Nested calls and their revert

    Each operation of the state leaves entries that undo it; runs of operations
    and nested calls, each kept or reverted, do so too. *)

From S2P Require Import Prelude StateDB StateFacts.

Section Ops.
Context `{Backend}.

(** What else a state keeps: log lists are never empty, access list indices
    point at slot sets, which are never empty. *)
Record wf_rest (s : StateDB) : Prop := {
  wf_logs : forall h l, logs s !! h = Some l -> l <> [];
  wf_index : forall a idx, addresses (acl s) !! a = Some idx -> idx = -1 \/ 0 <= idx < Z.of_nat (length (slots (acl s)));
  wf_slots : Forall (fun m => m <> ∅) (slots (acl s));
}.

Definition valid (s : StateDB) : Prop := wf s /\ wf_rest s.

Lemma wf_rest_eq s s' : logs s' = logs s -> acl s' = acl s -> wf_rest s -> wf_rest s'.
Proof. intros Hl Ha [Hw1 Hw2 Hw3]. split; rewrite ?Hl, ?Ha; done. Qed.

Lemma wf_rest_rest s s' : rest s' = rest s -> wf_rest s -> wf_rest s'.
Proof. intros Hr. apply wf_rest_eq; by injection Hr. Qed.

Lemma undoes_wf s s' : undoes s s' -> wf s'.
Proof. by intros (es & _ & _ & Hw & _). Qed.

Lemma undoes_refl s : wf s -> undoes s s.
Proof. intros. by apply undoes_same. Qed.

(** ** Creating objects *)

Lemma createObject_undoes a s o prev s' o2 :
  wf s -> createObject a s = (o, prev, s') -> address o2 = a ->
  undoes s (setStateObject o2 s') /\ o = newObject a zeroAccount /\ stateObjects s' !! a = Some o.
Proof.
  intros Hw Hc Ho2. unfold createObject in Hc.
  destruct (getDeletedStateObject a s) as [p s1] eqn:E.
  destruct (getDeleted_spec s a p s1 Hw E) as (Hp & Hl & Hin & Hnone).
  destruct p as [p|].
  - assert (Hs1 := Hin p eq_refl).
    assert (Hpa : address p = a) by (eapply wf_address; [apply Hl|done]).
    set (pd := hasSnap s1 && bool_decide (a ∈ snapDestructs s1)) in *.
    set (s2 := if hasSnap s1 && negb pd then set_snapDestructs ({[a]} ∪ snapDestructs s1) s1 else s1) in *.
    injection Hc as <- _ <-. split_and!; [|done|simpl; apply lookup_insert_eq].
    eapply undoes_trans; [apply Hl|by apply undoes_loaded|].
    set (newobj := newObject a zeroAccount). set (s3 := journal_append (resetObjectChange p pd) s2).
    assert (Hw2 : wf s2) by (unfold s2; destruct (_ && negb pd); [destruct Hl as [_ [] _ _ _]; by split|apply Hl]).
    assert (Hw3 : wf s3) by (by apply append_wf).
    assert (Hobj : stateObjects s3 = stateObjects s1) by (unfold s3, s2; by destruct (_ && negb pd)).
    assert (Hent : entries s3 = entries s1 ++ [resetObjectChange p pd]) by (unfold s3, s2; by destruct (_ && negb pd)).
    assert (Hrest : rest s3 = rest (if hasSnap s1 && negb pd then set_snapDestructs ({[a]} ∪ snapDestructs s1) s1 else s1))
      by (unfold s3, s2; by destruct (_ && negb pd)).
    clearbody s3. clear s2 Hw2.
    eapply (undoes_one (resetObjectChange p pd)); [done|done|by apply wf_set, wf_set|].
    eexists. split; [done|]. split.
    + apply frame_equiv.
      * destruct (negb pd && _); simpl; rewrite Hobj, Ho2, Hpa, !insert_insert_eq; by apply insert_id.
      * assert (Hsn : hasSnap s3 = hasSnap s1) by (injection Hrest; intros; by destruct (_ && negb pd)).
        change (hasSnap (setStateObject p (setStateObject o2 (setStateObject newobj s3)))) with (hasSnap s3).
        rewrite Hsn. unfold pd in *. destruct (hasSnap s1); simpl in *.
        -- case_bool_decide as Hin'; simpl in *; [exact Hrest|].
           unfold rest in *. simpl in *. rewrite Hpa.
           injection Hrest as -> Hsd ?????????. rewrite Hsd.
           replace (({[a]} ∪ snapDestructs s1) ∖ {[a]}) with (snapDestructs s1) by set_solver. congruence.
        -- exact Hrest.
    + destruct (negb pd && _); [|by apply wf_set, wf_set, wf_set].
      destruct (wf_set p (setStateObject o2 (setStateObject newobj s3))) as [Ha Hd Hr]; [|by split].
      by apply wf_set, wf_set.
  - destruct (Hnone eq_refl) as [-> Hno]. injection Hc as <- _ <-.
    split_and!; [|done|simpl; apply lookup_insert_eq].
    set (newobj := newObject a zeroAccount).
    eapply (undoes_one (createObjectChange a)); [done|done|by apply wf_set, wf_set, append_wf|].
    eexists. split; [done|]. split.
    + apply frame_equiv.
      * simpl. rewrite Ho2. rewrite insert_insert_eq, delete_insert_eq. by apply delete_id.
      * unfold rest. simpl. assert (Hd := wf_dirty _ Hw).
        replace (stateObjectsDirty s ∖ {[a]}) with (stateObjectsDirty s); [done|].
        apply not_elem_of_dom in Hno. set_solver.
    + destruct Hw as [Hwa Hwd Hwr]. split; simpl.
      * intros b o. rewrite lookup_delete_Some, Ho2, insert_insert_eq, lookup_insert_Some.
        intros [Hne [[? ?]|[_ Hb]]]; [done|by eapply Hwa].
      * rewrite dom_delete_L, Ho2, !dom_insert_L. set_solver.
      * intros id k Hin'. destruct (Hwr id k Hin'). split; [done|]. rewrite length_app. lia.
Qed.

Lemma createObject_rest a s o prev s' :
  wf s -> createObject a s = (o, prev, s') -> logs s' = logs s /\ acl s' = acl s.
Proof.
  intros Hw Hc. unfold createObject in Hc. destruct (getDeletedStateObject a s) as [p s1] eqn:E.
  destruct (getDeleted_spec s a p s1 Hw E) as (_ & Hl & _).
  assert (Hr : logs s1 = logs s /\ acl s1 = acl s) by (pose proof (loaded_rest _ _ Hl) as Hr; split; by injection Hr).
  destruct p; simplify_eq; [|done]. simpl. by destruct (_ && negb _).
Qed.

Lemma getOrNew_undoes a s o s' :
  valid s -> GetOrNewStateObject a s = (o, s') ->
  undoes s s' /\ valid s' /\ stateObjects s' !! a = Some o /\ deleted o = false /\ address o = a.
Proof.
  intros [Hw Hwr] Hg. unfold GetOrNewStateObject in Hg.
  destruct (getStateObject a s) as [x s1] eqn:E. destruct (get_spec s a x s1 Hw E) as (_ & Hl & Hx).
  destruct x as [x|].
  - injection Hg as <- <-. destruct (Hx x eq_refl) as (Hin & Ha & _ & Hd).
    split_and!; [by apply undoes_loaded|split; [apply Hl|eapply wf_rest_rest, Hwr; apply Hl]|done..].
  - destruct (createObject a s1) as [[y prev] s2] eqn:Ec. injection Hg as <- <-.
    destruct (createObject_undoes a s1 y prev s2 y (loaded_wf _ _ Hl) Ec) as (Hu & Hy & Hin).
    { unfold createObject in Ec. destruct (getDeletedStateObject a s1) as [[p|] s3]; by simplify_eq. }
    assert (Hya : address y = a) by (by rewrite Hy).
    replace (setStateObject y s2) with s2 in Hu.
    2: { unfold setStateObject. rewrite Hya, insert_id by done. by destruct s2. }
    split_and!; [eapply undoes_trans; [apply Hl|by apply undoes_loaded|done]| |done|by rewrite Hy|done].
    split; [by eapply undoes_wf|].
    destruct (createObject_rest a s1 y prev s2 (loaded_wf _ _ Hl) Ec) as [El Ea].
    eapply wf_rest_eq; [exact El|exact Ea|]. eapply wf_rest_rest, Hwr. apply Hl.
Qed.

(** ** Cached reads *)

(** Caching a committed value of an object, and opening its trie. *)
Lemma cache_equiv s a o o' :
  wf s -> stateObjects s !! a = Some o -> address o' = address o -> view_obj o' = view_obj o ->
  (forall k, storage s o' k = storage s o k /\ committed s o' k = committed s o k) ->
  state_equiv (setStateObject o' s) s.
Proof.
  intros Hw Ho Ha Hv Hs. assert (Hao : address o = a) by (by eapply wf_address).
  assert (Hat : obj_at s a = Some o) by (unfold obj_at; by rewrite Ho).
  split; [| | |done].
  - intros b. rewrite view_set, Ha, Hao. case_decide as Hb; [|done]. subst b. unfold view. rewrite Hat. simpl. by rewrite Hv.
  - intros b k. rewrite stor_set, Ha, Hao. case_decide as Hb; [|done]. subst b. unfold stor. rewrite Hat. apply Hs.
  - intros b k. rewrite comm_set, Ha, Hao. case_decide as Hb; [|done]. subst b. unfold comm. rewrite Hat. apply Hs.
Qed.

Lemma origin_committed s o k0 k :
  pendingStorage o !! k0 = None -> originStorage o !! k0 = None ->
  committed s (obj_originStorage (<[k0 := committed s o k0]> (originStorage o)) o) k = committed s o k.
Proof.
  intros Hp Ho. unfold committed at 1 3. simpl. destruct (pendingStorage o !! k) eqn:Ek; [done|].
  rewrite lookup_insert. case_decide as Hk; [subst k|done].
  rewrite Ho. unfold committed. by rewrite Hp, Ho.
Qed.

Lemma open_committed s o k : committed s (getTrie o).2 k = committed s o k.
Proof. unfold getTrie. by destruct (trie o) eqn:E; unfold committed, trie_root; simpl; rewrite ?E. Qed.

Lemma open_view o : view_obj (getTrie o).2 = view_obj o /\ address (getTrie o).2 = address o /\
  (getTrie o).1 = trie_root o /\ dirtyStorage (getTrie o).2 = dirtyStorage o /\
  pendingStorage (getTrie o).2 = pendingStorage o /\ originStorage (getTrie o).2 = originStorage o /\
  deleted (getTrie o).2 = deleted o.
Proof. unfold getTrie, view_obj, trie_root. destruct (trie o) eqn:E; simpl; rewrite ?E; done. Qed.

(** What a cached read leaves. *)
Record read_ok (a : Address) (o : stateObject) (s s' : StateDB) : Prop := {
  read_equiv : state_equiv s' s;
  read_wf : wf s';
  read_entries : entries s' = entries s;
  read_rest : rest s' = rest s;
  read_object : exists o', stateObjects s' !! a = Some o' /\ address o' = a /\ deleted o' = deleted o /\
                  (forall k, storage s' o' k = storage s o k);
}.

Lemma getCommitted_spec a o key s v s' :
  wf s -> stateObjects s !! a = Some o -> obj_GetCommittedState key o s = (v, s') ->
  v = committed s o key /\ read_ok a o s s'.
Proof.
  intros Hw Ho Hg. assert (Hao : address o = a) by (by eapply wf_address).
  assert (Hid : read_ok a o s s) by (split; [done..|by exists o]).
  unfold obj_GetCommittedState in Hg. unfold committed.
  destruct (pendingStorage o !! key) eqn:Ep; [injection Hg as <- <-; done|].
  destruct (originStorage o !! key) eqn:Eo; [injection Hg as <- <-; done|].
  assert (Hcache : forall o1 value, address o1 = address o -> view_obj o1 = view_obj o ->
      dirtyStorage o1 = dirtyStorage o -> pendingStorage o1 = pendingStorage o -> originStorage o1 = originStorage o ->
      deleted o1 = deleted o -> value = committed s o1 key -> (forall k, committed s o1 k = committed s o k) ->
      read_ok a o s (setStateObject (obj_originStorage (<[key := value]> (originStorage o1)) o1) s)).
  { intros o1 value Ha1 Hv1 Hd1 Hp1 Ho1 Hdel1 -> Hc1.
    assert (Hcomm : forall k, committed s (obj_originStorage (<[key := committed s o1 key]> (originStorage o1)) o1) k
                      = committed s o k).
    { intros k. rewrite origin_committed by (by rewrite ?Hp1, ?Ho1). apply Hc1. }
    assert (Hstor : forall k, storage s (obj_originStorage (<[key := committed s o1 key]> (originStorage o1)) o1) k
                      = storage s o k).
    { intros k. unfold storage. rewrite Hcomm. simpl. by rewrite Hd1. }
    split; [eapply cache_equiv; [done|done|done|exact Hv1|done]|by apply wf_set|done|done|].
    eexists. split_and!; [simpl; rewrite Ha1, Hao; apply lookup_insert_eq|simpl; congruence|done|].
    intros k. etrans; [|apply Hstor]. by apply storage_ext. }
  destruct (hasSnap s) eqn:Eh.
  - case_bool_decide as Hd; injection Hg as <- <-; [done|]. split; [done|].
    apply Hcache; try done. unfold committed. by rewrite Ep, Eo, Eh, bool_decide_eq_false_2.
  - destruct (getTrie o) as [root o1] eqn:Et. injection Hg as <- <-.
    destruct (open_view o) as (Hv & Ha & Hroot & Hds & Hps & Hos & Hdel). rewrite Et in *. simpl in *.
    split; [by rewrite Hroot|]. apply Hcache; try done.
    + unfold committed. rewrite Hps, Ep, Hos, Eo, Eh. f_equal. rewrite Hroot. by injection Hv.
    + intros k. pose proof (open_committed s o k) as Hk. by rewrite Et in Hk.
Qed.

Lemma getState_spec a o key s v s' :
  wf s -> stateObjects s !! a = Some o -> obj_GetState key o s = (v, s') ->
  v = storage s o key /\ read_ok a o s s'.
Proof.
  intros Hw Ho Hg. assert (Hao : address o = a) by (by eapply wf_address).
  unfold obj_GetState in Hg. unfold storage.
  destruct (dirtyStorage o !! key) eqn:Ed; [|by eapply getCommitted_spec].
  injection Hg as <- <-. split; [done|]. split; [done..|by exists o].
Qed.

(** ** Operations

    Every read and every journaled write but [Erase], which governance runs at
    the end of a block, outside of any snapshot: its entry does not undo the
    reads made in between ([erase_not_undone] below). *)

Inductive op : Type :=
  | ORead (a : Address)                       (* GetBalance, GetNonce, GetCodeHash, Exist, Empty, HasSuicided *)
  | OGetCode (a : Address)
  | OGetState (a : Address) (key : Hash)
  | OGetCommittedState (a : Address) (key : Hash)
  | OAddBalance (a : Address) (x : Z)
  | OSubBalance (a : Address) (x : Z)
  | OSetBalance (a : Address) (x : Z)
  | OSetNonce (a : Address) (n : Z)
  | OSetCode (a : Address) (c : list byte)
  | OSetState (a : Address) (key value : Hash)
  | OSuicide (a : Address)
  | OCreateAccount (a : Address)
  | OAddRefund (gas : Z)
  | OSubRefund (gas : Z)
  | OAddLog (a : Address) (topics : list Hash) (d : list byte)
  | OAddPreimage (hash : Hash) (preimage : list byte)
  | OAddAddress (a : Address)
  | OAddSlot (a : Address) (slot : Hash).

Definition do_op (o : op) (s : StateDB) : res StateDB :=
  match o with
  | ORead a => Ok (getStateObject a s).2
  | OGetCode a => Ok (GetCode a s).2
  | OGetState a key => Ok (GetState a key s).2
  | OGetCommittedState a key => Ok (GetCommittedState a key s).2
  | OAddBalance a x => Ok (AddBalance a x s)
  | OSubBalance a x => Ok (SubBalance a x s)
  | OSetBalance a x => Ok (SetBalance a x s)
  | OSetNonce a n => Ok (SetNonce a n s)
  | OSetCode a c => Ok (SetCode a c s)
  | OSetState a key value => Ok (SetState a key value s)
  | OSuicide a => Ok (Suicide a s).2
  | OCreateAccount a => Ok (CreateAccount a s)
  | OAddRefund gas => Ok (AddRefund gas s)
  | OSubRefund gas => SubRefund gas s
  | OAddLog a topics d => Ok (AddLog a topics d s)
  | OAddPreimage hash preimage => Ok (AddPreimage hash preimage s)
  | OAddAddress a => Ok (AddAddressToAccessList a s)
  | OAddSlot a slot => AddSlotToAccessList a slot s
  end.

(** The outcome of an operation on a valid state. *)
Definition good (s s' : StateDB) : Prop := undoes s s' /\ valid s'.

Lemma good_trans s1 s2 s3 : good s1 s2 -> good s2 s3 -> good s1 s3.
Proof. intros [H1 H2] [H3 H4]. split; [|done]. eapply undoes_trans; [apply H2|done..]. Qed.

Lemma append_rest e s : wf_rest s -> wf_rest (journal_append e s).
Proof. apply wf_rest_rest, append_objects. Qed.

Lemma good_object e a o o' f' s :
  valid s -> stateObjects s !! a = Some o -> deleted o' = false -> address o' = a ->
  revertible e -> (forall t, revertEntry e t = on_object a f' t) ->
  address (f' o') = a -> view_obj (f' o') = view_obj o ->
  (forall t k, hasSnap t = hasSnap s -> snapDestructs t = snapDestructs s ->
     storage t (f' o') k = storage s o k /\ committed t (f' o') k = committed s o k) ->
  good s (setStateObject o' (journal_append e s)).
Proof.
  intros [Hw Hwr] Ho Hd Ha He Hr Haf Hv Hs.
  assert (Hu : undoes s (setStateObject o' (journal_append e s))) by (by eapply undoes_object).
  split; [done|]. split; [by eapply undoes_wf|]. eapply wf_rest_rest; [|exact Hwr]. apply (append_objects e s).
Qed.

(** An object whose storage fields are those of [o] reads alike. *)
Lemma same_fields_storage t s o o' k :
  hasSnap t = hasSnap s -> snapDestructs t = snapDestructs s -> address o' = address o ->
  dirtyStorage o' = dirtyStorage o -> pendingStorage o' = pendingStorage o -> originStorage o' = originStorage o ->
  trie_root o' = trie_root o -> storage t o' k = storage s o k /\ committed t o' k = committed s o k.
Proof.
  intros Hh Hd Ha H1 H2 H3 H4. unfold storage, committed. rewrite Hh, Hd, Ha, H1, H2, H3, H4. done.
Qed.

Lemma good_SetBalance a o x s :
  valid s -> stateObjects s !! a = Some o -> deleted o = false -> address o = a ->
  good s (obj_SetBalance x o s).
Proof.
  intros Hv Ho Hd Ha. unfold obj_SetBalance. rewrite Ha.
  eapply (good_object _ a o _ (obj_setBalance (Balance (data o)))); try done.
  - unfold view_obj, code_val, trie_root. destruct o as [? [] ? ? ? ? ? ? ? ?]; done.
  - intros. by apply same_fields_storage.
Qed.

Lemma good_touch a o s :
  valid s -> address o = a -> good s (touch o s).
Proof.
  intros [Hw Hwr] Ha. unfold touch.
  assert (Hone : undoes s (journal_append (touchChange (address o)) s) /\
                 wf (journal_append (touchChange (address o)) s)).
  { split; [|by apply append_wf]. eapply undoes_one; [apply append_entries|done|by apply append_wf|].
    eexists. split; [done|]. split; [apply append_equiv|by apply append_wf]. }
  destruct Hone as [Hu Hwa]. case_if; [|by split; [|split; [|apply append_rest]]].
  split.
  - eapply undoes_trans; [done|done|]. apply undoes_same; [done|by apply frame_equiv|].
    destruct Hwa. by split.
  - split; [destruct Hwa; by split|]. eapply wf_rest_rest; [|exact Hwr].
    apply (append_objects (touchChange (address o)) s).
Qed.

Lemma good_getOrNew a s o s' : valid s -> GetOrNewStateObject a s = (o, s') ->
  good s s' /\ stateObjects s' !! a = Some o /\ deleted o = false /\ address o = a.
Proof. intros Hv Hg. destruct (getOrNew_undoes a s o s' Hv Hg) as (Hu & Hv' & Hin & Hd & Ha). done. Qed.

Lemma good_balance a x s (k : Z -> Z) :
  valid s ->
  good s (let '(o, s) := GetOrNewStateObject a s in
          if x =? 0 then (if empty o then touch o s else s) else obj_SetBalance (k (Balance (data o))) o s).
Proof.
  intros Hv. destruct (GetOrNewStateObject a s) as [o s1] eqn:E.
  destruct (good_getOrNew a s o s1 Hv E) as (Hg & Hin & Hd & Ha). eapply good_trans; [done|].
  case_if; [case_if; [by eapply good_touch; [apply Hg|]|split; [apply undoes_refl|]; apply Hg]|].
  eapply good_SetBalance; try done. apply Hg.
Qed.

Lemma good_SetCode a c s : valid s -> good s (SetCode a c s).
Proof.
  intros Hv. unfold SetCode. destruct (GetOrNewStateObject a s) as [o s1] eqn:E.
  destruct (good_getOrNew a s o s1 Hv E) as (Hg & Hin & Hd & Ha).
  destruct (obj_Code o) as [prevcode o1] eqn:Ec. eapply good_trans; [done|].
  assert (Hsame : prevcode = code_val o /\ data o1 = data o /\ address o1 = address o /\ deleted o1 = deleted o /\
     suicided o1 = suicided o /\ trie o1 = trie o /\ dirtyStorage o1 = dirtyStorage o /\
     pendingStorage o1 = pendingStorage o /\ originStorage o1 = originStorage o).
  { unfold obj_Code, code_val in *. destruct (code o); [by simplify_eq|].
    destruct (_ =? _); by simplify_eq/=. }
  destruct Hsame as (Hpc & Hda & Haa & Hdd & Hsu & Htr & Hds & Hps & Hos).
  assert (Hroot : trie_root (obj_setCode (CodeHash (data o1)) prevcode (obj_setCode (Keccak256Hash c) (Some c) o1)) = trie_root o)
    by (unfold trie_root; simpl; rewrite Htr, Hda; done).
  eapply (good_object _ a o _ (obj_setCode (CodeHash (data o1)) prevcode)); simpl; try congruence; try done.
  - apply Hg.
  - unfold view_obj. rewrite Hroot. simpl. rewrite Hda, Hsu, Hdd. f_equal.
    + by destruct (data o).
    + rewrite Hpc. unfold code_val. simpl. destruct (code o); [done|]. destruct (_ =? _); [done|].
      by destruct (ContractCode _).
  - intros t k Hh Hsd. by apply same_fields_storage.
Qed.

Lemma good_SetState a key value s : valid s -> good s (SetState a key value s).
Proof.
  intros Hv. unfold SetState. destruct (GetOrNewStateObject a s) as [o s1] eqn:E.
  destruct (good_getOrNew a s o s1 Hv E) as (Hg & Hin & Hd & Ha).
  destruct (obj_GetState key o s1) as [prev s2] eqn:Ep.
  destruct (getState_spec a o key s1 prev s2 (proj1 (proj2 Hg)) Hin Ep) as (Hprev & [Heq Hw2 He2 Hr2 (o2 & Ho2 & Ha2 & Hd2 & Hs2)]).
  assert (Hv2 : valid s2) by (split; [done|]; eapply wf_rest_rest, Hg; done).
  assert (Hg2 : good s1 s2) by (split; [by apply undoes_same|done]).
  eapply good_trans; [done|]. case_if; [done|]. eapply good_trans; [done|].
  rewrite Ho2. simpl default. rewrite <- (Hs2 key) in Hprev.
  eapply (good_object _ a o2 _ (obj_setState key prev)); simpl; try congruence; try done.
  intros t k Hh Hsd. split; [|exact (committed_ext t s2 o2 k Hh Hsd)].
  unfold storage. simpl. rewrite !lookup_insert. case_decide as Hk.
  - subst k. exact Hprev.
  - change (storage t o2 k = storage s2 o2 k). by apply storage_ext.
Qed.

Lemma good_Suicide a s : valid s -> good s (Suicide a s).2.
Proof.
  intros Hv. unfold Suicide. destruct (getStateObject a s) as [x s1] eqn:E.
  destruct (get_spec s a x s1 (proj1 Hv) E) as (_ & Hl & Hx).
  assert (Hg : good s s1) by (split; [by apply undoes_loaded|split; [apply Hl|eapply wf_rest_rest, Hv; apply Hl]]).
  destruct x as [o|]; [|done]. destruct (Hx o eq_refl) as (Hin & Ha & _ & Hd). simpl. eapply good_trans; [done|].
  set (f := fun x => obj_setBalance (Balance (data o)) (obj_suicided (suicided o) x)).
  set (o' := obj_setBalance 0 (obj_suicided true o)).
  set (s2 := setStateObject o' (journal_append (suicideChange a (suicided o) (Balance (data o))) s1)).
  assert (Hw2 : wf s2) by (apply wf_set, append_wf, Hg).
  split; [|split; [done|eapply wf_rest_rest; [|apply Hg]; apply (append_objects (suicideChange a (suicided o) (Balance (data o))) s1)]].
  eapply undoes_one; [apply append_entries|done|done|]. simpl revertEntry.
  unfold getStateObject, getDeletedStateObject.
  replace (stateObjects s2 !! a) with (Some o') by (symmetry; simpl; rewrite Ha; apply lookup_insert_eq).
  simpl deleted. rewrite Hd. exists (setStateObject (f o') s2). split_and!; [done| |by apply wf_set].
  apply frame_equiv.
  - unfold s2. simpl. rewrite Ha, !insert_insert_eq.
    replace (f o') with o by (unfold f, o'; by destruct o as [? [] ? ? ? ? ? ? ? ?]). by apply insert_id.
  - unfold s2. apply (append_objects (suicideChange a (suicided o) (Balance (data o))) s1).
Qed.

Lemma good_CreateAccount a s : valid s -> good s (CreateAccount a s).
Proof.
  intros [Hw Hwr]. unfold CreateAccount. destruct (createObject a s) as [[o prev] s1] eqn:E.
  destruct (createObject_rest a s o prev s1 Hw E) as [Hl Ha].
  assert (Hgood : forall o2, address o2 = a -> good s (setStateObject o2 s1)).
  { intros o2 Ho2. destruct (createObject_undoes a s o prev s1 o2 Hw E Ho2) as (Hu & _).
    split; [done|]. split; [by eapply undoes_wf|]. by apply (wf_rest_eq s). }
  destruct (createObject_undoes a s o prev s1 (newObject a zeroAccount) Hw E ltac:(done)) as (_ & Ho & Hin).
  destruct prev as [prev|]; [apply Hgood; by rewrite Ho|].
  replace s1 with (setStateObject o s1); [apply Hgood; by rewrite Ho|].
  assert (Hin' : stateObjects s1 !! address o = Some o) by (rewrite Ho at 1; exact Hin).
  unfold setStateObject. rewrite insert_id by done. by destruct s1.
Qed.

(** A change outside the objects, undone by its entry. *)
Lemma good_rest e (f : StateDB -> StateDB) s :
  valid s -> revertible e ->
  (forall t, stateObjects (f t) = stateObjects t /\ stateObjectsDirty (f t) = stateObjectsDirty t /\
     validRevisions (f t) = validRevisions t /\ nextRevisionId (f t) = nextRevisionId t /\ entries (f t) = entries t) ->
  wf_rest (f (journal_append e s)) ->
  (exists r, revertEntry e (f (journal_append e s)) = Ok r /\
     stateObjects r = stateObjects s /\ rest r = rest s /\ wf r) ->
  good s (f (journal_append e s)).
Proof.
  intros [Hw Hwr] He Hf Hwr' (r & Hr & Ho & Hrr & Hwf).
  destruct (append_wf e s Hw) as [Ha Hd Hrev].
  destruct (Hf (journal_append e s)) as (E1 & E2 & E3 & E4 & E5).
  assert (Hw' : wf (f (journal_append e s))) by (split; rewrite ?E1, ?E2, ?E3, ?E4, ?E5; done).
  split; [|done]. eapply undoes_one; [by rewrite E5, append_entries|done|done|].
  exists r. split_and!; [done|by apply frame_equiv|done].
Qed.

Lemma good_AddRefund gas s : valid s -> good s (AddRefund gas s).
Proof.
  intros Hv. unfold AddRefund. apply (good_rest (refundChange (refund s)) (set_refund (refund s +w gas))); try done.
  - destruct Hv as [_ [? ? ?]]. by split.
  - eexists. split; [done|]. split_and!; [done|done|]. destruct (proj1 Hv) as [Ha Hd Hr].
    split; [done|done|]. intros id k Hin. destruct (Hr id k Hin). split; [done|]. simpl. rewrite length_app. lia.
Qed.

Lemma good_SubRefund gas s s' : valid s -> SubRefund gas s = Ok s' -> good s s'.
Proof.
  intros Hv. unfold SubRefund. case_if; [done|]. intros [= <-].
  apply (good_rest (refundChange (refund s)) (set_refund (refund s -w gas))); try done.
  - destruct Hv as [_ [? ? ?]]. by split.
  - eexists. split; [done|]. split_and!; [done|done|]. destruct (proj1 Hv) as [Ha Hd Hr].
    split; [done|done|]. intros id k Hin. destruct (Hr id k Hin). split; [done|]. simpl. rewrite length_app. lia.
Qed.

(** The journal only grew: what is needed of the revisions. *)
Lemma wf_grown s r : wf s -> stateObjects r = stateObjects s -> stateObjectsDirty r = stateObjectsDirty s ->
  validRevisions r = validRevisions s -> nextRevisionId r = nextRevisionId s ->
  (length (entries s) <= length (entries r))%nat -> wf r.
Proof.
  intros [Ha Hd Hr] E1 E2 E3 E4 E5. split; rewrite ?E1, ?E2, ?E3, ?E4; try done.
  intros id k Hin. destruct (Hr id k Hin). split; [done|lia].
Qed.

Lemma good_AddLog a topics d s : valid s -> good s (AddLog a topics d s).
Proof.
  intros Hv. unfold AddLog. simpl.
  set (l := default [] (logs s !! thash s)). set (log := mkLog a topics d (thash s) (txIndex s) (logSize s)).
  set (f := fun t => set_logSize (logSize s + 1) (set_logs (<[thash s := l ++ [log]]> (logs s)) t)).
  change (good s (f (journal_append (addLogChange (thash s)) s))).
  destruct Hv as [Hw [Hl Hi Hs]].
  apply good_rest; try done.
  - split; simpl; [|done..]. intros h l'. rewrite lookup_insert_Some. intros [[_ <-]|[_ Hh]]; [|by eapply Hl].
    intros Hnil. by apply app_eq_nil in Hnil as [_ ?].
  - eexists. split; [|split_and!].
    + simpl. rewrite lookup_insert_eq. simpl. rewrite length_app. simpl.
      replace (length l + 1 =? 0)%nat with false by (symmetry; apply Nat.eqb_neq; lia). done.
    + done.
    + unfold rest. simpl.
      assert (Hlogs : (if (length l + 1 =? 1)%nat then delete (thash s) (<[thash s := l ++ [log]]> (logs s))
                       else <[thash s := removelast (l ++ [log])]> (<[thash s := l ++ [log]]> (logs s))) = logs s).
      { unfold l. destruct (logs s !! thash s) as [l0|] eqn:El; simpl.
        - assert (Hne : l0 <> []) by (by eapply Hl). destruct l0 as [|x l0]; [done|].
          replace (length (x :: l0) + 1 =? 1)%nat with false by (symmetry; apply Nat.eqb_neq; simpl; lia).
          rewrite removelast_last, insert_insert_eq. by apply insert_id.
        - rewrite delete_insert_eq. by apply delete_id. }
      rewrite Hlogs. replace (logSize s + 1 - 1) with (logSize s) by lia. done.
    + eapply wf_grown; try done. simpl. rewrite length_app. lia.
Qed.

Lemma good_AddPreimage h p s : valid s -> good s (AddPreimage h p s).
Proof.
  intros Hv. unfold AddPreimage. destruct (preimages s !! h) eqn:E; [by split; [apply undoes_refl, Hv|]|].
  apply (good_rest (addPreimageChange h) (set_preimages (<[h := p]> (preimages s)))); try done.
  - destruct Hv as [_ [? ? ?]]. by split.
  - eexists. split; [done|]. split_and!; [done| |].
    + unfold rest. simpl. by rewrite delete_insert_id.
    + eapply (wf_grown s); [apply Hv|done..|]. simpl. rewrite length_app. lia.
Qed.

Lemma good_AddAddress a s : valid s -> good s (AddAddressToAccessList a s).
Proof.
  intros Hv. unfold AddAddressToAccessList, al_AddAddress.
  destruct (addresses (acl s) !! a) as [idx|] eqn:E; [by split; [apply undoes_refl, Hv|]|].
  set (al := mkAccessList (<[a := -1]> (addresses (acl s))) (slots (acl s))).
  change (good s (set_acl al (journal_append (accessListAddAccountChange a) s))).
  destruct Hv as [Hw [Hl Hi Hs]]. apply good_rest; try done.
  - split; simpl; [done| |done]. intros b idx. rewrite lookup_insert_Some. intros [[_ <-]|[_ Hb]]; [by left|by eapply Hi].
  - eexists. split; [done|]. split_and!; [done| |].
    + unfold rest. simpl. unfold al_DeleteAddress. simpl. rewrite delete_insert_id by done. by destruct (acl s).
    + eapply wf_grown; try done. simpl. rewrite length_app. lia.
Qed.

(** Slots are deleted in the reverse order of their addition. *)
Lemma DeleteSlot_AddSlot a slot al al' addrMod :
  (forall b idx, addresses al !! b = Some idx -> idx = -1 \/ 0 <= idx < Z.of_nat (length (slots al))) ->
  Forall (fun m => m <> ∅) (slots al) ->
  al_AddSlot a slot al = Ok (addrMod, true, al') ->
  al_DeleteSlot a slot al' = Ok (if addrMod then mkAccessList (<[a := -1]> (addresses al)) (slots al) else al) /\
  (addrMod = true <-> addresses al !! a = None).
Proof.
  intros Hi Hs. unfold al_AddSlot, al_DeleteSlot.
  assert (Hnew : forall adm, (adm = true <-> addresses al !! a = None) -> (adm = false -> addresses al !! a = Some (-1)) ->
    let al' := mkAccessList (<[a := Z.of_nat (length (slots al))]> (addresses al)) (slots al ++ [{[slot]}]) in
    match addresses al' !! a with
    | None => Panic
    | Some idx =>
        if idx <? 0 then Panic else
        match slots al' !! Z.to_nat idx with
        | None => Panic
        | Some m => let m := m ∖ {[slot]} in
            if bool_decide (m = ∅) then Ok (mkAccessList (<[a := -1]> (addresses al')) (take (Z.to_nat idx) (slots al')))
            else Ok (mkAccessList (addresses al') (<[Z.to_nat idx := m]> (slots al')))
        end
    end = Ok (if adm : bool then mkAccessList (<[a := -1]> (addresses al)) (slots al) else al)).
  { intros adm Hadm Hold. simpl. rewrite lookup_insert_eq. rewrite (proj2 (Z.ltb_ge _ _)) by lia.
    rewrite Nat2Z.id, list_lookup_middle by done. rewrite bool_decide_eq_true_2 by set_solver.
    rewrite take_app_length, insert_insert_eq. destruct adm; [done|].
    rewrite insert_id by (by apply Hold). by destruct al. }
  destruct (addresses al !! a) as [idx|] eqn:E.
  - destruct (idx =? -1) eqn:Ei; bool_Z.
    + intros [= <- <-]. split; [|done]. apply (Hnew false); [done|]. intros _. congruence.
    + destruct (slots al !! Z.to_nat idx) as [m|] eqn:Em; [|done].
      case_bool_decide as Hin; [done|]. intros [= <- <-]. split; [|done]. simpl. rewrite E.
      destruct (Hi a idx E) as [?|Hr]; [lia|]. rewrite (proj2 (Z.ltb_ge _ _)) by lia.
      rewrite list_lookup_insert_eq by lia.
      replace (({[slot]} ∪ m) ∖ {[slot]}) with m by set_solver.
      assert (Hne : m <> ∅) by (by eapply Forall_lookup_1 in Em; [|exact Hs]).
      rewrite bool_decide_eq_false_2 by done. rewrite list_insert_insert_eq, list_insert_id by done. by destruct al.
  - intros [= <- <-]. split; [|done]. by apply (Hnew true).
Qed.

Lemma AddSlot_wf a slot al b1 b2 al' :
  (forall b idx, addresses al !! b = Some idx -> idx = -1 \/ 0 <= idx < Z.of_nat (length (slots al))) ->
  Forall (fun m => m <> ∅) (slots al) -> al_AddSlot a slot al = Ok (b1, b2, al') ->
  (forall b idx, addresses al' !! b = Some idx -> idx = -1 \/ 0 <= idx < Z.of_nat (length (slots al'))) /\
  Forall (fun m => m <> ∅) (slots al') /\ (b2 = false -> b1 = false /\ al' = al).
Proof.
  intros Hi Hs. unfold al_AddSlot.
  assert (Hnew : (forall b idx, <[a := Z.of_nat (length (slots al))]> (addresses al) !! b = Some idx ->
      idx = -1 \/ 0 <= idx < Z.of_nat (length (slots al ++ [{[slot]}]))) /\
      Forall (fun m => m <> ∅) (slots al ++ [{[slot]}])).
  { split.
    - intros b idx. rewrite lookup_insert_Some, length_app. simpl. intros [[_ <-]|[_ Hb]]; [lia|]. destruct (Hi b idx Hb); lia.
    - apply Forall_app. split; [done|]. repeat constructor. set_solver. }
  destruct (addresses al !! a) as [idx|] eqn:E; [|intros [= <- <- <-]; destruct Hnew; by split_and!].
  destruct (idx =? -1); [intros [= <- <- <-]; destruct Hnew; by split_and!|].
  destruct (slots al !! Z.to_nat idx) as [m|] eqn:Em; [|done].
  case_bool_decide as Hin; intros [= <- <- <-]; [done|]. simpl. split_and!; [|apply Forall_insert; [done|set_solver]|done].
  intros b i. rewrite length_insert. apply Hi.
Qed.

Lemma good_AddSlot a slot s s' : valid s -> AddSlotToAccessList a slot s = Ok s' -> good s s'.
Proof.
  intros Hv. unfold AddSlotToAccessList. destruct (al_AddSlot a slot (acl s)) as [[[b1 b2] al']|e|] eqn:E; [|done..].
  simpl. intros [= <-]. assert (Hv' := Hv). destruct Hv as [Hw [Hl Hi Hs]].
  destruct (AddSlot_wf _ _ _ _ _ _ Hi Hs E) as (Hi' & Hs' & Hnone).
  destruct b2.
  2: { destruct (Hnone eq_refl) as [-> ->]. replace (set_acl (acl s) s) with s by (by destruct s).
       by split; [apply undoes_refl|]. }
  destruct (DeleteSlot_AddSlot a slot (acl s) al' b1 Hi Hs E) as [Hdel Hb1].
  destruct b1.
  - assert (Hnone' : addresses (acl s) !! a = None) by tauto.
    pose proof (good_AddAddress a s Hv') as Hga. unfold AddAddressToAccessList, al_AddAddress in Hga.
    rewrite Hnone' in Hga. eapply good_trans; [exact Hga|].
    change (good (journal_append (accessListAddAccountChange a)
                    (set_acl (mkAccessList (<[a := -1]> (addresses (acl s))) (slots (acl s))) s))
                 (set_acl al' (journal_append (accessListAddSlotChange a slot) (journal_append (accessListAddAccountChange a)
                    (set_acl (mkAccessList (<[a := -1]> (addresses (acl s))) (slots (acl s))) s))))).
    apply good_rest; try done; [apply Hga|].
    eexists. split; [simpl; rewrite Hdel; done|]. split_and!; [done|done|].
    eapply wf_grown; try done. simpl. rewrite !length_app. lia.
  - change (good s (set_acl al' (journal_append (accessListAddSlotChange a slot) s))).
    apply good_rest; try done.
    eexists. split; [simpl; rewrite Hdel; done|]. split_and!; [done|by destruct s|].
    eapply wf_grown; try done. simpl. rewrite length_app. lia.
Qed.

Lemma good_loaded s s' : valid s -> loaded s s' -> good s s'.
Proof.
  intros [Hw Hwr] Hl. split; [by apply undoes_loaded|]. split; [apply Hl|]. eapply wf_rest_rest, Hwr. apply Hl.
Qed.

Lemma good_read a o s s' : valid s -> read_ok a o s s' -> good s s'.
Proof.
  intros [Hw Hwr] [He Hw' Hen Hr _]. split; [by apply undoes_same|]. split; [done|]. by eapply wf_rest_rest.
Qed.

Lemma do_op_good o s s' : valid s -> do_op o s = Ok s' -> good s s'.
Proof.
  intros Hv Ho.
  assert (Hget : forall a x s1, getStateObject a s = (x, s1) -> good s s1 /\
     (forall y, x = Some y -> stateObjects s1 !! a = Some y /\ address y = a)).
  { intros a x s1 E. destruct (get_spec s a x s1 (proj1 Hv) E) as (_ & Hl & Hx).
    split; [by apply good_loaded|]. intros y Hy. destruct (Hx y Hy) as (? & ? & _). done. }
  destruct o; simpl in Ho; try (by eapply good_AddSlot); try (by eapply good_SubRefund); injection Ho as Ho; rewrite <- Ho; clear Ho.
  - destruct (getStateObject a s) as [x s1] eqn:E. by eapply Hget.
  - unfold GetCode. destruct (getStateObject a s) as [x s1] eqn:E. destruct (Hget a x s1 E) as [Hg Hx].
    destruct x as [x|]; [|done]. destruct (Hx x eq_refl) as [Hin Ha]. destruct (obj_Code x) as [c o] eqn:Ec. simpl.
    eapply good_trans; [done|]. destruct Hg as [_ [Hw1 Hr1]].
    assert (Hsame : address o = address x /\ view_obj o = view_obj x /\
                    forall k, storage s1 o k = storage s1 x k /\ committed s1 o k = committed s1 x k).
    { unfold obj_Code in Ec. destruct (code x) eqn:Ecx; [by simplify_eq|].
      destruct (_ =? emptyCodeHash) eqn:Ee; simplify_eq; [done|]. split_and!; [done| |done].
      unfold view_obj, code_val, trie_root. simpl. rewrite Ecx, Ee. by destruct (ContractCode _). }
    destruct Hsame as (Hao & Hvo & Hso). split; [|split; [by apply wf_set|by eapply wf_rest_rest, Hr1]].
    apply undoes_same; [done| |by apply wf_set]. by eapply cache_equiv.
  - unfold GetState. destruct (getStateObject a s) as [x s1] eqn:E. destruct (Hget a x s1 E) as [Hg Hx].
    destruct x as [x|]; [|done]. destruct (Hx x eq_refl) as [Hin Ha].
    destruct (obj_GetState key x s1) as [v s2] eqn:Ev. eapply good_trans; [done|]. eapply good_read; [apply Hg|].
    eapply getState_spec; [apply Hg|done..].
  - unfold GetCommittedState. destruct (getStateObject a s) as [x s1] eqn:E. destruct (Hget a x s1 E) as [Hg Hx].
    destruct x as [x|]; [|done]. destruct (Hx x eq_refl) as [Hin Ha].
    destruct (obj_GetCommittedState key x s1) as [v s2] eqn:Ev. eapply good_trans; [done|]. eapply good_read; [apply Hg|].
    eapply getCommitted_spec; [apply Hg|done..].
  - by apply (good_balance a x s (fun b => b + x)).
  - by apply (good_balance a x s (fun b => b - x)).
  - unfold SetBalance. destruct (GetOrNewStateObject a s) as [o s1] eqn:E.
    destruct (good_getOrNew a s o s1 Hv E) as (Hg & Hin & Hd & Ha). eapply good_trans; [done|].
    eapply good_SetBalance; try done. apply Hg.
  - unfold SetNonce. destruct (GetOrNewStateObject a s) as [o s1] eqn:E.
    destruct (good_getOrNew a s o s1 Hv E) as (Hg & Hin & Hd & Ha). eapply good_trans; [done|].
    eapply (good_object _ a o _ (obj_setNonce (Nonce (data o)))); try done; [apply Hg|..].
    + unfold view_obj, code_val, trie_root. destruct o as [? [] ? ? ? ? ? ? ? ?]; done.
    + intros. by apply same_fields_storage.
  - by apply good_SetCode.
  - by apply good_SetState.
  - by apply good_Suicide.
  - by apply good_CreateAccount.
  - by apply good_AddRefund.
  - by apply good_AddLog.
  - by apply good_AddPreimage.
  - by apply good_AddAddress.
Qed.

(** ** Revisions *)

Definition revs (s : StateDB) : list (Z * nat) * Z := (validRevisions s, nextRevisionId s).

Lemma append_revs e s : revs (journal_append e s) = revs s.
Proof. unfold journal_append, journal_dirty. by destruct (dirtied e). Qed.

Lemma getDeleted_revs a s : revs (getDeletedStateObject a s).2 = revs s.
Proof. unfold getDeletedStateObject. repeat case_match; done. Qed.

Lemma get_revs a s : revs (getStateObject a s).2 = revs s.
Proof.
  unfold getStateObject. pose proof (getDeleted_revs a s) as Hr. by destruct (getDeletedStateObject a s).
Qed.

Lemma createObject_revs a s : revs (createObject a s).2 = revs s.
Proof.
  unfold createObject. pose proof (getDeleted_revs a s) as Hr. destruct (getDeletedStateObject a s) as [[p|] s1]; simpl in *.
  - by destruct (hasSnap s1 && negb _).
  - done.
Qed.

Lemma getOrNew_revs a s : revs (GetOrNewStateObject a s).2 = revs s.
Proof.
  unfold GetOrNewStateObject. pose proof (get_revs a s) as Hr. destruct (getStateObject a s) as [[x|] s1]; simpl in *; [done|].
  pose proof (createObject_revs a s1) as Hc. destruct (createObject a s1) as [[o p] s2]. simpl in *. congruence.
Qed.

Lemma committed_revs key o s : revs (obj_GetCommittedState key o s).2 = revs s.
Proof. unfold obj_GetCommittedState. repeat case_match; done. Qed.

Lemma state_revs key o s : revs (obj_GetState key o s).2 = revs s.
Proof. unfold obj_GetState. case_match; [done|apply committed_revs]. Qed.

Lemma balance_revs o x s : revs (if x =? 0 then (if empty o then touch o s else s) else s) = revs s.
Proof.
  repeat case_if; try done. unfold touch. case_if; apply append_revs.
Qed.

Lemma do_op_revs o s s' : do_op o s = Ok s' -> revs s' = revs s.
Proof.
  assert (Hb : forall a x (k : Z -> Z), revs (let '(o, s) := GetOrNewStateObject a s in
      if x =? 0 then (if empty o then touch o s else s) else obj_SetBalance (k (Balance (data o))) o s) = revs s).
  { intros a x k. pose proof (getOrNew_revs a s) as Hr. destruct (GetOrNewStateObject a s) as [y s1]. simpl in Hr.
    pose proof (balance_revs y x s1) as Hx. destruct (x =? 0); [congruence|]. done. }
  destruct o; simpl; intros Ho; try (injection Ho as <-).
  - apply get_revs.
  - unfold GetCode. pose proof (get_revs a s) as Hr. destruct (getStateObject a s) as [[x|] s1]; [|done].
    by destruct (obj_Code x).
  - unfold GetState. pose proof (get_revs a s) as Hr. destruct (getStateObject a s) as [[x|] s1]; [|done].
    by rewrite state_revs.
  - unfold GetCommittedState. pose proof (get_revs a s) as Hr. destruct (getStateObject a s) as [[x|] s1]; [|done].
    by rewrite committed_revs.
  - apply (Hb a x (fun b => b + x)).
  - apply (Hb a x (fun b => b - x)).
  - unfold SetBalance. pose proof (getOrNew_revs a s) as Hr. destruct (GetOrNewStateObject a s) as [y s1]. done.
  - unfold SetNonce. pose proof (getOrNew_revs a s) as Hr. destruct (GetOrNewStateObject a s) as [y s1]. done.
  - unfold SetCode. pose proof (getOrNew_revs a s) as Hr. destruct (GetOrNewStateObject a s) as [y s1]. by destruct (obj_Code y).
  - unfold SetState. pose proof (getOrNew_revs a s) as Hr. destruct (GetOrNewStateObject a s) as [y s1].
    pose proof (state_revs key y s1) as Hk. destruct (obj_GetState key y s1) as [prev s2]. simpl in *.
    case_if; [congruence|]. change (revs s2 = revs s). congruence.
  - unfold Suicide. pose proof (get_revs a s) as Hr. by destruct (getStateObject a s) as [[x|] s1].
  - unfold CreateAccount. pose proof (createObject_revs a s) as Hr. by destruct (createObject a s) as [[x [y|]] s1].
  - done.
  - unfold SubRefund in Ho. case_if; [done|]. by injection Ho as <-.
  - done.
  - unfold AddPreimage. by case_match.
  - unfold AddAddressToAccessList, al_AddAddress. by destruct (addresses (acl s) !! a).
  - unfold AddSlotToAccessList in Ho. apply bind_ok in Ho as ([[b1 b2] al] & _ & Ho). injection Ho as <-. by destruct b1, b2.
Qed.

Lemma revertEntry_revs e s s' : revertEntry e s = Ok s' -> revs s' = revs s /\ entries s' = entries s.
Proof.
  assert (Hg : forall a, revs (getStateObject a s).2 = revs s /\ entries (getStateObject a s).2 = entries s).
  { intros a. split; [apply get_revs|]. unfold getStateObject, getDeletedStateObject.
    destruct (stateObjects s !! a); [done|]. by destruct (accountAt a). }
  assert (Hobj : forall a f, on_object a f s = Ok s' -> revs s' = revs s /\ entries s' = entries s).
  { intros a f Ho. unfold on_object in Ho. pose proof (Hg a) as Hr. destruct (getStateObject a s) as [[x|] s1]; [|done].
    by injection Ho as <-. }
  destruct e; simpl; try apply Hobj; try (by intros [= <-]).
  - intros [= <-]. destruct (negb _ && _); done.
  - pose proof (Hg account) as Hr. destruct (getStateObject account s) as [[x|] s1]; by intros [= <-].
  - case_if; [done|]. by intros [= <-].
  - intros Ho. apply bind_ok in Ho as (al & _ & Ho). by injection Ho as <-.
Qed.

Lemma revertEntries_revs es s s' : revertEntries es s = Ok s' -> revs s' = revs s /\ entries s' = entries s.
Proof.
  revert s. induction es as [|e es IH]; intros s; [by intros [= <-]|]. rewrite revertEntries_cons. intros Ho.
  apply bind_ok in Ho as (s1 & H1 & H2). apply revertEntry_revs in H1 as [Hr1 He1]. apply IH in H2 as [Hr2 He2].
  assert (revs (undirty_of e s1) = revs s1 /\ entries (undirty_of e s1) = entries s1) as [E1 E2]
    by (unfold undirty_of; by destruct (dirtied e)).
  split; congruence.
Qed.

(** ** Runs with nested calls *)

(** A run performs operations and calls; a call takes a snapshot, runs its
    body, and is kept or reverted to the snapshot. *)
Inductive run : StateDB -> StateDB -> Prop :=
  | run_done s : run s s
  | run_op o s s1 s2 : do_op o s = Ok s1 -> run s1 s2 -> run s s2
  | run_call (reverted : bool) s s1 s2 s3 :
      run (Snapshot s).2 s1 ->
      (if reverted then RevertToSnapshot (Snapshot s).1 s1 else Ok s1) = Ok s2 ->
      run s2 s3 -> run s s3.

Lemma snapshot_good s : valid s -> good s (Snapshot s).2.
Proof.
  intros [Hw Hwr]. split.
  - apply undoes_same; [done|by apply frame_equiv|]. destruct Hw as [Ha Hd Hr]. split; [done|done|].
    intros id k. simpl. rewrite elem_of_app. intros [Hin|Hin].
    + destruct (Hr id k Hin). lia.
    + apply list_elem_of_singleton in Hin. simplify_eq. lia.
  - split; [|by eapply wf_rest_eq, Hwr]. destruct Hw as [Ha Hd Hr]. split; [done|done|].
    intros id k. simpl. rewrite elem_of_app. intros [Hin|Hin].
    + destruct (Hr id k Hin). lia.
    + apply list_elem_of_singleton in Hin. simplify_eq. lia.
Qed.

(** The revision of a snapshot is found below the later ones. *)
Lemma find_revision (rs extra : list (Z * nat)) id k :
  (forall r, r ∈ rs -> r.1 < id) ->
  list_find (fun r => id <= r.1) (rs ++ (id, k) :: extra) = Some (length rs, (id, k)).
Proof.
  intros Hrs. apply list_find_Some. split_and!.
  - by apply list_lookup_middle.
  - simpl. lia.
  - intros j y Hj Hlt. rewrite lookup_app_l in Hj by done.
    assert (y.1 < id) by (apply Hrs, list_elem_of_lookup; eauto). lia.
Qed.

Lemma revert_good s s1 extra r :
  valid s -> good (Snapshot s).2 s1 -> validRevisions s1 = validRevisions (Snapshot s).2 ++ extra ->
  RevertToSnapshot (Snapshot s).1 s1 = Ok r ->
  good s r /\ state_equiv r s /\ entries r = entries s /\ validRevisions r = validRevisions s /\
  nextRevisionId r = nextRevisionId s1.
Proof.
  intros Hv [(es & He & _ & Hw1 & r0 & Hrun & Heq & Hwr0) _] Hrev Hto.
  unfold RevertToSnapshot in Hto. simpl in Hrev. rewrite Hrev, <- app_assoc in Hto. simpl in Hto.
  rewrite find_revision in Hto.
  2: { intros [id k] Hin. apply (wf_revisions _ (proj1 Hv)) in Hin. simpl. lia. }
  rewrite Z.eqb_refl in Hto. apply bind_ok in Hto as (s2 & Hj & Hs2). injection Hs2 as <-.
  unfold journal_revert in Hj. simpl in He. rewrite He in Hj.
  destruct (_ <? _)%nat eqn:El in Hj; [done|]. rewrite drop_app_length, Hrun in Hj. simpl in Hj. injection Hj as <-.
  apply revertEntries_revs in Hrun as [Hrr Her].
  assert (Hvr0 : validRevisions r0 = validRevisions s1) by (by injection Hrr).
  cbn [validRevisions set_entries]. rewrite Hvr0, Hrev, <- app_assoc, !take_app_length.
  set (s2 := set_validRevisions _ _).
  assert (Hequiv : state_equiv s2 s).
  { etrans; [by apply (frame_equiv r0)|]. etrans; [exact Heq|]. by apply frame_equiv. }
  assert (Hws : wf s2).
  { destruct Hwr0 as [Ha Hd Hr]. split; [done|done|]. intros id k. simpl. intros Hin.
    apply (wf_revisions _ (proj1 Hv)) in Hin. simpl. split; [|tauto].
    assert (nextRevisionId r0 = nextRevisionId s1) as -> by (by injection Hrr).
    destruct Hin as [Hlt _]. destruct (wf_revisions _ Hw1 (nextRevisionId s) (length (entries s))) as [Hlt' _]; [|lia].
    rewrite Hrev. set_solver. }
  split_and!; [|done|done|done|by injection Hrr].
  split; [by apply undoes_same|]. split; [done|]. eapply wf_rest_rest, Hv. apply Hequiv.
Qed.

(** The run leaves journal entries that undo it and keeps the revisions below it. *)
Lemma run_good s s' : run s s' -> valid s ->
  good s s' /\ exists extra, validRevisions s' = validRevisions s ++ extra.
Proof.
  induction 1 as [s|o s s1 s2 Hop Hrun IH|reverted s s1 s2 s3 Hrun1 IH1 Hto Hrun2 IH2]; intros Hv.
  - split; [split; [apply undoes_refl, Hv|done]|]. exists []. by rewrite app_nil_r.
  - pose proof (do_op_good _ _ _ Hv Hop) as Hg. destruct (IH (proj2 Hg)) as [Hg2 [extra He]].
    split; [by eapply good_trans|]. exists extra. rewrite He. apply do_op_revs in Hop. by injection Hop as -> _.
  - pose proof (snapshot_good s Hv) as Hs. destruct (IH1 (proj2 Hs)) as [Hg1 [extra1 He1]].
    assert (H2 : good s s2 /\ exists extra, validRevisions s2 = validRevisions s ++ extra).
    { destruct reverted.
      - destruct (revert_good s s1 extra1 s2 Hv Hg1 He1 Hto) as (Hg & _ & _ & Hvr & _).
        split; [done|]. exists []. by rewrite app_nil_r.
      - injection Hto as <-. split; [by eapply good_trans|]. rewrite He1. simpl. rewrite <- app_assoc. eauto. }
    destruct H2 as [Hg2 [extra2 He2]]. destruct (IH2 (proj2 Hg2)) as [Hg3 [extra3 He3]].
    split; [by eapply good_trans|]. exists (extra2 ++ extra3). by rewrite He3, He2, app_assoc.
Qed.

(** The revision taken before a run can be reverted to after it. *)
Lemma revert_succeeds s s1 extra :
  valid s -> good (Snapshot s).2 s1 -> validRevisions s1 = validRevisions (Snapshot s).2 ++ extra ->
  exists r, RevertToSnapshot (Snapshot s).1 s1 = Ok r.
Proof.
  intros Hv [(es & He & _ & Hw1 & r0 & Hrun & _) _] Hrev.
  unfold RevertToSnapshot. simpl in Hrev. rewrite Hrev, <- app_assoc. simpl.
  rewrite find_revision.
  2: { intros [id k] Hin. apply (wf_revisions _ (proj1 Hv)) in Hin. simpl. lia. }
  rewrite Z.eqb_refl. unfold journal_revert. simpl in He. rewrite He, length_app.
  replace (length (entries s) + length es <? length (entries s))%nat with false by (symmetry; apply Nat.ltb_ge; lia).
  rewrite drop_app_length, Hrun. simpl. eauto.
Qed.

(** ** Reads of equivalent states *)

Definition same_reads (s1 s2 : StateDB) : Prop :=
  (forall a, (GetBalance a s1).1 = (GetBalance a s2).1 /\ (GetNonce a s1).1 = (GetNonce a s2).1 /\
             (GetCodeHash a s1).1 = (GetCodeHash a s2).1 /\ (GetCode a s1).1 = (GetCode a s2).1 /\
             (Exist a s1).1 = (Exist a s2).1 /\ (Empty a s1).1 = (Empty a s2).1 /\
             (HasSuicided a s1).1 = (HasSuicided a s2).1) /\
  (forall a k, (GetState a k s1).1 = (GetState a k s2).1 /\ (GetCommittedState a k s1).1 = (GetCommittedState a k s2).1) /\
  refund s1 = refund s2 /\ logs s1 = logs s2 /\ logSize s1 = logSize s2 /\ preimages s1 = preimages s2 /\ acl s1 = acl s2.

Lemma obj_Code_val o : (obj_Code o).1 = code_val o.
Proof. unfold obj_Code, code_val. destruct (code o); [done|]. by destruct (_ =? _). Qed.

(** A storage read through the caches is the storage of the live object. *)
Lemma GetState_live a k s : wf s ->
  (GetState a k s).1 = match live s a with Some o => storage s o k | None => 0 end /\
  (GetCommittedState a k s).1 = match live s a with Some o => committed s o k | None => 0 end.
Proof.
  intros Hw. unfold GetState, GetCommittedState. destruct (getStateObject a s) as [x s1] eqn:E.
  destruct (get_spec s a x s1 Hw E) as (<- & Hl & Hx). destruct x as [x|]; [|done].
  destruct (Hx x eq_refl) as (Hin & _).
  assert (Hr : hasSnap s1 = hasSnap s /\ snapDestructs s1 = snapDestructs s)
    by (pose proof (loaded_rest _ _ Hl) as Hr; split; by injection Hr).
  split.
  - destruct (obj_GetState k x s1) as [v s2] eqn:Ev.
    destruct (getState_spec a x k s1 v s2 (loaded_wf _ _ Hl) Hin Ev) as [-> _]. apply storage_ext; apply Hr.
  - destruct (obj_GetCommittedState k x s1) as [v s2] eqn:Ev.
    destruct (getCommitted_spec a x k s1 v s2 (loaded_wf _ _ Hl) Hin Ev) as [-> _]. apply committed_ext; apply Hr.
Qed.

Lemma equiv_reads s1 s2 : state_equiv s1 s2 -> wf s1 -> wf s2 -> same_reads s1 s2.
Proof.
  intros He Hw1 Hw2. pose proof (equiv_rest _ _ He) as Hr. split_and!; try (by injection Hr).
  - intros a. pose proof (live_equiv s1 s2 a He) as Hl.
    unfold GetBalance, GetNonce, GetCodeHash, GetCode, Exist, Empty, HasSuicided.
    destruct (getStateObject a s1) as [x1 t1] eqn:E1, (getStateObject a s2) as [x2 t2] eqn:E2.
    destruct (get_spec s1 a x1 t1 Hw1 E1) as (Hx1 & _), (get_spec s2 a x2 t2 Hw2 E2) as (Hx2 & _).
    rewrite <- Hx1, <- Hx2 in Hl.
    destruct x1 as [x1|], x2 as [x2|]; try done.
    pose proof (obj_Code_val x1) as Hc1. pose proof (obj_Code_val x2) as Hc2.
    assert (Hd : data x1 = data x2 /\ code_val x1 = code_val x2 /\ suicided x1 = suicided x2).
    { pose proof (f_equal v_data Hl) as Hd. pose proof (f_equal v_code Hl). pose proof (f_equal v_suicided Hl). done. }
    destruct Hd as (Hd & Hc & Hs). unfold empty. rewrite Hd, Hs.
    destruct (obj_Code x1) as [c1 o1], (obj_Code x2) as [c2 o2]. simpl in *. subst. by rewrite Hc.
  - intros a k. destruct (GetState_live a k s1 Hw1) as [-> ->]. destruct (GetState_live a k s2 Hw2) as [-> ->].
    pose proof (live_equiv s1 s2 a He) as Hl.
    pose proof (equiv_stor _ _ He a k) as Hs. pose proof (equiv_comm _ _ He a k) as Hc. unfold stor, comm in *.
    unfold live in *. destruct (obj_at s1 a) as [o1|], (obj_at s2 a) as [o2|]; try done;
      try destruct (deleted o1); try destruct (deleted o2); done.
Qed.
End Ops.

(** C5: Reverting to a snapshot undoes everything since: after any run of
    reads, writes other than [Erase] (a governance action no call can reach) and
    nested calls, kept or reverted, [RevertToSnapshot] succeeds, and every read
    of the resulting state (balance, nonce, code, storage, committed storage,
    existence, suicide flags, refund, logs, preimages, access list) returns what
    it returned when the snapshot was taken; the journal and the revisions are
    those of that moment. *)
Theorem revert_restores `{Backend} s s' :
  valid s -> run (Snapshot s).2 s' ->
  exists r, RevertToSnapshot (Snapshot s).1 s' = Ok r /\ same_reads r s /\
    entries r = entries s /\ validRevisions r = validRevisions s /\ valid r.
Proof.
  intros Hv Hrun. pose proof (snapshot_good s Hv) as Hs.
  destruct (run_good _ _ Hrun (proj2 Hs)) as [Hg [extra He]].
  destruct (revert_succeeds s s' extra Hv Hg He) as [r Hr]. exists r.
  destruct (revert_good s s' extra r Hv Hg He Hr) as (Hg' & Heq & Hen & Hvr & _).
  split_and!; try done; [|apply Hg']. apply equiv_reads; [done|apply Hg'|apply Hv].
Qed.

(** A fresh state is valid. *)
Lemma New_valid snap : valid (New snap).
Proof.
  split; split; simpl; try done.
  - intros id k Hin. by apply not_elem_of_nil in Hin.
Qed.

(** One account, 11, with a balance, code and one storage slot. *)
Definition toyBackend : Backend := {|
  accountAt a := if a =? 11 then Some (mkAccount 1 100 5 77) else None;
  trieGet root k := if (root =? 5) && (k =? 1) then 42 else 0;
  snapStorage a k := if (a =? 11) && (k =? 1) then 42 else 0;
  ContractCode h := if h =? 77 then Some [Byte.x01] else None;
  Keccak256Hash c := 1000 + zlen c;
|}.

(** A write, a nested call that is kept, and one that is reverted. *)
Definition okState (r : res StateDB) : StateDB := match r with Ok s => s | _ => New true end.
Definition toyRun (ops : list op) (s : StateDB) : StateDB :=
  fold_left (fun s o => okState (do_op (H:=toyBackend) o s)) ops s.
Definition toyS1 : StateDB := toyRun [OSetState 11 1 43] (Snapshot (New true)).2.
Definition toyS2 : StateDB := toyRun [OSubBalance 11 30; OAddBalance 22 30] (Snapshot toyS1).2.
Definition toyS3 : StateDB := toyRun [OSuicide 11; OCreateAccount 22] (Snapshot toyS2).2.
Definition toyS4 : StateDB := okState (RevertToSnapshot (H:=toyBackend) (Snapshot toyS2).1 toyS3).

Lemma toy_run : run (H:=toyBackend) (Snapshot (New true)).2 toyS4.
Proof.
  eapply (run_op (OSetState 11 1 43) _ toyS1); [vm_compute; reflexivity|].
  eapply (run_call false toyS1 toyS2 toyS2); [|reflexivity|].
  { eapply (run_op (OSubBalance 11 30)); [vm_compute; reflexivity|].
    eapply (run_op (OAddBalance 22 30) _ toyS2); [vm_compute; reflexivity|]. apply run_done. }
  eapply (run_call true toyS2 toyS3 toyS4); [|vm_compute; reflexivity|apply run_done].
  eapply (run_op (OSuicide 11)); [vm_compute; reflexivity|].
  eapply (run_op (OCreateAccount 22) _ toyS3); [vm_compute; reflexivity|]. apply run_done.
Qed.

Lemma revert_restores_witness :
  (GetBalance (H:=toyBackend) 22 toyS4).1 = 30 /\ (GetState (H:=toyBackend) 11 1 toyS4).1 = 43 /\
  exists r, RevertToSnapshot (H:=toyBackend) 0 toyS4 = Ok r /\ same_reads (H:=toyBackend) r (New true) /\
    entries r = [] /\ validRevisions r = [] /\ valid r.
Proof.
  split; [vm_compute; reflexivity|]. split; [vm_compute; reflexivity|].
  apply (revert_restores (H:=toyBackend) (New true) toyS4 (New_valid true)). apply toy_run.
Defined.

(** ** Erasing an account

    [Erase] is documented to set the code and the storage root to empty.  The
    code is gone; what storage reads return depends on the snapshot layer. *)

(** After a governance [Erase] the account has no code and keeps its
    balance and nonce.  With a snapshot layer every storage slot still reads as
    before the erasure; without one, slots that were not loaded read from the
    empty trie. *)
Theorem erase_storage `{Backend} a s o :
  valid s -> live s a = Some o ->
  let s' := (Erase a s).2 in
  (Erase a s).1 = true /\
  (GetCode a s').1 = [] /\ (GetBalance a s').1 = Balance (data o) /\ (GetNonce a s').1 = Nonce (data o) /\
  (forall k, (GetState a k s').1 =
     if hasSnap s then (GetState a k s).1
     else match dirtyStorage o !! k, pendingStorage o !! k, originStorage o !! k with
          | Some v, _, _ => v
          | _, Some v, _ => v
          | _, _, Some v => v
          | None, None, None => trieGet emptyRoot k
          end).
Proof.
  intros [Hw Hwr] Hl s'. destruct (getStateObject a s) as [x s1] eqn:E.
  destruct (get_spec s a x s1 Hw E) as (Hx & Hld & Hin). rewrite Hl in Hx. subst x.
  destruct (Hin o eq_refl) as (Hin1 & Ha & _ & Hd).
  destruct (obj_Code o) as [prevcode o1] eqn:Ec.
  assert (Hsame : data o1 = data o /\ address o1 = a /\ deleted o1 = false /\ dirtyStorage o1 = dirtyStorage o /\
     pendingStorage o1 = pendingStorage o /\ originStorage o1 = originStorage o).
  { unfold obj_Code in Ec. destruct (code o); [by simplify_eq|]. destruct (_ =? _); by simplify_eq/=. }
  destruct Hsame as (Hda & Haa & Hdd & Hds & Hps & Hos).
  set (o2 := obj_dirtyCode true (obj_trie None (obj_data (data_Root emptyRoot (data_CodeHash emptyCodeHash (data o1))) (obj_code (Some []) o1)))).
  assert (Hs' : s' = setStateObject o2 (journal_append (eraseChange a prevcode (CodeHash (data o1)) (ARoot (data o1))) s1) /\
                (Erase a s).1 = true).
  { subst s'. unfold Erase. rewrite E, Ec. done. }
  destruct Hs' as [Hs' Htrue].
  assert (Hobj : stateObjects s' !! a = Some o2) by (rewrite Hs'; simpl; rewrite Haa; apply lookup_insert_eq).
  assert (Hget : getStateObject a s' = (Some o2, s')).
  { unfold getStateObject, getDeletedStateObject. rewrite Hobj. simpl. by rewrite Hdd. }
  assert (Hw' : wf s') by (rewrite Hs'; apply wf_set, append_wf, Hld).
  split_and!; [done|unfold GetCode; by rewrite Hget|unfold GetBalance; rewrite Hget; simpl; by rewrite Hda
              |unfold GetNonce; rewrite Hget; simpl; by rewrite Hda|].
  intros k. rewrite (proj1 (GetState_live a k s' Hw')), (proj1 (GetState_live a k s Hw)), Hl.
  unfold live. replace (obj_at s' a) with (Some o2) by (symmetry; unfold obj_at; by rewrite Hobj).
  change (deleted o2) with (deleted o1). rewrite Hdd.
  assert (Hr : hasSnap s' = hasSnap s /\ snapDestructs s' = snapDestructs s).
  { pose proof (loaded_rest _ _ Hld) as Hr. rewrite Hs'. simpl. split; by injection Hr. }
  destruct Hr as [Hh Hsd]. unfold storage, committed. rewrite Hh, Hsd.
  change (dirtyStorage o2) with (dirtyStorage o1). change (pendingStorage o2) with (pendingStorage o1).
  change (originStorage o2) with (originStorage o1). change (address o2) with (address o1).
  rewrite Hds, Hps, Hos, Haa, <- Ha.
  destruct (dirtyStorage o !! k), (pendingStorage o !! k), (originStorage o !! k), (hasSnap s); done.
Qed.

Lemma erase_storage_witness :
  let s' := (Erase (H:=toyBackend) 11 (New true)).2 in
  (Erase (H:=toyBackend) 11 (New true)).1 = true /\
  (GetCode (H:=toyBackend) 11 s').1 = [] /\ (GetBalance (H:=toyBackend) 11 s').1 = 100 /\
  (GetNonce (H:=toyBackend) 11 s').1 = 1 /\
  (forall k, (GetState (H:=toyBackend) 11 k s').1 = (GetState (H:=toyBackend) 11 k (New true)).1).
Proof.
  apply (erase_storage (H:=toyBackend) 11 (New true) (newObject 11 (mkAccount 1 100 5 77))).
  - apply New_valid.
  - reflexivity.
Defined.

(** Without a snapshot layer the revert of an erasure undoes it only if nobody
    looked: a slot read after the erasure is remembered as empty and stays so.
    Slot 1 of the account holds 42. *)
Definition erasedRead (reads : list op) : Z * res Z :=
  let s := (Snapshot (New false)).2 in
  let s' := toyRun reads (Erase (H:=toyBackend) 11 s).2 in
  ((GetState (H:=toyBackend) 11 1 s).1, r ← RevertToSnapshot (H:=toyBackend) 0 s'; Ok (GetState (H:=toyBackend) 11 1 r).1).

Example erase_undone : erasedRead [] = (42, Ok 42).
Proof. vm_compute. reflexivity. Qed.
Example erase_not_undone : erasedRead [OGetState 11 1] = (42, Ok 0).
Proof. vm_compute. reflexivity. Qed.
