(* ===== verification/JournalFacts.v ===== *)
(** * The book-keeping of the journal

    The dirty counts follow the entries: what is appended is counted, what is
    reverted is counted off; an account with unsettled changes is loaded. *)

From S2P Require Import Prelude StateDB StateFacts StateRevert.

Definition dirty_by (m : gmap Address Z) (e : journalEntry) : gmap Address Z :=
  match dirtied e with Some a => <[a := default 0 (m !! a) + 1]> m | None => m end.
Definition undirty_by (m : gmap Address Z) (e : journalEntry) : gmap Address Z :=
  match dirtied e with
  | Some a => let n := default 0 (m !! a) - 1 in if n =? 0 then delete a m else <[a := n]> m
  | None => m
  end.

Definition positive (m : gmap Address Z) : Prop := forall a n, m !! a = Some n -> 0 < n.

Lemma positive_default m a : positive m -> 0 <= default 0 (m !! a).
Proof. intros Hm. destruct (m !! a) as [n|] eqn:E; simpl; [|lia]. apply Hm in E. lia. Qed.

Lemma dirty_positive m e : positive m -> positive (dirty_by m e).
Proof.
  intros Hm. unfold dirty_by. destruct (dirtied e) as [a|]; [|done]. intros b n.
  rewrite lookup_insert_Some. intros [[<- <-]|[_ Hb]]; [|by eapply Hm].
  pose proof (positive_default m a Hm). lia.
Qed.

Lemma undirty_dirty m e : positive m -> undirty_by (dirty_by m e) e = m.
Proof.
  intros Hm. unfold undirty_by, dirty_by. destruct (dirtied e) as [a|]; [|done].
  rewrite lookup_insert_eq. simpl. pose proof (positive_default m a Hm) as Hp.
  replace (default 0 (m !! a) + 1 - 1) with (default 0 (m !! a)) by lia.
  destruct (m !! a) as [n|] eqn:E; simpl in *.
  - apply Hm in E as Hn. replace (n =? 0) with false by (symmetry; apply Z.eqb_neq; lia).
    rewrite insert_insert_eq. by apply insert_id.
  - rewrite delete_insert_eq. by apply delete_id.
Qed.

Lemma undirty_all m es : positive m ->
  positive (foldl dirty_by m es) /\ foldl undirty_by (foldl dirty_by m es) (reverse es) = m.
Proof.
  intros Hm. induction es as [|e es [IH1 IH2]] using rev_ind; [done|].
  rewrite foldl_app, reverse_app. simpl. split; [by apply dirty_positive|].
  by rewrite undirty_dirty.
Qed.

Section Book.
Context `{Backend}.

(** Counts are positive, and an account counted dirty is loaded, unless the
    database has none. *)
Record jok (s : StateDB) : Prop := {
  jok_positive : positive (dirties s);
  jok_loaded : forall a, is_Some (dirties s !! a) -> accountAt a = None \/ is_Some (stateObjects s !! a);
  jok_refund : 0 <= refund s;
}.

(** [s'] is [s] with the changes [es] journaled; objects are only added. *)
Record journals (s s' : StateDB) (es : list journalEntry) : Prop := {
  journals_entries : entries s' = entries s ++ es;
  journals_dirties : dirties s' = foldl dirty_by (dirties s) es;
  journals_objects : forall a, is_Some (stateObjects s !! a) -> is_Some (stateObjects s' !! a);
  journals_loaded : forall e a, e ∈ es -> dirtied e = Some a -> accountAt a = None \/ is_Some (stateObjects s' !! a);
  journals_created : forall a, createObjectChange a ∈ es -> accountAt a = None;
  journals_refund : refund s' = refund s;
}.

Lemma journals_nil s s' :
  refund s' = refund s -> entries s' = entries s -> dirties s' = dirties s ->
  (forall a, is_Some (stateObjects s !! a) -> is_Some (stateObjects s' !! a)) -> journals s s' [].
Proof.
  intros Hf He Hd Ho. split; [by rewrite app_nil_r|done|done| | |done].
  - intros e a Hin. by apply not_elem_of_nil in Hin.
  - intros a Hin. by apply not_elem_of_nil in Hin.
Qed.

Lemma journals_one s s' e :
  refund s' = refund s -> entries s' = entries s ++ [e] -> dirties s' = dirty_by (dirties s) e ->
  (forall a, is_Some (stateObjects s !! a) -> is_Some (stateObjects s' !! a)) ->
  (forall a, dirtied e = Some a -> accountAt a = None \/ is_Some (stateObjects s' !! a)) ->
  (forall a, e = createObjectChange a -> accountAt a = None) -> journals s s' [e].
Proof.
  intros Hf He Hd Ho Hl Hc. split; [done..| | |done].
  - intros x a Hin. apply list_elem_of_singleton in Hin as ->. auto.
  - intros a Hin. apply list_elem_of_singleton in Hin. by apply Hc.
Qed.

Lemma journals_trans s1 s2 s3 es1 es2 : journals s1 s2 es1 -> journals s2 s3 es2 -> journals s1 s3 (es1 ++ es2).
Proof.
  intros [E1 D1 O1 L1 C1 F1] [E2 D2 O2 L2 C2 F2]. split; [| | | | |congruence].
  - by rewrite E2, E1, app_assoc.
  - by rewrite D2, D1, foldl_app.
  - auto.
  - intros e a Hin Hd. apply elem_of_app in Hin as [Hin|Hin]; [|by eapply L2].
    destruct (L1 e a Hin Hd); auto.
  - intros a Hin. apply elem_of_app in Hin as [Hin|Hin]; auto.
Qed.

Lemma dirtied_by_entries m es a : is_Some (foldl dirty_by m es !! a) -> is_Some (m !! a) \/ exists e, e ∈ es /\ dirtied e = Some a.
Proof.
  induction es as [|e es IH] using rev_ind; [by left|]. rewrite foldl_app. simpl. intros Hs.
  unfold dirty_by in Hs. destruct (dirtied e) as [b|] eqn:Ed.
  - rewrite lookup_insert in Hs. case_decide as Hb; [subst b; right; exists e; set_solver|].
    destruct (IH Hs) as [?|(x & Hx & Hxa)]; [by left|right; exists x; set_solver].
  - destruct (IH Hs) as [?|(x & Hx & Hxa)]; [by left|right; exists x; set_solver].
Qed.

Lemma journals_jok s s' es : journals s s' es -> jok s -> jok s'.
Proof.
  intros [He Hd Ho Hl _ Hf] [Hp Hj Hr]. split; [| |by rewrite Hf].
  - rewrite Hd. by apply undirty_all.
  - intros a Ha. rewrite Hd in Ha. apply dirtied_by_entries in Ha as [Ha|(e & Hin & Hda)]; [|by eapply Hl].
    destruct (Hj a Ha); auto.
Qed.

(** ** The writes *)

Lemma setState_keeps o s a : is_Some (stateObjects s !! a) -> is_Some (stateObjects (setStateObject o s) !! a).
Proof. simpl. rewrite lookup_insert. by case_decide. Qed.

Lemma append_fields e s : entries (journal_append e s) = entries s ++ [e] /\
  dirties (journal_append e s) = dirty_by (dirties s) e /\ stateObjects (journal_append e s) = stateObjects s.
Proof. unfold journal_append, dirty_by, journal_dirty. by destruct (dirtied e). Qed.

Lemma append_refund e s : refund (journal_append e s) = refund s.
Proof. unfold journal_append, journal_dirty. by destruct (dirtied e). Qed.

Lemma getDeleted_journals a s : journals s (getDeletedStateObject a s).2 [].
Proof.
  unfold getDeletedStateObject. destruct (stateObjects s !! a); [by apply journals_nil|].
  destruct (accountAt a) eqn:E; [|by apply journals_nil].
  apply journals_nil; [done..|]. intros b. apply setState_keeps.
Qed.

Lemma get_journals a s : journals s (getStateObject a s).2 [].
Proof.
  unfold getStateObject. pose proof (getDeleted_journals a s) as Hj. by destruct (getDeletedStateObject a s).
Qed.

Lemma createObject_journals a s o prev s' : createObject a s = (o, prev, s') -> exists es, journals s s' es.
Proof.
  unfold createObject. pose proof (getDeleted_journals a s) as Hj.
  destruct (getDeletedStateObject a s) as [p s1] eqn:E. simpl in Hj. destruct p as [p|]; intros Hc; simplify_eq.
  - exists ([] ++ [resetObjectChange p (hasSnap s1 && bool_decide (a ∈ snapDestructs s1))]).
    eapply journals_trans; [done|]. apply journals_one; [..|done|done].
    + simpl. by destruct (hasSnap s1 && negb _).
    + simpl. by destruct (hasSnap s1 && negb _).
    + simpl. by destruct (hasSnap s1 && negb _).
    + intros b Hb. apply setState_keeps. simpl. by destruct (hasSnap s1 && negb _).
  - exists ([] ++ [createObjectChange a]). eapply journals_trans; [done|].
    assert (Hnone : accountAt a = None).
    { unfold getDeletedStateObject in E. destruct (stateObjects s !! a); [done|]. by destruct (accountAt a). }
    apply journals_one; [done|done|done| | |].
    + intros b Hb. apply setState_keeps. by rewrite (proj2 (proj2 (append_fields (createObjectChange a) s1))).
    + intros b [= <-]. by left.
    + by intros b [= <-].
Qed.

Lemma getOrNew_journals a s o s' : valid s -> GetOrNewStateObject a s = (o, s') ->
  (exists es, journals s s' es) /\ is_Some (stateObjects s' !! a) /\ address o = a.
Proof.
  intros Hv Hg. destruct (good_getOrNew a s o s' Hv Hg) as (_ & Hin & _ & Ha). split; [|by rewrite Hin].
  unfold GetOrNewStateObject in Hg. pose proof (get_journals a s) as Hj.
  destruct (getStateObject a s) as [[x|] s1]; simpl in Hj; [simplify_eq; by exists []|].
  destruct (createObject a s1) as [[y prev] s2] eqn:Ec. simplify_eq.
  destruct (createObject_journals _ _ _ _ _ Ec) as [es Hes]. exists ([] ++ es). by eapply journals_trans.
Qed.

Lemma change_journals e o s a :
  dirtied e = Some a -> is_Some (stateObjects s !! a) -> (forall b, e <> createObjectChange b) ->
  journals s (setStateObject o (journal_append e s)) [e].
Proof.
  intros He Ha Hc. destruct (append_fields e s) as (H1 & H2 & H3).
  assert (Ho : forall b, is_Some (stateObjects s !! b) -> is_Some (stateObjects (setStateObject o (journal_append e s)) !! b)).
  { intros b Hb. apply setState_keeps. by rewrite H3. }
  apply journals_one; [simpl; apply append_refund|done|done|done| |].
  - intros b Hb. rewrite He in Hb. injection Hb as <-. auto.
  - intros b Hb. by apply Hc in Hb.
Qed.

Lemma touch_journals o s : address o <> ripemd -> is_Some (stateObjects s !! address o) ->
  journals s (touch o s) [touchChange (address o)].
Proof.
  intros Hr Ho. unfold touch. destruct (address o =? ripemd) eqn:E; bool_Z; [done|].
  destruct (append_fields (touchChange (address o)) s) as (H1 & H2 & H3).
  apply journals_one; [apply append_refund|done|done|by rewrite H3| |done]. intros b [= <-]. right. by rewrite H3.
Qed.

(** Touching the excepted precompile adds to its count once more. *)
Lemma touch_jok o s : jok s -> is_Some (stateObjects s !! address o) -> jok (touch o s).
Proof.
  intros Hj Ho. destruct (decide (address o = ripemd)) as [Hr|Hr].
  - assert (H1 : jok (journal_append (touchChange (address o)) s)).
    { destruct (append_fields (touchChange (address o)) s) as (H1 & H2 & H3).
      eapply journals_jok; [|done]. apply journals_one; [apply append_refund|done|done|by rewrite H3| |done]. intros b [= <-]. right. by rewrite H3. }
    unfold touch. rewrite (proj2 (Z.eqb_eq _ _) Hr). destruct H1 as [Hp Hl Hrf]. split; [| |done].
    + intros b n. simpl. rewrite lookup_insert_Some. intros [[<- <-]|[_ Hb]]; [|by eapply Hp].
      pose proof (positive_default _ (address o) Hp) as Hd. simpl in Hd. lia.
    + intros b. simpl. rewrite lookup_insert. case_decide as Hb; [subst b; auto|]. apply Hl.
  - eapply journals_jok; [by apply touch_journals|done].
Qed.

(** The balance changes, as one shape. *)
Lemma balance_jok a x s (k : Z -> Z) : valid s -> jok s ->
  jok (let '(o, s1) := GetOrNewStateObject a s in
       if x =? 0 then (if empty o then touch o s1 else s1) else obj_SetBalance (k (Balance (data o))) o s1).
Proof.
  intros Hv Hj. destruct (GetOrNewStateObject a s) as [o s1] eqn:E.
  destruct (getOrNew_journals a s o s1 Hv E) as ([es Hes] & Hin & Ha). pose proof (journals_jok _ _ _ Hes Hj) as Hj1.
  case_if; [case_if; [|done]; apply touch_jok; [done|by rewrite Ha]|].
  unfold obj_SetBalance. rewrite Ha. eapply journals_jok; [by eapply change_journals|done].
Qed.

Lemma balance_journals a x s (k : Z -> Z) : valid s -> a <> ripemd ->
  exists es, journals s (let '(o, s1) := GetOrNewStateObject a s in
       if x =? 0 then (if empty o then touch o s1 else s1) else obj_SetBalance (k (Balance (data o))) o s1) es.
Proof.
  intros Hv Hr. destruct (GetOrNewStateObject a s) as [o s1] eqn:E.
  destruct (getOrNew_journals a s o s1 Hv E) as ([es Hes] & Hin & Ha).
  case_if; [case_if; [|by exists es]; exists (es ++ [touchChange (address o)]); eapply journals_trans;
    [done|apply touch_journals; by rewrite Ha]|].
  exists (es ++ [balanceChange (address o) (Balance (data o))]). eapply journals_trans; [done|].
  unfold obj_SetBalance. rewrite Ha. by eapply change_journals.
Qed.

Lemma SetNonce_jok a n s : valid s -> jok s -> jok (SetNonce a n s).
Proof.
  intros Hv Hj. unfold SetNonce. destruct (GetOrNewStateObject a s) as [o s1] eqn:E.
  destruct (getOrNew_journals a s o s1 Hv E) as ([es Hes] & Hin & _). pose proof (journals_jok _ _ _ Hes Hj) as Hj1.
  eapply journals_jok; [by eapply change_journals|done].
Qed.

Lemma SetBalance_jok a x s : valid s -> jok s -> jok (SetBalance a x s).
Proof.
  intros Hv Hj. unfold SetBalance. destruct (GetOrNewStateObject a s) as [o s1] eqn:E.
  destruct (getOrNew_journals a s o s1 Hv E) as ([es Hes] & Hin & Ha). pose proof (journals_jok _ _ _ Hes Hj) as Hj1.
  unfold obj_SetBalance. rewrite Ha. eapply journals_jok; [by eapply change_journals|done].
Qed.

Lemma New_jok snap : jok (New snap).
Proof. split; [intros a n; simpl; by rewrite lookup_empty|intros a; simpl; rewrite lookup_empty; by intros []|done]. Qed.
End Book.
