(* ===== verification/StateAlike.v ===== *)
(** * States no run can tell apart

    The relation between the state a failed transaction left, once reverted, and
    the state before it: every account shows the same, the rest and the dirty
    counts are equal.  Unlike [state_equiv] it is kept by the writes and by the
    end of a transaction, which is what a block needs. *)

From S2P Require Import Prelude StateDB StateFacts StateRevert JournalFacts.

Section Alike.
Context `{Backend}.

(** Whether an account shows an object that is not deleted. *)
Definition shown (v : option objview) : Prop := exists x, v = Some x /\ v_deleted x = false.

Record alike (s1 s2 : StateDB) : Prop := {
  alike_view : forall a, view s1 a = view s2 a;
  alike_stor : forall a k, shown (view s1 a) -> stor s1 a k = stor s2 a k;
  alike_comm : forall a k, shown (view s1 a) -> comm s1 a k = comm s2 a k;
  alike_rest : rest s1 = rest s2;
  alike_dirties : dirties s1 = dirties s2;
  alike_entries : length (entries s1) = length (entries s2);
}.

#[export] Instance alike_equivalence : Equivalence alike.
Proof.
  split.
  - intros s. by split.
  - intros s1 s2 [E1 E2 E3 E4 E5 E6]. split; [done| | |done..];
      intros a k Hs; symmetry; [apply E2|apply E3]; by rewrite E1.
  - intros s1 s2 s3 [E1 E2 E3 E4 E5 E6] [K1 K2 K3 K4 K5 K6]. split; [| | |congruence..].
    + intros a. by rewrite E1.
    + intros a k Hs. rewrite E2 by done. apply K2. by rewrite <- E1.
    + intros a k Hs. rewrite E3 by done. apply K3. by rewrite <- E1.
Qed.

Lemma equiv_alike s1 s2 : state_equiv s1 s2 -> dirties s1 = dirties s2 ->
  length (entries s1) = length (entries s2) -> alike s1 s2.
Proof. intros [E1 E2 E3 E4] Hd He. by split. Qed.

Lemma loaded_alike s t : loaded s t -> alike t s.
Proof.
  intros Hl. apply equiv_alike; [by apply loaded_equiv|apply Hl|]. by rewrite (loaded_entries _ _ Hl).
Qed.

Lemma alike_loaded s1 s2 t1 t2 : alike s1 s2 -> loaded s1 t1 -> loaded s2 t2 -> alike t1 t2.
Proof. intros Ha H1' H2'. by rewrite (loaded_alike _ _ H1'), (loaded_alike _ _ H2'). Qed.

Lemma alike_snap s1 s2 : alike s1 s2 -> hasSnap s1 = hasSnap s2 /\ snapDestructs s1 = snapDestructs s2.
Proof. intros Ha. pose proof (alike_rest _ _ Ha) as Hr. split; by injection Hr. Qed.

(** Objects of an account that show the same. *)
Record same_object (s1 s2 : StateDB) (o1 o2 : stateObject) : Prop := {
  same_address : address o1 = address o2;
  same_view : view_obj o1 = view_obj o2;
  same_storage : deleted o1 = false -> forall k, storage s1 o1 k = storage s2 o2 k /\ committed s1 o1 k = committed s2 o2 k;
}.

(** Every account of two such states shows the same object, or none. *)
Lemma alike_object s1 s2 a : alike s1 s2 -> wf s1 -> wf s2 ->
  match obj_at s1 a, obj_at s2 a with
  | Some o1, Some o2 => same_object s1 s2 o1 o2 /\ address o1 = a
  | None, None => True
  | _, _ => False
  end.
Proof.
  intros Ha Hw1 Hw2. pose proof (alike_view _ _ Ha a) as Hv. pose proof (alike_stor _ _ Ha a) as Hs.
  pose proof (alike_comm _ _ Ha a) as Hc. unfold view, stor, comm in *.
  destruct (obj_at s1 a) as [o1|] eqn:E1, (obj_at s2 a) as [o2|] eqn:E2; simpl in *; try done.
  apply (inj Some) in Hv. pose proof (obj_at_address _ _ _ Hw1 E1) as A1. pose proof (obj_at_address _ _ _ Hw2 E2) as A2.
  split; [|done]. split; [congruence|done|]. intros Hd k. split; [apply Hs|apply Hc]; by exists (view_obj o1).
Qed.

(** Storing such objects. *)
Lemma alike_put s1 s2 o1 o2 : alike s1 s2 -> same_object s1 s2 o1 o2 ->
  alike (setStateObject o1 s1) (setStateObject o2 s2).
Proof.
  intros [E1 E2 E3 E4 E5 E6] [Ha Hv Hs]. split; try done.
  - intros b. rewrite !view_set, Ha. case_decide; [by rewrite Hv|done].
  - intros b k. rewrite view_set, !stor_set, Ha. case_decide; [|apply E2].
    intros (x & Hx & Hd). injection Hx as <-. by apply Hs.
  - intros b k. rewrite view_set, !comm_set, Ha. case_decide; [|apply E3].
    intros (x & Hx & Hd). injection Hx as <-. by apply Hs.
Qed.

(** The same entries in both journals. *)
Lemma alike_append e1 e2 s1 s2 : alike s1 s2 -> dirtied e1 = dirtied e2 ->
  alike (journal_append e1 s1) (journal_append e2 s2).
Proof.
  intros Ha He. destruct (append_fields e1 s1) as (En1 & Ed1 & _), (append_fields e2 s2) as (En2 & Ed2 & _).
  destruct Ha as [E1 E2 E3 E4 E5 E6].
  destruct (append_equiv e1 s1) as [A1 A2 A3 A4], (append_equiv e2 s2) as [B1 B2 B3 B4].
  split; [intros a; by rewrite A1, B1|intros a k; rewrite A1, A2, B2; apply E2|intros a k; rewrite A1, A3, B3; apply E3
    |by rewrite A4, B4| |by rewrite En1, En2, !length_app, E6].
  rewrite Ed1, Ed2, E5. unfold dirty_by. by rewrite He.
Qed.

(** A change outside the objects and the journal. *)
Lemma alike_rest_change (f : StateDB -> StateDB) s1 s2 : alike s1 s2 ->
  (forall s, stateObjects (f s) = stateObjects s /\ hasSnap (f s) = hasSnap s /\ snapDestructs (f s) = snapDestructs s) ->
  dirties (f s1) = dirties (f s2) -> length (entries (f s1)) = length (entries (f s2)) ->
  rest (f s1) = rest (f s2) -> alike (f s1) (f s2).
Proof.
  intros [E1 E2 E3 E4 E5 E6] Hf Hd He Hr.
  assert (Hat : forall s a, obj_at (f s) a = obj_at s a) by (intros; unfold obj_at; by rewrite (proj1 (Hf s))).
  assert (Hv : forall s a, view (f s) a = view s a) by (intros; unfold view; by rewrite Hat).
  assert (Hs : forall s a k, stor (f s) a k = stor s a k).
  { intros. unfold stor. rewrite Hat. destruct (obj_at s a); [|done]. apply storage_ext; apply (Hf s). }
  assert (Hc : forall s a k, comm (f s) a k = comm s a k).
  { intros. unfold comm. rewrite Hat. destruct (obj_at s a); [|done]. apply committed_ext; apply (Hf s). }
  split; [intros a|intros a k|intros a k|done..]; rewrite !Hv, ?Hs, ?Hc; auto.
Qed.

(** Voiding the snapshot data of an account that shows nothing. *)
Lemma alike_destruct a s1 s2 : alike s1 s2 -> wf s1 -> wf s2 -> ~ shown (view s1 a) ->
  alike (set_snapDestructs ({[a]} ∪ snapDestructs s1) s1) (set_snapDestructs ({[a]} ∪ snapDestructs s2) s2).
Proof.
  intros Ha Hw1 Hw2 Hn. assert (Ha' := Ha). destruct Ha' as [E1 E2 E3 E4 E5 E6].
  assert (Hfr : forall s b k, wf s -> b <> a ->
    stor (set_snapDestructs ({[a]} ∪ snapDestructs s) s) b k = stor s b k /\
    comm (set_snapDestructs ({[a]} ∪ snapDestructs s) s) b k = comm s b k).
  { intros s b k Hw Hb. unfold stor, comm.
    change (obj_at (set_snapDestructs ({[a]} ∪ snapDestructs s) s) b) with (obj_at s b).
    destruct (obj_at s b) as [o|] eqn:Eo; [|done]. pose proof (obj_at_address _ _ _ Hw Eo).
    split; [apply storage_frame|apply committed_frame]; try done; simpl; set_solver. }
  split; try done.
  - intros b k Hs. assert (Hb : b <> a) by (intros ->; by apply Hn).
    rewrite (proj1 (Hfr s1 b k Hw1 Hb)), (proj1 (Hfr s2 b k Hw2 Hb)). by apply E2.
  - intros b k Hs. assert (Hb : b <> a) by (intros ->; by apply Hn).
    rewrite (proj2 (Hfr s1 b k Hw1 Hb)), (proj2 (Hfr s2 b k Hw2 Hb)). by apply E3.
  - unfold rest in *. injection E4 as ???????????. cbn. congruence.
Qed.

(** ** The writes *)

Lemma shown_live s a : shown (view s a) <-> is_Some (live s a).
Proof.
  unfold shown, view, live. destruct (obj_at s a) as [o|]; simpl.
  - destruct (deleted o) eqn:Ed; split; [|by intros [? ?]|by eexists|by exists (view_obj o)].
    intros (x & Hx & Hd). injection Hx as <-. simpl in Hd. congruence.
  - split; [by intros (? & ? & _)|by intros [? ?]].
Qed.

Lemma obj_at_in s a o : stateObjects s !! a = Some o -> obj_at s a = Some o.
Proof. unfold obj_at. by intros ->. Qed.

Lemma newObject_same s1 s2 a d : alike s1 s2 -> same_object s1 s2 (newObject a d) (newObject a d).
Proof.
  intros Ha. destruct (alike_snap _ _ Ha). split; [done..|]. intros _ k.
  split; [by apply storage_ext|by apply committed_ext].
Qed.

(** Creating the object of an account that shows none. *)
Lemma createObject_alike a s1 s2 : alike s1 s2 -> wf s1 -> wf s2 -> ~ shown (view s1 a) ->
  alike (createObject a s1).2 (createObject a s2).2.
Proof.
  intros Ha Hw1 Hw2 Hn. unfold createObject.
  destruct (getDeletedStateObject a s1) as [p1 t1] eqn:E1, (getDeletedStateObject a s2) as [p2 t2] eqn:E2.
  destruct (getDeleted_spec _ _ _ _ Hw1 E1) as (Hp1 & Hl1 & _), (getDeleted_spec _ _ _ _ Hw2 E2) as (Hp2 & Hl2 & _).
  pose proof (alike_object s1 s2 a Ha Hw1 Hw2) as Ho. rewrite <- Hp1, <- Hp2 in Ho.
  assert (Hn1 : ~ shown (view t1 a)) by (by rewrite (alike_view _ _ (loaded_alike _ _ Hl1))).
  assert (Ht := alike_loaded _ _ _ _ Ha Hl1 Hl2). destruct (alike_snap _ _ Ht) as [Hh Hd].
  destruct p1 as [p1|], p2 as [p2|]; try done; simpl.
  - rewrite <- Hh, <- Hd. set (pd := hasSnap t1 && bool_decide (a ∈ snapDestructs t1)).
    set (u1 := if hasSnap t1 && negb pd then set_snapDestructs ({[a]} ∪ snapDestructs t1) t1 else t1).
    set (u2 := if hasSnap t1 && negb pd then set_snapDestructs ({[a]} ∪ snapDestructs t1) t2 else t2).
    assert (Hu : alike u1 u2).
    { unfold u1, u2. destruct (hasSnap t1 && negb pd); [|done]. rewrite Hd at 2.
      apply alike_destruct; [done|apply Hl1|apply Hl2|done]. }
    apply alike_put; [by apply alike_append|]. apply newObject_same. by apply alike_append.
  - apply alike_put; [by apply alike_append|]. apply newObject_same. by apply alike_append.
Qed.

Lemma getOrNew_alike a s1 s2 o1 t1 o2 t2 : alike s1 s2 -> valid s1 -> valid s2 ->
  GetOrNewStateObject a s1 = (o1, t1) -> GetOrNewStateObject a s2 = (o2, t2) ->
  alike t1 t2 /\ same_object t1 t2 o1 o2.
Proof.
  intros Ha Hv1 Hv2 E1 E2.
  destruct (good_getOrNew _ _ _ _ Hv1 E1) as ([_ Hw1] & Hin1 & _), (good_getOrNew _ _ _ _ Hv2 E2) as ([_ Hw2] & Hin2 & _).
  assert (Ht : alike t1 t2).
  { unfold GetOrNewStateObject in E1, E2.
    destruct (getStateObject a s1) as [x1 u1] eqn:G1, (getStateObject a s2) as [x2 u2] eqn:G2.
    destruct (get_spec _ _ _ _ (proj1 Hv1) G1) as (Hx1 & Hl1 & _), (get_spec _ _ _ _ (proj1 Hv2) G2) as (Hx2 & Hl2 & _).
    assert (Hu := alike_loaded _ _ _ _ Ha Hl1 Hl2).
    assert (Hlive : is_Some x1 <-> is_Some x2).
    { rewrite Hx1, Hx2, <- !shown_live. by rewrite (alike_view _ _ Ha a). }
    destruct x1 as [x1|], x2 as [x2|].
    - by injection E1 as _ <-; injection E2 as _ <-.
    - by destruct (proj1 Hlive ltac:(done)).
    - by destruct (proj2 Hlive ltac:(done)).
    - pose proof (createObject_alike a u1 u2 Hu (loaded_wf _ _ Hl1) (loaded_wf _ _ Hl2)) as Hc.
      destruct (createObject a u1) as [[? ?] ?], (createObject a u2) as [[? ?] ?].
      injection E1 as _ <-. injection E2 as _ <-. apply Hc.
      rewrite (alike_view _ _ (loaded_alike _ _ Hl1)), shown_live, <- Hx1. by intros []. }
  split; [done|]. pose proof (alike_object t1 t2 a Ht (proj1 Hw1) (proj1 Hw2)) as Ho.
  rewrite (obj_at_in _ _ _ Hin1), (obj_at_in _ _ _ Hin2) in Ho. apply Ho.
Qed.

(** A journalled change of an object. *)
Lemma change_alike f g h e1 e2 s1 s2 o1 o2 : acts f g h -> alike s1 s2 -> same_object s1 s2 o1 o2 ->
  (forall o, deleted (f o) = deleted o) -> dirtied e1 = dirtied e2 ->
  alike (setStateObject (f o1) (journal_append e1 s1)) (setStateObject (f o2) (journal_append e2 s2)).
Proof.
  intros Hf Ha [Had Hv Hs] Hdel He. apply alike_put; [by apply alike_append|].
  destruct (append_objects e1 s1) as [_ R1], (append_objects e2 s2) as [_ R2].
  assert (Hst : forall s e o k, rest (journal_append e s) = rest s ->
    storage (journal_append e s) o k = storage s o k /\ committed (journal_append e s) o k = committed s o k).
  { intros s e o k Hr. split; [apply storage_ext|apply committed_ext]; by injection Hr. }
  split; [by rewrite !(acts_address _ _ _ Hf)|by rewrite !(acts_view _ _ _ Hf), Hv|]. rewrite Hdel. intros Hd k.
  rewrite (proj1 (Hst s1 e1 _ k R1)), (proj1 (Hst s2 e2 _ k R2)), (proj2 (Hst s1 e1 _ k R1)), (proj2 (Hst s2 e2 _ k R2)).
  rewrite !(acts_storage _ _ _ Hf), !(acts_committed _ _ _ Hf). destruct (Hs Hd k) as [-> ->]. done.
Qed.

Lemma data_same s1 s2 o1 o2 : same_object s1 s2 o1 o2 -> data o1 = data o2.
Proof. intros [_ Hv _]. by apply (f_equal v_data) in Hv. Qed.

Lemma touch_alike o1 o2 s1 s2 : alike s1 s2 -> address o1 = address o2 -> alike (touch o1 s1) (touch o2 s2).
Proof.
  intros Ha Ho. unfold touch. rewrite Ho.
  assert (Ht := alike_append (touchChange (address o2)) (touchChange (address o2)) _ _ Ha eq_refl).
  case_if; [|done]. apply (alike_rest_change (journal_dirty (address o2))); try done.
  - unfold journal_dirty. cbn. by rewrite (alike_dirties _ _ Ha).
  - unfold journal_dirty. cbn. by rewrite !length_app, (alike_entries _ _ Ha).
  - apply (alike_rest _ _ Ht).
Qed.

Lemma balance_alike a x s1 s2 (k : Z -> Z) : alike s1 s2 -> valid s1 -> valid s2 ->
  let f s := let '(o, s) := GetOrNewStateObject a s in
       if x =? 0 then (if empty o then touch o s else s) else obj_SetBalance (k (Balance (data o))) o s in
  alike (f s1) (f s2).
Proof.
  intros Ha Hv1 Hv2 f. unfold f. clear f.
  destruct (GetOrNewStateObject a s1) as [o1 t1] eqn:E1, (GetOrNewStateObject a s2) as [o2 t2] eqn:E2.
  destruct (getOrNew_alike _ _ _ _ _ _ _ Ha Hv1 Hv2 E1 E2) as [Ht Ho].
  assert (Hd := data_same _ _ _ _ Ho). assert (Had := same_address _ _ _ _ Ho).
  unfold empty. rewrite Hd. case_if; [case_if; [by apply touch_alike|done]|].
  unfold obj_SetBalance. rewrite Hd, Had. eapply change_alike; [apply acts_setBalance|done..].
Qed.

Lemma SetNonce_alike a n s1 s2 : alike s1 s2 -> valid s1 -> valid s2 -> alike (SetNonce a n s1) (SetNonce a n s2).
Proof.
  intros Ha Hv1 Hv2. unfold SetNonce.
  destruct (GetOrNewStateObject a s1) as [o1 t1] eqn:E1, (GetOrNewStateObject a s2) as [o2 t2] eqn:E2.
  destruct (getOrNew_alike _ _ _ _ _ _ _ Ha Hv1 Hv2 E1 E2) as [Ht Ho].
  rewrite (data_same _ _ _ _ Ho). eapply change_alike; [apply acts_setNonce|done..].
Qed.

(** ** The end of a transaction *)

(** One account: dirty slots become pending, or the object is deleted. *)
Lemma obj_finalise_storage s o k :
  storage s (obj_finalise o) k = storage s o k /\ committed s (obj_finalise o) k = storage s o k.
Proof.
  assert (Hc : committed s (obj_finalise o) k = storage s o k).
  { unfold storage, committed at 1, obj_finalise. cbn. destruct (dirtyStorage o !! k) as [v|] eqn:Ed.
    - by rewrite (lookup_union_Some_l _ _ _ _ Ed).
    - rewrite lookup_union_r by done. reflexivity. }
  split; [|done]. unfold storage at 1, obj_finalise at 1. cbn. by rewrite lookup_empty.
Qed.

Definition finalised_fields (s s' : StateDB) : Prop :=
  refund s' = refund s /\ logs s' = logs s /\ acl s' = acl s /\ entries s' = entries s /\ dirties s' = dirties s /\
  validRevisions s' = validRevisions s /\ nextRevisionId s' = nextRevisionId s /\
  forall b, is_Some (stateObjects s' !! b) <-> is_Some (stateObjects s !! b).

Lemma finaliseOne_fields b a s : wf s -> finalised_fields s (finaliseOne b a s) /\ wf (finaliseOne b a s).
Proof.
  intros Hw. unfold finaliseOne. destruct (stateObjects s !! a) as [o|] eqn:Eo; [|by split].
  assert (Ha : address o = a) by (by eapply wf_address).
  set (t := if suicided o || _ then _ else _).
  assert (Ht : finalised_fields s t /\ wf t /\ is_Some (stateObjects t !! a) /\ stateObjectsDirty t = stateObjectsDirty s).
  { assert (Hin : forall c, is_Some (<[a := o]> (stateObjects s) !! c) <-> is_Some (stateObjects s !! c)) by (intros c; by rewrite insert_id).
    unfold t. destruct (suicided o || _); [destruct (hasSnap (setStateObject _ _))|];
      (split; [unfold finalised_fields; cbn; rewrite Ha; split_and!; try done; intros c; rewrite lookup_insert;
        case_decide; [subst c; rewrite Eo; split; eauto|done]|]);
      (split; [|split; [cbn; rewrite Ha, lookup_insert_eq; by eexists|done]]);
      try apply wf_set; try done.
    destruct (wf_set (obj_deleted true o) s Hw). by split. }
  destruct Ht as (Hf & [Hwa Hwd Hwr] & Hta & Htd). split; [exact Hf|]. split; [done| |done].
  cbn. apply elem_of_dom in Hta. set_solver.
Qed.

Lemma finaliseOne_alike b a s1 s2 : alike s1 s2 -> wf s1 -> wf s2 ->
  (is_Some (stateObjects s1 !! a) <-> is_Some (stateObjects s2 !! a)) ->
  alike (finaliseOne b a s1) (finaliseOne b a s2).
Proof.
  intros Ha Hw1 Hw2 Hin. unfold finaliseOne.
  destruct (stateObjects s1 !! a) as [o1|] eqn:E1, (stateObjects s2 !! a) as [o2|] eqn:E2;
    [|by destruct (proj1 Hin ltac:(done))|by destruct (proj2 Hin ltac:(done))|done].
  pose proof (alike_object s1 s2 a Ha Hw1 Hw2) as Ho. rewrite (obj_at_in _ _ _ E1), (obj_at_in _ _ _ E2) in Ho.
  destruct Ho as [Ho Hoa]. assert (Hd := data_same _ _ _ _ Ho). assert (Ho' := Ho). destruct Ho' as [Had Hv Hs].
  assert (Hsu : suicided o1 = suicided o2) by (by apply (f_equal v_suicided) in Hv).
  assert (Hde : deleted o1 = deleted o2) by (by apply (f_equal v_deleted) in Hv).
  unfold empty. rewrite Hsu, Hd.
  set (c := suicided o2 || _). clearbody c.
  set (t1 := if c then _ else _). set (t2 := if c then _ else _).
  assert (Ht : alike t1 t2).
  { unfold t1, t2. destruct c.
    - assert (Hp : alike (setStateObject (obj_deleted true o1) s1) (setStateObject (obj_deleted true o2) s2)).
      { apply alike_put; [done|]. split; [done| |done]. cbn. unfold view_obj in *. injection Hv as ?????. by f_equal. }
      destruct (alike_snap _ _ Hp) as [Hh _]. rewrite <- Hh. destruct (hasSnap _); [|done].
      apply alike_destruct; [done|by apply wf_set..|]. rewrite view_set. cbn. rewrite decide_True by done.
      intros (x & Hx & Hdx). by injection Hx as <-.
    - apply alike_put; [done|]. split; [done|exact Hv|]. cbn. intros Hdel k.
      destruct (obj_finalise_storage s1 o1 k) as [-> ->], (obj_finalise_storage s2 o2 k) as [-> ->].
      split; apply Hs; done. }
  apply (alike_rest_change (fun t => set_stateObjectsDirty ({[a]} ∪ stateObjectsDirty t)
    (set_stateObjectsPending ({[a]} ∪ stateObjectsPending t) t))); try done; try apply Ht.
  pose proof (alike_rest _ _ Ht) as Hr. unfold rest in *. injection Hr as ???????????. cbn. congruence.
Qed.

Lemma finaliseAll_fields b l s : wf s ->
  finalised_fields s (fold_right (finaliseOne b) s l) /\ wf (fold_right (finaliseOne b) s l).
Proof.
  intros Hw. induction l as [|a l [IHf IHw]]; [by split|]. simpl.
  destruct (finaliseOne_fields b a _ IHw) as [Hf Hw']. split; [|done].
  destruct Hf as (F1 & F2 & F3 & F4 & F5 & F6 & F7 & F8), IHf as (G1 & G2 & G3 & G4 & G5 & G6 & G7 & G8).
  unfold finalised_fields. split_and!; [congruence..|]. intros c. by rewrite F8, G8.
Qed.

Lemma Finalise_ok b s : valid s -> jok s -> valid (Finalise b s) /\ jok (Finalise b s).
Proof.
  intros [Hw Hwr] [Hp Hl Hrf]. unfold Finalise. destruct (finaliseAll_fields b (map_to_list (dirties s)).*1 s Hw) as [Hf Hw'].
  destruct Hf as (F1 & F2 & F3 & F4 & F5 & F6 & F7 & F8). set (t := fold_right _ _ _) in *. clearbody t.
  unfold clearJournalAndRefund. destruct Hw' as [Ha Hd Hr], Hwr as [Hl1 Hi Hs1].
  assert (Hwt : wf_rest t) by (split; rewrite ?F2, ?F3; done).
  case_bool_decide; (split; [split; [|by destruct Hwt]|]); try (split; [done|done|]; cbn; intros ? ? Hin; by apply not_elem_of_nil in Hin).
  - split; cbn; [by rewrite F5| |by rewrite F1]. intros a Hda. rewrite F5 in Hda. rewrite F8. by apply Hl.
  - split; cbn; [intros a n; by rewrite lookup_empty| |done]. intros a. rewrite lookup_empty. by intros [].
Qed.

(** A dirty account is loaded in both states, or in neither. *)
Lemma dirty_loaded s1 s2 a : alike s1 s2 -> jok s1 -> jok s2 -> is_Some (dirties s1 !! a) ->
  is_Some (stateObjects s1 !! a) <-> is_Some (stateObjects s2 !! a).
Proof.
  intros Ha [_ Hl1 _] [_ Hl2 _] Hd. pose proof (alike_view _ _ Ha a) as Hv. unfold view, obj_at in Hv.
  pose proof (Hl1 a Hd) as C1. rewrite (alike_dirties _ _ Ha) in Hd. pose proof (Hl2 a Hd) as C2.
  destruct C1 as [C1|C1], C2 as [C2|C2]; try done; try rewrite C1 in Hv; try rewrite C2 in Hv;
    destruct (stateObjects s1 !! a), (stateObjects s2 !! a); cbn in Hv; split; intros [? ?]; try done; eauto.
Qed.

Lemma Finalise_alike b s1 s2 : alike s1 s2 -> valid s1 -> valid s2 -> jok s1 -> jok s2 ->
  alike (Finalise b s1) (Finalise b s2).
Proof.
  intros Ha [Hw1 _] [Hw2 _] Hj1 Hj2. unfold Finalise. rewrite <- (alike_dirties _ _ Ha).
  assert (Hl : forall a, a ∈ (map_to_list (dirties s1)).*1 -> is_Some (stateObjects s1 !! a) <-> is_Some (stateObjects s2 !! a)).
  { intros a Hin. apply list_elem_of_fmap in Hin as ([? n] & -> & Hin). apply elem_of_map_to_list in Hin. cbn in *.
    by apply dirty_loaded. }
  generalize dependent (map_to_list (dirties s1)).*1. intros l Hl.
  assert (Hall : alike (fold_right (finaliseOne b) s1 l) (fold_right (finaliseOne b) s2 l)).
  { induction l as [|a l IH]; [done|]. simpl.
    destruct (finaliseAll_fields b l s1 Hw1) as [(_ & _ & _ & _ & _ & _ & _ & F1) G1].
    destruct (finaliseAll_fields b l s2 Hw2) as [(_ & _ & _ & _ & _ & _ & _ & F2) G2].
    apply finaliseOne_alike; [apply IH; intros; apply Hl; set_solver|done|done|].
    rewrite F1, F2. apply Hl. set_solver. }
  set (t1 := fold_right _ s1 _) in *. set (t2 := fold_right _ s2 _) in *. clearbody t1 t2.
  pose proof (alike_entries _ _ Hall) as He. pose proof (alike_rest _ _ Hall) as Hr.
  unfold clearJournalAndRefund.
  assert (Hnil : bool_decide (entries t1 = []) = bool_decide (entries t2 = [])).
  { apply bool_decide_ext. rewrite <- !length_zero_iff_nil. by rewrite He. }
  rewrite Hnil. destruct (bool_decide (entries t2 = [])).
  - apply (alike_rest_change (set_validRevisions [])); try done; apply Hall.
  - apply (alike_rest_change (fun t => set_validRevisions [] (set_refund 0 (set_dirties ∅ (set_entries [] t))))); try done.
    unfold rest in *. injection Hr as ???????????. cbn. congruence.
Qed.

Lemma Prepare_ok h i s : valid s -> jok s -> valid (Prepare h i s) /\ jok (Prepare h i s).
Proof.
  intros [[Ha Hd Hr] [Hl Hi Hs]] [Hp Hj Hrf]. split; [|by split]. split; [by split|]. split; cbn; [done| |done].
  intros a idx. by rewrite lookup_empty.
Qed.

Lemma Prepare_alike h i s1 s2 : alike s1 s2 -> alike (Prepare h i s1) (Prepare h i s2).
Proof.
  intros Ha. pose proof (alike_rest _ _ Ha) as Hr. apply (alike_rest_change (Prepare h i)); try done; try apply Ha.
  unfold rest in *. injection Hr as ???????????. cbn. congruence.
Qed.

(** ** Access lists *)

(** An addition to the access list; on a valid state none panics. *)
Definition access_op (o : Address * option Hash) (s : StateDB) : StateDB :=
  match o with
  | (a, None) => AddAddressToAccessList a s
  | (a, Some k) => match AddSlotToAccessList a k s with Ok s => s | _ => s end
  end.

Lemma AddSlot_ok a k s : valid s -> exists s', AddSlotToAccessList a k s = Ok s'.
Proof.
  intros [_ [_ Hi _]]. unfold AddSlotToAccessList, al_AddSlot.
  destruct (addresses (acl s) !! a) as [idx|] eqn:E; [|by eexists]. case_if; [by eexists|].
  destruct (Hi a idx E) as [->|Hidx]; [done|].
  destruct (lookup_lt_is_Some_2 (slots (acl s)) (Z.to_nat idx)) as [m Hm]; [lia|]. rewrite Hm.
  case_bool_decide; by eexists.
Qed.

Lemma access_good o s : valid s -> good s (access_op o s) /\ revs (access_op o s) = revs s /\
  exists es, journals s (access_op o s) es.
Proof.
  intros Hv. destruct o as [a [k|]]; cbn.
  - destruct (AddSlot_ok a k s Hv) as [s' Hs]. rewrite Hs. split; [by eapply (do_op_good (OAddSlot a k))|].
    split; [by eapply (do_op_revs (OAddSlot a k))|]. unfold AddSlotToAccessList in Hs. inv_bind Hs.
    destruct a0 as [[am sm] al]. injection Hs as <-.
    assert (H0' : journals s (set_acl al s) []) by (by apply journals_nil).
    assert (Happ : forall t e, dirtied e = None -> (forall b, e <> createObjectChange b) -> journals t (journal_append e t) [e]).
    { intros t e He Hc. destruct (append_fields e t) as (A1 & A2 & A3).
      apply journals_one; [apply append_refund|done|done|by rewrite A3|by rewrite He|]. intros b Hb. by apply Hc in Hb. }
    assert (Hslot : forall t, journals t (journal_append (accessListAddSlotChange a k) t) [accessListAddSlotChange a k]) by auto.
    assert (Hacc : forall t, journals t (journal_append (accessListAddAccountChange a) t) [accessListAddAccountChange a]) by auto.
    destruct am, sm; eexists.
    + eapply journals_trans; [eapply journals_trans; [exact H0'|apply Hacc]|apply Hslot].
    + eapply journals_trans; [exact H0'|apply Hacc].
    + eapply journals_trans; [exact H0'|apply Hslot].
    + exact H0'.
  - split; [by eapply (do_op_good (OAddAddress a))|]. split; [by eapply (do_op_revs (OAddAddress a))|].
    unfold AddAddressToAccessList. destruct (al_AddAddress a (acl s)) as [[] al]; [|by exists []; apply journals_nil].
    exists [accessListAddAccountChange a]. destruct (append_fields (accessListAddAccountChange a) (set_acl al s)) as (A1 & A2 & A3).
    by apply journals_one.
Qed.

Lemma access_alike o s1 s2 : alike s1 s2 -> alike (access_op o s1) (access_op o s2).
Proof.
  intros Ha. pose proof (alike_rest _ _ Ha) as Hr. assert (Hacl : acl s1 = acl s2) by (by injection Hr).
  assert (Hset : forall al, alike (set_acl al s1) (set_acl al s2)).
  { intros al. apply (alike_rest_change (set_acl al)); try done; try apply Ha.
    unfold rest in *. injection Hr as ???????????. cbn. congruence. }
  destruct o as [a [k|]]; unfold access_op.
  - unfold AddSlotToAccessList. rewrite Hacl. destruct (al_AddSlot a k (acl s2)) as [[[am sm] al]|e|]; [|done..].
    unfold mbind, res_bind. destruct am, sm; repeat (apply alike_append; [|done]); apply Hset.
  - unfold AddAddressToAccessList. rewrite Hacl. destruct (al_AddAddress a (acl s2)) as [[] al]; [|done].
    by apply alike_append.
Qed.

(** ** Reverting *)

Lemma revertEntry_book e s s' : revertEntry e s = Ok s' ->
  dirties s' = dirties s /\ forall a, is_Some (stateObjects s !! a) -> e <> createObjectChange a -> is_Some (stateObjects s' !! a).
Proof.
  assert (Hset : forall o t a, is_Some (stateObjects t !! a) -> is_Some (stateObjects (setStateObject o t) !! a))
    by (intros; by apply setState_keeps).
  assert (Hget : forall b t x t', getStateObject b t = (x, t') -> dirties t' = dirties t /\
    forall a, is_Some (stateObjects t !! a) -> is_Some (stateObjects t' !! a)).
  { intros b t x t' Hg. pose proof (get_journals b t) as Hj. rewrite Hg in Hj. cbn in Hj. split; apply Hj. }
  assert (Hon : forall b f, on_object b f s = Ok s' -> dirties s' = dirties s /\
    forall a, is_Some (stateObjects s !! a) -> is_Some (stateObjects s' !! a)).
  { intros b f Hf. unfold on_object in Hf. destruct (getStateObject b s) as [[x|] t] eqn:Eg; [|done].
    injection Hf as <-. destruct (Hget _ _ _ _ Eg) as [H1' H2']. split; [exact H1'|]. intros a Hin. by apply Hset, H2'. }
  intros Hr. destruct e; cbn [revertEntry] in Hr;
    try (injection Hr as <-; split; [done|by intros]);
    try (destruct (Hon _ _ Hr) as [H1' H2']; split; [exact H1'|]; intros a Hin _; by apply H2').
  - injection Hr as <-. split; [done|]. intros a Hin Hne. cbn. rewrite lookup_delete, decide_False by congruence. done.
  - injection Hr as <-. destruct (negb prevdestruct && _); (split; [done|]); intros a Hin _; by apply Hset.
  - destruct (getStateObject account s) as [[x|] t] eqn:Eg; injection Hr as <-; destruct (Hget _ _ _ _ Eg) as [H1' H2'];
      (split; [exact H1'|]); intros a Hin _; [by apply Hset, H2'|by apply H2'].
  - destruct (_ =? 0)%nat; [done|]. injection Hr as <-. split; [done|by intros].
  - inv_bind Hr. injection Hr as <-. split; [done|by intros].
Qed.

Lemma revertEntries_book es : forall s r, revertEntries es s = Ok r ->
  dirties r = foldl undirty_by (dirties s) es /\
  forall a, is_Some (stateObjects s !! a) -> createObjectChange a ∉ es -> is_Some (stateObjects r !! a).
Proof.
  induction es as [|e es IH]; intros s r Hr; [injection Hr as <-; by split|].
  rewrite revertEntries_cons in Hr. inv_bind Hr. destruct (revertEntry_book _ _ _ Hm) as [Hd Ho].
  destruct (IH _ _ Hr) as [Hd' Ho']. split.
  - rewrite Hd'. cbn. f_equal. unfold undirty_of, undirty_by. rewrite <- Hd. by destruct (dirtied e).
  - intros b Hb Hn. apply Ho'; [|set_solver]. assert (Hx : is_Some (stateObjects a !! b)) by (apply Ho; [done|set_solver]).
    unfold undirty_of. by destruct (dirtied e).
Qed.

(** What a snapshot restores after a run whose journal kept the books. *)
Lemma revert_alike s s' es : valid s -> jok s -> good (Snapshot s).2 s' -> revs s' = revs (Snapshot s).2 ->
  journals (Snapshot s).2 s' es ->
  exists r, RevertToSnapshot (Snapshot s).1 s' = Ok r /\ valid r /\ jok r /\ alike r s.
Proof.
  intros Hv Hj Hg Hrev Hjs.
  assert (Hvr : validRevisions s' = validRevisions (Snapshot s).2 ++ []) by (rewrite app_nil_r; by injection Hrev).
  destruct (revert_succeeds s s' [] Hv Hg Hvr) as [r Hr]. exists r. split; [done|].
  destruct (revert_good s s' [] r Hv Hg Hvr Hr) as ([_ Hvalid] & Heq & Hen & _).
  destruct Hj as [Hp Hl Hrf]. destruct Hjs as [Je Jd Jo Jl Jc _]. cbn in Je, Jd, Jo.
  assert (Hbook : dirties r = dirties s /\ forall a, is_Some (stateObjects s' !! a) -> createObjectChange a ∉ es -> is_Some (stateObjects r !! a)).
  { unfold RevertToSnapshot in Hr. cbn [fst snd Snapshot] in Hr. rewrite Hvr in Hr. cbn [validRevisions snd Snapshot set_validRevisions] in Hr.
    rewrite <- app_assoc in Hr. cbn [app] in Hr. rewrite find_revision in Hr.
    2: { intros [id k] Hin. apply (wf_revisions _ (proj1 Hv)) in Hin. simpl. lia. }
    rewrite Z.eqb_refl in Hr. inv_bind Hr. injection Hr as <-. cbn. unfold journal_revert in Hm. rewrite Je in Hm.
    case_if; [done|]. rewrite drop_app_length in Hm. inv_bind Hm. injection Hm as <-. cbn.
    destruct (revertEntries_book _ _ _ Hm0) as [Hd Ho]. split.
    - rewrite Hd, Jd. by apply undirty_all.
    - intros b Hb Hn. apply Ho; [done|]. by rewrite elem_of_reverse. }
  destruct Hbook as [Hd Ho].
  assert (Hrr : refund r = refund s) by (pose proof (equiv_rest _ _ Heq) as Hr'; by injection Hr').
  split; [done|]. split.
  - split; [by rewrite Hd| |by rewrite Hrr]. intros a. rewrite Hd. intros Hda. destruct (Hl a Hda) as [?|Hin]; [by left|].
    destruct (decide (accountAt a = None)) as [?|Hn]; [by left|]. right. apply Ho; [by apply Jo|].
    intros Hc. by apply Hn, Jc.
  - apply equiv_alike; [done|done|by rewrite Hen].
Qed.
End Alike.
