(* ===== verification/StateIface.v ===== *)
(** * The account state as its clients see it

    The interface between the state and the parts that move balances and
    nonces: reads, writes and the laws that relate them.  [StateDB] implements
    it; a read is the value the code's method returns, the loads it causes being
    invisible ([StateFacts.loaded_equiv]). *)

From S2P Require Import Prelude StateDB StateFacts StateRevert JournalFacts.

Class AccountState (S : Type) : Type := {
  balanceOf : S -> Address -> Z;
  nonceOf : S -> Address -> Z;
  codeHashOf : S -> Address -> Hash;
  slotOf : S -> Address -> Hash -> Hash;
  refundOf : S -> Z;
  addBalance : Address -> Z -> S -> S;
  subBalance : Address -> Z -> S -> S;
  setBalance : Address -> Z -> S -> S;
  setNonce : Address -> Z -> S -> S;
  setCode : Address -> list byte -> S -> S;
  finalise : bool -> S -> S;
  erase : Address -> S -> bool * S;
  stateOk : S -> Prop;
}.

(** Everything but balances, resp. nonces, is left alone. *)
Definition keeps_nonces {S} `{AccountState S} (s s' : S) : Prop := forall b, nonceOf s' b = nonceOf s b.
Definition keeps_balances {S} `{AccountState S} (s s' : S) : Prop := forall b, balanceOf s' b = balanceOf s b.
Definition keeps_refund {S} `{AccountState S} (s s' : S) : Prop := refundOf s' = refundOf s.

Class AccountLaws (S : Type) `{AccountState S} : Prop := {
  add_law : forall a x s, stateOk s -> let s' := addBalance a x s in
    stateOk s' /\ keeps_nonces s s' /\ keeps_refund s s' /\
    forall b, balanceOf s' b = if decide (a = b) then balanceOf s a + x else balanceOf s b;
  sub_law : forall a x s, stateOk s -> let s' := subBalance a x s in
    stateOk s' /\ keeps_nonces s s' /\ keeps_refund s s' /\
    forall b, balanceOf s' b = if decide (a = b) then balanceOf s a - x else balanceOf s b;
  set_law : forall a x s, stateOk s -> let s' := setBalance a x s in
    stateOk s' /\ keeps_nonces s s' /\ keeps_refund s s' /\
    forall b, balanceOf s' b = if decide (a = b) then x else balanceOf s b;
  nonce_law : forall a n s, stateOk s -> let s' := setNonce a n s in
    stateOk s' /\ keeps_balances s s' /\ keeps_refund s s' /\
    forall b, nonceOf s' b = if decide (a = b) then n else nonceOf s b;
}.

(** ** The instance *)

#[export] Instance StateDB_state `{Backend} : AccountState StateDB := {
  balanceOf s a := (GetBalance a s).1;
  nonceOf s a := (GetNonce a s).1;
  codeHashOf s a := (GetCodeHash a s).1;
  slotOf s a k := (GetState a k s).1;
  refundOf s := refund s;
  addBalance := AddBalance;
  subBalance := SubBalance;
  setBalance := SetBalance;
  setNonce := SetNonce;
  setCode := SetCode;
  finalise := Finalise;
  erase := Erase;
  stateOk s := valid s /\ jok s;
}.

Section Instance.
Context `{Backend}.

Definition data_at (s : StateDB) (a : Address) : option StateAccount := data <$> live s a.

Lemma balance_data s a : wf s -> balanceOf s a = match data_at s a with Some d => Balance d | None => 0 end.
Proof.
  intros Hw. simpl. unfold GetBalance, data_at. destruct (getStateObject a s) as [x s1] eqn:E.
  destruct (get_spec s a x s1 Hw E) as (<- & _). by destruct x.
Qed.

Lemma nonce_data s a : wf s -> nonceOf s a = match data_at s a with Some d => Nonce d | None => 0 end.
Proof.
  intros Hw. simpl. unfold GetNonce, data_at. destruct (getStateObject a s) as [x s1] eqn:E.
  destruct (get_spec s a x s1 Hw E) as (<- & _). by destruct x.
Qed.

Lemma data_at_loaded s s' a : loaded s s' -> data_at s' a = data_at s a.
Proof. intros Hl. unfold data_at, live. by rewrite (loaded_at _ _ Hl). Qed.

Lemma data_at_set o s a :
  data_at (setStateObject o s) a =
    if decide (address o = a) then (if deleted o then None else Some (data o)) else data_at s a.
Proof. unfold data_at, live. rewrite obj_at_set. case_decide; [|done]. by destruct (deleted o). Qed.

Lemma data_at_append e s a : data_at (journal_append e s) a = data_at s a.
Proof. unfold data_at, live. by rewrite append_at. Qed.

Lemma createObject_refund a s : refund (createObject a s).2 = refund s.
Proof.
  unfold createObject, getDeletedStateObject.
  destruct (stateObjects s !! a); [by destruct (hasSnap s && negb _)|].
  destruct (accountAt a); [|done]. by destruct (hasSnap _ && negb _).
Qed.

(** The object to be changed: its data are those of the account, or zero. *)
Lemma getOrNew_data a s o s' :
  valid s -> GetOrNewStateObject a s = (o, s') ->
  valid s' /\ address o = a /\ deleted o = false /\
  (forall b, b <> a -> data_at s' b = data_at s b) /\
  Balance (data o) = balanceOf s a /\ Nonce (data o) = nonceOf s a /\ refund s' = refund s.
Proof.
  intros Hv Hg. destruct (good_getOrNew a s o s' Hv Hg) as ([_ Hv'] & Hin & Hd & Ha).
  rewrite (balance_data s a), (nonce_data s a) by apply Hv.
  split_and!; [done..| | | |]; clear Ha Hin; unfold GetOrNewStateObject in Hg;
    destruct (getStateObject a s) as [x s1] eqn:E; destruct (get_spec s a x s1 (proj1 Hv) E) as (Hx & Hl & _).
  1: { intros b Hb. rewrite <- (data_at_loaded s s1 b Hl). destruct x as [x|]; [by simplify_eq|].
       destruct (createObject a s1) as [[o' prev] s2] eqn:Ec. simplify_eq.
       unfold createObject in Ec. destruct (getDeletedStateObject a s1) as [p s3] eqn:Ep.
       destruct (getDeleted_spec s1 a p s3 (loaded_wf _ _ Hl) Ep) as (_ & Hl3 & _).
       rewrite <- (data_at_loaded s1 s3 b Hl3).
       destruct p; simplify_eq; rewrite data_at_set, decide_False by (simpl; congruence).
       - rewrite data_at_append. by destruct (hasSnap s3 && negb _).
       - by rewrite data_at_append. }
  1, 2: unfold data_at; rewrite <- Hx; destruct x as [x|]; [by simplify_eq|];
    destruct (createObject a s1) as [[o' prev] s2] eqn:Ec; simplify_eq;
    unfold createObject in Ec; destruct (getDeletedStateObject a s1) as [[p|] s3]; by simplify_eq.
  assert (Hr1 : refund s1 = refund s) by (pose proof (loaded_rest _ _ Hl) as Hr; by injection Hr).
  destruct x as [x|]; [by simplify_eq|].
  pose proof (createObject_refund a s1) as Hc. destruct (createObject a s1) as [[o' prev] s2]. simplify_eq/=. congruence.
Qed.

(** Changing the data of that object. *)
Lemma change_data a s o s1 o' s2 (d : StateAccount) :
  valid s -> GetOrNewStateObject a s = (o, s1) -> valid s2 ->
  (forall b, data_at s2 b = if decide (a = b) then Some d else data_at s1 b) -> o' = o ->
  forall b, balanceOf s2 b = (if decide (a = b) then Balance d else balanceOf s b) /\
            nonceOf s2 b = (if decide (a = b) then Nonce d else nonceOf s b).
Proof.
  intros Hv Hg Hv2 Hat _ b. destruct (getOrNew_data a s o s1 Hv Hg) as (Hv1 & _ & _ & Hb & _).
  rewrite (balance_data s2 b), (nonce_data s2 b), Hat by apply Hv2. case_decide as Hab; [done|].
  rewrite Hb by congruence. by rewrite (balance_data s b), (nonce_data s b) by apply Hv.
Qed.

Lemma obj_SetBalance_spec a x s o s1 :
  valid s -> GetOrNewStateObject a s = (o, s1) ->
  let s2 := obj_SetBalance x o s1 in
  valid s2 /\ keeps_nonces s s2 /\ keeps_refund s s2 /\
  forall b, balanceOf s2 b = if decide (a = b) then x else balanceOf s b.
Proof.
  intros Hv Hg s2. destruct (getOrNew_data a s o s1 Hv Hg) as (Hv1 & Ha & Hd & Hb & Hbal & Hnon & Href).
  destruct (good_getOrNew a s o s1 Hv Hg) as (_ & Hin & _).
  assert (Hv2 : valid s2) by (by eapply good_SetBalance).
  assert (Hch := change_data a s o s1 o s2 (data_Balance x (data o)) Hv Hg Hv2).
  assert (Hat : forall b, data_at s2 b = if decide (a = b) then Some (data_Balance x (data o)) else data_at s1 b).
  { intros b. unfold s2, obj_SetBalance. rewrite data_at_set, data_at_append. simpl. by rewrite Ha, Hd. }
  specialize (Hch Hat eq_refl). split_and!; [done| | |intros b; apply Hch].
  - intros b. rewrite (proj2 (Hch b)). case_decide; [subst b; exact Hnon|done].
  - unfold keeps_refund. exact Href.
Qed.

Lemma obj_noop_spec a s o s1 s2 :
  valid s -> GetOrNewStateObject a s = (o, s1) -> (s2 = s1 \/ s2 = touch o s1) ->
  valid s2 /\ keeps_nonces s s2 /\ keeps_refund s s2 /\ keeps_balances s s2.
Proof.
  intros Hv Hg Hs2. destruct (getOrNew_data a s o s1 Hv Hg) as (Hv1 & Ha & Hd & Hb & Hbal & Hnon & Href).
  destruct (good_getOrNew a s o s1 Hv Hg) as (_ & Hin & _).
  assert (Hv2 : valid s2) by (destruct Hs2 as [->| ->]; [done|by eapply good_touch]).
  assert (Hat1 : forall b, data_at s2 b = data_at s1 b).
  { intros b. destruct Hs2 as [->| ->]; [done|]. unfold touch. case_if; [|apply data_at_append].
    change (data_at (journal_append (touchChange (address o)) s1) b = data_at s1 b). apply data_at_append. }
  assert (Hat : forall b, data_at s2 b = if decide (a = b) then Some (data o) else data_at s1 b).
  { intros b. rewrite Hat1. case_decide; [|done]. subst b. unfold data_at, live, obj_at. by rewrite Hin, Hd. }
  assert (Hch := change_data a s o s1 o s2 (data o) Hv Hg Hv2 Hat eq_refl).
  assert (Hr : refund s2 = refund s1).
  { destruct Hs2 as [->| ->]; [done|]. unfold touch. by case_if. }
  split_and!; [done| |unfold keeps_refund; simpl; congruence|].
  - intros b. rewrite (proj2 (Hch b)). case_decide; [by subst b|done].
  - intros b. rewrite (proj1 (Hch b)). case_decide; [by subst b|done].
Qed.

Lemma balance_law a x s (k : Z -> Z) :
  valid s -> (x = 0 -> forall b, k b = b) ->
  let s' := let '(o, s1) := GetOrNewStateObject a s in
            if x =? 0 then (if empty o then touch o s1 else s1) else obj_SetBalance (k (Balance (data o))) o s1 in
  valid s' /\ keeps_nonces s s' /\ keeps_refund s s' /\
  forall b, balanceOf s' b = if decide (a = b) then k (balanceOf s a) else balanceOf s b.
Proof.
  intros Hv Hk. destruct (GetOrNewStateObject a s) as [o s1] eqn:Hg.
  destruct (getOrNew_data a s o s1 Hv Hg) as (_ & _ & _ & _ & Hbal & _).
  destruct (x =? 0) eqn:Ex; bool_Z.
  - destruct (obj_noop_spec a s o s1 (if empty o then touch o s1 else s1) Hv Hg ltac:(destruct (empty o); auto))
      as (H1 & H2 & H3 & H4).
    split_and!; [done..|]. intros b. case_decide as Hab; [|apply H4]. subst b. rewrite Hk by done. apply H4.
  - rewrite Hbal. by apply obj_SetBalance_spec.
Qed.

#[export] Instance StateDB_laws : AccountLaws StateDB.
Proof.
  split; intros a x s [Hv Hj].
  - destruct (balance_law a x s (fun b => b + x) Hv ltac:(intros; simpl; lia)) as [H1 H2].
    split; [split; [exact H1|]|exact H2]. by apply (balance_jok a x s (fun b => b + x)).
  - destruct (balance_law a x s (fun b => b - x) Hv ltac:(intros; simpl; lia)) as [H1 H2].
    split; [split; [exact H1|]|exact H2]. by apply (balance_jok a x s (fun b => b - x)).
  - pose proof (SetBalance_jok a x s Hv Hj) as Hj'. simpl. unfold SetBalance in *.
    destruct (GetOrNewStateObject a s) as [o s1] eqn:Hg. destruct (obj_SetBalance_spec a x s o s1 Hv Hg) as [H1 H2].
    by split.
  - pose proof (SetNonce_jok a x s Hv Hj) as Hj'. simpl. assert (Hgood : good s (SetNonce a x s)) by (by apply (do_op_good (OSetNonce a x))).
    unfold SetNonce in *. destruct (GetOrNewStateObject a s) as [o s1] eqn:Hg.
    destruct (getOrNew_data a s o s1 Hv Hg) as (Hv1 & Ha & Hd & Hb & Hbal & Hnon & Href).
    set (s2 := setStateObject _ _) in *. assert (Hv2 : valid s2) by apply Hgood.
    assert (Hat : forall b, data_at s2 b = if decide (a = b) then Some (data_Nonce x (data o)) else data_at s1 b).
    { intros b. unfold s2. rewrite data_at_set, data_at_append. simpl. by rewrite Ha, Hd. }
    assert (Hch := change_data a s o s1 o s2 (data_Nonce x (data o)) Hv Hg Hv2 Hat eq_refl).
    split_and!; [done|done| |exact Href|].
    + intros b. etrans; [apply (proj1 (Hch b))|]. case_decide; [subst b; exact Hbal|done].
    + intros b. etrans; [apply (proj2 (Hch b))|]. by case_decide.
Qed.
End Instance.

(** ** Sums of balances *)

Section Sums.
Context {S : Type} `{AccountLaws S}.

Definition totalBalance (l : list Address) (s : S) : Z := foldr (fun a acc => balanceOf s a + acc) 0 l.

Lemma total_ext l s s' : (forall a, a ∈ l -> balanceOf s' a = balanceOf s a) -> totalBalance l s' = totalBalance l s.
Proof.
  induction l as [|a l IH]; intros Hl; [done|]. simpl. rewrite Hl by set_solver. f_equal. apply IH. set_solver.
Qed.

(** Changing one balance changes the sum by the difference. *)
Lemma total_change l s s' a x :
  NoDup l -> (forall b, balanceOf s' b = if decide (a = b) then x else balanceOf s b) ->
  totalBalance l s' = totalBalance l s + (if decide (a ∈ l) then x - balanceOf s a else 0).
Proof.
  intros Hnd Hb. induction Hnd as [|b l Hnin Hnd IH].
  - destruct (decide (a ∈ [])) as [Hin|_]; [by apply not_elem_of_nil in Hin|]. simpl. lia.
  - cbn [totalBalance foldr]. fold (totalBalance l s') (totalBalance l s). rewrite IH, Hb.
    destruct (decide (a = b)) as [->|Hne], (decide (b ∈ l)) as [Hbl|Hbl], (decide (b ∈ b :: l)) as [Hin|Hin];
      try done; try (destruct (decide (a ∈ l)) as [Hal|Hal], (decide (a ∈ b :: l)) as [Hin'|Hin']); try lia;
      exfalso; set_solver.
Qed.
End Sums.
