(* ===== verification/Contracts.v ===== *)
(** * Calls to the system contracts
    (consensus/congress/congress.go, congress_govern.go, vmcaller/vmcaller.go,
    systemcontract/abi.go)

    The engine reads and updates its on-chain contracts by messages it executes
    itself.  The virtual machine, the ABI codec and the RLP codec are operations
    of a class; what is packed, sent to whom and from whom, and how the answer
    is checked is modelled. *)

From S2P Require Import Prelude Params Types Snapshot StateDB StateIface.

Definition MaxGas : Z := MaxUint64.

Definition ValidatorsContractAddr : Address := 0xf000.
Definition PunishContractAddr : Address := 0xf001.
Definition ProposalAddr : Address := 0xf002.
Definition SysGovContractAddr : Address := 0xf003.
Definition AddressListContractAddr : Address := 0xf004.
Definition ValidatorsV1ContractAddr : Address := 0xf005.
Definition PunishV1ContractAddr : Address := 0xf006.
Definition SysGovToAddr : Address := 0xffff.
Definition FeeRecoder : Address := 0xffffffffffffffffffffffffffffffffffffffff.

Definition DevMappingPosition : Z := 2.
Definition BlackLastUpdatedNumberPosition : Hash := 7.
Definition RulesLastUpdatedNumberPosition : Hash := 8.

Definition GetValidatorAddr (blockNum : option Z) (cfg : ChainConfig) : Address :=
  if IsRedCoast cfg blockNum then ValidatorsV1ContractAddr else ValidatorsContractAddr.

Definition GetPunishAddr (blockNum : option Z) (cfg : ChainConfig) : Address :=
  if IsRedCoast cfg blockNum then PunishV1ContractAddr else PunishContractAddr.

(** The contracts' interfaces, by their names in the ABI table. *)
Inductive contractName : Type :=
  | validatorsContract | punishContract | proposalContract | governanceContract
  | addressListContract | validatorsV1Contract | punishV1Contract.

(** The governance proposal of [congress_govern.go]. *)
Record Proposal : Type := mkProposal {
  Id : Z;
  Action : Z;
  From : Address;
  To : Address;
  Value : Z;
  PData : list byte;
}.

(** Values passed to and returned by contracts. *)
Inductive abiValue : Type :=
  | VAddress (a : Address)
  | VAddresses (l : list Address)
  | VUint (n : Z)                  (* *big.Int *)
  | VUint32 (n : Z)
  | VUint64s (l : list Z)
  | VUint8 (n : Z)
  | VBytes32 (h : Hash)
  | VOther (kind : Z).

(** [types.Message] as [NewLegacyMessage] builds it: no fee, no access list. *)
Record Message : Type := mkMessage {
  MFrom : Address;
  MTo : Address;
  MNonce : Z;
  MValue : Z;
  MGas : Z;
  MGasPrice : Z;
  MData : list byte;
  MCheckNonce : bool;
}.

Definition NewLegacyMessage (from to : Address) (nonce amount gasLimit gasPrice : Z) (data : list byte)
    (checkNonce : bool) : Message :=
  mkMessage from to nonce amount gasLimit gasPrice data checkNonce.

(** The codecs: [abi.ABI.Pack], [Unpack], [UnpackIntoInterface] for a proposal,
    and the RLP encoding of a proposal. *)
Class Codec : Type := {
  Pack : contractName -> string -> list abiValue -> res (list byte);
  Unpack : contractName -> string -> list byte -> res (list abiValue);
  UnpackProposal : list byte -> res Proposal;
  EncodeProposal : Proposal -> res (list byte);
}.

(** The virtual machine: [evm.Call] of a message in the block context of a
    header, the root of the state, the state at a root. *)
Class VM (St : Type) : Type := {
  evmCall : Message -> Header -> St -> res (list byte) * St;
  IntermediateRoot : bool -> St -> Hash * St;
  stateFn : Hash -> res St;
  statePrepare : Hash -> Z -> St -> St;
  TxIndex : St -> Z;
  GetLogs : Hash -> St -> list Log;
}.

Section Calls.
Context {St : Type} `{Codec} `{AccountState St} `{VM St}.

(** [vmcaller.ExecuteMsg]: the state is finalised whatever the outcome. *)
Definition ExecuteMsg (msg : Message) (header : Header) (s : St) : res (list byte) * St :=
  let '(r, s) := evmCall msg header s in (r, finalise true s).

(** The common shape of the state-changing calls: pack, take the nonce of the
    coinbase, execute; only the error matters. *)
Definition callAs (contract : contractName) (method : string) (args : list abiValue) (to : Address)
    (header : Header) : ST St unit := fun s =>
  match Pack contract method args with
  | Ok data =>
      let nonce := nonceOf s (Coinbase header) in
      match ExecuteMsg (NewLegacyMessage (Coinbase header) to nonce 0 MaxGas 0 data true) header s with
      | (Ok _, s) => (Ok tt, s)
      | (Err e, s) => (Err e, s)
      | (Panic, s) => (Panic, s)
      end
  | Err e => (Err e, s)
  | Panic => (Panic, s)
  end.

(** A query: nonce zero, no nonce check; the call is executed on the state it
    is given. *)
Definition query (contract : contractName) (method : string) (args : list abiValue) (to : Address)
    (header : Header) : ST St (list byte) := fun s =>
  match Pack contract method args with
  | Ok data => ExecuteMsg (NewLegacyMessage (Coinbase header) to 0 0 MaxGas 0 data false) header s
  | Err e => (Err e, s)
  | Panic => (Panic, s)
  end.

Definition one (ret : list abiValue) (msg : string) : res abiValue :=
  match ret with [v] => Ok v | _ => Err (errorf msg) end.

(** [commonCallContract] *)
Definition commonCallContract (header : Header) (contract : contractName) (addr : Address) (method : string)
    (expectResultLen : nat) (args : list abiValue) : ST St (list abiValue) :=
  result ← query contract method args addr header;
  ret ← st_lift (Unpack contract method result);
  _ ← st_fail_if (negb (length ret =? expectResultLen)%nat) (errorf "invalid result length");
  mret ret.

(** [getTopValidators]: asked on the state of the parent block; that state is a
    fresh one, whatever the call does to it is dropped. *)
Definition getTopValidators (cfg : ChainConfig) (chain : ChainHeaderReader) (header : Header)
    : res (list Address) :=
  match Number header with
  | None => Panic
  | Some n =>
      match GetHeader chain (ParentHash header) (u64 n -w 1) with
      | None => Err ErrUnknownAncestor
      | Some parent =>
          statedb ← stateFn (Root parent);
          data ← Pack validatorsContract "getTopValidators" [];
          let msg := NewLegacyMessage (Coinbase header) (GetValidatorAddr (Number parent) cfg) 0 0 MaxGas 0 data false in
          result ← fst (ExecuteMsg msg parent statedb);
          ret ← Unpack validatorsContract "getTopValidators" result;
          v ← one ret "Invalid params length";
          match v with
          | VAddresses l => Ok (merge_sort Z.le l)
          | _ => Err (errorf "Invalid validators format")
          end
      end
  end.

Definition updateValidators (cfg : ChainConfig) (epoch : Z) (vals : list Address) (header : Header) : ST St unit :=
  callAs validatorsContract "updateActiveValidatorSet" [VAddresses vals; VUint epoch]
    (GetValidatorAddr (Number header) cfg) header.

Definition punishValidator (cfg : ChainConfig) (val : Address) (header : Header) : ST St unit :=
  callAs punishContract "punish" [VAddress val] (GetPunishAddr (Number header) cfg) header.

Definition decreaseMissedBlocksCounter (cfg : ChainConfig) (epoch : Z) (header : Header) : ST St unit :=
  callAs punishContract "decreaseMissedBlocksCounter" [VUint epoch] (GetPunishAddr (Number header) cfg) header.

(** ** Governance calls *)

Definition getPassedProposalCount (header : Header) : ST St Z :=
  result ← query governanceContract "getPassedProposalCount" [] SysGovContractAddr header;
  ret ← st_lift (Unpack governanceContract "getPassedProposalCount" result);
  v ← st_lift (one ret "invalid output length");
  match v with
  | VUint32 n => mret n
  | _ => st_err (errorf "invalid count format")
  end.

Definition getPassedProposalByIndex (header : Header) (idx : Z) : ST St Proposal :=
  result ← query governanceContract "getPassedProposalByIndex" [VUint32 idx] SysGovContractAddr header;
  st_lift (UnpackProposal result).

Definition finishProposalById (header : Header) (id : Z) : ST St unit :=
  data ← st_lift (Pack governanceContract "finishProposalById" [VUint id]);
  _ ← st_modify (statePrepare 0 0);
  _ ← ExecuteMsg (NewLegacyMessage (Coinbase header) SysGovContractAddr 0 0 MaxGas 0 data false) header;
  mret tt.

(** [initializeSystemContracts] for the validators of the genesis block. *)
Definition maxValidators : Z := 10000.

Definition initializeSystemContracts (genesisValidators : list Address) (header : Header) : ST St unit :=
  _ ← st_fail_if ((zlen genesisValidators =? 0) || (maxValidators <? zlen genesisValidators)) errInvalidValidatorsLength;
  _ ← callAs validatorsContract "initialize" [VAddresses genesisValidators] ValidatorsContractAddr header;
  _ ← callAs punishContract "initialize" [] PunishContractAddr header;
  callAs proposalContract "initialize" [VAddresses genesisValidators] ProposalAddr header.
End Calls.
