(* ===== verification/Finalize.v ===== *)
(** * Finishing a block (consensus/congress/congress.go, congress_govern.go)

    What the engine adds after the transactions of a block: the system
    contracts at block 1, the punishment of an absent validator, the deposit of
    the fees, the validator change at an epoch, and the governance proposals.
    The miner's version builds the governance transactions, the verifier's
    version replays them. *)

From S2P Require Export Float.
From S2P Require Import StateDB StateIface Prelude Params Types Misc Snapshot Engine Contracts.

(** ** Transactions and receipts

    A legacy transaction has its gas price as fee cap and as tip cap. *)

Record Transaction : Type := mkTx {
  TxType : Z;
  TxTo : option Address;
  TxGas : Z;
  TxGasPrice : Z;
  TxGasFeeCap : Z;
  TxGasTipCap : Z;
  TxNonce : Z;
  TxValue : Z;
  TxData : list byte;
  TxAccessList : option AccessList;
  TxSig : list byte;
}.

Definition legacyTx (to : option Address) (gas gasPrice nonce value : Z) (data sig : list byte) : Transaction :=
  mkTx 0 to gas gasPrice gasPrice gasPrice nonce value data None sig.

Definition withSig (sig : list byte) (tx : Transaction) : Transaction :=
  mkTx (TxType tx) (TxTo tx) (TxGas tx) (TxGasPrice tx) (TxGasFeeCap tx) (TxGasTipCap tx) (TxNonce tx) (TxValue tx)
    (TxData tx) (TxAccessList tx) sig.

Record Receipt : Type := mkReceipt {
  RType : Z;
  PostState : option Hash;
  RStatus : Z;
  CumulativeGasUsed : Z;
  RLogs : list (Log * Hash);   (* with the block hash [GetLogs] stores in each *)
  RBloom : Z;
  RTxHash : Hash;
  ContractAddress : option Address;
  RGasUsed : Z;
  BlockHash : Hash;
  BlockNumber : option Z;
  TransactionIndex : Z;
}.

Definition ReceiptStatusFailed : Z := 0.
Definition ReceiptStatusSuccessful : Z := 1.

(** Hashing and signing of transactions and the bloom filter of logs: code
    outside the engine. *)
Class TxSigning : Type := {
  HashOfTx : Transaction -> Hash;
  SenderOfTx : Transaction -> res Address;
  CreateBloom : list Log -> Z;
}.

Section Finalize.
Context {St : Type} `{Crypto} `{Codec} `{AccountState St} `{VM St} `{TxSigning}.
Context `{Cache C Hash Address} `{Cache RC Hash Snapshot} `{SnapshotDB D}.
Local Abbreviation Congress := (CongressEngine RC C D).
Local Abbreviation M := (ST (Congress * St)).

Definition on_engine {A} (m : ST Congress A) : M A := fun cs =>
  let '(r, c) := m (fst cs) in (r, (c, snd cs)).
Definition on_state {A} (m : ST St A) : M A := fun cs =>
  let '(r, s) := m (snd cs) in (r, (fst cs, s)).

(** ** Fees *)

(** The recipients of the transactions (the zero address for a creation) and
    the fee of each, [Gas * GasPrice] in wrapping arithmetic. *)
Definition feeAddrs (txs : list Transaction) : list Address := (fun tx => default 0 (TxTo tx)) <$> txs.
Definition gasFees (txs : list Transaction) : list Z := (fun tx => TxGas tx *w u64 (TxGasPrice tx)) <$> txs.
Definition totalGasSum (gass : list Z) : Z := foldl (fun acc g => acc +w g) 0 gass.

(** The proportional cut when the recorded fee is below the sum, computed in
    floating point. *)
Definition scaleFee (oob : spec_float -> Z) (total fee g : Z) : Z :=
  let percentDifference := f64_mul (f64_div (f64_of_Z (total -w fee)) (f64_of_Z total)) (f64_of_Z 100) in
  let decreaseAmount := f64_to_u64 oob (f64_mul (f64_of_Z g) (f64_div percentDifference (f64_of_Z 100))) in
  g -w decreaseAmount.

Definition scaleFees (oob : spec_float -> Z) (fee : Z) (gass : list Z) : list Z :=
  let total := totalGasSum gass in
  let feeUint64 := u64 fee in
  if feeUint64 <? total then scaleFee oob total feeUint64 <$> gass else gass.

(** [trySendBlockReward]: the fees are moved to the coinbase, which sends them
    to the validators contract; if the call fails they stay with the coinbase. *)
Definition trySendBlockReward (cfg : ChainConfig) (header : Header) (addr : list Address) (gass : list Z)
    : ST St unit := fun s =>
  let fee := balanceOf s FeeRecoder in
  if fee <=? 0 then (Ok tt, s) else
  let s := addBalance (Coinbase header) fee s in
  let s := setBalance FeeRecoder 0 s in
  match Pack validatorsContract "distributeBlockReward" [VAddresses addr; VUint64s gass] with
  | Ok data =>
      let nonce := nonceOf s (Coinbase header) in
      let msg := NewLegacyMessage (Coinbase header) (GetValidatorAddr (Number header) cfg) nonce fee MaxGas 0 data true in
      match ExecuteMsg msg header s with
      | (Ok _, s) => (Ok tt, s)
      | (Err e, s) => (Err e, s)
      | (Panic, s) => (Panic, s)
      end
  | Err e => (Err e, s)
  | Panic => (Panic, s)
  end.

(** The fee part of [Finalize] and [FinalizeAndAssemble]: an error is logged. *)
Definition depositFees (oob : spec_float -> Z) (cfg : ChainConfig) (header : Header) (txs : list Transaction)
    : ST St unit :=
  if (length txs =? 0)%nat then mret tt else
  s ← st_get;
  let gass := scaleFees oob (balanceOf s FeeRecoder) (gasFees txs) in
  _ ← st_try (trySendBlockReward cfg header (feeAddrs txs) gass);
  mret tt.

(** ** Punishment and epochs *)

Definition tryPunishValidator (chain : ChainHeaderReader) (header : Header) : M unit :=
  number ← st_lift (Number_Uint64 header);
  snap ← on_engine (snapshot chain (number -w 1) (ParentHash header) []);
  let vs := validators snap in
  cs ← st_get;
  if zlen vs =? 0 then st_panic else
  match vs !! Z.to_nat (number mod zlen vs) with
  | None => st_panic
  | Some outTurnValidator =>
      if bool_decide (outTurnValidator ∈ map_values (Recents snap)) then mret tt
      else on_state (punishValidator (chainConfig (fst cs)) outTurnValidator header)
  end.

Definition doSomethingAtEpoch (chain : ChainHeaderReader) (header : Header) : M (list Address) :=
  cs ← st_get;
  let cfg := chainConfig (fst cs) in
  let epoch := Epoch (config (fst cs)) in
  newSortedValidators ← st_lift (getTopValidators (St:=St) cfg chain header);
  _ ← on_state (updateValidators cfg epoch newSortedValidators header);
  _ ← on_state (decreaseMissedBlocksCounter cfg epoch header);
  mret newSortedValidators.

Definition initialize (chain : ChainHeaderReader) (header : Header) : M unit :=
  snap ← on_engine (snapshot chain 0 (ParentHash header) []);
  on_state (initializeSystemContracts (validators snap) header).

Definition addressBytes (l : list Address) : list byte := l ≫= be_encode 20.

(** [header.Extra[extraVanity:extraSuffix]], which panics when out of range. *)
Definition extraMiddle (header : Header) : res (list byte) :=
  let extraSuffix := zlen (Extra header) - extraSeal in
  if extraSuffix <? extraVanity then Panic
  else Ok (drop 32 (take (Z.to_nat extraSuffix) (Extra header))).

(** ** Governance *)

Definition baseReceipt (header : Header) (status : Z) (logs : list (Log * Hash)) (bloom : Z) : Receipt :=
  mkReceipt 0 None status (GasUsed header) logs bloom 0 None 0 0 None 0.

Definition executeEvmCallProposal (header : Header) (prop : Proposal) (totalTxIndex : Z) (txHash bHash : Hash)
    : ST St Receipt :=
  let msg := NewLegacyMessage (From prop) (To prop) 0 (Value prop) (GasLimit header) 0 (PData prop) false in
  _ ← st_modify (statePrepare txHash totalTxIndex);
  r ← st_try (ExecuteMsg msg header : ST St (list byte));
  s ← st_get;
  let status := match r with Some _ => ReceiptStatusSuccessful | None => ReceiptStatusFailed end in
  let logs := (fun l => (l, bHash)) <$> GetLogs txHash s in
  mret (baseReceipt header status logs (CreateBloom logs.*1)).

Definition executeProposalMsg (header : Header) (prop : Proposal) (totalTxIndex : Z) (txHash bHash : Hash)
    : ST St Receipt :=
  let action := u64 (Action prop) in
  receipt ← (if action =? 0 then executeEvmCallProposal header prop totalTxIndex txHash bHash
             else if action =? 1 then fun s =>
               let '(ok, s) := erase (To prop) s in
               (Ok (baseReceipt header (if (ok : bool) then ReceiptStatusSuccessful else ReceiptStatusFailed) [] 0), s)
             else mret (baseReceipt header ReceiptStatusFailed [] 0));
  s ← st_get;
  mret (mkReceipt (RType receipt) (PostState receipt) (RStatus receipt) (CumulativeGasUsed receipt) (RLogs receipt)
          (RBloom receipt) txHash (ContractAddress receipt) (RGasUsed receipt) bHash (Number header) (TxIndex s)).

(** The miner's side: build and sign the transaction, then execute. *)
Definition executeProposal (cfg : ChainConfig) (val : Address) (signTxFn : Address -> Transaction -> res Transaction)
    (header : Header) (prop : Proposal) (totalTxIndex : Z) : ST St (Transaction * Receipt) := fun s =>
  match EncodeProposal prop with
  | Err e => (Err e, s)
  | Panic => (Panic, s)
  | Ok propRLP =>
      let nonce := nonceOf s val in
      let amount := if IsSophon cfg (Number header) then 0 else Value prop in
      let tx := legacyTx (Some SysGovToAddr) (GasLimit header) 0 nonce amount propRLP [] in
      match signTxFn val tx with
      | Err e => (Err e, s)
      | Panic => (Panic, s)
      | Ok tx =>
          let s := setNonce val (nonce +w 1) s in
          (receipt ← executeProposalMsg header prop totalTxIndex (HashOfTx tx) 0; mret (tx, receipt)) s
      end
  end.

(** The verifier's side: check the transaction, then execute. *)
Definition replayProposal (header : Header) (prop : Proposal) (totalTxIndex : Z) (tx : Transaction)
    : ST St Receipt := fun s =>
  match SenderOfTx tx with
  | Err e => (Err e, s)
  | Panic => (Panic, s)
  | Ok sender =>
      if negb (sender =? Coinbase header) then (Err (errorf "invalid sender for system governance transaction"), s) else
      match EncodeProposal prop with
      | Err e => (Err e, s)
      | Panic => (Panic, s)
      | Ok propRLP =>
          if bool_decide (propRLP <> TxData tx) then (Err (errorf "data missmatch"), s) else
          let nonce := nonceOf s sender in
          let s := setNonce sender (nonce +w 1) s in
          executeProposalMsg header prop totalTxIndex (HashOfTx tx) (HeaderHash header) s
      end
  end.

(** The loops over the passed proposals: first all are executed, then all are
    finished.  [i] counts up to [proposalCount]; [ntxs] is the number of
    transactions so far. *)
Fixpoint executeProposals (cfg : ChainConfig) (val : Address) (signTxFn : Address -> Transaction -> res Transaction)
    (header : Header) (n : nat) (i ntxs : Z) : ST St (list (Transaction * Receipt * Z)) :=
  match n with
  | O => mret []
  | S n =>
      prop ← getPassedProposalByIndex header i;
      tr ← executeProposal cfg val signTxFn header prop ntxs;
      rest ← executeProposals cfg val signTxFn header n (i + 1) (ntxs + 1);
      mret ((tr, Id prop) :: rest)
  end.

Fixpoint replayProposals (header : Header) (systemTxs : list Transaction) (i ntxs : Z)
    : ST St (list (Receipt * Z)) :=
  match systemTxs with
  | [] => mret []
  | tx :: systemTxs =>
      prop ← getPassedProposalByIndex header i;
      receipt ← replayProposal header prop ntxs tx;
      rest ← replayProposals header systemTxs (i + 1) (ntxs + 1);
      mret ((receipt, Id prop) :: rest)
  end.

Fixpoint finishProposals (header : Header) (ids : list Z) : ST St unit :=
  match ids with
  | [] => mret tt
  | id :: ids => _ ← finishProposalById header id; finishProposals header ids
  end.

(** ** The two finalizers

    [header.Difficulty.Cmp(diffInTurn) != 0] is [difficultyIs]; the returned
    header carries the state root and the hash of the empty uncle list. *)

Definition finalHeader (root : Hash) (header : Header) : Header := set_UncleHash EmptyUncleHash (set_Root root header).

Definition isBlockOne (header : Header) : res bool :=
  match Number header with None => Panic | Some n => Ok (n =? 1) end.

Definition sealState (chain : ChainHeaderReader) (header : Header) : M Header :=
  root ← on_state (fun s => let '(root, s) := IntermediateRoot (IsEIP158 (Config chain) (Number header)) s in (Ok root, s));
  mret (finalHeader root header).

Definition replayGovernance (header : Header) (systemTxs : list Transaction) (ntxs : Z) : ST St (list Receipt) :=
  proposalCount ← getPassedProposalCount header;
  _ ← st_fail_if (negb (proposalCount =? zlen systemTxs mod 4294967296)) errInvalidSysGovCount;
  rs ← replayProposals header (take (Z.to_nat proposalCount) systemTxs) 0 ntxs;
  _ ← finishProposals header rs.*2;
  mret rs.*1.

(** The steps before the epoch, the same in both: system contracts at block 1,
    punishment of the validator whose turn it was, the fees. *)
Definition beforeEpoch (oob : spec_float -> Z) (chain : ChainHeaderReader) (header : Header)
    (txs : list Transaction) : M unit :=
  cs ← st_get;
  first ← st_lift (isBlockOne header);
  _ ← (if (first : bool) then initialize chain header else mret tt);
  turn ← st_lift (difficultyIs header diffInTurn);
  _ ← (if (turn : bool) then mret tt else tryPunishValidator chain header);
  on_state (depositFees oob (chainConfig (fst cs)) header txs).

Definition isEpochHeader (header : Header) : M bool :=
  cs ← st_get;
  number ← st_lift (Number_Uint64 header);
  st_lift (isEpochBlock (config (fst cs)) number).

Definition Finalize (oob : spec_float -> Z) (chain : ChainHeaderReader) (header : Header)
    (txs : list Transaction) (receipts : list Receipt) (systemTxs : list Transaction)
    : M (Header * list Transaction * list Receipt) :=
  _ ← beforeEpoch oob chain header txs;
  epoch ← isEpochHeader header;
  _ ← (if (epoch : bool) then
         newValidators ← doSomethingAtEpoch chain header;
         middle ← st_lift (extraMiddle header);
         st_fail_if (bool_decide (middle <> addressBytes newValidators)) errInvalidExtraValidators
       else mret tt);
  rs ← (if IsRedCoast (Config chain) (Number header)
        then on_state (replayGovernance header systemTxs (zlen txs)) else mret []);
  header' ← sealState chain header;
  mret (header', if IsRedCoast (Config chain) (Number header) then txs ++ systemTxs else txs, receipts ++ rs).

Definition executeGovernance (cfg : ChainConfig) (val : Address) (signTxFn : Address -> Transaction -> res Transaction)
    (header : Header) (ntxs : Z) : ST St (list (Transaction * Receipt)) :=
  proposalCount ← getPassedProposalCount header;
  ps ← executeProposals cfg val signTxFn header (Z.to_nat proposalCount) 0 ntxs;
  _ ← finishProposals header ps.*2;
  mret ps.*1.

(** Errors of the set-up steps panic here; an epoch error is only logged. *)
Definition must {A} (m : M A) : M A := fun cs =>
  match m cs with (Err _, cs) => (Panic, cs) | r => r end.

Definition FinalizeAndAssemble (oob : spec_float -> Z) (signTxFn : option (Address -> Transaction -> res Transaction))
    (chain : ChainHeaderReader) (header : Header) (txs : list Transaction) (receipts : list Receipt)
    : M (Header * list Transaction * list Receipt) :=
  cs ← st_get;
  _ ← must (beforeEpoch oob chain header txs);
  epoch ← isEpochHeader header;
  _ ← (if (epoch : bool) then st_try (doSomethingAtEpoch chain header) else mret None);
  trs ← (match signTxFn with
         | Some signTxFn =>
             if IsRedCoast (Config chain) (Number header)
             then on_state (executeGovernance (chainConfig (fst cs)) (validator (fst cs)) signTxFn header (zlen txs))
             else mret []
         | None => mret []
         end);
  header' ← sealState chain header;
  mret (header', txs ++ trs.*1, receipts ++ trs.*2).

(** ** Preparing a header *)

(** [Prepare], with [now] for [time.Now().Unix()]. *)
Definition Prepare (now : Z) (chain : ChainHeaderReader) (header : Header) : ST Congress Header :=
  c ← st_get;
  let header := set_Nonce 0 (set_Coinbase (validator c) header) in
  number ← st_lift (Number_Uint64 header);
  snap ← snapshot chain (number -w 1) (ParentHash header) [];
  d ← st_lift (calcDifficulty snap (validator c));
  let header := set_Difficulty (Some d) header in
  let vanity := take 32 (Extra header ++ repeat Byte.x00 (32 - length (Extra header))) in
  epoch ← st_lift (isEpochBlock (config c) number);
  vals ← (if (epoch : bool)
          then st_lift (l ← getTopValidators (St:=St) (chainConfig c) chain (set_Extra vanity header); Ok (addressBytes l))
          else mret []);
  let header := set_MixDigest 0 (set_Extra (vanity ++ vals ++ repeat Byte.x00 65) header) in
  match GetHeader chain (ParentHash header) (number -w 1) with
  | None => st_err ErrUnknownAncestor
  | Some parent =>
      let t := Time parent +w Period (config c) in
      mret (set_Time (if t <? now then now else t) header)
  end.
End Finalize.
