(* ===== verification/FinalizeContext.v ===== *)
(** * The miner and the verifier of a block

    Both run the same messages against headers that differ only in the parts
    the virtual machine does not see; every step of the finalizers has the same
    outcome for both, and replaying a governance proposal repeats its
    execution. *)

From S2P Require Import StateDB StateIface Prelude Params Types Misc Snapshot Engine Contracts Finalize.
From Stdlib Require Import Floats.SpecFloat.

(** ** The block context

    The virtual machine sees a header through the fields of the block context
    ([core.NewEVMBlockContext]); the two finalizers see a few more.  The miner
    works on a header without root and seal, the verifier on the sealed one. *)

Record same_context (h h' : Header) : Prop := {
  ctx_parent : ParentHash h = ParentHash h';
  ctx_coinbase : Coinbase h = Coinbase h';
  ctx_difficulty : Difficulty h = Difficulty h';
  ctx_number : Number h = Number h';
  ctx_gasLimit : GasLimit h = GasLimit h';
  ctx_gasUsed : GasUsed h = GasUsed h';
  ctx_time : Time h = Time h';
  ctx_baseFee : BaseFee h = BaseFee h';
}.

Class VMLaws (St : Type) `{VM St} : Prop := {
  evmCall_context : forall msg h h' s, same_context h h' -> evmCall msg h s = evmCall msg h' s;
}.

(** Two computations with the same outcome on every state. *)
Definition same_run {S A} (m m' : ST S A) : Prop := forall s, m s = m' s.

Lemma same_run_bind {S A B} (m m' : ST S A) (f f' : A -> ST S B) :
  same_run m m' -> (forall a, same_run (f a) (f' a)) -> same_run (m ≫= f) (m' ≫= f').
Proof. intros Hm Hf s. unfold mbind, st_bind. rewrite Hm. destruct (m' s) as [[a|e|] s']; [apply Hf|done..]. Qed.

Lemma same_run_refl {S A} (m : ST S A) : same_run m m.
Proof. done. Qed.

Lemma same_run_try {S A} (m m' : ST S A) : same_run m m' -> same_run (st_try m) (st_try m').
Proof. intros Hm s. unfold st_try. by rewrite Hm. Qed.

Lemma same_run_if {S A} (b : bool) (m1 m1' m2 m2' : ST S A) :
  same_run m1 m1' -> same_run m2 m2' -> same_run (if b then m1 else m2) (if b then m1' else m2').
Proof. by destruct b. Qed.

#[export] Hint Resolve same_run_refl same_run_bind same_run_try same_run_if : node.

Section Context.
Context {St : Type} `{Crypto} `{Codec} `{AccountState St} `{!VM St} `{!VMLaws St} `{TxSigning}.
Context `{Cache C Hash Address} `{Cache RC Hash Snapshot} `{SnapshotDB D}.
Local Abbreviation Congress := (CongressEngine RC C D).
Variables (h h' : Header).
Hypothesis Same : same_context h h'.

Lemma ExecuteMsg_context msg : same_run (ExecuteMsg msg h : ST St (list byte)) (ExecuteMsg msg h').
Proof. intros s. unfold ExecuteMsg. by rewrite (evmCall_context msg h h') by done. Qed.

Lemma callAs_context contract method args to : same_run (callAs (St:=St) contract method args to h) (callAs contract method args to h').
Proof.
  intros s. unfold callAs. destruct (Pack _ _ _); try done.
  rewrite (ctx_coinbase _ _ Same). by rewrite ExecuteMsg_context.
Qed.

Lemma query_context contract method args to : same_run (query (St:=St) contract method args to h) (query contract method args to h').
Proof.
  intros s. unfold query. destruct (Pack _ _ _); try done.
  rewrite (ctx_coinbase _ _ Same). by rewrite ExecuteMsg_context.
Qed.
Hint Resolve ExecuteMsg_context callAs_context query_context : node.

Ltac ctx := intros; unfold GetValidatorAddr, GetPunishAddr;
  rewrite ?(ctx_parent _ _ Same), ?(ctx_coinbase _ _ Same), ?(ctx_difficulty _ _ Same), ?(ctx_number _ _ Same),
    ?(ctx_gasLimit _ _ Same), ?(ctx_gasUsed _ _ Same); auto 10 with node.

Lemma getTopValidators_context cfg chain : getTopValidators (St:=St) cfg chain h = getTopValidators cfg chain h'.
Proof. unfold getTopValidators. ctx. Qed.

Lemma initializeSystemContracts_context vs :
  same_run (initializeSystemContracts (St:=St) vs h) (initializeSystemContracts vs h').
Proof. unfold initializeSystemContracts. ctx. Qed.

Lemma updateValidators_context cfg epoch vs :
  same_run (updateValidators (St:=St) cfg epoch vs h) (updateValidators cfg epoch vs h').
Proof. unfold updateValidators. ctx. Qed.

Lemma punishValidator_context cfg v :
  same_run (punishValidator (St:=St) cfg v h) (punishValidator cfg v h').
Proof. unfold punishValidator. ctx. Qed.

Lemma decreaseMissed_context cfg epoch :
  same_run (decreaseMissedBlocksCounter (St:=St) cfg epoch h) (decreaseMissedBlocksCounter cfg epoch h').
Proof. unfold decreaseMissedBlocksCounter. ctx. Qed.

Lemma trySendBlockReward_context cfg addr gass :
  same_run (trySendBlockReward (St:=St) cfg h addr gass) (trySendBlockReward cfg h' addr gass).
Proof.
  intros s. unfold trySendBlockReward, GetValidatorAddr. rewrite (ctx_coinbase _ _ Same), (ctx_number _ _ Same).
  case_if; [done|]. destruct (Pack _ _ _); try done. by rewrite ExecuteMsg_context.
Qed.
Hint Resolve trySendBlockReward_context : node.

Lemma depositFees_context oob cfg txs :
  same_run (depositFees (St:=St) oob cfg h txs) (depositFees oob cfg h' txs).
Proof. unfold depositFees. ctx. Qed.

Lemma getPassedProposalCount_context :
  same_run (getPassedProposalCount (St:=St) h) (getPassedProposalCount h').
Proof. unfold getPassedProposalCount. ctx. Qed.

Lemma getPassedProposalByIndex_context i :
  same_run (getPassedProposalByIndex (St:=St) h i) (getPassedProposalByIndex h' i).
Proof. unfold getPassedProposalByIndex. ctx. Qed.

Lemma finishProposalById_context i : same_run (finishProposalById (St:=St) h i) (finishProposalById h' i).
Proof. unfold finishProposalById. ctx. Qed.

Lemma finishProposals_context ids : same_run (finishProposals (St:=St) h ids) (finishProposals h' ids).
Proof. induction ids; simpl; [done|]. apply same_run_bind; [apply finishProposalById_context|done]. Qed.
End Context.

(** ** Replaying governance *)

(** The receipt of the verifier is the miner's with the hash of the block
    filled in. *)
Definition locate (bHash : Hash) (r : Receipt) : Receipt :=
  mkReceipt (RType r) (PostState r) (RStatus r) (CumulativeGasUsed r) ((fun l => (l.1, bHash)) <$> RLogs r) (RBloom r)
    (RTxHash r) (ContractAddress r) (RGasUsed r) bHash (BlockNumber r) (TransactionIndex r).

Definition locateLogs (bHash : Hash) (r : Receipt) : Receipt :=
  mkReceipt (RType r) (PostState r) (RStatus r) (CumulativeGasUsed r) ((fun l => (l.1, bHash)) <$> RLogs r) (RBloom r)
    (RTxHash r) (ContractAddress r) (RGasUsed r) (BlockHash r) (BlockNumber r) (TransactionIndex r).

Definition is_address (a : Address) : Prop := 0 <= a < 256 ^ 20.

(** What the verifier relies on of the codecs and of the signatures. *)
Class CodecLaws `{Codec} : Prop := {
  Unpack_uint32 : forall c m b n, Unpack c m b = Ok [VUint32 n] -> 0 <= n < 4294967296;
  Unpack_addresses : forall c m b l, Unpack c m b = Ok [VAddresses l] -> Forall is_address l;
}.

Definition signs_for `{TxSigning} (val : Address) (signTxFn : Address -> Transaction -> res Transaction) : Prop :=
  forall tx tx', signTxFn val tx = Ok tx' -> SenderOfTx tx' = Ok val /\ TxData tx' = TxData tx.

Section Governance.
Context {St : Type} `{Crypto} `{Codec} `{!CodecLaws} `{AccountState St} `{!VM St} `{!VMLaws St} `{TxSigning}.
Variables (h h' : Header) (val : Address) (signTxFn : Address -> Transaction -> res Transaction) (cfg : ChainConfig).
Hypothesis Same : same_context h h'.
Hypothesis IsCoinbase : Coinbase h = val.
Hypothesis Signs : signs_for val signTxFn.

Lemma executeEvmCall_locate prop i txHash bHash s :
  executeEvmCallProposal h' prop i txHash bHash s =
    (let '(r, s') := executeEvmCallProposal (St:=St) h prop i txHash 0 s in (locateLogs bHash <$> r, s')).
Proof.
  unfold executeEvmCallProposal, mbind, st_bind, st_modify, st_get. cbn [fst snd].
  rewrite <- (ctx_gasLimit _ _ Same). unfold st_try. rewrite (ExecuteMsg_context h h' Same).
  destruct (ExecuteMsg _ h' _) as [[x|e|] s']; simpl; [| |done];
    unfold mret, st_ret, locateLogs, baseReceipt; simpl; rewrite (ctx_gasUsed _ _ Same);
    by rewrite <- !list_fmap_compose.
Qed.

Lemma executeProposalMsg_locate prop i txHash bHash s :
  executeProposalMsg h' prop i txHash bHash s =
    (let '(r, s') := executeProposalMsg (St:=St) h prop i txHash 0 s in (locate bHash <$> r, s')).
Proof.
  unfold executeProposalMsg, mbind, st_bind, st_get.
  rewrite <- (ctx_number _ _ Same). case_if; [|case_if].
  - rewrite executeEvmCall_locate. by destruct (executeEvmCallProposal h _ _ _ _ _) as [[r|e|] s'].
  - destruct (erase _ s) as [ok s']. destruct ok; unfold baseReceipt, locate; simpl; by rewrite (ctx_gasUsed _ _ Same).
  - unfold mret, st_ret, baseReceipt, locate. simpl. by rewrite (ctx_gasUsed _ _ Same).
Qed.

Lemma replay_execute prop i s tx r s' :
  executeProposal (St:=St) cfg val signTxFn h prop i s = (Ok (tx, r), s') ->
  replayProposal h' prop i tx s = (Ok (locate (HeaderHash h') r), s').
Proof.
  unfold executeProposal, replayProposal. destruct (EncodeProposal prop) as [data|e|]; [|done..].
  destruct (signTxFn val _) as [tx'|e|] eqn:Hs; [|done..]. intros Hrun. inv_bind Hrun.
  unfold mret, st_ret in Hrun. injection Hrun as <- <- <-. apply Signs in Hs as [-> Hd]. rewrite Hd. simpl.
  rewrite <- (ctx_coinbase _ _ Same), IsCoinbase, Z.eqb_refl. simpl.
  rewrite bool_decide_eq_false_2 by naive_solver. by rewrite executeProposalMsg_locate, Hm.
Qed.

Definition relocate (p : Transaction * Receipt * Z) : Receipt * Z := (locate (HeaderHash h') p.1.2, p.2).

Lemma replays_execute n : forall i ntxs s ps s',
  executeProposals (St:=St) cfg val signTxFn h n i ntxs s = (Ok ps, s') ->
  length ps = n /\ replayProposals h' ps.*1.*1 i ntxs s = (Ok (relocate <$> ps), s').
Proof.
  induction n as [|n IH]; intros i ntxs s ps s' Hrun; cbn [executeProposals] in Hrun.
  - unfold mret, st_ret in Hrun. by simplify_eq.
  - inv_bind Hrun. inv_bind Hrun. inv_bind Hrun. unfold mret, st_ret in Hrun. injection Hrun as <- <-.
    destruct a0 as [tx r]. apply IH in Hm1 as [Hlen Hrest]. split; [simpl; by rewrite Hlen|].
    cbn [replayProposals fmap list_fmap fst snd]. unfold mbind at 1, st_bind at 1.
    rewrite <- (getPassedProposalByIndex_context h h' Same), Hm. cbn iota.
    unfold mbind at 1, st_bind at 1. rewrite (replay_execute _ _ _ _ _ _ Hm0). cbn iota.
    unfold mbind at 1, st_bind at 1. by rewrite Hrest.
Qed.

Lemma getPassedProposalCount_range (s : St) n s' :
  getPassedProposalCount h s = (Ok n, s') -> 0 <= n < 4294967296.
Proof.
  unfold getPassedProposalCount. intros Hrun. inv_bind Hrun. inv_bind Hrun. inv_bind Hrun.
  unfold st_lift in *. simplify_eq. unfold one in *. destruct a0 as [|v [|]]; simplify_eq.
  destruct a1; unfold mret, st_ret, st_err in *; simplify_eq. by eapply Unpack_uint32.
Qed.

Lemma replayGovernance_execute ntxs s trs s' :
  executeGovernance (St:=St) cfg val signTxFn h ntxs s = (Ok trs, s') ->
  replayGovernance h' trs.*1 ntxs s = (Ok (locate (HeaderHash h') <$> trs.*2), s').
Proof.
  unfold executeGovernance, replayGovernance. intros Hrun.
  inv_bind Hrun. inv_bind Hrun. inv_bind Hrun. unfold mret, st_ret in Hrun. injection Hrun as <- <-.
  pose proof (getPassedProposalCount_range _ _ _ Hm) as Hr.
  apply replays_execute in Hm0 as [Hlen Hrep].
  unfold mbind at 1, st_bind at 1. rewrite <- (getPassedProposalCount_context h h' Same), Hm. cbn iota.
  unfold mbind at 1, st_bind at 1, st_fail_if.
  assert (Hz : zlen a0.*1.*1 = a) by (unfold zlen; rewrite !length_fmap, Hlen; lia).
  rewrite Hz, Z.mod_small, Z.eqb_refl by done. cbn [negb mret st_ret].
  rewrite take_ge by (rewrite !length_fmap; lia).
  unfold mbind at 1, st_bind at 1. rewrite Hrep. cbn iota.
  unfold mbind, st_bind. rewrite <- (finishProposals_context h h' Same).
  rewrite <- !list_fmap_compose. change (snd ∘ relocate) with (snd : Transaction * Receipt * Z -> Z). rewrite Hm1. done.
Qed.
End Governance.
