(* ===== verification/FinalizeFacts.v ===== *)
(** * What finishing a block guarantees

    A block assembled by [FinalizeAndAssemble] is accepted by [Finalize] with
    the same final state; the validators written in an accepted epoch header are
    the ones the contract named; the header [Prepare] builds satisfies the rules
    of [VerifyHeader]; the fee transfer conserves the money in the state. *)

From S2P Require Import StateDB StateFacts StateRevert StateIface Prelude Params Types Misc Snapshot Engine EngineFacts.
From S2P Require Import HeaderRules Contracts Finalize FinalizeContext.
From Stdlib Require Import Floats.SpecFloat.

(** ** Two engines on one state *)

Section Twin.
Context {St : Type} `{Crypto} `{Codec} `{!CodecLaws} `{AccountState St} `{!VM St} `{!VMLaws St} `{TxSigning}.
Context `{CacheLaws C Hash Address} `{CacheLaws RC Hash Snapshot} `{SnapshotDBLaws D}.
Local Abbreviation Congress := (CongressEngine RC C D).
Local Abbreviation M := (ST (Congress * St)).

(** The same outcome and the same effect on the state, from engines related by
    [I] to engines related by [J]. *)
Definition twin (I J : Congress -> Congress -> Prop) {A} (m m' : M A) : Prop :=
  forall c c' s, I c c' ->
    exists r c1 c1' s1, m (c, s) = (r, (c1, s1)) /\ m' (c', s) = (r, (c1', s1)) /\ J c1 c1'.

Lemma twin_bind I J K {A B} (m m' : M A) (f f' : A -> M B) :
  (forall c c', J c c' -> K c c') ->
  twin I J m m' -> (forall a, twin J K (f a) (f' a)) -> twin I K (m ≫= f) (m' ≫= f').
Proof.
  intros HJK Hm Hf c c' s Hc. destruct (Hm c c' s Hc) as (r & c1 & c1' & s1 & E & E' & HJ).
  unfold mbind, st_bind. rewrite E, E'. destruct r as [a|e|]; [by apply Hf| |]; eauto 10.
Qed.

Lemma twin_lift (I : Congress -> Congress -> Prop) {A} (r : res A) : twin I I (st_lift r) (st_lift r).
Proof. intros c c' s Hc. unfold st_lift. eauto 10. Qed.

Lemma twin_lift_ok I J {A B} (a a' : A) (f f' : A -> M B) :
  twin I J (f a) (f' a') -> twin I J (st_lift (Ok a) ≫= f) (st_lift (Ok a') ≫= f').
Proof. done. Qed.

Lemma twin_weaken (I J : Congress -> Congress -> Prop) {A} (m m' : M A) :
  (forall c c', I c c' -> J c c') -> twin I I m m' -> twin I J m m'.
Proof. intros HIJ Hm c c' s Hc. destruct (Hm c c' s Hc) as (r & c1 & c1' & s1 & E & E' & HI). eauto 10. Qed.

Lemma twin_ret (I : Congress -> Congress -> Prop) {A} (a : A) : twin I I (mret a) (mret a).
Proof. intros c c' s Hc. unfold mret, st_ret. eauto 10. Qed.

Lemma twin_state (I : Congress -> Congress -> Prop) {A} (m m' : ST St A) :
  same_run m m' -> twin I I (on_state m) (on_state m').
Proof. intros Hm c c' s Hc. unfold on_state. simpl. rewrite Hm. destruct (m' s) as [r s1]. eauto 10. Qed.

Lemma twin_get (I J : Congress -> Congress -> Prop) {A} (f f' : Congress * St -> M A) :
  (forall c c' s, I c c' -> twin I J (f (c, s)) (f' (c', s))) -> twin I J (st_get ≫= f) (st_get ≫= f').
Proof. intros Hf c c' s Hc. unfold mbind, st_bind, st_get. by apply Hf. Qed.

Lemma twin_if (I J : Congress -> Congress -> Prop) (b : bool) {A} (m1 m1' m2 m2' : M A) :
  (b = true -> twin I J m1 m1') -> (b = false -> twin I J m2 m2') ->
  twin I J (if b then m1 else m2) (if b then m1' else m2').
Proof. destruct b; auto. Qed.

(** ** The engines of the miner and of the verifier, on top of block [n] *)

Variables (cfg : CongressConfig) (genesis : Header) (hs : list Header) (vals : list Address).
Variables (chain : ChainHeaderReader) (n : nat) (parent h h' : Header).
Hypothesis Linked : linked_chain genesis hs.
Hypothesis EpochSet : Epoch cfg <> 0.
Hypothesis GenesisVals : extraValidators (Extra genesis) = Ok vals.
Hypothesis View : chain_view chain genesis.
Hypothesis Parent : (genesis :: hs) !! n = Some parent.
Hypothesis Stored : batch_ok chain (genesis :: hs) n (S n) [].
Hypothesis OnParent : ParentHash h = HeaderHash parent.
Hypothesis NextNumber : Number h = Some (Z.of_nat n + 1).
Hypothesis Same : same_context h h'.

Definition same_config (c c' : Congress) : Prop := chainConfig c = chainConfig c' /\ config c = config c' /\ config c = cfg.

Definition ready (c : Congress) : Prop :=
  engine_ok cfg genesis hs vals c /\ exists m, anchored genesis hs c m n.

Definition both_ready (c c' : Congress) : Prop := ready c /\ ready c' /\ chainConfig c = chainConfig c'.

Lemma both_ready_config c c' : both_ready c c' -> same_config c c'.
Proof. intros ([Hc _] & [Hc' _] & He). split_and!; [done|by rewrite (engine_cfg _ _ _ _ _ Hc), (engine_cfg _ _ _ _ _ Hc')|apply Hc]. Qed.

Lemma parent_snapshot c : ready c ->
  exists c1, snapshot chain (Z.of_nat n) (HeaderHash parent) [] c = (ideal cfg genesis hs vals n, c1) /\
    engine_ok cfg genesis hs vals c1 /\ chainConfig c1 = chainConfig c.
Proof.
  intros [Hc [m Hm]].
  assert (Hnil : drop (S n) (take (S n) (genesis :: hs)) = []) by (apply drop_ge; rewrite length_take; lia).
  destruct (snapshot_correct cfg genesis hs vals chain n (S n) m parent c) as (c1 & E & Hc1); try done.
  { by rewrite Hnil. }
  rewrite Hnil in E. exists c1. split_and!; [done..|].
  pose proof (snapshot_keeps chain (Z.of_nat n) (HeaderHash parent) [] c) as Hk. rewrite E in Hk. by injection Hk.
Qed.

Hypothesis InRange : is_u64 (Z.of_nat n + 1).

Lemma twin_snapshot (J : Congress -> Congress -> Prop) :
  (forall c c', ready c -> ready c' -> forall c1 c1', engine_ok cfg genesis hs vals c1 -> engine_ok cfg genesis hs vals c1' ->
     chainConfig c1 = chainConfig c1' -> J c1 c1') ->
  twin both_ready J (on_engine (snapshot chain (Z.of_nat n) (HeaderHash parent) []))
    (on_engine (snapshot chain (Z.of_nat n) (HeaderHash parent) [])).
Proof.
  intros HJ c c' s (Hc & Hc' & He). destruct (parent_snapshot c Hc) as (c1 & E & Hc1 & He1).
  destruct (parent_snapshot c' Hc') as (c1' & E' & Hc1' & He1'). unfold on_engine. simpl. rewrite E, E'.
  eexists _, c1, c1', s. split_and!; [done..|]. eapply (HJ c c'); congruence.
Qed.

Lemma initialize_twin : n = 0%nat -> twin both_ready both_ready (initialize (St:=St) chain h) (initialize chain h').
Proof.
  intros Hn. unfold initialize. rewrite <- (ctx_parent _ _ Same), OnParent.
  apply (twin_bind _ both_ready); [done| |].
  - change 0 with (Z.of_nat 0). rewrite <- Hn. apply twin_snapshot. intros c c' _ _ c1 c1' Hr Hr' He.
    split_and!; [split; [done|]; exists 0%nat; split_and!..|done];
      rewrite ?Hn; unfold FullImmutabilityThreshold; auto; lia.
  - intros snap. apply twin_state, initializeSystemContracts_context, Same.
Qed.

Lemma number_lift : Number_Uint64 h = Ok (Z.of_nat n + 1) /\ Number_Uint64 h' = Ok (Z.of_nat n + 1) /\
  Z.of_nat n + 1 -w 1 = Z.of_nat n.
Proof.
  unfold Number_Uint64. rewrite <- (ctx_number _ _ Same), NextNumber, u64_small by done.
  split_and!; [done..|]. word_lia.
Qed.

Lemma same_engine_ok c c' : engine_ok cfg genesis hs vals c -> engine_ok cfg genesis hs vals c' ->
  chainConfig c = chainConfig c' -> same_config c c'.
Proof. intros Hc Hc' He. split_and!; [done|by rewrite (engine_cfg _ _ _ _ _ Hc), (engine_cfg _ _ _ _ _ Hc')|apply Hc]. Qed.

Lemma tryPunish_twin : twin both_ready same_config (tryPunishValidator (St:=St) chain h) (tryPunishValidator chain h').
Proof.
  unfold tryPunishValidator. destruct number_lift as (-> & -> & Hp).
  apply twin_lift_ok. rewrite Hp, <- (ctx_parent _ _ Same), OnParent.
  apply (twin_bind _ same_config); [done| |].
  { apply twin_snapshot. intros c c' _ _ c1 c1'. apply same_engine_ok. }
  intros snap. apply twin_get. intros c c' s (He & _). cbn [fst].
  case_if; [intros d d' s' Hd; unfold st_panic; eauto 10|].
  destruct (validators snap !! _) as [v|]; [|intros d d' s' Hd; unfold st_panic; eauto 10].
  case_if; [apply twin_ret|]. rewrite He. apply twin_state, punishValidator_context, Same.
Qed.

Lemma beforeEpoch_twin oob txs :
  twin both_ready same_config (beforeEpoch (St:=St) oob chain h txs) (beforeEpoch oob chain h' txs).
Proof.
  unfold beforeEpoch. apply twin_get. intros c c' s (Hc & Hc' & He). cbn [fst]. rewrite He.
  unfold isBlockOne, difficultyIs. rewrite <- (ctx_number _ _ Same), <- (ctx_difficulty _ _ Same), NextNumber.
  apply twin_lift_ok. apply (twin_bind _ both_ready); [apply both_ready_config| |].
  { destruct (Z.of_nat n + 1 =? 1) eqn:E; bool_Z; [apply initialize_twin; lia|apply twin_ret]. }
  intros _. apply (twin_bind _ both_ready); [apply both_ready_config|apply twin_lift|]. intros turn.
  apply (twin_bind _ same_config); [done| |].
  - apply twin_if; intros _; [apply twin_weaken; [apply both_ready_config|apply twin_ret]|apply tryPunish_twin].
  - intros _. apply twin_state, depositFees_context, Same.
Qed.

Lemma doSomethingAtEpoch_twin :
  twin same_config same_config (doSomethingAtEpoch (St:=St) chain h) (doSomethingAtEpoch chain h').
Proof.
  unfold doSomethingAtEpoch. apply twin_get. intros c c' s (He & Hf & _). cbn [fst]. rewrite He, Hf.
  rewrite (getTopValidators_context h h' Same).
  apply (twin_bind _ same_config); [done|apply twin_lift|]. intros vs.
  apply (twin_bind _ same_config); [done|apply twin_state, updateValidators_context, Same|]. intros _.
  apply (twin_bind _ same_config); [done|apply twin_state, decreaseMissed_context, Same|]. intros _. apply twin_ret.
Qed.

Lemma isEpochHeader_run (c : Congress) (s : St) hd :
  config c = cfg -> Number hd = Number h ->
  isEpochHeader hd (c, s) = (Ok ((Z.of_nat n + 1) mod Epoch cfg =? 0), (c, s)).
Proof.
  intros Hc Hn. unfold isEpochHeader, mbind, st_bind, st_get, st_lift, Number_Uint64, isEpochBlock. cbn [fst].
  rewrite Hn, NextNumber, u64_small, Hc by done. cbn iota.
  destruct (Epoch cfg =? 0) eqn:E; bool_Z; [lia|done].
Qed.

Lemma must_ok {A} (m : M A) cs a cs' : must m cs = (Ok a, cs') -> m cs = (Ok a, cs').
Proof. unfold must. destruct (m cs) as [[x|e|] cs1]; congruence. Qed.

Variables (c c' : Congress) (s : St) (oob : spec_float -> Z).
Variables (signTxFn : Address -> Transaction -> res Transaction) (txs : list Transaction).
Hypothesis Ready : both_ready c c'.
Hypothesis Miner : Coinbase h = validator c.
Hypothesis Signs : signs_for (validator c) signTxFn.

(** The epoch step succeeded for the miner, and the verifier's header lists the
    validators it found. *)
Definition epoch_ok : Prop := forall cs1, beforeEpoch oob chain h txs (c, s) = (Ok tt, cs1) ->
  (Z.of_nat n + 1) mod Epoch cfg = 0 ->
  exists vs cs2, doSomethingAtEpoch chain h cs1 = (Ok vs, cs2) /\ extraMiddle h' = Ok (addressBytes vs).

Lemma epoch_step_agree c1 c1' s1 ep o c2 s2 :
  beforeEpoch oob chain h txs (c, s) = (Ok tt, (c1, s1)) -> epoch_ok -> same_config c1 c1' ->
  ep = ((Z.of_nat n + 1) mod Epoch cfg =? 0) ->
  (if ep then st_try (doSomethingAtEpoch chain h) else mret None) (c1, s1) = (Ok o, (c2, s2)) ->
  exists c2',
    (if (ep : bool) then
       newValidators ← doSomethingAtEpoch chain h';
       middle ← st_lift (extraMiddle h');
       st_fail_if (bool_decide (middle <> addressBytes newValidators)) errInvalidExtraValidators
     else mret tt) (c1', s1) = (Ok tt, (c2', s2)) /\ same_config c2 c2'.
Proof.
  intros Hb Hep Hs -> Hrun. case_if; bool_Z.
  - destruct (Hep _ Hb E) as (vs & [c3 s3] & Hd & Hx).
    unfold st_try in Hrun. rewrite Hd in Hrun. injection Hrun as <- <- <-.
    destruct (doSomethingAtEpoch_twin _ _ s1 Hs) as (r & c4 & c4' & s4 & E1 & E2 & HJ).
    rewrite Hd in E1. injection E1 as <- <- <-.
    exists c4'. split; [|done]. unfold mbind, st_bind. rewrite E2, Hx. unfold st_lift.
    by rewrite bool_decide_eq_false_2 by auto.
  - injection Hrun as <- <- <-. by exists c1'.
Qed.

Lemma governance_agree cs1 trs s2 :
  executeGovernance (chainConfig c) (validator c) signTxFn h (zlen txs) cs1 = (Ok trs, s2) ->
  replayGovernance (St:=St) h' trs.*1 (zlen txs) cs1 = (Ok (locate (HeaderHash h') <$> trs.*2), s2).
Proof. by eapply replayGovernance_execute. Qed.

Lemma sealState_run (c0 : Congress) (s0 : St) (hd : Header) :
  Number hd = Number h ->
  sealState chain hd (c0, s0) =
    (Ok (finalHeader (IntermediateRoot (IsEIP158 (Config chain) (Number h)) s0).1 hd),
     (c0, (IntermediateRoot (IsEIP158 (Config chain) (Number h)) s0).2)).
Proof.
  intros Hn. unfold sealState, mbind, st_bind, on_state. cbn [fst snd]. rewrite Hn.
  by destruct (IntermediateRoot _ s0).
Qed.

Lemma assembled_agree receipts receiptsV hf txs' receipts' c1 s1 :
  epoch_ok ->
  FinalizeAndAssemble oob (Some signTxFn) chain h txs receipts (c, s) = (Ok (hf, txs', receipts'), (c1, s1)) ->
  exists c1', Finalize oob chain h' txs receiptsV (drop (length txs) txs') (c', s) =
    (Ok (finalHeader (Root hf) h', txs',
         receiptsV ++ (locate (HeaderHash h') <$> drop (length receipts) receipts')), (c1', s1)).
Proof.
  intros Hep Hrun. unfold FinalizeAndAssemble in Hrun. inv_bind Hrun. injection Hm as <- <-.
  inv_bind Hrun. apply must_ok in Hm. destruct a. destruct s0 as [c2 s2].
  destruct (beforeEpoch_twin oob txs c c' s Ready) as (r & d & d' & s2' & Eb & Eb' & Hsame).
  rewrite Hm in Eb. injection Eb as <- <- <-.
  inv_bind Hrun. rewrite isEpochHeader_run in Hm0 by (done || apply Hsame). injection Hm0 as <- <-.
  inv_bind Hrun. destruct s0 as [c3 s3].
  destruct (epoch_step_agree c2 d' s2 _ _ c3 s3 Hm Hep Hsame eq_refl Hm0) as (c3' & Ee & Hsame3).
  inv_bind Hrun. destruct s0 as [c4 s4]. inv_bind Hrun. unfold mret, st_ret in Hrun.
  injection Hrun as Hf Ht Hr Hc1. rewrite sealState_run in Hm2 by done. injection Hm2 as Hd Hc4.
  subst s0. injection Hc1 as <- <-. subst a1 hf txs' receipts'.
  unfold Finalize. unfold mbind at 1, st_bind at 1. rewrite Eb'. cbn iota.
  unfold mbind at 1, st_bind at 1.
  rewrite isEpochHeader_run; [|by destruct Hsame as (_ & <- & ?)|by rewrite (ctx_number _ _ Same)]. cbn iota.
  unfold mbind at 1, st_bind at 1. rewrite Ee. cbn iota.
  rewrite !drop_app_length. rewrite <- (ctx_number _ _ Same).
  unfold mbind at 1, st_bind at 1.
  destruct (IsRedCoast (Config chain) (Number h)).
  - unfold on_state in Hm1 |- *. cbn [fst snd] in *.
    destruct (executeGovernance _ _ _ _ _ s3) as [[trs|e|] s5] eqn:Eg; [|congruence..].
    injection Hm1 as <- <- <-.
    rewrite (governance_agree _ _ _ Eg). unfold mbind, st_bind.
    rewrite sealState_run by (by rewrite (ctx_number _ _ Same)). by eexists.
  - unfold mret, st_ret in Hm1. injection Hm1 as <- <- <-. unfold mret, st_ret, mbind, st_bind.
    rewrite sealState_run by (by rewrite (ctx_number _ _ Same)). simpl. rewrite !app_nil_r. by eexists.
Qed.
End Twin.

(** ** The validators of an epoch header *)

Lemma addressBytes_cons a l : addressBytes (a :: l) = be_encode 20 a ++ addressBytes l.
Proof. done. Qed.

Lemma length_addressBytes l : length (addressBytes l) = (20 * length l)%nat.
Proof.
  induction l as [|a l IH]; [done|]. rewrite addressBytes_cons, length_app, IH, length_be_encode. simpl length. lia.
Qed.

(** Reading the addresses back, whatever surrounds them. *)
Lemma read_addresses pre l post :
  Forall is_address l ->
  ((fun i => be_decode (take 20 (drop (length pre + 20 * i) (pre ++ addressBytes l ++ post)))) <$> seq 0 (length l)) = l.
Proof.
  intros Hl. revert pre. induction Hl as [|a l Ha Hl IH]; intros pre; [done|].
  cbn [length seq fmap list_fmap]. f_equal.
  - rewrite drop_app_length' by lia. rewrite addressBytes_cons, <- app_assoc.
    rewrite take_app_length' by (by rewrite length_be_encode). rewrite be_decode_encode. apply Z.mod_small. exact Ha.
  - rewrite <- (fmap_S_seq 0). rewrite <- list_fmap_compose. rewrite <- (IH (pre ++ be_encode 20 a)) at 2.
    apply list_fmap_ext. intros i x _. unfold compose. do 2 f_equal.
    rewrite addressBytes_cons, <- !app_assoc, length_app, length_be_encode. f_equal. lia.
Qed.

Lemma extraValidators_middle h l :
  Forall is_address l -> extraMiddle h = Ok (addressBytes l) -> extraValidators (Extra h) = Ok l.
Proof.
  unfold extraMiddle, extraValidators, extraVanity, extraSeal, AddressLength. intros Hl Hm.
  destruct (_ <? 32) eqn:E; [done|]. bool_Z. apply (f_equal (fun r => match r with Ok x => x | _ => [] end)) in Hm.
  set (x := Extra h) in *. set (k := Z.to_nat (zlen x - 65)) in *.
  assert (Hx : x = take 32 x ++ addressBytes l ++ drop k x).
  { rewrite <- Hm, app_assoc, <- (take_drop k x) at 1. f_equal.
    assert (Ht : take 32 x = take 32 (take k x)) by (rewrite take_take; f_equal; lia). by rewrite Ht, take_drop. }
  assert (Hk : (k <= length x)%nat) by (unfold k, zlen; lia).
  assert (Hlen : (k - 32 = 20 * length l)%nat).
  { rewrite <- length_addressBytes, <- Hm, length_drop, length_take. lia. }
  replace (Z.quot (zlen x - 32 - 65) 20) with (zlen l).
  2: { replace (zlen x - 32 - 65) with (zlen l * 20) by (unfold k, zlen in *; lia). by rewrite Z.quot_mul. }
  destruct (zlen l <? 0) eqn:E0; bool_Z; [unfold zlen in E0; lia|]. f_equal.
  unfold zlen. rewrite Nat2Z.id.
  pose proof (read_addresses (take 32 x) l (drop k x) Hl) as Hr. rewrite <- Hx, length_take in Hr.
  by replace (32 `min` length x)%nat with 32%nat in Hr by lia.
Qed.

Section Epochs.
Context {St : Type} `{Crypto} `{Codec} `{!CodecLaws} `{AccountState St} `{!VM St} `{TxSigning}.
Context `{Cache C Hash Address} `{Cache RC Hash Snapshot} `{SnapshotDB D}.
Local Abbreviation Congress := (CongressEngine RC C D).
Local Abbreviation M := (ST (Congress * St)).

Lemma getTopValidators_addresses cfg chain h vs :
  getTopValidators (St:=St) cfg chain h = Ok vs -> Forall is_address vs.
Proof.
  unfold getTopValidators. destruct (Number h); [|done]. destruct (GetHeader _ _ _); [|done].
  intros Hrun. do 5 inv_bind Hrun.
  unfold one in *. destruct a2 as [|v [|]]; simplify_eq. destruct a3; simplify_eq.
  rewrite merge_sort_Permutation. by eapply Unpack_addresses.
Qed.

Definition engine_of (cs : Congress * St) : ChainConfig * CongressConfig * Address * bool := engine_id (fst cs).

Lemma keeps_on_state {A} (m : ST St A) : st_keeps engine_of (on_state (RC:=RC) (C:=C) (D:=D) m).
Proof. intros cs. unfold on_state, engine_of. by destruct (m (snd cs)). Qed.

Lemma keeps_on_snapshot chain n k ps : st_keeps engine_of (on_engine (St:=St) (RC:=RC) (C:=C) (D:=D) (snapshot chain n k ps)).
Proof.
  intros cs. unfold on_engine, engine_of. pose proof (snapshot_keeps chain n k ps (fst cs)) as Hk.
  by destruct (snapshot chain n k ps (fst cs)).
Qed.
Hint Resolve keeps_on_state keeps_on_snapshot : node.

Lemma beforeEpoch_keeps oob chain h txs : st_keeps engine_of (beforeEpoch (St:=St) (RC:=RC) (C:=C) (D:=D) oob chain h txs).
Proof.
  unfold beforeEpoch, initialize, tryPunishValidator. apply st_keeps_bind; [auto with node|]. intros cs.
  apply st_keeps_bind; [auto with node|]. intros first.
  apply st_keeps_bind; [apply st_keeps_if; auto with node|]. intros _.
  apply st_keeps_bind; [auto with node|]. intros turn. apply st_keeps_bind; [|auto with node].
  apply st_keeps_if; [auto with node|]. apply st_keeps_bind; [auto with node|]. intros num.
  apply st_keeps_bind; [auto with node|]. intros snap. apply st_keeps_bind; [auto with node|]. intros cs'.
  apply st_keeps_if; [auto with node|]. destruct (_ !! _); auto with node.
Qed.

Variables (oob : spec_float -> Z) (chain : ChainHeaderReader) (h : Header) (txs : list Transaction).
Variables (c : Congress) (s : St).

Lemma isEpochHeader_at (cs : Congress * St) :
  Number h <> None -> engine_of cs = engine_id c -> Epoch (config c) <> 0 ->
  isEpochHeader h cs = (Ok (NumberU64 h mod Epoch (config c) =? 0), cs).
Proof.
  intros Hn Hc He. unfold isEpochHeader, mbind, st_bind, st_get, st_lift, Number_Uint64, NumberU64, isEpochBlock.
  destruct (Number h) as [num|]; [|done]. cbn iota.
  assert (Hcfg : config cs.1 = config c) by (by injection Hc). rewrite Hcfg.
  destruct (Epoch (config c) =? 0) eqn:E; bool_Z; [lia|done].
Qed.

Lemma isEpochHeader_inv (cs cs' : Congress * St) b :
  isEpochHeader h cs = (Ok b, cs') -> cs' = cs /\ Number h <> None /\ Epoch (config cs.1) <> 0 /\
  b = (NumberU64 h mod Epoch (config cs.1) =? 0).
Proof.
  unfold isEpochHeader, NumberU64. intros Hrun. inv_bind Hrun. injection Hm as <- <-. inv_bind Hrun.
  unfold st_lift, Number_Uint64, isEpochBlock in *. destruct (Number h); [|done]. injection Hm as <- <-.
  destruct (Epoch _ =? 0) eqn:E; [done|]. injection Hrun as <- <-. bool_Z. done.
Qed.

Lemma finalize_epoch receipts systemTxs out cs' :
  Finalize oob chain h txs receipts systemTxs (c, s) = (Ok out, cs') -> NumberU64 h mod Epoch (config c) = 0 ->
  exists vs, getTopValidators (St:=St) (chainConfig c) chain h = Ok vs /\ extraMiddle h = Ok (addressBytes vs).
Proof.
  unfold Finalize. intros Hrun He. inv_bind Hrun.
  pose proof (beforeEpoch_keeps oob chain h txs (c, s)) as Hk. rewrite Hm in Hk. unfold engine_of in Hk. simpl in Hk.
  inv_bind Hrun. apply isEpochHeader_inv in Hm0 as (-> & _ & _ & ->).
  assert (Hcfg : config s0.1 = config c) by (by injection Hk). rewrite Hcfg, He in Hrun. simpl in Hrun.
  assert (Hcc : chainConfig s0.1 = chainConfig c) by (by injection Hk).
  inv_bind Hrun. inv_bind Hm0. inv_bind Hm0. unfold st_lift in Hm2. injection Hm2 as Hx <-.
  unfold st_fail_if in Hm0. destruct (bool_decide _) eqn:Eb; [done|]. apply bool_decide_eq_false, dec_stable in Eb.
  unfold doSomethingAtEpoch in Hm1. inv_bind Hm1. injection Hm2 as <- <-.
  inv_bind Hm1. inv_bind Hm1. inv_bind Hm1. injection Hm1 as <- <-. unfold st_lift in Hm2.
  injection Hm2 as Ht <-. rewrite Hcc in Ht. eexists. split; [exact Ht|]. by rewrite Hx, Eb.
Qed.

Lemma epoch_failure receipts systemTxs cs1 e c2 s2 :
  beforeEpoch oob chain h txs (c, s) = (Ok tt, cs1) -> Number h <> None -> Epoch (config c) <> 0 ->
  NumberU64 h mod Epoch (config c) = 0 -> doSomethingAtEpoch chain h cs1 = (Err e, (c2, s2)) ->
  Finalize oob chain h txs receipts systemTxs (c, s) = (Err e, (c2, s2)) /\
  exists root s3, FinalizeAndAssemble oob None chain h txs receipts (c, s) =
    (Ok (finalHeader root h, txs, receipts), (c2, s3)).
Proof.
  intros Hb Hn He0 He Hd. pose proof (beforeEpoch_keeps oob chain h txs (c, s)) as Hk. rewrite Hb in Hk.
  assert (Hep := isEpochHeader_at cs1 Hn Hk He0). rewrite He in Hep. simpl in Hep. split.
  - unfold Finalize, mbind, st_bind. by rewrite Hb, Hep, Hd.
  - unfold FinalizeAndAssemble, mbind, st_bind, st_get, must. rewrite Hb, Hep. unfold st_try. rewrite Hd.
    unfold mret, st_ret, sealState, on_state, mbind, st_bind. cbn [fst snd].
    destruct (IntermediateRoot _ s2) as [root s3]. exists root, s3. unfold mret, st_ret. simpl. by rewrite !app_nil_r.
Qed.
End Epochs.

(** ** The fees *)

Section Fees.
Context {St : Type} `{Codec} `{AccountLaws St} `{!VM St}.

(** The state after the fees were credited to the coinbase. *)
Definition depositState (header : Header) (s : St) : St :=
  setBalance FeeRecoder 0 (addBalance (Coinbase header) (balanceOf s FeeRecoder) s).

Lemma depositState_spec header s :
  stateOk s -> Coinbase header <> FeeRecoder ->
  let s1 := depositState header s in
  stateOk s1 /\ keeps_nonces s s1 /\ keeps_refund s s1 /\
  forall b, balanceOf s1 b = if decide (FeeRecoder = b) then 0
                           else if decide (Coinbase header = b) then balanceOf s (Coinbase header) + balanceOf s FeeRecoder
                           else balanceOf s b.
Proof.
  intros Hs Hne s1. unfold s1, depositState.
  destruct (add_law (Coinbase header) (balanceOf s FeeRecoder) s Hs) as (Ha & Hn & Hr & Hb).
  destruct (set_law FeeRecoder 0 _ Ha) as (Ha2 & Hn2 & Hr2 & Hb2). split_and!; [done| | |].
  - intros b. by rewrite Hn2, Hn.
  - unfold keeps_refund in *. by rewrite Hr2, Hr.
  - intros b. rewrite Hb2. case_decide; [done|]. apply Hb.
Qed.

Lemma depositState_total header s l :
  stateOk s -> Coinbase header <> FeeRecoder -> NoDup l -> Coinbase header ∈ l -> FeeRecoder ∈ l ->
  totalBalance l (depositState header s) = totalBalance l s.
Proof.
  intros Hs Hne Hnd Hc Hf. unfold depositState.
  destruct (add_law (Coinbase header) (balanceOf s FeeRecoder) s Hs) as (Ha & _ & _ & Hb).
  destruct (set_law FeeRecoder 0 _ Ha) as (_ & _ & _ & Hb2).
  rewrite (total_change l _ _ _ _ Hnd Hb2), (total_change l _ _ _ _ Hnd Hb), !decide_True by done.
  rewrite (Hb FeeRecoder), decide_False by done. lia.
Qed.

Lemma trySendBlockReward_deposit cfg header addr gass s :
  0 < balanceOf s FeeRecoder ->
  trySendBlockReward cfg header addr gass s =
    match Pack validatorsContract "distributeBlockReward" [VAddresses addr; VUint64s gass] with
    | Ok data =>
        let s1 := depositState header s in
        let '(r, s2) := ExecuteMsg (NewLegacyMessage (Coinbase header) (GetValidatorAddr (Number header) cfg)
                                      (nonceOf s1 (Coinbase header)) (balanceOf s FeeRecoder) MaxGas 0 data true)
                          header s1 in
        ((fun _ => tt) <$> r, s2)
    | Err e => (Err e, depositState header s)
    | Panic => (Panic, depositState header s)
    end.
Proof.
  intros Hf. unfold trySendBlockReward. destruct (_ <=? 0) eqn:E; bool_Z; [lia|].
  fold (depositState header s). destruct (Pack _ _ _); [|done..]. by destruct (ExecuteMsg _ _ _) as [[?|?|] ?].
Qed.

Lemma depositFees_outcome oob cfg header txs s :
  exists o, (depositFees (St:=St) oob cfg header txs s).1 = o /\ forall e, o <> Err e.
Proof.
  eexists. split; [done|]. unfold depositFees. destruct (length txs =? 0)%nat; [done|].
  unfold mbind, st_bind, st_get, st_try. by destruct (trySendBlockReward _ _ _ _ _) as [[?|?|] ?].
Qed.
End Fees.
