(* ===== verification/FinalizeProps.v ===== *)
(** * The properties of block production

    Preparing, assembling, finalising: the theorems, and a concrete run of
    them on a chain whose fourth block is an epoch block with one governance
    proposal. *)

From S2P Require Import StateDB StateFacts StateRevert JournalFacts StateIface Prelude Params Types Misc Snapshot Engine EngineFacts.
From S2P Require Import HeaderRules Contracts Finalize FinalizeContext FinalizeFacts.
From Stdlib Require Import Floats.SpecFloat.

(** ** Preparing a header *)

Section Prepared.
Context {St : Type} `{Crypto} `{Codec} `{!CodecLaws} `{AccountState St} `{!VM St}.
Context `{Cache C Hash Address} `{Cache RC Hash Snapshot} `{SnapshotDB D}.
Variables (now : Z) (chain : ChainHeaderReader).

Lemma extra_layout vanity mid seal h :
  length vanity = 32%nat -> length seal = 65%nat -> Extra h = vanity ++ mid ++ seal ->
  extraMiddle h = Ok mid /\ zlen (Extra h) = 97 + zlen mid.
Proof.
  intros Hv Hs Hx. unfold extraMiddle, extraVanity, extraSeal.
  assert (Hz : zlen (Extra h) = 97 + zlen mid) by (rewrite Hx; unfold zlen; rewrite !length_app; lia).
  split; [|done]. rewrite Hz. assert (0 <= zlen mid) by (unfold zlen; lia).
  destruct (_ <? 32) eqn:E; bool_Z; [lia|]. f_equal. rewrite Hx, app_assoc.
  rewrite take_app_length' by (rewrite length_app; unfold zlen; lia). by rewrite drop_app_length' by lia.
Qed.

Lemma getTopValidators_fields cfg h h' :
  ParentHash h = ParentHash h' -> Coinbase h = Coinbase h' -> Number h = Number h' ->
  getTopValidators (St:=St) cfg chain h = getTopValidators cfg chain h'.
Proof. intros Hp Hc Hn. unfold getTopValidators. by rewrite Hp, Hc, Hn. Qed.

(** The extra-data of a prepared header. *)
Definition prepared_extra (c : CongressEngine RC C D) (h1 : Header) : Prop :=
  if decide (NumberU64 h1 mod Epoch (config c) = 0)
  then exists vs, getTopValidators (St:=St) (chainConfig c) chain h1 = Ok vs /\ extraMiddle h1 = Ok (addressBytes vs) /\
         extraValidators (Extra h1) = Ok vs /\ zlen (Extra h1) = 97 + 20 * zlen vs
  else zlen (Extra h1) = 97.

(** The header once the rest is filled in: the fields [Prepare] sets are kept,
    but for the seal in the extra data; the uncle hash is that of no uncles. *)
Definition completes (h1 h : Header) : Prop :=
  Number h = Number h1 /\ Time h = Time h1 /\ zlen (Extra h) = zlen (Extra h1) /\ MixDigest h = MixDigest h1 /\
  Difficulty h = Difficulty h1 /\ UncleHash h = EmptyUncleHash.

Lemma prepare_spec (h0 h1 : Header) (c c' : CongressEngine RC C D) :
  Prepare (St:=St) now chain h0 c = (Ok h1, c') ->
  exists snap parent turn,
    snapshot chain (NumberU64 h0 -w 1) (ParentHash h0) [] c = (Ok snap, c') /\
    GetHeader chain (ParentHash h0) (NumberU64 h0 -w 1) = Some parent /\
    inturn snap (sNumber snap +w 1) (validator c) = Ok turn /\
    Difficulty h1 = Some (if turn then 2 else 1) /\ Coinbase h1 = validator c /\ MixDigest h1 = 0 /\
    Number h1 = Number h0 /\ ParentHash h1 = ParentHash h0 /\
    u64 (Time parent + Period (config c)) <= Time h1 /\ now <= Time h1 /\ prepared_extra c h1.
Proof.
  unfold Prepare. intros Hrun. inv_bind Hrun. injection Hm as <- <-.
  inv_bind Hrun. unfold st_lift in Hm. injection Hm as Hnum <-.
  assert (Hn : a = NumberU64 h0).
  { unfold Number_Uint64 in Hnum. cbn in Hnum. unfold NumberU64. destruct (Number h0); [|done]. by injection Hnum. }
  inv_bind Hrun. rename a0 into snap. inv_bind Hrun. unfold st_lift in Hm0. injection Hm0 as Hd <-.
  unfold calcDifficulty in Hd. inv_bind Hd. rename a1 into turn. injection Hd as <-.
  inv_bind Hrun. unfold st_lift in Hm1. injection Hm1 as Hep <-. inv_bind Hrun. rename a1 into mid.
  match type of Hrun with context [GetHeader chain ?p _] => change p with (ParentHash h0) in Hrun end.
  match type of Hm with context [snapshot chain _ ?p _] => change p with (ParentHash h0) in Hm end.
  destruct (GetHeader chain (ParentHash h0) (a -w 1)) as [parent|] eqn:Hpar; [|by unfold st_err in Hrun].
  unfold mret, st_ret in Hrun. injection Hrun as <- <-.
  set (van := take 32 _) in *.
  assert (Hvan : length van = 32%nat) by (unfold van; simpl; rewrite length_take, length_app, repeat_length; lia).
  subst a. exists snap, parent, turn.
  assert (Hs1 : s0 = s).
  { destruct a0; [|by injection Hm1]. unfold st_lift in Hm1. by injection Hm1. }
  subst s0. split_and!; [done..| | | | | | | |].
  1: by destruct turn.
  1-4: done.
  1,2: simpl; case_if; bool_Z; lia.
  unfold prepared_extra, NumberU64. cbn [Number set_Time set_MixDigest set_Extra set_Difficulty set_Nonce set_Coinbase].
  fold (NumberU64 h0). unfold isEpochBlock in Hep. destruct (Epoch (config c) =? 0) eqn:E0; [done|]. bool_Z.
  injection Hep as <-. destruct (decide _) as [Ee|Ee].
  - rewrite Ee, Z.eqb_refl in Hm1. unfold st_lift in Hm1. injection Hm1 as Hm1. inv_bind Hm1. injection Hm1 as <-.
    match goal with |- exists vs, getTopValidators _ _ ?x = _ /\ _ => set (h1' := x) end.
    destruct (extra_layout van (addressBytes a) (repeat Byte.x00 65) h1' Hvan eq_refl eq_refl) as [Hmid Hlen].
    assert (Ht : getTopValidators (St:=St) (chainConfig c) chain h1' = Ok a) by (rewrite <- Hm2; by apply getTopValidators_fields).
    exists a. split_and!; [done|done| |].
    + apply extraValidators_middle; [by eapply getTopValidators_addresses|done].
    + rewrite Hlen. unfold zlen. rewrite length_addressBytes. lia.
  - destruct (_ =? 0) eqn:E1; bool_Z; [done|]. injection Hm1 as <-.
    match goal with |- zlen (Extra ?x) = _ => destruct (extra_layout van [] (repeat Byte.x00 65) x Hvan eq_refl eq_refl) as [_ Hlen] end.
    exact Hlen.
Qed.
End Prepared.

(** ** The theorems *)

(** C3: A block the miner assembles, its epoch step having succeeded, is accepted
    by every verifier ([epoch_failure_diverges] is the other case).  Let the
    miner's engine and the verifier's engine be any two engines whose caches and
    databases are right about the chain, [h] a header on top of block [n], [h']
    any header with the same block context.  If [FinalizeAndAssemble] succeeds
    and its epoch step did (with the validators listed in [h']), then [Finalize]
    of [h'] with the assembled system transactions succeeds: same state, same
    root, same transactions, and the miner's receipts with the block hash
    filled in. *)
Theorem assembled_block_finalizes `{Crypto} `{Codec} `{!CodecLaws} `{AccountState St} `{!VM St} `{!VMLaws St}
    `{TxSigning} `{CacheLaws C Hash Address} `{CacheLaws RC Hash Snapshot} `{SnapshotDBLaws D}
    cfg genesis hs vals chain n parent h h' (c c' : CongressEngine RC C D) (s : St) oob signTxFn txs
    receipts receiptsV hf txs' receipts' c1 s1 :
  linked_chain genesis hs -> Epoch cfg <> 0 -> extraValidators (Extra genesis) = Ok vals ->
  chain_view chain genesis -> (genesis :: hs) !! n = Some parent ->
  batch_ok chain (genesis :: hs) n (S n) [] ->
  ParentHash h = HeaderHash parent -> Number h = Some (Z.of_nat n + 1) -> same_context h h' ->
  is_u64 (Z.of_nat n + 1) -> both_ready cfg genesis hs vals n c c' ->
  Coinbase h = validator c -> signs_for (validator c) signTxFn ->
  epoch_ok cfg chain n h h' c s oob txs ->
  FinalizeAndAssemble oob (Some signTxFn) chain h txs receipts (c, s) = (Ok (hf, txs', receipts'), (c1, s1)) ->
  exists c1', Finalize oob chain h' txs receiptsV (drop (length txs) txs') (c', s) =
    (Ok (finalHeader (Root hf) h', txs',
         receiptsV ++ (locate (HeaderHash h') <$> drop (length receipts) receipts')), (c1', s1)).
Proof. intros. by eapply assembled_agree. Qed.

(** C22: The validators in the extra-data of an epoch block that [Finalize]
    accepts are those the contract names on the parent's state, and the
    snapshot that applies the header takes exactly them over. *)
Theorem epoch_validators_agree `{Crypto} `{Codec} `{!CodecLaws} `{AccountState St} `{!VM St} `{TxSigning}
    `{Cache C Hash Address} `{Cache RC Hash Snapshot} `{SnapshotDB D}
    oob chain h txs receipts systemTxs (c : CongressEngine RC C D) (s : St) out cs' snap :
  Finalize oob chain h txs receipts systemTxs (c, s) = (Ok out, cs') ->
  0 < NumberU64 h -> NumberU64 h mod Epoch (config c) = 0 -> Epoch (config c) <> 0 ->
  exists vs snap', getTopValidators (St:=St) (chainConfig c) chain h = Ok vs /\
    epochChange (config c) snap h = Ok snap' /\ Validators snap' = list_to_set vs.
Proof.
  intros Hrun Hpos Hep He. destruct (finalize_epoch _ _ _ _ _ _ _ _ _ _ Hrun Hep) as (vs & Ht & Hm).
  assert (Hx : extraValidators (Extra h) = Ok vs).
  { apply extraValidators_middle; [by eapply getTopValidators_addresses|done]. }
  unfold epochChange. destruct (Epoch (config c) =? 0) eqn:E0; bool_Z; [lia|].
  destruct (0 <? NumberU64 h) eqn:E1; bool_Z; [|lia]. rewrite Hep, Hx. simpl. eauto.
Qed.

(** C38: [Prepare] builds a header of which the checks that need no seal leave
    only the gas to see to: the difficulty is that of the miner's turn in the
    parent's snapshot, the time respects the period, and an epoch block carries
    the validators of the contract in a form that is read back unchanged.  Once
    the uncle hash is set, whatever the miner then makes of the gas fields, the
    base fee, the roots and the seal, [checkStandalone] accepts the header exactly when
    its time has come, its gas limit is below 2^63 and a fork hash, if
    configured, is its own; and [checkCascading] accepts it exactly when the gas
    used is within the limit, the limit is close to the parent's, and the base
    fee is the computed one (none before London). *)
Theorem prepared_header_checks `{Crypto} `{Codec} `{!CodecLaws} `{AccountState St} `{!VM St}
    `{Cache C Hash Address} `{Cache RC Hash Snapshot} `{SnapshotDB D}
    now chain h0 h1 (c c' : CongressEngine RC C D) n :
  Prepare (St:=St) now chain h0 c = (Ok h1, c') -> Number h0 = Some n -> 0 < u64 n -> Epoch (config c) <> 0 ->
  exists snap parent turn,
    snapshot chain (NumberU64 h0 -w 1) (ParentHash h0) [] c = (Ok snap, c') /\
    GetHeader chain (ParentHash h0) (NumberU64 h0 -w 1) = Some parent /\
    inturn snap (sNumber snap +w 1) (validator c) = Ok turn /\
    Difficulty h1 = Some (if turn then 2 else 1) /\ Coinbase h1 = validator c /\
    u64 (Time parent + Period (config c)) <= Time h1 /\ now <= Time h1 /\
    prepared_extra (St:=St) chain c h1 /\
    forall h t ccfg, completes h1 h ->
      (checkStandalone t ccfg (config c) h = Ok tt <->
         Time h1 <= t /\ GasLimit h < 2 ^ 63 /\ VerifyForkHashes ccfg h false = Ok tt) /\
      (checkCascading ccfg (config c) parent h = Ok tt <->
         GasUsed h <= GasLimit h /\ VerifyGaslimit (GasLimit parent) (GasLimit h) = Ok tt /\
         if IsLondon ccfg (Number h) then exists fee, BaseFee h = Some fee /\ CalcBaseFee ccfg parent = Ok fee else BaseFee h = None).
Proof.
  intros Hrun Hn Hpos He.
  destruct (prepare_spec now chain h0 h1 c c' Hrun) as (snap & parent & turn & Hs & Hg & Ht & Hd & Hc & Hm & Hnum & Hp & Htm & Hnow & Hx).
  exists snap, parent, turn. do 8 (split; [done|]). intros h t ccfg (En & Et & Ex & Em & Ed & Eu). split.
  - rewrite (checkStandalone_iff t ccfg (config c) h n) by (congruence || done).
    assert (Hlen : 97 <= zlen (Extra h) /\
      if decide (NumberU64 h mod Epoch (config c) = 0) then (zlen (Extra h) - 97) mod 20 = 0 else zlen (Extra h) = 97).
    { assert (Hnu : NumberU64 h = NumberU64 h1) by (unfold NumberU64; by rewrite En). rewrite Hnu, Ex.
      unfold prepared_extra in Hx. destruct (decide _); [destruct Hx as (vs & _ & _ & _ & ->)|rewrite Hx; done].
      split; [unfold zlen; lia|]. replace (97 + 20 * zlen vs - 97) with (zlen vs * 20) by lia. apply Z.mod_mul. lia. }
    rewrite Et, Em, Ed, Hm, Hd. intuition congruence.
  - rewrite checkCascading_iff, Et. intuition.
Qed.

(** If the epoch step fails, miner and verifier part: the miner (without
    governance) assembles and returns the block, every verifier that gets to
    the same point refuses it with the error of the step. *)
Theorem epoch_failure_diverges `{Crypto} `{Codec} `{AccountState St} `{!VM St} `{TxSigning}
    `{Cache C Hash Address} `{Cache RC Hash Snapshot} `{SnapshotDB D}
    oob chain h txs receipts systemTxs (c : CongressEngine RC C D) (s : St) cs1 e c2 s2 :
  beforeEpoch oob chain h txs (c, s) = (Ok tt, cs1) -> Number h <> None -> Epoch (config c) <> 0 ->
  NumberU64 h mod Epoch (config c) = 0 -> doSomethingAtEpoch chain h cs1 = (Err e, (c2, s2)) ->
  Finalize oob chain h txs receipts systemTxs (c, s) = (Err e, (c2, s2)) /\
  exists root s3, FinalizeAndAssemble oob None chain h txs receipts (c, s) =
    (Ok (finalHeader root h, txs, receipts), (c2, s3)).
Proof. intros. by eapply epoch_failure. Qed.

(** [trySendBlockReward] moves the recorded fees to the coinbase before it
    calls the validators contract with exactly that value: the fee recorder is
    left empty, the coinbase has gained the fees, every other balance, every
    nonce and the sum of the balances are unchanged; the call starts from that
    state, and when packing or the call fails the state is kept, so the fees
    stay with the coinbase. *)
Theorem fees_to_coinbase `{Codec} `{AccountLaws St} `{!VM St} cfg header addr gass (s : St) l :
  stateOk s -> 0 < balanceOf s FeeRecoder -> Coinbase header <> FeeRecoder ->
  NoDup l -> Coinbase header ∈ l -> FeeRecoder ∈ l ->
  let s1 := depositState header s in
  balanceOf s1 FeeRecoder = 0 /\
  balanceOf s1 (Coinbase header) = balanceOf s (Coinbase header) + balanceOf s FeeRecoder /\
  (forall b, b <> FeeRecoder -> b <> Coinbase header -> balanceOf s1 b = balanceOf s b) /\
  keeps_nonces s s1 /\ totalBalance l s1 = totalBalance l s /\ stateOk s1 /\
  trySendBlockReward cfg header addr gass s =
    match Pack validatorsContract "distributeBlockReward" [VAddresses addr; VUint64s gass] with
    | Ok data =>
        let '(r, s2) := ExecuteMsg (NewLegacyMessage (Coinbase header) (GetValidatorAddr (Number header) cfg)
                                      (nonceOf s1 (Coinbase header)) (balanceOf s FeeRecoder) MaxGas 0 data true)
                          header s1 in
        ((fun _ => tt) <$> r, s2)
    | Err e => (Err e, s1)
    | Panic => (Panic, s1)
    end.
Proof.
  intros Hs Hf Hne Hnd Hc Hl s1. destruct (depositState_spec header s Hs Hne) as (Hok & Hn & _ & Hb).
  split_and!.
  - by rewrite Hb, decide_True.
  - by rewrite Hb, decide_False, decide_True by congruence.
  - intros b Hb1 Hb2. by rewrite Hb, !decide_False by congruence.
  - done.
  - by apply depositState_total.
  - done.
  - by apply trySendBlockReward_deposit.
Qed.

(** ** A concrete run

    Block 4 of a chain with epochs of four blocks, on top of the three toy
    blocks: prepared and assembled by validator 33 out of turn, so that 22 is
    punished; the fee recorder holds 1000 coins for one transaction, the
    validators change, and one proposal has passed. *)

Definition cycleConfig : CongressConfig := mkCongressConfig 1 4 false.

Definition cycleProposal : Proposal := mkProposal 9 0 70 71 0 [Byte.x01].

Definition cycleCodec : Codec := {|
  Pack _ _ _ := Ok [Byte.x01];
  Unpack _ method _ := if decide (method = "getTopValidators"%string) then Ok [VAddresses [44; 22; 11]] else Ok [VUint32 1];
  UnpackProposal _ := Ok cycleProposal;
  EncodeProposal prop := Ok (PData prop);
|}.

(** A call moves its value and stores the height in a slot of the callee. *)
Definition cycleCall (msg : Message) (h : Header) (s : StateDB.StateDB) : res (list byte) * StateDB.StateDB :=
  let s := AddBalance (H:=toyBackend) (MTo msg) (MValue msg) (SubBalance (H:=toyBackend) (MFrom msg) (MValue msg) s) in
  (Ok [Byte.x00], SetState (H:=toyBackend) (MTo msg) 1 (default 0 (Number h)) s).

Definition cycleVM : VM StateDB.StateDB := {|
  evmCall := cycleCall;
  IntermediateRoot _ s := ((GetBalance (H:=toyBackend) ValidatorsV1ContractAddr s).1, s);
  stateFn _ := Ok (StateDB.New true);
  statePrepare := StateDB.Prepare;
  TxIndex := txIndex;
  GetLogs hash s := default [] (logs s !! hash);
|}.

Definition cycleSigning : TxSigning := {|
  HashOfTx tx := TxNonce tx + 500;
  SenderOfTx tx := Ok (be_decode (TxSig tx));
  CreateBloom := zlen;
|}.

Definition cycleSign (val : Address) (tx : Transaction) : res Transaction :=
  Ok (withSig (be_encode 20 val) tx).

#[local] Existing Instances toyCrypto toyBackend cycleCodec cycleVM cycleSigning.

Lemma cycleCodec_laws : CodecLaws.
Proof.
  split; intros c m b x; simpl; case_decide; intros Heq; simplify_eq.
  - lia.
  - repeat constructor; vm_compute; done.
Qed.

Lemma cycleVM_laws : VMLaws StateDB.StateDB.
Proof. split. intros msg h h' s Hs. simpl. unfold cycleCall. by rewrite (ctx_number _ _ Hs). Qed.

#[local] Existing Instances cycleCodec_laws cycleVM_laws.

Lemma cycleSign_signs val : is_address val -> signs_for val cycleSign.
Proof.
  unfold cycleSign. intros Hv tx tx' Hs. set (sig := be_encode 20 val) in Hs. injection Hs as <-. unfold sig.
  cbn [SenderOfTx cycleSigning TxSig TxData withSig]. split; [|done]. rewrite be_decode_encode. f_equal. by apply Z.mod_small.
Qed.

Definition cycleEngine : CongressEngine (gmap Z Snapshot) (gmap Z Z) (gmap Z Snapshot) :=
  Authorize 33 (New toyConfig cycleConfig ∅ ∅ ∅).

(** What [worker.commitNewWork] fills in before [Prepare]. *)
Definition cycleHeader : Header :=
  mkHeader 4 0 0 0 0 0 0 None (Some 4) 20000000000 21000 0 [] 0 0 (Some 1000000000).

Definition cyclePrepared : Header :=
  match fst (Prepare (St:=StateDB.StateDB) 200 toyChain cycleHeader cycleEngine) with Ok h => h | _ => cycleHeader end.

Definition cycleState : StateDB.StateDB := AddBalance FeeRecoder 1000 (StateDB.New true).
Definition cycleTxs : list Transaction := [legacyTx (Some 77) 21000 2 0 0 [] []].
Definition cycleOob (_ : spec_float) : Z := 9223372036854775808.

Definition cycleMined : res (Header * list Transaction * list Receipt) :=
  fst (FinalizeAndAssemble cycleOob (Some cycleSign) toyChain cyclePrepared cycleTxs [] (cycleEngine, cycleState)).

(** The sealed header the verifier sees. *)
Definition cycleSealed : Header :=
  set_Root 1000 (set_UncleHash 7 (set_Extra (take 92 (Extra cyclePrepared) ++ be_encode 65 33) cyclePrepared)).

Lemma cycle_context : same_context cyclePrepared cycleSealed.
Proof. by split. Qed.

Lemma cycle_engine_ok : engine_ok cycleConfig toyGenesis toyBlocks toyVals cycleEngine.
Proof. split; [done|intros k v; simpl; by rewrite lookup_empty..]. Qed.

Lemma cycle_ready : both_ready cycleConfig toyGenesis toyBlocks toyVals 3 cycleEngine cycleEngine.
Proof.
  assert (Hr : ready cycleConfig toyGenesis toyBlocks toyVals 3 cycleEngine).
  { split; [apply cycle_engine_ok|]. exists 0%nat. split_and!; [lia|unfold FullImmutabilityThreshold; lia|by left]. }
  by split_and!.
Qed.

Lemma cycle_batch : batch_ok toyChain (toyGenesis :: toyBlocks) 3 4 [].
Proof. split; [done|]. intros i h Hi _ Hl. unfold toyBlocks in Hl. list_cases Hl. Qed.

Lemma cycle_epoch_ok : epoch_ok cycleConfig toyChain 3 cyclePrepared cycleSealed cycleEngine cycleState cycleOob cycleTxs.
Proof.
  intros cs1 Hb _. exists [11; 22; 44], (doSomethingAtEpoch toyChain cyclePrepared cs1).2.
  assert (Hcs : cs1 = (beforeEpoch cycleOob toyChain cyclePrepared cycleTxs (cycleEngine, cycleState)).2) by (by rewrite Hb).
  assert (Hd : (doSomethingAtEpoch toyChain cyclePrepared cs1).1 = Ok [11; 22; 44]) by (rewrite Hcs; vm_compute; reflexivity).
  split; [|vm_compute; reflexivity]. rewrite <- Hd. by destruct (doSomethingAtEpoch toyChain cyclePrepared cs1).
Qed.

Lemma assembled_block_finalizes_witness : exists hf txs' receipts' c1 s1 c1',
  FinalizeAndAssemble cycleOob (Some cycleSign) toyChain cyclePrepared cycleTxs [] (cycleEngine, cycleState)
    = (Ok (hf, txs', receipts'), (c1, s1)) /\
  Root hf = 1000 /\ length txs' = 2%nat /\
  Finalize cycleOob toyChain cycleSealed cycleTxs [] (drop 1 txs') (cycleEngine, cycleState)
    = (Ok (finalHeader (Root hf) cycleSealed, txs', locate 5 <$> receipts'), (c1', s1)).
Proof.
  destruct (FinalizeAndAssemble cycleOob (Some cycleSign) toyChain cyclePrepared cycleTxs [] (cycleEngine, cycleState))
    as [r [c1 s1]] eqn:E.
  assert (Hr : r = cycleMined) by (unfold cycleMined; by rewrite E).
  assert (Hok : exists hf txs' receipts', cycleMined = Ok (hf, txs', receipts') /\ Root hf = 1000 /\ length txs' = 2%nat).
  { do 3 eexists. split; [vm_compute; reflexivity|]. split; reflexivity. }
  destruct Hok as (hf & txs' & receipts' & Hm & Hroot & Hlen). rewrite Hr, Hm in E. rewrite Hr, Hm.
  exists hf, txs', receipts', c1, s1.
  destruct (assembled_block_finalizes cycleConfig toyGenesis toyBlocks toyVals toyChain 3 (toyHeader 3 11 2 [])
    cyclePrepared cycleSealed cycleEngine cycleEngine cycleState cycleOob cycleSign cycleTxs [] [] hf txs' receipts' c1 s1)
    as [c1' Hf].
  - apply toy_linked.
  - done.
  - vm_compute; reflexivity.
  - apply toy_view.
  - reflexivity.
  - apply cycle_batch.
  - vm_compute; reflexivity.
  - vm_compute; reflexivity.
  - apply cycle_context.
  - unfold is_u64; lia.
  - apply cycle_ready.
  - vm_compute; reflexivity.
  - apply (cycleSign_signs 33). vm_compute. split; [discriminate|reflexivity].
  - apply cycle_epoch_ok.
  - exact E.
  - exists c1'. split_and!; [done..|exact Hf].
Defined.

Lemma epoch_validators_agree_witness :
  exists out cs', Finalize cycleOob toyChain cycleSealed cycleTxs []
      [legacyTx (Some SysGovToAddr) 20000000000 0 0 0 [Byte.x01] (be_encode 20 33)] (cycleEngine, cycleState) = (Ok out, cs') /\
  exists vs snap', getTopValidators (chainConfig cycleEngine) toyChain cycleSealed = Ok vs /\
    epochChange cycleConfig toySnapshot cycleSealed = Ok snap' /\ Validators snap' = list_to_set vs.
Proof.
  destruct (Finalize cycleOob toyChain cycleSealed cycleTxs []
      [legacyTx (Some SysGovToAddr) 20000000000 0 0 0 [Byte.x01] (be_encode 20 33)] (cycleEngine, cycleState)) as [r cs'] eqn:E.
  assert (Hr : exists out, r = Ok out).
  { apply (f_equal fst) in E. cbn [fst] in E. rewrite <- E. eexists. vm_compute. reflexivity. }
  destruct Hr as [out Hr]. rewrite Hr in E |- *. exists out, cs'. split; [done|].
  apply (epoch_validators_agree _ _ _ _ _ _ cycleEngine cycleState out cs' toySnapshot E); done.
Defined.

Lemma prepared_header_checks_witness :
  exists c', Prepare (St:=StateDB.StateDB) 200 toyChain cycleHeader cycleEngine = (Ok cyclePrepared, c') /\
    prepared_extra (St:=StateDB.StateDB) toyChain cycleEngine cyclePrepared /\
    checkStandalone 201 toyConfig cycleConfig (set_UncleHash 7 cyclePrepared) = Ok tt.
Proof.
  destruct (Prepare (St:=StateDB.StateDB) 200 toyChain cycleHeader cycleEngine) as [r c'] eqn:E.
  assert (Hr : r = Ok cyclePrepared).
  { apply (f_equal fst) in E. cbn [fst] in E. rewrite <- E. vm_compute. reflexivity. }
  rewrite Hr in E |- *. exists c'. split; [done|].
  destruct (prepared_header_checks 200 toyChain cycleHeader cyclePrepared cycleEngine c' 4 E)
    as (snap & parent & turn & _ & _ & _ & _ & _ & _ & _ & Hx & Hc); [done..|]. split; [exact Hx|].
  destruct (Hc (set_UncleHash 7 cyclePrepared) 201 toyConfig) as [Hs _]; [by split_and!|].
  apply Hs. split_and!; vm_compute; done.
Defined.

(** A codec for which the validator query fails. *)
Definition brokenCodec : Codec := {|
  Pack _ _ _ := Ok [];
  Unpack _ _ _ := Err (extError 1);
  UnpackProposal _ := Err (extError 1);
  EncodeProposal _ := Err (extError 1);
|}.

Lemma epoch_failure_diverges_witness :
  exists c2 s2 root s3,
    Finalize (H0:=brokenCodec) cycleOob toyChain cycleSealed cycleTxs [] [] (cycleEngine, cycleState)
      = (Err (extError 1), (c2, s2)) /\
    FinalizeAndAssemble (H0:=brokenCodec) cycleOob None toyChain cycleSealed cycleTxs [] (cycleEngine, cycleState)
      = (Ok (finalHeader root cycleSealed, cycleTxs, []), (c2, s3)).
Proof.
  destruct (beforeEpoch (H0:=brokenCodec) cycleOob toyChain cycleSealed cycleTxs (cycleEngine, cycleState)) as [r cs1] eqn:E.
  assert (Hr : r = Ok tt) by (apply (f_equal fst) in E; cbn [fst] in E; rewrite <- E; vm_compute; reflexivity).
  assert (Hcs : cs1 = (beforeEpoch (H0:=brokenCodec) cycleOob toyChain cycleSealed cycleTxs (cycleEngine, cycleState)).2)
    by (by rewrite E).
  destruct (doSomethingAtEpoch (H0:=brokenCodec) toyChain cycleSealed cs1) as [r2 [c2 s2]] eqn:Ed.
  assert (Hr2 : r2 = Err (extError 1)).
  { apply (f_equal fst) in Ed. cbn [fst] in Ed. rewrite <- Ed, Hcs. vm_compute. reflexivity. }
  rewrite Hr in E. rewrite Hr2 in Ed.
  destruct (epoch_failure_diverges (H0:=brokenCodec) cycleOob toyChain cycleSealed cycleTxs [] [] cycleEngine cycleState cs1
              (extError 1) c2 s2 E) as (Hf & root & s3 & Ha); [done|done|vm_compute; reflexivity|exact Ed|].
  exists c2, s2, root, s3. split; [exact Hf|exact Ha].
Defined.

Lemma fees_to_coinbase_witness :
  let s1 := depositState cycleSealed cycleState in
  balanceOf cycleState 33 = 0 /\ balanceOf s1 FeeRecoder = 0 /\ balanceOf s1 33 = 1000 /\
  totalBalance [11; 33; FeeRecoder] s1 = 1100.
Proof.
  intros s1.
  assert (Hnew : stateOk (StateDB.New true)) by exact (conj (New_valid true) (New_jok true)).
  destruct (add_law FeeRecoder 1000 (StateDB.New true) Hnew) as [Hok _].
  destruct (fees_to_coinbase toyConfig cycleSealed [77] [42000] cycleState [11; 33; FeeRecoder] Hok)
    as (Hz & Hc & _ & _ & Ht & _).
  - vm_compute; reflexivity.
  - done.
  - repeat constructor; vm_compute; intros Hin; repeat (apply elem_of_cons in Hin as [Hin|Hin]; [done|]); by apply elem_of_nil in Hin.
  - vm_compute. right. left.
  - vm_compute. right. right. left.
  - split; [vm_compute; reflexivity|]. split; [exact Hz|]. split; [etrans; [exact Hc|]; vm_compute; reflexivity|].
    etrans; [exact Ht|]. vm_compute. reflexivity.
Defined.
