(* ===== verification/Blacklist.v ===== *)
(** * The address lists (consensus/congress/congress.go, blacklist_validator.go)

    Which transactions are the engine's own, who may create contracts, which
    addresses and events are denied.  The lists are read from a contract and
    cached by the hash of the block whose state they were read from. *)

From S2P Require Import StateDB StateIface Prelude Params Types Misc Snapshot Engine Contracts Finalize.

Inductive blacklistDirection : Type := DirectionFrom | DirectionTo | DirectionBoth.

#[export] Instance direction_eq_dec : EqDecision blacklistDirection.
Proof. solve_decision. Defined.

(** [common.AddressCheckType], an integer. *)
Definition CheckNone : Z := 0.
Definition CheckFrom : Z := 1.
Definition CheckTo : Z := 2.
Definition CheckBothInAny : Z := 3.

Abbreviation Blacklist := (gmap Z blacklistDirection).

Record EventCheckRule : Type := mkRule {
  EventSig : Hash;
  Checks : gmap Z Z;
}.

Record blacklistValidator : Type := mkValidator {
  blacks : Blacklist;
  rules : gmap Z EventCheckRule;
}.

(** ** The checks *)

Definition IsAddressDenied (b : blacklistValidator) (address : Address) (cType : Z) : bool :=
  match blacks b !! address with
  | None => false
  | Some d =>
      if cType =? CheckFrom then bool_decide (d <> DirectionTo)
      else if cType =? CheckTo then bool_decide (d <> DirectionFrom)
      else cType =? CheckBothInAny
  end.

(** [common.BytesToAddress] of a topic: its last 20 bytes. *)
Definition topicAddress (t : Hash) : Address := t mod 256 ^ 20.

(** The loop over the checks of a rule, in the order the runtime iterates the
    map; a negative index is out of range of the slice. *)
Fixpoint checkTopics (b : blacklistValidator) (topics : list Hash) (checks : list (Z * Z)) : res bool :=
  match checks with
  | [] => Ok false
  | (idx, checkType) :: checks =>
      if zlen topics <=? idx then checkTopics b topics checks
      else if idx <? 0 then Panic
      else match topics !! Z.to_nat idx with
           | None => Panic
           | Some t => if IsAddressDenied b (topicAddress t) checkType then Ok true else checkTopics b topics checks
           end
  end.

Definition IsLogDenied (order : gmap Z Z -> list (Z * Z)) (b : blacklistValidator) (evLog : option Log) : res bool :=
  match evLog with
  | None => Ok false
  | Some l =>
      if zlen (LTopics l) <=? 1 then Ok false else
      match LTopics l with
      | [] => Ok false
      | sig :: _ =>
          match rules b !! sig with
          | None => Ok false
          | Some rule => checkTopics b (LTopics l) (order (Checks rule))
          end
      end
  end.

(** The lists of the contract as one map. *)
Definition addFrom (m : Blacklist) (from : Address) : Blacklist := <[from := DirectionFrom]> m.
Definition addTo (m : Blacklist) (to : Address) : Blacklist :=
  match m !! to with Some _ => <[to := DirectionBoth]> m | None => <[to := DirectionTo]> m end.
Definition buildBlacklist (froms tos : list Address) : Blacklist := foldl addTo (foldl addFrom ∅ froms) tos.

(** [rule.Checks[idx] = ct] in the rule of the signature, created if new. *)
Definition addRule (m : gmap Z EventCheckRule) (r : Hash * Z * Z) : gmap Z EventCheckRule :=
  let '(sig, idx, ct) := r in
  let rule := default (mkRule sig ∅) (m !! sig) in
  <[sig := mkRule (EventSig rule) (<[idx := ct]> (Checks rule))]> m.

(** ** The engine's part *)

Section Lists.
Context {St : Type} `{Crypto} `{Codec} `{AccountState St} `{VM St}.
Context `{Cache BC Hash Blacklist} `{Cache EC Hash (gmap Z EventCheckRule)}.

(** The two caches of the engine, next to the state the call is given. *)
Record Lists : Type := mkLists {
  blacklists : BC;
  eventCheckRules : EC;
}.
Local Abbreviation M := (ST (Lists * St)).

Definition blacklists_Get (k : Hash) : M (option Blacklist) := fun ls =>
  let '(v, c) := cache_get k (blacklists (fst ls)) in (Ok v, (mkLists c (eventCheckRules (fst ls)), snd ls)).
Definition blacklists_Add (k : Hash) (m : Blacklist) : M unit := fun ls =>
  (Ok tt, (mkLists (cache_add k m (blacklists (fst ls))) (eventCheckRules (fst ls)), snd ls)).
Definition eventCheckRules_Get (k : Hash) : M (option (gmap Z EventCheckRule)) := fun ls =>
  let '(v, c) := cache_get k (eventCheckRules (fst ls)) in (Ok v, (mkLists (blacklists (fst ls)) c, snd ls)).
Definition eventCheckRules_Add (k : Hash) (m : gmap Z EventCheckRule) : M unit := fun ls =>
  (Ok tt, (mkLists (blacklists (fst ls)) (cache_add k m (eventCheckRules (fst ls))), snd ls)).
Definition on_st {A} (m : ST St A) : M A := fun ls =>
  let '(r, s) := m (snd ls) in (r, (fst ls, s)).

Definition lastBlacklistUpdatedNumber (s : St) : Z :=
  u64 (slotOf s AddressListContractAddr BlackLastUpdatedNumberPosition).
Definition lastRulesUpdatedNumber (s : St) : Z :=
  u64 (slotOf s AddressListContractAddr RulesLastUpdatedNumberPosition).

(** [get] of [getBlacklist] *)
Definition getAddresses (header : Header) (method : string) : ST St (list Address) :=
  ret ← commonCallContract header addressListContract AddressListContractAddr method 1 [];
  match ret with
  | VAddresses l :: _ => mret l
  | _ => st_err (errorf "invalid blacklist format")
  end.

Definition callBlacklist (header : Header) : ST St Blacklist :=
  froms ← getAddresses header "getBlacksFrom";
  tos ← getAddresses header "getBlacksTo";
  mret (buildBlacklist froms tos).

(** The cached value for the parent, if the contract was not updated since. *)
Definition inherited {V} (get : Hash -> M (option V)) (add : Hash -> V -> M unit) (chain : ChainHeaderReader)
    (header : Header) (num lastUpdated : Z) : M (option V) :=
  if (2 <=? num) && (lastUpdated +w 1 <? num) then
    match GetHeader chain (ParentHash header) (num -w 1) with
    | None => mret None
    | Some parent =>
        hit ← get (ParentHash parent);
        match hit with
        | None => mret None
        | Some m => _ ← add (ParentHash header) m; mret (Some m)
        end
    end
  else mret None.

(** The lookup before and after taking the lock. *)
Definition lookupTwice {V} (get : Hash -> M (option V)) (k : Hash) : M (option V) :=
  hit ← get k;
  match hit with Some m => mret (Some m) | None => get k end.

Definition getBlacklist (cfg : ChainConfig) (chain : ChainHeaderReader) (header : Header) : M Blacklist :=
  hit ← lookupTwice blacklists_Get (ParentHash header);
  match hit with
  | Some m => mret m
  | None =>
      ls ← st_get;
      old ← (match SophonBlock cfg, Number header with
             | None, _ => mret None
             | Some _, None => st_panic
             | Some b, Some n =>
                 if b <? n then inherited blacklists_Get blacklists_Add chain header (u64 n) (lastBlacklistUpdatedNumber (snd ls))
                 else mret None
             end);
      match old with
      | Some m => mret m
      | None =>
          m ← on_st (callBlacklist header);
          _ ← blacklists_Add (ParentHash header) m;
          mret m
      end
  end.

(** [get] of [getEventCheckRules]: the type assertions panic. *)
Definition getRuleByIndex (header : Header) (i : Z) : ST St (Hash * Z * Z) :=
  ret ← commonCallContract header addressListContract AddressListContractAddr "getRuleByIndex" 3 [VUint32 i];
  match ret with
  | [VBytes32 sig; VUint idx; VUint8 ct] => mret (sig, i64 (u64 idx), ct)
  | _ => st_panic
  end.

Definition getEventCheckRulesLen (header : Header) : ST St Z :=
  ret ← commonCallContract header addressListContract AddressListContractAddr "rulesLen" 1 [];
  match ret with
  | VUint32 n :: _ => mret n
  | _ => st_err (errorf "unexpected output type")
  end.

Fixpoint readRules (header : Header) (n : nat) (i : Z) (m : gmap Z EventCheckRule) : ST St (gmap Z EventCheckRule) :=
  match n with
  | O => mret m
  | S n => r ← getRuleByIndex header i; readRules header n (i + 1) (addRule m r)
  end.

Definition callRules (header : Header) : ST St (gmap Z EventCheckRule) :=
  cnt ← getEventCheckRulesLen header;
  readRules header (Z.to_nat cnt) 0 ∅.

Definition getEventCheckRules (chain : ChainHeaderReader) (header : Header) : M (gmap Z EventCheckRule) :=
  hit ← lookupTwice eventCheckRules_Get (ParentHash header);
  match hit with
  | Some m => mret m
  | None =>
      ls ← st_get;
      num ← st_lift (Number_Uint64 header);
      old ← inherited eventCheckRules_Get eventCheckRules_Add chain header num (lastRulesUpdatedNumber (snd ls));
      match old with
      | Some m => mret m
      | None =>
          m ← on_st (callRules header);
          _ ← eventCheckRules_Add (ParentHash header) m;
          mret m
      end
  end.

(** [block.Cmp(header.Number) < 0] for a fork block that may be unset. *)
Definition after (block number : option Z) : res bool :=
  match block, number with
  | None, _ => Ok false
  | Some b, Some n => Ok (b <? n)
  | Some _, None => Panic
  end.

Definition CreateEvmExtraValidator (cfg : ChainConfig) (chain : ChainHeaderReader) (header : Header)
    : M (option blacklistValidator) :=
  on ← st_lift (after (SophonBlock cfg) (Number header));
  if (on : bool) then
    bl ← st_try (getBlacklist cfg chain header);
    match bl with
    | None => mret None
    | Some bl =>
        rs ← st_try (getEventCheckRules chain header);
        match rs with
        | None => mret None
        | Some rs => mret (Some (mkValidator bl rs))
        end
    end
  else mret None.

(** The decision of [ValidateTx] on a list. *)
Definition txDenied (m : Blacklist) (sender : Address) (to : option Address) : bool :=
  match m !! sender with Some d => bool_decide (d <> DirectionTo) | None => false end ||
  match to with
  | Some to => match m !! to with Some d => bool_decide (d <> DirectionFrom) | None => false end
  | None => false
  end.

Definition ValidateTx (cfg : ChainConfig) (chain : ChainHeaderReader) (sender : Address) (tx : Transaction)
    (header : Header) : M unit :=
  on ← st_lift (after (RedCoastBlock cfg) (Number header));
  if (on : bool) then
    m ← getBlacklist cfg chain header;
    st_fail_if (txDenied m sender (TxTo tx)) ErrAddressDenied
  else mret tt.

(** ** System transactions and contract creation *)

Definition IsSysTransaction (sender : Address) (tx : Transaction) (header : Header) : bool :=
  match TxTo tx with
  | None => false
  | Some to =>
      ((sender =? Coinbase header) && (to =? SysGovToAddr) && (TxGasPrice tx =? 0)) ||
      ((sender =? Coinbase header) && (to =? SysGovContractAddr))
  end.

(** Slot 0 of the contract: byte 30 is the switch. *)
Definition isDeveloperVerificationEnabled (s : St) : bool :=
  (slotOf s AddressListContractAddr 0 / 256) mod 256 =? 1.

(** The slot of a key of the mapping at [DevMappingPosition]; [Keccak256Hash]
    is given. *)
Definition calcSlotOfDevMappingKey (Keccak256Hash : list byte -> Hash) (addr : Address) : Hash :=
  Keccak256Hash (be_encode 32 addr ++ be_encode 32 DevMappingPosition).

Definition CanCreate (Keccak256Hash : list byte -> Hash) (cfg : ChainConfig) (ccfg : CongressConfig) (s : St)
    (addr : Address) (height : option Z) : bool :=
  if IsRedCoast cfg height && EnableDevVerification ccfg then
    if isDeveloperVerificationEnabled s
    then 0 <? slotOf s AddressListContractAddr (calcSlotOfDevMappingKey Keccak256Hash addr)
    else true
  else true.
End Lists.
Arguments Lists : clear implicits.
