(* ===== verification/BlacklistFacts.v ===== *)
(** * What the address lists guarantee

    The map built from the two lists of the contract, the decisions taken on
    it, and the caches: a list kept from an earlier block is the list the
    contract would return. *)

From S2P Require Import StateDB StateIface Prelude Params Types Misc Snapshot Engine Contracts Finalize Blacklist.

(** ** The map *)

Definition inFrom (m : Blacklist) (a : Address) : Prop := exists d, m !! a = Some d /\ d <> DirectionTo.
Definition inTo (m : Blacklist) (a : Address) : Prop := exists d, m !! a = Some d /\ d <> DirectionFrom.

Lemma addFroms_lookup froms : forall (m : Blacklist) a,
  foldl addFrom m froms !! a = if decide (a ∈ froms) then Some DirectionFrom else m !! a.
Proof.
  induction froms as [|f froms IH]; intros m a; cbn [foldl].
  - by rewrite decide_False by apply not_elem_of_nil.
  - rewrite IH. unfold addFrom. destruct (decide (a ∈ froms)), (decide (a ∈ f :: froms)); try done; try set_solver.
    + assert (a = f) by set_solver. subst f. by rewrite lookup_insert_eq.
    + rewrite lookup_insert_ne by set_solver. done.
Qed.

Lemma addTos_lookup tos : forall (m : Blacklist) a, NoDup tos -> (forall b, b ∈ tos -> m !! b = None \/ m !! b = Some DirectionFrom) ->
  foldl addTo m tos !! a =
    if decide (a ∈ tos) then Some (match m !! a with Some _ => DirectionBoth | None => DirectionTo end) else m !! a.
Proof.
  induction tos as [|t tos IH]; intros m a Hnd Hm; cbn [foldl].
  - by rewrite decide_False by apply not_elem_of_nil.
  - apply list.NoDup_cons in Hnd as [Hnin Hnd].
    assert (Hne : forall b, b <> t -> addTo m t !! b = m !! b).
    { intros b Hb. unfold addTo. destruct (m !! t); by rewrite lookup_insert_ne. }
    rewrite IH; [|done|].
    2: { intros b Hb. rewrite Hne by (intros ->; done). apply Hm. set_solver. }
    destruct (decide (a = t)) as [->|Hat].
    + rewrite decide_False by done. rewrite decide_True by set_solver.
      unfold addTo. destruct (m !! t); by rewrite lookup_insert_eq.
    + rewrite Hne by done. destruct (decide (a ∈ tos)), (decide (a ∈ t :: tos)); try done; set_solver.
Qed.

Lemma buildBlacklist_lookup froms tos a : NoDup tos ->
  buildBlacklist froms tos !! a =
    if decide (a ∈ tos) then Some (if decide (a ∈ froms) then DirectionBoth else DirectionTo)
    else if decide (a ∈ froms) then Some DirectionFrom else None.
Proof.
  intros Hnd. unfold buildBlacklist. rewrite addTos_lookup; [|done|].
  - rewrite addFroms_lookup, lookup_empty. by destruct (decide (a ∈ tos)), (decide (a ∈ froms)).
  - intros b _. rewrite addFroms_lookup, lookup_empty. destruct (decide (b ∈ froms)); auto.
Qed.

Lemma inFrom_build froms tos a : NoDup tos -> inFrom (buildBlacklist froms tos) a <-> a ∈ froms.
Proof.
  intros Hnd. unfold inFrom. rewrite buildBlacklist_lookup by done.
  destruct (decide (a ∈ tos)), (decide (a ∈ froms)); split; intros; destruct_and?; naive_solver.
Qed.

Lemma inTo_build froms tos a : NoDup tos -> inTo (buildBlacklist froms tos) a <-> a ∈ tos.
Proof.
  intros Hnd. unfold inTo. rewrite buildBlacklist_lookup by done.
  destruct (decide (a ∈ tos)), (decide (a ∈ froms)); split; intros; destruct_and?; naive_solver.
Qed.

(** ** The decisions *)

Lemma denied_from b a : IsAddressDenied b a CheckFrom = true <-> inFrom (blacks b) a.
Proof.
  unfold IsAddressDenied, inFrom, CheckFrom. simpl. destruct (blacks b !! a) as [d|]; [|naive_solver].
  rewrite bool_decide_eq_true. naive_solver.
Qed.

Lemma denied_to b a : IsAddressDenied b a CheckTo = true <-> inTo (blacks b) a.
Proof.
  unfold IsAddressDenied, inTo, CheckTo, CheckFrom. simpl. destruct (blacks b !! a) as [d|]; [|naive_solver].
  rewrite bool_decide_eq_true. naive_solver.
Qed.

Lemma denied_any b a : IsAddressDenied b a CheckBothInAny = true <-> inFrom (blacks b) a \/ inTo (blacks b) a.
Proof.
  unfold IsAddressDenied, inTo, inFrom, CheckTo, CheckFrom, CheckBothInAny. simpl.
  destruct (blacks b !! a) as [d|]; [|naive_solver].
  split; [|done]. intros _. destruct d; [left|right|right]; by eexists.
Qed.

Lemma direction_test (o : option blacklistDirection) d' :
  match o with Some d => bool_decide (d <> d') | None => false end = true <-> exists d, o = Some d /\ d <> d'.
Proof. destruct o; rewrite ?bool_decide_eq_true; naive_solver. Qed.

Lemma txDenied_iff m sender to :
  txDenied m sender to = true <-> inFrom m sender \/ exists t, to = Some t /\ inTo m t.
Proof.
  unfold txDenied. rewrite orb_true_iff, direction_test. destruct to as [t|].
  - rewrite direction_test. unfold inTo. split; (intros [?|?]; [by left|right]); [by exists t|naive_solver].
  - split; (intros [?|?]; [by left|]); naive_solver.
Qed.

(** A topic hit: the contract's rule names a topic whose address is denied. *)
Definition topicHit (b : blacklistValidator) (topics : list Hash) (p : Z * Z) : Prop :=
  exists t, topics !! Z.to_nat p.1 = Some t /\ IsAddressDenied b (topicAddress t) p.2 = true.

Lemma checkTopics_spec b topics checks :
  Forall (fun p => 0 <= p.1) checks ->
  exists r, checkTopics b topics checks = Ok r /\ (r = true <-> Exists (topicHit b topics) checks).
Proof.
  induction 1 as [|[idx ct] checks Hidx _ (r & IH & Hr)]; simpl.
  { exists false. split; [done|]. rewrite Exists_nil. done. }
  simpl in Hidx. destruct (zlen topics <=? idx) eqn:El; bool_Z.
  { exists r. split; [done|]. rewrite Hr, Exists_cons. split; [auto|]. intros [(t & Ht & _)|?]; [|done].
    apply lookup_lt_Some in Ht. simpl in Ht. unfold zlen in El. lia. }
  destruct (idx <? 0) eqn:E0; bool_Z; [lia|].
  destruct (topics !! Z.to_nat idx) as [t|] eqn:Ht.
  2: { apply lookup_ge_None in Ht. unfold zlen in El. lia. }
  destruct (IsAddressDenied b (topicAddress t) ct) eqn:Ed.
  - exists true. split; [done|]. split; [|done]. intros _. left. by exists t.
  - exists r. split; [done|]. rewrite Hr, Exists_cons. split; [auto|]. intros [(t' & Ht' & Hd)|?]; [|done].
    simpl in *. rewrite Ht in Ht'. injection Ht' as <-. congruence.
Qed.

(** ** The caches *)

Section Caches.
Context {St : Type} `{Crypto} `{Codec} `{AccountState St} `{VM St}.
Context `{CacheLaws BC Hash Blacklist} `{CacheLaws EC Hash (gmap Z EventCheckRule)}.
Local Abbreviation M := (ST (Lists BC EC * St)).

(** [getBlacklist] and [getEventCheckRules] are the same procedure on two
    caches: lookup, inherit from the parent, or call.  [P] holds of the states
    whose cache is right. *)
Section Procedure.
Context {V : Type} (get : Hash -> M (option V)) (add : Hash -> V -> M unit) (P : Lists BC EC -> Prop) (view : Hash -> V).
Hypothesis get_right : forall k ls s, P ls -> exists o ls', get k (ls, s) = (Ok o, (ls', s)) /\ P ls' /\ (forall v, o = Some v -> v = view k).
Hypothesis add_right : forall k ls s, P ls -> exists ls', add k (view k) (ls, s) = (Ok tt, (ls', s)) /\ P ls'.

Lemma lookupTwice_right k ls s : P ls ->
  exists o ls', lookupTwice get k (ls, s) = (Ok o, (ls', s)) /\ P ls' /\ (forall v, o = Some v -> v = view k).
Proof.
  intros HP. unfold lookupTwice, mbind, st_bind. destruct (get_right k ls s HP) as (o & ls1 & -> & HP1 & Ho).
  destruct o as [v|]; [|by apply get_right]. exists (Some v), ls1. by split_and!.
Qed.

Lemma inherited_right chain header num lastUpdated ls s : P ls ->
  (forall parent, GetHeader chain (ParentHash header) (num -w 1) = Some parent -> lastUpdated +w 1 < num ->
     view (ParentHash header) = view (ParentHash parent)) ->
  exists o ls', inherited get add chain header num lastUpdated (ls, s) = (Ok o, (ls', s)) /\ P ls' /\
    (forall v, o = Some v -> v = view (ParentHash header)).
Proof.
  intros HP Hview. unfold inherited. destruct ((2 <=? num) && (lastUpdated +w 1 <? num)) eqn:E.
  2: { exists None, ls. by split_and!. }
  bool_Z. destruct (GetHeader _ _ _) as [parent|] eqn:Hp; [|by exists None, ls; split_and!].
  unfold mbind, st_bind. destruct (get_right (ParentHash parent) ls s HP) as (o & ls1 & -> & HP1 & Ho).
  destruct o as [v|]; [|by exists None, ls1; split_and!].
  rewrite (Ho v eq_refl), <- (Hview parent) by done.
  destruct (add_right (ParentHash header) ls1 s HP1) as (ls2 & -> & HP2).
  exists (Some (view (ParentHash header))), ls2. split_and!; [done|done|]. intros v' Hv'. by injection Hv'.
Qed.
End Procedure.

(** The contract: on the state of a block it answers with that block's list,
    and a list not updated since the parent is the parent's list. *)
Record contract_view {V} (call : Header -> ST St V) (lastUpdated : St -> Z) (chain : ChainHeaderReader)
    (stateAt : Hash -> St) (U : Header -> Prop) (view : Hash -> V) : Prop := {
  view_call : forall h, U h -> exists s', call h (stateAt (ParentHash h)) = (Ok (view (ParentHash h)), s');
  view_kept : forall h n parent, U h -> Number h = Some n ->
    GetHeader chain (ParentHash h) (u64 n -w 1) = Some parent ->
    lastUpdated (stateAt (ParentHash h)) +w 1 < u64 n -> view (ParentHash h) = view (ParentHash parent);
}.

Variables (cfg : ChainConfig) (chain : ChainHeaderReader) (stateAt : Hash -> St) (U : Header -> Prop).
Variables (view : Hash -> Blacklist) (rview : Hash -> gmap Z EventCheckRule).

Definition lists_right (ls : Lists BC EC) : Prop :=
  cache_coherent (fun k m => m = view k) (blacklists ls) /\ cache_coherent (fun k m => m = rview k) (eventCheckRules ls).

Lemma blacklists_get_right k ls (s : St) : lists_right ls ->
  exists o ls', blacklists_Get k (ls, s) = (Ok o, (ls', s)) /\ lists_right ls' /\ (forall v, o = Some v -> v = view k).
Proof.
  intros [Hb Hr]. unfold blacklists_Get. cbn [fst snd]. destruct (cache_get k (blacklists ls)) as [o c] eqn:E.
  eexists o, _. split_and!; [done|split; [by eapply coherent_get|done]|].
  intros v ->. by eapply (coherent_hit (fun k m => m = view k)).
Qed.

Lemma blacklists_add_right k ls (s : St) : lists_right ls ->
  exists ls', blacklists_Add k (view k) (ls, s) = (Ok tt, (ls', s)) /\ lists_right ls'.
Proof. intros [Hb Hr]. eexists. split; [done|]. split; [by apply coherent_add|done]. Qed.

Lemma rules_get_right k ls (s : St) : lists_right ls ->
  exists o ls', eventCheckRules_Get k (ls, s) = (Ok o, (ls', s)) /\ lists_right ls' /\ (forall v, o = Some v -> v = rview k).
Proof.
  intros [Hb Hr]. unfold eventCheckRules_Get. cbn [fst snd]. destruct (cache_get k (eventCheckRules ls)) as [o c] eqn:E.
  eexists o, _. split_and!; [done|split; [done|by eapply coherent_get]|].
  intros v ->. by eapply (coherent_hit (fun k m => m = rview k)).
Qed.

Lemma rules_add_right k ls (s : St) : lists_right ls ->
  exists ls', eventCheckRules_Add k (rview k) (ls, s) = (Ok tt, (ls', s)) /\ lists_right ls'.
Proof. intros [Hb Hr]. eexists. split; [done|]. split; [done|by apply coherent_add]. Qed.

Lemma getBlacklist_right h n ls :
  contract_view callBlacklist lastBlacklistUpdatedNumber chain stateAt U view ->
  U h -> Number h = Some n -> lists_right ls ->
  exists ls' s', getBlacklist cfg chain h (ls, stateAt (ParentHash h)) = (Ok (view (ParentHash h)), (ls', s')) /\ lists_right ls'.
Proof.
  intros Hview HU Hn HP. unfold getBlacklist. set (s := stateAt (ParentHash h)). unfold mbind, st_bind.
  destruct (lookupTwice_right blacklists_Get lists_right view blacklists_get_right (ParentHash h) ls s HP)
    as (o & ls1 & -> & HP1 & Ho).
  destruct o as [v|]; [rewrite (Ho v eq_refl); by exists ls1, s|]. unfold st_get. cbn [snd]. rewrite Hn.
  set (old := match SophonBlock cfg with Some _ => _ | None => _ end).
  assert (Hold : exists o ls2, old (ls1, s) = (Ok o, (ls2, s)) /\ lists_right ls2 /\ forall v, o = Some v -> v = view (ParentHash h)).
  { unfold old. destruct (SophonBlock cfg) as [b|]; [|by exists None, ls1; split_and!].
    destruct (b <? n); [|by exists None, ls1; split_and!].
    apply (inherited_right blacklists_Get blacklists_Add lists_right view); auto using blacklists_get_right, blacklists_add_right.
    intros parent Hg Hlt. by eapply (view_kept _ _ _ _ _ _ Hview). }
  destruct Hold as (o & ls2 & -> & HP2 & Ho2). destruct o as [v|]; [rewrite (Ho2 v eq_refl); by exists ls2, s|].
  unfold on_st. cbn [fst snd]. destruct (view_call _ _ _ _ _ _ Hview h HU) as [s' Hs]. unfold s. rewrite Hs.
  destruct (blacklists_add_right (ParentHash h) ls2 s' HP2) as (ls3 & -> & HP3). by exists ls3, s'.
Qed.

Lemma getEventCheckRules_right h n ls :
  contract_view callRules lastRulesUpdatedNumber chain stateAt U rview ->
  U h -> Number h = Some n -> lists_right ls ->
  exists ls' s', getEventCheckRules chain h (ls, stateAt (ParentHash h)) = (Ok (rview (ParentHash h)), (ls', s')) /\ lists_right ls'.
Proof.
  intros Hview HU Hn HP. unfold getEventCheckRules. set (s := stateAt (ParentHash h)). unfold mbind, st_bind.
  destruct (lookupTwice_right eventCheckRules_Get lists_right rview rules_get_right (ParentHash h) ls s HP)
    as (o & ls1 & -> & HP1 & Ho).
  destruct o as [v|]; [rewrite (Ho v eq_refl); by exists ls1, s|]. unfold st_get, st_lift, Number_Uint64. cbn [snd]. rewrite Hn.
  destruct (inherited_right eventCheckRules_Get eventCheckRules_Add lists_right rview rules_get_right rules_add_right
              chain h (u64 n) (lastRulesUpdatedNumber s) ls1 s HP1) as (o & ls2 & -> & HP2 & Ho2).
  { intros parent Hg Hlt. by eapply (view_kept _ _ _ _ _ _ Hview). }
  destruct o as [v|]; [rewrite (Ho2 v eq_refl); by exists ls2, s|].
  unfold on_st. cbn [fst snd]. destruct (view_call _ _ _ _ _ _ Hview h HU) as [s' Hs]. unfold s. rewrite Hs.
  destruct (rules_add_right (ParentHash h) ls2 s' HP2) as (ls3 & -> & HP3). by exists ls3, s'.
Qed.
End Caches.

(** C21: The cached address lists are transparent: whatever the caches have kept
    or forgotten, and whether the list comes from the cache, from the parent's
    entry or from the contract, [getBlacklist] and [getEventCheckRules] return
    the list of the parent block's state, and leave caches that are right. *)
Theorem address_lists_refine `{Crypto} `{Codec} `{AccountState St} `{VM St}
    `{CacheLaws BC Hash Blacklist} `{CacheLaws EC Hash (gmap Z EventCheckRule)}
    cfg chain stateAt (U : Header -> Prop) view rview h n (ls : Lists BC EC) :
  contract_view (St:=St) callBlacklist lastBlacklistUpdatedNumber chain stateAt U view ->
  contract_view callRules lastRulesUpdatedNumber chain stateAt U rview ->
  U h -> Number h = Some n -> lists_right view rview ls ->
  (exists ls' s', getBlacklist cfg chain h (ls, stateAt (ParentHash h)) = (Ok (view (ParentHash h)), (ls', s')) /\
     lists_right view rview ls') /\
  (exists ls' s', getEventCheckRules chain h (ls, stateAt (ParentHash h)) = (Ok (rview (ParentHash h)), (ls', s')) /\
     lists_right view rview ls').
Proof.
  intros Hv Hr HU Hn HP. split; [by eapply getBlacklist_right|by eapply getEventCheckRules_right].
Qed.

(** [ValidateTx] refuses, from the block after the RedCoast fork on,
    exactly the transactions whose sender is on the contract's from-list of the
    parent block or whose recipient is on its to-list. *)
Theorem ValidateTx_correct `{Crypto} `{Codec} `{AccountState St} `{VM St}
    `{CacheLaws BC Hash Blacklist} `{CacheLaws EC Hash (gmap Z EventCheckRule)}
    cfg chain stateAt (U : Header -> Prop) froms tos rview sender tx h n b (ls : Lists BC EC) :
  (forall k, NoDup (tos k)) ->
  contract_view (St:=St) callBlacklist lastBlacklistUpdatedNumber chain stateAt U (fun k => buildBlacklist (froms k) (tos k)) ->
  U h -> Number h = Some n -> RedCoastBlock cfg = Some b ->
  lists_right (fun k => buildBlacklist (froms k) (tos k)) rview ls ->
  exists r ls', ValidateTx cfg chain sender tx h (ls, stateAt (ParentHash h)) = (r, ls') /\ 
    (r = Ok tt \/ r = Err ErrAddressDenied) /\
    (r = Err ErrAddressDenied <->
       b < n /\ (sender ∈ froms (ParentHash h) \/ exists t, TxTo tx = Some t /\ t ∈ tos (ParentHash h))).
Proof.
  intros Hnd Hv HU Hn Hb HP. unfold ValidateTx, after. rewrite Hn, Hb. unfold mbind, st_bind, st_lift.
  destruct (b <? n) eqn:E; bool_Z.
  2: { do 2 eexists. split; [done|]. split; [by left|]. split; [done|]. intros [? _]. lia. }
  destruct (getBlacklist_right cfg chain stateAt U _ rview h n ls Hv HU Hn HP) as (ls' & s' & -> & _).
  pose proof (txDenied_iff (buildBlacklist (froms (ParentHash h)) (tos (ParentHash h))) sender (TxTo tx)) as Hd.
  rewrite inFrom_build in Hd by done. setoid_rewrite inTo_build in Hd; [|done].
  unfold st_fail_if. destruct (txDenied _ _ _); do 2 eexists; (split; [done|]).
  - split; [by right|]. split; [|done]. intros _. split; [done|]. by apply Hd.
  - split; [by left|]. split; [done|]. intros [_ Hx]. by apply Hd in Hx.
Qed.

(** A log is denied exactly when a rule of its event names one of its
    topics whose address is on the list of the rule's type, in whatever order
    the runtime iterates the rule; negative indices excepted
    (see [negative_index_panics]). *)
Theorem IsLogDenied_correct order b l :
  (forall m, order m ≡ₚ map_to_list m) ->
  (forall sig rule idx ct, rules b !! sig = Some rule -> Checks rule !! idx = Some ct -> 0 <= idx) ->
  exists r, IsLogDenied order b (Some l) = Ok r /\
    (r = true <-> exists sig ts rule idx ct t, LTopics l = sig :: ts /\ ts <> [] /\ rules b !! sig = Some rule /\
       Checks rule !! idx = Some ct /\ LTopics l !! Z.to_nat idx = Some t /\
       IsAddressDenied b (topicAddress t) ct = true).
Proof.
  intros Hord Hidx. unfold IsLogDenied. destruct (LTopics l) as [|sig ts] eqn:Et.
  { exists false. split; [done|]. split; [done|]. intros (? & ? & ? & ? & ? & ? & ? & _). done. }
  destruct (zlen (sig :: ts) <=? 1) eqn:El; bool_Z.
  { exists false. split; [done|]. split; [done|]. intros (? & ? & ? & ? & ? & ? & Hx & Hne & _). injection Hx as <- <-.
    destruct ts; [done|]. unfold zlen in El. simpl in El. lia. }
  destruct (rules b !! sig) as [rule|] eqn:Hr.
  2: { exists false. split; [done|]. split; [done|]. intros (? & ? & ? & ? & ? & ? & Hx & _ & Hy & _). congruence. }
  destruct (checkTopics_spec b (sig :: ts) (order (Checks rule))) as (r & Hc & Hiff).
  { apply list.Forall_forall. intros [idx ct] Hin. rewrite Hord, elem_of_map_to_list in Hin. by eapply Hidx. }
  exists r. split; [done|]. rewrite Hiff, list.Exists_exists. split.
  - intros ([idx ct] & Hin & t & Ht & Hd). rewrite Hord, elem_of_map_to_list in Hin.
    exists sig, ts, rule, idx, ct, t. split_and!; try done. intros ->. unfold zlen in El. simpl in El. lia.
  - intros (sig' & ts' & rule' & idx & ct & t & Hx & _ & Hr' & Hck & Ht & Hd). injection Hx as <- <-.
    rewrite Hr in Hr'. injection Hr' as <-. exists (idx, ct). rewrite Hord, elem_of_map_to_list. split; [done|]. by exists t.
Qed.

(** A rule whose index, a 256-bit number of the contract, lies between
    2^63 and 2^64 becomes a negative [int]: the range check of [IsLogDenied]
    lets it pass and indexing the topics panics. *)
Theorem negative_index_panics order b l sig t ts big ct :
  (forall m, order m ≡ₚ map_to_list m) -> 2 ^ 63 <= big < 2 ^ 64 ->
  rules b !! sig = Some (mkRule sig {[ i64 (u64 big) := ct ]}) -> LTopics l = sig :: t :: ts ->
  IsLogDenied order b (Some l) = Panic.
Proof.
  intros Hord Hbig Hr Ht. unfold IsLogDenied. rewrite Ht, Hr.
  destruct (zlen (sig :: t :: ts) <=? 1) eqn:El; bool_Z; [unfold zlen in El; simpl in El; lia|].
  cbn [Checks]. pose proof (Hord {[ i64 (u64 big) := ct ]}) as Ho. rewrite map_to_list_singleton in Ho.
  apply Permutation_singleton_r in Ho. rewrite Ho. cbn [checkTopics].
  assert (Hneg : i64 (u64 big) < 0) by (rewrite u64_small; unfold i64, is_u64; lia).
  destruct (_ <=? i64 (u64 big)) eqn:E1; bool_Z; [unfold zlen in *; lia|].
  destruct (i64 (u64 big) <? 0) eqn:E2; bool_Z; [done|lia].
Qed.

(** A developer may create contracts, once the verification is in force
    (RedCoast reached, the chain configured for it, the contract's switch on),
    exactly if its entry of the contract's mapping is set; otherwise anyone
    may. *)
Theorem CanCreate_correct `{AccountState St} keccak cfg ccfg (s : St) addr height :
  CanCreate keccak cfg ccfg s addr height = false <->
  IsRedCoast cfg height = true /\ EnableDevVerification ccfg = true /\
  (slotOf s AddressListContractAddr 0 / 256) mod 256 = 1 /\
  slotOf s AddressListContractAddr (calcSlotOfDevMappingKey keccak addr) <= 0.
Proof.
  unfold CanCreate, isDeveloperVerificationEnabled.
  destruct (IsRedCoast cfg height), (EnableDevVerification ccfg); simpl; try naive_solver.
  destruct (_ =? 1) eqn:E; bool_Z; [|naive_solver].
  destruct (0 <? _) eqn:E1; bool_Z; split; intros Hx; try done; destruct_and?; try lia.
Qed.

(** ** A concrete list *)

Definition listsCodec : Codec := {|
  Pack _ _ _ := Ok [];
  Unpack _ method _ :=
    if decide (method = "getBlacksFrom"%string) then Ok [VAddresses [70; 72]]
    else if decide (method = "getBlacksTo"%string) then Ok [VAddresses [71; 72]]
    else if decide (method = "rulesLen"%string) then Ok [VUint32 2]
    else Ok [VBytes32 9; VUint 1; VUint8 2];
  UnpackProposal _ := Err (extError 0);
  EncodeProposal _ := Err (extError 0);
|}.

(** A state is the number of its block; calls leave it alone. *)
Definition listsState : AccountState Z := {|
  balanceOf _ _ := 0; nonceOf _ _ := 0; codeHashOf _ _ := 0;
  slotOf _ _ _ := 1; refundOf _ := 0;
  addBalance _ _ s := s; subBalance _ _ s := s; setBalance _ _ s := s; setNonce _ _ s := s; setCode _ _ s := s;
  finalise _ s := s; erase _ s := (false, s); stateOk _ := True;
|}.

Definition listsVM : VM Z := {|
  evmCall _ _ s := (Ok [], s); IntermediateRoot _ s := (s, s); stateFn h := Ok h;
  statePrepare _ _ s := s; TxIndex _ := 0; GetLogs _ _ := [];
|}.

#[local] Existing Instances toyCrypto listsCodec listsState listsVM.

Definition listsHeader : Header := toyHeader 6 11 2 [].
Definition listsView (_ : Hash) : Blacklist := buildBlacklist [70; 72] [71; 72].
Definition listsRules (_ : Hash) : gmap Z EventCheckRule := {[ 9 := mkRule 9 {[ 1 := 2 ]} ]}.
Definition listsEmpty : Lists (gmap Z Blacklist) (gmap Z (gmap Z EventCheckRule)) := mkLists ∅ ∅.
Definition listsChain : ChainHeaderReader := mkChain sampleConfig None (fun _ n => Some (toyHeader n 11 2 [])) (fun _ => None) (fun _ => None).

Lemma lists_view : contract_view callBlacklist lastBlacklistUpdatedNumber listsChain (fun k => k) (fun _ => True) listsView.
Proof. split; [|done]. intros h _. eexists. vm_compute. reflexivity. Qed.

Lemma rules_view : contract_view callRules lastRulesUpdatedNumber listsChain (fun k => k) (fun _ => True) listsRules.
Proof. split; [|done]. intros h _. eexists. vm_compute. reflexivity. Qed.

(** The parent's list is cached. *)
Definition listsCached : Lists (gmap Z Blacklist) (gmap Z (gmap Z EventCheckRule)) := mkLists {[ 5 := listsView 5 ]} ∅.

Lemma lists_cached_right : lists_right listsView listsRules listsCached.
Proof. split; intros k m; simpl; [|by rewrite lookup_empty]. intros Hk. by apply lookup_singleton_Some in Hk as [_ <-]. Qed.

Lemma address_lists_refine_witness :
  (exists ls' s', getBlacklist sampleConfig listsChain listsHeader (listsCached, 6) = (Ok (listsView 6), (ls', s')) /\
     lists_right listsView listsRules ls') /\
  (exists ls' s', getEventCheckRules listsChain listsHeader (listsCached, 6) = (Ok (listsRules 6), (ls', s')) /\
     lists_right listsView listsRules ls').
Proof.
  apply (address_lists_refine sampleConfig listsChain (fun k => k) (fun _ => True) listsView listsRules listsHeader 6 listsCached).
  - apply lists_view.
  - apply rules_view.
  - done.
  - reflexivity.
  - apply lists_cached_right.
Defined.

Definition listsTx (to : Address) : Transaction := legacyTx (Some to) 21000 1 0 0 [] [].

Lemma ValidateTx_correct_witness : exists r ls',
  ValidateTx sampleConfig listsChain 70 (listsTx 5) listsHeader (listsCached, 6) = (r, ls') /\
  (r = Ok tt \/ r = Err ErrAddressDenied) /\
  (r = Err ErrAddressDenied <-> 2 < 6 /\ (70 ∈ [70; 72] \/ exists t, Some 5 = Some t /\ t ∈ [71; 72])).
Proof.
  apply (ValidateTx_correct sampleConfig listsChain (fun k => k) (fun _ => True) (fun _ => [70; 72]) (fun _ => [71; 72])
           listsRules 70 (listsTx 5) listsHeader 6 2 listsCached).
  - intros _. apply (bool_decide_unpack _). vm_compute. done.
  - apply lists_view.
  - done.
  - reflexivity.
  - reflexivity.
  - apply lists_cached_right.
Defined.

Definition listsLog (topics : list Hash) : Log := StateDB.mkLog 1 topics [] 0 0 0.

Lemma IsLogDenied_correct_witness :
  exists r, IsLogDenied map_to_list (mkValidator (listsView 0) (listsRules 0)) (Some (listsLog [9; 71])) = Ok r /\ r = true.
Proof.
  destruct (IsLogDenied_correct map_to_list (mkValidator (listsView 0) (listsRules 0)) (listsLog [9; 71]))
    as (r & Hr & Hiff).
  - done.
  - intros sig rule idx ct Hs Hc. simpl in Hs. unfold listsRules in Hs. apply lookup_singleton_Some in Hs as [_ <-].
    simpl in Hc. apply lookup_singleton_Some in Hc as [<- _]. lia.
  - exists r. split; [exact Hr|]. apply Hiff. exists 9, [71], (mkRule 9 {[ 1 := 2 ]}), 1, 2, 71.
    split_and!; vm_compute; done.
Defined.

Lemma negative_index_panics_witness :
  IsLogDenied map_to_list (mkValidator ∅ {[ 9 := mkRule 9 {[ i64 (u64 9223372036854775808) := 1 ]} ]})
    (Some (listsLog [9; 71])) = Panic.
Proof.
  apply (negative_index_panics map_to_list _ _ 9 71 [] 9223372036854775808 1); [done|lia|reflexivity|reflexivity].
Defined.
