(* ===== verification/Upgrade.v ===== *)
(** * Upgrades of the system contracts
    (consensus/congress/congress.go [PreHandle], systemcontract/upgrade.go and
    the files of the single contracts)

    At the block of a fork new code is written to the system contracts and they
    are initialised.  The byte codes are constants of the repository, here an
    operation of a class. *)

From S2P Require Import StateDB StateIface Prelude Params Types Misc Snapshot Engine Contracts.

Inductive upgradeAction : Type :=
  | hardForkSysGov | hardForkAddressList | hardForkValidatorsV1 | hardForkPunishV1
  | hardForkAddressListV2 | hardForkValidatorsV2.

Class Bytecode : Type := { codeOf : upgradeAction -> list byte }.

Definition SysContractV1 : Z := 1.
Definition SysContractV2 : Z := 2.

Definition devAdmin : Address := 0x6a0e7ae8eded108a4ec0e88d355d9279fad93fce.
Definition govAdmin : Address := 0x2F7ef2ab933E5057c3aFc6be6e4867f320E4E6a3.
Definition validatorV1Admin : Address := 0xD849fa4D5475276568eC21f6deBf1C8A889Aa81B.
Definition adminTestnet : Address := 0x0dA5ac74D30D5b3c5ca9167A8666Ca98Fd58d9fb.
Definition mainnetChainID : Z := 2691.

(** [getAdminByChainId]; comparing a nil chain id panics. *)
Definition getAdminByChainId (admin : Address) (chainId : option Z) : res Address :=
  match chainId with
  | None => Panic
  | Some id => Ok (if id =? mainnetChainID then admin else adminTestnet)
  end.

Definition upgradeAddr (a : upgradeAction) : Address :=
  match a with
  | hardForkSysGov => SysGovContractAddr
  | hardForkAddressList | hardForkAddressListV2 => AddressListContractAddr
  | hardForkValidatorsV1 | hardForkValidatorsV2 => ValidatorsV1ContractAddr
  | hardForkPunishV1 => PunishV1ContractAddr
  end.

Section Upgrade.
Context {St : Type} `{Codec} `{AccountState St} `{VM St} `{Bytecode}.

Definition Update (a : upgradeAction) : ST St unit := st_modify (setCode (upgradeAddr a) (codeOf a)).

(** A query of the old validators contract on the state being upgraded. *)
Definition V0_GetTopValidators (header : Header) : ST St (list Address) :=
  result ← query validatorsContract "getTopValidators" [] ValidatorsContractAddr header;
  ret ← st_lift (Unpack validatorsContract "getTopValidators" result);
  v ← st_lift (one ret "invalid params length");
  match v with
  | VAddresses l => mret (merge_sort Z.le l)
  | _ => st_err (errorf "invalid validators format")
  end.

Definition GetValidatorFeeAddr (val : Address) (header : Header) : ST St Address :=
  result ← query validatorsContract "getValidatorInfo" [VAddress val] ValidatorsContractAddr header;
  ret ← st_lift (Unpack validatorsContract "getValidatorInfo" result);
  match ret with
  | [] => st_panic
  | VAddress a :: _ => mret a
  | _ => st_err (errorf "invalid output")
  end.

Fixpoint feeManagers (vals : list Address) (header : Header) : ST St (list Address) :=
  match vals with
  | [] => mret []
  | val :: vals =>
      feeAddr ← GetValidatorFeeAddr val header;
      rest ← feeManagers vals header;
      mret (feeAddr :: rest)
  end.

Definition initialise (contract : contractName) (method : string) (args : list abiValue) (to : Address)
    (header : Header) : ST St unit :=
  _ ← query contract method args to header; mret tt.

Definition Execute (a : upgradeAction) (header : Header) (cfg : ChainConfig) : ST St unit :=
  match a with
  | hardForkSysGov =>
      admin ← st_lift (getAdminByChainId govAdmin (ChainID cfg));
      initialise governanceContract "initialize" [VAddress admin] SysGovContractAddr header
  | hardForkAddressList =>
      admin ← st_lift (getAdminByChainId devAdmin (ChainID cfg));
      initialise addressListContract "initialize" [VAddress admin] AddressListContractAddr header
  | hardForkValidatorsV1 =>
      topVals ← V0_GetTopValidators header;
      managers ← feeManagers topVals header;
      admin ← st_lift (getAdminByChainId validatorV1Admin (ChainID cfg));
      initialise validatorsV1Contract "initialize" [VAddresses topVals; VAddresses managers; VAddress admin]
        ValidatorsV1ContractAddr header
  | hardForkPunishV1 => initialise punishV1Contract "initialize" [] PunishV1ContractAddr header
  | hardForkAddressListV2 => initialise addressListContract "initializeV2" [] AddressListContractAddr header
  | hardForkValidatorsV2 => mret tt
  end.

Definition upgradeActions (version : Z) : res (list upgradeAction) :=
  if version =? SysContractV1 then Ok [hardForkSysGov; hardForkAddressList; hardForkValidatorsV1; hardForkPunishV1]
  else if version =? SysContractV2 then Ok [hardForkAddressListV2; hardForkValidatorsV2]
  else Panic.   (* log.Crit ends the process *)

Fixpoint runUpgrades (l : list upgradeAction) (header : Header) (cfg : ChainConfig) : ST St unit :=
  match l with
  | [] => mret tt
  | a :: l => _ ← Update a; _ ← Execute a header cfg; runUpgrades l header cfg
  end.

Definition ApplySystemContractUpgrade (version : Z) (header : Header) (cfg : ChainConfig) : ST St unit :=
  l ← st_lift (upgradeActions version);
  runUpgrades l header cfg.

(** [x.Cmp(header.Number) == 0] for a fork block that may be unset. *)
Definition forkAt (block number : option Z) : res bool :=
  match block, number with
  | None, _ => Ok false
  | Some _, None => Panic
  | Some b, Some n => Ok (b =? n)
  end.

Definition PreHandle (cfg : ChainConfig) (header : Header) : ST St unit :=
  redCoast ← st_lift (forkAt (RedCoastBlock cfg) (Number header));
  if (redCoast : bool) then ApplySystemContractUpgrade SysContractV1 header cfg else
  sophon ← st_lift (forkAt (SophonBlock cfg) (Number header));
  if (sophon : bool) then ApplySystemContractUpgrade SysContractV2 header cfg else mret tt.
End Upgrade.

(** The upgrade a block runs. *)
Definition upgradeAt (cfg : ChainConfig) (n : Z) : option Z :=
  if bool_decide (RedCoastBlock cfg = Some n) then Some SysContractV1
  else if bool_decide (SophonBlock cfg = Some n) then Some SysContractV2 else None.

Lemma PreHandle_upgradeAt {St} `{Codec} `{AccountState St} `{VM St} `{Bytecode} cfg header n (s : St) :
  Number header = Some n ->
  PreHandle cfg header s =
    match upgradeAt cfg n with
    | Some v => ApplySystemContractUpgrade v header cfg s
    | None => (Ok tt, s)
    end.
Proof.
  intros Hn. unfold PreHandle, upgradeAt, forkAt, mbind, st_bind, st_lift. rewrite Hn.
  destruct (RedCoastBlock cfg) as [b|].
  - destruct (b =? n) eqn:E; bool_Z.
    { subst b. by rewrite bool_decide_eq_true_2. }
    rewrite bool_decide_eq_false_2 by congruence.
    destruct (SophonBlock cfg) as [b'|]; [|by rewrite bool_decide_eq_false_2].
    destruct (b' =? n) eqn:E'; bool_Z; [subst b'; by rewrite bool_decide_eq_true_2|].
    by rewrite bool_decide_eq_false_2 by congruence.
  - rewrite bool_decide_eq_false_2 by done.
    destruct (SophonBlock cfg) as [b'|]; [|by rewrite bool_decide_eq_false_2].
    destruct (b' =? n) eqn:E'; bool_Z; [subst b'; by rewrite bool_decide_eq_true_2|].
    by rewrite bool_decide_eq_false_2 by congruence.
Qed.

(** The new contracts are in place when they are used.  With a fork
    schedule that [CheckConfigForkOrder] accepts, the address the validators
    are asked at for block [n] is that of the new contract exactly if a block
    up to [n] ran the first upgrade, which is the application of its four
    actions at the RedCoast block; the Sophon block runs the second upgrade,
    and no block runs both. *)
Theorem upgrade_before_use {St} `{Codec} `{AccountState St} `{VM St} `{Bytecode} cfg n :
  CheckConfigForkOrder cfg = Ok tt -> 1 <= n ->
  (GetValidatorAddr (Some n) cfg = ValidatorsV1ContractAddr <->
     exists m, 1 <= m <= n /\ upgradeAt cfg m = Some SysContractV1) /\
  (forall m, upgradeAt cfg m = Some SysContractV1 <-> RedCoastBlock cfg = Some m) /\
  (forall m, upgradeAt cfg m = Some SysContractV2 <-> SophonBlock cfg = Some m) /\
  (forall header m (s : St), Number header = Some m ->
     PreHandle cfg header s =
       match upgradeAt cfg m with
       | Some v => ApplySystemContractUpgrade v header cfg s
       | None => (Ok tt, s)
       end).
Proof.
  intros Hcfg Hn. destruct (accepted_forks_ordered cfg Hcfg) as [Hmin Hlt].
  assert (Hv1 : forall m, upgradeAt cfg m = Some SysContractV1 <-> RedCoastBlock cfg = Some m).
  { intros m. unfold upgradeAt. case_bool_decide as Hr; [done|]. by case_bool_decide. }
  split_and!; [|done| |intros; by apply PreHandle_upgradeAt].
  - setoid_rewrite Hv1. unfold GetValidatorAddr, IsRedCoast, isForked. split.
    + destruct (RedCoastBlock cfg) as [b|] eqn:Hb; [|done]. destruct (b <=? n) eqn:E; bool_Z; [|done].
      intros _. exists b. specialize (Hmin b eq_refl). split; [lia|done].
    + intros (m & Hm & ->). destruct (m <=? n) eqn:E; bool_Z; [done|lia].
  - intros m. unfold upgradeAt. case_bool_decide as Hr.
    + split; [done|]. intros Hs. destruct (Hlt m Hs) as (r & Hr' & ?). rewrite Hr in Hr'. injection Hr'. lia.
    + by case_bool_decide.
Qed.

Definition upgradeCodec : Codec := {|
  Pack _ _ _ := Ok []; Unpack _ _ _ := Ok [VAddresses []];
  UnpackProposal _ := Err (extError 0); EncodeProposal _ := Err (extError 0);
|}.
Definition upgradeState : AccountState Z := {|
  balanceOf _ _ := 0; nonceOf _ _ := 0; codeHashOf _ _ := 0; slotOf _ _ _ := 0; refundOf _ := 0;
  addBalance _ _ s := s; subBalance _ _ s := s; setBalance _ _ s := s; setNonce _ _ s := s;
  setCode _ c s := s + zlen c; finalise _ s := s; erase _ s := (false, s); stateOk _ := True;
|}.
Definition upgradeVM : VM Z := {|
  evmCall _ _ s := (Ok [], s + 100); IntermediateRoot _ s := (s, s); stateFn h := Ok h;
  statePrepare _ _ s := s; TxIndex _ := 0; GetLogs _ _ := [];
|}.
Definition upgradeCode : Bytecode := {| codeOf _ := [Byte.x60; Byte.x80] |}.

Lemma upgrade_before_use_witness :
  PreHandle (H:=upgradeCodec) (H0:=upgradeState) (H1:=upgradeVM) (H2:=upgradeCode) sampleConfig (toyHeader 2 11 2 []) 0 = (Ok tt, 508) /\
  (GetValidatorAddr (Some 7) sampleConfig = ValidatorsV1ContractAddr <->
     exists m, 1 <= m <= 7 /\ upgradeAt sampleConfig m = Some SysContractV1).
Proof.
  split; [vm_compute; reflexivity|].
  destruct (upgrade_before_use (H:=upgradeCodec) (H0:=upgradeState) (H1:=upgradeVM) (H2:=upgradeCode)
              sampleConfig 7) as [Hx _]; [vm_compute; reflexivity|lia|exact Hx].
Defined.
