(* ===== verification/StateTransition.v ===== *)
(** * Applying a transaction
    (core/state_transition.go, core/gaspool.go, core/types/meta_transaction.go)

    Checking a message, buying its gas, running it, refunding and paying the
    tip; meta transactions, whose gas is partly paid by another account.  The
    virtual machine is an operation of a class. *)

From S2P Require Import StateDB StateIface Contracts Prelude Params Types.

(** ** The gas pool *)

Definition AddGas (gp amount : Z) : res Z :=
  if MaxUint64 -w amount <? gp then Panic else Ok (gp +w amount).

Definition SubGas (gp amount : Z) : res Z :=
  if gp <? amount then Err ErrGasLimitReached else Ok (gp -w amount).

(** ** Intrinsic gas *)

Definition TxGas : Z := 21000.
Definition TxGasContractCreation : Z := 53000.
Definition TxDataZeroGas : Z := 4.
Definition TxDataNonZeroGasFrontier : Z := 68.
Definition TxDataNonZeroGasEIP2028 : Z := 16.
Definition TxAccessListAddressGas : Z := 2400.
Definition TxAccessListStorageKeyGas : Z := 1900.
Definition RefundQuotient : Z := 2.
Definition RefundQuotientEIP3529 : Z := 5.

Definition StorageKeys (al : AccessList) : Z := foldl (fun sum tuple => sum + zlen tuple.2) 0 al.

Definition nonZeroBytes (data : list byte) : Z := zlen (filter (fun b => b <> Byte.x00) data).

Definition dataGas (gas : Z) (data : list byte) (isEIP2028 : bool) : res Z :=
  if (length data =? 0)%nat then Ok gas else
  let nz := nonZeroBytes data in
  let nonZeroGas := if isEIP2028 then TxDataNonZeroGasEIP2028 else TxDataNonZeroGasFrontier in
  if (MaxUint64 -w gas) / nonZeroGas <? nz then Err ErrGasUintOverflow else
  let gas := gas +w (nz *w nonZeroGas) in
  let z := zlen data -w nz in
  if (MaxUint64 -w gas) / TxDataZeroGas <? z then Err ErrGasUintOverflow else
  Ok (gas +w (z *w TxDataZeroGas)).

Definition IntrinsicGas (data : list byte) (accessList : option AccessList)
    (isContractCreation isHomestead isEIP2028 : bool) : res Z :=
  let gas := if isContractCreation && isHomestead then TxGasContractCreation else TxGas in
  gas ← dataGas gas data isEIP2028;
  match accessList with
  | None => Ok gas
  | Some al =>
      let gas := gas +w (u64 (zlen al) *w TxAccessListAddressGas) in
      Ok (gas +w (u64 (StorageKeys al) *w TxAccessListStorageKeyGas))
  end.

(** ** Messages *)

Record TxMessage : Type := mkTxMessage {
  MsgFrom : Address;
  MsgTo : option Address;
  MsgGasPrice : Z;
  MsgGasFeeCap : option Z;
  MsgGasTipCap : option Z;
  MsgGas : Z;
  MsgValue : Z;
  MsgNonce : Z;
  MsgIsFake : bool;
  MsgData : list byte;
  MsgAccessList : option AccessList;
}.

(** [Transaction.AsMessage]: with a base fee the price paid is the capped sum. *)
Definition effectivePrice (gasPrice gasTipCap gasFeeCap : Z) (baseFee : option Z) : Z :=
  match baseFee with None => gasPrice | Some b => Z.min (gasTipCap + b) gasFeeCap end.

(** [big.Int.BitLen]; a nil pointer panics. *)
Definition BitLen (x : option Z) : res Z :=
  match x with
  | None => Panic
  | Some z => Ok (if z =? 0 then 0 else Z.log2 (Z.abs z) + 1)
  end.

(** ** Meta transactions *)

Record MetaData : Type := mkMetaData {
  BlockNumLimit : Z;
  FeePercent : Z;
  MetaV : Z; MetaR : Z; MetaS : Z;
  Payload : list byte;
}.

(** "#MetaTransaction#" *)
Definition MetaPrefix : list byte :=
  Zbyte <$> [0x23; 0x4d; 0x65; 0x74; 0x61; 0x54; 0x72; 0x61; 0x6e; 0x73; 0x61; 0x63; 0x74; 0x69; 0x6f; 0x6e; 0x23].
Definition MetaPrefixBytesLen : nat := 17.
Definition BIG10000 : Z := 10000.

Definition IsMetaTransaction (data : list byte) : bool :=
  (MetaPrefixBytesLen <=? length data)%nat && bool_decide (take MetaPrefixBytesLen data = MetaPrefix).

(** What the sponsor signs. *)
Record MetaFields : Type := mkMetaFields {
  mfNonce : Z; mfGasPrice : Z; mfGas : Z; mfTo : option Address; mfValue : Z; mfPayload : list byte;
  mfFrom : Address; mfFeePercent : Z; mfBlockNumLimit : Z; mfChainID : option Z;
}.

(** RLP decoding of the meta data and public key recovery ([RecoverPlain] of
    the hash of the fields). *)
Class MetaCodec : Type := {
  rlpDecodeMeta : list byte -> res MetaData;
  RecoverPlain : MetaFields -> Z -> Z -> Z -> res Address;
}.

Definition DecodeMetaData `{MetaCodec} (encodedData : list byte) (blockNumber : Z) : res MetaData :=
  if (length encodedData <=? MetaPrefixBytesLen)%nat then Err ErrInvalidMetaDataLen else
  metaData ← rlpDecodeMeta (drop MetaPrefixBytesLen encodedData);
  _ ← fail_if (BIG10000 <? FeePercent metaData) (errorf "invalid meta transaction FeePercent need 0-10000");
  _ ← fail_if (BlockNumLimit metaData <? u64 blockNumber) (errorf "expired meta transaction");
  Ok metaData.

Definition ParseMetaData `{MetaCodec} (metadata : MetaData) (nonce gasPrice gas : Z) (to : option Address) (value : Z)
    (payload : list byte) (from : Address) (chainID : option Z) : res Address :=
  match chainID with
  | None => Panic
  | Some id =>
      let fields := mkMetaFields nonce gasPrice gas to value payload from (FeePercent metadata) (BlockNumLimit metadata) chainID in
      match RecoverPlain fields (MetaR metadata) (MetaS metadata) (MetaV metadata - id * 2 - 8) with
      | Ok addr => Ok addr
      | Err _ => Err ErrInvalidMetaSig
      | Panic => Panic
      end
  end.

(** ** The transition *)

Record ExecutionResult : Type := mkResult {
  UsedGas : Z;
  ResultErr : option error;
  ReturnData : list byte;
}.

(** The block context and the configuration of the machine. *)
Record Env (St : Type) : Type := mkEnv {
  EnvConfig : ChainConfig;
  EnvNumber : Z;
  EnvBaseFee : option Z;
  EnvNoBaseFee : bool;
  EnvCoinbase : Address;
  EnvCanCreate : option (St -> Address -> Z -> bool);
}.
Arguments EnvConfig {St}. Arguments EnvNumber {St}. Arguments EnvBaseFee {St}.
Arguments EnvNoBaseFee {St}. Arguments EnvCoinbase {St}. Arguments EnvCanCreate {St}.

(** The machine: creation and call, with the gas left and the error, and the
    set-up of the access list ([PrepareAccessList] with the precompiles). *)
Class TxVM (St : Type) : Type := {
  EvmCreate : Address -> list byte -> Z -> Z -> St -> (list byte * Z * option error) * St;
  EvmCall : Address -> Address -> list byte -> Z -> Z -> St -> (list byte * Z * option error) * St;
  PrepareAccessList : Address -> option Address -> option AccessList -> St -> St;
  emptyCodeHash : Hash;
}.

(** [StateTransition]: the mutable part. *)
Record Transition (St : Type) : Type := mkTransition {
  gp : Z;
  gas : Z;
  initialGas : Z;
  tdata : list byte;
  isMeta : bool;
  feeAddress : Address;
  feePercent : Z;
  realPayload : list byte;
  db : St;
}.
Arguments mkTransition {St}. Arguments gp {St}. Arguments gas {St}. Arguments initialGas {St}. Arguments tdata {St}.
Arguments isMeta {St}. Arguments feeAddress {St}. Arguments feePercent {St}. Arguments realPayload {St}. Arguments db {St}.

Section Transitions.
Context {St : Type} `{AccountState St} `{TxVM St} `{MetaCodec}.
Variables (env : Env St) (msg : TxMessage).
Local Abbreviation T := (Transition St).

Definition set_db (s : St) (t : T) : T :=
  mkTransition (gp t) (gas t) (initialGas t) (tdata t) (isMeta t) (feeAddress t) (feePercent t) (realPayload t) s.
Definition set_gas (g : Z) (t : T) : T :=
  mkTransition (gp t) g (initialGas t) (tdata t) (isMeta t) (feeAddress t) (feePercent t) (realPayload t) (db t).
Definition set_gp (p : Z) (t : T) : T :=
  mkTransition p (gas t) (initialGas t) (tdata t) (isMeta t) (feeAddress t) (feePercent t) (realPayload t) (db t).
Definition set_initialGas (g : Z) (t : T) : T :=
  mkTransition (gp t) (gas t) g (tdata t) (isMeta t) (feeAddress t) (feePercent t) (realPayload t) (db t).
Definition set_meta (addr : Address) (percent : Z) (payload : list byte) (t : T) : T :=
  mkTransition (gp t) (gas t) (initialGas t) payload true addr percent (tdata t) (db t).

Definition NewStateTransition (pool : Z) (s : St) : T := mkTransition pool 0 0 (MsgData msg) false 0 0 [] s.

Definition on_db (f : St -> St) : ST T unit := st_modify (fun t => set_db (f (db t)) t).

Definition gasUsed (t : T) : Z := initialGas t -w gas t.

(** Take the gas of the message from the pool. *)
Definition takeGas : ST T unit :=
  t ← st_get;
  pool ← st_lift (SubGas (gp t) (MsgGas msg));
  st_modify (fun t => set_initialGas (MsgGas msg) (set_gas (gas t +w MsgGas msg) (set_gp pool t))).

Definition buyGas : ST T unit :=
  t ← st_get;
  let mgval := MsgGas msg * MsgGasPrice msg in
  let balanceCheck := match MsgGasFeeCap msg with
                      | None => mgval
                      | Some feeCap => MsgGas msg * feeCap + MsgValue msg
                      end in
  _ ← st_fail_if (balanceOf (db t) (MsgFrom msg) <? balanceCheck) ErrInsufficientFunds;
  _ ← takeGas;
  on_db (subBalance (MsgFrom msg) mgval).

(** The shares of the sponsor and of the sender in an amount. *)
Definition feeShare (percent amount : Z) : Z := amount * percent / BIG10000.
Definition selfShare (percent amount : Z) : Z := amount * (BIG10000 -w percent) / BIG10000.

Definition buyGasMeta : ST T unit :=
  t ← st_get;
  let mgval := MsgGas msg * MsgGasPrice msg in
  let mgFeeAddrVal := feeShare (feePercent t) mgval in
  let mgSelfVal := selfShare (feePercent t) mgval in
  _ ← st_fail_if ((balanceOf (db t) (feeAddress t) <? mgFeeAddrVal) || (balanceOf (db t) (MsgFrom msg) <? mgSelfVal))
        ErrInsufficientFunds;
  _ ← takeGas;
  _ ← on_db (subBalance (feeAddress t) mgFeeAddrVal);
  on_db (subBalance (MsgFrom msg) mgSelfVal).

Definition metaTransactionCheck : ST T unit :=
  t ← st_get;
  if IsMetaTransaction (tdata t) then
    metaData ← st_lift (DecodeMetaData (tdata t) (EnvNumber env));
    addr ← st_lift (ParseMetaData metaData (MsgNonce msg) (MsgGasPrice msg) (MsgGas msg) (MsgTo msg) (MsgValue msg)
                      (Payload metaData) (MsgFrom msg) (ChainID (EnvConfig env)));
    st_modify (set_meta addr (FeePercent metaData) (Payload metaData))
  else mret tt.

(** The nonce and the sender of a real transaction. *)
Definition checkSender (s : St) : res unit :=
  if MsgIsFake msg then Ok tt else
  let stNonce := nonceOf s (MsgFrom msg) in
  if stNonce <? MsgNonce msg then Err ErrNonceTooHigh
  else if MsgNonce msg <? stNonce then Err ErrNonceTooLow
  else if stNonce +w 1 <? stNonce then Err ErrNonceMax
  else let codeHash := codeHashOf s (MsgFrom msg) in
       fail_if (negb (codeHash =? emptyCodeHash) && negb (codeHash =? 0)) ErrSenderNoEOA.

(** The fee caps after London. *)
Definition checkFees : res unit :=
  if negb (IsLondon (EnvConfig env) (Some (EnvNumber env))) then Ok tt else
  test ← (if EnvNoBaseFee env
          then feeLen ← BitLen (MsgGasFeeCap msg);
               if 0 <? feeLen then Ok true else tipLen ← BitLen (MsgGasTipCap msg); Ok (0 <? tipLen)
          else Ok true);
  if negb test then Ok tt else
  feeLen ← BitLen (MsgGasFeeCap msg);
  _ ← fail_if (256 <? feeLen) ErrFeeCapVeryHigh;
  tipLen ← BitLen (MsgGasTipCap msg);
  _ ← fail_if (256 <? tipLen) ErrTipVeryHigh;
  match MsgGasFeeCap msg, MsgGasTipCap msg, EnvBaseFee env with
  | Some feeCap, Some tipCap, baseFee =>
      _ ← fail_if (feeCap <? tipCap) ErrTipAboveFeeCap;
      match baseFee with
      | None => Panic
      | Some b => fail_if (feeCap <? b) ErrFeeCapTooLow
      end
  | _, _, _ => Panic
  end.

Definition preCheck : ST T unit :=
  t ← st_get;
  _ ← st_lift (checkSender (db t));
  _ ← st_lift checkFees;
  _ ← metaTransactionCheck;
  t ← st_get;
  if isMeta t then buyGasMeta else buyGas.

Definition refundGas (refundQuotient : Z) : ST T unit :=
  t ← st_get;
  let refund := Z.min (gasUsed t / refundQuotient) (refundOf (db t)) in
  _ ← st_modify (fun t => set_gas (gas t +w refund) t);
  t ← st_get;
  let remaining := gas t * MsgGasPrice msg in
  _ ← (if isMeta t then
         _ ← on_db (addBalance (feeAddress t) (feeShare (feePercent t) remaining));
         on_db (addBalance (MsgFrom msg) (selfShare (feePercent t) remaining))
       else on_db (addBalance (MsgFrom msg) remaining));
  pool ← st_lift (AddGas (gp t) (gas t));
  st_modify (set_gp pool).

Definition to : Address := default 0 (MsgTo msg).

(** [CanTransfer] of core/evm.go *)
Definition CanTransfer (s : St) (addr : Address) (amount : Z) : bool := amount <=? balanceOf s addr.

(** The checks after the gas is bought, up to the call of the machine. *)
Definition chargeIntrinsic : ST T unit :=
  t ← st_get;
  let number := Some (EnvNumber env) in
  let creation := bool_decide (MsgTo msg = None) in
  let gasCalcData := if isMeta t then realPayload t else tdata t in
  g ← st_lift (IntrinsicGas gasCalcData (MsgAccessList msg) creation (IsHomestead (EnvConfig env) number)
                 (IsIstanbul (EnvConfig env) number));
  _ ← st_fail_if (gas t <? g) ErrIntrinsicGas;
  st_modify (fun t => set_gas (gas t -w g) t).

Definition checkTransfer : ST T unit :=
  t ← st_get;
  st_fail_if ((0 <? MsgValue msg) && negb (CanTransfer (db t) (MsgFrom msg) (MsgValue msg))) ErrInsufficientFundsForTransfer.

Definition prepareAccess : ST T unit :=
  if IsBerlin (EnvConfig env) (Some (EnvNumber env))
  then on_db (PrepareAccessList (MsgFrom msg) (MsgTo msg) (MsgAccessList msg)) else mret tt.

Definition checkCreate : ST T unit :=
  t ← st_get;
  match MsgTo msg, EnvCanCreate env with
  | None, Some canCreate => st_fail_if (negb (canCreate (db t) (MsgFrom msg) (EnvNumber env))) ErrUnauthorizedDeveloper
  | _, _ => mret tt
  end.

(** The machine on the state of the transition. *)
Definition runMachine (run : St -> (list byte * Z * option error) * St) : ST T (list byte * option error) := fun t =>
  let '(ret, leftOver, vmerr, s) := run (db t) in (Ok (ret, vmerr), set_gas leftOver (set_db s t)).

Definition execute : ST T (list byte * option error) :=
  t ← st_get;
  match MsgTo msg with
  | None => runMachine (EvmCreate (MsgFrom msg) (tdata t) (gas t) (MsgValue msg))
  | Some _ =>
      _ ← on_db (fun s => setNonce (MsgFrom msg) (nonceOf s (MsgFrom msg) +w 1) s);
      runMachine (EvmCall (MsgFrom msg) to (tdata t) (gas t) (MsgValue msg))
  end.

Definition effectiveTip : res Z :=
  if IsLondon (EnvConfig env) (Some (EnvNumber env)) then
    match MsgGasTipCap msg, MsgGasFeeCap msg, EnvBaseFee env with
    | Some tip, Some feeCap, Some b => Ok (Z.min tip (feeCap - b))
    | _, _, _ => Panic
    end
  else Ok (MsgGasPrice msg).

Definition feeRecipient : Address :=
  if bool_decide (is_Some (Congress (EnvConfig env))) then FeeRecoder else EnvCoinbase env.

Definition payTip : ST T unit :=
  t ← st_get;
  tip ← st_lift effectiveTip;
  on_db (addBalance feeRecipient (gasUsed t * tip)).

Definition TransitionDb : ST T ExecutionResult :=
  _ ← preCheck;
  _ ← chargeIntrinsic;
  _ ← checkTransfer;
  _ ← prepareAccess;
  _ ← checkCreate;
  rv ← execute;
  _ ← refundGas (if IsLondon (EnvConfig env) (Some (EnvNumber env)) then RefundQuotientEIP3529 else RefundQuotient);
  _ ← payTip;
  t ← st_get;
  mret (mkResult (gasUsed t) rv.2 rv.1).

(** [ApplyMessage], with the pool and the state of the block. *)
Definition ApplyMessage : ST (Z * St) ExecutionResult := fun ps =>
  let '(r, t) := TransitionDb (NewStateTransition (fst ps) (snd ps)) in (r, (gp t, db t)).
End Transitions.
