(* ===== verification/TransitionFacts.v ===== *)
(** * What applying a transaction guarantees

    Intrinsic gas without overflow, gas bounds, atomic checks, and where the
    money goes: the payments, the refund and the tip balance out up to the base
    fee that is burned and the rounding of sponsored payments. *)

From S2P Require Import StateDB StateIface Contracts Prelude Params Types StateTransition.

(** ** Intrinsic gas *)

Definition baseGas (creation homestead : bool) : Z := if creation && homestead then 53000 else 21000.
Definition byteGas (eip2028 : bool) (data : list byte) : Z :=
  nonZeroBytes data * (if eip2028 then 16 else 68) + (zlen data - nonZeroBytes data) * 4.
Definition listGas (al : option AccessList) : Z :=
  match al with None => 0 | Some al => zlen al * 2400 + StorageKeys al * 1900 end.

Lemma nonZeroBytes_range data : 0 <= nonZeroBytes data <= zlen data.
Proof. unfold nonZeroBytes, zlen. pose proof (length_filter (fun b => b <> Byte.x00) data). lia. Qed.

Lemma add_u64 a b : u64 a +w b = u64 (a + b).
Proof. unfold u64. by rewrite Zplus_mod_idemp_l. Qed.

Lemma add_mul_u64 a n m : a +w (u64 n *w m) = u64 (a + n * m).
Proof. unfold u64. by rewrite Zmult_mod_idemp_l, Zplus_mod_idemp_r. Qed.

Lemma guard_div x c n : 0 < c -> x / c < n <-> x < n * c.
Proof.
  intros Hc. pose proof (Z.div_mod x c ltac:(lia)). pose proof (Z.mod_pos_bound x c Hc). split; nia.
Qed.

Lemma dataGas_spec g data eip2028 :
  0 <= g <= 53000 -> zlen data <= MaxUint64 ->
  dataGas g data eip2028 =
    if decide (g + byteGas eip2028 data <= MaxUint64) then Ok (g + byteGas eip2028 data) else Err ErrGasUintOverflow.
Proof.
  intros Hg Hlen. unfold dataGas, byteGas. pose proof (nonZeroBytes_range data) as Hnz.
  destruct (length data =? 0)%nat eqn:E0.
  { apply Nat.eqb_eq in E0. assert (Hz : zlen data = 0) by (unfold zlen; lia). rewrite Hz.
    assert (Hn0 : nonZeroBytes data = 0) by lia. rewrite Hn0. rewrite decide_True by (unfold MaxUint64; lia). f_equal. lia. }
  set (nzg := if eip2028 then TxDataNonZeroGasEIP2028 else TxDataNonZeroGasFrontier).
  assert (Hnzg : nzg = 16 \/ nzg = 68) by (unfold nzg; destruct eip2028; auto).
  replace (if eip2028 then 16 else 68) with nzg by (unfold nzg; by destruct eip2028).
  assert (H1 : MaxUint64 -w g = MaxUint64 - g) by (apply u64_small; word_lia). rewrite H1.
  destruct (_ <? nonZeroBytes data) eqn:E1.
  { bool_Z. rewrite guard_div in E1 by lia. rewrite decide_False; [done|]. unfold TxDataZeroGas. lia. }
  bool_Z. apply Z.le_ngt in E1. rewrite guard_div in E1 by lia.
  assert (H2 : nonZeroBytes data *w nzg = nonZeroBytes data * nzg) by (apply u64_small; unfold is_u64, MaxUint64 in *; lia).
  rewrite H2. assert (H3 : g +w nonZeroBytes data * nzg = g + nonZeroBytes data * nzg).
  { apply u64_small; unfold is_u64, MaxUint64 in *; lia. }
  rewrite H3. assert (H4 : MaxUint64 -w (g + nonZeroBytes data * nzg) = MaxUint64 - (g + nonZeroBytes data * nzg)).
  { apply u64_small; unfold is_u64, MaxUint64 in *; lia. }
  rewrite H4. assert (H5 : zlen data -w nonZeroBytes data = zlen data - nonZeroBytes data).
  { apply u64_small; unfold is_u64, MaxUint64 in *; lia. }
  rewrite H5. unfold TxDataZeroGas.
  destruct (_ <? zlen data - nonZeroBytes data) eqn:E2.
  - bool_Z. rewrite guard_div in E2 by lia. rewrite decide_False; [done|]. lia.
  - bool_Z. apply Z.le_ngt in E2. rewrite guard_div in E2 by lia. rewrite decide_True by lia.
    f_equal. rewrite !u64_small; unfold is_u64, MaxUint64 in *; try lia. rewrite u64_small; unfold is_u64; lia.
Qed.

Lemma IntrinsicGas_spec data al creation homestead eip2028 :
  zlen data <= MaxUint64 ->
  let g := baseGas creation homestead + byteGas eip2028 data in
  IntrinsicGas data al creation homestead eip2028 =
    if decide (g <= MaxUint64) then Ok (match al with None => g | Some _ => u64 (g + listGas al) end)
    else Err ErrGasUintOverflow.
Proof.
  intros Hlen g. unfold IntrinsicGas. rewrite dataGas_spec; [|destruct (creation && homestead); unfold TxGasContractCreation, TxGas; lia|done].
  change (if creation && homestead then TxGasContractCreation else TxGas) with (baseGas creation homestead). fold g.
  destruct (decide _); [|done]. simpl. destruct al as [al|]; [|done]. f_equal.
  rewrite !add_mul_u64. unfold u64. rewrite Zplus_mod_idemp_l. f_equal.
  unfold listGas, TxAccessListAddressGas, TxAccessListStorageKeyGas. lia.
Qed.

(** ** The machine *)

(** What the transition relies on: the machine returns no more gas than it was
    given and leaves a well-formed state; the access list is bookkeeping; the
    refund counter and the decoded percentages are unsigned. *)
Class TxVMLaws (St : Type) `{AccountState St} `{TxVM St} : Prop := {
  create_law : forall from data g v s, stateOk s -> 0 <= g ->
    let '(_, left_over, _, s') := EvmCreate from data g v s in stateOk s' /\ 0 <= left_over <= g;
  call_law : forall from to data g v s, stateOk s -> 0 <= g ->
    let '(_, left_over, _, s') := EvmCall from to data g v s in stateOk s' /\ 0 <= left_over <= g;
  access_law : forall from to al s, stateOk s -> let s' := PrepareAccessList from to al s in
    stateOk s' /\ keeps_balances s s' /\ keeps_nonces s s' /\ keeps_refund s s';
  refund_law : forall s, stateOk s -> 0 <= refundOf s;
}.

Class MetaCodecLaws `{MetaCodec} : Prop := {
  percent_law : forall d m, rlpDecodeMeta d = Ok m -> is_u64 (FeePercent m);
}.

Lemma shares_bounds p a : 0 <= p <= 10000 -> a - 1 <= feeShare p a + selfShare p a <= a.
Proof.
  intros Hp. unfold feeShare, selfShare, BIG10000. rewrite u64_small by word_lia.
  replace (a * (10000 - p)) with (10000 * a - a * p) by lia. generalize (a * p). intros b. lia.
Qed.

Section Facts.
Context {St : Type} `{AccountLaws St} `{!TxVM St} `{!TxVMLaws St} `{!MetaCodec} `{!MetaCodecLaws}.
Variables (env : Env St) (msg : TxMessage).
Local Abbreviation T := (Transition St).
Hypothesis GasU64 : is_u64 (MsgGas msg).

(** What the sender, and the sponsor of a meta transaction, pay for [amount]. *)
Definition charge (t : T) (amount : Z) : Z :=
  if isMeta t then feeShare (feePercent t) amount + selfShare (feePercent t) amount else amount.

(** The transition after the gas was bought from [t]. *)
Definition bought (pool : Z) (s : St) (t : T) : Prop :=
  MsgGas msg <= pool /\ gp t = pool - MsgGas msg /\ gas t = MsgGas msg /\ initialGas t = MsgGas msg /\
  (isMeta t = true -> 0 <= feePercent t <= 10000) /\
  let mgval := MsgGas msg * MsgGasPrice msg in
  if isMeta t then
    feeShare (feePercent t) mgval <= balanceOf s (feeAddress t) /\
    selfShare (feePercent t) mgval <= balanceOf s (MsgFrom msg) /\
    db t = subBalance (MsgFrom msg) (selfShare (feePercent t) mgval)
             (subBalance (feeAddress t) (feeShare (feePercent t) mgval) s)
  else
    match MsgGasFeeCap msg with None => mgval | Some f => MsgGas msg * f + MsgValue msg end <= balanceOf s (MsgFrom msg) /\
    db t = subBalance (MsgFrom msg) mgval s.

Lemma takeGas_run (t : T) : is_u64 (gp t) -> gas t = 0 ->
  takeGas msg t =
    if gp t <? MsgGas msg then (Err ErrGasLimitReached, t)
    else (Ok tt, mkTransition (gp t - MsgGas msg) (MsgGas msg) (MsgGas msg) (tdata t) (isMeta t) (feeAddress t)
                   (feePercent t) (realPayload t) (db t)).
Proof.
  intros Hg H0'. unfold takeGas, mbind, st_bind, st_get, st_lift, SubGas. destruct (gp t <? MsgGas msg) eqn:E; [done|]. bool_Z.
  unfold st_modify, set_initialGas, set_gas, set_gp. simpl. rewrite H0'. rewrite !u64_small; [done|..]; word_lia.
Qed.

Lemma metaCheck_run (t : T) r t' :
  metaTransactionCheck env msg t = (r, t') ->
  gp t' = gp t /\ gas t' = gas t /\ db t' = db t /\
  (r = Ok tt -> isMeta t = false -> isMeta t' = true -> 0 <= feePercent t' <= 10000).
Proof.
  unfold metaTransactionCheck, mbind, st_bind, st_get, st_lift. destruct (IsMetaTransaction (tdata t)).
  2: { intros Heq. injection Heq as <- <-. split_and!; [done..|]. congruence. }
  destruct (DecodeMetaData _ _) as [m|e|] eqn:Ed.
  2, 3: intros Heq; injection Heq as <- <-; done.
  destruct (ParseMetaData _ _ _ _ _ _ _ _) as [a|e|].
  2, 3: intros Heq; injection Heq as <- <-; done.
  intros Heq. injection Heq as <- <-. split_and!; [done..|]. intros _ _ _. simpl.
  unfold DecodeMetaData in Ed. destruct (_ <=? _)%nat; [done|]. inv_bind Ed. inv_bind Ed. inv_bind Ed. injection Ed as <-.
  apply percent_law in Hm. unfold fail_if in Hm0. destruct (BIG10000 <? _) eqn:E; [done|]. bool_Z. unfold BIG10000 in E. word_lia.
Qed.

Lemma preCheck_bought pool s r t : is_u64 pool ->
  preCheck env msg (NewStateTransition msg pool s) = (r, t) ->
  (r = Ok tt -> bought pool s t /\ checkSender msg s = Ok tt /\ checkFees env msg = Ok tt) /\
  (r <> Ok tt -> db t = s /\ gp t = pool).
Proof.
  intros Hp. unfold preCheck. unfold mbind at 1, st_bind at 1, st_get at 1.
  unfold mbind at 1, st_bind at 1, st_lift at 1. cbn [db NewStateTransition].
  destruct (checkSender msg s) as [[]|e|]; [|intros Heq; injection Heq as <- <-; done..].
  unfold mbind at 1, st_bind at 1, st_lift at 1.
  destruct (checkFees env msg) as [[]|e|]; [|intros Heq; injection Heq as <- <-; done..].
  unfold mbind at 1, st_bind at 1. destruct (metaTransactionCheck env msg _) as [r1 t1] eqn:Em.
  apply metaCheck_run in Em as (Hgp & Hgas & Hdb & Hmeta). cbn in Hgp, Hgas, Hdb.
  destruct r1 as [[]|e|]; [|intros Heq; injection Heq as <- <-; done..].
  specialize (Hmeta eq_refl eq_refl). unfold mbind at 1, st_bind at 1, st_get at 1. cbn iota.
  destruct (isMeta t1) eqn:Eme.
  - unfold buyGasMeta. unfold mbind at 1, st_bind at 1, st_get at 1. cbn iota zeta. rewrite Hdb.
    destruct (_ || _) eqn:Eb.
    { intros Heq. injection Heq as <- <-. by split. }
    bool_Z. unfold mbind at 1, st_bind at 1. cbn [st_fail_if mret st_ret].
    unfold mbind at 1, st_bind at 1. rewrite takeGas_run by (by rewrite ?Hgp). rewrite Hgp.
    destruct (pool <? MsgGas msg) eqn:Eg; [intros Heq; injection Heq as <- <-; by split|].
    bool_Z. intros Heq. injection Heq as <- <-. split; [|done]. intros _. split; [|done].
    unfold bought. simpl. rewrite Eme, Hdb. split_and!; auto; by apply Hmeta.
  - unfold buyGas. unfold mbind at 1, st_bind at 1, st_get at 1. cbn iota zeta. rewrite Hdb.
    destruct (balanceOf s (MsgFrom msg) <? _) eqn:Eb.
    { intros Heq. injection Heq as <- <-. by split. }
    bool_Z. unfold mbind at 1, st_bind at 1. cbn [st_fail_if mret st_ret].
    unfold mbind at 1, st_bind at 1. rewrite takeGas_run by (by rewrite ?Hgp). rewrite Hgp.
    destruct (pool <? MsgGas msg) eqn:Eg; [intros Heq; injection Heq as <- <-; by split|].
    bool_Z. intros Heq. injection Heq as <- <-. split; [|done]. intros _. split; [|done].
    unfold bought. simpl. rewrite Eme, Hdb. split_and!; auto; done.
Qed.

(** The data the intrinsic gas is computed from are those of the message. *)
Definition gasCalcData (t : T) : list byte := if isMeta t then realPayload t else tdata t.

Lemma takeGas_data u (t t' : T) : takeGas msg t = (Ok u, t') -> gasCalcData t' = gasCalcData t.
Proof.
  unfold takeGas. intros Hrun. inv_bind Hrun. injection Hm as <- <-. inv_bind Hrun. unfold st_lift in Hm.
  injection Hm as _ <-. unfold st_modify in Hrun. by injection Hrun as _ <-.
Qed.

Lemma on_db_data f (t t' : T) r : on_db f t = (r, t') -> gasCalcData t' = gasCalcData t.
Proof. unfold on_db, st_modify. intros Heq. by injection Heq as _ <-. Qed.

Lemma metaCheck_data u (t t' : T) : isMeta t = false -> metaTransactionCheck env msg t = (Ok u, t') -> gasCalcData t' = tdata t.
Proof.
  unfold metaTransactionCheck. intros Hm Hrun. inv_bind Hrun. injection Hm0 as <- <-.
  destruct (IsMetaTransaction (tdata t)).
  - inv_bind Hrun. inv_bind Hrun. unfold st_lift in Hm0, Hm1. injection Hm0 as _ <-. injection Hm1 as _ <-.
    unfold st_modify in Hrun. by injection Hrun as _ <-.
  - unfold mret, st_ret in Hrun. injection Hrun as _ <-. unfold gasCalcData. by rewrite Hm.
Qed.

Lemma preCheck_data pool s t : preCheck env msg (NewStateTransition msg pool s) = (Ok tt, t) -> gasCalcData t = MsgData msg.
Proof.
  unfold preCheck. intros Hrun. inv_bind Hrun. injection Hm as <- <-.
  inv_bind Hrun. inv_bind Hrun. unfold st_lift in Hm, Hm0. injection Hm as _ <-. injection Hm0 as _ <-.
  inv_bind Hrun. apply metaCheck_data in Hm; [|done]. inv_bind Hrun. injection Hm0 as <- <-.
  change (MsgData msg) with (tdata (NewStateTransition msg pool s)). rewrite <- Hm.
  destruct (isMeta s0).
  - unfold buyGasMeta in Hrun. inv_bind Hrun. injection Hm0 as <- <-. inv_bind Hrun. unfold st_fail_if in Hm0.
    case_if; [done|]. injection Hm0 as _ <-. inv_bind Hrun. inv_bind Hrun.
    apply takeGas_data in Hm0. apply on_db_data in Hm1, Hrun. congruence.
  - unfold buyGas in Hrun. inv_bind Hrun. injection Hm0 as <- <-. inv_bind Hrun. unfold st_fail_if in Hm0.
    case_if; [done|]. injection Hm0 as _ <-. inv_bind Hrun.
    apply takeGas_data in Hm0. apply on_db_data in Hrun. congruence.
Qed.

(** ** Balances *)

Lemma total_add l a x (s : St) : stateOk s -> NoDup l -> a ∈ l ->
  totalBalance l (addBalance a x s) = totalBalance l s + x.
Proof.
  intros Hs Hl Ha. destruct (add_law a x s Hs) as (_ & _ & _ & Hb).
  rewrite (total_change l _ _ _ _ Hl Hb), decide_True by done. lia.
Qed.

Lemma total_sub l a x (s : St) : stateOk s -> NoDup l -> a ∈ l ->
  totalBalance l (subBalance a x s) = totalBalance l s - x.
Proof.
  intros Hs Hl Ha. destruct (sub_law a x s Hs) as (_ & _ & _ & Hb).
  rewrite (total_change l _ _ _ _ Hl Hb), decide_True by done. lia.
Qed.

Lemma bought_state pool s t l : bought pool s t -> stateOk s -> stateOk (db t) /\
  (NoDup l -> MsgFrom msg ∈ l -> (isMeta t = true -> feeAddress t ∈ l) ->
   totalBalance l (db t) = totalBalance l s - charge t (MsgGas msg * MsgGasPrice msg)).
Proof.
  unfold bought, charge. intros (_ & _ & _ & _ & _ & Hb) Hs. destruct (isMeta t).
  - destruct Hb as (_ & _ & ->).
    destruct (sub_law (feeAddress t) (feeShare (feePercent t) (MsgGas msg * MsgGasPrice msg)) s Hs) as (Ho & _).
    split; [apply sub_law; exact Ho|]. intros Hl Hf Ha. rewrite !total_sub; auto. lia.
  - destruct Hb as (_ & ->). split; [apply sub_law; exact Hs|]. intros Hl Hf _. by rewrite total_sub.
Qed.

(** The fields a step leaves alone. *)
Definition same_sponsor (t t' : T) : Prop :=
  isMeta t' = isMeta t /\ feeAddress t' = feeAddress t /\ feePercent t' = feePercent t.

Lemma IntrinsicGas_nonneg data al c h e g : IntrinsicGas data al c h e = Ok g -> 0 <= g.
Proof.
  unfold IntrinsicGas. intros Hg. inv_bind Hg.
  assert (Ha : 0 <= a).
  { unfold dataGas in Hm. destruct (length data =? 0)%nat; [injection Hm as <-; destruct (c && h); unfold TxGasContractCreation, TxGas; lia|].
    destruct (_ <? _); [done|]. destruct (_ <? _); [done|]. injection Hm as <-. apply u64_nonneg. }
  destruct al; injection Hg as <-; [apply u64_nonneg|done].
Qed.

(** From the purchase to the call of the machine. *)
Lemma before_machine t1 t2 t3 t4 t5 :
  gas t1 = MsgGas msg ->
  chargeIntrinsic env msg t1 = (Ok tt, t2) -> checkTransfer msg t2 = (Ok tt, t3) ->
  prepareAccess env msg t3 = (Ok tt, t4) -> checkCreate env msg t4 = (Ok tt, t5) ->
  exists g, 0 <= g <= MsgGas msg /\ gas t5 = MsgGas msg - g /\ gp t5 = gp t1 /\ initialGas t5 = initialGas t1 /\
    same_sponsor t1 t5 /\ tdata t5 = tdata t1 /\
    IntrinsicGas (if isMeta t1 then realPayload t1 else tdata t1) (MsgAccessList msg) (bool_decide (MsgTo msg = None))
      (IsHomestead (EnvConfig env) (Some (EnvNumber env))) (IsIstanbul (EnvConfig env) (Some (EnvNumber env))) = Ok g /\
    (stateOk (db t1) -> stateOk (db t5) /\ keeps_balances (db t1) (db t5) /\ keeps_refund (db t1) (db t5)) /\
    (0 < MsgValue msg -> MsgValue msg <= balanceOf (db t1) (MsgFrom msg)).
Proof.
  intros Hgas Hci Hct Hpa Hcc.
  unfold chargeIntrinsic in Hci. inv_bind Hci. injection Hm as <- <-. inv_bind Hci. unfold st_lift in Hm. injection Hm as Hg <-.
  inv_bind Hci. unfold st_fail_if in Hm. destruct (gas t1 <? a) eqn:E; [done|]. injection Hm as <- <-. bool_Z.
  unfold st_modify in Hci. injection Hci as <-. pose proof (IntrinsicGas_nonneg _ _ _ _ _ _ Hg) as Hg0.
  unfold checkTransfer in Hct. inv_bind Hct. injection Hm as <- <-. unfold st_fail_if in Hct.
  destruct (_ && _) eqn:Et; [done|]. injection Hct as <-.
  exists a.
  assert (Ht5 : t5 = t4).
  { unfold checkCreate in Hcc. inv_bind Hcc. injection Hm as <- <-. destruct (MsgTo msg), (EnvCanCreate env);
      try (by injection Hcc). unfold st_fail_if in Hcc. case_if; [done|by injection Hcc]. }
  subst t5.
  assert (Hdb : stateOk (db t1) -> stateOk (db t4) /\ keeps_balances (db t1) (db t4) /\ keeps_refund (db t1) (db t4)).
  { unfold prepareAccess in Hpa. case_if; [|by injection Hpa as <-]. unfold on_db, st_modify in Hpa. injection Hpa as <-.
    intros Hs. destruct (access_law (MsgFrom msg) (MsgTo msg) (MsgAccessList msg) _ Hs) as (Ho & Hb & _ & Hr). done. }
  assert (Hrest : gas t4 = MsgGas msg - a /\ gp t4 = gp t1 /\ initialGas t4 = initialGas t1 /\ same_sponsor t1 t4 /\ tdata t4 = tdata t1).
  { assert (Hw : gas t1 -w a = MsgGas msg - a) by (rewrite Hgas, u64_small; [done|]; word_lia).
    unfold prepareAccess, on_db, st_modify in Hpa. destruct (IsBerlin _ _); injection Hpa as <-; simpl; rewrite Hw; done. }
  destruct Hrest as (Hr1 & Hr2 & Hr3 & Hr4 & Hr5). split; [lia|]. do 7 (split; [done|]). intros Hv.
  apply andb_false_iff in Et as [Et|Et]; bool_Z; [lia|]. apply negb_false_iff in Et. unfold CanTransfer in Et. by bool_Z.
Qed.

(** The machine ran from [s3] to [s4] on the data and gas of [t]. *)
Definition machine_ran (t : T) (s3 : St) (left_over : Z) (s4 : St) : Prop :=
  exists ret e, match MsgTo msg with
                | None => EvmCreate (MsgFrom msg) (tdata t) (gas t) (MsgValue msg) s3
                | Some a => EvmCall (MsgFrom msg) a (tdata t) (gas t) (MsgValue msg) s3
                end = (ret, left_over, e, s4).

Lemma execute_run t rv t' : execute msg t = (Ok rv, t') -> stateOk (db t) -> 0 <= gas t ->
  exists s3 left_over s4, machine_ran t s3 left_over s4 /\ t' = set_gas left_over (set_db s4 t) /\
    stateOk s3 /\ keeps_balances (db t) s3 /\ stateOk s4 /\ 0 <= left_over <= gas t /\
    (forall b, b <> MsgFrom msg -> nonceOf s3 b = nonceOf (db t) b) /\
    (MsgTo msg <> None -> nonceOf s3 (MsgFrom msg) = nonceOf (db t) (MsgFrom msg) +w 1).
Proof.
  unfold execute. intros Hrun Hs Hg. inv_bind Hrun. injection Hm as <- <-. unfold machine_ran, to in *.
  destruct (MsgTo msg) as [d|] eqn:Ed; simpl in Hrun.
  - inv_bind Hrun. unfold on_db, st_modify in Hm. apply (f_equal snd) in Hm. simpl in Hm. subst s. unfold runMachine in Hrun. cbn [db gas tdata set_db] in Hrun.
    destruct (nonce_law (MsgFrom msg) (nonceOf (db t) (MsgFrom msg) +w 1) (db t) Hs) as (Ho & Hb & _ & Hn).
    set (s3 := setNonce _ _ _) in *. pose proof (call_law (MsgFrom msg) d (tdata t) (gas t) (MsgValue msg) s3 Ho Hg) as Hl.
    destruct (EvmCall _ _ _ _ _ s3) as [[[ret left_over] e] s4] eqn:Ee. injection Hrun as <- <-. destruct Hl as [Hl1 Hl2].
    exists s3, left_over, s4. split; [by exists ret, e|]. do 4 (split; [done|]). split; [done|].
    split; [intros b Hne; rewrite Hn; by rewrite decide_False by congruence|]. intros _. rewrite Hn. by rewrite decide_True.
  - unfold runMachine in Hrun. pose proof (create_law (MsgFrom msg) (tdata t) (gas t) (MsgValue msg) (db t) Hs Hg) as Hl.
    destruct (EvmCreate _ _ _ _ (db t)) as [[[ret left_over] e] s4] eqn:Ee. injection Hrun as <- <-. destruct Hl as [Hl1 Hl2].
    exists (db t), left_over, s4. split; [by exists ret, e|]. by do 4 (split; [done|]).
Qed.

(** The state after the refund. *)
Definition refunded (t : T) (s : St) (amount : Z) : St :=
  if isMeta t then addBalance (MsgFrom msg) (selfShare (feePercent t) amount)
                     (addBalance (feeAddress t) (feeShare (feePercent t) amount) s)
  else addBalance (MsgFrom msg) amount s.

Lemma refunded_state t s amount l : stateOk s -> stateOk (refunded t s amount) /\
  (NoDup l -> MsgFrom msg ∈ l -> (isMeta t = true -> feeAddress t ∈ l) ->
   totalBalance l (refunded t s amount) = totalBalance l s + charge t amount).
Proof.
  unfold refunded, charge. intros Hs. destruct (isMeta t).
  - destruct (add_law (feeAddress t) (feeShare (feePercent t) amount) s Hs) as (Ho & _).
    split; [apply add_law; exact Ho|]. intros Hl Hf Ha. rewrite !total_add; auto. lia.
  - split; [apply add_law; exact Hs|]. intros Hl Hf _. by rewrite total_add.
Qed.

Lemma refundGas_run q pool t : 0 < q -> is_u64 pool -> MsgGas msg <= pool ->
  initialGas t = MsgGas msg -> 0 <= gas t <= MsgGas msg -> gp t = pool - MsgGas msg -> stateOk (db t) ->
  let r := Z.min ((MsgGas msg - gas t) / q) (refundOf (db t)) in
  0 <= r /\ gas t + r <= MsgGas msg /\
  refundGas msg q t = (Ok tt, mkTransition (pool - MsgGas msg + (gas t + r)) (gas t + r) (initialGas t) (tdata t)
    (isMeta t) (feeAddress t) (feePercent t) (realPayload t) (refunded t (db t) ((gas t + r) * MsgGasPrice msg))).
Proof.
  intros Hq Hp Hle Hi Hg Hgp Hs r. pose proof (refund_law (db t) Hs) as Hr0.
  assert (Hdiv : 0 <= (MsgGas msg - gas t) / q <= MsgGas msg - gas t).
  { split; [apply Z.div_pos; lia|]. apply Z.div_le_upper_bound; nia. }
  assert (Hr : 0 <= r /\ gas t + r <= MsgGas msg) by (unfold r; lia). split; [lia|]. split; [lia|].
  assert (Hused : gasUsed t = MsgGas msg - gas t).
  { unfold gasUsed. rewrite Hi. apply u64_small. word_lia. }
  assert (Hgas : gas t +w r = gas t + r) by (apply u64_small; word_lia).
  unfold refundGas. unfold mbind at 1, st_bind at 1, st_get at 1. rewrite Hused. fold r. cbn zeta.
  unfold mbind at 1, st_bind at 1, st_modify at 1. unfold mbind at 1, st_bind at 1, st_get at 1.
  cbn [set_gas gas isMeta feeAddress feePercent gp db]. rewrite Hgas.
  assert (Hadd : AddGas (pool - MsgGas msg) (gas t + r) = Ok (pool - MsgGas msg + (gas t + r))).
  { unfold AddGas. rewrite (u64_small (MaxUint64 - _)) by word_lia.
    destruct (_ <? _) eqn:E; bool_Z; [word_lia|]. f_equal. apply u64_small. word_lia. }
  unfold mbind at 1, st_bind at 1, refunded. destruct (isMeta t) eqn:Em; unfold on_db, st_modify, mbind, st_bind, st_lift;
    cbn [gp set_db set_gas db]; rewrite Hgp, Hadd;
    unfold set_gp, set_db, set_gas; simpl; by rewrite Em.
Qed.

Definition quotient : Z := if IsLondon (EnvConfig env) (Some (EnvNumber env)) then 5 else 2.

(** A successful transition, step by step: [t1] after the purchase, [g] the
    intrinsic gas, [s3] and [s4] around the machine, [r] the refund. *)
Record transition_steps (pool : Z) (s : St) (res : ExecutionResult) (t' t1 : T) (g left_over r tip : Z) (s3 s4 : St) : Prop := {
  steps_bought : bought pool s t1;
  steps_sender : checkSender msg s = Ok tt;
  steps_fees : checkFees env msg = Ok tt;
  steps_intrinsic : 0 <= g <= MsgGas msg /\
    IntrinsicGas (MsgData msg) (MsgAccessList msg) (bool_decide (MsgTo msg = None))
      (IsHomestead (EnvConfig env) (Some (EnvNumber env))) (IsIstanbul (EnvConfig env) (Some (EnvNumber env))) = Ok g;
  steps_before : stateOk s3 /\ keeps_balances (db t1) s3;
  steps_machine : exists t5, tdata t5 = tdata t1 /\ gas t5 = MsgGas msg - g /\ machine_ran t5 s3 left_over s4;
  steps_after : stateOk s4 /\ 0 <= left_over <= MsgGas msg - g;
  steps_refund : r = Z.min ((MsgGas msg - left_over) / quotient) (refundOf s4) /\ 0 <= r /\ left_over + r <= MsgGas msg;
  steps_used : UsedGas res = MsgGas msg - left_over - r;
  steps_pool : gp t' = pool - UsedGas res;
  steps_tip : effectiveTip env msg = Ok tip;
  steps_state : db t' = addBalance (feeRecipient env) (UsedGas res * tip)
                          (refunded t1 s4 ((left_over + r) * MsgGasPrice msg));
  steps_sponsor : same_sponsor t1 t';
}.

(** From the end of the machine's run to the result. *)
Lemma after_machine pool t6 rv res t' : is_u64 pool -> MsgGas msg <= pool ->
  initialGas t6 = MsgGas msg -> 0 <= gas t6 <= MsgGas msg -> gp t6 = pool - MsgGas msg -> stateOk (db t6) ->
  (_ ← refundGas msg quotient; _ ← payTip env msg; t ← st_get; mret (mkResult (gasUsed t) rv.2 rv.1)) t6 = (Ok res, t') ->
  let r := Z.min ((MsgGas msg - gas t6) / quotient) (refundOf (db t6)) in
  0 <= r /\ gas t6 + r <= MsgGas msg /\ UsedGas res = MsgGas msg - gas t6 - r /\ gp t' = pool - UsedGas res /\
  same_sponsor t6 t' /\
  exists tip, effectiveTip env msg = Ok tip /\
    db t' = addBalance (feeRecipient env) (UsedGas res * tip) (refunded t6 (db t6) ((gas t6 + r) * MsgGasPrice msg)).
Proof.
  intros Hp Hle Hi Hg Hgp Hs Hrun r.
  destruct (refundGas_run quotient pool t6) as (Hr0 & Hr1 & Href); try done.
  { unfold quotient. destruct (IsLondon _ _); lia. }
  fold r in Hr0, Hr1, Href. split; [done|]. split; [done|].
  unfold mbind at 1, st_bind at 1 in Hrun. rewrite Href in Hrun. cbn iota in Hrun.
  assert (Hused : gasUsed (mkTransition (pool - MsgGas msg + (gas t6 + r)) (gas t6 + r) (initialGas t6) (tdata t6)
    (isMeta t6) (feeAddress t6) (feePercent t6) (realPayload t6) (refunded t6 (db t6) ((gas t6 + r) * MsgGasPrice msg)))
    = MsgGas msg - gas t6 - r).
  { unfold gasUsed. simpl. rewrite Hi, u64_small; [lia|]. word_lia. }
  unfold payTip, mbind, st_bind, st_get, st_lift, on_db, st_modify, mret, st_ret in Hrun. rewrite Hused in Hrun.
  destruct (effectiveTip env msg) as [tip|e|]; [|done..]. cbn iota in Hrun. injection Hrun as <- <-.
  cbn [UsedGas gp db set_db isMeta feeAddress feePercent].
  match goal with |- gasUsed ?t = _ /\ _ => assert (Hu : gasUsed t = MsgGas msg - gas t6 - r) by exact Hused end.
  rewrite Hu. split; [done|]. split; [lia|]. split; [done|]. by exists tip.
Qed.

Lemma TransitionDb_steps pool s res t' : is_u64 pool -> stateOk s ->
  TransitionDb env msg (NewStateTransition msg pool s) = (Ok res, t') ->
  exists t1 g left_over r tip s3 s4, transition_steps pool s res t' t1 g left_over r tip s3 s4.
Proof.
  intros Hp Hs Hrun. unfold TransitionDb in Hrun. fold quotient in Hrun.
  inv_bind Hrun. rename s0 into t1. destruct a.
  destruct (preCheck_bought pool s _ _ Hp Hm) as [Hpre _]. destruct (Hpre eq_refl) as (Hbt & Hsender & Hfees). clear Hpre.
  inv_bind Hrun. destruct a. inv_bind Hrun. destruct a. inv_bind Hrun. destruct a. inv_bind Hrun. destruct a.
  assert (Hbt' := Hbt). destruct Hbt' as (Hle & Hgp & Hgas & Hinit & _ & _).
  destruct (before_machine _ _ _ _ _ Hgas Hm0 Hm1 Hm2 Hm3) as (g & Hg & Hg5 & Hgp5 & Hi5 & Hsp & Htd & Hint & Hdb & _).
  destruct (bought_state pool s t1 [] Hbt Hs) as [Ho1 _].
  destruct (Hdb Ho1) as (Ho5 & Hb5 & _).
  inv_bind Hrun. rename s3 into t5.
  destruct (execute_run t5 a _ Hm4 Ho5 ltac:(lia)) as (sb & left_over & sa & Hran & -> & Ho3 & Hb3 & Ho4 & Hleft & _).
  destruct Hsp as (Hsp1 & Hsp2 & Hsp3).
  destruct (after_machine pool (set_gas left_over (set_db sa t5)) a res t' Hp Hle (eq_trans Hi5 Hinit) ltac:(simpl; lia) (eq_trans Hgp5 Hgp) Ho4 Hrun)
    as (Hr0 & Hr1 & Hu & Hpool & Hsp' & tip & Htip & Hst).
  cbn [gas db set_gas set_db] in *.
  exists t1, g, left_over, (Z.min ((MsgGas msg - left_over) / quotient) (refundOf sa)), tip, sb, sa.
  pose proof (preCheck_data pool s t1 Hm) as Hgd. unfold gasCalcData in Hgd. rewrite Hgd in Hint. split; try done.
  - split; [done|]. intros b. by rewrite Hb3, Hb5.
  - by exists t5.
  - split; [done|]. lia.
  - rewrite Hst. unfold refunded. simpl. by rewrite Hsp1, Hsp2, Hsp3.
  - destruct Hsp' as (H1' & H2' & H3'). simpl in *. unfold same_sponsor. by rewrite H1', H2', H3'.
Qed.
(** ** No panic

    After London the caps of the message and the base fee have to be there; for
    a meta transaction also the chain identifier, and the decoding of the meta
    data and the recovery of the sponsor must not panic. *)
Definition priced : Prop := IsLondon (EnvConfig env) (Some (EnvNumber env)) = true ->
  is_Some (MsgGasFeeCap msg) /\ is_Some (MsgGasTipCap msg) /\ is_Some (EnvBaseFee env).
Definition metaReady : Prop := IsMetaTransaction (MsgData msg) = true ->
  is_Some (ChainID (EnvConfig env)) /\ rlpDecodeMeta (drop MetaPrefixBytesLen (MsgData msg)) <> Panic /\ forall f r s v, RecoverPlain f r s v <> Panic.

Lemma checkFees_calm : priced -> checkFees env msg <> Panic.
Proof.
  unfold checkFees, priced. destruct (IsLondon _ _); [|done]. intros Hp. destruct (Hp eq_refl) as ([f Hf] & [tip Ht] & [b Hb]).
  rewrite Hf, Ht, Hb. unfold BitLen, fail_if. cbn. repeat (case_match; try done; simplify_eq/=).
Qed.

Lemma effectiveTip_calm : priced -> exists tip, effectiveTip env msg = Ok tip.
Proof.
  unfold effectiveTip, priced. destruct (IsLondon _ _); [|by eexists]. intros Hp. destruct (Hp eq_refl) as ([f ->] & [tip ->] & [b ->]). by eexists.
Qed.

(** A step that neither panics nor touches the gas pool. *)
Definition calm {A} (m : ST T A) : Prop := forall t, (m t).1 <> Panic /\ gp (m t).2 = gp t.

Lemma chargeIntrinsic_calm : calm (chargeIntrinsic env msg).
Proof.
  intros t. unfold chargeIntrinsic, mbind, st_bind, st_get, st_lift.
  assert (Hi : forall d al c h e, IntrinsicGas d al c h e <> Panic).
  { intros. unfold IntrinsicGas, dataGas, mbind, res_bind. repeat case_match; done. }
  destruct (IntrinsicGas _ _ _ _ _) as [g|e|] eqn:E; [|done|by apply Hi in E].
  unfold st_fail_if. by destruct (gas t <? g).
Qed.
Lemma checkTransfer_calm : calm (checkTransfer msg).
Proof. intros t. unfold checkTransfer, mbind, st_bind, st_get, st_fail_if. by destruct (_ && _). Qed.
Lemma prepareAccess_calm : calm (prepareAccess env msg).
Proof. intros t. unfold prepareAccess, on_db, st_modify. by destruct (IsBerlin _ _). Qed.
Lemma checkCreate_calm : calm (checkCreate env msg).
Proof.
  intros t. unfold checkCreate, mbind, st_bind, st_get. destruct (MsgTo msg), (EnvCanCreate env); try done.
  unfold st_fail_if. by destruct (negb _).
Qed.

Lemma preCheck_calm pool s : priced -> metaReady -> (preCheck env msg (NewStateTransition msg pool s)).1 <> Panic.
Proof.
  intros Hp Hm. unfold preCheck. unfold mbind at 1, st_bind at 1, st_get at 1.
  unfold mbind at 1, st_bind at 1, st_lift at 1. cbn [db NewStateTransition].
  assert (Hs : checkSender msg s <> Panic) by (unfold checkSender, fail_if; repeat case_match; done).
  destruct (checkSender msg s) as [[]|e|]; [|done..]. unfold mbind at 1, st_bind at 1, st_lift at 1.
  pose proof (checkFees_calm Hp) as Hf. destruct (checkFees env msg) as [[]|e|]; [|done..].
  unfold mbind at 1, st_bind at 1. destruct (metaTransactionCheck env msg _) as [r1 t1] eqn:Em.
  assert (Hr : r1 <> Panic).
  { apply (f_equal fst) in Em. cbn in Em. rewrite <- Em. unfold metaTransactionCheck, mbind, st_bind, st_get, st_lift. cbn [tdata NewStateTransition].
    unfold metaReady in Hm. destruct (IsMetaTransaction (MsgData msg)); [|done]. destruct (Hm eq_refl) as ([id Hid] & Hrlp & Hrec).
    unfold DecodeMetaData, ParseMetaData, mbind, res_bind, fail_if. rewrite Hid. destruct (length _ <=? _)%nat; [done|].
    destruct (rlpDecodeMeta _) as [m|e|]; [|done..]. do 2 (case_match; try done). all: simplify_eq; repeat (case_match; simplify_eq; try done).
    all: exfalso; by eapply Hrec. }
  destruct r1 as [[]|e|]; [|done..]. unfold mbind at 1, st_bind at 1, st_get at 1. cbn iota.
  assert (Ht : forall t : T, (takeGas msg t).1 <> Panic).
  { intros t. unfold takeGas, mbind, st_bind, st_get, st_lift, SubGas. by destruct (_ <? _). }
  destruct (isMeta t1).
  - unfold buyGasMeta. unfold mbind at 1, st_bind at 1, st_get at 1. cbn iota zeta. destruct (_ || _); [done|].
    unfold mbind at 1, st_bind at 1. cbn [st_fail_if mret st_ret]. unfold mbind at 1, st_bind at 1. specialize (Ht t1).
    by destruct (takeGas msg t1) as [[[]|e|] t2].
  - unfold buyGas. unfold mbind at 1, st_bind at 1, st_get at 1. cbn iota zeta. destruct (balanceOf _ _ <? _); [done|].
    unfold mbind at 1, st_bind at 1. cbn [st_fail_if mret st_ret]. unfold mbind at 1, st_bind at 1. specialize (Ht t1).
    by destruct (takeGas msg t1) as [[[]|e|] t2].
Qed.

Lemma execute_ends t : exists rv t', execute msg t = (Ok rv, t') /\ gp t' = gp t /\ initialGas t' = initialGas t.
Proof.
  unfold execute, runMachine, mbind, st_bind, st_get, on_db, st_modify. cbn [db set_db tdata gas].
  destruct (MsgTo msg); [destruct (EvmCall _ _ _ _ _ _) as [[[ret left_over] e] s4]|destruct (EvmCreate _ _ _ _ _) as [[[ret left_over] e] s4]];
    by eexists _, _.
Qed.

Lemma after_ends pool t6 (rv : list byte * option error) : priced -> is_u64 pool -> MsgGas msg <= pool ->
  initialGas t6 = MsgGas msg -> 0 <= gas t6 <= MsgGas msg -> gp t6 = pool - MsgGas msg -> stateOk (db t6) ->
  exists res t', (_ ← refundGas msg quotient; _ ← payTip env msg; t ← st_get; mret (mkResult (gasUsed t) rv.2 rv.1)) t6 = (Ok res, t').
Proof.
  intros Hpr Hp Hle Hi Hg Hgp Hs. destruct (refundGas_run quotient pool t6) as (_ & _ & Href); try done.
  { unfold quotient. destruct (IsLondon _ _); lia. }
  destruct (effectiveTip_calm Hpr) as [tip Htip]. unfold mbind at 1, st_bind at 1. rewrite Href. cbn iota.
  unfold payTip, mbind, st_bind, st_get, st_lift, on_db, st_modify, mret, st_ret. rewrite Htip. by eexists _, _.
Qed.

(** A transition ends with a result or with an error that leaves the pool as it
    was or without the gas of the message. *)
Lemma TransitionDb_ends pool s : is_u64 pool -> stateOk s -> priced -> metaReady ->
  match TransitionDb env msg (NewStateTransition msg pool s) with
  | (Ok _, _) => True
  | (Err _, t') => gp t' = pool \/ MsgGas msg <= pool /\ gp t' = pool - MsgGas msg
  | (Panic, _) => False
  end.
Proof.
  intros Hp Hs Hpr Hmeta. unfold TransitionDb. fold quotient. unfold mbind at 1, st_bind at 1.
  pose proof (preCheck_calm pool s Hpr Hmeta) as Hcalm. destruct (preCheck env msg _) as [r1 t1] eqn:E1.
  destruct (preCheck_bought pool s r1 t1 Hp E1) as [Hok Herr]. destruct r1 as [[]|e|]; [|by left; apply Herr|done].
  destruct (Hok eq_refl) as (Hbt & _). destruct (bought_state pool s t1 [] Hbt Hs) as [Ho1 _].
  destruct Hbt as (Hle & Hgp & Hgas & Hinit & _). clear Hok Herr Hcalm.
  assert (Hstep : forall (m : ST T unit) (f : unit -> ST T ExecutionResult) (t : T), calm m -> gp t = pool - MsgGas msg ->
    (forall t', m t = (Ok tt, t') -> gp t' = pool - MsgGas msg -> match f tt t' with
      | (Ok _, _) => True | (Err _, t') => gp t' = pool \/ MsgGas msg <= pool /\ gp t' = pool - MsgGas msg | (Panic, _) => False end) ->
    match (m ≫= f) t with
      | (Ok _, _) => True | (Err _, t') => gp t' = pool \/ MsgGas msg <= pool /\ gp t' = pool - MsgGas msg | (Panic, _) => False end).
  { intros m f t Hm Hpool Hf. destruct (Hm t) as [Hn Hk]. unfold mbind, st_bind. destruct (m t) as [[[]|e|] t'] eqn:E; [|right; split; [done|]; cbn in Hk; congruence|done].
    apply Hf; [done|]. cbn in Hk. congruence. }
  apply Hstep; [apply chargeIntrinsic_calm|done|]. intros t2 E2 Hg2. apply Hstep; [apply checkTransfer_calm|done|]. intros t3 E3 Hg3.
  apply Hstep; [apply prepareAccess_calm|done|]. intros t4 E4 Hg4. apply Hstep; [apply checkCreate_calm|done|]. intros t5 E5 Hg5.
  destruct (before_machine t1 t2 t3 t4 t5 Hgas E2 E3 E4 E5) as (g & Hg & Hgas5 & _ & Hi5 & _ & _ & _ & Hst & _).
  destruct (Hst Ho1) as (Ho5 & _). destruct (execute_ends t5) as (rv & t6 & E6 & Hgp6 & Hi6).
  destruct (execute_run t5 rv t6 E6 Ho5 ltac:(lia)) as (s3 & left_over & s4 & _ & Ht6 & _ & _ & Ho4 & Hl & _).
  destruct (after_ends pool t6 rv) as (res & t' & Hend); [done|done|done|congruence|subst t6; simpl; lia|congruence|by subst t6|].
  unfold mbind at 1, st_bind at 1. rewrite E6.
  match goal with |- match ?x with _ => _ end => replace x with (Ok res, t' : T) by (symmetry; exact Hend) end. done.
Qed.
End Facts.
