(* ===== verification/TransitionProps.v ===== *)
(** * The properties of transactions *)

From S2P Require Import StateDB StateIface Contracts Prelude Params Types StateTransition TransitionFacts.

(** [IntrinsicGas] never overflows silently on the data: it returns the
    exact sum of the base cost and of the costs of the bytes, or the overflow
    error exactly when that sum exceeds 2^64 - 1; the costs of the access list
    are added in wrapping arithmetic. *)
Theorem IntrinsicGas_exact data al creation homestead eip2028 :
  zlen data <= MaxUint64 ->
  let g := baseGas creation homestead + byteGas eip2028 data in
  IntrinsicGas data al creation homestead eip2028 =
    if decide (g <= MaxUint64) then Ok (match al with None => g | Some _ => u64 (g + listGas al) end)
    else Err ErrGasUintOverflow.
Proof. apply IntrinsicGas_spec. Qed.


(** C19: Where the money goes.  Apart from what the machine itself does to the
    balances, a transaction changes their sum by the part of the price of the
    gas used that is not paid out as tip, exactly; for a meta transaction the
    rounding of the sponsor's and the sender's shares adds at most one unit
    either way.  After London, with the price [AsMessage] computes, that part
    is the base fee: it is burned. *)
Theorem transition_conserves {St} `{AccountLaws St} `{!TxVM St} `{!TxVMLaws St} `{!MetaCodec} `{!MetaCodecLaws}
    (env : Env St) msg pool s res t' l :
  is_u64 (MsgGas msg) -> is_u64 pool -> stateOk s ->
  TransitionDb env msg (NewStateTransition msg pool s) = (Ok res, t') ->
  NoDup l -> MsgFrom msg ∈ l -> feeRecipient env ∈ l -> (isMeta t' = true -> feeAddress t' ∈ l) ->
  exists t5 s3 left_over s4 tip rounding,
    machine_ran msg t5 s3 left_over s4 /\ effectiveTip env msg = Ok tip /\
    totalBalance l (db t') = totalBalance l s + (totalBalance l s4 - totalBalance l s3)
      - UsedGas res * (MsgGasPrice msg - tip) + rounding /\
    -1 <= rounding <= 1 /\ (isMeta t' = false -> rounding = 0) /\
    (forall tipCap feeCap price b, IsLondon (EnvConfig env) (Some (EnvNumber env)) = true ->
       MsgGasTipCap msg = Some tipCap -> MsgGasFeeCap msg = Some feeCap -> EnvBaseFee env = Some b ->
       MsgGasPrice msg = effectivePrice price tipCap feeCap (Some b) -> MsgGasPrice msg - tip = b).
Proof.
  intros Hg Hp Hs Hrun Hnd Hf Hr Ha. destruct (TransitionDb_steps env msg Hg pool s res t' Hp Hs Hrun)
    as (t1 & g & left_over & r & tip & s3 & s4 & X).
  pose proof (steps_bought _ _ _ _ _ _ _ _ _ _ _ _ _ X) as Hb.
  destruct (steps_sponsor _ _ _ _ _ _ _ _ _ _ _ _ _ X) as (Hm & Hfa & _). rewrite Hm, Hfa in *.
  destruct (bought_state msg pool s t1 l Hb Hs) as [Ho1 Ht1]. specialize (Ht1 Hnd Hf Ha).
  destruct (steps_before _ _ _ _ _ _ _ _ _ _ _ _ _ X) as [Ho3 Hb3].
  destruct (steps_after _ _ _ _ _ _ _ _ _ _ _ _ _ X) as [Ho4 Hl].
  destruct (steps_machine _ _ _ _ _ _ _ _ _ _ _ _ _ X) as (t5 & _ & _ & Hran).
  destruct (steps_refund _ _ _ _ _ _ _ _ _ _ _ _ _ X) as (_ & Hr0 & Hr1).
  pose proof (steps_used _ _ _ _ _ _ _ _ _ _ _ _ _ X) as Hu.
  pose proof (steps_tip _ _ _ _ _ _ _ _ _ _ _ _ _ X) as Htip.
  destruct (refunded_state msg t1 s4 ((left_over + r) * MsgGasPrice msg) l Ho4) as [Ho5 Ht5]. specialize (Ht5 Hnd Hf Ha).
  assert (Hfin : totalBalance l (db t') = totalBalance l s + (totalBalance l s4 - totalBalance l s3)
    - charge t1 (MsgGas msg * MsgGasPrice msg) + charge t1 ((left_over + r) * MsgGasPrice msg) + UsedGas res * tip).
  { rewrite (steps_state _ _ _ _ _ _ _ _ _ _ _ _ _ X), total_add by done. rewrite Ht5.
    rewrite (total_ext l (db t1) s3) by (intros; apply Hb3). rewrite Ht1. lia. }
  set (e1 := MsgGas msg * MsgGasPrice msg - charge t1 (MsgGas msg * MsgGasPrice msg)).
  set (e2 := (left_over + r) * MsgGasPrice msg - charge t1 ((left_over + r) * MsgGasPrice msg)).
  assert (He : 0 <= e1 <= 1 /\ 0 <= e2 <= 1 /\ (isMeta t1 = false -> e1 = 0 /\ e2 = 0)).
  { unfold e1, e2, charge. destruct Hb as (_ & _ & _ & _ & Hpct & _). destruct (isMeta t1); [|lia].
    pose proof (shares_bounds _ (MsgGas msg * MsgGasPrice msg) (Hpct eq_refl)).
    pose proof (shares_bounds _ ((left_over + r) * MsgGasPrice msg) (Hpct eq_refl)). lia. }
  exists t5, s3, left_over, s4, tip, (e1 - e2). split; [done|]. split; [done|]. split; [|split; [lia|split]].
  - rewrite Hfin, Hu. unfold e1, e2. nia.
  - intros Hnm. destruct He as (_ & _ & He). destruct (He Hnm). lia.
  - intros tipCap feeCap price b HL Htc Hfc Hbf Hpr. unfold effectiveTip in Htip. rewrite HL, Htc, Hfc, Hbf in Htip.
    injection Htip as <-. rewrite Hpr. unfold effectivePrice. lia.
Qed.

(** The checks are atomic: when [preCheck] refuses a message or panics,
    neither the state nor the block's gas pool has changed; when it accepts it,
    nonce, sender and fee caps are right, the pool and the balances have been
    charged, and the balances covered the charges. *)
Theorem preCheck_atomic {St} `{AccountLaws St} `{!TxVM St} `{!TxVMLaws St} `{!MetaCodec} `{!MetaCodecLaws}
    (env : Env St) msg pool s r t :
  is_u64 (MsgGas msg) -> is_u64 pool ->
  preCheck env msg (NewStateTransition msg pool s) = (r, t) ->
  (r = Ok tt -> bought msg pool s t /\ checkSender msg s = Ok tt /\ checkFees env msg = Ok tt) /\
  (r <> Ok tt -> db t = s /\ gp t = pool).
Proof. intros Hg Hp Hrun. by eapply preCheck_bought. Qed.

(** A meta transaction whose sponsor is the sender itself can overdraw the
    account: [buyGasMeta] compares each share with the balance separately, and
    charges both. *)
Theorem self_sponsored_overdraft {St} `{AccountLaws St} msg (t : Transition St) :
  stateOk (db t) -> is_u64 (MsgGas msg) -> is_u64 (gp t) -> gas t = 0 -> MsgGas msg <= gp t -> feeAddress t = MsgFrom msg ->
  let mgval := MsgGas msg * MsgGasPrice msg in
  let have := balanceOf (db t) (MsgFrom msg) in
  feeShare (feePercent t) mgval <= have -> selfShare (feePercent t) mgval <= have ->
  have < feeShare (feePercent t) mgval + selfShare (feePercent t) mgval ->
  exists t', buyGasMeta msg t = (Ok tt, t') /\
    balanceOf (db t') (MsgFrom msg) = have - (feeShare (feePercent t) mgval + selfShare (feePercent t) mgval) /\
    balanceOf (db t') (MsgFrom msg) < 0.
Proof.
  intros Hs Hg Hp H0g Hle Hfa mgval have H1' H2' H3'. unfold buyGasMeta.
  unfold mbind at 1, st_bind at 1, st_get at 1. cbn iota zeta. fold mgval. rewrite Hfa. fold have.
  destruct (_ || _) eqn:E.
  { exfalso. apply orb_prop in E as [E|E]; bool_Z; lia. }
  unfold mbind at 1, st_bind at 1. cbn [st_fail_if mret st_ret].
  unfold mbind at 1, st_bind at 1. rewrite takeGas_run by done. destruct (gp t <? MsgGas msg) eqn:Eg; bool_Z; [lia|].
  eexists. split; [reflexivity|]. cbn [db set_db].
  destruct (sub_law (MsgFrom msg) (feeShare (feePercent t) mgval) (db t) Hs) as (Ho & _ & _ & Hb).
  destruct (sub_law (MsgFrom msg) (selfShare (feePercent t) mgval) _ Ho) as (_ & _ & _ & Hb2).
  rewrite Hb2, decide_True, Hb, decide_True by done. fold have. lia.
Qed.

(** ** A concrete machine

    A ledger of balances and nonces; a call moves its value and burns 5000 gas. *)

Definition Ledger : Type := gmap Z Z * gmap Z Z.
Definition ledgerGet (m : gmap Z Z) (a : Address) : Z := default 0 (m !! a).

Definition ledgerState : AccountState Ledger := {|
  balanceOf s a := ledgerGet s.1 a;
  nonceOf s a := ledgerGet s.2 a;
  codeHashOf _ _ := 0; slotOf _ _ _ := 0; refundOf _ := 4800;
  addBalance a x s := (<[a := ledgerGet s.1 a + x]> s.1, s.2);
  subBalance a x s := (<[a := ledgerGet s.1 a - x]> s.1, s.2);
  setBalance a x s := (<[a := x]> s.1, s.2);
  setNonce a n s := (s.1, <[a := n]> s.2);
  setCode _ _ s := s; finalise _ s := s; erase _ s := (false, s); stateOk _ := True;
|}.

#[local] Existing Instance ledgerState.

Lemma ledgerGet_insert m a x b : ledgerGet (<[a := x]> m) b = if decide (a = b) then x else ledgerGet m b.
Proof. unfold ledgerGet. rewrite lookup_insert. by case_decide. Qed.

Lemma ledger_laws : AccountLaws Ledger.
Proof. by split; intros a x s _; split_and!; try done; intros b; apply ledgerGet_insert. Qed.

Definition ledgerCall (from to : Address) (data : list byte) (g v : Z) (s : Ledger)
    : (list byte * Z * option error) * Ledger :=
  (([], g - Z.min g 5000, None), addBalance to v (subBalance from v s)).

Definition ledgerVM : TxVM Ledger := {|
  EvmCreate from data g v s := (([], 0, Some ErrExecutionReverted), s);
  EvmCall := ledgerCall;
  PrepareAccessList _ _ _ s := s;
  emptyCodeHash := 7;
|}.

(** The sponsor is account 55; the meta data are a fixed record. *)
Definition ledgerMeta : MetaCodec := {|
  rlpDecodeMeta _ := Ok (mkMetaData 100 3333 0 0 0 [Byte.x01]);
  RecoverPlain _ _ _ _ := Ok 55;
|}.

#[local] Existing Instances ledger_laws ledgerVM ledgerMeta.

Lemma ledgerVM_laws : TxVMLaws Ledger.
Proof.
  split.
  - intros from data g v s _ Hg. simpl. lia.
  - intros from to data g v s _ Hg. simpl. lia.
  - by intros.
  - simpl. lia.
Qed.

Lemma ledgerMeta_laws : MetaCodecLaws.
Proof. split. intros d m [= <-]. simpl. unfold is_u64. lia. Qed.

#[local] Existing Instances ledgerVM_laws ledgerMeta_laws.

Definition ledgerEnv : Env Ledger := mkEnv Ledger sampleConfig 7 (Some 10) false 33 None.
Definition ledger0 : Ledger := ({[ 11 := 10000000; 55 := 10000000 ]}, ∅).

(** A transfer of 9 coins, sponsored to a third. *)
Definition ledgerMsg : TxMessage :=
  mkTxMessage 11 (Some 22) 13 (Some 14) (Some 3) 60001 9 0 false (MetaPrefix ++ [Byte.x02; Byte.x00]) None.

Definition ledgerRun : res ExecutionResult * Transition Ledger :=
  TransitionDb ledgerEnv ledgerMsg (NewStateTransition ledgerMsg 100000 ledger0).

Lemma IntrinsicGas_exact_witness :
  IntrinsicGas [Byte.x00; Byte.x01] (Some [(5, [1; 2])]) false true true = Ok (21020 + 2400 + 3800).
Proof.
  etrans; [apply (IntrinsicGas_exact [Byte.x00; Byte.x01] (Some [(5, [1; 2])]) false true true); vm_compute; discriminate|].
  vm_compute. reflexivity.
Defined.


Lemma transition_conserves_witness : exists res t' rounding, ledgerRun = (Ok res, t') /\
  isMeta t' = true /\ -1 <= rounding <= 1 /\
  totalBalance [11; 22; 55; FeeRecoder] (db t') =
    totalBalance [11; 22; 55; FeeRecoder] ledger0 - UsedGas res * 10 + rounding.
Proof.
  destruct ledgerRun as [r t'] eqn:E.
  assert (Hr : exists res, r = Ok res).
  { apply (f_equal fst) in E. vm_compute in E. rewrite <- E. by eexists. }
  destruct Hr as [res Hr]. rewrite Hr in E |- *.
  assert (Ht : t' = ledgerRun.2) by (by rewrite E).
  destruct (transition_conserves ledgerEnv ledgerMsg 100000 ledger0 res t' [11; 22; 55; FeeRecoder])
    as (t5 & s3 & left_over & s4 & tip & rounding & Hran & Htip & Htot & Hround & _ & Hbase).
  - vm_compute; split; [discriminate|reflexivity].
  - vm_compute; split; [discriminate|reflexivity].
  - exact I.
  - exact E.
  - apply (bool_decide_unpack _). vm_compute. reflexivity.
  - apply (bool_decide_unpack _). vm_compute. reflexivity.
  - apply (bool_decide_unpack _). vm_compute. reflexivity.
  - intros _. rewrite Ht. apply (bool_decide_unpack _). vm_compute. reflexivity.
  - exists res, t', rounding. split; [done|]. split; [rewrite Ht; vm_compute; reflexivity|]. split; [exact Hround|].
    rewrite (Hbase 3 14 13 10) in Htot by reflexivity. rewrite Htot.
    assert (Hvm : totalBalance [11; 22; 55; FeeRecoder] s4 = totalBalance [11; 22; 55; FeeRecoder] s3).
    { destruct Hran as (ret & e & Hcall). apply (f_equal snd) in Hcall.
      change (addBalance 22 9 (subBalance 11 9 s3) = s4) in Hcall. rewrite <- Hcall.
      rewrite total_add, total_sub; [lia|try exact I; try (apply (bool_decide_unpack _); vm_compute; reflexivity)..]. }
    rewrite Hvm. lia.
Defined.

Lemma preCheck_atomic_witness :
  preCheck ledgerEnv ledgerMsg (NewStateTransition ledgerMsg 60000 ledger0) =
    (Err ErrGasLimitReached, (preCheck ledgerEnv ledgerMsg (NewStateTransition ledgerMsg 60000 ledger0)).2) /\
  db (preCheck ledgerEnv ledgerMsg (NewStateTransition ledgerMsg 60000 ledger0)).2 = ledger0.
Proof.
  assert (E : preCheck ledgerEnv ledgerMsg (NewStateTransition ledgerMsg 60000 ledger0) =
    (Err ErrGasLimitReached, (preCheck ledgerEnv ledgerMsg (NewStateTransition ledgerMsg 60000 ledger0)).2))
    by (vm_compute; reflexivity).
  split; [exact E|].
  destruct (preCheck_atomic ledgerEnv ledgerMsg 60000 ledger0 _ _ ltac:(vm_compute; split; [discriminate|reflexivity])
              ltac:(vm_compute; split; [discriminate|reflexivity]) E) as [_ Hx].
  apply Hx. discriminate.
Defined.

(** Half sponsored by itself, with a balance for half of the gas. *)
Definition selfMsg : TxMessage := mkTxMessage 11 (Some 22) 10 (Some 10) (Some 0) 30000 0 0 false [] None.
Definition selfTransition : Transition Ledger :=
  mkTransition 100000 0 0 [] true 11 5000 [] ({[ 11 := 150000 ]}, ∅).

Lemma self_sponsored_overdraft_witness :
  exists t', buyGasMeta selfMsg selfTransition = (Ok tt, t') /\ balanceOf (db t') 11 = -150000 /\ balanceOf (db t') 11 < 0.
Proof.
  destruct (self_sponsored_overdraft selfMsg selfTransition) as (t' & Hb & Hbal & Hneg);
    try (vm_compute; done); [vm_compute; split; [discriminate|reflexivity]..|].
  exists t'. split; [exact Hb|]. split; [exact Hbal|exact Hneg].
Defined.
