(* ===== verification/Processor.v ===== *)
(** * Processing the transactions of a block
    (core/state_processor.go, core/evm.go, core/block_validator.go,
    consensus/consensus.go)

    The block context handed to the virtual machine, the application of one
    transaction with its receipt, the loop over the transactions of a block
    against the engine's interface, and the comparison of the result with the
    header. *)

From S2P Require Import StateDB StateIface Prelude Params Types Misc Snapshot Engine Contracts StateTransition.
From S2P Require Import Finalize Blacklist.

(** ** The block context *)

(** [GetHashFn]: the closure keeps the hashes it has walked over, the parent's
    first.  [fuel] bounds the walk to the genesis block. *)
Fixpoint walkHashes (fuel : nat) (chain : ChainHeaderReader) (n : Z) (cache : list Hash) (lastKnownHash : Hash)
    (lastKnownNumber : Z) : Hash * list Hash :=
  match fuel with
  | O => (0, cache)
  | S fuel =>
      match GetHeader chain lastKnownHash lastKnownNumber with
      | None => (0, cache)
      | Some header =>
          let cache := cache ++ [ParentHash header] in
          let lastKnownNumber := NumberU64 header -w 1 in
          if n =? lastKnownNumber then (ParentHash header, cache)
          else walkHashes fuel chain n cache (ParentHash header) lastKnownNumber
      end
  end.

Definition GetHashFn (chain : ChainHeaderReader) (ref : Header) (n : Z) (cache : list Hash) : Hash * list Hash :=
  let cache := match cache with [] => [ParentHash ref] | _ => cache end in
  let idx := NumberU64 ref -w n -w 1 in
  if idx <? zlen cache then (nth (Z.to_nat idx) cache 0, cache)
  else walkHashes (S (Z.to_nat (NumberU64 ref))) chain n cache (List.last cache 0) (NumberU64 ref -w zlen cache).

(** [vm.BlockContext], the data; [CtxGetHash] is the closure asked for the first
    time. *)
Record BlockContext : Type := mkBlockContext {
  CtxGetHash : Z -> Hash;
  CtxCoinbase : Address;
  CtxNumber : Z;
  CtxTime : Z;
  CtxDifficulty : Z;
  CtxBaseFee : option Z;
  CtxGasLimit : Z;
  CtxExtraValidator : option blacklistValidator;
}.

Definition withValidator (v : option blacklistValidator) (c : BlockContext) : BlockContext :=
  mkBlockContext (CtxGetHash c) (CtxCoinbase c) (CtxNumber c) (CtxTime c) (CtxDifficulty c) (CtxBaseFee c)
    (CtxGasLimit c) v.

(** ** The engine, as the processor sees it

    [consensus.PoSA]; [isPoSA] is the outcome of the type assertion.  The state
    [E] is what the engine keeps between calls. *)
Class PoSA (E St : Type) : Type := {
  isPoSA : bool;
  posa_Author : Header -> res Address;
  posa_PreHandle : ChainHeaderReader -> Header -> ST (E * St) unit;
  posa_IsSysTransaction : Address -> Transaction -> Header -> res bool;
  posa_CanCreate : St -> Address -> Z -> bool;
  posa_ValidateTx : ChainHeaderReader -> Address -> Transaction -> Header -> ST (E * St) unit;
  posa_CreateEvmExtraValidator : ChainHeaderReader -> Header -> ST (E * St) (option blacklistValidator);
  posa_Finalize : ChainHeaderReader -> Header -> list Transaction -> list Receipt -> list Transaction ->
    ST (E * St) (Header * list Transaction * list Receipt);
}.

(** The machine made for a block and a transaction ([vm.NewEVM], [evm.Reset]),
    and the address of a new contract. *)
Class Machine (St : Type) : Type := {
  evmFor : ChainConfig -> BlockContext -> Address -> Z -> TxVM St;
  CreateAddress : Address -> Z -> Address;
}.

(** The root of the receipts' trie. *)
Class ReceiptTrie : Type := { DeriveSha : list Receipt -> Hash }.

(** ** Messages *)

(** [tx.AsMessage(signer, baseFee)] *)
Definition AsMessage `{TxSigning} (tx : Transaction) (baseFee : option Z) : res TxMessage :=
  let gasPrice := match baseFee with
                  | None => TxGasPrice tx
                  | Some b => Z.min (TxGasTipCap tx + b) (TxGasFeeCap tx)
                  end in
  from ← SenderOfTx tx;
  Ok (mkTxMessage from (TxTo tx) gasPrice (Some (TxGasFeeCap tx)) (Some (TxGasTipCap tx)) (TxGas tx) (TxValue tx)
        (TxNonce tx) false (TxData tx) (TxAccessList tx)).

(** What a block's execution changes: the gas pool, the gas used so far and the
    state. *)
Record BlockState (St : Type) : Type := mkBlockState {
  bsPool : Z;
  bsUsed : Z;
  bsState : St;
}.
Arguments mkBlockState {St}. Arguments bsPool {St}. Arguments bsUsed {St}. Arguments bsState {St}.

Section Processor.
Context {E St : Type} `{Crypto} `{AccountState St} `{VM St} `{Machine St} `{MetaCodec} `{TxSigning} `{PoSA E St}.
Variables (cfg : ChainConfig) (noBaseFee : bool) (chain : ChainHeaderReader).

(** [NewEVMBlockContext]; copying a nil number or difficulty panics. *)
Definition NewEVMBlockContext (header : Header) (author : option Address) : res BlockContext :=
  let beneficiary := match author with
                     | Some a => a
                     | None => match posa_Author header with Ok a => a | _ => 0 end
                     end in
  match Number header, Difficulty header with
  | Some number, Some difficulty =>
      Ok (mkBlockContext (fun n => fst (GetHashFn chain header n [])) beneficiary number (Time header) difficulty
            (BaseFee header) (GasLimit header) None)
  | _, _ => Panic
  end.

(** [GetCanCreateFn] and the fields of the machine the transition reads. *)
Definition envOf (ctx : BlockContext) : Env St :=
  mkEnv St cfg (CtxNumber ctx) (CtxBaseFee ctx) noBaseFee (CtxCoinbase ctx)
    (Some (fun s addr height => if isPoSA then posa_CanCreate s addr height else true)).

(** ** One transaction *)

Definition receiptOf (ctx : BlockContext) (blockHash : Hash) (msg : TxMessage) (tx : Transaction) (root : option Hash)
    (used : Z) (result : ExecutionResult) (s : St) : Receipt :=
  let logs := GetLogs (HashOfTx tx) s in
  mkReceipt (TxType tx) root
    (match ResultErr result with Some _ => ReceiptStatusFailed | None => ReceiptStatusSuccessful end)
    used ((fun l => (l, blockHash)) <$> logs) (CreateBloom logs) (HashOfTx tx)
    (match MsgTo msg with None => Some (CreateAddress (MsgFrom msg) (TxNonce tx)) | Some _ => None end)
    (UsedGas result) blockHash (Some (CtxNumber ctx)) (TxIndex s).

Definition settle (ctx : BlockContext) (s : St) : option Hash * St :=
  if IsByzantium cfg (Some (CtxNumber ctx)) then (None, finalise true s)
  else let '(root, s) := IntermediateRoot (IsEIP158 cfg (Some (CtxNumber ctx))) s in (Some root, s).

Definition applyTransaction (ctx : BlockContext) (blockHash : Hash) (msg : TxMessage) (tx : Transaction)
    : ST (BlockState St) Receipt := fun b =>
  match ApplyMessage (H0:=evmFor cfg ctx (MsgFrom msg) (MsgGasPrice msg)) (envOf ctx) msg (bsPool b, bsState b) with
  | (Ok result, (pool, s)) =>
      let '(root, s) := settle ctx s in
      let used := bsUsed b +w UsedGas result in
      (Ok (receiptOf ctx blockHash msg tx root used result s), mkBlockState pool used s)
  | (Err e, (pool, s)) => (Err e, mkBlockState pool (bsUsed b) s)
  | (Panic, (pool, s)) => (Panic, mkBlockState pool (bsUsed b) s)
  end.

(** The exported entry point, used by the miner. *)
Definition ApplyTransaction (author : option Address) (header : Header) (extraValidator : option blacklistValidator)
    (tx : Transaction) : ST (BlockState St) Receipt :=
  msg ← st_lift (AsMessage tx (BaseFee header));
  ctx ← st_lift (NewEVMBlockContext header author);
  applyTransaction (withValidator extraValidator ctx) (HeaderHash header) msg tx.

(** ** The transactions of a block *)

Local Abbreviation P := (ST (E * BlockState St)).

Definition on_block {A} (m : ST (BlockState St) A) : P A := fun eb =>
  let '(r, b) := m (snd eb) in (r, (fst eb, b)).
Definition on_posa {A} (m : ST (E * St) A) : P A := fun eb =>
  let '(r, (e, s)) := m (fst eb, bsState (snd eb)) in (r, (e, mkBlockState (bsPool (snd eb)) (bsUsed (snd eb)) s)).
Definition prepareTx (tx : Transaction) (i : Z) : ST (BlockState St) unit :=
  st_modify (fun b => mkBlockState (bsPool b) (bsUsed b) (statePrepare (HashOfTx tx) i (bsState b))).

(** [fmt.Errorf("could not apply tx %d [%v]: %w", ...)] *)
Definition wrapTx {S A} (i : Z) (tx : Transaction) (m : ST S A) : ST S A := fun s =>
  match m s with (Err e, s) => (Err (txError i (HashOfTx tx) e), s) | r => r end.

(** Whether the transaction is the engine's own; if not, whether the engine
    lets it pass. *)
Definition screenTx (header : Header) (tx : Transaction) : P bool :=
  if isPoSA then
    sender ← st_lift (SenderOfTx tx);
    ok ← st_lift (posa_IsSysTransaction sender tx header);
    if (ok : bool) then mret true
    else _ ← on_posa (posa_ValidateTx chain sender tx header); mret false
  else mret false.

Fixpoint processTxs (ctx : BlockContext) (header : Header) (i : Z) (txs : list Transaction)
    : P (list (Transaction * Receipt) * list Transaction) :=
  match txs with
  | [] => mret ([], [])
  | tx :: txs =>
      sys ← screenTx header tx;
      if (sys : bool) then
        rest ← processTxs ctx header (i + 1) txs;
        mret (rest.1, tx :: rest.2)
      else
        msg ← wrapTx i tx (st_lift (AsMessage tx (BaseFee header)));
        _ ← on_block (prepareTx tx i);
        receipt ← wrapTx i tx (on_block (applyTransaction ctx (HeaderHash header) msg tx));
        rest ← processTxs ctx header (i + 1) txs;
        mret ((tx, receipt) :: rest.1, rest.2)
  end.

Definition logsOf (receipts : list Receipt) : list Log := receipts ≫= (fun r => (RLogs r).*1).

(** The hooks before the first transaction. *)
Definition beginBlock (header : Header) : P (option blacklistValidator) :=
  if isPoSA then
    _ ← on_posa (posa_PreHandle chain header);
    on_posa (posa_CreateEvmExtraValidator chain header)
  else mret None.

(** [Process]: receipts, logs and gas used.  The pool starts at the block's gas
    limit.  Loading the accounts of the transactions ahead of time is invisible
    to the readers of the state. *)
Definition Process (header : Header) (txs : list Transaction) : P (list Receipt * list Log * Z) :=
  ctx ← st_lift (NewEVMBlockContext header None);
  v ← beginBlock header;
  rs ← processTxs (withValidator v ctx) header 0 txs;
  let receipts := rs.1.*2 in
  out ← on_posa (posa_Finalize chain header rs.1.*1 receipts rs.2);
  eb ← st_get;
  mret (out.2, logsOf receipts, bsUsed (snd eb)).

(** ** The comparison with the header *)

(** [ValidateState]; the deferred comparison of the bloom filter replaces any
    other outcome. *)
Definition validateRoots `{ReceiptTrie} (header : Header) (receipts : list Receipt) (usedGas : Z) : ST St unit :=
  _ ← st_fail_if (negb (GasUsed header =? usedGas)) (errorf "invalid gas used");
  _ ← st_fail_if (negb (DeriveSha receipts =? ReceiptHash header)) (errorf "invalid receipt root hash");
  root ← (fun s => let '(root, s) := IntermediateRoot (IsEIP158 cfg (Number header)) s in (Ok root, s));
  st_fail_if (negb (Root header =? root)) (errorf "invalid merkle root").

Definition ValidateState `{ReceiptTrie} (header : Header) (receipts : list Receipt) (usedGas : Z) : ST St unit := fun s =>
  let '(r, s) := validateRoots header receipts usedGas s in
  if CreateBloom (logsOf receipts) =? Bloom header then (r, s) else (Err (errorf "invalid bloom"), s).
End Processor.
