(* ===== verification/Miner.v ===== *)
(** * Filling a block (miner/worker.go)

    The working environment of the miner and the loop that tries the pending
    transactions one after the other, undoing those that fail. *)

From S2P Require Import StateDB StateIface Prelude Params Types Misc Snapshot Engine Contracts StateTransition.
From S2P Require Import Finalize Blacklist Processor.

(** Snapshots of the state ([StateDB.Snapshot], [RevertToSnapshot]). *)
Class Revertible (St : Type) : Type := {
  snapshotOf : St -> Z * St;
  revertTo : Z -> St -> res St;
}.

(** [types.TransactionsByPriceAndNonce], as the loop uses it. *)
Class TxQueue (Q : Type) : Type := {
  Peek : Q -> option Transaction;
  Shift : Q -> Q;
  Pop : Q -> Q;
}.

(** [tx.Protected()]: whether the signature is bound to the chain. *)
Class Replay : Type := { Protected : Transaction -> bool }.

(** [environment]; [env_header] is the header being filled, its gas used the
    sum so far. *)
Record environment (St : Type) : Type := mkEnvironment {
  env_state : St;
  env_tcount : Z;
  env_gasPool : option Z;
  env_header : Header;
  env_txs : list Transaction;
  env_receipts : list Receipt;
  env_extraValidator : option blacklistValidator;
}.
Arguments mkEnvironment {St}. Arguments env_state {St}. Arguments env_tcount {St}. Arguments env_gasPool {St}.
Arguments env_header {St}. Arguments env_txs {St}. Arguments env_receipts {St}. Arguments env_extraValidator {St}.

Definition set_GasUsed (g : Z) (h : Header) : Header :=
  mkHeader (ParentHash h) (UncleHash h) (Coinbase h) (Root h) (TxHash h) (ReceiptHash h) (Bloom h) (Difficulty h)
    (Number h) (GasLimit h) g (Time h) (Extra h) (MixDigest h) (Nonce h) (BaseFee h).

(** The interrupt signals. *)
Definition commitInterruptNone : Z := 0.
Definition commitInterruptNewHead : Z := 1.
Definition commitInterruptResubmit : Z := 2.

Section Miner.
Context {E St Q : Type} `{Crypto} `{AccountState St} `{VM St} `{Machine St} `{MetaCodec} `{TxSigning} `{PoSA E St}.
Context `{Revertible St} `{TxQueue Q} `{Replay}.
Variables (cfg : ChainConfig) (noBaseFee : bool) (chain : ChainHeaderReader) (coinbase : Address).
Local Abbreviation EnvSt := (environment St).

(** [makeCurrent]: the environment on top of the parent's state. *)
Definition makeCurrent (s : St) (header : Header) : EnvSt := mkEnvironment s 0 None header [] [] None.

Definition poolOf (env : EnvSt) : Z := default 0 (env_gasPool env).

(** The parts of the environment [ApplyTransaction] is given by reference. *)
Definition blockStateOf (env : EnvSt) : BlockState St := mkBlockState (poolOf env) (GasUsed (env_header env)) (env_state env).
Definition withBlockState (b : BlockState St) (env : EnvSt) : EnvSt :=
  mkEnvironment (bsState b) (env_tcount env) (Some (bsPool b)) (set_GasUsed (bsUsed b) (env_header env)) (env_txs env)
    (env_receipts env) (env_extraValidator env).
Definition with_state (s : St) (env : EnvSt) : EnvSt :=
  mkEnvironment s (env_tcount env) (env_gasPool env) (env_header env) (env_txs env) (env_receipts env)
    (env_extraValidator env).
Definition committed (tx : Transaction) (receipt : Receipt) (env : EnvSt) : EnvSt :=
  mkEnvironment (env_state env) (env_tcount env) (env_gasPool env) (env_header env) (env_txs env ++ [tx])
    (env_receipts env ++ [receipt]) (env_extraValidator env).
Definition countTx (env : EnvSt) : EnvSt :=
  mkEnvironment (env_state env) (env_tcount env + 1) (env_gasPool env) (env_header env) (env_txs env)
    (env_receipts env) (env_extraValidator env).

(** [commitTransaction]: a failed transaction is undone in the state; what it
    took from the gas pool is not given back. *)
Definition commitTransaction (tx : Transaction) : ST EnvSt (list (Log * Hash)) := fun env =>
  let '(snap, s) := snapshotOf (env_state env) in
  match ApplyTransaction cfg noBaseFee chain (Some coinbase) (env_header env) (env_extraValidator env) tx
          (blockStateOf (with_state s env)) with
  | (Ok receipt, b) => (Ok (RLogs receipt), committed tx receipt (withBlockState b env))
  | (Err e, b) =>
      match revertTo snap (bsState b) with
      | Ok s => (Err e, with_state s (withBlockState b env))
      | _ => (Panic, withBlockState b env)
      end
  | (Panic, b) => (Panic, withBlockState b env)
  end.

(** The state of the loop: engine, environment, queue. *)
Local Abbreviation M := (ST (E * EnvSt * Q)).

Definition on_env {A} (m : ST EnvSt A) : M A := fun '(e, env, q) =>
  let '(r, env) := m env in (r, (e, env, q)).
Definition on_engineState {A} (m : ST (E * St) A) : M A := fun '(e, env, q) =>
  let '(r, (e, s)) := m (e, env_state env) in (r, (e, with_state s env, q)).
Definition on_queue (f : Q -> Q) : M unit := st_modify (fun '(e, env, q) => (e, env, f q)).

(** After an attempt: which of the account's transactions come next. *)
Definition nextTx (outcome : res (list (Log * Hash))) : M unit :=
  match outcome with
  | Ok _ => _ ← on_env (st_modify countTx); on_queue Shift
  | Err e =>
      if decide (e = ErrGasLimitReached) then on_queue Pop
      else if decide (e = ErrNonceTooLow) then on_queue Shift
      else if decide (e = ErrNonceTooHigh) then on_queue Pop
      else if decide (e = ErrTxTypeNotSupported) then on_queue Pop
      else on_queue Shift
  | Panic => st_panic
  end.

(** One round of the loop, for the transaction at the head of the queue. *)
Definition tryTx (tx : Transaction) : M unit :=
  ceq ← st_get;
  let header := env_header ceq.1.2 in
  let from := match SenderOfTx tx with Ok a => a | _ => 0 end in
  if Protected tx && negb (IsEIP155 cfg (Number header)) then on_queue Pop else
  valid ← (if isPoSA then st_try (on_engineState (posa_ValidateTx chain from tx header)) else mret (Some tt));
  match valid with
  | None => on_queue Pop
  | Some _ =>
      _ ← on_env (st_modify (fun env => with_state (statePrepare (HashOfTx tx) (env_tcount env) (env_state env)) env));
      outcome ← st_catch (on_env (commitTransaction tx));
      nextTx outcome
  end.

(** The loop of [commitTransactions].  [interrupt i] is the signal read in round
    [i]; [fuel] bounds the rounds by the number of pending transactions.  The
    result tells whether the block is to be dropped for a new head. *)
Fixpoint commitLoop (fuel : nat) (interrupt : nat -> Z) (i : nat) : M bool :=
  match fuel with
  | O => st_err ErrOutOfFuel
  | S fuel =>
      if negb (interrupt i =? commitInterruptNone) then mret (interrupt i =? commitInterruptNewHead) else
      ceq ← st_get;
      if poolOf ceq.1.2 <? StateTransition.TxGas then mret false else
      match Peek ceq.2 with
      | None => mret false
      | Some tx => _ ← tryTx tx; commitLoop fuel interrupt (S i)
      end
  end.

Definition commitTransactions (fuel : nat) (interrupt : nat -> Z) : M bool :=
  _ ← on_env (st_modify (fun env =>
        match env_gasPool env with
        | Some _ => env
        | None => mkEnvironment (env_state env) (env_tcount env) (Some (GasLimit (env_header env))) (env_header env)
                    (env_txs env) (env_receipts env) (env_extraValidator env)
        end));
  commitLoop fuel interrupt 0.

(** The part of [commitNewWork] before the loop: the hooks of the engine. *)
Definition beginWork : M unit :=
  if isPoSA then
    ceq ← st_get;
    let header := env_header ceq.1.2 in
    _ ← on_engineState (posa_PreHandle chain header);
    v ← on_engineState (posa_CreateEvmExtraValidator chain header);
    on_env (st_modify (fun env => mkEnvironment (env_state env) (env_tcount env) (env_gasPool env) (env_header env)
                                    (env_txs env) (env_receipts env) v))
  else mret tt.
End Miner.
