(* ===== verification/TxQueue.v ===== *)
(** * The pending transactions by price and nonce (core/types/transaction.go)

    The queue the miner takes its transactions from: the next transaction of
    every account in a heap by price and arrival, the rest of each account in
    the order of the nonces. *)

From S2P Require Import Prelude Heap Params Types Misc Snapshot Finalize Miner.

Definition ErrGasFeeCapTooLow : error := errorf "fee cap less than base fee".

(** [EffectiveGasTip]: the value comes with the error. *)
Definition EffectiveGasTip (tx : Transaction) (baseFee : option Z) : Z * option error :=
  match baseFee with
  | None => (TxGasTipCap tx, None)
  | Some b => (Z.min (TxGasTipCap tx) (TxGasFeeCap tx - b),
               if TxGasFeeCap tx <? b then Some ErrGasFeeCapTooLow else None)
  end.

Record TxWithMinerFee : Type := mkWrapped {
  wtx : Transaction;
  minerFee : Z;
}.

Definition NewTxWithMinerFee (tx : Transaction) (baseFee : option Z) : res TxWithMinerFee :=
  match EffectiveGasTip tx baseFee with
  | (_, Some e) => Err e
  | (fee, None) => Ok (mkWrapped tx fee)
  end.

(** [TxDifference]: the transactions of [a] that are not in [b], by their hashes. *)
Definition TxDifference `{TxSigning} (a b : list Transaction) : list Transaction :=
  let remove : gset Hash := list_to_set (map HashOfTx b) in
  base.filter (fun tx => HashOfTx tx ∉ remove) a.

Lemma TxDifference_elem `{TxSigning} a b tx : tx ∈ TxDifference a b <-> tx ∈ a /\ HashOfTx tx ∉ HashOfTx <$> b.
Proof. unfold TxDifference. rewrite list_elem_of_filter, elem_of_list_to_set. tauto. Qed.

(** When the node first saw a transaction: a field of the transaction that is
    not part of its encoding. *)
Class SeenTime : Type := { seenTime : Transaction -> Z }.

(** [TxByPriceAndTime.Less] *)
Definition byPriceAndTime `{SeenTime} (x y : TxWithMinerFee) : bool :=
  if minerFee x =? minerFee y then seenTime (wtx x) <? seenTime (wtx y) else minerFee y <? minerFee x.

Record TransactionsByPriceAndNonce : Type := mkTxs {
  txs : gmap Address (list Transaction);
  heads : list TxWithMinerFee;
  baseFee : option Z;
}.

Section Queue.
Context `{TxSigning} `{SeenTime}.

(** [acc, _ := Sender(signer, tx)] *)
Definition senderOf (tx : Transaction) : Address := match SenderOfTx tx with Ok a => a | _ => 0 end.

(** The loop of [NewTransactionsByPriceAndNonce] over the map, in the order
    [order] of the runtime; an account without transactions panics. *)
Fixpoint collectHeads (baseFee : option Z) (order : list (Address * list Transaction))
    (m : gmap Address (list Transaction)) (hs : list TxWithMinerFee) : res (gmap Address (list Transaction) * list TxWithMinerFee) :=
  match order with
  | [] => Ok (m, hs)
  | (from, []) :: _ => Panic
  | (from, tx :: rest) :: order =>
      match NewTxWithMinerFee tx baseFee with
      | Ok wrapped =>
          if senderOf tx =? from then collectHeads baseFee order (<[from := rest]> m) (hs ++ [wrapped])
          else collectHeads baseFee order (delete from m) hs
      | _ => collectHeads baseFee order (delete from m) hs
      end
  end.

Definition NewTransactionsByPriceAndNonce (order : list (Address * list Transaction)) (baseFee : option Z)
    : res TransactionsByPriceAndNonce :=
  mh ← collectHeads baseFee order (list_to_map order) [];
  Ok (mkTxs mh.1 (heapInit byPriceAndTime mh.2) baseFee).

Definition peekTx (q : TransactionsByPriceAndNonce) : option Transaction :=
  match heads q with [] => None | w :: _ => Some (wtx w) end.

Definition popTx (q : TransactionsByPriceAndNonce) : res TransactionsByPriceAndNonce :=
  xh ← heapPop byPriceAndTime (heads q);
  Ok (mkTxs (txs q) xh.2 (baseFee q)).

Definition shiftTx (q : TransactionsByPriceAndNonce) : res TransactionsByPriceAndNonce :=
  match heads q with
  | [] => Panic
  | w :: hs =>
      let acc := senderOf (wtx w) in
      match txs q !! acc with
      | Some (tx :: rest) =>
          match NewTxWithMinerFee tx (baseFee q) with
          | Ok wrapped => Ok (mkTxs (<[acc := rest]> (txs q)) (heapFix byPriceAndTime (wrapped :: hs) 0) (baseFee q))
          | _ => popTx q
          end
      | _ => popTx q
      end
  end.

(** The miner's interface; it only shifts and pops after a successful peek. *)
#[export] Instance price_queue : TxQueue TransactionsByPriceAndNonce := {
  Peek := peekTx;
  Shift q := match shiftTx q with Ok q' => q' | _ => q end;
  Pop q := match popTx q with Ok q' => q' | _ => q end;
}.

(** ** What a queue holds *)

#[export] Instance price_order : WeakOrder byPriceAndTime.
Proof.
  unfold byPriceAndTime. split.
  - intros x y. repeat case_if; bool_Z; intros; try done; try (apply Z.ltb_ge; bool_Z; lia); lia.
  - intros x y z. repeat case_if; bool_Z; intros; try done; try (apply Z.ltb_ge; bool_Z; lia); bool_Z; lia.
Qed.

(** The transactions of an account still to come, the next one first. *)
Definition headOf (q : TransactionsByPriceAndNonce) (a : Address) : option TxWithMinerFee :=
  snd <$> list_find (fun w => senderOf (wtx w) = a) (heads q).
Definition queued (q : TransactionsByPriceAndNonce) (a : Address) : list Transaction :=
  match headOf q a with Some w => wtx w :: default [] (txs q !! a) | None => [] end.

Record queue_wf (q : TransactionsByPriceAndNonce) : Prop := {
  queue_heap : heap byPriceAndTime (heads q);
  queue_accounts : NoDup ((fun w => senderOf (wtx w)) <$> heads q);
  queue_fees : Forall (fun w => NewTxWithMinerFee (wtx w) (baseFee q) = Ok w) (heads q);
  queue_owned : forall a l, txs q !! a = Some l -> Forall (fun tx => senderOf tx = a) l;
}.

Lemma headOf_Some q a w : queue_wf q -> headOf q a = Some w <-> w ∈ heads q /\ senderOf (wtx w) = a.
Proof.
  intros Hq. unfold headOf. destruct (list_find (fun w => senderOf (wtx w) = a) (heads q)) as [[i x]|] eqn:E; simpl.
  - apply list_find_Some in E as (Hx & Ha & _). split.
    + intros [= <-]. split; [by eapply list_elem_of_lookup_2|done].
    + intros [Hw Haw]. f_equal. apply list_elem_of_lookup in Hw as [j Hj].
      assert (i = j) as ->; [|congruence]. eapply (NoDup_lookup _ _ _ a (queue_accounts _ Hq)); rewrite list_lookup_fmap.
      * by rewrite Hx, <- Ha.
      * by rewrite Hj, <- Haw.
  - apply list_find_None in E. split; [done|]. intros [Hw Ha]. rewrite list.Forall_forall in E. by destruct (E w Hw).
Qed.

(** The heads decide what is queued. *)
Lemma queued_ext q q' a : queue_wf q -> queue_wf q' ->
  (forall w, senderOf (wtx w) = a -> w ∈ heads q <-> w ∈ heads q') -> txs q !! a = txs q' !! a -> queued q a = queued q' a.
Proof.
  intros Hq Hq' Hw Ht. unfold queued. rewrite Ht. destruct (headOf q a) as [w|] eqn:E.
  - apply headOf_Some in E as [Hin Ha]; [|done]. apply (Hw w Ha) in Hin.
    assert (headOf q' a = Some w) as -> by (by apply headOf_Some). done.
  - destruct (headOf q' a) as [w|] eqn:E'; [|done]. apply headOf_Some in E' as [Hin Ha]; [|done].
    apply (Hw w Ha) in Hin. assert (headOf q a = Some w) by (by apply headOf_Some). congruence.
Qed.

Lemma New_wrapped tx b w : NewTxWithMinerFee tx b = Ok w -> wtx w = tx.
Proof. unfold NewTxWithMinerFee. destruct (EffectiveGasTip tx b) as [fee [e|]]; [done|]. by intros [= <-]. Qed.

(** What is left of an account's transactions when the next one cannot pay. *)
Definition payable (b : option Z) (l : list Transaction) : list Transaction :=
  match l with
  | tx :: _ => match NewTxWithMinerFee tx b with Ok _ => l | _ => [] end
  | [] => []
  end.

(** Heads [hs'] in place of [w :: hs], permuted. *)
Lemma heads_step q q' w hs (new : list TxWithMinerFee) rest :
  queue_wf q -> heads q = w :: hs -> heap byPriceAndTime (heads q') -> heads q' ≡ₚ new ++ hs ->
  baseFee q' = baseFee q -> (forall b, txs q' !! b = if decide (b = senderOf (wtx w)) then rest else txs q !! b) ->
  (forall l, rest = Some l -> Forall (fun tx => senderOf tx = senderOf (wtx w)) l) ->
  (new = [] \/ exists w', new = [w'] /\ senderOf (wtx w') = senderOf (wtx w) /\ NewTxWithMinerFee (wtx w') (baseFee q) = Ok w') ->
  queue_wf q' /\ forall b, queued q' b = if decide (b = senderOf (wtx w))
    then match new with w' :: _ => wtx w' :: default [] rest | [] => [] end else queued q b.
Proof.
  intros Hq Hh Hheap Hp Hb Ht Hrest Hnew. assert (Hq' := Hq). destruct Hq' as [_ Hacc Hfee Hown].
  rewrite Hh in Hacc, Hfee. simpl in Hacc. apply list.NoDup_cons in Hacc as [Hnin Hnd]. apply list.Forall_cons in Hfee as [_ Hfee].
  assert (Hwf : queue_wf q').
  { split; [done| | |].
    - rewrite Hp, fmap_app. destruct Hnew as [->|(w' & -> & Hw' & _)]; [done|]. simpl. rewrite Hw'. by apply list.NoDup_cons.
    - rewrite Hb, Hp. apply Forall_app_2; [|done]. destruct Hnew as [->|(w' & -> & _ & Hf)]; by repeat constructor.
    - intros a l. rewrite Ht. case_decide; [subst a; apply Hrest|apply Hown]. }
  split; [done|]. intros b. case_decide as Hbw.
  - subst b. unfold queued. rewrite Ht, decide_True by done. destruct Hnew as [->|(w' & -> & Hw' & _)].
    + destruct (headOf q' (senderOf (wtx w))) as [x|] eqn:E; [|done]. apply headOf_Some in E as [Hin Hx]; [|done].
      rewrite Hp in Hin. destruct Hnin. rewrite <- Hx. by apply (list_elem_of_fmap_2 (fun w => senderOf (wtx w))).
    + assert (headOf q' (senderOf (wtx w)) = Some w') as ->; [|done]. apply headOf_Some; [done|].
      rewrite Hp. split; [set_solver|done].
  - apply queued_ext; [done|done| |by rewrite Ht, decide_False].
    intros x Hx. rewrite Hp, Hh, elem_of_app, elem_of_cons. split.
    + intros [Hin|Hin]; [|by right]. destruct Hnew as [->|(w' & -> & Hw' & _)]; [by apply not_elem_of_nil in Hin|].
      apply list_elem_of_singleton in Hin as ->. by rewrite <- Hx in Hbw.
    + intros [Hin|Hin]; [|by right]. by rewrite <- Hx, Hin in Hbw.
Qed.

Lemma pop_step q w hs : queue_wf q -> heads q = w :: hs ->
  exists q', popTx q = Ok q' /\ queue_wf q' /\ forall b, queued q' b = if decide (b = senderOf (wtx w)) then [] else queued q b.
Proof.
  intros Hq Hh. destruct (heapPop_ok byPriceAndTime w hs) as (l' & Hpop & Hheap & Hperm).
  exists (mkTxs (txs q) l' (baseFee q)). split; [unfold popTx; by rewrite Hh, Hpop|].
  apply (heads_step q _ w hs [] (txs q !! senderOf (wtx w))); try done; simpl.
  - apply Hheap. rewrite <- Hh. apply Hq.
  - intros b. case_decide; [by subst|done].
  - intros l Hl. by eapply queue_owned.
  - by left.
Qed.

Lemma shift_step q w hs : queue_wf q -> heads q = w :: hs ->
  exists q', shiftTx q = Ok q' /\ queue_wf q' /\
    forall b, queued q' b = if decide (b = senderOf (wtx w)) then payable (baseFee q) (tail (queued q b)) else queued q b.
Proof.
  intros Hq Hh. destruct (pop_step q w hs Hq Hh) as (qp & Hp & Hwp & Hqp).
  assert (Hhead : headOf q (senderOf (wtx w)) = Some w) by (apply headOf_Some; [done|]; rewrite Hh; set_solver).
  assert (Hqw : queued q (senderOf (wtx w)) = wtx w :: default [] (txs q !! senderOf (wtx w))) by (unfold queued; by rewrite Hhead).
  unfold shiftTx. rewrite Hh.
  destruct (txs q !! senderOf (wtx w)) as [[|tx rest]|] eqn:Et.
  1, 3: exists qp; split_and!; [done..|]; intros b; rewrite Hqp; case_decide; [subst b; by rewrite Hqw|done].
  destruct (NewTxWithMinerFee tx (baseFee q)) as [w'|e|] eqn:Ew.
  2, 3: exists qp; split_and!; [done..|]; intros b; rewrite Hqp; case_decide; [subst b; rewrite Hqw; simpl; by rewrite Ew|done].
  assert (Hown : Forall (fun tx => senderOf tx = senderOf (wtx w)) (tx :: rest)) by (exact (queue_owned q Hq _ _ Et)).
  apply list.Forall_cons in Hown as [Htx Hrest].
  destruct (heapFix_root byPriceAndTime w hs w') as [Hheap Hperm]. assert (Hww := New_wrapped _ _ _ Ew).
  eexists. split; [done|].
  destruct (heads_step q (mkTxs (<[senderOf (wtx w):=rest]> (txs q)) (heapFix byPriceAndTime (w' :: hs) 0) (baseFee q))
    w hs [w'] (Some rest)) as [Hwf Hqq]; try done; simpl.
  - apply Hheap. rewrite <- Hh. apply Hq.
  - intros b. rewrite lookup_insert. repeat case_decide; congruence.
  - by intros l [= <-].
  - right. exists w'. rewrite Hww. done.
  - split; [done|]. intros b. rewrite Hqq. case_decide; [|done]. subst b. rewrite Hqw. simpl. by rewrite Ew, Hww.
Qed.

(** The heads collected, with the accounts of [order] still to come. *)
Lemma collect_ok b order : forall m hs,
  NoDup (order.*1 ++ ((fun w => senderOf (wtx w)) <$> hs)) ->
  Forall (fun al => al.2 <> [] /\ m !! al.1 = Some al.2) order ->
  exists m' hs', collectHeads b order m hs = Ok (m', hs') /\
    NoDup ((fun w => senderOf (wtx w)) <$> hs') /\
    (forall w, w ∈ hs' <-> w ∈ hs \/ exists tx rest, (senderOf tx, tx :: rest) ∈ order /\ NewTxWithMinerFee tx b = Ok w) /\
    (forall a, a ∉ order.*1 -> m' !! a = m !! a) /\
    (forall w tx rest, (senderOf tx, tx :: rest) ∈ order -> NewTxWithMinerFee tx b = Ok w -> m' !! senderOf tx = Some rest) /\
    (forall a l, m' !! a = Some l -> (a ∉ order.*1 /\ m !! a = Some l) \/ exists tx, (a, tx :: l) ∈ order /\ senderOf tx = a).
Proof.
  induction order as [|[a l] order IH]; intros m hs Hnd Hall.
  { exists m, hs. split; [done|]. split; [done|]. split; [|split; [done|split]].
    2: { intros w tx rest Hin. by apply not_elem_of_nil in Hin. }
    2: { intros a l Hl. left. split; [apply not_elem_of_nil|done]. }
    intros w. split; [by left|]. intros [?|(tx & rest & Hin & _)]; [done|by apply not_elem_of_nil in Hin]. }
  apply list.Forall_cons in Hall as [[Hl Hm] Hall]. simpl in *. destruct l as [|tx rest]; [done|]. clear Hl.
  apply list.NoDup_cons in Hnd as [Hnin Hnd]. rewrite not_elem_of_app in Hnin. destruct Hnin as [Hna Hnh].
  assert (Hkeep : forall m2 : gmap Address (list Transaction), (forall c, c <> a -> m2 !! c = m !! c) -> Forall (fun al => al.2 <> [] /\ m2 !! al.1 = Some al.2) order).
  { intros m2 Hm2. rewrite list.Forall_forall in *. intros [c lc] Hc. destruct (Hall _ Hc) as [H1' H2']. simpl in *. split; [done|].
    rewrite Hm2; [done|]. intros ->. apply Hna. by apply (list_elem_of_fmap_2 fst _ (a, lc)). }
  assert (Hskip : (senderOf tx <> a \/ forall w, NewTxWithMinerFee tx b <> Ok w) ->
    exists m' hs', collectHeads b order (delete a m) hs = Ok (m', hs') /\ NoDup ((fun w => senderOf (wtx w)) <$> hs') /\
    (forall w, w ∈ hs' <-> w ∈ hs \/ exists tx' rest', (senderOf tx', tx' :: rest') ∈ (a, tx :: rest) :: order /\ NewTxWithMinerFee tx' b = Ok w) /\
    (forall c, c ∉ a :: order.*1 -> m' !! c = m !! c) /\
    (forall w tx' rest', (senderOf tx', tx' :: rest') ∈ (a, tx :: rest) :: order -> NewTxWithMinerFee tx' b = Ok w -> m' !! senderOf tx' = Some rest') /\
    (forall c l, m' !! c = Some l -> (c ∉ a :: order.*1 /\ m !! c = Some l) \/ exists tx', (c, tx' :: l) ∈ (a, tx :: rest) :: order /\ senderOf tx' = c)).
  { intros Hbad. destruct (IH (delete a m) hs Hnd) as (m' & hs' & Hrun & Hnd' & Hin & Hother & Hacc & Hm').
    { apply Hkeep. intros c Hc. by rewrite lookup_delete_ne. }
    exists m', hs'. split; [done|]. split; [done|]. split; [|split; [|split]].
    - intros w. rewrite Hin. split; (intros [?|(tx' & rest' & Hin' & Hw)]; [by left|]); right; exists tx', rest'; (split; [|done]).
      + by apply list_elem_of_further.
      + apply elem_of_cons in Hin' as [Heq|?]; [|done]. injection Heq as Ha -> ->.
        destruct Hbad as [Hs|Hs]; [done|by destruct (Hs w)].
    - intros c Hc. rewrite not_elem_of_cons in Hc. destruct Hc as [Hca Hc]. rewrite Hother by done. by rewrite lookup_delete_ne.
    - intros w tx' rest' Hin' Hw. apply elem_of_cons in Hin' as [Heq|Hin']; [|by eapply Hacc]. injection Heq as Ha -> ->.
      destruct Hbad as [Hs|Hs]; [done|by destruct (Hs w)].
    - intros c lc Hc. destruct (Hm' c lc Hc) as [[Hn Hd]|(tx' & Hin' & Hs)].
      + apply lookup_delete_Some in Hd as [Hne Hd]. left. split; [|done]. apply not_elem_of_cons. done.
      + right. exists tx'. split; [by apply list_elem_of_further|done]. }
  destruct (NewTxWithMinerFee tx b) as [w|e|] eqn:Ew; [|apply Hskip; by right..].
  destruct (senderOf tx =? a) eqn:Es; bool_Z; [|apply Hskip; by left]. clear Hskip.
  assert (Hw := New_wrapped _ _ _ Ew).
  destruct (IH (<[a := rest]> m) (hs ++ [w])) as (m' & hs' & Hrun & Hnd' & Hin & Hother & Hacc & Hm').
  { rewrite fmap_app, app_assoc. simpl. rewrite Permutation_app_comm. simpl. apply list.NoDup_cons. rewrite Hw, Es.
    split; [|done]. rewrite not_elem_of_app. done. }
  { apply Hkeep. intros c Hc. by rewrite lookup_insert_ne. }
  exists m', hs'. split; [done|]. split; [done|]. split; [|split; [|split]].
  - intros x. rewrite Hin, elem_of_app, list_elem_of_singleton. split.
    + intros [[?| ->]|(tx' & rest' & Hin' & Hx)]; [by left|right; exists tx, rest; rewrite Es; split; [apply list_elem_of_here|done]|].
      right. exists tx', rest'. split; [by apply list_elem_of_further|done].
    + intros [?|(tx' & rest' & Hin' & Hx)]; [by do 2 left|]. apply elem_of_cons in Hin' as [Heq|?]; [|by right; exists tx', rest'].
      injection Heq as _ -> ->. left. right. congruence.
  - intros c Hc. rewrite not_elem_of_cons in Hc. destruct Hc as [Hca Hc]. rewrite Hother by done. by rewrite lookup_insert_ne.
  - intros x tx' rest' Hin' Hx. apply elem_of_cons in Hin' as [Heq|Hin']; [|by eapply Hacc]. injection Heq as Ha -> ->.
    rewrite Ha, Hother by done. by rewrite lookup_insert_eq.
  - intros c lc Hc. destruct (Hm' c lc Hc) as [[Hn Hd]|(tx' & Hin' & Hs)].
    + apply lookup_insert_Some in Hd as [[<- <-]|[Hne Hd]].
      * right. exists tx. split; [apply list_elem_of_here|done].
      * left. split; [|done]. apply not_elem_of_cons. done.
    + right. exists tx'. split; [by apply list_elem_of_further|done].
Qed.
End Queue.
