(* ===== verification/StateAgree.v ===== *)
(** * The state database as the block's state

    [StateDB] keeps the promises of [Journal]: states that are [alike] are read
    alike, stay so under the same writes, and a revert after a failed transaction
    leads back to a state alike the one before it. *)

From S2P Require Import StateDB StateIface Prelude Params Types Contracts StateTransition TransitionFacts Snapshot Finalize Processor Miner StateFacts StateRevert.
From S2P Require Import JournalFacts StateAlike.

(** ** States that agree

    The interface the block-level theorems rely on: two states agree when every
    reader sees the same in both, now and after the same writes; a snapshot is
    restored, up to agreement, by a revert.  [StateDB] implements it. *)

(** [journaled a]: writes to [a] leave an entry that a revert takes back
    completely; the exception is the precompile whose touch is kept on purpose. *)
Class Journal (St : Type) : Type := {
  steq : St -> St -> Prop;
  journaled : Address -> Prop;
}.

Definition agree {St} `{AccountState St} `{Journal St} (s s' : St) : Prop := stateOk s /\ stateOk s' /\ steq s s'.

(** Every read gives the same. *)
Definition reads_agree {St} `{AccountState St} `{VM St} (s s' : St) : Prop :=
  (forall a, balanceOf s a = balanceOf s' a /\ nonceOf s a = nonceOf s' a /\ codeHashOf s a = codeHashOf s' a) /\
  (forall a k, slotOf s a k = slotOf s' a k) /\ refundOf s = refundOf s' /\ TxIndex s = TxIndex s' /\
  (forall h, GetLogs h s = GetLogs h s').

(** What a transaction does before the machine runs: gas is paid, the access
    list is set up ([access] stands for the set-ups of the machine). *)
Inductive undoable {St} `{AccountState St} `{Journal St} (access : (St -> St) -> Prop) (s : St) : St -> Prop :=
  | undo_none : undoable access s s
  | undo_sub a x s' : undoable access s s' -> journaled a -> undoable access s (subBalance a x s')
  | undo_access f s' : undoable access s s' -> access f -> undoable access s (f s').

Class JournalLaws (St : Type) `{AccountState St} `{VM St} `{Revertible St} `{Journal St} (access : (St -> St) -> Prop)
    : Prop := {
  steq_equivalence :: Equivalence steq;
  agree_reads : forall s s', agree s s' -> reads_agree s s';
  agree_add : forall a x s s', agree s s' -> agree (addBalance a x s) (addBalance a x s');
  agree_sub : forall a x s s', agree s s' -> agree (subBalance a x s) (subBalance a x s');
  agree_nonce : forall a n s s', agree s s' -> agree (setNonce a n s) (setNonce a n s');
  agree_finalise : forall b s s', agree s s' -> agree (finalise b s) (finalise b s');
  agree_prepare : forall h i s s', agree s s' -> agree (statePrepare h i s) (statePrepare h i s');
  prepare_prepare : forall h i h' i' s, stateOk s -> agree (statePrepare h i (statePrepare h' i' s)) (statePrepare h i s);
  agree_snapshot : forall s, stateOk s -> agree (snapshotOf s).2 s;
  agree_access : forall f s s', access f -> agree s s' -> agree (f s) (f s');
  agree_revert : forall s s', stateOk s -> undoable access (snapshotOf s).2 s' ->
    exists s'', revertTo (snapshotOf s).1 s' = Ok s'' /\ agree s'' s;
}.

(** The machine does the same on states that agree. *)
Class TxVMAgree (St : Type) `{AccountState St} `{Journal St} `{TxVM St} : Prop := {
  create_agree : forall from data g v s s', agree s s' ->
    fst (EvmCreate from data g v s) = fst (EvmCreate from data g v s') /\
    agree (snd (EvmCreate from data g v s)) (snd (EvmCreate from data g v s'));
  call_agree : forall from to data g v s s', agree s s' ->
    fst (EvmCall from to data g v s) = fst (EvmCall from to data g v s') /\
    agree (snd (EvmCall from to data g v s)) (snd (EvmCall from to data g v s'));
}.

Class MachineLaws (St : Type) `{AccountState St} `{VM St} `{Journal St} `{Machine St} (access : (St -> St) -> Prop)
    : Prop := {
  machine_vm :: forall cfg ctx from price, TxVMLaws St (H0 := evmFor cfg ctx from price);
  machine_agree :: forall cfg ctx from price, TxVMAgree St (H1 := evmFor cfg ctx from price);
  machine_access : forall cfg ctx from price a to al, access (PrepareAccessList (TxVM := evmFor cfg ctx from price) a to al);
  root_agree : forall b s s', agree s s' ->
    fst (IntermediateRoot b s) = fst (IntermediateRoot b s') /\
    agree (snd (IntermediateRoot b s)) (snd (IntermediateRoot b s'));
}.

#[export] Instance StateDB_journal `{Backend} : Journal StateDB := { steq := alike; journaled a := a <> ripemd }.

#[export] Instance StateDB_revertible `{Backend} : Revertible StateDB := {
  snapshotOf := StateDB.Snapshot;
  revertTo := RevertToSnapshot;
}.

(** The part of the machine's interface the state itself implements. *)
Definition StateDB_VM (call : Message -> Header -> StateDB -> res (list byte) * StateDB)
    (root : bool -> StateDB -> Hash * StateDB) (open : Hash -> res StateDB) : VM StateDB := {|
  evmCall := call;
  IntermediateRoot := root;
  stateFn := open;
  statePrepare := StateDB.Prepare;
  TxIndex := txIndex;
  GetLogs h s := default [] (logs s !! h);
|}.

(** The set-ups of the access list: sequences of additions. *)
Definition access_setup `{Backend} (f : StateDB -> StateDB) : Prop :=
  exists l, forall s, stateOk s -> f s = fold_left (fun s o => access_op o s) l s.

Section Agree.
Context `{Backend} (call : Message -> Header -> StateDB -> res (list byte) * StateDB)
  (root : bool -> StateDB -> Hash * StateDB) (open : Hash -> res StateDB).

Lemma agree_writes (f : StateDB -> StateDB) :
  (forall s, stateOk s -> stateOk (f s)) ->
  (forall s s', alike s s' -> valid s -> valid s' -> alike (f s) (f s')) ->
  forall s s', agree s s' -> agree (f s) (f s').
Proof.
  intros Hok Ha s s' (H1' & H2' & H3'). split; [by apply Hok|]. split; [by apply Hok|].
  apply Ha; [done|apply H1'|apply H2'].
Qed.

Lemma alike_reads s s' : agree s s' -> reads_agree (H0 := StateDB_VM call root open) s s'.
Proof.
  intros ([[Hw1 _] _] & [[Hw2 _] _] & Ha). simpl in Ha. pose proof (alike_rest _ _ Ha) as Hr.
  assert (Hl : forall a, match live s a, live s' a with
                         | Some o, Some o' => same_object s s' o o' /\ deleted o = false
                         | None, None => True | _, _ => False end).
  { intros a. pose proof (alike_object s s' a Ha Hw1 Hw2) as Ho. unfold live.
    destruct (obj_at s a) as [o|], (obj_at s' a) as [o'|]; try done. destruct Ho as [Ho _].
    assert (Hd : deleted o = deleted o') by (pose proof (same_view _ _ _ _ Ho) as Hv; by apply (f_equal v_deleted) in Hv).
    rewrite Hd. by destruct (deleted o'). }
  split_and!; simpl; try (by injection Hr); [intros a|intros a k|].
  - specialize (Hl a). unfold GetBalance, GetNonce, GetCodeHash.
    destruct (getStateObject a s) as [x1 t1] eqn:E1, (getStateObject a s') as [x2 t2] eqn:E2.
    destruct (get_spec _ _ _ _ Hw1 E1) as (Hx1 & _), (get_spec _ _ _ _ Hw2 E2) as (Hx2 & _).
    rewrite <- Hx1, <- Hx2 in Hl. destruct x1 as [x1|], x2 as [x2|]; try done. destruct Hl as [Hl _].
    simpl. by rewrite (data_same _ _ _ _ Hl).
  - specialize (Hl a). rewrite (proj1 (GetState_live a k s Hw1)), (proj1 (GetState_live a k s' Hw2)).
    destruct (live s a), (live s' a); try done. destruct Hl as [[_ _ Hs] Hd]. by apply Hs.
  - intros h. assert (logs s = logs s') as -> by (by injection Hr). done.
Qed.

Lemma access_fold_agree l s s' : agree s s' ->
  agree (fold_left (fun s o => access_op o s) l s) (fold_left (fun s o => access_op o s) l s').
Proof.
  revert s s'. induction l as [|o l IH]; intros s s' Ha; [done|]. simpl. apply IH. revert s s' Ha. apply agree_writes.
  - intros s [Hv Hj]. destruct (access_good o s Hv) as ([_ Hv'] & _ & [es Hes]). split; [done|]. by eapply journals_jok.
  - intros s s' Ha _ _. by apply access_alike.
Qed.

(** The run of a failed transaction keeps the books of the journal. *)
Lemma undoable_run s s' : stateOk s -> undoable access_setup (StateDB.Snapshot s).2 s' ->
  stateOk s' /\ good (StateDB.Snapshot s).2 s' /\ revs s' = revs (StateDB.Snapshot s).2 /\ exists es, journals (StateDB.Snapshot s).2 s' es.
Proof.
  intros [Hv Hj] Hu. pose proof (proj2 (snapshot_good s Hv)) as Hvs.
  induction Hu as [|a x s' Hu ([Hv' Hj'] & Hg & Hr & [es Hes]) Ha|f s' Hu (Hok & Hg & Hr & Hes) [l Hl]].
  - split; [split; [done|by destruct Hj]|]. split; [split; [by apply undoes_refl, Hvs|done]|]. split; [done|].
    exists []. by apply journals_nil.
  - simpl. assert (Hgood := do_op_good (OSubBalance a x) s' _ Hv' eq_refl).
    destruct (balance_journals a x s' (fun b => b - x) Hv' Ha) as [es' Hes'].
    split; [split; [apply Hgood|by eapply (balance_jok a x s' (fun b => b - x))]|].
    split; [by eapply good_trans|]. split; [etrans; [by apply (do_op_revs (OSubBalance a x))|exact Hr]|].
    exists (es ++ es'). by eapply journals_trans.
  - rewrite Hl by done. clear Hl f Hu. revert s' Hok Hg Hr Hes. induction l as [|o l IH]; intros s' [Hv' Hj'] Hg Hr [es Hes];
      [split; [by split|]; split; [done|]; split; [done|]; by exists es|].
    simpl. destruct (access_good o s' Hv') as (Hgood & Hrevs & [es' Hes']).
    apply IH; [split; [apply Hgood|by eapply journals_jok]|by eapply good_trans|congruence|].
    exists (es ++ es'). by eapply journals_trans.
Qed.

#[export] Instance StateDB_journal_laws : JournalLaws StateDB (H0 := StateDB_VM call root open) access_setup.
Proof.
  split.
  - exact _.
  - apply alike_reads.
  - intros a x. apply agree_writes; [intros s Hs; apply (add_law a x s Hs)|].
    intros s s' Ha Hv Hv'. by apply (balance_alike a x s s' (fun b => b + x)).
  - intros a x. apply agree_writes; [intros s Hs; apply (sub_law a x s Hs)|].
    intros s s' Ha Hv Hv'. by apply (balance_alike a x s s' (fun b => b - x)).
  - intros a n. apply agree_writes; [intros s Hs; apply (nonce_law a n s Hs)|]. apply SetNonce_alike.
  - intros b s s' ([Hv Hj] & [Hv' Hj'] & Ha). split; [by apply Finalise_ok|]. split; [by apply Finalise_ok|].
    by apply Finalise_alike.
  - intros h i. apply agree_writes; [intros s [Hv Hj]; by apply Prepare_ok|]. intros s s' Ha _ _. by apply Prepare_alike.
  - intros h i h' i' s [Hv Hj]. split; [|split; [by apply Prepare_ok|reflexivity]].
    destruct (Prepare_ok h' i' s Hv Hj). by apply Prepare_ok.
  - intros s [Hv Hj]. split; [split; [apply (snapshot_good s Hv)|by destruct Hj]|]. split; [done|].
    simpl. by apply equiv_alike; [apply frame_equiv|..].
  - intros f s s' [l Hl] Ha. rewrite (Hl s), (Hl s') by apply Ha. by apply access_fold_agree.
  - intros s s' Hs Hu. destruct (undoable_run s s' Hs Hu) as (_ & Hg & Hr & [es Hes]). destruct Hs as [Hv Hj].
    destruct (revert_alike s s' es Hv Hj Hg Hr Hes) as (r & Hrev & Hvr & Hjr & Ha). by exists r.
Qed.

(** An addition to the access list is bookkeeping. *)
Lemma access_keeps f s : access_setup f -> stateOk s ->
  stateOk (f s) /\ keeps_balances s (f s) /\ keeps_nonces s (f s) /\ keeps_refund s (f s).
Proof.
  intros [l Hl] Hs. rewrite Hl by done. clear Hl f. revert s Hs. induction l as [|o l IH]; intros s [Hv Hj]; [done|]. simpl.
  destruct (access_good o s Hv) as ([_ Hv'] & _ & [es Hes]).
  assert (Hob : stateObjects (access_op o s) = stateObjects s).
  { destruct o as [a [k|]]; unfold access_op.
    - unfold AddSlotToAccessList. destruct (al_AddSlot a k (acl s)) as [[[am sm] al]|e|]; [|done..].
      unfold mbind, res_bind. by destruct am, sm.
    - unfold AddAddressToAccessList. by destruct (al_AddAddress a (acl s)) as [[] al]. }
  assert (Hd : forall a, data_at (access_op o s) a = data_at s a).
  { intros a. unfold data_at, live, obj_at. by rewrite Hob. }
  destruct (IH (access_op o s)) as (H1' & H2' & H3' & H4'); [split; [done|by eapply journals_jok]|].
  split; [done|]. unfold keeps_balances, keeps_nonces, keeps_refund in *. split_and!.
  - intros b. rewrite H2', !balance_data by (apply Hv || apply Hv'). by rewrite Hd.
  - intros b. rewrite H3', !nonce_data by (apply Hv || apply Hv'). by rewrite Hd.
  - rewrite H4'. by apply journals_refund in Hes.
Qed.

(** The preparation for the access list rules is such a set-up. *)
Lemma prepare_access sender dst precompiles al :
  access_setup (fun s => match StateDB.PrepareAccessList sender dst precompiles al s with Ok s => s | _ => s end).
Proof.
  exists ((sender, None) :: (match dst with Some a => [(a, None)] | None => [] end) ++
    ((fun a => (a, None)) <$> precompiles) ++ (al ≫= fun x => (x.1, None) :: ((fun k => (x.1, Some k)) <$> x.2))).
  intros s Hs. unfold StateDB.PrepareAccessList. simpl. rewrite fold_left_app.
  set (s1 := AddAddressToAccessList sender s). set (s2 := match dst with Some a => _ | None => s1 end).
  replace (fold_left _ _ s1) with s2 by (unfold s2; by destruct dst). rewrite fold_left_app.
  set (s3 := fold_left _ precompiles s2).
  replace (fold_left _ _ s2) with s3 by (unfold s3; clearbody s2; clear; revert s2; induction precompiles; intros; simpl; auto).
  assert (Hstep : forall o t, valid t -> valid (access_op o t)) by (intros o t Ht; by apply (access_good o t)).
  assert (H1' : valid s1) by (apply (Hstep (sender, None)), Hs).
  assert (H2' : valid s2) by (unfold s2; destruct dst as [a|]; [by apply (Hstep (a, None))|done]).
  assert (H3' : valid s3).
  { unfold s3. clearbody s2. clear s1 H1' s3. revert s2 H2'. induction precompiles as [|a l IH]; intros s2 H2'; [done|].
    simpl. apply IH. by apply (Hstep (a, None)). }
  clearbody s3. clear - H3' Hstep.
  assert (Hslots : forall a keys t, valid t ->
    addSlots a keys t = Ok (fold_left (fun s o => access_op o s) ((fun k => (a, Some k)) <$> keys) t) /\
    valid (fold_left (fun s o => access_op o s) ((fun k => (a, Some k)) <$> keys) t)).
  { intros a keys. induction keys as [|k keys IH]; intros t Ht; [done|]. simpl.
    destruct (AddSlot_ok a k t Ht) as [t' Ht']. rewrite Ht'. simpl. apply IH.
    pose proof (Hstep (a, Some k) t Ht) as Hv. simpl in Hv. by rewrite Ht' in Hv. }
  assert (Htup : addTuples al s3 = Ok (fold_left (fun s o => access_op o s)
    (al ≫= fun x => (x.1, None) :: ((fun k => (x.1, Some k)) <$> x.2)) s3)).
  { revert s3 H3'. induction al as [|[a keys] al IH]; intros t Ht; [done|]. simpl.
    destruct (Hslots a keys _ (Hstep (a, None) t Ht)) as [Hs Hv]. simpl in Hs, Hv. rewrite Hs. simpl.
    rewrite fold_left_app. by apply IH. }
  by rewrite Htup.
Qed.
End Agree.
