(* ===== verification/BlockFacts.v ===== *)
(** * Running a transaction on two states that agree

    The same message on states that agree and on a larger gas pool: success on
    the one side is success on the other with the same result.  A failure leaves
    nothing a revert does not take back. *)

From S2P Require Import StateDB StateIface Prelude Params Misc Snapshot Engine Finalize FinalizeContext Blacklist.
From S2P Require Import Types Contracts StateTransition TransitionFacts Processor Miner StateAgree.

Section Simulation.
Context {St : Type} `{AccountLaws St} `{!VM St} `{!Revertible St} `{!Journal St} {access : (St -> St) -> Prop}
  `{!JournalLaws St access} `{!TxVM St} `{!TxVMLaws St} `{!TxVMAgree St} `{!MetaCodec} `{!MetaCodecLaws}.
Variables (env : Env St) (msg : TxMessage).
Local Abbreviation T := (Transition St).
Hypothesis GasU64 : is_u64 (MsgGas msg).
Hypothesis AccessIn : forall a to al, access (PrepareAccessList a to al).
Hypothesis CreateAgree : forall f s s' a n, EnvCanCreate env = Some f -> agree s s' -> f s a n = f s' a n.

(** The two transitions, the second with [d] more gas in the pool; [g0] is the
    gas bought. *)
Record sim (d g0 : Z) (t t' : T) : Prop := {
  sim_pool : gp t' = gp t + d;
  sim_gas : gas t' = gas t;
  sim_initial : initialGas t = g0 /\ initialGas t' = g0;
  sim_data : tdata t' = tdata t /\ realPayload t' = realPayload t;
  sim_meta : isMeta t' = isMeta t /\ feeAddress t' = feeAddress t /\ feePercent t' = feePercent t;
  sim_agree : agree (db t) (db t');
  sim_range : 0 <= d /\ 0 <= gp t /\ gp t' + g0 <= MaxUint64 /\ 0 <= gas t <= g0;
}.

(** What succeeds on [t] succeeds on [t'] with the same value. *)
Definition carries_at (R : T -> T -> Prop) (t t' : T) {A} (m m' : ST T A) : Prop :=
  forall a u, m t = (Ok a, u) -> exists u', m' t' = (Ok a, u') /\ R u u'.

Definition carries (R R' : T -> T -> Prop) {A} (m m' : ST T A) : Prop :=
  forall t t', R t t' -> carries_at R' t t' m m'.

Lemma carries_bind R1 R2 t t' {A B} (m m' : ST T A) (f f' : A -> ST T B) :
  carries_at R1 t t' m m' -> (forall a, carries R1 R2 (f a) (f' a)) -> carries_at R2 t t' (m ≫= f) (m' ≫= f').
Proof.
  intros Hm Hf b u Hrun. inv_bind Hrun. destruct (Hm _ _ Hm0) as (s' & E & HR2).
  destruct (Hf a _ _ HR2 _ _ Hrun) as (u' & E' & HR3). exists u'. split; [|done]. unfold mbind, st_bind. by rewrite E.
Qed.

Lemma carries_get R R' {A} (f f' : T -> ST T A) :
  (forall t t', R t t' -> carries_at R' t t' (f t) (f' t')) -> carries R R' (st_get ≫= f) (st_get ≫= f').
Proof. intros Hf t t' HR a u Hrun. by apply (Hf t t' HR). Qed.

Lemma carries_ret (R : T -> T -> Prop) {A} (a : A) : carries R R (mret a) (mret a).
Proof. intros t t' HR b u Hrun. unfold mret, st_ret in *. injection Hrun as <- <-. by exists t'. Qed.

Lemma carries_lift (R : T -> T -> Prop) {A} (r : res A) : carries R R (st_lift r) (st_lift r).
Proof. intros t t' HR b u Hrun. unfold st_lift in *. injection Hrun as -> <-. by exists t'. Qed.

Lemma carries_fail_if (R : T -> T -> Prop) b e : carries R R (st_fail_if b e) (st_fail_if b e).
Proof. destruct b; [|apply carries_ret]. intros t t' _ a u Hrun. discriminate. Qed.

Lemma carries_modify (R R' : T -> T -> Prop) f f' : (forall t t', R t t' -> R' (f t) (f' t')) -> carries R R' (st_modify f) (st_modify f').
Proof. intros Hf t t' HR b u Hrun. unfold st_modify in *. injection Hrun as <- <-. eauto. Qed.

Lemma carries_on_db d g0 f : (forall s s', agree s s' -> agree (f s) (f s')) -> carries (sim d g0) (sim d g0) (on_db f) (on_db f).
Proof. intros Hf. apply carries_modify. intros t t' []. split; try done. simpl. auto. Qed.

Lemma reads_of (s s' : St) : agree s s' -> reads_agree s s'.
Proof. apply (agree_reads (access:=access)). Qed.

Lemma sub_agree a x (s s' : St) : agree s s' -> agree (subBalance a x s) (subBalance a x s').
Proof. apply (agree_sub (access:=access)). Qed.
Hint Resolve sub_agree carries_on_db carries_lift carries_fail_if carries_ret : node.

Lemma carries_takeGas d : carries (sim d 0) (sim d (MsgGas msg)) (takeGas msg) (takeGas msg).
Proof.
  unfold takeGas. apply carries_get. intros t t' [Hp Hg [Hi Hi'] Hd Hm Ha Hr] v u Hrun.
  unfold is_u64, MaxUint64 in *.
  unfold mbind, st_bind, st_lift, SubGas in *. destruct (gp t <? MsgGas msg) eqn:E; [done|]. bool_Z.
  replace (gp t' <? MsgGas msg) with false by (symmetry; apply Z.ltb_ge; lia).
  unfold st_modify in *. injection Hrun as <- <-. eexists. split; [done|].
  split; simpl; try done; [|by rewrite Hg|].
  - unfold u64. rewrite !Z.mod_small; lia.
  - unfold u64, MaxUint64. rewrite !Z.mod_small; lia.
Qed.

Lemma checkSender_agree s s' : agree s s' -> checkSender msg s = checkSender msg s'.
Proof.
  intros Ha. destruct (reads_of _ _ Ha) as (Hb & _). destruct (Hb (MsgFrom msg)) as (_ & Hn & Hc).
  unfold checkSender. by rewrite Hn, Hc.
Qed.

Lemma carries_metaCheck d : carries (sim d 0) (sim d 0) (metaTransactionCheck env msg) (metaTransactionCheck env msg).
Proof.
  unfold metaTransactionCheck. apply carries_get. intros t t' HR. rewrite (proj1 (sim_data _ _ _ _ HR)).
  destruct (IsMetaTransaction (tdata t)); [|by apply carries_ret].
  eapply carries_bind; [by apply carries_lift|]. intros m t1 t1' HR1.
  eapply carries_bind; [by apply carries_lift|]. intros a.
  apply carries_modify. intros u u' []. split; try done. split; [done|apply sim_data0].
Qed.

Lemma carries_buyGas d : carries (sim d 0) (sim d (MsgGas msg)) (buyGas msg) (buyGas msg).
Proof.
  unfold buyGas. apply carries_get. intros t t' HR.
  destruct (reads_of _ _ (sim_agree _ _ _ _ HR)) as (Hb & _). rewrite (proj1 (Hb (MsgFrom msg))).
  eapply carries_bind; [by apply carries_fail_if|]. intros _ t1 t1' HR1.
  eapply carries_bind; [by apply carries_takeGas|]. intros _. apply carries_on_db. auto with node.
Qed.

Lemma carries_buyGasMeta d : carries (sim d 0) (sim d (MsgGas msg)) (buyGasMeta msg) (buyGasMeta msg).
Proof.
  unfold buyGasMeta. apply carries_get. intros t t' HR.
  destruct (sim_meta _ _ _ _ HR) as (_ & Hf & Hp). rewrite Hf, Hp.
  destruct (reads_of _ _ (sim_agree _ _ _ _ HR)) as (Hb & _).
  rewrite (proj1 (Hb (MsgFrom msg))), (proj1 (Hb (feeAddress t))).
  eapply carries_bind; [by apply carries_fail_if|]. intros _ t1 t1' HR1.
  eapply carries_bind; [by apply carries_takeGas|]. intros _ t2 t2' HR2.
  eapply carries_bind; [by apply carries_on_db; auto with node|]. intros _. apply carries_on_db. auto with node.
Qed.

Lemma carries_preCheck d : carries (sim d 0) (sim d (MsgGas msg)) (preCheck env msg) (preCheck env msg).
Proof.
  unfold preCheck. apply carries_get. intros t t' HR. rewrite (checkSender_agree _ _ (sim_agree _ _ _ _ HR)).
  eapply carries_bind; [by apply carries_lift|]. intros _ t1 t1' HR1.
  eapply carries_bind; [by apply carries_lift|]. intros _ t2 t2' HR2.
  eapply carries_bind; [by apply carries_metaCheck|]. intros _. apply carries_get. intros u u' HR'.
  rewrite (proj1 (sim_meta _ _ _ _ HR')). destruct (isMeta u); [by apply carries_buyGasMeta|by apply carries_buyGas].
Qed.

Lemma carries_intrinsic d : carries (sim d (MsgGas msg)) (sim d (MsgGas msg)) (chargeIntrinsic env msg) (chargeIntrinsic env msg).
Proof.
  unfold chargeIntrinsic. apply carries_get. intros t t' [Hp Hg Hi [Hd Hd'] [Hm Hm'] Ha Hr] v u Hrun.
  rewrite Hm, Hd, Hd', Hg. unfold mbind, st_bind, st_lift in *.
  destruct (IntrinsicGas _ _ _ _ _) as [g|e|] eqn:Eg; [|done..]. apply IntrinsicGas_nonneg in Eg.
  unfold st_fail_if in *. destruct (gas t <? g) eqn:E; [done|]. bool_Z. unfold mret, st_ret, st_modify in *.
  injection Hrun as <- <-. eexists. split; [done|]. unfold is_u64, MaxUint64 in *.
  split; simpl; try done; [by rewrite Hg|]. destruct Hr as (Hr1 & Hr2 & Hr3 & Hr4 & Hr5).
  pose proof GasU64 as HG. unfold is_u64, MaxUint64 in *. rewrite u64_small by (unfold is_u64; lia). lia.
Qed.

Lemma carries_checkTransfer d g0 : carries (sim d g0) (sim d g0) (checkTransfer msg) (checkTransfer msg).
Proof.
  unfold checkTransfer. apply carries_get. intros t t' HR. unfold CanTransfer.
  destruct (reads_of _ _ (sim_agree _ _ _ _ HR)) as (Hb & _). rewrite (proj1 (Hb (MsgFrom msg))).
  by apply carries_fail_if.
Qed.

Lemma carries_prepareAccess d g0 : carries (sim d g0) (sim d g0) (prepareAccess env msg) (prepareAccess env msg).
Proof.
  unfold prepareAccess. case_if; [|apply carries_ret]. apply carries_on_db. intros s s'. apply agree_access, AccessIn.
Qed.

Lemma carries_checkCreate d g0 : carries (sim d g0) (sim d g0) (checkCreate env msg) (checkCreate env msg).
Proof.
  unfold checkCreate. apply carries_get. intros t t' HR. destruct (MsgTo msg); [by apply carries_ret|].
  destruct (EnvCanCreate env) as [f|] eqn:E; [|by apply carries_ret].
  rewrite (CreateAgree f _ _ _ _ eq_refl (sim_agree _ _ _ _ HR)). by apply carries_fail_if.
Qed.

Lemma carries_machine d (run : T -> St -> (list byte * Z * option error) * St) t t' :
  sim d (MsgGas msg) t t' ->
  (fst (run t (db t)) = fst (run t' (db t')) /\ agree (snd (run t (db t))) (snd (run t' (db t')))) ->
  0 <= (run t (db t)).1.1.2 <= gas t ->
  carries_at (sim d (MsgGas msg)) t t' (runMachine (run t)) (runMachine (run t')).
Proof.
  intros [Hp Hg Hi Hd Hm Ha Hr] [Hf Hs] Hl v u Hrun. unfold runMachine in *.
  destruct (run t (db t)) as [[[ret left_over] e] s], (run t' (db t')) as [[[ret' left'] e'] s'].
  simpl in *. injection Hf as <- <- <-. injection Hrun as <- <-. eexists. split; [done|].
  split; simpl; try done. lia.
Qed.

Lemma carries_execute d : carries (sim d (MsgGas msg)) (sim d (MsgGas msg)) (execute msg) (execute msg).
Proof.
  unfold execute. apply carries_get. intros t t' HR.
  assert (Hdata := proj1 (sim_data _ _ _ _ HR)). assert (Hgas := sim_gas _ _ _ _ HR).
  destruct (sim_range _ _ _ _ HR) as (_ & _ & _ & Hg & _).
  destruct (MsgTo msg) as [a|].
  - assert (HR1 : sim d (MsgGas msg) (set_db (setNonce (MsgFrom msg) (nonceOf (db t) (MsgFrom msg) +w 1) (db t)) t)
                    (set_db (setNonce (MsgFrom msg) (nonceOf (db t') (MsgFrom msg) +w 1) (db t')) t')).
    { destruct (reads_of _ _ (sim_agree _ _ _ _ HR)) as (Hb & _). destruct (Hb (MsgFrom msg)) as (_ & <- & _).
      destruct HR. split; try done. simpl. by apply (agree_nonce (access:=access)). }
    intros v u Hrun. rewrite Hdata, Hgas. unfold mbind, st_bind, on_db, st_modify in *.
    assert (Hl := call_law (MsgFrom msg) (to msg) (tdata t) (gas t) (MsgValue msg) _ (proj1 (sim_agree _ _ _ _ HR1)) Hg).
    refine (carries_machine d (fun _ => EvmCall (MsgFrom msg) (to msg) (tdata t) (gas t) (MsgValue msg)) _ _ HR1 _ _ v u Hrun).
    + apply call_agree, (sim_agree _ _ _ _ HR1).
    + destruct (EvmCall _ _ _ _ _ _) as [[[r l] e] s2]. apply Hl.
  - rewrite Hdata, Hgas.
    assert (Hl := create_law (MsgFrom msg) (tdata t) (gas t) (MsgValue msg) _ (proj1 (sim_agree _ _ _ _ HR)) Hg).
    apply (carries_machine d (fun _ => EvmCreate (MsgFrom msg) (tdata t) (gas t) (MsgValue msg))); [done| |].
    + apply create_agree, (sim_agree _ _ _ _ HR).
    + destruct (EvmCreate _ _ _ _ _) as [[[r l] e] s2]. apply Hl.
Qed.

(** The outcome of two runs that agree. *)
Record same_result (d : Z) (t t' : T) : Prop := {
  same_pool : gp t' = gp t + d;
  same_gas : gas t' = gas t /\ initialGas t' = initialGas t;
  same_state : agree (db t) (db t');
  same_range : 0 <= d /\ 0 <= gp t /\ gp t' <= MaxUint64;
}.

Lemma refunded_agree t t' x : isMeta t' = isMeta t /\ feeAddress t' = feeAddress t /\ feePercent t' = feePercent t ->
  agree (db t) (db t') -> agree (refunded msg t (db t) x) (refunded msg t' (db t') x).
Proof.
  unfold refunded. intros (-> & -> & ->) Ha. destruct (isMeta t); [apply (agree_add (access:=access))|];
    by apply (agree_add (access:=access)).
Qed.

Lemma carries_refund d t t' q : 0 < q -> sim d (MsgGas msg) t t' ->
  carries_at (same_result d) t t' (refundGas msg q) (refundGas msg q).
Proof.
  intros Hq HR v u Hrun. destruct (reads_of _ _ (sim_agree _ _ _ _ HR)) as (_ & _ & Hrf & _).
  destruct HR as [Hp Hg [Hi Hi'] Hd Hm Ha (Hr1 & Hr2 & Hr3 & Hr4 & Hr5)].
  pose proof GasU64 as HG. unfold is_u64, MaxUint64 in *.
  destruct (refundGas_run msg GasU64 q (gp t + MsgGas msg) t) as (H1' & H2' & E); try (unfold is_u64; lia); [apply Ha|].
  destruct (refundGas_run msg GasU64 q (gp t' + MsgGas msg) t') as (_ & _ & E'); try (unfold is_u64; lia); [apply Ha|].
  rewrite Hrun in E. injection E as _ ->. rewrite E', Hg, <- Hrf. destruct v. eexists. split; [done|].
  set (r := Z.min _ _) in *. split; cbn [gp gas initialGas db].
  - lia.
  - by rewrite Hi, Hi'.
  - by apply refunded_agree.
  - unfold MaxUint64. lia.
Qed.

Lemma carries_payTip d : carries (same_result d) (same_result d) (payTip env msg) (payTip env msg).
Proof.
  unfold payTip. apply carries_get. intros t t' HR. unfold gasUsed. destruct (same_gas _ _ _ HR) as [-> ->].
  eapply carries_bind; [by apply carries_lift|]. intros tip.
  apply carries_modify. intros u u' [Hp' Hg' Ha' Hr']. split; try done. simpl. by apply (agree_add (access:=access)).
Qed.

Lemma transition_sim pool d s s' res t :
  agree s s' -> 0 <= pool -> 0 <= d -> pool + d <= MaxUint64 ->
  TransitionDb env msg (NewStateTransition msg pool s) = (Ok res, t) ->
  exists t', TransitionDb env msg (NewStateTransition msg (pool + d) s') = (Ok res, t') /\ same_result d t t'.
Proof.
  intros Ha Hp Hd Hle.
  assert (HR : sim d 0 (NewStateTransition msg pool s) (NewStateTransition msg (pool + d) s')).
  { split; simpl; try done. unfold MaxUint64 in *. lia. }
  revert res t. fold (carries_at (same_result d) (NewStateTransition msg pool s) (NewStateTransition msg (pool + d) s')
    (TransitionDb env msg) (TransitionDb env msg)).
  unfold TransitionDb. eapply carries_bind; [by apply carries_preCheck|]. intros _ t1 t1' HR1.
  eapply carries_bind; [by apply carries_intrinsic|]. intros _ t2 t2' HR2.
  eapply carries_bind; [by apply carries_checkTransfer|]. intros _ t3 t3' HR3.
  eapply carries_bind; [by apply carries_prepareAccess|]. intros _ t4 t4' HR4.
  eapply carries_bind; [by apply carries_checkCreate|]. intros _ t5 t5' HR5.
  eapply carries_bind; [by apply carries_execute|]. intros rv t6 t6' HR6.
  eapply carries_bind; [apply carries_refund; [by destruct (IsLondon _ _)|done]|]. intros _ t7 t7' HR7.
  eapply carries_bind; [by apply carries_payTip|]. intros _. apply carries_get. intros t8 t8' HR8.
  unfold gasUsed. destruct (same_gas _ _ _ HR8) as [-> ->]. by apply carries_ret.
Qed.

(** ** Failing transactions *)

Section Failing.
Variables (pool : Z) (s0 : St).
Hypothesis Sender : journaled (MsgFrom msg).
Hypothesis Sponsor : forall f r s v a, RecoverPlain f r s v = Ok a -> journaled a.

Definition undone (t : T) : Prop :=
  undoable access s0 (db t) /\ 0 <= gp t <= pool /\ (isMeta t = true -> journaled (feeAddress t)).

(** An early return leaves [undone]; [stays]: so does success. *)
Definition fails_undone {A} (m : ST T A) : Prop := forall t e u, undone t -> m t = (Err e, u) -> undone u.
Definition stays {A} (m : ST T A) : Prop := forall t r u, undone t -> m t = (r, u) -> r <> Panic -> undone u.
Definition never_fails {A} (m : ST T A) : Prop := forall t e u, m t <> (Err e, u).

Lemma stays_fails {A} (m : ST T A) : stays m -> fails_undone m.
Proof. intros Hm t e u Ht Hrun. by eapply Hm. Qed.
Lemma never_undone {A} (m : ST T A) : never_fails m -> fails_undone m.
Proof. intros Hm t e u _ Hrun. by apply Hm in Hrun. Qed.

Lemma fails_bind {A B} (m : ST T A) (f : A -> ST T B) :
  stays m -> (forall a, fails_undone (f a)) -> fails_undone (m ≫= f).
Proof.
  intros Hm Hf t e u Ht. unfold mbind, st_bind. destruct (m t) as [[a|e'|] t1] eqn:E; intros Hrun; [| |done].
  - eapply Hf; [|done]. by eapply Hm.
  - injection Hrun as <- <-. by eapply Hm.
Qed.
Lemma stays_bind {A B} (m : ST T A) (f : A -> ST T B) :
  stays m -> (forall a, stays (f a)) -> stays (m ≫= f).
Proof.
  intros Hm Hf t r u Ht. unfold mbind, st_bind. destruct (m t) as [[a|e'|] t1] eqn:E; intros Hrun Hr.
  - eapply Hf; [|done..]. by eapply Hm.
  - injection Hrun as <- <-. by eapply Hm.
  - congruence.
Qed.
Lemma stays_get {A} (f : T -> ST T A) : (forall t, undone t -> stays (f t)) -> stays (st_get ≫= f).
Proof. intros Hf t r u Ht Hrun. by eapply Hf. Qed.
Lemma never_bind {A B} (m : ST T A) (f : A -> ST T B) :
  never_fails m -> (forall a, never_fails (f a)) -> never_fails (m ≫= f).
Proof.
  intros Hm Hf t e u. unfold mbind, st_bind. destruct (m t) as [[a|e'|] t1] eqn:E; [apply Hf| |done].
  by apply Hm in E.
Qed.
Lemma stays_lift {A} (r : res A) : stays (st_lift r).
Proof. intros t r' u Ht Hrun _. unfold st_lift in Hrun. by injection Hrun as _ <-. Qed.
Lemma stays_fail_if b e : stays (st_fail_if b e).
Proof. intros t r u Ht Hrun _. destruct b; unfold st_fail_if, st_err, mret, st_ret in Hrun; by injection Hrun as _ <-. Qed.
Lemma stays_ret {A} (a : A) : stays (mret a).
Proof. intros t r u Ht Hrun _. unfold mret, st_ret in Hrun. by injection Hrun as _ <-. Qed.
Lemma stays_modify f : (forall t, undone t -> undone (f t)) -> stays (st_modify f).
Proof. intros Hf t r u Ht Hrun _. unfold st_modify in Hrun. injection Hrun as _ <-. auto. Qed.
Lemma stays_sub a x : journaled a -> stays (on_db (subBalance a x)).
Proof. intros Ha. apply stays_modify. intros t (Hu & Hp & Hm). split; [by apply undo_sub|done]. Qed.
Lemma never_modify f : never_fails (st_modify f).
Proof. done. Qed.
Hint Resolve stays_bind stays_lift stays_fail_if stays_ret stays_sub stays_modify never_bind never_modify : node.

Lemma stays_takeGas : stays (takeGas msg).
Proof.
  unfold takeGas, st_lift, SubGas. intros t r u (Hu & Hp & Hm) Hrun _. unfold mbind, st_bind, st_get in Hrun.
  destruct (gp t <? MsgGas msg) eqn:E; [by injection Hrun as <- <-|]. bool_Z. unfold st_modify in Hrun.
  injection Hrun as <- <-. split_and!; try done; simpl; pose proof GasU64 as HG; unfold is_u64 in HG;
    pose proof (u64_range (gp t - MsgGas msg)); unfold u64, is_u64 in *; lia.
Qed.

Lemma stays_metaCheck : stays (metaTransactionCheck env msg).
Proof.
  unfold metaTransactionCheck. apply stays_get. intros t Ht. case_if; [|auto with node].
  apply stays_bind; [auto with node|]. intros m. intros t1 r u Ht1. unfold mbind, st_bind, st_lift.
  destruct (ParseMetaData _ _ _ _ _ _ _ _ _) as [a|e|] eqn:Ep; intros Hrun Hr; [|by injection Hrun as <- <-|congruence].
  unfold st_modify in Hrun. injection Hrun as <- <-. destruct Ht1 as (Hu & Hp & Hm).
  split; [done|]. split; [done|]. intros _. simpl. unfold ParseMetaData in Ep. destruct (ChainID _); [|done].
  destruct (RecoverPlain _ _ _ _) eqn:Er; try done. injection Ep as <-. by eapply Sponsor.
Qed.

Lemma get_at {A} (f : T -> ST T A) t : (st_get ≫= f) t = f t t.
Proof. done. Qed.

Lemma stays_preCheck : stays (preCheck env msg).
Proof.
  unfold preCheck. apply stays_get. intros t Ht. apply stays_bind; [auto with node|]. intros _.
  apply stays_bind; [auto with node|]. intros _. apply stays_bind; [apply stays_metaCheck|]. intros _.
  intros t1 r u Ht1 Hrun Hr. unfold mbind, st_bind, st_get in Hrun. destruct (isMeta t1) eqn:Em.
  - assert (Hj := proj2 (proj2 Ht1) Em). unfold buyGasMeta in Hrun. rewrite get_at in Hrun. cbv zeta in Hrun.
    match type of Hrun with ?m t1 = _ => assert (Hs : stays m); [|by eapply (Hs t1 r u)] end.
    apply stays_bind; [auto with node|]. intros _. apply stays_bind; [apply stays_takeGas|]. intros _.
    apply stays_bind; auto with node.
  - revert Ht1 Hrun Hr. apply (fun Hs : stays (buyGas msg) => Hs t1 r u). clear t1 r u Em.
    unfold buyGas. apply stays_get. intros t2 Ht2. apply stays_bind; [auto with node|]. intros _.
    apply stays_bind; [apply stays_takeGas|]. auto with node.
Qed.

Lemma never_execute : never_fails (execute msg).
Proof.
  assert (Hm : forall run, never_fails (runMachine (St:=St) run)).
  { intros run t e u. unfold runMachine. by destruct (run (db t)) as [[[ret l] x] s]. }
  unfold execute. apply never_bind; [done|]. intros t. destruct (MsgTo msg); [|apply Hm].
  apply never_bind; [done|]. intros _. apply Hm.
Qed.

Lemma never_settles (q : Z) rv : never_fails (_ ← refundGas msg q; _ ← payTip env msg; t ← st_get; mret (mkResult (gasUsed t) rv.2 rv.1)).
Proof.
  apply never_bind.
  - unfold refundGas. do 3 (apply never_bind; [done|]; intros ?). apply never_bind.
    { case_if; [apply never_bind; done|done]. }
    intros _ t e u. unfold mbind, st_bind, st_lift, AddGas. by case_if.
  - intros _. apply never_bind; [|done]. unfold payTip. apply never_bind; [done|]. intros t t1 e u.
    unfold mbind, st_bind, st_lift, effectiveTip. repeat case_match; done.
Qed.

Lemma transition_undone e t :
  0 <= pool -> TransitionDb env msg (NewStateTransition msg pool s0) = (Err e, t) -> undone t.
Proof.
  intros Hp. apply (fun H : fails_undone (TransitionDb env msg) => H _ _ _); [|].
  2: { split; [constructor|]. split; [simpl; lia|done]. }
  unfold TransitionDb. apply fails_bind; [apply stays_preCheck|]. intros _.
  apply fails_bind. { unfold chargeIntrinsic. apply stays_get. intros t1 _. auto with node. }
  intros _. apply fails_bind. { unfold checkTransfer. apply stays_get. auto with node. }
  intros _. apply fails_bind.
  { unfold prepareAccess. case_if; [|auto with node]. apply stays_modify. intros t1 (Hu & Hg & Hm).
    split; [|done]. cbn [db set_db]. by apply undo_access. }
  intros _. apply fails_bind.
  { unfold checkCreate. apply stays_get. intros t1 _. destruct (MsgTo msg); [auto with node|].
    destruct (EnvCanCreate env); auto with node. }
  intros _. apply never_undone. apply never_bind; [apply never_execute|]. intros rv. apply never_settles.
Qed.
End Failing.
End Simulation.
