(* ===== verification/MinerFacts.v ===== *)
(** * The miner's run and the verifier's run of a block *)

From S2P Require Import StateDB StateIface Prelude Params Misc Snapshot Engine Finalize FinalizeContext Blacklist.
From S2P Require Import Types Contracts StateTransition TransitionFacts Processor Miner StateAgree BlockFacts.

(** What the loop of the miner relies on of its queue: [queue_all P q] holds if
    all transactions that may come from [q] satisfy [P]; every step takes one
    transaction away. *)
Class TxQueueLaws (Q : Type) `{TxQueue Q} : Type := {
  queue_size : Q -> nat;
  queue_all : (Transaction -> Prop) -> Q -> Prop;
  peek_size : forall q tx, Peek q = Some tx -> (queue_size (Shift q) < queue_size q)%nat /\ (queue_size (Pop q) < queue_size q)%nat;
  peek_all : forall P q tx, queue_all P q -> Peek q = Some tx -> P tx;
  shift_all : forall P q, queue_all P q -> queue_all P (Shift q);
  pop_all : forall P q, queue_all P q -> queue_all P (Pop q);
}.

(** What both sides rely on of the engine: once it is ready for the blocks on a
    parent, [ValidateTx] is a verdict on sender and recipient and leaves the
    state alone; [CanCreate] reads the state only. *)
Class PoSALaws (E St : Type) `{PoSA E St} `{AccountState St} `{Journal St} : Type := {
  posa_ready : Hash -> E -> Prop;
  verdict : Hash -> option Z -> Address -> option Address -> res unit;
  validate_law : forall chain sender tx h e (s : St), posa_ready (ParentHash h) e ->
    exists e', posa_ValidateTx chain sender tx h (e, s) = (verdict (ParentHash h) (Number h) sender (TxTo tx), (e', s)) /\
               posa_ready (ParentHash h) e';
  create_law_agree : forall (s s' : St) a n, agree s s' -> posa_CanCreate s a n = posa_CanCreate s' a n;
}.

Section Miner.
Context {E St Q : Type} `{Crypto} `{AccountLaws St} `{!VM St} `{!Machine St} `{!MetaCodec} `{!MetaCodecLaws}
  `{!TxSigning} `{!PoSA E St} `{!Revertible St} `{!TxQueue Q} `{!Replay} `{!Journal St} {access : (St -> St) -> Prop}
  `{!JournalLaws St access} `{!MachineLaws St access} `{!PoSALaws E St} `{!TxQueueLaws Q}.
Variables (cfg : ChainConfig) (noBaseFee : bool) (chain : ChainHeaderReader) (coinbase : Address).
Hypothesis Sponsor : forall f r s v a, RecoverPlain f r s v = Ok a -> journaled a.

(** A transaction as the queue holds it: the gas is a [uint64], and its sender
    is not the excepted precompile. *)
Definition tx_ok (tx : Transaction) : Prop := is_u64 (Finalize.TxGas tx) /\ forall a, SenderOfTx tx = Ok a -> journaled a.

(** The verifier's block state against the miner's: same gas used, a pool at
    least as large, states that agree. *)
Record ahead (b b' : BlockState St) : Prop := {
  ahead_pool : 0 <= bsPool b /\ bsPool b <= bsPool b' /\ bsPool b' <= MaxUint64;
  ahead_used : bsUsed b = bsUsed b';
  ahead_state : agree (bsState b) (bsState b');
}.

Lemma reads_agree_of (s s' : St) : agree s s' -> reads_agree s s'.
Proof. apply (agree_reads (access:=access)). Qed.

Lemma settle_agree ctx (s s' : St) : agree s s' ->
  fst (settle cfg ctx s) = fst (settle cfg ctx s') /\ agree (snd (settle cfg ctx s)) (snd (settle cfg ctx s')).
Proof.
  intros Ha. unfold settle. case_if; [split; [done|]; by apply (agree_finalise (access:=access))|].
  pose proof (root_agree (access:=access) (IsEIP158 cfg (Some (CtxNumber ctx))) s s' Ha) as Hr.
  destruct (IntermediateRoot _ s) as [h t], (IntermediateRoot _ s') as [h' t']. cbn in *. by destruct Hr as [-> Hr].
Qed.

(** The parts of the header the machine and the messages depend on. *)
Record same_block (h h' : Header) : Prop := {
  block_parent : ParentHash h = ParentHash h';
  block_number : Number h = Number h';
  block_difficulty : Difficulty h = Difficulty h';
  block_time : Time h = Time h';
  block_baseFee : BaseFee h = BaseFee h';
  block_gasLimit : GasLimit h = GasLimit h';
}.

Lemma context_agree h h' : same_block h h' -> posa_Author h' = Ok coinbase ->
  NewEVMBlockContext (E:=E) (St:=St) chain h (Some coinbase) = NewEVMBlockContext (E:=E) (St:=St) chain h' None.
Proof.
  intros [Hp Hn Hd Ht Hb Hg] Ha. unfold NewEVMBlockContext, GetHashFn, NumberU64. by rewrite Ha, Hp, Hn, Hd, Ht, Hb, Hg.
Qed.

Lemma AsMessage_inv tx baseFee msg : AsMessage tx baseFee = Ok msg ->
  MsgGas msg = Finalize.TxGas tx /\ SenderOfTx tx = Ok (MsgFrom msg).
Proof. unfold AsMessage. intros Hm. inv_bind Hm. by injection Hm as <-. Qed.

Lemma env_create ctx f (s s' : St) a n :
  EnvCanCreate (envOf (E:=E) cfg noBaseFee ctx) = Some f -> agree s s' -> f s a n = f s' a n.
Proof. intros Hf Has. unfold envOf in Hf. cbn in Hf. injection Hf as <-. case_if; [|done]. by apply create_law_agree. Qed.

Lemma apply_ahead ctx hashM hashV msg tx b b' r b1 :
  is_u64 (MsgGas msg) -> ahead b b' ->
  applyTransaction (E:=E) cfg noBaseFee ctx hashM msg tx b = (Ok r, b1) ->
  exists b1', applyTransaction (E:=E) cfg noBaseFee ctx hashV msg tx b' = (Ok (locate hashV r), b1') /\ ahead b1 b1'.
Proof.
  intros Hg [(Hp1 & Hp2 & Hp3) Hu Ha] Hrun. unfold applyTransaction, ApplyMessage in *. cbn [fst snd] in *.
  set (vm := evmFor cfg ctx (MsgFrom msg) (MsgGasPrice msg)) in *.
  destruct (TransitionDb _ _ (NewStateTransition msg (bsPool b) (bsState b))) as [[result|e|] t] eqn:Et; [|done..].
  destruct (transition_sim (access:=access) (envOf (E:=E) cfg noBaseFee ctx) msg Hg) with (pool := bsPool b)
    (d := bsPool b' - bsPool b) (s := bsState b) (s' := bsState b') (res := result) (t := t) as (t' & Et' & Hs); try done; try lia.
  { intros. apply (machine_access (access:=access)). }
  { apply env_create. }
  replace (bsPool b + (bsPool b' - bsPool b)) with (bsPool b') in Et' by lia. rewrite Et'.
  destruct Hs as [Hsp _ Hsa (Hd1 & Hd2 & Hd3)].
  destruct (settle_agree ctx _ _ Hsa) as [Hf Hs].
  destruct (settle cfg ctx (db t)) as [root s1], (settle cfg ctx (db t')) as [root' s1']. simpl in Hf, Hs. subst root'.
  injection Hrun as <- <-. destruct (reads_agree_of _ _ Hs) as (_ & _ & _ & Hti & Hlogs).
  eexists. split.
  - unfold receiptOf, locate. cbn. rewrite Hlogs, Hti, Hu. by rewrite <- list_fmap_compose.
  - split; cbn; [lia|by rewrite Hu|done].
Qed.

(** A failed transaction can be undone, and takes from the pool at most. *)
Lemma apply_undone ctx hash msg tx b e b1 :
  is_u64 (MsgGas msg) -> journaled (MsgFrom msg) -> 0 <= bsPool b ->
  applyTransaction (E:=E) cfg noBaseFee ctx hash msg tx b = (Err e, b1) ->
  undoable access (bsState b) (bsState b1) /\ 0 <= bsPool b1 <= bsPool b /\ bsUsed b1 = bsUsed b.
Proof.
  intros Hg Hj Hp Hrun. unfold applyTransaction, ApplyMessage in *. cbn [fst snd] in *.
  set (vm := evmFor cfg ctx (MsgFrom msg) (MsgGasPrice msg)) in *.
  destruct (TransitionDb _ _ (NewStateTransition msg (bsPool b) (bsState b))) as [[result|e'|] t] eqn:Et.
  - by destruct (settle cfg ctx (db t)).
  - injection Hrun as <- <-. cbn.
    destruct (transition_undone (access:=access) (envOf (E:=E) cfg noBaseFee ctx) msg Hg
      (fun a to al => machine_access _ _ _ _ a to al) (env_create ctx) (bsPool b) (bsState b) Hj Sponsor e' t Hp Et)
      as (Hu & Hpool & _).
    split; [exact Hu|]. by split.
  - done.
Qed.

(** ** One attempt of the miner *)

(** States on which the next transaction starts alike: what an attempt left in
    the per-transaction fields is overwritten. *)
Definition fresh_agree (s s' : St) : Prop :=
  stateOk s /\ stateOk s' /\ forall h i, agree (statePrepare h i s) (statePrepare h i s').

Lemma agree_fresh (s s' : St) : agree s s' -> fresh_agree s s'.
Proof. intros Ha. split; [apply Ha|]. split; [apply Ha|]. intros h i. by apply (agree_prepare (access:=access)). Qed.

Lemma agree_trans (s1 s2 s3 : St) : agree s1 s2 -> agree s2 s3 -> agree s1 s3.
Proof.
  intros (H1' & _ & He) (_ & H2' & He'). split; [done|]. split; [done|].
  pose proof (steq_equivalence (access:=access)). by etrans.
Qed.

Lemma agree_sym (s1 s2 : St) : agree s1 s2 -> agree s2 s1.
Proof.
  intros (H1' & H2' & He). split; [done|]. split; [done|]. pose proof (steq_equivalence (access:=access)). by symmetry.
Qed.

Lemma agree_refl (s : St) : stateOk s -> agree s s.
Proof. intros Hs. split; [done|]. split; [done|]. pose proof (steq_equivalence (access:=access)). reflexivity. Qed.

Variables (hV : Header) (ctx : BlockContext) (v : option blacklistValidator).
Hypothesis Author : posa_Author hV = Ok coinbase.
Hypothesis Context_ok : NewEVMBlockContext (E:=E) (St:=St) chain hV None = Ok ctx.

(** The miner's environment against the verifier's block state, between two
    transactions. *)
Record in_step (env : environment St) (b : BlockState St) : Prop := {
  step_header : same_block (env_header env) hV;
  step_pool : exists p, env_gasPool env = Some p /\ 0 <= p /\ p <= bsPool b /\ bsPool b <= MaxUint64;
  step_used : GasUsed (env_header env) = bsUsed b;
  step_state : fresh_agree (env_state env) (bsState b);
  step_validator : env_extraValidator env = v;
}.

(** A failed attempt, undone, leaves the verifier where he is. *)
Lemma failed_step env b h i b1 p :
  in_step env b -> env_gasPool env = Some p ->
  let sP := statePrepare h i (env_state env) in
  undoable access (snapshotOf sP).2 (bsState b1) -> 0 <= bsPool b1 <= p -> bsUsed b1 = GasUsed (env_header env) ->
  exists s', revertTo (snapshotOf sP).1 (bsState b1) = Ok s' /\
    in_step (with_state s' (withBlockState b1 (with_state sP env))) b.
Proof.
  intros [Hh (p' & Hp & Hp0 & Hp1 & Hp2) Hu (Hs1 & Hs2 & Hs) Hv] Hpool sP Hundo Hp3 Hu3.
  rewrite Hp in Hpool. injection Hpool as ->.
  assert (HsP : stateOk sP) by apply (Hs h i).
  destruct (agree_revert (access:=access) sP (bsState b1) HsP Hundo) as (s' & Hr & Ha).
  exists s'. split; [done|]. split; cbn.
  - destruct Hh. by split.
  - exists (bsPool b1). split; [done|]. lia.
  - by rewrite Hu3.
  - split; [apply Ha|]. split; [done|]. intros h' i'.
    eapply agree_trans; [by apply (agree_prepare (access:=access))|].
    eapply agree_trans; [by apply (prepare_prepare (access:=access))|]. apply Hs.
  - done.
Qed.

(** The attempt, from the state [Prepare] left: success moves the verifier
    along, failure changes nothing he has to follow. *)
Lemma commit_step env b tx r env' :
  tx_ok tx -> in_step env b ->
  commitTransaction (E:=E) cfg noBaseFee chain coinbase tx
    (with_state (statePrepare (HashOfTx tx) (env_tcount env) (env_state env)) env) = (r, env') ->
  match r with
  | Ok _ => exists receipt b' msg, env_txs env' = env_txs env ++ [tx] /\ env_receipts env' = env_receipts env ++ [receipt] /\
      AsMessage tx (BaseFee hV) = Ok msg /\
      applyTransaction (E:=E) cfg noBaseFee (withValidator v ctx) (HeaderHash hV) msg tx
        (mkBlockState (bsPool b) (bsUsed b) (statePrepare (HashOfTx tx) (env_tcount env) (bsState b)))
        = (Ok (locate (HeaderHash hV) receipt), b') /\ in_step env' b' /\ env_tcount env' = env_tcount env
  | Err _ => env_txs env' = env_txs env /\ env_receipts env' = env_receipts env /\ env_tcount env' = env_tcount env /\ in_step env' b
  | Panic => True
  end.
Proof.
  intros [Hgas Hj] Hstep Hrun. assert (Hstep' := Hstep). destruct Hstep' as [Hh (p & Hp & Hp0 & Hp1 & Hp2) Hu (Hs1 & Hs2 & Hs) Hv].
  unfold commitTransaction in Hrun. cbn [env_state env_header env_extraValidator with_state] in Hrun.
  pose proof (failed_step env b (HashOfTx tx) (env_tcount env)) as Hfail. cbv zeta in Hfail.
  set (sP := statePrepare (HashOfTx tx) (env_tcount env) (env_state env)) in *.
  assert (HsP := Hs (HashOfTx tx) (env_tcount env)). fold sP in HsP.
  pose proof (agree_snapshot (access:=access) sP (proj1 HsP)) as Hsnap.
  destruct (snapshotOf sP) as [snap s]. cbn [fst snd] in *.
  unfold ApplyTransaction, blockStateOf, poolOf in Hrun. cbn [env_gasPool env_header env_state with_state] in Hrun.
  rewrite Hp in Hrun. cbn [default from_option id] in Hrun.
  set (b0 := mkBlockState p (GasUsed (env_header env)) s) in *.
  unfold mbind, st_bind, st_lift in Hrun.
  rewrite (block_baseFee _ _ Hh), (context_agree _ _ Hh Author), Context_ok, Hv in Hrun.
  destruct (AsMessage tx (BaseFee hV)) as [msg|e|] eqn:Em; [| |by injection Hrun as <- _].
  2: { destruct (Hfail b0 p Hstep Hp) as (s' & Hr & Hin); [constructor|done|done|].
       rewrite Hr in Hrun. injection Hrun as <- <-. by split_and!. }
  destruct (AsMessage_inv _ _ _ Em) as [Hmg Hmf].
  destruct (applyTransaction _ _ _ _ _ _ b0) as [[receipt|e|] b1] eqn:Ea; [| |by injection Hrun as <- _].
  - injection Hrun as <- <-.
    destruct (apply_ahead (withValidator v ctx) (HeaderHash (env_header env)) (HeaderHash hV) msg tx b0
      (mkBlockState (bsPool b) (bsUsed b) (statePrepare (HashOfTx tx) (env_tcount env) (bsState b))) receipt b1)
      as (b' & Hb & [Hpool Hused Hst]); [by rewrite Hmg| |done|].
    { split; cbn; [lia|done|]. by eapply agree_trans. }
    exists receipt, b', msg. split_and!; try done. split; cbn.
    + destruct Hh. by split.
    + exists (bsPool b1). split; [done|]. lia.
    + done.
    + by apply agree_fresh.
    + done.
  - destruct (apply_undone _ _ msg tx b0 e b1 ltac:(by rewrite Hmg) (Hj _ Hmf) Hp0 Ea) as (Hun & Hpool & Hused).
    destruct (Hfail b1 p Hstep Hp Hun Hpool Hused) as (s' & Hr & Hin). rewrite Hr in Hrun. injection Hrun as <- <-.
    by split_and!.
Qed.

(** ** The loop *)

(** What a round did: nothing the verifier sees, or one more transaction. *)
Definition advanced (env : environment St) (b : BlockState St) (tx : Transaction) (env' : environment St) (b' : BlockState St)
    (receipt : Receipt) : Prop :=
  exists msg, env_txs env' = env_txs env ++ [tx] /\ env_receipts env' = env_receipts env ++ [receipt] /\
    env_tcount env' = env_tcount env + 1 /\ AsMessage tx (BaseFee hV) = Ok msg /\
    (isPoSA = true -> verdict (ParentHash hV) (Number hV) (MsgFrom msg) (TxTo tx) = Ok tt) /\
    applyTransaction (E:=E) cfg noBaseFee (withValidator v ctx) (HeaderHash hV) msg tx
      (mkBlockState (bsPool b) (bsUsed b) (statePrepare (HashOfTx tx) (env_tcount env) (bsState b)))
      = (Ok (locate (HeaderHash hV) receipt), b').

Definition idle (env env' : environment St) : Prop :=
  env_txs env' = env_txs env /\ env_receipts env' = env_receipts env /\ env_tcount env' = env_tcount env.

Local Abbreviation ready e := (posa_ready (ParentHash hV) e).

Lemma nextTx_run outcome (e : E) (env : environment St) (q : Q) u ceq :
  nextTx outcome (e, env, q) = (Ok u, ceq) ->
  exists q', (q' = Shift q \/ q' = Pop q) /\
    ceq = (e, match outcome with Ok _ => countTx env | _ => env end, q').
Proof.
  unfold nextTx, on_env, on_queue, st_modify, mbind, st_bind. intros Hrun. destruct outcome as [l|x|]; [| |done].
  - injection Hrun as <- <-. eauto.
  - repeat case_decide; injection Hrun as <- <-; eauto.
Qed.

Lemma in_step_count env b : in_step env b -> in_step (countTx env) b.
Proof. by intros [H1' H2' H3' H4' H5']. Qed.

Lemma in_step_state env b : in_step env b -> with_state (env_state env) env = env.
Proof. by destruct env. Qed.

(** The screening by the engine does not change the environment. *)
Lemma screen_run e (env : environment St) (q : Q) b tx from u ceq :
  in_step env b -> ready e ->
  (if isPoSA then st_try (on_engineState (posa_ValidateTx chain from tx (env_header env))) else mret (Some tt))
    (e, env, q) = (Ok u, ceq) ->
  exists e', ready e' /\ ceq = (e', env, q) /\
    (u <> None -> isPoSA = true -> verdict (ParentHash hV) (Number hV) from (TxTo tx) = Ok tt).
Proof.
  intros Hstep He. destruct isPoSA; [|intros Hrun; injection Hrun as <- <-; by exists e].
  unfold st_try, on_engineState. rewrite <- (block_parent _ _ (step_header _ _ Hstep)) in He.
  destruct (validate_law chain from tx (env_header env) e (env_state env) He) as (e' & -> & He').
  rewrite (block_parent _ _ (step_header _ _ Hstep)), (block_number _ _ (step_header _ _ Hstep)) in *.
  rewrite (in_step_state _ _ Hstep).
  destruct (verdict _ _ _ _) as [[]|x|]; intros Hrun; [| |done]; injection Hrun as <- <-; by exists e'.
Qed.

Lemma tryTx_step e (env : environment St) (q : Q) b tx u e' env' q' :
  in_step env b -> ready e -> tx_ok tx ->
  tryTx cfg noBaseFee chain coinbase tx (e, env, q) = (Ok u, (e', env', q')) ->
  ready e' /\ (q' = Shift q \/ q' = Pop q) /\
  ((idle env env' /\ in_step env' b) \/ exists b' receipt, advanced env b tx env' b' receipt /\ in_step env' b').
Proof.
  intros Hstep He Htx Hrun. unfold tryTx in Hrun. inv_bind Hrun. unfold st_get in Hm. injection Hm as <- <-.
  cbn [fst snd] in Hrun.
  case_if. { unfold on_queue, st_modify in Hrun. injection Hrun as _ <- <- <-. split; [done|]. split; [auto|]. by left. }
  clear E0. inv_bind Hrun.
  destruct (screen_run _ _ _ _ _ _ _ _ Hstep He Hm) as (e1 & He1 & -> & Hver).
  destruct a as [[]|].
  2: { unfold on_queue, st_modify in Hrun. injection Hrun as _ <- <- <-. split; [done|]. split; [auto|]. by left. }
  inv_bind Hrun. unfold on_env, st_modify in Hm0. injection Hm0 as <- <-.
  inv_bind Hrun. unfold st_catch, on_env in Hm0.
  set (env0 := with_state (statePrepare (HashOfTx tx) (env_tcount env) (env_state env)) env) in *.
  destruct (commitTransaction cfg noBaseFee chain coinbase tx env0) as [r env1] eqn:Ec.
  pose proof (commit_step _ _ _ _ _ Htx Hstep Ec) as Hcs.
  destruct r as [l|x|]; [| |done]; injection Hm0 as <- <-;
    apply nextTx_run in Hrun as (q2 & Hq & Heq); injection Heq as -> -> ->; (split; [done|]); (split; [done|]).
  - destruct Hcs as (receipt & b' & msg & Ht & Hr & Hmsg & Hap & Hin & Htc). right. exists b', receipt.
    split; [|by apply in_step_count]. exists msg. destruct (AsMessage_inv _ _ _ Hmsg) as [_ Hsender].
    rewrite Hsender in Hver. split_and!; try done; [by rewrite <- Htc|]. by apply Hver.
  - destruct Hcs as (Ht & Hr & Htc & Hin). by left.
Qed.

(** The transactions are not the engine's own. *)
Definition ordinary (tx : Transaction) : Prop :=
  forall a, SenderOfTx tx = Ok a -> posa_IsSysTransaction a tx hV = Ok false.

(** The verifier takes the same step. *)
Lemma verify_step env b tx env' b' receipt eV txs :
  advanced env b tx env' b' receipt -> ordinary tx -> ready eV ->
  exists eV', ready eV' /\
    processTxs cfg noBaseFee chain (withValidator v ctx) hV (env_tcount env) (tx :: txs) (eV, b) =
    (rest ← processTxs cfg noBaseFee chain (withValidator v ctx) hV (env_tcount env') txs;
     mret ((tx, locate (HeaderHash hV) receipt) :: rest.1, rest.2)) (eV', b').
Proof.
  intros (msg & _ & _ & Htc & Hmsg & Hver & Hap) Hord He. destruct (AsMessage_inv _ _ _ Hmsg) as [_ Hsender].
  assert (Hscreen : exists eV', ready eV' /\ screenTx chain hV tx (eV, b) = (Ok false, (eV', b))).
  { unfold screenTx. destruct isPoSA; [|by exists eV]. unfold mbind, st_bind, st_lift. rewrite Hsender.
    rewrite (Hord _ Hsender). unfold on_posa. cbn [fst snd].
    destruct (validate_law chain (MsgFrom msg) tx hV eV (bsState b) He) as (eV' & -> & He').
    rewrite Hver by done. exists eV'. split; [done|]. by destruct b. }
  destruct Hscreen as (eV' & He' & Hs). exists eV'. split; [done|]. cbn [processTxs].
  unfold mbind at 1, st_bind at 1. rewrite Hs. cbn iota.
  unfold mbind at 1, st_bind at 1, wrapTx at 1, st_lift at 1. rewrite Hmsg. cbn iota.
  unfold mbind at 1, st_bind at 1, on_block at 1, prepareTx at 1, st_modify at 1. cbn [fst snd].
  unfold mbind at 1, st_bind at 1, wrapTx at 1, on_block at 1. cbn [fst snd]. rewrite Hap. cbn iota. by rewrite Htc.
Qed.

Lemma loop_steps interrupt fuel : forall i e (env : environment St) (q : Q) b stop e' env' q',
  in_step env b -> ready e -> queue_all tx_ok q ->
  commitLoop cfg noBaseFee chain coinbase fuel interrupt i (e, env, q) = (Ok stop, (e', env', q')) ->
  exists (txs : list Transaction) (receipts : list Receipt), env_txs env' = env_txs env ++ txs /\ env_receipts env' = env_receipts env ++ receipts /\
    length receipts = length txs /\ ready e' /\
    forall eV : E, Forall ordinary txs -> ready eV ->
      exists (eV' : E) (b' : BlockState St), ready eV' /\ in_step env' b' /\
        processTxs cfg noBaseFee chain (withValidator v ctx) hV (env_tcount env) txs (eV, b) =
          (Ok (zip txs (locate (HeaderHash hV) <$> receipts), []), (eV', b')).
Proof.
  induction fuel as [|fuel IH]; intros i e env q b stop e' env' q' Hstep He Hq Hrun; [done|]. cbn [commitLoop] in Hrun.
  assert (Hdone : forall r, (Ok r, (e, env, q)) = (Ok stop, (e', env', q')) ->
    exists (txs : list Transaction) (receipts : list Receipt), env_txs env' = env_txs env ++ txs /\ env_receipts env' = env_receipts env ++ receipts /\
    length receipts = length txs /\ ready e' /\
    forall eV : E, Forall ordinary txs -> ready eV ->
      exists (eV' : E) (b' : BlockState St), ready eV' /\ in_step env' b' /\
        processTxs cfg noBaseFee chain (withValidator v ctx) hV (env_tcount env) txs (eV, b) =
          (Ok (zip txs (locate (HeaderHash hV) <$> receipts), []), (eV', b'))).
  { intros r Heq. injection Heq as _ <- <- <-. exists [], []. rewrite !app_nil_r. split_and!; try done.
    intros eV _ HeV. by exists eV, b. }
  destruct (negb (interrupt i =? commitInterruptNone)); [by apply Hdone in Hrun|].
  inv_bind Hrun. unfold st_get in Hm. injection Hm as <- <-. cbn [fst snd] in Hrun.
  destruct (poolOf env <? StateTransition.TxGas); [by apply Hdone in Hrun|].
  destruct (Peek q) as [tx|] eqn:Hp; [|by apply Hdone in Hrun]. clear Hdone.
  inv_bind Hrun. destruct s as [[e1 env1] q1].
  destruct (tryTx_step _ _ _ _ _ _ _ _ _ Hstep He (peek_all _ _ _ Hq Hp) Hm) as (He1 & Hq1 & Hcase).
  assert (Hall : queue_all tx_ok q1) by (destruct Hq1 as [->| ->]; [by apply shift_all|by apply pop_all]).
  destruct Hcase as [[(Ht & Hr & Htc) Hin]|(b1 & receipt & Hadv & Hin)].
  - rewrite <- Ht, <- Hr, <- Htc. by eapply IH.
  - destruct (IH _ _ _ _ _ _ _ _ _ Hin He1 Hall Hrun) as (txs & receipts & Ht & Hr & Hlen & He' & Hver).
    assert (Hadv' := Hadv). destruct Hadv' as (msg & Ht1 & Hr1 & Htc & _).
    exists (tx :: txs), (receipt :: receipts). rewrite Ht, Hr, Ht1, Hr1, <- !app_assoc.
    split_and!; [done|done|simpl; by rewrite Hlen|done|].
    intros eV Hord HeV. apply list.Forall_cons in Hord as [Hord Hords].
    destruct (verify_step _ _ _ _ _ _ eV txs Hadv Hord HeV) as (eV1 & HeV1 & Hrun1).
    destruct (Hver eV1 Hords HeV1) as (eV' & b' & HeV' & Hin' & Hrun2).
    exists eV', b'. split_and!; [done|done|]. rewrite Hrun1. unfold mbind, st_bind. by rewrite Hrun2.
Qed.

(** A round never fails, and takes one transaction from the queue. *)
Definition takes_one (q : Q) {A} (r : res A * (E * environment St * Q)) : Prop :=
  match r with
  | (Ok _, ceq) => ceq.2 = Shift q \/ ceq.2 = Pop q
  | (Err _, _) => False
  | (Panic, _) => True
  end.

Lemma tryTx_takes (tx : Transaction) (e : E) (env : environment St) (q : Q) :
  takes_one q (tryTx cfg noBaseFee chain coinbase tx (e, env, q)).
Proof.
  unfold tryTx. unfold mbind at 1, st_bind at 1, st_get. cbn [fst snd].
  case_if; [simpl; auto|]. clear E0. unfold mbind at 1, st_bind at 1.
  set (from := match SenderOfTx tx with Ok a => a | _ => 0 end). clearbody from.
  set (screen := if isPoSA then _ else _).
  assert (Hs : match screen (e, env, q) with (Ok _, ceq) => ceq.2 = q | (Err _, _) => False | (Panic, _) => True end).
  { unfold screen, st_try, on_engineState. destruct isPoSA; [|done].
    by destruct (posa_ValidateTx _ _ _ _ _) as [[[]|x|] [e1 s1]]. }
  destruct (screen (e, env, q)) as [[[[]|]|x|] [[e1 env1] q1]]; [| |done|done]; simpl in Hs; subst q1; [|simpl; auto].
  unfold mbind at 1, st_bind at 1, on_env at 1, st_modify at 1.
  unfold mbind at 1, st_bind at 1, st_catch, on_env.
  destruct (commitTransaction _ _ _ _ _ _) as [r env2].
  assert (Hn : forall outcome, takes_one q (nextTx outcome (e1, env2, q))).
  { intros outcome. unfold nextTx, on_env, on_queue, st_modify, mbind, st_bind. destruct outcome; simpl; auto.
    repeat case_decide; simpl; auto. }
  destruct r; [apply (Hn (Ok _))|apply (Hn (Err _))|done].
Qed.

(** The loop ends: the pending transactions bound its rounds. *)
Lemma loop_ends interrupt fuel : forall i (e : E) (env : environment St) (q : Q) err,
  (queue_size q < fuel)%nat ->
  fst (commitLoop cfg noBaseFee chain coinbase fuel interrupt i (e, env, q)) <> Err err.
Proof.
  induction fuel as [|fuel IH]; intros i e env q err Hf; [lia|]. cbn [commitLoop].
  destruct (negb _); [done|]. unfold mbind at 1, st_bind at 1, st_get. cbn [fst snd].
  destruct (_ <? _); [done|]. destruct (Peek q) as [tx|] eqn:Hp; [|done].
  unfold mbind at 1, st_bind at 1. pose proof (tryTx_takes tx e env q) as Ht.
  destruct (tryTx _ _ _ _ _ _) as [[u|x|] [[e1 env1] q1]]; [|done|done].
  apply IH. simpl in Ht. destruct (peek_size _ _ Hp). destruct Ht as [->| ->]; lia.
Qed.
End Miner.
