(* ===== verification/Congress.v ===== *)
(** * The Congress engine as the processor and the miner use it
    (consensus/congress/congress.go)

    The methods of [consensus.PoSA], on the engine's caches and its lists. *)

From S2P Require Import StateDB StateIface Prelude Params Types Misc Snapshot Engine Contracts Finalize Upgrade Blacklist.
From S2P Require Import StateTransition Processor StateAgree MinerFacts.
From Stdlib Require Import SpecFloat.

Section Congress.
Context {St : Type} `{Crypto} `{Codec} `{AccountState St} `{VM St} `{TxSigning} `{Bytecode}.
Context `{Cache C Hash Address} `{Cache RC Hash Snapshot} `{SnapshotDB D}.
Context `{Cache BC Hash Blacklist} `{Cache EC Hash (gmap Z EventCheckRule)}.
Local Abbreviation Congress := (CongressEngine RC C D).
Local Abbreviation E := (Congress * Lists BC EC)%type.

Definition on_congress {A} (m : ST (Congress * St) A) : ST (E * St) A := fun es =>
  let '(r, (c, s)) := m (es.1.1, es.2) in (r, ((c, es.1.2), s)).
Definition on_lists {A} (m : ST (Lists BC EC * St) A) : ST (E * St) A := fun es =>
  let '(r, (ls, s)) := m (es.1.2, es.2) in (r, ((es.1.1, ls), s)).

(** [Author]: the coinbase, not the recovered signer. *)
Definition Author (header : Header) : res Address := Ok (Coinbase header).

(** [oob] and [Keccak256Hash] as in [Finalize] and [CanCreate]; the methods
    without access to the engine's fields take its configuration. *)
Definition CongressPoSA (oob : spec_float -> Z) (keccak : list byte -> Hash) (cfg : ChainConfig) (ccfg : CongressConfig)
    : PoSA E St := {|
  isPoSA := true;
  posa_Author := Author;
  posa_PreHandle _ header := on_congress (on_state (PreHandle cfg header));
  posa_IsSysTransaction sender tx header := Ok (IsSysTransaction sender tx header);
  posa_CanCreate s addr height := CanCreate keccak cfg ccfg s addr (Some height);
  posa_ValidateTx chain sender tx header := on_lists (ValidateTx cfg chain sender tx header);
  posa_CreateEvmExtraValidator chain header := on_lists (CreateEvmExtraValidator cfg chain header);
  posa_Finalize chain header txs receipts systemTxs := on_congress (Finalize.Finalize oob chain header txs receipts systemTxs);
|}.

(** ** The engine keeps what the miner and the verifier rely on

    [view] gives the list of the contract in the state of a parent.  An engine is
    ready for the blocks on a parent when its cache answers for the parent with
    that list, now and after every further lookup. *)

Definition congress_ready (view : Hash -> Blacklist) (parent : Hash) (e : E) : Prop :=
  exists I : BC -> Prop, I (blacklists e.2) /\
    forall c, I c -> exists c', cache_get parent c = (Some (view parent), c') /\ I c'.

Definition congress_verdict (view : Hash -> Blacklist) (cfg : ChainConfig) (parent : Hash) (number : option Z)
    (sender : Address) (to : option Address) : res unit :=
  on ← after (RedCoastBlock cfg) number;
  if (on : bool) then fail_if (txDenied (view parent) sender to) ErrAddressDenied else Ok tt.

Lemma ready_hit view cfg chain header (e : E) (s : St) :
  congress_ready view (ParentHash header) e ->
  exists ls, getBlacklist cfg chain header (e.2, s) = (Ok (view (ParentHash header)), (ls, s)) /\
    congress_ready view (ParentHash header) (e.1, ls).
Proof.
  intros (I & HI & Hget). destruct (Hget _ HI) as (c' & Hc & HI').
  exists (mkLists c' (eventCheckRules e.2)). split; [|by exists I].
  unfold getBlacklist, lookupTwice, blacklists_Get, mbind, st_bind. simpl. by rewrite Hc.
Qed.

Lemma congress_validate view oob keccak cfg ccfg chain sender tx h (e : E) (s : St) :
  congress_ready view (ParentHash h) e ->
  exists e', posa_ValidateTx (PoSA := CongressPoSA oob keccak cfg ccfg) chain sender tx h (e, s) =
      (congress_verdict view cfg (ParentHash h) (Number h) sender (TxTo tx), (e', s)) /\
    congress_ready view (ParentHash h) e'.
Proof.
  intros Hr. simpl. unfold on_lists, ValidateTx, congress_verdict. simpl.
  destruct (after (RedCoastBlock cfg) (Number h)) as [[|]|x|] eqn:Ea; unfold mbind, st_bind, st_lift; rewrite ?Ea.
  2-4: by exists e; destruct e as [? [? ?]].
  destruct (ready_hit view cfg chain h e s Hr) as (ls & Hg & Hr'). exists (e.1, ls). split; [|done].
  rewrite Hg. unfold st_fail_if, fail_if, res_bind. by case_if.
Qed.
End Congress.

Definition congress_laws {St C RC D BC EC : Type} `{Crypto} `{Codec} `{AccountState St} `{VM St} `{TxSigning} `{Bytecode}
    `{Cache C Hash Address} `{Cache RC Hash Snapshot} `{SnapshotDB D} `{Cache BC Hash Blacklist}
    `{Cache EC Hash (gmap Z EventCheckRule)} `{!Journal St} `{!Miner.Revertible St} {access : (St -> St) -> Prop}
    `{!JournalLaws St access} (view : Hash -> Blacklist) oob keccak cfg ccfg
    : PoSALaws (CongressEngine RC C D * Lists BC EC) St (H := CongressPoSA oob keccak cfg ccfg).
Proof.
  refine {| posa_ready := congress_ready view; verdict := congress_verdict view cfg |}.
  - intros chain sender tx h e s. apply congress_validate.
  - intros s s' a n Ha. destruct (agree_reads (access:=access) s s' Ha) as (_ & Hslots & _). simpl. unfold CanCreate.
    case_if; [|done]. unfold isDeveloperVerificationEnabled. by rewrite !Hslots.
Defined.
