(* ===== verification/TxQueueProps.v ===== *)
(** * The miner's queue is one list per account

    The queue behaves as the lists of the accounts themselves: the next
    transaction is the best paying first element, taking it advances one
    account. *)

From S2P Require Import Prelude Heap Params Types Misc Snapshot Finalize Processor Miner TxQueue MinerFacts.

Section Queue.
Context `{TxSigning} `{SeenTime}.

Lemma New_queue_ok b (order : list (Address * list Transaction)) :
  NoDup order.*1 -> Forall (fun al => al.2 <> []) order ->
  (forall a tx rest, (a, tx :: rest) ∈ order -> senderOf tx = a -> Forall (fun tx => senderOf tx = a) rest) ->
  exists q, NewTransactionsByPriceAndNonce order b = Ok q /\ queue_wf q /\ baseFee q = b /\
    forall a, queued q a = match (list_to_map order : gmap Address (list Transaction)) !! a with
                           | Some (tx :: rest) => if senderOf tx =? a then payable b (tx :: rest) else []
                           | _ => []
                           end.
Proof.
  intros Hnd Hne Hown. unfold NewTransactionsByPriceAndNonce.
  destruct (collect_ok b order (list_to_map order) []) as (m' & hs & Hrun & Hnd' & Hin & Hother & Hacc & Hm').
  { simpl. by rewrite app_nil_r. }
  { rewrite list.Forall_forall in *. intros [a l] Hal. split; [by apply (Hne _ Hal)|]. by apply elem_of_list_to_map. }
  rewrite Hrun. simpl. destruct (heapInit_ok byPriceAndTime hs) as [Hheap Hperm].
  set (q := mkTxs m' (heapInit byPriceAndTime hs) b).
  assert (Hheads : forall w, w ∈ heads q <-> exists tx rest, (senderOf tx, tx :: rest) ∈ order /\ NewTxWithMinerFee tx b = Ok w).
  { intros w. simpl. rewrite Hperm, Hin. split; [intros [Hw|Hw]; [by apply not_elem_of_nil in Hw|done]|by right]. }
  assert (Hq : queue_wf q).
  { split; simpl; [done|by rewrite Hperm| |].
    - apply list.Forall_forall. intros w Hw. apply Hheads in Hw as (tx & rest & _ & Hw). by rewrite (New_wrapped _ _ _ Hw).
    - intros a l Hl. apply Hm' in Hl as [[Hn Hl]|(tx & Hin' & Hs)]; [|by eapply Hown].
      apply elem_of_list_to_map_2 in Hl. destruct Hn. by apply (list_elem_of_fmap_2 fst _ (a, l)). }
  exists q. split; [done|]. split; [done|]. split; [done|]. intros a.
  assert (Hnone : (forall tx rest, (a, tx :: rest) ∈ order -> senderOf tx = a -> payable b (tx :: rest) = []) -> queued q a = []).
  { intros Hno. unfold queued. destruct (headOf q a) as [w|] eqn:E; [|done]. apply headOf_Some in E as [Hw Ha]; [|done].
    apply Hheads in Hw as (tx & rest & Ho & Hw). rewrite (New_wrapped _ _ _ Hw) in Ha. subst a.
    specialize (Hno tx rest Ho eq_refl). simpl in Hno. by rewrite Hw in Hno. }
  destruct ((list_to_map order : gmap Address (list Transaction)) !! a) as [l|] eqn:El.
  2: { apply Hnone. intros tx rest Ho. apply not_elem_of_list_to_map_2 in El. destruct El.
       by apply (list_elem_of_fmap_2 fst _ (a, tx :: rest)). }
  apply elem_of_list_to_map_2 in El.
  assert (Huniq : forall l', (a, l') ∈ order -> l' = l).
  { intros l' Hl'. apply (elem_of_list_to_map_1 (M := gmap Address)) in Hl', El; [|done..]. congruence. }
  destruct l as [|tx rest]; [rewrite list.Forall_forall in Hne; by destruct (Hne _ El)|].
  destruct (senderOf tx =? a) eqn:Es; bool_Z.
  - unfold payable. destruct (NewTxWithMinerFee tx b) as [w|e|] eqn:Ew.
    + assert (Hw : headOf q a = Some w).
      { apply headOf_Some; [done|]. rewrite (New_wrapped _ _ _ Ew). split; [|done]. apply Hheads. exists tx, rest. by rewrite Es. }
      unfold queued. rewrite Hw, (New_wrapped _ _ _ Ew). f_equal.
      rewrite <- Es in El |- *. simpl. by rewrite (Hacc _ _ _ El Ew).
    + apply Hnone. intros tx' rest' Ho _. specialize (Huniq _ Ho). injection Huniq as -> ->. simpl. by rewrite Ew.
    + apply Hnone. intros tx' rest' Ho _. specialize (Huniq _ Ho). injection Huniq as -> ->. simpl. by rewrite Ew.
  - apply Hnone. intros tx' rest' Ho Hs. specialize (Huniq _ Ho). injection Huniq as -> ->. done.
Qed.

(** The queues the miner gets to: from the first one by the steps it takes after
    a successful peek. *)
Inductive reaches (q0 : TransactionsByPriceAndNonce) : TransactionsByPriceAndNonce -> Prop :=
  | reaches_first : reaches q0 q0
  | reaches_shift q tx : reaches q0 q -> Peek q = Some tx -> reaches q0 (Shift q)
  | reaches_pop q tx : reaches q0 q -> Peek q = Some tx -> reaches q0 (Pop q).

Lemma peek_head q tx : Peek q = Some tx -> exists w hs, heads q = w :: hs /\ tx = wtx w.
Proof. simpl. unfold peekTx. destruct (heads q) as [|w hs]; [done|]. intros [= <-]. eauto. Qed.

Lemma reaches_wf q0 q : queue_wf q0 -> reaches q0 q -> queue_wf q /\ baseFee q = baseFee q0.
Proof.
  intros Hq0. induction 1 as [|q tx _ [Hq Hb] Hp|q tx _ [Hq Hb] Hp]; [done|..];
    destruct (peek_head _ _ Hp) as (w & hs & Hh & _); simpl.
  - destruct (shift_step q w hs Hq Hh) as (q' & Hs & Hw & _). rewrite Hs. split; [done|]. rewrite <- Hb.
    unfold shiftTx, popTx in Hs. rewrite Hh in Hs. repeat (case_match; try done); try (injection Hs as <-; done);
      inv_bind Hs; by injection Hs as <-.
  - destruct (pop_step q w hs Hq Hh) as (q' & Hs & Hw & _). rewrite Hs. split; [done|]. rewrite <- Hb.
    unfold popTx in Hs. inv_bind Hs. by injection Hs as <-.
Qed.

(** What an account still has, against the peeked transaction. *)
Definition pays_less (b : option Z) (tx' tx : Transaction) : Prop :=
  let fee := (EffectiveGasTip tx b).1 in
  let fee' := (EffectiveGasTip tx' b).1 in
  fee' < fee \/ (fee' = fee /\ seenTime tx <= seenTime tx').

Lemma wrapped_fee tx b w : NewTxWithMinerFee tx b = Ok w -> minerFee w = (EffectiveGasTip tx b).1.
Proof. unfold NewTxWithMinerFee. destruct (EffectiveGasTip tx b) as [fee [e|]]; [done|]. by intros [= <-]. Qed.

Lemma peek_best q w hs : queue_wf q -> heads q = w :: hs ->
  (exists rest, queued q (senderOf (wtx w)) = wtx w :: rest) /\
  (forall a tx' rest', queued q a = tx' :: rest' -> pays_less (baseFee q) tx' (wtx w)).
Proof.
  intros Hq Hh. split.
  - exists (default [] (txs q !! senderOf (wtx w))). unfold queued.
    assert (headOf q (senderOf (wtx w)) = Some w) as ->; [|done]. apply headOf_Some; [done|]. rewrite Hh. set_solver.
  - intros a tx' rest'. unfold queued. destruct (headOf q a) as [x|] eqn:E; [|done]. intros [= <- _].
    apply headOf_Some in E as [Hin _]; [|done].
    assert (Hl : byPriceAndTime x w = false) by (eapply (heap_best byPriceAndTime (heads q)); [apply Hq|by rewrite Hh|done]).
    pose proof (queue_fees _ Hq) as Hf. rewrite list.Forall_forall in Hf.
    pose proof (wrapped_fee _ _ _ (Hf x Hin)) as Hx. pose proof (wrapped_fee _ _ _ (Hf w ltac:(rewrite Hh; set_solver))) as Hw.
    unfold pays_less, byPriceAndTime in *. rewrite Hx, Hw in Hl. case_if; bool_Z; lia.
Qed.

(** The number of transactions of all accounts. *)
Definition pendingCount (m : gmap Address (list Transaction)) : nat := sum_list_with (fun al => length al.2) (map_to_list m).

Lemma pending_insert m a tx rest : m !! a = Some (tx :: rest) -> pendingCount m = S (pendingCount (<[a := rest]> m)).
Proof.
  intros Hm. unfold pendingCount. rewrite <- (map_to_list_delete m a _ Hm), <- insert_delete_eq.
  rewrite map_to_list_insert by apply lookup_delete_eq. done.
Qed.

(** One step of the queue, whatever its heads. *)
Lemma queue_step (P : Transaction -> Prop) q tx q' :
  Peek q = Some tx -> q' = Shift q \/ q' = Pop q ->
  (length (heads q') + pendingCount (txs q') < length (heads q) + pendingCount (txs q))%nat /\
  (Forall (fun w => P (wtx w)) (heads q) -> map_Forall (fun _ l => Forall P l) (txs q) ->
   Forall (fun w => P (wtx w)) (heads q') /\ map_Forall (fun _ l => Forall P l) (txs q')).
Proof.
  intros Hp Hq'. destruct (peek_head _ _ Hp) as (w & hs & Hh & ->).
  assert (Hpop : exists l', popTx q = Ok (mkTxs (txs q) l' (baseFee q)) /\ l' ≡ₚ hs).
  { destruct (heapPop_ok byPriceAndTime w hs) as (l' & Hpop & _ & Hperm). exists l'. unfold popTx. by rewrite Hh, Hpop. }
  destruct Hpop as (l' & Hpop & Hperm).
  assert (Hok : forall q', q' = mkTxs (txs q) l' (baseFee q) ->
    (length (heads q') + pendingCount (txs q') < length (heads q) + pendingCount (txs q))%nat /\
    (Forall (fun w => P (wtx w)) (heads q) -> map_Forall (fun _ l => Forall P l) (txs q) ->
     Forall (fun w => P (wtx w)) (heads q') /\ map_Forall (fun _ l => Forall P l) (txs q'))).
  { intros q1 ->. simpl. rewrite Hh, (Permutation_length Hperm). simpl. split; [lia|].
    intros Hf Hm. apply list.Forall_cons in Hf as [_ Hf]. by rewrite Hperm. }
  assert (Hcase : Shift q = mkTxs (txs q) l' (baseFee q) \/ exists tx rest w', txs q !! senderOf (wtx w) = Some (tx :: rest) /\
    NewTxWithMinerFee tx (baseFee q) = Ok w' /\
    Shift q = mkTxs (<[senderOf (wtx w) := rest]> (txs q)) (heapFix byPriceAndTime (w' :: hs) 0) (baseFee q)).
  { simpl. unfold shiftTx. rewrite Hh, Hpop. destruct (txs q !! senderOf (wtx w)) as [[|tx rest]|] eqn:Et; [by left| |by left].
    destruct (NewTxWithMinerFee tx (baseFee q)) as [w'|e|] eqn:Ew; [right; by exists tx, rest, w'|by left..]. }
  destruct Hq' as [->| ->]; [|apply Hok; simpl; by rewrite Hpop].
  destruct Hcase as [Hs|(tx & rest & w' & Et & Ew & Hs)]; [by apply Hok|]. rewrite Hs.
  destruct (heapFix_root byPriceAndTime w hs w') as [_ Hfix]. simpl. rewrite Hh, (Permutation_length Hfix), (pending_insert _ _ _ _ Et).
  simpl. split; [lia|]. intros Hf Hm. apply list.Forall_cons in Hf as [_ Hf].
  assert (Hl := Hm _ _ Et). simpl in Hl. apply list.Forall_cons in Hl as [Htx Hrest]. rewrite Hfix. split.
  - apply list.Forall_cons. by rewrite (New_wrapped _ _ _ Ew).
  - by apply map_Forall_insert_2.
Qed.

#[export] Instance price_queue_laws : TxQueueLaws TransactionsByPriceAndNonce.
Proof.
  refine {|
    queue_size q := (length (heads q) + pendingCount (txs q))%nat;
    queue_all P q := Forall (fun w => P (wtx w)) (heads q) /\ map_Forall (fun _ l => Forall P l) (txs q);
  |}.
  - intros q tx Hp. split; [apply (queue_step (fun _ => True) q tx _ Hp); auto|apply (queue_step (fun _ => True) q tx _ Hp); auto].
  - intros P q tx [Hf _] Hp. destruct (peek_head _ _ Hp) as (w & hs & Hh & ->). rewrite Hh in Hf.
    by apply list.Forall_cons in Hf as [Hf _].
  - intros P q [Hf Hm]. destruct (Peek q) as [tx|] eqn:Hp; [apply (queue_step P q tx _ Hp); auto|].
    simpl in *. unfold peekTx, shiftTx in *. destruct (heads q) eqn:Eh; [|done]. by rewrite Eh.
  - intros P q [Hf Hm]. destruct (Peek q) as [tx|] eqn:Hp; [apply (queue_step P q tx _ Hp); auto|].
    simpl in *. unfold peekTx, popTx, heapPop in *. destruct (heads q) eqn:Eh; [|done]. simpl. by rewrite Eh.
Defined.
End Queue.

(** C35: The miner's queue, with its heap of heads, is one list per account:
    built from the pool's lists (in any order the runtime walks the map) it
    holds each account's transactions from the first on, unless that one cannot
    pay the base fee.  In every queue the miner gets to, [Peek] returns nothing
    only if nothing is left; otherwise the next transaction of its account, and
    none of the other accounts' next ones pays more, or the same having arrived
    earlier; [Shift] advances that account to its next transaction, dropping the
    account if it cannot pay, [Pop] drops the account, and neither panics. *)
Theorem price_queue_refines `{TxSigning} `{SeenTime} (order : list (Address * list Transaction)) b :
  NoDup order.*1 -> Forall (fun al => al.2 <> []) order ->
  (forall a tx rest, (a, tx :: rest) ∈ order -> senderOf tx = a -> Forall (fun tx => senderOf tx = a) rest) ->
  exists q0, NewTransactionsByPriceAndNonce order b = Ok q0 /\
  (forall a, queued q0 a = match (list_to_map order : gmap Address (list Transaction)) !! a with
                           | Some (tx :: rest) => if senderOf tx =? a then payable b (tx :: rest) else []
                           | _ => []
                           end) /\
  forall q, reaches q0 q ->
    match Peek q with
    | None => forall a, queued q a = []
    | Some tx =>
        (exists rest, queued q (senderOf tx) = tx :: rest) /\
        (forall a tx' rest', queued q a = tx' :: rest' -> pays_less b tx' tx) /\
        shiftTx q = Ok (Shift q) /\ popTx q = Ok (Pop q) /\
        (forall a, queued (Shift q) a = if decide (a = senderOf tx) then payable b (tail (queued q a)) else queued q a) /\
        (forall a, queued (Pop q) a = if decide (a = senderOf tx) then [] else queued q a)
    end.
Proof.
  intros Hnd Hne Hown. destruct (New_queue_ok b order Hnd Hne Hown) as (q0 & Hnew & Hq0 & Hb & Hqueued).
  exists q0. split; [done|]. split; [done|]. intros q Hr. destruct (reaches_wf q0 q Hq0 Hr) as [Hq Hbq]. rewrite Hb in Hbq.
  destruct (Peek q) as [tx|] eqn:Hp.
  - destruct (peek_head _ _ Hp) as (w & hs & Hh & ->). destruct (peek_best q w hs Hq Hh) as [Hrest Hbest].
    destruct (shift_step q w hs Hq Hh) as (qs & Hs & _ & Hqs), (pop_step q w hs Hq Hh) as (qp & Hpop & _ & Hqp).
    rewrite <- Hbq. simpl. rewrite Hs, Hpop. by split_and!.
  - simpl in Hp. unfold peekTx in Hp. intros a. unfold queued, headOf. by destruct (heads q).
Qed.
