(* ===== verification/MinerProps.v ===== *)
(** * What the miner and the processor guarantee of a block

    The block the miner fills is the one the processor accepts; the loop of the
    miner ends; the processor sets the engine's own transactions apart. *)

From S2P Require Import StateDB StateFacts StateRevert JournalFacts StateAlike StateIface Prelude Params Misc Snapshot Engine.
From S2P Require Import EngineFacts Finalize FinalizeContext FinalizeProps Blacklist BlacklistFacts Upgrade.
From S2P Require Import Types Contracts StateTransition TransitionFacts TransitionProps Processor Miner StateAgree.
From S2P Require Import BlockFacts MinerFacts Heap TxQueue TxQueueProps Congress.

Section Partition.
Context {E St : Type} `{Crypto} `{AccountState St} `{VM St} `{Machine St} `{MetaCodec} `{TxSigning} `{PoSA E St}.
Variables (cfg : ChainConfig) (noBaseFee : bool) (chain : ChainHeaderReader).

(** Whether the engine takes a transaction for its own. *)
Definition isOwn (header : Header) (tx : Transaction) : bool :=
  isPoSA && match SenderOfTx tx with
            | Ok a => match posa_IsSysTransaction a tx header with Ok b => b | _ => false end
            | _ => false
            end.

(** The running sums of the gas used. *)
Fixpoint cumulative (used : Z) (gas : list Z) : list Z :=
  match gas with
  | [] => []
  | g :: gas => (used +w g) :: cumulative (used +w g) gas
  end.

Lemma screenTx_own header tx (e : E) (b : BlockState St) sys eb :
  screenTx chain header tx (e, b) = (Ok sys, eb) -> sys = isOwn header tx /\ bsUsed eb.2 = bsUsed b.
Proof.
  unfold screenTx, isOwn. destruct isPoSA; [|intros Hrun; by injection Hrun as <- <-].
  intros Hrun. inv_bind Hrun. unfold st_lift in Hm. injection Hm as Hs <-. rewrite Hs. simpl.
  inv_bind Hrun. unfold st_lift in Hm. injection Hm as Hsys <-. rewrite Hsys.
  destruct a0; [by injection Hrun as <- <-|]. inv_bind Hrun. injection Hrun as <- <-. split; [done|].
  unfold on_posa in Hm. destruct (posa_ValidateTx _ _ _ _ _) as [r [e1 s1]]. by injection Hm as _ <-.
Qed.

Lemma wrapTx_ok {S A} i tx (m : ST S A) s a s' : wrapTx i tx m s = (Ok a, s') -> m s = (Ok a, s').
Proof. unfold wrapTx. by destruct (m s) as [[?|?|] ?]. Qed.

Lemma apply_receipt ctx hash msg tx (b : BlockState St) r b' :
  applyTransaction (E:=E) cfg noBaseFee ctx hash msg tx b = (Ok r, b') ->
  bsUsed b' = bsUsed b +w RGasUsed r /\ CumulativeGasUsed r = bsUsed b +w RGasUsed r /\
  RTxHash r = HashOfTx tx /\ BlockHash r = hash.
Proof.
  unfold applyTransaction. destruct (ApplyMessage _ _ _) as [[result|e|] [pool s]]; [|done..].
  destruct (settle cfg ctx s) as [root s']. intros Hrun. by injection Hrun as <- <-.
Qed.

(** When a block's transactions are processed, the engine's own
    transactions are set apart, in order and without a receipt; the others get
    one receipt each, in order, with the transaction's and the block's hash; the
    cumulative gas of the receipts is the running (wrapping) sum of the gas the
    single transactions used, and the last sum is the gas used by the block. *)
Theorem process_partition ctx header i l (e : E) (b : BlockState St) rs sys e' b' :
  processTxs cfg noBaseFee chain ctx header i l (e, b) = (Ok (rs, sys), (e', b')) ->
  rs.*1 = filter (fun tx => isOwn header tx = false) l /\
  sys = filter (fun tx => isOwn header tx = true) l /\
  Forall (fun tr => RTxHash tr.2 = HashOfTx tr.1 /\ BlockHash tr.2 = HeaderHash header) rs /\
  CumulativeGasUsed <$> rs.*2 = cumulative (bsUsed b) (RGasUsed <$> rs.*2) /\
  bsUsed b' = foldl (fun used g => used +w g) (bsUsed b) (RGasUsed <$> rs.*2).
Proof.
  revert i e b rs sys. induction l as [|tx l IH]; intros i e b rs sys Hrun.
  { by injection Hrun as <- <- <- <-. }
  cbn [processTxs] in Hrun. inv_bind Hrun. destruct s as [e1 b1].
  destruct (screenTx_own _ _ _ _ _ _ Hm) as [-> Hu]. cbn [snd] in Hu. rewrite !filter_cons.
  destruct (isOwn header tx); cbn [negb] in *.
  - inv_bind Hrun. destruct a as [rs1 sys1], s as [e2 b2]. injection Hrun as <- <- <- <-. cbn [fst snd].
    destruct (IH _ _ _ _ _ Hm0) as (H1' & H2' & H3' & H4' & H5'). rewrite Hu in H4', H5'.
    rewrite decide_False, decide_True by done. split_and!; [done|by f_equal|done..].
  - inv_bind Hrun. apply wrapTx_ok in Hm0. unfold st_lift in Hm0. injection Hm0 as Hmsg <-.
    inv_bind Hrun. unfold on_block, prepareTx, st_modify in Hm0. injection Hm0 as <- <-.
    inv_bind Hrun. apply wrapTx_ok in Hm0. unfold on_block in Hm0. cbn [fst snd] in Hm0.
    destruct (applyTransaction _ _ _ _ _ _ _) as [r b2] eqn:Ea. injection Hm0 as -> <-.
    destruct (apply_receipt _ _ _ _ _ _ _ Ea) as (A1 & A2 & A3 & A4). cbn [bsUsed] in A1, A2.
    inv_bind Hrun. destruct a1 as [rs1 sys1], s as [e3 b3]. injection Hrun as <- <- <- <-. cbn [fst snd].
    destruct (IH _ _ _ _ _ Hm0) as (H1' & H2' & H3' & H4' & H5'). rewrite A1, Hu in H4', H5'.
    rewrite decide_True, decide_False by done. cbn. rewrite A2, Hu. split_and!; [by f_equal|done| |by f_equal|done].
    by constructor.
Qed.
End Partition.

Section Mined.
Context {E St Q : Type} `{Crypto} `{AccountLaws St} `{!VM St} `{!Machine St} `{!MetaCodec} `{!MetaCodecLaws}
  `{!TxSigning} `{!PoSA E St} `{!Revertible St} `{!TxQueue Q} `{!Replay} `{!Journal St} {access : (St -> St) -> Prop}
  `{!JournalLaws St access} `{!MachineLaws St access} `{!PoSALaws E St} `{!TxQueueLaws Q}.
Variables (cfg : ChainConfig) (noBaseFee : bool) (chain : ChainHeaderReader) (coinbase : Address).

(** C4: The block the miner fills is the block the others compute, provided none
    of the transactions it included is one that verifiers take for the engine's
    own: from the block's coinbase to the governance contract, which the miner
    does not sort out ([process_partition]): when the
    loop of the miner ends on a queue of pending transactions, tried and undone
    in the miner's own state, with the engine's state and the gas pool of failed
    attempts never restored, then anyone who processes the included
    transactions from the same parent state under the sealed header accepts
    each of them and obtains the same receipts (but for the hash of the sealed
    block), the same gas used as in the miner's header, and a state on which
    the next transaction starts alike. *)
Theorem mined_block_processes (header hV : Header) (ctx : BlockContext) (v : option blacklistValidator) (s : St)
    fuel interrupt (e : E) (q : Q) stop e' (env' : environment St) q' (eV : E) :
  (forall f r s v a, RecoverPlain f r s v = Ok a -> journaled a) ->
  same_block header hV -> posa_Author hV = Ok coinbase -> NewEVMBlockContext (E:=E) (St:=St) chain hV None = Ok ctx ->
  GasUsed header = 0 -> is_u64 (GasLimit header) -> stateOk s ->
  posa_ready (ParentHash hV) e -> posa_ready (ParentHash hV) eV -> queue_all tx_ok q ->
  commitTransactions cfg noBaseFee chain coinbase fuel interrupt (e, mkEnvironment s 0 None header [] [] v, q)
    = (Ok stop, (e', env', q')) ->
  Forall (ordinary hV) (env_txs env') ->
  length (env_receipts env') = length (env_txs env') /\
  exists eV' b',
    processTxs cfg noBaseFee chain (withValidator v ctx) hV 0 (env_txs env') (eV, mkBlockState (GasLimit hV) 0 s) =
      (Ok (zip (env_txs env') (locate (HeaderHash hV) <$> env_receipts env'), []), (eV', b')) /\
    bsUsed b' = GasUsed (env_header env') /\ fresh_agree (env_state env') (bsState b').
Proof.
  intros Hsp Hh Ha Hctx Hu Hg Hs He HeV Hq Hrun Hord. unfold commitTransactions in Hrun. inv_bind Hrun.
  unfold on_env, st_modify in Hm. injection Hm as _ <-. cbn [env_gasPool env_state env_tcount env_header env_txs env_receipts env_extraValidator] in Hrun.
  set (env := mkEnvironment s 0 (Some (GasLimit header)) header [] [] v) in *.
  assert (Hstep : in_step hV v env (mkBlockState (GasLimit hV) 0 s)).
  { pose proof (block_gasLimit _ _ Hh) as Hgl. split; cbn; [done| |done| |done].
    - exists (GasLimit header). unfold is_u64, MaxUint64 in *. split; [done|lia].
    - by apply (agree_fresh (access:=access)), (agree_refl (access:=access)). }
  destruct (loop_steps (access:=access) cfg noBaseFee chain coinbase Hsp hV ctx v Ha Hctx interrupt fuel 0 e env q _ stop e' env' q'
    Hstep He Hq Hrun) as (l & rs & Ht & Hr & Hlen & _ & Hver).
  cbn in Ht, Hr. rewrite Ht, Hr in *. split; [done|].
  destruct (Hver eV Hord HeV) as (eV' & b' & _ & [_ _ Hub Hst _] & Hp). exists eV', b'. by rewrite Hub.
Qed.

(** The miner's loop ends: as many rounds as there are pending
    transactions, and one more, are always enough, whatever fails. *)
Theorem commit_terminates interrupt fuel (e : E) (env : environment St) (q : Q) :
  (queue_size q < fuel)%nat ->
  forall err, fst (commitTransactions cfg noBaseFee chain coinbase fuel interrupt (e, env, q)) <> Err err.
Proof.
  intros Hf err. unfold commitTransactions. unfold mbind at 1, st_bind at 1, on_env, st_modify.
  by apply loop_ends.
Qed.
End Mined.

(** ** A block of two transfers, over the state database

    Three transactions are pending: two of account 11, one of account 12, which
    cannot pay; the machine moves the value and uses no gas beyond the
    intrinsic. *)

#[local] Instance mineBackend : Backend := {|
  accountAt a := if a =? 11 then Some (mkAccount 1 1000000 5 StateDB.emptyCodeHash)
                 else if a =? 12 then Some (mkAccount 0 5 5 StateDB.emptyCodeHash) else None;
  trieGet root k := 0;
  snapStorage a k := 0;
  ContractCode h := None;
  Keccak256Hash c := zlen c;
|}.

Definition mineRoot (b : bool) (s : StateDB.StateDB) : Hash * StateDB.StateDB :=
  let s' := Finalise b s in (balanceOf s' 22, s').
Definition mineVMcall (msg : Message) (h : Header) (s : StateDB.StateDB) : res (list byte) * StateDB.StateDB :=
  (Ok [], addBalance (MTo msg) (MValue msg) (subBalance (MFrom msg) (MValue msg) s)).

#[local] Instance mineVM : VM StateDB.StateDB := StateDB_VM mineVMcall mineRoot (fun _ => Ok (StateDB.New true)).

Definition transferVM : TxVM StateDB.StateDB := {|
  EvmCreate from data g v s := (([], 0, Some ErrExecutionReverted), s);
  EvmCall from to data g v s := (([], g, None), addBalance to v (subBalance from v s));
  StateTransition.PrepareAccessList a to al s :=
    match StateDB.PrepareAccessList a to [] (default [] al) s with Ok s => s | _ => s end;
  StateTransition.emptyCodeHash := StateDB.emptyCodeHash;
|}.

#[local] Instance mineMachine : Machine StateDB.StateDB := {| evmFor _ _ _ _ := transferVM; CreateAddress a n := a + n + 1 |}.

#[local] Instance mine_laws : MachineLaws StateDB.StateDB access_setup.
Proof.
  split.
  - intros c0 b0 f0 p0. split.
    + intros from data g v s Hs Hg. simpl. split; [done|lia].
    + intros from to data g v s Hs Hg. split; [|lia]. by apply add_law, sub_law.
    + intros from to al s Hs. apply (access_keeps _ s (prepare_access from to [] (default [] al)) Hs).
    + intros s [_ [_ _ Hr]]. done.
  - intros c0 b0 f0 p0. split.
    + intros from data g v s s' Ha. by split.
    + intros from to data g v s s' Ha. split; [done|].
      apply (agree_add (access:=access_setup)). by apply (agree_sub (access:=access_setup)).
  - intros c0 b0 f0 p0 a to al. apply prepare_access.
  - intros b s s' Ha. pose proof (agree_finalise (access:=access_setup) b s s' Ha) as Hf.
    split; [|exact Hf]. apply (agree_reads (access:=access_setup)) in Hf as [Hb _]. apply Hb.
Qed.

#[local] Existing Instances ledgerMeta ledgerMeta_laws toyCrypto cycleSigning listsCodec.
#[local] Instance mineCode : Bytecode := {| codeOf _ := [] |}.
#[local] Instance mineReplay : Replay := {| Protected _ := true |}.
#[local] Instance mineTime : SeenTime := {| seenTime := TxNonce |}.

Abbreviation MineEngine := (CongressEngine (gmap Z Snapshot) (gmap Z Z) (gmap Z Snapshot) *
  Lists (gmap Z Blacklist) (gmap Z (gmap Z EventCheckRule)))%type.

Definition mineConfig : CongressConfig := mkCongressConfig 3 200 false.
#[local] Instance minePoSA : PoSA MineEngine StateDB.StateDB := CongressPoSA cycleOob zlen toyConfig mineConfig.
#[local] Instance minePoSA_laws : PoSALaws MineEngine StateDB.StateDB :=
  congress_laws (access:=access_setup) listsView cycleOob zlen toyConfig mineConfig.

Definition mineTx (from to nonce price value : Z) : Transaction :=
  legacyTx (Some to) 21000 price nonce value [] (be_encode 20 from).
Definition mineOrder : list (Address * list Transaction) :=
  [(12, [mineTx 12 22 0 9 1]); (11, [mineTx 11 22 1 3 9; mineTx 11 33 2 4 7])].
Definition mineHeader : Header :=
  mkHeader 5 0 33 0 0 0 0 (Some 2) (Some 6) 20000000000 0 200 [] 0 0 (Some 1).
Definition mineSealed : Header := set_GasUsed 42000 (set_Root 16 (set_Extra (be_encode 65 33) mineHeader)).
Definition mineCtx : BlockContext :=
  mkBlockContext (fun n => fst (GetHashFn toyChain mineSealed n [])) 33 6 200 2 (Some 1) 20000000000 None.
Definition mineEngine : MineEngine := (Authorize 33 (New toyConfig mineConfig ∅ ∅ ∅), listsCached).
Definition mineQueue : TransactionsByPriceAndNonce :=
  match NewTransactionsByPriceAndNonce mineOrder (Some 1) with Ok q => q | _ => mkTxs ∅ [] None end.
Definition mineState : StateDB.StateDB := StateDB.New true.

Definition mineRun :=
  commitTransactions toyConfig false toyChain 33 4 (fun _ => 0)
    (mineEngine, mkEnvironment mineState 0 None mineHeader [] [] None, mineQueue).

Lemma price_queue_refines_witness : exists q0, NewTransactionsByPriceAndNonce mineOrder (Some 1) = Ok q0 /\
  queued q0 11 = [mineTx 11 22 1 3 9; mineTx 11 33 2 4 7] /\ Peek q0 = Some (mineTx 12 22 0 9 1) /\
  queued (Shift q0) 12 = [] /\ Peek (Shift q0) = Some (mineTx 11 22 1 3 9).
Proof.
  destruct (price_queue_refines mineOrder (Some 1)) as (q0 & Hq0 & Hqueued & Hsteps).
  - apply (bool_decide_unpack _). vm_compute. reflexivity.
  - by repeat constructor.
  - intros a tx rest Hin Ha. unfold mineOrder in Hin. rewrite !elem_of_cons in Hin. destruct Hin as [Hin|[Hin|Hin]].
    + injection Hin as -> -> ->. constructor.
    + injection Hin as -> -> ->. repeat constructor.
    + by apply not_elem_of_nil in Hin.
  - exists q0. split; [exact Hq0|]. split; [rewrite Hqueued; vm_compute; reflexivity|].
    assert (Hp : Peek q0 = Some (mineTx 12 22 0 9 1)).
    { assert (Hc : NewTransactionsByPriceAndNonce mineOrder (Some 1) = Ok mineQueue) by (vm_compute; reflexivity).
      rewrite Hq0 in Hc. injection Hc as ->. vm_compute. reflexivity. }
    split; [exact Hp|]. specialize (Hsteps q0 (reaches_first q0)). rewrite Hp in Hsteps.
    destruct Hsteps as (_ & _ & _ & _ & Hshift & _). split.
    + rewrite Hshift, Hqueued. vm_compute. reflexivity.
    + assert (Hc : NewTransactionsByPriceAndNonce mineOrder (Some 1) = Ok mineQueue) by (vm_compute; reflexivity).
      rewrite Hq0 in Hc. injection Hc as ->. vm_compute. reflexivity.
Defined.

Lemma commit_terminates_witness : (queue_size mineQueue < 4)%nat /\ fst mineRun <> Err ErrOutOfFuel.
Proof.
  assert (Hf : (queue_size mineQueue < 4)%nat) by (apply (bool_decide_unpack _); vm_compute; reflexivity).
  split; [exact Hf|]. apply commit_terminates. exact Hf.
Defined.

Definition mineEnv : environment StateDB.StateDB := mineRun.2.1.2.
Definition mineVerified := processTxs toyConfig false toyChain (withValidator None mineCtx) mineSealed 0 (env_txs mineEnv)
  (mineEngine, mkBlockState 20000000000 0 mineState).

Lemma mine_tx_ok : queue_all tx_ok mineQueue.
Proof.
  assert (Hok : forall from to nonce price value, from <> 3 -> is_address from -> tx_ok (mineTx from to nonce price value)).
  { intros from to nonce price value Hne Hf. split; [vm_compute; split; [discriminate|reflexivity]|].
    change (forall a, Ok (be_decode (be_encode 20 from)) = Ok a -> a <> 3). rewrite be_decode_encode.
    intros a Ha. injection Ha as <-. unfold is_address in Hf. by rewrite Z.mod_small. }
  assert (Ha : is_address 11 /\ is_address 12) by (vm_compute; repeat split; discriminate).
  split.
  - apply list.Forall_forall. intros w Hw.
    assert (Hh : wtx <$> heads mineQueue = [mineTx 12 22 0 9 1; mineTx 11 22 1 3 9]) by (vm_compute; reflexivity).
    apply (list_elem_of_fmap_2 wtx) in Hw. rewrite Hh, !elem_of_cons in Hw.
    destruct Hw as [->|[->|Hw]]; [apply Hok; [discriminate|apply Ha]..|by apply not_elem_of_nil in Hw].
  - assert (Ht : txs mineQueue = <[12 := []]> (<[11 := [mineTx 11 33 2 4 7]]> ∅)) by (vm_compute; reflexivity).
    rewrite Ht. repeat apply map_Forall_insert_2; [constructor| |apply map_Forall_empty].
    constructor; [apply Hok; [discriminate|apply Ha]|constructor].
Qed.

Lemma mined_block_processes_witness :
  length (env_txs mineEnv) = 2%nat /\ GasUsed (env_header mineEnv) = 42000 /\
  fst mineVerified = Ok (zip (env_txs mineEnv) (locate 7 <$> env_receipts mineEnv), []) /\
  bsUsed mineVerified.2.2 = 42000.
Proof.
  destruct mineRun as [r [[e' env'] q']] eqn:Hrun.
  assert (Hr : r = Ok false) by (apply (f_equal fst) in Hrun; vm_compute in Hrun; by rewrite <- Hrun). subst r.
  assert (He : env' = mineEnv) by (unfold mineEnv; by rewrite Hrun).
  destruct (mined_block_processes toyConfig false toyChain 33 mineHeader mineSealed mineCtx None mineState 4 (fun _ => 0)
    mineEngine mineQueue false e' env' q' mineEngine) as (Hlen & eV' & b' & Hp & Hused & _).
  - intros f r s v a [= <-]. discriminate.
  - by split.
  - reflexivity.
  - reflexivity.
  - reflexivity.
  - vm_compute. split; [discriminate|reflexivity].
  - split; [apply New_valid|apply New_jok].
  - exists (fun c => c = blacklists listsCached). split; [reflexivity|]. intros c ->. eexists. split; reflexivity.
  - exists (fun c => c = blacklists listsCached). split; [reflexivity|]. intros c ->. eexists. split; reflexivity.
  - exact mine_tx_ok.
  - exact Hrun.
  - rewrite He. apply (list.Forall_impl (fun tx => be_decode (TxSig tx) <> 33)).
    + apply (bool_decide_unpack _). vm_compute. reflexivity.
    + intros tx Hne a Ha. injection Ha as <-. apply Z.eqb_neq in Hne. cbn. unfold IsSysTransaction.
      change (Coinbase mineSealed) with 33. rewrite Hne. by destruct (TxTo tx).
  - rewrite He in *. split; [vm_compute; reflexivity|]. split; [vm_compute; reflexivity|].
    assert (Hhash : HeaderHash mineSealed = 7) by (vm_compute; reflexivity). rewrite Hhash in Hp.
    assert (Hlim : GasLimit mineSealed = 20000000000) by reflexivity. rewrite Hlim in Hp.
    unfold mineVerified. rewrite Hp. split; [exact (eq_refl _)|]. cbn [snd]. rewrite Hused. vm_compute. reflexivity.
Defined.

Lemma process_partition_witness : exists rs sys e' b',
  mineVerified = (Ok (rs, sys), (e', b')) /\ rs.*1 = env_txs mineEnv /\ sys = [] /\
  CumulativeGasUsed <$> rs.*2 = [21000; 42000] /\ bsUsed b' = 42000.
Proof.
  destruct mineVerified as [r [e' b']] eqn:Hrun.
  assert (Hr : exists rs sys, r = Ok (rs, sys)).
  { apply (f_equal fst) in Hrun. vm_compute in Hrun. rewrite <- Hrun. by do 2 eexists. }
  destruct Hr as (rs & sys & ->). exists rs, sys, e', b'. split; [exact (eq_refl _)|].
  assert (Hrs : rs = match fst mineVerified with Ok p => p.1 | _ => [] end) by (rewrite Hrun; exact (eq_refl _)).
  unfold mineVerified in Hrun. apply process_partition in Hrun as (H1' & H2' & _ & H4' & H5').
  split; [rewrite H1'; vm_compute; reflexivity|]. split; [rewrite H2'; vm_compute; reflexivity|].
  split; [rewrite H4', Hrs; vm_compute; reflexivity|rewrite H5', Hrs; vm_compute; reflexivity].
Defined.
