(* ===== verification/Parallel.v ===== *)
(** * The parallel state processor (core/parallel_state_processor.go)

    Another way to process the transactions of a block: the engine's own
    transactions are separated first, then the others are applied in batches,
    through a pipeline of three goroutines, or one after the other.  The bloom
    filters are computed by a pool of workers that is waited for; a receipt is
    modelled with its filter set. *)

From S2P Require Import StateDB StateIface Prelude Params Types Misc Snapshot Engine Contracts StateTransition.
From S2P Require Import Finalize Blacklist Processor.

(** The fields of [ParallelProcessorConfig] that steer the processing. *)
Record ParallelProcessorConfig : Type := mkParallelConfig {
  MaxTxConcurrency : Z;
  TxBatchSize : Z;
  EnablePipelining : bool;
  EnableTxBatching : bool;
}.

(** ** A pipeline of three stages

    The first goroutine turns the inputs into messages, the second runs them
    one by one on the state, the third collects the results; they are linked by
    two channels of capacity [cap].  The cancelling of the context, deferred to
    the end, plays no part. *)

Section Pipeline.
Context {T V R S C : Type}.
Variables (validate : T -> V) (execute : V -> S -> R * S) (collect : C -> R -> C) (cap : nat).

Record pipeline : Type := mkPipeline {
  p_todo : list T;            (* stage 1: inputs left *)
  p_hold1 : option V;         (* waiting to be sent *)
  p_ch1 : list V;             (* validationCh *)
  p_closed1 : bool;
  p_state : S;                (* stage 2 *)
  p_hold2 : option R;
  p_ch2 : list R;             (* executionCh *)
  p_closed2 : bool;
  p_acc : C;                  (* stage 3 *)
  p_done : bool;
}.

Definition startPipeline (l : list T) (s : S) (c : C) : pipeline := mkPipeline l None [] false s None [] false c false.

(** The interleavings.  A channel takes an element if it has room, or hands it
    over to a receiver that waits on the empty channel. *)
Inductive pstep : pipeline -> pipeline -> Prop :=
  | step_validate x l ch1 s h2 ch2 c2 c d :
      pstep (mkPipeline (x :: l) None ch1 false s h2 ch2 c2 c d) (mkPipeline l (Some (validate x)) ch1 false s h2 ch2 c2 c d)
  | step_send1 l v ch1 s h2 ch2 c2 c d : (length ch1 < cap)%nat ->
      pstep (mkPipeline l (Some v) ch1 false s h2 ch2 c2 c d) (mkPipeline l None (ch1 ++ [v]) false s h2 ch2 c2 c d)
  | step_hand1 l v s ch2 c d :
      pstep (mkPipeline l (Some v) [] false s None ch2 false c d)
            (mkPipeline l None [] false (execute v s).2 (Some (execute v s).1) ch2 false c d)
  | step_close1 ch1 s h2 ch2 c2 c d :
      pstep (mkPipeline [] None ch1 false s h2 ch2 c2 c d) (mkPipeline [] None ch1 true s h2 ch2 c2 c d)
  | step_recv1 l h1 v ch1 c1 s ch2 c d :
      pstep (mkPipeline l h1 (v :: ch1) c1 s None ch2 false c d)
            (mkPipeline l h1 ch1 c1 (execute v s).2 (Some (execute v s).1) ch2 false c d)
  | step_send2 l h1 ch1 c1 s r ch2 c d : (length ch2 < cap)%nat ->
      pstep (mkPipeline l h1 ch1 c1 s (Some r) ch2 false c d) (mkPipeline l h1 ch1 c1 s None (ch2 ++ [r]) false c d)
  | step_hand2 l h1 ch1 c1 s r c :
      pstep (mkPipeline l h1 ch1 c1 s (Some r) [] false c false) (mkPipeline l h1 ch1 c1 s None [] false (collect c r) false)
  | step_close2 l h1 s ch2 c d :
      pstep (mkPipeline l h1 [] true s None ch2 false c d) (mkPipeline l h1 [] true s None ch2 true c d)
  | step_recv2 l h1 ch1 c1 s h2 r ch2 c2 c :
      pstep (mkPipeline l h1 ch1 c1 s h2 (r :: ch2) c2 c false) (mkPipeline l h1 ch1 c1 s h2 ch2 c2 (collect c r) false)
  | step_finish l h1 ch1 c1 s h2 c :
      pstep (mkPipeline l h1 ch1 c1 s h2 [] true c false) (mkPipeline l h1 ch1 c1 s h2 [] true c true).

(** The stages one after the other. *)
Fixpoint executeAll (l : list V) (s : S) : list R * S :=
  match l with
  | [] => ([], s)
  | v :: l => let '(r, s) := execute v s in let '(rs, s) := executeAll l s in (r :: rs, s)
  end.

Definition inOrder (l : list T) (s : S) (c : C) : C * S :=
  let '(rs, s) := executeAll (validate <$> l) s in (foldl collect c rs, s).
End Pipeline.
Arguments pipeline : clear implicits.

(** ** The processor *)

Section Parallel.
Context {E St : Type} `{Crypto} `{AccountState St} `{VM St} `{Machine St} `{MetaCodec} `{TxSigning} `{PoSA E St}.
Variables (cfg : ChainConfig) (noBaseFee : bool) (chain : ChainHeaderReader) (pcfg : ParallelProcessorConfig).
Variables (ctx : BlockContext) (blockHash : Hash).
Local Abbreviation B := (BlockState St).

(** [separateTransactions] *)
Fixpoint separateTransactions (header : Header) (txs : list Transaction) : res (list Transaction * list Transaction) :=
  match txs with
  | [] => Ok ([], [])
  | tx :: txs =>
      sys ← (if isPoSA then
               sender ← SenderOfTx tx;
               posa_IsSysTransaction sender tx header
             else Ok false);
      rest ← separateTransactions header txs;
      Ok (if (sys : bool) then (rest.1, tx :: rest.2) else (tx :: rest.1, rest.2))
  end.

(** [applyTransactionParallel] *)
Definition applyTransactionParallel (msg : TxMessage) (tx : Transaction) : ST B Receipt := fun b =>
  match ApplyMessage (H0:=evmFor cfg ctx (MsgFrom msg) (MsgGasPrice msg)) (envOf (E:=E) cfg noBaseFee ctx) msg (bsPool b, bsState b) with
  | (Ok result, (pool, s)) =>
      let '(root, s) := if IsByzantium cfg (Some (CtxNumber ctx)) then (None, finalise true s)
                        else let '(root, s) := IntermediateRoot (IsEIP158 cfg (Some (CtxNumber ctx))) s in (Some root, s) in
      let usedGas := bsUsed b +w UsedGas result in
      let logs := GetLogs (HashOfTx tx) s in
      (Ok (mkReceipt (TxType tx) root
             (match ResultErr result with Some _ => ReceiptStatusFailed | None => ReceiptStatusSuccessful end)
             usedGas ((fun l => (l, blockHash)) <$> logs) (CreateBloom logs) (HashOfTx tx)
             (match MsgTo msg with None => Some (CreateAddress (MsgFrom msg) (TxNonce tx)) | Some _ => None end)
             (UsedGas result) blockHash (Some (CtxNumber ctx)) (TxIndex s)),
       mkBlockState pool usedGas s)
  | (Err e, (pool, s)) => (Err e, mkBlockState pool (bsUsed b) s)
  | (Panic, (pool, s)) => (Panic, mkBlockState pool (bsUsed b) s)
  end.

(** [processBatch]: one transaction after the other; messages are made without
    the base fee. *)
Fixpoint processBatch (txs : list Transaction) (i : Z) : ST B (list Receipt * list Log) :=
  match txs with
  | [] => mret ([], [])
  | tx :: txs =>
      msg ← wrapTx i tx (st_lift (AsMessage tx None));
      _ ← prepareTx tx i;
      receipt ← wrapTx i tx (applyTransactionParallel msg tx);
      rest ← processBatch txs (i + 1);
      mret (receipt :: rest.1, (RLogs receipt).*1 ++ rest.2)
  end.

(** A slice expression, and [copy] into a slice. *)
Definition slice {A} (l : list A) (start stop : Z) : res (list A) :=
  if (0 <=? start) && (start <=? stop) && (stop <=? zlen l)
  then Ok (take (Z.to_nat (stop - start)) (drop (Z.to_nat start) l)) else Panic.
Definition copyAt {A} (l : list A) (start : Z) (src : list A) : list A :=
  take (Z.to_nat start) l ++ src ++ drop (Z.to_nat start + length src) l.

(** The loop of [processBatchedTransactions] from batch [i] on. *)
Fixpoint batches (n : nat) (txs : list Transaction) (i : Z) (receipts : list (option Receipt)) (logs : list Log)
    : ST B (list (option Receipt) * list Log) :=
  match n with
  | O => mret (receipts, logs)
  | S n =>
      let start := i * TxBatchSize pcfg in
      let stop := if zlen txs <? start + TxBatchSize pcfg then zlen txs else start + TxBatchSize pcfg in
      batch ← st_lift (slice txs start stop);
      rl ← processBatch batch start;
      batches n txs (i + 1) (copyAt receipts start (Some <$> rl.1)) (logs ++ rl.2)
  end.

(** A batch size of zero divides by zero. *)
Definition processBatchedTransactions (txs : list Transaction) : ST B (list (option Receipt) * list Log) :=
  if TxBatchSize pcfg =? 0 then st_panic else
  let numBatches := Z.quot (zlen txs + TxBatchSize pcfg - 1) (TxBatchSize pcfg) in
  batches (Z.to_nat numBatches) txs 0 (repeat None (length txs)) [].

(** [processSequentialTransactions] has the loop of [processBatch], from zero. *)
Definition processSequentialTransactions (txs : list Transaction) : ST B (list (option Receipt) * list Log) :=
  rl ← processBatch txs 0;
  mret (Some <$> rl.1, rl.2).

(** [txValidationResult], [txExecutionResult]; a panic of a stage is a result like
    an error. *)
Record txValidationResult : Type := mkValidation { v_index : Z; v_tx : Transaction; v_msg : res TxMessage }.
Record txExecutionResult : Type := mkExecution { x_index : Z; x_receipt : res Receipt }.

Definition validateTx (itx : Z * Transaction) : txValidationResult :=
  mkValidation itx.1 itx.2 (AsMessage itx.2 None).

Definition executeTx (v : txValidationResult) (b : B) : txExecutionResult * B :=
  match v_msg v with
  | Ok msg =>
      let b := mkBlockState (bsPool b) (bsUsed b) (statePrepare (HashOfTx (v_tx v)) (v_index v) (bsState b)) in
      let '(r, b) := applyTransactionParallel msg (v_tx v) b in
      (mkExecution (v_index v) r, b)
  | Err e => (mkExecution (v_index v) (Err e), b)
  | Panic => (mkExecution (v_index v) Panic, b)
  end.

(** A failed transaction is logged, nothing more; a panic, in whatever
    goroutine, ends the process. *)
Definition collectTx (acc : res (list (option Receipt) * list Log)) (x : txExecutionResult)
    : res (list (option Receipt) * list Log) :=
  match acc, x_receipt x with
  | Ok rl, Ok receipt => Ok (<[Z.to_nat (x_index x) := Some receipt]> rl.1, rl.2 ++ (RLogs receipt).*1)
  | Ok rl, Err _ => Ok rl
  | _, _ => Panic
  end.

Fixpoint indexed (i : Z) (txs : list Transaction) : list (Z * Transaction) :=
  match txs with
  | [] => []
  | tx :: txs => (i, tx) :: indexed (i + 1) txs
  end.

(** What [processPipelinedTransactions] returns, its stages run in order; that
    every interleaving ends here is [ParallelProps.pipeline_live].  There is no
    error to return; channels of negative capacity panic. *)
Definition processPipelinedTransactions (txs : list Transaction) : ST B (list (option Receipt) * list Log) := fun b =>
  if MaxTxConcurrency pcfg <? 0 then (Panic, b)
  else inOrder validateTx executeTx collectTx (indexed 0 txs) b (Ok (repeat None (length txs), [])).

(** The choice made in [ProcessParallel]. *)
Definition processCommonTxs (txs : list Transaction) : ST B (list (option Receipt) * list Log) :=
  if EnableTxBatching pcfg && (TxBatchSize pcfg <? zlen txs) then processBatchedTransactions txs
  else if EnablePipelining pcfg then processPipelinedTransactions txs
  else processSequentialTransactions txs.
End Parallel.
