(* ===== verification/ParallelProps.v ===== *)
(** * What the parallel processor computes

    The pipeline never blocks and has one outcome; batches, pipeline and the
    plain loop compute the same when no transaction fails; the plain loop is the
    loop of the state processor when the base fee plays no part. *)

From S2P Require Import StateDB StateIface Prelude Params Misc Snapshot Engine EngineFacts Finalize FinalizeProps.
From S2P Require Import TransitionProps Types Contracts StateTransition Blacklist Processor Congress MinerProps Parallel.

(** ** The pipeline *)

Section Pipeline.
Context {T V R S C : Type}.
Variables (validate : T -> V) (execute : V -> S -> R * S) (collect : C -> R -> C) (cap : nat).
Local Abbreviation step := (pstep validate execute collect cap).
Local Abbreviation P := (pipeline T V R S C).

(** What a channel end being closed says. *)
Record pipe_wf (p : P) : Prop := {
  wf_closed1 : p_closed1 p = true -> p_todo p = [] /\ p_hold1 p = None;
  wf_closed2 : p_closed2 p = true -> p_closed1 p = true /\ p_ch1 p = [] /\ p_hold2 p = None;
  wf_done : p_done p = true -> p_closed2 p = true /\ p_ch2 p = [];
}.

(** The outcome still to come: the messages under way, in order. *)
Definition outcome (p : P) : C * S :=
  let '(rs, s) := executeAll execute (p_ch1 p ++ option_list (p_hold1 p) ++ (validate <$> p_todo p)) (p_state p) in
  (foldl collect (p_acc p) (p_ch2 p ++ option_list (p_hold2 p) ++ rs), s).

(** The work left. *)
Definition work (p : P) : nat :=
  (5 * length (p_todo p) + 4 * length (option_list (p_hold1 p)) + 3 * length (p_ch1 p)
   + 2 * length (option_list (p_hold2 p)) + length (p_ch2 p)
   + (if p_closed1 p then 0 else 1) + (if p_closed2 p then 0 else 1) + (if p_done p then 0 else 1))%nat.

Lemma executeAll_cons v l s : executeAll execute (v :: l) s =
  ((execute v s).1 :: (executeAll execute l (execute v s).2).1, (executeAll execute l (execute v s).2).2).
Proof. simpl. destruct (execute v s) as [r s1]. simpl. by destruct (executeAll execute l s1). Qed.

Lemma step_keeps p p' : step p p' -> pipe_wf p -> pipe_wf p' /\ outcome p' = outcome p /\ (work p' < work p)%nat.
Proof.
  intros Hs [H1 H2 H3].
  destruct Hs; cbn in *; (split; [split; cbn; try done; intuition congruence|split; [|unfold work; cbn; rewrite ?length_app; cbn; lia]]);
    unfold outcome, option_list;
    cbn [p_todo p_hold1 p_ch1 p_closed1 p_state p_hold2 p_ch2 p_closed2 p_acc p_done option_rect app fmap list_fmap];
    rewrite <- ?app_assoc; cbn [app]; rewrite ?executeAll_cons; try done; destruct (executeAll _ _ _); cbn; by rewrite ?foldl_app.
Qed.

Lemma step_live p : pipe_wf p -> p_done p = false -> exists p', step p p'.
Proof.
  intros [H1 H2 H3]. destruct p as [l h1 ch1 c1 s h2 ch2 c2 c d]; cbn in *. intros ->.
  destruct ch2 as [|r ch2]; [|eexists; apply step_recv2].
  destruct h2 as [r|].
  { destruct c2; [by destruct (H2 eq_refl) as (_ & _ & ?)|]. eexists. apply step_hand2. }
  destruct c2; [eexists; apply step_finish|].
  destruct ch1 as [|v ch1]; [|eexists; apply step_recv1].
  destruct h1 as [v|]; [destruct c1; [by destruct (H1 eq_refl)|eexists; apply step_hand1]|].
  destruct c1; [eexists; apply step_close2|]. destruct l as [|x l]; eexists; [apply step_close1|apply step_validate].
Qed.

Lemma steps_keep n p p' : nsteps step n p p' -> pipe_wf p ->
  pipe_wf p' /\ outcome p' = outcome p /\ (n + work p' <= work p)%nat.
Proof.
  induction 1 as [p|n p p1 p2 Hs Hrun IH]; intros Hwf; [done|].
  destruct (step_keeps _ _ Hs Hwf) as (Hwf1 & Ho1 & Hw1). destruct (IH Hwf1) as (H1' & H2' & H3').
  split; [done|]. split; [congruence|lia].
Qed.
End Pipeline.

(** C36: The pipeline neither deadlocks nor runs on: for channels of any
    capacity, every run of its three goroutines, however they are scheduled,
    can go on until the last stage has finished, takes at most [5n+3] steps for
    [n] transactions, and ends with the receipts, logs and state the stages
    compute when they run one after the other. *)
Theorem pipeline_live {E St : Type} `{Crypto} `{AccountState St} `{VM St} `{Machine St} `{MetaCodec} `{TxSigning} `{PoSA E St}
    cfg noBaseFee ctx blockHash (pcfg : ParallelProcessorConfig) (txs : list Transaction) (b : BlockState St) n p :
  0 <= MaxTxConcurrency pcfg ->
  let execute := executeTx (E:=E) cfg noBaseFee ctx blockHash in
  let cap := Z.to_nat (MaxTxConcurrency pcfg) in
  nsteps (pstep validateTx execute collectTx cap) n (startPipeline (indexed 0 txs) b (Ok (repeat None (length txs), []))) p ->
  (n <= 5 * length txs + 3)%nat /\
  if p_done p then processPipelinedTransactions (E:=E) cfg noBaseFee pcfg ctx blockHash txs b = (p_acc p, p_state p)
  else exists p', pstep validateTx execute collectTx cap p p'.
Proof.
  intros Hcap execute cap Hrun.
  destruct (steps_keep _ _ _ _ _ _ _ Hrun) as (Hwf & Ho & Hw); [by split|].
  assert (Hlen : forall l i, length (indexed i l) = length l) by (intros l; induction l; intros i; simpl; [done|by f_equal]).
  split. { unfold work, startPipeline in Hw. cbn in Hw. rewrite Hlen in Hw. lia. }
  destruct (p_done p) eqn:Ed; [|by apply step_live].
  unfold processPipelinedTransactions. case_if; bool_Z; [lia|]. change (inOrder _ _ _ _ _ _) with (outcome validateTx execute collectTx
    (startPipeline (indexed 0 txs) b (Ok (repeat None (length txs), [])))).
  rewrite <- Ho. destruct Hwf as [H1' H2' H3']. destruct (H3' Ed) as [Hc2 Hch2]. destruct (H2' Hc2) as (Hc1 & Hch1 & Hh2).
  destruct (H1' Hc1) as [Htodo Hh1]. unfold outcome. by rewrite Htodo, Hh1, Hh2, Hch1, Hch2.
Qed.

(** ** The three ways to process *)

Section Processing.
Context {E St : Type} `{Crypto} `{AccountState St} `{VM St} `{Machine St} `{MetaCodec} `{TxSigning} `{PoSA E St}.
Variables (cfg : ChainConfig) (noBaseFee : bool) (pcfg : ParallelProcessorConfig) (ctx : BlockContext) (blockHash : Hash).
Local Abbreviation B := (BlockState St).
Local Abbreviation apply := (applyTransactionParallel (E:=E) cfg noBaseFee ctx blockHash).
Local Abbreviation batch := (processBatch (E:=E) cfg noBaseFee ctx blockHash).
Local Abbreviation exec := (executeTx (E:=E) cfg noBaseFee ctx blockHash).

(** One transaction as the loop runs it. *)
Definition runOne (tx : Transaction) (i : Z) (b : B) : res Receipt * B :=
  match AsMessage tx None with
  | Ok msg => apply msg tx (mkBlockState (bsPool b) (bsUsed b) (statePrepare (HashOfTx tx) i (bsState b)))
  | Err e => (Err e, b)
  | Panic => (Panic, b)
  end.

Lemma batch_cons tx txs i b : batch (tx :: txs) i b =
  match runOne tx i b with
  | (Ok r, b') => (rest ← batch txs (i + 1); mret (r :: rest.1, (RLogs r).*1 ++ rest.2)) b'
  | (Err e, b') => (Err (txError i (HashOfTx tx) e), b')
  | (Panic, b') => (Panic, b')
  end.
Proof.
  unfold runOne. cbn [processBatch]. unfold mbind at 1, st_bind at 1, wrapTx at 1, st_lift at 1.
  destruct (AsMessage tx None) as [msg|e|]; [|done..]. cbn iota.
  unfold mbind at 1, st_bind at 1, prepareTx at 1, st_modify at 1. cbn iota beta.
  unfold mbind at 1, st_bind at 1, wrapTx at 1. by destruct (apply msg tx _) as [[r|e|] b'].
Qed.

Lemma exec_one tx i b : exec (mkValidation i tx (AsMessage tx None)) b = (mkExecution i (runOne tx i b).1, (runOne tx i b).2).
Proof. unfold executeTx, runOne. simpl. destruct (AsMessage tx None); [|done..]. by destruct (apply _ _ _). Qed.

(** The results of the pipeline's second stage, and their collection. *)
Definition staged (txs : list Transaction) (i : Z) (b : B) : list txExecutionResult * B :=
  executeAll exec (validateTx <$> indexed i txs) b.

Lemma staged_cons tx txs i b : staged (tx :: txs) i b =
  (mkExecution i (runOne tx i b).1 :: (staged txs (i + 1) (runOne tx i b).2).1, (staged txs (i + 1) (runOne tx i b).2).2).
Proof.
  unfold staged. cbn [indexed fmap list_fmap]. rewrite executeAll_cons.
  change (validateTx (i, tx)) with (mkValidation i tx (AsMessage tx None)). by rewrite exec_one.
Qed.

Lemma staged_index txs : forall i b, Forall (fun x => i <= x_index x) (staged txs i b).1.
Proof.
  induction txs as [|tx txs IH]; intros i b; [constructor|]. rewrite staged_cons. constructor; [simpl; lia|].
  eapply list.Forall_impl; [apply IH|]. simpl. lia.
Qed.

Lemma collect_panic xs : foldl collectTx Panic xs = Panic.
Proof. by induction xs. Qed.

(** A slot no later result belongs to stays empty, unless a panic ends it all. *)
Lemma collect_other xs (i : nat) : forall rl, Forall (fun x => Z.of_nat i < x_index x) xs -> rl.1 !! i = Some None ->
  foldl collectTx (Ok rl) xs = Panic \/ exists rl', foldl collectTx (Ok rl) xs = Ok rl' /\ rl'.1 !! i = Some None.
Proof.
  induction xs as [|x xs IH]; intros rl Hx Hi; [right; by exists rl|]. apply list.Forall_cons in Hx as [Hlt Hx]. cbn [foldl].
  unfold collectTx at 2 4. destruct (x_receipt x) as [r|e|]; [|by apply IH|left; apply collect_panic].
  apply IH; [done|]. simpl. rewrite list_lookup_insert_ne by lia. done.
Qed.

Lemma batch_staged txs : forall (i : nat) b pre lg, length pre = i ->
  let all := foldl collectTx (Ok (pre ++ repeat None (length txs), lg)) (staged txs (Z.of_nat i) b).1 in
  match batch txs (Z.of_nat i) b with
  | (Ok rl, b') => all = Ok (pre ++ (Some <$> rl.1), lg ++ rl.2) /\ (staged txs (Z.of_nat i) b).2 = b'
  | (Err e, _) => exists k tx cause, txs !! k = Some tx /\ e = txError (Z.of_nat (i + k)) (HashOfTx tx) cause /\
      (all = Panic \/ exists rl, all = Ok rl /\ rl.1 !! (i + k)%nat = Some None)
  | (Panic, _) => all = Panic
  end.
Proof.
  induction txs as [|tx txs IH]; intros i b pre lg Hi; [simpl; by rewrite !app_nil_r|].
  cbv zeta. rewrite batch_cons, staged_cons. cbn [fst snd foldl].
  destruct (runOne tx (Z.of_nat i) b) as [[r|e|] b']; cbn [fst snd collectTx x_receipt x_index].
  - replace (Z.of_nat i + 1) with (Z.of_nat (S i)) by lia. cbn [repeat length]. rewrite Nat2Z.id.
    assert (Hins : <[i := Some r]> (pre ++ None :: repeat None (length txs)) = (pre ++ [Some r]) ++ repeat None (length txs)).
    { rewrite <- Hi. rewrite insert_app_r_alt, Nat.sub_diag by lia. by rewrite <- app_assoc. }
    rewrite Hins. specialize (IH (S i) b' (pre ++ [Some r]) (lg ++ (RLogs r).*1)). cbv zeta in IH.
    rewrite length_app, Hi in IH. specialize (IH ltac:(simpl; lia)). unfold mbind, st_bind.
    destruct (batch txs (Z.of_nat (S i)) b') as [[rl|x|] b2]; cbn [fst snd].
    + destruct IH as [Hall Hs]. rewrite Hall. simpl. by rewrite <- !app_assoc.
    + destruct IH as (k & tx' & cause & Hk & -> & Hall). exists (S k), tx', cause. split; [done|].
      replace (i + S k)%nat with (S i + k)%nat by lia. done.
    + done.
  - exists 0%nat, tx, e. split; [done|]. rewrite Nat.add_0_r. split; [done|].
    apply (collect_other _ i).
    + eapply list.Forall_impl; [apply staged_index|]. simpl. lia.
    + simpl. rewrite lookup_app_r by lia. by rewrite Hi, Nat.sub_diag.
  - apply collect_panic.
Qed.

(** ** Batches *)

Lemma batch_app l1 : forall l2 i b, batch (l1 ++ l2) i b =
  (rl1 ← batch l1 i; rl2 ← batch l2 (i + zlen l1); mret (rl1.1 ++ rl2.1, rl1.2 ++ rl2.2)) b.
Proof.
  induction l1 as [|tx l1 IH]; intros l2 i b.
  - unfold mbind, st_bind, mret, st_ret. simpl. rewrite Z.add_0_r. by destruct (batch l2 i b) as [[[? ?]|?|] ?].
  - cbn [app]. rewrite batch_cons. unfold mbind at 2, st_bind at 2. rewrite batch_cons.
    destruct (runOne tx i b) as [[r|e|] b']; [|done..]. unfold mbind, st_bind in *. rewrite IH.
    destruct (batch l1 (i + 1) b') as [[rl|e|] b2]; [|done..]. cbn [mret st_ret].
    replace (i + 1 + zlen l1) with (i + zlen (tx :: l1)) by (unfold zlen; simpl; lia).
    destruct (batch l2 _ b2) as [[rl'|e|] b3]; [|done..]. unfold mret, st_ret. cbn [fst snd]. by rewrite <- app_assoc.
Qed.

Lemma batch_length txs : forall i b rl b', batch txs i b = (Ok rl, b') -> length rl.1 = length txs.
Proof.
  induction txs as [|tx txs IH]; intros i b rl b' Hrun; [by injection Hrun as <- _|]. rewrite batch_cons in Hrun.
  destruct (runOne tx i b) as [[r|e|] b1]; [|done..]. inv_bind Hrun. injection Hrun as <- _. simpl. f_equal. by eapply IH.
Qed.

Lemma slice_ok {A} (l : list A) (start n : nat) : (start + n <= length l)%nat ->
  slice l (Z.of_nat start) (Z.of_nat (start + n)) = Ok (take n (drop start l)).
Proof.
  intros Hl. unfold slice, zlen. rewrite (proj2 (Z.leb_le _ _)), (proj2 (Z.leb_le _ _)), (proj2 (Z.leb_le _ _)) by lia.
  cbn [andb]. replace (Z.to_nat (Z.of_nat (start + n) - Z.of_nat start)) with n by lia. by rewrite Nat2Z.id.
Qed.

(** The loop over the batches, from transaction [start] on. *)
Lemma batches_run (size : nat) (txs : list Transaction) : (0 < size)%nat -> TxBatchSize pcfg = Z.of_nat size ->
  forall n k pre lg b, length pre = (k * size)%nat -> (k * size <= length txs)%nat -> (length txs <= (k + n) * size)%nat ->
  (n = 0 \/ (k + n - 1) * size < length txs)%nat ->
  batches (E:=E) cfg noBaseFee pcfg ctx blockHash n txs (Z.of_nat k) (pre ++ repeat None (length txs - k * size)) lg b =
  (rl ← batch (drop (k * size) txs) (Z.of_nat (k * size)); mret (pre ++ (Some <$> rl.1), lg ++ rl.2)) b.
Proof.
  intros Hsize Hcfg n. induction n as [|n IH]; intros k pre lg b Hpre Hk Hn Hn'.
  { rewrite drop_ge by lia. replace (length txs - k * size)%nat with 0%nat by lia. unfold mbind, st_bind, mret, st_ret. simpl. by rewrite !app_nil_r. }
  cbn [batches]. rewrite Hcfg. set (m := Nat.min size (length txs - k * size)).
  replace (Z.of_nat k * Z.of_nat size) with (Z.of_nat (k * size)) by lia.
  replace (if zlen txs <? Z.of_nat (k * size) + Z.of_nat size then zlen txs else Z.of_nat (k * size) + Z.of_nat size)
    with (Z.of_nat (k * size + m)) by (unfold zlen, m; case_if; bool_Z; lia).
  unfold mbind at 1, st_bind at 1, st_lift. rewrite slice_ok by lia. cbn iota beta.
  assert (Hsplit : drop (k * size) txs = take m (drop (k * size) txs) ++ drop (k * size + m) txs)
    by (rewrite <- drop_drop; by rewrite take_drop).
  rewrite Hsplit at 2. unfold mbind at 2, st_bind at 2. rewrite batch_app. unfold mbind, st_bind.
  assert (Hm : length (take m (drop (k * size) txs)) = m) by (rewrite length_take, length_drop; lia).
  destruct (batch (take m (drop (k * size) txs)) (Z.of_nat (k * size)) b) as [[rl|e|] b1] eqn:Erl; [|done..].
  assert (Hlen := batch_length _ _ _ _ _ Erl). rewrite Hm in Hlen. cbn iota beta.
  replace (Z.of_nat (k * size) + zlen (take m (drop (k * size) txs))) with (Z.of_nat (k * size + m)) by (unfold zlen; rewrite Hm; lia).
  assert (Hcopy : copyAt (pre ++ repeat None (length txs - k * size)) (Z.of_nat (k * size)) (Some <$> rl.1)
                  = (pre ++ (Some <$> rl.1)) ++ repeat None (length txs - (k * size + m))).
  { unfold copyAt. rewrite Nat2Z.id, length_fmap, Hlen, <- Hpre, take_app_length, drop_app_ge by lia.
    replace (length pre + m - length pre)%nat with m by lia. rewrite <- app_assoc. do 2 f_equal.
    replace (length txs - length pre)%nat with (m + (length txs - (length pre + m)))%nat by lia.
    rewrite repeat_app, drop_app_ge by (rewrite repeat_length; lia). rewrite repeat_length, Nat.sub_diag. done. }
  rewrite Hcopy. destruct (decide (m = size)) as [Hms|Hms].
  - rewrite Hms in *. replace (Z.of_nat k + 1) with (Z.of_nat (S k)) by lia.
    replace (k * size + size)%nat with (S k * size)%nat by lia. rewrite IH; [|rewrite length_app, length_fmap; lia|lia|lia|].
    2: { destruct n as [|n]; [by left|right]. destruct Hn' as [?|Hn']; [done|]. replace (S k + S n - 1)%nat with (k + S (S n) - 1)%nat by lia. done. }
    unfold mbind, st_bind. destruct (batch (drop (S k * size) txs) _ b1) as [[rl'|e|] b2]; [|done..].
    unfold mret, st_ret. cbn [fst snd]. by rewrite fmap_app, !app_assoc.
  - assert (Hend : (k * size + m = length txs)%nat) by lia. rewrite Hend, drop_ge, Nat.sub_diag by lia. cbn [repeat]. rewrite app_nil_r.
    assert (n = 0)%nat as ->; [|unfold mbind, st_bind, mret, st_ret; cbn; by rewrite !app_nil_r].
    destruct Hn' as [?|Hn']; [done|]. destruct n as [|n]; [done|]. exfalso. nia.
Qed.

(** The batch size does not change the result: for every positive size the
    batches compute what the plain loop computes (receipts, logs, errors with
    their index, panics and state).  A size of zero panics.  A negative size
    skips all the transactions of a block of two or more: no error is returned,
    every receipt is nil, the state is unchanged. *)
Theorem batches_sequential (txs : list Transaction) (b : B) :
  let batched := processBatchedTransactions (E:=E) cfg noBaseFee pcfg ctx blockHash txs b in
  (0 < TxBatchSize pcfg -> batched = processSequentialTransactions (E:=E) cfg noBaseFee ctx blockHash txs b) /\
  (TxBatchSize pcfg = 0 -> batched = (Panic, b)) /\
  (TxBatchSize pcfg < 0 -> (2 <= length txs)%nat -> batched = (Ok (repeat None (length txs), []), b)).
Proof.
  cbv zeta. unfold processBatchedTransactions. split_and!.
  - intros Hs. rewrite (proj2 (Z.eqb_neq _ 0)) by lia.
    set (size := Z.to_nat (TxBatchSize pcfg)). assert (Hcfg : TxBatchSize pcfg = Z.of_nat size) by lia.
    set (n := Z.to_nat _). assert (Hn : (length txs <= n * size)%nat /\ (n = 0 \/ (n - 1) * size < length txs)%nat).
    { unfold n, zlen. rewrite Hcfg. rewrite Z.quot_div_nonneg by lia.
      pose proof (Z.div_mod (Z.of_nat (length txs) + Z.of_nat size - 1) (Z.of_nat size) ltac:(lia)) as Hdm.
      pose proof (Z.mod_pos_bound (Z.of_nat (length txs) + Z.of_nat size - 1) (Z.of_nat size) ltac:(lia)) as Hb.
      pose proof (Z.div_pos (Z.of_nat (length txs) + Z.of_nat size - 1) (Z.of_nat size) ltac:(lia) ltac:(lia)) as Hp.
      set (q := (Z.of_nat (length txs) + Z.of_nat size - 1) / Z.of_nat size) in *. clearbody q.
      split; [nia|]. destruct (decide (q = 0)) as [->|Hq]; [by left|right; nia]. }
    pose proof (batches_run size txs ltac:(lia) Hcfg n 0 [] [] b eq_refl) as Hrun. cbn [app] in Hrun.
    rewrite Nat.mul_0_l, Nat.sub_0_r in Hrun. change (Z.of_nat 0) with 0 in Hrun. rewrite Hrun by lia. unfold processSequentialTransactions, mbind, st_bind, mret, st_ret.
    change (drop 0 txs) with txs. by destruct (batch txs 0 b) as [[rl|e|] b'].
  - intros ->. done.
  - intros Hs Hl. rewrite (proj2 (Z.eqb_neq _ 0)) by lia.
    assert (Hq : Z.to_nat (Z.quot (zlen txs + TxBatchSize pcfg - 1) (TxBatchSize pcfg)) = 0%nat); [|by rewrite Hq].
    set (z := TxBatchSize pcfg) in *. unfold zlen.
    assert (Z.quot (Z.of_nat (length txs) + z - 1) z <= 0); [|lia].
    rewrite <- (Z.opp_involutive z) at 2. rewrite Z.quot_opp_r by lia.
    destruct (Z.le_gt_cases 0 (Z.of_nat (length txs) + z - 1)) as [Hc|Hc].
    + pose proof (Z.quot_pos (Z.of_nat (length txs) + z - 1) (- z) ltac:(lia) ltac:(lia)). lia.
    + replace (Z.of_nat (length txs) + z - 1) with (- (1 - z - Z.of_nat (length txs))) by lia.
      rewrite Z.quot_opp_l, Z.quot_small by lia. lia.
Qed.

(** C37: The pipeline against the plain loop, on the same transactions and
    state.  If the loop processes all transactions, the pipeline returns the
    same receipts, logs and state.  If the loop stops with an error at some
    transaction, the pipeline returns no error: unless a later transaction
    panics it returns receipts in which that transaction's is nil.  If the loop
    panics, so does the pipeline. *)
Theorem pipeline_sequential (txs : list Transaction) (b : B) :
  0 <= MaxTxConcurrency pcfg ->
  let piped := processPipelinedTransactions (E:=E) cfg noBaseFee pcfg ctx blockHash txs b in
  match processSequentialTransactions (E:=E) cfg noBaseFee ctx blockHash txs b with
  | (Ok rl, b') => piped = (Ok rl, b')
  | (Err e, _) => exists k tx cause, txs !! k = Some tx /\ e = txError (Z.of_nat k) (HashOfTx tx) cause /\
      (fst piped = Panic \/ exists rl, fst piped = Ok rl /\ rl.1 !! k = Some None)
  | (Panic, _) => fst piped = Panic
  end.
Proof.
  intros Hcap piped. pose proof (batch_staged txs 0 b [] [] eq_refl) as Hb. cbv zeta in Hb. cbn [app] in Hb.
  change (Z.of_nat 0) with 0 in Hb.
  assert (Hp : piped = (foldl collectTx (Ok (repeat None (length txs), [])) (staged txs 0 b).1, (staged txs 0 b).2)).
  { unfold piped, processPipelinedTransactions, inOrder. rewrite (proj2 (Z.ltb_ge _ _)) by lia.
    unfold staged. by destruct (executeAll _ _ _). }
  rewrite Hp. unfold processSequentialTransactions, mbind, st_bind, mret, st_ret.
  destruct (batch txs 0 b) as [[rl|e|] b']; cbn [fst] in *; [|exact Hb..]. by destruct Hb as [-> ->].
Qed.

(** ** Against the state processor *)

Lemma apply_same msg tx b : apply msg tx b = applyTransaction (E:=E) cfg noBaseFee ctx blockHash msg tx b.
Proof. unfold applyTransactionParallel, applyTransaction, receiptOf, settle. by destruct (ApplyMessage _ _ _) as [[result|e|] [pool s]]. Qed.

(** The base fee plays no part in the price of the transaction. *)
Definition price_fixed (baseFee : option Z) (tx : Transaction) : Prop :=
  match baseFee with None => True | Some f => Z.min (TxGasTipCap tx + f) (TxGasFeeCap tx) = TxGasPrice tx end.

Lemma AsMessage_fixed tx baseFee : price_fixed baseFee tx -> AsMessage tx baseFee = AsMessage tx None.
Proof. unfold AsMessage, price_fixed. destruct baseFee; [|done]. by intros ->. Qed.

(** For an engine without transactions of its own, and transactions whose
    price does not depend on the base fee (legacy transactions, or no base fee),
    the loop of the parallel processor is the loop of the state processor: the
    same receipts for the same transactions, the same logs, the same error with
    the same index, the same state. *)
Theorem parallel_matches_process chain header txs (e : E) (b : B) :
  isPoSA = false -> blockHash = HeaderHash header -> Forall (price_fixed (BaseFee header)) txs ->
  processTxs (E:=E) cfg noBaseFee chain ctx header 0 txs (e, b) =
  match processSequentialTransactions (E:=E) cfg noBaseFee ctx blockHash txs b with
  | (Ok rl, b') => (Ok (zip txs (omap id rl.1), []), (e, b'))
  | (Err x, b') => (Err x, (e, b'))
  | (Panic, b') => (Panic, (e, b'))
  end /\
  forall rl b', processSequentialTransactions (E:=E) cfg noBaseFee ctx blockHash txs b = (Ok rl, b') -> rl.2 = logsOf (omap id rl.1).
Proof.
  intros Hposa Hhash Hprice.
  assert (Homap : forall l : list Receipt, omap id (Some <$> l) = l) by (induction l; csimpl; congruence).
  assert (Hloop : forall l i b, Forall (price_fixed (BaseFee header)) l ->
    processTxs (E:=E) cfg noBaseFee chain ctx header i l (e, b) =
    match batch l i b with
    | (Ok rl, b') => (Ok (zip l rl.1, []), (e, b'))
    | (Err x, b') => (Err x, (e, b'))
    | (Panic, b') => (Panic, (e, b'))
    end).
  { intros l. induction l as [|tx l IH]; intros i b0 Hl; [done|]. apply list.Forall_cons in Hl as [Htx Hl].
    rewrite batch_cons. cbn [processTxs]. unfold mbind at 1, st_bind at 1, screenTx at 1. rewrite Hposa. cbn iota.
    unfold mret at 1, st_ret at 1. cbn iota. unfold mbind at 1, st_bind at 1, wrapTx at 1, st_lift at 1.
    rewrite AsMessage_fixed by done. unfold runOne. destruct (AsMessage tx None) as [msg|x|]; [|done..]. cbn iota.
    unfold mbind at 1, st_bind at 1, on_block at 1, prepareTx at 1, st_modify at 1. cbn [fst snd].
    unfold mbind at 1, st_bind at 1, wrapTx at 1, on_block at 1. cbn [fst snd]. rewrite apply_same, Hhash.
    destruct (applyTransaction _ _ _ _ _ _ _) as [[r|x|] b1]; [|done..]. cbn iota.
    unfold mbind, st_bind. rewrite IH, <- Hhash by done. by destruct (batch l (i + 1) b1) as [[rl|x|] b2]. }
  split.
  - rewrite Hloop by done. unfold processSequentialTransactions, mbind, st_bind, mret, st_ret.
    destruct (batch txs 0 b) as [[rl|x|] b']; cbn [fst snd]; by rewrite ?Homap.
  - intros rl b' Hrun. unfold processSequentialTransactions in Hrun. inv_bind Hrun. injection Hrun as <- <-. cbn [fst snd].
    rewrite Homap. clear Hprice Hloop. revert b s a Hm. generalize 0. induction txs as [|tx l IH]; intros i b0 s a Hm; [by injection Hm as <- _|].
    rewrite batch_cons in Hm. destruct (runOne tx i b0) as [[r|x|] b1]; [|done..]. inv_bind Hm. injection Hm as <- _.
    cbn [fst snd]. unfold logsOf. csimpl. f_equal. by eapply IH.
Qed.
End Processing.

(** ** Three transactions, the second of which cannot pay *)

#[local] Existing Instances mineBackend mineVM mineMachine ledgerMeta toyCrypto cycleSigning.
#[local] Instance noPoSA : PoSA unit StateDB.StateDB := {|
  isPoSA := false;
  posa_Author := Author;
  posa_PreHandle _ _ := mret tt;
  posa_IsSysTransaction _ _ _ := Ok false;
  posa_CanCreate _ _ _ := true;
  posa_ValidateTx _ _ _ _ := mret tt;
  posa_CreateEvmExtraValidator _ _ := mret None;
  posa_Finalize _ h txs rs _ := mret (h, txs, rs);
|}.

Definition parallelTxs : list Transaction := [mineTx 11 22 1 3 9; mineTx 12 22 0 9 1; mineTx 11 33 2 4 7].
Definition parallelStart : BlockState StateDB.StateDB := mkBlockState 20000000000 0 mineState.
Definition parallelConfig (size : Z) : ParallelProcessorConfig := mkParallelConfig 1 size true true.
Definition parallelCtx : BlockContext := mineCtx.

Definition parallelThree : list Transaction := [mineTx 11 22 1 3 9; mineTx 11 33 2 4 7; mineTx 11 22 3 4 7].

Lemma batches_sequential_witness :
  processBatchedTransactions (E:=unit) toyConfig false (parallelConfig 2) parallelCtx 7 parallelThree parallelStart =
  processSequentialTransactions (E:=unit) toyConfig false parallelCtx 7 parallelThree parallelStart.
Proof.
  pose proof (batches_sequential (E:=unit) toyConfig false (parallelConfig 2) parallelCtx 7 parallelThree parallelStart) as Hb.
  cbv zeta in Hb. destruct Hb as [Hb _]. exact (Hb eq_refl).
Defined.

Lemma pipeline_sequential_witness :
  fst (processSequentialTransactions (E:=unit) toyConfig false parallelCtx 7 parallelTxs parallelStart) =
    Err (txError 1 500 ErrInsufficientFunds) /\
  exists rl, fst (processPipelinedTransactions (E:=unit) toyConfig false (parallelConfig 2) parallelCtx 7 parallelTxs parallelStart) = Ok rl /\
    rl.1 !! 1%nat = Some None.
Proof.
  pose proof (pipeline_sequential (E:=unit) toyConfig false (parallelConfig 2) parallelCtx 7 parallelTxs parallelStart
    ltac:(discriminate)) as Hp. cbv zeta in Hp.
  assert (Hs : fst (processSequentialTransactions (E:=unit) toyConfig false parallelCtx 7 parallelTxs parallelStart) =
    Err (txError 1 500 ErrInsufficientFunds)) by (vm_compute; reflexivity).
  split; [exact Hs|].
  destruct (processSequentialTransactions (E:=unit) toyConfig false parallelCtx 7 parallelTxs parallelStart) as [r b'].
  cbn [fst] in Hs. rewrite Hs in Hp. destruct Hp as (k & tx & cause & _ & Hk & Hcase). injection Hk as Hk _.
  assert (k = 1%nat) as -> by lia. destruct Hcase as [Hpanic|Hok]; [|exact Hok].
  exfalso. vm_compute in Hpanic. discriminate.
Defined.

Lemma parallel_matches_process_witness :
  fst (processTxs (E:=unit) toyConfig false toyChain parallelCtx mineSealed 0 [mineTx 11 22 1 3 9; mineTx 11 33 2 4 7] (tt, parallelStart)) =
  Ok (zip [mineTx 11 22 1 3 9; mineTx 11 33 2 4 7]
    (match fst (processSequentialTransactions (E:=unit) toyConfig false parallelCtx 7 [mineTx 11 22 1 3 9; mineTx 11 33 2 4 7] parallelStart) with
     | Ok rl => omap id rl.1 | _ => [] end), []).
Proof.
  destruct (parallel_matches_process (E:=unit) toyConfig false parallelCtx 7 toyChain mineSealed
    [mineTx 11 22 1 3 9; mineTx 11 33 2 4 7] tt parallelStart) as [Heq _].
  - reflexivity.
  - vm_compute. reflexivity.
  - repeat constructor.
  - rewrite Heq. assert (Hok : exists rl, fst (processSequentialTransactions (E:=unit) toyConfig false parallelCtx 7
      [mineTx 11 22 1 3 9; mineTx 11 33 2 4 7] parallelStart) = Ok rl) by (eexists; vm_compute; reflexivity).
    destruct Hok as [rl Hok]. destruct (processSequentialTransactions _ _ _ _ _ _) as [r b']. cbn [fst] in *. by rewrite Hok.
Defined.

Lemma pipeline_live_witness : exists acc b,
  processPipelinedTransactions (E:=unit) toyConfig false (parallelConfig 2) parallelCtx 7 [mineTx 11 22 1 3 9] parallelStart = (acc, b) /\
  bsUsed b = 21000.
Proof.
  edestruct (pipeline_live (E:=unit) toyConfig false parallelCtx 7 (parallelConfig 2) [mineTx 11 22 1 3 9] parallelStart 6) as [_ Hdone].
  - discriminate.
  - eapply nsteps_l; [apply step_validate|]. eapply nsteps_l; [apply step_hand1|]. eapply nsteps_l; [apply step_hand2|].
    eapply nsteps_l; [apply step_close1|]. eapply nsteps_l; [apply step_close2|]. eapply nsteps_l; [apply step_finish|]. apply nsteps_O.
  - cbn iota in Hdone. eexists. eexists. split; [exact Hdone|]. vm_compute. reflexivity.
Defined.
