(* ===== verification/TxSortedMap.v ===== *)
(** * Transactions by nonce ([txSortedMap] of core/tx_list.go)

    The map from nonces to transactions with its heap of nonces and its cached
    sorting.  A nil transaction is [None]. *)

From S2P Require Import Prelude Heap Params Types Misc Snapshot Finalize.

(** The order in which the runtime walks a map, new at every walk. *)
Class MapRange : Type := {
  rangeOf : gmap Z Transaction -> list (Z * Transaction);
  rangeOf_perm : forall m, rangeOf m ≡ₚ map_to_list m;
}.

(** [nonceHeap.Less], [types.TxByNonce.Less] *)
Definition nonceLess (x y : Z) : bool := x <? y.
Definition byNonce (x y : Transaction) : Prop := TxNonce x <= TxNonce y.
#[export] Instance byNonce_dec x y : Decision (byNonce x y) := Z_le_dec (TxNonce x) (TxNonce y).

(** [tx.Cost()] *)
Definition Cost (tx : Transaction) : Z := TxGasPrice tx * TxGas tx + TxValue tx.

Module SortedMap.

Record txSortedMap : Type := mkSorted {
  items : gmap Z Transaction;
  index : list Z;
  cache : option (list Transaction);
}.

Definition newTxSortedMap : txSortedMap := mkSorted ∅ [] None.

Definition Get (nonce : Z) (m : txSortedMap) : option Transaction := items m !! nonce.

Definition Put (tx : Transaction) (m : txSortedMap) : txSortedMap :=
  mkSorted (<[TxNonce tx := tx]> (items m))
    (match items m !! TxNonce tx with Some _ => index m | None => heapPush nonceLess (index m) (TxNonce tx) end)
    None.

(** The loop of [Forward]: pop the heap up to the threshold. *)
Fixpoint forwardLoop (fuel : nat) (threshold : Z) (m : txSortedMap) : res (list (option Transaction) * txSortedMap) :=
  match index m with
  | n0 :: _ =>
      if n0 <? threshold then
        match fuel with
        | O => Err ErrOutOfFuel
        | S fuel =>
            xh ← heapPop nonceLess (index m);
            rest ← forwardLoop fuel threshold (mkSorted (delete xh.1 (items m)) xh.2 (cache m));
            Ok ((items m !! xh.1) :: rest.1, rest.2)
        end
      else Ok ([], m)
  | [] => Ok ([], m)
  end.

Definition Forward (threshold : Z) (m : txSortedMap) : res (list (option Transaction) * txSortedMap) :=
  rm ← forwardLoop (length (index m)) threshold m;
  let '(removed, m) := (rm.1, rm.2) in
  match cache m with
  | None => Ok (removed, m)
  | Some c => if (length c <? length removed)%nat then Panic
              else Ok (removed, mkSorted (items m) (index m) (Some (drop (length removed) c)))
  end.

Definition reheap `{MapRange} (m : txSortedMap) : txSortedMap :=
  mkSorted (items m) (heapInit nonceLess (rangeOf (items m)).*1) None.

(** [filter], without the heap. *)
Definition filterItems `{MapRange} (f : Transaction -> bool) (m : txSortedMap) : list Transaction * txSortedMap :=
  let removed := (base.filter (fun kv => f kv.2 = true) (rangeOf (items m))).*2 in
  (removed, mkSorted (base.filter (fun kv => f kv.2 = false) (items m)) (index m)
              (match removed with [] => cache m | _ => None end)).

(** Two walks over the map. *)
Definition Filter (r1 r2 : MapRange) (f : Transaction -> bool) (m : txSortedMap) : list Transaction * txSortedMap :=
  let '(removed, m) := @filterItems r1 f m in
  (removed, match removed with [] => m | _ => @reheap r2 m end).

(** The loop of [Cap]: from the highest nonce of the sorted index down. *)
Fixpoint capLoop (rounds size : nat) (idx : list Z) (its : gmap Z Transaction) : res (list (option Transaction) * gmap Z Transaction) :=
  match rounds with
  | O => Ok ([], its)
  | S rounds =>
      match idx !! (size - 1)%nat with
      | None => Panic
      | Some nonce =>
          rest ← capLoop rounds (size - 1) idx (delete nonce its);
          Ok ((its !! nonce) :: rest.1, rest.2)
      end
  end.

(** A negative threshold runs off the front of the index. *)
Definition Cap (threshold : Z) (m : txSortedMap) : res (list (option Transaction) * txSortedMap) :=
  if Z.of_nat (size (items m)) <=? threshold then Ok ([], m) else
  if threshold <? 0 then Panic else
  let k := Z.to_nat threshold in
  let idx := merge_sort Z.le (index m) in
  di ← capLoop (size (items m) - k) (size (items m)) idx (items m);
  let '(drops, its) := (di.1, di.2) in
  if (length idx <? k)%nat then Panic else
  let idx := heapInit nonceLess (take k idx) in
  match cache m with
  | None => Ok (drops, mkSorted its idx None)
  | Some c => if (length c <? length drops)%nat then Panic
              else Ok (drops, mkSorted its idx (Some (take (length c - length drops) c)))
  end.

Definition Remove (nonce : Z) (m : txSortedMap) : res (bool * txSortedMap) :=
  match items m !! nonce with
  | None => Ok (false, m)
  | Some _ =>
      idx ← (match list_find (fun n => n = nonce) (index m) with
             | Some (i, _) => xh ← heapRemove nonceLess (index m) i; Ok xh.2
             | None => Ok (index m)
             end);
      Ok (true, mkSorted (delete nonce (items m)) idx None)
  end.

(** The loop of [Ready], [next++] on a 64 bit word. *)
Fixpoint readyLoop (fuel : nat) (next : Z) (m : txSortedMap) : res (list (option Transaction) * txSortedMap) :=
  match index m with
  | n0 :: _ =>
      if n0 =? next then
        match fuel with
        | O => Err ErrOutOfFuel
        | S fuel =>
            xh ← heapPop nonceLess (index m);
            rest ← readyLoop fuel (next +w 1) (mkSorted (delete next (items m)) xh.2 (cache m));
            Ok ((items m !! next) :: rest.1, rest.2)
        end
      else Ok ([], m)
  | [] => Ok ([], m)
  end.

Definition Ready (start : Z) (m : txSortedMap) : res (list (option Transaction) * txSortedMap) :=
  match index m with
  | n0 :: _ =>
      if start <? n0 then Ok ([], m) else
      rm ← readyLoop (length (index m)) n0 m;
      Ok (rm.1, mkSorted (items rm.2) (index rm.2) None)
  | [] => Ok ([], m)
  end.

Definition Len (m : txSortedMap) : Z := Z.of_nat (size (items m)).

Definition flatten `{MapRange} (m : txSortedMap) : list Transaction * txSortedMap :=
  match cache m with
  | Some c => (c, m)
  | None => let c := merge_sort byNonce (rangeOf (items m)).*2 in (c, mkSorted (items m) (index m) (Some c))
  end.

(** [Flatten] copies, so the cache has one owner. *)
Definition Flatten `{MapRange} (m : txSortedMap) : list Transaction * txSortedMap := flatten m.

Definition LastElement `{MapRange} (m : txSortedMap) : res (Transaction * txSortedMap) :=
  let '(c, m) := flatten m in
  match list.last c with Some tx => Ok (tx, m) | None => Panic end.
End SortedMap.
