(* ===== verification/TxList.v ===== *)
(** * The transactions and the next nonce of an account (core/tx_list.go, core/tx_noncer.go)

    The list the pool keeps for an account: the sorted map of [TxSortedMap], the
    caps that bound the costs and the gas of what it holds, and the strictness
    that keeps the nonces of pending transactions contiguous. *)

From S2P Require Import Prelude Heap Params Types Misc Snapshot Finalize TxSortedMap.

Module AccountList.
Import SortedMap.

Record txList : Type := mkList {
  strict : bool;
  txs : txSortedMap;
  costcap : Z;
  gascap : Z;
}.
Definition with_txs (m : txSortedMap) (l : txList) : txList := mkList (strict l) m (costcap l) (gascap l).

Definition newTxList (strict : bool) : txList := mkList strict newTxSortedMap 0 0.

Definition Overlaps (tx : Transaction) (l : txList) : bool :=
  match Get (TxNonce tx) (txs l) with Some _ => true | None => false end.

(** Whether [tx] pays enough to replace [old]. *)
Definition replaces (old tx : Transaction) (priceBump : Z) : bool :=
  if (TxGasFeeCap tx <=? TxGasFeeCap old) || (TxGasTipCap tx <=? TxGasTipCap old) then false else
  let a := 100 + i64 priceBump in
  let thresholdFeeCap := a * TxGasFeeCap old / 100 in
  let thresholdTip := a * TxGasTipCap old / 100 in
  negb ((TxGasFeeCap tx <? thresholdFeeCap) || (TxGasTipCap tx <? thresholdTip)).

Definition Add (tx : Transaction) (priceBump : Z) (l : txList) : (bool * option Transaction) * txList :=
  let old := Get (TxNonce tx) (txs l) in
  if match old with Some o => negb (replaces o tx priceBump) | None => false end then (false, None, l) else
  (true, old, mkList (strict l) (Put tx (txs l))
                (if costcap l <? Cost tx then Cost tx else costcap l)
                (if gascap l <? TxGas tx then TxGas tx else gascap l)).

Definition Forward (threshold : Z) (l : txList) : res (list (option Transaction) * txList) :=
  rm ← SortedMap.Forward threshold (txs l);
  Ok (rm.1, with_txs rm.2 l).

(** [Filter]: the transactions too expensive for the account or too big for a
    block, and, in a strict list, those they make unusable.  The maps are walked
    four times, each in an order of its own. *)
Definition Filter (r1 r2 r3 r4 : MapRange) (costLimit gasLimit : Z) (l : txList)
    : (list Transaction * list Transaction) * txList :=
  if (costcap l <=? costLimit) && (gascap l <=? gasLimit) then ([], [], l) else
  let '(removed, m) := SortedMap.Filter r1 r2 (fun tx => (gasLimit <? TxGas tx) || (costLimit <? Cost tx)) (txs l) in
  match removed with
  | [] => ([], [], mkList (strict l) m costLimit gasLimit)
  | _ =>
      let '(invalids, m) :=
        if strict l then
          let lowest := foldl (fun low tx => if TxNonce tx <? low then TxNonce tx else low) MaxUint64 removed in
          @filterItems r3 (fun tx => lowest <? TxNonce tx) m
        else ([], m) in
      (removed, invalids, mkList (strict l) (@reheap r4 m) costLimit gasLimit)
  end.

Definition Cap (threshold : Z) (l : txList) : res (list (option Transaction) * txList) :=
  rm ← SortedMap.Cap threshold (txs l);
  Ok (rm.1, with_txs rm.2 l).

Definition Remove (r1 r2 : MapRange) (tx : Transaction) (l : txList) : res ((bool * list Transaction) * txList) :=
  rm ← SortedMap.Remove (TxNonce tx) (txs l);
  if negb rm.1 then Ok (false, [], with_txs rm.2 l) else
  if strict l then
    let '(invalids, m) := SortedMap.Filter r1 r2 (fun tx' => TxNonce tx <? TxNonce tx') rm.2 in
    Ok (true, invalids, with_txs m l)
  else Ok (true, [], with_txs rm.2 l).

Definition Ready (start : Z) (l : txList) : res (list (option Transaction) * txList) :=
  rm ← SortedMap.Ready start (txs l);
  Ok (rm.1, with_txs rm.2 l).

Definition Len (l : txList) : Z := SortedMap.Len (txs l).
Definition Empty (l : txList) : bool := Len l =? 0.

Definition Flatten `{MapRange} (l : txList) : list Transaction * txList :=
  let '(c, m) := SortedMap.Flatten (txs l) in (c, with_txs m l).
Definition LastElement `{MapRange} (l : txList) : res (Transaction * txList) :=
  rm ← SortedMap.LastElement (txs l);
  Ok (rm.1, with_txs rm.2 l).
End AccountList.

(** ** The nonces the pool expects (core/tx_noncer.go) *)

Module Noncer.
(** [fallback] reads the nonce of an account in the state the pool runs on. *)
Record txNoncer : Type := mkNoncer {
  fallback : Address -> Z;
  nonces : gmap Address Z;
}.

Definition newTxNoncer (state : Address -> Z) : txNoncer := mkNoncer state ∅.

Definition known (addr : Address) (n : txNoncer) : txNoncer :=
  match nonces n !! addr with
  | Some _ => n
  | None => mkNoncer (fallback n) (<[addr := fallback n addr]> (nonces n))
  end.

Definition get (addr : Address) (n : txNoncer) : Z * txNoncer :=
  let n := known addr n in (default 0 (nonces n !! addr), n).

Definition set (addr : Address) (nonce : Z) (n : txNoncer) : txNoncer :=
  mkNoncer (fallback n) (<[addr := nonce]> (nonces n)).

Definition setIfLower (addr : Address) (nonce : Z) (n : txNoncer) : txNoncer :=
  let n := known addr n in
  if default 0 (nonces n !! addr) <=? nonce then n else set addr nonce n.

Definition setAll (all : gmap Address Z) (n : txNoncer) : txNoncer := mkNoncer (fallback n) all.
End Noncer.
