(* ===== verification/TxListFacts.v ===== *)
(** * The nonce-sorted map is a sorted list (core/tx_list.go)

    The abstract state of [SortedMap.txSortedMap] is the list of its
    transactions by increasing nonce; every operation, with its map walks in
    any order, its heap and its cache, is the obvious one on that list. *)

From S2P Require Import Prelude Heap Params Types Misc Snapshot Finalize TxSortedMap TxList.
Import SortedMap.

#[export] Instance nonce_order : WeakOrder nonceLess.
Proof. unfold nonceLess. split; intros; bool_Z; apply Z.ltb_ge; lia. Qed.

#[export] Instance byNonce_total : Total byNonce.
Proof. intros x y. unfold byNonce. lia. Qed.
#[export] Instance byNonce_trans : Transitive byNonce.
Proof. intros x y z. unfold byNonce. lia. Qed.

(** Filters on lists. *)
Lemma Forall_keep {A} (P Q : A -> Prop) `{!forall x, Decision (Q x)} l : Forall P l -> Forall P (filter Q l).
Proof. induction 1; [constructor|]. rewrite filter_cons. case_decide; [by constructor|done]. Qed.
Lemma filter_none {A} (P : A -> Prop) `{!forall x, Decision (P x)} l : Forall (fun x => ~ P x) l -> filter P l = [].
Proof. induction 1; [done|]. by rewrite filter_cons, decide_False. Qed.
Lemma filter_every {A} (P : A -> Prop) `{!forall x, Decision (P x)} l : Forall P l -> filter P l = l.
Proof. induction 1; [done|]. rewrite filter_cons, decide_True by done. by f_equal. Qed.

Definition incr (l : list Transaction) : Prop := StronglySorted (fun x y => TxNonce x < TxNonce y) l.
Definition map_of (l : list Transaction) : gmap Z Transaction := list_to_map ((fun tx => (TxNonce tx, tx)) <$> l).

Lemma incr_cons x l : incr (x :: l) <-> incr l /\ Forall (fun y => TxNonce x < TxNonce y) l.
Proof. unfold incr. rewrite StronglySorted_cons. tauto. Qed.

Lemma incr_app l1 l2 : incr (l1 ++ l2) -> incr l1 /\ incr l2 /\ forall x y, x ∈ l1 -> y ∈ l2 -> TxNonce x < TxNonce y.
Proof.
  intros Hi. split_and!; [by eapply StronglySorted_app_1_l|by eapply StronglySorted_app_1_r|].
  intros x y Hx Hy. by eapply (StronglySorted_app_1_elem_of (fun x y => TxNonce x < TxNonce y)).
Qed.

Lemma incr_filter (P : Transaction -> Prop) `{!forall x, Decision (P x)} l : incr l -> incr (filter P l).
Proof.
  induction l as [|x l IH]; [done|]. rewrite incr_cons. intros [Hi Hx]. rewrite filter_cons. case_decide; [|auto].
  apply incr_cons. split; [auto|]. by apply Forall_keep.
Qed.

Lemma incr_NoDup l : incr l -> NoDup (TxNonce <$> l).
Proof.
  induction l as [|x l IH]; intros Hi; [constructor|]. apply incr_cons in Hi as [Hi Hx]. apply list.NoDup_cons. split; [|auto].
  intros Hin. apply list_elem_of_fmap in Hin as (y & Hy & Hin). rewrite list.Forall_forall in Hx. specialize (Hx y Hin). lia.
Qed.

(** Two transactions of such a list with the same nonce are the same. *)
Lemma incr_inj l x y : incr l -> x ∈ l -> y ∈ l -> TxNonce x = TxNonce y -> x = y.
Proof.
  intros Hi Hx Hy Hn. apply list_elem_of_lookup in Hx as [i Hx], Hy as [j Hy].
  assert (i = j) as ->; [|congruence]. eapply (NoDup_lookup _ _ _ (TxNonce x) (incr_NoDup l Hi)); rewrite list_lookup_fmap.
  - by rewrite Hx.
  - by rewrite Hy, Hn.
Qed.

Lemma map_of_pairs l : ((fun tx => (TxNonce tx, tx)) <$> l).*1 = TxNonce <$> l.
Proof. induction l as [|x l IH]; [done|]. csimpl. by rewrite IH. Qed.

Lemma lookup_map_of l n tx : incr l -> map_of l !! n = Some tx <-> tx ∈ l /\ TxNonce tx = n.
Proof.
  intros Hi. unfold map_of. rewrite <- elem_of_list_to_map by (rewrite map_of_pairs; by apply incr_NoDup).
  rewrite list_elem_of_fmap. split.
  - intros (y & [= -> ->] & Hy). done.
  - intros [Hin <-]. eauto.
Qed.

Lemma lookup_map_of_None l n : incr l -> map_of l !! n = None <-> n ∉ (TxNonce <$> l).
Proof.
  intros Hi. unfold map_of. rewrite <- map_of_pairs. split; [apply not_elem_of_list_to_map_2|apply not_elem_of_list_to_map_1].
Qed.

(** Maps of this form are equal when they have the same transactions. *)
Lemma map_of_eq M l : incr l -> (forall n tx, M !! n = Some tx <-> tx ∈ l /\ TxNonce tx = n) -> M = map_of l.
Proof. intros Hi HM. apply map_eq. intros n. apply option_eq. intros tx. by rewrite HM, lookup_map_of. Qed.

Lemma map_of_to_list l : incr l -> map_to_list (map_of l) ≡ₚ (fun tx => (TxNonce tx, tx)) <$> l.
Proof. intros Hi. apply map_to_list_to_map. rewrite map_of_pairs. by apply incr_NoDup. Qed.

Lemma size_map_of l : incr l -> size (map_of l) = length l.
Proof. intros Hi. by rewrite <- length_map_to_list, map_of_to_list, length_fmap. Qed.

Lemma map_of_snoc l x : incr (l ++ [x]) -> delete (TxNonce x) (map_of (l ++ [x])) = map_of l /\ map_of (l ++ [x]) !! TxNonce x = Some x.
Proof.
  intros Hi. destruct (incr_app _ _ Hi) as (Hl & _ & Hlt). split.
  - apply map_of_eq; [done|]. intros n tx. rewrite lookup_delete_Some, lookup_map_of, elem_of_app, list_elem_of_singleton by done.
    split; [intros (Hn & [Hin| ->] & Htx); [done|congruence]|]. intros [Hin <-]. split; [|auto].
    specialize (Hlt tx x Hin (list_elem_of_here _ _)). lia.
  - apply lookup_map_of; [done|]. split; [set_solver|done].
Qed.

(** What the map stores, without the cache and with it. *)
Record core (m : txSortedMap) (l : list Transaction) : Prop := {
  core_incr : incr l;
  core_items : items m = map_of l;
  core_heap : heap nonceLess (index m);
  core_index : index m ≡ₚ TxNonce <$> l;
}.
Record repr (m : txSortedMap) (l : list Transaction) : Prop := {
  repr_core : core m l;
  repr_cache : cache m = None \/ cache m = Some l;
  repr_word : Forall (fun tx => is_u64 (TxNonce tx)) l;
}.

Lemma core_size m l : core m l -> size (items m) = length l.
Proof. intros [Hi -> _ _]. by apply size_map_of. Qed.
Lemma core_length m l : core m l -> length (index m) = length l.
Proof. intros [_ _ _ Hp]. by rewrite (Permutation_length Hp), length_fmap. Qed.

(** The heap offers the lowest nonce. *)
Lemma core_head m x l : core m (x :: l) -> exists idx,
  index m = TxNonce x :: idx /\ items m !! TxNonce x = Some x /\
  exists idx', heapPop nonceLess (index m) = Ok (TxNonce x, idx') /\
    forall c, core (mkSorted (delete (TxNonce x) (items m)) idx' c) l.
Proof.
  intros Hc. assert (Hlen := core_length m _ Hc). destruct Hc as [Hi Hit Hh Hp]. destruct (index m) as [|n idx] eqn:E; [done|]. exists idx.
  assert (n = TxNonce x) as ->.
  { apply incr_cons in Hi as [_ Hx]. assert (Hin : n ∈ TxNonce <$> x :: l) by (rewrite <- Hp; apply list_elem_of_here).
    assert (Hb : nonceLess (TxNonce x) n = false).
    { eapply (heap_best nonceLess); [exact Hh|done|]. rewrite Hp. csimpl. apply list_elem_of_here. }
    unfold nonceLess in Hb. bool_Z. csimpl in Hin. apply elem_of_cons in Hin as [->|Hin]; [done|].
    apply list_elem_of_fmap in Hin as (y & -> & Hy). rewrite list.Forall_forall in Hx. specialize (Hx y Hy). lia. }
  split; [done|]. split.
  { rewrite Hit. apply lookup_map_of; [done|]. split; [apply list_elem_of_here|done]. }
  destruct (heapPop_ok nonceLess (TxNonce x) idx) as (idx' & Hpop & Hheap & Hperm). exists idx'. split; [done|]. intros c.
  assert (Hi' := Hi). apply incr_cons in Hi' as [Hl Hx]. split; simpl; [done| |auto|].
  - rewrite Hit. apply map_of_eq; [done|]. intros n tx. rewrite lookup_delete_Some, lookup_map_of, elem_of_cons by done.
    split; [intros (Hn & [->|Hin] & Htx); [congruence|done]|]. intros [Hin <-]. split; [|auto].
    rewrite list.Forall_forall in Hx. specialize (Hx tx Hin). lia.
  - rewrite Hperm. apply (Permutation_cons_inv (a := TxNonce x)). by rewrite Hp.
Qed.

Lemma core_nil m : core m [] -> index m = [].
Proof. intros [_ _ _ Hp]. by apply Permutation_nil_r in Hp. Qed.

(** ** Forward *)

Lemma sorted_low l (t : Z) x : incr (x :: l) -> t <= TxNonce x ->
  filter (fun tx => TxNonce tx < t) (x :: l) = [] /\ filter (fun tx => t <= TxNonce tx) (x :: l) = x :: l.
Proof.
  intros Hi Ht. apply incr_cons in Hi as [_ Hx].
  assert (Hall : Forall (fun tx => t <= TxNonce tx) (x :: l)).
  { constructor; [done|]. eapply list.Forall_impl; [exact Hx|]. simpl. lia. }
  split; [|by apply filter_every].
  apply filter_none. eapply list.Forall_impl; [exact Hall|]. simpl. lia.
Qed.

Lemma forwardLoop_spec t : forall l fuel m, core m l -> (length l <= fuel)%nat -> exists m',
  forwardLoop fuel t m = Ok (Some <$> filter (fun tx => TxNonce tx < t) l, m') /\
  core m' (filter (fun tx => t <= TxNonce tx) l) /\ cache m' = cache m.
Proof.
  induction l as [|x l IH]; intros fuel m Hc Hf.
  { pose proof (core_nil m Hc) as Hn. exists m. destruct fuel; simpl; rewrite Hn; done. }
  destruct (core_head m x l Hc) as (idx & Hidx & Hx & idx' & Hpop & Hnext). assert (Hi := core_incr _ _ Hc).
  destruct (decide (TxNonce x < t)) as [Hlt|Hge].
  - destruct fuel as [|fuel]; [simpl in Hf; lia|]. cbn [forwardLoop]. rewrite Hidx. rewrite (proj2 (Z.ltb_lt _ _)) by done.
    rewrite <- Hidx, Hpop. cbn [mbind res_bind fst snd].
    destruct (IH fuel _ (Hnext (cache m))) as (m' & -> & Hc' & Hcache); [simpl in Hf; lia|]. exists m'. cbn [fst snd].
    rewrite !filter_cons, decide_True, decide_False by lia. rewrite Hx. done.
  - destruct (sorted_low l t x Hi ltac:(lia)) as [-> ->]. exists m.
    destruct fuel; cbn [forwardLoop]; rewrite Hidx, (proj2 (Z.ltb_ge _ _)) by lia; done.
Qed.

Lemma filter_split (t : Z) l : incr l -> l = filter (fun tx => TxNonce tx < t) l ++ filter (fun tx => t <= TxNonce tx) l.
Proof.
  induction l as [|x l IH]; [done|]. intros Hi. destruct (decide (TxNonce x < t)) as [Hlt|Hge].
  - rewrite !filter_cons, decide_True, decide_False by lia. cbn [app]. f_equal. apply IH. by apply incr_cons in Hi as [Hi _].
  - by destruct (sorted_low l t x Hi ltac:(lia)) as [-> ->].
Qed.

Lemma Forward_spec t m l : repr m l -> exists m',
  Forward t m = Ok (Some <$> filter (fun tx => TxNonce tx < t) l, m') /\ repr m' (filter (fun tx => t <= TxNonce tx) l).
Proof.
  intros [Hc Hcache Hw]. assert (Hi := core_incr _ _ Hc). unfold Forward. rewrite (core_length m l Hc).
  destruct (forwardLoop_spec t l (length l) m Hc) as (m' & -> & Hc' & Hsame); [done|]. cbn [mbind res_bind fst snd].
  set (r := filter (fun tx => TxNonce tx < t) l) in *. set (k := filter (fun tx => t <= TxNonce tx) l) in *.
  assert (Hsplit : l = r ++ k) by (by apply filter_split).
  assert (Hwk : Forall (fun tx => is_u64 (TxNonce tx)) k) by (by apply Forall_keep).
  rewrite Hsame, length_fmap. destruct Hcache as [Hca|Hca]; rewrite Hca.
  - exists m'. split; [done|]. split; [done|left; congruence|done].
  - assert (Hlen : (length l <? length r)%nat = false) by (apply Nat.ltb_ge; rewrite Hsplit, length_app; lia). rewrite Hlen.
    eexists. split; [done|]. split; [|right; simpl; f_equal; clearbody r k; rewrite Hsplit; by rewrite drop_app_length|done].
    by destruct Hc'; split.
Qed.

(** ** Put, Remove *)

Definition insertTx (tx : Transaction) (l : list Transaction) : list Transaction :=
  filter (fun y => TxNonce y < TxNonce tx) l ++ tx :: filter (fun y => TxNonce tx < TxNonce y) l.
Definition removeTx (n : Z) (l : list Transaction) : list Transaction := filter (fun y => TxNonce y <> n) l.

Lemma elem_insertTx tx l y : y ∈ insertTx tx l <-> y = tx \/ (y ∈ l /\ TxNonce y <> TxNonce tx).
Proof.
  unfold insertTx. rewrite elem_of_app, elem_of_cons, !list_elem_of_filter. split; [intros [[? ?]|[?|[? ?]]]|intros [?|[? ?]]];
    try (left; done); try (right; split; [done|lia]); [auto|].
  destruct (decide (TxNonce y < TxNonce tx)); [by left|]. right. right. split; [lia|done].
Qed.

Lemma incr_insertTx tx l : incr l -> incr (insertTx tx l).
Proof.
  intros Hi. unfold insertTx. apply StronglySorted_app_2.
  - intros x y Hx Hy. apply list_elem_of_filter in Hx as [Hx _]. apply elem_of_cons in Hy as [->|Hy]; [done|].
    apply list_elem_of_filter in Hy as [Hy _]. lia.
  - by apply incr_filter.
  - apply incr_cons. split; [by apply incr_filter|]. apply list.Forall_forall. intros y Hy. by apply list_elem_of_filter in Hy as [Hy _].
Qed.

Lemma nonces_filter_perm l1 l2 : incr l1 -> incr l2 ->
  (forall n, n ∈ TxNonce <$> l1 <-> n ∈ TxNonce <$> l2) -> TxNonce <$> l1 ≡ₚ TxNonce <$> l2.
Proof. intros H1 H2 Hn. apply NoDup_Permutation; auto using incr_NoDup. Qed.

Lemma Put_spec tx m l : is_u64 (TxNonce tx) -> repr m l -> repr (Put tx m) (insertTx tx l).
Proof.
  intros Hu [[Hi Hit Hh Hp] _ Hw]. split; [|by left|].
  2: { apply list.Forall_forall. intros y Hy. apply elem_insertTx in Hy as [->|[Hy _]]; [done|].
       by apply (proj1 (list.Forall_forall _ _) Hw). }
  assert (Hi' := incr_insertTx tx l Hi). split; simpl; [done| | |].
  - rewrite Hit. apply map_of_eq; [done|]. intros n y. rewrite lookup_insert_Some, lookup_map_of, elem_insertTx by done.
    split; [intros [[<- <-]|[Hn [Hy <-]]]; [auto|split; [right; split; [done|congruence]|done]]|].
    intros [[->|[Hy Hne]] <-]; [by left|right; split; [congruence|done]].
  - destruct (items m !! TxNonce tx); [done|]. by apply (proj1 (heapPush_ok nonceLess _ _)).
  - destruct (items m !! TxNonce tx) as [old|] eqn:E; rewrite Hit in E.
    + apply lookup_map_of in E as [Hold Hn]; [|done]. rewrite Hp. apply nonces_filter_perm; [done|done|].
      intros n. rewrite !list_elem_of_fmap. split; intros (y & -> & Hy).
      * destruct (decide (TxNonce y = TxNonce tx)) as [->|Hne]; [exists tx|exists y]; (split; [done|]); apply elem_insertTx; auto.
      * apply elem_insertTx in Hy as [->|[Hy _]]; eauto.
    + apply lookup_map_of_None in E; [|done]. rewrite (proj2 (heapPush_ok nonceLess _ _)), Hp. symmetry.
      apply NoDup_Permutation; [by apply incr_NoDup|by apply list.NoDup_cons; split; [|apply incr_NoDup]|].
      intros n. rewrite elem_of_cons, !list_elem_of_fmap. split.
      * intros (y & -> & Hy). apply elem_insertTx in Hy as [->|[Hy _]]; eauto.
      * intros [->|(y & -> & Hy)]; [exists tx|exists y]; (split; [done|]); apply elem_insertTx; [by left|right; split; [done|]].
        intros Heq. apply E. rewrite <- Heq. by apply list_elem_of_fmap_2.
Qed.

Lemma Remove_spec n m l : repr m l -> exists m',
  Remove n m = Ok (bool_decide (n ∈ TxNonce <$> l), m') /\ repr m' (removeTx n l).
Proof.
  intros [[Hi Hit Hh Hp] Hcache Hw]. unfold Remove. destruct (items m !! n) as [tx|] eqn:E; rewrite Hit in E.
  - apply lookup_map_of in E as [Hin Hn]; [|done]. assert (Hnin : n ∈ TxNonce <$> l) by (rewrite <- Hn; by apply list_elem_of_fmap_2).
    destruct (list_find (fun k => k = n) (index m)) as [[i k]|] eqn:Ef.
    2: { apply list_find_None in Ef. rewrite <- Hp in Hnin. rewrite list.Forall_forall in Ef. by destruct (Ef n Hnin). }
    apply list_find_Some in Ef as (Hk & -> & _). destruct (heapRemove_ok nonceLess _ _ _ Hk) as (idx & -> & Hheap & Hperm).
    cbn [mbind res_bind fst snd]. eexists. rewrite bool_decide_true by done. split; [done|].
    assert (Hi' : incr (removeTx n l)) by (by apply incr_filter). split; [|by left|by apply Forall_keep]. split; simpl; [done| |auto|].
    + rewrite Hit. apply map_of_eq; [done|]. intros k y. rewrite lookup_delete_Some, lookup_map_of by done. unfold removeTx.
      rewrite list_elem_of_filter. split; [intros (Hne & Hy & <-)|intros [[Hne Hy] <-]]; repeat split; congruence.
    + apply (Permutation_cons_inv (a := n)). rewrite Hperm, Hp.
      apply NoDup_Permutation; [by apply incr_NoDup| |].
      * apply list.NoDup_cons. split; [|by apply incr_NoDup]. rewrite list_elem_of_fmap. intros (y & Hy & Hin').
        apply list_elem_of_filter in Hin' as [Hne _]. congruence.
      * intros k. rewrite elem_of_cons, !list_elem_of_fmap. unfold removeTx. setoid_rewrite list_elem_of_filter. split.
        -- intros (y & -> & Hy). destruct (decide (TxNonce y = n)); [by left|right; eauto].
        -- intros [->|(y & -> & _ & Hy)]; eauto.
  - apply lookup_map_of_None in E; [|done]. exists m. rewrite bool_decide_false by done. split; [done|].
    replace (removeTx n l) with l; [by split|]. symmetry. apply filter_every. apply list.Forall_forall. intros y Hy Heq. apply E.
    rewrite <- Heq. by apply list_elem_of_fmap_2.
Qed.

(** ** Filter *)

Lemma range_values `{MapRange} m l : core m l -> (rangeOf (items m)).*2 ≡ₚ l /\ (rangeOf (items m)).*1 ≡ₚ TxNonce <$> l.
Proof.
  intros [Hi -> _ _]. rewrite rangeOf_perm, map_of_to_list by done. split; [|by rewrite map_of_pairs].
  rewrite <- list_fmap_compose. by rewrite (list_fmap_ext _ id), list_fmap_id by done.
Qed.

Lemma filter_snd {A} (P : A -> Prop) `{!forall x, Decision (P x)} (l : list (Z * A)) :
  (filter (fun kv => P kv.2) l).*2 = filter P l.*2.
Proof. induction l as [|[k x] l IH]; [done|]. rewrite filter_cons. csimpl. rewrite filter_cons. case_decide; csimpl; by rewrite IH. Qed.

Lemma filter_map_of (f : Transaction -> bool) l : incr l ->
  base.filter (fun kv : Z * Transaction => f kv.2 = false) (map_of l) = map_of (filter (fun tx => f tx = false) l).
Proof.
  intros Hi. apply map_of_eq; [by apply incr_filter|]. intros n tx. rewrite map_lookup_filter_Some, lookup_map_of by done.
  rewrite list_elem_of_filter. simpl. tauto.
Qed.

Lemma filterItems_spec `{MapRange} f m l : core m l ->
  (filterItems f m).1 ≡ₚ filter (fun tx => f tx = true) l /\
  items (filterItems f m).2 = map_of (filter (fun tx => f tx = false) l) /\ index (filterItems f m).2 = index m /\
  cache (filterItems f m).2 = match (filterItems f m).1 with [] => cache m | _ => None end.
Proof.
  intros Hc. destruct (range_values m l Hc) as [Hv _]. unfold filterItems. cbn [fst snd items index cache]. split_and!; try done.
  - rewrite <- Hv. by rewrite <- (filter_snd (fun tx => f tx = true) (rangeOf (items m))).
  - rewrite (core_items _ _ Hc). apply filter_map_of, Hc.
Qed.

Lemma reheap_repr `{MapRange} m l : incr l -> items m = map_of l -> Forall (fun tx => is_u64 (TxNonce tx)) l -> repr (reheap m) l.
Proof.
  intros Hi Hit Hw. unfold reheap. destruct (heapInit_ok nonceLess (rangeOf (items m)).*1) as [Hh Hp].
  split; [split|by left|done]; simpl; [done|done|done|]. rewrite Hp, rangeOf_perm, Hit, map_of_to_list by done. by rewrite map_of_pairs.
Qed.

Lemma filter_kept (f : Transaction -> bool) l : filter (fun tx => f tx = true) l = [] -> filter (fun tx => f tx = false) l = l.
Proof.
  intros Hn. apply filter_every, list.Forall_forall. intros x Hx. destruct (f x) eqn:E; [|done].
  assert (Hin : x ∈ filter (fun tx => f tx = true) l) by (by apply list_elem_of_filter). rewrite Hn in Hin. by apply not_elem_of_nil in Hin.
Qed.

Lemma Filter_spec r1 r2 f m l : repr m l ->
  (Filter r1 r2 f m).1 ≡ₚ filter (fun tx => f tx = true) l /\ repr (Filter r1 r2 f m).2 (filter (fun tx => f tx = false) l).
Proof.
  intros [Hc Hcache Hw]. destruct (filterItems_spec (H:=r1) f m l Hc) as (Hrem & Hit & Hidx & Hca). unfold Filter.
  destruct (@filterItems r1 f m) as [removed m1]. cbn [fst snd] in *. split; [done|].
  assert (Hw' : Forall (fun tx => is_u64 (TxNonce tx)) (filter (fun tx => f tx = false) l)) by (by apply Forall_keep).
  destruct removed as [|x removed].
  - apply Permutation_nil_l in Hrem. pose proof (filter_kept f l (eq_sym Hrem)) as Hk. rewrite Hk in *.
    split; [|by rewrite Hca|done]. destruct Hc as [Hi Hit0 Hh Hp]. split; rewrite ?Hidx; done.
  - apply reheap_repr; [by apply incr_filter, Hc|done|done].
Qed.

(** ** Cap *)

Lemma take_S_snoc {A} (l : list A) s x : l !! s = Some x -> take (S s) l = take s l ++ [x].
Proof. apply take_S_r. Qed.

Lemma incr_take l s : incr l -> incr (take s l).
Proof. rewrite <- (take_drop s l) at 1. by intros (Hi & _ & _)%incr_app. Qed.

Lemma capLoop_spec l : incr l -> forall rounds s, (rounds <= s)%nat -> (s <= length l)%nat ->
  capLoop rounds s (TxNonce <$> l) (map_of (take s l)) =
  Ok (Some <$> reverse (drop (s - rounds) (take s l)), map_of (take (s - rounds) l)).
Proof.
  intros Hi rounds. induction rounds as [|rounds IH]; intros s Hr Hs; cbn [capLoop].
  { rewrite Nat.sub_0_r, drop_ge by (rewrite length_take; lia). done. }
  destruct s as [|s]; [lia|]. rewrite Nat.sub_succ, Nat.sub_0_r, list_lookup_fmap.
  destruct (lookup_lt_is_Some_2 l s) as [x Hx]; [lia|]. rewrite Hx. cbn [fmap option_fmap option_map].
  rewrite (take_S_snoc l s x Hx). destruct (map_of_snoc (take s l) x) as [-> ->].
  { rewrite <- take_S_snoc by done. by apply incr_take. }
  rewrite IH by lia. cbn [mbind res_bind fst snd].
  rewrite Nat.sub_succ, drop_app_le by (rewrite length_take; lia). by rewrite reverse_app.
Qed.

Lemma index_sorted m l : core m l -> merge_sort Z.le (index m) = TxNonce <$> l.
Proof.
  intros [Hi _ _ Hp]. apply (Sorted_unique_strong Z.le).
  - intros x y _ _. lia.
  - apply Sorted_merge_sort, _.
  - clear Hp. induction l as [|x l IH]; [constructor|]. apply incr_cons in Hi as [Hi Hx]. csimpl. constructor; [auto|].
    destruct l as [|y l]; constructor. apply list.Forall_cons in Hx as [Hx _]. lia.
  - by rewrite merge_sort_Permutation.
Qed.

Lemma Cap_spec k m l : 0 <= k -> repr m l -> exists m',
  Cap k m = Ok (Some <$> reverse (drop (Z.to_nat k) l), m') /\ repr m' (take (Z.to_nat k) l).
Proof.
  intros Hk [Hc Hcache Hw]. assert (Hi := core_incr _ _ Hc). unfold Cap. rewrite (core_size m l Hc).
  destruct (Z.leb_spec (Z.of_nat (length l)) k) as [Hle|Hgt].
  { exists m. rewrite drop_ge, take_ge by lia. split; [done|by split]. }
  rewrite (proj2 (Z.ltb_ge _ _)) by done. cbv zeta. rewrite (index_sorted m l Hc), length_fmap. set (n := Z.to_nat k).
  assert (Hn : (n < length l)%nat) by (unfold n; lia).
  pose proof (capLoop_spec l Hi (length l - n) (length l) ltac:(lia) ltac:(lia)) as Hloop.
  rewrite (take_ge l (length l)) in Hloop by lia. rewrite (core_items _ _ Hc), Hloop. cbn [mbind res_bind fst snd].
  replace (length l - (length l - n))%nat with n by lia. rewrite (proj2 (Nat.ltb_ge _ _)) by lia.
  rewrite length_fmap, length_reverse, length_drop. replace (length l - (length l - n))%nat with n by lia.
  assert (Hcore : forall c, core (mkSorted (map_of (take n l)) (heapInit nonceLess (take n (TxNonce <$> l))) c) (take n l)).
  { intros c. destruct (heapInit_ok nonceLess (take n (TxNonce <$> l))) as [Hh Hp].
    split; simpl; [by apply incr_take|done|done|]. by rewrite Hp, fmap_take. }
  assert (Hw' : Forall (fun tx => is_u64 (TxNonce tx)) (take n l)) by (by apply Forall_take).
  destruct Hcache as [-> | ->].
  - eexists. split; [done|]. split; [apply Hcore|by left|done].
  - rewrite (proj2 (Nat.ltb_ge _ _)) by lia. replace (length l - (length l - n))%nat with n by lia.
    eexists. split; [done|]. split; [apply Hcore|by right|done].
Qed.

(** ** Ready: the gap-free run at the front *)

Fixpoint runFrom (next : Z) (l : list Transaction) : list Transaction :=
  match l with tx :: l => if TxNonce tx =? next then tx :: runFrom (next + 1) l else [] | [] => [] end.

Definition readyTxs (start : Z) (l : list Transaction) : list Transaction :=
  match l with tx :: _ => if start <? TxNonce tx then [] else runFrom (TxNonce tx) l | [] => [] end.

Lemma readyLoop_spec : forall l fuel next m, core m l -> Forall (fun tx => is_u64 (TxNonce tx)) l -> (length l <= fuel)%nat ->
  Forall (fun tx => next <= TxNonce tx) l -> 0 <= next -> exists m',
  readyLoop fuel (u64 next) m = Ok (Some <$> runFrom next l, m') /\ core m' (drop (length (runFrom next l)) l).
Proof.
  induction l as [|x l IH]; intros fuel next m Hc Hw Hf Hge Hpos.
  { pose proof (core_nil m Hc) as Hn. exists m. destruct fuel; simpl; rewrite Hn; done. }
  destruct (core_head m x l Hc) as (idx & Hidx & Hx & idx' & Hpop & Hnext). assert (Hi := core_incr _ _ Hc).
  apply list.Forall_cons in Hw as [Hwx Hw]. apply list.Forall_cons in Hge as [Hgx Hge]. rewrite (u64_small next) by (unfold is_u64 in *; lia).
  cbn [runFrom]. destruct (Z.eqb_spec (TxNonce x) next) as [Heq|Hne].
  - destruct fuel as [|fuel]; [simpl in Hf; lia|]. cbn [readyLoop]. rewrite Hidx, (proj2 (Z.eqb_eq _ _)) by done.
    rewrite <- Hidx, Hpop. cbn [mbind res_bind fst snd]. rewrite <- Heq, Hx.
    apply incr_cons in Hi as [_ Hlt].
    destruct (IH fuel (TxNonce x + 1) _ (Hnext (cache m))) as (m' & -> & Hc'); [done|simpl in Hf; lia| |lia|].
    + eapply list.Forall_impl; [exact Hlt|]. simpl. lia.
    + exists m'. done.
  - exists m. destruct fuel; cbn [readyLoop]; rewrite Hidx, (proj2 (Z.eqb_neq _ _)) by done; done.
Qed.

Lemma Ready_spec start m l : repr m l -> exists m',
  Ready start m = Ok (Some <$> readyTxs start l, m') /\ repr m' (drop (length (readyTxs start l)) l).
Proof.
  intros [Hc Hcache Hw]. unfold Ready, readyTxs. destruct l as [|x l].
  { rewrite (core_nil m Hc). exists m. by split. }
  destruct (core_head m x l Hc) as (idx & Hidx & _). rewrite Hidx. destruct (Z.ltb_spec start (TxNonce x)) as [Hlt|Hge].
  { exists m. by split. }
  rewrite <- Hidx, (core_length m _ Hc). assert (Hux : is_u64 (TxNonce x)) by (by apply list.Forall_cons in Hw as [? _]).
  destruct (readyLoop_spec (x :: l) (length (x :: l)) (TxNonce x) m Hc Hw) as (m' & Hrun & Hc'); [done| |unfold is_u64 in *; lia|].
  { pose proof (core_incr _ _ Hc) as Hi. apply incr_cons in Hi as [_ Hlt]. constructor; [done|].
    eapply list.Forall_impl; [exact Hlt|]. simpl. lia. }
  rewrite u64_small in Hrun by done. rewrite Hrun. cbn [mbind res_bind fst snd]. eexists. split; [done|].
  split; [by destruct Hc'; split|by left|by apply Forall_drop].
Qed.

(** ** The sorted copy *)

Lemma incr_Sorted l : incr l -> Sorted byNonce l.
Proof.
  induction l as [|x l IH]; intros Hi; [constructor|]. apply incr_cons in Hi as [Hi Hx]. constructor; [auto|].
  destruct l as [|y l]; constructor. apply list.Forall_cons in Hx as [Hx _]. unfold byNonce. lia.
Qed.

Lemma flatten_spec `{MapRange} m l : repr m l -> (flatten m).1 = l /\ repr (flatten m).2 l.
Proof.
  intros [Hc [Hca|Hca] Hw]; unfold flatten; rewrite Hca; [|split; [done|split; auto]].
  assert (Hs : merge_sort byNonce (rangeOf (items m)).*2 = l).
  { destruct (range_values m l Hc) as [Hv _]. apply (Sorted_unique_strong byNonce).
    - intros x y Hx Hy Hxy Hyx. rewrite merge_sort_Permutation, Hv in Hx. apply (incr_inj l); [apply Hc|done|done|unfold byNonce in *; lia].
    - apply Sorted_merge_sort, _.
    - apply incr_Sorted, Hc.
    - by rewrite merge_sort_Permutation. }
  cbn [fst snd]. rewrite Hs. split; [done|]. split; [by destruct Hc; split|by right|done].
Qed.
