(* ===== verification/TxListHolds.v ===== *)
(** * The lists of an account as lists sorted by nonce (core/tx_list.go)

    What the operations of [AccountList] do to the content of a list and to its
    caps, as lemmas for the properties of lists and of the pool. *)

From S2P Require Import Prelude Heap Params Types Misc Snapshot Finalize TxSortedMap TxList TxListFacts.
Import SortedMap AccountList.

Lemma repr_new : repr newTxSortedMap [].
Proof. split; [split; simpl; [constructor|done| |done]|by left|constructor]. intros c Hc. simpl in Hc. lia. Qed.

(** The abstract content of a list; the caps bound every transaction in it. *)
Definition holds (L : txList) (l : list Transaction) : Prop :=
  repr (txs L) l /\ Forall (fun tx => Cost tx <= costcap L /\ TxGas tx <= gascap L) l.

Definition tooDear (costLimit gasLimit : Z) (tx : Transaction) : bool := (gasLimit <? TxGas tx) || (costLimit <? Cost tx).

Fixpoint takeWhile (f : Transaction -> bool) (l : list Transaction) : list Transaction :=
  match l with tx :: l => if f tx then tx :: takeWhile f l else [] | [] => [] end.

Lemma takeWhile_split f l : Forall (fun tx => f tx = true) l /\ takeWhile f l = l \/
  exists d post, l = takeWhile f l ++ d :: post /\ f d = false /\ Forall (fun tx => f tx = true) (takeWhile f l).
Proof.
  induction l as [|x l IH]; [by left|]. simpl. destruct (f x) eqn:E; [|right; by exists x, l].
  destruct IH as [[Ha He]|(d & post & Hl & Hd & Hp)].
  - left. split; [by constructor|by f_equal].
  - right. exists d, post. split; [cbn [app]; by f_equal|]. split; [done|by constructor].
Qed.

Lemma lowest_spec removed (low : Z) : foldl (fun low tx => if TxNonce tx <? low then TxNonce tx else low) low removed =
  foldr Z.min low (TxNonce <$> removed).
Proof.
  revert low. induction removed as [|x l IH]; intros low; [done|]. csimpl. rewrite IH. clear IH.
  induction l as [|y l IH]; csimpl; [case_if; bool_Z; lia|]. rewrite IH. lia.
Qed.

Lemma lowest_first (d : Transaction) post removed : incr (d :: post) -> removed ≡ₚ d :: post -> is_u64 (TxNonce d) ->
  foldl (fun low tx => if TxNonce tx <? low then TxNonce tx else low) MaxUint64 removed = TxNonce d.
Proof.
  intros Hi Hp Hu. rewrite lowest_spec. apply incr_cons in Hi as [_ Hlt].
  assert (Hmin : forall l low, (forall x, x ∈ l -> TxNonce d <= TxNonce x) -> TxNonce d <= low ->
    TxNonce d <= foldr Z.min low (TxNonce <$> l) /\ (d ∈ l -> foldr Z.min low (TxNonce <$> l) <= TxNonce d)).
  { intros l low Hl Hlow. induction l as [|x l IH]; csimpl; [split; [done|by intros ?%not_elem_of_nil]|].
    destruct IH as [IH1 IH2]; [intros y Hy; apply Hl; by apply list_elem_of_further|].
    pose proof (Hl x ltac:(apply list_elem_of_here)). split; [lia|]. intros [->|Hin]%elem_of_cons; [lia|]. specialize (IH2 Hin). lia. }
  destruct (Hmin removed MaxUint64) as [H1' H2'].
  - intros x Hx. rewrite Hp in Hx. apply elem_of_cons in Hx as [->|Hx]; [done|]. rewrite list.Forall_forall in Hlt. specialize (Hlt x Hx). lia.
  - unfold is_u64, MaxUint64 in *. lia.
  - apply Z.le_antisymm; [apply H2'; rewrite Hp; apply list_elem_of_here|done].
Qed.

Lemma filter_bools (f : Transaction -> bool) l :
  filter (fun tx => f tx = true) l ++ filter (fun tx => f tx = false) l ≡ₚ l.
Proof.
  induction l as [|x l IH]; [done|]. rewrite !filter_cons. destruct (f x) eqn:E.
  - rewrite decide_True, decide_False by congruence. cbn [app]. by rewrite IH.
  - rewrite decide_False, decide_True by congruence. by rewrite <- Permutation_middle, IH.
Qed.

Lemma repr_incr m l : repr m l -> incr l.
Proof. by intros [[Hi _ _ _] _ _]. Qed.

(** What stays after [Filter]: in strict mode the part before the first that is
    too dear. *)
Definition keptTxs (strict : bool) (f : Transaction -> bool) (l : list Transaction) : list Transaction :=
  if strict then takeWhile (fun tx => negb (f tx)) l else filter (fun tx => f tx = false) l.

Lemma strict_filter (r3 : MapRange) f m m' l removed :
  repr m' (filter (fun tx => f tx = false) l) -> incr l -> Forall (fun tx => is_u64 (TxNonce tx)) l ->
  removed ≡ₚ filter (fun tx => f tx = true) l -> removed <> [] ->
  (let lowest := foldl (fun low tx => if TxNonce tx <? low then TxNonce tx else low) MaxUint64 removed in
   @filterItems r3 (fun tx => lowest <? TxNonce tx) m') = m ->
  items m.2 = map_of (takeWhile (fun tx => negb (f tx)) l) /\ removed ++ m.1 ≡ₚ drop (length (takeWhile (fun tx => negb (f tx)) l)) l.
Proof.
  intros Hr Hi Hu Hp Hne <-. pose proof (takeWhile_split (fun tx => negb (f tx)) l) as Hs. set (pre := takeWhile (fun tx => negb (f tx)) l) in *.
  destruct Hs as [[Hall _]|(d & post & Hl & Hd & Hpre)].
  { destruct Hne. apply Permutation_nil_r. rewrite Hp. rewrite filter_none; [done|]. eapply list.Forall_impl; [exact Hall|].
    intros x Hx. simpl in Hx. by destruct (f x). }
  clearbody pre. apply negb_false_iff in Hd. rewrite Hl in Hi. destruct (incr_app _ _ Hi) as (_ & Hi2 & Hlt).
  assert (Hpt : filter (fun tx => f tx = true) pre = []).
  { apply filter_none. eapply list.Forall_impl; [exact Hpre|]. intros x Hx. simpl in Hx. by destruct (f x). }
  assert (Hpf : filter (fun tx => f tx = false) pre = pre).
  { apply filter_every. eapply list.Forall_impl; [exact Hpre|]. intros x Hx. simpl in Hx. by destruct (f x). }
  assert (Ht : filter (fun tx => f tx = true) l = d :: filter (fun tx => f tx = true) post).
  { rewrite Hl, list.filter_app, Hpt, filter_cons. by rewrite decide_True. }
  assert (Hf : filter (fun tx => f tx = false) l = pre ++ filter (fun tx => f tx = false) post).
  { rewrite Hl, list.filter_app, Hpf, filter_cons. by rewrite decide_False by congruence. }
  rewrite Ht in Hp. apply incr_cons in Hi2 as [Hi2 Hdlt].
  assert (Hlow : foldl (fun low tx => if TxNonce tx <? low then TxNonce tx else low) MaxUint64 removed = TxNonce d).
  { eapply lowest_first; [|exact Hp|].
    - apply incr_cons. split; [by apply incr_filter|by apply Forall_keep].
    - rewrite list.Forall_forall in Hu. apply Hu. rewrite Hl. set_solver. }
  cbv zeta. rewrite Hlow. destruct (filterItems_spec (H:=r3) (fun tx => TxNonce d <? TxNonce tx) m' _ (repr_core _ _ Hr)) as (Hinv & Hit & _ & _).
  assert (Hlo : Forall (fun tx => (TxNonce d <? TxNonce tx) = false) pre).
  { apply list.Forall_forall. intros x Hx. apply Z.ltb_ge. specialize (Hlt x d Hx (list_elem_of_here _ _)). lia. }
  assert (Hhi : Forall (fun tx => (TxNonce d <? TxNonce tx) = true) (filter (fun tx => f tx = false) post)).
  { apply Forall_keep. eapply list.Forall_impl; [exact Hdlt|]. intros x Hx. by apply Z.ltb_lt. }
  rewrite Hf, list.filter_app in Hinv, Hit. split.
  - rewrite Hit. f_equal. rewrite (filter_every _ pre) by done. rewrite filter_none; [by rewrite app_nil_r|].
    eapply list.Forall_impl; [exact Hhi|]. intros x Hx. simpl in Hx. congruence.
  - rewrite Hinv, Hp. rewrite (filter_none _ pre), (filter_every _ (filter _ post)) by
      (done || (eapply list.Forall_impl; [exact Hlo|]; intros x Hx; simpl in Hx; congruence)).
    rewrite Hl, drop_app_length. cbn [app]. constructor. apply filter_bools.
Qed.

Lemma takeWhile_incr f l : incr l -> incr (takeWhile f l).
Proof.
  destruct (takeWhile_split f l) as [[_ ->]|(d & post & Hl & _)]; [done|]. rewrite Hl at 1. by intros (Hi & _)%incr_app.
Qed.
Lemma takeWhile_Forall (P : Transaction -> Prop) f l : Forall P l -> Forall P (takeWhile f l).
Proof.
  destruct (takeWhile_split f l) as [[_ ->]|(d & post & Hl & _)]; [done|]. rewrite Hl at 1. by intros (Hi & _)%Forall_app.
Qed.

Lemma kept_all strict f l : Forall (fun tx => f tx = false) l -> keptTxs strict f l = l.
Proof.
  intros Hf. unfold keptTxs. destruct strict; [|by apply filter_every].
  destruct (takeWhile_split (fun tx => negb (f tx)) l) as [[_ ->]|(d & post & Hl & Hd & _)]; [done|].
  rewrite list.Forall_forall in Hf. rewrite (Hf d) in Hd; [done|]. rewrite Hl. set_solver.
Qed.

Lemma kept_cheap strict f l : Forall (fun tx => f tx = false) (keptTxs strict f l).
Proof.
  unfold keptTxs. destruct strict.
  - destruct (takeWhile_split (fun tx => negb (f tx)) l) as [[Ha ->]|(d & post & _ & _ & Ha)];
      (eapply list.Forall_impl; [exact Ha|]; intros x Hx; simpl in Hx; by destruct (f x)).
  - apply list.Forall_forall. by intros x [Hx _]%list_elem_of_filter.
Qed.

Lemma kept_Forall (P : Transaction -> Prop) strict f l : Forall P l -> Forall P (keptTxs strict f l).
Proof. unfold keptTxs. destruct strict; [apply takeWhile_Forall|apply Forall_keep]. Qed.

Lemma within (costLimit gasLimit : Z) tx : tooDear costLimit gasLimit tx = false <-> Cost tx <= costLimit /\ TxGas tx <= gasLimit.
Proof. unfold tooDear. rewrite orb_false_iff, !Z.ltb_ge. lia. Qed.

(** [Filter] on the content: see [list_filter_exact]. *)
Lemma Filter_holds (r1 r2 r3 r4 : MapRange) costLimit gasLimit L l : holds L l ->
  let '((removed, invalids), L') := Filter r1 r2 r3 r4 costLimit gasLimit L in
  let kept := keptTxs (strict L) (tooDear costLimit gasLimit) l in
  removed ≡ₚ filter (fun tx => tooDear costLimit gasLimit tx = true) l /\
  removed ++ invalids ++ kept ≡ₚ l /\ (strict L = false -> invalids = []) /\
  holds L' kept /\ strict L' = strict L /\ costcap L' <= costLimit /\ gascap L' <= gasLimit.
Proof.
  intros [Hr Hcaps]. unfold Filter. set (f := tooDear costLimit gasLimit).
  destruct ((costcap L <=? costLimit) && (gascap L <=? gasLimit)) eqn:Eshort.
  { bool_Z. assert (Hall : Forall (fun tx => f tx = false) l).
    { eapply list.Forall_impl; [exact Hcaps|]. intros tx [Hc Hg]. apply within. lia. }
    cbv zeta. rewrite kept_all by done. rewrite filter_none; [by split_and!|].
    eapply list.Forall_impl; [exact Hall|]. intros x Hx. simpl in Hx. congruence. }
  clear Eshort. change (fun tx => (gasLimit <? TxGas tx) || (costLimit <? Cost tx)) with f.
  destruct (Filter_spec r1 r2 f (txs L) l Hr) as [Hp Hr']. destruct (SortedMap.Filter r1 r2 f (txs L)) as [removed m']. cbn [fst snd] in *.
  assert (Hi := repr_incr _ _ Hr). assert (Hu := repr_word _ _ Hr).
  assert (Hbound : forall l', Forall (fun tx => f tx = false) l' -> Forall (fun tx => Cost tx <= costLimit /\ TxGas tx <= gasLimit) l').
  { intros l' Hl'. eapply list.Forall_impl; [exact Hl'|]. intros tx Htx. by apply within. }
  destruct removed as [|x removed].
  { apply Permutation_nil_l in Hp. symmetry in Hp. pose proof (filter_kept f l Hp) as Hk. rewrite Hk in Hr'. cbv zeta.
    assert (Hall : Forall (fun tx => f tx = false) l).
    { rewrite <- Hk. apply list.Forall_forall. by intros y [Hy _]%list_elem_of_filter. }
    rewrite kept_all by done. rewrite Hp. split_and!; try done. split; [done|]. by apply Hbound. }
  remember (x :: removed) as rem eqn:Erem. assert (Hne : rem <> []) by (by subst).
  destruct (strict L) eqn:Es.
  - pose proof (strict_filter r3 f _ m' l rem Hr' Hi Hu Hp Hne eq_refl) as [Hit Hperm]. cbv zeta in *.
    set (m3 := filterItems _ m') in *. destruct m3 as [invalids m3]. cbn [fst snd] in *. unfold keptTxs.
    set (kept := takeWhile (fun tx => negb (f tx)) l) in *.
    assert (Hl : l = kept ++ drop (length kept) l).
    { unfold kept. destruct (takeWhile_split (fun tx => negb (f tx)) l) as [[_ He]|(d & post & Hs & _)]; [rewrite He; by rewrite drop_all, app_nil_r|].
      rewrite Hs at 1. f_equal. rewrite Hs at 2. by rewrite drop_app_length. }
    destruct rem; [done|]. split_and!; try done.
    + rewrite app_assoc, Hperm. rewrite Hl at 2. apply Permutation_app_comm.
    + split; [|apply Hbound, (kept_cheap true f l)].
      apply reheap_repr; [by apply takeWhile_incr|done|by apply takeWhile_Forall].
  - unfold keptTxs. destruct rem; [done|]. split_and!; try done.
    + cbn [app]. rewrite app_comm_cons, Hp. apply filter_bools.
    + split; [|apply Hbound, (kept_cheap false f l)].
      apply reheap_repr; [by apply incr_filter|by apply core_items, repr_core|by apply Forall_keep].
Qed.

Lemma holds_with m l (L : txList) l' : holds L l -> repr m l' -> (forall x, x ∈ l' -> x ∈ l) -> holds (with_txs m L) l'.
Proof.
  intros [_ Hc] Hr Hsub. split; [done|]. apply list.Forall_forall. intros x Hx. rewrite list.Forall_forall in Hc. by apply Hc, Hsub.
Qed.

Lemma overlaps_in tx L l : holds L l -> Overlaps tx L = bool_decide (TxNonce tx ∈ TxNonce <$> l).
Proof.
  intros [[[Hi Hit _ _] _ _] _]. unfold Overlaps, Get. rewrite Hit. destruct (map_of l !! TxNonce tx) as [y|] eqn:E.
  - apply lookup_map_of in E as [Hy Hn]; [|done]. rewrite bool_decide_true; [done|]. rewrite <- Hn. by apply list_elem_of_fmap_2.
  - apply lookup_map_of_None in E; [|done]. by rewrite bool_decide_false.
Qed.

Lemma Put_holds tx L l : holds L l -> is_u64 (TxNonce tx) ->
  holds (mkList (strict L) (Put tx (txs L)) (if costcap L <? Cost tx then Cost tx else costcap L)
    (if gascap L <? TxGas tx then TxGas tx else gascap L)) (insertTx tx l).
Proof.
  intros [Hr Hc] Hu. split; [by apply Put_spec|]. cbn [costcap gascap]. apply list.Forall_forall. intros y Hy.
  apply elem_insertTx in Hy as [->|[Hy _]]; [|rewrite list.Forall_forall in Hc; specialize (Hc y Hy)];
    destruct (Z.ltb_spec (costcap L) (Cost tx)), (Z.ltb_spec (gascap L) (TxGas tx)); lia.
Qed.

Lemma Add_holds tx bump L l : holds L l -> is_u64 (TxNonce tx) ->
  (Add tx bump L).2 = L \/ holds (Add tx bump L).2 (insertTx tx l) /\ strict (Add tx bump L).2 = strict L.
Proof.
  intros Hh Hu. unfold Add. set (b := match Get _ _ with Some o => _ | None => _ end). destruct b; [by left|right].
  split; [by apply Put_holds|done].
Qed.

Lemma Remove_holds r1 r2 tx L l : holds L l -> exists ans L', Remove r1 r2 tx L = Ok (ans, L') /\ strict L' = strict L /\
  holds L' (if strict L then (if bool_decide (TxNonce tx ∈ TxNonce <$> l) then filter (fun y => TxNonce y < TxNonce tx) l else l)
            else removeTx (TxNonce tx) l).
Proof.
  intros Hh. destruct (Remove_spec (TxNonce tx) _ _ (proj1 Hh)) as (m & Hrun & Hr). unfold Remove. rewrite Hrun. cbn [mbind res_bind fst snd].
  assert (Hsub : forall x, x ∈ removeTx (TxNonce tx) l -> x ∈ l) by (by intros x [_ Hx]%list_elem_of_filter).
  case_bool_decide as Hin; cbn [negb].
  - destruct (strict L) eqn:Es.
    + destruct (Filter_spec r1 r2 (fun tx' => TxNonce tx <? TxNonce tx') m _ Hr) as [_ Hr'].
      destruct (SortedMap.Filter r1 r2 _ m) as [inv m']. cbn [fst snd] in *. eexists _, _. split; [done|]. split; [by simpl|].
      assert (Heq : filter (fun y => (TxNonce tx <? TxNonce y) = false) (removeTx (TxNonce tx) l) = filter (fun y => TxNonce y < TxNonce tx) l).
      { unfold removeTx. rewrite list_filter_filter. apply list_filter_iff. intros y. rewrite Z.ltb_ge. lia. }
      rewrite Heq in Hr'. eapply holds_with; [done|done|]. by intros x [_ Hx]%list_elem_of_filter.
    + eexists _, _. split; [done|]. split; [by simpl|]. by eapply holds_with.
  - assert (Hsame : removeTx (TxNonce tx) l = l).
    { apply filter_every, list.Forall_forall. intros y Hy Heq. apply Hin. rewrite <- Heq. by apply list_elem_of_fmap_2. }
    rewrite Hsame in *. eexists _, _. split; [done|]. split; [done|].
    assert (Hw : holds (with_txs m L) l) by (by eapply holds_with). by destruct (strict L).
Qed.

(** ** The operations of the pool, with their answers *)

Lemma lookup_holds L l n tx : holds L l -> Get n (txs L) = Some tx <-> tx ∈ l /\ TxNonce tx = n.
Proof. intros [[[Hi Hit _ _] _ _] _]. unfold Get. rewrite Hit. by apply lookup_map_of. Qed.

Lemma len_holds L l : holds L l -> Len L = zlen l.
Proof. intros [[Hc _ _] _]. unfold Len, SortedMap.Len, zlen. by rewrite (core_size _ _ Hc). Qed.

Lemma empty_holds L l : holds L l -> Empty L = true <-> l = [].
Proof. intros Hh. unfold Empty. rewrite (len_holds L l Hh), Z.eqb_eq. unfold zlen. destruct l; simpl; [done|]. split; [lia|done]. Qed.

Lemma words_holds L l : holds L l -> incr l /\ Forall (fun tx => is_u64 (TxNonce tx)) l.
Proof. intros [Hr _]. split; [by eapply repr_incr|apply Hr]. Qed.

Lemma new_holds s : holds (newTxList s) [].
Proof. split; [apply repr_new|constructor]. Qed.

Lemma Add_cases tx bump L l : holds L l -> is_u64 (TxNonce tx) ->
  (Add tx bump L = (false, None, L) /\ exists o, o ∈ l /\ TxNonce o = TxNonce tx /\ replaces o tx bump = false) \/
  (exists old L', Add tx bump L = (true, old, L') /\ holds L' (insertTx tx l) /\ strict L' = strict L /\
     match old with Some o => o ∈ l /\ TxNonce o = TxNonce tx /\ replaces o tx bump = true | None => TxNonce tx ∉ TxNonce <$> l end).
Proof.
  intros Hh Hu. unfold Add. pose proof (lookup_holds L l (TxNonce tx)) as Hget. destruct (Get (TxNonce tx) (txs L)) as [o|] eqn:E.
  - destruct (proj1 (Hget o Hh) eq_refl) as [Ho Hn]. destruct (replaces o tx bump) eqn:Er; cbn [negb]; [right|left; by eauto].
    eexists (Some o), _. split; [done|]. split; [by apply Put_holds|done].
  - right. eexists None, _. split; [done|]. split; [by apply Put_holds|]. split; [done|]. intros Hin.
    apply list_elem_of_fmap in Hin as (y & Hy & Hin). by pose proof (proj2 (Hget y Hh) (conj Hin (eq_sym Hy))).
Qed.

Lemma Forward_holds t L l : holds L l -> exists L',
  Forward t L = Ok (Some <$> filter (fun tx => TxNonce tx < t) l, L') /\ holds L' (filter (fun tx => t <= TxNonce tx) l) /\ strict L' = strict L.
Proof.
  intros Hh. destruct (Forward_spec t _ _ (proj1 Hh)) as (m & Hm & Hr). unfold Forward. rewrite Hm. eexists. split; [done|]. split; [|done].
  eapply holds_with; [done|done|]. by intros x [_ Hx]%list_elem_of_filter.
Qed.

Lemma Cap_holds k L l : 0 <= k -> holds L l -> exists L',
  Cap k L = Ok (Some <$> reverse (drop (Z.to_nat k) l), L') /\ holds L' (take (Z.to_nat k) l) /\ strict L' = strict L.
Proof.
  intros Hk Hh. destruct (Cap_spec k _ _ Hk (proj1 Hh)) as (m & Hm & Hr). unfold Cap. rewrite Hm. eexists. split; [done|]. split; [|done].
  eapply holds_with; [done|done|]. intros x Hx. apply list_elem_of_lookup in Hx as [i Hx].
  apply lookup_take_Some in Hx as [Hx _]. by eapply list_elem_of_lookup_2.
Qed.

Lemma readyTxs_prefix s l : l = readyTxs s l ++ drop (length (readyTxs s l)) l.
Proof.
  assert (Hrun : forall l n, l = runFrom n l ++ drop (length (runFrom n l)) l).
  { clear. induction l as [|x l IH]; intros n; [done|]. cbn [runFrom]. case_if; [|done]. cbn [app length drop]. by rewrite <- IH. }
  destruct l as [|x l]; [done|]. unfold readyTxs. case_if; [done|apply Hrun].
Qed.

Lemma Ready_holds s L l : holds L l -> exists L',
  Ready s L = Ok (Some <$> readyTxs s l, L') /\ holds L' (drop (length (readyTxs s l)) l) /\ strict L' = strict L.
Proof.
  intros Hh. destruct (Ready_spec s _ _ (proj1 Hh)) as (m & Hm & Hr). unfold Ready. rewrite Hm. eexists. split; [done|]. split; [|done].
  eapply holds_with; [done|done|]. intros x Hx. rewrite (readyTxs_prefix s l). apply elem_of_app. by right.
Qed.

Lemma Remove_exact r1 r2 tx L l : holds L l -> exists found invalids L', Remove r1 r2 tx L = Ok (found, invalids, L') /\ strict L' = strict L /\
  (found = true <-> TxNonce tx ∈ TxNonce <$> l) /\ (strict L = false \/ found = false -> invalids = []) /\
  exists kept, holds L' kept /\ filter (fun y => TxNonce y = TxNonce tx) l ++ invalids ++ kept ≡ₚ l /\ (found = false -> kept = l).
Proof.
  intros Hh. assert (Hi := proj1 (words_holds L l Hh)).
  destruct (Remove_spec (TxNonce tx) _ _ (proj1 Hh)) as (m & Hrun & Hr). unfold Remove. rewrite Hrun. cbn [mbind res_bind fst snd].
  assert (Hsub : forall x, x ∈ removeTx (TxNonce tx) l -> x ∈ l) by (by intros x [_ Hx]%list_elem_of_filter).
  assert (Hsplit : filter (fun y => TxNonce y = TxNonce tx) l ++ removeTx (TxNonce tx) l ≡ₚ l).
  { clear. induction l as [|x l IH]; [done|]. unfold removeTx in *. rewrite !filter_cons. repeat case_decide; try done; cbn [app]; [by rewrite IH|].
    by rewrite <- Permutation_middle, IH. }
  case_bool_decide as Hin; cbn [negb].
  - destruct (strict L) eqn:Es.
    + destruct (Filter_spec r1 r2 (fun tx' => TxNonce tx <? TxNonce tx') m _ Hr) as [Hp Hr'].
      destruct (SortedMap.Filter r1 r2 _ m) as [inv m']. cbn [fst snd] in *. eexists true, inv, _. split; [done|]. split; [done|].
      split; [done|]. split; [intros [?|?]; congruence|]. eexists. split; [eapply holds_with; [done|exact Hr'|]|].
      * intros x Hx. apply list_elem_of_filter in Hx as [_ Hx]. auto.
      * split; [|done]. rewrite Hp. rewrite (filter_bools (fun tx' => TxNonce tx <? TxNonce tx')). exact Hsplit.
    + eexists true, [], _. split; [done|]. split; [done|]. split; [done|]. split; [done|]. exists (removeTx (TxNonce tx) l).
      split; [by eapply holds_with|]. by split.
  - assert (Hsame : removeTx (TxNonce tx) l = l).
    { apply filter_every, list.Forall_forall. intros y Hy Heq. apply Hin. rewrite <- Heq. by apply list_elem_of_fmap_2. }
    rewrite Hsame in *. eexists false, [], _. split; [done|]. split; [done|]. split; [done|]. split; [done|].
    exists l. split; [by eapply holds_with|]. split; [|done]. rewrite filter_none; [done|].
    apply list.Forall_forall. intros y Hy Heq. apply Hin. rewrite <- Heq. by apply list_elem_of_fmap_2.
Qed.

Lemma Flatten_holds (r : MapRange) L l : holds L l -> exists L', @Flatten r L = (l, L') /\ holds L' l /\ strict L' = strict L.
Proof.
  intros Hh. unfold Flatten, SortedMap.Flatten. destruct (flatten_spec (H:=r) _ _ (proj1 Hh)) as [Hc Hr].
  destruct (@flatten r (txs L)) as [c m]. cbn [fst snd] in *. subst c. eexists. split; [done|]. split; [|done]. by eapply holds_with.
Qed.

Lemma Last_holds (r : MapRange) L l x : holds L l -> list.last l = Some x -> exists L', @LastElement r L = Ok (x, L') /\ holds L' l /\ strict L' = strict L.
Proof.
  intros Hh Hx. unfold LastElement, SortedMap.LastElement. destruct (flatten_spec (H:=r) _ _ (proj1 Hh)) as [Hc Hr].
  destruct (@flatten r (txs L)) as [c m]. cbn [fst snd] in *. subst c. rewrite Hx. cbn [mbind res_bind fst snd]. eexists. split; [done|].
  split; [|done]. by eapply holds_with.
Qed.
