(* ===== verification/TxListProps.v ===== *)
(** * What the pool relies on of its transaction lists (core/tx_list.go)

    The nonce-sorted map refines a sorted list over any run of operations; the
    list of an account keeps its caps, filters exactly, and in strict mode stays
    free of gaps. *)

From S2P Require Import Prelude Heap Params Types Misc Snapshot Finalize TxSortedMap TxList TxListFacts TxListHolds.
Import SortedMap.

(** ** Runs of operations on the sorted map *)

Inductive mapOp : Type :=
  | PutOp (tx : Transaction) | ForwardOp (threshold : Z) | FilterOp (r1 r2 : MapRange) (f : Transaction -> bool)
  | CapOp (threshold : Z) | RemoveOp (nonce : Z) | ReadyOp (start : Z) | FlattenOp (r : MapRange)
  | LastOp (r : MapRange) | GetOp (nonce : Z) | LenOp.

Inductive mapOut : Type :=
  | Done | Txs (l : list (option Transaction)) | Found (b : bool) | One (o : option Transaction) | Count (n : Z).

Definition runOp (op : mapOp) (m : txSortedMap) : res (mapOut * txSortedMap) :=
  match op with
  | PutOp tx => Ok (Done, Put tx m)
  | ForwardOp t => rm ← Forward t m; Ok (Txs rm.1, rm.2)
  | FilterOp r1 r2 f => let '(removed, m) := Filter r1 r2 f m in Ok (Txs (Some <$> removed), m)
  | CapOp k => rm ← Cap k m; Ok (Txs rm.1, rm.2)
  | RemoveOp n => rm ← Remove n m; Ok (Found rm.1, rm.2)
  | ReadyOp s => rm ← Ready s m; Ok (Txs rm.1, rm.2)
  | FlattenOp r => let '(c, m) := @Flatten r m in Ok (Txs (Some <$> c), m)
  | LastOp r => rm ← @LastElement r m; Ok (One (Some rm.1), rm.2)
  | GetOp n => Ok (One (Get n m), m)
  | LenOp => Ok (Count (Len m), m)
  end.

Fixpoint runOps (ops : list mapOp) (m : txSortedMap) : res (list mapOut * txSortedMap) :=
  match ops with
  | [] => Ok ([], m)
  | op :: ops => om ← runOp op m; rest ← runOps ops om.2; Ok (om.1 :: rest.1, rest.2)
  end.

(** The same on a list sorted by nonce: what may be asked, what comes next, what
    is answered. *)
Definition legalOp (op : mapOp) (l : list Transaction) : Prop :=
  match op with PutOp tx => is_u64 (TxNonce tx) | CapOp k => 0 <= k | LastOp _ => l <> [] | _ => True end.

Definition nextList (op : mapOp) (l : list Transaction) : list Transaction :=
  match op with
  | PutOp tx => insertTx tx l
  | ForwardOp t => filter (fun tx => t <= TxNonce tx) l
  | FilterOp _ _ f => filter (fun tx => f tx = false) l
  | CapOp k => take (Z.to_nat k) l
  | RemoveOp n => removeTx n l
  | ReadyOp s => drop (length (readyTxs s l)) l
  | _ => l
  end.

Definition answers (op : mapOp) (l : list Transaction) (out : mapOut) : Prop :=
  match op with
  | PutOp _ => out = Done
  | ForwardOp t => out = Txs (Some <$> filter (fun tx => TxNonce tx < t) l)
  | FilterOp _ _ f => exists removed, out = Txs (Some <$> removed) /\ removed ≡ₚ filter (fun tx => f tx = true) l
  | CapOp k => out = Txs (Some <$> reverse (drop (Z.to_nat k) l))
  | RemoveOp n => out = Found (bool_decide (n ∈ TxNonce <$> l))
  | ReadyOp s => out = Txs (Some <$> readyTxs s l)
  | FlattenOp _ => out = Txs (Some <$> l)
  | LastOp _ => out = One (list.last l)
  | GetOp n => out = One (list_find (fun tx => TxNonce tx = n) l ≫= fun ix => Some ix.2)
  | LenOp => out = Count (zlen l)
  end.

Fixpoint legal (ops : list mapOp) (l : list Transaction) : Prop :=
  match ops with [] => True | op :: ops => legalOp op l /\ legal ops (nextList op l) end.
Fixpoint answersAll (ops : list mapOp) (l : list Transaction) (outs : list mapOut) : Prop :=
  match ops, outs with
  | [], [] => True
  | op :: ops, out :: outs => answers op l out /\ answersAll ops (nextList op l) outs
  | _, _ => False
  end.
Definition listAfter (ops : list mapOp) (l : list Transaction) : list Transaction := foldl (fun l op => nextList op l) l ops.

Lemma Get_spec n m l : repr m l -> Get n m = list_find (fun tx => TxNonce tx = n) l ≫= fun ix => Some ix.2.
Proof.
  intros [[Hi Hit _ _] _ _]. unfold Get. rewrite Hit.
  destruct (list_find (fun tx => TxNonce tx = n) l) as [[i tx]|] eqn:E; cbn [mbind option_bind snd].
  - apply list_find_Some in E as (Hx & Hn & _). apply lookup_map_of; [done|]. split; [by eapply list_elem_of_lookup_2|done].
  - apply list_find_None in E. apply lookup_map_of_None; [done|]. rewrite list_elem_of_fmap. intros (y & Hy & Hin).
    rewrite list.Forall_forall in E. by destruct (E y Hin).
Qed.

Lemma runOp_spec op m l : repr m l -> legalOp op l -> exists out m', runOp op m = Ok (out, m') /\ answers op l out /\ repr m' (nextList op l).
Proof.
  intros Hr Hok. destruct op as [tx|t|r1 r2 f|k|n|s|r|r|n|]; cbn [runOp answers nextList legalOp] in *.
  - eexists _, _. split; [done|]. split; [done|by apply Put_spec].
  - destruct (Forward_spec t m l Hr) as (m' & -> & Hr'). eexists _, _. by split.
  - destruct (Filter_spec r1 r2 f m l Hr) as [Hp Hr']. destruct (Filter r1 r2 f m) as [removed m']. cbn [fst snd] in *.
    eexists _, _. split; [done|]. split; [by eexists|done].
  - destruct (Cap_spec k m l Hok Hr) as (m' & -> & Hr'). eexists _, _. by split.
  - destruct (Remove_spec n m l Hr) as (m' & -> & Hr'). eexists _, _. by split.
  - destruct (Ready_spec s m l Hr) as (m' & -> & Hr'). eexists _, _. by split.
  - unfold Flatten. destruct (@flatten_spec r m l Hr) as [Hc Hr']. destruct (@flatten r m) as [c m']. cbn [fst snd] in *. subst c.
    eexists _, _. by split.
  - unfold LastElement. destruct (@flatten_spec r m l Hr) as [Hc Hr']. destruct (@flatten r m) as [c m']. cbn [fst snd] in *. subst c.
    destruct (list.last l) as [tx|] eqn:E; [|by apply last_None in E]. eexists _, _. by split.
  - eexists _, _. split; [done|]. split; [f_equal; by apply Get_spec|done].
  - eexists _, _. split; [done|]. split; [|done]. unfold Len, zlen. by rewrite (core_size m l (repr_core m l Hr)).
Qed.

(** C26: Whatever operations run on a nonce-sorted map, starting from an empty
    one, with every walk over the hash map in an order of its own: none panics,
    and each answers what the same operation answers on the list of the stored
    transactions sorted by nonce (put replaces the one with the same nonce,
    forward cuts off the front, cap the back, ready takes the gap-free run at
    the front); heap and cache never get out of step with the contents. *)
Theorem sorted_map_refines (ops : list mapOp) : legal ops [] ->
  exists outs m, runOps ops newTxSortedMap = Ok (outs, m) /\ answersAll ops [] outs /\ repr m (listAfter ops []).
Proof.
  intros Hl. pose proof repr_new as Hr. revert Hl Hr. generalize newTxSortedMap as m. generalize (@nil Transaction) as l.
  induction ops as [|op ops IH]; intros l m Hl Hr; [by exists [], m|]. destruct Hl as [Hok Hl].
  destruct (runOp_spec op m l Hr Hok) as (out & m1 & Hrun & Ha & Hr1). destruct (IH _ _ Hl Hr1) as (outs & m2 & Hruns & Has & Hr2).
  exists (out :: outs), m2. cbn [runOps]. rewrite Hrun. cbn [mbind res_bind fst snd]. by rewrite Hruns.
Qed.

(** ** The list of an account *)
Import AccountList.

(** Filtering the list of an account by what it can pay and what fits
    a block is exact although the list only remembers upper bounds of both: the
    returned transactions are those above a limit; in a strict list also all
    behind the first of them are returned, as unusable; what stays is the rest,
    in a list whose caps are again right and within the limits.  So the short
    cut taken when the caps are low enough never keeps a transaction that is too
    dear. *)
Theorem list_filter_exact (r1 r2 r3 r4 : MapRange) costLimit gasLimit L l : holds L l ->
  let '((removed, invalids), L') := Filter r1 r2 r3 r4 costLimit gasLimit L in
  let kept := keptTxs (strict L) (tooDear costLimit gasLimit) l in
  removed ≡ₚ filter (fun tx => tooDear costLimit gasLimit tx = true) l /\
  removed ++ invalids ++ kept ≡ₚ l /\ (strict L = false -> invalids = []) /\
  holds L' kept /\ strict L' = strict L /\ costcap L' <= costLimit /\ gascap L' <= gasLimit.
Proof. exact (Filter_holds r1 r2 r3 r4 costLimit gasLimit L l). Qed.

(** ** Strict lists have no gaps *)

Definition gapfree (l : list Transaction) : Prop := exists n, TxNonce <$> l = seqZ n (zlen l).

Lemma gapfree_app l1 l2 : gapfree (l1 ++ l2) -> gapfree l1 /\ gapfree l2.
Proof.
  intros [n Hn]. unfold zlen in Hn. rewrite fmap_app, length_app, Nat2Z.inj_add, seqZ_app in Hn by lia.
  apply app_inj_1 in Hn as [H1' H2']; [|by rewrite length_fmap, length_seqZ, Nat2Z.id]. split; eexists; done.
Qed.

Lemma seqZ_one n : seqZ n 1 = [n].
Proof. rewrite seqZ_cons by lia. change (Z.pred 1) with 0. by rewrite seqZ_nil. Qed.

Lemma gapfree_nonces l l' : TxNonce <$> l' = TxNonce <$> l -> gapfree l -> gapfree l'.
Proof.
  intros Heq [n Hn]. exists n. rewrite Heq, Hn. unfold zlen. f_equal.
  by rewrite <- (length_fmap TxNonce l), <- Heq, length_fmap.
Qed.

Lemma gapfree_take l k : gapfree l -> gapfree (take k l).
Proof. rewrite <- (take_drop k l) at 1. by intros [? _]%gapfree_app. Qed.
Lemma gapfree_drop l k : gapfree l -> gapfree (drop k l).
Proof. rewrite <- (take_drop k l) at 1. by intros [_ ?]%gapfree_app. Qed.

Lemma gapfree_snoc l x tx : gapfree l -> list.last l = Some x -> TxNonce tx = TxNonce x + 1 -> gapfree (l ++ [tx]).
Proof.
  intros [n Hn] Hx Ht. exists n. assert (Hlast : list.last (TxNonce <$> l) = Some (TxNonce x)) by (by rewrite fmap_last, Hx).
  rewrite Hn in Hlast. unfold zlen in *. rewrite length_app, fmap_app, Hn. cbn [length]. rewrite Nat2Z.inj_add, seqZ_app by lia.
  f_equal. csimpl. change (Z.of_nat 1) with 1. rewrite seqZ_one. f_equal.
  rewrite last_lookup, length_seqZ, Nat2Z.id in Hlast. destruct (length l) as [|k] eqn:E; [done|].
  apply lookup_seqZ in Hlast as [Hl _]. cbn [pred] in Hl. lia.
Qed.

Lemma low_prefix n l : incr l -> filter (fun y => TxNonce y < n) l = take (length (filter (fun y => TxNonce y < n) l)) l.
Proof. intros Hi. rewrite (filter_split n l Hi) at 3. by rewrite take_app_length. Qed.

(** Putting a transaction into a list: in place of the one with its nonce, or
    at the end. *)
Lemma insert_nonces tx l : incr l -> TxNonce tx ∈ TxNonce <$> l -> TxNonce <$> insertTx tx l = TxNonce <$> l.
Proof.
  intros Hi Hin. apply (Sorted_unique_strong Z.le); [lia| | |].
  - assert (Hs := incr_insertTx tx l Hi). revert Hs. generalize (insertTx tx l). intros l' Hs. apply incr_Sorted in Hs.
    by apply (Sorted_fmap TxNonce byNonce Z.le).
  - apply incr_Sorted in Hi. by apply (Sorted_fmap TxNonce byNonce Z.le).
  - apply nonces_filter_perm; [by apply incr_insertTx|done|]. intros n. rewrite !list_elem_of_fmap. split; intros (y & -> & Hy).
    + apply elem_insertTx in Hy as [->|[Hy _]]; [by apply list_elem_of_fmap in Hin|eauto].
    + destruct (decide (TxNonce y = TxNonce tx)) as [->|Hne]; [exists tx|exists y]; (split; [done|]); apply elem_insertTx; auto.
Qed.

Lemma insert_last tx l : Forall (fun y => TxNonce y < TxNonce tx) l -> insertTx tx l = l ++ [tx].
Proof.
  intros Hl. unfold insertTx. rewrite filter_every by done. do 2 f_equal. apply filter_none. eapply list.Forall_impl; [exact Hl|].
  simpl. lia.
Qed.

Lemma insert_first tx l : Forall (fun y => TxNonce tx < TxNonce y) l -> insertTx tx l = tx :: l.
Proof.
  intros Hl. unfold insertTx. rewrite (filter_every (fun y => TxNonce tx < TxNonce y)) by done.
  rewrite filter_none; [done|]. eapply list.Forall_impl; [exact Hl|]. simpl. lia.
Qed.

Lemma insert_length tx l : zlen (insertTx tx l) <= zlen l + 1.
Proof.
  unfold insertTx, zlen. rewrite length_app. cbn [length].
  enough (Nat.le (Nat.add (length (filter (fun y => TxNonce y < TxNonce tx) l)) (length (filter (fun y => TxNonce tx < TxNonce y) l))) (length l)) by lia.
  induction l as [|x l IH]; [done|]. rewrite !filter_cons. repeat case_decide; cbn [length]; lia.
Qed.

(** The transaction replaces one of the list, or stands right behind or right
    before it. *)
Definition adjoins (tx : Transaction) (l : list Transaction) : Prop :=
  l = [] \/ exists n, TxNonce <$> l = seqZ n (zlen l) /\ n - 1 <= TxNonce tx <= n + zlen l.

Lemma adjoins_gapfree tx l : incr l -> gapfree l -> gapfree (insertTx tx l) <-> adjoins tx l.
Proof.
  intros Hi [n Hn]. assert (Hnonce : forall y, y ∈ l -> n <= TxNonce y < n + zlen l).
  { intros y Hy. apply elem_of_seqZ. rewrite <- Hn. by apply list_elem_of_fmap_2. }
  assert (Hin : forall z, n <= z < n + zlen l -> z ∈ TxNonce <$> l) by (intros z Hz; rewrite Hn; by apply elem_of_seqZ).
  destruct (decide (l = [])) as [->|Hne].
  { split; [by left|]. intros _. exists (TxNonce tx). csimpl. change (zlen (insertTx tx [])) with 1. by rewrite seqZ_one. }
  assert (Hlen : 0 < zlen l) by (unfold zlen; destruct l; [done|simpl; lia]).
  split.
  - intros [m Hm]. right. exists n. split; [done|].
    assert (Hins : forall z, z = TxNonce tx \/ n <= z < n + zlen l -> m <= z < m + zlen (insertTx tx l)).
    { intros z Hz. apply elem_of_seqZ. rewrite <- Hm. destruct (decide (z = TxNonce tx)) as [->|Hzn].
      { apply list_elem_of_fmap_2, elem_insertTx. by left. }
      destruct Hz as [?|Hz]; [done|]. apply Hin, list_elem_of_fmap in Hz as (y & -> & Hy).
      apply list_elem_of_fmap_2, elem_insertTx. right. split; [done|congruence]. }
    pose proof (insert_length tx l). pose proof (Hins _ (or_introl eq_refl)).
    pose proof (Hins n ltac:(lia)). pose proof (Hins (n + zlen l - 1) ltac:(lia)). lia.
  - intros [?|(n' & Hn' & Hr)]; [done|]. assert (n' = n) as ->.
    { rewrite Hn in Hn'. rewrite !(seqZ_cons _ (zlen l)) in Hn' by lia. by injection Hn'. }
    destruct (decide (n <= TxNonce tx < n + zlen l)) as [Hm|Hm]; [apply (gapfree_nonces l); [by apply insert_nonces, Hin|by exists n]|].
    destruct (decide (TxNonce tx = n - 1)) as [Hf|Hf].
    + rewrite insert_first by (apply list.Forall_forall; intros y Hy%Hnonce; lia). exists (n - 1). csimpl. rewrite Hn, Hf.
      replace (zlen (tx :: l)) with (Z.succ (zlen l)) by (unfold zlen; simpl; lia). rewrite (seqZ_cons (n - 1)) by lia.
      rewrite Z.pred_succ. by replace (Z.succ (n - 1)) with n by lia.
    + rewrite insert_last by (apply list.Forall_forall; intros y Hy%Hnonce; lia). exists n.
      rewrite fmap_app, Hn. csimpl. unfold zlen. rewrite length_app, Nat2Z.inj_add, seqZ_app by lia. cbn [length].
      change (Z.of_nat 1) with 1. rewrite seqZ_one. do 2 f_equal. unfold zlen in *. lia.
Qed.

(** The operations on the list of an account. *)
Inductive listOp : Type :=
  | LAdd (tx : Transaction) (bump : Z)
  | LForward (threshold : Z)
  | LFilter (r1 r2 r3 r4 : MapRange) (costLimit gasLimit : Z)
  | LCap (threshold : Z)
  | LRemove (r1 r2 : MapRange) (tx : Transaction)
  | LReady (start : Z)
  | LFlatten (r : MapRange).

Definition runList (op : listOp) (L : txList) : res txList :=
  match op with
  | LAdd tx bump => Ok (Add tx bump L).2
  | LForward t => r ← AccountList.Forward t L; Ok r.2
  | LFilter r1 r2 r3 r4 c g => Ok (Filter r1 r2 r3 r4 c g L).2
  | LCap k => r ← AccountList.Cap k L; Ok r.2
  | LRemove r1 r2 tx => r ← Remove r1 r2 tx L; Ok r.2
  | LReady s => r ← AccountList.Ready s L; Ok r.2
  | LFlatten r => Ok (@Flatten r L).2
  end.
Fixpoint runLists (ops : list listOp) (L : txList) : res txList :=
  match ops with [] => Ok L | op :: ops => L ← runList op L; runLists ops L end.

Definition listLegal (op : listOp) : Prop := match op with LAdd tx _ => is_u64 (TxNonce tx) | LCap k => 0 <= k | _ => True end.
(** When an operation leaves no gap. *)
Definition closes (op : listOp) (l : list Transaction) : Prop := match op with LAdd tx _ => adjoins tx l | _ => True end.

Lemma runList_spec op L l : holds L l -> strict L = true -> listLegal op ->
  exists L' l', runList op L = Ok L' /\ holds L' l' /\ strict L' = true /\ (gapfree l -> gapfree l' <-> closes op l).
Proof.
  intros Hh Hs Hok. assert (Hi := repr_incr _ _ (proj1 Hh)).
  assert (Hcut : forall l1 l2 : list Transaction, l = l1 ++ l2 -> (gapfree l -> gapfree l1 <-> True) /\ (gapfree l -> gapfree l2 <-> True)).
  { intros l1 l2 ->. split; intros [H1' H2']%gapfree_app; done. }
  destruct op as [tx bump|t|r1 r2 r3 r4 c g|k|r1 r2 tx|s|r]; cbn [runList listLegal closes] in *.
  - destruct (Add_cases tx bump L l Hh Hok) as [(Hrun & o & Ho & Hn & _)|(old & L' & Hrun & Hh' & Hs' & _)]; rewrite Hrun.
    + exists L, l. do 3 (split; [done|]). intros Hg. split; [|done]. intros _. apply adjoins_gapfree; [done..|].
      apply (gapfree_nonces l); [|done]. apply insert_nonces; [done|]. rewrite <- Hn. by apply list_elem_of_fmap_2.
    + exists L', (insertTx tx l). split; [done|]. split; [done|]. split; [congruence|]. by apply adjoins_gapfree.
  - unfold AccountList.Forward. destruct (Forward_spec t _ _ (proj1 Hh)) as (m & Hm & Hr). rewrite Hm.
    exists (with_txs m L), (filter (fun tx => t <= TxNonce tx) l). split; [done|]. split; [|split; [done|]].
    + eapply holds_with; [done|done|]. by intros x [_ Hx]%list_elem_of_filter.
    + exact (proj2 (Hcut _ _ (filter_split t l Hi))).
  - pose proof (Filter_holds r1 r2 r3 r4 c g L l Hh) as Hf. destruct (Filter r1 r2 r3 r4 c g L) as [[removed invalids] L'].
    cbv zeta in Hf. destruct Hf as (_ & _ & _ & Hh' & Hs' & _). exists L', (keptTxs (strict L) (tooDear c g) l).
    split; [done|]. split; [done|]. split; [congruence|]. rewrite Hs. unfold keptTxs.
    destruct (takeWhile_split (fun tx => negb (tooDear c g tx)) l) as [[_ ->]|(d & post & Hl & _)]; [done|]. exact (proj1 (Hcut _ _ Hl)).
  - unfold AccountList.Cap. destruct (Cap_spec k _ _ Hok (proj1 Hh)) as (m & Hm & Hr). rewrite Hm.
    exists (with_txs m L), (take (Z.to_nat k) l). split; [done|]. split; [|split; [done|]].
    + eapply holds_with; [done|done|]. intros x Hx. apply list_elem_of_lookup in Hx as [i Hx].
      apply lookup_take_Some in Hx as [Hx _]. by eapply list_elem_of_lookup_2.
    + exact (proj1 (Hcut _ _ (eq_sym (take_drop _ l)))).
  - destruct (Remove_holds r1 r2 tx L l Hh) as (ans' & L' & Hrun & Hs' & Hh'). rewrite Hrun.
    rewrite Hs in Hh'. eexists L', _. split; [done|]. split; [exact Hh'|]. split; [congruence|]. case_bool_decide; [|done].
    exact (proj1 (Hcut _ _ (filter_split (TxNonce tx) l Hi))).
  - unfold AccountList.Ready. destruct (Ready_spec s _ _ (proj1 Hh)) as (m & Hm & Hr). rewrite Hm.
    exists (with_txs m L), (drop (length (readyTxs s l)) l). split; [done|]. split; [|split; [done|]].
    + eapply holds_with; [done|done|]. intros x Hx. apply list_elem_of_lookup in Hx as [i Hx].
      rewrite lookup_drop in Hx. by eapply list_elem_of_lookup_2.
    + exact (proj2 (Hcut _ _ (eq_sym (take_drop _ l)))).
  - unfold AccountList.Flatten, SortedMap.Flatten. destruct (flatten_spec (H:=r) _ _ (proj1 Hh)) as [_ Hr].
    destruct (@flatten r (txs L)) as [c' m]. exists (with_txs m L), l. split; [done|]. split; [by eapply holds_with|]. done.
Qed.

Lemma runLists_spec ops : Forall listLegal ops -> forall L l, holds L l -> strict L = true ->
  exists L' l', runLists ops L = Ok L' /\ holds L' l' /\ strict L' = true.
Proof.
  induction 1 as [|op ops Hok _ IH]; intros L l Hh Hs; [by exists L, l|].
  destruct (runList_spec op L l Hh Hs Hok) as (L1 & l1 & Hrun & Hh1 & Hs1 & _). cbn [runLists]. rewrite Hrun. by eapply IH.
Qed.

(** C33: Whatever is added to the strict list of an account and whatever is
    forwarded, filtered, capped, removed, taken or flattened, no operation
    panics, the list stays sorted by nonce, and no transaction costs more, or
    needs more gas, than the remembered caps.  From there on no operation but an
    addition opens a gap between the nonces, and an addition opens none exactly
    when its transaction replaces one of the list or stands right behind or
    right before it: [Add] itself does not look. *)
Theorem strict_list_gap_free ops : Forall listLegal ops ->
  exists L l, runLists ops (newTxList true) = Ok L /\ holds L l /\ strict L = true /\
    forall op, listLegal op -> exists L' l', runList op L = Ok L' /\ holds L' l' /\ strict L' = true /\
      (gapfree l -> gapfree l' <-> closes op l).
Proof.
  intros Hops. destruct (runLists_spec ops Hops (newTxList true) []) as (L & l & Hrun & Hh & Hs); [|done|].
  { split; [apply repr_new|constructor]. }
  exists L, l. do 3 (split; [done|]). intros op Hok. by apply runList_spec.
Qed.

(** A transaction enters the list of its account exactly when its nonce is
    free or it outbids the one it replaces: both its fee cap and its tip cap are
    higher, and at least the old ones raised by the required percentage, rounded
    down.  If it enters, it takes the place of the old one, which is returned;
    if not, the list stays as it is. *)
Theorem replacement_outbids tx bump L l : holds L l -> is_u64 (TxNonce tx) -> 0 <= bump < 9223372036854775808 ->
  let '((ok, old), L') := Add tx bump L in
  (ok = true <-> forall o, o ∈ l -> TxNonce o = TxNonce tx ->
     TxGasFeeCap o < TxGasFeeCap tx /\ TxGasTipCap o < TxGasTipCap tx /\
     (100 + bump) * TxGasFeeCap o / 100 <= TxGasFeeCap tx /\ (100 + bump) * TxGasTipCap o / 100 <= TxGasTipCap tx) /\
  (if ok then holds L' (insertTx tx l) /\ forall o, old = Some o <-> o ∈ l /\ TxNonce o = TxNonce tx
   else L' = L /\ old = None).
Proof.
  intros Hh Hu Hb. pose proof (Put_holds tx L l Hh Hu) as Hput. unfold Add.
  assert (Hget : forall o, Get (TxNonce tx) (txs L) = Some o <-> o ∈ l /\ TxNonce o = TxNonce tx).
  { intros o. destruct Hh as [[[Hi Hit _ _] _ _] _]. unfold Get. rewrite Hit. by apply lookup_map_of. }
  assert (Hrep : forall o, replaces o tx bump = true <-> TxGasFeeCap o < TxGasFeeCap tx /\ TxGasTipCap o < TxGasTipCap tx /\
     (100 + bump) * TxGasFeeCap o / 100 <= TxGasFeeCap tx /\ (100 + bump) * TxGasTipCap o / 100 <= TxGasTipCap tx).
  { intros o. unfold replaces. rewrite i64_small by lia. destruct ((TxGasFeeCap tx <=? TxGasFeeCap o) || (TxGasTipCap tx <=? TxGasTipCap o)) eqn:E.
    - apply orb_true_iff in E as [E|E]; apply Z.leb_le in E; (split; [done|]); intros (? & ? & _); lia.
    - bool_Z. cbv zeta. rewrite negb_true_iff, orb_false_iff, !Z.ltb_ge. tauto. }
  destruct (Get (TxNonce tx) (txs L)) as [o|] eqn:E.
  - pose proof (proj1 (Hget o) eq_refl) as [Ho Hn].
    assert (Hone : forall o', o' ∈ l -> TxNonce o' = TxNonce tx -> o' = o).
    { intros o' Ho' Hn'. pose proof (proj2 (Hget o') (conj Ho' Hn')) as He. congruence. }
    destruct (replaces o tx bump) eqn:Er; cbn [negb fst snd].
    + split; [|done]. split; [|done]. intros _ o' Ho' Hn'. rewrite (Hone o' Ho' Hn'). by apply Hrep.
    + split; [|done]. split; [done|]. intros Hall. exfalso. specialize (Hall o Ho Hn). apply Hrep in Hall. congruence.
  - split; [|done]. split; [|done]. intros _ o Ho Hn. pose proof (proj2 (Hget o) (conj Ho Hn)). done.
Qed.

(** A refused nonce of the pool: the noncer answers the lowest of what it was
    told and what the state says. *)
Lemma noncer_answers addr nonce (n : Noncer.txNoncer) :
  (Noncer.get addr (Noncer.set addr nonce n)).1 = nonce /\
  (Noncer.get addr (Noncer.setIfLower addr nonce n)).1 = Z.min nonce (Noncer.get addr n).1.
Proof.
  unfold Noncer.get, Noncer.setIfLower, Noncer.set. split.
  - unfold Noncer.known. cbn [Noncer.nonces]. rewrite lookup_insert_eq. cbn [Noncer.nonces fst]. by rewrite lookup_insert_eq.
  - assert (Hk : exists v, Noncer.nonces (Noncer.known addr n) !! addr = Some v).
    { unfold Noncer.known. destruct (Noncer.nonces n !! addr) eqn:E; [by eexists|]. simpl. rewrite lookup_insert_eq. by eexists. }
    destruct Hk as [v Hv]. cbn [fst]. rewrite Hv. simpl default.
    destruct (Z.leb_spec v nonce); unfold Noncer.known at 1; cbn [Noncer.nonces].
    + rewrite Hv. cbn [fst]. rewrite Hv. simpl. lia.
    + rewrite lookup_insert_eq. cbn [Noncer.nonces fst]. rewrite lookup_insert_eq. simpl. lia.
Qed.

(** ** Concrete lists *)

#[local] Instance listedRange : MapRange := {| rangeOf m := map_to_list m; rangeOf_perm m := Permutation_refl _ |}.

Definition listTx (nonce price gas : Z) : Transaction := legacyTx (Some 5) gas price nonce 1 [] [].

Lemma sorted_map_refines_witness :
  let ops := [PutOp (listTx 7 1 21000); PutOp (listTx 3 2 21000); PutOp (listTx 4 1 21000); FlattenOp listedRange;
              ForwardOp 4; ReadyOp 4; CapOp 5] in
  exists m, runOps ops newTxSortedMap = Ok
    ([Done; Done; Done; Txs [Some (listTx 3 2 21000); Some (listTx 4 1 21000); Some (listTx 7 1 21000)];
      Txs [Some (listTx 3 2 21000)]; Txs [Some (listTx 4 1 21000)]; Txs []], m) /\ repr m [listTx 7 1 21000].
Proof.
  intros ops. destruct (sorted_map_refines ops) as (outs & m & Hrun & Ha & Hr).
  { vm_compute. repeat split; discriminate. }
  exists m. split; [|exact Hr]. rewrite Hrun. f_equal. f_equal. clear - Ha.
  destruct outs as [|o1 [|o2 [|o3 [|o4 [|o5 [|o6 [|o7 [|]]]]]]]]; cbn in Ha; try tauto.
  destruct Ha as (-> & -> & -> & -> & -> & -> & -> & _). vm_compute. reflexivity.
Defined.

Definition listThree : txList :=
  (Add (listTx 5 9 21000) 10 (Add (listTx 4 100 21000) 10 (Add (listTx 3 10 21000) 10 (newTxList true)).2).2).2.

Lemma strict_list_gap_free_witness :
  exists l, holds listThree l /\ gapfree l /\ TxNonce <$> l = [3; 4; 5] /\
    exists L' l', runList (LAdd (listTx 7 9 21000) 10) listThree = Ok L' /\ holds L' l' /\ ~ gapfree l'.
Proof.
  destruct (strict_list_gap_free [LAdd (listTx 3 10 21000) 10; LAdd (listTx 4 100 21000) 10; LAdd (listTx 5 9 21000) 10])
    as (L & l & Hrun & Hh & _ & Hnext); [repeat constructor; done|].
  assert (HL : Ok L = Ok listThree) by (rewrite <- Hrun; vm_compute; reflexivity). injection HL as ->.
  assert (Hl : l = [listTx 3 10 21000; listTx 4 100 21000; listTx 5 9 21000]) by (by (destruct (flatten_spec (H:=listedRange) (txs listThree) l (proj1 Hh)) as [<- _]; vm_compute; reflexivity)).
  assert (Hg : gapfree l) by (exists 3; subst l; vm_compute; reflexivity).
  exists l. split; [exact Hh|]. split; [exact Hg|]. split; [by rewrite Hl|].
  destruct (Hnext (LAdd (listTx 7 9 21000) 10)) as (L' & l' & Hr' & Hh' & _ & Hc); [done|]. exists L', l'. split; [exact Hr'|]. split; [exact Hh'|].
  rewrite (Hc Hg). cbn [closes]. rewrite Hl. intros [?|(n & Hn & Hrange)]; [done|].
  apply (f_equal head) in Hn. vm_compute in Hn. injection Hn as <-. vm_compute in Hrange. by destruct Hrange as [_ []].
Defined.

Lemma listThree_holds : holds listThree [listTx 3 10 21000; listTx 4 100 21000; listTx 5 9 21000].
Proof.
  assert (H0 : holds (newTxList true) []) by (split; [apply repr_new|constructor]).
  assert (H1 := Put_holds (listTx 3 10 21000) _ _ H0 ltac:(done)).
  assert (H2 := Put_holds (listTx 4 100 21000) _ _ H1 ltac:(done)).
  exact (Put_holds (listTx 5 9 21000) _ _ H2 ltac:(done)).
Qed.

Lemma list_filter_exact_witness :
  let r := Filter listedRange listedRange listedRange listedRange 300000 21000 listThree in
  r.1.1 ++ r.1.2 ≡ₚ [listTx 4 100 21000; listTx 5 9 21000] /\ costcap r.2 <= 300000.
Proof.
  intros r. pose proof (list_filter_exact listedRange listedRange listedRange listedRange 300000 21000 _ _ listThree_holds) as Hf.
  fold r in Hf. destruct r as [[removed invalids] L']. cbv zeta in Hf. destruct Hf as (_ & Hp & _ & _ & _ & Hc & _).
  cbn [fst snd]. split; [|exact Hc]. change (keptTxs _ _ _) with [listTx 3 10 21000] in Hp.
  apply (Permutation_app_inv_r [listTx 3 10 21000]). rewrite <- app_assoc, Hp. apply (Permutation_cons_append [_; _]).
Defined.

Lemma replacement_outbids_witness :
  (Add (listTx 4 109 21000) 10 listThree).1.1 = false /\ (Add (listTx 4 110 21000) 10 listThree).1.1 = true.
Proof.
  pose proof (replacement_outbids (listTx 4 109 21000) 10 _ _ listThree_holds ltac:(done) ltac:(done)) as Hlow.
  pose proof (replacement_outbids (listTx 4 110 21000) 10 _ _ listThree_holds ltac:(done) ltac:(done)) as Hhigh.
  split.
  - destruct (Add (listTx 4 109 21000) 10 listThree) as [[[|] old] L']; [|reflexivity]. destruct Hlow as [[Hl _] _].
    destruct (Hl eq_refl (listTx 4 100 21000)) as (_ & _ & Hf & _); [set_solver|reflexivity|]. vm_compute in Hf. by destruct Hf.
  - destruct (Add (listTx 4 110 21000) 10 listThree) as [[[|] old] L']; [reflexivity|]. destruct Hhigh as [[_ Hr] _].
    apply Hr. intros o Ho Hn. apply elem_of_cons in Ho as [->|Ho]; [discriminate Hn|].
    apply elem_of_cons in Ho as [->|Ho]; [repeat split; vm_compute; done|].
    apply elem_of_cons in Ho as [->|Ho]; [discriminate Hn|]. by apply not_elem_of_nil in Ho.
Defined.
