(* ===== verification/Signing.v ===== *)
(** * Typed transactions and their signers (core/types/*_tx.go, transaction_signing.go)

    The transaction types with their fields, the signers of the successive
    forks: which hash is signed, how the signature enters the transaction, who is
    recovered from it.  A nil big integer reads as zero through every accessor
    and is removed when a transaction is made, so it is not modelled. *)

From S2P Require Import Prelude Params Types Misc Snapshot Contracts StateTransition.

(** The types of transactions, by their contents ([TxData]). *)
Inductive TxData : Type :=
  | LegacyTx (Nonce GasPrice Gas : Z) (To : option Address) (Value : Z) (Data : list byte) (V R S : Z)
  | AccessListTx (ChainID Nonce GasPrice Gas : Z) (To : option Address) (Value : Z) (Data : list byte) (al : AccessList) (V R S : Z)
  | DynamicFeeTx (ChainID Nonce GasTipCap GasFeeCap Gas : Z) (To : option Address) (Value : Z) (Data : list byte)
      (al : AccessList) (V R S : Z)
  | X402Tx (ChainID Nonce : Z) (To : option Address) (Value Gas GasPrice GasFeeCap GasTipCap : Z) (Input : list byte) (V R S : Z).

Definition LegacyTxType : Z := 0.
Definition AccessListTxType : Z := 1.
Definition DynamicFeeTxType : Z := 2.
Definition X402TxType : Z := 80.

Definition txType (tx : TxData) : Z :=
  match tx with
  | LegacyTx _ _ _ _ _ _ _ _ _ => LegacyTxType
  | AccessListTx _ _ _ _ _ _ _ _ _ _ _ => AccessListTxType
  | DynamicFeeTx _ _ _ _ _ _ _ _ _ _ _ _ => DynamicFeeTxType
  | X402Tx _ _ _ _ _ _ _ _ _ _ _ _ => X402TxType
  end.

Definition ErrInvalidSig : error := errorf "invalid transaction v, r, s values".
Definition ErrInvalidChainId : error := errorf "invalid chain id for signer".
Definition errEmptyTypedTx : error := errorf "empty typed transaction bytes".

(** [big.Int.Uint64]: the low word of the absolute value. *)
Definition bigUint64 (z : Z) : Z := u64 (Z.abs z).
Definition bitLen (z : Z) : Z := if z =? 0 then 0 else Z.log2 (Z.abs z) + 1.

Definition isProtectedV (V : Z) : bool :=
  if bitLen V <=? 8 then negb ((bigUint64 V =? 27) || (bigUint64 V =? 28) || (bigUint64 V =? 1) || (bigUint64 V =? 0))
  else true.

Definition deriveChainId (v : Z) : Z :=
  if bitLen v <=? 64 then
    let v := bigUint64 v in
    if (v =? 27) || (v =? 28) then 0 else (v -w 35) / 2
  else (v - 35) / 2.

Definition chainID (tx : TxData) : Z :=
  match tx with
  | LegacyTx _ _ _ _ _ _ V _ _ => deriveChainId V
  | AccessListTx c _ _ _ _ _ _ _ _ _ _ | DynamicFeeTx c _ _ _ _ _ _ _ _ _ _ _ | X402Tx c _ _ _ _ _ _ _ _ _ _ _ => c
  end.

Definition data (tx : TxData) : list byte :=
  match tx with
  | LegacyTx _ _ _ _ _ d _ _ _ | AccessListTx _ _ _ _ _ _ d _ _ _ _ | DynamicFeeTx _ _ _ _ _ _ _ d _ _ _ _
  | X402Tx _ _ _ _ _ _ _ _ d _ _ _ => d
  end.

Definition rawSignatureValues (tx : TxData) : Z * Z * Z :=
  match tx with
  | LegacyTx _ _ _ _ _ _ v r s | AccessListTx _ _ _ _ _ _ _ _ v r s | DynamicFeeTx _ _ _ _ _ _ _ _ _ v r s
  | X402Tx _ _ _ _ _ _ _ _ _ v r s => (v, r, s)
  end.

(** [setSignatureValues]; a signer without chain passes nil. *)
Definition setSignatureValues (chain : option Z) (v r s : Z) (tx : TxData) : TxData :=
  match tx with
  | LegacyTx n gp g t vl d _ _ _ => LegacyTx n gp g t vl d v r s
  | AccessListTx _ n gp g t vl d al _ _ _ => AccessListTx (default 0 chain) n gp g t vl d al v r s
  | DynamicFeeTx _ n tip fee g t vl d al _ _ _ => DynamicFeeTx (default 0 chain) n tip fee g t vl d al v r s
  | X402Tx c n t vl g gp fee tip i _ _ _ => X402Tx (default c chain) n t vl g gp fee tip i v r s
  end.

Definition Protected (tx : TxData) : bool :=
  match tx with LegacyTx _ _ _ _ _ _ V _ _ => isProtectedV V | _ => true end.

(** The fields of a hash, in the order they are encoded. *)
Inductive rlpItem : Type :=
  | RUint (z : Z) | RBytes (l : list byte) | RTo (a : option Address) | RAccess (al : AccessList).

(** The Keccak hash of an RLP list, and of a type byte with one; the curve, by
    the library it is implemented in; [PublicKey] is the uncompressed point. *)
Class TxCrypto : Type := {
  rlpHash : list rlpItem -> Hash;
  prefixedRlpHash : Z -> list rlpItem -> Hash;
  PrivateKey : Type;
  PublicKey : PrivateKey -> list byte;
  Sign : Hash -> PrivateKey -> res (list byte);
  Ecrecover : Hash -> list byte -> res (list byte);
  Keccak256 : list byte -> list byte;
}.

(** The order of the curve. *)
Definition secp256k1N : Z := 115792089237316195423570985008687907852837564279074904382605163141518161494337.
Definition secp256k1halfN : Z := secp256k1N / 2.

(** The address of a public key. *)
Definition PubkeyToAddress `{TxCrypto} (pub : list byte) : Address := be_decode (drop 12 (Keccak256 (drop 1 pub))).

Definition ValidateSignatureValues (v r s : Z) (homestead : bool) : bool :=
  if (r <? 1) || (s <? 1) then false
  else if homestead && (secp256k1halfN <? s) then false
  else (r <? secp256k1N) && (s <? secp256k1N) && ((v =? 0) || (v =? 1)).

Section Signers.
Context `{TxCrypto} `{MetaCodec}.

(** [recoverPlain]; the address is that of the recovered key. *)
Definition recoverPlain (sighash : Hash) (r s Vb : Z) (homestead : bool) : res Address :=
  if 8 <? bitLen Vb then Err ErrInvalidSig else
  let V := (bigUint64 Vb -w 27) mod 256 in
  if negb (ValidateSignatureValues V r s homestead) then Err ErrInvalidSig else
  pub ← Ecrecover sighash (be_encode 32 r ++ be_encode 32 s ++ [Zbyte V]);
  match pub with
  | b :: _ => if negb (byteZ b =? 4) then Err (errorf "invalid public key") else Ok (PubkeyToAddress pub)
  | [] => Err (errorf "invalid public key")
  end.

(** [decodeSignature]; the recovery byte wraps. *)
Definition decodeSignature (sig : list byte) : res (Z * Z * Z) :=
  if negb (length sig =? 65)%nat then Panic else
  match sig !! 64%nat with
  | Some b => Ok (be_decode (take 32 sig), be_decode (take 32 (drop 32 sig)), (byteZ b + 27) mod 256)
  | None => Panic
  end.

(** [sig[64]] *)
Definition recoveryByte (sig : list byte) : res Z :=
  match sig !! 64%nat with Some b => Ok (byteZ b) | None => Panic end.

Inductive Signer : Type :=
  | FrontierSigner | HomesteadSigner | EIP155Signer (chainId : Z) | eip2930Signer (chainId : Z) | londonSigner (chainId : Z).

Definition ChainID (s : Signer) : option Z :=
  match s with
  | FrontierSigner | HomesteadSigner => None
  | EIP155Signer c | eip2930Signer c | londonSigner c => Some c
  end.

(** The unprotected hash of a transaction, with the accessors of every type. *)
Definition plainFields (tx : TxData) (d : list byte) : list rlpItem :=
  match tx with
  | LegacyTx n gp g t vl _ _ _ _ => [RUint n; RUint gp; RUint g; RTo t; RUint vl; RBytes d]
  | AccessListTx _ n gp g t vl _ _ _ _ _ => [RUint n; RUint gp; RUint g; RTo t; RUint vl; RBytes d]
  | DynamicFeeTx _ n _ fee g t vl _ _ _ _ _ => [RUint n; RUint fee; RUint g; RTo t; RUint vl; RBytes d]
  | X402Tx _ n t vl g gp _ _ _ _ _ _ => [RUint n; RUint gp; RUint g; RTo t; RUint vl; RBytes d]
  end.

Definition frontierHash (tx : TxData) : Hash := rlpHash (plainFields tx (data tx)).

(** A meta transaction is hashed without its meta data. *)
Definition eip155Hash (c : Z) (tx : TxData) : Hash :=
  let d := if IsMetaTransaction (data tx)
           then match DecodeMetaData (data tx) 0 with Ok m => Payload m | _ => data tx end
           else data tx in
  rlpHash (plainFields tx d ++ [RUint c; RUint 0; RUint 0]).

Definition eip2930Hash (c : Z) (tx : TxData) : Hash :=
  match tx with
  | LegacyTx _ _ _ _ _ _ _ _ _ => rlpHash (plainFields tx (data tx) ++ [RUint c; RUint 0; RUint 0])
  | AccessListTx _ n gp g t vl d al _ _ _ =>
      prefixedRlpHash AccessListTxType [RUint c; RUint n; RUint gp; RUint g; RTo t; RUint vl; RBytes d; RAccess al]
  | _ => 0
  end.

Definition londonHash (c : Z) (tx : TxData) : Hash :=
  match tx with
  | DynamicFeeTx _ n tip fee g t vl d al _ _ _ =>
      prefixedRlpHash DynamicFeeTxType
        [RUint c; RUint n; RUint tip; RUint fee; RUint g; RTo t; RUint vl; RBytes d; RAccess al]
  | _ => eip2930Hash c tx
  end.

(** [Signer.Hash] *)
Definition SigHash (s : Signer) (tx : TxData) : Hash :=
  match s with
  | FrontierSigner | HomesteadSigner => frontierHash tx
  | EIP155Signer c => eip155Hash c tx
  | eip2930Signer c => eip2930Hash c tx
  | londonSigner c => londonHash c tx
  end.

(** [FrontierSigner.Sender] and [HomesteadSigner.Sender] *)
Definition plainSender (homestead : bool) (tx : TxData) : res Address :=
  if negb (txType tx =? LegacyTxType) then Err ErrTxTypeNotSupported else
  let '(v, r, s) := rawSignatureValues tx in recoverPlain (frontierHash tx) r s v homestead.

Definition eip155Sender (c : Z) (tx : TxData) : res Address :=
  if negb (txType tx =? LegacyTxType) then Err ErrTxTypeNotSupported else
  if negb (Protected tx) then plainSender true tx else
  if negb (chainID tx =? c) then Err ErrInvalidChainId else
  let '(v, r, s) := rawSignatureValues tx in recoverPlain (eip155Hash c tx) r s (v - c * 2 - 8) true.

Definition eip2930Sender (c : Z) (tx : TxData) : res Address :=
  let '(v, r, s) := rawSignatureValues tx in
  let check v := if negb (chainID tx =? c) then Err ErrInvalidChainId else recoverPlain (eip2930Hash c tx) r s v true in
  match tx with
  | LegacyTx _ _ _ _ _ _ _ _ _ => if negb (Protected tx) then plainSender true tx else check (v - c * 2 - 8)
  | AccessListTx _ _ _ _ _ _ _ _ _ _ _ => check (v + 27)
  | _ => Err ErrTxTypeNotSupported
  end.

Definition londonSender (c : Z) (tx : TxData) : res Address :=
  match tx with
  | DynamicFeeTx _ _ _ _ _ _ _ _ _ _ _ _ =>
      let '(v, r, s) := rawSignatureValues tx in
      if negb (chainID tx =? c) then Err ErrInvalidChainId else recoverPlain (londonHash c tx) r s (v + 27) true
  | _ => eip2930Sender c tx
  end.

(** [Signer.Sender]; [types.Sender] caches it per signer. *)
Definition Sender (s : Signer) (tx : TxData) : res Address :=
  match s with
  | FrontierSigner => plainSender false tx
  | HomesteadSigner => plainSender true tx
  | EIP155Signer c => eip155Sender c tx
  | eip2930Signer c => eip2930Sender c tx
  | londonSigner c => londonSender c tx
  end.

Definition frontierValues (tx : TxData) (sig : list byte) : res (Z * Z * Z) :=
  if negb (txType tx =? LegacyTxType) then Err ErrTxTypeNotSupported else decodeSignature sig.

Definition eip155Values (c : Z) (tx : TxData) (sig : list byte) : res (Z * Z * Z) :=
  if negb (txType tx =? LegacyTxType) then Err ErrTxTypeNotSupported else
  rsv ← decodeSignature sig;
  if c =? 0 then Ok rsv else
  b ← recoveryByte sig;
  Ok (rsv.1.1, rsv.1.2, (b + 35) mod 256 + c * 2).

(** The values of a typed transaction, whose chain must be the signer's or not
    yet set. *)
Definition typedValues (c cid : Z) (sig : list byte) : res (Z * Z * Z) :=
  if negb (cid =? 0) && negb (cid =? c) then Err ErrInvalidChainId else
  rsv ← decodeSignature sig;
  b ← recoveryByte sig;
  Ok (rsv.1.1, rsv.1.2, b).

Definition eip2930Values (c : Z) (tx : TxData) (sig : list byte) : res (Z * Z * Z) :=
  match tx with
  | LegacyTx _ _ _ _ _ _ _ _ _ => eip155Values c tx sig
  | AccessListTx cid _ _ _ _ _ _ _ _ _ _ => typedValues c cid sig
  | _ => Err ErrTxTypeNotSupported
  end.

Definition londonValues (c : Z) (tx : TxData) (sig : list byte) : res (Z * Z * Z) :=
  match tx with
  | DynamicFeeTx cid _ _ _ _ _ _ _ _ _ _ _ => typedValues c cid sig
  | _ => eip2930Values c tx sig
  end.

(** [Signer.SignatureValues]: R, S, V *)
Definition SignatureValues (s : Signer) (tx : TxData) (sig : list byte) : res (Z * Z * Z) :=
  match s with
  | FrontierSigner | HomesteadSigner => frontierValues tx sig
  | EIP155Signer c => eip155Values c tx sig
  | eip2930Signer c => eip2930Values c tx sig
  | londonSigner c => londonValues c tx sig
  end.

Definition WithSignature (s : Signer) (tx : TxData) (sig : list byte) : res TxData :=
  rsv ← SignatureValues s tx sig;
  Ok (setSignatureValues (ChainID s) rsv.2 rsv.1.1 rsv.1.2 tx).

Definition SignTx (tx : TxData) (s : Signer) (prv : PrivateKey) : res TxData :=
  sig ← Sign (SigHash s tx) prv;
  WithSignature s tx sig.

Definition MakeSigner (config : ChainConfig) (blockNumber : Z) : Signer :=
  let c := default 0 (Params.ChainID config) in
  if IsLondon config (Some blockNumber) then londonSigner c
  else if IsBerlin config (Some blockNumber) then eip2930Signer c
  else if IsEIP155 config (Some blockNumber) then EIP155Signer c
  else if IsHomestead config (Some blockNumber) then HomesteadSigner
  else FrontierSigner.

Definition LatestSignerForChainID (c : option Z) : Signer :=
  match c with None => HomesteadSigner | Some c => londonSigner c end.

(** [decodeTyped], without the decoders of the contents: the types that can come
    in from the network or the disk. *)
Definition decodableType (b : list byte) : res Z :=
  match b with
  | [] => Err errEmptyTypedTx
  | t :: _ => if (byteZ t =? AccessListTxType) || (byteZ t =? DynamicFeeTxType) then Ok (byteZ t) else Err ErrTxTypeNotSupported
  end.

(** [NewX402Tx] *)
Definition NewX402Tx (chain : Z) (nonce : Z) (to : option Address) (payload : list byte) : TxData :=
  X402Tx chain nonce to 0 8000000 4000000000 4000000000 4000000000 payload 0 0 0.
End Signers.

(** What the curve library promises: a signature is 64 bytes of a low, valid
    pair and a recovery byte, the key it was made with is recovered from it, and
    recovery fails with an error. *)
Class TxCryptoLaws `{TxCrypto} : Prop := {
  PublicKey_form : forall k, exists rest, PublicKey k = Byte.x04 :: rest;
  Sign_form : forall h k sig, Sign h k = Ok sig -> exists r s v : Z,
    sig = be_encode 32 r ++ be_encode 32 s ++ [Zbyte v] /\ 1 <= r < secp256k1N /\ 1 <= s <= secp256k1halfN /\ (v = 0 \/ v = 1);
  Sign_recovers : forall h k sig, Sign h k = Ok sig -> Ecrecover h sig = Ok (PublicKey k);
  Ecrecover_returns : forall h sig, Ecrecover h sig <> Panic;
}.
Arguments TxCryptoLaws : clear implicits.
Arguments TxCryptoLaws {_}.

(** ** What signing a transaction guarantees (core/types/transaction_signing.go)

    A transaction signed by a signer is recovered by it, to the signing key; it
    is refused on every other chain; the payment transactions cannot be signed,
    recovered or decoded at all; meta data are signed by some signers only. *)

Section Signing.
Context `{!TxCrypto} `{!MetaCodec}.

(** ** The raw values *)

Lemma bitLen_le z n : 0 <= z -> 0 <= n -> (bitLen z <=? n) = true <-> z < 2 ^ n.
Proof.
  intros Hz Hn. unfold bitLen. rewrite Z.leb_le. destruct (Z.eqb_spec z 0) as [->|Hne]; [split; [intros _; by apply Z.pow_pos_nonneg|lia]|].
  rewrite Z.abs_eq by done. rewrite (Z.log2_lt_pow2 z n) by lia. lia.
Qed.

(** The [V] of a protected legacy signature. *)
Lemma protected_V c v : 0 < c -> v = 0 \/ v = 1 -> isProtectedV (35 + v + c * 2) = true /\ deriveChainId (35 + v + c * 2) = c.
Proof.
  intros Hc Hv. set (V := 35 + v + c * 2). assert (HV : 37 <= V) by lia. split.
  - unfold isProtectedV. destruct (bitLen V <=? 8) eqn:E; [|done]. apply bitLen_le in E; [|lia|lia].
    unfold bigUint64. rewrite Z.abs_eq, u64_small by (unfold is_u64; lia). rewrite !(proj2 (Z.eqb_neq V _)) by lia. done.
  - unfold deriveChainId. destruct (bitLen V <=? 64) eqn:E; [|unfold V; lia]. apply bitLen_le in E; [|lia|lia].
    unfold bigUint64. rewrite Z.abs_eq, u64_small by (unfold is_u64; lia). rewrite !(proj2 (Z.eqb_neq V _)) by lia. cbn [orb].
    rewrite u64_small by (unfold is_u64; lia). unfold V. lia.
Qed.

Lemma signature_parts r s v : 0 <= r < 2 ^ 256 -> 0 <= s < 2 ^ 256 -> v = 0 \/ v = 1 ->
  decodeSignature (be_encode 32 r ++ be_encode 32 s ++ [Zbyte v]) = Ok (r, s, 27 + v) /\
  recoveryByte (be_encode 32 r ++ be_encode 32 s ++ [Zbyte v]) = Ok v.
Proof.
  intros Hr Hs Hv. set (sig := be_encode 32 r ++ be_encode 32 s ++ [Zbyte v]).
  assert (Hlen : length sig = 65%nat) by (unfold sig; by rewrite !length_app, !length_be_encode).
  assert (Hlast : sig !! 64%nat = Some (Zbyte v)).
  { unfold sig. rewrite !lookup_app_r by (rewrite !length_be_encode; lia). by rewrite !length_be_encode. }
  assert (Hb : byteZ (Zbyte v) = v) by (rewrite byteZ_Zbyte; destruct Hv as [-> | ->]; done).
  unfold decodeSignature, recoveryByte. rewrite Hlen, Hlast, Hb. cbn [Nat.eqb negb]. split; [|done]. f_equal. f_equal; [|destruct Hv as [-> | ->]; done]. f_equal.
  - unfold sig. rewrite take_app_length' by (symmetry; apply length_be_encode). rewrite be_decode_encode. apply Z.mod_small. done.
  - unfold sig. rewrite drop_app_length' by (symmetry; apply length_be_encode). rewrite take_app_length' by (symmetry; apply length_be_encode).
    rewrite be_decode_encode. apply Z.mod_small. done.
Qed.

Context `{!TxCryptoLaws}.

Definition keyAddress (k : PrivateKey) : Address := PubkeyToAddress (PublicKey k).

Lemma low_values (r s : Z) : 1 <= r < secp256k1N -> 1 <= s <= secp256k1halfN ->
  0 <= r < 2 ^ 256 /\ 0 <= s < 2 ^ 256 /\ s < secp256k1N.
Proof.
  intros Hr Hs. assert (HN : secp256k1N < 2 ^ 256) by done. assert (Hh : secp256k1halfN < secp256k1N) by done. lia.
Qed.

(** Who is recovered from a signature of a key. *)
Lemma recover_signed h k r s v homestead : Sign h k = Ok (be_encode 32 r ++ be_encode 32 s ++ [Zbyte v]) ->
  1 <= r < secp256k1N -> 1 <= s <= secp256k1halfN -> v = 0 \/ v = 1 -> recoverPlain h r s (27 + v) homestead = Ok (keyAddress k).
Proof.
  intros Hsig Hr Hs Hv. unfold recoverPlain.
  assert (HV : (8 <? bitLen (27 + v)) = false /\ (bigUint64 (27 + v) -w 27) mod 256 = v) by (destruct Hv as [-> | ->]; done).
  destruct HV as [-> ->]. destruct (low_values r s Hr Hs) as (_ & _ & HsN).
  assert (Hval : ValidateSignatureValues v r s homestead = true).
  { unfold ValidateSignatureValues. rewrite !(proj2 (Z.ltb_ge _ 1)) by lia. cbn [orb].
    rewrite (proj2 (Z.ltb_ge secp256k1halfN s)), andb_false_r by lia. rewrite !(proj2 (Z.ltb_lt _ secp256k1N)) by lia. cbn [andb].
    destruct Hv as [-> | ->]; done. }
  rewrite Hval. cbn [negb]. rewrite (Sign_recovers _ _ _ Hsig). cbn [mbind res_bind].
  destruct (PublicKey_form k) as [rest Hk]. rewrite Hk. unfold keyAddress. by rewrite Hk.
Qed.

(** ** Signing and recovering *)

(** The transactions a signer signs, on a chain with an identifier. *)
Definition supports (s : Signer) (tx : TxData) : Prop :=
  match s, tx with
  | (FrontierSigner | HomesteadSigner), LegacyTx _ _ _ _ _ _ _ _ _ => True
  | (EIP155Signer c | eip2930Signer c | londonSigner c), LegacyTx _ _ _ _ _ _ _ _ _ => 0 < c
  | (eip2930Signer c | londonSigner c), AccessListTx cid _ _ _ _ _ _ _ _ _ _ => cid = 0 \/ cid = c
  | londonSigner c, DynamicFeeTx cid _ _ _ _ _ _ _ _ _ _ _ => cid = 0 \/ cid = c
  | _, _ => False
  end.

(** The transaction without its signature. *)
Definition unsigned (tx : TxData) : TxData := setSignatureValues (Some 0) 0 0 0 tx.

(** The [V] a signer stores for a recovery byte. *)
Definition storedV (s : Signer) (tx : TxData) (v : Z) : Z :=
  match s, tx with
  | (EIP155Signer c | eip2930Signer c | londonSigner c), LegacyTx _ _ _ _ _ _ _ _ _ => 35 + v + c * 2
  | (FrontierSigner | HomesteadSigner), _ => 27 + v
  | _, _ => v
  end.

Lemma with_signature s tx r sv v : supports s tx -> 0 <= r < 2 ^ 256 -> 0 <= sv < 2 ^ 256 -> v = 0 \/ v = 1 ->
  WithSignature s tx (be_encode 32 r ++ be_encode 32 sv ++ [Zbyte v]) = Ok (setSignatureValues (ChainID s) (storedV s tx v) r sv tx).
Proof.
  intros Hsup Hr Hs Hv. destruct (signature_parts r sv v Hr Hs Hv) as [Hd Hb]. revert Hd Hb.
  generalize (be_encode 32 r ++ be_encode 32 sv ++ [Zbyte v]). intros sig Hd Hb.
  assert (H35 : (v + 35) mod 256 = 35 + v) by (destruct Hv as [-> | ->]; done).
  assert (Hlegacy : forall c, 0 < c -> forall n gp g t vl d a b e, eip155Values c (LegacyTx n gp g t vl d a b e) sig = Ok (r, sv, 35 + v + c * 2)).
  { intros c Hc n gp g t vl d a b e. unfold eip155Values. cbn [txType]. rewrite Hd, Hb. cbn [mbind res_bind fst snd negb].
    change (LegacyTxType =? LegacyTxType) with true. rewrite (proj2 (Z.eqb_neq c 0)) by lia. by rewrite H35. }
  assert (Htyped : forall c cid, cid = 0 \/ cid = c -> typedValues c cid sig = Ok (r, sv, v)).
  { intros c cid Hcid. unfold typedValues. rewrite Hd, Hb. cbn [mbind res_bind fst snd].
    destruct Hcid as [-> | ->]; [done|]. by rewrite Z.eqb_refl, andb_false_r. }
  unfold WithSignature. destruct s as [| |c|c|c], tx; cbn [supports] in Hsup; try done;
    cbn [SignatureValues eip2930Values londonValues frontierValues];
    rewrite ?Hlegacy, ?Htyped by done; unfold frontierValues; cbn [txType]; change (LegacyTxType =? LegacyTxType) with true;
    cbn [negb]; rewrite ?Hd; done.
Qed.

(** C34: Whatever a signer signs with a key it recovers to the address of that
    key: for every fork's signer, every transaction type that signer handles,
    and every chain identifier, signing succeeds when the curve library does,
    changes nothing in the transaction but its signature (and fills in the chain
    of a typed one), does not change what is signed, and the sender of the
    result is the address of the key. *)
Theorem sign_recovers s tx k sig : supports s tx -> Sign (SigHash s tx) k = Ok sig ->
  exists tx', SignTx tx s k = Ok tx' /\ Sender s tx' = Ok (keyAddress k) /\
    unsigned tx' = unsigned tx /\ SigHash s tx' = SigHash s tx.
Proof.
  intros Hsup Hsig. destruct (Sign_form _ _ _ Hsig) as (r & sv & v & -> & Hr & Hs & Hv).
  destruct (low_values r sv Hr Hs) as (Hr' & Hs' & _).
  exists (setSignatureValues (ChainID s) (storedV s tx v) r sv tx). unfold SignTx. rewrite Hsig. cbn [mbind res_bind].
  rewrite with_signature by done. split; [done|].
  assert (Hhash : SigHash s (setSignatureValues (ChainID s) (storedV s tx v) r sv tx) = SigHash s tx) by (by destruct s, tx).
  assert (Hun : unsigned (setSignatureValues (ChainID s) (storedV s tx v) r sv tx) = unsigned tx) by (by destruct s, tx).
  split; [|done]. rewrite <- Hhash in Hsig. revert Hsig. clear Hhash Hun.
  pose proof (fun h => recover_signed h k r sv v) as Hrec.
  destruct s as [| |c|c|c], tx; cbn [supports] in Hsup; try done; cbn [setSignatureValues storedV Signing.ChainID SigHash]; intros Hsig.
  - apply Hrec; done.
  - apply Hrec; done.
  - destruct (protected_V c v Hsup Hv) as [Hp Hd]. cbn [Sender]. unfold eip155Sender. cbn [txType Protected chainID rawSignatureValues].
    change (LegacyTxType =? LegacyTxType) with true. rewrite Hp, Hd, Z.eqb_refl. cbn [negb].
    replace (35 + v + c * 2 - c * 2 - 8) with (27 + v) by lia. by apply Hrec.
  - destruct (protected_V c v Hsup Hv) as [Hp Hd]. cbn [Sender]. unfold eip2930Sender. cbn [Protected chainID rawSignatureValues].
    rewrite Hp, Hd, Z.eqb_refl. cbn [negb]. replace (35 + v + c * 2 - c * 2 - 8) with (27 + v) by lia. by apply Hrec.
  - cbn [Sender default]. unfold eip2930Sender. cbn [chainID rawSignatureValues]. rewrite Z.eqb_refl. cbn [negb].
    rewrite (Z.add_comm v 27). by apply Hrec.
  - destruct (protected_V c v Hsup Hv) as [Hp Hd]. cbn [Sender londonSender]. unfold eip2930Sender. cbn [Protected chainID rawSignatureValues].
    rewrite Hp, Hd, Z.eqb_refl. cbn [negb]. replace (35 + v + c * 2 - c * 2 - 8) with (27 + v) by lia. by apply Hrec.
  - cbn [Sender londonSender default]. unfold eip2930Sender. cbn [chainID rawSignatureValues]. rewrite Z.eqb_refl. cbn [negb].
    rewrite (Z.add_comm v 27). by apply Hrec.
  - cbn [Sender londonSender default]. cbn [chainID rawSignatureValues]. rewrite Z.eqb_refl. cbn [negb].
    rewrite (Z.add_comm v 27). by apply Hrec.
Qed.

(** The signer of the same fork on another chain. *)
Definition onChain (c : Z) (s : Signer) : Signer :=
  match s with
  | FrontierSigner | HomesteadSigner => s
  | EIP155Signer _ => EIP155Signer c | eip2930Signer _ => eip2930Signer c | londonSigner _ => londonSigner c
  end.

(** A transaction signed for one chain is refused on every other: the
    signers of the same fork there find the wrong chain identifier in the
    signature, for legacy and for typed transactions. *)
Theorem foreign_chain_refused s tx k tx' c c' : supports s tx -> ChainID s = Some c -> c' <> c ->
  SignTx tx s k = Ok tx' -> Sender (onChain c' s) tx' = Err ErrInvalidChainId.
Proof.
  intros Hsup Hc Hne Hsign. unfold SignTx in Hsign. inv_bind Hsign.
  destruct (Sign_form _ _ _ Hm) as (r & sv & v & -> & Hr & Hs & Hv). destruct (low_values r sv Hr Hs) as (Hr' & Hs' & _).
  rewrite with_signature in Hsign by done. injection Hsign as <-. apply not_eq_sym in Hne.
  destruct s as [| |d|d|d], tx; cbn [supports Signing.ChainID] in *; try done; injection Hc as ->;
    cbn [onChain Sender londonSender setSignatureValues storedV Signing.ChainID]; unfold eip155Sender, eip2930Sender;
    cbn [txType Protected chainID rawSignatureValues];
    try (destruct (protected_V c v Hsup Hv) as [-> ->]); change (default 0 (Some c)) with c;
    rewrite (proj2 (Z.eqb_neq c c')) by done; done.
Qed.

(** ** Payment transactions *)

(** The payment transaction type is not known to any signer nor to the
    decoder: no signature can be put into such a transaction, its sender is
    never recovered, whatever signature values it carries, and a node that
    receives its encoding refuses it. *)
Theorem x402_unsupported s chain nonce to vl g gp fee tip input v r sv sig rest :
  let tx := X402Tx chain nonce to vl g gp fee tip input v r sv in
  SignatureValues s tx sig = Err ErrTxTypeNotSupported /\ WithSignature s tx sig = Err ErrTxTypeNotSupported /\
  Sender s tx = Err ErrTxTypeNotSupported /\ decodableType (Zbyte (txType tx) :: rest) = Err ErrTxTypeNotSupported.
Proof. intros tx. split_and!; by destruct s. Qed.

(** ** Meta data *)

(** The signer of EIP-155 strips the meta data before hashing, the later ones do
    not: with hashes that do not collide they never agree on a meta
    transaction whose meta data decode. *)
Lemma meta_hash_differs c n gp g t vl d v r sv m : (forall l1 l2, rlpHash l1 = rlpHash l2 -> l1 = l2) ->
  IsMetaTransaction d = true -> DecodeMetaData d 0 = Ok m -> Payload m <> d ->
  let tx := LegacyTx n gp g t vl d v r sv in
  SigHash (EIP155Signer c) tx <> SigHash (londonSigner c) tx.
Proof.
  intros Hinj Hm Hd Hne tx. unfold tx. cbn [SigHash]. unfold eip155Hash, londonHash, eip2930Hash. cbn [data]. rewrite Hm, Hd.
  intros Heq%Hinj. cbn [plainFields app] in Heq. congruence.
Qed.
End Signing.

(** ** A toy curve

    The signature carries the key, reduced to a thousand values. *)

#[local] Instance toyCurve : TxCrypto := {|
  rlpHash l := Z.of_nat (length l);
  prefixedRlpHash t l := t + Z.of_nat (length l);
  PrivateKey := Z;
  PublicKey k := Byte.x04 :: be_encode 64 (k mod 1000 + 1);
  Sign h k := Ok (be_encode 32 (k mod 1000 + 1) ++ be_encode 32 1 ++ [Zbyte 0]);
  Ecrecover h sig := Ok (Byte.x04 :: be_encode 64 (be_decode (take 32 sig)));
  Keccak256 l := l;
|}.

#[local] Instance toyCurveLaws : TxCryptoLaws.
Proof.
  split.
  - intros k. by eexists.
  - intros h k sig Hs. injection Hs as <-. eexists _, 1, 0. split; [done|]. assert (HN : 1000 < secp256k1N) by done.
    assert (Hh : 1 <= secp256k1halfN) by done. split_and!; try lia.
  - intros h k sig Hs. assert (sig = be_encode 32 (k mod 1000 + 1) ++ be_encode 32 1 ++ [Zbyte 0]) as -> by (unfold Sign, toyCurve in Hs; congruence).
    unfold Ecrecover, PublicKey, toyCurve. do 2 f_equal. f_equal. rewrite take_app_length' by (symmetry; apply length_be_encode). rewrite be_decode_encode. apply Z.mod_small. split; [lia|].
    assert (1001 < 256 ^ Z.of_nat 32) by done. lia.
  - done.
Qed.

#[local] Instance noMeta : MetaCodec := {| rlpDecodeMeta _ := Err (errorf "none"); RecoverPlain _ _ _ _ := Err (errorf "none") |}.

Definition toyKey : @PrivateKey toyCurve := 7.
Definition sampleTyped : TxData := DynamicFeeTx 0 3 1 2 21000 (Some 9) 5 [] [] 0 0 0.

Lemma sign_recovers_witness : exists tx', SignTx sampleTyped (londonSigner 2691) toyKey = Ok tx' /\
  Sender (londonSigner 2691) tx' = Ok (keyAddress toyKey).
Proof.
  destruct (sign_recovers (londonSigner 2691) sampleTyped toyKey (be_encode 32 8 ++ be_encode 32 1 ++ [Zbyte 0]))
    as (tx' & Hs & Hr & _); [by left|reflexivity|]. exists tx'. by split.
Defined.

Lemma foreign_chain_refused_witness : exists tx', SignTx sampleTyped (londonSigner 2691) toyKey = Ok tx' /\
  Sender (londonSigner 1) tx' = Err ErrInvalidChainId.
Proof.
  eexists. split; [reflexivity|].
  apply (foreign_chain_refused (londonSigner 2691) sampleTyped toyKey _ 2691 1); [by left|reflexivity|done|reflexivity].
Defined.
