(* ===== verification/Text.v ===== *)
(** * Numbers and addresses as text (common/types.go, common/hexutil/hexutil.go)

    A Go string is the list of its bytes.  The printers are those of the code
    and of Go's [fmt], [strings] and [math/big]; each comes with a reader that
    takes its output back, whatever the case of the letters. *)

From S2P Require Import Prelude Params Types Misc Snapshot Contracts StateTransition Signing.

Definition text (s : string) : list byte := String.list_byte_of_string s.

(** [':'], the separator of the fields of a message *)
Definition colon : byte := Byte.x3a.
Definition minus : byte := Byte.x2d.

(** ** Printers *)

(** A digit in base 16 or less, in lower case. *)
Definition digitChar (d : Z) : byte := Zbyte (if d <? 10 then 48 + d else 87 + d).

Fixpoint digitsOf (fuel : nat) (base z : Z) (acc : list byte) : list byte :=
  match fuel with
  | O => acc
  | S fuel =>
      let acc := digitChar (z mod base) :: acc in
      if z <? base then acc else digitsOf fuel base (z / base) acc
  end.

(** [big.Int.Text] and, in base ten, [%d]; a number has no more digits than bits. *)
Definition bigText (base z : Z) : list byte :=
  let l := digitsOf (Z.to_nat (bitLen z) + 1) base (Z.abs z) [] in
  if z <? 0 then minus :: l else l.

(** [hex.Encode] *)
Definition hexPairs (l : list byte) : list byte :=
  l ≫= fun b => [digitChar (byteZ b / 16); digitChar (byteZ b mod 16)].

(** [hexutil.Encode] *)
Definition Encode (l : list byte) : list byte := text "0x" ++ hexPairs l.

(** [hexutil.EncodeBig] *)
Definition EncodeBig (z : Z) : list byte :=
  if z =? 0 then text "0x0"
  else if 0 <? z then text "0x" ++ bigText 16 z
  else text "-0x" ++ drop 1 (bigText 16 z).

(** [strings.ToLower], on the letters it is given here. *)
Definition lowerByte (b : byte) : byte := if (65 <=? byteZ b) && (byteZ b <=? 90) then Zbyte (byteZ b + 32) else b.
Definition ToLower (l : list byte) : list byte := lowerByte <$> l.

(** [Hash.Hex] *)
Definition HashHex (h : Hash) : list byte := Encode (be_encode 32 h).

Section Hex.
Context `{TxCrypto}.

(** The loop of [checksumHex]: a letter becomes a capital when its digit of the
    hash is above seven; the hash has a digit for every one of the forty. *)
Definition checksumDigits (hash digits : list byte) : list byte :=
  imap (fun i b =>
    let h := byteZ (default Byte.x00 (hash !! (i / 2)%nat)) in
    let h := if Nat.even i then h / 16 else h mod 16 in
    if (57 <? byteZ b) && (7 <? h) then Zbyte (byteZ b - 32) else b) digits.

(** [Address.Hex] *)
Definition AddressHex (a : Address) : list byte :=
  let digits := hexPairs (be_encode 20 a) in
  text "0x" ++ checksumDigits (Keccak256 digits) digits.
End Hex.

(** ** Readers *)

Definition digitVal (b : byte) : Z :=
  let c := byteZ b in if 97 <=? c then c - 87 else if 65 <=? c then c - 55 else c - 48.

Definition readDigits (base acc : Z) (l : list byte) : Z := foldl (fun n b => n * base + digitVal b) acc l.
Definition readHex (l : list byte) : Z := readDigits 16 0 (drop 2 l).

(** A number with a sign, in base sixteen after [0x] and in base ten otherwise. *)
Definition readUnsigned (l : list byte) : Z :=
  if bool_decide (take 2 l = text "0x") then readHex l else readDigits 10 0 l.
Definition readNumber (l : list byte) : Z :=
  match l with
  | b :: l' => if bool_decide (b = minus) then - readUnsigned l' else readUnsigned l
  | [] => 0
  end.

(** Lists of fields and their separation. *)
Fixpoint joinColon (fields : list (list byte)) : list byte :=
  match fields with
  | [] => []
  | [f] => f
  | f :: fields => f ++ colon :: joinColon fields
  end.

Fixpoint splitColon (cur l : list byte) : list (list byte) :=
  match l with
  | [] => [cur]
  | b :: l => if bool_decide (b = colon) then cur :: splitColon [] l else splitColon (cur ++ [b]) l
  end.

Lemma split_field f rest cur : colon ∉ f -> splitColon cur (f ++ rest) = splitColon (cur ++ f) rest.
Proof.
  revert cur. induction f as [|b f IH]; intros cur Hf; [by rewrite app_nil_r|].
  apply not_elem_of_cons in Hf as [Hb Hf]. cbn [app splitColon]. rewrite bool_decide_eq_false_2 by congruence.
  rewrite IH by done. by rewrite <- app_assoc.
Qed.

Lemma split_join fields : fields <> [] -> Forall (fun f => colon ∉ f) fields -> splitColon [] (joinColon fields) = fields.
Proof.
  intros Hne Hall. induction Hall as [|f fields Hf Hall IH]; [done|]. destruct fields as [|g fields].
  - change (joinColon [f]) with f. rewrite <- (app_nil_r f) at 1. by rewrite split_field.
  - change (joinColon (f :: g :: fields)) with (f ++ colon :: joinColon (g :: fields)). rewrite split_field by done.
    cbn [splitColon app]. rewrite bool_decide_eq_true_2 by done. by rewrite IH.
Qed.

(** A constant text without the separator. *)
Ltac constant_text := refine (bool_decide_eq_true_1 (colon ∉ _) _); vm_compute; reflexivity.

(** ** The characters of a number *)

(** A digit or one of the letters [a] to [f], in either case. *)
Definition hexChar (b : byte) : Prop := 48 <= byteZ b <= 57 \/ 97 <= byteZ b <= 102 \/ 65 <= byteZ b <= 70.
Definition decChar (b : byte) : Prop := 48 <= byteZ b <= 57.
Definition lowChar (b : byte) : Prop := 48 <= byteZ b <= 57 \/ 97 <= byteZ b <= 102.

Lemma digitChar_val d : 0 <= d < 16 -> lowChar (digitChar d) /\ digitVal (digitChar d) = d /\ (d < 10 -> decChar (digitChar d)).
Proof.
  intros Hd. unfold lowChar, decChar, digitVal, digitChar. rewrite byteZ_Zbyte. destruct (Z.ltb_spec d 10);
    rewrite Z.mod_small by lia; repeat case_match; lia.
Qed.

Lemma no_colon l : Forall hexChar l -> colon ∉ l.
Proof. intros Hl Hin. rewrite list.Forall_forall in Hl. specialize (Hl _ Hin). unfold hexChar in Hl. change (byteZ colon) with 58 in Hl. lia. Qed.

Lemma low_hex l : Forall lowChar l -> Forall hexChar l.
Proof. intros Hl. eapply list.Forall_impl; [exact Hl|]. unfold lowChar, hexChar. lia. Qed.

Lemma dec_hex l : Forall decChar l -> Forall hexChar l.
Proof. intros Hl. eapply list.Forall_impl; [exact Hl|]. unfold decChar, hexChar. lia. Qed.

Lemma bits_bound z : 0 <= z -> z < 2 ^ Z.of_nat (Z.to_nat (bitLen z) + 1).
Proof.
  intros Hz. unfold bitLen. destruct (Z.eqb_spec z 0) as [->|Hne]; [done|]. rewrite Z.abs_eq by done.
  pose proof (Z.log2_nonneg z) as Hl. replace (Z.of_nat (Z.to_nat (Z.log2 z + 1) + 1)) with (Z.succ (Z.log2 z) + 1) by lia.
  pose proof (proj2 (Z.log2_spec z ltac:(lia))) as Hs. rewrite Z.pow_add_r by lia. lia.
Qed.

Lemma digitsOf_spec fuel base z acc : 2 <= base <= 16 -> 0 <= z < 2 ^ Z.of_nat fuel ->
  exists d, d <> [] /\ digitsOf fuel base z acc = d ++ acc /\ Forall lowChar d /\ (base <= 10 -> Forall decChar d) /\
    readDigits base 0 d = z \/ fuel = O.
Proof.
  intros Hb. revert z acc. induction fuel as [|fuel IH]; intros z acc Hz; [exists []; by right|].
  assert (Hd : 0 <= z mod base < base) by (apply Z.mod_pos_bound; lia).
  destruct (digitChar_val (z mod base)) as (Hhex & Hval & Hdec); [lia|].
  cbn [digitsOf]. destruct (Z.ltb_spec z base) as [Hlt|Hge].
  - exists [digitChar (z mod base)]. left. split_and!; try done; [by constructor| |].
    + intros Hten. constructor; [|constructor]. apply Hdec. lia.
    + cbn [readDigits foldl]. rewrite Hval, Z.mod_small by lia. lia.
  - assert (Hz' : 0 <= z / base < 2 ^ Z.of_nat fuel).
    { rewrite Nat2Z.inj_succ, Z.pow_succ_r in Hz by lia. split; [apply Z.div_pos; lia|]. apply Z.div_lt_upper_bound; [lia|]. nia. }
    destruct (IH (z / base) (digitChar (z mod base) :: acc) Hz') as (d & [(Hne & -> & Hx & Hdc & Hr)|Hf]).
    + exists (d ++ [digitChar (z mod base)]). left. split_and!.
      * by destruct d.
      * by rewrite <- app_assoc.
      * apply Forall_app. split; [done|]. by constructor.
      * intros Hten. apply Forall_app. split; [by apply Hdc|]. constructor; [|constructor]. apply Hdec. lia.
      * unfold readDigits in *. rewrite foldl_app, Hr. cbn [foldl]. rewrite Hval. rewrite Z.mul_comm. symmetry. apply Z.div_mod. lia.
    + subst fuel. cbn in Hz'. exists []. exfalso. assert (1 <= z / base) by (apply Z.div_le_lower_bound; lia). lia.
Qed.

Lemma bigText_spec base z : 2 <= base <= 16 -> 0 <= z ->
  bigText base z <> [] /\ Forall lowChar (bigText base z) /\ (base <= 10 -> Forall decChar (bigText base z)) /\
  readDigits base 0 (bigText base z) = z.
Proof.
  intros Hb Hz. unfold bigText. rewrite (proj2 (Z.ltb_ge z 0)) by lia. rewrite Z.abs_eq by done.
  destruct (digitsOf_spec (Z.to_nat (bitLen z) + 1) base z [] Hb) as (d & [(Hne & -> & Hx & Hd & Hr)|Hf]).
  - split; [done|]. by apply bits_bound.
  - by rewrite app_nil_r.
  - lia.
Qed.

Lemma bigText_neg base z : z < 0 -> bigText base z = minus :: bigText base (- z).
Proof.
  intros Hz. unfold bigText. rewrite (proj2 (Z.ltb_lt z 0)), (proj2 (Z.ltb_ge (- z) 0)) by lia.
  unfold bitLen. rewrite Z.abs_opp. by rewrite (proj2 (Z.eqb_neq z 0)), (proj2 (Z.eqb_neq (- z) 0)) by lia.
Qed.

(** ** Reading back *)

Lemma unsigned_dec l : Forall decChar l -> readUnsigned l = readDigits 10 0 l.
Proof.
  intros Hl. unfold readUnsigned. rewrite bool_decide_eq_false_2; [done|]. intros Htake.
  destruct l as [|a [|b l]]; try done. change (text "0x") with [Byte.x30; Byte.x78] in Htake. injection Htake as -> ->.
  apply list.Forall_cons in Hl as [_ Hl]. apply list.Forall_cons in Hl as [Hx _]. unfold decChar in Hx. change (byteZ Byte.x78) with 120 in Hx. lia.
Qed.

Lemma not_minus b l : lowChar b -> readNumber (b :: l) = readUnsigned (b :: l).
Proof. intros Hb. cbn [readNumber]. rewrite bool_decide_eq_false_2; [done|]. intros ->. unfold lowChar in Hb. change (byteZ minus) with 45 in Hb. lia. Qed.

Lemma read_decimal z : readNumber (bigText 10 z) = z /\ colon ∉ bigText 10 z.
Proof.
  assert (Hpos : forall n, 0 <= n -> readNumber (bigText 10 n) = n /\ readUnsigned (bigText 10 n) = n /\ colon ∉ bigText 10 n).
  { intros n Hn. destruct (bigText_spec 10 n) as (Hne & Hx & Hd & Hr); [lia|done|]. specialize (Hd ltac:(lia)).
    assert (Hu : readUnsigned (bigText 10 n) = n) by (by rewrite unsigned_dec). split_and!; [|done|by apply no_colon, low_hex].
    destruct (bigText 10 n) as [|b l]; [done|]. apply list.Forall_cons in Hx as [Hb _]. by rewrite not_minus. }
  destruct (Z.lt_ge_cases z 0) as [Hz|Hz].
  - rewrite bigText_neg by done. destruct (Hpos (- z)) as (_ & Hu & Hc); [lia|]. split.
    + cbn [readNumber]. rewrite bool_decide_eq_true_2 by done. rewrite Hu. lia.
    + apply not_elem_of_cons. split; [done|done].
  - destruct (Hpos z Hz) as (Hr & _ & Hc). done.
Qed.

Lemma unsigned_hex l : readUnsigned (text "0x" ++ l) = readDigits 16 0 l.
Proof. done. Qed.

Lemma read_hex_value z : readNumber (EncodeBig z) = z /\ colon ∉ EncodeBig z.
Proof.
  unfold EncodeBig. destruct (Z.eqb_spec z 0) as [->|Hne]; [split; [done|by constant_text]|].
  destruct (Z.ltb_spec 0 z) as [Hz|Hz].
  - destruct (bigText_spec 16 z) as (_ & Hx & _ & Hr); [lia|lia|]. split; [by rewrite <- Hr at 2|].
    rewrite not_elem_of_app. split; [by constant_text|by apply no_colon, low_hex].
  - rewrite bigText_neg by lia. change (drop 1 (minus :: ?l)) with l. destruct (bigText_spec 16 (- z)) as (_ & Hx & _ & Hr); [lia|lia|]. split.
    + change (text "-0x" ++ ?l) with (minus :: text "0x" ++ l). cbn [readNumber]. rewrite bool_decide_eq_true_2 by done.
      rewrite unsigned_hex. rewrite Hr. lia.
    + rewrite not_elem_of_app. split; [by constant_text|by apply no_colon, low_hex].
Qed.

Lemma hexPairs_spec l acc : readDigits 16 acc (hexPairs l) = be_acc acc l /\ Forall lowChar (hexPairs l).
Proof.
  revert acc. induction l as [|b l IH]; intros acc; [by split|]. pose proof (byteZ_range b) as Hb.
  destruct (digitChar_val (byteZ b / 16)) as (Hh & Hvh & _); [lia|]. destruct (digitChar_val (byteZ b mod 16)) as (Hl & Hvl & _); [lia|].
  change (hexPairs (b :: l)) with (digitChar (byteZ b / 16) :: digitChar (byteZ b mod 16) :: hexPairs l). split.
  - unfold readDigits. cbn [foldl be_acc]. rewrite Hvh, Hvl. fold (readDigits 16 ((acc * 16 + byteZ b / 16) * 16 + byteZ b mod 16) (hexPairs l)).
    rewrite (proj1 (IH _)). f_equal. lia.
  - constructor; [done|]. constructor; [done|]. apply (IH acc).
Qed.

Lemma be_acc_encode n z : be_acc 0 (be_encode n z) = z mod 256 ^ Z.of_nat n.
Proof. exact (be_decode_encode n z). Qed.

Lemma encode_read n z : readHex (Encode (be_encode n z)) = z mod 256 ^ Z.of_nat n /\ colon ∉ Encode (be_encode n z).
Proof.
  destruct (hexPairs_spec (be_encode n z) 0) as [Hr Hx]. split.
  - unfold Encode, readHex. cbn [app drop text]. change (drop 2 (text "0x" ++ ?l)) with l. rewrite Hr. apply be_acc_encode.
  - unfold Encode. rewrite not_elem_of_app. split; [by constant_text|by apply no_colon, low_hex].
Qed.

(** Changing the case of letters changes neither the characters nor the value. *)
Definition same_digit (a b : byte) : Prop := hexChar b /\ digitVal b = digitVal a.

Lemma same_digits_read l l' acc : Forall2 same_digit l l' -> readDigits 16 acc l' = readDigits 16 acc l /\ Forall hexChar l'.
Proof.
  intros Hl. revert acc. induction Hl as [|a b l l' [Hx Hv] Hl IH]; intros acc; [by split|]. unfold readDigits in *. cbn [foldl].
  rewrite Hv. split; [apply IH|]. constructor; [done|apply (IH acc)].
Qed.

Lemma same_digit_refl b : hexChar b -> same_digit b b.
Proof. by split. Qed.

Lemma upper_same b : lowChar b -> 57 < byteZ b -> same_digit b (Zbyte (byteZ b - 32)).
Proof.
  intros Hb Hlt. unfold same_digit, lowChar, hexChar, digitVal in *. rewrite byteZ_Zbyte, Z.mod_small by lia.
  repeat case_match; lia.
Qed.

Lemma lower_same b : hexChar b -> same_digit b (lowerByte b).
Proof.
  intros Hb. unfold lowerByte. destruct ((65 <=? byteZ b) && (byteZ b <=? 90)) eqn:E; [|by split]. bool_Z.
  unfold same_digit, hexChar, digitVal in *. rewrite byteZ_Zbyte, Z.mod_small by lia. repeat case_match; lia.
Qed.

Lemma imap_forall2 (R : byte -> byte -> Prop) (f : nat -> byte -> byte) l :
  Forall (fun b => forall i, R b (f i b)) l -> Forall2 R l (imap f l).
Proof.
  intros Hl. revert f Hl. induction l as [|b l IH]; intros f Hl; [constructor|].
  apply list.Forall_cons in Hl as [Hb Hl]. rewrite imap_cons. constructor; [done|]. apply IH.
  eapply list.Forall_impl; [exact Hl|]. intros c Hc i. apply (Hc (S i)).
Qed.

Section Addresses.
Context `{TxCrypto}.

Lemma checksum_same hash digits : Forall lowChar digits -> Forall2 same_digit digits (checksumDigits hash digits).
Proof.
  intros Hl. apply imap_forall2. eapply list.Forall_impl; [exact Hl|]. intros b Hb i. cbv zeta beta.
  set (h := if Nat.even i then _ else _). destruct ((57 <? byteZ b) && (7 <? h)) eqn:E.
  - bool_Z. by apply upper_same.
  - apply same_digit_refl. unfold lowChar, hexChar in *. lia.
Qed.

Lemma lower_digits l : Forall hexChar l -> Forall2 same_digit l (ToLower l).
Proof. induction 1 as [|b l Hb Hl IH]; [constructor|]. constructor; [by apply lower_same|done]. Qed.

Lemma read_prefixed l : readHex (text "0x" ++ l) = readDigits 16 0 l /\ (Forall hexChar l -> colon ∉ text "0x" ++ l) /\
  ToLower (text "0x" ++ l) = text "0x" ++ ToLower l.
Proof.
  split; [done|]. split; [|done]. intros Hl. rewrite not_elem_of_app. split; [by constant_text|by apply no_colon].
Qed.

Lemma twenty_bytes : 256 ^ Z.of_nat 20 = 2 ^ 160.
Proof. vm_compute. reflexivity. Qed.

Lemma checksum_read hash digits : Forall lowChar digits ->
  let l := text "0x" ++ checksumDigits hash digits in
  (readHex l = readDigits 16 0 digits /\ colon ∉ l) /\ (readHex (ToLower l) = readDigits 16 0 digits /\ colon ∉ ToLower l).
Proof.
  intros Hx. cbv zeta. set (check := checksumDigits hash digits).
  destruct (same_digits_read digits check 0) as [Hr1 Hx1]; [by apply checksum_same|].
  destruct (same_digits_read check (ToLower check) 0) as [Hr2 Hx2]; [by apply lower_digits|].
  destruct (read_prefixed check) as (-> & Hc1 & ->). destruct (read_prefixed (ToLower check)) as (-> & Hc2 & _).
  split; (split; [congruence|tauto]).
Qed.

Lemma address_digits a : 0 <= a < 2 ^ 160 -> readDigits 16 0 (hexPairs (be_encode 20 a)) = a.
Proof.
  intros Ha. rewrite (proj1 (hexPairs_spec _ _)), be_acc_encode, twenty_bytes.
  exact (Z.mod_small _ _ Ha).
Qed.

(** Both spellings of an address read back to it. *)
Lemma address_read a : 0 <= a < 2 ^ 160 ->
  (readHex (AddressHex a) = a /\ colon ∉ AddressHex a) /\ (readHex (ToLower (AddressHex a)) = a /\ colon ∉ ToLower (AddressHex a)).
Proof.
  intros Ha. pose proof (checksum_read (Keccak256 (hexPairs (be_encode 20 a))) _ (proj2 (hexPairs_spec (be_encode 20 a) 0))) as Hc.
  cbv zeta in Hc. rewrite (address_digits a Ha) in Hc. exact Hc.
Qed.
End Addresses.
