(* ===== verification/X402.v ===== *)
(** * Payments over the node's API (eth/api_x402.go)

    [Verify] decides whether a signed payment can be accepted, [Settle] marks its
    nonce as used and hands an envelope transaction to the pool.  The chain, the
    pool and the execution of calls are operations of [PaymentNode]; the k-th call
    of one verification may see another block, so calls are numbered. *)

From S2P Require Import Prelude Params Types Misc Snapshot Contracts StateTransition Signing Text.

Record PaymentRequirements : Type := mkRequirements {
  ReqScheme : list byte;
  ReqNetwork : list byte;
  MaxAmountRequired : option Z;
  Resource : list byte;
  Description : list byte;
  MimeType : list byte;
  PayTo : Address;
  MaxTimeoutSeconds : Z;
  ReqAsset : Address;
}.

Record PermitData : Type := mkPermit {
  permitValue : option Z;
  permitDeadline : option Z;
  permitV : Z;
  permitR : list byte;
  permitS : list byte;
}.

Record PaymentPayloadData : Type := mkPayment {
  pFrom : Address;
  pTo : Address;
  pValue : option Z;
  pValidAfter : Z;
  pValidBefore : Z;
  pNonce : Hash;
  pAsset : Address;
  pSignature : list byte;
  pPermit : option PermitData;
}.

Record PaymentPayload : Type := mkPayload {
  X402Version : Z;
  Scheme : list byte;
  Network : list byte;
  PaymentOf : PaymentPayloadData;
}.

Record VerificationResponse : Type := mkVerification {
  IsValid : bool;
  InvalidReason : string;
  PayerAddress : list byte;
}.

(** The text of an error, with the error it wraps. *)
Record SettlementResponse : Type := mkSettlement {
  Success : bool;
  SettleError : string * option error;
  SettledTx : option TxData;
}.

(** The API object: the payment nonces used by each payer, with the time they
    were marked at, and the mode of the signature check; the broadcast manager
    is represented by what was handed to it. *)
Record X402API : Type := mkX402API {
  usedNonces : gmap Address (gmap Hash Z);
  strictVerify : bool;
  broadcast : list TxData;
}.
Definition set_usedNonces (m : gmap Address (gmap Hash Z)) (api : X402API) : X402API :=
  mkX402API m (strictVerify api) (broadcast api).

Definition NewX402API (strict : bool) : X402API := mkX402API ∅ strict [].

(** The node around the API.  [x402Payload] is the RLP encoding of the payment. *)
Class PaymentNode : Type := {
  networkID : Z;
  configChainID : option Z;
  stateBalance : (Address -> Z) + error;
  DoCall : nat -> Address -> list byte -> ExecutionResult + error;
  x402Payload : PaymentPayloadData -> list byte + error;
  AddLocal : TxData -> option error;
  hasBroadcastManager : bool;
}.

(** The readings of the clock by one request, in seconds. *)
Record Clock : Type := mkClock { nowVerify : Z; nowPermit : Z; nowMark : Z }.

Definition isNonceUsed (from : Address) (nonce : Hash) (api : X402API) : bool :=
  match usedNonces api !! from with
  | Some byFrom => match byFrom !! nonce with Some _ => true | None => false end
  | None => false
  end.

Definition isNonceUsedAndMark (from : Address) (nonce : Hash) (now : Z) (api : X402API) : bool * X402API :=
  let byFrom := default ∅ (usedNonces api !! from) in
  match byFrom !! nonce with
  | Some _ => (true, api)
  | None => (false, set_usedNonces (<[from := <[nonce := u64 now]> byFrom]> (usedNonces api)) api)
  end.

Section X402.
Context `{TxCrypto} `{PaymentNode}.

(** ** Signatures *)

Definition TextHash (data : list byte) : list byte :=
  Keccak256 ((Byte.x19 :: text "Ethereum Signed Message:") ++ [Byte.x0a] ++ bigText 10 (zlen data) ++ data).

(** The fields of the message a payer signs, in the order of the format. *)
Definition messageFields (from to value asset : list byte) (d : PaymentPayloadData) : list (list byte) :=
  [text "x402-payment"; from; to; value; bigText 10 (pValidAfter d); bigText 10 (pValidBefore d); HashHex (pNonce d); asset].

Definition messageV1 (from to value asset : list byte) (d : PaymentPayloadData) : list byte :=
  joinColon (messageFields from to value asset d).
Definition messageV2 (from to value asset : list byte) (d : PaymentPayloadData) : list byte :=
  joinColon (messageFields from to value asset d ++ [bigText 10 networkID]).

(** The one message of the strict mode. *)
Definition strictMessage (d : PaymentPayloadData) (v : Z) : list byte :=
  messageV2 (AddressHex (pFrom d)) (AddressHex (pTo d)) (EncodeBig v) (AddressHex (pAsset d)) d.

(** The messages of the permissive mode, in the order they are tried. *)
Definition msgs (d : PaymentPayloadData) (v : Z) : list (list byte) :=
  let from := AddressHex (pFrom d) in
  let to := AddressHex (pTo d) in
  let asset := AddressHex (pAsset d) in
  let addrPairs := [(from, to); (ToLower from, ToLower to)] in
  let vals := [EncodeBig v; bigText 10 v] in
  let assets := [asset; ToLower asset] in
  addrPairs ≫= fun ap => vals ≫= fun v => assets ≫= fun a => [messageV2 ap.1 ap.2 v a d; messageV1 ap.1 ap.2 v a d].

(** A copy of the signature whose recovery byte starts from zero. *)
Definition normalizedSignature (sig : list byte) : list byte :=
  match sig !! 64%nat with
  | Some b => if 27 <=? byteZ b then <[64%nat := Zbyte (byteZ b - 27)]> sig else sig
  | None => sig
  end.

(** Whether [from] is recovered from the signature of a hash. *)
Definition recoversFrom (hash sig : list byte) (from : Address) : res bool :=
  match Ecrecover (be_decode hash) sig with
  | Ok pub => Ok (PubkeyToAddress pub =? from)
  | Err _ => Ok false
  | Panic => Panic
  end.

Fixpoint anyRecovers (hashes : list (list byte)) (sig : list byte) (from : Address) : res bool :=
  match hashes with
  | [] => Ok false
  | h :: hashes => b ← recoversFrom h sig from; if (b : bool) then Ok true else anyRecovers hashes sig from
  end.

(** The hashes a signature may be of. *)
Definition acceptedHashes (strict : bool) (d : PaymentPayloadData) (v : Z) : list (list byte) :=
  if strict then [TextHash (strictMessage d v)] else msgs d v ≫= fun m => [TextHash m; Keccak256 m].

(** A payment without a value is a nil pointer to its accessors. *)
Definition verifyPaymentSignature (api : X402API) (d : PaymentPayloadData) : res bool :=
  match pValue d with
  | None => Panic
  | Some v =>
      if negb (length (pSignature d) =? 65)%nat then Ok false else
      anyRecovers (acceptedHashes (strictVerify api) d v) (normalizedSignature (pSignature d)) (pFrom d)
  end.

(** ** Tokens *)

Definition LeftPadBytes (l : list byte) (n : nat) : list byte :=
  if (n <=? length l)%nat then l else repeat Byte.x00 (n - length l) ++ l.

(** [big.Int.Bytes] *)
Definition bigBytes (z : Z) : list byte := be_encode (Z.to_nat ((bitLen z + 7) / 8)) (Z.abs z).

Definition methodID (signature : string) : list byte := take 4 (Keccak256 (text signature)).
Definition word (l : list byte) : list byte := LeftPadBytes l 32.

(** [ExecutionResult.Return] and [Revert] *)
Definition Return (r : ExecutionResult) : list byte := match ResultErr r with None => ReturnData r | Some _ => [] end.
Definition Revert (r : ExecutionResult) : list byte :=
  if bool_decide (ResultErr r = Some ErrExecutionReverted) then ReturnData r else [].

(** The number a token answers with, zero for no answer. *)
Definition callNumber (k : nat) (token : Address) (input : list byte) : Z + error :=
  match DoCall k token input with
  | inl r => inl (match Return r with [] => 0 | out => be_decode out end)
  | inr e => inr e
  end.

Definition erc20Balance (k : nat) (token owner : Address) : Z + error :=
  callNumber k token (methodID "balanceOf(address)" ++ word (be_encode 20 owner)).

Definition erc20Allowance (k : nat) (token owner spender : Address) : Z + error :=
  callNumber k token (methodID "allowance(address,address)" ++ word (be_encode 20 owner) ++ word (be_encode 20 spender)).

Definition erc20SimPermit (k : nat) (token owner spender : Address) (value deadline : option Z) (v : Z) (r s : list byte) : bool + error :=
  let '(r, s) := if (length r =? 32)%nat && (length s =? 32)%nat then (r, s) else (word r, word s) in
  let input := methodID "permit(address,address,uint256,uint256,uint8,bytes32,bytes32)" ++
    word (be_encode 20 owner) ++ word (be_encode 20 spender) ++ word (bigBytes (default 0 value)) ++
    word (bigBytes (default MaxUint64 deadline)) ++ word [Zbyte v] ++ r ++ s in
  match DoCall k token input with
  | inl res => inl (negb ((0 <? zlen (Revert res)) || bool_decide (ResultErr res <> None)))
  | inr e => inr e
  end.

(** ** Verification *)

Definition invalid (reason : string) : VerificationResponse := mkVerification false reason [].

(** Why the allowance of the recipient does not cover an amount, if so. *)
Definition allowanceRefusal (d : PaymentPayloadData) (required : Z) (k : nat) : option string :=
  match erc20Allowance k (pAsset d) (pFrom d) (pTo d) with
  | inr _ => Some "Could not query token allowance"%string
  | inl allowance => if allowance <? required then Some "Insufficient token allowance"%string else None
  end.

Definition permitRefusal (d : PaymentPayloadData) (p : PermitData) (required now : Z) : option string :=
  if match permitValue p with Some pv => pv <? required | None => false end
  then Some "Permit value below required amount"%string
  else if match permitDeadline p with Some dl => dl <? u64 now | None => false end
  then Some "Permit deadline expired"%string
  else match erc20SimPermit 1 (pAsset d) (pFrom d) (pTo d) (permitValue p) (permitDeadline p) (permitV p) (permitR p) (permitS p) with
       | inl true => None
       | _ => allowanceRefusal d required 2
       end.

Definition fundsRefusal (clk : Clock) (balanceOf : Address -> Z) (d : PaymentPayloadData) (required : Z) : option string :=
  if pAsset d =? 0 then (if balanceOf (pFrom d) <? required then Some "Insufficient balance"%string else None) else
  match erc20Balance 0 (pAsset d) (pFrom d) with
  | inr _ => Some "Could not query token balance"%string
  | inl bal =>
      if bal <? required then Some "Insufficient token balance"%string else
      match pPermit d with
      | Some p => permitRefusal d p required (nowPermit clk)
      | None => allowanceRefusal d required 1
      end
  end.

Definition Verify (clk : Clock) (requirements : PaymentRequirements) (payload : PaymentPayload) (api : X402API) : res VerificationResponse :=
  let d := PaymentOf payload in
  if bool_decide (Scheme payload <> text "exact") then Ok (invalid "Unsupported payment scheme") else
  if bool_decide (Network payload <> text "splendor") then Ok (invalid "Unsupported network") else
  let now := u64 (nowVerify clk) in
  if now <? pValidAfter d then Ok (invalid "Payment not yet valid") else
  if pValidBefore d <? now then Ok (invalid "Payment expired") else
  ok ← verifyPaymentSignature api d;
  if negb ok then Ok (invalid "Invalid signature") else
  match stateBalance, pValue d with
  | inr _, _ => Ok (invalid "Could not get blockchain state")
  | inl _, None => Panic
  | inl balanceOf, Some required =>
      match fundsRefusal clk balanceOf d required with
      | Some reason => Ok (invalid reason)
      | None =>
          if negb (pTo d =? PayTo requirements) then Ok (invalid "Payment recipient mismatch") else
          if negb (pAsset d =? ReqAsset requirements) then Ok (invalid "Payment asset mismatch") else
          if isNonceUsed (pFrom d) (pNonce d) api then Ok (invalid "Payment nonce already used") else
          Ok (mkVerification true "" (AddressHex (pFrom d)))
      end
  end.

(** ** Settlement *)

Definition refused (why : string) (e : option error) : SettlementResponse := mkSettlement false (why, e) None.

(** The signature put on the envelope; the payment carries the real one. *)
Definition dummySig : list byte := be_encode 32 1 ++ be_encode 32 1 ++ [Byte.x1b].

(** The nonce of the envelope: the last eight bytes of the payment's. *)
Definition envelopeNonce (nonce : Hash) : Z := be_decode (drop 24 (be_encode 32 nonce)).

Definition markNonce (from : Address) (nonce : Hash) (now : Z) : ST X402API bool := fun api =>
  let '(used, api) := isNonceUsedAndMark from nonce now api in (Ok used, api).

(** From the marked payment to the pool. *)
Definition submit (d : PaymentPayloadData) : ST X402API SettlementResponse :=
  match x402Payload d with
  | inr e => mret (refused "x402: encode payload failed" (Some e))
  | inl enc =>
      match configChainID with
      | None => st_panic
      | Some chainID =>
          let xTx := NewX402Tx chainID (envelopeNonce (pNonce d)) None enc in
          r ← st_catch (st_lift (WithSignature (LatestSignerForChainID (Some chainID)) xTx dummySig));
          match r with
          | Err e => mret (refused "x402: sign envelope failed" (Some e))
          | Panic => st_panic
          | Ok signedTx =>
              match AddLocal signedTx with
              | Some e => mret (refused "x402: add to txpool failed" (Some e))
              | None =>
                  _ ← st_modify (fun api => if hasBroadcastManager
                        then mkX402API (usedNonces api) (strictVerify api) (broadcast api ++ [signedTx]) else api);
                  mret (mkSettlement true (""%string, None) (Some signedTx))
              end
          end
      end
  end.

Definition Settle (clk : Clock) (requirements : PaymentRequirements) (payload : PaymentPayload) : ST X402API SettlementResponse :=
  api ← st_get;
  verification ← st_lift (Verify clk requirements payload api);
  if negb (IsValid verification) then mret (refused (InvalidReason verification) None) else
  used ← markNonce (pFrom (PaymentOf payload)) (pNonce (PaymentOf payload)) (nowMark clk);
  if (used : bool) then mret (refused "payment nonce already used" None) else submit (PaymentOf payload).
End X402.
