(* ===== verification/X402Props.v ===== *)
(** * What the payment API guarantees (eth/api_x402.go)

    Which payments are accepted, what a signed message says, how payment nonces
    are remembered, and what becomes of a settlement. *)

From S2P Require Import Prelude Params Types Misc Snapshot Contracts StateTransition Signing Text X402.

(** ** Payments as the code can hold them *)

Definition is_address (a : Z) : Prop := 0 <= a < 2 ^ 160.
Definition is_hash (h : Z) : Prop := 0 <= h < 2 ^ 256.

Definition payment_ok (d : PaymentPayloadData) : Prop :=
  is_address (pFrom d) /\ is_address (pTo d) /\ is_address (pAsset d) /\ is_hash (pNonce d).

(** What a payment promises, as far as it is signed. *)
Definition terms (d : PaymentPayloadData) (v : Z) : Address * Address * Z * Z * Z * Hash * Address :=
  (pFrom d, pTo d, v, pValidAfter d, pValidBefore d, pNonce d, pAsset d).

(** A message read field by field. *)
Definition readMessage (m : list byte) : (Address * Address * Z * Z * Z * Hash * Address) * option Z :=
  let f := fun i => default [] (splitColon [] m !! i) in
  ((readHex (f 1%nat), readHex (f 2%nat), readNumber (f 3%nat), readNumber (f 4%nat), readNumber (f 5%nat),
    readHex (f 6%nat), readHex (f 7%nat)), readNumber <$> (splitColon [] m !! 8%nat)).

Section Messages.
Context `{!TxCrypto}.

(** A spelling of a number or an address that reads back to it. *)
Definition spells (read : list byte -> Z) (z : Z) (l : list byte) : Prop := read l = z /\ colon ∉ l.

Lemma spelled_address a : is_address a -> spells readHex a (AddressHex a) /\ spells readHex a (ToLower (AddressHex a)).
Proof. apply address_read. Qed.

Lemma elem_of_two {A} (x a b : A) : x ∈ [a; b] -> x = a \/ x = b.
Proof. rewrite !elem_of_cons. intros [?|[?|[]%not_elem_of_nil]]; auto. Qed.

Lemma thirtytwo_bytes : 256 ^ Z.of_nat 32 = 2 ^ 256.
Proof. vm_compute. reflexivity. Qed.

Lemma spelled_hash h : is_hash h -> spells readHex h (HashHex h).
Proof.
  intros Hh. destruct (encode_read 32 h) as [Hr Hc]. split; [|exact Hc]. unfold HashHex. rewrite Hr, thirtytwo_bytes.
  exact (Z.mod_small _ _ Hh).
Qed.

Lemma read_fields from to value asset d v rest : is_hash (pNonce d) ->
  spells readHex (pFrom d) from -> spells readHex (pTo d) to -> spells readNumber v value -> spells readHex (pAsset d) asset ->
  Forall (fun f => colon ∉ f) rest ->
  readMessage (joinColon (messageFields from to value asset d ++ rest)) = (terms d v, readNumber <$> rest !! 0%nat).
Proof.
  intros Hn [Hf Cf] [Ht Ct] [Hv Cv] [Ha Ca] Hrest. destruct (spelled_hash _ Hn) as [Hh Ch].
  destruct (read_decimal (pValidAfter d)) as [Haf Caf]. destruct (read_decimal (pValidBefore d)) as [Hbe Cbe].
  unfold readMessage, messageFields. rewrite split_join; [|done|].
  - unfold terms. change ((?l ++ rest) !! 8%nat) with (rest !! 0%nat). cbn [app lookup list_lookup default]. simpl. congruence.
  - repeat (constructor; [assumption || constant_text|]). assumption.
Qed.

Lemma read_candidate (n : PaymentNode) d v m : payment_ok d -> m ∈ msgs d v ->
  exists c, readMessage m = (terms d v, c) /\ (c = None \/ c = Some networkID).
Proof.
  intros (Hf & Ht & Ha & Hn) Hm. unfold msgs in Hm. apply list_elem_of_bind in Hm as (ap & Hm & Hap).
  apply list_elem_of_bind in Hm as (vs & Hm & Hvs). apply list_elem_of_bind in Hm as (a & Hm & Has).
  destruct (spelled_address _ Hf) as [Hf1 Hf2]. destruct (spelled_address _ Ht) as [Ht1 Ht2]. destruct (spelled_address _ Ha) as [Ha1 Ha2].
  assert (Hap' : spells readHex (pFrom d) ap.1 /\ spells readHex (pTo d) ap.2) by (apply elem_of_two in Hap as [-> | ->]; [exact (conj Hf1 Ht1)|exact (conj Hf2 Ht2)]).
  assert (Hvs' : spells readNumber v vs).
  { apply elem_of_two in Hvs as [-> | ->]; [apply read_hex_value|apply read_decimal]. }
  assert (Has' : spells readHex (pAsset d) a) by (apply elem_of_two in Has as [-> | ->]; [exact Ha1|exact Ha2]).
  destruct Hap' as [H1' H2']. apply elem_of_two in Hm as [-> | ->].
  - exists (Some networkID). split; [|by right]. unfold messageV2. rewrite (read_fields _ _ _ _ _ v); try done.
    + cbn [lookup list_lookup fmap option_fmap option_map]. by rewrite (proj1 (read_decimal networkID)).
    + constructor; [apply read_decimal|constructor].
  - exists None. split; [|by left]. unfold messageV1. rewrite <- (app_nil_r (messageFields _ _ _ _ _)).
    by rewrite (read_fields _ _ _ _ _ v).
Qed.

Lemma read_strict (n : PaymentNode) d v : payment_ok d -> readMessage (strictMessage d v) = (terms d v, Some networkID).
Proof.
  intros (Hf & Ht & Ha & Hn). unfold strictMessage, messageV2.
  rewrite (read_fields _ _ _ _ _ v); [|done|apply (spelled_address _ Hf)|apply (spelled_address _ Ht)|apply read_hex_value|apply (spelled_address _ Ha)|].
  - cbn [lookup list_lookup fmap option_fmap option_map]. by rewrite (proj1 (read_decimal networkID)).
  - constructor; [apply read_decimal|constructor].
Qed.

(** C25: A signed message says everything about the payment: two payments that
    can be signed with the same message, on whatever two nodes and in any of the
    spellings the permissive mode tries, have the same payer, recipient, amount,
    times, nonce and asset, so a signature can never be moved to another
    payment; the message of the strict mode names the network as well, so there
    it cannot be moved to another network either. *)
Theorem message_binds (n1 n2 : PaymentNode) d1 d2 v1 v2 m : payment_ok d1 -> payment_ok d2 ->
  (m ∈ @msgs _ n1 d1 v1 -> m ∈ @msgs _ n2 d2 v2 -> terms d1 v1 = terms d2 v2) /\
  (m = @strictMessage _ n1 d1 v1 -> m = @strictMessage _ n2 d2 v2 ->
   terms d1 v1 = terms d2 v2 /\ @networkID n1 = @networkID n2).
Proof.
  intros Hok1 Hok2. split.
  - intros Hm1 Hm2. destruct (read_candidate n1 _ _ _ Hok1 Hm1) as (c1 & Hr1 & _). destruct (read_candidate n2 _ _ _ Hok2 Hm2) as (c2 & Hr2 & _).
    congruence.
  - intros Hm1 Hm2. pose proof (read_strict n1 d1 v1 Hok1) as Hr1. pose proof (read_strict n2 d2 v2 Hok2) as Hr2.
    rewrite <- Hm1 in Hr1. rewrite <- Hm2 in Hr2. rewrite Hr1 in Hr2. split; congruence.
Qed.

(** ** Signatures *)

(** [from] is recovered from the signature of a hash. *)
Definition signedBy (h sig : list byte) (from : Address) : Prop :=
  exists pub, Ecrecover (be_decode h) sig = Ok pub /\ PubkeyToAddress pub = from.

Context `{!TxCryptoLaws}.

Lemma anyRecovers_spec hashes sig from : exists b, anyRecovers hashes sig from = Ok b /\
  (b = true <-> exists h, h ∈ hashes /\ signedBy h sig from).
Proof.
  induction hashes as [|h hashes (b & IH & Hb)].
  - exists false. split; [done|]. split; [done|]. by intros (h & []%not_elem_of_nil & _).
  - cbn [anyRecovers]. unfold recoversFrom. pose proof (Ecrecover_returns (be_decode h) sig) as Hnp.
    destruct (Ecrecover (be_decode h) sig) as [pub|e|] eqn:E; [| |done]; cbn [mbind res_bind].
    + destruct (Z.eqb_spec (PubkeyToAddress pub) from) as [Heq|Hne].
      * exists true. split; [done|]. split; [|done]. intros _. exists h. split; [apply elem_of_cons; by left|]. by exists pub.
      * exists b. split; [exact IH|]. rewrite Hb. split; intros (h' & Hin & Hs); exists h'.
        -- split; [apply elem_of_cons; by right|done].
        -- apply elem_of_cons in Hin as [->|Hin]; [|done]. destruct Hs as (pub' & Hp & Ha). congruence.
    + exists b. split; [exact IH|]. rewrite Hb. split; intros (h' & Hin & Hs); exists h'.
      * split; [apply elem_of_cons; by right|done].
      * apply elem_of_cons in Hin as [->|Hin]; [|done]. destruct Hs as (pub' & Hp & _). congruence.
Qed.

Definition validSignature `{PaymentNode} (strict : bool) (d : PaymentPayloadData) (v : Z) : Prop :=
  length (pSignature d) = 65%nat /\
  exists h, h ∈ acceptedHashes strict d v /\ signedBy h (normalizedSignature (pSignature d)) (pFrom d).

Lemma verifySignature_spec `{PaymentNode} api d v : pValue d = Some v ->
  exists b, verifyPaymentSignature api d = Ok b /\ (b = true <-> validSignature (strictVerify api) d v).
Proof.
  intros Hv. unfold verifyPaymentSignature, validSignature. rewrite Hv.
  destruct (Nat.eqb_spec (length (pSignature d)) 65) as [Hl|Hl]; cbn [negb].
  - destruct (anyRecovers_spec (acceptedHashes (strictVerify api) d v) (normalizedSignature (pSignature d)) (pFrom d)) as (b & -> & Hb).
    exists b. split; [done|]. rewrite Hb. tauto.
  - exists false. split; [done|]. split; [done|]. tauto.
Qed.
End Messages.

Section Payments.
Context `{!TxCrypto} `{!TxCryptoLaws}.

(** The recovery byte as wallets send it. *)
Definition raised (sig : list byte) : list byte := alter (fun b => Zbyte (byteZ b + 27)) 64%nat sig.

Lemma normalized_signed h k sig : Sign h k = Ok sig ->
  length sig = 65%nat /\ length (raised sig) = 65%nat /\ normalizedSignature sig = sig /\ normalizedSignature (raised sig) = sig.
Proof.
  intros Hs. destruct (Sign_form _ _ _ Hs) as (r & s & v & -> & _ & _ & Hv). set (front := be_encode 32 r ++ be_encode 32 s).
  assert (Hf : length front = 64%nat) by (unfold front; by rewrite length_app, !length_be_encode).
  rewrite (app_assoc (be_encode 32 r) (be_encode 32 s) [Zbyte v]). fold front. clearbody front.
  assert (Hat : forall b, (front ++ [b]) !! 64%nat = Some b).
  { intros b. rewrite lookup_app_r by lia. by rewrite Hf. }
  assert (Hlen : length (front ++ [Zbyte v]) = 65%nat) by (rewrite length_app, Hf; done).
  assert (Hb : byteZ (Zbyte v) = v /\ byteZ (Zbyte (v + 27)) = v + 27) by (destruct Hv as [-> | ->]; by split).
  destruct Hb as [Hb Hb27]. unfold normalizedSignature, raised. rewrite length_alter. split_and!; [done|done| |].
  - rewrite Hat, Hb. rewrite (proj2 (Z.leb_gt 27 v)) by lia. done.
  - rewrite list_lookup_alter, decide_True, Hat by done. cbn [fmap option_fmap option_map]. rewrite Hb. rewrite Hb27, (proj2 (Z.leb_le 27 (v + 27))) by lia.
    replace (v + 27 - 27) with v by lia. apply list_eq. intros i. destruct (decide (i = 64%nat)) as [->|Hne].
    + rewrite list_lookup_insert, decide_True by (rewrite ?length_alter; lia). by rewrite Hat.
    + rewrite list_lookup_insert_ne, list_lookup_alter_ne by done. done.
Qed.

Lemma v1_candidate (n : PaymentNode) d v :
  messageV1 (AddressHex (pFrom d)) (AddressHex (pTo d)) (EncodeBig v) (AddressHex (pAsset d)) d ∈ msgs d v /\ strictMessage d v ∈ msgs d v.
Proof. unfold msgs. cbn [mbind list_bind app]. split; [apply list_elem_of_further, list_elem_of_here|apply list_elem_of_here]. Qed.

(** A payment signed with the key of its payer is accepted: with the message
    of the strict mode, in both modes; with any message of the permissive mode,
    whether the recovery byte starts from 0 or from 27, by nodes in that mode.
    One of these messages, the old one, does not name the network: what is
    signed with it is accepted by the permissive nodes of every network. *)
Theorem signed_payment_verifies (n n' : PaymentNode) api d v k m sig : pValue d = Some v -> pFrom d = keyAddress k ->
  Sign (be_decode (TextHash m)) k = Ok sig -> pSignature d = sig \/ pSignature d = raised sig ->
  (m = @strictMessage _ n d v -> @verifyPaymentSignature _ n api d = Ok true) /\
  (m ∈ @msgs _ n d v -> strictVerify api = false -> @verifyPaymentSignature _ n api d = Ok true) /\
  (m = messageV1 (AddressHex (pFrom d)) (AddressHex (pTo d)) (EncodeBig v) (AddressHex (pAsset d)) d -> strictVerify api = false ->
   @verifyPaymentSignature _ n api d = Ok true /\ @verifyPaymentSignature _ n' api d = Ok true).
Proof.
  intros Hv Hfrom Hsig Hd. destruct (normalized_signed _ _ _ Hsig) as (Hl & Hl27 & Hn & Hn27).
  assert (Hsigned : length (pSignature d) = 65%nat /\ signedBy (TextHash m) (normalizedSignature (pSignature d)) (pFrom d)).
  { assert (Hkey : signedBy (TextHash m) sig (pFrom d)) by (exists (PublicKey k); by rewrite (Sign_recovers _ _ _ Hsig), Hfrom).
    destruct Hd as [-> | ->]; rewrite ?Hn, ?Hn27; by split. }
  destruct Hsigned as [Hlen Hsigned].
  assert (Hacc : forall n0 : PaymentNode, TextHash m ∈ @acceptedHashes _ n0 (strictVerify api) d v -> @verifyPaymentSignature _ n0 api d = Ok true).
  { intros n0 Hin. destruct (@verifySignature_spec _ _ n0 api d v Hv) as (b & -> & Hb). f_equal. apply Hb.
    split; [done|]. exists (TextHash m). by split. }
  assert (Hperm : forall n0 : PaymentNode, m ∈ @msgs _ n0 d v -> strictVerify api = false -> @verifyPaymentSignature _ n0 api d = Ok true).
  { intros n0 Hin Hs. apply Hacc. rewrite Hs. unfold acceptedHashes. apply list_elem_of_bind. exists m. split; [|done]. apply list_elem_of_here. }
  split_and!; [|by apply Hperm|].
  - intros ->. destruct (strictVerify api) eqn:Hs.
    + apply Hacc, list_elem_of_here.
    + exact (Hperm n (proj2 (v1_candidate n d v)) eq_refl).
  - intros -> Hs. exact (conj (Hperm n (proj1 (v1_candidate n d v)) Hs) (Hperm n' (proj1 (v1_candidate n' d v)) Hs)).
Qed.

Context `{!PaymentNode}.

(** What the strict mode accepts the permissive mode accepts. *)
Lemma strict_narrows d api api' : strictVerify api' = false -> verifyPaymentSignature api d = Ok true -> verifyPaymentSignature api' d = Ok true.
Proof.
  intros Hs Hok. destruct (pValue d) as [v|] eqn:Hv; [|by unfold verifyPaymentSignature in Hok; rewrite Hv in Hok].
  destruct (verifySignature_spec api d v Hv) as (b & Hb & Hspec). destruct (verifySignature_spec api' d v Hv) as (b' & -> & Hspec').
  rewrite Hok in Hb. injection Hb as <-. f_equal. apply Hspec'. destruct (proj1 Hspec eq_refl) as (Hl & h & Hin & Hsig).
  split; [done|]. exists h. split; [|done]. rewrite Hs. destruct (strictVerify api); [|done].
  unfold acceptedHashes in *. apply list_elem_of_singleton in Hin as ->. apply list_elem_of_bind. exists (strictMessage d v).
  exact (conj (list_elem_of_here _ _) (proj2 (v1_candidate _ d v))).
Qed.
(** ** Verification *)

(** The token lets the recipient take the amount. *)
Definition allowed (d : PaymentPayloadData) (required : Z) (k : nat) : Prop :=
  exists allowance, erc20Allowance k (pAsset d) (pFrom d) (pTo d) = inl allowance /\ required <= allowance.

(** The payer can pay: enough coins, or enough tokens that a permit or an
    allowance lets the recipient take. *)
Definition funded (clk : Clock) (d : PaymentPayloadData) (required : Z) : Prop :=
  exists balanceOf, stateBalance = inl balanceOf /\
  if pAsset d =? 0 then required <= balanceOf (pFrom d) else
  (exists bal, erc20Balance 0 (pAsset d) (pFrom d) = inl bal /\ required <= bal) /\
  match pPermit d with
  | None => allowed d required 1
  | Some p =>
      (forall pv, permitValue p = Some pv -> required <= pv) /\ (forall dl, permitDeadline p = Some dl -> u64 (nowPermit clk) <= dl) /\
      (erc20SimPermit 1 (pAsset d) (pFrom d) (pTo d) (permitValue p) (permitDeadline p) (permitV p) (permitR p) (permitS p) = inl true \/
       allowed d required 2)
  end.

Lemma allowanceRefusal_none d required k : allowanceRefusal d required k = None <-> allowed d required k.
Proof.
  unfold allowanceRefusal, allowed. destruct (erc20Allowance k (pAsset d) (pFrom d) (pTo d)) as [a|e].
  - destruct (Z.ltb_spec a required); (split; [|naive_solver lia]); [done|]. intros _. by exists a.
  - split; [done|]. by intros (a & ? & _).
Qed.

Lemma permitRefusal_none d p required now : permitRefusal d p required now = None <->
  (forall pv, permitValue p = Some pv -> required <= pv) /\ (forall dl, permitDeadline p = Some dl -> u64 now <= dl) /\
  (erc20SimPermit 1 (pAsset d) (pFrom d) (pTo d) (permitValue p) (permitDeadline p) (permitV p) (permitR p) (permitS p) = inl true \/
   allowed d required 2).
Proof.
  unfold permitRefusal. set (sim := erc20SimPermit _ _ _ _ _ _ _ _ _). clearbody sim.
  assert (Hopt : forall (o : option Z) (low : Z), match o with Some x => x <? low | None => false end = false <-> forall x, o = Some x -> low <= x).
  { intros [x|] low; [|by split]. rewrite Z.ltb_ge. split; [intros ? ? [= <-]; done|auto]. }
  assert (Hsim : match sim with inl true => None | _ => allowanceRefusal d required 2 end = None <-> sim = inl true \/ allowed d required 2).
  { rewrite <- allowanceRefusal_none. destruct sim as [[|]|]; naive_solver. }
  rewrite <- !Hopt, <- Hsim. repeat case_match; naive_solver.
Qed.

Lemma fundsRefusal_none clk balanceOf d required : stateBalance = inl balanceOf ->
  fundsRefusal clk balanceOf d required = None <-> funded clk d required.
Proof.
  intros Hb. unfold fundsRefusal, funded. rewrite Hb. destruct (pAsset d =? 0).
  - destruct (Z.ltb_spec (balanceOf (pFrom d)) required) as [Hlt|Hge].
    + split; [done|]. intros (b & [= <-] & Hle). lia.
    + split; [|done]. intros _. by exists balanceOf.
  - transitivity ((exists bal, erc20Balance 0 (pAsset d) (pFrom d) = inl bal /\ required <= bal) /\
      match pPermit d with None => allowanceRefusal d required 1 = None | Some p => permitRefusal d p required (nowPermit clk) = None end).
    + destruct (erc20Balance 0 (pAsset d) (pFrom d)) as [bal|e]; [|naive_solver].
      destruct (Z.ltb_spec bal required) as [Hlt|Hge]; [naive_solver lia|]. destruct (pPermit d); naive_solver.
    + destruct (pPermit d) as [p|]; rewrite ?permitRefusal_none, ?allowanceRefusal_none; naive_solver.
Qed.

(** A branch of the check that refuses. *)
Ltac say_no := eexists; (split; [reflexivity|]); (split; [|by split]); split; [done|].

Lemma verify_spec clk req pay api d required : PaymentOf pay = d -> pValue d = Some required ->
  exists r, Verify clk req pay api = Ok r /\
  (IsValid r = true <->
   Scheme pay = text "exact" /\ Network pay = text "splendor" /\
   pValidAfter d <= u64 (nowVerify clk) <= pValidBefore d /\ validSignature (strictVerify api) d required /\
   funded clk d required /\ pTo d = PayTo req /\ pAsset d = ReqAsset req /\ isNonceUsed (pFrom d) (pNonce d) api = false) /\
  (IsValid r = true -> PayerAddress r = AddressHex (pFrom d)) /\ (IsValid r = false -> InvalidReason r <> ""%string).
Proof.
  intros Hd Hv. unfold Verify. rewrite Hd. destruct (verifySignature_spec api d required Hv) as (ok & -> & Hok). rewrite Hv.
  case_bool_decide as Hs; [say_no; tauto|]. case_bool_decide as Hn; [say_no; tauto|]. cbv zeta.
  destruct (Z.ltb_spec (u64 (nowVerify clk)) (pValidAfter d)); [say_no; lia|].
  destruct (Z.ltb_spec (pValidBefore d) (u64 (nowVerify clk))); [say_no; lia|].
  cbn [mbind res_bind]. destruct ok; cbn [negb]; [|say_no; intros (_ & _ & _ & Hsig & _); by apply Hok in Hsig].
  destruct stateBalance as [balanceOf|e] eqn:Hb; [|say_no; intros (_ & _ & _ & _ & (b & Hb' & _) & _); congruence].
  pose proof (fundsRefusal_none clk balanceOf d required Hb) as Hf.
  destruct (fundsRefusal clk balanceOf d required) as [reason|] eqn:Hreason.
  { exists (invalid reason). split; [done|]. split; [|split; [done|]].
    - split; [done|]. intros (_ & _ & _ & _ & Hfund & _). by apply Hf in Hfund.
    - intros _. revert Hreason. unfold fundsRefusal, permitRefusal, allowanceRefusal. clear.
      repeat case_match; intros ?; simplify_eq; done. }
  destruct (Z.eqb_spec (pTo d) (PayTo req)) as [Hto|]; cbn [negb]; [|say_no; tauto].
  destruct (Z.eqb_spec (pAsset d) (ReqAsset req)) as [Hasset|]; cbn [negb]; [|say_no; tauto].
  destruct (isNonceUsed (pFrom d) (pNonce d) api) eqn:Hused; [say_no; intros (_ & _ & _ & _ & _ & _ & _ & Hfresh); discriminate Hfresh|].
  eexists. split; [reflexivity|]. split; [|by split]. split; [|done]. intros _.
  split; [exact Hs|]. split; [exact Hn|]. split; [lia|]. split; [by apply Hok|]. split; [by apply Hf|]. done.
Qed.

Lemma verify_runs clk req pay api d required : PaymentOf pay = d -> pValue d = Some required ->
  exists r, Verify clk req pay api = Ok r /\ (IsValid r = true -> isNonceUsed (pFrom d) (pNonce d) api = false).
Proof.
  intros Hd Hv. destruct (verify_spec clk req pay api d required Hd Hv) as (r & Hr & Hiff & _). exists r. split; [done|].
  intros Hok. by apply Hiff in Hok as (_ & _ & _ & _ & _ & _ & _ & ?).
Qed.

(** C24: A payment is valid exactly when it asks for the one scheme on the one
    network, the clock is within its times, its signature is one the mode
    accepts, its payer can pay (in coins, or in tokens with a permit or an
    allowance), it goes to the recipient and in the asset that are required,
    and its nonce was not marked as used.  The largest amount required does not
    matter, and verifying changes nothing. *)
Theorem verify_accepts_iff clk req pay api d required : PaymentOf pay = d -> pValue d = Some required ->
  exists r, Verify clk req pay api = Ok r /\
  (IsValid r = true <->
   Scheme pay = text "exact" /\ Network pay = text "splendor" /\
   pValidAfter d <= u64 (nowVerify clk) <= pValidBefore d /\ validSignature (strictVerify api) d required /\
   funded clk d required /\ pTo d = PayTo req /\ pAsset d = ReqAsset req /\ isNonceUsed (pFrom d) (pNonce d) api = false) /\
  (IsValid r = true -> PayerAddress r = AddressHex (pFrom d)) /\ (IsValid r = false -> InvalidReason r <> ""%string).
Proof. apply verify_spec. Qed.

(** ** Payment nonces *)

(** The atomic operations on the nonces; each holds the lock of the API, so
    what several requests do at once is one sequence of them. *)
Inductive nonceOp : Type :=
  | CheckNonce (from : Address) (nonce : Hash)
  | MarkNonce (from : Address) (nonce : Hash) (now : Z).

Definition opFrom (op : nonceOp) : Address := match op with CheckNonce f _ | MarkNonce f _ _ => f end.
Definition opNonce (op : nonceOp) : Hash := match op with CheckNonce _ n | MarkNonce _ n _ => n end.

Definition runNonce (op : nonceOp) (api : X402API) : bool * X402API :=
  match op with
  | CheckNonce f n => (isNonceUsed f n api, api)
  | MarkNonce f n now => isNonceUsedAndMark f n now api
  end.

Fixpoint runNonces (ops : list nonceOp) (api : X402API) : list bool * X402API :=
  match ops with
  | [] => ([], api)
  | op :: ops => let '(b, api) := runNonce op api in let '(bs, api) := runNonces ops api in (b :: bs, api)
  end.

Definition markedIn (from : Address) (nonce : Hash) (ops : list nonceOp) : Prop := exists now, MarkNonce from nonce now ∈ ops.

Lemma isNonceUsed_marked from nonce api : isNonceUsed from nonce api = true <->
  exists byFrom now, usedNonces api !! from = Some byFrom /\ byFrom !! nonce = Some now.
Proof. unfold isNonceUsed. repeat case_match; naive_solver. Qed.

Lemma mark_spec from nonce now api : let '(used, api') := isNonceUsedAndMark from nonce now api in
  used = isNonceUsed from nonce api /\
  forall f n, isNonceUsed f n api' = true <-> isNonceUsed f n api = true \/ (f = from /\ n = nonce).
Proof.
  unfold isNonceUsedAndMark. destruct (default ∅ (usedNonces api !! from) !! nonce) as [t|] eqn:E.
  - assert (Hused : isNonceUsed from nonce api = true).
    { apply isNonceUsed_marked. destruct (usedNonces api !! from) as [m|] eqn:Em; [by exists m, t|by simpl in E; rewrite lookup_empty in E]. }
    split; [done|]. intros f n. split; [by left|]. intros [?|[-> ->]]; done.
  - split.
    + symmetry. apply not_true_iff_false. rewrite isNonceUsed_marked. intros (m & t & Hm & Ht). rewrite Hm in E. simpl in E. congruence.
    + intros f n. rewrite !isNonceUsed_marked. cbn [usedNonces set_usedNonces]. destruct (decide (f = from)) as [->|Hne].
      * rewrite lookup_insert, decide_True by done. destruct (decide (n = nonce)) as [->|Hn].
        -- split; [by right|]. intros _. eexists _, _. split; [done|]. by rewrite lookup_insert, decide_True by done.
        -- split.
           ++ intros (m & t & [= <-] & Ht). rewrite lookup_insert_ne in Ht by done. left.
              destruct (usedNonces api !! from) as [m|]; [by exists m, t|by simpl in Ht; rewrite lookup_empty in Ht].
           ++ intros [(m & t & Hm & Ht)|[]]; [|done]. rewrite Hm. cbn [default from_option]. eexists _, t. split; [done|]. by rewrite lookup_insert_ne.
      * rewrite lookup_insert_ne by done. naive_solver.
Qed.

Lemma runNonces_spec ops api : forall seen, (forall f n, isNonceUsed f n api = true <-> markedIn f n seen) ->
  (forall i op, ops !! i = Some op -> exists b, (runNonces ops api).1 !! i = Some b /\
     (b = true <-> markedIn (opFrom op) (opNonce op) (seen ++ take i ops))) /\
  forall f n, isNonceUsed f n (runNonces ops api).2 = true <-> markedIn f n (seen ++ ops).
Proof.
  revert api. induction ops as [|op ops IH]; intros api seen Hs; [split; [done|]; by rewrite app_nil_r|].
  assert (Hstep : (runNonce op api).1 = isNonceUsed (opFrom op) (opNonce op) api /\
    forall f n, isNonceUsed f n (runNonce op api).2 = true <-> markedIn f n (seen ++ [op])).
  { unfold markedIn. setoid_rewrite elem_of_app. setoid_rewrite list_elem_of_singleton. destruct op as [f0 n0|f0 n0 now]; cbn [runNonce opFrom opNonce].
    - split; [done|]. intros f n. rewrite Hs. unfold markedIn. naive_solver.
    - pose proof (mark_spec f0 n0 now api) as Hm. destruct (isNonceUsedAndMark f0 n0 now api) as [used api']. destruct Hm as [-> Hm].
      split; [done|]. intros f n. rewrite Hm, Hs. unfold markedIn. naive_solver. }
  cbn [runNonces]. destruct (runNonce op api) as [b api1]. cbn [fst snd] in Hstep. destruct Hstep as [-> Hs1].
  destruct (IH api1 (seen ++ [op]) Hs1) as [Hans Hend]. destruct (runNonces ops api1) as [bs api2]. cbn [fst snd] in *. split.
  - intros [|i] op' Hi; [injection Hi as <-; eexists; split; [done|]; by rewrite app_nil_r|].
    destruct (Hans i op' Hi) as (b & Hb & Hiff). exists b. split; [done|]. rewrite Hiff. by rewrite <- app_assoc.
  - intros f n. rewrite Hend. by rewrite <- app_assoc.
Qed.

(** The API tells a payment nonce apart from a fresh one exactly: whatever
    sequence of checks and marks is run from the start, by however many
    requests, each answers that the nonce is used if and only if an earlier
    operation marked it for the same payer.  So of all the marks of a nonce
    exactly the first is told that it is fresh. *)
Theorem nonce_history strict ops i op : ops !! i = Some op ->
  exists b, (runNonces ops (NewX402API strict)).1 !! i = Some b /\
  (b = true <-> exists j now, (j < i)%nat /\ ops !! j = Some (MarkNonce (opFrom op) (opNonce op) now)).
Proof.
  intros Hi. destruct (runNonces_spec ops (NewX402API strict) []) as [Hans _].
  { intros f n. rewrite isNonceUsed_marked. unfold markedIn. split; [intros (m & t & Hm & _)|intros (now & []%not_elem_of_nil)].
    cbn [usedNonces NewX402API] in Hm. by rewrite lookup_empty in Hm. }
  destruct (Hans i op Hi) as (b & Hb & Hiff). exists b. split; [done|]. rewrite Hiff. cbn [app]. unfold markedIn.
  setoid_rewrite elem_of_take. split; [intros (now & j & ? & ?); by exists j, now|intros (j & now & ? & ?); by exists now, j].
Qed.

(** ** Settlement *)

Lemma envelope_unsignable c nonce enc : WithSignature (LatestSignerForChainID (Some c)) (NewX402Tx c nonce None enc) dummySig = Err ErrTxTypeNotSupported.
Proof. reflexivity. Qed.

(** C23: No settlement succeeds: the signer of the chain does not know the type of
    the envelope, so nothing ever reaches the pool or the broadcast manager.  A
    payment that was verified is not only refused: its nonce has been marked by
    then, so the payer's signature is spent and the same payment is never valid
    again on this node. *)
Theorem settle_burns_nonce clk req pay api chain : configChainID = Some chain -> pValue (PaymentOf pay) <> None ->
  let d := PaymentOf pay in
  exists r api', Settle clk req pay api = (Ok r, api') /\ Success r = false /\ broadcast api' = broadcast api /\
  forall resp, Verify clk req pay api = Ok resp ->
    if IsValid resp then
      isNonceUsed (pFrom d) (pNonce d) api' = true /\
      (forall payload, x402Payload d = inl payload -> SettleError r = ("x402: sign envelope failed"%string, Some ErrTxTypeNotSupported)) /\
      (forall clk' req', exists resp', Verify clk' req' pay api' = Ok resp' /\ IsValid resp' = false)
    else api' = api /\ SettleError r = (InvalidReason resp, None).
Proof.
  intros Hc Hv d. destruct (pValue (PaymentOf pay)) as [required|] eqn:Hval; [clear Hv|done].
  destruct (verify_runs clk req pay api d required eq_refl Hval) as (resp & Hver & Hfresh).
  unfold Settle, mbind, st_bind, st_get, st_lift. cbv beta iota. rewrite Hver. fold d.
  destruct (IsValid resp) eqn:Hvalid; cbn [negb].
  2:{ eexists _, _. split; [reflexivity|]. split; [done|]. split; [done|]. intros resp' [= <-]. by rewrite Hvalid. }
  unfold markNonce. pose proof (mark_spec (pFrom d) (pNonce d) (nowMark clk) api) as Hm.
  assert (Hb : broadcast (isNonceUsedAndMark (pFrom d) (pNonce d) (nowMark clk) api).2 = broadcast api)
    by (unfold isNonceUsedAndMark; by destruct (_ !! pNonce d)).
  destruct (isNonceUsedAndMark (pFrom d) (pNonce d) (nowMark clk) api) as [used api1]. cbn [snd] in Hb. destruct Hm as [-> Hm].
  rewrite (Hfresh eq_refl). cbv beta iota. unfold submit, mbind, st_bind, st_catch, st_lift. rewrite Hc.
  assert (Hused : isNonceUsed (pFrom d) (pNonce d) api1 = true) by (apply Hm; by right).
  assert (Hagain : forall clk' req', exists resp', Verify clk' req' pay api1 = Ok resp' /\ IsValid resp' = false).
  { intros clk' req'. destruct (verify_runs clk' req' pay api1 d required eq_refl Hval) as (resp' & Hr & Hf).
    exists resp'. split; [done|]. apply not_true_iff_false. intros Hbad. specialize (Hf Hbad). congruence. }
  destruct (x402Payload d) as [enc|e].
  - rewrite envelope_unsignable. eexists _, api1. split; [reflexivity|]. split; [done|]. split; [done|].
    intros resp' [= <-]. by rewrite Hvalid.
  - eexists _, api1. split; [reflexivity|]. split; [done|]. split; [done|].
    intros resp' [= <-]. rewrite Hvalid. by split_and!.
Qed.
End Payments.

(** ** A node with one payment *)

#[local] Existing Instance Signing.toyCurve.
#[local] Existing Instance Signing.toyCurveLaws.

#[local] Instance demoNode : PaymentNode := {|
  networkID := 6546; configChainID := Some 6546; stateBalance := inl (fun _ => 1000);
  DoCall _ _ _ := inr (errorf "no token"); x402Payload _ := inl []; AddLocal _ := None; hasBroadcastManager := true;
|}.

Definition otherNode : PaymentNode := {|
  networkID := 1; configChainID := Some 1; stateBalance := inl (fun _ => 1000);
  DoCall _ _ _ := inr (errorf "no token"); x402Payload _ := inl []; AddLocal _ := None; hasBroadcastManager := true;
|}.

Definition demoSig : list byte := be_encode 32 8 ++ be_encode 32 1 ++ [Byte.x00].
Definition demoPayment : PaymentPayloadData := mkPayment (keyAddress toyKey) 9 (Some 500) 100 200 77 0 (raised demoSig) None.
Definition demoPayload : PaymentPayload := mkPayload 1 (text "exact") (text "splendor") demoPayment.
Definition demoRequirements : PaymentRequirements :=
  mkRequirements (text "exact") (text "splendor") (Some 1) [] [] [] 9 60 0.
Definition demoClock : Clock := mkClock 150 150 151.

Lemma demo_signed m : Sign (be_decode (TextHash m)) toyKey = Ok demoSig.
Proof. reflexivity. Qed.

Lemma signed_payment_verifies_witness :
  verifyPaymentSignature (NewX402API true) demoPayment = Ok true /\ @verifyPaymentSignature _ otherNode (NewX402API false) demoPayment = Ok true.
Proof.
  split.
  - exact (proj1 (signed_payment_verifies demoNode otherNode (NewX402API true) demoPayment 500 toyKey _ demoSig eq_refl eq_refl
      (demo_signed _) (or_intror eq_refl)) eq_refl).
  - exact (proj2 (proj2 (proj2 (signed_payment_verifies demoNode otherNode (NewX402API false) demoPayment 500 toyKey _ demoSig eq_refl eq_refl
      (demo_signed _) (or_intror eq_refl))) eq_refl eq_refl)).
Defined.

Lemma demo_ok : payment_ok demoPayment.
Proof. unfold payment_ok, is_address, is_hash. vm_compute. intuition discriminate. Qed.

Lemma demo_signature : validSignature true demoPayment 500.
Proof.
  destruct (verifySignature_spec (NewX402API true) demoPayment 500 eq_refl) as (b & Hb & Hiff). apply Hiff.
  assert (Hok : verifyPaymentSignature (NewX402API true) demoPayment = Ok true) by (vm_compute; reflexivity). congruence.
Qed.

Lemma message_binds_witness : terms demoPayment 500 = terms demoPayment 500 /\ @networkID demoNode = 6546.
Proof.
  destruct (message_binds demoNode demoNode demoPayment demoPayment 500 500 (strictMessage demoPayment 500) demo_ok demo_ok) as [_ Hm].
  destruct (Hm eq_refl eq_refl) as [Ht _]. by split.
Defined.

Lemma verify_accepts_iff_witness : exists r, Verify demoClock demoRequirements demoPayload (NewX402API true) = Ok r /\ IsValid r = true.
Proof.
  destruct (verify_accepts_iff demoClock demoRequirements demoPayload (NewX402API true) demoPayment 500 eq_refl eq_refl) as (r & Hr & Hiff & _).
  exists r. split; [exact Hr|]. apply Hiff. split; [reflexivity|]. split; [reflexivity|]. split; [by vm_compute|].
  split; [exact demo_signature|]. split; [by exists (fun _ => 1000)|]. by split_and!.
Defined.

Lemma nonce_history_witness :
  (runNonces [CheckNonce 8 77; MarkNonce 8 77 150; MarkNonce 8 77 151] (NewX402API false)).1 !! 2%nat = Some true.
Proof.
  destruct (nonce_history false [CheckNonce 8 77; MarkNonce 8 77 150; MarkNonce 8 77 151] 2 (MarkNonce 8 77 151) eq_refl) as (b & Hb & Hiff).
  rewrite Hb. f_equal. apply Hiff. exists 1%nat, 150. split; [lia|reflexivity].
Defined.

Lemma settle_burns_nonce_witness : exists r api', Settle demoClock demoRequirements demoPayload (NewX402API false) = (Ok r, api') /\
  Success r = false /\ isNonceUsed (keyAddress toyKey) 77 api' = true.
Proof.
  destruct (@settle_burns_nonce _ _ demoNode demoClock demoRequirements demoPayload (NewX402API false) 6546 eq_refl ltac:(discriminate))
    as (r & api' & Hrun & Hno & _ & Hver).
  exists r, api'. split; [exact Hrun|]. split; [exact Hno|].
  destruct (verify_spec demoClock demoRequirements demoPayload (NewX402API false) demoPayment 500 eq_refl eq_refl) as (resp & Hresp & Hiff & _).
  specialize (Hver resp Hresp). rewrite (proj2 Hiff) in Hver; [by destruct Hver|].
  split; [reflexivity|]. split; [reflexivity|]. split; [by vm_compute|].
  split. { destruct demo_signature as (Hl & h & Hin & Hs). split; [exact Hl|]. exists h. split; [|exact Hs].
    apply list_elem_of_singleton in Hin as ->. apply list_elem_of_bind. exists (strictMessage demoPayment 500).
    exact (conj (list_elem_of_here _ _) (proj2 (v1_candidate demoNode demoPayment 500))). }
  split; [by exists (fun _ => 1000)|]. by split_and!.
Defined.
