(* ===== verification/Rewards.v ===== *)
(** * Shares of validators in payments (eth/api_x402_validator_rewards.go)

    The tally of fees the node keeps per validator.  The readings of the clock
    and the order in which the runtime walks a map are arguments. *)

From S2P Require Import Prelude Float Text.

Record X402Payment : Type := mkX402Payment {
  payTxHash : Hash;
  payFrom : Address;
  payTo : Address;
  payAmount : option Z;
  payFee : Z;
  payValidator : Address;
  payTimestamp : Z;
  payResource : list byte;
  payBlockNumber : Z;
}.

Record ValidatorPerformance : Type := mkPerformance {
  TotalX402Processed : Z;
  TotalRevenue : Z;
  AvgProcessingTime : spec_float;
  SuccessRate : spec_float;
  LastActive : Z;
  AIScore : spec_float;
}.

Record X402ValidatorRewards : Type := mkRewards {
  totalX402Revenue : Z;
  validatorShares : gmap Address Z;
  paymentHistory : list X402Payment;
  validatorFeeShare : spec_float;
  distributionMode : list byte;
  validatorPerformance : gmap Address ValidatorPerformance;
}.

Definition NewX402ValidatorRewards : X402ValidatorRewards :=
  mkRewards 0 ∅ [] (f64_const 5 100) (text "performance") ∅.

(** The clock during one call: seconds for the record, and nanoseconds when the
    activity is noted and when its age is taken. *)
Record RewardClock : Type := mkRewardClock { unixNow : Z; activeNow : Z; sinceNow : Z }.

Definition hourNs : Z := 3600000000000.

Section Rewards.
(** [int64] of a float that is not in range. *)
Variable oob : spec_float -> Z.

(** The percentage, cut to an integer. *)
Definition feePercent (share : spec_float) : Z := f64_to_i64 oob (f64_mul share (f64_of_Z 100)).
Definition validatorFee (share : spec_float) (amount : Z) : Z := amount * feePercent share / 100.

Definition calculateAIScore (perf : ValidatorPerformance) (now : Z) : spec_float :=
  let score := SuccessRate perf in
  let score := if 1000 <? TotalX402Processed perf then f64_add score (f64_const 2 10)
               else if 100 <? TotalX402Processed perf then f64_add score (f64_const 1 10) else score in
  let score := if now - LastActive perf <? hourNs then f64_add score (f64_const 1 10) else score in
  let score := if f64_lt (AvgProcessingTime perf) (f64_of_Z 50) then f64_add score (f64_const 2 10) else score in
  if f64_lt (f64_of_Z 1) score then f64_of_Z 1 else score.

Definition newPerformance : ValidatorPerformance :=
  mkPerformance 0 0 (f64_of_Z 0) (f64_of_Z 1) 0 (f64_const 5 10).

Definition updateValidatorPerformance (clk : RewardClock) (validator : Address) (fee : Z) (r : X402ValidatorRewards) : X402ValidatorRewards :=
  let perf := default newPerformance (validatorPerformance r !! validator) in
  let perf := mkPerformance (TotalX402Processed perf +w 1) (TotalRevenue perf + fee) (AvgProcessingTime perf) (SuccessRate perf)
                (activeNow clk) (AIScore perf) in
  let perf := mkPerformance (TotalX402Processed perf) (TotalRevenue perf) (AvgProcessingTime perf) (SuccessRate perf) (LastActive perf)
                (calculateAIScore perf (sinceNow clk)) in
  mkRewards (totalX402Revenue r) (validatorShares r) (paymentHistory r) (validatorFeeShare r) (distributionMode r)
    (<[validator := perf]> (validatorPerformance r)).

Definition distributeToValidator (validator : Address) (amount : Z) (r : X402ValidatorRewards) : X402ValidatorRewards :=
  mkRewards (totalX402Revenue r) (<[validator := default 0 (validatorShares r !! validator) + amount]> (validatorShares r))
    (paymentHistory r) (validatorFeeShare r) (distributionMode r) (validatorPerformance r).

(** The recorded payments: at most ten thousand, the oldest leaves first. *)
Definition recordPayment (payment : X402Payment) (history : list X402Payment) : list X402Payment :=
  let history := history ++ [payment] in
  if (10000 <? length history)%nat then drop 1 history else history.

Definition ProcessX402Payment (clk : RewardClock) (payment : X402Payment) : ST X402ValidatorRewards unit := fun r =>
  match payAmount payment with
  | None => (Panic, r)
  | Some amount =>
      let fee := validatorFee (validatorFeeShare r) amount in
      let payment := mkX402Payment (payTxHash payment) (payFrom payment) (payTo payment) (payAmount payment) fee (payValidator payment)
                       (u64 (unixNow clk)) (payResource payment) (payBlockNumber payment) in
      let r := mkRewards (totalX402Revenue r + fee) (validatorShares r) (recordPayment payment (paymentHistory r)) (validatorFeeShare r)
                 (distributionMode r) (validatorPerformance r) in
      (Ok tt, distributeToValidator (payValidator payment) fee (updateValidatorPerformance clk (payValidator payment) fee r))
  end.

Definition GetValidatorX402Revenue (validator : Address) (r : X402ValidatorRewards) : Z := default 0 (validatorShares r !! validator).

Record X402RevenueStats : Type := mkStats {
  statTotalRevenue : Z; ValidatorCount : Z; TotalPayments : Z; AveragePayment : Z;
  TopValidator : Address; TopValidatorRevenue : Z; RevenueToday : Z; PaymentsToday : Z;
}.

(** The best of the shares, in the order of the walk. *)
Definition topOf (shares : list (Address * Z)) : Address * Z :=
  foldl (fun top share => if top.2 <? share.2 then share else top) (0, 0) shares.

(** The payments after the start of the day, in seconds. *)
Definition paidToday (now : Z) (p : X402Payment) : bool := now - now mod 86400 <? i64 (payTimestamp p).

Definition GetX402RevenueStats (now : Z) (shares : list (Address * Z)) (r : X402ValidatorRewards) : X402RevenueStats :=
  let top := topOf shares in
  let today := base.filter (fun p => paidToday now p = true) (paymentHistory r) in
  let n := zlen (paymentHistory r) in
  mkStats (totalX402Revenue r) (Z.of_nat (size (validatorShares r))) n (if 0 <? n then totalX402Revenue r / n else 0)
    top.1 top.2 (foldl (fun s p => s + payFee p) 0 today) (zlen today).

(** The inner and the outer loop that sort the scores. *)
Definition scoreOf (s : list (Address * ValidatorPerformance)) (i : nat) : spec_float :=
  match s !! i with Some x => AIScore x.2 | None => S754_nan end.
Definition exchange {A} (i j : nat) (s : list A) : list A :=
  match s !! i, s !! j with Some x, Some y => <[i := y]> (<[j := x]> s) | _, _ => s end.
Definition sortInner (i : nat) (s : list (Address * ValidatorPerformance)) : list (Address * ValidatorPerformance) :=
  foldl (fun s j => if f64_lt (scoreOf s i) (scoreOf s j) then exchange i j s else s) s (seq (S i) (length s - S i)).
Definition sortScores (s : list (Address * ValidatorPerformance)) : list (Address * ValidatorPerformance) :=
  foldl (fun s i => sortInner i s) s (seq 0 (length s - 1)).

(** Rank, validator, score, revenue. *)
Definition GetTopPerformingValidators (limit : Z) (perfs : list (Address * ValidatorPerformance)) : list (Z * Address * spec_float * Z) :=
  let scores := sortScores perfs in
  imap (fun i x => (Z.of_nat i + 1, x.1, AIScore x.2, TotalRevenue x.2)) (take (Z.to_nat (Z.min limit (zlen scores))) scores).

Definition DistributeX402Rewards (r : X402ValidatorRewards) : X402ValidatorRewards :=
  if totalX402Revenue r <=? 0 then r else
  mkRewards 0 ∅ (paymentHistory r) (validatorFeeShare r) (distributionMode r) (validatorPerformance r).

Definition SetValidatorFeeShare (percentage : spec_float) : ST X402ValidatorRewards unit := fun r =>
  if f64_lt percentage (f64_of_Z 0) || f64_lt (f64_of_Z 1) percentage then (Err (errorf "invalid fee share percentage"), r) else
  (Ok tt, mkRewards (totalX402Revenue r) (validatorShares r) (paymentHistory r) percentage (distributionMode r) (validatorPerformance r)).

Definition SetDistributionMode (mode : list byte) : ST X402ValidatorRewards unit := fun r =>
  if bool_decide (mode ∈ [text "proportional"; text "equal"; text "performance"])
  then (Ok tt, mkRewards (totalX402Revenue r) (validatorShares r) (paymentHistory r) (validatorFeeShare r) mode (validatorPerformance r))
  else (Err (errorf "invalid distribution mode"), r).
End Rewards.

(** ** What the tally promises *)

(** ** Sums of fees *)

Definition sumOf (l : list (Address * Z)) : Z := foldr (fun p s => p.2 + s) 0 l.
Definition earned (v : Address) (l : list (Address * Z)) : Z := sumOf (base.filter (fun p => p.1 = v) l).
Definition countOf (v : Address) (l : list (Address * Z)) : Z := zlen (base.filter (fun p => p.1 = v) l).

Lemma sumOf_app l1 l2 : sumOf (l1 ++ l2) = sumOf l1 + sumOf l2.
Proof. induction l1 as [|p l1 IH]; simpl; lia. Qed.

Lemma earned_snoc v l w fee : earned v (l ++ [(w, fee)]) = earned v l + (if decide (w = v) then fee else 0).
Proof.
  unfold earned. rewrite list.filter_app, sumOf_app. rewrite filter_cons. cbn [fst]. case_decide; cbn [sumOf foldr filter snd]; simpl; lia.
Qed.

Lemma countOf_snoc v l w fee : countOf v (l ++ [(w, fee)]) = countOf v l + (if decide (w = v) then 1 else 0).
Proof.
  unfold countOf, zlen. rewrite list.filter_app, length_app. rewrite filter_cons. cbn [fst]. case_decide; simpl; lia.
Qed.

Definition total (m : gmap Address Z) : Z := map_fold (fun _ s acc => s + acc) 0 m.

Lemma total_insert v fee m : total (<[v := default 0 (m !! v) + fee]> m) = total m + fee.
Proof.
  unfold total. assert (Hcomm : forall (m : gmap Address Z) j z, m !! j = None ->
    map_fold (fun _ s acc => s + acc) 0 (<[j := z]> m) = z + map_fold (fun _ s acc => s + acc) 0 m).
  { intros m' j z Hj. apply (map_fold_insert_L (fun _ s acc => s + acc)); [|done]. intros; lia. }
  rewrite <- insert_delete_eq, Hcomm by apply lookup_delete_eq. destruct (m !! v) as [s|] eqn:E; cbn [default from_option id].
  - pose proof (Hcomm (delete v m) v s (lookup_delete_eq _ _)) as Hm. rewrite insert_delete_id in Hm by done. lia.
  - rewrite delete_id by done. lia.
Qed.

(** ** Runs of the tally *)

Inductive rewardOp : Type :=
  | PayOp (clk : RewardClock) (payment : X402Payment)
  | DistributeOp
  | ShareOp (percentage : spec_float)
  | ModeOp (mode : list byte).

Section Rewards.
Variable oob : spec_float -> Z.

Definition runReward (op : rewardOp) (r : X402ValidatorRewards) : X402ValidatorRewards :=
  match op with
  | PayOp clk payment => (ProcessX402Payment oob clk payment r).2
  | DistributeOp => DistributeX402Rewards r
  | ShareOp percentage => (SetValidatorFeeShare percentage r).2
  | ModeOp mode => (SetDistributionMode mode r).2
  end.
Definition runRewards (ops : list rewardOp) : X402ValidatorRewards := foldl (fun r op => runReward op r) NewX402ValidatorRewards ops.

(** The fees of a run: all of them, those since the last distribution that had
    something to distribute, and the share in force. *)
Record ledger : Type := mkLedger { allFees : list (Address * Z); sinceFees : list (Address * Z); shareNow : spec_float }.

Definition ledgerStep (op : rewardOp) (l : ledger) : ledger :=
  match op with
  | PayOp _ payment =>
      match payAmount payment with
      | None => l
      | Some amount => let entry := (payValidator payment, validatorFee oob (shareNow l) amount) in
                       mkLedger (allFees l ++ [entry]) (sinceFees l ++ [entry]) (shareNow l)
      end
  | DistributeOp => if sumOf (sinceFees l) <=? 0 then l else mkLedger (allFees l) [] (shareNow l)
  | ShareOp p => if f64_lt p (f64_of_Z 0) || f64_lt (f64_of_Z 1) p then l else mkLedger (allFees l) (sinceFees l) p
  | ModeOp _ => l
  end.
Definition ledgerOf (ops : list rewardOp) : ledger := foldl (fun l op => ledgerStep op l) (mkLedger [] [] (f64_const 5 100)) ops.

Definition perf_ok (l : ledger) (v : Address) (p : ValidatorPerformance) : Prop :=
  TotalX402Processed p = u64 (countOf v (allFees l)) /\ TotalRevenue p = earned v (allFees l) /\
  SuccessRate p = f64_of_Z 1 /\ AvgProcessingTime p = f64_of_Z 0 /\ AIScore p = f64_of_Z 1.

(** The tally agrees with the fees. *)
Record tallies (l : ledger) (r : X402ValidatorRewards) : Prop := {
  tally_total : totalX402Revenue r = sumOf (sinceFees l);
  tally_sum : total (validatorShares r) = sumOf (sinceFees l);
  tally_shares : forall v, GetValidatorX402Revenue v r = earned v (sinceFees l);
  tally_perf : forall v, match validatorPerformance r !! v with Some p => perf_ok l v p | None => countOf v (allFees l) = 0 end;
  tally_history : (length (paymentHistory r) <= 10000)%nat;
  tally_fees : map (fun p => (payValidator p, payFee p)) (paymentHistory r) =
               drop (length (allFees l) - length (paymentHistory r)) (allFees l);
  tally_rate : validatorFeeShare r = shareNow l;
}.

(** Success rate one and no processing time: the score is always one. *)
Lemma score_one p now : SuccessRate p = f64_of_Z 1 -> AvgProcessingTime p = f64_of_Z 0 -> calculateAIScore p now = f64_of_Z 1.
Proof. intros Hs Ha. unfold calculateAIScore. rewrite Hs, Ha.
  destruct (1000 <? TotalX402Processed p), (100 <? TotalX402Processed p), (now - LastActive p <? hourNs); vm_compute; reflexivity. Qed.

Lemma no_fees_earned v l : countOf v l = 0 -> earned v l = 0.
Proof. unfold countOf, earned, zlen. destruct (base.filter _ l); [done|]. simpl. lia. Qed.

Lemma record_spec p h (fees : list (Address * Z)) entry : (length h <= 10000)%nat ->
  map (fun p => (payValidator p, payFee p)) h = drop (length fees - length h) fees -> (length h <= length fees)%nat ->
  (payValidator p, payFee p) = entry ->
  let h' := recordPayment p h in
  (length h' <= 10000)%nat /\ (length h' <= length (fees ++ [entry]))%nat /\
  map (fun p => (payValidator p, payFee p)) h' = drop (length (fees ++ [entry]) - length h') (fees ++ [entry]).
Proof.
  intros Hlen Hmap Hle Hp. unfold recordPayment. cbv zeta. rewrite length_app. cbn [length].
  assert (Happ : map (fun p => (payValidator p, payFee p)) (h ++ [p]) = drop (length fees - length h) (fees ++ [entry])).
  { rewrite map_app, Hmap, drop_app_le by lia. cbn [map]. by rewrite Hp. }
  destruct (Nat.ltb_spec 10000 (length h + 1)) as [Hc|Hc].
  - rewrite length_drop, !length_app. cbn [length]. split; [lia|]. split; [lia|].
    change (map ?f (drop 1 ?x)) with (f <$> drop 1 x). rewrite fmap_drop.
    change (?f <$> ?x) with (map f x). rewrite Happ, drop_drop. f_equal. lia.
  - rewrite !length_app. cbn [length]. split; [lia|]. split; [lia|]. rewrite Happ. f_equal. lia.
Qed.

(** A payment in the tally. *)
Lemma tally_pay clk payment amount l r : payAmount payment = Some amount -> (length (paymentHistory r) <= length (allFees l))%nat ->
  tallies l r ->
  let l' := ledgerStep (PayOp clk payment) l in let r' := runReward (PayOp clk payment) r in
  tallies l' r' /\ (length (paymentHistory r') <= length (allFees l'))%nat.
Proof.
  intros Ha Hle [Htot Hsum Hsh Hperf Hlen Hmap Hrate]. cbv zeta. cbn [ledgerStep runReward]. unfold ProcessX402Payment. rewrite Ha, Hrate. cbn [snd].
  set (fee := validatorFee oob (shareNow l) amount). set (v := payValidator payment).
  match goal with |- context [recordPayment ?q ?h] => set (p := q) end.
  change (payValidator p) with v.
  destruct (record_spec p (paymentHistory r) (allFees l) (v, fee) Hlen Hmap Hle eq_refl) as (Hlen' & Hle' & Hmap').
  split; [|exact Hle']. split; cbn [totalX402Revenue validatorShares paymentHistory validatorFeeShare validatorPerformance
    distributeToValidator updateValidatorPerformance allFees sinceFees shareNow]; try done.
  - rewrite sumOf_app, Htot. simpl. lia.
  - rewrite total_insert, sumOf_app, Hsum. simpl. lia.
  - intros w. unfold GetValidatorX402Revenue in *. cbn [validatorShares distributeToValidator updateValidatorPerformance].
    rewrite earned_snoc. destruct (decide (v = w)) as [<-|Hne].
    + rewrite lookup_insert, decide_True by done. cbn [default from_option id]. by rewrite Hsh.
    + rewrite lookup_insert_ne by done. rewrite Hsh. lia.
  - intros w. specialize (Hperf w). destruct (decide (v = w)) as [<-|Hne].
    + rewrite lookup_insert, decide_True by done. unfold perf_ok. cbn [TotalX402Processed TotalRevenue SuccessRate AvgProcessingTime AIScore allFees].
      rewrite countOf_snoc, earned_snoc, !decide_True by done. destruct (validatorPerformance r !! v) as [q|]; cbn [default from_option id].
      * destruct Hperf as (-> & -> & Hs & Hv & _). split_and!; try done; [word_lia|by apply score_one].
      * rewrite Hperf, (no_fees_earned v _ Hperf). split_and!; try done. by apply score_one.
    + rewrite lookup_insert_ne by done. unfold perf_ok in *. cbn [allFees]. rewrite countOf_snoc, earned_snoc, !decide_False, !Z.add_0_r by done.
      exact Hperf.
Qed.

Lemma tally_step op l r : (length (paymentHistory r) <= length (allFees l))%nat -> tallies l r ->
  tallies (ledgerStep op l) (runReward op r) /\ (length (paymentHistory (runReward op r)) <= length (allFees (ledgerStep op l)))%nat.
Proof.
  intros Hle Ht. destruct op as [clk payment| |p|mode].
  - destruct (payAmount payment) as [amount|] eqn:Ha; [by eapply tally_pay|]. cbn [ledgerStep runReward]. unfold ProcessX402Payment. by rewrite Ha.
  - cbn [ledgerStep runReward]. unfold DistributeX402Rewards. rewrite (tally_total _ _ Ht). destruct (sumOf (sinceFees l) <=? 0); [done|].
    destruct Ht. by split; [split|].
  - cbn [ledgerStep runReward]. unfold SetValidatorFeeShare. destruct (f64_lt p _ || _); [done|]. destruct Ht. by split; [split|].
  - cbn [ledgerStep runReward]. unfold SetDistributionMode. destruct (bool_decide _); [|done]. destruct Ht. by split; [split|].
Qed.

Lemma tallies_new : tallies (mkLedger [] [] (f64_const 5 100)) NewX402ValidatorRewards.
Proof.
  split; [done|done|done|done|cbn; lia|done|done].
Qed.

Lemma tally_run ops l r : (length (paymentHistory r) <= length (allFees l))%nat -> tallies l r ->
  tallies (foldl (fun l op => ledgerStep op l) l ops) (foldl (fun r op => runReward op r) r ops).
Proof.
  revert l r. induction ops as [|op ops IH]; intros l r Hle Ht; [done|]. destruct (tally_step op l r Hle Ht) as [Ht' Hle']. by apply IH.
Qed.

(** The tally is exact: after any run of payments, distributions and settings,
    the total is the sum of the shares and of the fees since the last
    distribution, the share of a validator is the sum of its own fees since
    then, its performance record counts all its payments and fees ever, and the
    history is the last ten thousand payments.  The fee of a payment is a whole
    percentage of it, by default five, rounded down.  Every validator that took
    part has the same score, one, whatever it did. *)
Theorem rewards_tally ops : let l := ledgerOf ops in let r := runRewards ops in
  totalX402Revenue r = total (validatorShares r) /\ totalX402Revenue r = sumOf (sinceFees l) /\
  (forall v, GetValidatorX402Revenue v r = earned v (sinceFees l)) /\
  (forall v p, validatorPerformance r !! v = Some p ->
     TotalX402Processed p = u64 (countOf v (allFees l)) /\ TotalRevenue p = earned v (allFees l) /\ AIScore p = f64_of_Z 1) /\
  (length (paymentHistory r) <= 10000)%nat /\
  map (fun p => (payValidator p, payFee p)) (paymentHistory r) = drop (length (allFees l) - length (paymentHistory r)) (allFees l) /\
  (forall amount, validatorFee oob (f64_const 5 100) amount = amount * 5 / 100).
Proof.
  cbv zeta. destruct (tally_run ops (mkLedger [] [] (f64_const 5 100)) NewX402ValidatorRewards) as [Htot Hsum Hsh Hperf Hlen Hmap _];
    [done|exact tallies_new|].
  unfold runRewards, ledgerOf. split; [congruence|]. split; [done|]. split; [done|]. split; [|split; [done|split; [done|]]].
  - intros v p Hp. specialize (Hperf v). rewrite Hp in Hperf. by destruct Hperf as (? & ? & _ & _ & ?).
  - intros amount. unfold validatorFee. replace (feePercent oob (f64_const 5 100)) with 5 by (vm_compute; reflexivity). done.
Qed.

(** ** Rankings and statistics *)

Lemma sort_equal s : Forall (fun x => AIScore x.2 = f64_of_Z 1) s -> sortScores s = s.
Proof.
  intros Hs. assert (Hscore : forall i, scoreOf s i = f64_of_Z 1 \/ scoreOf s i = S754_nan).
  { intros i. unfold scoreOf. destruct (s !! i) as [x|] eqn:E; [left|by right]. by eapply (Forall_lookup_1 _ _ _ _ Hs E). }
  assert (Hinner : forall i, sortInner i s = s).
  { intros i. unfold sortInner. generalize (seq (S i) (length s - S i)). intros js. induction js as [|j js IH]; [done|]. cbn [foldl].
    replace (f64_lt (scoreOf s i) (scoreOf s j)) with false; [done|].
    destruct (Hscore i) as [-> | ->], (Hscore j) as [-> | ->]; vm_compute; reflexivity. }
  unfold sortScores. generalize (seq 0 (length s - 1)). intros rows. induction rows as [|i rows IH]; [done|]. cbn [foldl]. by rewrite Hinner.
Qed.

(** The ranking by score ranks nothing: since every score is one, the loops
    that sort exchange nothing, and the best validators are the first of the
    walk over the map, an order the runtime draws anew for every request. *)
Theorem ranking_arbitrary ops limit order : order ≡ₚ map_to_list (validatorPerformance (runRewards ops)) ->
  map (fun x => x.1.1.2) (GetTopPerformingValidators limit order) = take (Z.to_nat limit) (map fst order) /\
  Forall (fun x => x.1.2 = f64_of_Z 1) (GetTopPerformingValidators limit order).
Proof.
  intros Hp. destruct (tally_run ops (mkLedger [] [] (f64_const 5 100)) NewX402ValidatorRewards (le_n 0) tallies_new) as [_ _ _ Hperf _ _ _].
  assert (Hs : Forall (fun x => AIScore x.2 = f64_of_Z 1) order).
  { apply list.Forall_forall. intros [v p] Hin. rewrite Hp in Hin. apply elem_of_map_to_list in Hin. specialize (Hperf v).
    unfold runRewards in Hin. rewrite Hin in Hperf. by destruct Hperf as (_ & _ & _ & _ & ?). }
  unfold GetTopPerformingValidators. cbv zeta. rewrite (sort_equal _ Hs).
  replace (take (Z.to_nat (Z.min limit (zlen order))) order) with (take (Z.to_nat limit) order).
  2:{ unfold zlen. destruct (Z.le_gt_cases limit (Z.of_nat (length order))) as [Hl|Hl]; [by rewrite Z.min_l|].
      rewrite Z.min_r, Nat2Z.id, firstn_all by lia. apply take_ge. lia. }
  split.
  - change (map ?f (imap ?g ?l)) with (f <$> imap g l). rewrite fmap_imap. change (map fst order) with (fst <$> order). rewrite <- fmap_take.
    generalize (take (Z.to_nat limit) order). intros l. unfold compose. cbn [fst snd]. generalize 0%nat as k. intros _. induction l as [|x l IH]; [done|].
    rewrite imap_cons, fmap_cons. f_equal. exact IH.
  - apply Forall_take with (n := Z.to_nat limit) in Hs. revert Hs. generalize (take (Z.to_nat limit) order). intros l Hs.
    apply list.Forall_forall. intros y Hy. apply list_elem_of_lookup in Hy as [i Hy]. rewrite list_lookup_imap in Hy.
    destruct (l !! i) as [x|] eqn:E; [|done]. injection Hy as <-. by eapply (Forall_lookup_1 _ _ _ _ Hs E).
Qed.

Lemma topOf_spec l : let top := topOf l in
  (forall p, p ∈ l -> p.2 <= top.2) /\ 0 <= top.2 /\ (top = (0, 0) \/ top ∈ l).
Proof.
  unfold topOf. cbv zeta. induction l as [|p l IH] using rev_ind; [split; [by intros ? []%not_elem_of_nil|split; [done|by left]]|].
  rewrite foldl_app. cbn [foldl]. destruct IH as (Hmax & H0 & Hin).
  set (top := foldl _ (0, 0) l) in *. clearbody top. destruct (Z.ltb_spec top.2 p.2) as [Hlt|Hge].
  - split; [|split; [lia|right; set_solver]]. intros q [Hq|Hq%list_elem_of_singleton]%elem_of_app; [specialize (Hmax q Hq); lia|by subst].
  - split; [|split; [done|]]. { intros q [Hq|Hq%list_elem_of_singleton]%elem_of_app; [by apply Hmax|by subst]. }
    destruct Hin as [Hin|Hin]; [by left|right]. apply elem_of_app. by left.
Qed.
End Rewards.

Definition onePayment : list rewardOp :=
  [PayOp (mkRewardClock 1 1 2) (mkX402Payment 1 2 3 (Some 1000) 0 4 0 [] 5); PayOp (mkRewardClock 1 1 2) (mkX402Payment 1 2 3 (Some 1000) 0 9 0 [] 5)].

Lemma ranking_arbitrary_witness : let order := map_to_list (validatorPerformance (runRewards (fun _ => 0) onePayment)) in
  map (fun x => x.1.1.2) (GetTopPerformingValidators 1 order) = take 1 (map fst order) /\
  map (fun x => x.1.1.2) (GetTopPerformingValidators 1 (reverse order)) = take 1 (map fst (reverse order)).
Proof.
  intros order. split.
  - exact (proj1 (ranking_arbitrary (fun _ => 0) onePayment 1 order (reflexivity _))).
  - exact (proj1 (ranking_arbitrary (fun _ => 0) onePayment 1 (reverse order) (reverse_Permutation _))).
Defined.
