(* ===== verification/TxPrices.v ===== *)
(** * The transactions of the pool by hash and by price (core/tx_list.go, core/tx_pool.go)

    [Lookup] is [txLookup], the maps from hashes to the local and the remote
    transactions; [Priced] is [txPricedList], the two heaps by price from which
    a full pool discards remote transactions. *)

From S2P Require Import Prelude Heap Params Types Misc Snapshot Finalize TxQueue.

(** What the runtime decides: the order of each walk over a map and the readings
    of the clock, numbered in the order in which they happen. *)
Class Runtime : Type := {
  walk : nat -> forall {A}, gmap Z A -> list (Z * A);
  walk_perm : forall t A (m : gmap Z A), walk t m ≡ₚ map_to_list m;
  now : nat -> Z;
}.

(** [tx.Size()]: the bytes of the encoding. *)
Class TxSize : Type := {
  sizeOf : Transaction -> Z;
  sizeOf_pos : forall tx, 0 < sizeOf tx;
}.

Definition txSlotSize : Z := 32 * 1024.
Definition txMaxSize : Z := 4 * txSlotSize.

Definition numSlots `{TxSize} (tx : Transaction) : Z := (sizeOf tx + txSlotSize - 1) / txSlotSize.

(** [EffectiveGasTipValue] and [EffectiveGasTipIntCmp] *)
Definition effectiveTip (tx : Transaction) (baseFee : option Z) : Z := (EffectiveGasTip tx baseFee).1.
Definition EffectiveGasTipIntCmp (tx : Transaction) (tip : Z) (baseFee : option Z) : comparison :=
  effectiveTip tx baseFee ?= tip.

Module Lookup.
Section Lookup.
Context `{TxSigning} `{TxSize} `{Runtime}.

Record txLookup : Type := mkLookup {
  slots : Z;
  locals : gmap Hash Transaction;
  remotes : gmap Hash Transaction;
}.

Definition newTxLookup : txLookup := mkLookup 0 ∅ ∅.

Definition Get (hash : Hash) (t : txLookup) : option Transaction :=
  match locals t !! hash with Some tx => Some tx | None => remotes t !! hash end.
Definition GetLocal (hash : Hash) (t : txLookup) : option Transaction := locals t !! hash.
Definition GetRemote (hash : Hash) (t : txLookup) : option Transaction := remotes t !! hash.

Definition Count (t : txLookup) : Z := Z.of_nat (size (locals t)) + Z.of_nat (size (remotes t)).
Definition LocalCount (t : txLookup) : Z := Z.of_nat (size (locals t)).
Definition RemoteCount (t : txLookup) : Z := Z.of_nat (size (remotes t)).
Definition Slots (t : txLookup) : Z := slots t.

Definition Add (tx : Transaction) (isLocal : bool) (t : txLookup) : txLookup :=
  let slots := slots t + numSlots tx in
  if isLocal then mkLookup slots (<[HashOfTx tx := tx]> (locals t)) (remotes t)
  else mkLookup slots (locals t) (<[HashOfTx tx := tx]> (remotes t)).

(** A hash that is not there is only logged. *)
Definition Remove (hash : Hash) (t : txLookup) : txLookup :=
  match Get hash t with
  | None => t
  | Some tx => mkLookup (slots t - numSlots tx) (delete hash (locals t)) (delete hash (remotes t))
  end.

(** [accountSet.containsTx] *)
Definition containsTx (accounts : gset Address) (tx : Transaction) : bool :=
  match SenderOfTx tx with Ok a => bool_decide (a ∈ accounts) | _ => false end.

Definition migrate (accounts : gset Address) (t : txLookup) (kv : Hash * Transaction) : txLookup :=
  if containsTx accounts kv.2 then mkLookup (slots t) (<[kv.1 := kv.2]> (locals t)) (delete kv.1 (remotes t)) else t.
Definition RemoteToLocals (tick : nat) (accounts : gset Address) (t : txLookup) : Z * txLookup :=
  let order := walk tick (remotes t) in
  (zlen (base.filter (fun kv => containsTx accounts kv.2 = true) order), foldl (migrate accounts) t order).

(** [Range] over the remote transactions. *)
Definition remoteTxs (tick : nat) (t : txLookup) : list Transaction := (walk tick (remotes t)).*2.
Definition RemotesBelowTip (tick : nat) (threshold : Z) (t : txLookup) : list Transaction :=
  base.filter (fun tx => TxGasTipCap tx < threshold) (remoteTxs tick t).
End Lookup.
End Lookup.

Module Priced.
Import Lookup.
Section Priced.
Context `{TxSigning} `{TxSize} `{Runtime}.

(** [priceHeap.cmp] and [Less] *)
Definition cmp (baseFee : option Z) (a b : Transaction) : comparison :=
  let byCaps := match TxGasFeeCap a ?= TxGasFeeCap b with Eq => TxGasTipCap a ?= TxGasTipCap b | c => c end in
  match baseFee with
  | None => byCaps
  | Some _ => match effectiveTip a baseFee ?= effectiveTip b baseFee with Eq => byCaps | c => c end
  end.
Definition Less (baseFee : option Z) (a b : Transaction) : bool :=
  match cmp baseFee a b with Lt => true | Gt => false | Eq => TxNonce b <? TxNonce a end.

(** [all] is the lookup of the pool, an argument; the floating heap has no base
    fee. *)
Record txPricedList : Type := mkPriced {
  stales : Z;
  baseFee : option Z;
  urgent : list Transaction;
  floating : list Transaction;
}.
Definition newTxPricedList : txPricedList := mkPriced 0 None [] [].
Definition set_stales (s : Z) (l : txPricedList) : txPricedList := mkPriced s (baseFee l) (urgent l) (floating l).
Definition set_urgent (h : list Transaction) (l : txPricedList) : txPricedList := mkPriced (stales l) (baseFee l) h (floating l).
Definition set_floating (h : list Transaction) (l : txPricedList) : txPricedList := mkPriced (stales l) (baseFee l) (urgent l) h.

Definition urgentRatio : nat := 4.
Definition floatingRatio : nat := 1.

Definition Put (tx : Transaction) (isLocal : bool) (l : txPricedList) : txPricedList :=
  if isLocal then l else set_urgent (heapPush (Less (baseFee l)) (urgent l) tx) l.

(** The pops that fill the floating heap. *)
Fixpoint moveWorst (n : nat) (bf : option Z) (h : list Transaction) : res (list Transaction * list Transaction) :=
  match n with
  | O => Ok ([], h)
  | S n =>
      xh ← heapPop (Less bf) h;
      rest ← moveWorst n bf xh.2;
      Ok (xh.1 :: rest.1, rest.2)
  end.

Definition Reheap (tick : nat) (all : txLookup) (l : txPricedList) : res txPricedList :=
  let h := heapInit (Less (baseFee l)) (remoteTxs tick all) in
  let floatingCount := (length h * floatingRatio / (urgentRatio + floatingRatio))%nat in
  fu ← moveWorst floatingCount (baseFee l) h;
  Ok (mkPriced 0 (baseFee l) fu.2 (heapInit (Less None) fu.1)).

Definition Removed (tick : nat) (all : txLookup) (count : Z) (l : txPricedList) : res txPricedList :=
  let s := i64 (stales l + count) in
  let l := set_stales s l in
  if s <=? Z.of_nat ((length (urgent l) + length (floating l)) / 4) then Ok l else Reheap tick all l.

Definition SetBaseFee (tick : nat) (all : txLookup) (fee : Z) (l : txPricedList) : res txPricedList :=
  Reheap tick all (mkPriced (stales l) (Some fee) (urgent l) (floating l)).

(** Pop what was removed, or became local, from the top; one unit of fuel per
    element. *)
Fixpoint dropStale (fuel : nat) (all : txLookup) (bf : option Z) (s : Z) (h : list Transaction) : res (Z * list Transaction) :=
  match h with
  | [] => Ok (s, h)
  | head :: _ =>
      match GetRemote (HashOfTx head) all with
      | Some _ => Ok (s, h)
      | None =>
          match fuel with
          | O => Err ErrOutOfFuel
          | S fuel => xh ← heapPop (Less bf) h; dropStale fuel all bf (i64 (s - 1)) xh.2
          end
      end
  end.

(** The answer, with the counter and the heap afterwards. *)
Definition underpricedFor (all : txLookup) (bf : option Z) (s : Z) (h : list Transaction) (tx : Transaction)
    : res (bool * Z * list Transaction) :=
  sh ← dropStale (length h) all bf s h;
  Ok (match sh.2 with [] => false | head :: _ => match cmp bf head tx with Lt => false | _ => true end end, sh.1, sh.2).

(** The operators stop at the first false operand. *)
Definition Underpriced (all : txLookup) (tx : Transaction) (l : txPricedList) : res (bool * txPricedList) :=
  u ← underpricedFor all (baseFee l) (stales l) (urgent l) tx;
  let l := mkPriced u.1.2 (baseFee l) u.2 (floating l) in
  if negb (u.1.1 || (length (urgent l) =? 0)%nat) then Ok (false, l) else
  f ← underpricedFor all None (stales l) (floating l) tx;
  let l := mkPriced f.1.2 (baseFee l) (urgent l) f.2 in
  if negb (f.1.1 || (length (floating l) =? 0)%nat) then Ok (false, l) else
  Ok (negb (length (urgent l) =? 0)%nat || negb (length (floating l) =? 0)%nat, l).

(** The loop of [Discard]: every round takes one element out of the urgent or of
    the floating heap.  The result has the slots still wanted. *)
Fixpoint discardLoop (fuel : nat) (all : txLookup) (wanted : Z) (l : txPricedList) : res (list Transaction * Z * txPricedList) :=
  if wanted <=? 0 then Ok ([], wanted, l) else
  let more := (length (floating l) * urgentRatio <? length (urgent l) * floatingRatio)%nat in
  if negb more && (length (floating l) =? 0)%nat then Ok ([], wanted, l) else
  match fuel with
  | O => Err ErrOutOfFuel
  | S fuel =>
      if more then
        xh ← heapPop (Less (baseFee l)) (urgent l);
        match GetRemote (HashOfTx xh.1) all with
        | None => discardLoop fuel all wanted (mkPriced (i64 (stales l - 1)) (baseFee l) xh.2 (floating l))
        | Some _ => discardLoop fuel all wanted (mkPriced (stales l) (baseFee l) xh.2 (heapPush (Less None) (floating l) xh.1))
        end
      else
        xh ← heapPop (Less None) (floating l);
        match GetRemote (HashOfTx xh.1) all with
        | None => discardLoop fuel all wanted (mkPriced (i64 (stales l - 1)) (baseFee l) (urgent l) xh.2)
        | Some _ =>
            rest ← discardLoop fuel all (wanted - numSlots xh.1) (set_floating xh.2 l);
            Ok (xh.1 :: rest.1.1, rest.1.2, rest.2)
        end
  end.

(** A negative count is no capacity for a slice. *)
Definition Discard (all : txLookup) (wanted : Z) (force : bool) (l : txPricedList) : res (list Transaction * bool * txPricedList) :=
  if wanted <? 0 then Panic else
  dl ← discardLoop (2 * length (urgent l) + length (floating l)) all wanted l;
  let '(drop, wanted, l) := dl in
  if (0 <? wanted) && negb force
  then Ok ([], false, set_urgent (foldl (fun h tx => heapPush (Less (baseFee l)) h tx) (urgent l) drop) l)
  else Ok (drop, true, l).
End Priced.
End Priced.
