(* ===== verification/TxPricesFacts.v ===== *)
(** * What the lookup and the price heaps keep (core/tx_list.go, core/tx_pool.go)

    The lookup counts its slots and files a transaction under its hash, once;
    the heaps hold every remote transaction, best to discard first, and none of
    their operations runs off a heap. *)

From S2P Require Import Prelude Heap Params Types Misc Snapshot Finalize TxQueue TxPrices.

Module LookupFacts.
Import Lookup.
Section Facts.
Context `{TxSigning} `{TxSize} `{Runtime}.

Definition slotSum (m : gmap Hash Transaction) : Z := map_fold (fun _ tx n => numSlots tx + n) 0 m.

Lemma slotSum_insert h tx m : m !! h = None -> slotSum (<[h := tx]> m) = numSlots tx + slotSum m.
Proof. intros Hm. unfold slotSum. apply (map_fold_insert_L (fun _ tx n => numSlots tx + n)); [intros; lia|done]. Qed.
Lemma slotSum_delete h tx m : m !! h = Some tx -> slotSum m = numSlots tx + slotSum (delete h m).
Proof. intros Hm. rewrite <- (insert_delete_id m h tx Hm) at 1. rewrite slotSum_insert; [done|apply lookup_delete_eq]. Qed.

Record lookup_ok (t : txLookup) : Prop := {
  lookup_apart : locals t ##ₘ remotes t;
  lookup_hash : forall h tx, Get h t = Some tx -> HashOfTx tx = h;
  lookup_slots : slots t = slotSum (locals t) + slotSum (remotes t);
}.

Lemma Get_cases h t tx : Get h t = Some tx <-> locals t !! h = Some tx \/ (locals t !! h = None /\ remotes t !! h = Some tx).
Proof. unfold Get. destruct (locals t !! h); naive_solver. Qed.

Lemma Get_none h t : Get h t = None <-> locals t !! h = None /\ remotes t !! h = None.
Proof. unfold Get. destruct (locals t !! h); naive_solver. Qed.

Lemma Add_ok tx isLocal t : lookup_ok t -> Get (HashOfTx tx) t = None ->
  lookup_ok (Add tx isLocal t) /\ forall h, Get h (Add tx isLocal t) = if decide (h = HashOfTx tx) then Some tx else Get h t.
Proof.
  intros [Hd Hh Hs] Hn. apply Get_none in Hn as [Hl Hr].
  assert (Hget : forall h, Get h (Add tx isLocal t) = if decide (h = HashOfTx tx) then Some tx else Get h t).
  { intros h. unfold Get, Add. destruct isLocal; cbn [locals remotes]; case_decide as Hx; subst; rewrite ?lookup_insert_eq, ?lookup_insert_ne by done; try done.
    by rewrite Hl. }
  split; [|exact Hget]. split.
  - unfold Add. destruct isLocal; cbn [locals remotes]; [apply map_disjoint_insert_l_2|apply map_disjoint_insert_r_2]; done.
  - intros h y. rewrite Hget. case_decide; [by intros [= <-]|apply Hh].
  - unfold Add. destruct isLocal; cbn [locals remotes slots]; rewrite slotSum_insert by done; lia.
Qed.

Lemma Remove_ok h t : lookup_ok t ->
  lookup_ok (Remove h t) /\ (forall h', Get h' (Remove h t) = if decide (h' = h) then None else Get h' t) /\
  (forall h' tx, remotes (Remove h t) !! h' = Some tx -> remotes t !! h' = Some tx).
Proof.
  intros [Hd Hh Hs]. unfold Remove. destruct (Get h t) as [tx|] eqn:E.
  2: { split; [done|]. split; [|done]. intros h'. case_decide; [by subst|done]. }
  assert (Hget : forall h', Get h' (mkLookup (slots t - numSlots tx) (delete h (locals t)) (delete h (remotes t))) = if decide (h' = h) then None else Get h' t).
  { intros h'. unfold Get. cbn [locals remotes]. case_decide as Hx; subst; rewrite ?lookup_delete_eq, ?lookup_delete_ne by done; done. }
  split; [split|split; [exact Hget|]]; cbn [locals remotes slots].
  - by apply map_disjoint_delete_l, map_disjoint_delete_r.
  - intros h' y. rewrite Hget. case_decide; [done|apply Hh].
  - apply Get_cases in E as [E|[E1 E]].
    + rewrite Hs, (slotSum_delete _ _ _ E). rewrite (delete_id (remotes t)); [lia|].
      destruct (remotes t !! h) eqn:Er; [|done]. by destruct (map_disjoint_spec (locals t) (remotes t)) as [Hdis _]; destruct (Hdis Hd h _ _ E Er).
    + rewrite Hs, (slotSum_delete _ _ _ E), (delete_id (locals t)) by done. lia.
  - intros h' y Hy. by apply lookup_delete_Some in Hy as [_ Hy].
Qed.

(** Migration moves transactions from one map to the other. *)
Lemma migrate_ok accounts t (kv : Hash * Transaction) : lookup_ok t ->
  (remotes t !! kv.1 = Some kv.2 \/ containsTx accounts kv.2 = false) ->
  lookup_ok (migrate accounts t kv) /\ (forall h, Get h (migrate accounts t kv) = Get h t) /\
  (forall h tx, remotes (migrate accounts t kv) !! h = Some tx -> remotes t !! h = Some tx) /\
  (forall h, h <> kv.1 -> remotes (migrate accounts t kv) !! h = remotes t !! h).
Proof.
  intros Hok Hin. unfold migrate. destruct kv as [h tx]. cbn [fst snd] in *. destruct (containsTx accounts tx) eqn:Ec; [|done].
  destruct Hin as [Hin|]; [|done]. destruct Hok as [Hd Hh Hs].
  assert (Hl : locals t !! h = None) by (by eapply map_disjoint_Some_r).
  assert (Hget : forall h', Get h' (mkLookup (slots t) (<[h := tx]> (locals t)) (delete h (remotes t))) = Get h' t).
  { intros h'. unfold Get. cbn [locals remotes]. destruct (decide (h' = h)) as [->|Hne].
    - by rewrite lookup_insert_eq, Hl, Hin.
    - by rewrite lookup_insert_ne, lookup_delete_ne by done. }
  split; [split|split; [exact Hget|split]]; cbn [locals remotes slots].
  - apply map_disjoint_insert_l_2; [apply lookup_delete_eq|]. by apply map_disjoint_delete_r.
  - intros h' y. rewrite Hget. apply Hh.
  - rewrite slotSum_insert by done. rewrite Hs, (slotSum_delete h tx (remotes t)) by done. lia.
  - intros h' y Hy. by apply lookup_delete_Some in Hy as [_ Hy].
  - intros h' Hne. by apply lookup_delete_ne.
Qed.

Lemma RemoteToLocals_ok tick accounts t : lookup_ok t -> let t' := (RemoteToLocals tick accounts t).2 in
  lookup_ok t' /\ (forall h, Get h t' = Get h t) /\ (forall h tx, remotes t' !! h = Some tx -> remotes t !! h = Some tx).
Proof.
  intros Hok. unfold RemoteToLocals. cbn [snd].
  assert (Hnd : NoDup (walk tick (remotes t)).*1) by (rewrite walk_perm; apply NoDup_fst_map_to_list).
  assert (Hin : forall kv, kv ∈ walk tick (remotes t) -> remotes t !! kv.1 = Some kv.2).
  { intros [h tx] Hkv. rewrite walk_perm in Hkv. by apply elem_of_map_to_list. }
  revert Hnd Hin. generalize (walk tick (remotes t)). intros order. revert t Hok. induction order as [|kv order IH]; intros t Hok Hnd Hin; [done|].
  cbn [foldl]. rewrite fmap_cons in Hnd. apply list.NoDup_cons in Hnd as [Hk Hnd].
  destruct (migrate_ok accounts t kv Hok) as (Hok' & Hget & Hsub & Hne); [left; apply Hin, list_elem_of_here|].
  destruct (IH _ Hok' Hnd) as (Hok'' & Hget'' & Hsub'').
  { intros kv' Hkv'. rewrite Hne; [by apply Hin, list_elem_of_further|]. intros Heq. apply Hk. rewrite <- Heq. by apply list_elem_of_fmap_2. }
  split; [done|]. split; [intros h; by rewrite Hget''|eauto].
Qed.

Lemma new_lookup_ok : lookup_ok newTxLookup.
Proof. split; cbn; [by apply map_disjoint_empty_l|by intros ? ?|done]. Qed.

Lemma remoteTxs_elem tick t tx : tx ∈ remoteTxs tick t <-> exists h, remotes t !! h = Some tx.
Proof.
  unfold remoteTxs. rewrite list_elem_of_fmap. split.
  - intros ([h y] & -> & Hin). rewrite walk_perm in Hin. apply elem_of_map_to_list in Hin. by exists h.
  - intros [h Hh]. exists (h, tx). split; [done|]. rewrite walk_perm. by apply elem_of_map_to_list.
Qed.
End Facts.
End LookupFacts.

Module PricedFacts.
Import Lookup Priced LookupFacts.
Section Facts.
Context `{TxSigning} `{TxSize} `{Runtime}.

(** The lexicographic order behind [cmp]. *)
Definition tipOf (bf : option Z) (tx : Transaction) : Z := match bf with Some _ => effectiveTip tx bf | None => 0 end.
Definition cheaper (bf : option Z) (a b : Transaction) : Prop :=
  tipOf bf a < tipOf bf b \/ tipOf bf a = tipOf bf b /\
  (TxGasFeeCap a < TxGasFeeCap b \/ TxGasFeeCap a = TxGasFeeCap b /\ TxGasTipCap a < TxGasTipCap b).

Lemma cmp_cheaper bf a b : match cmp bf a b with
  | Lt => cheaper bf a b
  | Gt => cheaper bf b a
  | Eq => tipOf bf a = tipOf bf b /\ TxGasFeeCap a = TxGasFeeCap b /\ TxGasTipCap a = TxGasTipCap b
  end.
Proof.
  unfold cmp, cheaper. set (caps := match TxGasFeeCap a ?= TxGasFeeCap b with Eq => _ | c => c end).
  assert (Hc : match caps with
    | Lt => TxGasFeeCap a < TxGasFeeCap b \/ TxGasFeeCap a = TxGasFeeCap b /\ TxGasTipCap a < TxGasTipCap b
    | Gt => TxGasFeeCap b < TxGasFeeCap a \/ TxGasFeeCap b = TxGasFeeCap a /\ TxGasTipCap b < TxGasTipCap a
    | Eq => TxGasFeeCap a = TxGasFeeCap b /\ TxGasTipCap a = TxGasTipCap b end).
  { unfold caps. destruct (Z.compare_spec (TxGasFeeCap a) (TxGasFeeCap b)); [|lia|lia].
    destruct (Z.compare_spec (TxGasTipCap a) (TxGasTipCap b)); lia. }
  unfold tipOf. destruct bf as [f|]; [|destruct caps; lia].
  destruct (Z.compare_spec (effectiveTip a (Some f)) (effectiveTip b (Some f))); [|lia|lia]. destruct caps; lia.
Qed.

Lemma Less_true bf a b : Less bf a b = true <-> cheaper bf a b \/
  (tipOf bf a = tipOf bf b /\ TxGasFeeCap a = TxGasFeeCap b /\ TxGasTipCap a = TxGasTipCap b /\ TxNonce b < TxNonce a).
Proof.
  pose proof (cmp_cheaper bf a b) as Hc. unfold Less. destruct (cmp bf a b); unfold cheaper in *; [rewrite Z.ltb_lt; lia| |];
    (split; [|try done]); try (intros ?; lia); intros; lia.
Qed.

#[export] Instance price_less_order bf : WeakOrder (Less bf).
Proof.
  split.
  - intros x y Hxy. apply not_true_iff_false. rewrite Less_true in *. unfold cheaper in *. lia.
  - intros x y z. rewrite <- !not_true_iff_false, !Less_true. unfold cheaper. lia.
Qed.

Definition heaps (l : txPricedList) : Prop := heap (Less (baseFee l)) (urgent l) /\ heap (Less None) (floating l).
Definition inHeaps (l : txPricedList) (tx : Transaction) : Prop := tx ∈ urgent l \/ tx ∈ floating l.

(** The heaps are heaps, and no remote transaction is missing but those with a
    hash of [gone]. *)
Record priced_ok (gone : list Hash) (all : txLookup) (l : txPricedList) : Prop := {
  priced_heaps : heaps l;
  priced_all : forall h tx, remotes all !! h = Some tx -> inHeaps l tx \/ h ∈ gone;
}.

Lemma pop_some bf x h : exists h', heapPop (Less bf) (x :: h) = Ok (x, h') /\ (heap (Less bf) (x :: h) -> heap (Less bf) h') /\ h' ≡ₚ h.
Proof. apply heapPop_ok, _. Qed.

Lemma moveWorst_spec n : forall bf h, (n <= length h)%nat -> heap (Less bf) h -> exists worst h',
  moveWorst n bf h = Ok (worst, h') /\ heap (Less bf) h' /\ worst ++ h' ≡ₚ h.
Proof.
  induction n as [|n IH]; intros bf h Hn Hh; [by exists [], h|]. destruct h as [|x h]; [simpl in Hn; lia|].
  destruct (pop_some bf x h) as (h1 & Hp & Hh1 & Hperm). cbn [moveWorst]. rewrite Hp. cbn [mbind res_bind fst snd].
  assert (Hlen : length h1 = length h) by (by apply Permutation_length).
  destruct (IH bf h1) as (worst & h' & Hrun & Hh' & Hperm'); [simpl in Hn; lia|auto|].
  rewrite Hrun. exists (x :: worst), h'. split; [done|]. split; [done|]. cbn [app]. by rewrite Hperm', Hperm.
Qed.

Lemma Reheap_spec tick all l : exists l', Reheap tick all l = Ok l' /\ heaps l' /\ baseFee l' = baseFee l /\ stales l' = 0 /\
  urgent l' ++ floating l' ≡ₚ remoteTxs tick all.
Proof.
  unfold Reheap. destruct (heapInit_ok (Less (baseFee l)) (remoteTxs tick all)) as [Hh Hp]. cbv zeta.
  set (h := heapInit (Less (baseFee l)) (remoteTxs tick all)) in *. unfold floatingRatio, urgentRatio.
  destruct (moveWorst_spec (length h * 1 / (4 + 1)) (baseFee l) h) as (worst & h' & Hrun & Hh' & Hperm); [lia|done|].
  rewrite Hrun. cbn [mbind res_bind fst snd]. destruct (heapInit_ok (Less None) worst) as [Hw Hpw].
  eexists. split; [done|]. split; [by split|]. split; [done|]. split; [done|]. cbn [urgent floating].
  rewrite Hpw, <- Hp, <- Hperm. apply Permutation_app_comm.
Qed.

Lemma Reheap_ok gone tick all l : exists l', Reheap tick all l = Ok l' /\ priced_ok gone all l' /\ baseFee l' = baseFee l.
Proof.
  destruct (Reheap_spec tick all l) as (l' & Hrun & Hh & Hb & _ & Hp). exists l'. split; [done|]. split; [|done]. split; [done|].
  intros h tx Htx. assert (Hin : tx ∈ urgent l' ++ floating l') by (rewrite Hp; apply remoteTxs_elem; by exists h).
  left. by apply elem_of_app in Hin.
Qed.

Lemma Removed_ok gone tick all count l : priced_ok gone all l -> exists l', Removed tick all count l = Ok l' /\ priced_ok gone all l' /\ baseFee l' = baseFee l.
Proof.
  intros [Hh Ha]. unfold Removed. cbv zeta. case_if; [by eexists|]. by destruct (Reheap_ok gone tick all (set_stales (i64 (stales l + count)) l)) as (l' & ? & ? & ?); exists l'.
Qed.

Lemma SetBaseFee_ok gone tick all fee l : exists l', SetBaseFee tick all fee l = Ok l' /\ priced_ok gone all l' /\ baseFee l' = Some fee.
Proof. unfold SetBaseFee. by destruct (Reheap_ok gone tick all (mkPriced (stales l) (Some fee) (urgent l) (floating l))) as (l' & ? & ? & ?); exists l'. Qed.

(** A new remote transaction is put into the urgent heap. *)
Lemma Put_ok tx isLocal l : heaps l -> heaps (Put tx isLocal l) /\ baseFee (Put tx isLocal l) = baseFee l /\
  forall y, inHeaps (Put tx isLocal l) y <-> inHeaps l y \/ (isLocal = false /\ y = tx).
Proof.
  intros [Hu Hf]. unfold Put, inHeaps. destruct isLocal; [split; [done|]; split; [done|]; intros y; naive_solver|].
  destruct (heapPush_ok (Less (baseFee l)) (urgent l) tx) as [Hh Hp]. unfold set_urgent. cbn [urgent floating baseFee].
  split; [split; [by apply Hh|done]|]. split; [done|]. intros y. rewrite Hp, elem_of_cons. naive_solver.
Qed.

Lemma dropStale_spec all bf : forall fuel s h, (length h <= fuel)%nat -> heap (Less bf) h -> exists s' h',
  dropStale fuel all bf s h = Ok (s', h') /\ heap (Less bf) h' /\ (forall y, y ∈ h' -> y ∈ h) /\
  (forall k y, remotes all !! k = Some y -> HashOfTx y = k -> y ∈ h -> y ∈ h') /\
  match h' with [] => True | x :: _ => remotes all !! HashOfTx x <> None end.
Proof.
  induction fuel as [|fuel IH]; intros s h Hf Hh.
  { destruct h; [|simpl in Hf; lia]. by exists s, []. }
  destruct h as [|x h]; [by exists s, []|]. cbn [dropStale]. unfold GetRemote. destruct (remotes all !! HashOfTx x) as [y|] eqn:E.
  { exists s, (x :: h). split; [done|]. split; [done|]. split; [done|]. split; [done|]. by rewrite E. }
  destruct (pop_some bf x h) as (h1 & Hp & Hh1 & Hperm). rewrite Hp. cbn [mbind res_bind snd].
  assert (Hlen : length h1 = length h) by (by apply Permutation_length).
  destruct (IH (i64 (s - 1)) h1) as (s' & h' & Hrun & Hh' & Hsub & Hlive & Hhd); [simpl in Hf; lia|auto|].
  exists s', h'. split; [done|]. split; [done|]. split.
  { intros y Hy. apply list_elem_of_further. rewrite <- Hperm. auto. }
  split; [|done]. intros k y Hk Hhash Hy. apply (Hlive k y Hk Hhash). rewrite Hperm. apply elem_of_cons in Hy as [->|Hy]; [|done].
  rewrite Hhash in E. congruence.
Qed.

(** What it means that a transaction is underpriced for a heap: nothing in it
    is cheaper. *)
Lemma underpricedFor_spec all bf s h tx : heap (Less bf) h -> exists b s' h',
  underpricedFor all bf s h tx = Ok (b, s', h') /\ heap (Less bf) h' /\ (forall y, y ∈ h' -> y ∈ h) /\
  (forall k y, remotes all !! k = Some y -> HashOfTx y = k -> y ∈ h -> y ∈ h') /\
  (b = true -> h' <> [] /\ forall y, y ∈ h' -> ~ cheaper bf y tx) /\
  (b = false -> h' = [] \/ exists y, y ∈ h' /\ remotes all !! HashOfTx y <> None /\ cheaper bf y tx).
Proof.
  intros Hh. unfold underpricedFor. destruct (dropStale_spec all bf (length h) s h) as (s' & h' & Hrun & Hh' & Hsub & Hlive & Hhd); [done|done|].
  rewrite Hrun. cbn [mbind res_bind fst snd]. eexists _, s', h'. split; [done|]. split; [done|]. split; [done|]. split; [done|].
  destruct h' as [|x h']; [split; [done|by left]|]. pose proof (cmp_cheaper bf x tx) as Hc. split.
  - intros Hb. split; [done|]. intros y Hy Hchp. pose proof (heap_best (Less bf) (x :: h') x y Hh' eq_refl Hy) as Hbest.
    apply not_true_iff_false in Hbest. rewrite Less_true in Hbest. apply Hbest. left.
    destruct (cmp bf x tx); [|done|]; unfold cheaper in *; lia.
  - intros Hb. right. exists x. split; [apply list_elem_of_here|]. split; [done|]. by destruct (cmp bf x tx).
Qed.

(** ** Discarding *)

Definition dropped_ok (all : txLookup) (drop : list Transaction) : Prop := Forall (fun tx => remotes all !! HashOfTx tx <> None) drop.
Definition slotsOf (l : list Transaction) : Z := foldr (fun tx n => numSlots tx + n) 0 l.

Lemma discardLoop_spec all : forall fuel wanted l, (2 * length (urgent l) + length (floating l) <= fuel)%nat -> heaps l ->
  exists drop left_ l', discardLoop fuel all wanted l = Ok (drop, left_, l') /\ heaps l' /\ baseFee l' = baseFee l /\
    dropped_ok all drop /\ left_ = wanted - slotsOf drop /\ (left_ <= 0 \/ (urgent l' = [] /\ floating l' = [])) /\
    (forall k y, remotes all !! k = Some y -> HashOfTx y = k -> inHeaps l y -> inHeaps l' y \/ y ∈ drop).
Proof.
  induction fuel as [|fuel IH]; intros wanted l Hf [Hu Hfl]; cbn [discardLoop];
    (destruct (Z.leb_spec wanted 0) as [Hw|Hw];
      [eexists [], _, l; split; [done|]; split; [done|]; split; [done|]; split; [constructor|]; split; [simpl; lia|]; split; [by left|by left]|]);
    unfold urgentRatio, floatingRatio; cbv zeta; destruct (Nat.ltb_spec (length (floating l) * 4) (length (urgent l) * 1)) as [Hm|Hm]; cbn [negb andb].
  1: lia.
  1: { destruct (Nat.eqb_spec (length (floating l)) 0) as [He|He]; [|lia]. apply nil_length_inv in He as Hnf.
       assert (Hnu : urgent l = []) by (apply nil_length_inv; lia).
       eexists [], _, l. split; [done|]. split; [done|]. split; [done|]. split; [constructor|]. split; [simpl; lia|]. split; [by right|by left]. }
  - destruct (urgent l) as [|x h] eqn:Eu; [simpl in Hm; lia|].
    destruct (pop_some (baseFee l) x h) as (h1 & Hp & Hh1 & Hperm). rewrite Hp. cbn [mbind res_bind fst snd].
    assert (Hlen : length h1 = length h) by (by apply Permutation_length). unfold GetRemote.
    destruct (remotes all !! HashOfTx x) as [y|] eqn:E.
    + destruct (heapPush_ok (Less None) (floating l) x) as [Hhp Hpp].
      destruct (IH wanted (mkPriced (stales l) (baseFee l) h1 (heapPush (Less None) (floating l) x))) as (drop & rest & l' & Hrun & Hh' & Hb & Hd & Hr & Hend & Hin).
      { cbn [urgent floating]. rewrite (Permutation_length Hpp). cbn [length] in *. lia. }
      { split; cbn [urgent floating baseFee]; auto. }
      rewrite Hrun. exists drop, rest, l'. split; [done|]. split; [done|]. split; [done|]. split; [done|]. split; [done|]. split; [done|].
      intros k z Hk Hz Hzin. apply (Hin k z Hk Hz). unfold inHeaps in *. cbn [urgent floating]. rewrite Eu, Hpp, Hperm, !elem_of_cons in *. tauto.
    + destruct (IH wanted (mkPriced (i64 (stales l - 1)) (baseFee l) h1 (floating l))) as (drop & rest & l' & Hrun & Hh' & Hb & Hd & Hr & Hend & Hin).
      { cbn [urgent floating length] in *. lia. }
      { split; cbn [urgent floating baseFee]; auto. }
      rewrite Hrun. exists drop, rest, l'. split; [done|]. split; [done|]. split; [done|]. split; [done|]. split; [done|]. split; [done|].
      intros k z Hk Hz Hzin. apply (Hin k z Hk Hz). unfold inHeaps in *. cbn [urgent floating]. rewrite Eu, elem_of_cons in Hzin. rewrite Hperm.
      destruct Hzin as [[->|Hzin]|Hzin]; [|by left|by right]. rewrite Hz in E. congruence.
  - destruct (Nat.eqb_spec (length (floating l)) 0) as [He|He].
    { apply nil_length_inv in He as Hnf. assert (Hnu : urgent l = []) by (apply nil_length_inv; lia).
      eexists [], _, l. split; [done|]. split; [done|]. split; [done|]. split; [constructor|]. split; [simpl; lia|]. split; [by right|by left]. }
    destruct (floating l) as [|x h] eqn:Eu; [simpl in He; lia|].
    destruct (pop_some None x h) as (h1 & Hp & Hh1 & Hperm). rewrite Hp. cbn [mbind res_bind fst snd].
    assert (Hlen : length h1 = length h) by (by apply Permutation_length). unfold GetRemote.
    destruct (remotes all !! HashOfTx x) as [y|] eqn:E.
    + destruct (IH (wanted - numSlots x) (set_floating h1 l)) as (drop & rest & l' & Hrun & Hh' & Hb & Hd & Hr & Hend & Hin).
      { unfold set_floating. cbn [urgent floating length] in *. lia. }
      { split; cbn [urgent floating baseFee set_floating]; auto. }
      rewrite Hrun. cbn [mbind res_bind fst snd]. exists (x :: drop), rest, l'. split; [done|]. split; [done|]. split; [done|].
      split; [constructor; [congruence|done]|]. split; [simpl; lia|]. split; [done|].
      intros k z Hk Hz Hzin. unfold inHeaps in *. rewrite Eu, elem_of_cons in Hzin. destruct Hzin as [Hzin|[->|Hzin]]; [|right; apply list_elem_of_here|];
        (destruct (Hin k z Hk Hz) as [?|?]; [|by left|right; by apply list_elem_of_further]); cbn [urgent floating set_floating]; rewrite ?Hperm; auto.
    + destruct (IH wanted (mkPriced (i64 (stales l - 1)) (baseFee l) (urgent l) h1)) as (drop & rest & l' & Hrun & Hh' & Hb & Hd & Hr & Hend & Hin).
      { cbn [urgent floating length] in *. lia. }
      { split; cbn [urgent floating baseFee]; auto. }
      rewrite Hrun. exists drop, rest, l'. split; [done|]. split; [done|]. split; [done|]. split; [done|]. split; [done|]. split; [done|].
      intros k z Hk Hz Hzin. apply (Hin k z Hk Hz). unfold inHeaps in *. cbn [urgent floating]. rewrite Eu, elem_of_cons in Hzin. rewrite Hperm.
      destruct Hzin as [Hzin|[->|Hzin]]; [by left| |by right]. rewrite Hz in E. congruence.
Qed.

Lemma pushAll_ok bf drop : forall h, heap (Less bf) h -> heap (Less bf) (foldl (fun h tx => heapPush (Less bf) h tx) h drop) /\
  foldl (fun h tx => heapPush (Less bf) h tx) h drop ≡ₚ drop ++ h.
Proof.
  induction drop as [|x drop IH]; intros h Hh; [done|]. cbn [foldl]. destruct (heapPush_ok (Less bf) h x) as [Hh' Hp].
  destruct (IH _ (Hh' Hh)) as [Hr Hpr]. split; [done|]. rewrite Hpr, Hp. symmetry. apply Permutation_middle.
Qed.

Lemma Discard_spec all wanted force l : 0 <= wanted -> heaps l -> exists drop ok l',
  Discard all wanted force l = Ok (drop, ok, l') /\ heaps l' /\ baseFee l' = baseFee l /\ dropped_ok all drop /\
  (ok = false -> drop = []) /\ (ok = true -> force = true \/ wanted <= slotsOf drop) /\
  (forall k y, remotes all !! k = Some y -> HashOfTx y = k -> inHeaps l y -> inHeaps l' y \/ y ∈ drop).
Proof.
  intros Hw Hh. unfold Discard. rewrite (proj2 (Z.ltb_ge _ _) Hw).
  destruct (discardLoop_spec all (2 * length (urgent l) + length (floating l)) wanted l (le_n _) Hh) as
    (drop & rest & l1 & Hrun & Hh1 & Hb & Hd & Hr & Hend & Hin).
  rewrite Hrun. cbn [mbind res_bind fst snd]. destruct ((0 <? rest) && negb force) eqn:E.
  - destruct Hh1 as [Hu Hf]. destruct (pushAll_ok (baseFee l1) drop (urgent l1) Hu) as [Hu' Hp].
    eexists [], false, _. split; [done|]. unfold set_urgent. split; [split; cbn [urgent floating baseFee]; done|]. split; [done|].
    split; [constructor|]. split; [done|]. split; [done|]. intros k y Hk Hy Hyin. left. unfold inHeaps. cbn [urgent floating].
    rewrite Hp, elem_of_app. destruct (Hin k y Hk Hy Hyin) as [[?|?]|?]; auto.
  - exists drop, true, l1. split; [done|]. split; [done|]. split; [done|]. split; [done|]. split; [done|]. split; [|done].
    intros _. apply andb_false_iff in E as [E|E]; [right; apply Z.ltb_ge in E; lia|left]. by destruct force.
Qed.

(** A transaction is underpriced when there is a remote transaction and no heap
    has a cheaper one. *)
Lemma Underpriced_spec all tx l : heaps l -> exists b l', Underpriced all tx l = Ok (b, l') /\ heaps l' /\ baseFee l' = baseFee l /\
  (forall k y, remotes all !! k = Some y -> HashOfTx y = k -> inHeaps l y -> inHeaps l' y) /\
  (b = true -> (forall k y, remotes all !! k = Some y -> HashOfTx y = k -> inHeaps l y -> ~ cheaper (baseFee l) y tx \/ ~ cheaper None y tx)) /\
  (b = false -> urgent l' = [] /\ floating l' = [] \/
     exists y, remotes all !! HashOfTx y <> None /\ (cheaper (baseFee l) y tx \/ cheaper None y tx)).
Proof.
  intros [Hu Hf]. unfold Underpriced.
  destruct (underpricedFor_spec all (baseFee l) (stales l) (urgent l) tx Hu) as (bu & su & u' & Hru & Hu' & _ & Hlu & Htu & Hfu).
  rewrite Hru. cbn [mbind res_bind fst snd urgent floating baseFee stales].
  destruct (bu || (length u' =? 0)%nat) eqn:Eu; cbn [negb].
  2: { apply orb_false_iff in Eu as [-> Eu]. eexists _, _. split; [done|]. split; [by split|]. split; [done|]. split.
       - intros k y Hk Hy [Hin|Hin]; [left; cbn [urgent]; eauto|by right].
       - split; [done|]. intros _. destruct (Hfu eq_refl) as [->|(y & Hin & Hr & Hc)]; [done|]. right. exists y. by split; [|left]. }
  destruct (underpricedFor_spec all None su (floating l) tx Hf) as (bf & sf & f' & Hrf & Hf' & _ & Hlf & Htf & Hff).
  rewrite Hrf. cbn [mbind res_bind fst snd urgent floating baseFee stales].
  destruct (bf || (length f' =? 0)%nat) eqn:Ef; cbn [negb].
  2: { apply orb_false_iff in Ef as [-> Ef]. eexists _, _. split; [done|]. split; [by split|]. split; [done|]. split.
       - intros k y Hk Hy [Hin|Hin]; [left; cbn [urgent]; eauto|right; cbn [floating]; eauto].
       - split; [done|]. intros _. destruct (Hff eq_refl) as [->|(y & Hin & Hr & Hc)]; [done|]. right. exists y. by split; [|right]. }
  eexists _, _. split; [done|]. split; [by split|]. split; [done|]. split.
  { intros k y Hk Hy [Hin|Hin]; [left; cbn [urgent]; eauto|right; cbn [floating]; eauto]. }
  split.
  - intros _ k y Hk Hy [Hin|Hin].
    + left. apply (Hlu k y Hk Hy) in Hin. apply orb_true_iff in Eu as [->|Eu]; [by apply Htu|].
      apply Nat.eqb_eq, nil_length_inv in Eu. subst u'. by apply not_elem_of_nil in Hin.
    + right. apply (Hlf k y Hk Hy) in Hin. apply orb_true_iff in Ef as [->|Ef]; [by apply Htf|].
      apply Nat.eqb_eq, nil_length_inv in Ef. subst f'. by apply not_elem_of_nil in Hin.
  - intros Hb. left. apply orb_false_iff in Hb as [Hb1 Hb2]. apply negb_false_iff, Nat.eqb_eq in Hb1, Hb2. cbn [urgent floating].
    split; by apply nil_length_inv.
Qed.
End Facts.
End PricedFacts.
