(* ===== verification/TxPoolState.v ===== *)
(** * The state of the transaction pool (core/tx_pool.go)

    The configuration with its repair, the fields of [TxPool], and the small
    steps its methods are made of. *)

From S2P Require Import Prelude Heap Hoare Params Types Misc Snapshot Finalize TxQueue TxPrices TxSortedMap TxList.

(** The order of a walk at a tick, for the maps of [TxSortedMap]. *)
Definition rangeAt `{Runtime} (t : nat) : MapRange := {| rangeOf := walk t; rangeOf_perm := walk_perm t Transaction |}.

(** Durations in nanoseconds; the settings of the jam indexer are left out. *)
Record TxPoolConfig : Type := mkPoolConfig {
  Locals : list Address;
  NoLocals : bool;
  Journal : string;
  Rejournal : Z;
  PriceLimit : Z;
  PriceBump : Z;
  AccountSlots : Z;
  GlobalSlots : Z;
  AccountQueue : Z;
  GlobalQueue : Z;
  Lifetime : Z;
}.

Definition Second : Z := 1000000000.
Definition Hour : Z := 3600 * Second.
Definition DefaultTxPoolConfig : TxPoolConfig :=
  mkPoolConfig [] false "transactions.rlp" Hour 1 10 16 (4096 + 1024) 64 1024 (3 * Hour).

Definition sanitize (c : TxPoolConfig) : TxPoolConfig :=
  let d := DefaultTxPoolConfig in
  mkPoolConfig (Locals c) (NoLocals c) (Journal c)
    (if Rejournal c <? Second then Second else Rejournal c)
    (if PriceLimit c <? 1 then PriceLimit d else PriceLimit c)
    (if PriceBump c <? 1 then PriceBump d else PriceBump c)
    (if AccountSlots c <? 1 then AccountSlots d else AccountSlots c)
    (if GlobalSlots c <? 1 then GlobalSlots d else GlobalSlots c)
    (if AccountQueue c <? 1 then AccountQueue d else AccountQueue c)
    (if GlobalQueue c <? 1 then GlobalQueue d else GlobalQueue c)
    (if Lifetime c <? 1 then Lifetime d else Lifetime c).

Definition ErrAlreadyKnown : error := errorf "already known".
Definition ErrInvalidSender : error := errorf "invalid sender".
Definition ErrUnderpriced : error := errorf "transaction underpriced".
Definition ErrTxPoolOverflow : error := errorf "txpool is full".
Definition ErrReplaceUnderpriced : error := errorf "replacement transaction underpriced".
Definition ErrGasLimit : error := errorf "exceeds block gas limit".
Definition ErrNegativeValue : error := errorf "negative value".
Definition ErrOversizedData : error := errorf "oversized data".

Module Pool.
Import Noncer AccountList Lookup Priced.
Abbreviation txSortedMap := SortedMap.txSortedMap.

(** [locals] is the set of [pool.locals], [txValidator] whether there is one,
    [journal] the transactions handed to the journal of this run, [queuedEvents]
    the variable of [scheduleReorgLoop] that [queueTxEvent] fills; [ticks] counts
    what was asked of the runtime. *)
Record TxPool {St : Type} : Type := mkPool {
  config : TxPoolConfig;
  chainconfig : ChainConfig;
  gasPrice : Z;
  istanbul : bool;
  eip2718 : bool;
  eip1559 : bool;
  currentState : St;
  pendingNonces : txNoncer;
  currentMaxGas : Z;
  locals : gset Address;
  journal : option (list Transaction);
  pending : gmap Address txList;
  queue : gmap Address txList;
  beats : gmap Address Z;
  all : txLookup;
  priced : txPricedList;
  txValidator : bool;
  nextFakeHeader : option Header;
  disableExValidate : bool;
  changesSinceReorg : Z;
  queuedEvents : gmap Address txSortedMap;
  ticks : nat;
}.
Arguments TxPool St : clear implicits.

Section Setters.
Context {St : Type}.
Implicit Types p : TxPool St.
Definition set_gasPrice (x : Z) p : TxPool St := mkPool _ (config p) (chainconfig p) x (istanbul p) (eip2718 p) (eip1559 p)
   (currentState p) (pendingNonces p) (currentMaxGas p) (locals p) (journal p) (pending p) (queue p) (beats p) (all p) (priced p)
   (txValidator p) (nextFakeHeader p) (disableExValidate p) (changesSinceReorg p) (queuedEvents p) (ticks p).
Definition set_istanbul (x : bool) p : TxPool St := mkPool _ (config p) (chainconfig p) (gasPrice p) x (eip2718 p) (eip1559 p)
   (currentState p) (pendingNonces p) (currentMaxGas p) (locals p) (journal p) (pending p) (queue p) (beats p) (all p) (priced p)
   (txValidator p) (nextFakeHeader p) (disableExValidate p) (changesSinceReorg p) (queuedEvents p) (ticks p).
Definition set_eip2718 (x : bool) p : TxPool St := mkPool _ (config p) (chainconfig p) (gasPrice p) (istanbul p) x (eip1559 p)
   (currentState p) (pendingNonces p) (currentMaxGas p) (locals p) (journal p) (pending p) (queue p) (beats p) (all p) (priced p)
   (txValidator p) (nextFakeHeader p) (disableExValidate p) (changesSinceReorg p) (queuedEvents p) (ticks p).
Definition set_eip1559 (x : bool) p : TxPool St := mkPool _ (config p) (chainconfig p) (gasPrice p) (istanbul p) (eip2718 p) x
   (currentState p) (pendingNonces p) (currentMaxGas p) (locals p) (journal p) (pending p) (queue p) (beats p) (all p) (priced p)
   (txValidator p) (nextFakeHeader p) (disableExValidate p) (changesSinceReorg p) (queuedEvents p) (ticks p).
Definition set_currentState (x : St) p : TxPool St := mkPool _ (config p) (chainconfig p) (gasPrice p) (istanbul p) (eip2718 p)
   (eip1559 p) x (pendingNonces p) (currentMaxGas p) (locals p) (journal p) (pending p) (queue p) (beats p) (all p) (priced p)
   (txValidator p) (nextFakeHeader p) (disableExValidate p) (changesSinceReorg p) (queuedEvents p) (ticks p).
Definition set_pendingNonces (x : txNoncer) p : TxPool St := mkPool _ (config p) (chainconfig p) (gasPrice p) (istanbul p) (eip2718 p)
   (eip1559 p) (currentState p) x (currentMaxGas p) (locals p) (journal p) (pending p) (queue p) (beats p) (all p) (priced p)
   (txValidator p) (nextFakeHeader p) (disableExValidate p) (changesSinceReorg p) (queuedEvents p) (ticks p).
Definition set_currentMaxGas (x : Z) p : TxPool St := mkPool _ (config p) (chainconfig p) (gasPrice p) (istanbul p) (eip2718 p)
   (eip1559 p) (currentState p) (pendingNonces p) x (locals p) (journal p) (pending p) (queue p) (beats p) (all p) (priced p)
   (txValidator p) (nextFakeHeader p) (disableExValidate p) (changesSinceReorg p) (queuedEvents p) (ticks p).
Definition set_locals (x : gset Address) p : TxPool St := mkPool _ (config p) (chainconfig p) (gasPrice p) (istanbul p) (eip2718 p)
   (eip1559 p) (currentState p) (pendingNonces p) (currentMaxGas p) x (journal p) (pending p) (queue p) (beats p) (all p) (priced p)
   (txValidator p) (nextFakeHeader p) (disableExValidate p) (changesSinceReorg p) (queuedEvents p) (ticks p).
Definition set_journal (x : option (list Transaction)) p : TxPool St := mkPool _ (config p) (chainconfig p) (gasPrice p) (istanbul p)
   (eip2718 p) (eip1559 p) (currentState p) (pendingNonces p) (currentMaxGas p) (locals p) x (pending p) (queue p) (beats p) (all p)
   (priced p) (txValidator p) (nextFakeHeader p) (disableExValidate p) (changesSinceReorg p) (queuedEvents p) (ticks p).
Definition set_pending (x : gmap Address txList) p : TxPool St := mkPool _ (config p) (chainconfig p) (gasPrice p) (istanbul p)
   (eip2718 p) (eip1559 p) (currentState p) (pendingNonces p) (currentMaxGas p) (locals p) (journal p) x (queue p) (beats p) (all p)
   (priced p) (txValidator p) (nextFakeHeader p) (disableExValidate p) (changesSinceReorg p) (queuedEvents p) (ticks p).
Definition set_queue (x : gmap Address txList) p : TxPool St := mkPool _ (config p) (chainconfig p) (gasPrice p) (istanbul p) (eip2718 p)
   (eip1559 p) (currentState p) (pendingNonces p) (currentMaxGas p) (locals p) (journal p) (pending p) x (beats p) (all p) (priced p)
   (txValidator p) (nextFakeHeader p) (disableExValidate p) (changesSinceReorg p) (queuedEvents p) (ticks p).
Definition set_beats (x : gmap Address Z) p : TxPool St := mkPool _ (config p) (chainconfig p) (gasPrice p) (istanbul p) (eip2718 p)
   (eip1559 p) (currentState p) (pendingNonces p) (currentMaxGas p) (locals p) (journal p) (pending p) (queue p) x (all p) (priced p)
   (txValidator p) (nextFakeHeader p) (disableExValidate p) (changesSinceReorg p) (queuedEvents p) (ticks p).
Definition set_all (x : txLookup) p : TxPool St := mkPool _ (config p) (chainconfig p) (gasPrice p) (istanbul p) (eip2718 p) (eip1559 p)
   (currentState p) (pendingNonces p) (currentMaxGas p) (locals p) (journal p) (pending p) (queue p) (beats p) x (priced p)
   (txValidator p) (nextFakeHeader p) (disableExValidate p) (changesSinceReorg p) (queuedEvents p) (ticks p).
Definition set_priced (x : txPricedList) p : TxPool St := mkPool _ (config p) (chainconfig p) (gasPrice p) (istanbul p) (eip2718 p)
   (eip1559 p) (currentState p) (pendingNonces p) (currentMaxGas p) (locals p) (journal p) (pending p) (queue p) (beats p) (all p) x
   (txValidator p) (nextFakeHeader p) (disableExValidate p) (changesSinceReorg p) (queuedEvents p) (ticks p).
Definition set_nextFakeHeader (x : option Header) p : TxPool St := mkPool _ (config p) (chainconfig p) (gasPrice p) (istanbul p)
   (eip2718 p) (eip1559 p) (currentState p) (pendingNonces p) (currentMaxGas p) (locals p) (journal p) (pending p) (queue p) (beats p)
   (all p) (priced p) (txValidator p) x (disableExValidate p) (changesSinceReorg p) (queuedEvents p) (ticks p).
Definition set_disableExValidate (x : bool) p : TxPool St := mkPool _ (config p) (chainconfig p) (gasPrice p) (istanbul p) (eip2718 p)
   (eip1559 p) (currentState p) (pendingNonces p) (currentMaxGas p) (locals p) (journal p) (pending p) (queue p) (beats p) (all p)
   (priced p) (txValidator p) (nextFakeHeader p) x (changesSinceReorg p) (queuedEvents p) (ticks p).
Definition set_changesSinceReorg (x : Z) p : TxPool St := mkPool _ (config p) (chainconfig p) (gasPrice p) (istanbul p) (eip2718 p)
   (eip1559 p) (currentState p) (pendingNonces p) (currentMaxGas p) (locals p) (journal p) (pending p) (queue p) (beats p) (all p)
   (priced p) (txValidator p) (nextFakeHeader p) (disableExValidate p) x (queuedEvents p) (ticks p).
Definition set_queuedEvents (x : gmap Address txSortedMap) p : TxPool St := mkPool _ (config p) (chainconfig p) (gasPrice p) (istanbul p)
   (eip2718 p) (eip1559 p) (currentState p) (pendingNonces p) (currentMaxGas p) (locals p) (journal p) (pending p) (queue p) (beats p)
   (all p) (priced p) (txValidator p) (nextFakeHeader p) (disableExValidate p) (changesSinceReorg p) x (ticks p).
Definition set_ticks (x : nat) p : TxPool St := mkPool _ (config p) (chainconfig p) (gasPrice p) (istanbul p) (eip2718 p) (eip1559 p)
   (currentState p) (pendingNonces p) (currentMaxGas p) (locals p) (journal p) (pending p) (queue p) (beats p) (all p) (priced p)
   (txValidator p) (nextFakeHeader p) (disableExValidate p) (changesSinceReorg p) (queuedEvents p) x.
End Setters.


Section Steps.
Context {St : Type} `{TxSigning} `{TxSize} `{Runtime}.
Implicit Types p : TxPool St.
Abbreviation Pool := (TxPool St).

(** A new number for a walk or a reading of the clock. *)
Definition tick : ST Pool nat := fun p => (Ok (ticks p), set_ticks (S (ticks p)) p).
Definition ticks4 : ST Pool (nat * nat * nat * nat) :=
  a ← tick; b ← tick; c ← tick; d ← tick; mret (a, b, c, d).

(** [time.Since], which saturates; a missing heartbeat is the zero time. *)
Definition since (t at_ : Z) : Z := Z.max (-9223372036854775808) (Z.min 9223372036854775807 (at_ - t)).
Definition zeroTime : Z := 0.
Definition beat (addr : Address) : ST Pool unit :=
  t ← tick; st_modify (fun p => set_beats (<[addr := now t]> (beats p)) p).

(** [pool.all.Remove], [pool.all.Add], [pool.priced.Removed], [pool.priced.Put] *)
Definition forget (hash : Hash) : ST Pool unit := st_modify (fun p => set_all (Lookup.Remove hash (all p)) p).
Definition know (tx : Transaction) (isLocal : bool) : ST Pool unit := st_modify (fun p => set_all (Lookup.Add tx isLocal (all p)) p).
Definition removed (count : Z) : ST Pool unit :=
  t ← tick; p ← st_get; l ← st_lift (Priced.Removed t (all p) count (priced p)); st_put (set_priced l p).
Definition price (tx : Transaction) (isLocal : bool) : ST Pool unit := st_modify (fun p => set_priced (Priced.Put tx isLocal (priced p)) p).

(** [pool.pendingNonces.get] loads the nonce of the state. *)
Definition getNonce (addr : Address) : ST Pool Z := fun p =>
  let '(n, m) := Noncer.get addr (pendingNonces p) in (Ok n, set_pendingNonces m p).
Definition setNonce (addr : Address) (nonce : Z) : ST Pool unit :=
  st_modify (fun p => set_pendingNonces (Noncer.set addr nonce (pendingNonces p)) p).
Definition lowerNonce (addr : Address) (nonce : Z) : ST Pool unit :=
  st_modify (fun p => set_pendingNonces (Noncer.setIfLower addr nonce (pendingNonces p)) p).

(** A method of the list of an account, through the pointer in the map; a
    missing list is a nil pointer. *)
Definition on_pending {A} (addr : Address) (f : txList -> res (A * txList)) : ST Pool A := fun p =>
  match pending p !! addr with
  | None => (Panic, p)
  | Some l => match f l with
              | Ok (a, l) => (Ok a, set_pending (<[addr := l]> (pending p)) p)
              | Err e => (Err e, p)
              | Panic => (Panic, p)
              end
  end.
Definition on_queue {A} (addr : Address) (f : txList -> res (A * txList)) : ST Pool A := fun p =>
  match queue p !! addr with
  | None => (Panic, p)
  | Some l => match f l with
              | Ok (a, l) => (Ok a, set_queue (<[addr := l]> (queue p)) p)
              | Err e => (Err e, p)
              | Panic => (Panic, p)
              end
  end.
Definition pendingLen (addr : Address) : ST Pool Z := fun p =>
  match pending p !! addr with Some l => (Ok (Len l), p) | None => (Panic, p) end.

(** [journalTx]; a failure to write is only logged. *)
Definition journalTx (from : Address) (tx : Transaction) : ST Pool unit :=
  st_modify (fun p =>
    match journal p with
    | None => p
    | Some j => if bool_decide (from ∈ locals p) then set_journal (Some (j ++ [tx])) p else p
    end).

(** [queueTxEvent], received by [scheduleReorgLoop] *)
Definition queueTxEvent (tx : Transaction) : ST Pool unit :=
  st_modify (fun p =>
    let addr := senderOf tx in
    let events := default SortedMap.newTxSortedMap (queuedEvents p !! addr) in
    set_queuedEvents (<[addr := SortedMap.Put tx events]> (queuedEvents p)) p).
End Steps.
End Pool.
