(* ===== verification/TxPool.v ===== *)
(** * Adding, promoting and removing transactions (core/tx_pool.go)

    The methods of [TxPool] that move single transactions between the queue, the
    pending lists and the lookup, and the ones that do so for whole accounts. *)

From S2P Require Import Prelude Heap Hoare Params Types Misc Snapshot StateIface StateTransition Signing.
From S2P Require Import Finalize TxQueue TxPrices TxSortedMap TxList TxPoolState.

(** The extra checks of the engine ([exTxValidator]); what the engine's caches
    hold may change from call to call. *)
Class ExTxValidator (St : Type) : Type := {
  exValidateTx : nat -> Address -> Transaction -> option Header -> St -> res unit;
}.

Module PoolOps.
Import Noncer AccountList Lookup Priced Pool.
Section Ops.
Context {St : Type} `{AccountState St} `{TxSigning} `{TxSize} `{Runtime} `{ExTxValidator St}.
Implicit Types p : TxPool St.
Abbreviation Pool := (TxPool St).

Definition bitLength (z : Z) : Z := if z =? 0 then 0 else Z.log2 (Z.abs z) + 1.

(** [types.Sender] with any error turned into [ErrInvalidSender]. *)
Definition validSender (tx : Transaction) : ST Pool Address :=
  match SenderOfTx tx with Ok a => mret a | Err _ => st_err ErrInvalidSender | Panic => st_panic end.

(** The last check of [validateTx]: an error other than a denied address turns
    the check off. *)
Definition extraValidate (from : Address) (tx : Transaction) : ST Pool unit :=
  p ← st_get;
  if txValidator p && negb (disableExValidate p) then
    t ← tick;
    match exValidateTx t from tx (nextFakeHeader p) (currentState p) with
    | Ok _ => mret tt
    | Err e => if decide (e = ErrAddressDenied) then st_err e else st_modify (set_disableExValidate true)
    | Panic => st_panic
    end
  else mret tt.

Definition validateTx (tx : Transaction) (isLocal : bool) : ST Pool unit :=
  p ← st_get;
  _ ← st_fail_if (negb (eip2718 p) && negb (TxType tx =? LegacyTxType)) ErrTxTypeNotSupported;
  _ ← st_fail_if (negb (eip1559 p) && (TxType tx =? DynamicFeeTxType)) ErrTxTypeNotSupported;
  _ ← st_fail_if (txMaxSize <? sizeOf tx) ErrOversizedData;
  _ ← st_fail_if (TxValue tx <? 0) ErrNegativeValue;
  _ ← st_fail_if (currentMaxGas p <? TxGas tx) ErrGasLimit;
  _ ← st_fail_if (256 <? bitLength (TxGasFeeCap tx)) ErrFeeCapVeryHigh;
  _ ← st_fail_if (256 <? bitLength (TxGasTipCap tx)) ErrTipVeryHigh;
  _ ← st_fail_if (TxGasFeeCap tx <? TxGasTipCap tx) ErrTipAboveFeeCap;
  from ← validSender tx;
  let pendingBaseFee := Priced.baseFee (priced p) in
  _ ← st_fail_if (negb isLocal && match EffectiveGasTipIntCmp tx (gasPrice p) pendingBaseFee with Lt => true | _ => false end) ErrUnderpriced;
  _ ← st_fail_if (TxNonce tx <? nonceOf (currentState p) from) ErrNonceTooLow;
  _ ← st_fail_if (balanceOf (currentState p) from <? Cost tx) ErrInsufficientFunds;
  intrGas ← st_lift (IntrinsicGas (TxData tx) (TxAccessList tx) (match TxTo tx with None => true | Some _ => false end) true (istanbul p));
  _ ← st_fail_if (TxGas tx <? intrGas) ErrIntrinsicGas;
  extraValidate from tx.

(** What a list gave up for a new transaction of the same nonce. *)
Definition dropOld (old : option Transaction) : ST Pool unit :=
  match old with
  | None => mret tt
  | Some o => _ ← forget (HashOfTx o); removed 1
  end.

(** The list of an account in the queue, made if it is missing, with a
    transaction added. *)
Definition addToQueue (from : Address) (tx : Transaction) : ST Pool (bool * option Transaction) :=
  _ ← st_modify (fun p => match queue p !! from with
                          | Some _ => p
                          | None => set_queue (<[from := newTxList false]> (queue p)) p
                          end);
  p ← st_get;
  on_queue from (fun l => Ok (AccountList.Add tx (PriceBump (config p)) l)).
Definition addToPending (addr : Address) (tx : Transaction) : ST Pool (bool * option Transaction) :=
  _ ← st_modify (fun p => match pending p !! addr with
                          | Some _ => p
                          | None => set_pending (<[addr := newTxList true]> (pending p)) p
                          end);
  p ← st_get;
  on_pending addr (fun l => Ok (AccountList.Add tx (PriceBump (config p)) l)).

Definition enqueueTx (hash : Hash) (tx : Transaction) (isLocal addAll : bool) : ST Pool bool :=
  let from := senderOf tx in
  insold ← addToQueue from tx;
  let '(inserted, old) := insold in
  _ ← st_fail_if (negb inserted) ErrReplaceUnderpriced;
  _ ← dropOld old;
  _ ← (if addAll then _ ← know tx isLocal; price tx isLocal else mret tt);
  p ← st_get;
  _ ← (match beats p !! from with Some _ => mret tt | None => beat from end);
  mret (match old with Some _ => true | None => false end).

Definition promoteTx (addr : Address) (hash : Hash) (tx : Transaction) : ST Pool bool :=
  insold ← addToPending addr tx;
  let '(inserted, old) := insold in
  if negb inserted then
    _ ← forget hash;
    _ ← removed 1;
    mret false
  else
    _ ← dropOld old;
    _ ← setNonce addr (TxNonce tx +w 1);
    _ ← beat addr;
    mret true.

(** [enqueueTx] of a transaction the lookup keeps; its error is ignored. *)
Definition requeue (tx : Transaction) : ST Pool unit := _ ← st_try (enqueueTx (HashOfTx tx) tx false false); mret tt.

(** The empty entry of an account leaves the pending lists. *)
Definition dropEmptyPending (addr : Address) : ST Pool unit :=
  st_modify (fun p => if match pending p !! addr with Some l => Empty l | None => false end
                      then set_pending (delete addr (pending p)) p else p).

(** The part of [removeTx] that deals with the pending list; whether the
    transaction was there. *)
Definition removePending (addr : Address) (tx : Transaction) : ST Pool bool :=
  p ← st_get;
  match pending p !! addr with
  | None => mret false
  | Some _ =>
      ts ← ticks4;
      ri ← on_pending addr (AccountList.Remove (rangeAt ts.1.1.1) (rangeAt ts.1.1.2) tx);
      let '(found, invalids) := ri in
      if negb found then mret false else
      _ ← dropEmptyPending addr;
      _ ← st_each requeue invalids;
      _ ← lowerNonce addr (TxNonce tx);
      mret true
  end.

(** The empty entry of an account leaves the queue with its heartbeat. *)
Definition dropEmptyQueue (addr : Address) : ST Pool unit :=
  st_modify (fun p => if match queue p !! addr with Some l => Empty l | None => false end
                      then set_beats (delete addr (beats p)) (set_queue (delete addr (queue p)) p) else p).

Definition removeTx (hash : Hash) (outofbound : bool) : ST Pool unit :=
  p ← st_get;
  match Lookup.Get hash (all p) with
  | None => mret tt
  | Some tx =>
      let addr := senderOf tx in
      _ ← forget hash;
      _ ← (if outofbound then removed 1 else mret tt);
      done ← removePending addr tx;
      if (done : bool) then mret tt else
      p ← st_get;
      match queue p !! addr with
      | None => mret tt
      | Some _ =>
          ts ← ticks4;
          _ ← on_queue addr (AccountList.Remove (rangeAt ts.1.1.1) (rangeAt ts.1.1.2) tx);
          dropEmptyQueue addr
      end
  end.

(** The part of [add] that makes room in a full pool. *)
Definition makeRoom (tx : Transaction) (isLocal : bool) : ST Pool unit :=
  p ← st_get;
  let limit := GlobalSlots (config p) +w GlobalQueue (config p) in
  if negb (limit <? u64 (Slots (all p) + numSlots tx)) then mret tt else
  under ← (if isLocal then mret false else
           ul ← st_lift (Priced.Underpriced (all p) tx (priced p));
           _ ← st_put (set_priced ul.2 p);
           mret ul.1);
  _ ← st_fail_if under ErrUnderpriced;
  p ← st_get;
  _ ← st_fail_if (i64 (GlobalSlots (config p) / 4) <? changesSinceReorg p) ErrTxPoolOverflow;
  dsl ← st_lift (Priced.Discard (all p) (Slots (all p) - i64 limit + numSlots tx) isLocal (priced p));
  let '((drop, success), l) := dsl in
  _ ← st_put (set_priced l p);
  _ ← st_fail_if (negb isLocal && negb success) ErrTxPoolOverflow;
  _ ← st_modify (fun p => set_changesSinceReorg (changesSinceReorg p + zlen drop) p);
  st_each (fun tx => removeTx (HashOfTx tx) false) drop.

(** A transaction for a nonce that is pending already; the list is there. *)
Definition replacePending (from : Address) (tx : Transaction) (isLocal : bool) : ST Pool bool :=
  insold ← addToPending from tx;
  let '(inserted, old) := insold in
  _ ← st_fail_if (negb inserted) ErrReplaceUnderpriced;
  _ ← dropOld old;
  _ ← know tx isLocal;
  _ ← price tx isLocal;
  _ ← journalTx from tx;
  _ ← queueTxEvent tx;
  _ ← beat from;
  mret (match old with Some _ => true | None => false end).

(** A local transaction of an account that was not local yet. *)
Definition markLocal (from : Address) (isLocal : bool) : ST Pool unit :=
  p ← st_get;
  if isLocal && negb (bool_decide (from ∈ locals p)) then
    _ ← st_modify (set_locals ({[from]} ∪ locals p));
    t ← tick;
    p ← st_get;
    let '(migrated, a) := Lookup.RemoteToLocals t (locals p) (all p) in
    _ ← st_put (set_all a p);
    removed migrated
  else mret tt.

Definition add (tx : Transaction) (isLocal : bool) : ST Pool bool :=
  p ← st_get;
  let hash := HashOfTx tx in
  _ ← st_fail_if (match Lookup.Get hash (all p) with Some _ => true | None => false end) ErrAlreadyKnown;
  let treatLocal := isLocal || containsTx (locals p) tx in
  _ ← validateTx tx treatLocal;
  _ ← makeRoom tx treatLocal;
  p ← st_get;
  let from := senderOf tx in
  if match pending p !! from with Some l => Overlaps tx l | None => false end then replacePending from tx treatLocal
  else
    replaced ← enqueueTx hash tx treatLocal true;
    _ ← markLocal from isLocal;
    _ ← journalTx from tx;
    mret replaced.

(** [addTxsLocked]: the errors, and the accounts with new transactions. *)
Fixpoint addTxsLocked (txs : list Transaction) (isLocal : bool) : ST Pool (list (option error) * gset Address) :=
  match txs with
  | [] => mret ([], ∅)
  | tx :: txs =>
      r ← st_catch (add tx isLocal);
      rest ← addTxsLocked txs isLocal;
      let err := match r with Err e => Some e | _ => None end in
      let dirty := match r, SenderOfTx tx with Ok false, Ok a => {[a]} ∪ rest.2 | _, _ => rest.2 end in
      mret (err :: rest.1, dirty)
  end.

(** The first loop of [addTxs], outside the lock: what is known or has no
    sender; then the errors of the others fill the free places. *)
Definition screen p (tx : Transaction) : res (option error) :=
  match Lookup.Get (HashOfTx tx) (all p) with
  | Some _ => Ok (Some ErrAlreadyKnown)
  | None => match SenderOfTx tx with Ok _ => Ok None | Err _ => Ok (Some ErrInvalidSender) | Panic => Panic end
  end.
Fixpoint screenAll p (txs : list Transaction) : res (list (option error)) :=
  match txs with
  | [] => Ok []
  | tx :: txs => e ← screen p tx; es ← screenAll p txs; Ok (e :: es)
  end.
Definition newTxs (txs : list Transaction) (errs : list (option error)) : list Transaction :=
  (base.filter (fun te => te.2 = None) (zip txs errs)).*1.
(** The next free place, from [nilSlot] on. *)
Fixpoint fillErrs (errs newErrs : list (option error)) : res (list (option error)) :=
  match errs, newErrs with
  | _, [] => Ok errs
  | [], _ :: _ => Panic
  | Some e :: errs, _ => rest ← fillErrs errs newErrs; Ok (Some e :: rest)
  | None :: errs, e :: newErrs => rest ← fillErrs errs newErrs; Ok (e :: rest)
  end.

(** [addTxs] up to the request of a promotion for the accounts it returns. *)
Definition addTxs (txs : list Transaction) (isLocal : bool) : ST Pool (list (option error) * option (gset Address)) :=
  p ← st_get;
  errs ← st_lift (screenAll p txs);
  let news := newTxs txs errs in
  match news with
  | [] => mret (errs, None)
  | _ =>
      ed ← addTxsLocked news isLocal;
      errs ← st_lift (fillErrs errs ed.1);
      mret (errs, Some ed.2)
  end.

(** ** Whole accounts *)

Definition forgetTx (tx : Transaction) : ST Pool unit := forget (HashOfTx tx).

(** [promoteExecutables] for an account with a queue: drop what is too old or
    too dear, and count it; *)
Definition pruneQueue (addr : Address) : ST Pool Z :=
  p ← st_get;
  forwards ← on_queue addr (AccountList.Forward (nonceOf (currentState p) addr));
  _ ← st_each_some forgetTx forwards;
  ts ← ticks4;
  dropinv ← on_queue addr (fun l => Ok (AccountList.Filter (rangeAt ts.1.1.1) (rangeAt ts.1.1.2) (rangeAt ts.1.2) (rangeAt ts.2)
                                          (balanceOf (currentState p) addr) (currentMaxGas p) l));
  let drops := dropinv.1 in
  _ ← st_each forgetTx drops;
  mret (zlen forwards + zlen drops).

(** promote what is ready; *)
Definition promoteReady (addr : Address) : ST Pool (list Transaction) :=
  nonce ← getNonce addr;
  readies ← on_queue addr (AccountList.Ready nonce);
  st_collect (fun o => match o with
                       | None => st_panic
                       | Some tx => b ← promoteTx addr (HashOfTx tx) tx; mret (if (b : bool) then [tx] else [])
                       end) readies.

(** and cut off what is over the limit of the account. *)
Definition capQueue (addr : Address) : ST Pool Z :=
  p ← st_get;
  if bool_decide (addr ∈ locals p) then mret 0 else
  caps ← on_queue addr (AccountList.Cap (i64 (AccountQueue (config p))));
  _ ← st_each_some forgetTx caps;
  mret (zlen caps).

Definition promoteAccount (addr : Address) : ST Pool (list Transaction) :=
  p ← st_get;
  match queue p !! addr with
  | None => mret []
  | Some _ =>
      pruned ← pruneQueue addr;
      promoted ← promoteReady addr;
      caps ← capQueue addr;
      _ ← removed (pruned + caps);
      _ ← dropEmptyQueue addr;
      mret promoted
  end.

Definition promoteExecutables (accounts : list Address) : ST Pool (list Transaction) := st_collect promoteAccount accounts.

(** [demoteUnexecutables] for an account: drop what is too old or too dear and
    queue what this makes unusable; *)
Definition prunePending (addr : Address) : ST Pool unit :=
  p ← st_get;
  olds ← on_pending addr (AccountList.Forward (nonceOf (currentState p) addr));
  _ ← st_each_some forgetTx olds;
  ts ← ticks4;
  dropinv ← on_pending addr (fun l => Ok (AccountList.Filter (rangeAt ts.1.1.1) (rangeAt ts.1.1.2) (rangeAt ts.1.2) (rangeAt ts.2)
                                            (balanceOf (currentState p) addr) (currentMaxGas p) l));
  let '(drops, invalids) := dropinv in
  _ ← st_each forgetTx drops;
  st_each requeue invalids.

(** with a gap in front, queue everything. *)
Definition demoteGapped (addr : Address) : ST Pool unit :=
  p ← st_get;
  let nonce := nonceOf (currentState p) addr in
  if match pending p !! addr with
     | Some l => (0 <? Len l) && match SortedMap.Get nonce (txs l) with Some _ => false | None => true end
     | None => false
     end
  then gapped ← on_pending addr (AccountList.Cap 0); st_each_some requeue gapped
  else mret tt.

(** An account deleted meanwhile is not visited by the walk. *)
Definition demoteAccount (addr : Address) : ST Pool unit :=
  p ← st_get;
  match pending p !! addr with
  | None => mret tt
  | Some _ =>
      _ ← prunePending addr;
      _ ← demoteGapped addr;
      dropEmptyPending addr
  end.

Definition demoteUnexecutables : ST Pool unit :=
  t ← tick;
  p ← st_get;
  st_each demoteAccount (walk t (pending p)).*1.
End Ops.
End PoolOps.
