(* ===== verification/TxPoolReorg.v ===== *)
(** * Limits, resets and queries of the transaction pool (core/tx_pool.go)

    What keeps the pool within its limits, what follows a new head of the chain,
    and what the pool answers. *)

From S2P Require Import Prelude Heap Hoare Float Params Types Misc Snapshot StateIface StateTransition Signing.
From S2P Require Import Finalize TxQueue TxPrices TxSortedMap TxList TxPoolState TxPool.

(** ** Priority queues (common/prque/prque.go)

    The blocks of [sstack] are one slice. *)
Module Prque.
Definition prque : Type := list (Address * Z).
Definition byPriority (a b : Address * Z) : bool := b.2 <? a.2.
Definition Push (value : Address) (priority : Z) (q : prque) : prque := heapPush byPriority q (value, priority).
Definition Pop (q : prque) : res ((Address * Z) * prque) := heapPop byPriority q.
End Prque.

(** The blocks the pool asks the chain for. *)
Record ChainBlock : Type := mkChainBlock {
  blockHeader : Header;
  blockTxs : list Transaction;
}.
Class PoolChain (St : Type) : Type := {
  GetBlock : Hash -> Z -> option ChainBlock;
  StateAt : Hash -> option St;
  CurrentHeader : Header;
}.

Module PoolReorg.
Import Noncer AccountList Lookup Priced Pool PoolOps.
Section Reorg.
Context {St : Type} `{Crypto} `{AccountState St} `{TxSigning} `{TxSize} `{Runtime} `{ExTxValidator St} `{PoolChain St}.
Implicit Types p : TxPool St.
Abbreviation Pool := (TxPool St).
(** [uint64] of a float that is not in range. *)
Variable oob : spec_float -> Z.

(** ** Limits *)

Definition totalLen (m : gmap Address txList) : Z := map_fold (fun _ l n => n +w u64 (Len l)) 0 m.

(** Drop the last transaction of an account that has too many. *)
Definition dropLast (addr : Address) : ST Pool unit :=
  n ← pendingLen addr;
  caps ← on_pending addr (AccountList.Cap (n - 1));
  _ ← st_each_some (fun tx => _ ← forgetTx tx; lowerNonce addr (TxNonce tx)) caps;
  removed (zlen caps).

(** One round over the offenders, and what is pending then. *)
Definition dropRound (offenders : list Address) (count : Z) : ST Pool Z :=
  _ ← st_each dropLast offenders;
  mret (foldl (fun n _ => n -w 1) count offenders).

(** The loop that brings the offenders down to [threshold]; [last] is the one
    whose length is tested. *)
Fixpoint equalize (fuel : nat) (offenders : list Address) (last : Address) (threshold count : Z) : ST Pool Z :=
  p ← st_get;
  if count <=? GlobalSlots (config p) then mret count else
  n ← pendingLen last;
  if n <=? threshold then mret count else
  match fuel with
  | O => st_err ErrOutOfFuel
  | S fuel => count ← dropRound offenders count; equalize fuel offenders last threshold count
  end.

(** The loop over the spammers; the offenders so far and what is pending. *)
Fixpoint collectOffenders (fuel : nat) (spammers : Prque.prque) (offenders : list Address) (count : Z) : ST Pool (list Address * Z) :=
  p ← st_get;
  if (count <=? GlobalSlots (config p)) || (length spammers =? 0)%nat then mret (offenders, count) else
  match fuel with
  | O => st_err ErrOutOfFuel
  | S fuel =>
      os ← st_lift (Prque.Pop spammers);
      let offender := os.1.1 in
      count ← (match list.last offenders with
               | None => mret count
               | Some previous =>
                   threshold ← pendingLen offender;
                   equalize (Z.to_nat count) offenders previous threshold count
               end);
      collectOffenders fuel os.2 (offenders ++ [offender]) count
  end.

(** The last loop, down to what an account is guaranteed: the test reads a
    signed length as unsigned. *)
Fixpoint reduce (fuel : nat) (offenders : list Address) (last : Address) (count : Z) : ST Pool Z :=
  p ← st_get;
  if count <=? GlobalSlots (config p) then mret count else
  n ← pendingLen last;
  if u64 n <=? AccountSlots (config p) then mret count else
  match fuel with
  | O => st_err ErrOutOfFuel
  | S fuel => count ← dropRound offenders count; reduce fuel offenders last count
  end.

Definition spammersOf (t : nat) p : Prque.prque :=
  foldl (fun q al => if negb (bool_decide (al.1 ∈ locals p)) && (AccountSlots (config p) <? u64 (Len al.2))
                     then Prque.Push al.1 (i64 (Len al.2)) q else q) [] (walk t (pending p)).

Definition truncatePending : ST Pool unit :=
  p ← st_get;
  let count := totalLen (pending p) in
  if count <=? GlobalSlots (config p) then mret tt else
  t ← tick;
  let spammers := spammersOf t p in
  oc ← collectOffenders (length spammers) spammers [] count;
  let '(offenders, count) := oc in
  match list.last offenders with
  | None => mret tt
  | Some last => _ ← reduce (Z.to_nat count) offenders last count; mret tt
  end.

(** [Flatten] of a list, which may cache the sorting. *)
Definition flattenQueue (addr : Address) : ST Pool (list Transaction) :=
  t ← tick; on_queue addr (fun l => Ok (@AccountList.Flatten (rangeAt t) l)).
Definition flattenPending (addr : Address) : ST Pool (list Transaction) :=
  t ← tick; on_pending addr (fun l => Ok (@AccountList.Flatten (rangeAt t) l)).

(** [addressesByHeartbeat]: sorted by the oldest heartbeat; the order of ties is
    that of the walk. *)
Definition olderBeat (a b : Address * Z) : Prop := a.2 <= b.2.
#[export] Instance olderBeat_dec a b : Decision (olderBeat a b) := Z_le_dec a.2 b.2.
Definition byHeartbeat (t : nat) p : list (Address * Z) :=
  merge_sort olderBeat (omap (fun al => if bool_decide (al.1 ∈ locals p) then None
                                        else Some (al.1, default zeroTime (beats p !! al.1))) (walk t (queue p))).

(** The loop of [truncateQueue] over the accounts. *)
Fixpoint dropOldest (addresses : list (Address * Z)) (drop : Z) : ST Pool unit :=
  match addresses with
  | [] => mret tt
  | (addr, _) :: addresses =>
      if drop =? 0 then mret tt else
      p ← st_get;
      match queue p !! addr with
      | None => st_panic
      | Some list =>
          let size := u64 (Len list) in
          txs ← flattenQueue addr;
          if size <=? drop then
            _ ← st_each (fun tx => removeTx (HashOfTx tx) true) txs;
            dropOldest addresses (drop - size)
          else
            _ ← st_each (fun tx => removeTx (HashOfTx tx) true) (take (Z.to_nat drop) txs);
            dropOldest addresses (drop - Z.min drop (zlen txs))
      end
  end.

Definition truncateQueue : ST Pool unit :=
  p ← st_get;
  let queued := totalLen (queue p) in
  if queued <=? GlobalQueue (config p) then mret tt else
  t ← tick;
  dropOldest (byHeartbeat t p) (queued - GlobalQueue (config p)).

(** The eviction tick of [loop]. *)
Definition evictAccount (addr : Address) : ST Pool unit :=
  p ← st_get;
  if bool_decide (addr ∈ locals p) then mret tt else
  t ← tick;
  if Lifetime (config p) <? since (default zeroTime (beats p !! addr)) (now t) then
    match queue p !! addr with
    | None => mret tt
    | Some _ => txs ← flattenQueue addr; st_each (fun tx => removeTx (HashOfTx tx) true) txs
    end
  else mret tt.
Definition evict : ST Pool unit :=
  t ← tick;
  p ← st_get;
  st_each evictAccount (walk t (queue p)).*1.

Definition SetGasPrice (price : Z) : ST Pool unit :=
  p ← st_get;
  let old := gasPrice p in
  _ ← st_modify (set_gasPrice price);
  if old <? price then
    t ← tick;
    let drop := RemotesBelowTip t price (all p) in
    _ ← st_each (fun tx => removeTx (HashOfTx tx) false) drop;
    removed (zlen drop)
  else mret tt.

(** ** A new head *)

Definition makeFakeHeader (currHead : Header) : ST Pool unit :=
  match Number currHead, Difficulty currHead with
  | Some n, Some d =>
      st_modify (set_nextFakeHeader (Some (mkHeader (HeaderHash currHead) 0 0 0 0 0 0 (Some d) (Some (n + 1)) (GasLimit currHead) 0
                                            (Time currHead +w 1) [] 0 0 None)))
  | _, _ => st_panic
  end.

Definition blockNumber (b : ChainBlock) : Z := NumberU64 (blockHeader b).
Definition parentBlock (b : ChainBlock) : option ChainBlock := GetBlock (ParentHash (blockHeader b)) (blockNumber b -w 1).

(** Walk a branch down to the number of the other one; [None] when a parent is
    missing. *)
Fixpoint descend (fuel : nat) (low : Z) (b : ChainBlock) (txs : list Transaction) : res (option (ChainBlock * list Transaction)) :=
  if blockNumber b <=? low then Ok (Some (b, txs)) else
  match fuel with
  | O => Err ErrOutOfFuel
  | S fuel =>
      let txs := txs ++ blockTxs b in
      match parentBlock b with None => Ok None | Some b => descend fuel low b txs end
  end.
(** Both branches down to a common block. *)
Fixpoint meet (fuel : nat) (rem add : ChainBlock) (discarded included : list Transaction) : res (option (list Transaction * list Transaction)) :=
  if HeaderHash (blockHeader rem) =? HeaderHash (blockHeader add) then Ok (Some (discarded, included)) else
  match fuel with
  | O => Err ErrOutOfFuel
  | S fuel =>
      let discarded := discarded ++ blockTxs rem in
      match parentBlock rem with
      | None => Ok None
      | Some rem =>
          let included := included ++ blockTxs add in
          match parentBlock add with None => Ok None | Some add => meet fuel rem add discarded included end
      end
  end.

(** The transactions of the old branch that are not in the new one; [None] where
    [reset] gives up. *)
Definition reorged (oldHead newHead : Header) : res (option (list Transaction)) :=
  if HeaderHash oldHead =? ParentHash newHead then Ok (Some []) else
  match Number oldHead, Number newHead with
  | Some _, Some _ =>
      let oldNum := NumberU64 oldHead in
      let newNum := NumberU64 newHead in
      let depth := f64_to_u64 oob (SFabs (SFsub 53 1024 (f64_of_Z oldNum) (f64_of_Z newNum))) in
      if 64 <? depth then Ok (Some []) else
      match GetBlock (HeaderHash oldHead) oldNum, GetBlock (HeaderHash newHead) newNum with
      | None, _ => if oldNum <=? newNum then Ok None else Ok (Some [])
      | Some _, None => Panic
      | Some rem, Some add =>
          r ← descend (Z.to_nat (blockNumber rem) + 1) (blockNumber add) rem [];
          match r with
          | None => Ok None
          | Some (rem, discarded) =>
              a ← descend (Z.to_nat (blockNumber add) + 1) (blockNumber rem) add [];
              match a with
              | None => Ok None
              | Some (add, included) =>
                  di ← meet (Z.to_nat (blockNumber rem) + 1) rem add discarded included;
                  match di with
                  | None => Ok None
                  | Some (discarded, included) => Ok (Some (TxDifference discarded included))
                  end
              end
          end
      end
  | _, _ => Panic
  end.

(** The pool on the state of a new head. *)
Definition onHead (newHead : Header) (reinject : list Transaction) : ST Pool unit :=
  match StateAt (Root newHead) with
  | None => mret tt
  | Some statedb =>
      _ ← st_modify (fun p => set_currentMaxGas (GasLimit newHead) (set_pendingNonces (newTxNoncer (nonceOf statedb)) (set_currentState statedb p)));
      match Number newHead with
      | None => st_panic
      | Some number =>
          let next := Some (number + 1) in
          p ← st_get;
          _ ← (if txValidator p then _ ← makeFakeHeader newHead; st_modify (set_disableExValidate false) else mret tt);
          _ ← addTxsLocked reinject false;
          st_modify (fun p => set_eip1559 (IsLondon (chainconfig p) next)
                              (set_eip2718 (IsBerlin (chainconfig p) next) (set_istanbul (IsIstanbul (chainconfig p) next) p)))
      end
  end.

Definition reset (oldHead newHead : option Header) : ST Pool unit :=
  r ← (match oldHead, newHead with
       | None, _ => mret (Some [])
       | Some _, None => st_panic
       | Some oldHead, Some newHead => st_lift (reorged oldHead newHead)
       end);
  match r with
  | None => mret tt
  | Some reinject => onHead (default CurrentHeader newHead) reinject
  end.

(** Drop the events of transactions that are not to come any more. *)
Definition staleEvents (addr : Address) (events : gmap Address txSortedMap) : ST Pool (gmap Address txSortedMap) :=
  match events !! addr with
  | None => mret events
  | Some m =>
      nonce ← getNonce addr;
      fm ← st_lift (SortedMap.Forward nonce m);
      mret (if SortedMap.Len fm.2 =? 0 then delete addr events else <[addr := fm.2]> events)
  end.
Fixpoint cleanEvents (addrs : list Address) (events : gmap Address txSortedMap) : ST Pool (gmap Address txSortedMap) :=
  match addrs with
  | [] => mret events
  | addr :: addrs => events ← staleEvents addr events; cleanEvents addrs events
  end.

(** The nonces after the last pending transaction of every account. *)
Fixpoint lastNonces (addrs : list Address) : ST Pool (gmap Address Z) :=
  match addrs with
  | [] => mret ∅
  | addr :: addrs =>
      t ← tick;
      highest ← on_pending addr (@AccountList.LastElement (rangeAt t));
      rest ← lastNonces addrs;
      mret (<[addr := TxNonce highest +w 1]> rest)
  end.

(** What follows the demotion after a reset. *)
Definition settleReset (newHead : option Header) : ST Pool unit :=
  _ ← demoteUnexecutables;
  p ← st_get;
  _ ← (match newHead with
       | None => mret tt
       | Some h =>
           match Number h with
           | None => st_panic
           | Some n =>
               if IsLondon (chainconfig p) (Some (n + 1)) then
                 fee ← st_lift (CalcBaseFee (chainconfig p) h);
                 t ← tick;
                 l ← st_lift (Priced.SetBaseFee t (all p) fee (priced p));
                 st_modify (set_priced l)
               else mret tt
           end
       end);
  t ← tick;
  p ← st_get;
  nonces ← lastNonces (walk t (pending p)).*1;
  st_modify (fun p => set_pendingNonces (Noncer.setAll nonces (pendingNonces p)) p).

Definition announce (events : gmap Address txSortedMap) (tx : Transaction) : gmap Address txSortedMap :=
  let addr := senderOf tx in
  <[addr := SortedMap.Put tx (default SortedMap.newTxSortedMap (events !! addr))]> events.
(** The transactions of the event that is sent. *)
Fixpoint flattenEvents (sets : list (Address * txSortedMap)) : ST Pool (list Transaction) :=
  match sets with
  | [] => mret []
  | (_, m) :: sets => t ← tick; rest ← flattenEvents sets; mret ((@SortedMap.Flatten (rangeAt t) m).1 ++ rest)
  end.

(** The walk over a set of accounts. *)
Definition walkSet (t : nat) (s : gset Address) : list Address := (walk t (gset_to_gmap tt s)).*1.

(** [runReorg], with what it sends to the feed. *)
Definition runReorg (request : option (option Header * option Header)) (dirtyAccounts : option (gset Address)) : ST Pool (list Transaction) :=
  p ← st_get;
  let events := queuedEvents p in
  _ ← st_modify (set_queuedEvents ∅);
  t ← tick;
  ae ← (match request with
        | Some (oldHead, newHead) =>
            _ ← reset oldHead newHead;
            t ← tick;
            events ← cleanEvents (walk t events).*1 events;
            t ← tick;
            p ← st_get;
            mret ((walk t (queue p)).*1, events)
        | None => mret (match dirtyAccounts with Some s => walkSet t s | None => [] end, events)
        end);
  promoted ← promoteExecutables ae.1;
  _ ← (match request with Some (_, newHead) => settleReset newHead | None => mret tt end);
  _ ← truncatePending;
  _ ← truncateQueue;
  _ ← st_modify (set_changesSinceReorg 0);
  t ← tick;
  flattenEvents (walk t (foldl announce ae.2 promoted)).

(** ** Construction *)

Definition emptyPool (config : TxPoolConfig) (chainconfig : ChainConfig) (statedb : St) : TxPool St :=
  mkPool _ config chainconfig (PriceLimit config) false false false statedb (newTxNoncer (nonceOf statedb)) 0
    (list_to_set (Locals config)) None ∅ ∅ ∅ newTxLookup newTxPricedList false None false 0 ∅ 0.

(** [NewTxPool] without its goroutines and its journal; [statedb] stands for the
    nil state the fields have before [reset]. *)
Definition NewTxPool (config : TxPoolConfig) (chainconfig : ChainConfig) (statedb : St) : res unit * TxPool St :=
  reset None (Some CurrentHeader) (emptyPool (sanitize config) chainconfig statedb).

(** ** Queries *)

Inductive TxStatus : Type := TxStatusUnknown | TxStatusQueued | TxStatusPending | TxStatusIncluded.

Definition has (nonce : Z) (l : option txList) : bool :=
  match l with Some l => match SortedMap.Get nonce (txs l) with Some _ => true | None => false end | None => false end.
Definition statusOf p (hash : Hash) : TxStatus :=
  match Lookup.Get hash (all p) with
  | None => TxStatusUnknown
  | Some tx =>
      let from := senderOf tx in
      if has (TxNonce tx) (pending p !! from) then TxStatusPending
      else if has (TxNonce tx) (queue p !! from) then TxStatusQueued else TxStatusUnknown
  end.
Definition Status (hashes : list Hash) p : list TxStatus := map (statusOf p) hashes.
Definition Get (hash : Hash) p : option Transaction := Lookup.Get hash (all p).
Definition Has (hash : Hash) p : bool := match Get hash p with Some _ => true | None => false end.
Definition Nonce (addr : Address) : ST Pool Z := getNonce addr.
Definition Stats p : Z * Z :=
  (map_fold (fun _ l n => n + Len l) 0 (pending p), map_fold (fun _ l n => n + Len l) 0 (queue p)).

(** The transactions that pay the tip the miner asks for, up to the first that
    does not. *)
Fixpoint payingTxs (tip : Z) (baseFee : option Z) (txs : list Transaction) : list Transaction :=
  match txs with
  | [] => []
  | tx :: txs => match EffectiveGasTipIntCmp tx tip baseFee with Lt => [] | _ => tx :: payingTxs tip baseFee txs end
  end.
Fixpoint pendingOf (enforceTips : bool) (addrs : list Address) : ST Pool (gmap Address (list Transaction)) :=
  match addrs with
  | [] => mret ∅
  | addr :: addrs =>
      txs ← flattenPending addr;
      p ← st_get;
      let txs := if enforceTips && negb (bool_decide (addr ∈ locals p))
                 then payingTxs (gasPrice p) (Priced.baseFee (priced p)) txs else txs in
      rest ← pendingOf enforceTips addrs;
      mret (if (0 <? zlen txs) then <[addr := txs]> rest else rest)
  end.
Definition Pending (enforceTips : bool) : ST Pool (gmap Address (list Transaction)) :=
  t ← tick;
  p ← st_get;
  pendingOf enforceTips (walk t (pending p)).*1.

(** All transactions by account, pending and queued. *)
Fixpoint contentOf (flattened : Address -> ST Pool (list Transaction)) (addrs : list Address) : ST Pool (gmap Address (list Transaction)) :=
  match addrs with
  | [] => mret ∅
  | addr :: addrs => txs ← flattened addr; rest ← contentOf flattened addrs; mret (<[addr := txs]> rest)
  end.
Definition Content : ST Pool (gmap Address (list Transaction) * gmap Address (list Transaction)) :=
  t ← tick;
  p ← st_get;
  pending ← contentOf flattenPending (walk t (pending p)).*1;
  t ← tick;
  p ← st_get;
  queued ← contentOf flattenQueue (walk t (queue p)).*1;
  mret (pending, queued).
Definition ContentFrom (addr : Address) : ST Pool (list Transaction * list Transaction) :=
  p ← st_get;
  pending ← (match pending p !! addr with Some _ => flattenPending addr | None => mret [] end);
  queued ← (match queue p !! addr with Some _ => flattenQueue addr | None => mret [] end);
  mret (pending, queued).
End Reorg.
End PoolReorg.
