(* ===== verification/TxPoolFacts.v ===== *)
(** * The invariant of the transaction pool (core/tx_pool.go)

    The pool seen as three stores of transactions by account: what the lookup
    knows, what is pending and what is queued.  [inv] relates the fields of the
    pool to the stores, also in the middle of a method, where an account may
    have an empty list ([oper] and [oq]) or the lookup may know transactions
    that are on the way from one list to another. *)

From S2P Require Import Prelude Heap Hoare Params Types Misc Snapshot StateIface StateTransition Signing.
From S2P Require Import Finalize TxQueue TxPrices TxPricesFacts TxSortedMap TxList TxListFacts TxListHolds TxPoolState TxPool.
From stdpp Require Import functions.
#[local] Open Scope Z_scope.
Import Noncer AccountList Lookup LookupFacts Priced PricedFacts Pool PoolOps.

#[export] Instance tx_eq_dec : EqDecision Transaction.
Proof. solve_decision. Defined.

Notation store := (Address -> list Transaction).

(** ** Contents *)

Lemma insertTx_perm tx l : TxNonce tx ∉ TxNonce <$> l -> insertTx tx l ≡ₚ tx :: l.
Proof.
  intros Hn. unfold insertTx. rewrite <- Permutation_middle. constructor. induction l as [|x l IH]; [done|].
  rewrite fmap_cons, not_elem_of_cons in Hn. destruct Hn as [Hx Hl]. rewrite !filter_cons. specialize (IH Hl).
  destruct (decide (TxNonce x < TxNonce tx)), (decide (TxNonce tx < TxNonce x)); try lia; cbn [app]; [by rewrite IH|].
  rewrite <- Permutation_middle. by rewrite IH.
Qed.

(** Replacing the transaction with the same nonce. *)
Lemma insertTx_replace tx o l : incr l -> o ∈ l -> TxNonce o = TxNonce tx -> exists rest, l ≡ₚ o :: rest /\ insertTx tx l ≡ₚ tx :: rest.
Proof.
  intros Hi Ho Hn. exists (filter (fun y => TxNonce y < TxNonce tx) l ++ filter (fun y => TxNonce tx < TxNonce y) l). split.
  2: { unfold insertTx. by rewrite <- Permutation_middle. }
  revert Ho. induction l as [|x l IH]; [by intros ?%not_elem_of_nil|]. apply incr_cons in Hi as [Hi Hx]. intros [<-|Ho]%elem_of_cons.
  - rewrite !filter_cons, !decide_False by lia. constructor. rewrite filter_none, filter_every; [done|..];
      (eapply list.Forall_impl; [exact Hx|]; simpl; intros; lia).
  - assert (TxNonce x < TxNonce o) by (rewrite list.Forall_forall in Hx; auto). rewrite !filter_cons, decide_True, decide_False by lia. cbn [app].
    rewrite (Permutation_swap x o), <- IH by done. done.
Qed.

Lemma insertTx_not_nil tx l : insertTx tx l <> [].
Proof. unfold insertTx. by destruct (filter _ l). Qed.

(** ** The invariant *)

(** An account that is being worked on has a list, which may be empty; the
    others have a list exactly when they have transactions. *)
Definition lists_rel (s : bool) (open : option Address) (m : gmap Address txList) (P : store) : Prop :=
  forall a, match m !! a with
            | Some l => strict l = s /\ holds l (P a) /\ (open = Some a \/ P a <> [])
            | None => P a = [] /\ open <> Some a
            end.

Section Facts.
Context {St : Type} `{AccountState St} `{TxSigning} `{TxSize} `{Runtime} `{ExTxValidator St}.
Implicit Types (p : TxPool St) (A P Q : store) (op oq : option Address).

(** A transaction of an account. *)
Definition valid (a : Address) (tx : Transaction) : Prop := SenderOfTx tx = Ok a /\ is_u64 (TxNonce tx).
Definition owned A : Prop := forall a, NoDup (TxNonce <$> A a) /\ Forall (valid a) (A a).

Definition knows (t : txLookup) A : Prop :=
  lookup_ok t /\ forall h tx, Lookup.Get h t = Some tx <-> HashOfTx tx = h /\ tx ∈ A (senderOf tx).

(** What the methods leave alone; [sGone] are hashes the price heaps gave up
    before the pool did. *)
Record scene : Type := mkScene { sConfig : TxPoolConfig; sLocals : gset Address; sState : St; sGas : Z; sGone : list Hash }.
Definition sceneOf (gone : list Hash) p : scene := mkScene (config p) (locals p) (currentState p) (currentMaxGas p) gone.

Record inv (F : scene) op oq A P Q p : Prop := {
  inv_scene : sceneOf (sGone F) p = F;
  inv_pending : lists_rel true op (pending p) P;
  inv_queue : lists_rel false oq (queue p) Q;
  inv_knows : knows (all p) A;
  inv_owned : owned A;
  inv_priced : priced_ok (sGone F) (all p) (priced p);
}.

(** Between methods: what is known is what is pending or queued, and no account
    has an empty list. *)
Definition settled (A P Q : store) : Prop := forall a, A a ≡ₚ P a ++ Q a.
Definition pool_ok p : Prop := exists F A P Q, sGone F = [] /\ inv F None None A P Q p /\ settled A P Q.

(** *** Changes of the stores *)

Lemma lists_rel_insert s open m P a l c : lists_rel s open m P -> strict l = s -> holds l c -> open = Some a \/ c <> [] ->
  lists_rel s open (<[a := l]> m) (<[a := c]> P).
Proof.
  intros Hm Hs Hh Ho b. specialize (Hm b). destruct (decide (a = b)) as [<-|Hne].
  - rewrite lookup_insert_eq, fn_lookup_insert. done.
  - by rewrite lookup_insert_ne, fn_lookup_insert_ne.
Qed.

Lemma lists_rel_ext s open m P P' : lists_rel s open m P -> (forall a, P' a = P a) -> lists_rel s open m P'.
Proof. intros Hm He a. specialize (Hm a). by rewrite He. Qed.

Lemma lists_rel_get s open m P a l : lists_rel s open m P -> m !! a = Some l -> strict l = s /\ holds l (P a).
Proof. intros Hm Hl. specialize (Hm a). rewrite Hl in Hm. tauto. Qed.

(** An account becomes the one that is worked on, and stops being it. *)
Lemma lists_rel_open s m P a : lists_rel s None m P -> m !! a <> None -> lists_rel s (Some a) m P.
Proof.
  intros Hm Ha b. specialize (Hm b). destruct (m !! b) as [l|] eqn:E; [naive_solver|]. destruct Hm as [HP _]. split; [done|]. intros [= ->]. done.
Qed.

Lemma lists_rel_close s m P a : lists_rel s (Some a) m P ->
  lists_rel s None (if match m !! a with Some l => Empty l | None => false end then delete a m else m) P.
Proof.
  intros Hm b. pose proof (Hm a) as Ha. specialize (Hm b). destruct (m !! a) as [l|] eqn:E; [|by destruct Ha].
  destruct Ha as (Hs & Hh & _). pose proof (empty_holds l _ Hh) as He. destruct (Empty l) eqn:El; (destruct (decide (a = b)) as [<-|Hne]).
  - rewrite lookup_delete_eq. split; [by apply He|done].
  - rewrite lookup_delete_ne by done. destruct (m !! b); [|naive_solver]. destruct Hm as (? & ? & [[= ?]|?]); [congruence|auto].
  - rewrite E. split; [done|]. split; [done|]. right. intros Hn. by apply He in Hn.
  - destruct (m !! b); [|naive_solver]. destruct Hm as (? & ? & [[= ?]|?]); [congruence|auto].
Qed.

Lemma owned_ext A A' : owned A -> (forall a, A' a ≡ₚ A a) -> owned A'.
Proof. intros Ho He a. destruct (Ho a). by rewrite He. Qed.

Lemma owned_insert A a c : owned A -> NoDup (TxNonce <$> c) -> Forall (valid a) c -> owned (<[a := c]> A).
Proof. intros Ho Hn Hf b. destruct (decide (a = b)) as [<-|Hne]; [by rewrite fn_lookup_insert|]. rewrite fn_lookup_insert_ne by done. apply Ho. Qed.

Lemma sender_of tx a : SenderOfTx tx = Ok a -> senderOf tx = a.
Proof. unfold senderOf. by intros ->. Qed.

Lemma owned_sender A a tx : owned A -> tx ∈ A a -> senderOf tx = a.
Proof. intros Ho Hin. destruct (Ho a) as [_ Hf]. rewrite list.Forall_forall in Hf. apply sender_of. by apply Hf. Qed.

Lemma owned_unique A a x y : owned A -> x ∈ A a -> y ∈ A a -> TxNonce x = TxNonce y -> x = y.
Proof.
  intros Ho Hx Hy Hn. apply list_elem_of_lookup in Hx as [i Hx], Hy as [j Hy].
  assert (i = j) as ->; [|congruence]. eapply (NoDup_lookup _ _ _ (TxNonce x) (proj1 (Ho a))); rewrite list_lookup_fmap.
  - by rewrite Hx.
  - by rewrite Hy, Hn.
Qed.

Lemma knows_ext t A A' : knows t A -> (forall a, A' a ≡ₚ A a) -> knows t A'.
Proof. intros [Hok Hk] He. split; [done|]. intros h tx. by rewrite Hk, He. Qed.

Lemma knows_get t A a tx : knows t A -> owned A -> tx ∈ A a -> Lookup.Get (HashOfTx tx) t = Some tx.
Proof. intros [_ Hk] Ho Hin. apply Hk. by rewrite (owned_sender A a tx). Qed.

Lemma knows_hash t A a b x y : knows t A -> owned A -> x ∈ A a -> y ∈ A b -> HashOfTx x = HashOfTx y -> x = y.
Proof.
  intros Hk Ho Hx Hy Hh. pose proof (knows_get t A a x Hk Ho Hx) as Hgx. rewrite Hh, (knows_get t A b y Hk Ho Hy) in Hgx. congruence.
Qed.

(** Forgetting one transaction. *)
Lemma knows_remove t A a x rest : knows t A -> owned A -> A a ≡ₚ x :: rest -> knows (Lookup.Remove (HashOfTx x) t) (<[a := rest]> A).
Proof.
  intros Hk Ho Hp. assert (Hx : x ∈ A a) by (rewrite Hp; apply list_elem_of_here). pose proof Hk as [Hok Hiff].
  destruct (Remove_ok (HashOfTx x) t Hok) as (Hok' & Hget & _). split; [done|]. intros h tx. rewrite Hget.
  assert (Hxn : x ∉ rest).
  { destruct (Ho a) as [Hn _]. rewrite Hp, fmap_cons in Hn. apply list.NoDup_cons in Hn as [Hn _]. intros Hin. by apply Hn, list_elem_of_fmap_2. }
  case_decide as Hh.
  - split; [done|]. intros [Hhash Hin]. exfalso. subst h. destruct (decide (senderOf tx = a)) as [Hs|Hs].
    + rewrite Hs, fn_lookup_insert in Hin. assert (tx ∈ A a) by (rewrite Hp; by apply list_elem_of_further).
      by rewrite (knows_hash t A a a tx x Hk Ho) in Hin.
    + rewrite fn_lookup_insert_ne in Hin by done. pose proof (knows_hash t A _ a tx x Hk Ho Hin Hx Hhash) as ->. by rewrite (owned_sender A a x) in Hs.
  - rewrite Hiff. destruct (decide (senderOf tx = a)) as [Hs|Hs].
    + rewrite Hs, fn_lookup_insert, Hp, elem_of_cons. naive_solver.
    + by rewrite fn_lookup_insert_ne.
Qed.

Lemma knows_add t A a tx isLocal : knows t A -> Lookup.Get (HashOfTx tx) t = None -> senderOf tx = a -> knows (Lookup.Add tx isLocal t) (<[a := tx :: A a]> A).
Proof.
  intros [Hok Hiff] Hn Hs. destruct (Add_ok tx isLocal t Hok Hn) as [Hok' Hget]. split; [done|]. intros h y. rewrite Hget.
  case_decide as Hh.
  - subst h. split.
    + intros [= <-]. rewrite Hs, fn_lookup_insert. split; [done|apply list_elem_of_here].
    + intros [Hhash Hin]. destruct (decide (a = senderOf y)) as [Hy|Hy].
      * rewrite <- Hy, fn_lookup_insert in Hin. apply elem_of_cons in Hin as [->|Hin]; [done|]. exfalso.
        assert (Hg : Lookup.Get (HashOfTx tx) t = Some y) by (apply Hiff; rewrite <- Hy; done). congruence.
      * rewrite fn_lookup_insert_ne in Hin by done. exfalso. assert (Hg : Lookup.Get (HashOfTx tx) t = Some y) by (by apply Hiff). congruence.
  - rewrite Hiff. destruct (decide (a = senderOf y)) as [Hy|Hy].
    + rewrite <- Hy, fn_lookup_insert, elem_of_cons. split; [by intros [? ?]; auto|]. intros [<- [->|?]]; [done|auto].
    + by rewrite fn_lookup_insert_ne.
Qed.
End Facts.

(** ** The methods keep the invariant

    One triple per step and per method of [TxPool]: none panics, and each
    changes the stores of [inv] in the way its comment in the code says. *)

Section Steps.
Context {St : Type} `{AccountState St} `{TxSigning} `{TxSize} `{Runtime} `{ExTxValidator St}.
Implicit Types (p : TxPool St) (A P Q : store) (op oq : option Address) (F : scene (St:=St)).
Abbreviation Pool := (TxPool St).

Lemma inv_same F op oq A P Q p p' : (forall g, sceneOf g p' = sceneOf g p) -> pending p' = pending p -> queue p' = queue p -> all p' = all p ->
  priced p' = priced p -> inv F op oq A P Q p -> inv F op oq A P Q p'.
Proof. intros Hs Hp Hq Ha Hr [Is Ip Iq Ik Io Ir]. split; [by rewrite Hs|by rewrite Hp|by rewrite Hq|by rewrite Ha|done|by rewrite Ha, Hr]. Qed.

Lemma inv_ext F op oq A P Q A' P' Q' p : inv F op oq A P Q p -> (forall a, A' a ≡ₚ A a) -> (forall a, P' a = P a) -> (forall a, Q' a = Q a) ->
  inv F op oq A' P' Q' p.
Proof.
  intros [Is Ip Iq Ik Io Ir] HA HP HQ. split; [done|by eapply lists_rel_ext|by eapply lists_rel_ext|by eapply knows_ext|by eapply owned_ext|done].
Qed.

(** ** Steps that change none of the stores *)

Definition quiet {X} (m : ST Pool X) : Prop := forall F op oq A P Q, always (inv F op oq A P Q) m (fun _ => inv F op oq A P Q).

Lemma quiet_ret {X} (x : X) : quiet (mret x).
Proof. by intros F op oq A P Q p Hp. Qed.
Lemma quiet_bind {X Y} (m : ST Pool X) (f : X -> ST Pool Y) : quiet m -> (forall x, quiet (f x)) -> quiet (m ≫= f).
Proof. intros Hm Hf F op oq A P Q. eapply triple_bind; [apply Hm|]. intros x. apply Hf. Qed.
Lemma quiet_modify (f : Pool -> Pool) : (forall p, (forall g, sceneOf g (f p) = sceneOf g p) /\ pending (f p) = pending p /\ queue (f p) = queue p /\
  all (f p) = all p /\ priced (f p) = priced p) -> quiet (st_modify f).
Proof. intros Hf F op oq A P Q p Hp. destruct (Hf p) as (? & ? & ? & ? & ?). cbn. by apply (inv_same _ _ _ _ _ _ p). Qed.

Lemma quiet_tick : quiet tick.
Proof. intros F op oq A P Q p Hp. cbn. by apply (inv_same _ _ _ _ _ _ p). Qed.
Lemma quiet_ticks4 : quiet ticks4.
Proof. unfold ticks4. repeat (apply quiet_bind; [apply quiet_tick|intros ?]). apply quiet_ret. Qed.
Lemma quiet_beat a : quiet (beat a).
Proof. apply quiet_bind; [apply quiet_tick|]. intros t. by apply quiet_modify. Qed.
Lemma quiet_getNonce a : quiet (getNonce a).
Proof. intros F op oq A P Q p Hp. unfold getNonce. destruct (Noncer.get a (pendingNonces p)) as [n m]. by apply (inv_same _ _ _ _ _ _ p). Qed.
Lemma quiet_setNonce a n : quiet (setNonce a n).
Proof. by apply quiet_modify. Qed.
Lemma quiet_lowerNonce a n : quiet (lowerNonce a n).
Proof. by apply quiet_modify. Qed.
Lemma quiet_journalTx a tx : quiet (journalTx a tx).
Proof. apply quiet_modify. intros p. destruct (journal p); [|done]. by case_bool_decide. Qed.
Lemma quiet_queueTxEvent tx : quiet (queueTxEvent tx).
Proof. by apply quiet_modify. Qed.

Lemma quiet_removed n : quiet (removed n).
Proof.
  unfold removed. apply quiet_bind; [apply quiet_tick|]. intros t F op oq A P Q. apply triple_get. intros p Hp.
  destruct (Removed_ok (sGone F) t (all p) n (priced p) (inv_priced _ _ _ _ _ _ _ Hp)) as (l & Hl & Hok & _). rewrite Hl.
  intros p' ->. unfold mbind, st_bind, st_lift, st_put. destruct Hp as [Is Ip Iq Ik Io Ir]. by split.
Qed.

(** ** The lookup *)

Lemma always_forget F op oq A P Q a x rest : A a ≡ₚ x :: rest ->
  always (inv F op oq A P Q) (forget (HashOfTx x)) (fun _ => inv F op oq (<[a := rest]> A) P Q).
Proof.
  intros Hp p [Is Ip Iq Ik Io Ir]. unfold forget, st_modify. split; [done|done|done|by eapply knows_remove| |].
  - apply owned_insert; [done|..]; destruct (Io a) as [Hn Hf]; rewrite Hp in *.
    + rewrite fmap_cons in Hn. by apply list.NoDup_cons in Hn as [_ ?].
    + by apply list.Forall_cons in Hf as [_ ?].
  - destruct Ir as [Hh Hr]. split; [done|]. cbn [all set_all priced]. intros h tx Htx.
    destruct (Remove_ok (HashOfTx x) (all p) (proj1 Ik)) as (_ & _ & Hsub). eauto.
Qed.

Lemma insert_twice_ext A a (c d : list Transaction) b : <[a := d]> (<[a := c]> A) b = (<[a := d]> A) b.
Proof. destruct (decide (a = b)) as [<-|Hne]; [by rewrite !fn_lookup_insert|by rewrite !fn_lookup_insert_ne]. Qed.

Lemma always_forgets F op oq P Q a : forall xs A rest, A a ≡ₚ xs ++ rest ->
  always (inv F op oq A P Q) (st_each forgetTx xs) (fun _ => inv F op oq (<[a := rest]> A) P Q).
Proof.
  induction xs as [|x xs IH]; intros A rest Hp.
  - intros p Hinv. cbn. eapply inv_ext; [exact Hinv| |done|done]. intros b. destruct (decide (a = b)) as [<-|Hne].
    + by rewrite fn_lookup_insert, Hp.
    + by rewrite fn_lookup_insert_ne.
  - cbn [st_each]. eapply triple_bind; [apply always_forget; exact Hp|]. intros []. cbv beta.
    eapply triple_conseq; [apply (IH (<[a := xs ++ rest]> A) rest)|done| |done].
    + by rewrite fn_lookup_insert.
    + intros [] p Hinv. eapply inv_ext; [exact Hinv| |done|done]. intros b. by rewrite insert_twice_ext.
Qed.

Lemma each_some {X} (f : X -> ST Pool unit) xs : st_each_some f (Some <$> xs) = st_each f xs.
Proof. unfold st_each_some. induction xs as [|x xs IH]; [done|]. csimpl. by rewrite IH. Qed.

(** No known transaction has the hash. *)
Definition unknown A (h : Hash) : Prop := forall y, HashOfTx y = h -> y ∉ A (senderOf y).

Lemma unknown_get t A h : knows t A -> Lookup.Get h t = None <-> unknown A h.
Proof.
  intros [_ Hk]. split.
  - intros Hn y Hy Hin. assert (Hg : Lookup.Get h t = Some y) by (by apply Hk). congruence.
  - intros Hu. destruct (Lookup.Get h t) as [y|] eqn:E; [|done]. apply Hk in E as [Hy Hin]. by destruct (Hu y Hy).
Qed.

Lemma unknown_insert A a c h : unknown A h -> (forall y, y ∈ c -> HashOfTx y = h -> y ∈ A a) -> unknown (<[a := c]> A) h.
Proof.
  intros Hu Hc y Hy. destruct (decide (a = senderOf y)) as [->|Hne].
  - rewrite fn_lookup_insert. intros Hin. by apply (Hu y Hy), Hc.
  - rewrite fn_lookup_insert_ne by done. by apply Hu.
Qed.

(** A new transaction becomes known and gets its price. *)
Lemma always_know F op oq A P Q a tx isLocal : SenderOfTx tx = Ok a -> is_u64 (TxNonce tx) -> TxNonce tx ∉ TxNonce <$> A a ->
  unknown A (HashOfTx tx) ->
  always (inv F op oq A P Q) (_ ← know tx isLocal; price tx isLocal) (fun _ => inv F op oq (<[a := tx :: A a]> A) P Q).
Proof.
  intros Hs Hu Hn Hunk p [Is Ip Iq Ik Io Ir]. unfold know, price, mbind, st_bind, st_modify.
  cbn [all priced set_all]. pose proof (Put_ok tx isLocal (priced p) (priced_heaps _ _ _ Ir)) as (Hh & _ & Hin).
  split; [done|done|done|apply knows_add; [done|by eapply unknown_get|by apply sender_of]| |].
  - destruct (Io a) as [Hnd Hf]. apply owned_insert; [done|rewrite fmap_cons; by apply list.NoDup_cons|by constructor].
  - split; [exact Hh|]. cbn [all priced set_priced set_all]. intros h y Hy. rewrite Hin. unfold Lookup.Add in Hy. destruct isLocal; cbn [remotes] in Hy.
    + destruct (priced_all _ _ _ Ir h y Hy); auto.
    + apply lookup_insert_Some in Hy as [[_ ->]|[_ Hy]]; [by left; right|]. destruct (priced_all _ _ _ Ir h y Hy); auto.
Qed.

(** ** The lists *)

(** A method of the list of the account that is worked on. *)
Lemma always_on_queue F op A P Q a {X} (f : txList -> res (X * txList)) (Post : X -> list Transaction -> Prop) :
  (forall l, holds l (Q a) -> strict l = false -> exists r l' c, f l = Ok (r, l') /\ holds l' c /\ strict l' = false /\ Post r c) ->
  always (inv F op (Some a) A P Q) (on_queue a f) (fun r p => exists c, Post r c /\ inv F op (Some a) A P (<[a := c]> Q) p).
Proof.
  intros Hf p [Is Ip Iq Ik Io Ir]. unfold on_queue. pose proof (Iq a) as Ha. destruct (queue p !! a) as [l|] eqn:E; [|by destruct Ha].
  destruct Ha as (Hs & Hh & _). destruct (Hf l Hh Hs) as (r & l' & c & -> & Hh' & Hs' & HP). exists c. split; [done|].
  split; [done|done| |done|done|done]. cbn [queue set_queue]. apply lists_rel_insert; auto.
Qed.
Lemma always_on_pending F oq A P Q a {X} (f : txList -> res (X * txList)) (Post : X -> list Transaction -> Prop) :
  (forall l, holds l (P a) -> strict l = true -> exists r l' c, f l = Ok (r, l') /\ holds l' c /\ strict l' = true /\ Post r c) ->
  always (inv F (Some a) oq A P Q) (on_pending a f) (fun r p => exists c, Post r c /\ inv F (Some a) oq A (<[a := c]> P) Q p).
Proof.
  intros Hf p [Is Ip Iq Ik Io Ir]. unfold on_pending. pose proof (Ip a) as Ha. destruct (pending p !! a) as [l|] eqn:E; [|by destruct Ha].
  destruct Ha as (Hs & Hh & _). destruct (Hf l Hh Hs) as (r & l' & c & -> & Hh' & Hs' & HP). exists c. split; [done|].
  split; [done| |done|done|done|done]. cbn [pending set_pending]. apply lists_rel_insert; auto.
Qed.

Lemma always_dropEmptyQueue F op A P Q a : always (inv F op (Some a) A P Q) (dropEmptyQueue a) (fun _ => inv F op None A P Q).
Proof.
  intros p [Is Ip Iq Ik Io Ir]. unfold dropEmptyQueue, st_modify. apply lists_rel_close in Iq.
  destruct (queue p !! a) as [l|]; [destruct (Empty l)|]; by split.
Qed.
Lemma always_dropEmptyPending F oq A P Q a : always (inv F (Some a) oq A P Q) (dropEmptyPending a) (fun _ => inv F None oq A P Q).
Proof.
  intros p [Is Ip Iq Ik Io Ir]. unfold dropEmptyPending, st_modify. apply lists_rel_close in Ip.
  destruct (pending p !! a) as [l|]; [destruct (Empty l)|]; by split.
Qed.

(** What adding to the list of an account does. *)
Inductive added (tx : Transaction) (c : list Transaction) : bool * option Transaction -> list Transaction -> Prop :=
  | added_refused o : o ∈ c -> TxNonce o = TxNonce tx -> added tx c (false, None) c
  | added_new : TxNonce tx ∉ TxNonce <$> c -> added tx c (true, None) (insertTx tx c)
  | added_replaced o : o ∈ c -> TxNonce o = TxNonce tx -> added tx c (true, Some o) (insertTx tx c).

Lemma Add_added tx bump L c : holds L c -> is_u64 (TxNonce tx) -> exists r L' c',
  AccountList.Add tx bump L = (r, L') /\ holds L' c' /\ strict L' = strict L /\ added tx c r c' /\ (c' = [] -> False).
Proof.
  intros Hh Hu. destruct (Add_cases tx bump L c Hh Hu) as [(Hr & o & Ho & Hn & _)|(old & L' & Hr & Hh' & Hs & Hold)].
  - exists (false, None), L, c. split; [done|]. split; [done|]. split; [done|]. split; [by econstructor|]. intros ->. by apply not_elem_of_nil in Ho.
  - exists (true, old), L', (insertTx tx c). split; [done|]. split; [done|]. split; [done|]. split; [|apply insertTx_not_nil].
    destruct old as [o|]; [|by constructor]. destruct Hold as (Ho & Hn & _). by apply added_replaced.
Qed.

Lemma always_addToQueue F op oq A P Q a tx : is_u64 (TxNonce tx) ->
  always (inv F op oq A P Q) (addToQueue a tx) (fun r p => exists c, added tx (Q a) r c /\ inv F op oq A P (<[a := c]> Q) p).
Proof.
  intros Hu p [Is Ip Iq Ik Io Ir]. unfold addToQueue, mbind, st_bind, st_modify, st_get, on_queue.
  pose proof (Iq a) as Ha. destruct (queue p !! a) as [l|] eqn:E; cbn [queue set_queue config].
  - rewrite E. destruct Ha as (Hs & Hh & Ho). destruct (Add_added tx (PriceBump (config p)) l (Q a) Hh Hu) as (r & L' & c & -> & Hh' & Hs' & Had & Hne).
    exists c. split; [done|]. split; [done|done| |done|done|done]. cbn [queue set_queue]. apply lists_rel_insert; [done|congruence|done|auto].
  - rewrite lookup_insert_eq. destruct Ha as [HQ _]. pose proof (new_holds false) as Hh. rewrite <- HQ in Hh.
    destruct (Add_added tx (PriceBump (config p)) _ (Q a) Hh Hu) as (r & L' & c & -> & Hh' & Hs' & Had & Hne).
    exists c. split; [done|]. split; [done|done| |done|done|done]. cbn [queue set_queue]. rewrite insert_insert_eq. apply lists_rel_insert; [done|by rewrite Hs'|done|auto].
Qed.
Lemma always_addToPending F op oq A P Q a tx : is_u64 (TxNonce tx) ->
  always (inv F op oq A P Q) (addToPending a tx) (fun r p => exists c, added tx (P a) r c /\ inv F op oq A (<[a := c]> P) Q p).
Proof.
  intros Hu p [Is Ip Iq Ik Io Ir]. unfold addToPending, mbind, st_bind, st_modify, st_get, on_pending.
  pose proof (Ip a) as Ha. destruct (pending p !! a) as [l|] eqn:E; cbn [pending set_pending config].
  - rewrite E. destruct Ha as (Hs & Hh & Ho). destruct (Add_added tx (PriceBump (config p)) l (P a) Hh Hu) as (r & L' & c & -> & Hh' & Hs' & Had & Hne).
    exists c. split; [done|]. split; [done| |done|done|done|done]. cbn [pending set_pending]. apply lists_rel_insert; [done|congruence|done|auto].
  - rewrite lookup_insert_eq. destruct Ha as [HP _]. pose proof (new_holds true) as Hh. rewrite <- HP in Hh.
    destruct (Add_added tx (PriceBump (config p)) _ (P a) Hh Hu) as (r & L' & c & -> & Hh' & Hs' & Had & Hne).
    exists c. split; [done|]. split; [done| |done|done|done|done]. cbn [pending set_pending]. rewrite insert_insert_eq. apply lists_rel_insert; [done|by rewrite Hs'|done|auto].
Qed.
End Steps.
