(* ===== verification/TxPoolMethods.v ===== *)
(** * The methods of the pool on the stores (core/tx_pool.go)

    What adding, promoting, demoting and removing do to what is known, pending
    and queued; none of them panics and none loses a transaction by accident. *)

From S2P Require Import Prelude Heap Hoare Params Types Misc Snapshot StateIface StateTransition Signing.
From S2P Require Import Finalize TxQueue TxPrices TxPricesFacts TxSortedMap TxList TxListFacts TxListHolds TxPoolState TxPool TxPoolFacts.
From stdpp Require Import functions.
#[local] Open Scope Z_scope.
Import Noncer AccountList Lookup LookupFacts Priced PricedFacts Pool PoolOps.

Section Methods.
Context {St : Type} `{AccountState St} `{TxSigning} `{TxSize} `{Runtime} `{ExTxValidator St}.
Implicit Types (p : TxPool St) (A P Q : store) (op oq : option Address) (F : scene (St:=St)).
Abbreviation Pool := (TxPool St).

Lemma always_quiet {X Y} F op oq A P Q (m : ST Pool X) (f : X -> ST Pool Y) R E : quiet m ->
  (forall x, triple (inv F op oq A P Q) (f x) R E) -> triple (inv F op oq A P Q) (m ≫= f) R E.
Proof.
  intros Hm Hf. eapply triple_bind; [|exact Hf]. eapply triple_conseq; [apply (Hm F op oq A P Q)|done|done|]. by intros ? ? [].
Qed.

(** A step without errors before the rest. *)
Lemma always_bind {X Y} (Pre : Pool -> Prop) (m : ST Pool X) (f : X -> ST Pool Y) R R' E : always Pre m R ->
  (forall x, triple (R x) (f x) R' E) -> triple Pre (m ≫= f) R' E.
Proof. intros Hm Hf. eapply triple_bind; [|exact Hf]. eapply triple_conseq; [exact Hm|done|done|]. by intros ? ? []. Qed.

Lemma owned_parts A a l : owned A -> A a ≡ₚ l -> NoDup (TxNonce <$> l) /\ Forall (valid a) l.
Proof. intros Ho Hp. destruct (Ho a). by rewrite <- Hp. Qed.

Lemma inv_owned_parts F op oq A P Q p a l : inv F op oq A P Q p -> A a ≡ₚ l -> NoDup (TxNonce <$> l) /\ Forall (valid a) l.
Proof. intros Hp. apply owned_parts, (inv_owned _ _ _ _ _ _ _ Hp). Qed.

(** Facts about the stores that a triple may use. *)
Lemma lists_sorted s open m P a : lists_rel s open m P -> incr (P a).
Proof. intros Hm. specialize (Hm a). destruct (m !! a) as [l|]; [|destruct Hm as [-> _]; constructor]. by apply (words_holds l), Hm. Qed.
Lemma triple_known {X} F op oq A P Q (m : ST Pool X) R E :
  (owned A -> (forall a, incr (P a) /\ incr (Q a)) -> triple (inv F op oq A P Q) m R E) -> triple (inv F op oq A P Q) m R E.
Proof.
  intros Hm p Hp. pose proof Hp as [Is Ip Iq Ik Io Ir]. apply Hm; [done| |done]. intros a.
  split; by eapply lists_sorted.
Qed.

Lemma fresh_nonces (l k : list Transaction) tx : NoDup (TxNonce <$> l ++ tx :: k) -> TxNonce tx ∉ TxNonce <$> l /\ TxNonce tx ∉ TxNonce <$> k.
Proof.
  rewrite fmap_app, fmap_cons. intros (_ & Hl & Hk)%list.NoDup_app. apply list.NoDup_cons in Hk as [Hk _]. split; [|done].
  intros Hin. apply (Hl _ Hin), list_elem_of_here.
Qed.

Lemma settled_insert A P Q a (c d e : list Transaction) : settled A P Q -> e ≡ₚ c ++ d -> settled (<[a := e]> A) (<[a := c]> P) (<[a := d]> Q).
Proof.
  intros Hs Hp b. destruct (decide (a = b)) as [<-|Hne]; [by rewrite !fn_lookup_insert|]. rewrite !fn_lookup_insert_ne by done. apply Hs.
Qed.
Lemma settled_queue A P Q a (d e : list Transaction) : settled A P Q -> e ≡ₚ P a ++ d -> settled (<[a := e]> A) P (<[a := d]> Q).
Proof.
  intros Hs Hp b. destruct (decide (a = b)) as [<-|Hne]; [by rewrite !fn_lookup_insert|]. rewrite !fn_lookup_insert_ne by done. apply Hs.
Qed.
Lemma settled_pending A P Q a (c e : list Transaction) : settled A P Q -> e ≡ₚ c ++ Q a -> settled (<[a := e]> A) (<[a := c]> P) Q.
Proof.
  intros Hs Hp b. destruct (decide (a = b)) as [<-|Hne]; [by rewrite !fn_lookup_insert|]. rewrite !fn_lookup_insert_ne by done. apply Hs.
Qed.

(** ** Entering a list *)

Lemma always_dropOld_none F op oq A P Q : always (inv F op oq A P Q) (dropOld None) (fun _ => inv F op oq A P Q).
Proof. by intros p Hp. Qed.
Lemma always_dropOld F op oq A P Q a o rest : A a ≡ₚ o :: rest ->
  always (inv F op oq A P Q) (dropOld (Some o)) (fun _ => inv F op oq (<[a := rest]> A) P Q).
Proof. intros Hp. unfold dropOld. eapply always_bind; [by apply always_forget|]. intros []. cbv beta. apply quiet_removed. Qed.

(** The end of [enqueueTx]. *)
Lemma quiet_heartbeat a (b : bool) : quiet (p ← st_get; _ ← (match beats p !! a with Some _ => mret tt | None => beat a end); mret b : ST Pool bool).
Proof.
  intros F op oq A P Q. apply triple_get. intros p Hp p' ->. destruct (beats p !! a); [exact Hp|].
  pose proof (quiet_beat a F op oq A P Q p Hp) as Hb. unfold mbind, st_bind. by destruct (beat a p) as [[[]|e|] p'].
Qed.

Lemma always_returns {X} (Pre : Pool -> Prop) (m : ST Pool unit) (x : X) R : always Pre m (fun _ => R) ->
  always Pre (_ ← m; mret x) (fun y p => y = x /\ R p).
Proof. intros Hm. eapply always_bind; [exact Hm|]. intros [] p Hp. by split. Qed.

(** A transaction the lookup knows goes back to the queue; its nonce is free. *)
Lemma always_requeue F op oq A P Q a tx : SenderOfTx tx = Ok a -> is_u64 (TxNonce tx) -> TxNonce tx ∉ TxNonce <$> Q a ->
  always (inv F op oq A P Q) (requeue tx) (fun _ => inv F op oq A P (<[a := insertTx tx (Q a)]> Q)).
Proof.
  intros Hs Hu Hn. unfold requeue. eapply always_bind with (R := fun _ => inv F op oq A P (<[a := insertTx tx (Q a)]> Q)); [|by intros ? p Hp].
  apply triple_try. unfold enqueueTx. rewrite (sender_of tx a Hs). eapply always_bind; [by apply always_addToQueue|]. intros [ins old]. cbv beta.
  apply triple_exists. intros c. apply triple_pure. intros Hadd. inversion Hadd as [o Ho Hno| |o Ho Hno]; subst.
  - exfalso. apply Hn. rewrite <- Hno. by apply list_elem_of_fmap_2.
  - cbn [negb]. intros p Hp. cbn. eapply (triple_conseq _ _ _ _ (fun _ => inv F op oq A P (<[a := insertTx tx (Q a)]> Q)));
      [apply (quiet_heartbeat a false)|done|done|by intros ? ? []|exact Hp].
  - exfalso. apply Hn. rewrite <- Hno. by apply list_elem_of_fmap_2.
Qed.

Lemma always_requeues F op oq A P a : forall xs Q, Forall (valid a) xs -> NoDup (TxNonce <$> xs ++ Q a) ->
  always (inv F op oq A P Q) (st_each requeue xs) (fun _ p => exists c, c ≡ₚ xs ++ Q a /\ inv F op oq A P (<[a := c]> Q) p).
Proof.
  induction xs as [|x xs IH]; intros Q Hv Hnd.
  - intros p Hp. exists (Q a). split; [done|]. eapply inv_ext; [exact Hp|done|done|]. intros b.
    destruct (decide (a = b)) as [<-|Hne]; [by rewrite fn_lookup_insert|by rewrite fn_lookup_insert_ne].
  - cbn [st_each app] in *. rewrite fmap_cons in Hnd. apply list.NoDup_cons in Hnd as [Hx Hnd]. apply list.Forall_cons in Hv as [[Hs Hu] Hv].
    rewrite fmap_app, not_elem_of_app in Hx. destruct Hx as [Hxs HxQ].
    eapply always_bind; [by apply (always_requeue _ _ _ _ _ _ a)|]. intros []. cbv beta. pose proof (insertTx_perm x (Q a) HxQ) as Hins.
    eapply triple_conseq; [apply (IH (<[a := insertTx x (Q a)]> Q) Hv)|done| |done].
    + rewrite fn_lookup_insert, Hins, <- Permutation_middle, fmap_cons. apply list.NoDup_cons. rewrite fmap_app, not_elem_of_app.
      split; [done|]. by rewrite <- fmap_app.
    + intros [] p (c & Hc & Hp). exists c. split.
      * rewrite Hc, fn_lookup_insert, Hins. symmetry. apply Permutation_middle.
      * eapply inv_ext; [exact Hp|done|done|]. intros b. by rewrite insert_twice_ext.
Qed.

(** A new transaction enters the queue, in place of one of the same nonce if it
    pays enough. *)
Lemma triple_enqueueTx F A P Q a tx isLocal : SenderOfTx tx = Ok a -> is_u64 (TxNonce tx) -> settled A P Q ->
  TxNonce tx ∉ TxNonce <$> P a -> unknown A (HashOfTx tx) ->
  triple (inv F None None A P Q) (enqueueTx (HashOfTx tx) tx isLocal true)
    (fun _ => inv F None None (<[a := P a ++ insertTx tx (Q a)]> A) P (<[a := insertTx tx (Q a)]> Q))
    (fun e p => e = ErrReplaceUnderpriced /\ TxNonce tx ∈ TxNonce <$> Q a /\ inv F None None A P Q p).
Proof.
  intros Hs Hu Hset HnP Hunk. apply triple_known. intros Ho Hsort. destruct (owned_parts A a _ Ho (Hset a)) as [Hnd Hval].
  unfold enqueueTx. rewrite (sender_of tx a Hs). eapply always_bind; [by apply always_addToQueue|]. intros [ins old]. cbv beta.
  apply triple_exists. intros c. apply triple_pure. intros Hadd. inversion Hadd as [o Ho' Hno|Hfree|o Ho' Hno]; subst; cbn [negb].
  - intros p Hp. split; [done|]. split; [rewrite <- Hno; by apply list_elem_of_fmap_2|]. eapply inv_ext; [exact Hp|done|done|].
    intros b. destruct (decide (a = b)) as [<-|Hne]; [by rewrite fn_lookup_insert|by rewrite fn_lookup_insert_ne].
  - cbn [st_fail_if]. eapply always_bind; [by apply (triple_ret tt (fun _ => inv F None None A P _))|]. intros []. cbv beta.
    eapply always_bind; [apply always_dropOld_none|]. intros []. cbv beta.
    eapply always_bind; [apply (always_know _ _ _ _ _ _ a); try done|].
    { rewrite (Hset a), fmap_app, not_elem_of_app. done. }
    intros []. cbv beta. eapply triple_conseq; [apply (quiet_heartbeat a false)|done| |by intros ? ? []].
    intros ? p Hp. eapply inv_ext; [exact Hp| |done|done]. intros b. destruct (decide (a = b)) as [<-|Hne].
    + rewrite !fn_lookup_insert, (Hset a), (insertTx_perm tx (Q a) Hfree). symmetry. apply Permutation_middle.
    + by rewrite !fn_lookup_insert_ne.
  - destruct (insertTx_replace tx o (Q a) (proj2 (Hsort a)) Ho' Hno) as (rest & Hrest & Hins).
    assert (HA : A a ≡ₚ o :: P a ++ rest) by (rewrite (Hset a), Hrest; symmetry; apply Permutation_middle).
    cbn [st_fail_if]. eapply always_bind; [by apply (triple_ret tt (fun _ => inv F None None A P _))|]. intros []. cbv beta.
    eapply always_bind; [by apply always_dropOld|]. intros []. cbv beta.
    eapply always_bind; [apply (always_know _ _ _ _ _ _ a); try done|].
    { rewrite fn_lookup_insert. destruct (owned_parts A a _ Ho HA) as [Hnd' _]. rewrite fmap_cons in Hnd'.
      apply list.NoDup_cons in Hnd' as [Hnd' _]. by rewrite <- Hno. }
    { apply unknown_insert; [done|]. intros y Hy _. rewrite HA. by apply list_elem_of_further. }
    intros []. cbv beta. eapply triple_conseq; [apply (quiet_heartbeat a true)|done| |by intros ? ? []].
    intros ? p Hp. eapply inv_ext; [exact Hp| |done|done]. intros b. destruct (decide (a = b)) as [<-|Hne].
    + rewrite !fn_lookup_insert, Hins. symmetry. apply Permutation_middle.
    + by rewrite !fn_lookup_insert_ne.
Qed.

(** A transaction on its way to the pending list; its nonce is free there. *)
Lemma always_promoteTx F op oq A P Q a tx : SenderOfTx tx = Ok a -> is_u64 (TxNonce tx) -> TxNonce tx ∉ TxNonce <$> P a ->
  always (inv F op oq A P Q) (promoteTx a (HashOfTx tx) tx) (fun b p => b = true /\ inv F op oq A (<[a := insertTx tx (P a)]> P) Q p).
Proof.
  intros Hs Hu Hn. unfold promoteTx. eapply always_bind; [by apply always_addToPending|]. intros [ins old]. cbv beta.
  apply triple_exists. intros c. apply triple_pure. intros Hadd. inversion Hadd as [o Ho Hno| |o Ho Hno]; subst; cbn [negb];
    try (exfalso; apply Hn; rewrite <- Hno; by apply list_elem_of_fmap_2).
  eapply always_bind; [apply always_dropOld_none|]. intros []. cbv beta.
  apply always_quiet; [apply quiet_setNonce|]. intros []. apply always_quiet; [apply quiet_beat|]. intros [] p Hp. by split.
Qed.

(** A transaction for a nonce that is pending. *)
Lemma triple_replacePending F A P Q a tx isLocal : SenderOfTx tx = Ok a -> is_u64 (TxNonce tx) -> settled A P Q ->
  TxNonce tx ∈ TxNonce <$> P a -> unknown A (HashOfTx tx) ->
  triple (inv F None None A P Q) (replacePending a tx isLocal)
    (fun b p => b = true /\ inv F None None (<[a := insertTx tx (P a) ++ Q a]> A) (<[a := insertTx tx (P a)]> P) Q p)
    (fun e p => e = ErrReplaceUnderpriced /\ inv F None None A P Q p).
Proof.
  intros Hs Hu Hset HnP Hunk. apply triple_known. intros Ho Hsort. destruct (owned_parts A a _ Ho (Hset a)) as [Hnd Hval].
  unfold replacePending. eapply always_bind; [by apply always_addToPending|]. intros [ins old]. cbv beta.
  apply triple_exists. intros c. apply triple_pure. intros Hadd. inversion Hadd as [o Ho' Hno|Hfree|o Ho' Hno]; subst; cbn [negb st_fail_if].
  - intros p Hp. split; [done|]. eapply inv_ext; [exact Hp|done| |done].
    intros b. destruct (decide (a = b)) as [<-|Hne]; [by rewrite fn_lookup_insert|by rewrite fn_lookup_insert_ne].
  - done.
  - destruct (insertTx_replace tx o (P a) (proj1 (Hsort a)) Ho' Hno) as (rest & Hrest & Hins).
    assert (HA : A a ≡ₚ o :: rest ++ Q a) by (by rewrite (Hset a), Hrest).
    eapply always_bind; [by apply (triple_ret tt (fun _ => inv F None None A _ Q))|]. intros []. cbv beta.
    eapply always_bind; [by apply always_dropOld|]. intros []. cbv beta.
    assert (Hassoc : forall X (k : ST Pool X) R E, triple (inv F None None (<[a := tx :: rest ++ Q a]> (<[a := rest ++ Q a]> A)) (<[a := insertTx tx (P a)]> P) Q) k R E ->
      triple (inv F None None (<[a := rest ++ Q a]> A) (<[a := insertTx tx (P a)]> P) Q) (_ ← know tx isLocal; _ ← price tx isLocal; k) R E).
    { intros X k R E Hk p Hp. pose proof (always_know F None None (<[a := rest ++ Q a]> A) (<[a := insertTx tx (P a)]> P) Q a tx isLocal Hs Hu) as Hkn.
      rewrite fn_lookup_insert in Hkn. destruct (owned_parts A a _ Ho HA) as [Hnd' _]. rewrite fmap_cons in Hnd'.
      apply list.NoDup_cons in Hnd' as [Hnd' _]. rewrite Hno in Hnd'. specialize (Hkn Hnd').
      specialize (Hkn ltac:(apply unknown_insert; [done|]; intros y Hy _; rewrite HA; by apply list_elem_of_further)).
      specialize (Hkn p Hp). unfold mbind, st_bind in *. destruct (know tx isLocal p) as [[[]|e|] p1]; [|done|done].
      destruct (price tx isLocal p1) as [[[]|e|] p2]; [|done|done]. by apply Hk. }
    apply Hassoc. apply always_quiet; [apply quiet_journalTx|]. intros []. apply always_quiet; [apply quiet_queueTxEvent|]. intros [].
    apply always_quiet; [apply quiet_beat|]. intros [] p Hp. split; [done|]. eapply inv_ext; [exact Hp| |done|done].
    intros b. destruct (decide (a = b)) as [<-|Hne]; [by rewrite !fn_lookup_insert, Hins|by rewrite !fn_lookup_insert_ne].
Qed.

(** ** Leaving the pool *)

Lemma inv_open_pending F oq A P Q a p : inv F None oq A P Q p -> pending p !! a <> None -> inv F (Some a) oq A P Q p.
Proof. intros [Is Ip Iq Ik Io Ir] Ha. split; try done. by apply lists_rel_open. Qed.
Lemma inv_open_queue F op A P Q a p : inv F op None A P Q p -> queue p !! a <> None -> inv F op (Some a) A P Q p.
Proof. intros [Is Ip Iq Ik Io Ir] Ha. split; try done. by apply lists_rel_open. Qed.

Lemma lists_rel_closed s m P a : lists_rel s (Some a) m P -> P a <> [] -> lists_rel s None m P.
Proof.
  intros Hm Ha b. specialize (Hm b). destruct (m !! b); [|naive_solver]. destruct Hm as (? & ? & [[= <-]|?]); auto.
Qed.
Lemma inv_close_pending F oq A P Q a p : inv F (Some a) oq A P Q p -> P a <> [] -> inv F None oq A P Q p.
Proof. intros [Is Ip Iq Ik Io Ir] Ha. split; try done. by eapply lists_rel_closed. Qed.

Lemma filter_one (tx : Transaction) l : incr l -> tx ∈ l -> filter (fun y => TxNonce y = TxNonce tx) l = [tx].
Proof.
  induction l as [|x l IH]; [by intros _ ?%not_elem_of_nil|]. intros [Hi Hx]%incr_cons [->|Hin]%elem_of_cons.
  - rewrite filter_cons, decide_True by done. f_equal. apply filter_none. eapply list.Forall_impl; [exact Hx|]. simpl. lia.
  - rewrite list.Forall_forall in Hx. specialize (Hx tx Hin). rewrite filter_cons, decide_False by lia. by apply IH.
Qed.
Lemma filter_absent (n : Z) (l : list Transaction) : n ∉ TxNonce <$> l -> filter (fun y => TxNonce y = n) l = [].
Proof. intros Hn. apply filter_none, list.Forall_forall. intros y Hy <-. by apply Hn, list_elem_of_fmap_2. Qed.

(** The pending part of [removeTx] when the transaction is pending, with the
    ones behind it back in the queue. *)
Lemma always_removePending F A P Q a tx : tx ∈ P a -> NoDup (TxNonce <$> P a ++ Q a) -> Forall (valid a) (P a) ->
  always (inv F None None A P Q) (removePending a tx) (fun b p => b = true /\ exists invalids kept c,
    P a ≡ₚ tx :: invalids ++ kept /\ c ≡ₚ invalids ++ Q a /\ inv F None None A (<[a := kept]> P) (<[a := c]> Q) p).
Proof.
  intros Htx Hnd Hv. unfold removePending. apply triple_known. intros Ho Hsort. apply triple_get. intros p0 Hp0.
  pose proof (inv_pending _ _ _ _ _ _ _ Hp0 a) as Ha. destruct (pending p0 !! a) as [l0|] eqn:E.
  2: { destruct Ha as [Ha _]. rewrite Ha in Htx. by apply not_elem_of_nil in Htx. }
  eapply triple_conseq with (P' := inv F (Some a) None A P Q); [|intros s ->; apply inv_open_pending; [done|by rewrite E]|intros ? ? HQ; exact HQ|intros ? ? HE; exact HE].
  apply always_quiet; [apply quiet_ticks4|]. intros ts.
  eapply always_bind.
  { apply (always_on_pending _ _ _ _ _ a _ (fun r c => r.1 = true /\ P a ≡ₚ tx :: r.2 ++ c)). intros l Hh Hst.
    destruct (Remove_exact (rangeAt ts.1.1.1) (rangeAt ts.1.1.2) tx l (P a) Hh) as (found & inv' & l' & Hrun & Hst' & Hf & _ & kept & Hk & Hp & _).
    exists (found, inv'), l', kept. split; [done|]. split; [done|]. split; [congruence|]. cbn [fst snd]. split.
    - apply Hf. by apply list_elem_of_fmap_2.
    - by rewrite (filter_one tx (P a) (proj1 (Hsort a)) Htx) in Hp. }
  intros [found invs]. cbv beta. cbn [fst snd]. apply triple_exists. intros kept. apply triple_pure. intros [-> Hperm]. cbn [negb].
  eapply always_bind; [apply always_dropEmptyPending|]. intros []. cbv beta.
  assert (Hinv : NoDup (TxNonce <$> invs ++ Q a) /\ Forall (valid a) invs).
  { rewrite Hperm in Hnd. cbn [app] in Hnd. rewrite fmap_cons in Hnd. apply list.NoDup_cons in Hnd as [_ Hnd].
    rewrite (Permutation_app_comm invs kept), <- app_assoc, fmap_app in Hnd. apply list.NoDup_app in Hnd as (_ & _ & Hnd). split; [done|].
    rewrite Hperm in Hv. apply list.Forall_cons in Hv as [_ Hv]. by apply Forall_app in Hv as [Hv _]. }
  destruct Hinv as [Hnd' Hv']. eapply always_bind; [by apply (always_requeues _ _ _ _ _ a)|]. intros []. cbv beta.
  apply triple_exists. intros c. apply triple_pure. intros Hc.
  apply always_quiet; [apply quiet_lowerNonce|]. intros [] p Hp. split; [done|]. exists invs, kept, c. done.
Qed.

(** The same when it is not. *)
Lemma always_removePending_none F A P Q a tx : TxNonce tx ∉ TxNonce <$> P a ->
  always (inv F None None A P Q) (removePending a tx) (fun b p => b = false /\ inv F None None A P Q p).
Proof.
  intros Htx. unfold removePending. apply triple_get. intros p0 Hp0. pose proof (inv_pending _ _ _ _ _ _ _ Hp0 a) as Ha.
  destruct (pending p0 !! a) as [l0|] eqn:E; [|by intros p ->].
  destruct Ha as (_ & _ & [|Hne]); [done|].
  eapply triple_conseq with (P' := inv F (Some a) None A P Q); [|intros s ->; apply inv_open_pending; [done|by rewrite E]|intros ? ? HQ; exact HQ|intros ? ? HE; exact HE].
  apply always_quiet; [apply quiet_ticks4|]. intros ts. eapply always_bind.
  { apply (always_on_pending _ _ _ _ _ a _ (fun r c => r.1 = false /\ c = P a)). intros l Hh Hst.
    destruct (Remove_exact (rangeAt ts.1.1.1) (rangeAt ts.1.1.2) tx l (P a) Hh) as (found & inv' & l' & Hrun & Hst' & Hf & _ & kept & Hk & _ & Hsame).
    assert (found = false) as -> by (apply not_true_iff_false; by rewrite Hf).
    exists (false, inv'), l', kept. split; [done|]. split; [done|]. split; [congruence|]. by split; [|apply Hsame]. }
  intros [found invs]. cbv beta. cbn [fst snd]. apply triple_exists. intros kept. apply triple_pure. intros [-> ->]. cbn [negb].
  intros p Hp. split; [done|]. eapply inv_close_pending; [|exact Hne]. eapply inv_ext; [exact Hp|done| |done].
  intros b. destruct (decide (a = b)) as [<-|Hne']; [by rewrite fn_lookup_insert|by rewrite fn_lookup_insert_ne].
Qed.

(** [removeTx] of a queued transaction. *)
Lemma always_removeTx_queued F A P Q a tx outofbound : settled A P Q -> tx ∈ Q a ->
  always (inv F None None A P Q) (removeTx (HashOfTx tx) outofbound) (fun _ p => exists c,
    Q a ≡ₚ tx :: c /\ inv F None None (<[a := P a ++ c]> A) P (<[a := c]> Q) p).
Proof.
  intros Hset Htx. apply triple_known. intros Ho Hsort. unfold removeTx. apply triple_get. intros p0 Hp0.
  assert (HA : tx ∈ A a) by (rewrite (Hset a); apply elem_of_app; by right).
  rewrite (knows_get (all p0) A a tx (inv_knows _ _ _ _ _ _ _ Hp0) Ho HA), (owned_sender A a tx Ho HA).
  destruct (proj1 (elem_of_Permutation (Q a) tx) Htx) as [c Hc].
  assert (Hperm : A a ≡ₚ tx :: P a ++ c) by (rewrite (Hset a), Hc; symmetry; apply Permutation_middle).
  destruct (owned_parts A a _ Ho Hperm) as [Hnd _]. rewrite fmap_cons in Hnd. apply list.NoDup_cons in Hnd as [Hnd _].
  rewrite fmap_app, not_elem_of_app in Hnd. destruct Hnd as [HnP Hnc].
  eapply triple_conseq with (P' := inv F None None A P Q); [|by intros s ->|intros ? ? HQ; exact HQ|intros ? ? HE; exact HE].
  eapply always_bind; [by apply always_forget|]. intros []. cbv beta. set (A1 := <[a := P a ++ c]> A).
  apply always_quiet; [destruct outofbound; [apply quiet_removed|apply quiet_ret]|]. intros [].
  eapply always_bind; [by apply always_removePending_none|]. intros done_. cbv beta. apply triple_pure. intros ->.
  apply triple_get. intros p1 Hp1. pose proof (inv_queue _ _ _ _ _ _ _ Hp1 a) as Ha.
  destruct (queue p1 !! a) as [l0|] eqn:E; [|destruct Ha as [Ha _]; rewrite Ha in Htx; by apply not_elem_of_nil in Htx].
  eapply triple_conseq with (P' := inv F None (Some a) A1 P Q); [|intros s ->; apply inv_open_queue; [done|by rewrite E]|intros ? ? HQ; exact HQ|intros ? ? HE; exact HE].
  apply always_quiet; [apply quiet_ticks4|]. intros ts. eapply always_bind.
  { apply (always_on_queue _ _ _ _ _ a _ (fun _ c' => c' ≡ₚ c)). intros l Hh Hst.
    destruct (Remove_exact (rangeAt ts.1.1.1) (rangeAt ts.1.1.2) tx l (Q a) Hh) as (found & inv' & l' & Hrun & Hst' & _ & Hinv & kept & Hk & Hp & _).
    exists (found, inv'), l', kept. split; [done|]. split; [done|]. split; [congruence|]. rewrite (Hinv (or_introl Hst)) in Hp.
    rewrite (filter_one tx (Q a) (proj2 (Hsort a)) Htx), Hc in Hp. by apply Permutation_cons_inv in Hp. }
  intros found. cbv beta. apply triple_exists. intros c'. apply triple_pure. intros Hc'.
  eapply triple_conseq; [apply always_dropEmptyQueue|done| |done]. intros [] p Hp. exists c'. split; [by rewrite Hc'|].
  eapply inv_ext; [exact Hp| |done|done]. intros b. unfold A1. destruct (decide (a = b)) as [<-|Hne].
  - by rewrite !fn_lookup_insert, Hc'.
  - by rewrite !fn_lookup_insert_ne.
Qed.

(** [removeTx] of a pending transaction: the ones behind it are queued. *)
Lemma always_removeTx_pending F A P Q a tx outofbound : settled A P Q -> tx ∈ P a ->
  always (inv F None None A P Q) (removeTx (HashOfTx tx) outofbound) (fun _ p => exists invalids kept c,
    P a ≡ₚ tx :: invalids ++ kept /\ c ≡ₚ invalids ++ Q a /\
    inv F None None (<[a := kept ++ c]> A) (<[a := kept]> P) (<[a := c]> Q) p).
Proof.
  intros Hset Htx. apply triple_known. intros Ho Hsort. unfold removeTx. apply triple_get. intros p0 Hp0.
  assert (HA : tx ∈ A a) by (rewrite (Hset a); apply elem_of_app; by left).
  rewrite (knows_get (all p0) A a tx (inv_knows _ _ _ _ _ _ _ Hp0) Ho HA), (owned_sender A a tx Ho HA).
  destruct (proj1 (elem_of_Permutation (A a) tx) HA) as [rest Hrest].
  destruct (owned_parts A a _ Ho (Hset a)) as [Hnd Hv]. apply Forall_app in Hv as [Hv _].
  eapply triple_conseq with (P' := inv F None None A P Q); [|by intros s ->|intros ? ? HQ; exact HQ|intros ? ? HE; exact HE].
  eapply always_bind; [by apply always_forget|]. intros []. cbv beta. set (A1 := <[a := rest]> A).
  apply always_quiet; [destruct outofbound; [apply quiet_removed|apply quiet_ret]|]. intros [].
  eapply always_bind; [by apply always_removePending|]. intros done_. cbv beta. apply triple_pure. intros ->.
  intros p (invalids & kept & c & Hperm & Hc & Hp). exists invalids, kept, c. split; [done|]. split; [done|].
  eapply inv_ext; [exact Hp| |done|done]. intros b. unfold A1. destruct (decide (a = b)) as [<-|Hne].
  - rewrite !fn_lookup_insert, Hc. apply (Permutation_cons_inv (a := tx)). rewrite <- Hrest, (Hset a), Hperm. solve_Permutation.
  - by rewrite !fn_lookup_insert_ne.
Qed.

Lemma always_removeTx_absent F A P Q h outofbound : unknown A h ->
  always (inv F None None A P Q) (removeTx h outofbound) (fun _ => inv F None None A P Q).
Proof.
  intros Hu. unfold removeTx. apply triple_get. intros p0 Hp0. rewrite (proj2 (unknown_get (all p0) A h (inv_knows _ _ _ _ _ _ _ Hp0)) Hu).
  by intros p ->.
Qed.

(** What may happen to the stores when transactions are taken out: no other
    transaction leaves, none becomes pending. *)
Record shrinks (gone : Transaction -> Prop) A P A' P' : Prop := {
  shrink_known : forall b y, y ∈ A' b -> y ∈ A b;
  shrink_only : forall b y, y ∈ A b -> y ∉ A' b -> gone y;
  shrink_pending : forall b y, y ∈ P' b -> y ∈ P b;
}.

Lemma shrinks_refl g A P : shrinks g A P A P.
Proof. by split. Qed.
Lemma shrinks_trans (g g' : Transaction -> Prop) A P A1 P1 A2 P2 : (forall y, g y -> g' y) -> shrinks g A P A1 P1 -> shrinks g' A1 P1 A2 P2 -> shrinks g' A P A2 P2.
Proof.
  intros Hg [Hk Ho Hp] [Hk' Ho' Hp']. split; [eauto| |eauto]. intros b y Hy Hn. destruct (decide (y ∈ A1 b)) as [Hy1|Hy1]; [eauto|].
  apply Hg. eauto.
Qed.

(** [removeTx] of whatever has the hash. *)
Lemma always_removeTx F A P Q h outofbound : settled A P Q ->
  always (inv F None None A P Q) (removeTx h outofbound) (fun _ p => exists A' P' Q',
    settled A' P' Q' /\ shrinks (fun y => HashOfTx y = h) A P A' P' /\ (forall b y, y ∈ A' b -> HashOfTx y <> h) /\
    inv F None None A' P' Q' p).
Proof.
  intros Hset p Hp. pose proof (inv_knows _ _ _ _ _ _ _ Hp) as Hk. pose proof (inv_owned _ _ _ _ _ _ _ Hp) as Ho.
  destruct (Lookup.Get h (all p)) as [x|] eqn:E.
  2: { pose proof (proj1 (unknown_get _ _ _ Hk) E) as Hu. pose proof (always_removeTx_absent F A P Q h outofbound Hu p Hp) as Hr.
       destruct (removeTx h outofbound p) as [[[]|e|] p']; [|done|done]. exists A, P, Q. split; [done|]. split; [apply shrinks_refl|]. split; [|done].
       intros b y Hy Hh. apply (Hu y Hh). by rewrite (owned_sender A b y). }
  apply Hk in E as [<- Hx]. set (a := senderOf x) in *.
  assert (Hcases : x ∈ P a \/ x ∈ Q a) by (rewrite (Hset a) in Hx; by apply elem_of_app in Hx).
  assert (Hother : forall rest, A a ≡ₚ x :: rest -> forall b y, y ∈ (<[a := rest]> A) b <-> y ∈ A b /\ HashOfTx y <> HashOfTx x).
  { intros rest Hrest b y. assert (Hxn : x ∉ rest).
    { destruct (owned_parts A a _ Ho Hrest) as [Hn _]. rewrite fmap_cons in Hn. apply list.NoDup_cons in Hn as [Hn _]. intros Hin. by apply Hn, list_elem_of_fmap_2. }
    assert (Hne : y ∈ A b -> HashOfTx y = HashOfTx x -> y = x) by (intros Hy; by apply (knows_hash (all p) A b a)).
    destruct (decide (a = b)) as [<-|Hb].
    - rewrite fn_lookup_insert. split.
      + intros Hy. assert (HyA : y ∈ A a) by (rewrite Hrest; by apply list_elem_of_further). split; [done|]. intros Hh. by rewrite (Hne HyA Hh) in Hy.
      + intros [Hy Hh]. rewrite Hrest in Hy. apply elem_of_cons in Hy as [->|Hy]; done.
    - rewrite fn_lookup_insert_ne by done. split; [|tauto]. intros Hy. split; [done|]. intros Hh. rewrite (Hne Hy Hh) in Hy.
      apply Hb. symmetry. rewrite <- (owned_sender A b x Ho Hy). done. }
  destruct Hcases as [HP|HQ].
  - pose proof (always_removeTx_pending F A P Q a x outofbound Hset HP p Hp) as Hr.
    destruct (removeTx (HashOfTx x) outofbound p) as [[[]|e|] p']; [|done|done]. destruct Hr as (invs & kept & c & Hperm & Hc & Hp').
    assert (Hrest : A a ≡ₚ x :: kept ++ c) by (rewrite (Hset a), Hperm, Hc; solve_Permutation).
    exists (<[a := kept ++ c]> A), (<[a := kept]> P), (<[a := c]> Q). split; [by apply settled_insert|]. split; [split|split; [|done]].
    + intros b y Hy. by apply (Hother _ Hrest) in Hy as [Hy _].
    + intros b y Hy Hn. destruct (decide (HashOfTx y = HashOfTx x)) as [|Hne]; [done|]. exfalso. by apply Hn, (Hother _ Hrest).
    + intros b y. destruct (decide (a = b)) as [<-|Hne]; [|by rewrite fn_lookup_insert_ne]. rewrite fn_lookup_insert, Hperm. set_solver.
    + intros b y Hy. by apply (Hother _ Hrest) in Hy as [_ Hy].
  - pose proof (always_removeTx_queued F A P Q a x outofbound Hset HQ p Hp) as Hr.
    destruct (removeTx (HashOfTx x) outofbound p) as [[[]|e|] p']; [|done|done]. destruct Hr as (c & Hc & Hp').
    assert (Hrest : A a ≡ₚ x :: P a ++ c) by (rewrite (Hset a), Hc; symmetry; apply Permutation_middle).
    exists (<[a := P a ++ c]> A), P, (<[a := c]> Q). split; [by apply settled_queue|]. split; [split|split; [|done]].
    + intros b y Hy. by apply (Hother _ Hrest) in Hy as [Hy _].
    + intros b y Hy Hn. destruct (decide (HashOfTx y = HashOfTx x)) as [|Hne]; [done|]. exfalso. by apply Hn, (Hother _ Hrest).
    + done.
    + intros b y Hy. by apply (Hother _ Hrest) in Hy as [_ Hy].
Qed.

Lemma always_removeTxs F outofbound : forall hs A P Q, settled A P Q ->
  always (inv F None None A P Q) (st_each (fun tx => removeTx (HashOfTx tx) outofbound) hs) (fun _ p => exists A' P' Q',
    settled A' P' Q' /\ shrinks (fun y => HashOfTx y ∈ HashOfTx <$> hs) A P A' P' /\
    (forall b y, y ∈ A' b -> HashOfTx y ∉ HashOfTx <$> hs) /\ inv F None None A' P' Q' p).
Proof.
  induction hs as [|x hs IH]; intros A P Q Hset.
  - intros p Hp. exists A, P, Q. split; [done|]. split; [apply shrinks_refl|]. split; [|done].
    intros b y _ Hin. by apply not_elem_of_nil in Hin.
  - cbn [st_each]. eapply always_bind; [by apply always_removeTx|]. intros []. cbv beta.
    apply triple_exists; intros A1. apply triple_exists; intros P1. apply triple_exists; intros Q1.
    apply triple_pure. intros Hset1. apply triple_pure. intros Hs1. apply triple_pure. intros Hno1.
    eapply triple_conseq; [by apply (IH A1 P1 Q1)|done| |done]. intros [] p (A2 & P2 & Q2 & Hset2 & Hs2 & Hno2 & Hp). exists A2, P2, Q2.
    split; [done|]. split; [|split; [|done]].
    2: { intros b y Hy. rewrite fmap_cons. apply not_elem_of_cons. split; [|by eapply Hno2]. apply (Hno1 b). by apply (shrink_known _ _ _ _ _ Hs2). } eapply shrinks_trans; [| |].
    3: { split; [apply Hs2| |apply Hs2]. intros b y Hy Hn. rewrite fmap_cons. apply list_elem_of_further. by eapply Hs2. }
    2: exact Hs1. intros y ->. rewrite fmap_cons. apply list_elem_of_here.
Qed.
End Methods.
