(* ===== verification/TxPoolHandlers.v ===== *)
(** * Adding, promoting and demoting keep the pool whole (core/tx_pool.go) *)

From S2P Require Import Prelude Heap Hoare Params Types Misc Snapshot StateIface StateTransition Signing.
From S2P Require Import Finalize TxQueue TxPrices TxPricesFacts TxSortedMap TxList TxListFacts TxListHolds TxPoolState TxPool TxPoolFacts TxPoolMethods.
From stdpp Require Import functions.
#[local] Open Scope Z_scope.
Import Noncer AccountList Lookup LookupFacts Priced PricedFacts Pool PoolOps.

(** Limits that fit the integers they are converted to. *)
Record config_ok (c : TxPoolConfig) : Prop := {
  config_slots : 0 <= GlobalSlots c;
  config_global : GlobalSlots c + GlobalQueue c < 9223372036854775808;
  config_queue : 0 <= GlobalQueue c;
  config_account : 0 < AccountSlots c < 9223372036854775808;
  config_accountQueue : 0 < AccountQueue c < 9223372036854775808;
}.

Section Handlers.
Context {St : Type} `{AccountState St} `{TxSigning} `{TxSize} `{Runtime} `{ExTxValidator St}.
Implicit Types (p : TxPool St) (A P Q : store) (op oq : option Address) (F : scene (St:=St)).
Abbreviation Pool := (TxPool St).

(** What the engine and the signer answer; neither panics. *)
Class PoolLaws : Prop := {
  sender_answers : forall tx, SenderOfTx tx <> Panic;
  validator_answers : forall t a tx h (s : St), exValidateTx t a tx h s <> Panic;
}.
Context `{!PoolLaws}.

Lemma numSlots_pos tx : 0 < numSlots tx.
Proof. unfold numSlots, txSlotSize. pose proof (sizeOf_pos tx). lia. Qed.
Lemma slotSum_nonneg m : 0 <= slotSum m.
Proof.
  unfold slotSum. apply (map_fold_weak_ind (fun n (_ : gmap Hash Transaction) => 0 <= n)); [lia|]. intros h tx m' n _ Hn. pose proof (numSlots_pos tx). lia.
Qed.
Lemma slots_nonneg t : lookup_ok t -> 0 <= slots t.
Proof. intros [_ _ ->]. pose proof (slotSum_nonneg (Lookup.locals t)). pose proof (slotSum_nonneg (Lookup.remotes t)). lia. Qed.

(** ** Validation *)

Lemma triple_check {X} (b : bool) e (k : ST Pool X) Pre R E : (forall p, Pre p -> E e p) -> triple Pre k R E -> triple Pre (_ ← st_fail_if b e; k) R E.
Proof.
  intros He Hk. eapply triple_bind; [apply (triple_fail_if Pre b e (fun _ => Pre)); [by intros; apply He|done]|]. by intros [].
Qed.

Lemma triple_ret_bind {X Y} (x : X) (f : X -> ST Pool Y) Pre R E : triple Pre (f x) R E -> triple Pre (mret x ≫= f) R E.
Proof. done. Qed.
Lemma triple_lift_bind {X Y} (x : X) (f : X -> ST Pool Y) Pre R E : triple Pre (f x) R E -> triple Pre (st_lift (Ok x) ≫= f) R E.
Proof. done. Qed.

Lemma triple_put_bind {Y} (s : Pool) (f : unit -> ST Pool Y) Pre R E : triple (fun p => p = s) (f tt) R E -> triple Pre (st_put s ≫= f) R E.
Proof. intros Hf p _. by apply (Hf s). Qed.

Lemma IntrinsicGas_total data al c h e : IntrinsicGas data al c h e <> Panic.
Proof.
  unfold IntrinsicGas. intros Hg. destruct (dataGas _ data e) as [g|err|] eqn:Ed; [by destruct al|done|]. clear Hg.
  unfold dataGas in Ed. repeat (case_match; try discriminate).
Qed.

(** The answer of [validateTx] leaves the pool alone, but for the switch of the
    engine's check; a valid transaction has a sender and is not negative. *)
Lemma triple_validateTx F op oq A P Q tx isLocal :
  triple (inv F op oq A P Q) (validateTx tx isLocal)
    (fun _ p => SenderOfTx tx = Ok (senderOf tx) /\ inv F op oq A P Q p) (fun _ => inv F op oq A P Q).
Proof.
  unfold validateTx. apply triple_get. intros p0 Hp0.
  eapply triple_conseq with (P' := inv F op oq A P Q); [|by intros s ->|intros ? ? HQ; exact HQ|intros ? ? HE; exact HE].
  do 8 (apply triple_check; [done|]). unfold validSender. pose proof (sender_answers tx) as Hs. unfold senderOf.
  destruct (SenderOfTx tx) as [from|e|]; [|by intros p Hp|done].
  apply triple_ret_bind. do 3 (apply triple_check; [done|]). pose proof (IntrinsicGas_total (TxData tx) (TxAccessList tx)
    (match TxTo tx with None => true | Some _ => false end) true (istanbul p0)) as Hg.
  destruct (IntrinsicGas _ _ _ _ _) as [g|e|]; [|by intros p Hp|done]. apply triple_lift_bind.
  apply triple_check; [done|]. unfold extraValidate. apply triple_get. intros p1 Hp1.
  eapply triple_conseq with (P' := inv F op oq A P Q); [|by intros s ->|intros ? ? HQ; exact HQ|intros ? ? HE; exact HE].
  apply triple_if; [|by intros _ p Hp]. intros _. apply always_quiet; [apply quiet_tick|]. intros t.
  pose proof (validator_answers t from tx (nextFakeHeader p1) (currentState p1)) as Hv.
  destruct (exValidateTx _ _ _ _ _) as [u|e|]; [by intros p Hp| |done]. case_decide; [by intros p Hp|].
  intros p Hp. split; [done|]. by apply (inv_same _ _ _ _ _ _ p).
Qed.

(** ** Room in a full pool *)

Lemma inv_set_priced F F' op oq A P Q p l : inv F op oq A P Q p -> priced_ok (sGone F') (all p) l -> sceneOf (sGone F') p = F' ->
  inv F' op oq A P Q (set_priced l p).
Proof. intros [Is Ip Iq Ik Io Ir] Hl Hs. by split. Qed.

(** The scene with hashes given up by the price heaps. *)
Definition giving (gone : list Hash) F : scene := mkScene (sConfig F) (sLocals F) (sState F) (sGas F) gone.

(** Once the pool gave them up as well, nothing is missing. *)
Lemma inv_complete F op oq A P Q p g : sGone F = [] -> inv (giving g F) op oq A P Q p -> (forall b y, y ∈ A b -> HashOfTx y ∉ g) ->
  inv F op oq A P Q p.
Proof.
  intros Hg [Is Ip Iq Ik Io [Hh Ha]] Hno. destruct F as [c l s gas gone]. cbn [sGone giving sConfig sLocals sState sGas] in *. subst gone.
  split; try done. { injection Is as <- <- <- <-. done. }
  split; [done|]. intros h y Hy. destruct (Ha h y Hy) as [|Hin]; [by left|]. exfalso.
  assert (HG : Lookup.Get h (all p) = Some y).
  { apply Get_cases. right. split; [|done]. by eapply map_disjoint_Some_r; [apply (lookup_apart _ (proj1 Ik))|]. }
  pose proof (proj2 Ik h y) as Hk. apply Hk in HG as [<- Hin']. by apply (Hno _ _ Hin').
Qed.

Lemma remote_hash t h y : lookup_ok t -> Lookup.remotes t !! h = Some y -> HashOfTx y = h.
Proof.
  intros Hok Hy. apply (lookup_hash _ Hok). apply Get_cases. right. split; [|done]. by eapply map_disjoint_Some_r; [apply (lookup_apart _ Hok)|].
Qed.

(** What a new remote transaction may cost the others: only remote ones leave. *)
Definition wasRemote p (y : Transaction) : Prop := Lookup.remotes (all p) !! HashOfTx y <> None.

Lemma makeRoom_spec F A P Q tx isLocal p0 : sGone F = [] -> config_ok (sConfig F) -> settled A P Q -> inv F None None A P Q p0 ->
  match makeRoom tx isLocal p0 with
  | (Ok _, p) => exists A' P' Q', settled A' P' Q' /\ shrinks (wasRemote p0) A P A' P' /\ inv F None None A' P' Q' p
  | (Err e, p) => (e = ErrUnderpriced \/ e = ErrTxPoolOverflow) /\ inv F None None A P Q p
  | (Panic, _) => False
  end.
Proof.
  intros Hg Hc Hset Hp0. pose proof (inv_scene _ _ _ _ _ _ _ Hp0) as Hsc. pose proof (proj1 (inv_knows _ _ _ _ _ _ _ Hp0)) as Hok.
  assert (HcC : config p0 = sConfig F) by (by rewrite <- Hsc). unfold makeRoom. apply triple_get with (P := fun p => p = p0); [|done]. intros ? ->.
  cbv zeta. rewrite HcC. set (limit := GlobalSlots (sConfig F) +w GlobalQueue (sConfig F)).
  destruct (limit <? u64 (Slots (all p0) + numSlots tx)) eqn:El; cbn [negb].
  2: { intros p ->. exists A, P, Q. split; [done|]. split; [apply shrinks_refl|done]. }
  assert (Hlim : i64 limit = GlobalSlots (sConfig F) + GlobalQueue (sConfig F)) by (destruct Hc; unfold limit; rewrite u64_small, i64_small; word_lia).
  assert (Hwanted : 0 <= Slots (all p0) - i64 limit + numSlots tx).
  { pose proof (slots_nonneg _ Hok). pose proof (numSlots_pos tx). apply Z.ltb_lt in El. unfold Slots in *. rewrite Hlim. destruct Hc. unfold limit, u64 in El.
    rewrite (Z.mod_small (GlobalSlots _ + _)) in El by lia. pose proof (Z.mod_le (slots (all p0) + numSlots tx) 18446744073709551616). lia. }
  (* underpriced *)
  eapply always_bind with (R := fun _ p => inv F None None A P Q p /\ all p = all p0).
  { destruct isLocal; [by intros p ->|].
    destruct (Underpriced_spec (all p0) tx (priced p0) (priced_heaps _ _ _ (inv_priced _ _ _ _ _ _ _ Hp0))) as (b & l & Hrun & Hh & _ & Hin & _).
    rewrite Hrun. apply triple_lift_bind. intros p ->. split; [|done]. cbn [st_put fst snd]. eapply inv_set_priced; [exact Hp0| |done].
    split; [done|]. intros h y Hy. left. apply (Hin h y Hy (remote_hash _ _ _ Hok Hy)).
    destruct (priced_all _ _ _ (inv_priced _ _ _ _ _ _ _ Hp0) h y Hy) as [|Hn]; [done|]. rewrite Hg in Hn. by apply not_elem_of_nil in Hn. }
  intros under. cbv beta. apply triple_check; [intros p [Hp _]; by split; [left|]|].
  apply triple_get. intros p1 [Hp1 Hall1]. assert (HcC1 : config p1 = sConfig F) by (by rewrite <- (inv_scene _ _ _ _ _ _ _ Hp1)).
  apply triple_check; [intros p ->; by split; [right|]|].
  destruct (Discard_spec (all p1) (Slots (all p0) - i64 limit + numSlots tx) isLocal (priced p1) Hwanted (priced_heaps _ _ _ (inv_priced _ _ _ _ _ _ _ Hp1)))
    as (drop & ok & l & Hrun & Hh & _ & Hd & Hfail & _ & Hin).
  rewrite Hall1 in Hrun |- *. rewrite Hrun. apply triple_lift_bind. cbv beta iota zeta.
  set (F' := giving (HashOfTx <$> drop) F).
  assert (Hp2 : inv F' None None A P Q (set_priced l p1)).
  { eapply inv_set_priced; [exact Hp1| |]; [|unfold F', giving; rewrite <- (inv_scene _ _ _ _ _ _ _ Hp1); done].
    split; [done|]. intros h y Hy. rewrite Hall1 in Hy. rewrite Hall1 in Hin. pose proof (remote_hash _ _ _ Hok Hy) as Hhy.
    destruct (Hin h y Hy Hhy) as [|Hdy]; [| by left|].
    - destruct (priced_all _ _ _ (inv_priced _ _ _ _ _ _ _ Hp1) h y) as [|Hn]; [by rewrite Hall1|done|]. rewrite Hg in Hn. by apply not_elem_of_nil in Hn.
    - right. rewrite <- Hhy. by apply list_elem_of_fmap_2. }
  apply triple_put_bind. destruct (negb isLocal && negb ok) eqn:Eok.
  { apply andb_true_iff in Eok as [_ Eok]. apply negb_true_iff in Eok. pose proof (Hfail Eok) as Hnil. intros p ->. cbn. split; [by right|].
    eapply (inv_complete _ _ _ _ _ _ _ (HashOfTx <$> drop)); [done|exact Hp2|]. rewrite Hnil. by intros b y _ ?%not_elem_of_nil. }
  cbn [st_fail_if]. apply triple_ret_bind.
  eapply triple_conseq with (P' := inv F' None None A P Q); [|by intros s ->|intros ? ? HQ; exact HQ|intros ? ? HE; exact HE].
  apply always_quiet; [by apply quiet_modify|]. intros [].
  eapply triple_conseq; [by apply (always_removeTxs F' false drop A P Q)|done| |by intros ? ? []].
  intros [] p (A' & P' & Q' & Hset' & Hsh & Hno & Hp). exists A', P', Q'. split; [done|]. split.
  - split; [apply Hsh| |apply Hsh].
    intros b y Hy Hn. pose proof (shrink_only _ _ _ _ _ Hsh b y Hy Hn) as Hin'. apply list_elem_of_fmap in Hin' as (x & Hxy & Hx).
    unfold wasRemote. rewrite Hxy, <- Hall1. unfold dropped_ok in Hd. rewrite list.Forall_forall in Hd. by apply Hd.
  - by eapply (inv_complete _ _ _ _ _ _ _ (HashOfTx <$> drop)).
Qed.

(** ** A new transaction *)

Definition withLocals (ls : gset Address) F : scene := mkScene (sConfig F) ls (sState F) (sGas F) (sGone F).

Lemma always_markLocal F A P Q from isLocal :
  always (inv F None None A P Q) (markLocal from isLocal) (fun _ => inv (withLocals (if isLocal : bool then {[from]} ∪ sLocals F else sLocals F) F) None None A P Q).
Proof.
  unfold markLocal. apply triple_get. intros p0 Hp0. assert (HL : locals p0 = sLocals F) by (by rewrite <- (inv_scene _ _ _ _ _ _ _ Hp0)).
  destruct isLocal; cbn [andb]; [|by intros p ->; destruct F]. rewrite HL. case_bool_decide as Hin; cbn [negb].
  { intros p ->. replace ({[from]} ∪ sLocals F) with (sLocals F) by set_solver. by destruct F. }
  set (F' := withLocals ({[from]} ∪ sLocals F) F).
  assert (Hp1 : inv F' None None A P Q (set_locals ({[from]} ∪ locals p0) p0)).
  { destruct Hp0 as [Is Ip Iq Ik Io Ir]. split; try done. unfold F'. destruct F. unfold sceneOf, withLocals in *. cbn in *. congruence. }
  eapply triple_conseq with (P' := fun p => p = p0); [|done|intros ? ? HQ; exact HQ|intros ? ? HE; exact HE].
  eapply triple_bind with (R := fun _ => inv F' None None A P Q); [intros p ->; cbn; rewrite HL in Hp1; exact Hp1|]. intros []. cbv beta.
  apply always_quiet; [apply quiet_tick|]. intros t. apply triple_get. intros p2 Hp2.
  destruct (RemoteToLocals_ok t (locals p2) (all p2) (proj1 (inv_knows _ _ _ _ _ _ _ Hp2))) as (Hok & Hget & Hsub).
  destruct (RemoteToLocals t (locals p2) (all p2)) as [migrated a]. cbn [snd] in *. apply triple_put_bind.
  eapply triple_conseq with (P' := inv F' None None A P Q); [apply quiet_removed| |done|done]. intros p ->.
  destruct Hp2 as [Is Ip Iq [_ Ik] Io [Hh Ha]]. split; try done.
  - split; [done|]. intros h tx. cbn [all set_all]. by rewrite Hget.
  - split; [done|]. intros h tx Htx. apply (Ha h tx). by apply Hsub.
Qed.

(** What the lookup knows after a transaction entered. *)
Record entered (gone : Transaction -> Prop) (tx : Transaction) A A' : Prop := {
  entered_in : tx ∈ A' (senderOf tx);
  entered_new : forall b y, y ∈ A' b -> y ∈ A b \/ y = tx;
  entered_out : forall b y, y ∈ A b -> y ∉ A' b -> gone y \/ (b = senderOf tx /\ TxNonce y = TxNonce tx);
}.

Lemma entered_insert (gone : Transaction -> Prop) tx a A P A1 P1 (c : list Transaction) : a = senderOf tx -> shrinks gone A P A1 P1 ->
  (forall y, y ∈ c <-> y = tx \/ (y ∈ A1 a /\ TxNonce y <> TxNonce tx)) -> entered gone tx A (<[a := c]> A1).
Proof.
  intros -> [Hk Ho _] Hc. split.
  - rewrite fn_lookup_insert, Hc. by left.
  - intros b y. destruct (decide (senderOf tx = b)) as [<-|Hne]; [rewrite fn_lookup_insert, Hc; naive_solver|rewrite fn_lookup_insert_ne by done; auto].
  - intros b y Hy Hn. destruct (decide (y ∈ A1 b)) as [Hy1|Hy1]; [|left; eauto]. right.
    destruct (decide (senderOf tx = b)) as [<-|Hne]; [|by rewrite fn_lookup_insert_ne in Hn]. split; [done|].
    destruct (decide (TxNonce y = TxNonce tx)) as [|Hne]; [done|]. exfalso. apply Hn. rewrite fn_lookup_insert, Hc. by right.
Qed.

(** The result of [add]: the pool stays whole; an error leaves its content as it
    is, but that room may have been made before a replacement is refused. *)
Definition add_post F A P (p0 : Pool) (tx : Transaction) (isLocal : bool) (out : res bool * Pool) : Prop :=
  match out with
  | (Ok _, p) => exists A' P' Q',
      inv (withLocals (locals p) F) None None A' P' Q' p /\ settled A' P' Q' /\ entered (wasRemote p0) tx A A' /\
      (isLocal = false -> locals p = locals p0) /\ (forall a, a ∈ locals p0 -> a ∈ locals p) /\ SenderOfTx tx = Ok (senderOf tx)
  | (Err e, p) => exists A' P' Q', inv F None None A' P' Q' p /\ settled A' P' Q' /\ shrinks (wasRemote p0) A P A' P' /\
      (e <> ErrReplaceUnderpriced -> A' = A)
  | (Panic, _) => False
  end.

Lemma withLocals_same F : withLocals (sLocals F) F = F.
Proof. by destruct F. Qed.

Lemma unknown_shrinks g A P A' P' h : unknown A h -> shrinks g A P A' P' -> unknown A' h.
Proof. intros Hu [Hk _ _] y Hy Hin. by apply (Hu y Hy), Hk. Qed.

Lemma insert_split_elem A P Q a tx : settled A P Q -> owned A ->
  (TxNonce tx ∉ TxNonce <$> P a -> forall y, y ∈ P a ++ insertTx tx (Q a) <-> y = tx \/ (y ∈ A a /\ TxNonce y <> TxNonce tx)) /\
  (TxNonce tx ∈ TxNonce <$> P a -> forall y, y ∈ insertTx tx (P a) ++ Q a <-> y = tx \/ (y ∈ A a /\ TxNonce y <> TxNonce tx)).
Proof.
  intros Hset Ho. destruct (owned_parts A a _ Ho (Hset a)) as [Hnd _]. rewrite fmap_app in Hnd. apply list.NoDup_app in Hnd as (_ & Hd & _).
  split; intros Hn y; rewrite (Hset a), !elem_of_app, elem_insertTx.
  - split; [|tauto]. intros [Hy|[->|[Hy Hne]]]; [right|by left|by right; split; [right|]]. split; [by left|]. intros He.
    apply Hn. rewrite <- He. by apply list_elem_of_fmap_2.
  - split; [|tauto]. intros [[->|[Hy Hne]]|Hy]; [by left|by right; split; [left|]|right]. split; [by right|]. intros He.
    apply (Hd (TxNonce tx) Hn). rewrite <- He. by apply list_elem_of_fmap_2.
Qed.

Lemma validateTx_keeps tx isLocal : st_keeps (fun p => (all p, locals p)) (validateTx tx isLocal).
Proof.
  unfold validateTx, extraValidate, validSender. apply st_keeps_bind; [apply st_keeps_get|intros p].
  do 8 (apply st_keeps_bind; [apply st_keeps_fail_if|intros []]). apply st_keeps_bind; [by destruct (SenderOfTx tx)|intros from].
  do 3 (apply st_keeps_bind; [apply st_keeps_fail_if|intros []]). apply st_keeps_bind; [apply st_keeps_lift|intros g].
  apply st_keeps_bind; [apply st_keeps_fail_if|intros []]. apply st_keeps_bind; [apply st_keeps_get|intros p1]. apply st_keeps_if; [|done].
  apply st_keeps_bind; [done|intros t]. destruct (exValidateTx _ _ _ _ _); [done| |done]. by case_decide.
Qed.

(** The second half of [add], once there is room. *)
Lemma enter_spec F A A1 P P1 Q1 tx isLocal treatLocal p0 p1 : sGone F = [] -> settled A1 P1 Q1 -> inv F None None A1 P1 Q1 p1 ->
  shrinks (wasRemote p0) A P A1 P1 -> locals p0 = sLocals F -> SenderOfTx tx = Ok (senderOf tx) -> is_u64 (TxNonce tx) -> unknown A1 (HashOfTx tx) ->
  add_post F A P p0 tx isLocal
    ((if match pending p1 !! senderOf tx with Some l => Overlaps tx l | None => false end then replacePending (senderOf tx) tx treatLocal
      else replaced ← enqueueTx (HashOfTx tx) tx treatLocal true; _ ← markLocal (senderOf tx) isLocal; _ ← journalTx (senderOf tx) tx; mret replaced) p1).
Proof.
  intros Hg Hset Hp1 Hsh HL Hs Hu Hunk. pose proof (inv_owned _ _ _ _ _ _ _ Hp1) as Ho. set (a := senderOf tx) in *.
  destruct (insert_split_elem A1 P1 Q1 a tx Hset Ho) as [Hq Hpd].
  assert (Hov : match pending p1 !! a with Some l => Overlaps tx l | None => false end = bool_decide (TxNonce tx ∈ TxNonce <$> P1 a)).
  { pose proof (inv_pending _ _ _ _ _ _ _ Hp1 a) as Ha. destruct (pending p1 !! a) as [l|].
    - apply overlaps_in. tauto.
    - destruct Ha as [-> _]. by rewrite bool_decide_eq_false_2 by apply not_elem_of_nil. }
  rewrite Hov. case_bool_decide as Hin.
  - pose proof (triple_replacePending F A1 P1 Q1 a tx treatLocal Hs Hu Hset Hin Hunk p1 Hp1) as Hr.
    destruct (replacePending a tx treatLocal p1) as [[b|e|] p]; [|destruct Hr as [-> Hp]; exists A1, P1, Q1; done|done].
    destruct Hr as [_ Hp]. assert (HL2 : locals p = sLocals F) by (by rewrite <- (inv_scene _ _ _ _ _ _ _ Hp)).
    cbn [add_post]. rewrite HL2, HL, withLocals_same. eexists _, _, _. split; [exact Hp|]. split; [by apply settled_pending|].
    split; [by eapply entered_insert; [|exact Hsh|apply Hpd]|]. done.
  - pose proof (triple_enqueueTx F A1 P1 Q1 a tx treatLocal Hs Hu Hset Hin Hunk p1 Hp1) as Hr. unfold mbind at 1, st_bind at 1.
    destruct (enqueueTx (HashOfTx tx) tx treatLocal true p1) as [[b|e|] p2]; [|destruct Hr as (-> & _ & Hp); exists A1, P1, Q1; done|done].
    set (A2 := <[a := P1 a ++ insertTx tx (Q1 a)]> A1) in *. set (Q2 := <[a := insertTx tx (Q1 a)]> Q1) in *.
    assert (Hend : always (inv F None None A2 P1 Q2) (_ ← markLocal a isLocal; _ ← journalTx a tx; mret b)
      (fun _ => inv (withLocals (if isLocal then {[a]} ∪ sLocals F else sLocals F) F) None None A2 P1 Q2)).
    { eapply always_bind; [apply always_markLocal|]. intros []. cbv beta. apply always_quiet; [apply quiet_journalTx|]. by intros [] p Hp. }
    specialize (Hend p2 Hr). destruct ((_ ← markLocal a isLocal; _) p2) as [[b'|e|] p]; [|done|done].
    assert (HL2 : locals p = if isLocal then {[a]} ∪ sLocals F else sLocals F) by exact (f_equal sLocals (inv_scene _ _ _ _ _ _ _ Hend)).
    cbn [add_post]. rewrite HL2, HL. exists A2, P1, Q2. split; [exact Hend|]. split; [by apply settled_queue|].
    split; [by eapply entered_insert; [|exact Hsh|apply Hq]|]. split; [by intros ->|]. split; [|done]. intros x Hx. destruct isLocal; set_solver.
Qed.

Lemma add_spec F A P Q tx isLocal p0 : sGone F = [] -> config_ok (sConfig F) -> settled A P Q -> inv F None None A P Q p0 -> is_u64 (TxNonce tx) ->
  add_post F A P p0 tx isLocal (add tx isLocal p0).
Proof.
  intros Hg Hc Hset Hp0 Hu. assert (HL : locals p0 = sLocals F) by (by rewrite <- (inv_scene _ _ _ _ _ _ _ Hp0)).
  assert (Hsame : forall e p, inv F None None A P Q p -> add_post F A P p0 tx isLocal (Err e, p)).
  { intros e p Hp. exists A, P, Q. split; [done|]. split; [done|]. split; [apply shrinks_refl|done]. }
  unfold add, mbind, st_bind, st_get. cbv beta iota zeta.
  destruct (Lookup.Get (HashOfTx tx) (all p0)) eqn:Ek; [exact (Hsame _ _ Hp0)|].
  unfold st_fail_if, mret, st_ret. cbv beta iota.
  pose proof (proj1 (unknown_get _ _ _ (inv_knows _ _ _ _ _ _ _ Hp0)) Ek) as Hunk.
  set (treatLocal := isLocal || containsTx (locals p0) tx).
  pose proof (triple_validateTx F None None A P Q tx treatLocal p0 Hp0) as Hv. pose proof (validateTx_keeps tx treatLocal p0) as Hkeep.
  destruct (validateTx tx treatLocal p0) as [[[]|e|] p1]; [|by apply Hsame|done]. destruct Hv as [Hs Hp1]. injection Hkeep as Hall HL1.
  pose proof (makeRoom_spec F A P Q tx treatLocal p1 Hg Hc Hset Hp1) as Hm.
  destruct (makeRoom tx treatLocal p1) as [[[]|e|] p2]; [|by apply Hsame, Hm|done]. destruct Hm as (A1 & P1 & Q1 & Hset1 & Hsh & Hp2).
  assert (Hsh0 : shrinks (wasRemote p0) A P A1 P1).
  { destruct Hsh as [Hk Hout Hpp]. split; [done| |done]. intros b y Hy Hn. unfold wasRemote. rewrite <- Hall. exact (Hout b y Hy Hn). }
  apply enter_spec with (A1 := A1) (P1 := P1) (Q1 := Q1); try done. by eapply unknown_shrinks.
Qed.
End Handlers.

(** ** The pool between its methods

    [whole] is the invariant a client sees, with a bound on the number of known
    transactions; [frame] are the fields no method spoils. *)

Section Whole.
Context {St : Type} `{AccountState St} `{TxSigning} `{TxSize} `{Runtime} `{ExTxValidator St}.
Implicit Types (p : TxPool St) (A P Q : store) (op oq : option Address) (F : scene (St:=St)).
Abbreviation Pool := (TxPool St).

(** ** How many transactions are known *)

Definition few (n : Z) A : Prop := forall l, NoDup (HashOfTx <$> l) -> (forall y, y ∈ l -> y ∈ A (senderOf y)) -> zlen l <= n.

Lemma few_mono n m A A' : few n A -> n <= m -> (forall b y, y ∈ A' b -> y ∈ A b) -> few m A'.
Proof. intros Hf Hn Hs l Hnd Hl. specialize (Hf l Hnd (fun y Hy => Hs _ _ (Hl y Hy))). lia. Qed.

Lemma few_nonneg n A : few n A -> 0 <= n.
Proof. intros Hf. apply (Hf []); [constructor|]. by intros y ?%not_elem_of_nil. Qed.

Lemma few_more n A A' tx : few n A -> (forall b y, y ∈ A' b -> y ∈ A b \/ y = tx) -> few (n + 1) A'.
Proof.
  intros Hf Hs l Hnd Hl. set (l' := filter (fun y => y <> tx) l).
  assert (Hl' : zlen l' <= n).
  { apply Hf.
    - unfold l'. eapply sublist_NoDup; [exact Hnd|]. apply fmap_sublist, sublist_filter.
    - intros y [Hne Hy]%list_elem_of_filter. by destruct (Hs _ _ (Hl y Hy)). }
  assert (Hle : zlen l <= zlen l' + 1); [|lia]. clear Hl' Hl Hf. unfold l', zlen. clear l'. induction l as [|x l IH]; [cbn; lia|].
  rewrite fmap_cons in Hnd. apply list.NoDup_cons in Hnd as [Hx Hnd]. rewrite filter_cons. case_decide as Hd; cbn [length]; [specialize (IH Hnd); lia|].
  assert (x = tx) as -> by (destruct (decide (x = tx)); [done|by destruct Hd]). clear IH.
  replace (filter (fun y => y <> tx) l) with l; [lia|]. symmetry. apply filter_every, list.Forall_forall. intros y Hy ->. by apply Hx, list_elem_of_fmap_2.
Qed.

(** ** The pool between methods *)

Definition whole (C : TxPoolConfig) (n : Z) p : Prop :=
  exists F A P Q, sGone F = [] /\ sConfig F = C /\ few n A /\ settled A P Q /\ inv F None None A P Q p.

Lemma whole_make C n F A P Q p : sGone F = [] -> sConfig F = C -> few n A -> settled A P Q -> inv F None None A P Q p -> whole C n p.
Proof. intros. by exists F, A, P, Q. Qed.

Lemma whole_config C n p : whole C n p -> config p = C.
Proof. intros (F & A & P & Q & _ & <- & _ & _ & Hp). exact (f_equal sConfig (inv_scene _ _ _ _ _ _ _ Hp)). Qed.

Lemma whole_mono C n m p : whole C n p -> n <= m -> whole C m p.
Proof. intros (F & A & P & Q & Hg & HC & Hf & Hset & Hp) Hn. exists F, A, P, Q. split; [done|]. split; [done|]. split; [by eapply few_mono|done]. Qed.

Lemma whole_ok C n p : whole C n p -> pool_ok p.
Proof. intros (F & A & P & Q & Hg & _ & _ & Hset & Hp). by exists F, A, P, Q. Qed.

(** A method proved on the stores that makes nothing known. *)
Lemma whole_always {X} C n (m : ST Pool X) (R : X -> Pool -> Prop) :
  (forall F A P Q, sGone F = [] -> sConfig F = C -> few n A -> settled A P Q -> always (inv F None None A P Q) m R) -> always (whole C n) m R.
Proof. intros Hm p (F & A & P & Q & Hg & HC & Hf & Hset & Hp). by apply (Hm F A P Q). Qed.

Lemma quiet_whole {X} C n (m : ST Pool X) : quiet m -> always (whole C n) m (fun _ => whole C n).
Proof.
  intros Hm. apply whole_always. intros F A P Q Hg HC Hf Hset. eapply triple_conseq; [apply (Hm F None None A P Q)|done| |done].
  intros x p Hp. by eapply whole_make.
Qed.

Lemma whole_quiet {X Y} C n (m : ST Pool X) (f : X -> ST Pool Y) R E : quiet m ->
  (forall x, triple (whole C n) (f x) R E) -> triple (whole C n) (m ≫= f) R E.
Proof. intros Hm Hf. eapply always_bind; [by apply quiet_whole|exact Hf]. Qed.

Lemma removeTxs_whole C n outofbound hs : always (whole C n) (st_each (fun tx => removeTx (HashOfTx tx) outofbound) hs) (fun _ => whole C n).
Proof.
  apply whole_always. intros F A P Q Hg HC Hf Hset. eapply triple_conseq; [by apply always_removeTxs|done| |done].
  intros [] p (A' & P' & Q' & Hset' & Hsh & _ & Hp). eapply whole_make; [done|done| |exact Hset'|exact Hp]. eapply few_mono; [exact Hf|lia|apply Hsh].
Qed.

Lemma removed_whole C n k : always (whole C n) (removed k) (fun _ => whole C n).
Proof. apply quiet_whole, quiet_removed. Qed.

Context `{!PoolLaws (St:=St)}.

Lemma add_whole C n tx isLocal : config_ok C -> is_u64 (TxNonce tx) ->
  triple (whole C n) (add tx isLocal) (fun _ p => SenderOfTx tx = Ok (senderOf tx) /\ whole C (n + 1) p) (fun _ => whole C n).
Proof.
  intros Hc Hu p (F & A & P & Q & Hg & HC & Hf & Hset & Hp). rewrite <- HC in Hc. pose proof (add_spec F A P Q tx isLocal p Hg Hc Hset Hp Hu) as Hpost.
  unfold add_post in Hpost. destruct (add tx isLocal p) as [[b|e|] p']; [| |done].
  - destruct Hpost as (A' & P' & Q' & Hp' & Hset' & He & _ & _ & Hs). split; [done|]. eapply whole_make; [| | |exact Hset'|exact Hp']; [done|done|].
    eapply few_more; [exact Hf|apply He].
  - destruct Hpost as (A' & P' & Q' & Hp' & Hset' & Hsh & _). eapply whole_make; [| | |exact Hset'|exact Hp']; [done|done|].
    eapply few_mono; [exact Hf|lia|apply Hsh].
Qed.

Lemma addTxsLocked_whole C isLocal : config_ok C -> forall txs n, Forall (fun tx => is_u64 (TxNonce tx)) txs ->
  always (whole C n) (addTxsLocked txs isLocal) (fun r p => length r.1 = length txs /\ whole C (n + zlen txs) p).
Proof.
  intros Hc txs. induction txs as [|tx txs IH]; intros n Hu; [intros p Hp; split; [done|]; eapply whole_mono; [done|]; unfold zlen; cbn; lia|].
  apply list.Forall_cons in Hu as [Hu Hus]. cbn [addTxsLocked].
  eapply triple_bind with (R := fun _ => whole C (n + 1)).
  { apply triple_catch. eapply triple_conseq; [by apply add_whole|done| |].
    - intros b p [_ Hp]. exact Hp.
    - intros e p Hp. eapply whole_mono; [exact Hp|lia]. }
  intros r. cbv beta. eapply always_bind; [by apply IH|]. intros [errs dirty] p [Hlen Hp]. cbn [fst snd] in *. split; [cbn; by f_equal|].
  eapply whole_mono; [exact Hp|]. unfold zlen. cbn [length]. lia.
Qed.
End Whole.
