(* ===== verification/TxPoolAccounts.v ===== *)
(** * Whole accounts (core/tx_pool.go)

    What [promoteExecutables] and [demoteUnexecutables] do to an account and to
    the pool. *)

From S2P Require Import Prelude Heap Hoare Float Params Types Misc Snapshot StateIface StateTransition Signing Finalize TxQueue TxPrices.
From S2P Require Import TxSortedMap TxList TxPoolState TxPool TxPoolReorg TxPricesFacts TxListFacts TxListHolds TxPoolFacts TxPoolMethods TxPoolHandlers.
From stdpp Require Import functions.
Import Noncer AccountList Lookup Priced Pool PoolOps PoolReorg.

(** ** What no method of the pool spoils (core/tx_pool.go)

    Only [reset] changes the state the pool works on; the configuration of the
    chain stays, and the events that wait for the next reorganisation have no
    cached sorting. *)

(** Events as [queueTxEvent] collects them. *)
Definition unsorted (events : gmap Address SortedMap.txSortedMap) : Prop := map_Forall (fun _ m => SortedMap.cache m = None) events.

Section Frame.
Context {St : Type} `{AccountState St} `{TxSigning} `{TxSize} `{Runtime} `{ExTxValidator St}.
Implicit Types p : TxPool St.
Abbreviation Pool := (TxPool St).

Definition frame (cc : ChainConfig) p : Prop := chainconfig p = cc /\ unsorted (queuedEvents p).

(** The state, and the gas limit, of the block the pool works on. *)
Definition headOf p : St * Z := (currentState p, currentMaxGas p).

(** An invariant of these fields alone. *)
Class Framed (I : Pool -> Prop) : Prop := framed_same : forall p p', I p ->
  chainconfig p' = chainconfig p -> headOf p' = headOf p -> (unsorted (queuedEvents p) -> unsorted (queuedEvents p')) -> I p'.

#[export] Instance frame_framed cc : Framed (frame cc).
Proof. intros p p' [<- Hf] Hc _ He. split; [done|]. by apply He. Qed.
#[export] Instance head_framed h : Framed (fun p => headOf p = h).
Proof. by intros p p' <-. Qed.

Context (I : Pool -> Prop) `{!Framed I}.

Lemma frame_keeps {A} (m : ST Pool A) :
  (forall p, chainconfig (m p).2 = chainconfig p /\ headOf (m p).2 = headOf p /\ queuedEvents (m p).2 = queuedEvents p) -> preserves I m.
Proof. intros Hm p Hp. destruct (Hm p) as (Hc & Hh & He). eapply framed_same; [exact Hp|exact Hc|exact Hh|]. by rewrite He. Qed.

Lemma frame_same p p' : I p -> chainconfig p' = chainconfig p -> headOf p' = headOf p -> queuedEvents p' = queuedEvents p -> I p'.
Proof. intros Hp Hc Hh He. eapply framed_same; [exact Hp|exact Hc|exact Hh|]. by rewrite He. Qed.

Lemma frame_modify (f : Pool -> Pool) :
  (forall p, chainconfig (f p) = chainconfig p /\ headOf (f p) = headOf p /\ queuedEvents (f p) = queuedEvents p) -> preserves I (st_modify f).
Proof. intros Hf. by apply frame_keeps. Qed.

Lemma frame_on_pending {X} a (f : txList -> res (X * txList)) : preserves I (on_pending a f).
Proof. apply frame_keeps. intros p. unfold on_pending. destruct (pending p !! a) as [l|]; [|done]. by destruct (f l) as [[x l']|e|]. Qed.
Lemma frame_on_queue {X} a (f : txList -> res (X * txList)) : preserves I (on_queue a f).
Proof. apply frame_keeps. intros p. unfold on_queue. destruct (queue p !! a) as [l|]; [|done]. by destruct (f l) as [[x l']|e|]. Qed.
Lemma frame_pendingLen a : preserves I (pendingLen a).
Proof. apply frame_keeps. intros p. unfold pendingLen. by destruct (pending p !! a). Qed.
Lemma frame_tick : preserves I tick.
Proof. by apply frame_keeps. Qed.
Lemma frame_getNonce a : preserves I (getNonce a).
Proof. apply frame_keeps. intros p. unfold getNonce. by destruct (Noncer.get a (pendingNonces p)). Qed.

Lemma frame_queueTxEvent tx : preserves I (queueTxEvent tx).
Proof.
  intros p Hp. eapply framed_same; [exact Hp|done..|]. intros Hf. cbn [st_modify queueTxEvent snd queuedEvents set_queuedEvents].
  by apply map_Forall_insert_2.
Qed.
(** The events are taken out for a reorganisation. *)
Lemma frame_takeEvents : preserves I (st_modify (fun p => set_queuedEvents ∅ p)).
Proof. intros p Hp. eapply framed_same; [exact Hp|done..|]. intros _. apply map_Forall_empty. Qed.
End Frame.

#[export] Hint Resolve frame_on_pending frame_on_queue frame_pendingLen frame_tick frame_getNonce frame_queueTxEvent frame_takeEvents : frame.
#[export] Hint Extern 0 (Framed _) => exact _ : frame.

(** The steps that change a field at the end of a method. *)
Ltac frame_field :=
  match goal with
  | |- preserves _ (st_modify _) => apply frame_modify; [exact _|intros ?; repeat case_match; done]
  | |- preserves _ (st_put _) => apply preserves_put; eapply frame_same; [exact _|eassumption|done..]
  end.
Ltac frame_auto := repeat first [solve [auto with frame] | frame_field | frame_step].

Section Methods.
Context {St : Type} `{AccountState St} `{TxSigning} `{TxSize} `{Runtime} `{ExTxValidator St}.
Implicit Types p : TxPool St.
Abbreviation Pool := (TxPool St).
Context (I : Pool -> Prop) `{!Framed I}.

Lemma frame_ticks4 : preserves I ticks4.
Proof. unfold ticks4. frame_auto. Qed.
Lemma frame_removed n : preserves I (removed n).
Proof. unfold removed. frame_auto. Qed.
Lemma frame_forget h : preserves I (forget h).
Proof. unfold forget. frame_auto. Qed.
#[local] Hint Resolve frame_ticks4 frame_removed frame_forget : frame.
Lemma frame_enqueueTx h tx isLocal addAll : preserves I (enqueueTx h tx isLocal addAll).
Proof. unfold enqueueTx, addToQueue, dropOld, know, price, beat. frame_auto. Qed.
Lemma frame_promoteTx a h tx : preserves I (promoteTx a h tx).
Proof. unfold promoteTx, addToPending, dropOld, setNonce, beat. frame_auto. Qed.
#[local] Hint Resolve frame_enqueueTx frame_promoteTx : frame.
Lemma frame_removeTx h o : preserves I (removeTx h o).
Proof. unfold removeTx, removePending, dropEmptyPending, dropEmptyQueue, requeue, lowerNonce. frame_auto. Qed.
#[local] Hint Resolve frame_removeTx : frame.
Lemma frame_validateTx tx isLocal : preserves I (validateTx tx isLocal).
Proof. unfold validateTx, extraValidate, validSender. frame_auto. Qed.
Lemma frame_makeRoom tx isLocal : preserves I (makeRoom tx isLocal).
Proof. unfold makeRoom. frame_auto. Qed.
#[local] Hint Resolve frame_validateTx frame_makeRoom : frame.
Lemma frame_add tx isLocal : preserves I (add tx isLocal).
Proof. unfold add, replacePending, markLocal, addToPending, dropOld, know, price, beat, journalTx. frame_auto. Qed.
#[local] Hint Resolve frame_add : frame.
Lemma frame_addTxsLocked isLocal : forall l, preserves I (addTxsLocked l isLocal).
Proof. induction l as [|tx l IH]; cbn [addTxsLocked]; frame_auto. Qed.
Lemma frame_promoteAccount a : preserves I (promoteAccount a).
Proof. unfold promoteAccount, pruneQueue, promoteReady, capQueue, dropEmptyQueue, forgetTx. frame_auto. Qed.
Lemma frame_demoteAccount a : preserves I (demoteAccount a).
Proof. unfold demoteAccount, prunePending, demoteGapped, dropEmptyPending, forgetTx, requeue. frame_auto. Qed.
#[local] Hint Resolve frame_addTxsLocked frame_promoteAccount frame_demoteAccount : frame.
Lemma frame_promoteExecutables l : preserves I (promoteExecutables l).
Proof. unfold promoteExecutables. frame_auto. Qed.
Lemma frame_demoteUnexecutables : preserves I demoteUnexecutables.
Proof. unfold demoteUnexecutables. frame_auto. Qed.

Lemma frame_dropRound l n : preserves I (dropRound l n).
Proof. unfold dropRound, dropLast, forgetTx, lowerNonce. frame_auto. Qed.
#[local] Hint Resolve frame_dropRound : frame.
Lemma frame_equalize : forall fuel l a t n, preserves I (equalize fuel l a t n).
Proof. induction fuel as [|fuel IH]; intros l a t n; cbn [equalize]; frame_auto. Qed.
Lemma frame_reduce : forall fuel l a n, preserves I (reduce fuel l a n).
Proof. induction fuel as [|fuel IH]; intros l a n; cbn [reduce]; frame_auto. Qed.
#[local] Hint Resolve frame_equalize frame_reduce : frame.
Lemma frame_collectOffenders : forall fuel q l n, preserves I (collectOffenders fuel q l n).
Proof. induction fuel as [|fuel IH]; intros q l n; cbn [collectOffenders]; frame_auto. Qed.
#[local] Hint Resolve frame_collectOffenders : frame.
Lemma frame_truncatePending : preserves I truncatePending.
Proof. unfold truncatePending. frame_auto. Qed.

Lemma frame_flattenQueue a : preserves I (flattenQueue a).
Proof. unfold flattenQueue. frame_auto. Qed.
Lemma frame_flattenPending a : preserves I (flattenPending a).
Proof. unfold flattenPending. frame_auto. Qed.
#[local] Hint Resolve frame_flattenQueue frame_flattenPending : frame.
Lemma frame_dropOldest : forall l n, preserves I (dropOldest l n).
Proof. induction l as [|[a t] l IH]; intros n; cbn [dropOldest]; frame_auto. Qed.
#[local] Hint Resolve frame_dropOldest : frame.
Lemma frame_truncateQueue : preserves I truncateQueue.
Proof. unfold truncateQueue. frame_auto. Qed.
Lemma frame_evict : preserves I evict.
Proof. unfold evict, evictAccount. frame_auto. Qed.
Lemma frame_SetGasPrice n : preserves I (SetGasPrice n).
Proof. unfold SetGasPrice. frame_auto. Qed.
Lemma frame_staleEvents a events : preserves I (staleEvents a events).
Proof. unfold staleEvents. frame_auto. Qed.
#[local] Hint Resolve frame_staleEvents : frame.
Lemma frame_cleanEvents : forall l events, preserves I (cleanEvents l events).
Proof. induction l as [|a l IH]; intros events; cbn [cleanEvents]; frame_auto. Qed.
Lemma frame_lastNonces : forall l, preserves I (lastNonces l).
Proof. induction l as [|a l IH]; cbn [lastNonces]; frame_auto. Qed.
Lemma frame_flattenEvents : forall l, preserves I (flattenEvents l).
Proof. induction l as [|[a m] l IH]; cbn [flattenEvents]; frame_auto. Qed.
Lemma frame_pendingOf b : forall l, preserves I (pendingOf b l).
Proof. induction l as [|a l IH]; cbn [pendingOf]; frame_auto. Qed.
#[local] Hint Resolve frame_promoteExecutables frame_demoteUnexecutables frame_truncatePending frame_truncateQueue frame_cleanEvents frame_lastNonces frame_flattenEvents : frame.
Lemma frame_settleReset h : preserves I (settleReset h).
Proof. unfold settleReset. frame_auto. Qed.
#[local] Hint Resolve frame_settleReset : frame.
(** What follows the reset, and the rest of the reorganisation. *)
Lemma frame_runReorg `{Crypto} `{!PoolChain St} oob request dirty :
  match request with Some (oldHead, newHead) => preserves I (reset oob oldHead newHead) | None => True end -> preserves I (runReorg oob request dirty).
Proof. intros Hr. unfold runReorg. destruct request as [[oldHead newHead]|]; frame_auto. Qed.
End Methods.

Lemma frame_reset {St : Type} `{AccountState St} `{TxSigning} `{TxSize} `{Runtime} `{ExTxValidator St} `{Crypto} `{!PoolChain St} oob cc oldHead newHead :
  preserves (frame (St:=St) cc) (reset oob oldHead newHead).
Proof.
  unfold reset, onHead, makeFakeHeader.
  repeat first [solve [auto using frame_addTxsLocked with frame] | frame_field | frame_step | (apply preserves_modify; by intros ?)].
Qed.

#[export] Hint Resolve frame_addTxsLocked frame_promoteExecutables frame_demoteUnexecutables frame_truncatePending frame_truncateQueue frame_evict
  frame_SetGasPrice frame_cleanEvents frame_lastNonces frame_flattenEvents frame_pendingOf frame_flattenQueue frame_flattenPending frame_removed : frame.

#[local] Open Scope Z_scope.
Import Noncer AccountList Lookup LookupFacts Priced PricedFacts Pool PoolOps.

Section Accounts.
Context {St : Type} `{AccountState St} `{TxSigning} `{TxSize} `{Runtime} `{ExTxValidator St} `{!PoolLaws (St:=St)}.
Implicit Types (p : TxPool St) (A P Q : store) (op oq : option Address) (F : scene (St:=St)).
Abbreviation Pool := (TxPool St).

(** ** Promotion *)

Lemma fn_insert_id P (a : Address) b : (<[a := P a]> P) b = P b.
Proof. destruct (decide (a = b)) as [<-|Hne]; [by rewrite fn_lookup_insert|by rewrite fn_lookup_insert_ne]. Qed.

(** The ready transactions, on their way to the pending list. *)
Lemma always_promotes F oq A Q a : forall xs P, Forall (valid a) xs -> NoDup (TxNonce <$> xs ++ P a) ->
  always (inv F None oq A P Q)
    (st_collect (fun o => match o with
                          | None => st_panic
                          | Some tx => b ← promoteTx a (HashOfTx tx) tx; mret (if (b : bool) then [tx] else [])
                          end) (Some <$> xs))
    (fun promoted p => promoted = xs /\ exists c, c ≡ₚ xs ++ P a /\ inv F None oq A (<[a := c]> P) Q p).
Proof.
  induction xs as [|x xs IH]; intros P Hv Hnd.
  - intros p Hp. split; [done|]. exists (P a). split; [done|]. eapply inv_ext; [exact Hp|done| |done]. intros b. apply fn_insert_id.
  - csimpl. cbn [st_collect app] in *. rewrite fmap_cons in Hnd. apply list.NoDup_cons in Hnd as [Hx Hnd]. apply list.Forall_cons in Hv as [[Hs Hu] Hv].
    rewrite fmap_app, not_elem_of_app in Hx. destruct Hx as [Hxs HxP]. pose proof (insertTx_perm x (P a) HxP) as Hins.
    eapply always_bind with (R := fun y p => y = [x] /\ inv F None oq A (<[a := insertTx x (P a)]> P) Q p).
    { eapply always_bind; [by apply always_promoteTx|]. intros b. cbv beta. apply triple_pure. by intros -> p Hp. }
    intros y. cbv beta. apply triple_pure. intros ->. eapply always_bind; [apply (IH (<[a := insertTx x (P a)]> P) Hv)|].
    { rewrite fn_lookup_insert, Hins, <- Permutation_middle, fmap_cons. apply list.NoDup_cons. rewrite fmap_app, not_elem_of_app.
      split; [done|]. by rewrite <- fmap_app. }
    intros ys'. cbv beta. apply triple_pure. intros ->. intros p (c & Hc & Hp). split; [done|]. exists c. split.
    + rewrite Hc, fn_lookup_insert, Hins. symmetry. apply Permutation_middle.
    + eapply inv_ext; [exact Hp|done| |done]. intros b. by rewrite insert_twice_ext.
Qed.

(** Only the account [a] changed, and nothing new is known. *)
Record account_step (a : Address) A P Q A' P' Q' : Prop := {
  step_known : forall b y, y ∈ A' b -> y ∈ A b;
  step_pending_same : forall b, b <> a -> P' b = P b;
  step_queue_same : forall b, b <> a -> Q' b = Q b;
}.

Lemma account_step_refl a A P Q : account_step a A P Q A P Q.
Proof. by split. Qed.
Lemma account_step_make a A P Q (e c d : list Transaction) : (forall y, y ∈ e -> y ∈ A a) ->
  account_step a A P Q (<[a := e]> A) (<[a := c]> P) (<[a := d]> Q).
Proof.
  intros He. split; intros b; [|by intros Hb; rewrite fn_lookup_insert_ne..]. intros y. destruct (decide (a = b)) as [<-|Hne].
  - rewrite fn_lookup_insert. apply He.
  - by rewrite fn_lookup_insert_ne.
Qed.

(** What the state can execute now or later. *)
Definition payable F (a : Address) (tx : Transaction) : Prop :=
  nonceOf (sState F) a <= TxNonce tx /\ Cost tx <= balanceOf (sState F) a /\ TxGas tx <= sGas F.

Lemma forward_payable F (a : Address) l kept strict_ : kept = keptTxs strict_ (tooDear (balanceOf (sState F) a) (sGas F)) l ->
  Forall (fun tx => nonceOf (sState F) a <= TxNonce tx) l -> Forall (payable F a) kept.
Proof.
  intros -> Hl. pose proof (kept_cheap strict_ (tooDear (balanceOf (sState F) a) (sGas F)) l) as Hc.
  pose proof (kept_Forall _ strict_ (tooDear (balanceOf (sState F) a) (sGas F)) l Hl) as Hn.
  rewrite !list.Forall_forall in *. intros x Hx. split; [by apply Hn|]. by apply within, Hc.
Qed.

(** The part of the promotion that drops what can never be executed. *)
Lemma always_pruneQueue F A P Q a : settled A P Q ->
  always (inv F None (Some a) A P Q) (pruneQueue a)
    (fun _ p => exists d, (forall y, y ∈ d -> y ∈ Q a /\ payable F a y) /\ inv F None (Some a) (<[a := P a ++ d]> A) P (<[a := d]> Q) p).
Proof.
  intros Hset. unfold pruneQueue. apply triple_get. intros p0 Hp0.
  rewrite (f_equal sState (inv_scene _ _ _ _ _ _ _ Hp0) : currentState p0 = sState F), (f_equal sGas (inv_scene _ _ _ _ _ _ _ Hp0) : currentMaxGas p0 = sGas F).
  eapply triple_conseq with (P' := inv F None (Some a) A P Q); [|by intros s ->|intros ? ? HQ; exact HQ|intros ? ? HE; exact HE].
  eapply always_bind.
  { apply (always_on_queue _ _ _ _ _ a _ (fun r c => exists fw, r = Some <$> fw /\ Q a ≡ₚ fw ++ c /\ Forall (fun tx => nonceOf (sState F) a <= TxNonce tx) c)). intros l Hh Hst.
    destruct (Forward_holds (nonceOf (sState F) a) l (Q a) Hh) as (l' & Hrun & Hh' & Hs'). eexists _, l', _. split; [exact Hrun|].
    split; [exact Hh'|]. split; [congruence|]. eexists. split; [done|].
    split; [apply reflexive_eq, filter_split; by apply (words_holds l)|]. apply list.Forall_forall. by intros x [Hx _]%list_elem_of_filter. }
  intros forwards. cbv beta. apply triple_exists. intros d1. apply triple_pure. intros (fw & -> & Hfw & Hnonce). rewrite each_some.
  eapply always_bind; [apply (always_forgets _ _ _ _ _ a fw A (P a ++ d1))|].
  { rewrite (Hset a), Hfw. solve_Permutation. }
  intros []. cbv beta. apply always_quiet; [apply quiet_ticks4|]. intros ts. eapply always_bind.
  { apply (always_on_queue _ _ _ _ _ a _ (fun r d => d1 ≡ₚ r.1 ++ d /\ Forall (payable F a) d)). rewrite fn_lookup_insert. intros l Hh Hst.
    pose proof (Filter_holds (rangeAt ts.1.1.1) (rangeAt ts.1.1.2) (rangeAt ts.1.2) (rangeAt ts.2) (balanceOf (sState F) a) (sGas F) l d1 Hh) as Hf.
    destruct (AccountList.Filter _ _ _ _ _ _ l) as [[drops invs] l']. cbv zeta in Hf. destruct Hf as (_ & Hperm & Hinv & Hh' & Hs' & _).
    eexists _, l', _. split; [done|]. split; [exact Hh'|]. split; [congruence|]. rewrite (Hinv Hst) in Hperm. split; [by symmetry|]. by eapply forward_payable. }
  intros dropinv. cbv beta. apply triple_exists. intros d. apply triple_pure. intros [Hd Hpay].
  eapply always_bind; [apply (always_forgets _ _ _ _ _ a dropinv.1 _ (P a ++ d))|].
  { rewrite fn_lookup_insert, Hd. solve_Permutation. }
  intros [] p Hp. exists d. rewrite list.Forall_forall in Hpay.
  split; [intros y Hy; split; [rewrite Hfw, Hd; set_solver|by apply Hpay]|]. eapply inv_ext; [exact Hp| |done|]; intros b; by rewrite insert_twice_ext.
Qed.

Lemma always_promoteReady F A P Q a : A a ≡ₚ P a ++ Q a ->
  always (inv F None (Some a) A P Q) (promoteReady a) (fun promoted p => exists c d, c ++ d ≡ₚ P a ++ Q a /\
    (forall y, y ∈ promoted -> y ∈ c) /\ (forall y, y ∈ d -> y ∈ Q a) /\ inv F None (Some a) A (<[a := c]> P) (<[a := d]> Q) p).
Proof.
  intros HA. apply triple_known. intros Ho _. destruct (owned_parts A a _ Ho HA) as [Hnd Hv]. unfold promoteReady.
  apply always_quiet; [apply quiet_getNonce|]. intros nonce. eapply always_bind.
  { apply (always_on_queue _ _ _ _ _ a _ (fun r d => exists rd, r = Some <$> rd /\ Q a = rd ++ d)). intros l Hh Hst.
    destruct (Ready_holds nonce l (Q a) Hh) as (l' & Hrun & Hh' & Hs'). eexists _, l', _. split; [exact Hrun|].
    split; [exact Hh'|]. split; [congruence|]. eexists. split; [done|]. apply readyTxs_prefix. }
  intros readies. cbv beta. apply triple_exists. intros d. apply triple_pure. intros (rd & -> & Hrd). rewrite Hrd in Hnd, Hv.
  eapply triple_conseq; [apply (always_promotes F (Some a) A (<[a := d]> Q) a rd P)|done| |done].
  - apply Forall_app in Hv as [_ Hv]. by apply Forall_app in Hv as [Hv _].
  - rewrite app_assoc, fmap_app in Hnd. apply list.NoDup_app in Hnd as [Hnd _]. by rewrite Permutation_app_comm.
  - intros promoted p [-> (c & Hc & Hp)]. exists c, d. split; [rewrite Hc, Hrd; solve_Permutation|].
    split; [intros y Hy; rewrite Hc; set_solver|]. split; [intros y Hy; rewrite Hrd; set_solver|]. done.
Qed.

Lemma always_capQueue F A P Q a : config_ok (sConfig F) -> A a ≡ₚ P a ++ Q a ->
  always (inv F None (Some a) A P Q) (capQueue a) (fun _ p => exists d, (forall y, y ∈ d -> y ∈ Q a) /\
    (a ∉ sLocals F -> zlen d <= AccountQueue (sConfig F)) /\ inv F None (Some a) (<[a := P a ++ d]> A) P (<[a := d]> Q) p).
Proof.
  intros Hc HA. unfold capQueue. apply triple_get. intros p0 Hp0. pose proof (inv_scene _ _ _ _ _ _ _ Hp0) as Hsc.
  rewrite (f_equal sLocals Hsc : locals p0 = sLocals F), (f_equal sConfig Hsc : config p0 = sConfig F).
  eapply triple_conseq with (P' := inv F None (Some a) A P Q); [|by intros s ->|intros ? ? HQ; exact HQ|intros ? ? HE; exact HE].
  case_bool_decide as Hin.
  { intros p Hp. exists (Q a). split; [done|]. split; [done|]. eapply inv_ext; [exact Hp| |done|intros b; apply fn_insert_id].
    intros b. destruct (decide (a = b)) as [<-|Hne]; [by rewrite fn_lookup_insert|by rewrite fn_lookup_insert_ne]. }
  destruct Hc as [_ _ _ _ Hq]. rewrite i64_small by lia. eapply always_bind.
  { apply (always_on_queue _ _ _ _ _ a _ (fun r d => exists cut, r = Some <$> cut /\ Q a ≡ₚ cut ++ d /\ zlen d <= AccountQueue (sConfig F))).
    intros l Hh Hst. destruct (Cap_holds (AccountQueue (sConfig F)) l (Q a)) as (l' & Hrun & Hh' & Hs'); [lia|done|].
    eexists _, l', _. split; [exact Hrun|]. split; [exact Hh'|]. split; [congruence|]. eexists. split; [done|].
    rewrite reverse_Permutation. split; [rewrite Permutation_app_comm; by rewrite take_drop|]. unfold zlen. rewrite length_take. lia. }
  intros caps. cbv beta. apply triple_exists. intros d. apply triple_pure. intros (cut & -> & Hcut & Hlen). rewrite each_some.
  eapply always_bind; [apply (always_forgets _ _ _ _ _ a cut A (P a ++ d))|].
  { rewrite HA, Hcut. solve_Permutation. }
  intros [] p Hp. exists d. split; [intros y Hy; rewrite Hcut; set_solver|]. split; [done|]. eapply inv_ext; [exact Hp|done|done|done].
Qed.

Lemma always_promoteAccount F A P Q a : config_ok (sConfig F) -> settled A P Q ->
  always (inv F None None A P Q) (promoteAccount a) (fun promoted p => exists A' P' Q', settled A' P' Q' /\ account_step a A P Q A' P' Q' /\
    (a ∉ sLocals F -> zlen (Q' a) <= AccountQueue (sConfig F)) /\ (forall y, y ∈ Q' a -> payable F a y) /\ (forall y, y ∈ promoted -> y ∈ P' a) /\ inv F None None A' P' Q' p).
Proof.
  intros Hc Hset. unfold promoteAccount. apply triple_get. intros p0 Hp0. pose proof (inv_queue _ _ _ _ _ _ _ Hp0 a) as Ha.
  destruct (queue p0 !! a) as [l|] eqn:E.
  2: { intros p ->. exists A, P, Q. split; [done|]. split; [apply account_step_refl|]. destruct Ha as [-> _].
       split; [destruct Hc; unfold zlen; cbn; lia|]. split; [by intros y ?%not_elem_of_nil|]. by split; [intros y ?%not_elem_of_nil|]. }
  eapply triple_conseq with (P' := inv F None (Some a) A P Q); [|intros s ->; apply inv_open_queue; [done|by rewrite E]|intros ? ? HQ; exact HQ|intros ? ? HE; exact HE].
  eapply always_bind; [by apply always_pruneQueue|]. intros pruned. cbv beta. apply triple_exists. intros d1. apply triple_pure. intros Hd1.
  eapply always_bind; [apply always_promoteReady; by rewrite !fn_lookup_insert|]. intros promoted. cbv beta.
  apply triple_exists. intros c. apply triple_exists. intros d2. apply triple_pure. intros Hperm. apply triple_pure. intros Hin. apply triple_pure. intros Hd2.
  rewrite fn_lookup_insert in Hperm, Hd2.
  eapply always_bind; [apply always_capQueue; [done|by rewrite !fn_lookup_insert]|]. intros caps. cbv beta.
  apply triple_exists. intros d3. apply triple_pure. intros Hd3. apply triple_pure. intros Hlen. rewrite fn_lookup_insert in Hd3.
  apply always_quiet; [apply quiet_removed|]. intros []. eapply always_bind; [apply always_dropEmptyQueue|]. intros [] p Hp.
  exists (<[a := c ++ d3]> A), (<[a := c]> P), (<[a := d3]> Q). split; [by apply settled_insert|]. split.
  { apply account_step_make. intros y Hy. rewrite (Hset a). apply elem_of_app in Hy as [Hy|Hy]; [|set_solver].
    assert (Hy' : y ∈ P a ++ d1) by (rewrite <- Hperm; set_solver). apply elem_of_app in Hy' as [?|?]; set_solver. }
  split; [by rewrite fn_lookup_insert|]. split; [rewrite fn_lookup_insert; intros y Hy; by apply Hd1, Hd2, Hd3|]. split; [by rewrite fn_lookup_insert|].
  eapply inv_ext; [exact Hp| | |]; intros b; rewrite ?insert_twice_ext; [by rewrite fn_lookup_insert| |]; done.
Qed.

(** ** Demotion *)

Lemma always_prunePending F A P Q a : settled A P Q ->
  always (inv F (Some a) None A P Q) (prunePending a) (fun _ p => exists c d,
    (forall y, y ∈ c ++ d -> y ∈ A a) /\ (forall y, y ∈ c -> y ∈ P a /\ payable F a y) /\
    inv F (Some a) None (<[a := c ++ d]> A) (<[a := c]> P) (<[a := d]> Q) p).
Proof.
  intros Hset. unfold prunePending. apply triple_known. intros Ho _. destruct (owned_parts A a _ Ho (Hset a)) as [Hnd Hv].
  apply triple_get. intros p0 Hp0.
  rewrite (f_equal sState (inv_scene _ _ _ _ _ _ _ Hp0) : currentState p0 = sState F), (f_equal sGas (inv_scene _ _ _ _ _ _ _ Hp0) : currentMaxGas p0 = sGas F).
  eapply triple_conseq with (P' := inv F (Some a) None A P Q); [|by intros s ->|intros ? ? HQ; exact HQ|intros ? ? HE; exact HE].
  eapply always_bind.
  { apply (always_on_pending _ _ _ _ _ a _ (fun r c => exists fw, r = Some <$> fw /\ P a ≡ₚ fw ++ c /\ Forall (fun tx => nonceOf (sState F) a <= TxNonce tx) c)). intros l Hh Hst.
    destruct (Forward_holds (nonceOf (sState F) a) l (P a) Hh) as (l' & Hrun & Hh' & Hs'). eexists _, l', _. split; [exact Hrun|].
    split; [exact Hh'|]. split; [congruence|]. eexists. split; [done|].
    split; [apply reflexive_eq, filter_split; by apply (words_holds l)|]. apply list.Forall_forall. by intros x [Hx _]%list_elem_of_filter. }
  intros forwards. cbv beta. apply triple_exists. intros c1. apply triple_pure. intros (fw & -> & Hfw & Hnonce). rewrite each_some.
  eapply always_bind; [apply (always_forgets _ _ _ _ _ a fw A (c1 ++ Q a))|].
  { by rewrite (Hset a), Hfw, app_assoc. }
  intros []. cbv beta. apply always_quiet; [apply quiet_ticks4|]. intros ts. eapply always_bind.
  { apply (always_on_pending _ _ _ _ _ a _ (fun r c => c1 ≡ₚ r.1 ++ r.2 ++ c /\ Forall (payable F a) c)). rewrite fn_lookup_insert. intros l Hh Hst.
    pose proof (Filter_holds (rangeAt ts.1.1.1) (rangeAt ts.1.1.2) (rangeAt ts.1.2) (rangeAt ts.2) (balanceOf (sState F) a) (sGas F) l c1 Hh) as Hf.
    destruct (AccountList.Filter _ _ _ _ _ _ l) as [[drops invs] l']. cbv zeta in Hf. destruct Hf as (_ & Hperm & _ & Hh' & Hs' & _).
    eexists _, l', _. split; [done|]. split; [exact Hh'|]. split; [congruence|]. split; [by symmetry|]. by eapply forward_payable. }
  intros [drops invalids]. cbv beta. apply triple_exists. intros c. apply triple_pure. cbn [fst snd]. intros [Hc Hpay].
  eapply always_bind; [apply (always_forgets _ _ _ _ _ a drops _ (invalids ++ c ++ Q a))|].
  { rewrite fn_lookup_insert, Hc. solve_Permutation. }
  intros []. cbv beta. assert (HP : P a ++ Q a ≡ₚ (invalids ++ Q a) ++ fw ++ drops ++ c) by (rewrite Hfw, Hc; solve_Permutation).
  rewrite HP in Hnd, Hv. apply Forall_app in Hv as [Hv _]. apply Forall_app in Hv as [Hv _]. rewrite fmap_app in Hnd. apply list.NoDup_app in Hnd as [Hnd _].
  eapply triple_conseq; [by eapply (always_requeues F (Some a) None _ _ a invalids Q)|done| |done].
  intros [] p (d & Hd & Hp). exists c, d. split; [intros y Hy; rewrite (Hset a), HP; rewrite Hd in Hy; set_solver|].
  rewrite list.Forall_forall in Hpay.
  split; [intros y Hy; split; [rewrite Hfw, Hc; set_solver|by apply Hpay]|].
  eapply inv_ext; [exact Hp| | |done]; intros b; rewrite ?insert_twice_ext; [|done]. destruct (decide (a = b)) as [<-|Hne].
  - rewrite !fn_lookup_insert, Hd. solve_Permutation.
  - by rewrite !fn_lookup_insert_ne.
Qed.

(** After the gap test the account has nothing pending or starts at the nonce of
    the state. *)
Lemma always_demoteGapped F A P Q a : A a ≡ₚ P a ++ Q a ->
  always (inv F (Some a) None A P Q) (demoteGapped a) (fun _ p => exists c d,
    c ++ d ≡ₚ P a ++ Q a /\ (c = P a \/ c = []) /\ (c = [] \/ nonceOf (sState F) a ∈ TxNonce <$> c) /\
    inv F (Some a) None A (<[a := c]> P) (<[a := d]> Q) p).
Proof.
  intros HA. unfold demoteGapped. apply triple_known. intros Ho _. destruct (owned_parts A a _ Ho HA) as [Hnd Hv].
  apply triple_get. intros p0 Hp0. pose proof (inv_pending _ _ _ _ _ _ _ Hp0 a) as Ha.
  rewrite (f_equal sState (inv_scene _ _ _ _ _ _ _ Hp0) : currentState p0 = sState F). destruct (pending p0 !! a) as [l|] eqn:E; [|by destruct Ha].
  destruct Ha as (Hst & Hh & _). rewrite (len_holds l (P a) Hh). pose proof (lookup_holds l (P a) (nonceOf (sState F) a)) as Hget.
  set (gap := (0 <? zlen (P a)) && _). destruct gap eqn:Eg; unfold gap in Eg.
  2: { intros p ->. exists (P a), (Q a). split; [done|]. split; [by left|]. split.
       - apply andb_false_iff in Eg as [Eg|Eg].
         + left. apply Z.ltb_ge in Eg. unfold zlen in Eg. apply nil_length_inv. lia.
         + right. destruct (SortedMap.Get (nonceOf (sState F) a) (txs l)) as [y|] eqn:Ey; [|done].
           destruct (proj1 (Hget y Hh) eq_refl) as [Hy <-]. by apply list_elem_of_fmap_2.
       - eapply inv_ext; [exact Hp0|done| |]; intros b; apply fn_insert_id. }
  eapply triple_conseq with (P' := inv F (Some a) None A P Q); [|by intros s ->|intros ? ? HQ; exact HQ|intros ? ? HE; exact HE].
  eapply always_bind.
  { apply (always_on_pending _ _ _ _ _ a _ (fun r c => c = [] /\ exists gapped, r = Some <$> gapped /\ gapped ≡ₚ P a)). intros l1 Hh1 Hst1.
    destruct (Cap_holds 0 l1 (P a)) as (l' & Hrun & Hh' & Hs'); [lia|done|]. eexists _, l', _. split; [exact Hrun|].
    split; [exact Hh'|]. split; [congruence|]. split; [done|]. eexists. split; [done|]. by rewrite reverse_Permutation. }
  intros r. cbv beta. apply triple_exists. intros c. apply triple_pure. intros (-> & gapped & -> & Hgap). rewrite each_some.
  rewrite <- Hgap in Hnd, Hv. apply Forall_app in Hv as [Hv _].
  eapply triple_conseq; [by eapply (always_requeues F (Some a) None _ _ a gapped Q)|done| |done].
  intros [] p (d & Hd & Hp). exists [], d. split; [by rewrite Hd, Hgap|]. split; [by right|]. split; [by left|]. done.
Qed.

(** What the demotion leaves of an account: nothing, or transactions from the
    nonce of the state on that the account can pay. *)
Definition starts F (a : Address) (l : list Transaction) : Prop :=
  (l = [] \/ nonceOf (sState F) a ∈ TxNonce <$> l) /\ forall y, y ∈ l -> payable F a y.

Lemma always_demoteAccount F A P Q a : settled A P Q ->
  always (inv F None None A P Q) (demoteAccount a) (fun _ p => exists A' P' Q', settled A' P' Q' /\ account_step a A P Q A' P' Q' /\
    starts F a (P' a) /\ inv F None None A' P' Q' p).
Proof.
  intros Hset. unfold demoteAccount. apply triple_get. intros p0 Hp0. pose proof (inv_pending _ _ _ _ _ _ _ Hp0 a) as Ha.
  destruct (pending p0 !! a) as [l|] eqn:E.
  2: { intros p ->. exists A, P, Q. split; [done|]. split; [apply account_step_refl|]. destruct Ha as [-> _]. split; [|done].
       split; [by left|]. by intros y ?%not_elem_of_nil. }
  eapply triple_conseq with (P' := inv F (Some a) None A P Q); [|intros s ->; apply inv_open_pending; [done|by rewrite E]|intros ? ? HQ; exact HQ|intros ? ? HE; exact HE].
  eapply always_bind; [by apply always_prunePending|]. intros []. cbv beta. apply triple_exists. intros c1. apply triple_exists. intros d1.
  apply triple_pure. intros Hin. apply triple_pure. intros Hc1.
  eapply always_bind; [apply always_demoteGapped; by rewrite !fn_lookup_insert|]. intros []. cbv beta. apply triple_exists. intros c. apply triple_exists. intros d.
  apply triple_pure. intros Hperm. apply triple_pure. intros Hcc. apply triple_pure. intros Hfirst. rewrite !fn_lookup_insert in Hperm. rewrite !fn_lookup_insert in Hcc.
  eapply triple_conseq; [apply always_dropEmptyPending|done| |done]. intros [] p Hp.
  exists (<[a := c ++ d]> A), (<[a := c]> P), (<[a := d]> Q). split; [by apply settled_insert|]. split.
  { apply account_step_make. intros y Hy. apply Hin. by rewrite <- Hperm. }
  split; [rewrite fn_lookup_insert; split; [done|]; intros y Hy; destruct Hcc as [->| ->]; [by apply Hc1|by apply not_elem_of_nil in Hy]|].
  eapply inv_ext; [exact Hp| | |]; intros b; rewrite ?insert_twice_ext; try done.
  destruct (decide (a = b)) as [<-|Hne]; [by rewrite !fn_lookup_insert|by rewrite !fn_lookup_insert_ne].
Qed.

(** ** All accounts *)

(** Nothing new is known; the accounts outside [l] are left alone. *)
Record accounts_step (l : list Address) A P Q A' P' Q' : Prop := {
  steps_known : forall b y, y ∈ A' b -> y ∈ A b;
  steps_pending_same : forall b, b ∉ l -> P' b = P b;
  steps_queue_same : forall b, b ∉ l -> Q' b = Q b;
}.

Lemma accounts_step_refl l A P Q : accounts_step l A P Q A P Q.
Proof. by split. Qed.
Lemma accounts_step_cons a l A P Q A1 P1 Q1 A2 P2 Q2 : account_step a A P Q A1 P1 Q1 -> accounts_step l A1 P1 Q1 A2 P2 Q2 -> accounts_step (a :: l) A P Q A2 P2 Q2.
Proof.
  intros [Hk Hp Hq] [Hk' Hp' Hq']. split; [eauto|..]; intros b [Hb Hl]%not_elem_of_cons; [rewrite Hp'|rewrite Hq']; auto.
Qed.

(** After the promotion no account of [l] has more in the queue than it may,
    but the local ones. *)
Lemma always_promoteExecutables F : config_ok (sConfig F) -> forall l A P Q, settled A P Q ->
  always (inv F None None A P Q) (promoteExecutables l) (fun _ p => exists A' P' Q', settled A' P' Q' /\ accounts_step l A P Q A' P' Q' /\ (forall a, a ∈ l -> (a ∉ sLocals F -> zlen (Q' a) <= AccountQueue (sConfig F)) /\ forall y, y ∈ Q' a -> payable F a y) /\ inv F None None A' P' Q' p).
Proof.
  intros Hc l. induction l as [|a l IH]; intros A P Q Hset.
  { intros p Hp. exists A, P, Q. split; [done|]. split; [apply accounts_step_refl|]. split; [by intros a ?%not_elem_of_nil|done]. }
  unfold promoteExecutables in *. cbn [st_collect]. eapply always_bind; [by apply always_promoteAccount|]. intros ps. cbv beta.
  apply triple_exists; intros A1. apply triple_exists; intros P1. apply triple_exists; intros Q1.
  apply triple_pure. intros Hset1. apply triple_pure. intros Hstep1. apply triple_pure. intros Hlim1.
  apply triple_pure. intros Hpay1. apply triple_pure. intros _.
  eapply always_bind; [by apply (IH A1 P1 Q1)|]. intros ps' p (A2 & P2 & Q2 & Hset2 & Hstep2 & Hlim2 & Hp). exists A2, P2, Q2.
  split; [done|]. split; [by eapply accounts_step_cons|]. split; [|done]. intros b Hb.
  destruct (decide (b ∈ l)) as [Hbl|Hbl]; [by apply Hlim2|]. apply elem_of_cons in Hb as [->|]; [|done].
  rewrite (steps_queue_same _ _ _ _ _ _ _ Hstep2 a Hbl). by split.
Qed.

Lemma walked_in {X} t (m : gmap Address X) a : a ∈ (walk t m).*1 <-> m !! a <> None.
Proof.
  rewrite walk_perm, list_elem_of_fmap. split.
  - intros ([b x] & -> & Hin). apply elem_of_map_to_list in Hin. simpl. by rewrite Hin.
  - intros Ha. destruct (m !! a) as [x|] eqn:E; [|done]. exists (a, x). split; [done|]. by apply elem_of_map_to_list.
Qed.

(** The demotion of the accounts of a list. *)
Lemma always_demoteAll F : forall l A P Q, settled A P Q ->
  always (inv F None None A P Q) (st_each demoteAccount l) (fun _ p => exists A' P' Q', settled A' P' Q' /\ accounts_step l A P Q A' P' Q' /\ (forall a, a ∈ l -> starts F a (P' a)) /\ inv F None None A' P' Q' p).
Proof.
  intros l. induction l as [|a l IH]; intros A P Q Hset.
  { intros p Hp. exists A, P, Q. split; [done|]. split; [apply accounts_step_refl|]. split; [by intros a ?%not_elem_of_nil|done]. }
  cbn [st_each]. eapply always_bind; [by apply always_demoteAccount|]. intros []. cbv beta.
  apply triple_exists; intros A1. apply triple_exists; intros P1. apply triple_exists; intros Q1.
  apply triple_pure. intros Hset1. apply triple_pure. intros Hstep1. apply triple_pure. intros Hfirst1.
  eapply triple_conseq; [by apply (IH A1 P1 Q1)|done| |done]. intros [] p (A2 & P2 & Q2 & Hset2 & Hstep2 & Hfirst2 & Hp). exists A2, P2, Q2.
  split; [done|]. split; [by eapply accounts_step_cons|]. split; [|done]. intros b Hb.
  destruct (decide (b ∈ l)) as [Hbl|Hbl]; [by apply Hfirst2|]. apply elem_of_cons in Hb as [->|]; [|done].
  rewrite (steps_pending_same _ _ _ _ _ _ _ Hstep2 a Hbl). exact Hfirst1.
Qed.

(** Afterwards the pending transactions of every account start at the nonce of
    the state. *)
Lemma always_demoteUnexecutables F A P Q : settled A P Q ->
  always (inv F None None A P Q) demoteUnexecutables (fun _ p => exists A' P' Q', settled A' P' Q' /\ (forall b y, y ∈ A' b -> y ∈ A b) /\
    (forall a, starts F a (P' a)) /\ inv F None None A' P' Q' p).
Proof.
  intros Hset. unfold demoteUnexecutables. apply always_quiet; [apply quiet_tick|]. intros t. apply triple_get. intros p0 Hp0.
  eapply triple_conseq with (P' := inv F None None A P Q); [|by intros s ->|intros ? ? HQ; exact HQ|intros ? ? HE; exact HE].
  eapply triple_conseq; [by apply always_demoteAll|done| |done]. intros [] p (A' & P' & Q' & Hset' & Hstep & Hfirst & Hp).
  exists A', P', Q'. split; [done|]. split; [apply Hstep|]. split; [|done]. intros a.
  destruct (decide (a ∈ (walk t (pending p0)).*1)) as [Hin|Hin]; [by apply Hfirst|]. rewrite (steps_pending_same _ _ _ _ _ _ _ Hstep a Hin).
  pose proof (inv_pending _ _ _ _ _ _ _ Hp0 a) as Ha. destruct (pending p0 !! a) as [x|] eqn:E.
  2: { destruct Ha as [-> _]. split; [by left|]. by intros y ?%not_elem_of_nil. } exfalso. apply Hin, walked_in. by rewrite E.
Qed.
End Accounts.

(** ** Counting what is pending and queued

    The lengths the pool adds up are numbers of known transactions, so that the
    64 bit sums do not wrap around. *)

Import Noncer AccountList Lookup LookupFacts Priced PricedFacts Pool PoolOps PoolReorg.

(** The exact sum of the lengths; see [Stats]. *)
Definition sumLen (m : gmap Address txList) : Z := map_fold (fun _ l n => n + Len l) 0 m.

Lemma sumLen_insert a l m : m !! a = None -> sumLen (<[a := l]> m) = sumLen m + Len l.
Proof. intros Hm. unfold sumLen. rewrite map_fold_insert_L; [done|intros; lia|done]. Qed.
Lemma sumLen_delete a l m : m !! a = Some l -> sumLen m = sumLen (delete a m) + Len l.
Proof. intros Hm. rewrite <- (insert_delete_id m a l Hm) at 1. apply sumLen_insert, lookup_delete_eq. Qed.
Lemma sumLen_update a l l' m : m !! a = Some l -> sumLen (<[a := l']> m) = sumLen m - Len l + Len l'.
Proof.
  intros Hm. rewrite (sumLen_delete a l m Hm), <- insert_delete_eq, sumLen_insert by apply lookup_delete_eq. lia.
Qed.
Lemma sumLen_nonneg m : 0 <= sumLen m.
Proof.
  unfold sumLen. apply (map_fold_weak_ind (fun n (_ : gmap Address txList) => 0 <= n)); [lia|]. intros a l m' n _ Hn.
  unfold Len, SortedMap.Len. lia.
Qed.
Lemma totalLen_sum m : totalLen m = u64 (sumLen m).
Proof.
  unfold totalLen, sumLen. apply (map_fold_weak_ind (fun n m => n = u64 (map_fold (fun _ l n => n + Len l) 0 m))); [done|].
  intros a l m' n Hm ->. rewrite map_fold_insert_L; [|intros; lia|done]. unfold u64. rewrite Zplus_mod_idemp_l, Zplus_mod_idemp_r. done.
Qed.

(** The transactions of some accounts. *)
Definition ofAccounts (P : store) (l : list Address) : list Transaction := mjoin (P <$> l).

Lemma sumLen_accounts s m P : lists_rel s None m P -> sumLen m = zlen (ofAccounts P (map_to_list m).*1).
Proof.
  intros Hm. assert (Hin : forall al, al ∈ map_to_list m -> Len al.2 = zlen (P al.1)).
  { intros [a l] Hal. apply elem_of_map_to_list in Hal. apply len_holds, (lists_rel_get _ _ _ _ _ _ Hm Hal). }
  unfold sumLen. rewrite map_fold_foldr. revert Hin. generalize (map_to_list m). intros kvs. induction kvs as [|[a l] kvs IH]; intros Hin; [done|].
  unfold ofAccounts, zlen in *. csimpl. rewrite length_app, IH by (intros; apply Hin; by apply list_elem_of_further). pose proof (Hin (a, l) (list_elem_of_here _ _)) as Hl. simpl in *. lia.
Qed.

Section Counts.
Context {St : Type} `{AccountState St} `{TxSigning} `{TxSize} `{Runtime} `{ExTxValidator St}.
Implicit Types (p : TxPool St) (A P Q : store) (op oq : option Address) (F : scene (St:=St)).

Lemma accounts_distinct t A P : knows t A -> owned A -> (forall a y, y ∈ P a -> y ∈ A a) -> (forall a, NoDup (TxNonce <$> P a)) ->
  forall l, NoDup l -> NoDup (HashOfTx <$> ofAccounts P l).
Proof.
  intros Hk Ho Hsub Hnd l. induction l as [|a l IH]; intros Hl; [constructor|]. apply list.NoDup_cons in Hl as [Ha Hl].
  unfold ofAccounts in *. csimpl. rewrite fmap_app. apply list.NoDup_app. split; [|split; [|by apply IH]].
  - specialize (Hnd a). apply NoDup_fmap_1 in Hnd. apply NoDup_fmap_2_strong; [|done]. intros x y Hx Hy Hh. by eapply knows_hash; eauto.
  - intros h (x & -> & Hx)%list_elem_of_fmap (y & Hh & Hy)%list_elem_of_fmap. apply list_elem_of_join in Hy as (ys & Hy & Hys).
    apply list_elem_of_fmap in Hys as (b & -> & Hb). assert (x = y) as <- by (eapply knows_hash; eauto).
    assert (a = b) as <-; [|done]. rewrite <- (owned_sender A a x), <- (owned_sender A b x); auto.
Qed.

Lemma part_counts F A P Q n p a : inv F None None A P Q p -> settled A P Q -> few n A -> zlen (A a) <= n.
Proof.
  intros Hp Hset Hf. destruct Hp as [_ _ _ Ik Io _]. apply Hf.
  - destruct (Io a) as [Hnd _]. apply NoDup_fmap_1 in Hnd. apply NoDup_fmap_2_strong; [|done]. intros x y Hx Hy Hh. by eapply knows_hash.
  - intros y Hy. by rewrite (owned_sender A a y).
Qed.

Lemma pending_counts F A P Q n p : inv F None None A P Q p -> settled A P Q -> few n A -> sumLen (pending p) <= n.
Proof.
  intros Hp Hset Hf. destruct Hp as [_ Ip _ Ik Io _]. rewrite (sumLen_accounts _ _ _ Ip).
  assert (Hsub : forall a y, y ∈ P a -> y ∈ A a) by (intros a y Hy; rewrite (Hset a); apply elem_of_app; by left).
  apply Hf.
  - apply (accounts_distinct _ A P Ik Io Hsub); [|apply NoDup_fst_map_to_list]. intros a. destruct (owned_parts A a _ Io (Hset a)) as [Hnd _].
    rewrite fmap_app in Hnd. by apply list.NoDup_app in Hnd as [Hnd _].
  - intros y (ys & Hy & (b & -> & _)%list_elem_of_fmap)%list_elem_of_join. rewrite (owned_sender A b y); auto.
Qed.
Lemma queue_counts F A P Q n p : inv F None None A P Q p -> settled A P Q -> few n A -> sumLen (queue p) <= n.
Proof.
  intros Hp Hset Hf. destruct Hp as [_ _ Iq Ik Io _]. rewrite (sumLen_accounts _ _ _ Iq).
  assert (Hsub : forall a y, y ∈ Q a -> y ∈ A a) by (intros a y Hy; rewrite (Hset a); apply elem_of_app; by right).
  apply Hf.
  - apply (accounts_distinct _ A Q Ik Io Hsub); [|apply NoDup_fst_map_to_list]. intros a. destruct (owned_parts A a _ Io (Hset a)) as [Hnd _].
    rewrite fmap_app in Hnd. by apply list.NoDup_app in Hnd as (_ & _ & Hnd).
  - intros y (ys & Hy & (b & -> & _)%list_elem_of_fmap)%list_elem_of_join. rewrite (owned_sender A b y); auto.
Qed.
End Counts.
