(* ===== verification/TxPoolPending.v ===== *)
(** * The limit of the pending transactions (core/tx_pool.go)

    [truncatePending] takes the last transactions of the accounts that have most
    until the pool is within [GlobalSlots] or nobody but the local accounts has
    more than [AccountSlots]. *)

From S2P Require Import Prelude Heap Hoare Float Params Types Misc Snapshot StateIface StateTransition Signing.
From S2P Require Import Finalize TxQueue TxPrices TxPricesFacts TxSortedMap TxList TxListFacts TxListHolds TxPoolState TxPool TxPoolReorg TxPoolFacts TxPoolMethods TxPoolHandlers TxPoolAccounts.
From stdpp Require Import functions.
#[local] Open Scope Z_scope.
Import Noncer AccountList Lookup LookupFacts Priced PricedFacts Pool PoolOps PoolReorg.

#[export] Instance byPriority_order : WeakOrder Prque.byPriority.
Proof. split; unfold Prque.byPriority; intros; bool_Z; lia. Qed.

Section Pending.
Context {St : Type} `{AccountState St} `{TxSigning} `{TxSize} `{Runtime} `{ExTxValidator St}.
Implicit Types (p : TxPool St) (A P Q : store) (op oq : option Address) (F : scene (St:=St)).
Abbreviation Pool := (TxPool St).

(** While the last transactions are taken: [n] are pending, each account keeps
    the first ones it had in [P0], and the queue is left alone. *)
Record cut F A0 P0 Q P (n : Z) p : Prop := {
  cut_sum : sumLen (pending p) = n;
  cut_prefix : forall a, P a `prefix_of` P0 a;
  cut_inv : exists A, settled A P Q /\ (forall b y, y ∈ A b -> y ∈ A0 b) /\ inv F None None A P Q p;
}.

Lemma cut_ext F A0 P0 Q P P' n p : cut F A0 P0 Q P n p -> (forall a, P' a = P a) -> cut F A0 P0 Q P' n p.
Proof.
  intros [Hs Hp (A & Hset & Hsub & Hi)] He. split; [done|intros a; by rewrite He|]. exists A. split; [intros a; by rewrite He|]. split; [done|].
  by eapply inv_ext.
Qed.

Lemma cut_length F A0 P0 Q P n p a : cut F A0 P0 Q P n p -> P a <> [] -> exists l, pending p !! a = Some l /\ Len l = zlen (P a).
Proof.
  intros [_ _ (A & _ & _ & Hi)] Hne. pose proof (inv_pending _ _ _ _ _ _ _ Hi a) as Ha. destruct (pending p !! a) as [l|]; [|by destruct Ha].
  exists l. split; [done|]. apply len_holds, Ha.
Qed.

Definition shorter (l : list Transaction) : list Transaction := take (length l - 1) l.

Lemma shorter_length l : l <> [] -> zlen (shorter l) = zlen l - 1.
Proof. intros Hl. unfold zlen, shorter. rewrite length_take. destruct l; [done|]. cbn. lia. Qed.

(** The step that leaves the others alone keeps the sum. *)
Lemma pending_kept {X} n (m : ST Pool X) : st_keeps pending m -> preserves (fun p => sumLen (pending p) = n) m.
Proof. intros Hm p <-. by rewrite Hm. Qed.

Lemma removed_pending k : st_keeps (pending (St:=St)) (removed k).
Proof. intros p. unfold removed, mbind, st_bind, tick, st_get, st_lift. cbn. by destruct (Priced.Removed _ _ _ _). Qed.

Lemma always_dropLast F A0 P0 Q P n a : 1 < zlen (P a) ->
  always (cut F A0 P0 Q P n) (dropLast a) (fun _ => cut F A0 P0 Q (<[a := shorter (P a)]> P) (n - 1)).
Proof.
  intros Hlen p Hp. assert (Hne : P a <> []) by (intros He; rewrite He in Hlen; unfold zlen in Hlen; cbn in Hlen; lia).
  destruct (cut_length _ _ _ _ _ _ _ a Hp Hne) as (l & El & Hl). destruct Hp as [Hsum Hpre (A & Hset & Hsub & Hi)].
  pose proof (lists_rel_get _ _ _ _ _ _ (inv_pending _ _ _ _ _ _ _ Hi) El) as [Hst Hh].
  destruct (Cap_holds (Len l - 1) l (P a)) as (l' & Hrun & Hh' & Hs'); [lia|done|].
  assert (Hk : Z.to_nat (Len l - 1) = (length (P a) - 1)%nat) by (rewrite Hl; unfold zlen; lia). rewrite Hk in Hrun, Hh'.
  destruct (P a) as [|x0 rest0] eqn:Epa; [done|]. rewrite <- Epa in *. clear x0 rest0 Epa.
  assert (Hsplit : exists x, drop (length (P a) - 1) (P a) = [x]).
  { destruct (drop (length (P a) - 1) (P a)) as [|x [|y rest]] eqn:E; [exfalso| by exists x|exfalso];
      (apply (f_equal length) in E; rewrite length_drop in E; unfold zlen in Hlen; cbn in E; lia). }
  destruct Hsplit as [x Hx]. rewrite Hx in Hrun. cbn [reverse rev_append] in Hrun.
  assert (Hpa : P a = shorter (P a) ++ [x]) by (unfold shorter; by rewrite <- Hx, take_drop).
  set (P1 := <[a := shorter (P a)]> P). set (p1 := set_pending (<[a := l']> (pending p)) p).
  assert (Hi1 : inv F None None A P1 Q p1).
  { destruct Hi as [Is Ip Iq Ik Io Ir]. split; try done. cbn [pending set_pending p1]. apply lists_rel_insert; [done|congruence|done|]. right.
    intros He. pose proof (shorter_length (P a) Hne) as Hsl. rewrite He in Hsl. unfold zlen in *. cbn in Hsl. lia. }
  assert (Hsum1 : sumLen (pending p1) = n - 1).
  { cbn [pending set_pending p1]. rewrite (sumLen_update a l l' _ El), Hsum, Hl, (len_holds l' _ Hh'). fold (shorter (P a)).
    rewrite shorter_length by done. lia. }
  set (tail := _ ← st_each_some (fun tx => _ ← forgetTx tx; lowerNonce a (TxNonce tx)) (Some <$> [x]); removed (St:=St) (zlen (Some <$> [x]))).
  assert (Htail : always (fun p => inv F None None A P1 Q p /\ sumLen (pending p) = n - 1) tail
    (fun _ p => inv F None None (<[a := shorter (P a) ++ Q a]> A) P1 Q p /\ sumLen (pending p) = n - 1)).
  { eapply triple_conseq; [apply (triple_preserves (fun p => sumLen (pending p) = n - 1) (inv F None None A P1 Q) _ (fun _ => inv F None None (<[a := shorter (P a) ++ Q a]> A) P1 Q) (fun _ _ => False))|done|done|by intros ? ? []].
    - unfold tail. rewrite each_some. cbn [st_each]. eapply always_bind with (R := fun _ => inv F None None (<[a := shorter (P a) ++ Q a]> A) P1 Q); [|intros []; apply quiet_removed].
      eapply always_bind with (R := fun _ => inv F None None (<[a := shorter (P a) ++ Q a]> A) P1 Q); [|by intros [] s Hs].
      eapply always_bind; [apply (always_forget _ _ _ _ _ _ a x (shorter (P a) ++ Q a))|intros []; apply quiet_lowerNonce].
      rewrite (Hset a), Hpa at 1. solve_Permutation.
    - apply pending_kept. apply st_keeps_bind; [done|intros []; apply removed_pending]. }
  specialize (Htail p1 (conj Hi1 Hsum1)). unfold dropLast. unfold mbind at 1, st_bind at 1, pendingLen. rewrite El. cbv beta iota.
  unfold mbind at 1, st_bind at 1, on_pending. rewrite El, Hrun. cbv beta iota. fold p1.
  match goal with |- match ?m p1 with _ => _ end => change (m p1) with (tail p1) end. destruct (tail p1) as [[[]|e|] p2]; [|done|done]. destruct Htail as [Hi2 Hsum2]. split; [done| |].
  - intros b. unfold P1. destruct (decide (a = b)) as [<-|Hb]; [rewrite fn_lookup_insert|by rewrite fn_lookup_insert_ne].
    etrans; [|apply Hpre]. rewrite Hpa at 2. by eexists.
  - exists (<[a := shorter (P a) ++ Q a]> A). split; [|split; [|done]].
    + apply settled_pending; done.
    + intros b y. destruct (decide (a = b)) as [<-|Hb]; [rewrite fn_lookup_insert|rewrite fn_lookup_insert_ne by done; apply Hsub].
      intros Hy. apply Hsub. rewrite (Hset a), Hpa. set_solver.
Qed.

(** ** Rounds over the offenders *)

Definition cutAll (offenders : list Address) P : store := fun b => if decide (b ∈ offenders) then shorter (P b) else P b.

Lemma always_dropLasts F A0 P0 Q : forall offenders P n, NoDup offenders -> (forall a, a ∈ offenders -> 1 < zlen (P a)) ->
  always (cut F A0 P0 Q P n) (st_each dropLast offenders) (fun _ => cut F A0 P0 Q (cutAll offenders P) (n - zlen offenders)).
Proof.
  intros offenders. induction offenders as [|a l IH]; intros P n Hnd Hlen.
  - intros p Hp. unfold zlen. cbn. rewrite Z.sub_0_r. by eapply cut_ext.
  - apply list.NoDup_cons in Hnd as [Ha Hnd]. cbn [st_each]. eapply always_bind; [apply always_dropLast, Hlen, list_elem_of_here|].
    intros []. cbv beta. assert (Hother : forall b, b ∈ l -> (<[a := shorter (P a)]> P) b = P b) by (intros b Hb; apply fn_lookup_insert_ne; congruence).
    eapply triple_conseq; [apply IH; [done|]|done| |done].
    + intros b Hb. rewrite Hother by done. by apply Hlen, list_elem_of_further.
    + intros [] p Hp. replace (n - zlen (a :: l)) with (n - 1 - zlen l) by (unfold zlen; cbn [length]; lia).
      eapply cut_ext; [exact Hp|]. intros b. unfold cutAll. destruct (decide (a = b)) as [<-|Hb].
      * rewrite (decide_True (P := a ∈ a :: l)), decide_False, fn_lookup_insert by (done || apply list_elem_of_here). done.
      * rewrite fn_lookup_insert_ne by done. destruct (decide (b ∈ l)) as [Hl|Hl].
        -- by rewrite decide_True by by apply list_elem_of_further.
        -- by rewrite decide_False by (apply not_elem_of_cons; auto).
Qed.

Lemma round_count : forall (offenders : list Address) n, 0 <= n < 18446744073709551616 -> 0 <= n - zlen offenders ->
  foldl (fun n _ => n -w 1) n offenders = n - zlen offenders.
Proof.
  unfold zlen. intros offenders. induction offenders as [|a l IH]; intros n Hn Hl; cbn [foldl length] in *; [lia|].
  assert (Hw : n -w 1 = n - 1) by word_lia. rewrite Hw, IH by lia. lia.
Qed.

Lemma always_dropRound F A0 P0 Q offenders P n : NoDup offenders -> (forall a, a ∈ offenders -> 1 < zlen (P a)) -> 0 <= n < 18446744073709551616 ->
  always (cut F A0 P0 Q P n) (dropRound offenders n) (fun r p => r = n - zlen offenders /\ cut F A0 P0 Q (cutAll offenders P) r p).
Proof.
  intros Hnd Hlen Hn. unfold dropRound. eapply always_bind; [by apply always_dropLasts|]. intros [] p Hp. cbn. cbv beta in Hp.
  assert (Hr : foldl (fun n _ => n -w 1) n offenders = n - zlen offenders); [|by rewrite Hr].
  apply round_count; [done|]. rewrite <- (cut_sum _ _ _ _ _ _ _ Hp). apply sumLen_nonneg.
Qed.

(** The offenders have one length. *)
Definition level (offenders : list Address) (L : Z) P : Prop := NoDup offenders /\ forall a, a ∈ offenders -> zlen (P a) = L.

Lemma level_cut offenders L P : level offenders L P -> 0 < L -> level offenders (L - 1) (cutAll offenders P).
Proof.
  intros [Hnd Hl] HL. split; [done|]. intros a Ha. unfold cutAll. rewrite decide_True by done. rewrite shorter_length; [by rewrite Hl|].
  intros He. specialize (Hl a Ha). rewrite He in Hl. unfold zlen in Hl. cbn in Hl. lia.
Qed.

(** What a loop down to the length [T] ends with. *)
Record lowered F (offenders : list Address) (T L : Z) P P' (n' : Z) : Prop := {
  lowered_level : exists L', level offenders L' P' /\ L' <= L /\ (L' = L \/ T <= L') /\ (n' <= GlobalSlots (sConfig F) \/ L' <= T);
  lowered_other : forall b, b ∉ offenders -> P' b = P b;
}.

(** The two loops over the offenders have this shape. *)
Lemma loop_spec F A0 P0 Q (loop : nat -> Z -> ST Pool Z) (test : Pool -> Z -> bool) offenders last T :
  (forall fuel count, loop fuel count =
     (p ← st_get;
      if count <=? GlobalSlots (config p) then mret count else
      n ← pendingLen last;
      if test p n then mret count else
      match fuel with O => st_err ErrOutOfFuel | S fuel => count ← dropRound offenders count; loop fuel count end)) ->
  (forall p n, config p = sConfig F -> 0 <= n < 18446744073709551616 -> test p n = (n <=? T)) ->
  0 < T -> 0 <= GlobalSlots (sConfig F) -> last ∈ offenders ->
  forall fuel L P n, (Z.to_nat n <= fuel)%nat -> 0 <= n < 18446744073709551616 -> level offenders L P -> 0 < L < 18446744073709551616 ->
  always (cut F A0 P0 Q P n) (loop fuel n) (fun n' p => exists P', cut F A0 P0 Q P' n' p /\ n' <= n /\ lowered F offenders T L P P' n').
Proof.
  intros Hloop Htest HT HG Hlast. induction fuel as [|fuel IH]; intros L P n Hfuel Hn Hlev HL.
  all: rewrite Hloop; apply triple_get; intros p0 Hp0; pose proof Hp0 as [_ _ (A & _ & _ & Hi)].
  all: assert (HC : config p0 = sConfig F) by exact (f_equal sConfig (inv_scene _ _ _ _ _ _ _ Hi)); rewrite HC.
  all: destruct (Z.leb_spec n (GlobalSlots (sConfig F))) as [Hle|Hgt].
  1, 3: intros p ->; exists P; split; [done|]; split; [lia|]; split; [|done]; exists L; split; [done|]; split; [lia|]; split; [by left|by left].
  all: assert (Hne : P last <> []) by (intros He; destruct Hlev as [_ Hlev]; specialize (Hlev last Hlast); rewrite He in Hlev; unfold zlen in Hlev; cbn in Hlev; lia).
  all: destruct (cut_length _ _ _ _ _ _ _ last Hp0 Hne) as (l & El & Hl); destruct Hlev as [Hnd Hlev]; rewrite (Hlev last Hlast) in Hl.
  { lia. }
  intros p ->. unfold mbind at 1, st_bind at 1, pendingLen. rewrite El. cbv beta iota. rewrite Htest, Hl by (done || lia).
  destruct (Z.leb_spec L T) as [HLT|HLT].
  - exists P. split; [done|]. split; [lia|]. split; [|done]. exists L. split; [done|]. split; [lia|]. split; [by left|by right].
  - assert (Hone : 1 <= zlen offenders) by (unfold zlen; destruct offenders; [by apply not_elem_of_nil in Hlast|cbn; lia]).
    revert p0 Hp0 Hi HC El. intros p0 Hp0 _ _ _. revert p0 Hp0.
    change (always (cut F A0 P0 Q P n) (count ← dropRound offenders n; loop fuel count)
      (fun n' p => exists P', cut F A0 P0 Q P' n' p /\ n' <= n /\ lowered F offenders T L P P' n')).
    eapply always_bind; [apply always_dropRound; [done| |done]|]. { intros a Ha. rewrite Hlev by done. lia. }
    intros n1. cbv beta. apply triple_pure. intros ->. intros p1 Hp1. assert (Hn1 : 0 <= n - zlen offenders) by (rewrite <- (cut_sum _ _ _ _ _ _ _ Hp1); apply sumLen_nonneg).
    revert p1 Hp1. eapply triple_conseq; [apply (IH (L - 1)); [lia|lia|by apply level_cut; [|lia]|lia]|done| |done].
    intros n' p (P' & Hp & Hle & [(L' & Hlev' & HL' & HTL & Hend) Hoth]). exists P'. split; [done|]. split; [lia|]. split.
    + exists L'. split; [done|]. split; [lia|]. split; [right; lia|done].
    + intros b Hb. rewrite Hoth by done. unfold cutAll. by rewrite decide_False.
Qed.

Lemma equalize_spec F A0 P0 Q offenders last T : 0 < T -> 0 <= GlobalSlots (sConfig F) -> last ∈ offenders ->
  forall L P n, 0 <= n < 18446744073709551616 -> level offenders L P -> 0 < L < 18446744073709551616 ->
  always (cut F A0 P0 Q P n) (equalize (Z.to_nat n) offenders last T n) (fun n' p => exists P', cut F A0 P0 Q P' n' p /\ n' <= n /\ lowered F offenders T L P P' n').
Proof.
  intros HT HG Hlast L P n Hn Hlev HL. by apply (loop_spec F A0 P0 Q (fun fuel n => equalize fuel offenders last T n) (fun _ n => n <=? T) offenders last T); [by intros []|..].
Qed.
Lemma reduce_spec F A0 P0 Q offenders last : 0 < AccountSlots (sConfig F) -> 0 <= GlobalSlots (sConfig F) -> last ∈ offenders ->
  forall L P n, 0 <= n < 18446744073709551616 -> level offenders L P -> 0 < L < 18446744073709551616 ->
  always (cut F A0 P0 Q P n) (reduce (Z.to_nat n) offenders last n)
    (fun n' p => exists P', cut F A0 P0 Q P' n' p /\ n' <= n /\ lowered F offenders (AccountSlots (sConfig F)) L P P' n').
Proof.
  intros HT HG Hlast L P n Hn Hlev HL.
  apply (loop_spec F A0 P0 Q (fun fuel n => reduce fuel offenders last n) (fun p n => u64 n <=? AccountSlots (config p)) offenders last); [by intros []| |done..].
  intros p k -> Hk. by rewrite u64_small.
Qed.

(** ** The loop over the spammers *)

(** The spammers that are still in the queue, and the offenders, which are
    brought down to one length [L]. *)
Record spamming F (q : Prque.prque) (offenders : list Address) (L : Z) P : Prop := {
  spam_heap : heap Prque.byPriority q;
  spam_distinct : NoDup (q.*1 ++ offenders);
  spam_length : forall ak, ak ∈ q -> zlen (P ak.1) = ak.2 /\ AccountSlots (sConfig F) < ak.2 < 9223372036854775808;
  spam_level : level offenders L P;
  spam_least : offenders <> [] -> (forall ak, ak ∈ q -> ak.2 <= L) /\ AccountSlots (sConfig F) < L < 9223372036854775808;
}.

Definition collected F (q : Prque.prque) (offenders : list Address) P (r : list Address * Z) P' : Prop :=
  (forall b, b ∉ q.*1 ++ offenders -> P' b = P b) /\
  (r.2 <= GlobalSlots (sConfig F) \/
   (exists L', level r.1 L' P' /\ (r.1 <> [] -> AccountSlots (sConfig F) < L' < 9223372036854775808)) /\ forall b, b ∈ q.*1 ++ offenders -> b ∈ r.1).

Lemma spamming_pop F x q q' offenders L P : spamming F (x :: q) offenders L P -> (heap Prque.byPriority (x :: q) -> heap Prque.byPriority q') -> q' ≡ₚ q ->
  (forall P1 L1, level offenders L1 P1 -> (forall b, b ∉ offenders -> P1 b = P b) -> (offenders <> [] -> L1 = x.2) ->
   spamming F q' (offenders ++ [x.1]) x.2 P1).
Proof.
  intros [Hh Hd Hl Hlev Hleast] Hheap Hp P1 L1 Hlev1 Hsame HL1.
  assert (Hdis : forall ak, ak ∈ x :: q -> ak.1 ∉ offenders).
  { intros ak Hak. apply list.NoDup_app in Hd as (_ & Hd & _). by apply Hd, list_elem_of_fmap_2. }
  pose proof (Hl x (list_elem_of_here _ _)) as [Hx1 Hx2].
  assert (Hd' : NoDup (q'.*1 ++ offenders ++ [x.1])).
  { rewrite Hp. rewrite fmap_cons in Hd. cbn [app] in Hd. by rewrite app_assoc, Permutation_app_comm. }
  split.
  - by apply Hheap.
  - exact Hd'.
  - intros ak Hak. rewrite Hp in Hak. pose proof (list_elem_of_further _ x _ Hak) as Hak'. rewrite Hsame by by apply Hdis. by apply Hl.
  - destruct Hlev1 as [_ Hlev1]. split; [by apply list.NoDup_app in Hd' as (_ & _ & Hd')|]. intros a [Ha|Ha]%elem_of_app.
    + rewrite Hlev1 by done. apply HL1. intros ->. by apply not_elem_of_nil in Ha.
    + apply list_elem_of_singleton in Ha as ->. rewrite Hsame; [done|]. apply Hdis, list_elem_of_here.
  - intros _. split; [|done]. intros ak Hak. rewrite Hp in Hak. pose proof (heap_best Prque.byPriority (x :: q) x ak Hh eq_refl (list_elem_of_further _ x _ Hak)) as Hb.
    unfold Prque.byPriority in Hb. by apply Z.ltb_ge in Hb.
Qed.

Lemma always_collectOffenders F A0 P0 Q : 0 < AccountSlots (sConfig F) -> 0 <= GlobalSlots (sConfig F) ->
  forall fuel q offenders L P n, length q = fuel -> 0 <= n < 18446744073709551616 -> spamming F q offenders L P ->
  always (cut F A0 P0 Q P n) (collectOffenders fuel q offenders n)
    (fun r p => exists P', collected F q offenders P r P' /\ r.2 <= n /\ cut F A0 P0 Q P' r.2 p).
Proof.
  intros HA HG. induction fuel as [|fuel IH]; intros q offenders L P n Hfuel Hn Hs.
  all: cbn [collectOffenders]; apply triple_get; intros p0 Hp0; pose proof Hp0 as [_ _ (A & _ & _ & Hi)].
  all: rewrite (f_equal sConfig (inv_scene _ _ _ _ _ _ _ Hi) : config p0 = sConfig F).
  all: destruct q as [|x q]; [|try discriminate Hfuel].
  { rewrite orb_true_r. intros p ->. exists P. split; [|split; [simpl; lia|done]]. split; [done|]. right. split; [|done]. exists L.
    split; [apply Hs|]. intros Ho. by apply Hs. }
  { rewrite orb_true_r. discriminate Hfuel. }
  cbn [length] in Hfuel. injection Hfuel as Hfuel. rewrite orb_false_r.
  destruct (Z.leb_spec n (GlobalSlots (sConfig F))) as [Hle|Hgt].
  { intros p ->. exists P. split; [|split; [simpl; lia|done]]. split; [done|by left]. }
  eapply triple_conseq with (P' := cut F A0 P0 Q P n); [|by intros s ->|intros ? ? HQ; exact HQ|intros ? ? HE; exact HE].
  destruct (heapPop_ok Prque.byPriority x q) as (q' & Hpop & Hheap & Hperm). unfold Prque.Pop. rewrite Hpop. apply triple_lift_bind. cbn [fst snd].
  pose proof (spam_length _ _ _ _ _ Hs x (list_elem_of_here _ _)) as [Hx1 Hx2].
  pose proof (spamming_pop F x q q' offenders L P Hs Hheap Hperm) as Hnext.
  eapply always_bind with (R := fun n' p => exists P1, cut F A0 P0 Q P1 n' p /\ n' <= n /\ (forall b, b ∉ offenders -> P1 b = P b) /\
    (n' <= GlobalSlots (sConfig F) \/ spamming F q' (offenders ++ [x.1]) x.2 P1)).
  - destruct (list.last offenders) as [previous|] eqn:Elast.
    2: { apply last_None in Elast as ->. intros p Hp. exists P. split; [done|]. split; [lia|]. split; [done|]. right.
         by apply (Hnext P L); [apply Hs| |]. }
    assert (Hprev : previous ∈ offenders) by (apply last_Some in Elast as [l' ->]; set_solver).
    assert (Hone : offenders <> []) by (intros ->; by apply not_elem_of_nil in Hprev).
    destruct (spam_least _ _ _ _ _ Hs Hone) as [Hmax HL]. specialize (Hmax x (list_elem_of_here _ _)).
    intros p Hp. assert (Hne : P x.1 <> []) by (intros He; rewrite He in Hx1; unfold zlen in Hx1; cbn in Hx1; lia).
    destruct (cut_length _ _ _ _ _ _ _ x.1 Hp Hne) as (l & El & Hl). unfold mbind, st_bind, pendingLen at 1. rewrite El, Hl, Hx1. cbv beta iota.
    pose proof (equalize_spec F A0 P0 Q offenders previous x.2 ltac:(lia) HG Hprev L P n Hn (spam_level _ _ _ _ _ Hs) ltac:(lia) p Hp) as He.
    destruct (equalize _ _ _ _ _ p) as [[n'|e|] p']; [|done|done]. destruct He as (P1 & Hp' & Hle & [(L' & Hlev' & HL' & HTL & Hend) Hoth]).
    exists P1. split; [done|]. split; [done|]. split; [done|]. destruct Hend as [Hend|Hend]; [by left|right].
    apply (Hnext P1 L'); [done|done|]. intros _. lia.
  - intros n'. cbv beta. apply triple_exists. intros P1 p (Hp & Hle & Hsame & Hcase).
    assert (Hn' : 0 <= n') by (rewrite <- (cut_sum _ _ _ _ _ _ _ Hp); apply sumLen_nonneg).
    assert (Hlen : length q' = fuel) by (rewrite (Permutation_length Hperm); done).
    assert (Hin : forall b, b ∈ q'.*1 ++ offenders ++ [x.1] <-> b ∈ (x :: q).*1 ++ offenders) by (intros b; rewrite Hperm; csimpl; set_solver).
    destruct Hcase as [Hdone|Hspam].
    + assert (Hrun : collectOffenders fuel q' (offenders ++ [x.1]) n' p = (Ok (offenders ++ [x.1], n'), p)).
      { assert (HC : config p = sConfig F) by (destruct Hp as [_ _ (A' & _ & _ & Hi')]; exact (f_equal sConfig (inv_scene _ _ _ _ _ _ _ Hi'))).
        destruct fuel; cbn [collectOffenders]; unfold mbind, st_bind, st_get; rewrite HC, (proj2 (Z.leb_le _ _) Hdone); done. }
      rewrite Hrun. exists P1. split; [|split; [done|done]]. split; [|by left]. intros b Hb. apply Hsame. set_solver.
    + pose proof (IH q' (offenders ++ [x.1]) x.2 P1 n' Hlen ltac:(lia) Hspam p Hp) as Hrec.
      destruct (collectOffenders _ _ _ _ p) as [[r|e|] p']; [|done|done]. destruct Hrec as (P' & [Hoth Hend] & Hle' & Hp'). exists P'.
      split; [|split; [lia|done]]. split.
      * intros b Hb. rewrite Hoth by by rewrite Hin. apply Hsame. set_solver.
      * destruct Hend as [|[HL' Hall]]; [by left|right]. split; [done|]. intros b Hb. by apply Hall, Hin.
Qed.

(** ** The spammers *)

(** Pushing the accounts with too many, over a part of the walk. *)
Definition pushSpammer F (q : Prque.prque) (al : Address * txList) : Prque.prque :=
  if negb (bool_decide (al.1 ∈ sLocals F)) && (AccountSlots (sConfig F) <? u64 (Len al.2)) then Prque.Push al.1 (i64 (Len al.2)) q else q.

Record pushed F P (q : Prque.prque) : Prop := {
  pushed_heap : heap Prque.byPriority q;
  pushed_distinct : NoDup q.*1;
  pushed_length : forall ak, ak ∈ q -> zlen (P ak.1) = ak.2 /\ AccountSlots (sConfig F) < ak.2 < 9223372036854775808;
}.

Lemma pushSpammer_spec F P q (a : Address) (l : txList) : pushed F P q -> a ∉ q.*1 -> Len l = zlen (P a) -> zlen (P a) < 9223372036854775808 ->
  pushed F P (pushSpammer F q (a, l)) /\ (forall b, b ∈ (pushSpammer F q (a, l)).*1 <-> b ∈ q.*1 \/ (b = a /\ a ∉ sLocals F /\ AccountSlots (sConfig F) < zlen (P a))).
Proof.
  intros [Hh Hd Hq] Ha Hl Hs. assert (Hpos : 0 <= zlen (P a)) by (unfold zlen; lia). unfold pushSpammer. cbn [fst snd].
  rewrite Hl, u64_small, i64_small by word_lia. case_bool_decide as Hin; cbn [negb andb]; [split; [done|naive_solver]|].
  destruct (Z.ltb_spec (AccountSlots (sConfig F)) (zlen (P a))) as [Hgt|Hle]; [|split; [done|intros b; split; [auto|]; intros [?|(? & ? & ?)]; [done|lia]]].
  destruct (heapPush_ok Prque.byPriority q (a, zlen (P a))) as [Hh' Hperm]. fold (Prque.Push a (zlen (P a)) q) in Hh', Hperm. split; [split|].
  - by apply Hh'.
  - rewrite Hperm. csimpl. by apply list.NoDup_cons.
  - intros ak. rewrite Hperm. intros [->|Hak]%elem_of_cons; [cbn [fst snd]; split; [done|lia]|by apply Hq].
  - intros b. rewrite Hperm. csimpl. rewrite elem_of_cons. naive_solver.
Qed.

Lemma pushSpammers_spec F P : forall w q, NoDup (w.*1) -> (forall al, al ∈ w -> Len al.2 = zlen (P al.1)) -> (forall a, zlen (P a) < 9223372036854775808) ->
  (forall a, a ∈ w.*1 -> a ∉ q.*1) -> pushed F P q ->
  pushed F P (foldl (pushSpammer F) q w) /\
  (forall b, b ∈ (foldl (pushSpammer F) q w).*1 <-> b ∈ q.*1 \/ (b ∈ w.*1 /\ b ∉ sLocals F /\ AccountSlots (sConfig F) < zlen (P b))).
Proof.
  induction w as [|[a l] w IH]; intros q Hnd Hlen Hsm Hdis Hq; [split; [done|]; cbn; set_solver|].
  rewrite fmap_cons in Hnd, Hdis. apply list.NoDup_cons in Hnd as [Ha Hnd]. cbn [foldl fst] in *.
  destruct (pushSpammer_spec F P q a l Hq) as [Hq' Hin']; [apply Hdis, list_elem_of_here|apply (Hlen (a, l)), list_elem_of_here|done|].
  destruct (IH (pushSpammer F q (a, l)) Hnd) as [Hr Hin]; [intros; by apply Hlen, list_elem_of_further|done| |done|].
  - intros b Hb. rewrite Hin'. intros [Hbq|[-> _]]; [|done]. by apply (Hdis b); [by apply list_elem_of_further|].
  - split; [done|]. intros b. rewrite Hin, Hin'. csimpl. rewrite elem_of_cons. naive_solver.
Qed.

Lemma spammersOf_spec F A P Q t p : inv F None None A P Q p -> (forall a, zlen (P a) < 9223372036854775808) -> 0 <= AccountSlots (sConfig F) ->
  spamming F (spammersOf t p) [] 0 P /\
  (forall a, a ∈ (spammersOf t p).*1 <-> a ∉ sLocals F /\ AccountSlots (sConfig F) < zlen (P a)).
Proof.
  intros Hi Hsmall HA. unfold spammersOf.
  rewrite (f_equal sLocals (inv_scene _ _ _ _ _ _ _ Hi) : locals p = sLocals F), (f_equal sConfig (inv_scene _ _ _ _ _ _ _ Hi) : config p = sConfig F).
  destruct (pushSpammers_spec F P (walk t (pending p)) []) as [[Hh Hd Hq] Hin].
  - rewrite walk_perm. apply NoDup_fst_map_to_list.
  - intros [a l] Hal. rewrite walk_perm in Hal. apply elem_of_map_to_list in Hal. apply len_holds, (lists_rel_get _ _ _ _ _ _ (inv_pending _ _ _ _ _ _ _ Hi) Hal).
  - done.
  - by intros a _ ?%not_elem_of_nil.
  - split; [intros c Hc; cbn in Hc; lia|constructor|by intros ? ?%not_elem_of_nil].
  - split; [split; [exact Hh|by rewrite app_nil_r|exact Hq| |done]|].
    + split; [constructor|]. by intros a ?%not_elem_of_nil.
    + intros a. fold (pushSpammer F). rewrite Hin. split; [intros [?%not_elem_of_nil|(_ & ? & ?)]; done|]. intros [Hl Hs]. right. split; [|done].
      apply walked_in. pose proof (inv_pending _ _ _ _ _ _ _ Hi a) as Ha. destruct (pending p !! a); [done|]. destruct Ha as [Ha _].
      rewrite Ha in Hs. unfold zlen in Hs. cbn in Hs. lia.
Qed.

(** ** The limit *)

(** Within the limit, or nobody has more than is guaranteed. *)
Definition withinSlots F P (n : Z) : Prop := n <= GlobalSlots (sConfig F) \/ forall a, a ∉ sLocals F -> zlen (P a) <= AccountSlots (sConfig F).

Lemma always_truncatePending F A P Q n : config_ok (sConfig F) -> settled A P Q -> few n A -> n < 9223372036854775808 ->
  always (inv F None None A P Q) truncatePending (fun _ p => exists P' n', cut F A P Q P' n' p /\ withinSlots F P' n').
Proof.
  intros Hc Hset Hf Hn. unfold truncatePending. apply triple_get. intros p0 Hp0.
  rewrite (f_equal sConfig (inv_scene _ _ _ _ _ _ _ Hp0) : config p0 = sConfig F).
  pose proof (pending_counts F A P Q n p0 Hp0 Hset Hf) as Hcount. pose proof (sumLen_nonneg (pending p0)) as Hpos.
  rewrite totalLen_sum, u64_small by word_lia. set (n0 := sumLen (pending p0)) in *.
  assert (Hcut : forall p, inv F None None A P Q p -> sumLen (pending p) = n0 -> cut F A P Q P n0 p).
  { intros p Hp Hs. split; [done|done|]. exists A. done. }
  destruct (Z.leb_spec n0 (GlobalSlots (sConfig F))) as [Hle|Hgt].
  { intros p ->. exists P, n0. split; [by apply Hcut|by left]. }
  assert (Hsmall : forall a, zlen (P a) < 9223372036854775808).
  { intros a. pose proof (part_counts F A P Q n p0 a Hp0 Hset Hf) as Ha. unfold zlen in *; rewrite (Permutation_length (Hset a)), length_app in Ha. lia. }
  destruct Hc as [HG _ _ HA _].
  destruct (spammersOf_spec F A P Q (ticks p0) p0 Hp0 Hsmall ltac:(lia)) as [Hspam Hin].
  set (q := spammersOf (ticks p0) p0) in *.
  assert (Htick : forall (k : nat -> ST Pool unit), (tick ≫= k) p0 = k (ticks p0) (set_ticks (S (ticks p0)) p0)) by done.
  intros p ->. rewrite Htick. fold q. set (p1 := set_ticks (S (ticks p0)) p0).
  assert (Hp1 : cut F A P Q P n0 p1) by (apply Hcut; [by apply (inv_same _ _ _ _ _ _ p0)|done]). revert Hp1. generalize p1. clear p1.
  change (always (cut F A P Q P n0) (oc ← collectOffenders (length q) q [] n0; let '(offenders, count) := oc in
    match list.last offenders with None => mret tt | Some last => _ ← reduce (Z.to_nat count) offenders last count; mret tt end)
    (fun _ p => exists P' n', cut F A P Q P' n' p /\ withinSlots F P' n')).
  eapply always_bind; [apply (always_collectOffenders F A P Q ltac:(lia) HG (length q) q [] 0 P n0); [done|lia|done]|].
  intros [offenders count]. cbv beta. apply triple_exists. intros P1. cbn [fst snd]. apply triple_pure. intros [Hoth Hend]. apply triple_pure. intros Hle. cbn [fst snd] in *.
  rewrite app_nil_r in *.
  assert (Hpost : forall P' n', (forall b, b ∉ offenders -> P' b = P1 b) -> (forall b, b ∈ offenders -> zlen (P' b) <= AccountSlots (sConfig F)) ->
    (forall b, b ∈ q.*1 -> b ∈ offenders) -> withinSlots F P' n').
  { intros P' n' Hsame Hshort Hall. right. intros a Ha. destruct (decide (a ∈ offenders)) as [Hao|Hao]; [by apply Hshort|].
    assert (Haq : a ∉ q.*1) by (by intros Haq; apply Hao, Hall). rewrite Hsame, Hoth by done.
    destruct (Z.le_gt_cases (zlen (P a)) (AccountSlots (sConfig F))) as [|Hg]; [done|]. exfalso. apply Haq, Hin. split; [done|lia]. }
  destruct (list.last offenders) as [last|] eqn:Elast.
  2: { apply last_None in Elast as ->. intros p Hp. exists P1, count. split; [done|]. destruct Hend as [Hend|[_ Hall]]; [by left|].
       apply Hpost; [done|by intros b ?%not_elem_of_nil|done]. }
  assert (Hlast : last ∈ offenders) by (apply last_Some in Elast as [l' ->]; set_solver).
  intros p Hp. assert (Hc0 : 0 <= count) by (rewrite <- (cut_sum _ _ _ _ _ _ _ Hp); apply sumLen_nonneg).
  destruct Hend as [Hdone|[(L' & Hlev & HL') Hall]].
  - assert (HC : config p = sConfig F) by (destruct Hp as [_ _ (A' & _ & _ & Hi')]; exact (f_equal sConfig (inv_scene _ _ _ _ _ _ _ Hi'))).
    assert (Hrun : reduce (Z.to_nat count) offenders last count p = (Ok count, p)).
    { destruct (Z.to_nat count); cbn [reduce]; unfold mbind, st_bind, st_get; rewrite HC, (proj2 (Z.leb_le _ _) Hdone); done. }
    unfold mbind at 1, st_bind at 1. rewrite Hrun. exists P1, count. split; [done|by left].
  - specialize (HL' ltac:(intros ->; by apply not_elem_of_nil in Hlast)).
    pose proof (reduce_spec F A P Q offenders last ltac:(lia) HG Hlast L' P1 count ltac:(lia) Hlev ltac:(lia) p Hp) as Hr.
    unfold mbind at 1, st_bind at 1. destruct (reduce _ _ _ _ p) as [[n'|e|] p']; [|done|done].
    destruct Hr as (P' & Hp' & _ & [(L2 & [_ Hlev2] & _ & _ & Hend2) Hoth2]). exists P', n'. split; [done|].
    destruct Hend2 as [Hend2|Hend2]; [by left|]. apply Hpost; [done| |done]. intros b Hb. by rewrite Hlev2.
Qed.
End Pending.
