(* ===== verification/TxPoolQueue.v ===== *)
(** * The limits of the queue (core/tx_pool.go)

    [truncateQueue], the eviction of old transactions and [SetGasPrice]. *)

From S2P Require Import Prelude Heap Hoare Float Params Types Misc Snapshot StateIface StateTransition Signing.
From S2P Require Import Finalize TxQueue TxPrices TxPricesFacts TxSortedMap TxList TxListFacts TxListHolds TxPoolState TxPool TxPoolReorg TxPoolFacts TxPoolMethods TxPoolHandlers TxPoolAccounts.
From stdpp Require Import functions.
#[local] Open Scope Z_scope.
Import Noncer AccountList Lookup LookupFacts Priced PricedFacts Pool PoolOps PoolReorg.

(** ** Sums over a list of accounts *)

Definition totalOf P (ks : list Address) : Z := zlen (ofAccounts P ks).

Lemma totalOf_nil P : totalOf P [] = 0.
Proof. done. Qed.
Lemma totalOf_cons P a ks : totalOf P (a :: ks) = zlen (P a) + totalOf P ks.
Proof. unfold totalOf, ofAccounts, zlen. csimpl. rewrite length_app. lia. Qed.
Lemma totalOf_perm P ks ks' : ks ≡ₚ ks' -> totalOf P ks = totalOf P ks'.
Proof. intros Hp. unfold totalOf, ofAccounts, zlen. by rewrite Hp. Qed.
Lemma totalOf_nonneg P ks : 0 <= totalOf P ks.
Proof. unfold totalOf, zlen. lia. Qed.

Lemma totalOf_ext P P' ks : (forall a, a ∈ ks -> zlen (P' a) = zlen (P a)) -> totalOf P' ks = totalOf P ks.
Proof.
  induction ks as [|a ks IH]; intros He; [done|]. rewrite !totalOf_cons, He by apply list_elem_of_here. f_equal. apply IH. intros b Hb. by apply He, list_elem_of_further.
Qed.

Lemma totalOf_insert P (a : Address) c ks : NoDup ks -> a ∈ ks -> totalOf (<[a := c]> P) ks = totalOf P ks - zlen (P a) + zlen c.
Proof.
  intros Hnd (ks' & Hk)%elem_of_Permutation. rewrite Hk in Hnd. apply list.NoDup_cons in Hnd as [Ha Hnd]. rewrite !(totalOf_perm _ _ _ Hk), !totalOf_cons, fn_lookup_insert.
  rewrite (totalOf_ext P (<[a := c]> P) ks'); [lia|]. intros b Hb. rewrite fn_lookup_insert_ne; [done|]. congruence.
Qed.

(** Accounts without transactions do not count. *)
Lemma totalOf_support P : forall ks ks', NoDup ks -> NoDup ks' -> (forall a, a ∈ ks' -> a ∈ ks) -> (forall a, a ∈ ks -> P a <> [] -> a ∈ ks') -> totalOf P ks = totalOf P ks'.
Proof.
  induction ks as [|a ks IH]; intros ks' Hnd Hnd' Hsub Hsup.
  - destruct ks' as [|b ks']; [done|]. by destruct (not_elem_of_nil b); apply Hsub, list_elem_of_here.
  - apply list.NoDup_cons in Hnd as [Ha Hnd]. rewrite totalOf_cons. destruct (decide (a ∈ ks')) as [Hin|Hin].
    + apply elem_of_Permutation in Hin as [ks2 Hk]. rewrite (totalOf_perm _ _ _ Hk), totalOf_cons. f_equal. rewrite Hk in Hnd'.
      assert (Hiff : forall b, b ∈ ks' <-> b = a \/ b ∈ ks2) by (intros b; by rewrite Hk, elem_of_cons).
      apply list.NoDup_cons in Hnd' as [Ha2 Hnd2]. apply IH; [done|done|..].
      * intros b Hb. pose proof (Hsub b (proj2 (Hiff b) (or_intror Hb))) as Hs. apply elem_of_cons in Hs as [->|]; done.
      * intros b Hb Hne. destruct (proj1 (Hiff b) (Hsup b (list_elem_of_further _ _ _ Hb) Hne)) as [->|]; done.
    + assert (Hnil : P a = []). { destruct (P a) eqn:E; [done|]. destruct Hin. apply Hsup; [apply list_elem_of_here|congruence]. }
      rewrite Hnil. rewrite (IH ks' Hnd Hnd'); [done|..].
      * intros b Hb. specialize (Hsub b Hb). apply elem_of_cons in Hsub as [->|]; done.
      * intros b Hb Hne. apply Hsup; [by apply list_elem_of_further|done].
Qed.

Lemma sumLen_totalOf s m P ks : lists_rel s None m P -> NoDup ks -> (forall a, P a <> [] -> a ∈ ks) -> sumLen m = totalOf P ks.
Proof.
  intros Hm Hnd Hin. rewrite (sumLen_accounts _ _ _ Hm). fold (totalOf P (map_to_list m).*1). symmetry. apply totalOf_support; [done|apply NoDup_fst_map_to_list|..].
  - intros a (kv & -> & Hkv)%list_elem_of_fmap. destruct kv as [a l]. apply elem_of_map_to_list in Hkv. apply Hin. specialize (Hm a). rewrite Hkv in Hm. cbn [fst]. naive_solver.
  - intros a _ Hne. specialize (Hm a). destruct (m !! a) as [l|] eqn:E; [|by destruct Hm]. apply list_elem_of_fmap. exists (a, l). split; [done|]. by apply elem_of_map_to_list.
Qed.

Section Queue.
Context {St : Type} `{AccountState St} `{TxSigning} `{TxSize} `{Runtime} `{ExTxValidator St}.
Implicit Types (p : TxPool St) (A P Q : store) (op oq : option Address) (F : scene (St:=St)).
Abbreviation Pool := (TxPool St).

Lemma inv_close_queue F op A P Q a p : inv F op (Some a) A P Q p -> Q a <> [] -> inv F op None A P Q p.
Proof. intros [Is Ip Iq Ik Io Ir] Ha. split; try done. by eapply lists_rel_closed. Qed.

Lemma queue_there F op A P Q p a : inv F op None A P Q p -> Q a <> [] <-> queue p !! a <> None.
Proof. intros Hp. pose proof (inv_queue _ _ _ _ _ _ _ Hp a) as Ha. destruct (queue p !! a); naive_solver. Qed.
Lemma pending_there F oq A P Q p a : inv F None oq A P Q p -> P a <> [] <-> pending p !! a <> None.
Proof. intros Hp. pose proof (inv_pending _ _ _ _ _ _ _ Hp a) as Ha. destruct (pending p !! a); naive_solver. Qed.

Lemma same_store P (a : Address) b : (<[a := P a]> P) b = P b.
Proof. apply fn_insert_id. Qed.

Lemma always_flattenQueue F A P Q a : Q a <> [] -> always (inv F None None A P Q) (flattenQueue a) (fun r p => r = Q a /\ inv F None None A P Q p).
Proof.
  intros Hne. unfold flattenQueue. apply always_quiet; [apply quiet_tick|]. intros t.
  eapply triple_conseq with (P' := inv F None (Some a) A P Q); [|intros p Hp; apply inv_open_queue; [done|by apply (queue_there F None A P Q)]|intros ? ? HQ; exact HQ|intros ? ? HE; exact HE].
  eapply triple_conseq; [apply (always_on_queue F None A P Q a _ (fun r c => r = Q a /\ c = Q a))|done| |done].
  - intros l Hh Hst. destruct (@Flatten_holds (rangeAt t) l (Q a) Hh) as (l' & Hrun & Hh' & Hs'). rewrite Hrun. eexists _, l', _. split; [done|]. split; [done|]. split; [congruence|done].
  - intros r p (c & [-> ->] & Hp). split; [done|]. apply (inv_close_queue F None A P Q a p); [|done]. eapply inv_ext; [exact Hp|done|done|]. intros b. by rewrite same_store.
Qed.
Lemma always_flattenPending F A P Q a : P a <> [] -> always (inv F None None A P Q) (flattenPending a) (fun r p => r = P a /\ inv F None None A P Q p).
Proof.
  intros Hne. unfold flattenPending. apply always_quiet; [apply quiet_tick|]. intros t.
  eapply triple_conseq with (P' := inv F (Some a) None A P Q); [|intros p Hp; apply inv_open_pending; [done|by apply (pending_there F None A P Q)]|intros ? ? HQ; exact HQ|intros ? ? HE; exact HE].
  eapply triple_conseq; [apply (always_on_pending F None A P Q a _ (fun r c => r = P a /\ c = P a))|done| |done].
  - intros l Hh Hst. destruct (@Flatten_holds (rangeAt t) l (P a) Hh) as (l' & Hrun & Hh' & Hs'). rewrite Hrun. eexists _, l', _. split; [done|]. split; [done|]. split; [congruence|done].
  - intros r p (c & [-> ->] & Hp). split; [done|]. apply (inv_close_pending F None A P Q a p); [|done]. eapply inv_ext; [exact Hp|done| |done]. intros b. by rewrite same_store.
Qed.

(** Some of the queued transactions of an account are removed. *)
Lemma always_removeQueued F outofbound P a : forall xs rest A Q, settled A P Q -> Q a ≡ₚ xs ++ rest ->
  always (inv F None None A P Q) (st_each (fun tx => removeTx (HashOfTx tx) outofbound) xs)
    (fun _ p => exists c, c ≡ₚ rest /\ inv F None None (<[a := P a ++ c]> A) P (<[a := c]> Q) p).
Proof.
  induction xs as [|x xs IH]; intros rest A Q Hset Hq.
  - intros p Hp. exists (Q a). split; [done|]. eapply inv_ext; [exact Hp| |done|]; intros b; [|by rewrite same_store].
    destruct (decide (a = b)) as [<-|Hb]; [by rewrite fn_lookup_insert|by rewrite fn_lookup_insert_ne].
  - cbn [st_each]. eapply always_bind; [apply always_removeTx_queued; [done|rewrite Hq; apply list_elem_of_here]|].
    intros []. cbv beta. apply triple_exists. intros c. apply triple_pure. intros Hc.
    eapply triple_conseq; [apply (IH rest)|done| |done].
    + by apply settled_queue.
    + rewrite fn_lookup_insert. apply (Permutation_cons_inv (a := x)). by rewrite <- Hc, Hq.
    + intros [] p (d & Hd & Hp). exists d. split; [done|]. eapply inv_ext; [exact Hp| |done|]; intros b; by rewrite insert_twice_ext.
Qed.

(** ** The oldest accounts first *)

(** Only the queue shrank, and only that of the accounts of [l]. *)
Record queue_cut (l : list Address) A P Q A' Q' : Prop := {
  qcut_settled : settled A' P Q';
  qcut_known : forall b y, y ∈ A' b -> y ∈ A b;
  qcut_sub : forall b y, y ∈ Q' b -> y ∈ Q b;
  qcut_other : forall b, b ∉ l -> Q' b = Q b;
}.

Lemma queue_cut_one l A P Q a c rest : settled A P Q -> Q a ≡ₚ rest ++ c -> a ∈ l -> queue_cut l A P Q (<[a := P a ++ c]> A) (<[a := c]> Q).
Proof.
  intros Hset Hq Ha. split.
  - by apply settled_queue.
  - intros b y. destruct (decide (a = b)) as [<-|Hb]; [|by rewrite fn_lookup_insert_ne]. rewrite fn_lookup_insert, (Hset a), Hq. set_solver.
  - intros b y. destruct (decide (a = b)) as [<-|Hb]; [|by rewrite fn_lookup_insert_ne]. rewrite fn_lookup_insert, Hq. set_solver.
  - intros b Hb. apply fn_lookup_insert_ne. congruence.
Qed.
Lemma queue_cut_refl l A P Q : settled A P Q -> queue_cut l A P Q A Q.
Proof. by split. Qed.
Lemma queue_cut_trans l l1 l2 A P Q A1 Q1 A2 Q2 : (forall b, b ∈ l1 -> b ∈ l) -> (forall b, b ∈ l2 -> b ∈ l) ->
  queue_cut l1 A P Q A1 Q1 -> queue_cut l2 A1 P Q1 A2 Q2 -> queue_cut l A P Q A2 Q2.
Proof.
  intros Hl1 Hl2 [Hs Hk Hq Ho] [Hs' Hk' Hq' Ho']. split; [done|eauto|eauto|]. intros b Hb. rewrite Ho', Ho; [done|..]; auto.
Qed.

Lemma always_dropOldest F P ks : NoDup ks -> forall l A Q drop, settled A P Q -> NoDup l.*1 -> (forall a, a ∈ l.*1 -> a ∈ ks /\ Q a <> [] /\ zlen (Q a) < 9223372036854775808) -> 0 <= drop ->
  always (inv F None None A P Q) (dropOldest l drop) (fun _ p => exists A' Q', queue_cut l.*1 A P Q A' Q' /\
    totalOf Q' ks <= totalOf Q ks /\ (totalOf Q' ks <= totalOf Q ks - drop \/ forall a, a ∈ l.*1 -> Q' a = []) /\ inv F None None A' P Q' p).
Proof.
  intros Hks l. induction l as [|[a t] l IH]; intros A Q drop Hset Hnd Hl Hdrop.
  { intros p Hp. exists A, Q. split; [by apply queue_cut_refl|]. split; [done|]. split; [right; by intros a ?%not_elem_of_nil|done]. }
  cbn [dropOldest fmap list_fmap fst] in *. apply list.NoDup_cons in Hnd as [Ha Hnd]. destruct (Hl a (list_elem_of_here _ _)) as (Hak & Hne & Hsm).
  destruct (Z.eqb_spec drop 0) as [->|Hd].
  { intros p Hp. exists A, Q. split; [by apply queue_cut_refl|]. split; [done|]. split; [left; lia|done]. }
  apply triple_get. intros p0 Hp0. assert (Hq0 : queue p0 !! a <> None) by (by apply (queue_there F None A P Q)).
  destruct (queue p0 !! a) as [L|] eqn:E; [clear Hq0|done].
  pose proof (lists_rel_get _ _ _ _ _ _ (inv_queue _ _ _ _ _ _ _ Hp0) E) as [_ Hh]. rewrite (len_holds L _ Hh).
  assert (Hpos : 0 <= zlen (Q a)) by (unfold zlen; lia). rewrite u64_small by word_lia.
  eapply triple_conseq with (P' := inv F None None A P Q); [|by intros s ->|intros ? ? HQ; exact HQ|intros ? ? HE; exact HE].
  eapply always_bind; [by apply always_flattenQueue|]. intros txs. cbv beta. apply triple_pure. intros ->.
  set (k := if zlen (Q a) <=? drop then length (Q a) else Z.to_nat drop).
  assert (Hboth : always (inv F None None A P Q) (_ ← st_each (fun tx => removeTx (HashOfTx tx) true) (take k (Q a)); dropOldest l (drop - Z.min drop (zlen (Q a))))
    (fun _ p => exists A' Q', queue_cut (a :: l.*1) A P Q A' Q' /\ totalOf Q' ks <= totalOf Q ks /\ (totalOf Q' ks <= totalOf Q ks - drop \/ forall b, b ∈ a :: l.*1 -> Q' b = []) /\ inv F None None A' P Q' p)).
  2: { destruct (zlen (Q a) <=? drop) eqn:Ec; unfold k in Hboth.
       - rewrite take_ge in Hboth by done. replace (drop - zlen (Q a)) with (drop - Z.min drop (zlen (Q a))) by (apply Z.leb_le in Ec; lia). exact Hboth.
       - exact Hboth. }
  eapply always_bind; [apply (always_removeQueued F true P a (take k (Q a)) (skipn k (Q a))); [done|by rewrite take_drop]|].
  intros []. cbv beta. apply triple_exists. intros c. apply triple_pure. intros Hc.
  assert (Hone : queue_cut [a] A P Q (<[a := P a ++ c]> A) (<[a := c]> Q)).
  { apply (queue_cut_one _ _ _ _ _ _ (take k (Q a))); [done| |by apply list_elem_of_singleton]. by rewrite Hc, take_drop. }
  assert (Hlen : zlen c = zlen (Q a) - Z.min drop (zlen (Q a))).
  { unfold zlen in *. rewrite (Permutation_length Hc). rewrite length_drop. unfold k, zlen. destruct (Z.leb_spec (Z.of_nat (length (Q a))) drop); lia. }
  eapply triple_conseq; [apply (IH (<[a := P a ++ c]> A) (<[a := c]> Q)); [apply Hone|done| |lia]|done| |done].
  - intros b Hb. rewrite fn_lookup_insert_ne by congruence. by apply Hl, list_elem_of_further.
  - intros [] p (A' & Q' & Hcut & Hle & Hend & Hp). exists A', Q'. rewrite totalOf_insert in Hle by done. split; [|split; [lia|split; [|done]]].
    + eapply queue_cut_trans; [| |exact Hone|exact Hcut]; [intros b ->%list_elem_of_singleton; by left|intros b Hb; by right].
    + rewrite totalOf_insert in Hend by done. destruct Hend as [Hend|Hend]; [left; lia|].
      destruct (Z.le_gt_cases (zlen (Q a)) drop) as [Hfit|Hgt]; [|left; lia].
      right. intros b [->|Hb]%elem_of_cons; [|by apply Hend]. rewrite (qcut_other _ _ _ _ _ _ Hcut) by done. rewrite fn_lookup_insert.
        apply nil_length_inv. unfold zlen in *. lia.
Qed.

(** Within the limit, or only local accounts are left in the queue. *)
Definition withinQueue F p : Prop := sumLen (queue p) <= GlobalQueue (sConfig F) \/ forall a, a ∉ sLocals F -> queue p !! a = None.

Lemma byHeartbeat_spec t p : NoDup (byHeartbeat t p).*1 /\ forall a, a ∈ (byHeartbeat t p).*1 <-> queue p !! a <> None /\ a ∉ locals p.
Proof.
  unfold byHeartbeat. set (w := omap _ (walk t (queue p))).
  assert (Hw : w.*1 = filter (fun a => a ∉ locals p) (walk t (queue p)).*1).
  { unfold w. generalize (walk t (queue p)). intros l. induction l as [|[a x] l IH]; [done|]. csimpl. rewrite filter_cons.
    case_bool_decide as Hl; [rewrite decide_False by tauto|rewrite decide_True by done]; csimpl; [done|by f_equal]. }
  assert (Hperm : (merge_sort olderBeat w).*1 ≡ₚ w.*1) by (by rewrite merge_sort_Permutation). split.
  - rewrite Hperm, Hw. apply list.NoDup_filter. rewrite walk_perm. apply NoDup_fst_map_to_list.
  - intros a. rewrite Hperm, Hw, list_elem_of_filter, walked_in. tauto.
Qed.

Lemma always_truncateQueue F A P Q n : config_ok (sConfig F) -> settled A P Q -> few n A -> n < 9223372036854775808 ->
  always (inv F None None A P Q) truncateQueue (fun _ p => exists A' Q', settled A' P Q' /\ (forall b y, y ∈ A' b -> y ∈ A b) /\
    withinQueue F p /\ inv F None None A' P Q' p).
Proof.
  intros Hc Hset Hf Hn. unfold truncateQueue. apply triple_get. intros p0 Hp0.
  rewrite (f_equal sConfig (inv_scene _ _ _ _ _ _ _ Hp0) : config p0 = sConfig F).
  pose proof (queue_counts F A P Q n p0 Hp0 Hset Hf) as Hcount. pose proof (sumLen_nonneg (queue p0)) as Hpos.
  rewrite totalLen_sum, u64_small by word_lia.
  destruct (Z.leb_spec (sumLen (queue p0)) (GlobalQueue (sConfig F))) as [Hle|Hgt].
  { intros p ->. exists A, Q. split; [done|]. split; [done|]. split; [by left|done]. }
  set (ks := (map_to_list (queue p0)).*1). assert (Hks : NoDup ks) by apply NoDup_fst_map_to_list.
  assert (Hsup : forall a, Q a <> [] -> a ∈ ks).
  { intros a Ha. apply (queue_there F None A P Q p0 a Hp0) in Ha. destruct (queue p0 !! a) as [l|] eqn:E; [|done].
    apply list_elem_of_fmap. exists (a, l). split; [done|]. by apply elem_of_map_to_list. }
  eapply triple_conseq with (P' := inv F None None A P Q); [|by intros s ->|intros ? ? HQ; exact HQ|intros ? ? HE; exact HE].
  apply always_quiet; [apply quiet_tick|]. intros t. destruct (byHeartbeat_spec t p0) as [Hnd Hin].
  rewrite (f_equal sLocals (inv_scene _ _ _ _ _ _ _ Hp0) : locals p0 = sLocals F) in Hin.
  eapply triple_conseq; [apply (always_dropOldest F P ks Hks _ A Q (sumLen (queue p0) - GlobalQueue (sConfig F)) Hset Hnd)|done| |done]; [|lia|].
  - intros a [Ha _]%Hin. apply (queue_there F None A P Q p0 a Hp0) in Ha. split; [by apply Hsup|]. split; [done|].
    pose proof (part_counts F A P Q n p0 a Hp0 Hset Hf) as Hpart. unfold zlen in *. rewrite (Permutation_length (Hset a)), length_app in Hpart. lia.
  - intros [] p (A' & Q' & [Hset' Hk Hsub Hoth] & _ & Hend & Hp). exists A', Q'. split; [done|]. split; [done|]. split; [|done].
    destruct Hend as [Hend|Hend].
    + left. rewrite (sumLen_totalOf _ _ _ ks (inv_queue _ _ _ _ _ _ _ Hp) Hks).
      * rewrite (sumLen_totalOf _ _ _ ks (inv_queue _ _ _ _ _ _ _ Hp0) Hks Hsup) in Hend. lia.
      * intros a Ha. apply Hsup. intros Hnil. apply Ha. destruct (Q' a) as [|y l] eqn:E; [done|]. exfalso. apply (not_elem_of_nil y).
        rewrite <- Hnil. apply Hsub. rewrite E. apply list_elem_of_here.
    + right. intros a Ha. destruct (queue p !! a) as [l|] eqn:E; [|done]. exfalso.
      assert (HQ' : Q' a <> []) by (apply (queue_there F None A' P Q' p a Hp); by rewrite E).
      assert (HQa : a ∉ (byHeartbeat t p0).*1) by (intros Hb; by apply HQ', Hend). apply HQa, Hin. split; [|done].
      apply (queue_there F None A P Q p0 a Hp0). by rewrite <- Hoth.
Qed.

(** ** Eviction *)

Lemma always_evictAccount F A P Q a : settled A P Q ->
  always (inv F None None A P Q) (evictAccount a) (fun _ p => exists A' Q', queue_cut [a] A P Q A' Q' /\ inv F None None A' P Q' p).
Proof.
  intros Hset. unfold evictAccount. apply triple_get. intros p0 Hp0.
  eapply triple_conseq with (P' := inv F None None A P Q); [|by intros s ->|intros ? ? HQ; exact HQ|intros ? ? HE; exact HE].
  assert (Hnone : always (inv F None None A P Q) (mret tt) (fun _ p => exists A' Q', queue_cut [a] A P Q A' Q' /\ inv F None None A' P Q' p)).
  { intros p Hp. exists A, Q. split; [by apply queue_cut_refl|done]. }
  case_bool_decide; [exact Hnone|]. apply always_quiet; [apply quiet_tick|]. intros t. case_if; [|exact Hnone].
  pose proof (queue_there F None A P Q p0 a Hp0) as Hth. destruct (queue p0 !! a) as [l|]; [|exact Hnone].
  eapply always_bind; [apply always_flattenQueue; by apply Hth|]. intros txs. cbv beta. apply triple_pure. intros ->.
  eapply triple_conseq; [apply (always_removeQueued F true P a (Q a) []); [done|by rewrite app_nil_r]|done| |done].
  intros [] p (c & Hc & Hp). exists (<[a := P a ++ c]> A), (<[a := c]> Q). split; [|done].
  apply (queue_cut_one _ _ _ _ _ _ (Q a)); [done|by rewrite Hc, app_nil_r|by apply list_elem_of_singleton].
Qed.

(** The eviction touches the queue of accounts that are not local alone. *)
Lemma always_evict F A P Q : settled A P Q ->
  always (inv F None None A P Q) evict (fun _ p => exists A' Q', settled A' P Q' /\ (forall b y, y ∈ A' b -> y ∈ A b) /\ inv F None None A' P Q' p).
Proof.
  intros Hset. unfold evict. apply always_quiet; [apply quiet_tick|]. intros t. apply triple_get. intros p0 Hp0.
  eapply triple_conseq with (P' := inv F None None A P Q); [|by intros s ->|intros ? ? HQ; exact HQ|intros ? ? HE; exact HE].
  clear Hp0. generalize (walk t (queue p0)).*1. intros l. clear p0 t. revert A Q Hset. induction l as [|a l IH]; intros A Q Hset.
  { intros p Hp. by exists A, Q. }
  cbn [st_each]. eapply always_bind; [by apply always_evictAccount|]. intros []. cbv beta. apply triple_exists. intros A1. apply triple_exists. intros Q1.
  apply triple_pure. intros [Hset1 Hk1 _ _]. eapply triple_conseq; [by apply IH|done| |done].
  intros [] p (A' & Q' & Hset' & Hk' & Hp). exists A', Q'. split; [done|]. split; [eauto|done].
Qed.

(** ** The price limit *)

(** No remote transaction is new. *)
Definition noNewRemotes (t0 : txLookup) p : Prop :=
  lookup_ok (all p) /\ forall h y, Lookup.remotes (all p) !! h = Some y -> Lookup.remotes t0 !! h = Some y.

Lemma remotes_modify t0 (f : Pool -> Pool) : (forall p, all (f p) = all p) -> preserves (noNewRemotes t0) (st_modify f).
Proof. intros Hf. apply preserves_modify. intros p Hp. unfold noNewRemotes. by rewrite Hf. Qed.
Lemma remotes_keeps {X} t0 (m : ST Pool X) : st_keeps all m -> preserves (noNewRemotes t0) m.
Proof. intros Hm p [Hok Hs]. pose proof (Hm p : all (m p).2 = all p) as He. split; rewrite He; [exact Hok|exact Hs]. Qed.
Lemma remotes_forget t0 h : preserves (noNewRemotes t0) (forget h).
Proof.
  intros p [Hok Hs]. unfold forget, st_modify. destruct (Remove_ok h (all p) Hok) as (Hok' & _ & Hsub). split; [done|]. intros k y Hy. by apply Hs, Hsub.
Qed.
Lemma remotes_removed t0 n : preserves (noNewRemotes t0) (removed n).
Proof. apply remotes_keeps. intros p. unfold removed, mbind, st_bind, tick, st_get, st_lift. cbn. by destruct (Priced.Removed _ _ _ _). Qed.
Lemma remotes_on_pending {X} t0 a (f : txList -> res (X * txList)) : preserves (noNewRemotes t0) (on_pending a f).
Proof. apply remotes_keeps. intros p. unfold on_pending. destruct (pending p !! a) as [l|]; [|done]. by destruct (f l) as [[x l']|e|]. Qed.
Lemma remotes_on_queue {X} t0 a (f : txList -> res (X * txList)) : preserves (noNewRemotes t0) (on_queue a f).
Proof. apply remotes_keeps. intros p. unfold on_queue. destruct (queue p !! a) as [l|]; [|done]. by destruct (f l) as [[x l']|e|]. Qed.
Lemma remotes_tick t0 : preserves (noNewRemotes t0) tick.
Proof. by apply remotes_keeps. Qed.
#[local] Hint Resolve remotes_forget remotes_removed remotes_on_pending remotes_on_queue remotes_tick : frame.

Lemma remotes_removeTx t0 h outofbound : preserves (noNewRemotes t0) (removeTx h outofbound).
Proof.
  unfold removeTx, removePending, dropEmptyPending, dropEmptyQueue, requeue, lowerNonce, enqueueTx, addToQueue, dropOld, beat, ticks4.
  repeat first [solve [auto with frame] | (apply remotes_modify; intros ?; repeat case_match; done) | frame_step].
Qed.

(** After the price limit rose no remote transaction is below it. *)
Lemma always_SetGasPrice F A P Q price : settled A P Q ->
  always (fun p => inv F None None A P Q p /\ gasPrice p < price) (SetGasPrice price) (fun _ p => exists A' P' Q', settled A' P' Q' /\
    (forall b y, y ∈ A' b -> y ∈ A b) /\ (forall b y, y ∈ A b -> y ∉ A' b -> TxGasTipCap y < price) /\
    (forall h y, Lookup.remotes (all p) !! h = Some y -> price <= TxGasTipCap y) /\ inv F None None A' P' Q' p).
Proof.
  intros Hset p0 [Hp0 Hlow]. unfold SetGasPrice. apply triple_get with (P := fun p => p = p0); [|done]. intros ? ->.
  rewrite (proj2 (Z.ltb_lt _ _) Hlow).
  set (t := ticks p0). set (drop := RemotesBelowTip t price (all p0)).
  set (I := noNewRemotes (all p0)).
  assert (Hrun : triple (fun p => inv F None None A P Q p /\ I p) (_ ← st_each (fun tx => removeTx (HashOfTx tx) false) drop; removed (zlen drop))
    (fun _ p => (exists A' P' Q', settled A' P' Q' /\ shrinks (fun y => HashOfTx y ∈ HashOfTx <$> drop) A P A' P' /\ (forall b y, y ∈ A' b -> HashOfTx y ∉ HashOfTx <$> drop) /\
       inv F None None A' P' Q' p) /\ I p) (fun _ p => False /\ I p)).
  { apply triple_preserves.
    - eapply always_bind; [by apply always_removeTxs|]. intros []. cbv beta.
      apply triple_exists; intros A1. apply triple_exists; intros P1. apply triple_exists; intros Q1.
      apply triple_pure. intros Hset1. apply triple_pure. intros Hk1. apply triple_pure. intros Hno1.
      eapply triple_conseq; [apply quiet_removed|done| |done]. intros [] p Hp. by exists A1, P1, Q1.
    - apply preserves_bind; [apply preserves_each; intros tx; apply remotes_removeTx|intros []; apply remotes_removed]. }
  set (p1 := set_ticks (S t) (set_gasPrice price p0)).
  assert (Hp1 : inv F None None A P Q p1) by (by apply (inv_same _ _ _ _ _ _ p0)).
  assert (HI1 : I p1) by (split; [apply (inv_knows _ _ _ _ _ _ _ Hp0)|done]).
  specialize (Hrun p1 (conj Hp1 HI1)). intros p ->.
  change (match (_ ← st_each (fun tx => removeTx (HashOfTx tx) false) drop; removed (zlen drop)) p1 with
    | (Ok a, s') => exists A' P' Q', settled A' P' Q' /\ (forall b y, y ∈ A' b -> y ∈ A b) /\ (forall b y, y ∈ A b -> y ∉ A' b -> TxGasTipCap y < price) /\ (forall h y, Lookup.remotes (all s') !! h = Some y -> price <= TxGasTipCap y) /\ inv F None None A' P' Q' s'
    | (Err e, s') => False | (Panic, _) => False end).
  destruct ((_ ← st_each (fun tx => removeTx (HashOfTx tx) false) drop; removed (zlen drop)) p1) as [[[]|e|] p']; [|by destruct Hrun|done].
  destruct Hrun as [(A' & P' & Q' & Hset' & Hk & Hno & Hp') [_ HI]]. exists A', P', Q'. split; [done|]. split; [apply Hk|]. split; [|split; [|done]].
  { intros b y Hy Hn. apply (shrink_only _ _ _ _ _ Hk b y Hy) in Hn. apply list_elem_of_fmap in Hn as (x & Hh & Hx).
    unfold drop, RemotesBelowTip in Hx. apply list_elem_of_filter in Hx as [Hlt Hx]. apply remoteTxs_elem in Hx as [h Hx].
    pose proof (inv_knows _ _ _ _ _ _ _ Hp0) as [Hok Hiff]. pose proof (remote_hash _ _ _ Hok Hx) as <-.
    assert (Hg : Lookup.Get (HashOfTx x) (all p0) = Some x) by (apply Get_cases; right; split; [|done]; by eapply map_disjoint_Some_r; [apply (lookup_apart _ Hok)|]).
    rewrite <- Hh, (knows_get _ A b y (conj Hok Hiff) (inv_owned _ _ _ _ _ _ _ Hp0) Hy) in Hg. by injection Hg as ->. }
  intros h y Hy. pose proof (HI h y Hy) as Hy0. destruct (Z.le_gt_cases price (TxGasTipCap y)) as [|Hgt]; [done|]. exfalso.
  pose proof (inv_knows _ _ _ _ _ _ _ Hp') as [Hok' Hiff].
  assert (Hg : Lookup.Get h (all p') = Some y).
  { apply Get_cases. right. split; [|done]. by eapply map_disjoint_Some_r; [apply (lookup_apart _ Hok')|]. }
  apply Hiff in Hg as [Hh Hin]. apply (Hno _ _ Hin). apply list_elem_of_fmap_2. unfold drop, RemotesBelowTip. apply list_elem_of_filter. split; [lia|].
  apply remoteTxs_elem. by exists h.
Qed.
End Queue.
