(* ===== verification/TxPoolRun.v ===== *)
(** * The reorganisation of the pool (core/tx_pool.go)

    [runReorg]: the reset to a new head, the promotions, the demotions, and the
    limits; the whole of it keeps the pool whole and within its limits. *)

From S2P Require Import Prelude Heap Hoare Float Params Types Misc Snapshot StateIface StateTransition Signing Finalize TxQueue TxPrices.
From S2P Require Import TxPricesFacts TxSortedMap TxList TxListFacts TxListHolds TxPoolState TxPool TxPoolReorg TxPoolFacts TxPoolMethods TxPoolHandlers TxPoolAccounts TxPoolQueue.
From S2P Require Import TxPoolPending.
From stdpp Require Import functions.

(** ** A new head of the chain (core/tx_pool.go)

    [reset] walks from the old and the new head to their common block, moves the
    pool to the new state and adds the transactions that were lost again. *)

#[local] Open Scope Z_scope.
Import Noncer AccountList Lookup LookupFacts Priced PricedFacts Pool PoolOps PoolReorg.

(** What the pool needs of a header that becomes the head. *)
Record head_ok (h : Header) : Prop := {
  head_number : Number h <> None;
  head_difficulty : Difficulty h <> None;
  head_gas : ElasticityMultiplier <= GasLimit h;
}.

Lemma CalcBaseFee_total config h : head_ok h -> exists fee, CalcBaseFee config h = Ok fee.
Proof.
  intros [_ _ Hg]. unfold CalcBaseFee. case_if; [by eexists|]. destruct (BaseFee h) as [fee|]; [|by eexists]. cbv zeta.
  assert (Ht : 0 < GasLimit h / ElasticityMultiplier) by (unfold ElasticityMultiplier in *; lia).
  assert (Hdiv : forall x y, y <> 0 -> exists z, bigDiv x y = Ok z) by (intros x y Hy; unfold bigDiv; rewrite (proj2 (Z.eqb_neq y 0) Hy); by eexists).
  case_if; [by eexists|]. case_if.
  - destruct (Hdiv (fee * (GasUsed h -w GasLimit h / ElasticityMultiplier)) (GasLimit h / ElasticityMultiplier)) as [y ->]; [lia|]. cbn [mbind res_bind].
    destruct (Hdiv y BaseFeeChangeDenominator) as [z ->]; [done|]. by eexists.
  - destruct (Hdiv (fee * (GasLimit h / ElasticityMultiplier -w GasUsed h)) (GasLimit h / ElasticityMultiplier)) as [y ->]; [lia|]. cbn [mbind res_bind].
    destruct (Hdiv y BaseFeeChangeDenominator) as [z ->]; [done|]. cbn [mbind res_bind]. case_if; by eexists.
Qed.

(** The database finds a block under its number, and none at the end of the
    numbers; nonces are words. *)
Class ChainLaws {St : Type} `{PoolChain St} : Prop := {
  block_number : forall h n b, GetBlock h n = Some b -> blockNumber b = n;
  block_last : forall h, GetBlock h 18446744073709551615 = None;
  block_nonces : forall h n b, GetBlock h n = Some b -> Forall (fun tx => is_u64 (TxNonce tx)) (blockTxs b);
}.
Arguments ChainLaws St {_}.

Section Chain.
Context {St : Type} `{Crypto} `{TxSigning} `{PoolChain St}.

(** The blocks from [b] down to [c], without [c]: their transactions. *)
Inductive branch : ChainBlock -> ChainBlock -> list Transaction -> Prop :=
  | branch_here b : branch b b []
  | branch_parent b b' c txs : parentBlock b = Some b' -> branch b' c txs -> branch b c (blockTxs b ++ txs).

Lemma branch_end b c d txs : branch b c txs -> parentBlock c = Some d -> branch b d (txs ++ blockTxs c).
Proof.
  induction 1 as [b|b b' c txs Hp Hb IH]; intros Hd.
  - cbn [app]. rewrite <- (app_nil_r (blockTxs b)). eapply branch_parent; [done|constructor].
  - rewrite <- app_assoc. eapply branch_parent; [done|by apply IH].
Qed.

Lemma branch_trans b c d txs txs' : branch b c txs -> branch c d txs' -> branch b d (txs ++ txs').
Proof. induction 1 as [b|b b' c txs Hp Hb IH]; intros Hd; [done|]. rewrite <- app_assoc. eapply branch_parent; [done|by apply IH]. Qed.

Lemma blockNumber_range b : is_u64 (blockNumber b).
Proof. unfold blockNumber, NumberU64. apply u64_range. Qed.

Context `{!ChainLaws St}.

Lemma parent_number b b' : parentBlock b = Some b' -> blockNumber b' = blockNumber b - 1 /\ 0 < blockNumber b.
Proof.
  intros Hp. unfold parentBlock in Hp. pose proof (block_number _ _ _ Hp) as Hn. pose proof (blockNumber_range b) as Hr. rewrite Hn.
  destruct (decide (blockNumber b = 0)) as [Hz|Hz]; [|unfold is_u64 in Hr; split; [|lia]; word_lia].
  rewrite Hz in Hp. change (0 -w 1) with 18446744073709551615 in Hp. by rewrite block_last in Hp.
Qed.

(** The walk ends: with the ancestor at the lower number, or at a hole. *)
Lemma descend_spec low : 0 <= low -> forall fuel b txs, (Z.to_nat (blockNumber b) < fuel)%nat ->
  descend fuel low b txs = Ok None \/
  exists c ts, descend fuel low b txs = Ok (Some (c, txs ++ ts)) /\ branch b c ts /\ (blockNumber c = low \/ (c = b /\ blockNumber b <= low)) /\
    (blockNumber c <= low).
Proof.
  intros Hlow. induction fuel as [|fuel IH]; intros b txs Hf; [lia|]. cbn [descend].
  destruct (Z.leb_spec (blockNumber b) low) as [Hle|Hgt].
  { right. exists b, []. rewrite app_nil_r. split; [done|]. split; [constructor|]. split; [|done]. by right. }
  destruct (parentBlock b) as [b'|] eqn:Ep; [|by left]. destruct (parent_number b b' Ep) as [Hn Hpos].
  destruct (IH b' (txs ++ blockTxs b)) as [Hnone|(c & ts & Hrun & Hb & Hc & Hcl)]; [lia|by left|].
  right. exists c, (blockTxs b ++ ts). rewrite Hrun, <- app_assoc. split; [done|]. split; [by eapply branch_parent|]. split; [|done]. left.
  destruct Hc as [|[-> Hle]]; [done|]. lia.
Qed.

Lemma meet_spec : forall fuel b1 b2 d i, blockNumber b1 = blockNumber b2 -> (Z.to_nat (blockNumber b1) < fuel)%nat ->
  meet fuel b1 b2 d i = Ok None \/
  exists c1 c2 d' i', meet fuel b1 b2 d i = Ok (Some (d ++ d', i ++ i')) /\ branch b1 c1 d' /\ branch b2 c2 i' /\
    HeaderHash (blockHeader c1) = HeaderHash (blockHeader c2).
Proof.
  induction fuel as [|fuel IH]; intros b1 b2 d i Hn Hf; [lia|]. cbn [meet].
  destruct (Z.eqb_spec (HeaderHash (blockHeader b1)) (HeaderHash (blockHeader b2))) as [He|Hne].
  { right. exists b1, b2, [], []. rewrite !app_nil_r. split; [done|]. split; [constructor|]. split; [constructor|done]. }
  destruct (parentBlock b1) as [b1'|] eqn:E1; [|by left]. destruct (parentBlock b2) as [b2'|] eqn:E2; [|by left].
  destruct (parent_number _ _ E1) as [Hn1 Hp1], (parent_number _ _ E2) as [Hn2 Hp2].
  destruct (IH b1' b2' (d ++ blockTxs b1) (i ++ blockTxs b2)) as [Hnone|(c1 & c2 & d' & i' & Hrun & Hb1 & Hb2 & Hc)]; [lia|lia|by left|].
  right. exists c1, c2, (blockTxs b1 ++ d'), (blockTxs b2 ++ i'). rewrite Hrun, <- !app_assoc. split; [done|].
  split; [by eapply branch_parent|]. split; [by eapply branch_parent|done].
Qed.

Lemma branch_nonces b c txs : Forall (fun tx => is_u64 (TxNonce tx)) (blockTxs b) -> branch b c txs -> Forall (fun tx => is_u64 (TxNonce tx)) txs.
Proof.
  intros Hb Hbr. induction Hbr as [b|b b' c txs Hp Hbr IH]; [constructor|]. apply Forall_app. split; [done|]. apply IH. by eapply block_nonces.
Qed.

(** [reset] gives up, finds that nothing has to be added again, or that the
    transactions of the old branch that are not in the new one have to be. *)
Inductive lost (oldHead newHead : Header) : option (list Transaction) -> Prop :=
  | lost_unknown : lost oldHead newHead None
  | lost_nothing : lost oldHead newHead (Some [])
  | lost_branch old new c1 c2 discarded included :
      GetBlock (HeaderHash oldHead) (NumberU64 oldHead) = Some old -> GetBlock (HeaderHash newHead) (NumberU64 newHead) = Some new ->
      branch old c1 discarded -> branch new c2 included -> HeaderHash (blockHeader c1) = HeaderHash (blockHeader c2) ->
      lost oldHead newHead (Some (TxDifference discarded included)).

Variable oob : SpecFloat.spec_float -> Z.

Lemma reorged_spec oldHead newHead : Number oldHead <> None -> Number newHead <> None ->
  GetBlock (HeaderHash newHead) (NumberU64 newHead) <> None ->
  exists r, reorged oob oldHead newHead = Ok r /\ lost oldHead newHead r.
Proof.
  intros Ho Hn Hnew. unfold reorged. destruct (HeaderHash oldHead =? ParentHash newHead); [eexists; split; [done|constructor]|].
  destruct (Number oldHead) as [on|]; [|done]. destruct (Number newHead) as [nn|]; [|done]. cbv zeta.
  destruct (64 <? _); [eexists; split; [done|constructor]|].
  destruct (GetBlock (HeaderHash newHead) (NumberU64 newHead)) as [add|] eqn:Ea; [|done]. clear Hnew.
  destruct (GetBlock (HeaderHash oldHead) (NumberU64 oldHead)) as [rem|] eqn:Er.
  2: { case_if; eexists; (split; [done|constructor]). }
  pose proof (blockNumber_range add) as Hra. pose proof (blockNumber_range rem) as Hrr. unfold is_u64 in *.
  destruct (descend_spec (blockNumber add) ltac:(lia) (Z.to_nat (blockNumber rem) + 1) rem []) as [->|(c1 & d1 & -> & Hb1 & Hc1 & Hl1)]; [lia|eexists; split; [done|constructor]|].
  cbn [mbind res_bind app]. pose proof (blockNumber_range c1) as Hrc. unfold is_u64 in *.
  destruct (descend_spec (blockNumber c1) ltac:(lia) (Z.to_nat (blockNumber add) + 1) add []) as [->|(c2 & i2 & -> & Hb2 & Hc2 & Hl2)]; [lia|eexists; split; [done|constructor]|].
  cbn [mbind res_bind app].
  destruct (meet_spec (Z.to_nat (blockNumber c1) + 1) c1 c2 d1 i2) as [->|(e1 & e2 & d' & i' & -> & He1 & He2 & Hh)];
    [destruct Hc1 as [Hc1|[-> Hc1]], Hc2 as [Hc2|[-> Hc2]]; lia|lia|eexists; split; [done|constructor]|].
  eexists. split; [done|]. eapply lost_branch; [done|done|by eapply branch_trans|by eapply branch_trans|done].
Qed.

Lemma lost_nonces oldHead newHead txs : lost oldHead newHead (Some txs) -> Forall (fun tx => is_u64 (TxNonce tx)) txs.
Proof.
  inversion 1 as [| |old new c1 c2 d i Ho Hn Hb1 Hb2 Hh]; subst; [constructor|]. apply list.Forall_forall. intros x [Hx _]%TxDifference_elem.
  pose proof (branch_nonces old c1 d (block_nonces _ _ _ Ho) Hb1) as Hf. rewrite list.Forall_forall in Hf. by apply Hf.
Qed.

(** ** Branches that meet *)

Lemma branch_number b c txs : branch b c txs -> blockNumber c <= blockNumber b /\ (blockNumber c = blockNumber b -> b = c).
Proof.
  induction 1 as [b|b b' c txs Hp Hb [IH _]]; [done|]. destruct (parent_number b b' Hp) as [Hn _]. split; [lia|]. intros He. lia.
Qed.

Lemma descend_meets low b c ts : branch b c ts -> blockNumber c <= low -> forall fuel txs, (Z.to_nat (blockNumber b) < fuel)%nat ->
  exists c1 d rest, descend fuel low b txs = Ok (Some (c1, txs ++ d)) /\ branch b c1 d /\ branch c1 c rest /\
    (blockNumber c1 = low \/ (c1 = b /\ blockNumber b <= low)).
Proof.
  intros Hbr Hc. induction Hbr as [b|b b' c ts Hp Hbr IH]; intros fuel txs Hf; (destruct fuel as [|fuel]; [lia|]); cbn [descend].
  - rewrite (proj2 (Z.leb_le _ _) Hc). exists b, [], []. rewrite app_nil_r. split; [done|]. split; [constructor|]. split; [constructor|by right].
  - destruct (Z.leb_spec (blockNumber b) low) as [Hle|Hgt].
    + exists b, [], (blockTxs b ++ ts). rewrite app_nil_r. split; [done|]. split; [constructor|]. split; [by eapply branch_parent|by right].
    + rewrite Hp. destruct (parent_number b b' Hp) as [Hn Hpos].
      destruct (IH Hc fuel (txs ++ blockTxs b)) as (c1 & d & rest & Hrun & Hb1 & Hb2 & Hn1); [lia|].
      exists c1, (blockTxs b ++ d), rest. rewrite Hrun, <- app_assoc. split; [done|]. split; [by eapply branch_parent|]. split; [done|].
      left. destruct Hn1 as [|[-> Hle]]; [done|lia].
Qed.

Lemma meet_meets c : forall fuel b1 b2 d i r1 r2, blockNumber b1 = blockNumber b2 -> branch b1 c r1 -> branch b2 c r2 -> (Z.to_nat (blockNumber b1) < fuel)%nat ->
  exists e1 e2 d' i', meet fuel b1 b2 d i = Ok (Some (d ++ d', i ++ i')) /\ branch b1 e1 d' /\ branch b2 e2 i' /\
    HeaderHash (blockHeader e1) = HeaderHash (blockHeader e2) /\ blockNumber e1 = blockNumber e2 /\ blockNumber c <= blockNumber e1.
Proof.
  induction fuel as [|fuel IH]; intros b1 b2 d i r1 r2 Hn Hb1 Hb2 Hf; [lia|]. cbn [meet].
  destruct (branch_number _ _ _ Hb1) as [Hle1 Heq1], (branch_number _ _ _ Hb2) as [Hle2 Heq2].
  destruct (Z.eqb_spec (HeaderHash (blockHeader b1)) (HeaderHash (blockHeader b2))) as [He|Hne].
  { exists b1, b2, [], []. rewrite !app_nil_r. split; [done|]. split; [constructor|]. split; [constructor|]. done. }
  inversion Hb1 as [x|x b1' y t1 Hp1 Ht1]; subst.
  { destruct Hne. by rewrite <- (Heq2 Hn). }
  inversion Hb2 as [x|x b2' y t2 Hp2 Ht2]; subst.
  { destruct Hne. rewrite <- (Heq1 (eq_sym Hn)). done. }
  rewrite Hp1, Hp2. destruct (parent_number _ _ Hp1) as [Hn1 Hpos1], (parent_number _ _ Hp2) as [Hn2 _].
  destruct (IH b1' b2' (d ++ blockTxs b1) (i ++ blockTxs b2) t1 t2) as (e1 & e2 & d' & i' & Hrun & He1 & He2 & Hh & Hen & Hc); [lia|done|done|lia|].
  exists e1, e2, (blockTxs b1 ++ d'), (blockTxs b2 ++ i'). rewrite Hrun, <- !app_assoc. split; [done|].
  split; [by eapply branch_parent|]. split; [by eapply branch_parent|done].
Qed.

Lemma reorged_meets oldHead newHead old new c d0 i0 : Number oldHead <> None -> Number newHead <> None -> HeaderHash oldHead <> ParentHash newHead ->
  f64_to_u64 oob (SpecFloat.SFabs (SpecFloat.SFsub 53 1024 (f64_of_Z (NumberU64 oldHead)) (f64_of_Z (NumberU64 newHead)))) <= 64 ->
  GetBlock (HeaderHash oldHead) (NumberU64 oldHead) = Some old -> GetBlock (HeaderHash newHead) (NumberU64 newHead) = Some new ->
  branch old c d0 -> branch new c i0 ->
  exists e1 e2 d i, reorged oob oldHead newHead = Ok (Some (TxDifference d i)) /\ branch old e1 d /\ branch new e2 i /\
    HeaderHash (blockHeader e1) = HeaderHash (blockHeader e2) /\ blockNumber c <= blockNumber e1.
Proof.
  intros Ho Hn Hpar Hdepth Hold Hnew Hb1 Hb2. unfold reorged. rewrite (proj2 (Z.eqb_neq _ _) Hpar).
  destruct (Number oldHead) as [on|]; [|done]. destruct (Number newHead) as [nn|]; [|done]. cbv zeta.
  rewrite (proj2 (Z.ltb_ge _ _) Hdepth), Hold, Hnew.
  pose proof (blockNumber_range new) as Hra. pose proof (blockNumber_range old) as Hrr. pose proof (blockNumber_range c) as Hrc. unfold is_u64 in *.
  destruct (branch_number _ _ _ Hb1) as [Hle1 _], (branch_number _ _ _ Hb2) as [Hle2 _].
  destruct (descend_meets (blockNumber new) old c d0 Hb1 Hle2 (Z.to_nat (blockNumber old) + 1) []) as (c1 & d1 & r1 & -> & Hd1 & Hr1 & Hc1); [lia|].
  cbn [mbind res_bind app]. destruct (branch_number _ _ _ Hr1) as [Hlc1 _].
  destruct (descend_meets (blockNumber c1) new c i0 Hb2 Hlc1 (Z.to_nat (blockNumber new) + 1) []) as (c2 & i2 & r2 & -> & Hi2 & Hr2 & Hc2); [lia|].
  cbn [mbind res_bind app]. destruct (branch_number _ _ _ Hr2) as [Hlc2 _]. pose proof (blockNumber_range c1) as Hrc1. unfold is_u64 in *.
  assert (Heq : blockNumber c1 = blockNumber c2) by (destruct Hc1 as [Hc1|[-> Hc1]], Hc2 as [Hc2|[-> Hc2]]; lia).
  destruct (meet_meets c (Z.to_nat (blockNumber c1) + 1) c1 c2 d1 i2 r1 r2 Heq Hr1 Hr2) as (e1 & e2 & d' & i' & -> & He1 & He2 & Hh & _ & Hc); [lia|].
  exists e1, e2, (d1 ++ d'), (i2 ++ i'). split; [done|]. split; [by eapply branch_trans|]. split; [by eapply branch_trans|done].
Qed.
End Chain.

#[local] Open Scope Z_scope.
Import Noncer AccountList Lookup LookupFacts Priced PricedFacts Pool PoolOps PoolReorg.

Section Run.
Context {St : Type} `{Crypto} `{AccountState St} `{TxSigning} `{TxSize} `{Runtime} `{ExTxValidator St} `{PoolChain St}.
Context `{!PoolLaws (St:=St)} `{!ChainLaws St}.
Implicit Types (p : TxPool St) (A P Q : store) (op oq : option Address) (F : scene (St:=St)).
Abbreviation Pool := (TxPool St).
Variable oob : SpecFloat.spec_float -> Z.

(** ** The reset *)

Lemma onHead_whole C n newHead reinject : config_ok C -> head_ok newHead -> Forall (fun tx => is_u64 (TxNonce tx)) reinject ->
  always (whole C n) (onHead newHead reinject) (fun _ => whole C (n + zlen reinject)).
Proof.
  intros Hc [Hnum Hdiff _] Hu. unfold onHead. destruct (StateAt (Root newHead)) as [statedb|].
  2: { intros p Hp. eapply whole_mono; [exact Hp|]. unfold zlen. lia. }
  eapply always_bind with (R := fun _ => whole C n).
  { intros p (F & A & P & Q & Hg & HC & Hf & Hset & Hp). apply (whole_make C n (mkScene C (sLocals F) statedb (GasLimit newHead) []) A P Q); [done|done|done|done|].
    destruct Hp as [Is Ip Iq Ik Io Ir]. rewrite Hg in Ir. split; try done. unfold sceneOf. cbn. rewrite <- HC, <- Is. done. }
  intros []. cbv beta. destruct (Number newHead) as [number|] eqn:En; [|done].
  apply triple_get. intros p0 Hp0. eapply triple_conseq with (P' := whole C n); [|by intros s ->|intros ? ? HQ; exact HQ|intros ? ? HE; exact HE].
  eapply always_bind with (R := fun _ => whole C n).
  { destruct (txValidator p0); [|by intros p Hp]. apply quiet_whole. apply quiet_bind; [|intros []; by apply quiet_modify].
    unfold makeFakeHeader. rewrite En. destruct (Difficulty newHead); [by apply quiet_modify|done]. }
  intros []. cbv beta. eapply always_bind; [by apply addTxsLocked_whole|]. intros r p [_ Hp]. revert p Hp.
  apply (quiet_whole C _ (st_modify _)). by apply quiet_modify.
Qed.

(** What a reset asks for: [newHead] is known, and so is its block. *)
Definition reset_ok (oldHead newHead : option Header) : Prop :=
  match oldHead, newHead with
  | None, None => head_ok CurrentHeader
  | None, Some h => head_ok h
  | Some _, None => False
  | Some o, Some h => Number o <> None /\ head_ok h /\ GetBlock (HeaderHash h) (NumberU64 h) <> None
  end.

(** The number of transactions that may come back. *)
Definition reinjects (oldHead newHead : option Header) (k : Z) : Prop :=
  0 <= k /\ match oldHead, newHead with
            | Some o, Some h => forall txs, reorged oob o h = Ok (Some txs) -> zlen txs <= k
            | _, _ => True
            end.

Lemma reset_whole C n k oldHead newHead : config_ok C -> reset_ok oldHead newHead -> reinjects oldHead newHead k ->
  always (whole C n) (reset oob oldHead newHead) (fun _ => whole C (n + k)).
Proof.
  intros Hc Hok [Hk Hre]. unfold reset.
  assert (Hhead : forall h txs, head_ok h -> Forall (fun tx => is_u64 (TxNonce tx)) txs -> zlen txs <= k -> always (whole C n) (onHead h txs) (fun _ => whole C (n + k))).
  { intros h txs Hh Hu Hl. eapply triple_conseq; [by apply onHead_whole|done| |done]. intros [] p Hp. eapply whole_mono; [exact Hp|lia]. }
  destruct oldHead as [o|], newHead as [h|]; cbn [reset_ok] in Hok; [|done|..]; [|apply triple_ret_bind; apply Hhead; [done|constructor|done]..].
  destruct Hok as (Ho & Hh & Hb). destruct (reorged_spec oob o h Ho (head_number _ Hh) Hb) as (r & Hr & Hl). rewrite Hr. apply triple_lift_bind.
  destruct r as [txs|].
  - apply Hhead; [done|by eapply lost_nonces|by apply Hre].
  - intros p Hp. eapply whole_mono; [exact Hp|lia].
Qed.

(** ** The events *)

Lemma forwardLoop_total t : forall fuel m, (length (SortedMap.index m) <= fuel)%nat -> exists rm, SortedMap.forwardLoop fuel t m = Ok rm /\ SortedMap.cache rm.2 = SortedMap.cache m.
Proof.
  induction fuel as [|fuel IH]; intros m Hf; cbn [SortedMap.forwardLoop]; destruct (SortedMap.index m) as [|n0 idx] eqn:Ei; [by eexists|simpl in Hf; lia|by eexists|].
  case_if; [|by eexists]. destruct (heapPop_ok nonceLess n0 idx) as (idx' & Hpop & _ & Hp). rewrite Hpop. cbn [mbind res_bind fst snd].
  destruct (IH (SortedMap.mkSorted (delete n0 (SortedMap.items m)) idx' (SortedMap.cache m))) as (rm & Hrun & Hc).
  { cbn [SortedMap.index]. rewrite (Permutation_length Hp). simpl in Hf. lia. }
  rewrite Hrun. by eexists.
Qed.

Lemma Forward_fresh t m : SortedMap.cache m = None -> exists rm, SortedMap.Forward t m = Ok rm /\ SortedMap.cache rm.2 = None.
Proof.
  intros Hm. unfold SortedMap.Forward. destruct (forwardLoop_total t (length (SortedMap.index m)) m (le_n _)) as ([r m'] & Hrun & Hc). rewrite Hrun.
  cbn [mbind res_bind fst snd] in *. rewrite Hc, Hm. eexists. split; [done|]. cbn. congruence.
Qed.

Lemma cleanEvents_whole C n : forall addrs events, unsorted events ->
  always (whole (St:=St) C n) (cleanEvents addrs events) (fun _ => whole C n).
Proof.
  induction addrs as [|a addrs IH]; intros events Hfr; cbn [cleanEvents]; [by intros p Hp|].
  eapply always_bind with (R := fun events' p => unsorted events' /\ whole C n p); [|intros events'; apply triple_pure, IH].
  unfold staleEvents. destruct (events !! a) as [m|] eqn:E; [|by intros p Hp]. apply whole_quiet; [apply quiet_getNonce|]. intros nonce.
  destruct (Forward_fresh nonce m) as ([r m'] & Hrun & Hc); [by eapply Hfr|]. rewrite Hrun. apply triple_lift_bind. cbn [fst snd] in *.
  intros p Hp. split; [|done]. case_if; [by apply map_Forall_delete|by apply map_Forall_insert_2].
Qed.

Lemma flattenEvents_whole C n : forall sets, always (whole (St:=St) C n) (flattenEvents sets) (fun _ => whole C n).
Proof.
  induction sets as [|[a m] sets IH]; cbn [flattenEvents]; [by intros p Hp|]. apply whole_quiet; [apply quiet_tick|]. intros t.
  eapply always_bind; [apply IH|]. by intros r p Hp.
Qed.

(** ** What follows the reset *)

(** The nonces after the last pending transactions. *)
Lemma always_lastNonces F A P Q : forall addrs, (forall a, a ∈ addrs -> P a <> []) ->
  always (inv F None None A P Q) (lastNonces addrs) (fun r p => (forall a, r !! a = if decide (a ∈ addrs) then (fun x => TxNonce x +w 1) <$> list.last (P a) else None) /\
    inv F None None A P Q p).
Proof.
  induction addrs as [|a addrs IH]; intros Hne; cbn [lastNonces].
  { intros p Hp. split; [|done]. intros b. rewrite decide_False by apply not_elem_of_nil. apply lookup_empty. }
  apply always_quiet; [apply quiet_tick|]. intros t. pose proof (Hne a (list_elem_of_here _ _)) as Ha.
  destruct (list.last (P a)) as [x|] eqn:Ex; [|by apply last_None in Ex].
  eapply always_bind with (R := fun y p => y = x /\ inv F None None A P Q p).
  { eapply triple_conseq with (P' := inv F (Some a) None A P Q); [|intros p Hp; apply inv_open_pending; [done|by apply (pending_there F None A P Q)]|intros ? ? HQ; exact HQ|intros ? ? HE; exact HE].
    eapply triple_conseq; [apply (always_on_pending F None A P Q a _ (fun r c => r = x /\ c = P a))|done| |done].
    - intros l Hh Hst. destruct (Last_holds (rangeAt t) l (P a) x Hh Ex) as (l' & Hrun & Hh' & Hs'). rewrite Hrun. eexists _, l', _. split; [done|]. split; [done|]. split; [congruence|done].
    - intros r p (c & [-> ->] & Hp). split; [done|]. apply (inv_close_pending F None A P Q a p); [|done]. eapply inv_ext; [exact Hp|done| |done]. intros b. by rewrite same_store. }
  intros y. cbv beta. apply triple_pure. intros ->. eapply always_bind; [apply IH; intros b Hb; by apply Hne, list_elem_of_further|].
  intros rest p [Hr Hp]. split; [|done]. intros b. destruct (decide (a = b)) as [<-|Hb].
  - rewrite lookup_insert_eq, decide_True by apply list_elem_of_here. by rewrite Ex.
  - rewrite lookup_insert_ne by done. rewrite Hr. apply decide_ext. rewrite elem_of_cons. naive_solver.
Qed.

(** After the demotion every account starts at the nonce of the state, and the
    next nonce of an account is the one after its last pending transaction. *)
Definition demoted F P p : Prop :=
  (forall a, starts F a (P a)) /\ forall a, nonces (pendingNonces p) !! a = (fun x => TxNonce x +w 1) <$> list.last (P a).

Lemma always_settleReset F A P Q newHead : settled A P Q -> match newHead with Some h => head_ok h | None => True end ->
  always (inv F None None A P Q) (settleReset newHead) (fun _ p => exists A' P' Q', settled A' P' Q' /\ (forall b y, y ∈ A' b -> y ∈ A b) /\
    demoted F P' p /\ inv F None None A' P' Q' p).
Proof.
  intros Hset Hh. unfold settleReset. eapply always_bind; [by apply always_demoteUnexecutables|]. intros []. cbv beta.
  apply triple_exists; intros A1. apply triple_exists; intros P1. apply triple_exists; intros Q1.
  apply triple_pure. intros Hset1. apply triple_pure. intros Hk. apply triple_pure. intros Hstart.
  apply triple_get. intros p0 Hp0.
  eapply always_bind with (R := fun _ => inv F None None A1 P1 Q1).
  { destruct newHead as [h|]; [|by intros p ->]. destruct (Number h) as [num|] eqn:En; [|by destruct Hh]. case_if; [|by intros p ->].
    destruct (CalcBaseFee_total (chainconfig p0) h Hh) as [fee Hfee]. rewrite Hfee. apply triple_lift_bind.
    destruct (SetBaseFee_ok (sGone F) (ticks p0) (all p0) fee (priced p0)) as (l & Hl & Hok & _).
    intros p ->. unfold tick, mbind, st_bind, st_lift. rewrite Hl. cbn [st_modify].
    apply (inv_set_priced F F); [by apply (inv_same _ _ _ _ _ _ p0)|done|exact (inv_scene _ _ _ _ _ _ _ Hp0)]. }
  intros []. cbv beta. apply always_quiet; [apply quiet_tick|]. intros t. apply triple_get. intros p1 Hp1.
  eapply triple_conseq with (P' := inv F None None A1 P1 Q1); [|by intros s ->|intros ? ? HQ; exact HQ|intros ? ? HE; exact HE].
  assert (Hthere : forall a, a ∈ (walk t (pending p1)).*1 <-> P1 a <> []) by (intros a; rewrite walked_in; symmetry; by apply (pending_there F None A1 P1 Q1)).
  eapply always_bind; [apply always_lastNonces; intros a; by rewrite Hthere|]. intros r p [Hr Hp]. cbn [st_modify].
  exists A1, P1, Q1. split; [done|]. split; [done|]. split; [|by apply (inv_same _ _ _ _ _ _ p)]. split; [done|]. intros a. cbn [pendingNonces set_pendingNonces setAll nonces].
  rewrite Hr. case_decide as Ha; [done|]. assert (P1 a = []) as ->; [|done]. destruct (P1 a) eqn:E; [done|]. destruct Ha. apply Hthere. congruence.
Qed.

(** ** The whole of it *)

Lemma promoteExecutables_whole C n accounts : config_ok C -> always (whole C n) (promoteExecutables accounts) (fun _ => whole C n).
Proof.
  intros Hc. apply whole_always. intros F A P Q Hg HC Hf Hset. rewrite <- HC in Hc.
  eapply triple_conseq; [by apply always_promoteExecutables|done| |done].
  intros ps p (A' & P' & Q' & Hset' & Hstep & _ & Hp). eapply whole_make; [done|done| |exact Hset'|exact Hp]. eapply few_mono; [exact Hf|lia|apply Hstep].
Qed.

(** The pool within its limits: what is pending and queued does not exceed the
    numbers of the configuration, but for the slots every account is guaranteed
    and for the local accounts. *)
Definition withinLimits p : Prop :=
  (sumLen (pending p) <= GlobalSlots (config p) \/
   forall a l, a ∉ locals p -> pending p !! a = Some l -> Len l <= AccountSlots (config p)) /\
  (sumLen (queue p) <= GlobalQueue (config p) \/ forall a, a ∉ locals p -> queue p !! a = None).

(** The transactions of an account in the pending lists or in the queue. *)
Definition listed (m : gmap Address txList) (a : Address) (tx : Transaction) : Prop :=
  exists l, m !! a = Some l /\ SortedMap.Get (TxNonce tx) (txs l) = Some tx.

Lemma listed_elem s open m P a tx : lists_rel s open m P -> listed m a tx <-> tx ∈ P a.
Proof.
  intros Hm. specialize (Hm a). unfold listed. destruct (m !! a) as [l|].
  - destruct Hm as (_ & Hh & _). pose proof (lookup_holds l (P a) (TxNonce tx) tx Hh) as Hl. split.
    + intros (l' & [= <-] & Hg). by apply Hl in Hg as [Hin _].
    + intros Hin. exists l. split; [done|]. by apply Hl.
  - destruct Hm as [-> _]. split; [by intros (l & ? & _)|by intros ?%not_elem_of_nil].
Qed.

(** What is pending can be executed from the nonce of the state on. *)
Definition startsReady p : Prop := forall a tx, listed (pending p) a tx ->
  (exists first, listed (pending p) a first /\ TxNonce first = nonceOf (currentState p) a) /\
  nonceOf (currentState p) a <= TxNonce tx /\ Cost tx <= balanceOf (currentState p) a /\ TxGas tx <= currentMaxGas p.

Lemma starts_prefix F (a : Address) l l' : incr l -> starts F a l -> l' `prefix_of` l -> starts F a l'.
Proof.
  intros Hi [Hfirst Hpay] [rest ->]. split; [|intros y Hy; apply Hpay, elem_of_app; by left].
  destruct l' as [|x l']; [by left|right]. destruct Hfirst as [Hn|Hn]; [done|]. cbn [app] in *. apply incr_cons in Hi as [_ Hlt].
  rewrite fmap_cons. rewrite fmap_cons in Hn. apply elem_of_cons in Hn as [->|Hn]; [apply list_elem_of_here|]. exfalso.
  apply list_elem_of_fmap in Hn as (y & Hny & Hy). rewrite list.Forall_forall in Hlt. specialize (Hlt y Hy).
  destruct (Hpay x (list_elem_of_here _ _)) as (Hx & _). lia.
Qed.

Lemma starts_ready F A P Q p : inv F None None A P Q p -> (forall a, starts F a (P a)) -> startsReady p.
Proof.
  intros Hp Hst a tx Htx. apply (listed_elem _ _ _ _ _ _ (inv_pending _ _ _ _ _ _ _ Hp)) in Htx. destruct (Hst a) as [[Hnil|Hf] Hpay].
  - rewrite Hnil in Htx. by apply not_elem_of_nil in Htx.
  - rewrite (f_equal sState (inv_scene _ _ _ _ _ _ _ Hp) : currentState p = sState F), (f_equal sGas (inv_scene _ _ _ _ _ _ _ Hp) : currentMaxGas p = sGas F).
    split; [|by apply Hpay]. apply list_elem_of_fmap in Hf as (y & Hn & Hy). exists y.
    split; [|done]. by apply (listed_elem _ _ _ _ _ _ (inv_pending _ _ _ _ _ _ _ Hp)).
Qed.

(** The two truncations. *)
Lemma truncate_whole C n (started : bool) : config_ok C -> n < 9223372036854775808 ->
  always (fun p => exists F A P Q, sGone F = [] /\ sConfig F = C /\ few n A /\ settled A P Q /\ inv F None None A P Q p /\ (started = true -> forall a, starts F a (P a)))
    (_ ← truncatePending; truncateQueue) (fun _ p => whole C n p /\ withinLimits p /\ (started = true -> startsReady p)).
Proof.
  intros Hc Hn p0 (F & A & P & Q & Hg & HC & Hf & Hset & Hp0 & Hst). rewrite <- HC in Hc.
  assert (Hsorted : forall a, incr (P a)) by (intros a; by eapply lists_sorted, (inv_pending _ _ _ _ _ _ _ Hp0)).
  revert p0 Hp0. change (always (inv F None None A P Q) (_ ← truncatePending; truncateQueue)
    (fun _ p => whole C n p /\ withinLimits p /\ (started = true -> startsReady p))).
  eapply always_bind; [by eapply always_truncatePending|]. intros []. cbv beta.
  apply triple_exists; intros P1. apply triple_exists; intros n1. intros p1 [[Hsum Hpre (A1 & Hset1 & Hk1 & Hp1)] Hlim].
  assert (Hf1 : few n A1) by (eapply few_mono; [exact Hf|lia|done]).
  pose proof (always_truncateQueue F A1 P1 Q n Hc Hset1 Hf1 Hn p1 Hp1) as Hq. destruct (truncateQueue p1) as [[[]|e|] p2]; [|done|done].
  destruct Hq as (A2 & Q2 & Hset2 & Hk2 & Hlim2 & Hp2). split; [|split].
  - eapply whole_make; [done|done| |exact Hset2|exact Hp2]. eapply few_mono; [exact Hf|lia|auto].
  - assert (HL : locals p2 = sLocals F) by exact (f_equal sLocals (inv_scene _ _ _ _ _ _ _ Hp2)).
    assert (HC2 : config p2 = sConfig F) by exact (f_equal sConfig (inv_scene _ _ _ _ _ _ _ Hp2)).
    unfold withinLimits. rewrite HL, HC2. split; [|exact Hlim2]. destruct Hlim as [Hlim|Hlim]; [left|right].
    + rewrite (sumLen_accounts _ _ _ (inv_pending _ _ _ _ _ _ _ Hp2)). fold (totalOf P1 (map_to_list (pending p2)).*1).
      rewrite <- (sumLen_totalOf _ _ _ _ (inv_pending _ _ _ _ _ _ _ Hp1)); [lia|apply NoDup_fst_map_to_list|].
      intros a Ha. apply (pending_there F None A2 P1 Q2 p2 a Hp2) in Ha. destruct (pending p2 !! a) as [l|] eqn:E; [|done].
      apply list_elem_of_fmap. exists (a, l). split; [done|]. by apply elem_of_map_to_list.
    + intros a l Ha Hl. rewrite (len_holds l (P1 a)); [by apply Hlim|]. by apply (lists_rel_get _ _ _ _ _ _ (inv_pending _ _ _ _ _ _ _ Hp2) Hl).
  - intros Hs. apply (starts_ready F A2 P1 Q2 p2 Hp2). intros a. eapply starts_prefix; [apply Hsorted|by apply Hst|apply Hpre].
Qed.

Definition request_ok (request : option (option Header * option Header)) (k : Z) : Prop :=
  match request with
  | None => 0 <= k
  | Some (oldHead, newHead) => reset_ok oldHead newHead /\ match newHead with Some h => head_ok h | None => True end /\ reinjects oldHead newHead k
  end.

Lemma runReorg_whole C cc n k request dirty : config_ok C -> request_ok request k -> n + k < 9223372036854775808 ->
  always (fun p => whole C n p /\ frame cc p) (runReorg oob request dirty)
    (fun _ p => (whole C (n + k) p /\ withinLimits p /\ (request <> None -> startsReady p)) /\ frame cc p).
Proof.
  intros Hc Hreq Hn p0 [Hp0 Hfr].
  assert (Hframe : preserves (frame (St:=St) cc) (runReorg oob request dirty)).
  { apply frame_runReorg; [exact _|]. destruct request as [[oldHead newHead]|]; [apply frame_reset|done]. }
  assert (Hrun : always (fun p => p = p0) (runReorg oob request dirty) (fun _ p => whole C (n + k) p /\ withinLimits p /\ (request <> None -> startsReady p))).
  2: { specialize (Hrun p0 eq_refl). specialize (Hframe p0 Hfr). by destruct (runReorg oob request dirty p0) as [[r|e|] p']. }
  destruct Hfr as [_ Hev]. unfold runReorg. apply triple_get. intros ? ->. cbv zeta. revert Hev. generalize (queuedEvents p0). intros events Hev.
  eapply triple_conseq with (P' := whole C n); [|by intros s ->|intros ? ? HQ; exact HQ|intros ? ? HE; exact HE].
  apply whole_quiet; [by apply quiet_modify|]. intros []. apply whole_quiet; [apply quiet_tick|]. intros t.
  eapply always_bind with (R := fun _ => whole C (n + k)).
  { destruct request as [[oldHead newHead]|]; [|intros p Hp; eapply whole_mono; [exact Hp|cbn in Hreq; lia]]. destruct Hreq as (Hok & _ & Hre).
    eapply always_bind; [by apply reset_whole|]. intros []. cbv beta. apply whole_quiet; [apply quiet_tick|]. intros t1.
    eapply always_bind; [by apply cleanEvents_whole|]. intros events'. cbv beta. apply whole_quiet; [apply quiet_tick|]. intros t2.
    apply triple_get. by intros p1 Hp1 p ->. }
  intros [accounts events']. cbv beta. cbn [fst snd]. eapply always_bind; [by apply promoteExecutables_whole|]. intros promoted. cbv beta.
  eapply always_bind with (R := fun _ p => exists F A P Q, sGone F = [] /\ sConfig F = C /\ few (n + k) A /\ settled A P Q /\ inv F None None A P Q p /\
    ((if request then true else false) = true -> forall a, starts F a (P a))).
  { destruct request as [[oldHead newHead]|]; [|by intros p (F & A & P & Q & ? & ? & ? & ? & ?); exists F, A, P, Q].
    destruct Hreq as (_ & Hh & _). apply whole_always. intros F A P Q Hg HC Hf Hset.
    eapply triple_conseq; [by apply always_settleReset|done| |done]. intros [] p (A' & P' & Q' & Hset' & Hk & [Hst _] & Hp). exists F, A', P', Q'.
    split; [done|]. split; [done|]. split; [by eapply few_mono|done]. }
  intros []. cbv beta. set (started := if request then true else false).
  assert (Hend : always (fun p => whole C (n + k) p /\ withinLimits p /\ (started = true -> startsReady p))
    (_ ← st_modify (set_changesSinceReorg 0); t ← tick; flattenEvents (walk t (foldl announce events' promoted)))
    (fun _ p => whole C (n + k) p /\ withinLimits p /\ (request <> None -> startsReady p))).
  { intros p (Hw & Hl & Hs). assert (Hs' : request <> None -> startsReady p) by (intros Hr; apply Hs; unfold started; by destruct request).
    unfold mbind at 1, st_bind at 1, st_modify. unfold mbind, st_bind, tick. cbv beta iota.
    set (p1 := set_ticks _ _). generalize (walk (ticks (set_changesSinceReorg 0 p)) (foldl announce events' promoted)). intros sets.
    assert (Hp1 : whole C (n + k) p1).
    { destruct Hw as (F & A & P & Q & ? & ? & ? & ? & Hi). exists F, A, P, Q. do 4 (split; [done|]). by apply (inv_same _ _ _ _ _ _ p). }
    assert (Hfe : forall sets p, exists r t, flattenEvents sets p = (Ok r, set_ticks t p) \/ flattenEvents sets p = (Ok r, p)).
    { clear. induction sets as [|[a m] sets IH]; intros p; [exists [], 0%nat; by right|]. cbn [flattenEvents]. unfold mbind, st_bind, tick.
      destruct (IH (set_ticks (S (ticks p)) p)) as (r & t & [-> | ->]); eexists _, _; left; done. }
    destruct (Hfe sets p1) as (r & t1 & [-> | ->]); (split; [|split; [exact Hl|exact Hs']]); [|exact Hp1].
    destruct Hp1 as (F & A & P & Q & ? & ? & ? & ? & Hi). exists F, A, P, Q. do 4 (split; [done|]). by apply (inv_same _ _ _ _ _ _ p1). }
  pose proof (truncate_whole C (n + k) started Hc Hn) as Htr.
  intros p Hp. specialize (Htr p Hp). unfold mbind, st_bind in Htr |- *. destruct (truncatePending p) as [[[]|e|] p1]; [|done|done].
  destruct (truncateQueue p1) as [[[]|e|] p2]; [|done|done]. exact (Hend p2 Htr).
Qed.
(** The state and the gas limit a reset moves the pool to; none when it stops
    early, on branches that are too far apart or a head whose state is missing. *)
Definition resetTo (oldHead newHead : option Header) : option (St * Z) :=
  let h := default CurrentHeader newHead in
  match (match oldHead, newHead with Some o, Some h => reorged oob o h | _, _ => Ok (Some []) end), StateAt (Root h) with
  | Ok (Some _), Some statedb => Some (statedb, GasLimit h)
  | _, _ => None
  end.

Lemma head_preserves {X : Type} (m : ST Pool X) h p r p' : preserves (fun p => headOf p = h) m -> headOf p = h -> m p = (r, p') -> headOf p' = h.
Proof. intros Hm Hp Hrun. specialize (Hm p Hp). by rewrite Hrun in Hm. Qed.

Lemma onHead_head h txs statedb p u p' : StateAt (Root h) = Some statedb ->
  onHead h txs p = (Ok u, p') -> headOf p' = (statedb, GasLimit h).
Proof.
  intros Hs Hrun. unfold onHead in Hrun. rewrite Hs in Hrun. inv_bind Hrun. injection Hm as _ <-.
  destruct (Number h) as [number|]; [|done]. eapply head_preserves; [| |exact Hrun]; [|done].
  unfold makeFakeHeader. repeat first [solve [auto with frame] | frame_field | frame_step].
Qed.

Lemma reset_head oldHead newHead p u p' : reset oob oldHead newHead p = (Ok u, p') ->
  headOf p' = default (headOf p) (resetTo oldHead newHead).
Proof.
  intros Hrun. unfold reset in Hrun. inv_bind Hrun. unfold resetTo.
  assert (Hr : s = p /\ (match oldHead, newHead with Some o, Some h => reorged oob o h | _, _ => Ok (Some []) end) = Ok a).
  { destruct oldHead as [o|], newHead as [h|]; [|done|by injection Hm as <- <-..]. unfold st_lift in Hm. by injection Hm as -> ->. }
  destruct Hr as [-> ->]. destruct a as [txs|]; [|by injection Hrun as _ <-].
  destruct (StateAt (Root (default CurrentHeader newHead))) as [statedb|] eqn:E; [by eapply onHead_head|].
  unfold onHead in Hrun. rewrite E in Hrun. by injection Hrun as _ <-.
Qed.

Lemma runReorg_head oldHead newHead dirty p sent p' : runReorg oob (Some (oldHead, newHead)) dirty p = (Ok sent, p') ->
  headOf p' = default (headOf p) (resetTo oldHead newHead).
Proof.
  intros Hrun. unfold runReorg in Hrun. inv_bind Hrun. injection Hm as <- <-. inv_bind Hrun. injection Hm as _ <-.
  inv_bind Hrun. injection Hm as _ <-. inv_bind Hrun. inv_bind Hm. apply reset_head in Hm0. change (headOf _) with (headOf p) in Hm0 at 2.
  assert (Hs : headOf s = default (headOf p) (resetTo oldHead newHead)).
  { eapply head_preserves; [|exact Hm0|exact Hm]. repeat first [solve [auto with frame] | frame_field | frame_step]. }
  eapply head_preserves; [|exact Hs|exact Hrun].
  repeat first [solve [auto using frame_settleReset with frame] | frame_field | frame_step].
Qed.
End Run.
