(* ===== verification/TxPoolProps.v ===== *)
(** * The transaction pool: properties (core/tx_pool.go)

    What a client of the pool may rely on, whatever the order of the runtime's
    walks, the clock and the answers of the chain. *)

From S2P Require Import Prelude Heap Hoare Float Params Types Misc Snapshot StateIface StateTransition Signing Finalize TxQueue TxPrices.
From S2P Require Import TxPricesFacts TxSortedMap TxList TxListFacts TxListHolds TxPoolState TxPool TxPoolReorg TxPoolFacts TxPoolMethods TxPoolHandlers TxPoolAccounts TxPoolPending.
From S2P Require Import TxPoolQueue TxPoolRun.
From stdpp Require Import functions.

(** ** Every run of the pool (core/tx_pool.go)

    The calls the pool serves, in any order: what each promises, and that no
    sequence of them panics or leaves the pool in pieces. *)

#[local] Open Scope Z_scope.
Import Noncer AccountList Lookup LookupFacts Priced PricedFacts Pool PoolOps PoolReorg.

Section Calls.
Context {St : Type} `{Crypto} `{AccountState St} `{TxSigning} `{TxSize} `{Runtime} `{ExTxValidator St}.
Context `{!PoolLaws (St:=St)}.
Implicit Types (p : TxPool St) (A P Q : store) (F : scene (St:=St)).
Abbreviation Pool := (TxPool St).
Variable oob : SpecFloat.spec_float -> Z.

(** ** [addTxs] *)

Lemma screenAll_total p l : exists errs, screenAll p l = Ok errs /\ length errs = length l.
Proof.
  induction l as [|tx l (errs & IH & Hlen)]; [by exists []|]. cbn [screenAll]. rewrite IH. unfold screen. pose proof (sender_answers tx) as Hs.
  destruct (Lookup.Get _ _); [|destruct (SenderOfTx tx); [| |done]]; cbn [mbind res_bind]; eexists; (split; [done|cbn; by f_equal]).
Qed.

(** The places that are still free are as many as the transactions that were
    tried, in the same order. *)
Lemma fillErrs_total : forall l errs newErrs, length errs = length l -> length newErrs = length (newTxs l errs) ->
  exists r, fillErrs errs newErrs = Ok r /\ length r = length l.
Proof.
  unfold newTxs. induction l as [|tx l IH]; intros errs newErrs Hlen Hnew; (destruct errs as [|e errs]; try discriminate Hlen).
  - cbn in Hnew. destruct newErrs; [|done]. by exists [].
  - injection Hlen as Hlen. cbn [zip zip_with] in Hnew. rewrite filter_cons in Hnew. destruct e as [e|].
    + rewrite decide_False in Hnew by done. destruct newErrs as [|n newErrs]; [exists (Some e :: errs); cbn; split; [done|by f_equal]|].
      destruct (IH errs (n :: newErrs) Hlen Hnew) as (r & Hr & Hl). cbn [fillErrs]. rewrite Hr. eexists. split; [done|]. cbn. by f_equal.
    + rewrite decide_True in Hnew by done. destruct newErrs as [|n newErrs]; [done|]. injection Hnew as Hnew.
      destruct (IH errs newErrs Hlen Hnew) as (r & Hr & Hl). cbn [fillErrs]. rewrite Hr. eexists. split; [done|]. cbn. by f_equal.
Qed.

Lemma newTxs_sub l errs tx : tx ∈ newTxs l errs -> tx ∈ l.
Proof. unfold newTxs. intros ([x e] & -> & [_ Hin]%list_elem_of_filter)%list_elem_of_fmap. by apply elem_of_zip_l in Hin. Qed.
Lemma newTxs_length l errs : length errs = length l -> zlen (newTxs l errs) <= zlen l.
Proof.
  intros Hl. unfold newTxs, zlen. rewrite length_fmap. pose proof (length_filter (fun te : Transaction * option error => te.2 = None) (zip l errs)) as Hf.
  rewrite length_zip_with in Hf. lia.
Qed.

Lemma addTxs_whole C n l isLocal : config_ok C -> Forall (fun tx => is_u64 (TxNonce tx)) l ->
  always (whole C n) (addTxs l isLocal) (fun r p => length r.1 = length l /\ whole C (n + zlen l) p).
Proof.
  intros Hc Hu. unfold addTxs. apply triple_get. intros p0 Hp0. eapply triple_conseq with (P' := whole C n); [|by intros s ->|intros ? ? HQ; exact HQ|intros ? ? HE; exact HE].
  destruct (screenAll_total p0 l) as (errs & -> & Hlen). apply triple_lift_bind.
  assert (Hnew : Forall (fun tx => is_u64 (TxNonce tx)) (newTxs l errs)).
  { rewrite list.Forall_forall in Hu |- *. intros x Hx. by eapply Hu, newTxs_sub. }
  pose proof (newTxs_length l errs Hlen) as Hle.
  destruct (newTxs l errs) as [|tx news] eqn:En.
  { intros p Hp. split; [done|]. eapply whole_mono; [exact Hp|]. unfold zlen in *. lia. }
  rewrite <- En in *. eapply always_bind; [by apply addTxsLocked_whole|]. intros [newErrs dirty]. cbv beta. cbn [fst snd]. apply triple_pure. intros Hl.
  destruct (fillErrs_total l errs newErrs Hlen Hl) as (r & -> & Hr). apply triple_lift_bind.
  intros p Hp. split; [done|]. eapply whole_mono; [exact Hp|lia].
Qed.

(** ** Queries that cache *)

(** What [Pending] shows of an account. *)
Definition shown (enforceTips : bool) p (a : Address) (l : list Transaction) : list Transaction :=
  if enforceTips && negb (bool_decide (a ∈ locals p)) then payingTxs (gasPrice p) (Priced.baseFee (priced p)) l else l.

(** What the queries leave alone, with the transactions of every account. *)
Definition sameView (v : gset Address * Z * option Z) p : Prop := (locals p, gasPrice p, Priced.baseFee (priced p)) = v.

Lemma always_pendingOf F A P Q enforceTips v : forall addrs, (forall a, a ∈ addrs -> P a <> []) -> NoDup addrs ->
  always (fun p => inv F None None A P Q p /\ sameView v p) (pendingOf enforceTips addrs) (fun r p =>
    (forall a l, r !! a = Some l <-> a ∈ addrs /\ l = shown enforceTips p a (P a) /\ l <> []) /\ inv F None None A P Q p /\ sameView v p).
Proof.
  induction addrs as [|a addrs IH]; intros Hne Hnd; cbn [pendingOf].
  { intros p Hp. split; [|done]. intros a l. rewrite lookup_empty. split; [done|]. by intros [?%not_elem_of_nil _]. }
  apply list.NoDup_cons in Hnd as [Ha Hnd].
  eapply always_bind with (R := fun y p => y = P a /\ (inv F None None A P Q p /\ sameView v p)).
  { intros p [Hp Hv]. pose proof (always_flattenPending F A P Q a (Hne a (list_elem_of_here _ _)) p Hp) as Hr.
    assert (Hk : sameView v (flattenPending a p).2).
    { unfold flattenPending, mbind, st_bind, tick, on_pending. destruct (pending _ !! a) as [l|]; [|exact Hv]. by destruct (Flatten _). }
    destruct (flattenPending a p) as [[r|e|] p']; [|done|done]. destruct Hr as [-> Hp']. done. }
  intros l. cbv beta. apply triple_pure. intros ->. apply triple_get. intros p0 [Hp0 Hv0]. fold (shown enforceTips p0 a (P a)).
  eapply triple_conseq with (P' := fun p => inv F None None A P Q p /\ sameView v p); [|by intros s ->|intros ? ? HQ; exact HQ|intros ? ? HE; exact HE].
  eapply always_bind; [apply IH; [intros b Hb; by apply Hne, list_elem_of_further|done]|]. intros rest p (Hr & Hp & Hv). split; [|done].
  assert (Hsame : shown enforceTips p0 a (P a) = shown enforceTips p a (P a)).
  { unfold shown, sameView in *. rewrite <- Hv in Hv0. injection Hv0 as -> -> ->. done. }
  rewrite Hsame. intros b l. destruct (decide (a = b)) as [<-|Hb].
  - assert (Hrest : rest !! a = None) by (destruct (rest !! a) as [l'|] eqn:E; [by apply Hr in E as [? _]|done]).
    destruct (Z.ltb_spec 0 (zlen (shown enforceTips p a (P a)))) as [Hpos|Hzero].
    + rewrite lookup_insert_eq. split.
      * intros [= <-]. split; [apply list_elem_of_here|]. split; [done|]. intros Hn. rewrite Hn in Hpos. unfold zlen in Hpos. cbn in Hpos. lia.
      * by intros (_ & -> & _).
    + rewrite Hrest. split; [done|]. intros (_ & -> & Hn). destruct Hn. apply nil_length_inv. unfold zlen in Hzero. lia.
  - destruct (0 <? _); [rewrite lookup_insert_ne by done|]; rewrite Hr, elem_of_cons; naive_solver.
Qed.

Lemma always_Pending F A P Q enforceTips v :
  always (fun p => inv F None None A P Q p /\ sameView v p) (Pending enforceTips) (fun r p =>
    (forall a l, r !! a = Some l <-> l = shown enforceTips p a (P a) /\ l <> []) /\ inv F None None A P Q p /\ sameView v p).
Proof.
  unfold Pending. intros p00 Hp00. apply (always_bind (fun p => inv F None None A P Q p /\ sameView v p) tick _ (fun _ p => inv F None None A P Q p /\ sameView v p)); [|clear p00 Hp00; intros t|exact Hp00].
  { intros p [Hp Hv]. split; [|exact Hv]. by apply (inv_same _ _ _ _ _ _ p). }
  apply triple_get. intros p0 [Hp0 Hv0].
  assert (Hthere : forall a, a ∈ (walk t (pending p0)).*1 <-> P a <> []) by (intros a; rewrite walked_in; symmetry; by apply (pending_there F None A P Q)).
  eapply triple_conseq; [apply (always_pendingOf F A P Q enforceTips v (walk t (pending p0)).*1)| | |done].
  - intros a. by rewrite Hthere.
  - rewrite walk_perm. apply NoDup_fst_map_to_list.
  - intros p ->. by split.
  - intros r p (Hr & Hp & Hv). split; [|done]. intros a l. rewrite Hr, Hthere. split; [by intros (_ & ? & ?)|]. intros [-> Hne]. split; [|done].
    intros Hnil. apply Hne. rewrite Hnil. unfold shown. by case_if.
Qed.

(** ** Prices and evictions *)

Lemma evict_whole C n : always (whole (St:=St) C n) evict (fun _ => whole C n).
Proof.
  apply whole_always. intros F A P Q Hg HC Hf Hset. eapply triple_conseq; [by apply always_evict|done| |done].
  intros [] p (A' & Q' & Hset' & Hk & Hp). eapply whole_make; [done|done| |exact Hset'|exact Hp]. eapply few_mono; [exact Hf|lia|exact Hk].
Qed.

Lemma SetGasPrice_whole C n price : always (whole (St:=St) C n) (SetGasPrice price) (fun _ => whole C n).
Proof.
  apply whole_always. intros F A P Q Hg HC Hf Hset p Hp. destruct (Z.ltb_spec (gasPrice p) price) as [Hlt|Hge].
  - pose proof (always_SetGasPrice F A P Q price Hset p (conj Hp Hlt)) as Hr. destruct (SetGasPrice price p) as [[[]|e|] p']; [|done|done].
    destruct Hr as (A' & P' & Q' & Hset' & Hk & _ & _ & Hp'). eapply whole_make; [done|done| |exact Hset'|exact Hp']. eapply few_mono; [exact Hf|lia|exact Hk].
  - unfold SetGasPrice, mbind, st_bind, st_get, st_modify. rewrite (proj2 (Z.ltb_ge _ _) Hge). cbn.
    eapply whole_make; [done|done|exact Hf|exact Hset|]. by apply (inv_same _ _ _ _ _ _ p).
Qed.

(** ** Runs *)

Inductive PoolCall : Type :=
  | CallAdd (txs : list Transaction) (isLocal : bool)
  | CallReorg (chain : PoolChain St) (request : option (option Header * option Header)) (dirty : option (gset Address))
  | CallEvict
  | CallSetGasPrice (price : Z)
  | CallPending (enforceTips : bool)
  | CallNonce (addr : Address).

Definition serve (c : PoolCall) : ST Pool unit :=
  match c with
  | CallAdd txs isLocal => _ ← addTxs txs isLocal; mret tt
  | CallReorg chain request dirty => _ ← @runReorg St _ _ _ _ _ _ chain oob request dirty; mret tt
  | CallEvict => evict
  | CallSetGasPrice price => SetGasPrice price
  | CallPending enforceTips => _ ← Pending enforceTips; mret tt
  | CallNonce addr => _ ← Nonce addr; mret tt
  end.

(** [k] transactions at most enter with the call. *)
Definition call_ok (c : PoolCall) (k : Z) : Prop :=
  match c with
  | CallAdd txs _ => Forall (fun tx => is_u64 (TxNonce tx)) txs /\ k = zlen txs
  | CallReorg chain request _ => @ChainLaws St chain /\ @request_ok St _ _ chain oob request k
  | _ => k = 0
  end.

Fixpoint calls_ok (cs : list PoolCall) (k : Z) : Prop :=
  match cs with
  | [] => k = 0
  | c :: cs => exists kc ks, call_ok c kc /\ calls_ok cs ks /\ k = kc + ks
  end.

Lemma call_frame cc c : preserves (frame (St:=St) cc) (serve c).
Proof.
  destruct c as [txs isLocal|chain request dirty| | | |]; cbn [serve]; unfold addTxs, Pending, Nonce; [|apply preserves_bind; [|intros ?; apply preserves_ret]|frame_auto..].
  - repeat first [solve [auto with frame] | frame_field | frame_step].
  - apply frame_runReorg; [exact _|]. destruct request as [[oldHead newHead]|]; [apply frame_reset|done].
Qed.

Lemma call_whole C cc n k c : config_ok C -> call_ok c k -> 0 <= k -> n + k < 9223372036854775808 ->
  always (fun p => whole C n p /\ frame cc p) (serve c) (fun _ p => whole C (n + k) p /\ frame cc p).
Proof.
  intros Hc Hok Hk Hn.
  assert (Hquiet : forall (m : ST Pool unit), k = 0 -> always (whole C n) m (fun _ => whole C n) -> always (whole C n) m (fun _ => whole C (n + k))).
  { intros m -> Hm. by rewrite Z.add_0_r. }
  assert (Hframed : always (whole C n) (serve c) (fun _ => whole C (n + k)) -> always (fun p => whole C n p /\ frame cc p) (serve c) (fun _ p => whole C (n + k) p /\ frame cc p)).
  { intros Hm p Hp. pose proof (triple_preserves (frame cc) _ _ _ _ Hm (call_frame cc c) p Hp) as Hr. destruct (serve c p) as [[u|e|] p']; [done|by destruct Hr|done]. }
  destruct c as [l isLocal|chain request dirty| |price|enforceTips|addr]; cbn [serve call_ok] in *.
  - destruct Hok as [Hu ->]. apply Hframed. eapply always_bind; [by apply addTxs_whole|]. by intros r p [_ Hp].
  - destruct Hok as [Hch Hreq]. eapply always_bind; [by apply runReorg_whole|]. by intros r p [[Hp _] Hf].
  - apply Hframed, Hquiet; [done|]. apply evict_whole.
  - apply Hframed, Hquiet; [done|]. apply SetGasPrice_whole.
  - apply Hframed, Hquiet; [done|]. apply whole_always. intros F A P Q Hg HC Hf Hset. intros p Hp.
    pose proof (always_Pending F A P Q enforceTips _ p (conj Hp eq_refl)) as Hr. unfold mbind, st_bind. destruct (Pending enforceTips p) as [[r|e|] p']; [|done|done].
    destruct Hr as (_ & Hp' & _). by eapply whole_make.
  - apply Hframed, Hquiet; [done|]. apply whole_quiet; [apply quiet_getNonce|]. by intros m p Hp.
Qed.

Lemma calls_nonneg cs : forall k, calls_ok cs k -> 0 <= k.
Proof.
  induction cs as [|c cs IH]; intros k; cbn [calls_ok]; [lia|]. intros (kc & ks & Hc & Hcs & ->). specialize (IH ks Hcs).
  assert (0 <= kc); [|lia]. destruct c as [l isLocal|chain request dirty| | | |]; cbn [call_ok] in Hc; [destruct Hc as [_ ->]; unfold zlen; lia| |lia..].
  destruct Hc as [_ Hc]. destruct request as [[o h]|]; cbn [request_ok] in Hc; [|done]. by destruct Hc as (_ & _ & [? _]).
Qed.

Lemma calls_whole C cc : config_ok C -> forall cs n k, calls_ok cs k -> n + k < 9223372036854775808 ->
  always (fun p => whole C n p /\ frame cc p) (st_each serve cs) (fun _ p => whole C (n + k) p /\ frame cc p).
Proof.
  intros Hc cs. induction cs as [|c cs IH]; intros n k Hok Hn; cbn [calls_ok] in Hok.
  { subst k. rewrite Z.add_0_r. by intros p Hp. }
  destruct Hok as (kc & ks & Hcall & Hcs & ->). pose proof (calls_nonneg cs ks Hcs) as Hks.
  assert (Hkc : 0 <= kc).
  { apply (calls_nonneg [c]). exists kc, 0. split; [done|]. split; [done|lia]. }
  cbn [st_each]. eapply always_bind; [apply (call_whole C cc n kc c Hc Hcall Hkc); lia|]. intros []. cbv beta.
  rewrite Z.add_assoc. apply IH; [done|lia].
Qed.

(** ** A new pool *)

Lemma empty_whole c cc statedb : whole (sanitize c) 0 (emptyPool (sanitize c) cc statedb) /\ frame cc (emptyPool (sanitize c) cc statedb).
Proof.
  split; [|split; [done|apply map_Forall_empty]]. set (C := sanitize c).
  apply (whole_make C 0 (mkScene C (list_to_set (Locals C)) statedb 0 []) (fun _ => []) (fun _ => []) (fun _ => [])); [done|done| |by intros a|].
  - intros l _ Hl. destruct l as [|y l]; [done|]. by destruct (not_elem_of_nil y); apply Hl, list_elem_of_here.
  - split; [done|..].
    + intros a. cbn. by rewrite lookup_empty.
    + intros a. cbn. by rewrite lookup_empty.
    + split; [apply new_lookup_ok|]. intros h tx. cbn. unfold Lookup.Get, newTxLookup. cbn. rewrite !lookup_empty. split; [done|]. by intros [_ ?%not_elem_of_nil].
    + intros a. split; constructor.
    + split; [split; intros i Hi; cbn in Hi; lia|]. intros h tx. cbn. by rewrite lookup_empty.
Qed.

(** What a client may rely on: the lookup knows exactly what is pending or
    queued, under the account that sent it; no nonce is taken twice; no account
    has an empty list; and no remote transaction is missing in the price heaps. *)
Record sound p : Prop := {
  sound_known : forall h tx, Get h p = Some tx <-> HashOfTx tx = h /\ (listed (pending p) (senderOf tx) tx \/ listed (queue p) (senderOf tx) tx);
  sound_sender : forall a tx, listed (pending p) a tx \/ listed (queue p) a tx -> SenderOfTx tx = Ok a;
  sound_nonce : forall a tx tx', (listed (pending p) a tx \/ listed (queue p) a tx) -> (listed (pending p) a tx' \/ listed (queue p) a tx') -> TxNonce tx = TxNonce tx' -> tx = tx';
  sound_apart : forall a tx tx', listed (pending p) a tx -> listed (queue p) a tx' -> TxNonce tx <> TxNonce tx';
  sound_lists : forall a l, pending p !! a = Some l \/ queue p !! a = Some l -> Empty l = false;
  sound_priced : forall h tx, Lookup.remotes (all p) !! h = Some tx -> inHeaps (priced p) tx;
}.

Lemma pool_sound p : pool_ok p -> sound p.
Proof.
  intros (F & A & P & Q & Hg & [Is Ip Iq Ik Io Ir] & Hset).
  assert (HP : forall a tx, listed (pending p) a tx <-> tx ∈ P a) by (intros; by eapply listed_elem).
  assert (HQ : forall a tx, listed (queue p) a tx <-> tx ∈ Q a) by (intros; by eapply listed_elem).
  assert (HA : forall a tx, listed (pending p) a tx \/ listed (queue p) a tx <-> tx ∈ A a) by (intros; by rewrite HP, HQ, (Hset a), elem_of_app).
  split.
  - intros h tx. rewrite HA. apply Ik.
  - intros a tx. rewrite HA. intros Hin. destruct (Io a) as [_ Hv]. rewrite list.Forall_forall in Hv. by apply Hv.
  - intros a tx tx'. rewrite !HA. by apply owned_unique.
  - intros a tx tx'. rewrite HP, HQ. intros Htx Htx' He. destruct (owned_parts A a _ Io (Hset a)) as [Hnd _]. rewrite fmap_app in Hnd.
    apply list.NoDup_app in Hnd as (_ & Hd & _). apply (Hd (TxNonce tx)); [by apply list_elem_of_fmap_2|]. rewrite He. by apply list_elem_of_fmap_2.
  - intros a l [Hl|Hl]; [specialize (Ip a)|specialize (Iq a)].
    + rewrite Hl in Ip. destruct Ip as (_ & Hh & [?|Hne]); [done|]. apply not_true_is_false. by rewrite (empty_holds l _ Hh).
    + rewrite Hl in Iq. destruct Iq as (_ & Hh & [?|Hne]); [done|]. apply not_true_is_false. by rewrite (empty_holds l _ Hh).
  - intros h tx Htx. destruct (priced_all _ _ _ Ir h tx Htx) as [|Hn]; [done|]. rewrite Hg in Hn. by apply not_elem_of_nil in Hn.
Qed.

(** ** Views *)

Lemma payingTxs_prefix tip fee l : payingTxs tip fee l `prefix_of` l /\ Forall (fun tx => EffectiveGasTipIntCmp tx tip fee <> Lt) (payingTxs tip fee l).
Proof.
  induction l as [|x l [IH1 IH2]]; [by split|]. cbn [payingTxs]. destruct (EffectiveGasTipIntCmp x tip fee) eqn:E.
  - split; [by apply prefix_cons|]. by constructor; [rewrite E|].
  - split; [apply prefix_nil|constructor].
  - split; [by apply prefix_cons|]. by constructor; [rewrite E|].
Qed.

Lemma has_listed s open m P a n : lists_rel s open m P -> has n (m !! a) = bool_decide (n ∈ TxNonce <$> P a).
Proof.
  intros Hm. specialize (Hm a). destruct (m !! a) as [l|]; cbn [has].
  - destruct Hm as (_ & Hh & _). pose proof (lookup_holds l (P a) n) as Hl. destruct (SortedMap.Get n (txs l)) as [y|] eqn:E.
    + rewrite bool_decide_true; [done|]. destruct (proj1 (Hl y Hh) eq_refl) as [Hy <-]. by apply list_elem_of_fmap_2.
    + rewrite bool_decide_false; [done|]. intros (y & Hn & Hy)%list_elem_of_fmap. assert (Hs : None = Some y) by (by apply Hl). done.
  - destruct Hm as [-> _]. rewrite bool_decide_false; [done|]. apply not_elem_of_nil.
Qed.
End Calls.

#[local] Open Scope Z_scope.
Import Noncer AccountList Lookup LookupFacts Priced PricedFacts Pool PoolOps PoolReorg.

Section Props.
Context {St : Type} `{Crypto} `{AccountState St} `{TxSigning} `{TxSize} `{Runtime} `{ExTxValidator St}.
Context `{!PoolLaws (St:=St)}.
Implicit Types p : TxPool St.
Variable oob : SpecFloat.spec_float -> Z.


(** C28: [add] tells what it did.  Without an error the transaction is known, and
    the only ones that left are the one of the same sender and nonce and remote
    ones that made room.  With an error nothing is new, and nothing left either,
    but that a refused replacement may come after room was made. *)
Theorem add_outcome tx isLocal p : pool_ok p -> config_ok (config p) -> is_u64 (TxNonce tx) ->
  match add tx isLocal p with
  | (Ok _, p') => pool_ok p' /\ Get (HashOfTx tx) p' = Some tx /\ (forall h y, Get h p' = Some y -> Get h p = Some y \/ y = tx) /\
      (forall h y, Get h p = Some y -> Get h p' = None -> Lookup.remotes (all p) !! h <> None \/ (senderOf y = senderOf tx /\ TxNonce y = TxNonce tx))
  | (Err e, p') => pool_ok p' /\ (forall h y, Get h p' = Some y -> Get h p = Some y) /\
      (forall h, e <> ErrReplaceUnderpriced -> Get h p' = Get h p) /\
      (forall h y, Get h p = Some y -> Get h p' = None -> Lookup.remotes (all p) !! h <> None)
  | (Panic, _) => False
  end.
Proof.
  intros (F & A & P & Q & Hg & Hp & Hset) Hc Hu. rewrite (f_equal sConfig (inv_scene _ _ _ _ _ _ _ Hp) : config p = sConfig F) in Hc.
  pose proof (add_spec F A P Q tx isLocal p Hg Hc Hset Hp Hu) as Hpost. unfold add_post in Hpost. pose proof (inv_knows _ _ _ _ _ _ _ Hp) as Hk.
  destruct (add tx isLocal p) as [[b|e|] p']; [| |done].
  - destruct Hpost as (A' & P' & Q' & Hp' & Hset' & He & _ & _ & Hs). pose proof (inv_knows _ _ _ _ _ _ _ Hp') as Hk'.
    split; [by exists (withLocals (locals p') F), A', P', Q'|]. split; [apply Hk'; split; [done|apply He]|]. split.
    + intros h y [Hh Hy]%Hk'. destruct (entered_new _ _ _ _ He _ _ Hy) as [Hin| ->]; [left; by apply Hk|by right].
    + intros h y [<- Hy]%Hk Hn. assert (Hny : y ∉ A' (senderOf y)) by (intros Hin; assert (Hg' : Get (HashOfTx y) p' = Some y) by (by apply Hk'); congruence).
      destruct (entered_out _ _ _ _ He _ _ Hy Hny); [by left|by right].
  - destruct Hpost as (A' & P' & Q' & Hp' & Hset' & Hsh & Hsame). pose proof (inv_knows _ _ _ _ _ _ _ Hp') as Hk'.
    assert (Hback : forall h y, Get h p' = Some y -> Get h p = Some y) by (intros h y [Hh Hy]%Hk'; apply Hk; split; [done|by apply (shrink_known _ _ _ _ _ Hsh)]).
    split; [by exists F, A', P', Q'|]. split; [exact Hback|]. split.
    + intros h Hne. specialize (Hsame Hne) as ->. destruct (Get h p') as [y|] eqn:E; [by rewrite (Hback h y E)|].
      destruct (Get h p) as [y|] eqn:E'; [|done]. apply Hk in E'. apply Hk' in E'. unfold Get in *. congruence.
    + intros h y [<- Hy]%Hk Hn. assert (Hny : y ∉ A' (senderOf y)) by (intros Hin; assert (Hg' : Get (HashOfTx y) p' = Some y) by (by apply Hk'); congruence).
      exact (shrink_only _ _ _ _ _ Hsh _ _ Hy Hny).
Qed.

(** C29: A reorganisation ends without error and leaves the pool within its
    limits: at most [GlobalSlots] are pending, or nobody but local accounts has
    more than [AccountSlots]; at most [GlobalQueue] are queued, or only those of
    local accounts. *)
Theorem reorg_limits `{PoolChain St} `{!ChainLaws St} cc n k request dirty p : whole (config p) n p -> frame cc p -> config_ok (config p) ->
  request_ok oob request k -> n + k < 9223372036854775808 ->
  exists sent p', runReorg oob request dirty p = (Ok sent, p') /\ sound p' /\ withinLimits p'.
Proof.
  intros Hp Hf Hc Hreq Hn. destruct (always_run _ _ _ _ (runReorg_whole oob (config p) cc n k request dirty Hc Hreq Hn) (conj Hp Hf))
    as (sent & p' & Hrun & (Hw & Hl & _) & _).
  exists sent, p'. split; [done|]. split; [by eapply pool_sound, whole_ok|done].
Qed.


(** C31: When the branches of the old and the new head meet within reach, the
    walk ends where they meet, and what is added again is what the old branch
    has above that block and the new one has not. *)
Theorem reorged_exact `{PoolChain St} `{!ChainLaws St} oldHead newHead old new c d0 i0 :
  Number oldHead <> None -> Number newHead <> None -> HeaderHash oldHead <> ParentHash newHead ->
  f64_to_u64 oob (SpecFloat.SFabs (SpecFloat.SFsub 53 1024 (f64_of_Z (NumberU64 oldHead)) (f64_of_Z (NumberU64 newHead)))) <= 64 ->
  GetBlock (HeaderHash oldHead) (NumberU64 oldHead) = Some old -> GetBlock (HeaderHash newHead) (NumberU64 newHead) = Some new ->
  branch old c d0 -> branch new c i0 ->
  exists txs e1 e2 d i, reorged oob oldHead newHead = Ok (Some txs) /\ branch old e1 d /\ branch new e2 i /\
    HeaderHash (blockHeader e1) = HeaderHash (blockHeader e2) /\ blockNumber c <= blockNumber e1 /\
    forall tx, tx ∈ txs <-> tx ∈ d /\ forall y, y ∈ i -> HashOfTx y <> HashOfTx tx.
Proof.
  intros Ho Hn Hpar Hdepth Hold Hnew Hb1 Hb2.
  destruct (reorged_meets oob oldHead newHead old new c d0 i0 Ho Hn Hpar Hdepth Hold Hnew Hb1 Hb2) as (e1 & e2 & d & i & Hrun & He1 & He2 & Hh & Hc).
  exists (TxDifference d i), e1, e2, d, i. split; [done|]. do 4 (split; [done|]). intros tx. rewrite TxDifference_elem. split; intros [Hd Hi]; (split; [done|]).
  - intros y Hy He. apply Hi. rewrite <- He. by apply list_elem_of_fmap_2.
  - intros (y & He & Hy)%list_elem_of_fmap. by apply (Hi y Hy).
Qed.

(** Raising the price limit drops the remote transactions with a lower tip
    and no other. *)
Theorem SetGasPrice_floor price p : pool_ok p -> gasPrice p < price ->
  exists p', SetGasPrice price p = (Ok tt, p') /\ sound p' /\ (forall h y, Lookup.remotes (all p') !! h = Some y -> price <= TxGasTipCap y) /\
    (forall h y, Get h p' = Some y -> Get h p = Some y) /\ (forall h y, Get h p = Some y -> price <= TxGasTipCap y -> Get h p' = Some y).
Proof.
  intros (F & A & P & Q & Hg & Hp & Hset) Hlow. pose proof (inv_knows _ _ _ _ _ _ _ Hp) as Hk.
  destruct (always_run _ _ _ _ (always_SetGasPrice F A P Q price Hset) (conj Hp Hlow)) as ([] & p' & Hrun & A' & P' & Q' & Hset' & Hsub & Hout & Hfloor & Hp').
  pose proof (inv_knows _ _ _ _ _ _ _ Hp') as Hk'. exists p'. split; [done|]. split; [apply pool_sound; by exists F, A', P', Q'|]. split; [done|]. split.
  - intros h y [Hh Hy]%Hk'. apply Hk. auto.
  - intros h y [Hh Hy]%Hk Hpr. apply Hk'. split; [done|]. destruct (decide (y ∈ A' (senderOf y))) as [|Hn]; [done|].
    specialize (Hout _ _ Hy Hn). lia.
Qed.

(** The status of a hash is that of the list its transaction is in; it is
    unknown when the pool does not know the hash. *)
Theorem Status_exact p h : pool_ok p ->
  match statusOf p h with
  | TxStatusUnknown => Get h p = None
  | TxStatusQueued => exists tx, Get h p = Some tx /\ listed (queue p) (senderOf tx) tx
  | TxStatusPending => exists tx, Get h p = Some tx /\ listed (pending p) (senderOf tx) tx
  | TxStatusIncluded => False
  end.
Proof.
  intros (F & A & P & Q & _ & Hp & Hset). unfold statusOf, Get. destruct (Lookup.Get h (all p)) as [tx|] eqn:E; [|done].
  apply (inv_knows _ _ _ _ _ _ _ Hp) in E as [_ Hin]. pose proof (inv_owned _ _ _ _ _ _ _ Hp) as Ho.
  pose proof (inv_pending _ _ _ _ _ _ _ Hp) as HP. pose proof (inv_queue _ _ _ _ _ _ _ Hp) as HQ.
  rewrite (has_listed _ _ _ P _ _ HP), (has_listed _ _ _ Q _ _ HQ).
  assert (Hsame : forall l : list Transaction, (forall y, y ∈ l -> y ∈ A (senderOf tx)) -> TxNonce tx ∈ TxNonce <$> l -> tx ∈ l).
  { intros l Hsub (y & Hn & Hy)%list_elem_of_fmap. by rewrite (owned_unique A (senderOf tx) tx y) by eauto. }
  case_bool_decide as HnP; [|case_bool_decide as HnQ].
  - exists tx. split; [done|]. apply (listed_elem _ _ _ _ _ _ HP). apply Hsame; [|done]. intros y Hy. rewrite (Hset (senderOf tx)). apply elem_of_app. by left.
  - exists tx. split; [done|]. apply (listed_elem _ _ _ _ _ _ HQ). apply Hsame; [|done]. intros y Hy. rewrite (Hset (senderOf tx)). apply elem_of_app. by right.
  - exfalso. rewrite (Hset (senderOf tx)) in Hin. apply elem_of_app in Hin as [Hin|Hin]; [apply HnP|apply HnQ]; by apply list_elem_of_fmap_2.
Qed.

(** [Pending] lists the pending transactions of each account by rising
    nonces, all of its own; asked for the tips it stops at the first
    transaction of a remote account that pays less than the pool asks. *)
Theorem Pending_shown enforceTips p : pool_ok p -> exists r p', Pending enforceTips p = (Ok r, p') /\ pool_ok p' /\
  (forall a l, r !! a = Some l -> l <> [] /\ incr l /\ forall tx, tx ∈ l -> listed (pending p) a tx /\ SenderOfTx tx = Ok a /\
     (enforceTips = true -> a ∉ locals p -> EffectiveGasTipIntCmp tx (gasPrice p) (Priced.baseFee (priced p)) <> Lt)) /\
  (forall a tx, listed (pending p) a tx -> enforceTips = false \/ a ∈ locals p -> exists l, r !! a = Some l /\ tx ∈ l).
Proof.
  intros (F & A & P & Q & Hg & Hp & Hset).
  destruct (always_run _ _ _ _ (always_Pending F A P Q enforceTips (locals p, gasPrice p, Priced.baseFee (priced p))) (conj Hp eq_refl)) as (r & p' & Hrun & Hr & Hp' & Hv).
  injection Hv as HL HG HB. exists r, p'. split; [done|]. split; [by exists F, A, P, Q|]. unfold shown in Hr. rewrite HL, HG, HB in Hr.
  pose proof (inv_pending _ _ _ _ _ _ _ Hp) as HP.
  assert (Hown : forall a tx, tx ∈ P a -> listed (pending p) a tx /\ SenderOfTx tx = Ok a).
  { intros a tx Htx. split; [by apply (listed_elem _ _ _ _ _ _ HP)|]. destruct (inv_owned_parts _ _ _ _ _ _ _ a _ Hp (Hset a)) as [_ Hv].
    rewrite list.Forall_forall in Hv. apply Hv, elem_of_app. by left. }
  split.
  - intros a l [-> Hne]%Hr. split; [done|]. destruct (payingTxs_prefix (gasPrice p) (Priced.baseFee (priced p)) (P a)) as [[rest Hpre] Hpay].
    pose proof (lists_sorted _ _ _ _ a HP) as Hi. destruct (enforceTips && negb (bool_decide (a ∈ locals p))) eqn:Eb.
    + split; [rewrite Hpre in Hi; by apply incr_app in Hi as (Hi & _)|]. intros tx Htx. destruct (Hown a tx) as [? ?]; [rewrite Hpre; apply elem_of_app; by left|].
      split; [done|]. split; [done|]. intros _ _. rewrite list.Forall_forall in Hpay. by apply Hpay.
    + split; [done|]. intros tx Htx. destruct (Hown a tx Htx) as [? ?]. split; [done|]. split; [done|]. intros -> Ha. rewrite bool_decide_false in Eb; done.
  - intros a tx Htx Hor. apply (listed_elem _ _ _ _ _ _ HP) in Htx. exists (P a). split; [|done]. apply Hr.
    split; [|intros Hn; rewrite Hn in Htx; by apply not_elem_of_nil in Htx]. destruct Hor as [->|Ha]; [done|]. rewrite bool_decide_true by done. by rewrite andb_false_r.
Qed.

(** After the promotion of some accounts none of them, but for the local
    ones, has more than [AccountQueue] transactions in the queue, and what is
    there can be paid and is not too old. *)
Theorem promote_limits accounts p : pool_ok p -> config_ok (config p) ->
  exists promoted p', promoteExecutables accounts p = (Ok promoted, p') /\ sound p' /\
    (forall h y, Get h p' = Some y -> Get h p = Some y) /\
    forall a l, a ∈ accounts -> queue p' !! a = Some l -> (a ∉ locals p -> Len l <= AccountQueue (config p)) /\
      forall tx, listed (queue p') a tx -> nonceOf (currentState p) a <= TxNonce tx /\ Cost tx <= balanceOf (currentState p) a /\ TxGas tx <= currentMaxGas p.
Proof.
  intros (F & A & P & Q & Hg & Hp & Hset) Hc. pose proof (inv_scene _ _ _ _ _ _ _ Hp) as Hsc.
  rewrite (f_equal sConfig Hsc : config p = sConfig F) in *. rewrite (f_equal sLocals Hsc : locals p = sLocals F), (f_equal sState Hsc : currentState p = sState F), (f_equal sGas Hsc : currentMaxGas p = sGas F).
  destruct (always_run _ _ _ _ (always_promoteExecutables F Hc accounts A P Q Hset) Hp) as (promoted & p' & Hrun & A' & P' & Q' & Hset' & [Hk _ _] & Hlim & Hp').
  exists promoted, p'. split; [done|]. split; [apply pool_sound; by exists F, A', P', Q'|]. split.
  - intros h y [Hh Hy]%(inv_knows _ _ _ _ _ _ _ Hp'). apply (inv_knows _ _ _ _ _ _ _ Hp). auto.
  - intros a l Ha Hl. pose proof (inv_queue _ _ _ _ _ _ _ Hp') as HQ. destruct (Hlim a Ha) as [Hq Hpay]. split.
    + intros Hn. rewrite (len_holds l (Q' a)); [by apply Hq|]. by apply (lists_rel_get _ _ _ _ _ _ HQ Hl).
    + intros tx Htx. apply (listed_elem _ _ _ _ _ _ HQ) in Htx. by apply Hpay.
Qed.
End Props.

(** ** A concrete pool

    A chain of two branches from block 10 on, where the hash of a header is made
    of its number and its branch; a state in which everybody is rich and has the
    nonce five; a transaction names its sender as its value. *)
#[local] Instance poolCrypto : Crypto := {|
  HeaderHash h := NumberU64 h * 10 + Coinbase h;
  SealHash h := NumberU64 h;
  EcrecoverAddr _ sig := Ok (be_decode sig);
  EmptyUncleHash := 7;
|}.
#[local] Instance richState : AccountState unit := {|
  balanceOf _ _ := 1000000000000000000; nonceOf _ _ := 5; codeHashOf _ _ := 0; slotOf _ _ _ := 0; refundOf _ := 0;
  addBalance _ _ s := s; subBalance _ _ s := s; setBalance _ _ s := s; StateIface.setNonce _ _ s := s; setCode _ _ s := s; finalise _ s := s; erase _ s := (false, s); stateOk _ := True;
|}.
#[local] Instance valueSigning : TxSigning := {|
  HashOfTx tx := TxNonce tx + 1000 * TxValue tx + 1000000 * TxGasPrice tx; SenderOfTx tx := Ok (TxValue tx); CreateBloom _ := 0;
|}.
#[local] Instance smallTxs : TxSize.
Proof. refine {| sizeOf _ := 110 |}. done. Defined.
#[local] Instance orderedRuntime : Runtime.
Proof. refine {| walk _ A m := map_to_list m; now t := Z.of_nat t |}. done. Defined.
#[local] Instance noValidator : ExTxValidator unit := {| exValidateTx _ _ _ _ _ := Ok tt |}.
#[local] Instance pool_laws : PoolLaws (St := unit).
Proof. by split. Qed.

Definition poolTx (sender nonce price : Z) : Transaction := legacyTx (Some 1) 21000 price nonce sender [] [].
Definition poolHeader (number fork : Z) : Header :=
  mkHeader ((number - 1) * 10 + (if number - 1 <=? 10 then 0 else fork)) 7 fork 0 0 0 0 (Some 2) (Some number) 30000000 0 (100 + number) [] 0 0 (Some 100).
Definition poolBlock (number fork : Z) : ChainBlock :=
  mkChainBlock (poolHeader number fork) (if fork =? 1 then [poolTx 8 number 500; poolTx 9 number 500] else if fork =? 2 then [poolTx 9 number 500] else []).
#[local] Instance twoBranches : PoolChain unit := {|
  GetBlock h n := if (8 <=? n) && (n <=? 12) && bool_decide (h - n * 10 ∈ [0; 1; 2]) then Some (poolBlock n (h - n * 10)) else None;
  StateAt _ := Some tt;
  CurrentHeader := poolHeader 10 0;
|}.
#[local] Instance twoBranches_laws : ChainLaws unit.
Proof.
  split.
  - intros h n b. cbn. destruct (_ && _) eqn:E; [|done]. intros [= <-]. apply andb_true_iff in E as [E _]. bool_Z. unfold blockNumber, NumberU64. cbn. apply u64_small. word_lia.
  - done.
  - intros h n b. cbn. destruct (_ && _) eqn:E; [|done]. intros [= <-]. apply andb_true_iff in E as [E _]. bool_Z. cbn.
    repeat case_match; repeat constructor; cbn; lia.
Qed.

Definition poolOob (_ : SpecFloat.spec_float) : Z := 0.
Definition poolConfig : TxPoolConfig := DefaultTxPoolConfig.
Lemma poolConfig_ok : config_ok (sanitize poolConfig).
Proof. split; vm_compute; repeat split; done. Qed.
Lemma poolHeader_ok number fork : head_ok (poolHeader number fork).
Proof. by split. Qed.

Definition firstTxs : list Transaction := [poolTx 3 5 200; poolTx 3 6 200; poolTx 4 5 300; poolTx 4 9 300].
Definition poolCalls : list (PoolCall (St := unit)) := [CallAdd firstTxs false; CallReorg twoBranches None (Some {[3; 4]})].
Definition samplePool : TxPool unit := (st_each (serve poolOob) poolCalls (NewTxPool poolOob poolConfig sampleConfig tt).2).2.

Lemma head_request : request_ok poolOob (Some (Some (poolHeader 11 1), Some (poolHeader 11 2))) 1.
Proof.
  split; [by split; [|split; [apply poolHeader_ok|vm_compute]]|]. split; [apply poolHeader_ok|]. split; [done|]. intros txs.
  assert (Hr : exists t, reorged poolOob (poolHeader 11 1) (poolHeader 11 2) = Ok (Some [t])) by (eexists; vm_compute; reflexivity).
  destruct Hr as [t ->]. by intros [= <-].
Qed.

Lemma samplePool_whole : whole (sanitize poolConfig) 4 samplePool /\ frame sampleConfig samplePool.
Proof.
  pose proof (empty_whole poolConfig sampleConfig tt) as [Hw Hf].
  assert (Hnew : whole (sanitize poolConfig) 0 (NewTxPool poolOob poolConfig sampleConfig tt).2 /\ frame sampleConfig (NewTxPool poolOob poolConfig sampleConfig tt).2).
  { split; [|by apply frame_reset]. pose proof (reset_whole poolOob (sanitize poolConfig) 0 0 None (Some CurrentHeader) poolConfig_ok (poolHeader_ok 10 0) (conj (Z.le_refl 0) I) _ Hw) as Hr.
    unfold NewTxPool. by destruct (reset _ _ _ _) as [[[]|e|] p]. }
  assert (Hok : calls_ok poolOob poolCalls 4).
  { exists 4, 0. split; [split; [repeat constructor; cbn; lia|done]|]. split; [|done]. exists 0, 0. split; [split; [apply twoBranches_laws|cbn; lia]|done]. }
  pose proof (calls_whole poolOob (sanitize poolConfig) sampleConfig poolConfig_ok poolCalls 0 4 Hok ltac:(lia) _ Hnew) as Hr.
  unfold samplePool. by destruct (st_each _ _ _) as [[[]|e|] p].
Qed.
Lemma samplePool_ok : pool_ok samplePool.
Proof. eapply whole_ok, samplePool_whole. Qed.
Lemma samplePool_config : config samplePool = sanitize poolConfig.
Proof. eapply whole_config, samplePool_whole. Qed.

Definition newTx : Transaction := poolTx 3 7 250.


Lemma add_outcome_witness : exists p', add newTx false samplePool = (Ok false, p') /\ Get (HashOfTx newTx) p' = Some newTx.
Proof.
  assert (Hrun : (add newTx false samplePool).1 = Ok false) by (vm_compute; reflexivity).
  pose proof (add_outcome newTx false samplePool samplePool_ok ltac:(rewrite samplePool_config; apply poolConfig_ok) ltac:(split; done)) as Hr.
  destruct (add newTx false samplePool) as [r p']. cbn [fst] in Hrun. subst r. exists p'. split; [reflexivity|]. apply Hr.
Defined.

Lemma reorg_limits_witness : exists sent p', runReorg poolOob (Some (Some (poolHeader 11 1), Some (poolHeader 11 2))) None samplePool = (Ok sent, p') /\ sound p' /\ withinLimits p'.
Proof.
  apply (reorg_limits poolOob sampleConfig 4 1); rewrite ?samplePool_config; [apply samplePool_whole..|apply poolConfig_ok|apply head_request|done].
Defined.


Lemma reorged_exact_witness : exists txs, reorged poolOob (poolHeader 11 1) (poolHeader 11 2) = Ok (Some txs) /\ txs = [poolTx 8 11 500].
Proof.
  destruct (reorged_exact poolOob (poolHeader 11 1) (poolHeader 11 2) (poolBlock 11 1) (poolBlock 11 2) (poolBlock 10 0) [poolTx 8 11 500; poolTx 9 11 500] [poolTx 9 11 500])
    as (txs & e1 & e2 & d & i & Hrun & _); [done..| | |].
  1: exact (branch_parent (poolBlock 11 1) (poolBlock 10 0) _ [] eq_refl (branch_here _)).
  1: exact (branch_parent (poolBlock 11 2) (poolBlock 10 0) _ [] eq_refl (branch_here _)).
  exists txs. split; [exact Hrun|]. assert (Hv : reorged poolOob (poolHeader 11 1) (poolHeader 11 2) = Ok (Some [poolTx 8 11 500])) by (vm_compute; reflexivity).
  rewrite Hv in Hrun. by injection Hrun.
Defined.

Lemma SetGasPrice_floor_witness : exists p', SetGasPrice 250 samplePool = (Ok tt, p') /\ Get (HashOfTx (poolTx 3 5 200)) p' = None /\ Get (HashOfTx (poolTx 4 5 300)) p' = Some (poolTx 4 5 300).
Proof.
  destruct (SetGasPrice_floor 250 samplePool samplePool_ok) as (p' & Hrun & _ & _ & _ & Hkeep); [vm_compute; reflexivity|].
  exists p'. split; [exact Hrun|]. split.
  - assert (Hn : Get (HashOfTx (poolTx 3 5 200)) (SetGasPrice 250 samplePool).2 = None) by (vm_compute; reflexivity). rewrite Hrun in Hn. exact Hn.
  - apply Hkeep; [vm_compute; reflexivity|done].
Defined.

Lemma Status_exact_witness : statusOf samplePool (HashOfTx (poolTx 3 6 200)) = TxStatusPending /\
  exists tx, Get (HashOfTx (poolTx 3 6 200)) samplePool = Some tx /\ listed (pending samplePool) (senderOf tx) tx.
Proof.
  pose proof (Status_exact samplePool (HashOfTx (poolTx 3 6 200)) samplePool_ok) as Hs.
  assert (Hst : statusOf samplePool (HashOfTx (poolTx 3 6 200)) = TxStatusPending) by (vm_compute; reflexivity).
  rewrite Hst in Hs. split; [exact Hst|exact Hs].
Defined.

Lemma Pending_shown_witness : exists r p', Pending true samplePool = (Ok r, p') /\ r !! 3 = Some [poolTx 3 5 200; poolTx 3 6 200] /\ incr [poolTx 3 5 200; poolTx 3 6 200].
Proof.
  destruct (Pending_shown true samplePool samplePool_ok) as (r & p' & Hrun & _ & Hr & _). exists r, p'. split; [exact Hrun|].
  assert (Hv : match (Pending true samplePool).1 with Ok r => r !! 3 | _ => None end = Some [poolTx 3 5 200; poolTx 3 6 200]) by (vm_compute; reflexivity).
  rewrite Hrun in Hv. split; [exact Hv|]. destruct (Hr 3 _ Hv) as (_ & Hi & _). exact Hi.
Defined.

Lemma promote_limits_witness : exists promoted p', promoteExecutables [3; 4] samplePool = (Ok promoted, p') /\ sound p'.
Proof.
  destruct (promote_limits [3; 4] samplePool samplePool_ok) as (promoted & p' & Hrun & Hs & _); [rewrite samplePool_config; apply poolConfig_ok|].
  exists promoted, p'. split; [exact Hrun|exact Hs].
Defined.

(** ** A gap in a pending list

    The same chain with states that are the nonce of everybody: three up to
    block 10, five behind the first block 11, which has the transactions three
    and four of the account 3. *)
Module Gap.
#[local] Instance nonceState : AccountState Z := {|
  balanceOf _ _ := 1000000000000000000; nonceOf s _ := s; codeHashOf _ _ := 0; slotOf _ _ _ := 0; refundOf _ := 0;
  addBalance _ _ s := s; subBalance _ _ s := s; setBalance _ _ s := s; StateIface.setNonce _ _ s := s; setCode _ _ s := s; finalise _ s := s; erase _ s := (false, s); stateOk _ := True;
|}.
#[local] Instance noChecks : ExTxValidator Z := {| exValidateTx _ _ _ _ _ := Ok tt |}.

Definition gapHeader (number fork : Z) : Header :=
  mkHeader ((number - 1) * 10) 7 fork (if fork =? 1 then 5 else 3) 0 0 0 (Some 2) (Some number) 30000000 0 (100 + number) [] 0 0 (Some 100).
(** Nobody relays the second one: it pays nothing. *)
Definition gapMined : list Transaction := [poolTx 3 3 200; poolTx 3 4 0].
#[local] Instance gapBranches : PoolChain Z := {|
  GetBlock h n := if (9 <=? n) && (n <=? 11) && bool_decide (h - n * 10 ∈ [0; 1; 2])
    then Some (mkChainBlock (gapHeader n (h - n * 10)) (if h - n * 10 =? 1 then gapMined else [])) else None;
  StateAt root := Some root;
  CurrentHeader := gapHeader 11 1;
|}.

Definition gapPool : TxPool Z :=
  (st_each (serve poolOob) [CallAdd [poolTx 3 5 200; poolTx 3 6 200] false; CallReorg gapBranches None (Some {[3]});
     CallReorg gapBranches (Some (Some (gapHeader 11 1), Some (gapHeader 11 2))) None] (NewTxPool poolOob poolConfig sampleConfig 0).2).2.

(** When the branch without block 11 wins, the pool takes back the first of its
    two transactions only.  The pending list of the account keeps the two that
    followed: [promoteTx] adds what is ready, [demoteUnexecutables] looks at the
    front of the list. *)
Example pending_gap : currentState gapPool = 3 /\
  match pending gapPool !! 3 with Some l => strict l = true /\ TxNonce <$> (@SortedMap.flatten (rangeAt 0) (txs l)).1 = [3; 5; 6] | None => False end.
Proof. vm_compute. done. Qed.
End Gap.
