(* ===== verification/ChainDB.v ===== *)
(** * The database of the chain (core/rawdb/accessors_chain.go, accessors_indexes.go, accessors_metadata.go)

    The schema of the key-value store as one map per prefix, the accessors on
    it, and the batches that are written at once.  The store is the one
    [NewDatabase] wraps, without a freezer: [ReadAncients] then only runs the
    lookups in the store, and [isCanon] is false. *)

From S2P Require Import StateDB StateIface Prelude Params Types Misc Snapshot Engine Contracts Finalize TxQueue.

(** [types.Block], without the caches of its hash and size. *)
Record Block : Type := mkBlock {
  bHeader : Header;
  bTransactions : list Transaction;
  bUncles : list Header;
}.
(** [types.Body] *)
Record Body : Type := mkBody {
  bodyTransactions : list Transaction;
  bodyUncles : list Header;
}.
(** [types.ReceiptForStorage]: the consensus part of a receipt and its logs. *)
Record ReceiptForStorage : Type := mkStorageReceipt {
  srPostStateOrStatus : Hash + bool;
  srCumulativeGasUsed : Z;
  srLogs : list (Address * list Hash * list byte);
}.

(** The prefixes of the schema. *)
Record ChainDB : Type := mkChainDB {
  headerHashes : gmap Z Hash;                               (* h + num + n *)
  headers : gmap (Z * Hash) Header;                         (* h + num + hash *)
  headerTDs : gmap (Z * Hash) Z;                            (* h + num + hash + t *)
  headerNumbers : gmap Hash Z;                              (* H + hash *)
  blockBodies : gmap (Z * Hash) Body;                       (* b + num + hash *)
  blockReceipts : gmap (Z * Hash) (list ReceiptForStorage); (* r + num + hash *)
  txLookups : gmap Hash Z;                                  (* l + hash *)
  preimages : gmap Hash (list byte);                        (* secure-key- + hash *)
  headHeaderHash : Hash;                                    (* LastHeader *)
  headBlockHash : Hash;                                     (* LastBlock *)
  headFastBlockHash : Hash;                                 (* LastFast *)
  badBlocks : list Block;                                   (* InvalidBlock *)
}.

Section Fields.
Implicit Types d : ChainDB.
Definition with_hashes f d := mkChainDB (f (headerHashes d)) (headers d) (headerTDs d) (headerNumbers d) (blockBodies d) (blockReceipts d)
  (txLookups d) (preimages d) (headHeaderHash d) (headBlockHash d) (headFastBlockHash d) (badBlocks d).
Definition with_headers f d := mkChainDB (headerHashes d) (f (headers d)) (headerTDs d) (headerNumbers d) (blockBodies d) (blockReceipts d)
  (txLookups d) (preimages d) (headHeaderHash d) (headBlockHash d) (headFastBlockHash d) (badBlocks d).
Definition with_tds f d := mkChainDB (headerHashes d) (headers d) (f (headerTDs d)) (headerNumbers d) (blockBodies d) (blockReceipts d)
  (txLookups d) (preimages d) (headHeaderHash d) (headBlockHash d) (headFastBlockHash d) (badBlocks d).
Definition with_numbers f d := mkChainDB (headerHashes d) (headers d) (headerTDs d) (f (headerNumbers d)) (blockBodies d) (blockReceipts d)
  (txLookups d) (preimages d) (headHeaderHash d) (headBlockHash d) (headFastBlockHash d) (badBlocks d).
Definition with_bodies f d := mkChainDB (headerHashes d) (headers d) (headerTDs d) (headerNumbers d) (f (blockBodies d)) (blockReceipts d)
  (txLookups d) (preimages d) (headHeaderHash d) (headBlockHash d) (headFastBlockHash d) (badBlocks d).
Definition with_receipts f d := mkChainDB (headerHashes d) (headers d) (headerTDs d) (headerNumbers d) (blockBodies d) (f (blockReceipts d))
  (txLookups d) (preimages d) (headHeaderHash d) (headBlockHash d) (headFastBlockHash d) (badBlocks d).
Definition with_lookups f d := mkChainDB (headerHashes d) (headers d) (headerTDs d) (headerNumbers d) (blockBodies d) (blockReceipts d)
  (f (txLookups d)) (preimages d) (headHeaderHash d) (headBlockHash d) (headFastBlockHash d) (badBlocks d).
Definition with_preimages f d := mkChainDB (headerHashes d) (headers d) (headerTDs d) (headerNumbers d) (blockBodies d) (blockReceipts d)
  (txLookups d) (f (preimages d)) (headHeaderHash d) (headBlockHash d) (headFastBlockHash d) (badBlocks d).
Definition with_heads (hh hb hf : option Hash) d := mkChainDB (headerHashes d) (headers d) (headerTDs d) (headerNumbers d) (blockBodies d)
  (blockReceipts d) (txLookups d) (preimages d) (default (headHeaderHash d) hh) (default (headBlockHash d) hb) (default (headFastBlockHash d) hf) (badBlocks d).
Definition with_bad f d := mkChainDB (headerHashes d) (headers d) (headerTDs d) (headerNumbers d) (blockBodies d) (blockReceipts d)
  (txLookups d) (preimages d) (headHeaderHash d) (headBlockHash d) (headFastBlockHash d) (f (badBlocks d)).
End Fields.

(** A batch queues its writes; [commit] is [batch.Write]. *)
Abbreviation Batch := (list (ChainDB -> ChainDB)).
Definition commit (batch : Batch) (d : ChainDB) : ChainDB := foldl (fun d write => write d) d batch.

Section Accessors.
Context `{Crypto} `{TxSigning}.

(** ** Blocks (core/types/block.go) *)

Definition hashOf (b : Block) : Hash := HeaderHash (bHeader b).
Definition numberOf (b : Block) : Z := NumberU64 (bHeader b).
Definition parentHashOf (b : Block) : Hash := ParentHash (bHeader b).
(** A copy of the difficulty; like numbers, difficulties of decoded headers are
    not nil. *)
Definition difficultyOf (h : Header) : Z := default 0 (Difficulty h).
Definition bodyOf (b : Block) : Body := mkBody (bTransactions b) (bUncles b).
Definition blockOf (h : Header) (body : Body) : Block := mkBlock h (bodyTransactions body) (bodyUncles body).

(** ** Canonical hashes *)

Definition ReadCanonicalHash (d : ChainDB) (number : Z) : Hash := default 0 (headerHashes d !! number).
Definition WriteCanonicalHash (hash : Hash) (number : Z) : ChainDB -> ChainDB := with_hashes <[number := hash]>.
Definition DeleteCanonicalHash (number : Z) : ChainDB -> ChainDB := with_hashes (delete number).
(** In the order of the keys. *)
Definition ReadAllHashes (d : ChainDB) (number : Z) : list Hash :=
  merge_sort Z.le (snd <$> base.filter (fun k => k.1 = number) (map_to_list (headers d)).*1).

(** ** Headers *)

Definition ReadHeaderNumber (d : ChainDB) (hash : Hash) : option Z := headerNumbers d !! hash.
Definition WriteHeaderNumber (hash : Hash) (number : Z) : ChainDB -> ChainDB := with_numbers <[hash := number]>.
Definition DeleteHeaderNumber (hash : Hash) : ChainDB -> ChainDB := with_numbers (delete hash).

Definition HasHeader (d : ChainDB) (hash : Hash) (number : Z) : bool := bool_decide (is_Some (headers d !! (number, hash))).
Definition ReadHeader (d : ChainDB) (hash : Hash) (number : Z) : option Header := headers d !! (number, hash).
Definition WriteHeader (header : Header) (d : ChainDB) : ChainDB :=
  let hash := HeaderHash header in
  let number := NumberU64 header in
  with_headers <[(number, hash) := header]> (WriteHeaderNumber hash number d).
Definition DeleteHeader (hash : Hash) (number : Z) (d : ChainDB) : ChainDB :=
  with_numbers (delete hash) (with_headers (delete (number, hash)) d).

(** ** Heads *)

Definition WriteHeadHeaderHash (hash : Hash) : ChainDB -> ChainDB := with_heads (Some hash) None None.
Definition WriteHeadBlockHash (hash : Hash) : ChainDB -> ChainDB := with_heads None (Some hash) None.
Definition WriteHeadFastBlockHash (hash : Hash) : ChainDB -> ChainDB := with_heads None None (Some hash).

(** ** Bodies, difficulties, blocks *)

Definition HasBody (d : ChainDB) (hash : Hash) (number : Z) : bool := bool_decide (is_Some (blockBodies d !! (number, hash))).
Definition ReadBody (d : ChainDB) (hash : Hash) (number : Z) : option Body := blockBodies d !! (number, hash).
Definition WriteBody (hash : Hash) (number : Z) (body : Body) : ChainDB -> ChainDB := with_bodies <[(number, hash) := body]>.
Definition DeleteBody (hash : Hash) (number : Z) : ChainDB -> ChainDB := with_bodies (delete (number, hash)).

Definition ReadTd (d : ChainDB) (hash : Hash) (number : Z) : option Z := headerTDs d !! (number, hash).
Definition WriteTd (hash : Hash) (number : Z) (td : Z) : ChainDB -> ChainDB := with_tds <[(number, hash) := td]>.
Definition DeleteTd (hash : Hash) (number : Z) : ChainDB -> ChainDB := with_tds (delete (number, hash)).

Definition ReadBlock (d : ChainDB) (hash : Hash) (number : Z) : option Block :=
  header ← ReadHeader d hash number;
  body ← ReadBody d hash number;
  Some (blockOf header body).
Definition WriteBlock (b : Block) (d : ChainDB) : ChainDB := WriteHeader (bHeader b) (WriteBody (hashOf b) (numberOf b) (bodyOf b) d).

Definition badOrder (x y : Block) : Prop := numberOf y <= numberOf x.
#[export] Instance badOrder_dec : RelDecision badOrder := fun x y => Z_le_dec (numberOf y) (numberOf x).
(** The lowest block numbers are dropped; equal numbers stay in some order. *)
Definition badBlockToKeep : nat := 10.
Definition WriteBadBlock (b : Block) (d : ChainDB) : ChainDB :=
  if existsb (fun bad => (numberOf bad =? numberOf b) && (hashOf bad =? hashOf b)) (badBlocks d) then d
  else with_bad (fun l => take badBlockToKeep (merge_sort badOrder (l ++ [b]))) d.

(** ** Receipts (core/types/receipt.go) *)

Definition statusEncoding (r : Receipt) : Hash + bool :=
  match PostState r with Some root => inl root | None => inr (negb (RStatus r =? ReceiptStatusFailed)) end.
Definition forStorage (r : Receipt) : ReceiptForStorage :=
  mkStorageReceipt (statusEncoding r) (CumulativeGasUsed r) ((fun l => (LAddress l.1, LTopics l.1, LData l.1)) <$> RLogs r).

(** The logs of a stored receipt with the fields of their place; the number of
    the block, the same for all, is kept in the receipt only. *)
Fixpoint deriveLogs (hash txHash : Hash) (txIndex logIndex : Z) (logs : list (Address * list Hash * list byte)) : list (Log * Hash) :=
  match logs with
  | [] => []
  | l :: logs => (mkLog l.1.1 l.1.2 l.2 txHash txIndex logIndex, hash) :: deriveLogs hash txHash txIndex (logIndex + 1) logs
  end.

Section Receipts.
(** [crypto.CreateAddress] *)
Variable createAddress : Address -> Z -> Address.

(** One round of [DeriveFields] on a decoded receipt; [prev] is the gas used up
    to the previous receipt. *)
Definition deriveReceipt (hash : Hash) (number i logIndex prev : Z) (r : ReceiptForStorage) (tx : Transaction) : Receipt :=
  let txHash := HashOfTx tx in
  let logs := deriveLogs hash txHash i logIndex (srLogs r) in
  mkReceipt (TxType tx)
    (match srPostStateOrStatus r with inl root => Some root | inr _ => None end)
    (match srPostStateOrStatus r with inr true => ReceiptStatusSuccessful | _ => ReceiptStatusFailed end)
    (srCumulativeGasUsed r) logs (CreateBloom logs.*1) txHash
    (match TxTo tx with
     | None => Some (createAddress (match SenderOfTx tx with Ok from => from | _ => 0 end) (TxNonce tx))
     | Some _ => None
     end)
    (srCumulativeGasUsed r -w prev) hash (Some number) i.
Fixpoint deriveFrom (hash : Hash) (number i logIndex prev : Z) (rs : list ReceiptForStorage) (l : list Transaction) : list Receipt :=
  match rs, l with
  | r :: rs, tx :: l => deriveReceipt hash number i logIndex prev r tx ::
      deriveFrom hash number (i + 1) (logIndex + zlen (srLogs r)) (srCumulativeGasUsed r) rs l
  | _, _ => []
  end.
Definition DeriveFields (hash : Hash) (number : Z) (rs : list ReceiptForStorage) (l : list Transaction) : option (list Receipt) :=
  if (length l =? length rs)%nat then Some (deriveFrom hash number 0 0 0 rs l) else None.
Definition ReadReceipts (d : ChainDB) (hash : Hash) (number : Z) : option (list Receipt) :=
  receipts ← blockReceipts d !! (number, hash);
  body ← ReadBody d hash number;
  DeriveFields hash number receipts (bodyTransactions body).
End Receipts.

Definition WriteReceipts (hash : Hash) (number : Z) (receipts : list Receipt) : ChainDB -> ChainDB :=
  with_receipts <[(number, hash) := forStorage <$> receipts]>.
Definition DeleteReceipts (hash : Hash) (number : Z) : ChainDB -> ChainDB := with_receipts (delete (number, hash)).
Definition WritePreimages (m : gmap Hash (list byte)) : ChainDB -> ChainDB := with_preimages (fun p => m ∪ p).

(** ** Transaction lookups: the big-endian bytes of the number, none for zero,
    and no bytes are no entry. *)

Definition ReadTxLookupEntry (d : ChainDB) (hash : Hash) : option Z :=
  match txLookups d !! hash with Some n => if n =? 0 then None else Some n | None => None end.
Definition WriteTxLookupEntriesByBlock (b : Block) (d : ChainDB) : ChainDB :=
  foldl (fun d tx => with_lookups <[HashOfTx tx := numberOf b]> d) d (bTransactions b).
Definition DeleteTxLookupEntry (hash : Hash) : ChainDB -> ChainDB := with_lookups (delete hash).

Fixpoint findTx (hash : Hash) (i : Z) (l : list Transaction) : option (Transaction * Z) :=
  match l with [] => None | tx :: l => if HashOfTx tx =? hash then Some (tx, i) else findTx hash (i + 1) l end.
(** The transaction with the hash and the number of its block and its index. *)
Definition ReadTransaction (d : ChainDB) (hash : Hash) : option (Transaction * Hash * Z * Z) :=
  blockNumber ← ReadTxLookupEntry d hash;
  let blockHash := ReadCanonicalHash d blockNumber in
  if blockHash =? 0 then None else
  body ← ReadBody d blockHash blockNumber;
  found ← findTx hash 0 (bodyTransactions body);
  Some (found.1, blockHash, blockNumber, found.2).
End Accessors.
