(* ===== verification/Genesis.v ===== *)
(** * The first block (core/genesis.go)

    The state and the block of a genesis specification, how they are committed,
    and what a node does with them when it starts. *)

From S2P Require Import StateDB StateFacts StateRevert JournalFacts StateIface Prelude Params Types Misc Snapshot Engine Contracts Finalize TxQueue ChainDB.

(** [params.DevAdmin] *)
Definition DevAdmin : Address := 0x29Adb7D21258AaBB7C02965122a983f4A182575E.
Definition GenesisGasLimit : Z := 4712388.
Definition GenesisDifficulty : Z := 131072.

(** [GenesisAccount]; the storage map in the order it is iterated in. *)
Record GenesisAccount : Type := mkGenesisAccount {
  gaCode : list byte;
  gaStorage : list (Hash * Hash);
  gaBalance : Z;
  gaNonce : Z;
}.
(** [Genesis]; [Alloc] in the order of the iteration. *)
Record Genesis : Type := mkGenesis {
  gConfig : option ChainConfig;
  gClique : bool;   (* whether the configuration has a Clique section *)
  gNonce : Z;
  gTimestamp : Z;
  gExtraData : list byte;
  gGasLimit : Z;
  gDifficulty : option Z;
  gMixhash : Hash;
  gCoinbase : Address;
  gAlloc : list (Address * GenesisAccount);
  gNumber : Z;
  gGasUsed : Z;
  gParentHash : Hash;
  gBaseFee : option Z;
}.

(** The key-value store: the chain, and the configuration by genesis hash. *)
Record GenesisStore : Type := mkStore { sChain : ChainDB; sConfigs : gmap Hash ChainConfig }.

Inductive SetupError : Type :=
  | errGenesisNoConfig   (* next to it the code returns [AllEthashProtocolChanges] *)
  | commitError (e : error)
  | GenesisMismatchError (stored new : Hash)
  | missingHead
  | compatError (e : ConfigCompatError).

Section Genesis.
Context `{Backend} `{Crypto}.
(** The root of the tries of a state ([IntermediateRoot]), and whether the state
    of a root can be opened ([state.New]). *)
Variables (stateRoot : StateDB -> Hash) (hasState : Hash -> bool).

Definition noAccount : GenesisAccount := mkGenesisAccount [] [] 0 0.
Definition allocOf (addr : Address) (l : list (Address * GenesisAccount)) : GenesisAccount :=
  default noAccount (snd <$> find (fun e => e.1 =? addr) l).

(** One account of the specification. *)
Definition applyAccount (addr : Address) (a : GenesisAccount) (s : StateDB) : StateDB :=
  foldl (fun s kv => SetState addr kv.1 kv.2 s) (SetNonce addr (gaNonce a) (SetCode addr (gaCode a) (AddBalance addr (gaBalance a) s))) (gaStorage a).
Definition allocTotal (l : list (Address * GenesisAccount)) : Z := foldl (fun t e => t + gaBalance e.2) 0 l.

(** The state [ToBlock] makes on an empty database. *)
Definition genesisState (g : Genesis) : StateDB :=
  let s := foldl (fun s e => applyAccount e.1 e.2 s) (StateDB.New false) (gAlloc g) in
  let total := allocTotal (gAlloc g) in
  if 0 <? total then
    let a := allocOf DevAdmin (gAlloc g) in
    applyAccount DevAdmin (mkGenesisAccount (gaCode a) (gaStorage a) total (gaNonce a)) s
  else s.
Definition ToBlock (g : Genesis) : Block :=
  let londonFee := match gBaseFee g with Some x => Some x | None => Some InitialBaseFee end in
  mkBlock (mkHeader (gParentHash g) EmptyUncleHash (gCoinbase g) (stateRoot (genesisState g)) emptyRoot emptyRoot 0
    (Some (default GenesisDifficulty (gDifficulty g))) (Some (gNumber g))
    (if gGasLimit g =? 0 then GenesisGasLimit else gGasLimit g) (gGasUsed g) (gTimestamp g) (gExtraData g) (gMixhash g) (gNonce g)
    (match gConfig g with Some c => if IsLondon c (Some 0) then londonFee else gBaseFee g | None => gBaseFee g end)) [] [].

(** What [Commit] writes for the chain. *)
Definition genesisBatch (b : Block) : Batch :=
  [WriteTd (hashOf b) (numberOf b) (difficultyOf (bHeader b)); WriteBlock b; WriteReceipts (hashOf b) (numberOf b) [];
   WriteCanonicalHash (hashOf b) (numberOf b); WriteHeadBlockHash (hashOf b); WriteHeadFastBlockHash (hashOf b); WriteHeadHeaderHash (hashOf b)].
(** [Commit] with the configuration [config]. *)
Definition Commit (g : Genesis) (config : ChainConfig) (s : GenesisStore) : res (Block * GenesisStore) :=
  let block := ToBlock g in
  if negb (gNumber g =? 0) then Err (errorf "can't commit genesis block with number > 0") else
  _ ← CheckConfigForkOrder config;
  _ ← fail_if (gClique g && (zlen (Extra (bHeader block)) =? 0)) (errorf "can't start clique chain without signers");
  Ok (block, mkStore (commit (genesisBatch block) (sChain s)) (<[hashOf block := config]> (sConfigs s))).

(** [SetupGenesisBlockWithOverride] on a specification that is given; the
    configuration, the hash and the error it returns. *)
Definition setupResult : Type := (option ChainConfig * Hash * option SetupError)%type.
Definition commitSetup (g : Genesis) (config : ChainConfig) (failHash : Hash) (s : GenesisStore) : res (setupResult * GenesisStore) :=
  match Commit g config s with
  | Ok (block, s) => Ok ((Some config, hashOf block, None), s)
  | Err e => Ok ((Some config, failHash, Some (commitError e)), s)
  | Panic => Panic
  end.
Definition withArrowGlacier (o : option Z) (c : ChainConfig) : ChainConfig :=
  match o with
  | None => c
  | Some n => mkChainConfig (ChainID c) (HomesteadBlock c) (DAOForkBlock c) (DAOForkSupport c) (EIP150Block c) (EIP150Hash c) (EIP155Block c) (EIP158Block c)
      (ByzantiumBlock c) (ConstantinopleBlock c) (PetersburgBlock c) (IstanbulBlock c) (MuirGlacierBlock c) (BerlinBlock c) (LondonBlock c) (Some n)
      (TerminalTotalDifficulty c) (RedCoastBlock c) (SophonBlock c) (Congress c)
  end.
(** The stored configuration is replaced when the new one is compatible. *)
Definition updateConfig (newcfg : ChainConfig) (stored : Hash) (s : GenesisStore) : setupResult * GenesisStore :=
  let write := mkStore (sChain s) (<[stored := newcfg]> (sConfigs s)) in
  match CheckConfigForkOrder newcfg with
  | Err e => ((Some newcfg, 0, Some (commitError e)), s)
  | _ =>
      match sConfigs s !! stored with
      | None => ((Some newcfg, stored, None), write)
      | Some storedcfg =>
          match ReadHeaderNumber (sChain s) (headHeaderHash (sChain s)) with
          | None => ((Some newcfg, stored, Some missingHead), s)
          | Some height =>
              match CheckCompatible (S (S (Z.to_nat height))) storedcfg newcfg height with
              | Some (Some e) => if negb (height =? 0) && negb (RewindTo e =? 0) then ((Some newcfg, stored, Some (compatError e)), s) else ((Some newcfg, stored, None), write)
              | _ => ((Some newcfg, stored, None), write)
              end
          end
      end
  end.
Definition SetupGenesisBlockWithOverride (g : Genesis) (overrideArrowGlacier : option Z) (s : GenesisStore) : res (setupResult * GenesisStore) :=
  match gConfig g with
  | None => Ok ((None, 0, Some errGenesisNoConfig), s)
  | Some config =>
      let stored := ReadCanonicalHash (sChain s) 0 in
      if stored =? 0 then commitSetup g config 0 s else
      match ReadHeader (sChain s) stored 0 with
      | None => Panic
      | Some header =>
          let hash := hashOf (ToBlock g) in
          if negb (hash =? stored) then Ok ((Some config, hash, Some (GenesisMismatchError stored hash)), s)
          else if negb (hasState (Root header)) then commitSetup g config hash s
          else Ok (updateConfig (withArrowGlacier overrideArrowGlacier config) stored s)
      end
  end.
End Genesis.

(** ** Balances of the first state *)

Section Balances.
Context `{Backend}.

(** The state is well formed, and these are its balances. *)
Definition holds (f : Address -> Z) (s : StateDB) : Prop := valid s /\ forall a, balanceOf s a = f a.

Lemma balance_view s s' a : wf s -> wf s' -> StateFacts.view s' a = StateFacts.view s a -> balanceOf s' a = balanceOf s a.
Proof.
  intros Hw Hw' Hv. rewrite (balance_data s a), (balance_data s' a) by done. unfold data_at, live. unfold StateFacts.view in Hv.
  destruct (obj_at s' a) as [o'|], (obj_at s a) as [o|]; simpl in Hv; try done.
  assert (Hd : data o' = data o) by (unfold view_obj in Hv; congruence). assert (Hdel : deleted o' = deleted o) by (unfold view_obj in Hv; congruence).
  rewrite Hdel. destruct (deleted o); [done|]. simpl. by rewrite Hd.
Qed.

Lemma holds_AddBalance f a x s : holds f s -> holds (fun b => if decide (a = b) then f a + x else f b) (AddBalance a x s).
Proof.
  intros [Hv Hf]. destruct (balance_law a x s (fun b => b + x) Hv ltac:(intros; simpl; lia)) as (Hv' & _ & _ & Hb). split; [exact Hv'|].
  intros b. etrans; [apply Hb|]. by rewrite !Hf.
Qed.
(** Another field of the data changes. *)
Lemma holds_data f a s o s1 o' s2 (d : StateAccount) : holds f s -> GetOrNewStateObject a s = (o, s1) -> valid s2 ->
  (forall b, data_at s2 b = if decide (a = b) then Some d else data_at s1 b) -> Balance d = Balance (data o) -> o' = o -> holds f s2.
Proof.
  intros [Hv Hf] Hg Hv2 Hat Hd Ho. split; [done|]. intros b. destruct (change_data a s o s1 o' s2 d Hv Hg Hv2 Hat Ho b) as [-> _].
  destruct (getOrNew_data a s o s1 Hv Hg) as (_ & _ & _ & _ & Hbal & _). case_decide; [subst b|done]. by rewrite Hd, Hbal.
Qed.
Lemma holds_SetNonce f a n s : holds f s -> holds f (SetNonce a n s).
Proof.
  intros Hs. assert (Hgood : good s (SetNonce a n s)) by (by apply (do_op_good (OSetNonce a n)); [apply Hs|]). unfold SetNonce in *.
  destruct (GetOrNewStateObject a s) as [o s1] eqn:Hg. destruct (getOrNew_data a s o s1 (proj1 Hs) Hg) as (_ & Ha & Hd & _).
  eapply (holds_data f a s o s1 o _ (data_Nonce n (data o))); [done|done|apply Hgood| |done|done].
  intros b. rewrite data_at_set, data_at_append. simpl. by rewrite Ha, Hd.
Qed.
Lemma holds_SetCode f a c s : holds f s -> holds f (SetCode a c s).
Proof.
  intros Hs. pose proof (good_SetCode a c s (proj1 Hs)) as Hgood. unfold SetCode in *.
  destruct (GetOrNewStateObject a s) as [o s1] eqn:Hg. destruct (getOrNew_data a s o s1 (proj1 Hs) Hg) as (_ & Ha & Hd & _).
  destruct (obj_Code o) as [prevcode o1] eqn:Ec.
  assert (Hsame : data o1 = data o /\ address o1 = address o /\ deleted o1 = deleted o)
    by (unfold obj_Code in Ec; destruct (code o); [by simplify_eq|]; destruct (_ =? _); by simplify_eq/=).
  destruct Hsame as (Hda & Haa & Hdd).
  eapply (holds_data f a s o s1 o _ (data (obj_setCode (Keccak256Hash c) (Some c) o1))); [done|done|apply Hgood| |simpl; by rewrite Hda|done].
  intros b. rewrite data_at_set, data_at_append. simpl. by rewrite Haa, Hdd, Ha, Hd.
Qed.
Lemma holds_SetState f a k x s : holds f s -> holds f (SetState a k x s).
Proof.
  intros [Hv Hf]. pose proof (good_SetState a k x s Hv) as [_ Hv']. split; [done|]. intros b. rewrite <- Hf. revert Hv'. unfold SetState.
  destruct (GetOrNewStateObject a s) as [o s1] eqn:Hg. destruct (good_getOrNew a s o s1 Hv Hg) as ([_ Hv1] & Hin & _ & Ha).
  destruct (getOrNew_data a s o s1 Hv Hg) as (_ & _ & _ & Hother & Hbal & _).
  assert (H1b : balanceOf s1 b = balanceOf s b).
  { destruct (decide (b = a)) as [->|Hne]; [|by rewrite (balance_data s1 b), (balance_data s b), Hother by (try done; apply Hv || apply Hv1)].
    rewrite <- Hbal, (balance_data s1 a) by apply Hv1. destruct (good_getOrNew a s o s1 Hv Hg) as (_ & _ & Hd & _). unfold data_at, live, obj_at. by rewrite Hin, Hd. }
  destruct (obj_GetState k o s1) as [prev s2] eqn:Ep. destruct (getState_spec a o k s1 prev s2 (proj1 Hv1) Hin Ep) as (_ & [Heq Hw2 _ _ (o2 & Ho2 & Ha2 & _)]).
  assert (H2b : balanceOf s2 b = balanceOf s1 b) by (apply balance_view; [apply Hv1|done|apply Heq]).
  case_if; [congruence|]. intros Hv'. rewrite Ho2 in *. simpl default in *. rewrite <- H1b, <- H2b. apply balance_view; [done|apply Hv'|].
  rewrite view_set. simpl. rewrite Ha2. case_decide; [subst b|by rewrite ?view_append]. unfold StateFacts.view, obj_at. by rewrite Ho2.
Qed.

Lemma holds_applyAccount f addr a s : holds f s -> holds (fun b => if decide (addr = b) then f addr + gaBalance a else f b) (applyAccount addr a s).
Proof.
  intros Hs. unfold applyAccount. pose proof (holds_SetNonce _ addr (gaNonce a) _ (holds_SetCode _ addr (gaCode a) _ (holds_AddBalance f addr (gaBalance a) s Hs))) as Hn.
  revert Hn. generalize (SetNonce addr (gaNonce a) (SetCode addr (gaCode a) (AddBalance addr (gaBalance a) s))).
  induction (gaStorage a) as [|[k x] l IH]; intros t Ht; [done|]. simpl. by apply IH, holds_SetState.
Qed.
Lemma holds_alloc l : forall f s, holds f s ->
  holds (fun b => f b + foldr (fun e t => (if decide (e.1 = b) then gaBalance e.2 else 0) + t) 0 l) (foldl (fun s e => applyAccount e.1 e.2 s) s l).
Proof.
  induction l as [|[addr a] l IH]; intros f s Hs; simpl.
  - destruct Hs as [Hv Hf]. split; [done|]. intros b. rewrite Hf. lia.
  - destruct (IH _ _ (holds_applyAccount f addr a s Hs)) as [Hv Hf]. split; [done|]. intros b. rewrite Hf. case_decide; [subst b|]; lia.
Qed.
End Balances.

Lemma compatible_self c head : checkCompatible c c head = None.
Proof.
  unfold checkCompatible, forkCheck, isForkIncompatible. simpl. rewrite !configNumEqual_refl, eqb_reflx, !andb_false_r. reflexivity.
Qed.

Lemma foldRes_ends {A B} (f : A -> B -> res A) l : (forall a b, f a b <> Panic) -> forall a, foldRes f a l <> Panic.
Proof. intros Hf. induction l as [|b l IH]; intros a; simpl; [done|]. destruct (f a b) eqn:E; simpl; [apply IH|done|by destruct (Hf a b)]. Qed.
Lemma fork_order_ends c : CheckConfigForkOrder c <> Panic.
Proof.
  unfold CheckConfigForkOrder.
  assert (E1 : forall x, foldRes checkForkStep x (ethereumForks c) <> Panic).
  { apply foldRes_ends. intros a b. unfold checkForkStep, fail_if. by repeat case_match. }
  assert (E2 : forall x, foldRes checkCongressForkStep x (congressForks c) <> Panic).
  { apply foldRes_ends. intros a b. unfold checkCongressForkStep, fail_if. by repeat (case_match; simplify_eq/=). }
  specialize (E1 zeroFork). specialize (E2 zeroFork). destruct (foldRes checkForkStep zeroFork _), (foldRes checkCongressForkStep zeroFork _); done.
Qed.

Section Setup.
Context `{Backend} `{Crypto}.

(** C18: On an empty database the genesis state holds what the specification
    allocates and, besides, [params.DevAdmin] is credited with the sum of all
    the allocated balances once more. *)
Theorem genesis_balances g b : (forall a, accountAt a = None) ->
  balanceOf (genesisState g) b =
    foldr (fun e t => (if decide (e.1 = b) then gaBalance e.2 else 0) + t) 0 (gAlloc g) +
    (if decide (DevAdmin = b /\ 0 < allocTotal (gAlloc g)) then allocTotal (gAlloc g) else 0).
Proof.
  intros Hempty. assert (H0s : holds (fun _ => 0) (StateDB.New false)).
  { split; [apply New_valid|]. intros a. rewrite balance_data by apply New_valid. unfold data_at, live, obj_at. simpl. rewrite lookup_empty, Hempty. done. }
  pose proof (holds_alloc (gAlloc g) _ _ H0s) as Ha. unfold genesisState. destruct (Z.ltb_spec 0 (allocTotal (gAlloc g))) as [Hlt|Hge].
  - destruct (holds_applyAccount _ DevAdmin (mkGenesisAccount (gaCode (allocOf DevAdmin (gAlloc g))) (gaStorage (allocOf DevAdmin (gAlloc g)))
      (allocTotal (gAlloc g)) (gaNonce (allocOf DevAdmin (gAlloc g)))) _ Ha) as [_ Hb]. rewrite Hb. cbn [gaBalance].
    destruct (decide (DevAdmin = b)) as [<-|Hne]; [rewrite decide_True by done; lia|rewrite decide_False by tauto; lia].
  - destruct Ha as [_ Ha]. rewrite Ha, decide_False by lia. lia.
Qed.

Variables (stateRoot : StateDB -> Hash) (hasState : Hash -> bool).
#[local] Abbreviation ToBlock := (ToBlock stateRoot).
#[local] Abbreviation Setup := (SetupGenesisBlockWithOverride stateRoot hasState).

(** What a committed specification leaves in the store. *)
Lemma committed_reads g c s : (exists e, Commit stateRoot g c s = Err e) \/
  exists s', Commit stateRoot g c s = Ok (ToBlock g, s') /\ CheckConfigForkOrder c = Ok tt /\
    ReadCanonicalHash (sChain s') 0 = hashOf (ToBlock g) /\ ReadHeader (sChain s') (hashOf (ToBlock g)) 0 = Some (bHeader (ToBlock g)) /\
    ReadBlock (sChain s') (hashOf (ToBlock g)) 0 = Some (ToBlock g) /\ sConfigs s' !! hashOf (ToBlock g) = Some c /\
    ReadHeaderNumber (sChain s') (headHeaderHash (sChain s')) = Some 0.
Proof.
  unfold Commit. destruct (Z.eqb_spec (gNumber g) 0) as [Hg|Hg]; cbn [negb]; [|left; by eexists].
  pose proof (fork_order_ends c) as Hp. destruct (CheckConfigForkOrder c) as [[]|e|]; [|left; by eexists|done].
  cbn [mbind res_bind]. unfold fail_if. destruct (gClique g && _); [left; by eexists|right].
  assert (Hn : numberOf (ToBlock g) = 0) by (unfold numberOf, NumberU64; simpl; by rewrite Hg). set (b := ToBlock g) in *. clearbody b.
  eexists. split; [reflexivity|]. split; [done|]. cbn [sChain sConfigs]. unfold commit, genesisBatch. cbn [foldl].
  unfold WriteHeadHeaderHash, WriteHeadFastBlockHash, WriteHeadBlockHash, WriteCanonicalHash, WriteReceipts, WriteBlock, WriteTd, WriteHeader, WriteHeaderNumber, WriteBody,
    ReadCanonicalHash, ReadHeader, ReadBlock, ReadHeaderNumber, ReadBody. cbn.
  change (NumberU64 (bHeader b)) with (numberOf b). change (HeaderHash (bHeader b)) with (hashOf b). rewrite Hn, !lookup_insert_eq. simpl. split; [done|]. split; [done|].
  split; [by destruct b|done].
Qed.

(** C17: Committed on an empty store, a specification is found again unchanged:
    a second setup returns the same configuration and hash and leaves the store
    as it is; another specification is refused without a write. *)
Theorem genesis_setup g g' c c' s : gConfig g = Some c -> gConfig g' = Some c' ->
  ReadCanonicalHash (sChain s) 0 = 0 -> hashOf (ToBlock g) <> 0 -> hashOf (ToBlock g') <> hashOf (ToBlock g) ->
  hasState (Root (bHeader (ToBlock g))) = true ->
  match Setup g None s with
  | Ok ((_, hash, None), s') => hash = hashOf (ToBlock g) /\ ReadBlock (sChain s') hash 0 = Some (ToBlock g) /\
      Setup g None s' = Ok ((Some c, hash, None), s') /\
      Setup g' None s' = Ok ((Some c', hashOf (ToBlock g'), Some (GenesisMismatchError hash (hashOf (ToBlock g')))), s')
  | Ok ((_, _, Some e), s') => s' = s /\ exists x, e = commitError x
  | _ => False
  end.
Proof.
  intros Hc Hc' Hempty Hnz Hne Hst. destruct (committed_reads g c s) as [(e & He)|(s' & Hs' & Hord & Hcan & Hhd & Hbk & Hcfg & Hhead)].
  { unfold SetupGenesisBlockWithOverride. rewrite Hc, Hempty. simpl. unfold commitSetup. rewrite He. split; [done|by eexists]. }
  assert (E1 : Setup g None s = Ok ((Some c, hashOf (ToBlock g), None), s'))
    by (unfold SetupGenesisBlockWithOverride; rewrite Hc, Hempty; simpl; unfold commitSetup; by rewrite Hs').
  rewrite E1. split; [done|]. split; [exact Hbk|]. unfold SetupGenesisBlockWithOverride. rewrite Hc, Hc', Hcan, Hhd, (proj2 (Z.eqb_neq _ 0)) by done.
  rewrite Z.eqb_refl, (proj2 (Z.eqb_neq _ (hashOf (ToBlock g)))), Hst by done. simpl. split; [|done].
  unfold updateConfig, withArrowGlacier. rewrite Hord, Hcfg, Hhead. unfold CheckCompatible. simpl. rewrite compatible_self. simpl.
  f_equal. f_equal. destruct s'. simpl in *. by rewrite insert_id.
Qed.
End Setup.

(** ** Examples *)

#[local] Instance emptyBackend : Backend := {|
  accountAt _ := None; trieGet _ _ := 0; snapStorage _ _ := 0; ContractCode _ := None; Keccak256Hash c := zlen c
|}.
#[local] Instance mixCrypto : Crypto := {|
  HeaderHash h := MixDigest h; SealHash h := MixDigest h; EcrecoverAddr _ _ := Ok 0; EmptyUncleHash := 5
|}.
Definition smallGenesis (mix : Hash) : Genesis :=
  mkGenesis (Some sampleConfig) false 0 0 [] 0 None mix 0 [(7, mkGenesisAccount [] [(1, 2)] 100 0); (9, mkGenesisAccount [] [] 50 1)] 0 0 0 None.
Definition emptyChainDB : ChainDB := mkChainDB ∅ ∅ ∅ ∅ ∅ ∅ ∅ ∅ 0 0 0 [].

Lemma genesis_balances_witness : (forall a, accountAt a = None) /\ balanceOf (genesisState (smallGenesis 1)) DevAdmin = 150 /\ balanceOf (genesisState (smallGenesis 1)) 7 = 100.
Proof.
  split; [done|]. split.
  - etransitivity; [exact (genesis_balances (smallGenesis 1) DevAdmin (fun _ => eq_refl))|vm_compute; reflexivity].
  - etransitivity; [exact (genesis_balances (smallGenesis 1) 7 (fun _ => eq_refl))|vm_compute; reflexivity].
Defined.
Lemma genesis_setup_witness :
  let Setup := SetupGenesisBlockWithOverride (fun _ => 3) (fun _ => true) in
  exists s', Setup (smallGenesis 1) None (mkStore emptyChainDB ∅) = Ok ((Some sampleConfig, 1, None), s') /\
    Setup (smallGenesis 1) None s' = Ok ((Some sampleConfig, 1, None), s') /\
    Setup (smallGenesis 2) None s' = Ok ((Some sampleConfig, 2, Some (GenesisMismatchError 1 2)), s').
Proof.
  assert (A1 : hashOf (ToBlock (fun _ => 3) (smallGenesis 1)) <> 0) by (vm_compute; discriminate).
  assert (A2 : hashOf (ToBlock (fun _ => 3) (smallGenesis 2)) <> hashOf (ToBlock (fun _ => 3) (smallGenesis 1))) by (vm_compute; discriminate).
  pose proof (genesis_setup (fun _ => 3) (fun _ => true) (smallGenesis 1) (smallGenesis 2) sampleConfig sampleConfig (mkStore emptyChainDB ∅)
    eq_refl eq_refl eq_refl A1 A2 eq_refl) as Hs.
  assert (E1 : exists s', SetupGenesisBlockWithOverride (fun _ => 3) (fun _ => true) (smallGenesis 1) None (mkStore emptyChainDB ∅) = Ok ((Some sampleConfig, 1, None), s')).
  { eexists. vm_compute. reflexivity. }
  destruct E1 as [s' E1]. cbv zeta. exists s'. rewrite E1 in Hs. destruct Hs as (_ & _ & Hb & Hc). split; [exact E1|]. split; [exact Hb|exact Hc].
Defined.
