(* ===== verification/HeaderChain.v ===== *)
(** * The header chain (core/headerchain.go)

    Headers, total difficulties, the canonical numbering and the head header,
    read through caches. *)

From S2P Require Import StateDB StateIface Prelude Hoare Params Types Misc Snapshot Engine Contracts Finalize TxQueue ChainDB.

(** ** Caches of hashicorp/golang-lru, for any type of values *)
Class Lru (L : Type -> Type) : Type := {
  lru_cache :: forall V, Cache (L V) Hash V;
  lru_contains : forall {V}, Hash -> L V -> bool;
  lru_remove : forall {V}, Hash -> L V -> L V;
  lru_purge : forall {V}, L V -> L V;
  lru_values : forall {V}, L V -> list V;   (* [Keys] with [Peek] *)
}.
Class LruLaws (L : Type -> Type) `{Lru L} : Prop := {
  lru_cache_laws :: forall V, CacheLaws (L V) Hash V;
  lru_contains_mem : forall V k (c : L V), lru_contains k c = true -> exists v, cache_mem c k v;
  lru_remove_mem : forall V k (c : L V) k' v, cache_mem (lru_remove k c) k' v -> cache_mem c k' v;
  lru_purge_mem : forall V (c : L V) k v, ~ cache_mem (lru_purge c) k v;
  lru_values_mem : forall V (c : L V) v, v ∈ lru_values c -> exists k, cache_mem c k v;
}.

(** Look in the cache, then in the database; what is found there is cached under
    the key the caller makes of it. *)
Definition cachedRead {S C V} `{Cache C Hash V} (cache : S -> C) (set : C -> S -> S) (keyOf : V -> Hash) (key : Hash) (read : S -> option V) : ST S (option V) :=
  s ← st_get;
  let '(hit, c) := cache_get key (cache s) in
  _ ← st_put (set c s);
  match hit with
  | Some v => mret (Some v)
  | None =>
      match read s with
      | None => mret None
      | Some v => _ ← st_modify (fun s => set (cache_add (keyOf v) v (cache s)) s); mret (Some v)
      end
  end.

(** [HeaderChain].  The last two fields are the surroundings: the flips of the
    global random source, and how many more times the interrupt flag of the
    chain is read before another goroutine has set it. *)
Record HeaderChain (L : Type -> Type) : Type := mkHeaderChain {
  chainDb : ChainDB;
  genesisHeader : Header;
  currentHeader : Header;
  currentHeaderHash : Hash;
  headerCache : L Header;
  tdCache : L Z;
  numberCache : L Z;
  coins : list bool;
  stopAfter : option nat;
}.
Arguments mkHeaderChain {L}. Arguments chainDb {L}. Arguments genesisHeader {L}. Arguments currentHeader {L}.
Arguments currentHeaderHash {L}. Arguments headerCache {L}. Arguments tdCache {L}. Arguments numberCache {L}.
Arguments coins {L}. Arguments stopAfter {L}.

Module Headers.
Section HeaderChain.
Context `{Crypto} `{Lru L}.
#[local] Abbreviation HC := (HeaderChain L).
Implicit Types c : HC.

Definition on_db (f : ChainDB -> ChainDB) c : HC := mkHeaderChain (f (chainDb c)) (genesisHeader c) (currentHeader c) (currentHeaderHash c)
  (headerCache c) (tdCache c) (numberCache c) (coins c) (stopAfter c).
Definition set_current (h : Header) (hash : Hash) c : HC := mkHeaderChain (chainDb c) (genesisHeader c) h hash
  (headerCache c) (tdCache c) (numberCache c) (coins c) (stopAfter c).
Definition set_headerCache l c : HC := mkHeaderChain (chainDb c) (genesisHeader c) (currentHeader c) (currentHeaderHash c)
  l (tdCache c) (numberCache c) (coins c) (stopAfter c).
Definition set_tdCache l c : HC := mkHeaderChain (chainDb c) (genesisHeader c) (currentHeader c) (currentHeaderHash c)
  (headerCache c) l (numberCache c) (coins c) (stopAfter c).
Definition set_numberCache l c : HC := mkHeaderChain (chainDb c) (genesisHeader c) (currentHeader c) (currentHeaderHash c)
  (headerCache c) (tdCache c) l (coins c) (stopAfter c).
Definition set_coins l c : HC := mkHeaderChain (chainDb c) (genesisHeader c) (currentHeader c) (currentHeaderHash c)
  (headerCache c) (tdCache c) (numberCache c) l (stopAfter c).
Definition set_stop o c : HC := mkHeaderChain (chainDb c) (genesisHeader c) (currentHeader c) (currentHeaderHash c)
  (headerCache c) (tdCache c) (numberCache c) (coins c) o.

(** [procInterrupt]: once set, the flag stays set. *)
Definition interrupted : ST HC bool :=
  c ← st_get;
  match stopAfter c with
  | None => mret false
  | Some O => mret true
  | Some (S n) => _ ← st_put (set_stop (Some n) c); mret false
  end.
(** [mrand.Float64() < 0.5] *)
Definition flip : ST HC bool :=
  c ← st_get;
  match coins c with [] => mret false | b :: bs => _ ← st_put (set_coins bs c); mret b end.
Definition writeBatch (batch : Batch) : ST HC unit := st_modify (on_db (commit batch)).

(** ** Reading *)

Definition GetBlockNumber (hash : Hash) : ST HC (option Z) :=
  cachedRead numberCache set_numberCache (fun _ => hash) hash (fun c => ReadHeaderNumber (chainDb c) hash).
Definition GetTd (hash : Hash) (number : Z) : ST HC (option Z) :=
  cachedRead tdCache set_tdCache (fun _ => hash) hash (fun c => ReadTd (chainDb c) hash number).
Definition GetHeader (hash : Hash) (number : Z) : ST HC (option Header) :=
  cachedRead headerCache set_headerCache (fun _ => hash) hash (fun c => ReadHeader (chainDb c) hash number).
Definition GetHeaderByHash (hash : Hash) : ST HC (option Header) :=
  number ← GetBlockNumber hash;
  match number with None => mret None | Some number => GetHeader hash number end.
Definition HasHeader (hash : Hash) (number : Z) : ST HC bool :=
  c ← st_get;
  mret (lru_contains hash (numberCache c) || lru_contains hash (headerCache c) || ChainDB.HasHeader (chainDb c) hash number).
Definition GetHeaderByNumber (number : Z) : ST HC (option Header) :=
  c ← st_get;
  let hash := ReadCanonicalHash (chainDb c) number in
  if hash =? 0 then mret None else GetHeader hash number.
Definition GetCanonicalHash (number : Z) c : Hash := ReadCanonicalHash (chainDb c) number.
Definition SetCurrentHeader (head : Header) : ST HC unit := st_modify (set_current head (HeaderHash head)).

(** [GetAncestor]; the last component of the answer is the counter. *)
Fixpoint ancestorLoop (fuel : nat) (hash : Hash) (number ancestor maxNonCanonical : Z) : ST HC (Hash * Z * Z) :=
  if ancestor =? 0 then mret (hash, number, maxNonCanonical) else
  match fuel with
  | O => st_err ErrOutOfFuel
  | S fuel =>
      c ← st_get;
      if ReadCanonicalHash (chainDb c) number =? hash
      then mret (ReadCanonicalHash (chainDb c) (number -w ancestor), number -w ancestor, maxNonCanonical)
      else if maxNonCanonical =? 0 then mret (0, 0, maxNonCanonical)
      else
        header ← GetHeader hash number;
        match header with
        | None => mret (0, 0, maxNonCanonical -w 1)
        | Some header => ancestorLoop fuel (ParentHash header) (number -w 1) (ancestor -w 1) (maxNonCanonical -w 1)
        end
  end.
Definition GetAncestor (hash : Hash) (number ancestor maxNonCanonical : Z) : ST HC (Hash * Z * Z) :=
  if number <? ancestor then mret (0, 0, maxNonCanonical)
  else if ancestor =? 1 then
    header ← GetHeader hash number;
    mret (match header with Some header => (ParentHash header, number -w 1, maxNonCanonical) | None => (0, 0, maxNonCanonical) end)
  else ancestorLoop (S (Z.to_nat ancestor)) hash number ancestor maxNonCanonical.

(** ** The canonical numbers that follow [i] without a gap *)
Fixpoint markersFrom (fuel : nat) (d : ChainDB) (i : Z) : res (list Z) :=
  if ReadCanonicalHash d i =? 0 then Ok [] else
  match fuel with
  | O => Err ErrOutOfFuel
  | S fuel => rest ← markersFrom fuel d (i +w 1); Ok (i :: rest)
  end.
Definition markersAbove (d : ChainDB) (i : Z) : res (list Z) := markersFrom (S (size (headerHashes d))) d i.

(** ** Writing headers *)

Inductive WriteStatus : Type := NonStatTy | CanonStatTy | SideStatTy.
Record headerWriteResult : Type := mkWriteResult {
  status : WriteStatus;
  ignored : Z;
  imported : Z;
  lastHash : Hash;
  lastHeader : option Header;
}.
Definition emptyResult : headerWriteResult := mkWriteResult NonStatTy 0 0 0 None.

(** The first loop of [writeHeaders]: the batch, the number and hash of every
    header that is stored, the index of the first of them, and the total
    difficulty at the end. *)
Record scan : Type := mkScan {
  scanBatch : Batch;
  inserted : list (Z * Hash);
  firstInserted : option nat;
  newTD : Z;
}.
Definition storeHeader (header : Header) (hash : Hash) (number td : Z) : ST HC unit :=
  st_modify (fun c => set_numberCache (cache_add hash number (numberCache c))
    (set_headerCache (cache_add hash header (headerCache c)) (set_tdCache (cache_add hash td (tdCache c)) c))).
Fixpoint scanHeaders (i : nat) (parentKnown : bool) (headers : list Header) (w : scan) : ST HC scan :=
  match headers with
  | [] => mret w
  | header :: rest =>
      let hash := match rest with next :: _ => ParentHash next | [] => HeaderHash header end in
      let number := NumberU64 header in
      let td := newTD w + difficultyOf header in
      known ← HasHeader hash number;
      let alreadyKnown := parentKnown && known in
      if alreadyKnown then scanHeaders (S i) true rest (mkScan (scanBatch w) (inserted w) (firstInserted w) td)
      else
        _ ← storeHeader header hash number td;
        scanHeaders (S i) false rest
          (mkScan (scanBatch w ++ [WriteTd hash number td; WriteHeader header]) (inserted w ++ [(number, hash)])
            (match firstInserted w with None => Some i | o => o end) td)
  end.

(** Overwriting stale canonical numbers, backwards from the parent of the import. *)
Fixpoint overwriteMarkers (fuel : nat) (headHash : Hash) (headNumber : Z) (headHeader : option Header) (batch : Batch) : ST HC Batch :=
  c ← st_get;
  if ReadCanonicalHash (chainDb c) headNumber =? headHash then mret batch else
  match fuel, headHeader with
  | O, _ => st_err ErrOutOfFuel
  | _, None => st_panic
  | S fuel, Some headHeader =>
      let hash := ParentHash headHeader in
      let number := NumberU64 headHeader -w 1 in
      parent ← GetHeader hash number;
      overwriteMarkers fuel hash number parent (batch ++ [WriteCanonicalHash headHash headNumber])
  end.

Definition markCanonical (nh : Z * Hash) : Batch := [WriteCanonicalHash nh.2 nh.1; WriteHeadHeaderHash nh.2].

(** The batch that makes the import canonical. *)
Definition canonicalBatch (headers : list Header) (first lastHdr : Header) (w : scan) : ST HC Batch :=
  c ← st_get;
  batch ←
    (if ParentHash first =? currentHeaderHash c then mret []
     else
       above ← st_lift (markersAbove (chainDb c) (NumberU64 lastHdr +w 1));
       let headHash := ParentHash first in
       let headNumber := NumberU64 first -w 1 in
       headHeader ← GetHeader headHash headNumber;
       batch ← overwriteMarkers (S (Z.to_nat headNumber)) headHash headNumber headHeader (DeleteCanonicalHash <$> above);
       mret (batch ++ (take (default 0%nat (firstInserted w)) headers ≫= (fun h => markCanonical (NumberU64 h, HeaderHash h)))));
  mret (batch ++ (inserted w ≫= markCanonical)).

(** Is the import to become canonical? *)
Definition prefersHeaders (lastNumber td : Z) : ST HC bool :=
  c ← st_get;
  let head := NumberU64 (currentHeader c) in
  localTD ← GetTd (currentHeaderHash c) head;
  match localTD with
  | None => st_panic
  | Some localTD =>
      if localTD <? td then mret true
      else if td =? localTD then
        if lastNumber <? head then mret true
        else if lastNumber =? head then flip else mret false
      else mret false
  end.

Definition writeHeaders (headers : list Header) : ST HC headerWriteResult :=
  match headers with
  | [] => mret emptyResult
  | first :: rest =>
      ptd ← GetTd (ParentHash first) (NumberU64 first -w 1);
      match ptd with
      | None => st_err ErrUnknownAncestor
      | Some ptd =>
          w ← scanHeaders 0 true headers (mkScan [] [] None ptd);
          stopped ← interrupted;
          if (stopped : bool) then st_err (errorf "aborted") else
          _ ← writeBatch (scanBatch w);
          let lastHdr := List.last rest first in
          let hash := HeaderHash lastHdr in
          reorg ← prefersHeaders (NumberU64 lastHdr) (newTD w);
          _ ← (if (reorg : bool) then
                 batch ← canonicalBatch headers first lastHdr w;
                 _ ← writeBatch batch;
                 st_modify (set_current lastHdr hash)
               else mret tt);
          mret (mkWriteResult
            (match inserted w with [] => NonStatTy | _ => if (reorg : bool) then CanonStatTy else SideStatTy end)
            (zlen headers - zlen (inserted w)) (zlen (inserted w)) hash (Some lastHdr))
      end
  end.
(** The status that comes with an error is the one of the empty result. *)
Definition InsertHeaderChain (chain : list Header) : ST HC WriteStatus :=
  stopped ← interrupted;
  if (stopped : bool) then st_err (errorf "aborted") else
  r ← writeHeaders chain;
  mret (status r).
End HeaderChain.
End Headers.
