(* ===== verification/BlockChain.v ===== *)
(** * The block chain (core/blockchain.go, core/blockchain_reader.go)

    The head block and its markers, the choice between the branches, and the
    reorganisation from one branch to another with the events it fires. *)

From S2P Require Import StateDB StateIface Prelude Hoare Params Types Misc Snapshot Engine Contracts Finalize TxQueue ChainDB HeaderChain.

(** Logs carry the hash of their block. *)
Abbreviation LogEntry := (Log * Hash)%type.

(** What subscribers of the feeds receive. *)
Inductive ChainNote : Type :=
  | RemovedLogsEvent (logs : list LogEntry)
  | LogsEvent (logs : list LogEntry)
  | ChainEvent (b : Block) (logs : list LogEntry)
  | ChainSideEvent (b : Block)
  | ChainHeadEvent (b : Block)
  | BlockProcEvent (busy : bool).

(** What the chain relies on: the states of the trie database and the layers of
    its snapshots, the processing of a block on a state ([Processor.Process],
    [ValidateState]), the engine that verifies headers, and the hashes of
    lists of transactions and uncles.  [X] is what they keep, [T] a state. *)
Class ChainWorld (X T : Type) : Type := {
  HasState : Hash -> X -> bool;
  snapsEnabled : bool;
  HasSnapshot : Hash -> X -> bool;
  stateNew : Hash -> ST X T;
  processBlock : ChainHeaderReader -> Block -> T -> ST X (list Receipt * list LogEntry * Z * T);
  validateState : Block -> list Receipt -> Z -> T -> ST X T;
  asyncCommit : Block -> T -> ST X unit;
  statePreimages : T -> gmap Hash (list byte);
  verifyHeaders : ChainHeaderReader -> list Header -> list bool -> ST X (list (option error));
  CalcUncleHash : list Header -> Hash;
  DeriveTxSha : list Transaction -> Hash;
  blockSize : Block -> Z;
}.

(** [BlockChain]; [closed] is the state of the closable mutex. *)
Record BlockChain (L : Type -> Type) (X : Type) : Type := mkBlockChain {
  hc : HeaderChain L;
  genesisBlock : Block;
  currentBlock : Block;
  currentFastBlock : Block;
  blockCache : L Block;
  futureBlocks : L Block;
  world : X;
  events : list ChainNote;
  closed : bool;
}.
Arguments mkBlockChain {L X}. Arguments hc {L X}. Arguments genesisBlock {L X}. Arguments currentBlock {L X}. Arguments currentFastBlock {L X}.
Arguments blockCache {L X}. Arguments futureBlocks {L X}. Arguments world {L X}. Arguments events {L X}. Arguments closed {L X}.

Module Chain.
Import Headers.
Section BlockChain.
Context `{Crypto} `{TxSigning} `{Lru L} `{ChainWorld X T}.
(** [crypto.CreateAddress], the configuration, and the preference of the miner
    ([shouldPreserve]). *)
Variables (createAddress : Address -> Z -> Address) (chainConfig : ChainConfig) (shouldPreserve : option (Block -> bool)).
#[local] Abbreviation BC := (BlockChain L X).
Implicit Types s : BC.

Definition set_hc c s : BC := mkBlockChain c (genesisBlock s) (currentBlock s) (currentFastBlock s) (blockCache s) (futureBlocks s) (world s) (events s) (closed s).
Definition set_currentBlock b s : BC := mkBlockChain (hc s) (genesisBlock s) b (currentFastBlock s) (blockCache s) (futureBlocks s) (world s) (events s) (closed s).
Definition set_currentFastBlock b s : BC := mkBlockChain (hc s) (genesisBlock s) (currentBlock s) b (blockCache s) (futureBlocks s) (world s) (events s) (closed s).
Definition set_blockCache l s : BC := mkBlockChain (hc s) (genesisBlock s) (currentBlock s) (currentFastBlock s) l (futureBlocks s) (world s) (events s) (closed s).
Definition set_futureBlocks l s : BC := mkBlockChain (hc s) (genesisBlock s) (currentBlock s) (currentFastBlock s) (blockCache s) l (world s) (events s) (closed s).
Definition set_world w s : BC := mkBlockChain (hc s) (genesisBlock s) (currentBlock s) (currentFastBlock s) (blockCache s) (futureBlocks s) w (events s) (closed s).
Definition set_events l s : BC := mkBlockChain (hc s) (genesisBlock s) (currentBlock s) (currentFastBlock s) (blockCache s) (futureBlocks s) (world s) l (closed s).

Definition db s : ChainDB := chainDb (hc s).
Definition on_hc {A} (m : ST (HeaderChain L) A) : ST BC A := fun s => let '(r, c) := m (hc s) in (r, set_hc c s).
Definition on_world {A} (m : ST X A) : ST BC A := fun s => let '(r, w) := m (world s) in (r, set_world w s).
Definition send (e : ChainNote) : ST BC unit := st_modify (fun s => set_events (events s ++ [e]) s).
Definition insertStopped : ST BC bool := on_hc interrupted.

(** ** Reading *)

Definition GetBlock (hash : Hash) (number : Z) : ST BC (option Block) :=
  cachedRead blockCache set_blockCache hashOf hash (fun s => ReadBlock (db s) hash number).
Definition HasBlock (hash : Hash) (number : Z) : ST BC bool :=
  s ← st_get; mret (lru_contains hash (blockCache s) || HasBody (db s) hash number).
Definition GetBlockByNumber (number : Z) : ST BC (option Block) :=
  s ← st_get;
  let hash := ReadCanonicalHash (db s) number in
  if hash =? 0 then mret None else GetBlock hash number.
Definition GetTd (hash : Hash) (number : Z) : ST BC (option Z) := on_hc (Headers.GetTd hash number).
Definition GetHeader (hash : Hash) (number : Z) : ST BC (option Header) := on_hc (Headers.GetHeader hash number).
Definition stateAvailable (root : Hash) : ST BC bool := s ← st_get; mret (HasState root (world s)).
Definition HasBlockAndState (hash : Hash) (number : Z) : ST BC bool :=
  block ← GetBlock hash number;
  match block with None => mret false | Some block => stateAvailable (Root (bHeader block)) end.

(** The chain as [consensus.ChainHeaderReader]; the headers the engine asks for
    are looked up as [GetHeader] does, without filling the cache. *)
Definition answer {S A} (m : ST S (option A)) (s : S) : option A := match fst (m s) with Ok o => o | _ => None end.
Definition readerOf s : ChainHeaderReader :=
  mkChain chainConfig (Some (currentHeader (hc s))) (fun hash number => answer (Headers.GetHeader hash number) (hc s))
    (fun number => answer (GetHeaderByNumber number) (hc s)) (fun hash => answer (GetHeaderByHash hash) (hc s)).

(** ** Writing *)

Definition writeHeadBlock (b : Block) : ST BC unit :=
  s ← st_get;
  let updateHeads := negb (ReadCanonicalHash (db s) (numberOf b) =? hashOf b) in
  _ ← on_hc (writeBatch ([WriteCanonicalHash (hashOf b) (numberOf b); WriteTxLookupEntriesByBlock b; WriteHeadBlockHash (hashOf b)] ++
    (if updateHeads then [WriteHeadHeaderHash (hashOf b); WriteHeadFastBlockHash (hashOf b)] else [])));
  _ ← (if updateHeads then _ ← on_hc (SetCurrentHeader (bHeader b)); st_modify (set_currentFastBlock b) else mret tt);
  st_modify (set_currentBlock b).

Definition writeBlockWithoutState (b : Block) (td : Z) : ST BC unit :=
  stopped ← insertStopped;
  if (stopped : bool) then st_err errInsertionInterrupted
  else on_hc (writeBatch [WriteTd (hashOf b) (numberOf b) td; WriteBlock b]).

(** *** Reorganisation *)

(** The logs a block left, with their list when there are any.  The flag
    [Removed] the code sets on the logs of a dropped block is the event they are
    sent in. *)
Definition collectLogs (hash : Hash) : ST BC (list (list LogEntry)) :=
  number ← on_hc (GetBlockNumber hash);
  match number with
  | None => mret []
  | Some number =>
      s ← st_get;
      let logs := default [] (ReadReceipts createAddress (db s) hash number) ≫= RLogs in
      mret (match logs with [] => [] | _ => [logs] end)
  end.

Record branches : Type := mkBranches {
  oldChain : list Block;
  newChain : list Block;
  deletedLogs : list (list LogEntry);
}.
(** [deletedTxs] are the transactions of [oldChain], in its order. *)
Definition deletedTxs (r : branches) : list Transaction := oldChain r ≫= bTransactions.

Definition dropOld (b : Block) (r : branches) : ST BC branches :=
  logs ← collectLogs (hashOf b);
  mret (mkBranches (oldChain r ++ [b]) (newChain r) (deletedLogs r ++ logs)).
Definition stashNew (b : Block) (r : branches) : branches := mkBranches (oldChain r) (newChain r ++ [b]) (deletedLogs r).
Definition parentBlock (b : Block) : ST BC (option Block) := GetBlock (parentHashOf b) (numberOf b -w 1).

(** The two loops that bring the longer branch to the number of the other. *)
Fixpoint reduceOld (fuel : nat) (old : Block) (number : Z) (r : branches) : ST BC (option Block * branches) :=
  if numberOf old =? number then mret (Some old, r) else
  match fuel with
  | O => st_err ErrOutOfFuel
  | S fuel =>
      r ← dropOld old r;
      parent ← parentBlock old;
      match parent with None => mret (None, r) | Some old => reduceOld fuel old number r end
  end.
Fixpoint reduceNew (fuel : nat) (new : Block) (number : Z) (r : branches) : ST BC (option Block * branches) :=
  if numberOf new =? number then mret (Some new, r) else
  match fuel with
  | O => st_err ErrOutOfFuel
  | S fuel =>
      let r := stashNew new r in
      parent ← parentBlock new;
      match parent with None => mret (None, r) | Some new => reduceNew fuel new number r end
  end.
(** Down to the common block. *)
Fixpoint reduceBoth (fuel : nat) (old new : Block) (r : branches) : ST BC branches :=
  if hashOf old =? hashOf new then mret r else
  match fuel with
  | O => st_err ErrOutOfFuel
  | S fuel =>
      r ← dropOld old r;
      let r := stashNew new r in
      old ← parentBlock old;
      match old with
      | None => st_err (errorf "invalid old chain")
      | Some old =>
          new ← parentBlock new;
          match new with
          | None => st_err (errorf "invalid new chain")
          | Some new => reduceBoth fuel old new r
          end
      end
  end.
Definition findBranches (old new : Block) : ST BC branches :=
  let r := mkBranches [] [] [] in
  let fuel b := S (Z.to_nat (numberOf b)) in
  if numberOf new <? numberOf old then
    o ← reduceOld (fuel old) old (numberOf new) r;
    match o.1 with None => st_err (errorf "invalid old chain") | Some old => reduceBoth (fuel old) old new o.2 end
  else
    n ← reduceNew (fuel new) new (numberOf old) r;
    match n.1 with None => st_err (errorf "invalid new chain") | Some new => reduceBoth (fuel old) old new n.2 end.

(** The blocks of the new branch but its head become canonical, lowest first;
    their logs are reborn. *)
Definition adopt : list Block -> ST BC (list (list LogEntry)) :=
  st_collect (fun b => _ ← writeHeadBlock b; collectLogs (hashOf b)).

Definition notifyReorg (deleted reborn : list (list LogEntry)) (oldChain : list Block) : ST BC unit :=
  _ ← (match deleted with [] => mret tt | _ => send (RemovedLogsEvent (concat (rev deleted))) end);
  _ ← (match reborn with [] => mret tt | _ => send (LogsEvent (concat reborn)) end);
  st_each (fun b => send (ChainSideEvent b)) (rev oldChain).

Definition reorg (old new : Block) : ST BC unit :=
  r ← findBranches old new;
  let added := rev (drop 1 (newChain r)) in
  reborn ← adopt added;
  s ← st_get;
  above ← st_lift (markersAbove (db s) (numberOf (currentBlock s) +w 1));
  _ ← on_hc (writeBatch (((fun tx => DeleteTxLookupEntry (HashOfTx tx)) <$> TxDifference (deletedTxs r) (added ≫= bTransactions)) ++
    (DeleteCanonicalHash <$> above)));
  notifyReorg (deletedLogs r) reborn (oldChain r).

Definition writeKnownBlock (b : Block) : ST BC unit :=
  s ← st_get;
  _ ← (if parentHashOf b =? hashOf (currentBlock s) then mret tt else reorg (currentBlock s) b);
  writeHeadBlock b.

(** *** A processed block *)

(** Is the block with total difficulty [externTd] to become the head? *)
Definition prefersBlock (b : Block) (externTd localTd : Z) : ST BC bool :=
  s ← st_get;
  if localTd <? externTd then mret true
  else if externTd =? localTd then
    if numberOf b <? numberOf (currentBlock s) then mret true
    else if numberOf b =? numberOf (currentBlock s) then
      let preserve x := match shouldPreserve with Some f => f x | None => false end in
      if preserve (currentBlock s) then mret false
      else if preserve b then mret true
      else on_hc flip
    else mret false
  else mret false.

Definition writeBlockWithState (b : Block) (receipts : list Receipt) (logs : list LogEntry) (statedb : T) (emitHeadEvent : bool) : ST BC WriteStatus :=
  stopped ← insertStopped;
  if (stopped : bool) then st_err errInsertionInterrupted else
  ptd ← GetTd (parentHashOf b) (numberOf b -w 1);
  match ptd with
  | None => st_err ErrUnknownAncestor
  | Some ptd =>
      s ← st_get;
      localTd ← GetTd (hashOf (currentBlock s)) (numberOf (currentBlock s));
      let externTd := difficultyOf (bHeader b) + ptd in
      _ ← on_hc (writeBatch [WriteTd (hashOf b) (numberOf b) externTd; WriteBlock b;
            WriteReceipts (hashOf b) (numberOf b) receipts; WritePreimages (statePreimages statedb)]);
      _ ← on_world (asyncCommit b statedb);
      match localTd with
      | None => st_panic
      | Some localTd =>
          better ← prefersBlock b externTd localTd;
          _ ← (if (better : bool) then
                 s ← st_get;
                 _ ← (if parentHashOf b =? hashOf (currentBlock s) then mret tt else reorg (currentBlock s) b);
                 writeHeadBlock b
               else mret tt);
          _ ← st_modify (fun s => set_futureBlocks (lru_remove (hashOf b) (futureBlocks s)) s);
          if (better : bool) then
            _ ← send (ChainEvent b logs);
            _ ← (match logs with [] => mret tt | _ => send (LogsEvent logs) end);
            _ ← (if emitHeadEvent then send (ChainHeadEvent b) else mret tt);
            mret CanonStatTy
          else
            _ ← send (ChainSideEvent b);
            mret SideStatTy
      end
  end.
(** A closed chain refuses; the status next to the error is [NonStatTy]. *)
Definition WriteBlockWithState (b : Block) (receipts : list Receipt) (logs : list LogEntry) (statedb : T) (emitHeadEvent : bool) : ST BC WriteStatus :=
  s ← st_get;
  if closed s then st_err errInsertionInterrupted else writeBlockWithState b receipts logs statedb emitHeadEvent.

(** ** Blocks to come *)

Definition maxTimeFutureBlocks : Z := 30.
(** [now] is the clock, in seconds. *)
Definition addFutureBlock (now : Z) (b : Block) : ST BC unit :=
  if u64 (i64 (now + maxTimeFutureBlocks)) <? Time (bHeader b) then st_err (errorf "future block timestamp")
  else st_modify (fun s => set_futureBlocks (cache_add (hashOf b) b (futureBlocks s)) s).
Definition reportBlock (b : Block) : ST BC unit := on_hc (writeBatch [WriteBadBlock b]).
End BlockChain.
End Chain.
