(* ===== verification/ChainImport.v ===== *)
(** * Importing blocks (core/blockchain.go, core/blockchain_insert.go, core/block_validator.go)

    A batch of blocks is verified, validated, processed and written block by
    block; what is known is skipped, what is too early is queued, and a branch
    whose states are pruned is stored until it is heavy enough to be processed. *)

From S2P Require Import StateDB StateIface Prelude Hoare Params Types Misc Snapshot Engine Contracts Finalize TxQueue ChainDB HeaderChain BlockChain.

(** [BadHashes] (core/blocks.go) *)
Definition BadHashes : list Hash := [
  0x05bef30ef572270f654746da22639a7a0c97dd97a7050b9e252391996aaeb689;
  0x7d05d08cbc596a2e5e4f13b80a743e53e09221b5323c3a61946b20873e58583f].

(** [insertIterator]; [itErrors] are the results of the header verifier. *)
Record insertIterator : Type := mkIterator {
  itChain : list Block;
  itErrors : list (option error);
  itIndex : Z;
}.
Definition newInsertIterator (chain : list Block) (results : list (option error)) : insertIterator := mkIterator chain results (-1).
Definition blockAt (l : list Block) (i : Z) : option Block := if i <? 0 then None else l !! Z.to_nat i.
Definition previous (it : insertIterator) : option Header :=
  if itIndex it <? 1 then None else bHeader <$> blockAt (itChain it) (itIndex it - 1).
Definition current (it : insertIterator) : option Header := bHeader <$> blockAt (itChain it) (itIndex it).
Definition processed (it : insertIterator) : Z := itIndex it + 1.
Definition remaining (it : insertIterator) : Z := zlen (itChain it) - itIndex it.

Definition isErr (e : error) (o : option error) : bool := bool_decide (o = Some e).

Module ChainImporter.
Import Headers Chain.
Section Import.
Context `{Crypto} `{TxSigning} `{Lru L} `{ChainWorld X T}.
Variables (createAddress : Address -> Z -> Address) (chainConfig : ChainConfig) (shouldPreserve : option (Block -> bool)).
(** The clock when blocks are queued. *)
Variable now : Z.
#[local] Abbreviation BC := (BlockChain L X).
#[local] Abbreviation reorg := (reorg createAddress).
#[local] Abbreviation writeKnownBlock := (writeKnownBlock createAddress).

Definition attempt {A} (m : ST BC A) : ST BC (A + error) := fun s =>
  match m s with (Ok a, s) => (Ok (inl a), s) | (Err e, s) => (Ok (inr e), s) | (Panic, s) => (Panic, s) end.
Definition errorOf {A} (m : ST BC A) : ST BC (option error) :=
  r ← attempt m; mret (match r with inl _ => None | inr e => Some e end).

(** ** The validator *)

Definition validateBody (b : Block) : ST BC unit :=
  known ← HasBlockAndState (hashOf b) (numberOf b);
  _ ← st_fail_if known ErrKnownBlock;
  _ ← st_lift (VerifyUncles (bUncles b));
  _ ← st_fail_if (negb (CalcUncleHash (bUncles b) =? UncleHash (bHeader b))) (errorf "uncle root hash mismatch");
  _ ← st_fail_if (negb (DeriveTxSha (bTransactions b) =? TxHash (bHeader b))) (errorf "transaction root hash mismatch");
  linked ← HasBlockAndState (parentHashOf b) (numberOf b -w 1);
  if (linked : bool) then mret tt else
  stored ← HasBlock (parentHashOf b) (numberOf b -w 1);
  st_err (if (stored : bool) then ErrPrunedAncestor else ErrUnknownAncestor).
Definition ValidateBody (b : Block) : ST BC (option error) := errorOf (validateBody b).

(** ** The iterator *)

(** What the loops of the import look at: the block, its error, the iterator. *)
Record cursor : Type := mkCursor { cBlock : option Block; cErr : option error; cIt : insertIterator }.

Definition next (it : insertIterator) : ST BC cursor :=
  let i := itIndex it + 1 in
  if zlen (itChain it) <=? i then mret (mkCursor None None (mkIterator (itChain it) (itErrors it) (zlen (itChain it))))
  else
    let it := mkIterator (itChain it) (itErrors it) i in
    match blockAt (itChain it) i with
    | None => st_panic
    | Some b =>
        match mjoin (itErrors it !! Z.to_nat i) with
        | Some e => mret (mkCursor (Some b) (Some e) it)
        | None => e ← ValidateBody b; mret (mkCursor (Some b) e it)
        end
    end.

(** [skipBlock] *)
Definition skipBlock (err : option error) (it : insertIterator) : ST BC bool :=
  if negb (isErr ErrKnownBlock err) then mret false
  else if negb snapsEnabled then mret true
  else
    s ← st_get;
    match current it with
    | None => st_panic
    | Some header =>
        if HasSnapshot (Root header) (world s) then mret true
        else
          parent ← (match previous it with
                    | Some parent => mret (Some parent)
                    | None => on_hc (GetHeaderByHash (ParentHash header))
                    end);
          let parentRoot := match parent with Some parent => Root parent | None => 0 end in
          if parentRoot =? 0 then mret false
          else s ← st_get; mret (negb (HasSnapshot parentRoot (world s)))
    end.

(** ** Known blocks at the start of the batch *)

Fixpoint skipKnown (fuel : nat) (c : cursor) (localTd externTd : Z) : ST BC cursor :=
  match cBlock c with
  | None => mret c
  | Some b =>
      skip ← skipBlock (cErr c) (cIt c);
      if negb skip then mret c else
      let externTd := externTd + difficultyOf (bHeader b) in
      if localTd <? externTd then mret c else
      match fuel with
      | O => st_err ErrOutOfFuel
      | S fuel => c ← next (cIt c); skipKnown fuel c localTd externTd
      end
  end.

(** How far an import has come: its cursor and the last block that became
    canonical; or it has ended, with the index and the error it returns. *)
Definition outcome : Type := (Z * option error)%type.
Record progress : Type := mkProgress { pCursor : cursor; pCanon : option Block; pDone : option outcome }.

Fixpoint adoptKnown (fuel : nat) (c : cursor) (lastCanon : option Block) : ST BC progress :=
  match cBlock c with
  | None => mret (mkProgress c lastCanon None)
  | Some b =>
      skip ← skipBlock (cErr c) (cIt c);
      if negb skip then mret (mkProgress c lastCanon None) else
      e ← errorOf (writeKnownBlock b);
      match e with
      | Some e => mret (mkProgress c lastCanon (Some (itIndex (cIt c), Some e)))
      | None =>
          match fuel with
          | O => st_err ErrOutOfFuel
          | S fuel => c ← next (cIt c); adoptKnown fuel c (Some b)
          end
      end
  end.

Definition leftTrim (c : cursor) : ST BC progress :=
  skip ← skipBlock (cErr c) (cIt c);
  if negb skip then mret (mkProgress c None None) else
  match cBlock c with
  | None => st_panic
  | Some b =>
      s ← st_get;
      localTd ← GetTd (hashOf (currentBlock s)) (numberOf (currentBlock s));
      externTd ← GetTd (parentHashOf b) (numberOf b -w 1);
      match localTd, externTd with
      | Some localTd, Some externTd =>
          let fuel := S (length (itChain (cIt c))) in
          c ← skipKnown fuel c localTd externTd;
          adoptKnown fuel c None
      | _, _ => st_panic
      end
  end.

(** ** Blocks of the future *)

Fixpoint queueBlocks (fuel : nat) (c : cursor) : ST BC outcome :=
  match cBlock c with
  | None => mret (itIndex (cIt c), cErr c)
  | Some b =>
      if (itIndex (cIt c) =? 0) || isErr ErrUnknownAncestor (cErr c) then
        e ← errorOf (addFutureBlock now b);
        match e with
        | Some e => mret (itIndex (cIt c), Some e)
        | None =>
            match fuel with
            | O => st_err ErrOutOfFuel
            | S fuel => c ← next (cIt c); queueBlocks fuel c
            end
        end
      else mret (itIndex (cIt c), cErr c)
  end.

(** After the last block that could be processed. *)
Fixpoint queueOrphans (fuel : nat) (c : cursor) : ST BC outcome :=
  match cBlock c with
  | None => mret (itIndex (cIt c), cErr c)
  | Some b =>
      if isErr ErrUnknownAncestor (cErr c) then
        e ← errorOf (addFutureBlock now b);
        match e with
        | Some e => mret (itIndex (cIt c), Some e)
        | None =>
            match fuel with
            | O => st_err ErrOutOfFuel
            | S fuel => c ← next (cIt c); queueOrphans fuel c
            end
        end
      else mret (itIndex (cIt c), cErr c)
  end.
Definition queueRest (c : cursor) : ST BC outcome :=
  match cBlock c with
  | Some b =>
      if isErr ErrFutureBlock (cErr c) then
        e ← errorOf (addFutureBlock now b);
        match e with
        | Some e => mret (itIndex (cIt c), Some e)
        | None => c ← next (cIt c); queueOrphans (S (length (itChain (cIt c)))) c
        end
      else mret (itIndex (cIt c), cErr c)
  | None => mret (itIndex (cIt c), cErr c)
  end.

(** ** Processing *)

(** A known block in the middle of the batch. *)
Definition knownInside (b : Block) : ST BC (option error) :=
  _ ← (match bTransactions b with
       | [] => on_hc (writeBatch [WriteReceipts (hashOf b) (numberOf b) []])
       | _ => mret tt
       end);
  errorOf (writeKnownBlock b).

(** Process, validate and write a block on the state of its parent. *)
Definition importBlock (it : insertIterator) (b : Block) : ST BC (WriteStatus + error) :=
  parent ← (match previous it with Some parent => mret (Some parent) | None => GetHeader (parentHashOf b) (numberOf b -w 1) end);
  match parent with
  | None => st_panic
  | Some parent =>
      statedb ← attempt (on_world (stateNew (Root parent)));
      match statedb with
      | inr e => mret (inr e)
      | inl statedb =>
          s ← st_get;
          out ← attempt (on_world (processBlock (readerOf chainConfig s) b statedb));
          match out with
          | inr e => _ ← reportBlock b; mret (inr e)
          | inl (receipts, logs, usedGas, statedb) =>
              valid ← attempt (on_world (validateState b receipts usedGas statedb));
              match valid with
              | inr e => _ ← reportBlock b; mret (inr e)
              | inl statedb => attempt (writeBlockWithState createAddress shouldPreserve b receipts logs statedb false)
              end
          end
      end
  end.

Fixpoint importLoop (fuel : nat) (c : cursor) (lastCanon : option Block) : ST BC (option Block * outcome) :=
  let index := itIndex (cIt c) in
  match cBlock c, (match cErr c with None => true | _ => isErr ErrKnownBlock (cErr c) end) with
  | Some b, true =>
      stopped ← insertStopped;
      if (stopped : bool) then r ← queueRest c; mret (lastCanon, r) else
      if bool_decide (hashOf b ∈ BadHashes) then _ ← reportBlock b; mret (lastCanon, (index, Some ErrBannedHash)) else
      skip ← skipBlock (cErr c) (cIt c);
      r ← (if (skip : bool) then
             e ← knownInside b;
             mret (match e with None => inl CanonStatTy | Some e => inr e end)
           else importBlock (cIt c) b);
      match r with
      | inr e => mret (lastCanon, (index, Some e))
      | inl status =>
          let lastCanon := match status with CanonStatTy => Some b | _ => lastCanon end in
          match fuel with
          | O => st_err ErrOutOfFuel
          | S fuel => c ← next (cIt c); importLoop fuel c lastCanon
          end
      end
  | _, _ => r ← queueRest c; mret (lastCanon, r)
  end.

(** ** A branch on a pruned state *)

(** Its blocks are stored; the total difficulty at the end, and where the
    batch stands; or the index and error that end the import. *)
Fixpoint storeSide (fuel : nat) (head : Block) (c : cursor) (externTd : option Z) : ST BC (option Z * cursor + outcome) :=
  match cBlock c with
  | None => mret (inl (externTd, c))
  | Some b =>
      if negb (isErr ErrPrunedAncestor (cErr c)) then mret (inl (externTd, c)) else
      canonical ← (if numberOf b <=? numberOf head then GetBlockByNumber (numberOf b) else mret None);
      let same := match canonical with Some x => hashOf x =? hashOf b | None => false end in
      let ghost := match canonical with Some x => Root (bHeader x) =? Root (bHeader b) | None => false end in
      if negb same && ghost then mret (inr (itIndex (cIt c), Some (errorf "sidechain ghost-state attack"))) else
      r ← (if same then td ← GetTd (hashOf b) (numberOf b); mret (inl td)
           else
             parentTd ← (match externTd with Some td => mret (Some td) | None => GetTd (parentHashOf b) (numberOf b -w 1) end);
             match parentTd with
             | None => st_panic
             | Some parentTd =>
                 let td := parentTd + difficultyOf (bHeader b) in
                 stored ← HasBlock (hashOf b) (numberOf b);
                 if (stored : bool) then mret (inl (Some td))
                 else
                   e ← errorOf (writeBlockWithoutState b td);
                   mret (match e with None => inl (Some td) | Some e => inr e end)
             end);
      match r with
      | inr e => mret (inr (itIndex (cIt c), Some e))
      | inl td =>
          match fuel with
          | O => st_err ErrOutOfFuel
          | S fuel => c ← next (cIt c); storeSide fuel head c td
          end
      end
  end.

(** Down to a block whose state is there: hashes and numbers on the way. *)
Fixpoint prunedPath (fuel : nat) (parent : option Header) (path : list (Hash * Z)) : ST BC (option (list (Hash * Z))) :=
  match parent with
  | None => mret None
  | Some h =>
      available ← stateAvailable (Root h);
      if (available : bool) then mret (Some path) else
      match fuel with
      | O => st_err ErrOutOfFuel
      | S fuel =>
          parent ← GetHeader (ParentHash h) (NumberU64 h -w 1);
          prunedPath fuel parent (path ++ [(HeaderHash h, NumberU64 h)])
      end
  end.

(** The blocks of the path, lowest first, in segments that fit in memory. *)
Section Segments.
Variable insert : list Block -> bool -> ST BC outcome.

Fixpoint importSegments (path : list (Hash * Z)) (blocks : list Block) (memory : Z) : ST BC outcome :=
  match path with
  | [] => match blocks with [] => mret (0, None) | _ => insert blocks false end
  | (hash, number) :: path =>
      block ← GetBlock hash number;
      match block with
      | None => st_panic
      | Some b =>
          let blocks := blocks ++ [b] in
          let memory := memory + blockSize b in
          if (2048 <=? zlen blocks) || (64 * 1024 * 1024 <? memory) then
            r ← insert blocks false;
            match r.2 with
            | Some e => mret (0, Some e)
            | None =>
                stopped ← insertStopped;
                if (stopped : bool) then mret (0, None) else importSegments path [] 0
            end
          else importSegments path blocks memory
      end
  end.

Definition insertSideChain (c : cursor) : ST BC outcome :=
  s ← st_get;
  let head := currentBlock s in
  r ← storeSide (S (length (itChain (cIt c)))) head c None;
  match r with
  | inr out => mret out
  | inl (externTd, c) =>
      localTd ← GetTd (hashOf head) (numberOf head);
      match localTd, externTd with
      | Some localTd, Some externTd =>
          if externTd <? localTd then mret (itIndex (cIt c), cErr c) else
          let parent := previous (cIt c) in
          path ← prunedPath (S (match parent with Some h => Z.to_nat (NumberU64 h) | None => 0 end)) parent [];
          match path with
          | None => mret (itIndex (cIt c), Some (errorf "missing parent"))
          | Some path => importSegments (rev path) [] 0
          end
      | _, _ => st_panic
      end
  end.
End Segments.

(** ** The import *)

Definition headerOfCursor (c : cursor) : ST BC Block := match cBlock c with Some b => mret b | None => st_panic end.

(** From the first block whose errors decide. *)
Definition directImport (insert : list Block -> bool -> ST BC outcome) (firstParent : Hash) (p : progress) : ST BC (option Block * outcome) :=
  let c := pCursor p in
  let index := itIndex (cIt c) in
  s ← st_get;
  if isErr ErrPrunedAncestor (cErr c) then r ← insertSideChain insert c; mret (pCanon p, r)
  else if isErr ErrFutureBlock (cErr c) || (isErr ErrUnknownAncestor (cErr c) && lru_contains firstParent (futureBlocks s)) then
    r ← queueBlocks (S (length (itChain (cIt c)))) c; mret (pCanon p, r)
  else match cErr c with
  | Some e =>
      if negb (isErr ErrKnownBlock (cErr c)) then
        b ← headerOfCursor c;
        _ ← st_modify (fun s => set_futureBlocks (lru_remove (hashOf b) (futureBlocks s)) s);
        _ ← reportBlock b;
        mret (pCanon p, (index, Some e))
      else importLoop (S (length (itChain (cIt c)))) c (pCanon p)
  | None => importLoop (S (length (itChain (cIt c)))) c (pCanon p)
  end.

(** [insertChain] calls itself for the segments of a pruned branch; [fuel]
    bounds the depth. *)
Fixpoint insertChain (fuel : nat) (chain : list Block) (verifySeals : bool) : ST BC outcome :=
  match fuel with
  | O => st_err ErrOutOfFuel
  | S fuel =>
      stopped ← insertStopped;
      if (stopped : bool) then mret (0, None) else
      match chain with
      | [] => st_panic
      | first :: _ =>
          s ← st_get;
          results ← on_world (verifyHeaders (readerOf chainConfig s) (bHeader <$> chain) (map (fun _ => verifySeals) chain));
          c ← next (newInsertIterator chain results);
          p ← leftTrim c;
          r ← (match pDone p with
               | Some out => mret (pCanon p, out)
               | None => directImport (insertChain fuel) (parentHashOf first) p
               end);
          s ← st_get;
          _ ← (match r.1 with
               | Some b => if hashOf (currentBlock s) =? hashOf b then send (ChainHeadEvent b) else mret tt
               | None => mret tt
               end);
          mret r.2
      end
  end.

(** Are the blocks numbered and linked one after the other? *)
Fixpoint contiguous (chain : list Block) : bool :=
  match chain with
  | prev :: (b :: _) as rest => (numberOf b =? numberOf prev +w 1) && (parentHashOf b =? hashOf prev) && contiguous rest
  | _ => true
  end.

Definition InsertChain (fuel : nat) (chain : list Block) : ST BC outcome :=
  match chain with
  | [] => mret (0, None)
  | _ =>
      _ ← send (BlockProcEvent true);
      s ← st_get;
      r ← (if negb (contiguous chain) then mret (0, Some (errorf "non contiguous insert"))
           else if closed s then mret (0, Some errChainStopped)
           else insertChain fuel chain true);
      _ ← send (BlockProcEvent false);
      mret r
  end.
Definition InsertChainWithoutSealVerification (fuel : nat) (b : Block) : ST BC outcome :=
  _ ← send (BlockProcEvent true);
  s ← st_get;
  r ← (if closed s then mret (0, Some errChainStopped) else insertChain fuel [b] false);
  _ ← send (BlockProcEvent false);
  mret r.

(** [procFutureBlocks]: one by one, by number. *)
Definition byNumber (x y : Block) : Prop := numberOf x <= numberOf y.
#[export] Instance byNumber_dec : RelDecision byNumber := fun x y => Z_le_dec (numberOf x) (numberOf y).
Definition procFutureBlocks (fuel : nat) : ST BC unit :=
  s ← st_get;
  st_each (fun b => _ ← InsertChain fuel [b]; mret tt) (merge_sort byNumber (lru_values (futureBlocks s))).
End Import.
End ChainImporter.
