(* ===== verification/ChainFacts.v ===== *)
(** * Stored blocks and branches

    Which blocks a database holds, when it is closed under parents, the
    branches between blocks, and what the cached reads answer. *)

From S2P Require Import StateDB StateIface Prelude Hoare Params Types Misc Snapshot Engine Contracts Finalize TxQueue ChainDB HeaderChain BlockChain.
Import Headers Chain.

(** ** The blocks that may ever be met: identified by their hashes *)
Class Universe `{Crypto} (U : Block -> Prop) (genesis : Block) : Prop := {
  u_inj : forall b1 b2, U b1 -> U b2 -> hashOf b1 = hashOf b2 -> b1 = b2;
  u_hash : forall b, U b -> hashOf b <> 0;
  u_range : forall b, U b -> numberOf b < 9223372036854775808;
  u_difficulty : forall b, U b -> b <> genesis -> 0 < difficultyOf (bHeader b);
  u_first : forall b, U b -> numberOf b = 0 -> b = genesis;
  u_genesis : U genesis /\ numberOf genesis = 0;
  u_orphan : parentHashOf genesis = 0;
}.

Section Store.
Context `{Crypto} (U : Block -> Prop) (genesis : Block) `{!Universe U genesis}.
Implicit Types (d : ChainDB) (b p c : Block).

Lemma numberOf_nonneg b : 0 <= numberOf b.
Proof. apply u64_nonneg. Qed.

Definition key b : Z * Hash := (numberOf b, hashOf b).
Definition stored d b : Prop := headers d !! key b = Some (bHeader b) /\ blockBodies d !! key b = Some (bodyOf b).
Definition tdOf d b : option Z := headerTDs d !! key b.

Lemma blockOf_body b : blockOf (bHeader b) (bodyOf b) = b.
Proof. by destruct b. Qed.

(** A block and its parent, both stored. *)
Definition parent d b p : Prop := stored d p /\ hashOf p = parentHashOf b /\ numberOf b = numberOf p + 1.

(** Every entry belongs to a stored block; a stored block has its total
    difficulty, its number and its parent. *)
Record store_ok d : Prop := {
  s_header : forall k x, headers d !! k = Some x -> exists b, U b /\ stored d b /\ key b = k;
  s_body : forall k x, blockBodies d !! k = Some x -> exists b, U b /\ stored d b /\ key b = k;
  s_td : forall k x, headerTDs d !! k = Some x -> exists b, U b /\ stored d b /\ key b = k;
  s_number : forall h n, headerNumbers d !! h = Some n -> exists b, U b /\ stored d b /\ key b = (n, h);
  s_genesis : stored d genesis;
  s_total : forall b, stored d b -> (exists td, tdOf d b = Some td) /\ headerNumbers d !! hashOf b = Some (numberOf b);
  s_parent : forall b, stored d b -> b <> genesis ->
    exists p td, parent d b p /\ tdOf d p = Some td /\ tdOf d b = Some (difficultyOf (bHeader b) + td);
}.

Section Ok.
Context d (Hd : store_ok d).

Lemma stored_U b : stored d b -> U b.
Proof.
  intros [Hh Hb]. destruct (s_header d Hd _ _ Hh) as (b' & HU & [Hh' Hb'] & Hk). rewrite Hk in *. simplify_eq.
  assert (b = b') as -> by (destruct b, b'; simpl in *; unfold bodyOf in *; simpl in *; congruence). done.
Qed.

Lemma stored_inj b1 b2 : stored d b1 -> stored d b2 -> hashOf b1 = hashOf b2 -> b1 = b2.
Proof. intros H1%stored_U H2%stored_U. by apply u_inj. Qed.

Lemma stored_is b1 b2 : stored d b1 -> U b2 -> hashOf b1 = hashOf b2 -> b1 = b2.
Proof. intros H1%stored_U H2. by apply u_inj. Qed.

Lemma stored_range b : stored d b -> 0 <= numberOf b < 9223372036854775808.
Proof. intros Hb. split; [apply numberOf_nonneg|]. by apply u_range, stored_U. Qed.

Lemma td_stored b td : U b -> tdOf d b = Some td -> stored d b.
Proof.
  intros HU Htd. destruct (s_td d Hd _ _ Htd) as (b' & HU' & Hb & Hk). unfold key in Hk. simplify_eq.
  by replace b with b' by (by apply u_inj).
Qed.

Lemma parent_inj b p1 p2 : parent d b p1 -> parent d b p2 -> p1 = p2.
Proof. intros (H1 & E1 & _) (H2 & E2 & _). apply stored_inj; congruence. Qed.

Lemma parent_word b p : stored d b -> parent d b p -> numberOf b -w 1 = numberOf p.
Proof. intros Hb (Hp & _ & Hn). pose proof (stored_range b Hb). pose proof (stored_range p Hp).
  rewrite u64_small by (unfold is_u64; lia). lia.
Qed.

Lemma stored_parent b : stored d b -> b <> genesis -> exists p, parent d b p.
Proof. intros Hb Hg. destruct (s_parent d Hd b Hb Hg) as (p & td & Hp & _). eauto. Qed.

Lemma parent_pos b p : parent d b p -> b <> genesis.
Proof. intros (_ & _ & Hn) ->. destruct u_genesis as [_ Hg]. pose proof (numberOf_nonneg p). lia. Qed.

Lemma td_parent b p td : stored d b -> parent d b p -> tdOf d p = Some td -> tdOf d b = Some (difficultyOf (bHeader b) + td).
Proof.
  intros Hb Hp Htd. destruct (s_parent d Hd b Hb (parent_pos b p Hp)) as (p' & td' & Hp' & Htd' & Hr).
  pose proof (parent_inj b p p' Hp Hp'). subst. congruence.
Qed.

(** ** Branches *)

(** The blocks from [b] down to [c], without [c]. *)
Inductive path : Block -> Block -> list Block -> Prop :=
  | path_here b : path b b []
  | path_down b p c l : parent d b p -> path p c l -> path b c (b :: l).

Lemma path_length b c l : path b c l -> numberOf b = numberOf c + zlen l.
Proof. unfold zlen. induction 1 as [|b p c l (_ & _ & Hn) _ IH]; simpl; lia. Qed.

Lemma path_app b c e l l' : path b c l -> path c e l' -> path b e (l ++ l').
Proof. induction 1; intros; [done|]. simpl. econstructor; eauto. Qed.

Lemma path_snoc b c p l : path b c l -> parent d c p -> path b p (l ++ [c]).
Proof. intros Hl Hp. eapply path_app; [done|]. econstructor; [done|constructor]. Qed.

Lemma path_stored b c l : stored d b -> path b c l -> stored d c /\ Forall (stored d) l.
Proof. intros Hb. induction 1 as [|b p c l Hp Hl IH]; [done|]. destruct (IH (proj1 Hp)). auto. Qed.

(** Down to any number. *)
Lemma path_to b : stored d b -> forall m, 0 <= m <= numberOf b -> exists c l, path b c l /\ stored d c /\ numberOf c = m.
Proof.
  intros Hb m [Hm Hle]. remember (Z.to_nat (numberOf b - m)) as k eqn:Ek. revert b Hb Hle Ek.
  induction k as [|k IH]; intros b Hb Hle Ek.
  - exists b, []. split; [constructor|]. split; [done|]. lia.
  - assert (Hg : b <> genesis) by (intros ->; destruct u_genesis as [_ Hg]; lia).
    destruct (stored_parent b Hb Hg) as (p & Hp). pose proof Hp as (Hps & _ & Hn).
    destruct (IH p Hps ltac:(lia) ltac:(lia)) as (c & l & Hl & Hc & Hnc). exists c, (b :: l). split; [by econstructor|done].
Qed.

(** One block per number. *)
Lemma path_unique b c1 c2 l1 l2 : path b c1 l1 -> path b c2 l2 -> numberOf c1 = numberOf c2 -> c1 = c2 /\ l1 = l2.
Proof.
  intros Hl1. revert l2. induction Hl1 as [b|b p c1 l1 Hp Hl1 IH]; intros l2 Hl2 Hn.
  - inversion Hl2 as [|? ? ? ? Hp Hl]; subst; [done|]. apply path_length in Hl2. unfold zlen in *. simpl in *. lia.
  - inversion Hl2 as [|b' p' c' l' Hp' Hl']; subst.
    + pose proof (path_length _ _ _ Hl1). destruct Hp as (_ & _ & ?). unfold zlen in *. lia.
    + pose proof (parent_inj _ _ _ Hp Hp'). subst. by destruct (IH _ Hl' Hn) as [-> ->].
Qed.

(** A path passes through every block on it. *)
Lemma path_split b c l1 x l2 : path b c (l1 ++ x :: l2) -> path b x l1 /\ path x c (x :: l2).
Proof.
  revert b. induction l1 as [|y l1 IH]; intros b Hl; simpl in *.
  - inversion Hl; subst. split; [constructor|done].
  - inversion Hl as [|? p ? ? Hp Hl']; subst. destruct (IH _ Hl'). split; [by econstructor|done].
Qed.

Definition ancestor b c : Prop := exists l, path b c l.

Lemma ancestor_refl b : ancestor b b.
Proof. exists []. constructor. Qed.
Lemma ancestor_stored b c : stored d b -> ancestor b c -> stored d c.
Proof. intros Hb [l Hl]. by eapply path_stored. Qed.
Lemma ancestor_number b c : ancestor b c -> numberOf c <= numberOf b.
Proof. intros [l Hl]. apply path_length in Hl. unfold zlen in *. lia. Qed.
Lemma ancestor_same b c1 c2 : ancestor b c1 -> ancestor b c2 -> numberOf c1 = numberOf c2 -> c1 = c2.
Proof. intros [l1 H1] [l2 H2] Hn. by destruct (path_unique _ _ _ _ _ H1 H2 Hn). Qed.
Lemma ancestor_trans b c e : ancestor b c -> ancestor c e -> ancestor b e.
Proof. intros [l1 H1] [l2 H2]. exists (l1 ++ l2). by eapply path_app. Qed.
Lemma ancestor_parent b p : parent d b p -> ancestor b p.
Proof. intros Hp. exists [b]. econstructor; [done|constructor]. Qed.

(** An ancestor of [b] is on the path to [c] or an ancestor of [c]. *)
Lemma ancestor_path b c l x : path b c l -> ancestor b x <-> x ∈ l \/ ancestor c x.
Proof.
  intros Hl. split.
  - intros Hx. destruct (Z_lt_le_dec (numberOf c) (numberOf x)) as [Hlt|Hle].
    + left. destruct Hx as [l' Hl']. clear -Hl Hl' Hlt Hd Universe0.
      induction Hl as [b|b p c l Hp Hl IH] in l', Hl', Hlt |- *.
      * apply path_length in Hl'. unfold zlen in *. lia.
      * inversion Hl' as [|? p' ? l'' Hp' Hl'']; subst; [left|]. right. pose proof (parent_inj _ _ _ Hp Hp'). subst. by eapply IH.
    + right. destruct Hx as [l' Hl']. clear -Hl Hl' Hle Hd Universe0.
      induction Hl as [b|b p c l Hp Hl IH] in l', Hl', Hle |- *; [by exists l'|].
      inversion Hl' as [|? p' ? l'' Hp' Hl'']; subst.
      * pose proof (path_length _ _ _ Hl). destruct Hp as (_ & _ & ?). unfold zlen in *. lia.
      * pose proof (parent_inj _ _ _ Hp Hp'). subst. by eapply IH.
  - intros [Hx|Hx]; [|eapply ancestor_trans; [by exists l|done]].
    apply list_elem_of_split in Hx as (l1 & l2 & ->). apply path_split in Hl as [Hl _]. by exists l1.
Qed.

(** Total difficulty grows along a branch. *)
Lemma td_grows b c l : stored d b -> path b c l -> forall tb tc, tdOf d b = Some tb -> tdOf d c = Some tc -> tc + zlen l <= tb.
Proof.
  intros Hb Hl. unfold zlen. induction Hl as [b|b p c l Hp Hl IH]; intros tb tc Htb Htc; [simplify_eq; simpl; lia|].
  destruct (s_total d Hd p (proj1 Hp)) as [[tp Htp] _]. pose proof (td_parent b p tp Hb Hp Htp) as Htb'. simplify_eq.
  pose proof (IH (proj1 Hp) _ _ Htp Htc). pose proof (u_difficulty b (stored_U b Hb) (parent_pos b p Hp)). simpl. lia.
Qed.

Lemma genesis_ancestor b : stored d b -> ancestor b genesis.
Proof.
  intros Hb. destruct (path_to b Hb 0) as (c & l & Hl & Hc & Hn); [pose proof (numberOf_nonneg b); lia|].
  replace genesis with c by (by apply u_first; [apply stored_U|]). by exists l.
Qed.
End Ok.
End Store.

(** ** Cached reads of the chain

    The caches only hold what the database holds, so the reads answer as the
    database does, and change nothing but the caches. *)

Import Headers Chain.

(** Everything but the caches. *)
Record View (L : Type -> Type) (X : Type) : Type := mkView {
  v_db : ChainDB;
  v_genesisHeader : Header;
  v_currentHeader : Header;
  v_currentHash : Hash;
  v_coins : list bool;
  v_stop : option nat;
  v_genesis : Block;
  v_head : Block;
  v_fast : Block;
  v_future : L Block;
  v_world : X;
  v_events : list ChainNote;
  v_closed : bool;
}.
Arguments mkView {L X}. Arguments v_db {L X}. Arguments v_genesisHeader {L X}. Arguments v_currentHeader {L X}. Arguments v_currentHash {L X}.
Arguments v_coins {L X}. Arguments v_stop {L X}. Arguments v_genesis {L X}. Arguments v_head {L X}. Arguments v_fast {L X}.
Arguments v_future {L X}. Arguments v_world {L X}. Arguments v_events {L X}. Arguments v_closed {L X}.

(** Steps that learn something and leave the precondition true. *)
Lemma triple_learn {S A B} (P P' : S -> Prop) (m : ST S A) (k : A -> ST S B) (phi : A -> Prop) Q E :
  triple P m (fun r s => P' s /\ phi r) E -> (forall r, phi r -> triple P' (k r) Q E) -> triple P (m ≫= k) Q E.
Proof. intros Hm Hk. eapply triple_bind; [exact Hm|]. intros r s [Hs Hr]. by apply (Hk r Hr). Qed.
Lemma triple_look {S B} (P : S -> Prop) (f : S -> ST S B) Q E : (forall s, P s -> triple P (f s) Q E) -> triple P (st_get ≫= f) Q E.
Proof. intros Hf s Hs. exact (Hf s Hs s Hs). Qed.
Lemma triple_value {S A} (P : S -> Prop) (a : A) (Q : A -> S -> Prop) E : (forall s, P s -> Q a s) -> triple P (mret a) Q E.
Proof. intros HQ s Hs. by apply HQ. Qed.

Section Reads.
Context `{Crypto} `{TxSigning} `{Lru L} `{!LruLaws L} `{ChainWorld X T} (U : Block -> Prop) (genesis : Block) `{!Universe U genesis}.
#[local] Abbreviation BC := (BlockChain L X).
#[local] Abbreviation V := (View L X).
Implicit Types (s : BC) (v : V) (d : ChainDB) (b : Block).

Definition view s : V := mkView (db s) (genesisHeader (hc s)) (currentHeader (hc s)) (currentHeaderHash (hc s)) (coins (hc s)) (stopAfter (hc s))
  (genesisBlock s) (currentBlock s) (currentFastBlock s) (futureBlocks s) (world s) (events s) (closed s).

(** Every cached value is that of a stored block with the hash it is under. *)
Record caches_ok d s : Prop := {
  c_block : forall h b, cache_mem (blockCache s) h b -> stored d b /\ hashOf b = h;
  c_header : forall h x, cache_mem (headerCache (hc s)) h x -> exists b, stored d b /\ hashOf b = h /\ bHeader b = x;
  c_td : forall h x, cache_mem (tdCache (hc s)) h x -> exists b, stored d b /\ hashOf b = h /\ tdOf d b = Some x;
  c_number : forall h n, cache_mem (numberCache (hc s)) h n -> exists b, stored d b /\ key b = (n, h);
}.

(** The state shows [v], and its caches tell the truth about the database. *)
Definition at_view v s : Prop := view s = v /\ caches_ok (v_db v) s.

(** What a lookup of a hash answers: the stored block, or nothing. *)
Definition finds {A} d (f : Block -> option A) (h : Hash) (n : Z) (r : option A) : Prop :=
  match r with
  | Some a => exists b, stored d b /\ hashOf b = h /\ f b = Some a
  | None => forall b, stored d b -> key b <> (n, h)
  end.

Section At.
Context v (Hd : store_ok U genesis (v_db v)).
Local Abbreviation d := (v_db v).

Lemma finds_stored {A} (f : Block -> option A) b r : stored d b -> finds d f (hashOf b) (numberOf b) r -> r = f b.
Proof.
  intros Hb Hr. destruct r as [a|]; simpl in Hr.
  - destruct Hr as (b' & Hb' & Hh & Hf). by rewrite <- (stored_inj U genesis d Hd b' b Hb' Hb Hh).
  - exfalso. by apply (Hr b Hb).
Qed.
Lemma finds_parent {A} (f : Block -> option A) b p r : stored d p -> hashOf p = parentHashOf b -> numberOf b = numberOf p + 1 ->
  finds d f (parentHashOf b) (numberOf b -w 1) r -> r = f p.
Proof.
  intros Hp Hh Hn. rewrite <- Hh. replace (numberOf b -w 1) with (numberOf p); [by apply finds_stored|].
  pose proof (stored_range U genesis d Hd p Hp). rewrite Hn, u64_small; unfold is_u64; lia.
Qed.

(** The pattern of every cached read. *)
Lemma always_cachedRead {C A} `{!Cache C Hash A} `{!CacheLaws C Hash A} (cache : BC -> C) (set : C -> BC -> BC) (keyOf : A -> Hash) key' (read : BC -> option A)
    (P : Hash -> A -> Prop) (Q : option A -> Prop) :
  (forall l s, cache (set l s) = l) -> (forall l s, view (set l s) = view s) ->
  (forall l s, caches_ok d s -> (forall k a, cache_mem l k a -> P k a) -> caches_ok d (set l s)) ->
  (forall s, caches_ok d s -> forall k a, cache_mem (cache s) k a -> P k a) ->
  (forall s, view s = v -> match read s with Some a => P (keyOf a) a /\ Q (Some a) | None => Q None end) -> (forall a, P key' a -> Q (Some a)) ->
  (forall l s, read (set l s) = read s) ->
  always (at_view v) (cachedRead cache set keyOf key' read) (fun r s => at_view v s /\ Q r).
Proof.
  intros Hget Hview Hset Hmem Hread HQ Hrs s [Hv Hc]. unfold cachedRead, mbind, st_bind, st_get, st_put.
  destruct (cache_get key' (cache s)) as [hit l] eqn:Eg.
  assert (Hl : forall k a, cache_mem l k a -> P k a) by (intros k a Hm; eapply (Hmem s Hc), cache_get_keeps; [exact Eg|exact Hm]).
  assert (Ha : at_view v (set l s)) by (split; [by rewrite Hview|by apply Hset]).
  destruct hit as [a|]; simpl.
  - split; [exact Ha|]. apply HQ. eapply (Hmem s Hc), cache_get_sound. exact Eg.
  - specialize (Hread s Hv). destruct (read s) as [a|] eqn:Er; simpl; [|by split].
    destruct Hread as [HP HQa]. split; [|done]. split; [by rewrite !Hview|]. apply Hset; [by apply Hset|]. rewrite Hget.
    intros k a' Hm. apply cache_add_mem in Hm as [[-> ->]|Hm]; [done|by apply Hl].
Qed.

Lemma always_GetBlock h n : always (at_view v) (GetBlock h n) (fun r s => at_view v s /\ finds d Some h n r).
Proof.
  unfold GetBlock.
  apply (always_cachedRead blockCache set_blockCache hashOf h _ (fun k b => stored d b /\ hashOf b = k) (finds d Some h n)); try done.
  - intros l s [? ? ? ?] Hl. by constructor.
  - intros s Hc k a. apply (c_block d s Hc).
  - intros s Hv. assert (Edb : db s = d) by (by rewrite <- Hv). rewrite Edb. unfold ReadBlock, ReadHeader, ReadBody.
    destruct (headers d !! (n, h)) as [x|] eqn:Ex; simpl.
    + destruct (s_header U genesis d Hd _ _ Ex) as (b & HU & Hb & Hk). pose proof Hb as [Eh Eb]. rewrite Hk in Eh, Eb.
      rewrite Eb. simpl. simplify_eq. rewrite blockOf_body. unfold key in Hk. simplify_eq. split; [done|]. by exists b.
    + intros b [Eh _] Hk. rewrite Hk in Eh. congruence.
  - intros a [Ha Hh]. by exists a.
Qed.

Lemma always_hc {A} (m : ST (HeaderChain L) A) P (Q : A -> BC -> Prop) :
  (forall s, P s -> match m (hc s) with (Ok a, c) => Q a (set_hc c s) | _ => False end) -> always P (on_hc m) Q.
Proof. intros Hm s Hs. specialize (Hm s Hs). unfold on_hc. destruct (m (hc s)) as [[a|e|] c]; done. Qed.

(** Reads of the header chain are reads of the block chain. *)
Lemma on_hc_cachedRead {C A} `{!Cache C Hash A} (cache : HeaderChain L -> C) set (keyOf : A -> Hash) key' read s :
  on_hc (cachedRead cache set keyOf key' read) s =
  cachedRead (fun s => cache (hc s)) (fun l s => set_hc (set l (hc s)) s) keyOf key' (fun s => read (hc s)) s.
Proof.
  unfold on_hc, cachedRead, mbind, st_bind, st_get, st_put. destruct (cache_get key' (cache (hc s))) as [[a|] l]; simpl; [done|].
  destruct (read (hc s)) as [a|]; done.
Qed.

Lemma always_GetTd h n : always (at_view v) (GetTd h n) (fun r s => at_view v s /\ finds d (tdOf d) h n r).
Proof.
  intros s Hs. unfold GetTd, Headers.GetTd. rewrite on_hc_cachedRead. revert s Hs.
  apply (always_cachedRead (fun s => tdCache (hc s)) (fun l s => set_hc (set_tdCache l (hc s)) s) (fun _ => h) h _
    (fun k x => exists b, stored d b /\ hashOf b = k /\ tdOf d b = Some x) (finds d (tdOf d) h n)); try done.
  - intros l s [? ? ? ?] Hl. by constructor.
  - intros s Hc k a. apply (c_td d s Hc).
  - intros s Hv. assert (Edb : chainDb (hc s) = d) by (by rewrite <- Hv). rewrite Edb. unfold ReadTd.
    destruct (headerTDs d !! (n, h)) as [x|] eqn:Ex.
    + destruct (s_td U genesis d Hd _ _ Ex) as (b & HU & Hb & Hk). assert (Ht : tdOf d b = Some x) by (unfold tdOf; by rewrite Hk).
      unfold key in Hk. simplify_eq. split; by exists b.
    + intros b Hb Hk. destruct (s_total U genesis d Hd b Hb) as [[td Htd] _]. unfold tdOf in Htd. rewrite Hk in Htd. congruence.
Qed.

Lemma always_GetHeader h n : always (at_view v) (GetHeader h n) (fun r s => at_view v s /\ finds d (fun b => Some (bHeader b)) h n r).
Proof.
  intros s Hs. unfold GetHeader, Headers.GetHeader. rewrite on_hc_cachedRead. revert s Hs.
  apply (always_cachedRead (fun s => headerCache (hc s)) (fun l s => set_hc (set_headerCache l (hc s)) s) (fun _ => h) h _
    (fun k x => exists b, stored d b /\ hashOf b = k /\ bHeader b = x) (finds d (fun b => Some (bHeader b)) h n)); try done.
  - intros l s [? ? ? ?] Hl. by constructor.
  - intros s Hc k a. apply (c_header d s Hc).
  - intros s Hv. assert (Edb : chainDb (hc s) = d) by (by rewrite <- Hv). rewrite Edb. unfold ReadHeader.
    destruct (headers d !! (n, h)) as [x|] eqn:Ex.
    + destruct (s_header U genesis d Hd _ _ Ex) as (b & HU & Hb & Hk). pose proof Hb as [Eh _]. rewrite Hk in Eh. unfold key in Hk. simplify_eq.
      split; by exists b.
    + intros b [Eh _] Hk. rewrite Hk in Eh. congruence.
  - intros a (b & Hb & Hh & Hx). exists b. by rewrite Hx.
Qed.

Lemma always_GetBlockNumber h : always (at_view v) (on_hc (GetBlockNumber h))
  (fun r s => at_view v s /\ match r with Some n => exists b, stored d b /\ key b = (n, h) | None => forall b, stored d b -> hashOf b <> h end).
Proof.
  intros s Hs. unfold GetBlockNumber. rewrite on_hc_cachedRead. revert s Hs.
  apply (always_cachedRead (fun s => numberCache (hc s)) (fun l s => set_hc (set_numberCache l (hc s)) s) (fun _ => h) h _
    (fun k n => exists b, stored d b /\ key b = (n, k))
    (fun r => match r with Some n => exists b, stored d b /\ key b = (n, h) | None => forall b, stored d b -> hashOf b <> h end)); try done.
  - intros l s [? ? ? ?] Hl. by constructor.
  - intros s Hc k a. apply (c_number d s Hc).
  - intros s Hv. assert (Edb : chainDb (hc s) = d) by (by rewrite <- Hv). rewrite Edb. unfold ReadHeaderNumber.
    destruct (headerNumbers d !! h) as [n|] eqn:Ex.
    + destruct (s_number U genesis d Hd _ _ Ex) as (b & HU & Hb & Hk). split; by exists b.
    + intros b Hb <-. destruct (s_total U genesis d Hd b Hb) as [_ Hn]. congruence.
Qed.

Lemma always_HasBlock h n : always (at_view v) (HasBlock h n) (fun r s => at_view v s /\
  (r = true -> exists b, stored d b /\ hashOf b = h) /\ (r = false -> forall b, stored d b -> key b <> (n, h))).
Proof.
  intros s Hs. pose proof Hs as [Hv Hc]. unfold HasBlock, mbind, st_bind, st_get. simpl. split; [done|].
  assert (Edb : db s = d) by (by rewrite <- Hv). rewrite Edb. split.
  - intros [Hm|Hm]%orb_prop.
    + apply lru_contains_mem in Hm as [b Hm]. exists b. by apply (c_block d s Hc).
    + unfold HasBody in Hm. apply bool_decide_eq_true in Hm as [x Hx]. destruct (s_body U genesis d Hd _ _ Hx) as (b & _ & Hb & Hk).
      unfold key in Hk. simplify_eq. eauto.
  - intros [_ Hm]%orb_false_elim b [_ Hb] Hk. unfold HasBody in Hm. apply bool_decide_eq_false in Hm. apply Hm. rewrite <- Hk. eauto.
Qed.

Lemma always_stateAvailable r : always (at_view v) (stateAvailable r) (fun a s => at_view v s /\ a = HasState r (v_world v)).
Proof. intros s Hs. split; [done|]. destruct Hs as [<- _]. done. Qed.

Lemma always_HasBlockAndState h n : always (at_view v) (HasBlockAndState h n) (fun r s => at_view v s /\
  (r = true -> exists b, stored d b /\ hashOf b = h /\ HasState (Root (bHeader b)) (v_world v) = true) /\
  (r = false -> forall b, stored d b -> key b = (n, h) -> HasState (Root (bHeader b)) (v_world v) = false)).
Proof.
  unfold HasBlockAndState. eapply triple_bind; [apply always_GetBlock|]. intros [b|]; cbv beta iota.
  - intros s [Hs (b' & Hb & Hh & Hf)]. simplify_eq.
    pose proof (always_stateAvailable (Root (bHeader b)) s Hs) as Hm. destruct (stateAvailable _ s) as [[a|e|] s'] eqn:Es; try done.
    destruct Hm as [Hs' ->]. split; [done|]. split; [eauto|]. intros Hf b2 Hb2 Hk. unfold key in Hk. simplify_eq.
    by rewrite (stored_inj U genesis d Hd b2 b Hb2 Hb).
  - intros s [Hs Hn]. split; [done|]. split; [done|]. intros _ b Hb Hk. by destruct (Hn b Hb).
Qed.

Lemma always_GetBlockByNumber n : always (at_view v) (GetBlockByNumber n) (fun r s => at_view v s /\
  (match r with Some b => stored d b /\ hashOf b = ReadCanonicalHash d n | None => True end)).
Proof.
  intros s Hs. pose proof Hs as [Hv _]. unfold GetBlockByNumber, mbind, st_bind, st_get. assert (Edb : db s = d) by (by rewrite <- Hv). rewrite Edb.
  destruct (ReadCanonicalHash d n =? 0); [done|]. pose proof (always_GetBlock (ReadCanonicalHash d n) n s Hs) as Hm.
  destruct (GetBlock _ n s) as [[r|e|] s']; try done. destruct Hm as [Hs' Hr]. split; [done|]. destruct r as [b|]; [|done].
  destruct Hr as (b' & Hb & Hh & Hf). by simplify_eq.
Qed.

Lemma always_parent b p : stored d p -> hashOf p = parentHashOf b -> numberOf b = numberOf p + 1 ->
  always (at_view v) (parentBlock b) (fun r s => at_view v s /\ r = Some p).
Proof.
  intros Hp Hh Hn. eapply triple_conseq; [apply (always_GetBlock (parentHashOf b) (numberOf b -w 1))|done| |done].
  intros r s [Hs Hr]. split; [done|]. by apply (finds_parent Some b p r).
Qed.
Lemma always_parentTd b p : stored d p -> hashOf p = parentHashOf b -> numberOf b = numberOf p + 1 ->
  always (at_view v) (GetTd (parentHashOf b) (numberOf b -w 1)) (fun r s => at_view v s /\ r = tdOf d p).
Proof.
  intros Hp Hh Hn. eapply triple_conseq; [apply (always_GetTd (parentHashOf b) (numberOf b -w 1))|done| |done].
  intros r s [Hs Hr]. split; [done|]. by apply (finds_parent _ b p r).
Qed.
Lemma always_storedTd b : stored d b -> always (at_view v) (GetTd (hashOf b) (numberOf b)) (fun r s => at_view v s /\ r = tdOf d b).
Proof.
  intros Hb. eapply triple_conseq; [apply (always_GetTd (hashOf b) (numberOf b))|done| |done].
  intros r s [Hs Hr]. split; [done|]. by apply finds_stored.
Qed.
End At.

(** ** What the writes leave *)

(** The part of the database the caches are about. *)
Definition same_blocks d d' : Prop :=
  headers d' = headers d /\ blockBodies d' = blockBodies d /\ headerTDs d' = headerTDs d /\ headerNumbers d' = headerNumbers d.

Lemma stored_same d d' b : same_blocks d d' -> stored d' b <-> stored d b.
Proof. intros (Eh & Eb & _). unfold stored. by rewrite Eh, Eb. Qed.
Lemma tdOf_same d d' b : same_blocks d d' -> tdOf d' b = tdOf d b.
Proof. intros (_ & _ & Et & _). unfold tdOf. by rewrite Et. Qed.
Lemma same_blocks_refl d : same_blocks d d.
Proof. done. Qed.
Lemma same_blocks_trans d1 d2 d3 : same_blocks d1 d2 -> same_blocks d2 d3 -> same_blocks d1 d3.
Proof. intros (?&?&?&?) (?&?&?&?). repeat split; congruence. Qed.
Lemma parent_same d d' b p : same_blocks d d' -> parent d' b p <-> parent d b p.
Proof. intros Hs. unfold parent. by rewrite (stored_same d d' p Hs). Qed.
Lemma path_same d d' b c l : same_blocks d d' -> path d' b c l <-> path d b c l.
Proof.
  intros Hs. split; induction 1; try constructor; econstructor; [|done| |done].
  - by apply (parent_same d d').
  - by apply (parent_same d d').
Qed.
Lemma ancestor_same_blocks d d' b c : same_blocks d d' -> ancestor d' b c <-> ancestor d b c.
Proof. intros Hs. unfold ancestor. split; intros [l Hl]; exists l; by apply (path_same d d'). Qed.

Lemma store_ok_same d d' : same_blocks d d' -> store_ok U genesis d -> store_ok U genesis d'.
Proof.
  intros Hs [Sh Sb St Sn Sg Stot Sp]. pose proof Hs as (Eh & Eb & Et & En).
  assert (Hst : forall b, stored d' b <-> stored d b) by (intros; by apply stored_same).
  split.
  - rewrite Eh. intros k x Hk. destruct (Sh k x Hk) as (b & ? & ? & ?). exists b. by rewrite Hst.
  - rewrite Eb. intros k x Hk. destruct (Sb k x Hk) as (b & ? & ? & ?). exists b. by rewrite Hst.
  - rewrite Et. intros k x Hk. destruct (St k x Hk) as (b & ? & ? & ?). exists b. by rewrite Hst.
  - rewrite En. intros h n Hk. destruct (Sn h n Hk) as (b & ? & ? & ?). exists b. by rewrite Hst.
  - by apply Hst.
  - intros b Hb%Hst. rewrite (tdOf_same d d' b Hs), En. by apply Stot.
  - intros b Hb%Hst Hg. destruct (Sp b Hb Hg) as (p & td & Hp & Htd & Htd'). exists p, td. rewrite !(tdOf_same d d' _ Hs).
    split; [by apply (parent_same d d')|done].
Qed.

(** The caches stay right when more is stored. *)
Definition grows d d' : Prop := forall b, stored d b -> stored d' b /\ tdOf d' b = tdOf d b.
Lemma grows_refl d : grows d d.
Proof. by intros b Hb. Qed.
Lemma grows_same d d' : same_blocks d d' -> grows d d'.
Proof. intros Hs b Hb. split; [by apply (stored_same d d')|by apply tdOf_same]. Qed.
Lemma caches_grow d d' s : grows d d' -> caches_ok d s -> caches_ok d' s.
Proof.
  intros Hg [Cb Ch Ct Cn]. split.
  - intros h b Hm. destruct (Cb h b Hm) as [Hb Hh]. split; [by apply Hg|done].
  - intros h x Hm. destruct (Ch h x Hm) as (b & Hb & ? & ?). exists b. split; [by apply Hg|done].
  - intros h x Hm. destruct (Ct h x Hm) as (b & Hb & ? & Ht). exists b. destruct (Hg b Hb) as [Hb' ->]. done.
  - intros h n Hm. destruct (Cn h n Hm) as (b & Hb & ?). exists b. split; [by apply Hg|done].
Qed.
End Reads.
