(* ===== verification/ChainReorg.v ===== *)
(** * The parts of a reorganisation

    What the walks of [reorg] find, what one block more at the head changes,
    and which canonical numbers are deleted. *)

From S2P Require Import StateDB StateIface Prelude Hoare Params Types Misc Snapshot Engine Contracts Finalize TxQueue ChainDB HeaderChain BlockChain ChainFacts.
Import Headers Chain.

(** ** Canonical numbers *)

Definition mk (d : ChainDB) (n : Z) : Hash := ReadCanonicalHash d n.

Lemma mk_write d h n m : mk (WriteCanonicalHash h n d) m = if decide (m = n) then h else mk d m.
Proof. unfold mk, ReadCanonicalHash, WriteCanonicalHash. simpl. rewrite lookup_insert. repeat case_decide; by subst. Qed.
Lemma mk_delete d n m : mk (DeleteCanonicalHash n d) m = if decide (m = n) then 0 else mk d m.
Proof. unfold mk, ReadCanonicalHash, DeleteCanonicalHash. simpl. rewrite lookup_delete. repeat case_decide; by subst. Qed.
Lemma mk_present d n : mk d n <> 0 -> n ∈ dom (headerHashes d).
Proof. unfold mk, ReadCanonicalHash. destruct (headerHashes d !! n) eqn:E; [|done]. intros _. by apply elem_of_dom_2 in E. Qed.

Definition numbersFrom (d : ChainDB) (i : Z) : gset Z := base.filter (fun k => i <= k) (dom (headerHashes d)).

(** The canonical numbers from [i] on, as long as there are any: the loop stops
    before its fuel does. *)
Lemma markersFrom_spec d (Hr : forall n, mk d n <> 0 -> n < 9223372036854775808) : forall (fuel : nat) (i : Z), 0 <= i < 9223372036854775808 + 1 ->
  (size (numbersFrom d i) < fuel)%nat ->
  exists l, markersFrom fuel d i = Ok l /\ (forall m, m ∈ l <-> i <= m < i + zlen l) /\ (forall m, m ∈ l -> mk d m <> 0) /\ mk d (i + zlen l) = 0.
Proof.
  induction fuel as [|fuel IH]; intros i Hi Hf; [lia|]. cbn [markersFrom]. change (ReadCanonicalHash d i) with (mk d i).
  destruct (Z.eqb_spec (mk d i) 0) as [Hz|Hnz].
  { exists []. unfold zlen. simpl. rewrite Z.add_0_r. split; [done|]. split; [|split; [|done]]; intros m; [|by intros ?%elem_of_nil].
    split; [by intros ?%elem_of_nil|lia]. }
  assert (Hw : i +w 1 = i + 1) by (apply u64_small; unfold is_u64; lia). rewrite Hw.
  destruct (IH (i + 1)) as (l & Hl & Hm & Hn & He).
  - specialize (Hr i Hnz). lia.
  - enough (size (numbersFrom d (i + 1)) < size (numbersFrom d i))%nat by lia.
    apply subset_size. split; [intros k; unfold numbersFrom; rewrite !elem_of_filter; intros [? ?]; split; [lia|done]|].
    intros Hsub. assert (Hin : i ∈ numbersFrom d (i + 1)).
    { apply Hsub. unfold numbersFrom. rewrite elem_of_filter. split; [lia|]. by apply mk_present. }
    unfold numbersFrom in Hin. rewrite elem_of_filter in Hin. lia.
  - exists (i :: l). rewrite Hl. cbn [mbind res_bind]. unfold zlen in *. simpl length. rewrite Nat2Z.inj_succ.
    split; [done|]. split; [|split].
    + intros m. rewrite elem_of_cons, Hm. lia.
    + intros m [->|Hin]%elem_of_cons; [done|by apply Hn].
    + replace (i + Z.succ (Z.of_nat (length l))) with (i + 1 + Z.of_nat (length l)) by lia. done.
Qed.

(** Where there is no gap, they are all the canonical numbers from [i] on. *)
Lemma markersAbove_spec d i (Hr : forall n, mk d n <> 0 -> n < 9223372036854775808) (Hgap : forall n, i <= n -> mk d (n + 1) <> 0 -> mk d n <> 0) :
  0 <= i < 9223372036854775808 + 1 -> exists l, markersAbove d i = Ok l /\ (forall m, m ∈ l <-> i <= m /\ mk d m <> 0).
Proof.
  intros Hi. destruct (markersFrom_spec d Hr (S (size (headerHashes d))) i Hi) as (l & Hl & Hm & Hn & He).
  { rewrite <- size_dom. apply Nat.lt_succ_r, subseteq_size. intros k. unfold numbersFrom. rewrite elem_of_filter. by intros [_ ?]. }
  exists l. split; [exact Hl|]. intros m. split.
  - intros Hin. split; [apply Hm in Hin; lia|by apply Hn].
  - intros [Hle Hnz]. apply Hm. destruct (Z_lt_le_dec m (i + zlen l)) as [Hlt|Hge]; [lia|]. exfalso. apply Hnz.
    assert (Hall : forall k : nat, mk d (i + zlen l + Z.of_nat k) = 0).
    { induction k as [|k IH]; [by rewrite Z.add_0_r|]. destruct (decide (mk d (i + zlen l + Z.of_nat (S k)) = 0)) as [|Hne]; [done|].
      exfalso. apply (Hgap (i + zlen l + Z.of_nat k)); [unfold zlen; lia| |exact IH].
      by replace (i + zlen l + Z.of_nat k + 1) with (i + zlen l + Z.of_nat (S k)) by lia. }
    specialize (Hall (Z.to_nat (m - (i + zlen l)))). by replace (i + zlen l + Z.of_nat (Z.to_nat (m - (i + zlen l)))) with m in Hall by lia.
Qed.

Lemma mk_deletes d l n : mk (commit (DeleteCanonicalHash <$> l) d) n = if decide (n ∈ l) then 0 else mk d n.
Proof.
  unfold commit. revert d. induction l as [|x l IH]; intros d; simpl.
  - by destruct (decide (n ∈ [])) as [?%not_elem_of_nil|].
  - rewrite IH, mk_delete. pose proof (elem_of_cons l n x) as He.
    destruct (decide (n ∈ x :: l)), (decide (n ∈ l)), (decide (n = x)); tauto.
Qed.

Section Branches.
Context `{Crypto} `{TxSigning} `{Lru L} `{!LruLaws L} `{ChainWorld X T} (U : Block -> Prop) (genesis : Block) `{!Universe U genesis}.
Variable createAddress : Address -> Z -> Address.
#[local] Abbreviation BC := (BlockChain L X).
#[local] Abbreviation V := (View L X).
Implicit Types (s : BC) (v : V) (d : ChainDB) (b c : Block).

(** ** One block more at the head *)

Definition headBatch (upd : bool) b : Batch :=
  [WriteCanonicalHash (hashOf b) (numberOf b); WriteTxLookupEntriesByBlock b; WriteHeadBlockHash (hashOf b)] ++
  (if upd then [WriteHeadHeaderHash (hashOf b); WriteHeadFastBlockHash (hashOf b)] else []).
Definition headOf b v : V :=
  let upd := negb (mk (v_db v) (numberOf b) =? hashOf b) in
  mkView (commit (headBatch upd b) (v_db v)) (v_genesisHeader v) (if upd then bHeader b else v_currentHeader v)
    (if upd then hashOf b else v_currentHash v) (v_coins v) (v_stop v) (v_genesis v) b (if upd then b else v_fast v)
    (v_future v) (v_world v) (v_events v) (v_closed v).

(** The rest of the database that a head does not touch. *)
Definition same_content d d' : Prop := same_blocks d d' /\ blockReceipts d' = blockReceipts d.

Lemma lookups_same b d : same_content d (WriteTxLookupEntriesByBlock b d) /\ (forall n, mk (WriteTxLookupEntriesByBlock b d) n = mk d n) /\
  headHeaderHash (WriteTxLookupEntriesByBlock b d) = headHeaderHash d /\ headBlockHash (WriteTxLookupEntriesByBlock b d) = headBlockHash d /\
  headFastBlockHash (WriteTxLookupEntriesByBlock b d) = headFastBlockHash d /\ headerHashes (WriteTxLookupEntriesByBlock b d) = headerHashes d.
Proof.
  unfold WriteTxLookupEntriesByBlock. revert d. induction (bTransactions b) as [|tx l IH]; intros d; [done|].
  cbn [foldl]. destruct (IH (with_lookups <[HashOfTx tx:=numberOf b]> d)) as (Hs & Hm & ? & ? & ? & ?). done.
Qed.

Lemma headBatch_same upd b d : same_content d (commit (headBatch upd b) d).
Proof.
  unfold headBatch, commit. rewrite foldl_app. cbn [foldl].
  destruct (lookups_same b (WriteCanonicalHash (hashOf b) (numberOf b) d)) as [[(E1 & E2 & E3 & E4) E5] _].
  destruct upd; cbn [foldl]; repeat split; simpl; assumption.
Qed.
Lemma headBatch_mk upd b d n : mk (commit (headBatch upd b) d) n = if decide (n = numberOf b) then hashOf b else mk d n.
Proof.
  unfold headBatch, commit. rewrite foldl_app. cbn [foldl].
  destruct (lookups_same b (WriteCanonicalHash (hashOf b) (numberOf b) d)) as [_ [Hm _]]. rewrite <- mk_write, <- Hm.
  by destruct upd.
Qed.
Lemma headBatch_heads upd b d : headBlockHash (commit (headBatch upd b) d) = hashOf b /\
  headHeaderHash (commit (headBatch upd b) d) = (if upd then hashOf b else headHeaderHash d) /\
  headFastBlockHash (commit (headBatch upd b) d) = (if upd then hashOf b else headFastBlockHash d).
Proof.
  unfold headBatch, commit. rewrite foldl_app. cbn [foldl].
  destruct (lookups_same b (WriteCanonicalHash (hashOf b) (numberOf b) d)) as [_ [_ (E1 & E2 & E3 & _)]]. destruct upd; simpl; rewrite ?E1, ?E3; done.
Qed.

(** The lookups after the transactions of a list of blocks were entered. *)
Definition lookupsAfter (l : list Block) (m : gmap Hash Z) : gmap Hash Z :=
  foldl (fun m b => foldl (fun m tx => <[HashOfTx tx := numberOf b]> m) m (bTransactions b)) m l.
Lemma headBatch_lookups upd b d : txLookups (commit (headBatch upd b) d) = lookupsAfter [b] (txLookups d).
Proof.
  assert (Hw : forall d, txLookups (WriteTxLookupEntriesByBlock b d) = lookupsAfter [b] (txLookups d)).
  { unfold WriteTxLookupEntriesByBlock, lookupsAfter. cbn [foldl]. induction (bTransactions b) as [|tx l IH]; intros d'; [done|].
    cbn [foldl]. by rewrite IH. }
  unfold headBatch, commit. rewrite foldl_app. cbn [foldl]. destruct upd; cbn [foldl]; simpl; by rewrite Hw.
Qed.

Lemma view_on_hc (f : HeaderChain L -> HeaderChain L) s : view (set_hc (f (hc s)) s) =
  mkView (chainDb (f (hc s))) (genesisHeader (f (hc s))) (currentHeader (f (hc s))) (currentHeaderHash (f (hc s))) (coins (f (hc s))) (stopAfter (f (hc s)))
    (genesisBlock s) (currentBlock s) (currentFastBlock s) (futureBlocks s) (world s) (events s) (closed s).
Proof. done. Qed.

(** The caches do not look at what is not in the database of blocks. *)
Lemma caches_view d s s' : blockCache s' = blockCache s -> headerCache (hc s') = headerCache (hc s) -> tdCache (hc s') = tdCache (hc s) ->
  numberCache (hc s') = numberCache (hc s) -> caches_ok d s -> caches_ok d s'.
Proof. intros E1 E2 E3 E4 [? ? ? ?]. split; rewrite ?E1, ?E2, ?E3, ?E4; done. Qed.

Definition withDb (f : ChainDB -> ChainDB) v : V :=
  mkView (f (v_db v)) (v_genesisHeader v) (v_currentHeader v) (v_currentHash v) (v_coins v) (v_stop v) (v_genesis v) (v_head v) (v_fast v)
    (v_future v) (v_world v) (v_events v) (v_closed v).
Definition withEvents (f : list ChainNote -> list ChainNote) v : V :=
  mkView (v_db v) (v_genesisHeader v) (v_currentHeader v) (v_currentHash v) (v_coins v) (v_stop v) (v_genesis v) (v_head v) (v_fast v)
    (v_future v) (v_world v) (f (v_events v)) (v_closed v).

Lemma always_writeBatch v batch : grows (v_db v) (commit batch (v_db v)) ->
  always (at_view v) (on_hc (writeBatch batch)) (fun _ => at_view (withDb (commit batch) v)).
Proof.
  intros Hg s [Hv Hc]. simpl. split; [by rewrite <- Hv|]. eapply caches_view; [..|by eapply caches_grow]; done.
Qed.

Lemma always_writeHeadBlock v b : always (at_view v) (writeHeadBlock b) (fun _ => at_view (headOf b v)).
Proof.
  intros s [Hv Hc]. unfold writeHeadBlock, mbind, st_bind, st_get. assert (Ed : db s = v_db v) by (by rewrite <- Hv). rewrite Ed.
  change (ReadCanonicalHash (v_db v) (numberOf b)) with (mk (v_db v) (numberOf b)). set (upd := negb (mk (v_db v) (numberOf b) =? hashOf b)).
  assert (Hg : grows (v_db v) (commit (headBatch upd b) (v_db v))) by apply grows_same, headBatch_same.
  assert (Hc' := caches_grow _ _ _ Hg Hc).
  change ([WriteCanonicalHash (hashOf b) (numberOf b); WriteTxLookupEntriesByBlock b; WriteHeadBlockHash (hashOf b)] ++
    (if upd then [WriteHeadHeaderHash (hashOf b); WriteHeadFastBlockHash (hashOf b)] else [])) with (headBatch upd b).
  unfold headOf. fold upd. destruct upd; simpl; (split; [rewrite <- Hv; done|eapply caches_view; [..|exact Hc']; done]).
Qed.

Lemma always_send v e : always (at_view v) (send e) (fun _ => at_view (withEvents (fun l => l ++ [e]) v)).
Proof. intros s [Hv Hc]. simpl. split; [by rewrite <- Hv|]. eapply caches_view; [..|exact Hc]; done. Qed.

Lemma withEvents_comp f g v : withEvents g (withEvents f v) = withEvents (fun l => g (f l)) v.
Proof. done. Qed.

Lemma always_sends v : forall l f, always (at_view (withEvents f v)) (st_each send l) (fun _ => at_view (withEvents (fun x => f x ++ l) v)).
Proof.
  induction l as [|e l IH]; intros f; cbn [st_each].
  - intros s [Hs Hc]. split; [|done]. rewrite Hs. unfold withEvents. by rewrite app_nil_r.
  - eapply triple_bind; [apply always_send|]. intros []. rewrite withEvents_comp.
    eapply triple_conseq; [apply (IH (fun x => f x ++ [e]))|done| |done]. intros [] s [Hs Hc]. split; [|done].
    rewrite Hs. unfold withEvents. simpl. by rewrite <- app_assoc.
Qed.

(** ** Logs *)

Definition logsIn d b : list (list LogEntry) :=
  let logs := default [] (ReadReceipts createAddress d (hashOf b) (numberOf b)) ≫= RLogs in match logs with [] => [] | _ => [logs] end.

Lemma logsIn_same d d' b : same_content d d' -> logsIn d' b = logsIn d b.
Proof. intros [(_ & Eb & _) Er]. unfold logsIn, ReadReceipts, ReadBody. by rewrite Eb, Er. Qed.

Lemma always_collectLogs v b : store_ok U genesis (v_db v) -> stored (v_db v) b ->
  always (at_view v) (collectLogs createAddress (hashOf b)) (fun r s => at_view v s /\ r = logsIn (v_db v) b).
Proof.
  intros Hd Hb. unfold collectLogs. eapply triple_learn; [apply (always_GetBlockNumber U genesis v Hd)|]. intros [n|] Hn; [|by destruct (Hn b Hb)].
  destruct Hn as (b' & Hb' & Hk). unfold key in Hk. simplify_eq.
  replace b' with b by (apply (stored_inj U genesis (v_db v) Hd); done).
  apply triple_look. intros s [Hv _]. apply triple_value. intros s' Hs'. split; [done|]. unfold logsIn. by rewrite <- Hv.
Qed.

(** ** The walks *)

Section Walks.
Context v (Hd : store_ok U genesis (v_db v)).
Local Abbreviation d := (v_db v).
Local Abbreviation dropped r l := (mkBranches (oldChain r ++ l) (newChain r) (deletedLogs r ++ (l ≫= logsIn d))).

Lemma always_leaves b r : stored d b -> always (at_view v) (dropOld createAddress b r) (fun r' s => at_view v s /\ r' = dropped r [b]).
Proof.
  intros Hb. unfold dropOld. eapply triple_learn; [by apply always_collectLogs|]. intros logs ->. apply triple_value. intros s Hs.
  split; [done|]. simpl. by rewrite app_nil_r.
Qed.
Lemma dropped_nil r : dropped r [] = r.
Proof. destruct r. simpl. by rewrite !app_nil_r. Qed.
Lemma dropped_app r l l' : dropped (dropped r l) l' = dropped r (l ++ l').
Proof. simpl. by rewrite <- !app_assoc, bind_app. Qed.

Lemma always_parentOf b : stored d b -> b <> genesis ->
  always (at_view v) (parentBlock b) (fun r s => at_view v s /\ exists p, r = Some p /\ parent d b p).
Proof.
  intros Hb Hg. destruct (stored_parent U genesis d Hd b Hb Hg) as (p & Hp & Hh & Hn).
  eapply triple_conseq; [apply (always_parent U genesis v Hd b p); done|done| |done]. intros r s [Hs ->]. split; [done|]. by exists p.
Qed.

Lemma not_genesis b n : 0 <= n -> n < numberOf b -> b <> genesis.
Proof. intros Hn Hlt ->. destruct (u_genesis (U:=U) (genesis:=genesis)) as [_ Hg]. lia. Qed.

Lemma always_reduceOld n : 0 <= n -> forall fuel b r, stored d b -> n <= numberOf b -> (Z.to_nat (numberOf b - n) < fuel)%nat ->
  always (at_view v) (reduceOld createAddress fuel b n r) (fun x s => at_view v s /\
    exists c l, x = (Some c, dropped r l) /\ path d b c l /\ numberOf c = n).
Proof.
  intros Hn. induction fuel as [|fuel IH]; intros b r Hb Hle Hf; [lia|]. cbn [reduceOld].
  destruct (Z.eqb_spec (numberOf b) n) as [He|Hne].
  { apply triple_value. intros s Hs. split; [done|]. exists b, []. rewrite dropped_nil. split; [done|]. by split; [constructor|]. }
  eapply triple_learn; [by apply always_leaves|]. intros r' ->.
  eapply triple_learn; [apply always_parentOf; [done|by apply (not_genesis b n); lia]|]. intros o (p & -> & Hp). pose proof Hp as (Hps & _ & Hnp).
  eapply triple_conseq; [apply IH; [done|lia|lia]|done| |done]. intros x s [Hs (c & l & -> & Hl & Hc)]. split; [done|].
  exists c, (b :: l). rewrite dropped_app. split; [done|]. split; [by econstructor|done].
Qed.

Lemma always_reduceNew n : 0 <= n -> forall fuel b r, stored d b -> n <= numberOf b -> (Z.to_nat (numberOf b - n) < fuel)%nat ->
  always (at_view v) (reduceNew fuel b n r) (fun x s => at_view v s /\
    exists c l, x = (Some c, mkBranches (oldChain r) (newChain r ++ l) (deletedLogs r)) /\ path d b c l /\ numberOf c = n).
Proof.
  intros Hn. induction fuel as [|fuel IH]; intros b r Hb Hle Hf; [lia|]. cbn [reduceNew].
  destruct (Z.eqb_spec (numberOf b) n) as [He|Hne].
  { apply triple_value. intros s Hs. split; [done|]. exists b, []. rewrite app_nil_r. destruct r. split; [done|]. by split; [constructor|]. }
  cbv zeta. eapply triple_learn; [apply always_parentOf; [done|by apply (not_genesis b n); lia]|]. intros o (p & -> & Hp). pose proof Hp as (Hps & _ & Hnp).
  eapply triple_conseq; [apply IH; [done|lia|lia]|done| |done]. intros x s [Hs (c & l & -> & Hl & Hc)]. split; [done|].
  exists c, (b :: l). simpl. rewrite <- app_assoc. split; [done|]. split; [by econstructor|done].
Qed.

(** The old blocks that are given up are not in the new branch. *)
Lemma always_reduceBoth : forall fuel old new r, stored d old -> stored d new -> numberOf old = numberOf new -> (Z.to_nat (numberOf old) < fuel)%nat ->
  always (at_view v) (reduceBoth createAddress fuel old new r) (fun x s => at_view v s /\
    exists c lo ln, x = mkBranches (oldChain r ++ lo) (newChain r ++ ln) (deletedLogs r ++ (lo ≫= logsIn d)) /\
      path d old c lo /\ path d new c ln /\ Forall (fun b => ~ ancestor d new b) lo).
Proof.
  induction fuel as [|fuel IH]; intros old new r Ho Hn He Hf; [lia|]. cbn [reduceBoth].
  destruct (Z.eqb_spec (hashOf old) (hashOf new)) as [Hh|Hne].
  { apply triple_value. intros s Hs. split; [done|]. pose proof (stored_inj U genesis d Hd old new Ho Hn Hh). subst. exists new, [], [].
    destruct r. simpl. rewrite !app_nil_r. split; [done|]. split; [constructor|]. split; constructor. }
  assert (Hog : old <> genesis).
  { intros ->. apply Hne. f_equal. symmetry. destruct (u_genesis (U:=U) (genesis:=genesis)) as [_ Hg].
    apply (u_first (U:=U)); [by apply (stored_U U genesis d)|lia]. }
  assert (Hng : new <> genesis).
  { intros ->. apply Hne. f_equal. destruct (u_genesis (U:=U) (genesis:=genesis)) as [_ Hg].
    apply (u_first (U:=U)); [by apply (stored_U U genesis d)|lia]. }
  eapply triple_learn; [by apply always_leaves|]. intros r' ->.
  eapply triple_learn; [by apply always_parentOf|]. intros o (po & -> & Hpo).
  eapply triple_learn; [by apply always_parentOf|]. intros n (pn & -> & Hpn).
  pose proof Hpo as (Hpos & _ & Hno). pose proof Hpn as (Hpns & _ & Hnn). pose proof (numberOf_nonneg po).
  eapply triple_conseq; [apply IH; [done|done|lia|lia]|done| |done]. intros x s [Hs (c & lo & ln & -> & Hlo & Hln & Hlc)]. split; [done|].
  exists c, (old :: lo), (new :: ln). simpl. rewrite app_nil_r, <- !app_assoc. split; [done|].
  split; [by econstructor|]. split; [by econstructor|]. constructor.
  - intros Ha. apply Hne. f_equal. by eapply (ancestor_same U genesis d Hd new); [done|apply ancestor_refl|].
  - apply list.Forall_forall. intros x Hx Ha. rewrite list.Forall_forall in Hlc. apply (Hlc x Hx).
    assert (Hax : ancestor d po x) by (apply (ancestor_path U genesis d Hd po c lo x Hlo); by left). apply ancestor_number in Hax.
    rewrite (ancestor_path U genesis d Hd new pn [new] x) in Ha; [|by econstructor; [done|constructor]].
    destruct Ha as [->%list_elem_of_singleton|Ha]; [lia|done].
Qed.

End Walks.
End Branches.

(** ** Moving the head to another block

    What [writeKnownBlock] does to a chain, branch by branch, and that the
    canonical numbers stay those of the ancestors of the head. *)

Import Headers Chain.

Lemma last_cons_default {A} (x d : A) l : List.last (x :: l) d = List.last l x.
Proof.
  revert x d. induction l as [|y l IH]; intros x d; [done|]. change (List.last (x :: y :: l) d) with (List.last (y :: l) d). by rewrite !IH.
Qed.

Section Reorg.
Context `{Crypto} `{TxSigning} `{Lru L} `{!LruLaws L} `{ChainWorld X T} (U : Block -> Prop) (genesis : Block) `{!Universe U genesis}.
Variable createAddress : Address -> Z -> Address.
#[local] Abbreviation BC := (BlockChain L X).
#[local] Abbreviation V := (View L X).
Implicit Types (s : BC) (v : V) (d : ChainDB) (b c : Block).
#[local] Abbreviation logsIn := (logsIn createAddress).

(** ** A chain in order *)

Record chain_core v : Prop := {
  k_store : store_ok U genesis (v_db v);
  k_head : stored (v_db v) (v_head v);
  (* the canonical numbers up to the head are those of its ancestors *)
  k_below : forall c, ancestor (v_db v) (v_head v) c -> mk (v_db v) (numberOf c) = hashOf c;
  (* what is left above the head are stored blocks, without a gap *)
  k_above : forall n, numberOf (v_head v) < n -> mk (v_db v) n <> 0 -> exists c, stored (v_db v) c /\ key c = (n, mk (v_db v) n);
  k_gap : forall n, numberOf (v_head v) < n -> mk (v_db v) (n + 1) <> 0 -> mk (v_db v) n <> 0;
  k_future : forall h c, cache_mem (v_future v) h c -> U c /\ 0 < numberOf c;
}.

(** Besides, all the heads are the same, and what is left above the head is not
    heavier than it. *)
Record chain_full v : Prop := {
  f_core : chain_core v;
  f_header : v_currentHeader v = bHeader (v_head v);
  f_hash : v_currentHash v = hashOf (v_head v);
  f_fast : v_fast v = v_head v;
  f_disk : headBlockHash (v_db v) = hashOf (v_head v) /\ headHeaderHash (v_db v) = hashOf (v_head v) /\ headFastBlockHash (v_db v) = hashOf (v_head v);
  f_stale : forall c tc th, numberOf (v_head v) < numberOf c -> stored (v_db v) c -> mk (v_db v) (numberOf c) = hashOf c ->
    tdOf (v_db v) c = Some tc -> tdOf (v_db v) (v_head v) = Some th -> tc <= th;
}.

Lemma core_nonzero v n : chain_core v -> 0 <= n <= numberOf (v_head v) -> mk (v_db v) n <> 0.
Proof.
  intros Hk Hn. destruct (path_to U genesis _ (k_store v Hk) _ (k_head v Hk) n Hn) as (c & l & Hl & Hc & Hnc).
  rewrite <- Hnc, (k_below v Hk c) by (by exists l). by apply (u_hash (U:=U) (genesis:=genesis)), (stored_U U genesis _ (k_store v Hk)).
Qed.
Lemma core_marked v n : chain_core v -> 0 <= n -> mk (v_db v) n <> 0 -> exists c, stored (v_db v) c /\ key c = (n, mk (v_db v) n).
Proof.
  intros Hk Hn0 Hn. destruct (Z_lt_le_dec (numberOf (v_head v)) n) as [Hlt|Hle]; [by apply k_above|].
  destruct (path_to U genesis _ (k_store v Hk) _ (k_head v Hk) n (conj Hn0 Hle)) as (c & l & Hl & Hc & Hnc).
  exists c. split; [done|]. unfold key. by rewrite <- Hnc, (k_below v Hk c) by (by exists l).
Qed.
Lemma core_gap v n : chain_core v -> 0 <= n -> mk (v_db v) (n + 1) <> 0 -> mk (v_db v) n <> 0.
Proof.
  intros Hk Hn Hs. destruct (Z_lt_le_dec (numberOf (v_head v)) n) as [Hlt|Hle]; [by apply k_gap|]. by apply core_nonzero.
Qed.

(** ** What the walks find *)
Lemma always_findBranches v old new : store_ok U genesis (v_db v) -> stored (v_db v) old -> stored (v_db v) new ->
  always (at_view v) (findBranches createAddress old new) (fun r s => at_view v s /\
    exists c, path (v_db v) old c (oldChain r) /\ path (v_db v) new c (newChain r) /\
      deletedLogs r = oldChain r ≫= logsIn (v_db v) /\ Forall (fun x => ~ ancestor (v_db v) new x) (oldChain r)).
Proof.
  intros Hd Ho Hn. unfold findBranches. cbv zeta. pose proof (numberOf_nonneg old) as Hpo. pose proof (numberOf_nonneg new) as Hpn.
  destruct (Z.ltb_spec (numberOf new) (numberOf old)) as [Hlt|Hle].
  - eapply triple_learn; [apply (always_reduceOld U genesis createAddress v Hd); [exact Hpn|done|lia|lia]|].
    intros x (c & l & -> & Hl & Hc). cbn [fst snd]. destruct (path_stored _ _ _ _ Ho Hl) as [Hcs _].
    eapply triple_conseq; [apply (always_reduceBoth U genesis createAddress v Hd); [exact Hcs|exact Hn|lia|lia]|done| |done].
    intros r s [Hs (e & lo & ln & -> & Hlo & Hln & Hna)]. split; [done|]. exists e. simpl.
    split; [by eapply path_app|]. split; [done|]. split; [by rewrite bind_app|]. apply list.Forall_app. split; [|done].
    apply list.Forall_forall. intros y Hy Ha. apply ancestor_number in Ha. apply list_elem_of_split in Hy as (l1 & l2 & ->).
    apply path_split in Hl as [_ Hl]. apply path_length in Hl. unfold zlen in Hl. simpl in Hl. lia.
  - eapply triple_learn; [apply (always_reduceNew U genesis createAddress v Hd); [exact Hpo|done|lia|lia]|].
    intros x (c & l & -> & Hl & Hc). cbn [fst snd]. destruct (path_stored _ _ _ _ Hn Hl) as [Hcs _].
    eapply triple_conseq; [apply (always_reduceBoth U genesis createAddress v Hd); [exact Ho|exact Hcs|lia|lia]|done| |done].
    intros r s [Hs (e & lo & ln & -> & Hlo & Hln & Hna)]. split; [done|]. exists e. simpl.
    split; [done|]. split; [by eapply path_app|]. split; [done|].
    apply list.Forall_forall. intros y Hy Ha. rewrite list.Forall_forall in Hna. apply (Hna y Hy).
    destruct (proj1 (ancestor_path U genesis _ Hd new c l y Hl) Ha) as [Hin|]; [|done]. exfalso.
    assert (Hay : ancestor (v_db v) old y) by (apply (ancestor_path U genesis _ Hd old e lo y Hlo); by left). apply ancestor_number in Hay.
    apply list_elem_of_split in Hin as (l1 & l2 & ->). apply path_split in Hl as [_ Hl]. apply path_length in Hl. unfold zlen in Hl. simpl in Hl. lia.
Qed.

(** ** Blocks that become canonical *)
Definition adopted v (l : list Block) : V := foldl (fun v b => headOf b v) v l.

Lemma adopted_same l v : same_content (v_db v) (v_db (adopted v l)).
Proof.
  revert v. induction l as [|b l IH]; intros v; [done|]. destruct (IH (headOf b v)) as [Hs Hr].
  destruct (headBatch_same (negb (mk (v_db v) (numberOf b) =? hashOf b)) b (v_db v)) as [Hs' Hr'].
  split; [by eapply same_blocks_trans|]. simpl in *. congruence.
Qed.
Lemma headOf_mk b v n : mk (v_db (headOf b v)) n = if decide (n = numberOf b) then hashOf b else mk (v_db v) n.
Proof. apply headBatch_mk. Qed.
Lemma headOf_lookups b v : txLookups (v_db (headOf b v)) = lookupsAfter [b] (txLookups (v_db v)).
Proof. apply headBatch_lookups. Qed.
Lemma headOf_same b v : same_content (v_db v) (v_db (headOf b v)).
Proof. apply headBatch_same. Qed.
Lemma adopted_mk l v n : (exists b, b ∈ l /\ numberOf b = n /\ mk (v_db (adopted v l)) n = hashOf b) \/
  ((forall b, b ∈ l -> numberOf b <> n) /\ mk (v_db (adopted v l)) n = mk (v_db v) n).
Proof.
  revert v. induction l as [|b l IH]; intros v; [right; split; [by intros b ?%not_elem_of_nil|done]|].
  destruct (IH (headOf b v)) as [(c & Hc & Hn & Hm)|[Hc Hm]]; cbn [adopted foldl] in *; fold (adopted (headOf b v) l) in *.
  - left. exists c. split; [by right|done].
  - rewrite headOf_mk in Hm. case_decide as E.
    + left. exists b. split; [by left|]. by subst.
    + right. split; [|done]. intros x [->|Hx]%elem_of_cons; [congruence|by apply Hc].
Qed.
Lemma adopted_head l v : v_head (adopted v l) = List.last l (v_head v).
Proof. revert v. induction l as [|b l IH]; intros v; [done|]. cbn [adopted foldl]. fold (adopted (headOf b v) l). rewrite IH. symmetry. apply last_cons_default. Qed.
Lemma adopted_lookups l v : txLookups (v_db (adopted v l)) = lookupsAfter l (txLookups (v_db v)).
Proof.
  revert v. induction l as [|b l IH]; intros v; [done|]. cbn [adopted foldl]. fold (adopted (headOf b v) l). rewrite IH. by rewrite headOf_lookups.
Qed.
Lemma adopted_rest l v : v_genesis (adopted v l) = v_genesis v /\ v_coins (adopted v l) = v_coins v /\ v_stop (adopted v l) = v_stop v /\
  v_future (adopted v l) = v_future v /\ v_world (adopted v l) = v_world v /\ v_events (adopted v l) = v_events v /\ v_closed (adopted v l) = v_closed v.
Proof. revert v. induction l as [|b l IH]; intros v; [done|]. cbn [adopted foldl]. fold (adopted (headOf b v) l). exact (IH (headOf b v)). Qed.

Lemma bind_logs_same d d' l : same_content d d' -> l ≫= logsIn d' = l ≫= logsIn d.
Proof. intros Hs. induction l as [|x l IH]; [done|]. rewrite !bind_cons. by rewrite (logsIn_same createAddress _ _ x Hs), IH. Qed.
Lemma always_adopt l : forall v, store_ok U genesis (v_db v) -> Forall (stored (v_db v)) l ->
  always (at_view v) (adopt createAddress l) (fun ys s => at_view (adopted v l) s /\ ys = l ≫= logsIn (v_db v)).
Proof.
  unfold adopt. induction l as [|b l IH]; intros v Hd Hl; cbn [st_collect].
  - apply triple_value. by intros s Hs.
  - apply list.Forall_cons in Hl as [Hb Hl].
    assert (Hs := headBatch_same (negb (mk (v_db v) (numberOf b) =? hashOf b)) b (v_db v)).
    assert (Hd' : store_ok U genesis (v_db (headOf b v))) by (eapply store_ok_same; [apply Hs|done]).
    eapply triple_learn; [eapply triple_bind; [apply always_writeHeadBlock|]; intros []; apply (always_collectLogs U genesis createAddress _ b Hd'); by apply (stored_same (v_db v)), Hb; destruct Hs|].
    intros y ->. eapply triple_learn; [apply (IH (headOf b v) Hd')|].
    { eapply list.Forall_impl; [exact Hl|]. intros x Hx. by apply (stored_same (v_db v)); [apply Hs|]. }
    intros ys ->. apply triple_value. intros s Hs'. split; [exact Hs'|].
    rewrite (bind_logs_same _ _ l (headOf_same b v)). by rewrite (logsIn_same createAddress _ _ b (headOf_same b v)).
Qed.

(** ** The reorganisation *)

Definition reorgNotes d (lo added : list Block) : list ChainNote :=
  (match lo ≫= logsIn d with [] => [] | _ => [RemovedLogsEvent (concat (rev (lo ≫= logsIn d)))] end) ++
  (match added ≫= logsIn d with [] => [] | _ => [LogsEvent (concat (added ≫= logsIn d))] end) ++ (ChainSideEvent <$> rev lo).
Definition reorgDeletes (lo added : list Block) (above : list Z) : Batch :=
  ((fun tx => DeleteTxLookupEntry (HashOfTx tx)) <$> TxDifference (lo ≫= bTransactions) (added ≫= bTransactions)) ++ (DeleteCanonicalHash <$> above).
Definition reorgView v (lo added : list Block) (above : list Z) : V :=
  withEvents (fun l => l ++ reorgNotes (v_db v) lo added) (withDb (commit (reorgDeletes lo added above)) (adopted v added)).

Lemma commit_app (l l' : Batch) d : commit (l ++ l') d = commit l' (commit l d).
Proof. apply foldl_app. Qed.
Lemma txDeletes_rest (l : list Transaction) d : same_content d (commit ((fun tx => DeleteTxLookupEntry (HashOfTx tx)) <$> l) d) /\
  headerHashes (commit ((fun tx => DeleteTxLookupEntry (HashOfTx tx)) <$> l) d) = headerHashes d /\
  txLookups (commit ((fun tx => DeleteTxLookupEntry (HashOfTx tx)) <$> l) d) = foldl (fun m tx => delete (HashOfTx tx) m) (txLookups d) l.
Proof. revert d. induction l as [|tx l IH]; intros d; [done|]. exact (IH (DeleteTxLookupEntry (HashOfTx tx) d)). Qed.
Lemma marksDeleted_rest (l : list Z) d : same_content d (commit (DeleteCanonicalHash <$> l) d) /\ txLookups (commit (DeleteCanonicalHash <$> l) d) = txLookups d.
Proof. revert d. induction l as [|n l IH]; intros d; [done|]. exact (IH (DeleteCanonicalHash n d)). Qed.
Lemma same_content_trans d1 d2 d3 : same_content d1 d2 -> same_content d2 d3 -> same_content d1 d3.
Proof. intros [? ?] [? ?]. split; [by eapply same_blocks_trans|congruence]. Qed.

Lemma deletes_same lo added above d : same_content d (commit (reorgDeletes lo added above) d).
Proof. unfold reorgDeletes. rewrite commit_app. eapply same_content_trans; [apply txDeletes_rest|apply marksDeleted_rest]. Qed.
Lemma deletes_mk lo added above d n : mk (commit (reorgDeletes lo added above) d) n = if decide (n ∈ above) then 0 else mk d n.
Proof.
  unfold reorgDeletes. rewrite commit_app, mk_deletes. destruct (decide (n ∈ above)); [done|].
  unfold mk, ReadCanonicalHash. by rewrite (proj1 (proj2 (txDeletes_rest _ _))).
Qed.
Lemma deletes_lookups lo added above d : txLookups (commit (reorgDeletes lo added above) d) =
  foldl (fun m tx => delete (HashOfTx tx) m) (txLookups d) (TxDifference (lo ≫= bTransactions) (added ≫= bTransactions)).
Proof. unfold reorgDeletes. by rewrite commit_app, (proj2 (marksDeleted_rest _ _)), (proj2 (proj2 (txDeletes_rest _ _))). Qed.

Lemma always_notify v dl rl lo : always (at_view v) (notifyReorg dl rl lo) (fun _ => at_view (withEvents (fun l => l ++
  (match dl with [] => [] | _ => [RemovedLogsEvent (concat (rev dl))] end) ++ (match rl with [] => [] | _ => [LogsEvent (concat rl)] end) ++ (ChainSideEvent <$> rev lo)) v)).
Proof.
  assert (Hopt : forall A (l : list A) (e : ChainNote) v, always (at_view v) (match l with [] => mret tt | _ => send e end)
    (fun _ => at_view (withEvents (fun x => x ++ match l with [] => [] | _ => [e] end) v))).
  { intros A [|a l] e v'; [|apply always_send]. apply triple_value. intros s [Hs Hc]. split; [|done]. rewrite Hs. unfold withEvents. by rewrite app_nil_r; destruct v'. }
  unfold notifyReorg. eapply triple_bind; [apply (Hopt _ dl (RemovedLogsEvent (concat (rev dl))))|]. intros [].
  eapply triple_bind; [apply (Hopt _ rl (LogsEvent (concat rl)))|]. intros []. rewrite withEvents_comp.
  assert (Hs : forall l, st_each (fun b => send (L:=L) (X:=X) (ChainSideEvent b)) l = st_each send (ChainSideEvent <$> l)).
  { intros l. induction l as [|b l IH]; [done|]. cbn [st_each fmap list_fmap]. by rewrite IH. }
  rewrite Hs. eapply triple_conseq; [apply always_sends|done| |done]. intros [] s [Ht Hc]. split; [|done].
  rewrite Ht. unfold withEvents. simpl. by rewrite <- !app_assoc; destruct dl, rl.
Qed.
End Reorg.
