(* ===== verification/ChainSwitch.v ===== *)
(** * The chain after its head has moved

    [switched v b v']: from [v], the block [b] has become the head; then the
    canonical numbers, the heads and the lookups of transactions are again in
    order. *)

From S2P Require Import StateDB StateIface Prelude Hoare Params Types Misc Snapshot Engine Contracts Finalize TxQueue ChainDB HeaderChain BlockChain ChainFacts ChainReorg.
Import Headers Chain.

Lemma elem_of_rev {A} (l : list A) x : x ∈ rev l <-> x ∈ l.
Proof. induction l as [|y l IH]; [done|]. simpl. rewrite elem_of_app, list_elem_of_singleton, elem_of_cons, IH. tauto. Qed.

Section Switch.
Context `{Crypto} `{TxSigning} `{Lru L} `{!LruLaws L} `{ChainWorld X T} (U : Block -> Prop) (genesis : Block) `{!Universe U genesis}.
Variable createAddress : Address -> Z -> Address.
#[local] Abbreviation BC := (BlockChain L X).
#[local] Abbreviation V := (View L X).
Implicit Types (s : BC) (v : V) (d : ChainDB) (b c : Block).
#[local] Abbreviation core := (chain_core U genesis).
#[local] Abbreviation full := (chain_full U genesis).

(** The branches between two heads, and the numbers that were deleted. *)
Record branching v b c (lo ln : list Block) (above : list Z) : Prop := {
  br_old : path (v_db v) (v_head v) c lo;
  br_new : path (v_db v) b c ln;
  br_apart : Forall (fun x => ~ ancestor (v_db v) b x) lo;
  br_above : forall m, m ∈ above <->
    numberOf (v_head (adopted v (rev (drop 1 ln)))) < m /\ mk (v_db (adopted v (rev (drop 1 ln)))) m <> 0;
}.
Inductive switched v b : V -> Prop :=
  | switched_extends : parentHashOf b = hashOf (v_head v) -> switched v b (headOf b v)
  | switched_reorg c lo ln above : parentHashOf b <> hashOf (v_head v) -> branching v b c lo ln above ->
      switched v b (headOf b (reorgView createAddress v lo (rev (drop 1 ln)) above)).

Section Branching.
Context v b (Hk : core v) (Hb : stored (v_db v) b).
Local Abbreviation d := (v_db v).
Let Hd := k_store U genesis v Hk.

Lemma added_ancestor c ln x : path d b c ln -> x ∈ rev (drop 1 ln) -> ancestor d b x /\ numberOf c < numberOf x < numberOf b.
Proof.
  intros Hl Hx. apply (proj1 (elem_of_rev (drop 1 ln) x)) in Hx. destruct ln as [|y ln]; [by apply not_elem_of_nil in Hx|]. change (x ∈ ln) in Hx.
  inversion Hl as [|? p ? ? Hp Hl']; subst.
  assert (Ha : ancestor d p x) by (apply (ancestor_path U genesis d Hd p c ln x Hl'); left; exact Hx).
  pose proof (ancestor_number _ _ _ Ha). pose proof Hp as (Hps & Hph & Hpn).
  split; [eapply ancestor_trans; [by apply ancestor_parent|done]|]. split; [|lia].
  apply list_elem_of_split in Hx as (l1 & l2 & ->). apply path_split in Hl' as [_ Hl']. apply path_length in Hl'. unfold zlen in Hl'. simpl in Hl'. lia.
Qed.

(** On the new branch: the common block and what is below, the blocks added, or
    the new head. *)
Lemma new_ancestor c ln x : path d b c ln -> ancestor d b x -> x = b \/ x ∈ rev (drop 1 ln) \/ ancestor d c x.
Proof.
  intros Hl Hx. destruct (proj1 (ancestor_path U genesis d Hd b c ln x Hl) Hx) as [Hin|]; [|by right; right].
  destruct ln as [|y ln]; [by apply not_elem_of_nil in Hin|]. inversion Hl; subst. apply elem_of_cons in Hin as [->|Hin]; [by left|].
  right; left. apply (proj2 (elem_of_rev (drop 1 (y :: ln)) x)). exact Hin.
Qed.

Lemma adopted_end c lo ln above : branching v b c lo ln above ->
  (drop 1 ln = [] /\ v_head (adopted v (rev (drop 1 ln))) = v_head v) \/
  (drop 1 ln <> [] /\ exists z, parent d b z /\ v_head (adopted v (rev (drop 1 ln))) = z /\ numberOf c < numberOf z).
Proof.
  intros Hbr. pose proof (br_new _ _ _ _ _ _ Hbr) as Hl. rewrite adopted_head.
  inversion Hl as [|? p ? ln' Hp Hl']; subst; [by left|]. change (drop 1 (b :: ln')) with ln'.
  inversion Hl' as [|? p' ? ln'' Hp' Hl'']; subst; [by left|]. right. split; [done|]. exists p. split; [done|]. simpl rev.
  rewrite last_last. split; [done|]. apply path_length in Hl'. unfold zlen in Hl'. simpl in Hl'. lia.
Qed.

Section Reorganised.
Context c lo ln above (Hbr : branching v b c lo ln above).
Local Abbreviation added := (rev (drop 1 ln)).
Local Abbreviation v' := (headOf b (reorgView createAddress v lo added above)).
Let Hold := br_old _ _ _ _ _ _ Hbr.
Let Hnew := br_new _ _ _ _ _ _ Hbr.

Lemma after_same : same_content d (v_db v').
Proof.
  eapply same_content_trans; [apply (adopted_same added v)|]. eapply same_content_trans; [apply (deletes_same lo added above)|].
  apply (headOf_same b (reorgView createAddress v lo added above)).
Qed.
Lemma after_mk n : mk (v_db v') n = if decide (n = numberOf b) then hashOf b else if decide (n ∈ above) then 0 else mk (v_db (adopted v added)) n.
Proof. rewrite headOf_mk. destruct (decide (n = numberOf b)); [done|]. apply deletes_mk. Qed.

Lemma above_far m : m ∈ above -> numberOf c < m /\ forall x, x ∈ added -> numberOf x < m.
Proof.
  intros [Hm _]%(br_above _ _ _ _ _ _ Hbr). pose proof (path_length _ _ _ _ Hold) as Ho. unfold zlen in Ho.
  destruct (adopted_end _ _ _ _ Hbr) as [[He Hh]|[Hne (z & (_ & _ & Hz) & Hh & Hc)]]; rewrite Hh in Hm.
  - split; [lia|]. intros x Hx. rewrite He in Hx. by apply not_elem_of_nil in Hx.
  - split; [lia|]. intros x Hx. destruct (added_ancestor _ _ _ Hnew Hx). lia.
Qed.

Lemma after_below x : ancestor d b x -> mk (v_db v') (numberOf x) = hashOf x.
Proof.
  intros Hx. rewrite after_mk. case_decide as Hn.
  { by rewrite (ancestor_same U genesis d Hd b x b Hx (ancestor_refl d b) Hn). }
  assert (Hxb : x <> b) by congruence.
  destruct (new_ancestor _ _ _ Hnew Hx) as [?|[Hin|Hc]]; [done| |].
  - rewrite decide_False by (intros Hab; destruct (above_far _ Hab) as [_ Hf]; specialize (Hf x Hin); lia).
    destruct (adopted_mk added v (numberOf x)) as [(y & Hy & Hny & ->)|[Hno _]]; [|by destruct (Hno x Hin)].
    f_equal. eapply (ancestor_same U genesis d Hd b); [by apply (added_ancestor c ln)|done|done].
  - pose proof (ancestor_number _ _ _ Hc) as Hle.
    rewrite decide_False by (intros Hab; destruct (above_far _ Hab) as [Hf _]; lia).
    destruct (adopted_mk added v (numberOf x)) as [(y & Hy & Hny & _)|[_ ->]]; [destruct (added_ancestor _ _ _ Hnew Hy); lia|].
    apply (k_below U genesis v Hk). eapply ancestor_trans; [by exists lo|done].
Qed.

(** What is left above the new head: the numbers of the old branch, when the
    new head is the only new block. *)
Lemma after_above n : numberOf b < n -> mk (v_db v') n <> 0 ->
  drop 1 ln = [] /\ n <= numberOf (v_head v) /\ mk (v_db v') n = mk d n.
Proof.
  intros Hn. rewrite after_mk. case_decide as Hnb; [lia|]. case_decide as Hab; [done|]. intros Hnz.
  destruct (adopted_end _ _ _ _ Hbr) as [[He Hh]|[Hne (z & (_ & _ & Hz) & Hh & Hc)]].
  - split; [done|]. split; [|by rewrite He].
    destruct (Z_lt_le_dec (numberOf (v_head v)) n) as [Hlt|]; [|done]. destruct Hab. apply (br_above _ _ _ _ _ _ Hbr). by rewrite Hh.
  - exfalso. apply Hab, (br_above _ _ _ _ _ _ Hbr). rewrite Hh. split; [lia|done].
Qed.
Lemma after_left n : drop 1 ln = [] -> numberOf b < n <= numberOf (v_head v) -> mk (v_db v') n = mk d n.
Proof.
  intros He Hn. rewrite after_mk. rewrite decide_False by lia. rewrite decide_False; [by rewrite He|].
  intros [Hab _]%(br_above _ _ _ _ _ _ Hbr). rewrite He in Hab. simpl in Hab. lia.
Qed.

Lemma reorganised_core : core v'.
Proof.
  destruct after_same as [Hs Hr]. constructor.
  - by apply (store_ok_same U genesis d).
  - by apply (stored_same d).
  - intros x Hx. apply after_below. by apply (ancestor_same_blocks d (v_db v')).
  - intros n Hn Hnz. destruct (after_above n Hn Hnz) as (He & Hle & Hm). rewrite Hm in Hnz |- *. pose proof (numberOf_nonneg b).
    destruct (core_marked U genesis v n Hk) as (x & Hx & Hkx); [simpl in Hn; lia|done|]. exists x. split; [by apply (stored_same d)|done].
  - intros n Hn Hnz. assert (Hn1 : numberOf b < n + 1) by (simpl in Hn; lia). destruct (after_above (n + 1) Hn1 Hnz) as (He & Hle & _).
    rewrite after_left by (simpl in Hn; first [done|lia]). apply (core_nonzero U genesis v n Hk). pose proof (numberOf_nonneg b). simpl in Hn. lia.
  - intros h x. change (v_future v') with (v_future (adopted v added)). destruct (adopted_rest added v) as (_ & _ & _ & -> & _). apply (k_future U genesis v Hk).
Qed.
End Reorganised.

Lemma extends_parent : parentHashOf b = hashOf (v_head v) -> parent d b (v_head v).
Proof.
  intros Hp. assert (Hg : b <> genesis).
  { intros ->. rewrite (u_orphan (U:=U)) in Hp. by apply (u_hash (U:=U) (genesis:=genesis) (v_head v)); [apply (stored_U U genesis d Hd), (k_head U genesis v Hk)|]. }
  destruct (stored_parent U genesis d Hd b Hb Hg) as (p & Hps & Hh & Hn).
  replace (v_head v) with p; [done|]. apply (stored_inj U genesis d Hd); [done|apply (k_head U genesis v Hk)|congruence].
Qed.
Lemma extended_core : parentHashOf b = hashOf (v_head v) -> core (headOf b v).
Proof.
  intros Hp%extends_parent. destruct (headOf_same b v) as [Hs Hr]. pose proof Hp as (_ & _ & Hn). constructor.
  - by apply (store_ok_same U genesis d).
  - by apply (stored_same d).
  - intros x Hx. apply (ancestor_same_blocks d) in Hx; [|done]. rewrite headOf_mk. case_decide as E.
    { by rewrite (ancestor_same U genesis d Hd b x b Hx (ancestor_refl d b) E). }
    apply (k_below U genesis v Hk).
    destruct (proj1 (ancestor_path U genesis d Hd b (v_head v) [b] x ltac:(econstructor; [done|constructor])) Hx) as [->%list_elem_of_singleton|Ha]; done.
  - simpl v_head. intros n Hlt. rewrite headOf_mk, decide_False by lia. intros Hnz.
    destruct (k_above U genesis v Hk n ltac:(lia) Hnz) as (x & Hx & Hkx). exists x. split; [by apply (stored_same d)|done].
  - simpl v_head. intros n Hlt. rewrite !headOf_mk, !decide_False by lia. apply (k_gap U genesis v Hk). lia.
  - apply (k_future U genesis v Hk).
Qed.
End Branching.

(** Whatever stored block becomes the head, the chain stays in order. *)
Lemma switched_core v b v' : core v -> stored (v_db v) b -> switched v b v' -> core v' /\ v_head v' = b /\ same_content (v_db v) (v_db v').
Proof.
  intros Hk Hb [Hp|c lo ln above Hp Hbr].
  - split; [by apply extended_core|]. split; [done|]. apply headOf_same.
  - split; [by eapply reorganised_core|]. split; [done|]. by eapply after_same.
Qed.

(** ** The code moves the head *)

Section Run.
Context v b (Hk : core v) (Hb : stored (v_db v) b).
Let Hd := k_store U genesis v Hk.

Lemma added_stored c ln : path (v_db v) b c ln -> Forall (stored (v_db v)) (rev (drop 1 ln)).
Proof.
  intros Hl. apply list.Forall_forall. intros x Hx. eapply (ancestor_stored (v_db v) b); [done|]. by apply (added_ancestor v b Hk Hb c ln x Hl).
Qed.

(** After the additions the numbers above the head are still without gap. *)
Lemma above_total c ln : path (v_db v) b c ln -> ancestor (v_db v) (v_head v) c ->
  let vA := adopted v (rev (drop 1 ln)) in
  exists above, markersAbove (v_db vA) (numberOf (v_head vA) +w 1) = Ok above /\
    forall m, m ∈ above <-> numberOf (v_head vA) < m /\ mk (v_db vA) m <> 0.
Proof.
  intros Hl Hc vA. pose proof (added_stored c ln Hl) as Hadd. rewrite list.Forall_forall in Hadd.
  assert (Hhead : stored (v_db v) (v_head vA) /\ forall x, x ∈ rev (drop 1 ln) -> numberOf x <= numberOf (v_head vA)).
  { unfold vA. rewrite adopted_head. inversion Hl as [|? p ? ln' Hp Hl']; subst; [split; [apply (k_head U genesis v Hk)|by intros x ?%not_elem_of_nil]|].
    change (drop 1 (b :: ln')) with ln' in *. inversion Hl' as [|? p' ? ln'' Hp' Hl'']; subst;
      [split; [apply (k_head U genesis v Hk)|by intros x ?%not_elem_of_nil]|].
    simpl rev in *. rewrite last_last. split; [apply Hadd; rewrite elem_of_app; right; by left|].
    intros x Hx. apply (added_ancestor v b Hk Hb c (b :: p :: ln'') x Hl) in Hx as [_ ?]. destruct Hp as (_ & _ & ?). lia. }
  destruct Hhead as [Hhs Hmax]. pose proof (stored_range U genesis _ Hd _ Hhs) as Hr.
  assert (Hn : numberOf (v_head vA) +w 1 = numberOf (v_head vA) + 1) by (rewrite u64_small; unfold is_u64; lia). rewrite Hn.
  destruct (markersAbove_spec (v_db vA) (numberOf (v_head vA) + 1)) as (above & Ha & Hm).
  - intros n Hnz. destruct (adopted_mk (rev (drop 1 ln)) v n) as [(y & Hy & <- & _)|[_ Hm]].
    + by apply (stored_range U genesis _ Hd), Hadd.
    + unfold vA in Hnz. rewrite Hm in Hnz. destruct (Z_lt_le_dec n 0); [lia|]. destruct (core_marked U genesis v n Hk) as (x & Hx & Hkx); [done|done|].
      unfold key in Hkx. simplify_eq. by apply (stored_range U genesis _ Hd).
  - intros n Hge Hnz. unfold vA in *. destruct (adopted_mk (rev (drop 1 ln)) v (n + 1)) as [(y & Hy & Hny & _)|[_ Hm]].
    { specialize (Hmax y Hy). lia. }
    rewrite Hm in Hnz. apply (core_gap U genesis v n Hk) in Hnz; [|pose proof (numberOf_nonneg (v_head (adopted v (rev (drop 1 ln))))); lia].
    destruct (adopted_mk (rev (drop 1 ln)) v n) as [(y & Hy & _ & ->)|[_ ->]]; [|done].
    by apply (u_hash (U:=U) (genesis:=genesis)), (stored_U U genesis _ Hd), Hadd.
  - lia.
  - exists above. split; [done|]. intros m. rewrite Hm. split; intros [? ?]; (split; [lia|done]).
Qed.

Lemma always_reorg : always (at_view v) (reorg createAddress (v_head v) b)
  (fun _ s => exists c lo ln above, branching v b c lo ln above /\ at_view (reorgView createAddress v lo (rev (drop 1 ln)) above) s).
Proof.
  unfold reorg. eapply triple_learn; [apply (always_findBranches U genesis createAddress v (v_head v) b Hd); [apply (k_head U genesis v Hk)|done]|].
  intros [lo ln dl] (c & Hlo & Hln & Hdl & Hap). cbn [oldChain newChain deletedLogs] in *. subst dl. cbv zeta. unfold deletedTxs. cbn [oldChain].
  eapply triple_learn; [apply (always_adopt U genesis createAddress _ v Hd); by eapply added_stored|]. intros reborn ->.
  destruct (above_total c ln Hln ltac:(by exists lo)) as (above & Ha & Hm).
  apply triple_look. intros s [Hv _].
  assert (Eh : currentBlock s = v_head (adopted v (rev (drop 1 ln)))) by (by rewrite <- Hv).
  assert (Ed : db s = v_db (adopted v (rev (drop 1 ln)))) by (by rewrite <- Hv). rewrite Eh, Ed, Ha.
  eapply triple_bind; [apply (triple_lift above _ (fun x s => x = above /\ at_view (adopted v (rev (drop 1 ln))) s)); by intros|].
  intros x. cbv beta. apply triple_pure. intros ->.
  eapply triple_bind; [apply (always_writeBatch (adopted v (rev (drop 1 ln))))|]; [apply grows_same, (deletes_same lo (rev (drop 1 ln)) above)|].
  intros []. eapply triple_conseq; [apply always_notify|done| |done]. intros [] s' [Hs' Hc']. exists c, lo, ln, above.
  split; [by constructor|]. split; [|exact Hc']. exact Hs'.
Qed.

Lemma always_writeKnownBlock : always (at_view v) (writeKnownBlock createAddress b) (fun _ s => exists v', switched v b v' /\ at_view v' s).
Proof.
  unfold writeKnownBlock. apply triple_look. intros s [Hv _]. assert (Eh : currentBlock s = v_head v) by (by rewrite <- Hv). rewrite Eh.
  destruct (Z.eqb_spec (parentHashOf b) (hashOf (v_head v))) as [He|Hne].
  - eapply triple_bind; [apply (triple_value (at_view v) tt (fun _ => at_view v)); done|]. intros [].
    eapply triple_conseq; [apply always_writeHeadBlock|done| |done]. intros [] s' Hs'. exists (headOf b v). split; [by constructor|done].
  - eapply triple_bind; [apply always_reorg|]. intros []. cbv beta. do 4 (apply triple_exists; intros ?). apply triple_pure. intros Hbr.
    eapply triple_conseq; [apply always_writeHeadBlock|done| |done]. intros [] s' Hs'. eexists. split; [by eapply switched_reorg|done].
Qed.
End Run.
End Switch.

(** ** Heads and transaction lookups after the head has moved *)

Import Headers Chain.

Section Heads.
Context `{Crypto} `{TxSigning} `{Lru L} `{!LruLaws L} `{ChainWorld X T} (U : Block -> Prop) (genesis : Block) `{!Universe U genesis}.
Variable createAddress : Address -> Z -> Address.
#[local] Abbreviation V := (View L X).
Implicit Types (v w : V) (d : ChainDB) (b c : Block).
#[local] Abbreviation core := (chain_core U genesis).
#[local] Abbreviation full := (chain_full U genesis).
#[local] Abbreviation switched := (switched createAddress).

(** ** The heads agree *)

Definition heads_are v b : Prop :=
  v_currentHeader v = bHeader b /\ v_currentHash v = hashOf b /\ v_fast v = b /\ headHeaderHash (v_db v) = hashOf b /\ headFastBlockHash (v_db v) = hashOf b.

Lemma headOf_heads b w : mk (v_db w) (numberOf b) <> hashOf b \/ heads_are w b ->
  heads_are (headOf b w) b /\ headBlockHash (v_db (headOf b w)) = hashOf b.
Proof.
  intros Hw. unfold heads_are, headOf. cbn [v_currentHeader v_currentHash v_fast v_db].
  destruct (headBatch_heads (negb (mk (v_db w) (numberOf b) =? hashOf b)) b (v_db w)) as (-> & -> & ->).
  destruct (Z.eqb_spec (mk (v_db w) (numberOf b)) (hashOf b)) as [He|Hne]; cbn [negb]; [|done].
  destruct Hw as [Hw|Hw]; [done|]. unfold heads_are in Hw. tauto.
Qed.

(** The new block is heavier, or as heavy and not higher. *)
Definition preferred v b : Prop := exists tb th, tdOf (v_db v) b = Some tb /\ tdOf (v_db v) (v_head v) = Some th /\
  (th < tb \/ th = tb /\ numberOf b <= numberOf (v_head v)).

Section Full.
Context v b v' (Hf : full v) (Hb : stored (v_db v) b) (Hp : preferred v b).
Local Abbreviation d := (v_db v).
Let Hk := f_core U genesis v Hf.
Let Hd := k_store U genesis v Hk.

(** The canonical number of a preferred block is not its own yet, unless it is
    the head. *)
Lemma extends_unmarked : parentHashOf b = hashOf (v_head v) -> mk d (numberOf b) <> hashOf b.
Proof.
  intros Hh Hm. destruct (extends_parent U genesis v b Hk Hb Hh) as (_ & _ & Hn). destruct Hp as (tb & th & Htb & Hth & Hc).
  pose proof (f_stale U genesis v Hf b tb th ltac:(lia) Hb Hm Htb Hth). lia.
Qed.

Lemma reorg_unmarked c lo ln above : parentHashOf b <> hashOf (v_head v) -> branching v b c lo ln above ->
  let w := reorgView createAddress v lo (rev (drop 1 ln)) above in mk (v_db w) (numberOf b) <> hashOf b \/ (b = v_head v /\ heads_are w b).
Proof.
  intros Hne Hbr w. pose proof (br_new _ _ _ _ _ _ Hbr) as Hln. pose proof (br_old _ _ _ _ _ _ Hbr) as Hlo.
  assert (Hmk : forall n, mk (v_db w) n = if decide (n ∈ above) then 0 else mk (v_db (adopted v (rev (drop 1 ln)))) n) by (intros; apply deletes_mk).
  assert (Hhb : hashOf b <> 0) by (by apply (u_hash (U:=U) (genesis:=genesis)), (stored_U U genesis d Hd)).
  inversion Hln as [|? p ? ln' Hpar Hln']; subst.
  - right. destruct Hp as (tb & th & Htb & Hth & Hc).
    pose proof (td_grows U genesis d Hd (v_head v) c lo (k_head U genesis v Hk) Hlo th tb Hth Htb) as Hg.
    destruct lo as [|x lo]; [|unfold zlen in Hg; simpl in Hg; pose proof (path_length _ _ _ _ Hlo) as Hl; unfold zlen in Hl; simpl in Hl; lia].
    inversion Hlo; subst. split; [done|]. pose proof (f_header U genesis v Hf). pose proof (f_hash U genesis v Hf). pose proof (f_fast U genesis v Hf).
    destruct (f_disk U genesis v Hf) as (? & ? & ?). unfold heads_are, w, reorgView, reorgDeletes.
    cbn [v_currentHeader v_currentHash v_fast v_db withEvents withDb]. simpl (adopted v _). split; [done|]. split; [done|]. split; [done|].
    assert (Hkeep : forall l d0, headHeaderHash (commit (DeleteCanonicalHash <$> l) d0) = headHeaderHash d0 /\
      headFastBlockHash (commit (DeleteCanonicalHash <$> l) d0) = headFastBlockHash d0).
    { intros l. induction l as [|n l IH]; intros d0; [done|]. exact (IH (DeleteCanonicalHash n d0)). }
    simpl. by destruct (Hkeep above d) as [-> ->].
  - left. inversion Hln' as [|? p' ? ln'' Hpar' Hln'']; subst.
    + rewrite Hmk. case_decide as Hab; [done|]. change (rev (drop 1 [b])) with ([] : list Block). simpl (adopted v _). intros Hm.
      destruct Hpar as (Hcs & Hch & Hcn). destruct (Z_lt_le_dec (numberOf (v_head v)) (numberOf b)) as [Hlt|Hle].
      * assert (Hac : ancestor d (v_head v) c) by (by exists lo). pose proof (ancestor_number _ _ _ Hac).
        rewrite <- Hch in Hne. apply Hne. f_equal. apply (ancestor_same U genesis d Hd (v_head v)); [done|apply ancestor_refl|lia].
      * destruct (path_to U genesis d Hd (v_head v) (k_head U genesis v Hk) (numberOf b)) as (x & l & Hl & Hxs & Hxn); [pose proof (numberOf_nonneg b); lia|].
        assert (Hax : ancestor d (v_head v) x) by (by exists l).
        assert (x = b) as -> by (apply (stored_inj U genesis d Hd); [done|done|]; rewrite <- (k_below U genesis v Hk x Hax); by rewrite Hxn).
        apply (ancestor_path U genesis d Hd _ _ _ _ Hlo) in Hax as [Hin|Hca].
        -- pose proof (br_apart _ _ _ _ _ _ Hbr) as Hap. rewrite list.Forall_forall in Hap. apply (Hap b Hin), ancestor_refl.
        -- apply ancestor_number in Hca. lia.
    + rewrite Hmk. case_decide as Hab; [done|]. intros Hm. apply Hab, (br_above _ _ _ _ _ _ Hbr).
      destruct (adopted_end v b Hb _ _ _ _ Hbr) as [[He _]|[_ (z & (_ & _ & Hz) & -> & _)]]; [done|]. split; [lia|]. by rewrite Hm.
Qed.

Lemma switched_full : switched v b v' -> full v'.
Proof.
  intros Hs. destruct (switched_core U genesis createAddress v b v' Hk Hb Hs) as (Hk' & Hh' & [Hsame _]).
  assert (Hheads : heads_are v' b /\ headBlockHash (v_db v') = hashOf b).
  { destruct Hs as [He|c lo ln above Hne Hbr]; apply headOf_heads; [left; by apply extends_unmarked|].
    destruct (reorg_unmarked c lo ln above Hne Hbr) as [?|[_ ?]]; auto. }
  destruct Hheads as [(? & ? & ? & ? & ?) ?].
  assert (Hstale : forall c tc tb, numberOf b < numberOf c -> stored d c -> mk (v_db v') (numberOf c) = hashOf c -> tdOf d c = Some tc -> tdOf d b = Some tb -> tc <= tb).
  { intros c tc tb Hn Hc Hm Htc Htb. destruct Hp as (tb' & th & Htb' & Hth & Hpref).
    assert (tb' = tb) as -> by congruence.
    assert (Hhc : hashOf c <> 0) by (by apply (u_hash (U:=U) (genesis:=genesis)), (stored_U U genesis d Hd)).
    destruct Hs as [He|c0 lo ln above Hne Hbr].
    - destruct (extends_parent U genesis v b Hk Hb He) as (_ & _ & Hbn). rewrite headOf_mk, decide_False in Hm by lia.
      pose proof (f_stale U genesis v Hf c tc th ltac:(lia) Hc Hm Htc Hth). lia.
    - rewrite <- Hm in Hhc. destruct (after_above createAddress v b Hb c0 lo ln above Hbr (numberOf c) Hn Hhc) as (_ & Hle & Hmd).
      destruct (path_to U genesis d Hd (v_head v) (k_head U genesis v Hk) (numberOf c)) as (x & l & Hl & Hxs & Hxn); [pose proof (numberOf_nonneg c); lia|].
      assert (x = c) as -> by (apply (stored_inj U genesis d Hd); [done|done|]; rewrite <- (k_below U genesis v Hk x ltac:(by exists l)), Hxn; congruence).
      pose proof (td_grows U genesis d Hd (v_head v) c l (k_head U genesis v Hk) Hl th tc Hth Htc). unfold zlen in *. lia. }
  constructor; rewrite ?Hh'; try done. intros c tc th Hn Hc Hm. rewrite !(tdOf_same d (v_db v')) by done. intros Htc Hth.
  apply (Hstale c tc th); try done. by apply (stored_same d (v_db v')).
Qed.
End Full.

(** ** The lookups of transactions *)

Definition lookups_ok v : Prop :=
  (forall c tx, ancestor (v_db v) (v_head v) c -> tx ∈ bTransactions c -> txLookups (v_db v) !! HashOfTx tx = Some (numberOf c)) /\
  (forall h n, txLookups (v_db v) !! h = Some n -> exists c tx, ancestor (v_db v) (v_head v) c /\ numberOf c = n /\ tx ∈ bTransactions c /\ HashOfTx tx = h).

(** No transaction is in two blocks of the branch. *)
Definition distinct d b : Prop := forall c1 c2 tx1 tx2, ancestor d b c1 -> ancestor d b c2 -> tx1 ∈ bTransactions c1 -> tx2 ∈ bTransactions c2 ->
  HashOfTx tx1 = HashOfTx tx2 -> c1 = c2.

Lemma lookupsAfter_spec l m h :
  (exists c tx, c ∈ l /\ tx ∈ bTransactions c /\ HashOfTx tx = h /\ lookupsAfter l m !! h = Some (numberOf c)) \/
  ((forall c tx, c ∈ l -> tx ∈ bTransactions c -> HashOfTx tx <> h) /\ lookupsAfter l m !! h = m !! h).
Proof.
  assert (Hone : forall (n : Z) (txs : list Transaction) (m : gmap Hash Z), (exists tx, tx ∈ txs /\ HashOfTx tx = h /\ foldl (fun m tx => <[HashOfTx tx := n]> m) m txs !! h = Some n) \/
    ((forall tx, tx ∈ txs -> HashOfTx tx <> h) /\ foldl (fun m tx => <[HashOfTx tx := n]> m) m txs !! h = m !! h)).
  { intros n txs. induction txs as [|tx txs IH]; intros m0; [right; split; [by intros tx ?%not_elem_of_nil|done]|]. cbn [foldl].
    destruct (IH (<[HashOfTx tx := n]> m0)) as [(t & Ht & He & Hr)|[Hno Hr]]; [left; exists t; split; [by right|done]|].
    destruct (decide (HashOfTx tx = h)) as [He|Hne].
    - left. exists tx. split; [by left|]. split; [done|]. rewrite Hr, He. by rewrite lookup_insert_eq.
    - right. split; [intros t [->|Ht]%elem_of_cons; [done|by apply Hno]|]. by rewrite Hr, lookup_insert_ne. }
  revert m. induction l as [|b l IH]; intros m; [right; split; [by intros c tx ?%not_elem_of_nil|done]|]. unfold lookupsAfter. cbn [foldl].
  fold (lookupsAfter l (foldl (fun m tx => <[HashOfTx tx := numberOf b]> m) m (bTransactions b))).
  destruct (IH (foldl (fun m tx => <[HashOfTx tx := numberOf b]> m) m (bTransactions b))) as [(c & tx & Hc & Hr)|[Hno Hr]].
  { left. exists c, tx. split; [by right|done]. }
  destruct (Hone (numberOf b) (bTransactions b) m) as [(tx & Ht & He & Hr')|[Hno' Hr']]; rewrite Hr' in Hr.
  - left. exists b, tx. split; [by left|]. auto.
  - right. split; [|done]. intros c tx [->|Hc]%elem_of_cons Ht; [by apply Hno'|by eapply Hno].
Qed.
Lemma deletes_spec (l : list Transaction) (m : gmap Hash Z) h :
  (h ∈ HashOfTx <$> l /\ foldl (fun m tx => delete (HashOfTx tx) m) m l !! h = None) \/
  (h ∉ HashOfTx <$> l /\ foldl (fun m tx => delete (HashOfTx tx) m) m l !! h = m !! h).
Proof.
  revert m. induction l as [|tx l IH]; intros m; [right; split; [apply not_elem_of_nil|done]|]. cbn [foldl fmap list_fmap].
  destruct (IH (delete (HashOfTx tx) m)) as [[Hin Hr]|[Hno Hr]]; [left; split; [by right|done]|].
  destruct (decide (HashOfTx tx = h)) as [<-|Hne].
  - left. split; [by left|]. rewrite Hr. by rewrite lookup_delete_eq.
  - right. split; [rewrite not_elem_of_cons; split; [congruence|done]|]. by rewrite Hr, lookup_delete_ne.
Qed.

Lemma in_bind (l : list Block) tx : tx ∈ (l ≫= bTransactions) <-> exists c, c ∈ l /\ tx ∈ bTransactions c.
Proof. rewrite list_elem_of_bind. split; intros (c & ? & ?); eauto. Qed.

Lemma reorganised_lookups v b c lo ln above : core v -> stored (v_db v) b -> branching v b c lo ln above ->
  lookups_ok v -> distinct (v_db v) (v_head v) -> distinct (v_db v) b ->
  lookups_ok (headOf b (reorgView createAddress v lo (rev (drop 1 ln)) above)).
Proof.
  intros Hk Hb Hbr [Hfw Hbw] Hdo Hdn. set (w := reorgView _ _ _ _ _). set (added := rev (drop 1 ln)) in *.
  pose proof (k_store U genesis v Hk) as Hd. pose proof (br_new _ _ _ _ _ _ Hbr) as Hln. pose proof (br_old _ _ _ _ _ _ Hbr) as Hlo.
  assert (Hbl : same_blocks (v_db v) (v_db (headOf b w))) by apply (after_same createAddress v b lo ln above).
  assert (Hadd : forall x, x ∈ added -> ancestor (v_db v) b x) by (intros x Hx; by apply (added_ancestor U genesis v b Hk Hb c ln x Hln)).
  set (gone := TxDifference (lo ≫= bTransactions) (added ≫= bTransactions)).
  assert (El : txLookups (v_db w) = foldl (fun m tx => delete (HashOfTx tx) m) (lookupsAfter added (txLookups (v_db v))) gone).
  { unfold w, reorgView. cbn [v_db withEvents withDb]. by rewrite deletes_lookups, adopted_lookups. }
  assert (Hgone : forall h, h ∈ HashOfTx <$> gone <-> (exists x tx, x ∈ lo /\ tx ∈ bTransactions x /\ HashOfTx tx = h) /\
    forall x tx, x ∈ added -> tx ∈ bTransactions x -> HashOfTx tx <> h).
  { intros h. rewrite list_elem_of_fmap. unfold gone. split.
    - intros (tx & -> & [Hx Hno]%TxDifference_elem). apply in_bind in Hx as (x & Hx & Ht). split; [eauto|].
      intros y ty Hy Hty He. apply Hno. rewrite <- He. apply list_elem_of_fmap. exists ty. split; [done|]. apply in_bind. eauto.
    - intros [(x & tx & Hx & Ht & <-) Hno]. exists tx. split; [done|]. apply TxDifference_elem. split; [apply in_bind; eauto|].
      intros (ty & He & Hy)%list_elem_of_fmap. apply in_bind in Hy as (y & Hy & Hty). by eapply Hno. }
  assert (Hlook : forall h, (exists tx, tx ∈ bTransactions b /\ HashOfTx tx = h /\ txLookups (v_db (headOf b w)) !! h = Some (numberOf b)) \/
    ((forall tx, tx ∈ bTransactions b -> HashOfTx tx <> h) /\ txLookups (v_db (headOf b w)) !! h = txLookups (v_db w) !! h)).
  { intros h. rewrite headOf_lookups. destruct (lookupsAfter_spec [b] (txLookups (v_db w)) h) as [(x & tx & ->%list_elem_of_singleton & Ht & He & Hr)|[Hno Hr]].
    - left. eauto.
    - right. split; [|done]. intros tx Ht. apply (Hno b tx); [by left|done]. }
  split.
  - intros x tx Hx%(ancestor_same_blocks (v_db v)) Ht; [|done]. simpl v_head in Hx.
    destruct (Hlook (HashOfTx tx)) as [(ty & Hty & He & Hr)|[Hno Hr]].
    { rewrite Hr. f_equal. by rewrite (Hdn b x ty tx (ancestor_refl _ _) Hx Hty Ht He). }
    rewrite Hr, El. destruct (new_ancestor U genesis v b Hk Hb c ln x Hln Hx) as [->|Hcase]; [by destruct (Hno tx Ht)|].
    destruct (deletes_spec gone (lookupsAfter added (txLookups (v_db v))) (HashOfTx tx)) as [[Hg _]|[_ ->]].
    { apply Hgone in Hg as [(y & ty & Hy & Hty & He) Hna]. exfalso. destruct Hcase as [Hin|Hcx]; [by apply (Hna x tx)|].
      assert (Hax : ancestor (v_db v) (v_head v) x) by (eapply ancestor_trans; [by exists lo|done]).
      assert (Hay : ancestor (v_db v) (v_head v) y) by (apply (ancestor_path U genesis _ Hd _ _ _ _ Hlo); by left).
      pose proof (Hdo y x ty tx Hay Hax Hty Ht He). subst y.
      pose proof (br_apart _ _ _ _ _ _ Hbr) as Hap. rewrite list.Forall_forall in Hap. by apply (Hap x Hy). }
    destruct (lookupsAfter_spec added (txLookups (v_db v)) (HashOfTx tx)) as [(y & ty & Hy & Hty & He & ->)|[Hna ->]].
    { f_equal. by rewrite (Hdn y x ty tx (Hadd y Hy) Hx Hty Ht He). }
    destruct Hcase as [Hin|Hcx]; [by destruct (Hna x tx Hin Ht)|]. apply Hfw; [|done]. eapply ancestor_trans; [by exists lo|done].
  - intros h n Hn. simpl v_head. assert (Hanc : forall x, ancestor (v_db v) b x -> ancestor (v_db (headOf b w)) b x) by (intros x; by apply (ancestor_same_blocks (v_db v))).
    destruct (Hlook h) as [(ty & Hty & He & Hr)|[Hno Hr]]; rewrite Hr in Hn.
    { simplify_eq. exists b, ty. split; [apply ancestor_refl|done]. }
    rewrite El in Hn. destruct (deletes_spec gone (lookupsAfter added (txLookups (v_db v))) h) as [[_ Hg]|[Hng Hg]]; rewrite Hg in Hn; [done|].
    destruct (lookupsAfter_spec added (txLookups (v_db v)) h) as [(y & ty & Hy & Hty & He & Hl)|[Hna Hl]]; rewrite Hl in Hn.
    { simplify_eq. exists y, ty. split; [by apply Hanc, Hadd|done]. }
    destruct (Hbw h n Hn) as (x & tx & Hx & Hxn & Ht & He). exists x, tx. split; [|done]. apply Hanc.
    apply (ancestor_path U genesis _ Hd _ _ _ _ Hlo) in Hx as [Hin|Hcx]; [|eapply ancestor_trans; [by exists ln|done]].
    exfalso. apply Hng, Hgone. split; [eauto|]. intros y ty Hy Hty. by apply (Hna y ty).
Qed.

Lemma extended_lookups v b : core v -> stored (v_db v) b -> parentHashOf b = hashOf (v_head v) ->
  lookups_ok v -> distinct (v_db v) b -> lookups_ok (headOf b v).
Proof.
  intros Hk Hb Hh [Hfw Hbw] Hdn. pose proof (k_store U genesis v Hk) as Hd. pose proof (extends_parent U genesis v b Hk Hb Hh) as Hp.
  destruct (headOf_same b v) as [Hs _]. assert (Hpath : path (v_db v) b (v_head v) [b]) by (econstructor; [done|constructor]).
  assert (Hcase : forall x, ancestor (v_db v) b x <-> x = b \/ ancestor (v_db v) (v_head v) x).
  { intros x. rewrite (ancestor_path U genesis _ Hd _ _ _ _ Hpath), list_elem_of_singleton. done. }
  split.
  - intros x tx Hx%(ancestor_same_blocks (v_db v)) Ht; [|done]. simpl v_head in Hx. rewrite headOf_lookups.
    destruct (lookupsAfter_spec [b] (txLookups (v_db v)) (HashOfTx tx)) as [(y & ty & ->%list_elem_of_singleton & Hty & He & ->)|[Hna ->]].
    + f_equal. by rewrite (Hdn b x ty tx (ancestor_refl _ _) Hx Hty Ht He).
    + apply Hcase in Hx as [->|Hx]; [by destruct (Hna b tx ltac:(by left) Ht)|]. by apply Hfw.
  - intros h n. rewrite headOf_lookups. simpl v_head. intros Hn.
    destruct (lookupsAfter_spec [b] (txLookups (v_db v)) h) as [(y & ty & ->%list_elem_of_singleton & Hty & He & Hl)|[Hna Hl]]; rewrite Hl in Hn.
    + simplify_eq. exists b, ty. split; [apply ancestor_refl|done].
    + destruct (Hbw h n Hn) as (x & tx & Hx & Hxn & Ht & He). exists x, tx. split; [|done]. apply (ancestor_same_blocks (v_db v)); [done|]. apply Hcase. by right.
Qed.

Lemma switched_lookups v b v' : core v -> stored (v_db v) b -> switched v b v' -> lookups_ok v -> distinct (v_db v) (v_head v) -> distinct (v_db v) b -> lookups_ok v'.
Proof. intros Hk Hb [He|c lo ln above Hne Hbr] Hl Ho Hn; [by apply extended_lookups|by eapply reorganised_lookups]. Qed.
End Heads.
