(* ===== verification/ChainWrite.v ===== *)
(** * Writing a processed block, importing a batch

    A new block leaves the rest of the store as it was; the chain stays in
    order, and its head is the preferred block. *)

From S2P Require Import StateDB StateIface Prelude Hoare Params Types Misc Snapshot Engine Contracts Finalize TxQueue ChainDB HeaderChain BlockChain ChainImport ChainFacts ChainReorg ChainSwitch.
Import Headers Chain.

(** The calls the chain makes end; they may refuse. *)
Class ChainWorldLaws (X T : Type) `{ChainWorld X T} : Prop := {
  stateNew_ends : forall root x, fst (stateNew root x) <> Panic;
  process_ends : forall reader b t x, fst (processBlock reader b t x) <> Panic;
  validate_ends : forall b rs gas t x, fst (validateState b rs gas t x) <> Panic;
  commit_ends : forall b t x, fst (asyncCommit b t x) <> Panic;
  (* one result per header; that a block is known or its parent pruned is for
     the validator to say *)
  verify_ends : forall reader hs seals x, exists results x', verifyHeaders reader hs seals x = (Ok results, x') /\
    length results = length hs /\ Some ErrKnownBlock ∉ results /\ Some ErrPrunedAncestor ∉ results;
  (* a first header without error has its parent in the chain *)
  verify_linked : forall reader h hs seals x results x', verifyHeaders reader (h :: hs) seals x = (Ok (None :: results), x') -> NumberU64 h <> 0 ->
    exists p, Types.GetHeader reader (ParentHash h) (NumberU64 h -w 1) = Some p /\ NumberU64 h = NumberU64 p + 1;
  (* headers are verified without touching the states *)
  verify_keeps : forall reader hs seals x root, HasState root x = true -> HasState root (snd (verifyHeaders reader hs seals x)) = true;
}.

Lemma triple_attempt {L X A} (P : BlockChain L X -> Prop) (m : ST (BlockChain L X) A) Q E : triple P m Q E ->
  always P (ChainImporter.attempt m) (fun r s => match r with inl a => Q a s | inr e => E e s end).
Proof. intros Hm s Hs. specialize (Hm s Hs). unfold ChainImporter.attempt. by destruct (m s) as [[a|e|] s']. Qed.
Lemma triple_errorOf {L X A} (P : BlockChain L X -> Prop) (m : ST (BlockChain L X) A) Q E : triple P m Q E ->
  always P (ChainImporter.errorOf m) (fun r s => match r with None => exists a, Q a s | Some e => E e s end).
Proof.
  intros Hm. unfold ChainImporter.errorOf. eapply triple_bind; [by apply triple_attempt|]. intros [a|e]; intros s Hs; simpl; eauto.
Qed.

Section Write.
Context `{Crypto} `{TxSigning} `{Lru L} `{!LruLaws L} `{ChainWorld X T} `{!ChainWorldLaws X T} (U : Block -> Prop) (genesis : Block) `{!Universe U genesis}.
Variables (createAddress : Address -> Z -> Address) (chainConfig : ChainConfig) (shouldPreserve : option (Block -> bool)).
#[local] Abbreviation BC := (BlockChain L X).
#[local] Abbreviation V := (View L X).
Implicit Types (s : BC) (v : V) (d : ChainDB) (b c p : Block).
#[local] Abbreviation core := (chain_core U genesis).
#[local] Abbreviation full := (chain_full U genesis).
#[local] Abbreviation store_ok := (store_ok U genesis).

(** ** The store *)

Definition storeBatch b td : Batch := [WriteTd (hashOf b) (numberOf b) td; WriteBlock b].
(** The parent of a block that may be stored. *)
Definition fits d b p : Prop := U b /\ stored d p /\ hashOf p = parentHashOf b /\ numberOf b = numberOf p + 1.

Section Store.
Context d b p tp (Hd : store_ok d) (Hf : fits d b p) (Hp : tdOf d p = Some tp).
Local Abbreviation td := (difficultyOf (bHeader b) + tp).
Local Abbreviation d' := (commit (storeBatch b td) d).

Lemma same_key x : stored d x -> key x = key b -> x = b.
Proof. intros Hx Hk. apply (stored_is U genesis d Hd); [done|apply Hf|]. unfold key in Hk. congruence. Qed.
Lemma stored_after x : stored d' x <-> x = b \/ stored d x.
Proof.
  unfold stored. simpl. unfold WriteHeader, WriteHeaderNumber, WriteBody, WriteTd. simpl. change (NumberU64 (bHeader b), HeaderHash (bHeader b)) with (key b).
  change (numberOf b, hashOf b) with (key b). destruct (decide (key x = key b)) as [Hk|Hk].
  - rewrite Hk, !lookup_insert_eq. split.
    + intros [Eh Eb]. left. rewrite <- (blockOf_body x), <- (blockOf_body b). congruence.
    + intros [->|Hx]; [done|]. rewrite <- Hk in Hx. by rewrite (same_key x Hx Hk).
  - rewrite !lookup_insert_ne by congruence. split; [by right|]. intros [->|?]; [done|done].
Qed.
Lemma stored_new : stored d' b.
Proof. apply stored_after. by left. Qed.
Lemma td_after x : tdOf d' x = if decide (key x = key b) then Some td else tdOf d x.
Proof. unfold tdOf. simpl. unfold WriteTd. simpl. destruct (decide (key x = key b)) as [->|Hk]; [apply lookup_insert_eq|by apply lookup_insert_ne]. Qed.
Lemma td_new : tdOf d' b = Some td.
Proof. rewrite td_after. by rewrite decide_True. Qed.

Lemma store_grows : grows d d'.
Proof.
  intros x Hx. split; [apply stored_after; auto|]. rewrite td_after. case_decide as Hk; [|done].
  rewrite (same_key x Hx Hk). destruct Hf as (_ & Hps & Hh & Hn). symmetry. apply (td_parent U genesis d Hd b p); [by rewrite <- (same_key x Hx Hk)|done|done].
Qed.

Lemma store_ok_after : store_ok d'.
Proof.
  pose proof store_grows as Hg. destruct Hf as (HUb & Hps & Hh & Hn).
  assert (Hold : forall k, (exists x, U x /\ stored d x /\ key x = k) -> exists x, U x /\ stored d' x /\ key x = k).
  { intros k (x & HU & Hx & Hk). exists x. split; [done|]. split; [by apply Hg|done]. }
  assert (Hnew : exists x, U x /\ stored d' x /\ key x = key b) by (exists b; split; [done|split; [apply stored_new|done]]).
  constructor.
  - intros k x. simpl. unfold WriteHeader. simpl. rewrite lookup_insert. case_decide as Hk; [intros _; by subst|]. intros Hx. by apply Hold, (s_header U genesis d Hd k x).
  - intros k x. simpl. rewrite lookup_insert. case_decide as Hk; [intros _; by subst|]. intros Hx. by apply Hold, (s_body U genesis d Hd k x).
  - intros k x. simpl. rewrite lookup_insert. case_decide as Hk; [intros _; by subst|]. intros Hx. by apply Hold, (s_td U genesis d Hd k x).
  - intros h n. simpl. unfold WriteHeader. simpl. rewrite lookup_insert. case_decide as Hk; [intros ?; simplify_eq; by subst|]. intros Hx. by apply Hold, (s_number U genesis d Hd h n).
  - apply Hg, (s_genesis U genesis d Hd).
  - intros x [->|Hx]%stored_after.
    + split; [eexists; apply td_new|]. simpl. apply lookup_insert_eq.
    + destruct (Hg x Hx) as [_ ->]. destruct (s_total U genesis d Hd x Hx) as [Ht Hnum]. split; [done|]. simpl. unfold WriteHeader. simpl.
      change (HeaderHash (bHeader b)) with (hashOf b). rewrite lookup_insert. case_decide as Hk; [|done].
      by rewrite (stored_is U genesis d Hd x b Hx HUb (eq_sym Hk)).
  - intros x [->|Hx]%stored_after Hxg.
    + exists p, tp. destruct (Hg p Hps) as [Hps' ->]. split; [done|]. split; [done|apply td_new].
    + destruct (s_parent U genesis d Hd x Hx Hxg) as (q & tq & (Hq & Hqh & Hqn) & Htq & Htx). exists q, tq.
      destruct (Hg q Hq) as [Hq' ->]. destruct (Hg x Hx) as [_ ->]. done.
Qed.
End Store.

(** ** More is stored, nothing else *)
Record only_store d d' : Prop := {
  os_ok : store_ok d';
  os_grows : grows d d';
  os_hashes : headerHashes d' = headerHashes d;
  os_lookups : txLookups d' = txLookups d;
  os_heads : headBlockHash d' = headBlockHash d /\ headHeaderHash d' = headHeaderHash d /\ headFastBlockHash d' = headFastBlockHash d;
}.
Lemma only_store_refl d : store_ok d -> only_store d d.
Proof. intros Hd. by constructor. Qed.

Section Grown.
Context d d' (Hd : store_ok d) (Ho : only_store d d').

Lemma mk_grown n : mk d' n = mk d n.
Proof. unfold mk, ReadCanonicalHash. by rewrite (os_hashes _ _ Ho). Qed.
Lemma parent_grown x p : stored d x -> x <> genesis -> parent d' x p <-> parent d x p.
Proof.
  intros Hx Hg. destruct (stored_parent U genesis d Hd x Hx Hg) as (q & Hq). pose proof Hq as (Hqs & Hqh & Hqn).
  assert (Hq' : parent d' x q) by (split; [by apply (os_grows _ _ Ho)|done]).
  split; intros Hp; [by rewrite (parent_inj U genesis d' (os_ok _ _ Ho) x p q Hp Hq')|by rewrite (parent_inj U genesis d Hd x p q Hp Hq)].
Qed.
Lemma path_grown x y l : stored d x -> path d' x y l <-> path d x y l.
Proof.
  intros Hx. split.
  - intros Hl. induction Hl as [x|x p y l Hp Hl IH]; [constructor|]. pose proof (parent_pos U genesis d' x p Hp) as Hg.
    apply (parent_grown x p Hx Hg) in Hp. econstructor; [done|]. apply IH, Hp.
  - intros Hl. induction Hl as [x|x p y l Hp Hl IH]; [constructor|]. pose proof (parent_pos U genesis d x p Hp) as Hg.
    econstructor; [by apply parent_grown|]. apply IH, Hp.
Qed.
Lemma ancestor_grown x y : stored d x -> ancestor d' x y <-> ancestor d x y.
Proof. intros Hx. split; intros [l Hl]; exists l; by apply path_grown. Qed.
Lemma distinct_grown x : stored d x -> distinct d' x <-> distinct d x.
Proof. intros Hx. unfold distinct. split; intros Hdx c1 c2 t1 t2 H1c H2c; apply Hdx; by apply ancestor_grown. Qed.
End Grown.

(** ** What the chain is up to coins, interrupts, states and notices *)

Definition rim v v' : Prop := only_store (v_db v) (v_db v') /\ v_head v' = v_head v /\ v_currentHeader v' = v_currentHeader v /\
  v_currentHash v' = v_currentHash v /\ v_fast v' = v_fast v /\ (forall h c, cache_mem (v_future v') h c -> cache_mem (v_future v) h c \/ U c /\ 0 < numberOf c).

Lemma rim_core v v' : core v -> rim v v' -> core v'.
Proof.
  intros Hk (Ho & Hh & _ & _ & _ & Hf). pose proof (k_store U genesis v Hk) as Hd. pose proof (k_head U genesis v Hk) as Hhs. constructor; rewrite ?Hh.
  - apply Ho.
  - by apply (os_grows _ _ Ho).
  - intros c Hc. rewrite (mk_grown _ _ Ho). apply (k_below U genesis v Hk). by apply (ancestor_grown (v_db v) (v_db v')).
  - intros n. rewrite (mk_grown _ _ Ho). intros Hn Hnz. destruct (k_above U genesis v Hk n Hn Hnz) as (c & Hc & Hkc). exists c. split; [by apply (os_grows _ _ Ho)|done].
  - intros n. rewrite !(mk_grown _ _ Ho). apply (k_gap U genesis v Hk).
  - intros h c Hm. destruct (Hf h c Hm) as [Hm'|?]; [by apply (k_future U genesis v Hk h)|done].
Qed.
Lemma rim_full v v' : full v -> rim v v' -> full v'.
Proof.
  intros Hfull Hr. pose proof (f_core U genesis v Hfull) as Hk. pose proof (rim_core v v' Hk Hr) as Hk'. destruct Hr as (Ho & Hh & E1 & E2 & E3 & _).
  pose proof (k_store U genesis v Hk) as Hd. pose proof (k_head U genesis v Hk) as Hhs. destruct (os_heads _ _ Ho) as (E4 & E5 & E6).
  constructor; rewrite ?Hh, ?E1, ?E2, ?E3, ?E4, ?E5, ?E6; try apply Hfull; [done|].
  intros c tc th Hn Hc. rewrite (mk_grown _ _ Ho). intros Hm. destruct (os_grows _ _ Ho _ Hhs) as [_ ->].
  assert (Hc0 : stored (v_db v) c).
  { destruct (k_above U genesis v Hk (numberOf c) Hn) as (x & Hx & Hkx); [rewrite Hm; apply (u_hash (U:=U) (genesis:=genesis)), (stored_U U genesis _ (os_ok _ _ Ho)); done|].
    replace c with x; [done|]. apply (stored_inj U genesis _ (os_ok _ _ Ho)); [by apply (os_grows _ _ Ho)|done|]. unfold key in Hkx. congruence. }
  destruct (os_grows _ _ Ho _ Hc0) as [_ ->]. by apply (f_stale U genesis v Hfull).
Qed.
Lemma rim_lookups v v' : core v -> rim v v' -> lookups_ok v -> lookups_ok v'.
Proof.
  intros Hk (Ho & Hh & _) [Hfw Hbw]. pose proof (k_store U genesis v Hk) as Hd. pose proof (k_head U genesis v Hk) as Hhs.
  unfold lookups_ok. rewrite Hh, (os_lookups _ _ Ho). split.
  - intros c tx Hc%(ancestor_grown (v_db v)); try done. by apply Hfw.
  - intros h n Hn. destruct (Hbw h n Hn) as (c & tx & Hc & ?). exists c, tx. split; [by apply (ancestor_grown (v_db v) (v_db v'))|done].
Qed.

Lemma grows_trans d1 d2 d3 : grows d1 d2 -> grows d2 d3 -> grows d1 d3.
Proof. intros G1 G2 b Hb. destruct (G1 b Hb) as [Hb' E1], (G2 b (proj1 (G1 b Hb))) as [Hb'' E2]. split; [done|congruence]. Qed.
Lemma only_store_trans d1 d2 d3 : only_store d1 d2 -> only_store d2 d3 -> only_store d1 d3.
Proof.
  intros [O1 G1 A1 L1 (?&?&?)] [O2 G2 A2 L2 (?&?&?)]. constructor; [done|by eapply grows_trans|congruence|congruence|]. repeat split; congruence.
Qed.
Lemma rim_trans v1 v2 v3 : rim v1 v2 -> rim v2 v3 -> rim v1 v3.
Proof.
  intros (O1 & ? & ? & ? & ? & F1) (O2 & ? & ? & ? & ? & F2). split; [by eapply only_store_trans|]. do 4 (split; [congruence|]).
  intros h c Hc. destruct (F2 h c Hc) as [Hc'|]; [by apply F1|by right].
Qed.
Lemma rim_refl v : store_ok (v_db v) -> rim v v.
Proof. intros Hd. split; [by apply only_store_refl|]. do 4 (split; [done|]). by left. Qed.

Definition near v s : Prop := exists v', rim v v' /\ at_view v' s.

Lemma near_intro {A} v (m : ST BC A) Q E : (forall v', rim v v' -> triple (at_view v') m Q E) -> triple (near v) m Q E.
Proof. intros Hm s (v' & Hr & Hs). exact (Hm v' Hr s Hs). Qed.
Lemma near_trans v v' s : rim v v' -> near v' s -> near v s.
Proof. intros Hr (v'' & Hr' & Hs). exists v''. split; [by eapply rim_trans|done]. Qed.
Lemma near_here v s : store_ok (v_db v) -> at_view v s -> near v s.
Proof. intros Hd Hs. exists v. split; [by apply rim_refl|done]. Qed.
Lemma near_reads {A} v (m : ST BC A) (phi : ChainDB -> A -> Prop) : (forall v', rim v v' -> always (at_view v') m (fun r s => at_view v' s /\ phi (v_db v') r)) ->
  always (near v) m (fun r s => near v s /\ exists d, only_store (v_db v) d /\ phi d r).
Proof.
  intros Hm. apply near_intro. intros v' Hr. eapply triple_conseq; [apply (Hm v' Hr)|done| |done]. intros r s [Hs Hphi].
  split; [by exists v'|]. exists (v_db v'). split; [apply Hr|done].
Qed.

(** Steps that keep the caches and change nothing the rim knows. *)
Lemma near_step v s s' : near v s -> db s' = db s -> currentHeader (hc s') = currentHeader (hc s) -> currentHeaderHash (hc s') = currentHeaderHash (hc s) ->
  currentBlock s' = currentBlock s -> currentFastBlock s' = currentFastBlock s ->
  (forall h c, cache_mem (futureBlocks s') h c -> cache_mem (futureBlocks s) h c \/ U c /\ 0 < numberOf c) ->
  blockCache s' = blockCache s -> headerCache (hc s') = headerCache (hc s) -> tdCache (hc s') = tdCache (hc s) -> numberCache (hc s') = numberCache (hc s) -> near v s'.
Proof.
  intros (v' & Hr & Hv & Hc) E1 E2 E3 E4 E5 Ef C1 C2 C3 C4. assert (Hr' : rim v' (view s')).
  { rewrite <- Hv. split; [cbn [v_db view]; rewrite E1; apply only_store_refl; rewrite <- Hv in Hr; apply Hr|]. done. }
  exists (view s'). split; [by eapply rim_trans|]. split; [done|]. assert (Ed : v_db (view s') = v_db v') by (rewrite <- Hv; exact E1).
  rewrite Ed. by eapply caches_view.
Qed.

Lemma near_stopped v : always (near v) insertStopped (fun _ => near v).
Proof.
  intros s Hs. unfold insertStopped, on_hc, interrupted, mbind, st_bind, st_get. destruct (stopAfter (hc s)) as [[|n]|]; simpl; (eapply near_step; [exact Hs|..]; try done; intros; by left).
Qed.
Lemma near_flip v : always (near v) (on_hc flip) (fun _ => near v).
Proof.
  intros s Hs. unfold on_hc, flip, mbind, st_bind, st_get. destruct (coins (hc s)) as [|c l]; simpl; (eapply near_step; [exact Hs|..]; try done; intros; by left).
Qed.
Lemma near_world {A} v (m : ST X A) : (forall x, fst (m x) <> Panic) -> triple (near v) (on_world m) (fun _ => near v) (fun _ => near v).
Proof.
  intros Hm s Hs. unfold on_world. specialize (Hm (world s)). destruct (m (world s)) as [[a|e|] x]; simpl in *; [| |done]; (eapply near_step; [exact Hs|..]; try done; intros; by left).
Qed.
Lemma near_send v e : always (near v) (send e) (fun _ => near v).
Proof. intros s Hs. simpl. eapply near_step; [exact Hs|..]; try done. intros; by left. Qed.
Lemma near_forget v h : always (near v) (st_modify (fun s => set_futureBlocks (lru_remove h (futureBlocks s)) s)) (fun _ => near v).
Proof. intros s Hs. simpl. eapply near_step; [exact Hs|..]; try done. intros k c Hm. left. exact (lru_remove_mem _ h _ k c Hm). Qed.
Lemma near_bind {A B} v (m : ST BC A) (k : A -> ST BC B) Q E : always (near v) m (fun _ => near v) -> (forall a, triple (near v) (k a) Q E) -> triple (near v) (m ≫= k) Q E.
Proof. intros Hm Hk. eapply triple_bind; [|exact Hk]. eapply triple_conseq; [exact Hm|done|done|done]. Qed.
Lemma near_learn {A B} v (m : ST BC A) (k : A -> ST BC B) (phi : A -> Prop) Q E : always (near v) m (fun r s => near v s /\ phi r) ->
  (forall r, phi r -> triple (near v) (k r) Q E) -> triple (near v) (m ≫= k) Q E.
Proof.
  intros Hm Hk. eapply triple_bind; [eapply triple_conseq with (E' := fun _ _ => False); [exact Hm|done|intros r s HQ; exact HQ|done]|].
  intros r s [Hs Hr]. by apply (Hk r Hr).
Qed.

(** ** The choice *)
Lemma near_prefers v b ext local : always (near v) (prefersBlock shouldPreserve b ext local) (fun r s => near v s /\
  (if (r : bool) then local < ext \/ local = ext /\ numberOf b <= numberOf (v_head v) else ext < local \/ ext = local /\ numberOf (v_head v) <= numberOf b)).
Proof.
  unfold prefersBlock. apply triple_look. intros s (v' & Hr & Hv & _). assert (Eh : currentBlock s = v_head v) by (destruct Hr as (_ & <- & _); by rewrite <- Hv).
  rewrite Eh. destruct (Z.ltb_spec local ext) as [Hlt|Hge]; [apply triple_value; intros; split; [done|by left]|].
  destruct (Z.eqb_spec ext local) as [He|Hne]; [|apply triple_value; intros; split; [done|left; lia]].
  destruct (Z.ltb_spec (numberOf b) (numberOf (v_head v))) as [Hl|Hg]; [apply triple_value; intros; split; [done|right; lia]|].
  destruct (Z.eqb_spec (numberOf b) (numberOf (v_head v))) as [Hn|Hnn]; [|apply triple_value; intros; split; [done|right; lia]].
  case_if; [apply triple_value; intros; split; [done|right; lia]|]. case_if; [apply triple_value; intros; split; [done|right; lia]|].
  eapply triple_conseq; [apply near_flip|done| |done]. intros [] s' Hs'; (split; [done|right; lia]).
Qed.

(** ** A processed block is written

    For any invariant that writes and preferred heads keep: [core] and [full]. *)
Section Invariant.
Variable inv : V -> Prop.
Hypothesis inv_core : forall v, inv v -> core v.
Hypothesis inv_rim : forall v v', inv v -> rim v v' -> inv v'.
Hypothesis inv_switched : forall v b w, inv v -> stored (v_db v) b -> preferred v b -> switched createAddress v b w -> inv w.

Definition placed v b (st : WriteStatus) (w : V) : Prop :=
  inv w /\ grows (v_db v) (v_db w) /\ stored (v_db w) b /\
  (exists tb th, tdOf (v_db w) b = Some tb /\ tdOf (v_db w) (v_head v) = Some th /\
    match st with
    | CanonStatTy => v_head w = b /\ (th < tb \/ th = tb /\ numberOf b <= numberOf (v_head v))
    | SideStatTy => v_head w = v_head v /\ (tb < th \/ tb = th /\ numberOf (v_head v) <= numberOf b)
    | NonStatTy => False
    end) /\
  (lookups_ok v -> distinct (v_db v) (v_head v) -> distinct (v_db w) b -> lookups_ok w).

(** The parts of [writeBlockWithState]. *)
Lemma at_storeBlock v b p tp rest : store_ok (v_db v) -> fits (v_db v) b p -> tdOf (v_db v) p = Some tp ->
  (forall d, same_blocks d (commit rest d) /\ headerHashes (commit rest d) = headerHashes d /\ txLookups (commit rest d) = txLookups d /\
    headBlockHash (commit rest d) = headBlockHash d /\ headHeaderHash (commit rest d) = headHeaderHash d /\ headFastBlockHash (commit rest d) = headFastBlockHash d) ->
  always (at_view v) (on_hc (writeBatch (storeBatch b (difficultyOf (bHeader b) + tp) ++ rest)))
    (fun _ s => exists w, rim v w /\ stored (v_db w) b /\ tdOf (v_db w) b = Some (difficultyOf (bHeader b) + tp) /\ at_view w s).
Proof.
  intros Hd Hf Htp Hrest. set (d1 := commit (storeBatch b (difficultyOf (bHeader b) + tp)) (v_db v)).
  destruct (Hrest d1) as (Hs & Eh & El & E1 & E2 & E3).
  assert (Hc : commit (storeBatch b (difficultyOf (bHeader b) + tp) ++ rest) (v_db v) = commit rest d1) by apply commit_app.
  assert (Hg : grows (v_db v) (commit rest d1)) by (eapply grows_trans; [by eapply store_grows|by apply grows_same]).
  eapply triple_conseq; [apply always_writeBatch; by rewrite Hc|done| |done]. intros [] s Hst. eexists. split; [|split; [|split; [|exact Hst]]].
  - split; [|by split; [|split; [|split; [|split; [|left]]]]]. cbn [v_db withDb]. rewrite Hc. constructor; [by eapply store_ok_same, store_ok_after|done|by rewrite Eh|by rewrite El|by rewrite E1, E2, E3].
  - cbn [v_db withDb]. rewrite Hc. apply (stored_same d1); [done|]. by eapply stored_new.
  - cbn [v_db withDb]. rewrite Hc, (tdOf_same d1) by done. apply td_new.
Qed.

Lemma near_switch v b : inv v -> stored (v_db v) b -> preferred v b ->
  always (near v) (writeKnownBlock createAddress b) (fun _ s => exists v' w, rim v v' /\ switched createAddress v' b w /\ near w s /\ inv w).
Proof.
  intros Hf Hb Hp. apply near_intro. intros v' Hr. pose proof (inv_rim v v' Hf Hr) as Hf'. pose proof (inv_core _ Hf') as Hk'.
  assert (Hb' : stored (v_db v') b) by (destruct Hr as [Ho _]; by apply (os_grows _ _ Ho)).
  eapply triple_conseq; [apply (always_writeKnownBlock U genesis createAddress v' b Hk' Hb')|done| |done]. intros [] s (w & Hsw & Hs). exists v', w.
  assert (Hp' : preferred v' b).
  { destruct Hr as (Ho & Hh & _), Hp as (tb & th & Htb & Hth & Hc). exists tb, th. rewrite Hh. destruct (os_grows _ _ Ho _ Hb) as [_ ->].
    by destruct (os_grows _ _ Ho _ (k_head _ _ _ (inv_core _ Hf))) as [_ ->]. }
  assert (Hw : inv w) by by eapply (inv_switched v' b). split; [done|]. split; [done|]. split; [|done]. apply near_here; [|done]. apply (k_store _ _ _ (inv_core _ Hw)).
Qed.

Lemma restBatch_same b (receipts : list Receipt) (m : gmap Hash (list byte)) d :
  let rest := [WriteReceipts (hashOf b) (numberOf b) receipts; WritePreimages m] in
  same_blocks d (commit rest d) /\ headerHashes (commit rest d) = headerHashes d /\ txLookups (commit rest d) = txLookups d /\
  headBlockHash (commit rest d) = headBlockHash d /\ headHeaderHash (commit rest d) = headHeaderHash d /\ headFastBlockHash (commit rest d) = headFastBlockHash d.
Proof. done. Qed.

(** After the write: the new head, or a block beside the chain. *)
Definition placeBlock b (logs : list LogEntry) (emitHeadEvent better : bool) : ST BC WriteStatus :=
  _ ← (if better then writeKnownBlock createAddress b else mret tt);
  _ ← st_modify (fun s => set_futureBlocks (lru_remove (hashOf b) (futureBlocks s)) s);
  if better then
    _ ← send (ChainEvent b logs);
    _ ← (match logs with [] => mret tt | _ => send (LogsEvent logs) end);
    _ ← (if emitHeadEvent then send (ChainHeadEvent b) else mret tt);
    mret CanonStatTy
  else
    _ ← send (ChainSideEvent b);
    mret SideStatTy.

Lemma near_value {A} v (a : A) (Q : A -> BC -> Prop) E : (forall s, near v s -> Q a s) -> triple (near v) (mret a) Q E.
Proof. apply triple_value. Qed.
Lemma near_optional v (b : bool) (m : ST BC unit) : always (near v) m (fun _ => near v) -> always (near v) (if b then m else mret tt) (fun _ => near v).
Proof. destruct b; [done|]. intros _. by apply near_value. Qed.
Lemma near_notify v b (logs : list LogEntry) emit (Q : WriteStatus -> BC -> Prop) : (forall s, near v s -> Q CanonStatTy s) ->
  always (near v) (_ ← send (ChainEvent b logs); _ ← (match logs with [] => mret tt | _ => send (LogsEvent logs) end);
    _ ← (if (emit : bool) then send (ChainHeadEvent b) else mret tt); mret CanonStatTy) Q.
Proof.
  intros HQ. apply near_bind; [apply near_send|]. intros _. apply near_bind; [destruct logs; [by apply near_value|apply near_send]|]. intros _.
  apply near_bind; [apply near_optional, near_send|]. intros _. by apply near_value.
Qed.

Lemma near_place v b logs emit (better : bool) tb th : inv v -> stored (v_db v) b -> tdOf (v_db v) b = Some tb -> tdOf (v_db v) (v_head v) = Some th ->
  (if better then th < tb \/ th = tb /\ numberOf b <= numberOf (v_head v) else tb < th \/ tb = th /\ numberOf (v_head v) <= numberOf b) ->
  always (near v) (placeBlock b logs emit better) (fun st s => exists w, near w s /\ placed v b st w).
Proof.
  intros Hf Hb Htb Hth Hc. unfold placeBlock. destruct better.
  - assert (Hp : preferred v b) by (exists tb, th; done).
    eapply triple_bind; [apply (near_switch v b Hf Hb Hp)|]. intros []. cbv beta. apply triple_exists. intros v'. apply triple_exists. intros w.
    apply triple_pure. intros Hr. apply triple_pure. intros Hsw.
    assert (Hkeep : inv w -> placed v b CanonStatTy w).
    { intros Hw. pose proof (rim_core v v' (inv_core _ Hf) Hr) as Hk'. pose proof Hr as (Ho & Hh & _).
      assert (Hb' : stored (v_db v') b) by (by apply (os_grows _ _ Ho)).
      destruct (switched_core U genesis createAddress v' b w Hk' Hb' Hsw) as (_ & Hhw & [Hsame _]).
      assert (Hg : grows (v_db v) (v_db w)) by (eapply grows_trans; [apply Ho|by apply grows_same]).
      split; [done|]. split; [done|]. split; [by apply Hg|]. split.
      - exists tb, th. destruct (Hg b Hb) as [_ ->], (Hg _ (k_head _ _ _ (inv_core _ Hf))) as [_ ->]. done.
      - intros Hl Hd Hdb. eapply (switched_lookups U genesis createAddress v' b w); try done.
        + apply (rim_lookups v); [apply (inv_core _ Hf)|done|done].
        + rewrite Hh. apply (distinct_grown (v_db v)); try done; [apply (k_store _ _ _ (inv_core _ Hf))|apply (k_head _ _ _ (inv_core _ Hf))].
        + intros c1 c2 t1 t2 Hc1 Hc2. apply Hdb; by apply (ancestor_same_blocks (v_db v')). }
    eapply triple_conseq with (P' := fun s => near w s /\ placed v b CanonStatTy w) (E' := fun _ _ => False); [|intros s [Hs Hw]; auto|intros st s HQ; exact HQ|done].
    intros s [Hs Hpl]. revert s Hs. apply (near_bind w); [apply near_forget|]. intros _. apply near_notify. intros s Hs. by exists w.
  - apply near_bind; [by apply near_value|]. intros _. apply near_bind; [apply near_forget|]. intros _.
    apply near_bind; [apply near_send|]. intros _. apply near_value. intros s Hs. exists v. split; [done|].
    split; [done|]. split; [apply grows_refl|]. split; [done|]. split; [by exists tb, th|done].
Qed.

Lemma near_parentTd v b p tp : stored (v_db v) p -> hashOf p = parentHashOf b -> numberOf b = numberOf p + 1 -> tdOf (v_db v) p = Some tp ->
  always (near v) (GetTd (parentHashOf b) (numberOf b -w 1)) (fun r s => near v s /\ r = Some tp).
Proof.
  intros Hp Hh Hn Htp. apply near_intro. intros v' Hr. pose proof Hr as [Ho _]. destruct (os_grows _ _ Ho p Hp) as [Hp' Htp'].
  eapply triple_conseq; [apply (always_parentTd U genesis v' (os_ok _ _ Ho) b p Hp' Hh Hn)|done| |done].
  intros r s [Hs ->]. split; [by exists v'|congruence].
Qed.
Lemma near_storedTd v b td : stored (v_db v) b -> tdOf (v_db v) b = Some td ->
  always (near v) (GetTd (hashOf b) (numberOf b)) (fun r s => near v s /\ r = Some td).
Proof.
  intros Hb Htd. apply near_intro. intros v' Hr. pose proof Hr as [Ho _]. destruct (os_grows _ _ Ho b Hb) as [Hb' Htd'].
  eapply triple_conseq; [apply (always_storedTd U genesis v' (os_ok _ _ Ho) b Hb')|done| |done].
  intros r s [Hs ->]. split; [by exists v'|congruence].
Qed.
Lemma near_look {A} v (f : BC -> ST BC A) Q E : (forall s, near v s -> currentBlock s = v_head v -> triple (near v) (f s) Q E) -> triple (near v) (st_get ≫= f) Q E.
Proof.
  intros Hf. apply triple_look. intros s Hs. apply Hf; [done|]. destruct Hs as (v' & (_ & Hh & _) & <- & _). exact Hh.
Qed.
(** A block is stored; the precondition moves to the larger database. *)
Lemma near_stores {A} v b p tp rest (k : unit -> ST BC A) Q E : inv v -> fits (v_db v) b p -> tdOf (v_db v) p = Some tp ->
  (forall d, same_blocks d (commit rest d) /\ headerHashes (commit rest d) = headerHashes d /\ txLookups (commit rest d) = txLookups d /\
    headBlockHash (commit rest d) = headBlockHash d /\ headHeaderHash (commit rest d) = headHeaderHash d /\ headFastBlockHash (commit rest d) = headFastBlockHash d) ->
  (forall w, rim v w -> inv w -> stored (v_db w) b -> tdOf (v_db w) b = Some (difficultyOf (bHeader b) + tp) -> triple (near w) (k tt) Q E) ->
  triple (near v) (on_hc (writeBatch (storeBatch b (difficultyOf (bHeader b) + tp) ++ rest)) ≫= k) Q E.
Proof.
  intros Hf Hb Htp Hrest Hk. apply near_intro. intros v' Hr. pose proof (inv_rim v v' Hf Hr) as Hf'. pose proof Hr as [Ho _].
  assert (Hb' : fits (v_db v') b p) by (destruct Hb as (HU & Hps & ?); split; [done|]; split; [by apply (os_grows _ _ Ho)|done]).
  assert (Htp' : tdOf (v_db v') p = Some tp) by (destruct Hb as (_ & Hps & _); by destruct (os_grows _ _ Ho p Hps) as [_ ->]).
  eapply triple_bind; [eapply triple_conseq with (E' := fun _ _ => False); [by apply (at_storeBlock v' b p tp rest (os_ok _ _ Ho) Hb' Htp' Hrest)|done|intros a s HQ; exact HQ|done]|].
  intros []. cbv beta. apply triple_exists. intros w. apply triple_pure. intros Hrw. apply triple_pure. intros Hst. apply triple_pure. intros Htd.
  assert (Hrvw : rim v w) by by eapply rim_trans. pose proof (inv_rim v w Hf Hrvw) as Hfw.
  intros s Hs. apply (Hk w Hrvw Hfw Hst Htd s). apply near_here; [apply (k_store _ _ _ (inv_core _ Hfw))|done].
Qed.

Lemma rim_placed v w b st x : rim v w -> inv v -> placed w b st x -> placed v b st x.
Proof.
  intros Hr Hfv (Hf & Hg & Hb & (tb & th & Htb & Hth & Hc) & Hl). pose proof Hr as (Ho & Hh & _). pose proof (inv_core _ Hfv) as Hk.
  rewrite Hh in Hth, Hc. split; [done|]. split; [by eapply grows_trans; [apply Ho|]|]. split; [done|]. split; [by exists tb, th|].
  intros Hlv Hdv Hdx. apply Hl; [by apply (rim_lookups v)| |done]. rewrite Hh.
  apply (distinct_grown (v_db v)); try done; [apply (k_store _ _ _ Hk)|apply (k_head _ _ _ Hk)].
Qed.

Lemma near_write v b p receipts logs statedb emit : inv v -> fits (v_db v) b p ->
  triple (near v) (writeBlockWithState createAddress shouldPreserve b receipts logs statedb emit)
    (fun st s => exists w, near w s /\ placed v b st w) (fun _ => near v).
Proof.
  intros Hf Hb. pose proof Hb as (HU & Hps & Hph & Hpn). pose proof (inv_core _ Hf) as Hk. pose proof (k_store _ _ _ Hk) as Hd. pose proof (k_head _ _ _ Hk) as Hhs.
  destruct (s_total U genesis _ Hd p Hps) as [[tp Htp] _]. destruct (s_total U genesis _ Hd _ Hhs) as [[th Hth] _].
  unfold writeBlockWithState. apply near_bind; [apply near_stopped|]. intros [|]; [by intros s Hs|].
  apply (near_learn v _ _ (fun r => r = Some tp)); [by apply (near_parentTd v b p)|]. intros r ->.
  apply near_look. intros s _ ->. apply (near_learn v _ _ (fun r => r = Some th)); [by apply near_storedTd|]. intros r ->. cbv zeta.
  apply (near_stores v b p tp [WriteReceipts (hashOf b) (numberOf b) receipts; WritePreimages (statePreimages statedb)]); [done|done|done|intros d; apply restBatch_same|].
  intros w Hr Hfw Hbw Htb. assert (Hthw : tdOf (v_db w) (v_head w) = Some th).
  { destruct Hr as (Ho & -> & _). by destruct (os_grows _ _ Ho _ Hhs) as [_ ->]. }
  eapply triple_bind; [eapply triple_conseq; [apply (near_world w), commit_ends|done|intros a s' Hs'; exact Hs'|intros e s' Hs'; by eapply near_trans]|].
  intros []. cbv beta iota. apply (near_learn w _ _ _ _ _ (near_prefers w b (difficultyOf (bHeader b) + tp) th)). intros better Hc.
  intros s' Hs'. pose proof (near_place w b logs emit better _ th Hfw Hbw Htb Hthw Hc s' Hs') as Hplace.
  change (match placeBlock b logs emit better s' with
    | (Ok a, s) => exists w0, near w0 s /\ placed v b a w0 | (Err e, s) => near v s | (Panic, _) => False end).
  destruct (placeBlock b logs emit better s') as [[st|e|] s'']; [|done|done]. destruct Hplace as (x & Hx & Hpl). exists x. split; [done|]. by eapply rim_placed.
Qed.

End Invariant.

(** A block whose parent is not there is refused. *)
Lemma near_orphan v b receipts logs statedb emit : core v -> (forall q, stored (v_db v) q -> hashOf q <> parentHashOf b) ->
  triple (at_view v) (writeBlockWithState createAddress shouldPreserve b receipts logs statedb emit)
    (fun _ _ => False) (fun e s => v_head v = currentBlock s /\ db s = v_db v /\ (e = ErrUnknownAncestor \/ e = errInsertionInterrupted)).
Proof.
  intros Hk Hno s [Hv Hc]. unfold writeBlockWithState.
  assert (Hst : exists r s0, insertStopped s = (Ok r, s0) /\ db s0 = v_db v /\ currentBlock s0 = v_head v /\ caches_ok (v_db v) s0).
  { unfold insertStopped, on_hc, interrupted, mbind, st_bind, st_get. rewrite <- Hv in *.
    destruct (stopAfter (hc s)) as [[|n]|]; simpl; do 2 eexists; (split; [done|]); (split; [done|]); (split; [done|]); (eapply caches_view; [..|exact Hc]; done). }
  destruct Hst as (r & s1 & Hr & Ed & Eh & Hc1). unfold mbind at 1, st_bind at 1. rewrite Hr. destruct r; [simpl; auto|].
  pose proof (always_GetTd U genesis (view s1)) as Ht. cbn [v_db view] in Ht. rewrite Ed in Ht.
  specialize (Ht (k_store _ _ _ Hk) (parentHashOf b) (numberOf b -w 1) s1 ltac:(split; [done|]; cbn [v_db view]; by rewrite Ed)).
  unfold mbind at 1, st_bind at 1. destruct (GetTd (parentHashOf b) (numberOf b -w 1) s1) as [[o|e|] s2]; [|done|done]. destruct Ht as [[Hv2 _] Hf].
  destruct o as [td|]; [destruct Hf as (q & Hq & Hqh & _); by destruct (Hno q Hq)|]. simpl.
  assert (E1 : currentBlock s2 = currentBlock s1) by exact (f_equal v_head Hv2). assert (E2 : db s2 = db s1) by exact (f_equal v_db Hv2).
  rewrite E1, E2. auto.
Qed.
End Write.
