(* ===== verification/ChainImported.v ===== *)
(** * An import keeps the chain in order

    [held d]: the chain is in order and holds at least the blocks of [d].  Every
    step of an import keeps it, whatever the batch and however it ends. *)

From S2P Require Import StateDB StateIface Prelude Hoare Params Types Misc Snapshot Engine Contracts Finalize TxQueue ChainDB HeaderChain BlockChain ChainImport ChainFacts ChainReorg ChainSwitch ChainWrite.
Import Headers Chain ChainImporter.

Section Imported.
Context `{Crypto} `{TxSigning} `{Lru L} `{!LruLaws L} `{ChainWorld X T} `{!ChainWorldLaws X T} {U : Block -> Prop} {genesis : Block} `{!Universe U genesis}.
#[local] Abbreviation BC := (BlockChain L X).
#[local] Abbreviation V := (View L X).
Implicit Types (s : BC) (v w : V) (d : ChainDB) (b c p q : Block).
#[local] Abbreviation core := (chain_core U genesis).
#[local] Abbreviation fits := (fits U).
#[local] Abbreviation near := (near U genesis).

Definition held d s : Prop := exists v, core v /\ grows d (v_db v) /\ at_view v s.
(** A fact about the blocks that are there now. *)
Definition held_with (phi : ChainDB -> Prop) d s : Prop := exists d', grows d d' /\ phi d' /\ held d' s.

Lemma held_less d d' s : grows d d' -> held d' s -> held d s.
Proof. intros Hg (v & Hk & Hg' & Hs). exists v. split; [done|]. split; [by eapply grows_trans|done]. Qed.
Lemma held_view v s : core v -> at_view v s -> held (v_db v) s.
Proof. intros Hk Hs. exists v. split; [done|]. split; [apply grows_refl|done]. Qed.
Lemma held_near v s : core v -> near v s -> held (v_db v) s.
Proof. intros Hk (v' & Hr & Hs). exists v'. split; [by eapply rim_core|]. split; [apply Hr|done]. Qed.
Lemma held_with_less phi d d' s : grows d d' -> held_with phi d' s -> held_with phi d s.
Proof. intros Hg (d'' & Hg' & Hphi & Hs). exists d''. split; [by eapply grows_trans|done]. Qed.
Lemma held_with_held phi d s : held_with phi d s -> held d s.
Proof. intros (d' & Hg & _ & Hs). by eapply held_less. Qed.

Lemma held_intro {A} d (m : ST BC A) Q E : (forall v, core v -> grows d (v_db v) -> triple (at_view v) m Q E) -> triple (held d) m Q E.
Proof. intros Hm s (v & Hk & Hg & Hs). exact (Hm v Hk Hg s Hs). Qed.
Lemma held_reads {A} d (m : ST BC A) (phi : ChainDB -> A -> Prop) :
  (forall v, core v -> grows d (v_db v) -> always (at_view v) m (fun r s => at_view v s /\ phi (v_db v) r)) ->
  always (held d) m (fun r => held_with (fun d' => phi d' r) d).
Proof.
  intros Hm. apply held_intro. intros v Hk Hg. eapply triple_conseq; [by apply Hm|done| |done].
  intros r s [Hs Hphi]. exists (v_db v). split; [done|]. split; [done|]. by apply held_view.
Qed.
(** Steps within the rim. *)
Lemma held_steps {A} d (m : ST BC A) E : (forall v, triple (near v) m (fun _ => near v) (fun e s => near v s /\ E e)) ->
  triple (held d) m (fun _ => held d) (fun e s => held d s /\ E e).
Proof.
  intros Hm. apply held_intro. intros v Hk Hg. eapply triple_conseq; [apply (Hm v)| | |].
  - intros s Hs. apply near_here; [apply (k_store _ _ _ Hk)|done].
  - intros a s Hs. eapply held_less; [exact Hg|by apply held_near].
  - intros e s [Hs HE]. split; [|done]. eapply held_less; [exact Hg|by apply held_near].
Qed.
Lemma held_always {A} d (m : ST BC A) : (forall v, always (near v) m (fun _ => near v)) -> always (held d) m (fun _ => held d).
Proof.
  intros Hm. eapply triple_conseq; [apply (held_steps d m (fun _ => False))|done|done|by intros e s [_ []]].
  intros v. eapply triple_conseq; [apply Hm|done|done|by intros e s []].
Qed.

Lemma held_learn {A B} d (m : ST BC A) (k : A -> ST BC B) (phi : ChainDB -> A -> Prop) Q E :
  triple (held d) m (fun r => held_with (fun d' => phi d' r) d) E ->
  (forall r d', grows d d' -> phi d' r -> triple (held d') (k r) Q E) -> triple (held d) (m ≫= k) Q E.
Proof. intros Hm Hk. eapply triple_bind; [exact Hm|]. intros r s (d' & Hg & Hphi & Hs). exact (Hk r d' Hg Hphi s Hs). Qed.
Lemma held_bind {A B} d (m : ST BC A) (k : A -> ST BC B) Q E :
  triple (held d) m (fun _ => held d) E -> (forall r, triple (held d) (k r) Q E) -> triple (held d) (m ≫= k) Q E.
Proof. apply triple_bind. Qed.
Lemma held_value {A} d (a : A) (Q : A -> BC -> Prop) E : (forall s, held d s -> Q a s) -> triple (held d) (mret a) Q E.
Proof. apply triple_value. Qed.
Lemma held_weaken {A} d d' (m : ST BC A) (Q : A -> BC -> Prop) E : grows d d' -> triple (held d') m Q E -> (forall a s, Q a s -> Q a s) -> triple (held d') m Q E.
Proof. done. Qed.

(** ** Single steps *)

Lemma held_stopped d : always (held d) insertStopped (fun _ => held d).
Proof. apply held_always. intros v. apply near_stopped. Qed.
Lemma held_send d e : always (held d) (send e) (fun _ => held d).
Proof. apply held_always. intros v. apply near_send. Qed.
Lemma held_forget d h : always (held d) (st_modify (fun s => set_futureBlocks (lru_remove h (futureBlocks s)) s)) (fun _ => held d).
Proof. apply held_always. intros v. apply near_forget. Qed.
Lemma held_world {A} d (m : ST X A) : (forall x, fst (m x) <> Panic) -> triple (held d) (on_world m) (fun _ => held d) (fun _ => held d).
Proof.
  intros Hm. eapply triple_conseq; [apply (held_steps d (on_world m) (fun _ => True))|done|done|by intros e s [? _]].
  intros v. eapply triple_conseq; [by apply near_world|done|done|by intros e s ?].
Qed.

(** Writes that leave the blocks alone. *)
Lemma held_rest d rest : (forall d0, same_blocks d0 (commit rest d0) /\ headerHashes (commit rest d0) = headerHashes d0) ->
  always (held d) (on_hc (writeBatch rest)) (fun _ => held d).
Proof.
  intros Hrest. apply held_intro. intros v Hk Hg. destruct (Hrest (v_db v)) as [Hs Hh].
  eapply triple_conseq; [apply (always_writeBatch v rest); by apply grows_same|done| |done]. intros [] s Hst.
  exists (withDb (commit rest) v). split; [|split; [eapply grows_trans; [exact Hg|by apply grows_same]|done]].
  destruct Hk as [K1 K2 K3 K4 K5 K6]. assert (Hm : forall n, mk (commit rest (v_db v)) n = mk (v_db v) n) by (intros n; unfold mk, ReadCanonicalHash; by rewrite Hh).
  constructor; cbn [v_db withDb v_head v_future]; try done.
  - by eapply store_ok_same.
  - by apply (stored_same (v_db v)).
  - intros c Hc. rewrite Hm. apply K3. by apply (ancestor_same_blocks (v_db v) (commit rest (v_db v))).
  - intros n Hn. rewrite Hm. intros Hnz. destruct (K4 n Hn Hnz) as (c & Hc & Hkc). exists c. split; [by apply (stored_same (v_db v))|done].
  - intros n Hn. rewrite !Hm. by apply K5.
Qed.
Lemma held_report d b : always (held d) (reportBlock b) (fun _ => held d).
Proof. apply held_rest. intros d0. unfold commit. simpl. unfold WriteBadBlock. by destruct (existsb _ _). Qed.
Lemma held_queue now d b : U b -> 0 < numberOf b -> triple (held d) (addFutureBlock now b) (fun _ => held d) (fun _ => held d).
Proof.
  intros HU Hn. unfold addFutureBlock. case_if; [by intros s Hs|].
  eapply triple_conseq with (E' := fun _ _ => False); [apply held_always|done|intros a s HQ; exact HQ|done]. intros v s Hs. simpl.
  eapply near_step; [exact Hs|..]; try done. intros h c Hm. apply cache_add_mem in Hm as [[_ ->]|Hm]; [by right|by left].
Qed.
Lemma held_known createAddress d b : stored d b -> always (held d) (writeKnownBlock createAddress b) (fun _ => held d).
Proof.
  intros Hb. apply held_intro. intros v Hk Hg. destruct (Hg b Hb) as [Hbv _].
  eapply triple_conseq; [apply (always_writeKnownBlock U genesis createAddress v b Hk Hbv)|done| |done]. intros [] s (w & Hsw & Hs).
  destruct (switched_core U genesis createAddress v b w Hk Hbv Hsw) as (Hkw & _ & [Hsame _]). exists w. split; [done|].
  split; [eapply grows_trans; [exact Hg|by apply grows_same]|done].
Qed.

Lemma fits_grows d d' b q : grows d d' -> fits d b q -> fits d' b q.
Proof. intros Hg (HU & Hq & ?). split; [done|]. split; [by apply Hg|done]. Qed.

Lemma held_storeOnly d b q tq : fits d b q -> tdOf d q = Some tq ->
  triple (held d) (writeBlockWithoutState b (difficultyOf (bHeader b) + tq))
    (fun _ => held_with (fun d' => stored d' b /\ tdOf d' b = Some (difficultyOf (bHeader b) + tq)) d) (fun _ => held d).
Proof.
  intros Hb Htq. unfold writeBlockWithoutState. eapply triple_bind; [eapply triple_conseq with (E' := fun _ _ => False); [apply held_stopped|done|intros a s HQ; exact HQ|done]|].
  intros [|]; [by intros s Hs|]. apply held_intro. intros v Hk Hg. destruct (Hg q (proj1 (proj2 Hb))) as [_ Hqv].
  assert (Htv : tdOf (v_db v) q = Some tq) by congruence. pose proof (fits_grows _ _ _ _ Hg Hb) as Hbv.
  eapply triple_conseq with (E' := fun _ _ => False); [apply (at_storeBlock U genesis v b q tq [] (k_store _ _ _ Hk) Hbv Htv); by intros d0|done| |done].
  intros [] s (w & Hr & Hst & Htd & Hs). exists (v_db w). split; [eapply grows_trans; [exact Hg|apply Hr]|]. split; [done|].
  apply held_view; [by eapply rim_core|done].
Qed.

Lemma held_write createAddress shouldPreserve d b q receipts logs statedb emit : fits d b q ->
  triple (held d) (writeBlockWithState createAddress shouldPreserve b receipts logs statedb emit)
    (fun _ => held_with (fun d' => stored d' b) d) (fun _ => held d).
Proof.
  intros Hb. apply held_intro. intros v Hk Hg. pose proof (fits_grows _ _ _ _ Hg Hb) as Hbv.
  eapply triple_conseq; [apply (near_write U genesis createAddress shouldPreserve core) with (p := q)| | |]; try done.
  - intros v1 v2 Hk1 Hr1. by apply (rim_core U genesis v1 v2).
  - intros v1 b1 w Hk1 Hb1 _ Hsw. by apply (switched_core U genesis createAddress v1 b1 w).
  - intros s Hs. apply near_here; [apply (k_store _ _ _ Hk)|done].
  - intros st s (w & Hs & (Hkw & Hgw & Hst & _)). exists (v_db w). split; [by eapply grows_trans|]. split; [done|]. by apply held_near.
  - intros e s Hs. eapply held_less; [exact Hg|by apply held_near].
Qed.

(** ** What the validator says *)

Definition linked d b : Prop := exists q, stored d q /\ hashOf q = parentHashOf b.
Definition body_fact v b (e : option error) : Prop :=
  match e with
  | None => linked (v_db v) b
  | Some ErrPrunedAncestor => linked (v_db v) b /\ forall q, fits (v_db v) b q -> HasState (Root (bHeader q)) (v_world v) = false
  | Some ErrKnownBlock => stored (v_db v) b /\ HasState (Root (bHeader b)) (v_world v) = true
  | _ => True
  end.

Lemma at_fail_if v (c : bool) e (phi : error -> Prop) : (c = true -> phi e) ->
  triple (at_view v) (st_fail_if c e) (fun _ s => at_view v s) (fun e s => at_view v s /\ phi e).
Proof. intros Hc. apply triple_fail_if; [intros s Hs Ht; by split; [|apply Hc]|by intros s Hs _]. Qed.

Lemma always_ValidateBody v b : core v -> U b -> always (at_view v) (ValidateBody b) (fun e s => at_view v s /\ body_fact v b e).
Proof.
  intros Hk HU. pose proof (k_store _ _ _ Hk) as Hd. unfold ValidateBody.
  eapply triple_conseq with (E' := fun _ _ => False); [apply (triple_errorOf (at_view v) (validateBody b) (fun _ s => at_view v s /\ linked (v_db v) b)
    (fun e s => at_view v s /\ body_fact v b (Some e)))|done|intros [e|] s HQ; [exact HQ|by destruct HQ]|done].
  unfold validateBody.
  eapply triple_bind; [eapply triple_conseq with (E' := fun _ _ => False); [apply (always_HasBlockAndState U genesis v Hd)|done|intros r s HQ; exact HQ|done]|].
  intros known. cbv beta. intros s (Hs & Hknown & _). revert s Hs. change (triple (at_view v) (st_fail_if known ErrKnownBlock ≫= fun _ =>
    _ ← st_lift (VerifyUncles (bUncles b));
    _ ← st_fail_if (negb (CalcUncleHash (bUncles b) =? UncleHash (bHeader b))) (errorf "uncle root hash mismatch");
    _ ← st_fail_if (negb (DeriveTxSha (bTransactions b) =? TxHash (bHeader b))) (errorf "transaction root hash mismatch");
    linked ← HasBlockAndState (parentHashOf b) (numberOf b -w 1);
    if (linked : bool) then mret tt else
    stored ← HasBlock (parentHashOf b) (numberOf b -w 1);
    st_err (if (stored : bool) then ErrPrunedAncestor else ErrUnknownAncestor))
    (fun _ s => at_view v s /\ linked (v_db v) b) (fun e s => at_view v s /\ body_fact v b (Some e))).
  eapply triple_bind; [apply at_fail_if; intros Ht; destruct (Hknown Ht) as (q & Hq & Hh & Hst); simpl; by rewrite <- (stored_is U genesis _ Hd q b Hq HU Hh)|].
  intros []. eapply (triple_bind (at_view v) (st_lift (VerifyUncles (bUncles b))) _ (fun _ s => at_view v s)).
  { intros s Hs. unfold VerifyUncles, fail_if. destruct (0 <? zlen (bUncles b)); simpl; done. }
  intros []. eapply triple_bind; [by apply at_fail_if|]. intros []. eapply triple_bind; [by apply at_fail_if|]. intros [].
  eapply triple_bind; [eapply triple_conseq with (E' := fun _ _ => False); [apply (always_HasBlockAndState U genesis v Hd)|done|intros r s HQ; exact HQ|done]|].
  intros [|]; cbv beta iota; intros s (Hs & Hl & Hno).
  { simpl. split; [done|]. destruct (Hl eq_refl) as (q & Hq & Hh & _). by exists q. }
  assert (Hpruned : forall q, fits (v_db v) b q -> HasState (Root (bHeader q)) (v_world v) = false).
  { intros q (_ & Hq & Hqh & Hqn). apply (Hno eq_refl q Hq). pose proof (stored_range U genesis _ Hd q Hq). unfold key. rewrite Hqh, Hqn, u64_small; [|unfold is_u64; lia]. f_equal. lia. }
  clear Hno Hl.
  revert s Hs. eapply triple_bind; [eapply triple_conseq with (E' := fun _ _ => False); [apply (always_HasBlock U genesis v Hd)|done|intros r s HQ; exact HQ|done]|].
  intros [|]; cbv beta iota; intros s (Hs & Hst & _); simpl; (split; [done|]); [|done]. split; [by apply Hst|done].
Qed.

(** ** The batch and the cursor *)

(** A batch: blocks linked one after the other, the first one to the chain when
    its header was accepted. *)
Record batch_ok d (chain : list Block) (results : list (option error)) : Prop := {
  bt_U : Forall (fun b => U b /\ 0 < numberOf b) chain;
  bt_linked : contiguous chain = true;
  bt_plain : Some ErrKnownBlock ∉ results /\ Some ErrPrunedAncestor ∉ results;
  bt_first : forall b, chain !! 0%nat = Some b -> mjoin (results !! 0%nat) = None -> exists q, fits d b q;
}.
Lemma batch_grows d d' chain results : grows d d' -> batch_ok d chain results -> batch_ok d' chain results.
Proof.
  intros Hg [HU Hl Hp Hf]. constructor; [done|done|done|]. intros b Hb Hr. destruct (Hf b Hb Hr) as (q & Hq). exists q. by eapply fits_grows.
Qed.

Lemma contiguous_at chain : contiguous chain = true -> forall i a b, chain !! i = Some a -> chain !! S i = Some b -> numberOf b = numberOf a +w 1 /\ parentHashOf b = hashOf a.
Proof.
  induction chain as [|x chain IH]; intros Hc i a b Ha Hb; [done|]. destruct chain as [|y chain]; [by destruct i|]. simpl in Hc.
  apply andb_prop in Hc as [Hxy Hc]. apply andb_prop in Hxy as [Hn Hh]. destruct i as [|i].
  - simpl in Ha, Hb. simplify_eq. by apply Z.eqb_eq in Hn, Hh.
  - by apply (IH Hc i).
Qed.

(** What is known of the block under the cursor. *)
Definition ready d b (e : option error) : Prop :=
  match e with
  | None | Some ErrPrunedAncestor => exists q, fits d b q
  | Some ErrKnownBlock => stored d b
  | _ => True
  end.
Record cursor_ok d chain results (cu : cursor) : Prop := {
  cu_chain : itChain (cIt cu) = chain;
  cu_results : itErrors (cIt cu) = results;
  cu_block : match cBlock cu with
             | Some b => 0 <= itIndex (cIt cu) /\ chain !! Z.to_nat (itIndex (cIt cu)) = Some b /\ ready d b (cErr cu)
             | None => cErr cu = None /\ itIndex (cIt cu) = zlen chain
             end;
}.
Lemma ready_grows d d' b e : grows d d' -> ready d b e -> ready d' b e.
Proof.
  intros Hg. destruct e as [[]|]; simpl; try done; try (intros (q & Hq); exists q; by eapply fits_grows). intros Hb. by apply Hg.
Qed.
Lemma cursor_grows d d' chain results cu : grows d d' -> cursor_ok d chain results cu -> cursor_ok d' chain results cu.
Proof.
  intros Hg [H1c H2c Hb]. constructor; [done|done|]. destruct (cBlock cu); [|done]. destruct Hb as (? & ? & Hr). split; [done|]. split; [done|]. by eapply ready_grows.
Qed.

Section Batch.
Context {chain : list Block} {results : list (option error)}.

Lemma batch_in d i b : batch_ok d chain results -> chain !! i = Some b -> U b /\ 0 < numberOf b.
Proof. intros Hbt Hb. pose proof (bt_U _ _ _ Hbt) as HUs. rewrite list.Forall_lookup in HUs. by apply (HUs i b). Qed.
(** Two blocks in a row. *)
Lemma batch_next d i a b : batch_ok d chain results -> chain !! i = Some a -> chain !! S i = Some b ->
  hashOf a = parentHashOf b /\ numberOf b = numberOf a + 1.
Proof.
  intros Hbt Ha Hb. destruct (contiguous_at chain (bt_linked _ _ _ Hbt) i a b Ha Hb) as [Hn Hp]. split; [done|].
  destruct (batch_in d i a Hbt Ha) as [HU _]. pose proof (u_range (U:=U) (genesis:=genesis) a HU). pose proof (numberOf_nonneg a).
  rewrite Hn, u64_small; [done|]. unfold is_u64. lia.
Qed.
Lemma batch_linked d i b : store_ok U genesis d -> batch_ok d chain results -> chain !! i = Some b -> mjoin (results !! i) = None -> linked d b -> exists q, fits d b q.
Proof.
  intros Hd Hbt Hb Hr (q & Hq & Hh). destruct (batch_in d i b Hbt Hb) as [HU _]. destruct i as [|i]; [by apply (bt_first _ _ _ Hbt b)|].
  destruct (chain !! i) as [a|] eqn:Ea; [|apply lookup_ge_None in Ea; apply lookup_lt_Some in Hb; lia].
  destruct (batch_next d i a b Hbt Ea Hb) as [Hp Hn]. destruct (batch_in d i a Hbt Ea) as [Ha _].
  pose proof (stored_is U genesis d Hd q a Hq Ha ltac:(congruence)). subst q. by exists a.
Qed.
Lemma body_ready v i b e : store_ok U genesis (v_db v) -> batch_ok (v_db v) chain results -> chain !! i = Some b -> mjoin (results !! i) = None -> body_fact v b e -> ready (v_db v) b e.
Proof. intros Hd Hbt Hb Hr He. destruct e as [[]|]; simpl in *; try done; try (by apply (batch_linked (v_db v) i b)); try (destruct He; by apply (batch_linked (v_db v) i b)). by destruct He. Qed.

(** The last but one block of a batch is never a block of the future: what is
    under the cursor has a stored parent unless its error says otherwise. *)
Lemma ready_fits d b e : store_ok U genesis d -> 0 < numberOf b -> U b -> ready d b e -> e = None \/ e = Some ErrPrunedAncestor \/ e = Some ErrKnownBlock -> exists q, fits d b q.
Proof.
  intros Hd Hn HU Hr [->|[->| ->]]; [done|done|]. simpl in Hr.
  assert (Hg : b <> genesis) by (intros ->; destruct (u_genesis (U:=U) (genesis:=genesis)); lia).
  destruct (stored_parent U genesis d Hd b Hr Hg) as (p & Hp & ? & ?). by exists p.
Qed.

(** What the validator has seen of the states. *)
Definition alive (w : X) d cu : Prop :=
  match cBlock cu with
  | Some b => (cErr cu = Some ErrPrunedAncestor -> forall q, fits d b q -> HasState (Root (bHeader q)) w = false) /\
      (cErr cu = Some ErrKnownBlock -> HasState (Root (bHeader b)) w = true)
  | None => True
  end.
Lemma at_next v it : core v -> batch_ok (v_db v) chain results -> itChain it = chain -> itErrors it = results -> -1 <= itIndex it < zlen chain ->
  always (at_view v) (next it) (fun cu s => at_view v s /\ cursor_ok (v_db v) chain results cu /\ itIndex (cIt cu) = itIndex it + 1 /\ alive (v_world v) (v_db v) cu).
Proof.
  intros Hk Hbt Hch Hre Hi. pose proof (k_store _ _ _ Hk) as Hd. unfold next. rewrite Hch, Hre.
  destruct (Z.leb_spec (zlen chain) (itIndex it + 1)) as [Hle|Hlt].
  { apply triple_value. intros s Hs. split; [done|]. split; [by constructor|]. split; [cbn [itIndex cIt]; lia|done]. }
  cbn [itChain itErrors]. unfold blockAt. rewrite (proj2 (Z.ltb_ge (itIndex it + 1) 0)) by lia.
  destruct (chain !! Z.to_nat (itIndex it + 1)) as [b|] eqn:Eb; [|apply lookup_ge_None in Eb; unfold zlen in Hlt; lia].
  destruct (mjoin (results !! Z.to_nat (itIndex it + 1))) as [e|] eqn:Er.
  - assert (He : e <> ErrKnownBlock /\ e <> ErrPrunedAncestor).
    { destruct (bt_plain _ _ _ Hbt) as [Hp1 Hp2]. assert (Er' : results !! Z.to_nat (itIndex it + 1) = Some (Some e)).
      { destruct (results !! Z.to_nat (itIndex it + 1)) as [[?|]|]; simpl in Er; congruence. }
      apply list_elem_of_lookup_2 in Er'. split; intros ->; done. }
    apply triple_value. intros s Hs. split; [done|]. split; [|split; [done|]].
    + constructor; [done|done|]. cbn [cBlock cIt itIndex cErr]. split; [lia|]. split; [done|]. destruct He. by destruct e.
    + unfold alive. cbn [cBlock cErr]. split; intros [= ->]; by destruct He.
  - destruct (batch_in _ _ _ Hbt Eb) as [HU _].
    eapply triple_bind; [eapply triple_conseq with (E' := fun _ _ => False); [apply (always_ValidateBody v b Hk HU)|done|intros a s HQ; exact HQ|done]|].
    intros e. apply triple_value. intros s [Hs He]. split; [done|]. split; [|split; [done|]].
    + constructor; [done|done|]. cbn [cBlock cIt itIndex cErr]. split; [lia|]. split; [done|]. by eapply body_ready.
    + unfold alive. cbn [cBlock cErr]. split; intros ->; by destruct He.
Qed.
Lemma held_next d it : batch_ok d chain results -> itChain it = chain -> itErrors it = results -> -1 <= itIndex it < zlen chain ->
  always (held d) (next it) (fun cu => held_with (fun d' => cursor_ok d' chain results cu /\ itIndex (cIt cu) = itIndex it + 1) d).
Proof.
  intros Hbt Hch Hre Hi. apply (held_reads d _ (fun d' cu => cursor_ok d' chain results cu /\ itIndex (cIt cu) = itIndex it + 1)). intros v Hk Hg.
  eapply triple_conseq; [apply (at_next v it); try done; by eapply batch_grows|done| |done]. intros cu s (Hs & Hcu & Hi' & _). done.
Qed.

(** ** Moving along the batch *)

Definition left (cu : cursor) : nat := Z.to_nat (zlen chain - itIndex (cIt cu)).
Lemma cursor_at d cu b : cursor_ok d chain results cu -> cBlock cu = Some b ->
  0 <= itIndex (cIt cu) < zlen chain /\ chain !! Z.to_nat (itIndex (cIt cu)) = Some b /\ ready d b (cErr cu).
Proof.
  intros [_ _ Hb] E. rewrite E in Hb. destruct Hb as (? & Hl & ?). apply lookup_lt_Some in Hl as Hlt. unfold zlen. split; [lia|done].
Qed.
Lemma cursor_block d cu e : cursor_ok d chain results cu -> cErr cu = Some e -> exists b, cBlock cu = Some b.
Proof. intros [_ _ Hb] E. destruct (cBlock cu) as [b|]; [by exists b|]. destruct Hb. congruence. Qed.

Lemma left_all cu d : cursor_ok d chain results cu -> -1 <= itIndex (cIt cu) -> (left cu <= S (length (itChain (cIt cu))))%nat.
Proof. intros Hcu Hi. rewrite (cu_chain _ _ _ _ Hcu). unfold left, zlen. lia. Qed.
Lemma cursor_index d cu : cursor_ok d chain results cu -> 0 <= itIndex (cIt cu) <= zlen chain.
Proof.
  intros Hcu. destruct (cBlock cu) as [b|] eqn:Eb; [destruct (cursor_at d cu b Hcu Eb); lia|].
  pose proof (cu_block _ _ _ _ Hcu) as Hb. rewrite Eb in Hb. destruct Hb as [_ ->]. unfold zlen. lia.
Qed.
Lemma held_know {A B} d (m : ST BC A) (k : A -> ST BC B) (phi : A -> Prop) Q E :
  always (held d) m (fun r s => held d s /\ phi r) -> (forall r, phi r -> triple (held d) (k r) Q E) -> triple (held d) (m ≫= k) Q E.
Proof. intros Hm Hk. eapply (triple_learn (held d)); [|exact Hk]. eapply triple_conseq; [exact Hm|done|done|done]. Qed.
Lemma held_then {A B} d (m : ST BC A) (k : A -> ST BC B) Q E :
  always (held d) m (fun _ => held d) -> (forall r, triple (held d) (k r) Q E) -> triple (held d) (m ≫= k) Q E.
Proof. intros Hm Hk. eapply triple_bind; [|exact Hk]. eapply triple_conseq; [exact Hm|done|done|done]. Qed.
Lemma held_find {A B} d (m : ST BC A) (k : A -> ST BC B) (phi : ChainDB -> A -> Prop) Q E :
  always (held d) m (fun r => held_with (fun d' => phi d' r) d) ->
  (forall r d', grows d d' -> phi d' r -> triple (held d') (k r) Q E) -> triple (held d) (m ≫= k) Q E.
Proof. intros Hm Hk. apply (held_learn d m k phi); [|exact Hk]. eapply triple_conseq; [exact Hm|done|done|done]. Qed.
Lemma held_with_here (phi : ChainDB -> Prop) d s : phi d -> held d s -> held_with phi d s.
Proof. intros Hphi Hs. exists d. split; [apply grows_refl|done]. Qed.
Lemma held_gives {A} d (a : A) (phi : ChainDB -> A -> Prop) E : phi d a -> triple (held d) (mret a) (fun r => held_with (fun d' => phi d' r) d) E.
Proof. intros Hphi. apply triple_value. intros s Hs. by apply held_with_here. Qed.
Lemma held_move {A} d d' (m : ST BC A) phi E : grows d d' ->
  triple (held d') m (fun r => held_with (fun d'' => phi d'' r) d') E -> triple (held d') m (fun r => held_with (fun d'' => phi d'' r) d) E.
Proof. intros Hg Hm. eapply triple_conseq; [exact Hm|done| |done]. intros r s. by apply held_with_less. Qed.
Lemma held_back {A} d d' (m : ST BC A) : grows d d' -> always (held d') m (fun _ => held d') -> always (held d') m (fun _ => held d).
Proof. intros Hg Hm. eapply triple_conseq; [exact Hm|done| |done]. intros r s. by apply held_less. Qed.

Lemma held_advance {A} d cu b (k : cursor -> ST BC A) Q E : batch_ok d chain results -> cursor_ok d chain results cu -> cBlock cu = Some b ->
  (forall d' cu', grows d d' -> batch_ok d' chain results -> cursor_ok d' chain results cu' -> left cu = S (left cu') ->
    itIndex (cIt cu') = itIndex (cIt cu) + 1 -> triple (held d') (k cu') Q E) ->
  triple (held d) (next (cIt cu) ≫= k) Q E.
Proof.
  intros Hbt Hcu Hb Hk. destruct (cursor_at d cu b Hcu Hb) as (Hi & _).
  eapply held_find; [apply held_next; [done|apply (cu_chain _ _ _ _ Hcu)|apply (cu_results _ _ _ _ Hcu)|lia]|].
  intros cu' d' Hg [Hcu' Hi']. apply Hk; try done; [by eapply batch_grows|]. unfold left. rewrite Hi'. lia.
Qed.

Lemma at_GetHeaderByHash v h : core v -> always (at_view v) (on_hc (GetHeaderByHash h)) (fun _ => at_view v).
Proof.
  intros Hk. pose proof (k_store _ _ _ Hk) as Hd. intros s Hs.
  pose proof (always_GetBlockNumber U genesis v Hd h s Hs) as Hn. unfold on_hc, GetHeaderByHash, mbind, st_bind in *.
  destruct (GetBlockNumber h (hc s)) as [[o|e|] c1]; [|done|done]. destruct Hn as [Hs1 _].
  destruct o as [n|]; [|done]. pose proof (always_GetHeader U genesis v Hd h n _ Hs1) as Hh.
  unfold GetHeader, on_hc in Hh. cbn [hc set_hc] in Hh. destruct (Headers.GetHeader h n c1) as [[o|e|] c2]; [|done|done]. apply Hh.
Qed.
Lemma at_skip v cu : core v -> cursor_ok (v_db v) chain results cu ->
  always (at_view v) (skipBlock (cErr cu) (cIt cu)) (fun r s => at_view v s /\ (r = true -> cErr cu = Some ErrKnownBlock)).
Proof.
  intros Hk Hcu. unfold skipBlock, isErr. case_bool_decide as He; simpl; [|by apply triple_value].
  case_if; [by apply triple_value|]. apply triple_look. intros s _. destruct (cursor_block _ cu _ Hcu He) as (b & Hb).
  destruct (cursor_at _ cu b Hcu Hb) as (Hi & Hl & _). unfold current, blockAt. rewrite (cu_chain _ _ _ _ Hcu), (proj2 (Z.ltb_ge _ 0)), Hl by lia. simpl.
  case_if; [by apply triple_value|]. eapply (triple_bind (at_view v) _ _ (fun _ => at_view v)); [destruct (previous (cIt cu)); [by apply triple_value|by apply at_GetHeaderByHash]|].
  intros p. cbv zeta. case_if; [by apply triple_value|]. apply triple_look. intros s' _. by apply triple_value.
Qed.
Lemma held_skip d cu : cursor_ok d chain results cu ->
  always (held d) (skipBlock (cErr cu) (cIt cu)) (fun r s => held d s /\ (r = true -> cErr cu = Some ErrKnownBlock)).
Proof.
  intros Hcu. apply held_intro. intros v Hk Hg. eapply triple_conseq; [apply (at_skip v cu Hk); by eapply cursor_grows|done| |done].
  intros r s [Hs Hr]. split; [by exists v|done].
Qed.

(** ** Known blocks *)
Variables (createAddress : Address -> Z -> Address) (chainConfig : ChainConfig) (shouldPreserve : option (Block -> bool)) (now : Z).

Lemma held_skipKnown localTd : forall fuel d cu externTd, batch_ok d chain results -> cursor_ok d chain results cu -> (left cu <= fuel)%nat ->
  always (held d) (skipKnown fuel cu localTd externTd) (fun cu' => held_with (fun d' => cursor_ok d' chain results cu') d).
Proof.
  induction fuel as [|fuel IH]; intros d cu externTd Hbt Hcu Hf; simpl; (destruct (cBlock cu) as [b|] eqn:Eb; [|by apply held_gives]).
  { destruct (cursor_at d cu b Hcu Eb) as (Hi & _). unfold left in Hf. lia. }
  eapply held_know; [by apply held_skip|]. intros skip _. case_if; [by apply held_gives|]. case_if; [by apply held_gives|].
  eapply held_advance; [done|done|exact Eb|]. intros d' cu' Hg Hbt' Hcu' Hl _. apply held_move; [done|]. apply IH; [done|done|lia].
Qed.
Lemma held_adoptKnown : forall fuel d cu canon, batch_ok d chain results -> cursor_ok d chain results cu -> (left cu <= fuel)%nat ->
  always (held d) (adoptKnown createAddress fuel cu canon) (fun pr => held_with (fun d' => cursor_ok d' chain results (pCursor pr)) d).
Proof.
  induction fuel as [|fuel IH]; intros d cu canon Hbt Hcu Hf; simpl; (destruct (cBlock cu) as [b|] eqn:Eb; [|by apply held_gives]).
  { destruct (cursor_at d cu b Hcu Eb) as (Hi & _). unfold left in Hf. lia. }
  destruct (cursor_at d cu b Hcu Eb) as (_ & _ & Hr).
  eapply held_know; [by apply held_skip|]. intros skip Hskip. destruct skip; [|by apply held_gives]. cbn [negb].
  specialize (Hskip eq_refl). rewrite Hskip in Hr. simpl in Hr.
  eapply (held_know d _ _ (fun e => e = None)).
  { eapply triple_conseq with (E' := fun _ _ => False); [apply triple_errorOf; by apply held_known|done| |done].
    intros [e|] s HQ; [done|]. destruct HQ as (? & ?). done. }
  intros e ->. eapply held_advance; [done|done|exact Eb|]. intros d' cu' Hg Hbt' Hcu' Hl _. apply held_move; [done|]. apply IH; [done|done|lia].
Qed.
(** Past the known blocks that the chain outweighs; the rest becomes the chain. *)
Definition trimTo (cu : cursor) (localTd externTd : Z) : ST BC progress :=
  let fuel := S (length (itChain (cIt cu))) in
  c ← skipKnown fuel cu localTd externTd;
  adoptKnown createAddress fuel c None.
Lemma at_leftTrim v cu Q E : core v -> batch_ok (v_db v) chain results -> cursor_ok (v_db v) chain results cu -> cErr cu = Some ErrKnownBlock ->
  (forall localTd externTd, triple (at_view v) (trimTo cu localTd externTd) Q E) -> (forall s, at_view v s -> Q (mkProgress cu None None) s) ->
  triple (at_view v) (leftTrim createAddress cu) Q E.
Proof.
  intros Hk Hbt Hcu He Htrim Hstay. pose proof (k_store _ _ _ Hk) as Hd. destruct (cursor_block _ cu _ Hcu He) as (b & Eb).
  destruct (cursor_at _ cu b Hcu Eb) as (Hi & Hl & Hr). destruct (batch_in _ _ b Hbt Hl) as [HU Hn].
  destruct (ready_fits (v_db v) b (cErr cu) Hd Hn HU Hr ltac:(auto)) as (q & _ & Hq & Hqh & Hqn).
  destruct (s_total U genesis _ Hd q Hq) as [[tq Htq] _]. destruct (s_total U genesis _ Hd _ (k_head _ _ _ Hk)) as [[th Hth] _].
  unfold leftTrim. eapply (triple_learn (at_view v)); [eapply triple_conseq with (E' := fun _ _ => False); [by apply at_skip|done|intros r s' HQ; exact HQ|done]|].
  intros [|] _; [|by apply triple_value]. cbn [negb]. rewrite Eb.
  apply triple_look. intros s Hs. assert (Eh : currentBlock s = v_head v) by (destruct Hs as [<- _]; done). rewrite Eh.
  eapply (triple_learn (at_view v)); [eapply triple_conseq with (E' := fun _ _ => False); [apply (always_storedTd U genesis v Hd), (k_head _ _ _ Hk)|done|intros r s' HQ; exact HQ|done]|].
  intros r ->. rewrite Hth.
  eapply (triple_learn (at_view v)); [eapply triple_conseq with (E' := fun _ _ => False); [by apply (always_parentTd U genesis v Hd b q Hq)|done|intros r s' HQ; exact HQ|done]|].
  intros r ->. rewrite Htq. cbv zeta. apply Htrim.
Qed.
Lemma skip_other v cu Q E : cErr cu <> Some ErrKnownBlock -> (forall s, at_view v s -> Q (mkProgress cu None None) s) -> triple (at_view v) (leftTrim createAddress cu) Q E.
Proof.
  intros He HQ. unfold leftTrim, skipBlock, isErr. rewrite bool_decide_eq_false_2 by done. cbn [negb]. intros s Hs. by apply HQ.
Qed.
Lemma held_leftTrim d cu : batch_ok d chain results -> cursor_ok d chain results cu ->
  always (held d) (leftTrim createAddress cu) (fun pr => held_with (fun d' => cursor_ok d' chain results (pCursor pr)) d).
Proof.
  intros Hbt Hcu. apply held_intro. intros v Hk Hg.
  assert (Hbtv : batch_ok (v_db v) chain results) by by eapply batch_grows. assert (Hcuv : cursor_ok (v_db v) chain results cu) by by eapply cursor_grows.
  assert (Hstay : forall s, at_view v s -> held_with (fun d' => cursor_ok d' chain results cu) d s) by (intros s Hs; exists (v_db v); split; [done|]; split; [done|by apply held_view]).
  destruct (decide (cErr cu = Some ErrKnownBlock)) as [He|He]; [|by apply skip_other].
  apply at_leftTrim; [done|done|done|done| |exact Hstay]. intros localTd externTd. unfold trimTo. cbv zeta.
  eapply triple_conseq with (P' := held (v_db v)) (E' := fun _ _ => False); [|intros s' Hs'; by apply held_view|intros pr s' HQ; exact HQ|done].
  eapply held_find; [apply held_skipKnown; [done|done|apply (left_all cu (v_db v)); [done|pose proof (cursor_index _ cu Hcuv); lia]]|].
  intros cu' d' Hg' Hcu'. apply held_move; [by eapply grows_trans|]. apply held_adoptKnown; [by eapply batch_grows|done|].
  pose proof (cursor_index d' cu' Hcu'). rewrite (cu_chain _ _ _ _ Hcu). unfold left, zlen in *. lia.
Qed.

(** ** Blocks of the future *)

Lemma held_attempt {A} d (m : ST BC A) (Q : A -> BC -> Prop) : triple (held d) m Q (fun _ => held d) ->
  always (held d) (attempt m) (fun r s => match r with inl a => Q a s | inr _ => held d s end).
Proof. apply triple_attempt. Qed.
Lemma held_error {A} d (m : ST BC A) : triple (held d) m (fun _ => held d) (fun _ => held d) -> always (held d) (errorOf m) (fun _ => held d).
Proof.
  intros Hm. eapply triple_conseq; [apply (triple_errorOf _ _ _ _ Hm)|done| |done]. intros [e|] s HQ; [done|]. by destruct HQ.
Qed.
Lemma held_value' {A} d (a : A) E : triple (held d) (mret a) (fun _ => held d) E.
Proof. by apply triple_value. Qed.

Lemma held_queueBlocks : forall fuel d cu, batch_ok d chain results -> cursor_ok d chain results cu -> (left cu <= fuel)%nat ->
  always (held d) (queueBlocks now fuel cu) (fun _ => held d).
Proof.
  induction fuel as [|fuel IH]; intros d cu Hbt Hcu Hf; simpl; (destruct (cBlock cu) as [b|] eqn:Eb; [|by apply held_value']).
  { destruct (cursor_at d cu b Hcu Eb) as (Hi & _). unfold left in Hf. lia. }
  destruct (cursor_at d cu b Hcu Eb) as (_ & Hl & _). destruct (batch_in d _ b Hbt Hl) as [HU Hn].
  case_if; [|by apply held_value']. apply held_then; [exact (held_error d _ (held_queue now d b HU Hn))|]. intros [e|]; [by apply held_value'|].
  eapply held_advance; [done|done|exact Eb|]. intros d' cu' Hg Hbt' Hcu' Hl' _. apply held_back; [done|]. apply IH; [done|done|lia].
Qed.
Lemma held_queueOrphans : forall fuel d cu, batch_ok d chain results -> cursor_ok d chain results cu -> (left cu <= fuel)%nat ->
  always (held d) (queueOrphans now fuel cu) (fun _ => held d).
Proof.
  induction fuel as [|fuel IH]; intros d cu Hbt Hcu Hf; simpl; (destruct (cBlock cu) as [b|] eqn:Eb; [|by apply held_value']).
  { destruct (cursor_at d cu b Hcu Eb) as (Hi & _). unfold left in Hf. lia. }
  destruct (cursor_at d cu b Hcu Eb) as (_ & Hl & _). destruct (batch_in d _ b Hbt Hl) as [HU Hn].
  case_if; [|by apply held_value']. apply held_then; [exact (held_error d _ (held_queue now d b HU Hn))|]. intros [e|]; [by apply held_value'|].
  eapply held_advance; [done|done|exact Eb|]. intros d' cu' Hg Hbt' Hcu' Hl' _. apply held_back; [done|]. apply IH; [done|done|lia].
Qed.
Lemma held_queueRest d cu : batch_ok d chain results -> cursor_ok d chain results cu -> always (held d) (queueRest now cu) (fun _ => held d).
Proof.
  intros Hbt Hcu. unfold queueRest. destruct (cBlock cu) as [b|] eqn:Eb; [|by apply held_value'].
  destruct (cursor_at d cu b Hcu Eb) as (Hi & Hl & _). destruct (batch_in d _ b Hbt Hl) as [HU Hn].
  case_if; [|by apply held_value']. apply held_then; [exact (held_error d _ (held_queue now d b HU Hn))|]. intros [e|]; [by apply held_value'|].
  eapply held_advance; [done|done|exact Eb|]. intros d' cu' Hg Hbt' Hcu' Hl' Hi'. apply held_back; [done|]. apply held_queueOrphans; [done|done|].
  apply (left_all cu' d'); [done|lia].
Qed.

(** ** Blocks that are processed *)

Lemma held_parentHeader d b q it : fits d b q ->
  always (held d) (match previous it with Some p => mret (Some p) | None => GetHeader (parentHashOf b) (numberOf b -w 1) end) (fun r s => held d s /\ r <> None).
Proof.
  intros Hb. destruct (previous it) as [p|]; [by apply triple_value|]. apply held_intro. intros v Hk Hg.
  destruct (fits_grows _ _ _ _ Hg Hb) as (_ & Hq & Hh & Hn). pose proof (k_store _ _ _ Hk) as Hd.
  eapply triple_conseq; [apply (always_GetHeader U genesis v Hd)|done| |done]. intros r s [Hs Hr]. split; [by exists v|].
  by rewrite (finds_parent U genesis v Hd _ b q r Hq Hh Hn Hr).
Qed.
Lemma held_attempt_world {A} d (m : ST X A) : (forall x, fst (m x) <> Panic) -> always (held d) (attempt (on_world m)) (fun _ => held d).
Proof. intros Hm. eapply triple_conseq; [apply held_attempt, (held_world d m Hm)|done| |done]. by intros [a|e] s. Qed.

Lemma held_importBlock d it b q : fits d b q -> always (held d) (importBlock createAddress chainConfig shouldPreserve it b) (fun _ => held d).
Proof.
  intros Hb. unfold importBlock. eapply held_know; [by eapply held_parentHeader|]. intros [p|] Hp; [|done].
  apply held_then; [apply held_attempt_world, stateNew_ends|]. intros [t|e]; [|by apply held_value'].
  apply triple_look. intros s _. apply held_then; [apply held_attempt_world, process_ends|].
  intros [[[[receipts logs] usedGas] t']|e]; [|apply held_then; [apply held_report|]; intros []; by apply held_value'].
  apply held_then; [apply held_attempt_world, validate_ends|].
  intros [t''|e]; [|apply held_then; [apply held_report|]; intros []; by apply held_value'].
  eapply triple_conseq; [apply held_attempt, (held_write createAddress shouldPreserve d b q receipts logs t'' false Hb)|done| |done].
  intros [st|e] s0 HQ; [by apply held_with_held in HQ|done].
Qed.
Lemma held_knownInside d b : stored d b -> always (held d) (knownInside createAddress b) (fun _ => held d).
Proof.
  intros Hb. unfold knownInside. apply held_then.
  - destruct (bTransactions b); [|by apply held_value']. apply held_rest. intros d0. done.
  - intros []. apply held_error. eapply triple_conseq; [by apply held_known|done|done|done].
Qed.

Lemma held_importLoop : forall fuel d cu canon, batch_ok d chain results -> cursor_ok d chain results cu -> (left cu <= fuel)%nat ->
  always (held d) (importLoop createAddress chainConfig shouldPreserve now fuel cu canon) (fun _ => held d).
Proof.
  induction fuel as [|fuel IH]; intros d cu canon Hbt Hcu Hf.
  all: assert (Hrest : forall d', grows d d' -> always (held d') (r ← queueRest now cu; mret (canon, r)) (fun _ => held d'))
    by (intros d' Hg; apply held_then; [apply held_queueRest; [by eapply batch_grows|by eapply cursor_grows]|]; intros r; by apply held_value').
  all: pose proof (Hrest d (grows_refl d)) as Hend; simpl; (destruct (cBlock cu) as [b|] eqn:Eb; [|by destruct (cErr cu)]).
  { destruct (cursor_at d cu b Hcu Eb) as (Hi & _). unfold left in Hf. lia. }
  destruct (cursor_at d cu b Hcu Eb) as (Hi & Hl & Hr). destruct (batch_in d _ b Hbt Hl) as [HU Hn].
  destruct (match cErr cu with None => true | _ => isErr ErrKnownBlock (cErr cu) end) eqn:Eok; [|exact Hend].
  assert (Herr : cErr cu = None \/ cErr cu = Some ErrPrunedAncestor \/ cErr cu = Some ErrKnownBlock).
  { destruct (cErr cu) as [e|]; [|by left]. unfold isErr in Eok. apply bool_decide_eq_true in Eok. by right; right. }
  apply held_then; [apply held_stopped|]. intros [|]; [exact Hend|].
  case_if; [apply held_then; [apply held_report|]; intros []; by apply held_value'|].
  eapply held_know; [by apply held_skip|]. intros skip Hskip.
  apply (held_then d).
  - destruct skip.
    + specialize (Hskip eq_refl). rewrite Hskip in Hr. apply held_then; [by apply held_knownInside|]. intros e. by apply held_value'.
    + apply held_intro. intros v Hk Hg. destruct (ready_fits (v_db v) b (cErr cu) (k_store _ _ _ Hk) Hn HU (ready_grows _ _ _ _ Hg Hr) Herr) as (q & Hq).
      eapply triple_conseq; [apply (held_importBlock (v_db v) (cIt cu) b q Hq)|intros s Hs; by apply held_view|intros r s Hs; by eapply held_less|done].
  - intros [status|e]; [|by apply held_value']. eapply held_advance; [done|done|exact Eb|].
    intros d' cu' Hg Hbt' Hcu' Hl' _. apply held_back; [done|]. apply IH; [done|done|lia].
Qed.
End Batch.
End Imported.
