(* ===== verification/ChainSafe.v ===== *)
(** * An import never panics, and keeps the chain in order

    The branch on a pruned state, and the import as a whole, which calls itself
    for the segments of such a branch. *)

From S2P Require Import StateDB StateIface Prelude Hoare Params Types Misc Snapshot Engine Contracts Finalize TxQueue ChainDB HeaderChain BlockChain ChainImport ChainFacts ChainReorg ChainSwitch ChainWrite ChainImported.
Import Headers Chain ChainImporter.

Section Safe.
Context `{Crypto} `{TxSigning} `{Lru L} `{!LruLaws L} `{ChainWorld X T} `{!ChainWorldLaws X T} (U : Block -> Prop) (genesis : Block) `{!Universe U genesis}.
#[local] Abbreviation BC := (BlockChain L X).
#[local] Abbreviation V := (View L X).
Implicit Types (s : BC) (v w : V) (d : ChainDB) (b c p q : Block).
#[local] Abbreviation core := (chain_core U genesis).
#[local] Abbreviation fits := (fits U).
#[local] Abbreviation held := (held (L:=L) (X:=X) (U:=U) (genesis:=genesis)).
#[local] Abbreviation held_with := (held_with (L:=L) (X:=X) (U:=U) (genesis:=genesis)).
#[local] Abbreviation batch_ok := (batch_ok (U:=U)).
#[local] Abbreviation cursor_ok := (cursor_ok (U:=U)).

Section Batch.
Context {chain : list Block} {results : list (option error)}.
#[local] Abbreviation left := (left (chain:=chain)).
(** ** A branch on a pruned state *)

Lemma held_open {A} d (m : ST BC A) Q E : (forall d', grows d d' -> store_ok U genesis d' -> triple (held d') m Q E) -> triple (held d) m Q E.
Proof. intros Hm. apply held_intro. intros v Hk Hg s Hs. apply (Hm (v_db v) Hg (k_store _ _ _ Hk) s). by apply held_view. Qed.
Lemma held_storedTd d b : stored d b -> always (held d) (GetTd (hashOf b) (numberOf b)) (fun r => held_with (fun d' => r = tdOf d' b) d).
Proof.
  intros Hb. apply (held_reads d _ (fun d' r => r = tdOf d' b)). intros v Hk Hg. apply (always_storedTd U genesis v (k_store _ _ _ Hk)). by apply Hg.
Qed.
Lemma held_parentTd d b q : fits d b q -> always (held d) (GetTd (parentHashOf b) (numberOf b -w 1)) (fun r => held_with (fun d' => r = tdOf d' q) d).
Proof.
  intros Hb. apply (held_reads d _ (fun d' r => r = tdOf d' q)). intros v Hk Hg. destruct (fits_grows _ _ _ _ Hg Hb) as (_ & ? & ? & ?).
  by apply (always_parentTd U genesis v (k_store _ _ _ Hk)).
Qed.
Lemma held_HasBlock d b : U b -> always (held d) (HasBlock (hashOf b) (numberOf b)) (fun r => held_with (fun d' => if r then stored d' b else True) d).
Proof.
  intros HU. apply (held_reads d _ (fun d' (r : bool) => if r then stored d' b else True)). intros v Hk Hg. pose proof (k_store _ _ _ Hk) as Hd.
  eapply triple_conseq; [apply (always_HasBlock U genesis v Hd)|done| |done]. intros [|] s (Hs & Ht & _); (split; [done|]); [|done].
  destruct (Ht eq_refl) as (x & Hx & Hh). by rewrite <- (stored_is U genesis _ Hd x b Hx HU Hh).
Qed.
Lemma held_canonical d b (f : bool) : U b -> always (held d) (if f then GetBlockByNumber (numberOf b) else mret None)
  (fun r => held_with (fun d' => match r with Some x => hashOf x = hashOf b -> stored d' b | None => True end) d).
Proof.
  intros HU. destruct f; [|by apply held_gives]. apply (held_reads d _ (fun d' r => match r with Some x => hashOf x = hashOf b -> stored d' b | None => True end)).
  intros v Hk Hg. pose proof (k_store _ _ _ Hk) as Hd. eapply triple_conseq; [apply (always_GetBlockByNumber U genesis v Hd)|done| |done].
  intros [x|] s [Hs Hr]; (split; [done|]); [|done]. intros Hh. rewrite <- (stored_is U genesis _ Hd x b (proj1 Hr) HU Hh). apply Hr.
Qed.

(** What is known of the total difficulty on the way: that of the block before
    the cursor. *)
Definition side d cu (o : option Z) : Prop :=
  match o with
  | None => True
  | Some t => exists i a, itIndex (cIt cu) = Z.of_nat i + 1 /\ chain !! i = Some a /\ stored d a /\ tdOf d a = Some t
  end.
Definition sideTd (b : Block) (externTd : option Z) : ST BC (option Z + error) :=
  parentTd ← (match externTd with Some td => mret (Some td) | None => GetTd (parentHashOf b) (numberOf b -w 1) end);
  match parentTd with
  | None => st_panic
  | Some parentTd =>
      let td := parentTd + difficultyOf (bHeader b) in
      stored ← HasBlock (hashOf b) (numberOf b);
      if (stored : bool) then mret (inl (Some td))
      else
        e ← errorOf (writeBlockWithoutState b td);
        mret (match e with None => inl (Some td) | Some e => inr e end)
  end.
(** The difficulty the next round starts from. *)
Definition settled b d (r : option Z + error) : Prop := match r with inl o => stored d b /\ tdOf d b = o | inr _ => True end.

Lemma side_fits d cu b q o : store_ok U genesis d -> batch_ok d chain results -> cursor_ok d chain results cu -> cBlock cu = Some b -> fits d b q -> side d cu o ->
  o = None \/ tdOf d q = o.
Proof.
  intros Hd Hbt Hcu Eb Hq Hs. destruct o as [t|]; [right|by left]. destruct Hs as (i & a & Hi & Ha & Hst & Ht).
  destruct (cursor_at d cu b Hcu Eb) as (_ & Hl & _). rewrite Hi in Hl. replace (Z.to_nat (Z.of_nat i + 1)) with (S i) in Hl by lia.
  destruct (batch_next d i a b Hbt Ha Hl) as [Hh _]. destruct Hq as (_ & Hqs & Hqh & _).
  by rewrite (stored_inj U genesis d Hd q a Hqs Hst ltac:(congruence)).
Qed.
Lemma held_sideTd d b q o : fits d b q -> o = None \/ tdOf d q = o -> always (held d) (sideTd b o) (fun r => held_with (fun d' => settled b d' r) d).
Proof.
  intros Hb Ho. assert (Hqs : stored d q) by apply Hb. unfold sideTd.
  apply (held_find d _ _ (fun d' r => r = tdOf d' q)).
  { destruct o as [t|]; [|by apply held_parentTd]. apply held_gives. by destruct Ho as [?|Ho]. }
  intros r d1 Hg1 ->. pose proof (fits_grows _ _ _ _ Hg1 Hb) as Hb1. apply held_move; [done|]. apply held_open. intros d2 Hg2 Hd2. pose proof (fits_grows _ _ _ _ Hg2 Hb1) as Hb2.
  destruct (Hg2 q (proj1 (proj2 Hb1))) as [_ <-]. destruct (s_total U genesis _ Hd2 q (proj1 (proj2 Hb2))) as [[tq Htq] _]. rewrite Htq. cbv zeta.
  apply held_move; [done|]. apply (held_find d2 _ _ _ _ _ (held_HasBlock d2 b (proj1 Hb2))). intros [|] d3 Hg3 Hst; (apply held_move; [done|]).
  - apply held_open. intros d4 Hg4 Hd4. apply held_move; [done|]. apply held_gives. pose proof (fits_grows _ _ _ _ Hg4 (fits_grows _ _ _ _ Hg3 Hb2)) as (_ & Hq4 & Hh4 & Hn4).
    assert (Hb4 : stored d4 b) by by apply Hg4. split; [done|]. rewrite Z.add_comm. apply (td_parent U genesis d4 Hd4 b q tq Hb4); [done|].
    destruct (Hg4 q) as [_ ->]; [by apply Hg3, Hb2|]. by destruct (Hg3 q (proj1 (proj2 Hb2))) as [_ ->].
  - rewrite Z.add_comm. pose proof (fits_grows _ _ _ _ Hg3 Hb2) as Hb3. assert (Htq3 : tdOf d3 q = Some tq) by by destruct (Hg3 q (proj1 (proj2 Hb2))) as [_ ->].
    eapply triple_bind; [eapply triple_conseq with (E' := fun _ _ => False); [apply triple_errorOf, (held_storeOnly d3 b q tq Hb3 Htq3)|done|intros e s HQ; exact HQ|done]|].
    intros [e|]; apply triple_value; intros s HQ; [by apply held_with_here|]. by destruct HQ as [_ HQ].
Qed.

Lemma storeSide_round fuel head cu b o : cBlock cu = Some b -> isErr ErrPrunedAncestor (cErr cu) = true ->
  storeSide (S fuel) head cu o =
  (canonical ← (if numberOf b <=? numberOf head then GetBlockByNumber (numberOf b) else mret None);
   let same := match canonical with Some x => hashOf x =? hashOf b | None => false end in
   let ghost := match canonical with Some x => Root (bHeader x) =? Root (bHeader b) | None => false end in
   if negb same && ghost then mret (inr (itIndex (cIt cu), Some (errorf "sidechain ghost-state attack"))) else
   r ← (if same then td ← GetTd (hashOf b) (numberOf b); mret (inl td) else sideTd b o);
   match r with
   | inr e => mret (inr (itIndex (cIt cu), Some e))
   | inl td => cu' ← next (cIt cu); storeSide fuel head cu' td
   end).
Proof. intros Eb Ee. simpl. by rewrite Eb, Ee. Qed.

(** The branch is stored up to the cursor; the difficulty is that of its end. *)
Definition sideStored d cu (o : option Z) (r : option Z * cursor + outcome) : Prop :=
  match r with
  | inl (o', cu') => cursor_ok d chain results cu' /\ side d cu' o' /\ (o <> None \/ cErr cu = Some ErrPrunedAncestor -> o' <> None)
  | inr _ => True
  end.
Lemma side_settled d cu cu' b o : cursor_ok d chain results cu -> cBlock cu = Some b -> itIndex (cIt cu') = itIndex (cIt cu) + 1 ->
  settled b d (inl o) -> side d cu' o.
Proof.
  intros Hcu Eb Hi [Hb Ho]. destruct o as [t|]; [|done]. destruct (cursor_at d cu b Hcu Eb) as (Hr & Hl & _).
  exists (Z.to_nat (itIndex (cIt cu))), b. split; [lia|done].
Qed.
Lemma held_storeSide head : forall fuel d cu o, batch_ok d chain results -> cursor_ok d chain results cu -> side d cu o -> (left cu <= fuel)%nat ->
  always (held d) (storeSide fuel head cu o) (fun r => held_with (fun d' => sideStored d' cu o r) d).
Proof.
  assert (Hstop : forall d cu o, cursor_ok d chain results cu -> side d cu o -> cErr cu <> Some ErrPrunedAncestor -> sideStored d cu o (inl (o, cu)))
    by (intros d cu o Hcu Ho Hne; split; [done|]; split; [done|]; by intros [?|?]).
  induction fuel as [|fuel IH]; intros d cu o Hbt Hcu Ho Hf.
  all: destruct (cBlock cu) as [b|] eqn:Eb; [|simpl; rewrite Eb; apply held_gives, Hstop; [done|done|]; pose proof (cu_block _ _ _ _ Hcu) as Hn; rewrite Eb in Hn; destruct Hn as [-> _]; done].
  { destruct (cursor_at d cu b Hcu Eb) as (Hi & _). unfold left in Hf. lia. }
  destruct (isErr ErrPrunedAncestor (cErr cu)) eqn:Ee; [|simpl; rewrite Eb, Ee; apply held_gives, Hstop; [done|done|]; by apply bool_decide_eq_false in Ee].
  rewrite (storeSide_round fuel head cu b o Eb Ee). apply bool_decide_eq_true in Ee.
  destruct (cursor_at d cu b Hcu Eb) as (Hi & Hl & Hr). destruct (batch_in d _ b Hbt Hl) as [HU Hn]. rewrite Ee in Hr. destruct Hr as (q & Hq).
  apply held_open. intros d0 Hg0 Hd0. apply held_move; [done|]. pose proof (batch_grows _ _ _ _ Hg0 Hbt) as Hbt0. pose proof (cursor_grows _ _ _ _ _ Hg0 Hcu) as Hcu0.
  assert (Hgrow : forall d1 d2 cu1 o1, grows d1 d2 -> side d1 cu1 o1 -> side d2 cu1 o1).
  { intros d1 d2 cu1 [t|] Hg12; [|done]. intros (i & a & ? & ? & Ha & Ht). exists i, a. by destruct (Hg12 a Ha) as [? ->]. }
  pose proof (side_fits d0 cu b q o Hd0 Hbt0 Hcu0 Eb (fits_grows _ _ _ _ Hg0 Hq) (Hgrow _ _ _ _ Hg0 Ho)) as Hoq.
  apply (held_find d0 _ _ _ _ _ (held_canonical d0 b _ HU)). intros canonical d1 Hg1 Hcan. apply held_move; [done|]. cbv zeta.
  case_if; [by apply held_gives|].
  apply (held_find d1 _ _ (fun d' r => settled b d' r)).
  { destruct (match canonical with Some x => hashOf x =? hashOf b | None => false end) eqn:Esame.
    - assert (Hb1 : stored d1 b) by (destruct canonical as [x|]; [apply Hcan; by apply Z.eqb_eq|done]).
      apply (held_find d1 _ _ _ _ _ (held_storedTd d1 b Hb1)). intros r d2 Hg2 ->. apply held_move; [done|]. apply held_gives. split; [by apply Hg2|done].
    - apply (held_sideTd d1 b q); [by eapply fits_grows, fits_grows|]. destruct Hoq as [->|Hoq]; [by left|right].
      by destruct (Hg1 q) as [_ ->]; [apply Hg0, Hq|]. }
  intros r d2 Hg2 Hset. apply held_move; [done|]. destruct r as [td|e]; [|by apply held_gives].
  apply held_open. intros d2' Hg2' Hd2. apply held_move; [done|].
  assert (Hset' : settled b d2' (inl td)) by (destruct Hset as [Hb2 <-]; by destruct (Hg2' b Hb2)).
  assert (Hsome : td <> None) by (destruct Hset' as [Hb2 <-]; destruct (s_total U genesis _ Hd2 b Hb2) as [[t ->] _]; done).
  pose proof (grows_trans _ _ _ Hg1 (grows_trans _ _ _ Hg2 Hg2')) as Hgg.
  eapply held_advance; [by eapply batch_grows|by eapply cursor_grows|exact Eb|]. intros d3 cu' Hg3 Hbt3 Hcu3 Hleft Hi'. apply held_move; [done|].
  assert (Hset3 : settled b d3 (inl td)) by (destruct Hset' as [Hb2 <-]; by destruct (Hg3 b Hb2)).
  eapply triple_conseq; [apply (IH d3 cu' td Hbt3 Hcu3)|done| |done].
  - eapply (side_settled d3 cu); [|done|done|done]. by eapply cursor_grows, cursor_grows.
  - lia.
  - intros [[o' cu'']|out] s (d4 & Hg4 & Hr4 & Hs4); exists d4; (split; [done|]); (split; [|done]); [|done].
    destruct Hr4 as (Hc4 & Hs4' & Hne). split; [done|]. split; [done|]. intros _. apply Hne. by left.
Qed.

End Batch.

(** ** Down to a state that is there, and up again *)

Definition pathKey b : Hash * Z := (hashOf b, numberOf b).
Lemma path_grow d d' x y l : grows d d' -> path d x y l -> path d' x y l.
Proof.
  intros Hg. induction 1 as [|x p y l (Hp & Hh & Hn) _ IH]; [constructor|]. econstructor; [|exact IH]. split; [by apply Hg|done].
Qed.
Lemma held_stateAvailable d r : always (held d) (stateAvailable r) (fun _ => held d).
Proof. intros s Hs. exact Hs. Qed.
Lemma held_parentOf d a : stored d a -> always (held d) (GetHeader (parentHashOf a) (numberOf a -w 1))
  (fun r => held_with (fun d' => match r with Some h => exists p, parent d' a p /\ h = bHeader p | None => True end) d).
Proof.
  intros Ha. apply (held_reads d _ (fun d' r => match r with Some h => exists p, parent d' a p /\ h = bHeader p | None => True end)).
  intros v Hk Hg. pose proof (k_store _ _ _ Hk) as Hd. eapply triple_conseq; [apply (always_GetHeader U genesis v Hd)|done| |done].
  intros [h|] s [Hs Hr]; (split; [done|]); [|done]. destruct (decide (numberOf a = 0)) as [Hz|Hz].
  - assert (a = genesis) as -> by (apply (u_first (U:=U) (genesis:=genesis)); [by apply (stored_U U genesis _ Hd), Hg|done]).
    destruct Hr as (p & Hp & Hph & _). rewrite (u_orphan (U:=U) (genesis:=genesis)) in Hph. by destruct (u_hash (U:=U) (genesis:=genesis) p (stored_U U genesis _ Hd p Hp)).
  - assert (Hne : a <> genesis) by (intros ->; by destruct (u_genesis (U:=U) (genesis:=genesis))).
    destruct (stored_parent U genesis _ Hd a (proj1 (Hg a Ha)) Hne) as (p & Hp). exists p. split; [done|]. destruct Hp as (Hps & Hph & Hpn).
    pose proof (finds_parent U genesis v Hd _ a p (Some h) Hps Hph Hpn Hr). congruence.
Qed.

Definition pathFound a (acc : list (Hash * Z)) d (r : option (list (Hash * Z))) : Prop :=
  match r with Some keys => exists c l, path d a c l /\ keys = acc ++ map pathKey l | None => True end.
Lemma held_prunedPath : forall fuel d a acc, stored d a -> (Z.to_nat (numberOf a) < fuel)%nat ->
  always (held d) (prunedPath fuel (Some (bHeader a)) acc) (fun r => held_with (fun d' => pathFound a acc d' r) d).
Proof.
  induction fuel as [|fuel IH]; intros d a acc Ha Hf; [lia|]. cbn [prunedPath]. apply held_then; [apply held_stateAvailable|].
  intros [|]. { apply held_gives. exists a, []. split; [constructor|]. by rewrite app_nil_r. }
  apply (held_find d _ _ _ _ _ (held_parentOf d a Ha)). intros [h|] d' Hg Hp; apply held_move; try done; [|by destruct fuel; apply held_gives].
  destruct Hp as (p & Hp & ->). pose proof Hp as (Hps & _ & Hn). pose proof (numberOf_nonneg p).
  eapply triple_conseq; [apply (IH d' p); [done|lia]|done| |done]. intros [keys|] s (d2 & Hg2 & Hr & Hs); exists d2; (split; [done|]); (split; [|done]); [|done].
  destruct Hr as (c & l & Hl & ->). exists c, (a :: l). split; [|by rewrite <- app_assoc]. econstructor; [|exact Hl].
  split; [by apply Hg2|apply Hp].
Qed.

(** A batch as the chain gives it to itself. *)
Definition importable (chain : list Block) : Prop := Forall (fun b => U b /\ 0 < numberOf b) chain /\ contiguous chain = true.
Lemma contiguous_prefix l1 l2 : contiguous (l1 ++ l2) = true -> contiguous l1 = true /\ contiguous l2 = true.
Proof.
  induction l1 as [|x l1 IH]; [done|]. intros Hc. destruct l1 as [|y l1].
  - split; [done|]. destruct l2 as [|y l2]; [done|]. simpl in Hc. by apply andb_prop in Hc as [_ Hc].
  - change (contiguous ((x :: y :: l1) ++ l2)) with ((numberOf y =? numberOf x +w 1) && (parentHashOf y =? hashOf x) && contiguous ((y :: l1) ++ l2)) in Hc.
    apply andb_prop in Hc as [Hxy Hc]. destruct (IH Hc) as [I1 I2]. split; [|done]. simpl. by rewrite Hxy.
Qed.
Lemma contiguous_snoc l b : contiguous l = true -> (forall l0 a, l = l0 ++ [a] -> numberOf b = numberOf a +w 1 /\ parentHashOf b = hashOf a) -> contiguous (l ++ [b]) = true.
Proof.
  induction l as [|x l IH]; intros Hc Hend; [done|]. destruct l as [|y l].
  - destruct (Hend [] x eq_refl) as [Hn Hh]. simpl. by rewrite Hn, Hh, !Z.eqb_refl.
  - change (contiguous ((x :: y :: l) ++ [b])) with ((numberOf y =? numberOf x +w 1) && (parentHashOf y =? hashOf x) && contiguous ((y :: l) ++ [b])).
    simpl in Hc. apply andb_prop in Hc as [Hxy Hc]. rewrite Hxy. apply IH; [done|]. intros l0 a El. apply (Hend (x :: l0)). by rewrite El.
Qed.
Lemma importable_app l1 l2 : importable (l1 ++ l2) -> importable l1 /\ importable l2.
Proof. intros [HF Hc]. apply list.Forall_app in HF as [HF1 HF2]. by destruct (contiguous_prefix _ _ Hc). Qed.

Lemma path_importable d a c l : store_ok U genesis d -> stored d a -> path d a c l -> importable (rev l) /\ (forall x, head l = Some x -> x = a).
Proof.
  intros Hd Ha Hl. induction Hl as [a|a p c l Hp Hl IH]; [by split|]. split; [|by intros x [= <-]].
  pose proof Hp as (Hps & Hph & Hpn). destruct (IH Hps) as [[HF Hc] Hhd]. pose proof (stored_range U genesis d Hd p Hps). split.
  - apply list.Forall_app. split; [done|]. constructor; [|done]. split; [by apply (stored_U U genesis d Hd)|lia].
  - simpl. apply contiguous_snoc; [done|]. intros l0 x Hx. assert (Hx' : head l = Some x) by (by rewrite <- (rev_involutive l), Hx, rev_app_distr).
    rewrite (Hhd x Hx'). split; [|done]. rewrite u64_small; [done|]. unfold is_u64. lia.
Qed.

(** ** The import *)
Variables (createAddress : Address -> Z -> Address) (chainConfig : ChainConfig) (shouldPreserve : option (Block -> bool)) (now : Z).

(** Only the depth of the calls may run out. *)
Definition deep d (e : error) s : Prop := held d s /\ e = ErrOutOfFuel.
Definition inserts (insert : list Block -> bool -> ST BC outcome) : Prop :=
  forall d chain seals, importable chain -> chain <> [] -> triple (held d) (insert chain seals) (fun _ => held d) (deep d).

Lemma deep_less {A} d d' (m : ST BC A) : grows d d' -> triple (held d') m (fun _ => held d') (deep d') -> triple (held d') m (fun _ => held d) (deep d).
Proof.
  intros Hg Hm. eapply triple_conseq; [exact Hm|done| |].
  - intros r s. by apply held_less.
  - intros e s [Hs He]. split; [by eapply held_less|done].
Qed.
Lemma deep_always {A} d (m : ST BC A) (Q : A -> BC -> Prop) : always (held d) m Q -> triple (held d) m Q (deep d).
Proof. intros Hm. eapply triple_conseq; [exact Hm|done|done|done]. Qed.

(** No pruned ancestor. *)
Definition calm (cu : cursor) : Prop := cErr cu <> Some ErrPrunedAncestor.

Section Segments.
Variable insert : list Block -> bool -> ST BC outcome.
Hypothesis Hinsert : inserts insert.

Lemma held_GetBlock d b : stored d b -> always (held d) (GetBlock (hashOf b) (numberOf b)) (fun r s => held d s /\ r = Some b).
Proof.
  intros Hb. apply held_intro. intros v Hk Hg. pose proof (k_store _ _ _ Hk) as Hd. destruct (Hg b Hb) as [Hbv _].
  eapply triple_conseq; [apply (always_GetBlock U genesis v Hd)|done| |done]. intros r s [Hs Hr]. split; [by exists v|].
  by apply (finds_stored U genesis v Hd Some b).
Qed.

Lemma held_importSegments d : forall l blocks memory, Forall (stored d) l -> importable (blocks ++ l) ->
  triple (held d) (importSegments insert (map pathKey l) blocks memory) (fun _ => held d) (deep d).
Proof.
  induction l as [|b l IH]; intros blocks memory Hst Himp; simpl.
  - rewrite app_nil_r in Himp. destruct blocks as [|x blocks]; [by apply triple_value|]. by apply Hinsert.
  - inversion_clear Hst as [|? ? Hb Hst']. eapply held_know; [by apply held_GetBlock|]. intros r ->. cbv zeta.
    change (b :: l) with ([b] ++ l) in Himp. rewrite app_assoc in Himp. destruct (importable_app _ _ Himp) as [Hfirst Hrest].
    case_if; [|by apply IH].
    eapply triple_bind; [apply (Hinsert d); [done|by destruct blocks]|]. intros [i [e|]]; [by apply triple_value|]. simpl.
    apply held_then; [apply held_stopped|]. intros [|]; [by apply triple_value|]. by apply IH.
Qed.

Lemma held_insertSideChain chain results d cu b : batch_ok d chain results -> cursor_ok d chain results cu -> cBlock cu = Some b -> cErr cu = Some ErrPrunedAncestor ->
  triple (held d) (insertSideChain insert cu) (fun _ => held d) (deep d).
Proof.
  intros Hbt Hcu Eb Ee. destruct (cursor_at d cu b Hcu Eb) as (Hi & _).
  unfold insertSideChain. apply held_intro. intros v Hk Hg. apply triple_look. intros s Hs.
  assert (Eh : currentBlock s = v_head v) by (destruct Hs as [<- _]; done). rewrite Eh. clear s Hs Eh. cbv zeta. pose proof (k_head _ _ _ Hk) as Hhs.
  eapply triple_conseq with (P' := held (v_db v)) (E' := deep (v_db v)); [|intros s Hs; by apply held_view|intros r s Hs; exact (held_less _ _ _ Hg Hs)|intros e s [Hs He]; split; [exact (held_less _ _ _ Hg Hs)|done]].
  eapply held_find; [apply (held_storeSide (chain:=chain) (results:=results)); [by eapply batch_grows|by eapply cursor_grows|done|]|].
  { rewrite (cu_chain _ _ _ _ Hcu). unfold left, zlen in *. lia. }
  intros [[o cu']|out] d1 Hg1 Hr; apply deep_less; try done; [|by apply triple_value].
  destruct Hr as (Hcu' & Hside & Hne). destruct o as [t|]; [|by destruct (Hne (or_intror Ee))].
  destruct Hside as (i & a & Hia & Ha & Hast & _). destruct (Hg1 _ Hhs) as [Hhs1 _].
  eapply held_find; [by apply held_storedTd|]. intros r d2 Hg2 ->. apply deep_less; [done|]. apply held_open. intros d3 Hg3 Hd3. apply deep_less; [done|].
  destruct (Hg2 _ Hhs1) as [Hhs2 Ht2]. destruct (s_total U genesis _ Hd3 _ (proj1 (Hg3 _ Hhs2))) as [[th Hth] _]. destruct (Hg3 _ Hhs2) as [_ Ht3].
  rewrite <- Ht3, Hth. case_if; [by apply triple_value|]. cbv zeta.
  assert (Hprev : previous (cIt cu') = Some (bHeader a)).
  { unfold previous. rewrite (proj2 (Z.ltb_ge _ 1)) by lia. unfold blockAt. rewrite (proj2 (Z.ltb_ge _ 0)), (cu_chain _ _ _ _ Hcu') by lia.
    replace (Z.to_nat (itIndex (cIt cu') - 1)) with i by lia. by rewrite Ha. }
  rewrite Hprev. assert (Ha3 : stored d3 a) by by apply Hg3, Hg2.
  eapply held_find; [apply (held_prunedPath _ d3 a [] Ha3); change (NumberU64 (bHeader a)) with (numberOf a); lia|].
  intros [keys|] d4 Hg4 Hfound; apply deep_less; try done; [|by apply triple_value].
  destruct Hfound as (c & l & Hl & ->). simpl. rewrite <- map_rev. apply held_open. intros d5 Hg5 Hd5. apply deep_less; [done|].
  pose proof (Hg5 _ (proj1 (Hg4 _ Ha3))) as [Ha5 _]. pose proof (path_grow _ _ _ _ _ Hg5 Hl) as Hl5.
  apply held_importSegments; [|by apply (path_importable d5 a c)]. apply List.Forall_rev. by eapply (path_stored d5).
Qed.

(** From a cursor that says nothing of a pruned ancestor the import does not
    call itself. *)
Lemma calm_directImport chain results d first pr : batch_ok d chain results -> cursor_ok d chain results (pCursor pr) -> calm (pCursor pr) ->
  always (held d) (directImport createAddress chainConfig shouldPreserve now insert first pr) (fun _ => held d).
Proof.
  intros Hbt Hcu Hcalm. unfold directImport. cbv zeta. apply triple_look. intros s _.
  assert (Hfuel : (left (chain:=chain) (pCursor pr) <= S (length (itChain (cIt (pCursor pr)))))%nat).
  { apply (left_all _ d Hcu). pose proof (cursor_index _ _ Hcu). lia. }
  assert (Hloop : forall canon, always (held d) (importLoop createAddress chainConfig shouldPreserve now (S (length (itChain (cIt (pCursor pr))))) (pCursor pr) canon) (fun _ => held d))
    by (intros canon; by apply (held_importLoop (chain:=chain) (results:=results))).
  unfold isErr at 1. rewrite bool_decide_eq_false_2 by done.
  case_if; [apply held_then; [by apply (held_queueBlocks (chain:=chain) (results:=results))|]; intros r; by apply triple_value|].
  destruct (cErr (pCursor pr)) as [e|] eqn:Ee; [|apply Hloop]. case_if; [|apply Hloop].
  destruct (cursor_block d _ _ Hcu Ee) as (b & Eb). unfold headerOfCursor. rewrite Eb.
  apply held_then; [by apply triple_value|]. intros b0. apply held_then; [apply held_forget|]. intros _.
  apply held_then; [apply held_report|]. intros _. by apply triple_value.
Qed.
Lemma held_directImport chain results d first pr : batch_ok d chain results -> cursor_ok d chain results (pCursor pr) ->
  triple (held d) (directImport createAddress chainConfig shouldPreserve now insert first pr) (fun _ => held d) (deep d).
Proof.
  intros Hbt Hcu. destruct (decide (cErr (pCursor pr) = Some ErrPrunedAncestor)) as [Ep|Ep]; [|by apply deep_always, (calm_directImport chain results)].
  destruct (cursor_block d _ _ Hcu Ep) as (b & Eb). unfold directImport. cbv zeta. apply triple_look. intros s _.
  unfold isErr at 1. rewrite bool_decide_eq_true_2 by done.
  eapply triple_bind; [by apply (held_insertSideChain chain results d _ b)|]. intros r. by apply triple_value.
Qed.
End Segments.

(** The verifier is asked about the headers on the chain as it is. *)
Lemma reader_parent v s h n x : core v -> at_view v s -> Types.GetHeader (readerOf chainConfig s) h n = Some x -> exists b, stored (v_db v) b /\ hashOf b = h /\ bHeader b = x.
Proof.
  intros Hk Hs Hx. pose proof (always_GetHeader U genesis v (k_store _ _ _ Hk) h n s Hs) as Hm. unfold readerOf in Hx. simpl in Hx. unfold answer in Hx.
  unfold GetHeader, on_hc in Hm. destruct (Headers.GetHeader h n (hc s)) as [[o|e|] c1]; simpl in Hx; try done. subst o. destruct Hm as [_ (b & Hb & Hh & Hf)].
  exists b. split; [done|]. split; [done|congruence].
Qed.
Lemma held_verified d chain seals : importable chain ->
  always (held d) (s ← st_get; on_world (verifyHeaders (readerOf chainConfig s) (bHeader <$> chain) seals)) (fun results => held_with (fun d' => batch_ok d' chain results) d).
Proof.
  intros [HF Hc]. apply held_intro. intros v Hk Hg. apply triple_get. intros s Hs s' ->. unfold on_world.
  destruct (verify_ends (readerOf chainConfig s) (bHeader <$> chain) seals (world s)) as (results & x & Ev & Hlen & Hp1 & Hp2). rewrite Ev. simpl.
  assert (Hheld : held (v_db v) (set_world x s)).
  { apply held_near; [done|]. eapply near_step; [apply near_here; [apply (k_store _ _ _ Hk)|exact Hs]|..]; try done. intros h c Hm. by left. }
  exists (v_db v). split; [done|]. split; [|done]. constructor; [done|done|done|]. intros b Hb Hr. destruct chain as [|b0 chain]; [done|]. simpl in Hb. simplify_eq.
  pose proof (Forall_inv HF) as [HU Hn]. destruct results as [|r results]; [done|]. simpl in Hr. subst r. rewrite fmap_cons in Ev.
  destruct (verify_linked (readerOf chainConfig s) (bHeader b) (bHeader <$> chain) seals (world s) results x Ev) as (h & Hh & Hnum).
  { change (NumberU64 (bHeader b)) with (numberOf b). lia. }
  destruct (reader_parent v s _ _ h Hk Hs Hh) as (q & Hq & Hqh & <-). by exists q.
Qed.

Lemma held_note d o (b : Block) : always (held d) (match o with Some x => if hashOf b =? hashOf x then send (ChainHeadEvent x) else mret tt | None => mret tt end) (fun _ => held d).
Proof. destruct o as [x|]; [|by apply held_value']. case_if; [apply held_send|by apply held_value']. Qed.
Lemma held_ask {A B} d (f : BC -> ST BC A) (k : A -> ST BC B) (phi : ChainDB -> A -> Prop) Q E :
  always (held d) (st_get ≫= f) (fun r => held_with (fun d' => phi d' r) d) -> (forall r d', grows d d' -> phi d' r -> triple (held d') (k r) Q E) ->
  triple (held d) (s ← st_get; r ← f s; k r) Q E.
Proof. intros Hf Hk. exact (held_find d (st_get ≫= f) k phi Q E Hf Hk). Qed.

Lemma insertChain_inserts : forall fuel, inserts (insertChain createAddress chainConfig shouldPreserve now fuel).
Proof.
  induction fuel as [|fuel IH]; intros d chain seals Himp Hne; [by intros s Hs|]. cbn [insertChain].
  apply held_then; [apply held_stopped|]. intros [|]; [by apply triple_value|]. destruct chain as [|first rest]; [done|].
  eapply held_ask; [by apply held_verified|]. intros results d1 Hg1 Hbt. cbv beta in Hbt. apply deep_less; [done|].
  eapply held_find; [apply (held_next (chain:=first :: rest) (results:=results) d1 (newInsertIterator (first :: rest) results)); [exact Hbt|done|done|]; cbn [itIndex newInsertIterator]; unfold zlen; simpl; lia|].
  intros cu d2 Hg2 [Hcu _]. apply deep_less; [done|]. pose proof (batch_grows _ _ _ _ Hg2 Hbt) as Hbt2.
  eapply held_find; [apply (held_leftTrim createAddress d2 cu Hbt2 Hcu)|]. intros pr d3 Hg3 Hpr. cbv beta in Hpr. apply deep_less; [done|]. pose proof (batch_grows _ _ _ _ Hg3 Hbt2) as Hbt3.
  eapply (triple_bind (held d3) _ _ (fun _ => held d3)); [destruct (pDone pr); [by apply triple_value|apply (held_directImport _ IH (first :: rest) results d3 (parentHashOf first) pr Hbt3 Hpr)]|].
  intros [canon out]. apply deep_always. apply triple_look. intros s _. apply held_then; [apply held_note|]. intros _. by apply triple_value.
Qed.

(** ** From outside *)
Lemma held_inside {A} d (f : BC -> ST BC A) : (forall s, triple (held d) (f s) (fun _ => held d) (deep d)) ->
  triple (held d) (_ ← send (BlockProcEvent true); s ← st_get; r ← f s; _ ← send (BlockProcEvent false); mret r) (fun _ => held d) (deep d).
Proof.
  intros Hf. apply held_then; [apply held_send|]. intros _. apply triple_look. intros s _. eapply triple_bind; [apply Hf|]. intros r. apply deep_always.
  apply held_then; [apply held_send|]. intros _. by apply triple_value.
Qed.
Lemma held_InsertChain fuel d chain : Forall (fun b => U b /\ 0 < numberOf b) chain ->
  triple (held d) (InsertChain createAddress chainConfig shouldPreserve now fuel chain) (fun _ => held d) (deep d).
Proof.
  intros HF. destruct chain as [|b chain]; [by apply triple_value|]. eapply (held_inside d). intros s.
  destruct (contiguous (b :: chain)) eqn:Ec; cbn [negb]; [|by apply triple_value].
  case_if; [by apply triple_value|]. by apply insertChain_inserts.
Qed.
Lemma held_procFutureBlocks fuel d : triple (held d) (procFutureBlocks createAddress chainConfig shouldPreserve now fuel) (fun _ => held d) (deep d).
Proof.
  apply triple_look. intros s Hs0. assert (HF : Forall (fun b => U b /\ 0 < numberOf b) (merge_sort byNumber (lru_values (futureBlocks s)))).
  { destruct Hs0 as (v & Hk & _ & <- & _). rewrite merge_sort_Permutation. apply list.Forall_forall. intros b Hb.
    apply lru_values_mem in Hb as [h Hm]. exact (k_future _ _ _ Hk h b Hm). }
  clear Hs0. induction HF as [|b l Hb HF IH]; [by apply triple_value|]. cbn [st_each].
  eapply (triple_bind (held d) _ _ (fun _ => held d)); [|intros []; exact IH].
  eapply triple_bind; [by apply held_InsertChain; constructor|]. intros r. by apply triple_value.
Qed.

(** ** A batch on a state that is there

    Its import ends at once: no cursor says that an ancestor is pruned. *)

Definition heldIn (x : X) d s : Prop := held d s /\ world s = x.

Lemma heldIn_intro {A} x d (m : ST BC A) Q E : (forall v, core v -> grows d (v_db v) -> v_world v = x -> triple (at_view v) m Q E) -> triple (heldIn x d) m Q E.
Proof. intros Hm s [(v & Hk & Hg & Hs) Hw]. apply (Hm v Hk Hg); [destruct Hs as [<- _]; exact Hw|exact Hs]. Qed.
Lemma heldIn_view v s : core v -> at_view v s -> heldIn (v_world v) (v_db v) s.
Proof. intros Hk Hs. split; [by apply held_view|]. by destruct Hs as [<- _]. Qed.
Lemma heldIn_still {A} x d (m : ST BC A) : always (held d) m (fun _ => held d) -> preserves (fun s => world s = x) m -> always (heldIn x d) m (fun _ => heldIn x d).
Proof.
  intros Hm Hp s [Hs Hw]. specialize (Hm s Hs). specialize (Hp s Hw). unfold heldIn. destruct (m s) as [[a|e|] s']; [by split|done|done].
Qed.
Lemma heldIn_then {A B} x d (m : ST BC A) (k : A -> ST BC B) Q E :
  always (held d) m (fun _ => held d) -> preserves (fun s => world s = x) m -> (forall r, triple (heldIn x d) (k r) Q E) -> triple (heldIn x d) (m ≫= k) Q E.
Proof.
  intros Hm Hp Hk. eapply triple_bind; [|exact Hk]. eapply triple_conseq; [by apply heldIn_still|done|done|done].
Qed.
Lemma heldIn_forget x d {A} (m : ST BC A) Q E : triple (held d) m Q E -> triple (heldIn x d) m Q E.
Proof. intros Hm s [Hs _]. by apply Hm. Qed.

Lemma switched_world v b v' : switched createAddress v b v' -> v_world v' = v_world v.
Proof. intros [_|c lo ln above _ _]; [done|]. by destruct (adopted_rest (rev (drop 1 ln)) v) as (_ & _ & _ & _ & Hw & _). Qed.
Lemma heldIn_known x d b : stored d b -> always (heldIn x d) (writeKnownBlock createAddress b) (fun _ => heldIn x d).
Proof.
  intros Hb. apply heldIn_intro. intros v Hk Hg <-. destruct (Hg b Hb) as [Hbv _].
  eapply triple_conseq; [apply (always_writeKnownBlock U genesis createAddress v b Hk Hbv)|done| |done]. intros [] s (v' & Hsw & Hs).
  destruct (switched_core U genesis createAddress v b v' Hk Hbv Hsw) as (Hk' & _ & [Hsame _]). split.
  - exists v'. split; [done|]. split; [eapply grows_trans; [exact Hg|by apply grows_same]|done].
  - rewrite <- (switched_world v b v' Hsw). by destruct Hs as [<- _].
Qed.

Section Calm.
Context {chain : list Block} {results : list (option error)}.
#[local] Abbreviation left := (left (chain:=chain)).

(** A cursor on a known block, or any other that is calm. *)
#[local] Abbreviation alive := (alive (U:=U)).
Definition quiet x d cu : Prop := cursor_ok d chain results cu /\ alive x d cu /\ calm cu.

Lemma heldIn_advance {A} x d it (k : cursor -> ST BC A) Q E : batch_ok d chain results ->
  itChain it = chain -> itErrors it = results -> -1 <= itIndex it < zlen chain ->
  (forall d' b, grows d d' -> store_ok U genesis d' -> chain !! Z.to_nat (itIndex it + 1) = Some b -> (exists q, fits d' b q) -> exists q, fits d' b q /\ HasState (Root (bHeader q)) x = true) ->
  (forall d' cu', grows d d' -> batch_ok d' chain results -> quiet x d' cu' -> itIndex (cIt cu') = itIndex it + 1 -> triple (heldIn x d') (k cu') Q E) ->
  triple (heldIn x d) (next it ≫= k) Q E.
Proof.
  intros Hbt Hch Hre Hi Hstate Hk. apply heldIn_intro. intros v Hkv Hg <-. pose proof (batch_grows _ _ _ _ Hg Hbt) as Hbtv. pose proof (k_store _ _ _ Hkv) as Hd.
  eapply triple_bind; [eapply triple_conseq with (E' := fun _ _ => False); [by apply (at_next v it Hkv Hbtv)|done|intros cu s HQ; exact HQ|done]|].
  intros cu s (Hs & Hcu & Hix & Hal). apply (Hk (v_db v) cu Hg Hbtv); [|done|by apply heldIn_view]. split; [done|]. split; [done|].
  intros Hpr. destruct (cursor_block (chain:=chain) (results:=results) _ cu _ Hcu Hpr) as (b & Eb). destruct (cursor_at _ cu b Hcu Eb) as (_ & Hl & Hr).
  rewrite Hix in Hl. rewrite Hpr in Hr. destruct (Hstate (v_db v) b Hg Hd Hl Hr) as (q & Hq & Ht). unfold alive in Hal. rewrite Eb in Hal. destruct Hal as [Hal _]. rewrite (Hal Hpr q Hq) in Ht. done.
Qed.
(** After a known block. *)
Lemma heldIn_next {A} x d cu b (k : cursor -> ST BC A) Q E : batch_ok d chain results -> quiet x d cu -> cBlock cu = Some b -> cErr cu = Some ErrKnownBlock ->
  (forall d' cu', grows d d' -> batch_ok d' chain results -> quiet x d' cu' -> left cu = S (left cu') -> triple (heldIn x d') (k cu') Q E) ->
  triple (heldIn x d) (next (cIt cu) ≫= k) Q E.
Proof.
  intros Hbt (Hcu & Hal & _) Eb Ee Hk. destruct (cursor_at d cu b Hcu Eb) as (Hi & Hl & Hr). rewrite Ee in Hr. simpl in Hr. unfold alive in Hal. rewrite Eb in Hal.
  apply (heldIn_advance x d (cIt cu)); [done|apply Hcu|apply Hcu|lia| |].
  - intros d' b' Hg Hd Hl' (q & Hq). exists q. split; [done|]. replace (Z.to_nat (itIndex (cIt cu) + 1)) with (S (Z.to_nat (itIndex (cIt cu)))) in Hl' by lia.
    destruct (batch_next d _ b b' Hbt Hl Hl') as [Hh _]. destruct Hq as (_ & Hqs & Hqh & _).
    rewrite (stored_inj U genesis d' Hd q b Hqs ltac:(by apply Hg) ltac:(congruence)). by apply Hal.
  - intros d' cu' Hg Hbt' Hq' Hix. apply Hk; try done. unfold left. rewrite Hix. lia.
Qed.
Lemma heldIn_skip x d cu : cursor_ok d chain results cu ->
  always (heldIn x d) (skipBlock (cErr cu) (cIt cu)) (fun r s => heldIn x d s /\ (r = true -> cErr cu = Some ErrKnownBlock)).
Proof.
  intros Hcu. apply heldIn_intro. intros v Hk Hg <-. eapply triple_conseq; [apply (at_skip (chain:=chain) (results:=results) v cu Hk); by eapply cursor_grows|done| |done].
  intros r s [Hs Hr]. split; [|done]. split; [by exists v|by destruct Hs as [<- _]].
Qed.
Lemma heldIn_know {A B} x d (m : ST BC A) (k : A -> ST BC B) (phi : A -> Prop) Q E :
  always (heldIn x d) m (fun r s => heldIn x d s /\ phi r) -> (forall r, phi r -> triple (heldIn x d) (k r) Q E) -> triple (heldIn x d) (m ≫= k) Q E.
Proof. intros Hm Hk. eapply (triple_learn (heldIn x d)); [|exact Hk]. eapply triple_conseq; [exact Hm|done|done|done]. Qed.

Definition quietly x (f : ChainDB -> Prop) d s : Prop := exists d', grows d d' /\ batch_ok d' chain results /\ f d' /\ heldIn x d' s.
Lemma quietly_less x f d d' s : grows d d' -> quietly x f d' s -> quietly x f d s.
Proof. intros Hg (d'' & Hg' & ? & ? & ?). exists d''. split; [by eapply grows_trans|done]. Qed.
Lemma quietly_here {A} x d (a : A) (f : A -> ChainDB -> Prop) : batch_ok d chain results -> f a d -> always (heldIn x d) (mret a) (fun r => quietly x (f r) d).
Proof. intros Hbt Hf. apply triple_value. intros s Hs. exists d. split; [apply grows_refl|done]. Qed.
Lemma quietly_move {A} x d d' (m : ST BC A) f : grows d d' -> always (heldIn x d') m (fun r => quietly x (f r) d') -> always (heldIn x d') m (fun r => quietly x (f r) d).
Proof. intros Hg Hm. eapply triple_conseq; [exact Hm|done| |done]. intros r s. by apply quietly_less. Qed.

Lemma quiet_skipKnown x localTd : forall fuel d cu externTd, batch_ok d chain results -> quiet x d cu -> (left cu <= fuel)%nat ->
  always (heldIn x d) (skipKnown fuel cu localTd externTd) (fun cu' => quietly x (fun d' => quiet x d' cu') d).
Proof.
  induction fuel as [|fuel IH]; intros d cu externTd Hbt Hq Hf; pose proof Hq as (Hcu & _); simpl; (destruct (cBlock cu) as [b|] eqn:Eb; [|by apply quietly_here]).
  { destruct (cursor_at d cu b Hcu Eb) as (Hi & _). unfold left in Hf. lia. }
  eapply heldIn_know; [by apply heldIn_skip|]. intros [|] Hskip; [|by apply quietly_here]. cbn [negb]. case_if; [by apply quietly_here|].
  eapply heldIn_next; [done|done|exact Eb|by apply Hskip|]. intros d' cu' Hg Hbt' Hq' Hl. apply quietly_move; [done|]. apply IH; [done|done|lia].
Qed.
Lemma quiet_adoptKnown x : forall fuel d cu canon, batch_ok d chain results -> quiet x d cu -> (left cu <= fuel)%nat ->
  always (heldIn x d) (adoptKnown createAddress fuel cu canon) (fun pr => quietly x (fun d' => quiet x d' (pCursor pr)) d).
Proof.
  induction fuel as [|fuel IH]; intros d cu canon Hbt Hq Hf; pose proof Hq as (Hcu & _); simpl; (destruct (cBlock cu) as [b|] eqn:Eb; [|by apply quietly_here]).
  { destruct (cursor_at d cu b Hcu Eb) as (Hi & _). unfold left in Hf. lia. }
  eapply heldIn_know; [by apply heldIn_skip|]. intros [|] Hskip; [|by apply quietly_here]. cbn [negb]. specialize (Hskip eq_refl).
  destruct (cursor_at d cu b Hcu Eb) as (_ & _ & Hr). rewrite Hskip in Hr. simpl in Hr.
  eapply (heldIn_know x d _ _ (fun e => e = None)).
  { eapply triple_conseq with (E' := fun _ _ => False); [apply triple_errorOf; by apply heldIn_known|done| |done].
    intros [e|] s HQ; [done|]. destruct HQ as [? ?]. done. }
  intros e ->. eapply heldIn_next; [done|done|exact Eb|done|]. intros d' cu' Hg Hbt' Hq' Hl. apply quietly_move; [done|]. apply IH; [done|done|lia].
Qed.
Lemma quiet_leftTrim x d cu : batch_ok d chain results -> quiet x d cu ->
  always (heldIn x d) (leftTrim createAddress cu) (fun pr => quietly x (fun d' => quiet x d' (pCursor pr)) d).
Proof.
  intros Hbt Hq. apply heldIn_intro. intros v Hk Hg <-. pose proof Hq as (Hcu & Hal & Hcalm).
  assert (Hbtv : batch_ok (v_db v) chain results) by by eapply batch_grows. assert (Hcuv : cursor_ok (v_db v) chain results cu) by by eapply cursor_grows.
  assert (Halv : alive (v_world v) (v_db v) cu) by (unfold alive in *; destruct (cBlock cu); [split; [by intros He; destruct Hcalm|apply Hal]|done]).
  assert (Hqv : quiet (v_world v) (v_db v) cu) by done.
  assert (Hstay : forall s, at_view v s -> quietly (v_world v) (fun d' => quiet (v_world v) d' cu) d s) by (intros s Hs; exists (v_db v); split; [done|]; split; [done|]; split; [done|by apply heldIn_view]).
  destruct (decide (cErr cu = Some ErrKnownBlock)) as [He|He]; [|by apply skip_other].
  apply (at_leftTrim (chain:=chain) (results:=results)); [done|done|done|done| |exact Hstay]. intros localTd externTd. unfold trimTo. cbv zeta.
  eapply triple_conseq with (P' := heldIn (v_world v) (v_db v)) (E' := fun _ _ => False); [|intros s' Hs'; by apply heldIn_view|intros pr s' HQ; eapply quietly_less; [exact Hg|exact HQ]|done].
  eapply triple_bind; [eapply triple_conseq with (E' := fun _ _ => False); [apply (quiet_skipKnown (v_world v) localTd _ (v_db v)); [done|done|apply (left_all cu (v_db v) Hcuv); pose proof (cursor_index _ cu Hcuv); lia]|done|intros r s' HQ; exact HQ|done]|].
  intros cu' s' (d' & Hg' & Hbt' & Hq' & Hs'). revert s' Hs'. apply quietly_move; [done|]. apply quiet_adoptKnown; [done|done|].
  pose proof (cursor_index d' cu' (proj1 Hq')). rewrite (cu_chain _ _ _ _ Hcu). unfold left, zlen in *. lia.
Qed.
End Calm.

(** The verifier leaves the states alone. *)
Lemma heldIn_verified x d chain seals root : importable chain -> HasState root x = true ->
  always (heldIn x d) (s ← st_get; on_world (verifyHeaders (readerOf chainConfig s) (bHeader <$> chain) seals))
    (fun results s => exists d' x', grows d d' /\ batch_ok d' chain results /\ HasState root x' = true /\ heldIn x' d' s).
Proof.
  intros Himp Hst s [Hs Hx]. pose proof (held_verified d chain seals Himp s Hs) as Hv. unfold mbind, st_bind, st_get, on_world in *.
  pose proof (verify_keeps (readerOf chainConfig s) (bHeader <$> chain) seals (world s) root ltac:(by rewrite Hx)) as Hkeep.
  destruct (verifyHeaders _ _ _ _) as [[results|e|] x']; [|done|done]. destruct Hv as (d' & Hg & Hbt & Hh). exists d', x'. split; [done|]. split; [done|]. split; [exact Hkeep|]. by split.
Qed.

Lemma rooted_insertChain x d fuel first rest seals p : importable (first :: rest) -> fits d first p -> HasState (Root (bHeader p)) x = true ->
  always (heldIn x d) (insertChain createAddress chainConfig shouldPreserve now (S fuel) (first :: rest) seals) (fun _ => held d).
Proof.
  intros Himp Hp Hst. cbn [insertChain]. apply heldIn_then; [apply held_stopped| |].
  { intros s Hs. unfold insertStopped, on_hc. by destruct (interrupted (hc s)). }
  intros [|]; [apply triple_value; by intros s [Hs _]|].
  eapply (triple_bind (heldIn x d) (st_get ≫= _) _ _ _ _ (heldIn_verified x d (first :: rest) (map (fun _ => seals) (first :: rest)) _ Himp Hst)).
  intros results. apply triple_exists. intros d1. apply triple_exists. intros x1. apply triple_pure. intros Hg1. apply triple_pure. intros Hbt. apply triple_pure. intros Hst1.
  apply (heldIn_advance (chain:=first :: rest) (results:=results) x1 d1); [done|done|done|cbn [itIndex newInsertIterator]; unfold zlen; simpl; lia| |].
  { intros d' b Hg _ Hl _. injection Hl as <-. exists p. split; [|done]. eapply fits_grows, fits_grows; [exact Hg|exact Hg1|exact Hp]. }
  intros d2 cu Hg2 Hbt2 Hq _. pose proof (grows_trans _ _ _ Hg1 Hg2) as Hg12.
  eapply triple_bind; [eapply triple_conseq with (E' := fun _ _ => False); [by apply (quiet_leftTrim (chain:=first :: rest) (results:=results) x1 d2)|done|intros pr s HQ; exact HQ|done]|].
  intros pr s (d3 & Hg3 & Hbt3 & (Hcu3 & _ & Hcalm) & Hs & _). pose proof (grows_trans _ _ _ Hg12 Hg3) as Hg13. revert s Hs. apply held_back; [done|].
  apply held_then; [destruct (pDone pr); [by apply triple_value|by apply (calm_directImport _ (first :: rest) results)]|].
  intros [canon out]. apply triple_look. intros s _. apply held_then; [apply held_note|]. intros _. by apply triple_value.
Qed.
Lemma rooted_InsertChain x d fuel first rest p : Forall (fun b => U b /\ 0 < numberOf b) (first :: rest) -> fits d first p -> HasState (Root (bHeader p)) x = true ->
  always (heldIn x d) (InsertChain createAddress chainConfig shouldPreserve now (S fuel) (first :: rest)) (fun _ => held d).
Proof.
  intros HF Hp Hst. unfold InsertChain. apply heldIn_then; [apply held_send|by intros s Hs|]. intros _. apply triple_look. intros s _.
  eapply (triple_bind (heldIn x d) _ _ (fun _ => held d)).
  - destruct (contiguous (first :: rest)) eqn:Ec; cbn [negb]; [|apply triple_value; by intros s' [Hs' _]].
    case_if; [apply triple_value; by intros s' [Hs' _]|]. by apply (rooted_insertChain x d fuel first rest true p).
  - intros r. cbv beta. apply held_then; [apply held_send|]. intros _. by apply triple_value.
Qed.
End Safe.
