(* ===== verification/ChainProps.v ===== *)
(** * What the block chain guarantees

    The properties of the chain - writing blocks, switching branches, importing,
    receipts - with a small chain on which they are tried. *)

From S2P Require Import StateDB StateIface Prelude Hoare Params Types Misc Snapshot Engine Contracts Finalize TxQueue ChainDB Genesis HeaderChain BlockChain ChainImport ChainFacts ChainReorg ChainSwitch ChainWrite ChainImported ChainSafe.
Import Headers Chain ChainImporter.

(** ** Receipts *)

Section Receipts.
Context `{Crypto} `{TxSigning}.
Variable createAddress : Address -> Z -> Address.

(** Where a receipt read back says it is: in the block, at index [i], of the
    transaction [tx]; its logs follow those before. *)
Definition placedAt (b : Block) (i logIndex prev : Z) (tx : Transaction) (r : Receipt) : Prop :=
  RTxHash r = HashOfTx tx /\ BlockHash r = hashOf b /\ BlockNumber r = Some (numberOf b) /\ TransactionIndex r = i /\
  RGasUsed r = CumulativeGasUsed r -w prev /\
  forall j l, RLogs r !! j = Some l -> l.2 = hashOf b /\ LTxHash l.1 = HashOfTx tx /\ LTxIndex l.1 = i /\ LIndex l.1 = logIndex + Z.of_nat j.
Fixpoint placedFrom (b : Block) (i logIndex prev : Z) (txs : list Transaction) (rs : list Receipt) : Prop :=
  match txs, rs with
  | tx :: txs, r :: rs => placedAt b i logIndex prev tx r /\ placedFrom b (i + 1) (logIndex + zlen (RLogs r)) (CumulativeGasUsed r) txs rs
  | [], [] => True
  | _, _ => False
  end.
(** The fields that are made from the transaction. *)
Definition genuine (tx : Transaction) (r : Receipt) : Prop :=
  RType r = TxType tx /\ RBloom r = CreateBloom (RLogs r).*1 /\
  ContractAddress r = (match TxTo tx with None => Some (createAddress (match SenderOfTx tx with Ok from => from | _ => 0 end) (TxNonce tx)) | Some _ => None end) /\
  match PostState r with Some _ => RStatus r = ReceiptStatusFailed | None => RStatus r = ReceiptStatusFailed \/ RStatus r = ReceiptStatusSuccessful end.

Lemma deriveLogs_length hash h i j logs : length (deriveLogs hash h i j logs) = length logs.
Proof. revert j. induction logs as [|l logs IH]; intros j; [done|]. simpl. by rewrite IH. Qed.
Lemma deriveLogs_at hash h i logs : forall j k l, deriveLogs hash h i j logs !! k = Some l ->
  l.2 = hash /\ LTxHash l.1 = h /\ LTxIndex l.1 = i /\ LIndex l.1 = j + Z.of_nat k.
Proof.
  induction logs as [|x logs IH]; intros j k l Hl; [done|]. destruct k as [|k]; simpl in Hl.
  - simplify_eq. simpl. split_and!; try done. lia.
  - destruct (IH _ _ _ Hl) as (? & ? & ? & E). split_and!; try done. lia.
Qed.
Lemma deriveLogs_storage hash h i logs : forall j, (fun l : LogEntry => (LAddress l.1, LTopics l.1, LData l.1)) <$> deriveLogs hash h i j logs = logs.
Proof. induction logs as [|[[a t] dt] logs IH]; intros j; [done|]. simpl. f_equal. apply IH. Qed.
Lemma derived_storage hash n i j prev r tx : forStorage (deriveReceipt createAddress hash n i j prev r tx) = r.
Proof.
  destruct r as [st cum logs]. unfold forStorage, deriveReceipt. cbn [RLogs CumulativeGasUsed srLogs]. rewrite deriveLogs_storage. f_equal.
  unfold statusEncoding. simpl. by destruct st as [root|[]].
Qed.
Lemma derived_placed b i j prev r tx : placedAt b i j prev tx (deriveReceipt createAddress (hashOf b) (numberOf b) i j prev r tx).
Proof. unfold placedAt. simpl. split_and!; try done. intros k l Hl. by apply deriveLogs_at in Hl. Qed.

(** Logs at their place are those derived from what is stored of them. *)
Lemma logs_derived hash h i (logs : list LogEntry) : forall j, (forall k l, logs !! k = Some l -> l.2 = hash /\ LTxHash l.1 = h /\ LTxIndex l.1 = i /\ LIndex l.1 = j + Z.of_nat k) ->
  deriveLogs hash h i j ((fun l => (LAddress l.1, LTopics l.1, LData l.1)) <$> logs) = logs.
Proof.
  induction logs as [|[[a t dt th ti li] bh] logs IH]; intros j Hl; [done|]. destruct (Hl 0%nat _ eq_refl) as (E1 & E2 & E3 & E4). simpl in *. subst. f_equal.
  - f_equal. f_equal. lia.
  - apply IH. intros k l Hk. destruct (Hl (S k) l Hk) as (? & ? & ? & E). split_and!; try done. lia.
Qed.
Lemma genuine_derived b i j prev r tx : placedAt b i j prev tx r -> genuine tx r ->
  deriveReceipt createAddress (hashOf b) (numberOf b) i j prev (forStorage r) tx = r.
Proof.
  intros (E1 & E2 & E3 & E4 & E5 & Hl) (E6 & E7 & E8 & E9). unfold deriveReceipt, forStorage. cbn [srLogs srCumulativeGasUsed srPostStateOrStatus].
  rewrite (logs_derived (hashOf b) (HashOfTx tx) i (RLogs r) j Hl). destruct r as [ty ps st cum logs bl th ca gu bh bn ti]. unfold statusEncoding. cbn in *. subst.
  destruct ps as [root|]; [by rewrite E9|]. by destruct E9 as [-> | ->].
Qed.

Lemma deriveFrom_back b : forall txs rs i j prev, length rs = length txs ->
  let rs' := deriveFrom createAddress (hashOf b) (numberOf b) i j prev (forStorage <$> rs) txs in
  forStorage <$> rs' = forStorage <$> rs /\ placedFrom b i j prev txs rs' /\
  (placedFrom b i j prev txs rs -> Forall2 genuine txs rs -> rs' = rs).
Proof.
  induction txs as [|tx txs IH]; intros [|r rs] i j prev Hlen; try done. simpl in Hlen. cbv zeta. rewrite fmap_cons. cbn [deriveFrom].
  destruct (IH rs (i + 1) (j + zlen (srLogs (forStorage r))) (srCumulativeGasUsed (forStorage r)) ltac:(congruence)) as (IH1 & IH2 & IH3). split_and!.
  - rewrite fmap_cons, IH1, derived_storage. done.
  - split; [apply derived_placed|]. replace (zlen (RLogs (deriveReceipt createAddress (hashOf b) (numberOf b) i j prev (forStorage r) tx))) with (zlen (srLogs (forStorage r))); [exact IH2|].
    unfold zlen. cbn [deriveReceipt RLogs]. by rewrite deriveLogs_length.
  - intros [Hp Hps] HG. inversion_clear HG as [|? ? ? ? Hg Hgs]. rewrite genuine_derived by done. f_equal. apply IH3; [|done].
    assert (El : zlen (srLogs (forStorage r)) = zlen (RLogs r)) by (unfold zlen, forStorage; simpl; by rewrite length_fmap). rewrite El. exact Hps.
Qed.

(** C14: The receipts written for a stored block are read back with what is
    consensus about them unchanged and every receipt and log at its place in
    the block; receipts that were at their place and made from their
    transactions come back as they were. *)
Theorem receipts_roundtrip d b rs : ReadBody d (hashOf b) (numberOf b) = Some (bodyOf b) -> length rs = length (bTransactions b) ->
  exists rs', ReadReceipts createAddress (WriteReceipts (hashOf b) (numberOf b) rs d) (hashOf b) (numberOf b) = Some rs' /\
    forStorage <$> rs' = forStorage <$> rs /\ placedFrom b 0 0 0 (bTransactions b) rs' /\
    (placedFrom b 0 0 0 (bTransactions b) rs -> Forall2 genuine (bTransactions b) rs -> rs' = rs).
Proof.
  intros Hb Hlen. eexists. split; [|by apply (deriveFrom_back b (bTransactions b) rs)].
  unfold ReadReceipts, WriteReceipts, with_receipts. cbn [blockReceipts]. rewrite lookup_insert_eq. cbn [mbind option_bind]. unfold ReadBody in *. cbn [blockBodies]. rewrite Hb.
  cbn [mbind option_bind]. unfold DeriveFields. rewrite length_fmap, Hlen, Nat.eqb_refl. done.
Qed.
End Receipts.

Section Props.
Context `{Crypto} `{TxSigning} `{Lru L} `{!LruLaws L} `{ChainWorld X T} `{!ChainWorldLaws X T} {U : Block -> Prop} {genesis : Block} `{!Universe U genesis}.
#[local] Abbreviation BC := (BlockChain L X).
Implicit Types (s : BC) (b c p : Block).

(** A chain in order, with caches that tell the truth. *)
Definition ordered s : Prop := chain_core U genesis (view s) /\ caches_ok (db s) s.
Definition settledChain s : Prop := chain_full U genesis (view s) /\ caches_ok (db s) s.

Lemma ordered_at s : ordered s -> at_view (view s) s.
Proof. by intros [_ Hc]. Qed.
Lemma at_full v s : chain_full U genesis v -> at_view v s -> settledChain s.
Proof. intros Hf [<- Hc]. by split. Qed.
Lemma at_core v s : chain_core U genesis v -> at_view v s -> ordered s.
Proof. intros Hf [<- Hc]. by split. Qed.
Lemma settled_ordered s : settledChain s -> ordered s.
Proof. intros [Hf Hc]. split; [apply Hf|done]. Qed.
Lemma near_settled v s : chain_full U genesis v -> near U genesis v s -> settledChain s /\ rim U genesis v (view s).
Proof. intros Hf (w & Hr & Hs). pose proof (rim_full U genesis v w Hf Hr) as Hw. split; [by apply (at_full w)|]. by destruct Hs as [-> _]. Qed.
Lemma held_ordered d s : held (U:=U) (genesis:=genesis) d s -> ordered s /\ grows d (db s).
Proof. intros (v & Hk & Hg & Hs). split; [by apply (at_core v)|]. by destruct Hs as [<- _]. Qed.

(** ** A chain from its first block on *)

(** A node that has committed its genesis block and opened the chain. *)
Record started s : Prop := {
  st_db : db s = commit (genesisBatch genesis) emptyChainDB;
  st_head : currentBlock s = genesis;
  st_fast : currentFastBlock s = genesis;
  st_header : currentHeader (hc s) = bHeader genesis /\ currentHeaderHash (hc s) = hashOf genesis;
  st_future : forall h b, ~ cache_mem (futureBlocks s) h b;
  st_blocks : forall h b, ~ cache_mem (blockCache s) h b;
  st_headers : forall h x, ~ cache_mem (headerCache (hc s)) h x;
  st_tds : forall h x, ~ cache_mem (tdCache (hc s)) h x;
  st_numbers : forall h x, ~ cache_mem (numberCache (hc s)) h x;
}.
Lemma genesis_db : let d := commit (genesisBatch genesis) emptyChainDB in
  headers d = {[key genesis := bHeader genesis]} /\ blockBodies d = {[key genesis := bodyOf genesis]} /\
  headerTDs d = {[key genesis := difficultyOf (bHeader genesis)]} /\ headerNumbers d = {[hashOf genesis := numberOf genesis]} /\
  headerHashes d = {[numberOf genesis := hashOf genesis]} /\ headHeaderHash d = hashOf genesis /\ headBlockHash d = hashOf genesis /\ headFastBlockHash d = hashOf genesis.
Proof. done. Qed.
Lemma started_store : store_ok U genesis (commit (genesisBatch genesis) emptyChainDB).
Proof.
  destruct genesis_db as (Eh & Eb & Et & En & _). set (d := commit _ _) in *. clearbody d. destruct (u_genesis (U:=U) (genesis:=genesis)) as [HU Hn].
  assert (Hst : stored d genesis) by (split; [rewrite Eh|rewrite Eb]; apply lookup_insert_eq).
  assert (Hone : forall k, key genesis = k -> exists b, U b /\ stored d b /\ key b = k) by (intros k <-; by exists genesis).
  assert (Honly : forall b, stored d b -> key b = key genesis) by (intros b [Hb _]; rewrite Eh in Hb; apply lookup_singleton_Some in Hb as [? _]; done).
  constructor; rewrite ?Eh, ?Eb, ?Et, ?En.
  - intros k x Hk. apply lookup_singleton_Some in Hk as [Hk _]. by apply Hone.
  - intros k x Hk. apply lookup_singleton_Some in Hk as [Hk _]. by apply Hone.
  - intros k x Hk. apply lookup_singleton_Some in Hk as [Hk _]. by apply Hone.
  - intros h n Hk. apply lookup_singleton_Some in Hk as [Hk Hx]. apply Hone. unfold key. congruence.
  - done.
  - intros b Hb. pose proof (Honly b Hb) as Hk. unfold tdOf. rewrite Et, Hk. unfold key in Hk. injection Hk as -> ->. split; [eexists; apply lookup_insert_eq|apply lookup_insert_eq].
  - intros b [Hb Hbb] Hne. destruct Hne. rewrite Eh in Hb. rewrite Eb in Hbb. apply lookup_singleton_Some in Hb as [_ Hb], Hbb as [_ Hbb].
    rewrite <- (blockOf_body b), <- (blockOf_body genesis). congruence.
Qed.
Lemma started_settled s : started s -> settledChain s.
Proof.
  intros [E1 E2 E3 [E4 E5] Hfu H1b H2b H3b H4b]. split; [|constructor; intros h x Hm; exfalso; [by eapply H1b|by eapply H2b|by eapply H3b|by eapply H4b]].
  pose proof started_store as Hd. destruct genesis_db as (_ & _ & _ & _ & Eh & G1 & G2 & G3). destruct (u_genesis (U:=U) (genesis:=genesis)) as [HU Hg0].
  assert (Hmk : forall n, mk (db s) n <> 0 -> n = 0).
  { intros n. unfold mk, ReadCanonicalHash. rewrite E1, Eh, Hg0, lookup_singleton. case_decide; [done|]. simpl. done. }
  assert (Hcore : chain_core U genesis (view s)).
  { constructor; cbn [v_db v_head v_future view]; rewrite ?E2.
    - by rewrite E1.
    - rewrite E1. apply (s_genesis _ _ _ Hd).
    - intros c Hc. assert (c = genesis) as ->.
      { destruct Hc as [l Hl]. inversion Hl as [|? p ? ? Hp _]; [done|]. by destruct (parent_pos U genesis _ _ _ Hp). }
      rewrite E1. unfold mk, ReadCanonicalHash. by rewrite Eh, lookup_singleton_eq.
    - intros n Hn Hnz. apply Hmk in Hnz. rewrite Hg0 in Hn. lia.
    - intros n Hn Hnz. apply Hmk in Hnz. rewrite Hg0 in Hn. lia.
    - intros h c Hm. by destruct (Hfu h c). }
  constructor; cbn [v_db v_head v_fast v_currentHeader v_currentHash view]; rewrite ?E1, ?E2, ?E3, ?E4, ?E5, ?G1, ?G2, ?G3; try done.
  intros c tc th Hn Hc Hm. assert (Hnz : mk (db s) (numberOf c) <> 0).
  { rewrite E1, Hm. by apply (u_hash (U:=U) (genesis:=genesis)), (stored_U U genesis _ Hd). }
  apply Hmk in Hnz. rewrite Hg0 in Hn. lia.
Qed.

Variables (createAddress : Address -> Z -> Address) (shouldPreserve : option (Block -> bool)).

(** ** Writing *)

(** What a write that went through says: the head is the heavier block, and of
    two as heavy not a higher one. *)
Definition chosen s (s' : BC) b (st : WriteStatus) : Prop :=
  exists tb th, tdOf (db s') b = Some tb /\ tdOf (db s') (currentBlock s) = Some th /\
    match st with
    | CanonStatTy => currentBlock s' = b /\ (th < tb \/ th = tb /\ numberOf b <= numberOf (currentBlock s))
    | SideStatTy => currentBlock s' = currentBlock s /\ (tb < th \/ tb = th /\ numberOf (currentBlock s) <= numberOf b)
    | NonStatTy => False
    end.

Lemma written s b p receipts logs statedb emit : settledChain s -> fits U (db s) b p ->
  match writeBlockWithState createAddress shouldPreserve b receipts logs statedb emit s with
  | (Ok st, s') => settledChain s' /\ grows (db s) (db s') /\ stored (db s') b /\ chosen s s' b st /\
      (lookups_ok (view s) -> distinct (db s) (currentBlock s) -> distinct (db s') b -> lookups_ok (view s'))
  | (Err _, s') => settledChain s' /\ grows (db s) (db s') /\ currentBlock s' = currentBlock s /\ (lookups_ok (view s) -> lookups_ok (view s'))
  | (Panic, _) => False
  end.
Proof.
  intros [Hf Hc] Hb. pose proof (f_core _ _ _ Hf) as Hk.
  assert (Hn : near U genesis (view s) s) by (apply near_here; [apply (k_store _ _ _ Hk)|by split]).
  pose proof (near_write U genesis createAddress shouldPreserve (chain_full U genesis) (f_core U genesis) (fun v v' => rim_full U genesis v v')
    (fun v b1 w Hv Hb1 Hp Hs => switched_full U genesis createAddress v b1 w Hv Hb1 Hp Hs) (view s) b p receipts logs statedb emit Hf Hb s Hn) as Hw.
  destruct (writeBlockWithState _ _ _ _ _ _ _ s) as [[st|e|] s']; [| |done].
  - destruct Hw as (w & Hnear & Hfw & Hg & Hst & (tb & th & Htb & Hth & Hch) & Hl). destruct (near_settled w s' Hfw Hnear) as [Hset (Ho & Hh & Hrest)].
    assert (Hgw : grows (v_db w) (db s')) by apply Ho. cbn [v_db view v_head] in *. split; [done|]. split; [by eapply grows_trans|]. split; [by apply Hgw|]. split.
    + exists tb, th. destruct (Hgw b Hst) as [_ ->], (Hgw (currentBlock s)) as [_ ->]; [by apply Hg, (k_head _ _ _ Hk)|]. split; [done|]. split; [done|].
      destruct st; rewrite ?Hh; done.
    + intros Hlk Hd Hdb. apply (rim_lookups U genesis w); [apply (f_core _ _ _ Hfw)|by split|]. apply Hl; [done|done|].
      intros c1 c2 t1 t2 Hc1 Hc2. apply Hdb; by apply (ancestor_grown U genesis (v_db w) (db s') (k_store _ _ _ (f_core _ _ _ Hfw)) Ho).
  - destruct (near_settled (view s) s' Hf Hw) as [Hset Hr]. pose proof Hr as (Ho & Hh & _). split; [done|]. split; [apply Ho|]. split; [exact Hh|].
    intros Hlk. by apply (rim_lookups U genesis (view s)).
Qed.

(** C9: Writing a processed block on its stored parent keeps the chain settled:
    every head is the same block, the canonical numbers are those of its
    ancestors, and it is the heavier of the old head and the new block. *)
Theorem write_block s b p receipts logs statedb emit : settledChain s -> fits U (db s) b p ->
  match writeBlockWithState createAddress shouldPreserve b receipts logs statedb emit s with
  | (Ok st, s') => settledChain s' /\ grows (db s) (db s') /\ stored (db s') b /\ chosen s s' b st
  | (Err _, s') => settledChain s' /\ grows (db s) (db s') /\ currentBlock s' = currentBlock s
  | (Panic, _) => False
  end.
Proof.
  intros Hs Hb. pose proof (written s b p receipts logs statedb emit Hs Hb) as Hw. destruct (writeBlockWithState _ _ _ _ _ _ _ s) as [[st|e|] s']; tauto.
Qed.

(** C12: The lookups of transactions stay exactly those of the transactions on
    the chain of the head, with the number of their block, whichever branch a
    write makes the chain, as long as no branch has a transaction twice. *)
Theorem lookups_exact s b p receipts logs statedb emit : settledChain s -> fits U (db s) b p -> lookups_ok (view s) -> distinct (db s) (currentBlock s) ->
  match writeBlockWithState createAddress shouldPreserve b receipts logs statedb emit s with
  | (Ok _, s') => distinct (db s') b -> lookups_ok (view s')
  | (_, s') => lookups_ok (view s')
  end.
Proof.
  intros Hs Hb Hl Hd. pose proof (written s b p receipts logs statedb emit Hs Hb) as Hw.
  destruct (writeBlockWithState _ _ _ _ _ _ _ s) as [[st|e|] s']; [destruct Hw as (_ & _ & _ & _ & Hw); auto|apply Hw, Hl|done].
Qed.

(** ** Switching *)

Lemma known_switched s b : ordered s -> stored (db s) b ->
  exists s', writeKnownBlock createAddress b s = (Ok tt, s') /\ switched createAddress (view s) b (view s') /\ ordered s' /\ currentBlock s' = b /\ same_content (db s) (db s').
Proof.
  intros [Hk Hc] Hb. destruct (always_run _ _ _ s (always_writeKnownBlock U genesis createAddress (view s) b Hk Hb) (conj eq_refl Hc)) as ([] & s' & E & (w & Hsw & Hs)).
  destruct (switched_core U genesis createAddress _ _ _ Hk Hb Hsw) as (Hkw & Hh & Hsame). destruct Hs as [<- Hc']. exists s'. split; [done|]. split; [done|]. split; [by split|]. split; [exact Hh|exact Hsame].
Qed.

(** C11: Making a known block the head ends: the two branches meet in their
    highest common block, the blocks above it on the new branch become
    canonical, and subscribers are told the logs of the blocks that left, the
    oldest block first, then those of the blocks that came but the last, then
    the blocks that left. *)
Theorem switch_exact s b : ordered s -> stored (db s) b ->
  exists s', writeKnownBlock createAddress b s = (Ok tt, s') /\ ordered s' /\ currentBlock s' = b /\ same_content (db s) (db s') /\
    if parentHashOf b =? hashOf (currentBlock s) then events s' = events s else
    exists c lo ln, path (db s) (currentBlock s) c lo /\ path (db s) b c ln /\ Forall (fun x => ~ ancestor (db s) b x) lo /\
      let left := lo ≫= logsIn createAddress (db s) in
      let came := rev (drop 1 ln) ≫= logsIn createAddress (db s) in
      events s' = events s ++ (match left with [] => [] | _ => [RemovedLogsEvent (concat (rev left))] end) ++
        (match came with [] => [] | _ => [LogsEvent (concat came)] end) ++ (ChainSideEvent <$> rev lo).
Proof.
  intros Hs Hb. destruct (known_switched s b Hs Hb) as (s' & E & Hsw & Ho & Hh & Hsame). exists s'. do 4 (split; [done|]).
  assert (Hev : events s' = v_events (view s')) by done. rewrite Hev. clear Hev Hh Ho E Hsame. revert Hsw. generalize (view s'). intros w Hsw. destruct (Z.eqb_spec (parentHashOf b) (hashOf (currentBlock s))) as [He|Hne].
  - destruct Hsw as [_|c lo ln above Hne]; [done|by destruct Hne].
  - destruct Hsw as [He|c lo ln above _ [B1 B2 B3 _]]; [by destruct Hne|]. exists c, lo, ln. do 3 (split; [done|]). cbv zeta.
    destruct (adopted_rest (rev (drop 1 ln)) (view s)) as (_ & _ & _ & _ & _ & Hrest & _). unfold headOf, reorgView, withEvents. cbn [v_events withDb]. by rewrite Hrest.
Qed.

(** C13: When the new branch has one block above the common block and the old one
    more, the canonical numbers of the old branch above the new head stay:
    [reorg] deletes the numbers above [bc.CurrentBlock()], which is still the
    old head. *)
Theorem reorg_leaves_numbers s b p c : ordered s -> stored (db s) b -> parent (db s) b p -> ancestor (db s) (currentBlock s) p ->
  ancestor (db s) (currentBlock s) c -> numberOf b < numberOf c ->
  exists s', writeKnownBlock createAddress b s = (Ok tt, s') /\ currentBlock s' = b /\ ReadCanonicalHash (db s') (numberOf c) = hashOf c.
Proof.
  intros Hs Hb Hp Hap Hac Hn. destruct (known_switched s b Hs Hb) as (s' & E & Hsw & _ & Hh & _). exists s'. split; [done|]. split; [done|].
  destruct Hs as [Hk _]. pose proof (k_store _ _ _ Hk) as Hd. pose proof (ancestor_number _ _ _ Hac) as Hnc. destruct Hp as (Hps & Hph & Hpn).
  assert (Hv : exists v', switched createAddress (view s) b v' /\ v' = view s') by eauto. destruct Hv as (v' & Hsw' & Hv'). clear Hsw.
  change (mk (v_db (view s')) (numberOf c) = hashOf c). rewrite <- Hv'. clear Hv' E Hh s'. destruct Hsw' as [He|q lo ln above Hne Hbr].
  { pose proof (stored_inj U genesis _ Hd p (currentBlock s) Hps (k_head _ _ _ Hk) ltac:(cbn [v_head view] in He; congruence)). subst p. lia. }
  pose proof Hbr as [B1 B2 B3 _]. cbn [v_db v_head view] in *.
  assert (Hqp : ancestor (db s) q p).
  { apply (ancestor_path U genesis _ Hd _ q lo p B1) in Hap as [Hin|Ha]; [|done]. rewrite list.Forall_forall in B3. destruct (B3 p Hin). exists [b].
    econstructor; [by split|constructor]. }
  assert (Hshort : drop 1 ln = []).
  { pose proof (ancestor_number _ _ _ Hqp). pose proof (path_length _ _ _ _ B2) as Hl. unfold zlen in Hl. destruct ln as [|x [|y ln]]; [done|done|]. simpl in Hl. lia. }
  rewrite (after_left createAddress (view s) b q lo ln above Hbr (numberOf c) Hshort); [by apply (k_below _ _ _ Hk)|]. cbn [v_head view]. lia.
Qed.

(** The block at a number up to that of the head is the ancestor of the head
    with that number. *)
Theorem canonical_block s n : ordered s -> 0 <= n <= numberOf (currentBlock s) ->
  exists c s', GetBlockByNumber n s = (Ok (Some c), s') /\ ancestor (db s) (currentBlock s) c /\ numberOf c = n /\ view s' = view s.
Proof.
  intros [Hk Hc] Hn. pose proof (k_store _ _ _ Hk) as Hd. destruct (path_to U genesis _ Hd _ (k_head _ _ _ Hk) n Hn) as (c & l & Hl & Hcs & Hcn).
  pose proof (k_below _ _ _ Hk c ltac:(by exists l)) as Hm. unfold mk in Hm. cbn [v_db view] in Hm. rewrite Hcn in Hm.
  assert (Hnz : hashOf c <> 0) by (apply (u_hash (U:=U) (genesis:=genesis)); by apply (stored_U U genesis _ Hd)).
  destruct (always_run _ _ _ s (always_GetBlock U genesis (view s) Hd (hashOf c) (numberOf c)) (conj eq_refl Hc)) as (r & s' & E & [Hv _] & Hf).
  rewrite (finds_stored U genesis _ Hd Some c r Hcs Hf) in E. exists c, s'. split; [|split; [by exists l|done]].
  unfold GetBlockByNumber, mbind, st_bind, st_get. cbv zeta. change (chainDb (hc s)) with (db s). rewrite Hm, (proj2 (Z.eqb_neq _ 0)) by done. by rewrite <- Hcn.
Qed.

(** ** Any calls *)
Variables (chainConfig : ChainConfig) (now : Z).

(** The calls that change the chain; an import of any batch of blocks of the
    universe, and a write of a block whose parent is there. *)
Inductive chainCall : Type :=
  | ImportCall (chain : list Block)
  | ImportUnverifiedCall (b : Block)
  | WriteCall (b : Block) (receipts : list Receipt) (logs : list LogEntry) (statedb : T) (emit : bool)
  | FutureCall.
Definition perform (fuel : nat) (call : chainCall) : ST BC unit :=
  match call with
  | ImportCall chain => _ ← InsertChain createAddress chainConfig shouldPreserve now fuel chain; mret tt
  | ImportUnverifiedCall b => _ ← InsertChainWithoutSealVerification createAddress chainConfig shouldPreserve now fuel b; mret tt
  | WriteCall b receipts logs statedb emit => _ ← WriteBlockWithState createAddress shouldPreserve b receipts logs statedb emit; mret tt
  | FutureCall => procFutureBlocks createAddress chainConfig shouldPreserve now fuel
  end.
Definition allowed s (call : chainCall) : Prop :=
  match call with
  | ImportCall chain => Forall (fun b => U b /\ 0 < numberOf b) chain
  | ImportUnverifiedCall b => U b /\ 0 < numberOf b
  | WriteCall b _ _ _ _ => exists p, fits U (db s) b p
  | FutureCall => True
  end.
(** The states after any calls, failed ones too. *)
Inductive reaches s0 : BC -> Prop :=
  | reaches_start : reaches s0 s0
  | reaches_call s fuel call r s' : reaches s0 s -> allowed s call -> perform fuel call s = (r, s') -> reaches s0 s'.

Lemma perform_held fuel call s : ordered s -> allowed s call ->
  match perform fuel call s with (Panic, _) => False | (_, s') => held (U:=U) (genesis:=genesis) (db s) s' end.
Proof.
  intros Hs Ha. assert (Hheld : held (U:=U) (genesis:=genesis) (db s) s) by (apply (held_view (view s)); [apply Hs|by apply ordered_at]).
  assert (Hcase : forall {A} (m : ST BC A) (Q : A -> BC -> Prop) (E : error -> BC -> Prop), triple (held (U:=U) (genesis:=genesis) (db s)) m Q E ->
    (forall a s', Q a s' -> held (U:=U) (genesis:=genesis) (db s) s') -> (forall e s', E e s' -> held (U:=U) (genesis:=genesis) (db s) s') ->
    match m s with (Panic, _) => False | (_, s') => held (U:=U) (genesis:=genesis) (db s) s' end).
  { intros A m Q E Hm HQ HE. specialize (Hm s Hheld). destruct (m s) as [[a|e|] s']; eauto. }
  assert (Hdeep : forall e s', deep U genesis (db s) e s' -> held (U:=U) (genesis:=genesis) (db s) s') by (intros e s' [Hd _]; done).
  assert (Hunit : forall {A} (m : ST BC A), match m s with (Panic, _) => False | (_, s') => held (U:=U) (genesis:=genesis) (db s) s' end ->
    match (m ≫= fun _ => mret tt) s with (Panic, _) => False | (_, s') => held (U:=U) (genesis:=genesis) (db s) s' end).
  { intros A m. unfold mbind, st_bind. by destruct (m s) as [[a|e|] s']. }
  destruct call as [chain|b|b receipts logs statedb emit|]; cbn [perform allowed] in *.
  - apply Hunit. eapply Hcase; [by apply held_InsertChain|done|exact Hdeep].
  - apply Hunit. eapply Hcase; [apply (held_inside U genesis (db s))|done|exact Hdeep]. intros s1. case_if; [by apply triple_value|].
    apply (insertChain_inserts U genesis createAddress chainConfig shouldPreserve now fuel (db s) [b] false); [split; [by constructor|done]|congruence].
  - destruct Ha as [p Hp]. apply Hunit. apply (Hcase _ _ (fun _ => held (U:=U) (genesis:=genesis) (db s)) (fun _ => held (U:=U) (genesis:=genesis) (db s))); [|done|done].
    unfold WriteBlockWithState. apply triple_look. intros s1 _. case_if; [by intros s2 Hs2|].
    eapply triple_conseq; [by apply (held_write createAddress shouldPreserve (db s) b p)|done|intros st s' Hw; by apply held_with_held in Hw|done].
  - eapply Hcase; [by apply held_procFutureBlocks|done|exact Hdeep].
Qed.

(** C6: Whatever calls a node makes on the chain it has committed its genesis
    block to, imports of blocks in any order, genesis blocks excepted
    (importing one again panics), writes of blocks whose parent is stored, and
    rounds of the queue, none panics, as long as the processor, the validator
    and the state database it calls end in a result or an error
    ([ChainWorldLaws]); in the end the head is a stored block with its
    ancestors stored, the canonical numbers up to it are theirs, the caches hold
    what the database holds, and no stored block has been lost. *)
Theorem chain_stays_ordered s0 s fuel call : started s0 -> reaches s0 s -> allowed s call ->
  match perform fuel call s with
  | (Panic, _) => False
  | (_, s') => ordered s' /\ grows (db s) (db s')
  end.
Proof.
  intros Hst Hr Ha. assert (Hs : ordered s).
  { clear Ha. induction Hr as [|s fuel' call' r s' Hr IH Ha Hp]; [by apply settled_ordered, started_settled|].
    pose proof (perform_held fuel' call' s IH Ha) as Hh. rewrite Hp in Hh. destruct r; [|..|done]; by apply held_ordered in Hh as [? _]. }
  pose proof (perform_held fuel call s Hs Ha) as Hh. destruct (perform fuel call s) as [[a|e|] s']; [| |done]; by apply held_ordered.
Qed.

(** C16: An import of blocks on a stored block whose state is there ends without
    an error of its own, whatever the blocks are; it never has to call itself. *)
Theorem import_returns s fuel first rest p : ordered s -> Forall (fun b => U b /\ 0 < numberOf b) (first :: rest) ->
  fits U (db s) first p -> HasState (Root (bHeader p)) (world s) = true ->
  exists out s', InsertChain createAddress chainConfig shouldPreserve now (S fuel) (first :: rest) s = (Ok out, s') /\ ordered s' /\ grows (db s) (db s').
Proof.
  intros Hs HF Hp Hst. pose proof (rooted_InsertChain U genesis createAddress chainConfig shouldPreserve now (world s) (db s) fuel first rest p HF Hp Hst) as Hm.
  destruct (always_run _ _ _ s Hm) as (out & s' & E & Hh).
  - split; [|done]. apply (held_view (view s)); [apply Hs|by apply ordered_at].
  - exists out, s'. split; [done|]. by apply held_ordered.
Qed.
End Props.

(** ** A small chain

    A block's hash is its mix digest; the states that are there are listed by
    their roots; a block [a1] and its child [a2], and beside them [b1]. *)
#[local] Instance mixHash : Crypto := {| HeaderHash h := MixDigest h; SealHash h := MixDigest h; EcrecoverAddr _ _ := Ok 0; EmptyUncleHash := 5 |}.
#[local] Instance nonceHash : TxSigning := {| HashOfTx tx := TxNonce tx; SenderOfTx tx := Ok (TxValue tx); CreateBloom logs := zlen logs |}.
#[local] Instance mapLru : Lru (gmap Hash) := {|
  lru_cache V := gmap_cache; lru_contains V k c := bool_decide (is_Some (c !! k)); lru_remove V := delete; lru_purge V _ := ∅; lru_values V c := (map_to_list c).*2
|}.
#[local] Instance mapLru_laws : LruLaws (gmap Hash).
Proof.
  split.
  - intros V. apply _.
  - intros V k c Hc. simpl in Hc. apply bool_decide_eq_true in Hc. exact Hc.
  - intros V k c k' v Hm. simpl in *. by apply lookup_delete_Some in Hm as [_ ?].
  - intros V c k v Hm. simpl in Hm. by rewrite lookup_empty in Hm.
  - intros V c v Hv. simpl in Hv. apply list_elem_of_fmap in Hv as ([k x] & -> & Hm). exists k. by apply elem_of_map_to_list in Hm.
Qed.
#[local] Instance rootsWorld : ChainWorld (list Hash) unit := {|
  HasState r x := bool_decide (r ∈ x); snapsEnabled := false; HasSnapshot _ _ := false;
  stateNew root := x ← st_get; if bool_decide (root ∈ x) then mret tt else st_err ErrUnknownAncestor;
  processBlock _ _ _ := mret ([], [], 0, tt);
  validateState _ _ _ _ := mret tt;
  asyncCommit b _ := st_modify (cons (Root (bHeader b)));
  statePreimages _ := ∅;
  verifyHeaders reader hs _ := mret (match hs with
    | [] => []
    | h :: hs => (match Types.GetHeader reader (ParentHash h) (NumberU64 h -w 1) with
        | Some p => if NumberU64 h =? NumberU64 p + 1 then None else Some ErrUnknownAncestor
        | None => Some ErrUnknownAncestor
        end) :: map (fun _ => None) hs
    end);
  CalcUncleHash _ := 5; DeriveTxSha l := 7; blockSize _ := 1;
|}.
#[local] Instance rootsWorld_laws : ChainWorldLaws (list Hash) unit.
Proof.
  split; try done.
  - intros root x. simpl. unfold mbind, st_bind, st_get. by case_bool_decide.
  - intros reader hs seals x. do 2 eexists. split; [reflexivity|]. split; [destruct hs; simpl; by rewrite ?length_map|].
    destruct hs as [|h hs]; [by split; apply not_elem_of_nil|].
    assert (Hrest : forall e : error, Some e ∉ map (fun _ : Header => @None error) hs) by (intros e He; apply list_elem_of_In, in_map_iff in He as (? & ? & _); done).
    split; (apply not_elem_of_cons; split; [by repeat case_match|apply Hrest]).
  - intros reader h hs seals x results x' Hv Hn. simpl in Hv. injection Hv as Hv _ _. destruct (Types.GetHeader reader (ParentHash h) (NumberU64 h -w 1)) as [p|]; [|done].
    exists p. split; [done|]. destruct (Z.eqb_spec (NumberU64 h) (NumberU64 p + 1)); [done|done].
Qed.

Definition smallTx (n : Z) : Transaction := legacyTx (Some 1) 21000 1 n 9 [] [].
Definition smallBlock (hash parent number : Z) (l : list Transaction) : Block :=
  mkBlock (mkHeader parent 5 0 (100 + hash) 7 0 0 (Some 1) (Some number) 0 0 0 [] hash 0 None) l [].
Definition small0 : Block := smallBlock 1 0 0 [].
Definition smallA1 : Block := smallBlock 11 1 1 [smallTx 31].
Definition smallA2 : Block := smallBlock 12 11 2 [smallTx 32].
Definition smallB1 : Block := smallBlock 21 1 1 [smallTx 32].
Definition smallBlocks : list Block := [small0; smallA1; smallA2; smallB1].
#[local] Instance smallUniverse : Universe (fun b => b ∈ smallBlocks) small0.
Proof.
  assert (Hall : forall (P : Block -> Prop), P small0 -> P smallA1 -> P smallA2 -> P smallB1 -> forall b, b ∈ smallBlocks -> P b).
  { intros P P0 P1 P2 P3 b Hb. unfold smallBlocks in Hb. rewrite !elem_of_cons in Hb. destruct Hb as [->|[->|[->|[->|Hb]]]]; [done..|]. by apply not_elem_of_nil in Hb. }
  split.
  - intros b1 b2 Hb1 Hb2. revert b1 Hb1 b2 Hb2. refine (Hall _ _ _ _ _); refine (Hall _ _ _ _ _); intros Hh; (reflexivity || (vm_compute in Hh; discriminate)).
  - refine (Hall _ _ _ _ _); vm_compute; discriminate.
  - refine (Hall _ _ _ _ _); vm_compute; reflexivity.
  - refine (Hall _ _ _ _ _); intros Hne; (vm_compute; reflexivity) || done.
  - refine (Hall _ _ _ _ _); intros Hn; (reflexivity || (vm_compute in Hn; discriminate)).
  - split; [left|reflexivity].
  - reflexivity.
Qed.

#[local] Abbreviation smallU := (fun b => b ∈ smallBlocks).
#[local] Abbreviation SmallChain := (BlockChain (gmap Hash) (list Hash)).
Definition noAddress (_ : Address) (_ : Z) : Address := 0.
Definition smallStart : SmallChain :=
  mkBlockChain (mkHeaderChain (commit (genesisBatch small0) emptyChainDB) (bHeader small0) (bHeader small0) (hashOf small0) ∅ ∅ ∅ [] None)
    small0 small0 small0 ∅ ∅ [Root (bHeader small0)] [] false.
Lemma smallStart_started : started (genesis := small0) smallStart.
Proof. split; try done; intros h x; exact (eq_ind_r (fun o => o <> Some x) (fun Hx => ltac:(discriminate Hx)) (lookup_empty h)). Qed.

Definition smallWrite (b : Block) : ST SmallChain WriteStatus := writeBlockWithState noAddress None b [] [] tt false.
Definition after (s : SmallChain) (b : Block) : SmallChain := (smallWrite b s).2.
Lemma after_settled s b p : settledChain (U := smallU) (genesis := small0) s -> fits smallU (db s) b p -> settledChain (U := smallU) (genesis := small0) (after s b).
Proof.
  intros Hs Hb. pose proof (written noAddress None s b p [] [] tt false Hs Hb) as Hw. unfold after, smallWrite.
  destruct (writeBlockWithState _ _ _ _ _ _ _ s) as [[st|e|] s']; [apply Hw|apply Hw|done].
Qed.
Lemma small_fits (s : SmallChain) b p : b ∈ smallBlocks -> headers (db s) !! key p = Some (bHeader p) -> blockBodies (db s) !! key p = Some (bodyOf p) ->
  hashOf p = parentHashOf b -> numberOf b = numberOf p + 1 -> fits smallU (db s) b p.
Proof. by intros. Qed.
Ltac small_fits := apply small_fits; [unfold smallBlocks; set_solver|vm_compute; reflexivity..].

(** Beside [a1] the block [b1] is as heavy; the coin leaves it aside. *)
Definition smallForked : SmallChain := after (after (after smallStart smallA1) smallB1) smallA2.
Lemma start_settled : settledChain (U := smallU) (genesis := small0) smallStart.
Proof. apply started_settled, smallStart_started. Qed.
Lemma forked_settled : settledChain (U := smallU) (genesis := small0) smallForked.
Proof.
  unfold smallForked. apply (after_settled _ _ smallA1); [|small_fits]. apply (after_settled _ _ small0); [|small_fits].
  apply (after_settled _ _ small0); [|small_fits]. apply start_settled.
Qed.
Lemma start_fits : fits smallU (db smallStart) smallA1 small0.
Proof. small_fits. Qed.

Lemma write_block_witness : settledChain (U := smallU) (genesis := small0) smallStart /\ fits smallU (db smallStart) smallA1 small0 /\
  currentBlock (after smallStart smallA1) = smallA1 /\ settledChain (U := smallU) (genesis := small0) (after smallStart smallA1).
Proof.
  split; [exact start_settled|]. split; [exact start_fits|].
  pose proof (write_block noAddress None smallStart smallA1 small0 [] [] tt false start_settled start_fits) as Hw.
  assert (E : exists s', writeBlockWithState noAddress None smallA1 [] [] tt false smallStart = (Ok CanonStatTy, s')) by (eexists; vm_compute; reflexivity).
  destruct E as [s' E]. unfold after, smallWrite. rewrite E in *. destruct Hw as (Hs & _ & _ & (tb & th & _ & _ & Hh & _)). split; [exact Hh|exact Hs].
Defined.
Lemma lookups_exact_witness : lookups_ok (view smallStart) /\ distinct (db smallStart) (currentBlock smallStart) /\
  (distinct (db (after smallStart smallA1)) smallA1 -> lookups_ok (view (after smallStart smallA1))).
Proof.
  assert (Hanc : forall c, ancestor (db smallStart) small0 c -> c = small0).
  { intros c [l Hl]. inversion Hl as [|? p ? ? Hp _]; [reflexivity|]. by destruct (parent_pos smallU small0 _ _ _ Hp). }
  assert (Hl : lookups_ok (view smallStart)).
  { split; [intros c tx Hc Htx; apply Hanc in Hc; subst c; by apply not_elem_of_nil in Htx|].
    intros h n Hn. exfalso. change (txLookups (v_db (view smallStart))) with (∅ : gmap Hash Z) in Hn. by rewrite lookup_empty in Hn. }
  assert (Hd : distinct (db smallStart) (currentBlock smallStart)) by (intros c1 c2 t1 t2 Hc1 Hc2 _ _ _; apply Hanc in Hc1, Hc2; congruence).
  split; [exact Hl|]. split; [exact Hd|].
  pose proof (lookups_exact noAddress None smallStart smallA1 small0 [] [] tt false start_settled start_fits Hl Hd) as Hw.
  assert (E : exists s', writeBlockWithState noAddress None smallA1 [] [] tt false smallStart = (Ok CanonStatTy, s')) by (eexists; vm_compute; reflexivity).
  destruct E as [s' E]. unfold after, smallWrite. rewrite E in *. exact Hw.
Defined.

(** The forked chain: [a2] is the head, [b1] stored beside. *)
Lemma forked_blocks : currentBlock smallForked = smallA2 /\ stored (db smallForked) smallB1 /\ stored (db smallForked) smallA1 /\ stored (db smallForked) small0.
Proof. split; [vm_compute; reflexivity|]. split; [split; vm_compute; reflexivity|]. split; split; vm_compute; reflexivity. Qed.
Lemma forked_parent b p : stored (db smallForked) p -> hashOf p = parentHashOf b -> numberOf b = numberOf p + 1 -> parent (db smallForked) b p.
Proof. done. Qed.
Lemma forked_ancestor : ancestor (db smallForked) (currentBlock smallForked) small0.
Proof.
  destruct forked_blocks as (-> & _ & H1 & H0). exists [smallA2; smallA1]. econstructor; [apply (forked_parent _ smallA1 H1); vm_compute; reflexivity|].
  econstructor; [apply (forked_parent _ small0 H0); vm_compute; reflexivity|constructor].
Qed.

Lemma switch_exact_witness : ordered (U := smallU) (genesis := small0) smallForked /\ stored (db smallForked) smallB1 /\
  exists s', writeKnownBlock noAddress smallB1 smallForked = (Ok tt, s') /\ currentBlock s' = smallB1.
Proof.
  pose proof (settled_ordered _ forked_settled) as Hs. destruct forked_blocks as (_ & Hb & _). split; [exact Hs|]. split; [exact Hb|].
  destruct (switch_exact noAddress smallForked smallB1 Hs Hb) as (s' & E & _ & Hh & _). exists s'. split; [exact E|exact Hh].
Defined.
Lemma reorg_leaves_numbers_witness : exists s', writeKnownBlock noAddress smallB1 smallForked = (Ok tt, s') /\ currentBlock s' = smallB1 /\
  numberOf smallB1 = 1 /\ ReadCanonicalHash (db s') 2 = hashOf smallA2.
Proof.
  destruct forked_blocks as (Hh & Hb & _ & Hg).
  destruct (reorg_leaves_numbers noAddress smallForked smallB1 small0 smallA2 (settled_ordered _ forked_settled) Hb) as (s' & E & Hh' & Hm).
  - apply (forked_parent _ small0 Hg); vm_compute; reflexivity.
  - exact forked_ancestor.
  - rewrite Hh. exists []. constructor.
  - vm_compute. reflexivity.
  - exists s'. split; [exact E|]. split; [exact Hh'|]. split; [vm_compute; reflexivity|exact Hm].
Defined.
Lemma canonical_block_witness : ordered (U := smallU) (genesis := small0) smallForked /\ 0 <= 1 <= numberOf (currentBlock smallForked) /\
  exists c s', GetBlockByNumber 1 smallForked = (Ok (Some c), s') /\ numberOf c = 1.
Proof.
  pose proof (settled_ordered _ forked_settled) as Hs. assert (Hn : 0 <= 1 <= numberOf (currentBlock smallForked)) by (vm_compute; split; discriminate).
  split; [exact Hs|]. split; [exact Hn|]. destruct (canonical_block smallForked 1 Hs Hn) as (c & s' & E & _ & Hc & _). exists c, s'. split; [exact E|exact Hc].
Defined.

Definition smallBatch : list Block := [smallA1; smallA2].
Lemma batch_allowed : Forall (fun b => smallU b /\ 0 < numberOf b) smallBatch.
Proof. repeat constructor; (unfold smallBlocks; set_solver) || (vm_compute; reflexivity). Qed.
Lemma chain_stays_ordered_witness : started (genesis := small0) smallStart /\ allowed (T := unit) (U := smallU) smallStart (ImportCall smallBatch) /\
  match perform noAddress None sampleConfig 0 2 (ImportCall smallBatch) smallStart with
  | (Panic, _) => False
  | (_, s') => ordered (U := smallU) (genesis := small0) s' /\ grows (db smallStart) (db s')
  end.
Proof.
  split; [exact smallStart_started|]. split; [exact batch_allowed|].
  assert (Hr : reaches (U := smallU) noAddress None sampleConfig 0 smallStart smallStart) by constructor.
  assert (Ha : allowed (T := unit) (U := smallU) smallStart (ImportCall smallBatch)) by exact batch_allowed.
  pose proof (chain_stays_ordered noAddress None sampleConfig 0 smallStart smallStart 2 (ImportCall smallBatch) smallStart_started Hr Ha) as Hw.
  exact Hw.
Defined.
Lemma import_returns_witness : HasState (Root (bHeader small0)) (world smallStart) = true /\
  exists out s', InsertChain noAddress sampleConfig None 0 1 smallBatch smallStart = (Ok out, s') /\ ordered (U := smallU) (genesis := small0) s'.
Proof.
  assert (Hst : HasState (Root (bHeader small0)) (world smallStart) = true) by (vm_compute; reflexivity). split; [exact Hst|].
  destruct (import_returns noAddress None sampleConfig 0 smallStart 0 smallA1 [smallA2] small0 (settled_ordered _ start_settled) batch_allowed start_fits Hst)
    as (out & s' & E & Ho & _). exists out, s'. split; [exact E|exact Ho].
Defined.
Lemma receipts_roundtrip_witness : exists rs', ReadReceipts noAddress (WriteReceipts 11 1 [mkReceipt 0 None 1 21000 [] 0 31 None 21000 11 (Some 1) 0] (db (after smallStart smallA1))) 11 1 = Some rs' /\
  rs' = [mkReceipt 0 None 1 21000 [] 0 31 None 21000 11 (Some 1) 0].
Proof.
  destruct (receipts_roundtrip noAddress (db (after smallStart smallA1)) smallA1 [mkReceipt 0 None 1 21000 [] 0 31 None 21000 11 (Some 1) 0]) as (rs' & E & _ & _ & Hsame).
  - vm_compute. reflexivity.
  - reflexivity.
  - exists rs'. split; [exact E|]. apply Hsame.
    + split; [|exact I]. unfold placedAt. do 5 (split; [reflexivity|]). intros j l Hl. discriminate Hl.
    + constructor; [|constructor]. repeat split. right. reflexivity.
Defined.
