(* ===== verification/ChainRewind.v ===== *)
(** * Rewinding and reopening the chain (core/headerchain.go, core/blockchain.go)

    [SetHead] takes the heads back to a lower block and deletes what is above it;
    [loadLastState] finds the heads in the database when a node starts.  Without a
    freezer no block is ancient. *)

From S2P Require Import StateDB StateIface Prelude Hoare Params Types Misc Snapshot Engine Contracts Finalize TxQueue ChainDB Genesis HeaderChain BlockChain ChainImport ChainFacts ChainReorg ChainSwitch ChainWrite ChainImported ChainSafe ChainProps.
Import Headers Chain ChainImporter.

Module Rewind.
Section Rewind.
Context `{Crypto} `{TxSigning} `{Lru L} `{ChainWorld X T}.
(** [rawdb.ReadLastPivotNumber] *)
Variable pivot : option Z.
#[local] Abbreviation BC := (BlockChain L X).
Implicit Types (s : BC) (b : Block) (d : ChainDB).

Definition set_genesis b s : BC := mkBlockChain (mkHeaderChain (chainDb (hc s)) (bHeader b) (currentHeader (hc s)) (currentHeaderHash (hc s)) (headerCache (hc s))
  (tdCache (hc s)) (numberCache (hc s)) (coins (hc s)) (stopAfter (hc s))) b (currentBlock s) (currentFastBlock s) (blockCache s) (futureBlocks s) (world s) (events s) (closed s).

Definition GetBlockByHash (hash : Hash) : ST BC (option Block) :=
  number ← on_hc (GetBlockNumber hash);
  match number with None => mret None | Some number => GetBlock hash number end.

(** Does [state.New] find the state? *)
Definition opens (root : Hash) : ST BC bool := r ← attempt (on_world (stateNew root)); mret (match r with inl _ => true | inr _ => false end).

(** [Ancients] of a store without a freezer *)
Definition frozen : Z := 0.

(** ** The heads go down *)

Section Root.
(** The root that must be passed, zero when there is none. *)
Variable root : Hash.

(** From [b] down to a block with a state, and past [root]; the second answer is
    the number of the block that has [root]. *)
Fixpoint statefulBlock (fuel : nat) b (beyond : bool) (rootNumber : Z) : ST BC (Block * Z) :=
  let found := negb (root =? 0) && negb beyond && (Root (bHeader b) =? root) in
  let beyond := beyond || found in
  let rootNumber := if found then numberOf b else rootNumber in
  available ← opens (Root (bHeader b));
  s ← st_get;
  parent ← (if (available : bool) then mret (inl b)
            else if match pivot with None => true | Some p => p <? numberOf b end then
              p ← parentBlock b; mret (match p with Some p => inr p | None => inl (genesisBlock s) end)
            else mret (inl (genesisBlock s)));
  match parent, fuel with
  | inr _, O => st_err ErrOutOfFuel
  | inr p, S fuel => statefulBlock fuel p beyond rootNumber
  | inl b, _ =>
      if beyond || (numberOf b =? 0) then mret (b, rootNumber) else
      match fuel with
      | O => st_err ErrOutOfFuel
      | S fuel =>
          p ← parentBlock b;
          match p with None => st_panic | Some p => statefulBlock fuel p beyond rootNumber end
      end
  end.

(** What [updateFn] answers: the batch of markers, the number of the root, and
    the number of the head with whether the rewind is to go down to it. *)
Record lowered : Type := mkLowered { lMarks : Batch; lRoot : Z; lHead : Z; lForce : bool }.

Definition lowerHead (header : Header) (rootNumber : Z) : ST BC (Batch * Z) :=
  s ← st_get;
  if numberOf (currentBlock s) <? NumberU64 header then mret ([], rootNumber) else
  block ← GetBlock (HeaderHash header) (NumberU64 header);
  r ← (match block with
       | None => mret (genesisBlock s, rootNumber)
       | Some b => statefulBlock (S (Z.to_nat (numberOf b))) b (root =? 0) rootNumber
       end);
  _ ← st_modify (set_currentBlock r.1);
  mret ([WriteHeadBlockHash (hashOf r.1)], r.2).
Definition lowerFast (header : Header) : ST BC Batch :=
  s ← st_get;
  if numberOf (currentFastBlock s) <=? NumberU64 header then mret [] else
  block ← GetBlock (HeaderHash header) (NumberU64 header);
  let fast := default (genesisBlock s) block in
  _ ← st_modify (set_currentFastBlock fast);
  mret [WriteHeadFastBlockHash (hashOf fast)].
Definition updateHeads (header : Header) (rootNumber : Z) : ST BC lowered :=
  r ← lowerHead header rootNumber;
  fast ← lowerFast header;
  s ← st_get;
  let head := numberOf (currentBlock s) in
  mret (mkLowered (r.1 ++ fast) r.2 head ((head +w 1 <? frozen) && match pivot with None => true | Some p => p <=? head end)).

(** ** What is above is deleted *)

(** The numbers from [n] on at which headers are stored, as long as there are any. *)
Fixpoint levelsFrom (fuel : nat) d (n : Z) : res (list Z) :=
  match ReadAllHashes d n, fuel with
  | [], _ => Ok []
  | _, O => Err ErrOutOfFuel
  | _, S fuel => rest ← levelsFrom fuel d (n +w 1); Ok (n :: rest)
  end.
Definition levelsAbove d (n : Z) : res (list Z) := levelsFrom (S (size (headers d))) d n.

(** [delFn], and what is deleted with it: every block of the number. *)
Definition deleteContent (num : Z) (hash : Hash) : Batch :=
  if num +w 1 <=? frozen then [DeleteHeaderNumber hash] else [DeleteBody hash num; DeleteReceipts hash num].
Definition deleteHash (num : Z) (hash : Hash) : Batch := deleteContent num hash ++ [DeleteHeader hash num; DeleteTd hash num].
Definition deleteLevel d (hash : Hash) (num : Z) : Batch :=
  ((match ReadAllHashes d num with [] => [hash] | hashes => hashes end) ≫= deleteHash num) ++ [DeleteCanonicalHash num].

(** The loop of the header chain's [SetHead]; the deletions wait in [batch].
    [origin]: is it the first round? *)
Fixpoint rewindLoop (fuel : nat) (head : Z) (batch : Batch) (origin : bool) (rootNumber : Z) : ST BC (Batch * Z) :=
  s ← st_get;
  let hdr := currentHeader (hc s) in
  let num := NumberU64 hdr in
  if num <=? head then mret (batch, rootNumber) else
  match fuel with
  | O => st_err ErrOutOfFuel
  | S fuel =>
      parent ← GetHeader (ParentHash hdr) (num -w 1);
      let parent := default (genesisHeader (hc s)) parent in
      u ← updateHeads parent rootNumber;
      _ ← on_hc (writeBatch (lMarks u ++ [WriteHeadHeaderHash (HeaderHash parent)]));
      _ ← on_hc (SetCurrentHeader parent);
      s ← st_get;
      above ← (if origin then st_lift (levelsAbove (db s) (num +w 1)) else mret []);
      rewindLoop fuel (if lForce u && (lHead u <? head) then lHead u else head)
        (batch ++ ((rev above ++ [num]) ≫= deleteLevel (db s) (HeaderHash hdr))) false (lRoot u)
  end.
Definition purgeHeaders : ST (HeaderChain L) unit :=
  st_modify (fun c => set_headerCache (lru_purge (headerCache c)) (set_tdCache (lru_purge (tdCache c)) (set_numberCache (lru_purge (numberCache c)) c))).
Definition headerSetHead (head rootNumber : Z) : ST BC Z :=
  s ← st_get;
  r ← rewindLoop (S (Z.to_nat (NumberU64 (currentHeader (hc s))))) head [] true rootNumber;
  _ ← on_hc (writeBatch r.1);
  _ ← on_hc purgeHeaders;
  mret r.2.
End Root.

(** ** The heads in the database *)

(** [reset] is what an incomplete database asks for. *)
Definition loadLastState (reset : ST BC unit) : ST BC unit :=
  s ← st_get;
  let head := headBlockHash (db s) in
  if head =? 0 then reset else
  block ← GetBlockByHash head;
  match block with
  | None => reset
  | Some b =>
      _ ← st_modify (set_currentBlock b);
      s ← st_get;
      let head := headHeaderHash (db s) in
      header ← (if head =? 0 then mret None else on_hc (GetHeaderByHash head));
      let header := default (bHeader b) header in
      _ ← on_hc (SetCurrentHeader header);
      _ ← st_modify (set_currentFastBlock b);
      let head := headFastBlockHash (db s) in
      fast ← (if head =? 0 then mret None else GetBlockByHash head);
      let fast := default b fast in
      _ ← st_modify (set_currentFastBlock fast);
      _ ← GetTd (HeaderHash header) (NumberU64 header);
      _ ← GetTd (hashOf b) (numberOf b);
      _ ← GetTd (hashOf fast) (numberOf fast);
      mret tt
  end.

(** ** The chain's [SetHead] *)

Definition purgeBlocks : ST BC unit := st_modify (fun s => set_blockCache (lru_purge (blockCache s)) (set_futureBlocks (lru_purge (futureBlocks s)) s)).
(** [Reset] takes the mutex of the chain, which [setHeadBeyondRoot] holds. *)
Definition deadlocked : ST BC unit := st_err (errorf "waits for the mutex it holds").

Definition setHeadBeyondRoot (head : Z) (root : Hash) (repair : bool) : ST BC Z :=
  s ← st_get;
  if closed s then st_err errChainStopped else
  rootNumber ←
    (if repair then
       u ← updateHeads root (bHeader (currentBlock s)) 0;
       _ ← on_hc (writeBatch (lMarks u));
       if lForce u then headerSetHead root (lHead u) (lRoot u) else mret (lRoot u)
     else headerSetHead root head 0);
  _ ← purgeBlocks;
  _ ← loadLastState deadlocked;
  mret rootNumber.
Definition SetHead (head : Z) : ST BC unit := _ ← setHeadBeyondRoot head 0 false; mret tt.

Definition ResetWithGenesisBlock (genesis : Block) : ST BC unit :=
  _ ← SetHead 0;
  s ← st_get;
  if closed s then st_err errChainStopped else
  _ ← on_hc (writeBatch [WriteTd (hashOf genesis) (numberOf genesis) (difficultyOf (bHeader genesis)); WriteBlock genesis]);
  _ ← writeHeadBlock genesis;
  _ ← st_modify (fun s => set_genesis genesis (set_currentBlock genesis s));
  _ ← on_hc (SetCurrentHeader (bHeader genesis));
  st_modify (set_currentFastBlock genesis).
Definition Reset : ST BC unit := s ← st_get; ResetWithGenesisBlock (genesisBlock s).

(** When the chain is opened: the last state, and a head whose state is there;
    [diskRoot] is the root of the snapshot on disk, zero when there is none. The
    number that is kept for the recovery of the snapshot is not modelled. *)
Definition reopen (diskRoot : Hash) : ST BC unit :=
  _ ← loadLastState Reset;
  s ← st_get;
  available ← opens (Root (bHeader (currentBlock s)));
  if (available : bool) then mret tt else
  _ ← setHeadBeyondRoot (numberOf (currentBlock s)) diskRoot true;
  mret tt.
End Rewind.
End Rewind.
Import Rewind.

(** ** What the deletions leave of the database *)

Section Database.
Implicit Types d : ChainDB.

Lemma elem_of_ReadAllHashes d n h : h ∈ ReadAllHashes d n <-> is_Some (headers d !! (n, h)).
Proof.
  unfold ReadAllHashes. rewrite (merge_sort_Permutation Z.le). rewrite list_elem_of_fmap. split.
  - intros ([k x] & -> & Hk). apply list_elem_of_filter in Hk as [Hk Hin]. simpl in *. subst. apply list_elem_of_fmap in Hin as ([k' x'] & E & Hm).
    simpl in E. subst. apply elem_of_map_to_list in Hm. by exists x'.
  - intros [x Hx]. exists (n, h). split; [done|]. apply list_elem_of_filter. split; [done|]. apply list_elem_of_fmap. exists ((n, h), x).
    split; [done|]. by apply elem_of_map_to_list.
Qed.

(** Something is stored at the number. *)
Definition level d (n : Z) : Prop := ReadAllHashes d n <> [].
Lemma level_header d n : level d n <-> exists h, is_Some (headers d !! (n, h)).
Proof.
  unfold level. split.
  - intros Hn. destruct (ReadAllHashes d n) as [|h l] eqn:E; [done|]. exists h. apply elem_of_ReadAllHashes. rewrite E. by left.
  - intros [h Hh] E. apply elem_of_ReadAllHashes in Hh. rewrite E in Hh. by apply not_elem_of_nil in Hh.
Qed.
Lemma hashes_same d d' n : headers d' = headers d -> ReadAllHashes d' n = ReadAllHashes d n.
Proof. intros E. unfold ReadAllHashes. by rewrite E. Qed.

Definition keysFrom d (i : Z) : gset (Z * Hash) := base.filter (fun k => i <= k.1) (dom (headers d)).
Lemma levelsFrom_spec d (Hr : forall n, level d n -> n < 9223372036854775808) : forall (fuel : nat) (i : Z), 0 <= i <= 9223372036854775808 ->
  (size (keysFrom d i) < fuel)%nat -> exists l, levelsFrom fuel d i = Ok l /\ forall m, m ∈ l <-> i <= m /\ forall k, i <= k <= m -> level d k.
Proof.
  induction fuel as [|fuel IH]; intros i Hi Hf; [lia|]. cbn [levelsFrom]. destruct (ReadAllHashes d i) as [|h hs] eqn:E.
  { exists []. split; [done|]. intros m. split; [by intros ?%not_elem_of_nil|]. intros [Hm Hk]. by destruct (Hk i ltac:(lia)). }
  assert (Hl : level d i) by (unfold level; by rewrite E). assert (Hw : i +w 1 = i + 1) by (apply u64_small; unfold is_u64; lia). rewrite Hw.
  destruct (IH (i + 1)) as (l & Hls & Hm).
  - specialize (Hr i Hl). lia.
  - enough (size (keysFrom d (i + 1)) < size (keysFrom d i))%nat by lia. apply level_header in Hl as [h' Hh].
    apply subset_size. split; [intros k; unfold keysFrom; rewrite !elem_of_filter; intros [? ?]; split; [lia|done]|].
    intros Hsub. assert (Hin : (i, h') ∈ keysFrom d (i + 1)).
    { apply Hsub. unfold keysFrom. rewrite elem_of_filter. split; [simpl; lia|]. by apply elem_of_dom. }
    unfold keysFrom in Hin. rewrite elem_of_filter in Hin. simpl in Hin. lia.
  - exists (i :: l). rewrite Hls. split; [done|]. intros m. rewrite elem_of_cons, Hm. split.
    + intros [->|[Hle Hk]]; (split; [lia|]); intros k Hik; [by replace k with i by lia|]. destruct (decide (k = i)) as [->|]; [done|]. apply Hk. lia.
    + intros [Hle Hk]. destruct (decide (m = i)) as [->|]; [by left|right]. split; [lia|]. intros k Hik. apply Hk. lia.
Qed.

(** [d'] is [d] without the blocks at the numbers of [lv]. *)
Record without (lv : list Z) d d' : Prop := {
  w_headers : forall k h, headers d' !! (k, h) = if decide (k ∈ lv) then None else headers d !! (k, h);
  w_bodies : forall k h, blockBodies d' !! (k, h) = if decide (k ∈ lv) then None else blockBodies d !! (k, h);
  w_tds : forall k h, headerTDs d' !! (k, h) = if decide (k ∈ lv) then None else headerTDs d !! (k, h);
  w_numbers : forall h, headerNumbers d' !! h = n ← headerNumbers d !! h; if decide (n ∈ lv) then None else Some n;
  w_marks : forall k, mk d' k = if decide (k ∈ lv) then 0 else mk d k;
  w_lookups : txLookups d' = txLookups d;
  w_heads : headBlockHash d' = headBlockHash d /\ headHeaderHash d' = headHeaderHash d /\ headFastBlockHash d' = headFastBlockHash d;
}.

Lemma deleteHash_reads n h d : 0 <= n < 9223372036854775808 -> let d' := commit (deleteHash n h) d in
  (forall k x, headers d' !! (k, x) = if decide (k = n /\ x = h) then None else headers d !! (k, x)) /\
  (forall k x, blockBodies d' !! (k, x) = if decide (k = n /\ x = h) then None else blockBodies d !! (k, x)) /\
  (forall k x, headerTDs d' !! (k, x) = if decide (k = n /\ x = h) then None else headerTDs d !! (k, x)) /\
  (forall x, headerNumbers d' !! x = if decide (x = h) then None else headerNumbers d !! x) /\
  headerHashes d' = headerHashes d /\ txLookups d' = txLookups d /\
  headBlockHash d' = headBlockHash d /\ headHeaderHash d' = headHeaderHash d /\ headFastBlockHash d' = headFastBlockHash d.
Proof.
  intros Hn. unfold deleteHash, deleteContent, frozen. rewrite (proj2 (Z.leb_gt (n +w 1) 0)) by (rewrite u64_small; unfold is_u64; lia). simpl.
  assert (Hd : forall {A} (m : gmap (Z * Hash) A) k x, delete (n, h) m !! (k, x) = if decide (k = n /\ x = h) then None else m !! (k, x)).
  { intros A m k x. rewrite lookup_delete. destruct (decide ((n, h) = (k, x))), (decide (k = n /\ x = h)); try done; [naive_solver congruence|destruct a; congruence]. }
  repeat split; try (intros; apply Hd). intros x. rewrite lookup_delete. by destruct (decide (h = x)), (decide (x = h)); try congruence.
Qed.
Lemma deleteHashes_reads n hs : 0 <= n < 9223372036854775808 -> forall d, let d' := commit (hs ≫= deleteHash n) d in
  (forall k x, headers d' !! (k, x) = if decide (k = n /\ x ∈ hs) then None else headers d !! (k, x)) /\
  (forall k x, blockBodies d' !! (k, x) = if decide (k = n /\ x ∈ hs) then None else blockBodies d !! (k, x)) /\
  (forall k x, headerTDs d' !! (k, x) = if decide (k = n /\ x ∈ hs) then None else headerTDs d !! (k, x)) /\
  (forall x, headerNumbers d' !! x = if decide (x ∈ hs) then None else headerNumbers d !! x) /\
  headerHashes d' = headerHashes d /\ txLookups d' = txLookups d /\
  headBlockHash d' = headBlockHash d /\ headHeaderHash d' = headHeaderHash d /\ headFastBlockHash d' = headFastBlockHash d.
Proof.
  intros Hn. induction hs as [|h hs IH]; intros d d'.
  - assert (Hno : forall x : Hash, x ∉ []) by (intros; apply not_elem_of_nil). repeat split; intros; rewrite decide_False; naive_solver.
  - unfold d'. rewrite bind_cons, commit_app. destruct (IH (commit (deleteHash n h) d)) as (I1 & I2 & I3 & I4 & I5 & I6 & I7 & I8 & I9).
    destruct (deleteHash_reads n h d Hn) as (D1 & D2 & D3 & D4 & D5 & D6 & D7 & D8 & D9).
    repeat split; try congruence; intros; rewrite ?I1, ?I2, ?I3, ?I4, ?D1, ?D2, ?D3, ?D4; repeat case_decide; set_solver.
Qed.

Lemma without_iff lv lv' d d' : (forall k, k ∈ lv <-> k ∈ lv') -> without lv d d' -> without lv' d d'.
Proof.
  intros Hk [W1 W2 W3 W4 W5 W6 W7]. constructor; try done.
  - intros k h. rewrite W1. by apply decide_ext.
  - intros k h. rewrite W2. by apply decide_ext.
  - intros k h. rewrite W3. by apply decide_ext.
  - intros h. rewrite W4. destruct (headerNumbers d !! h) as [n|]; [|done]. simpl. by apply decide_ext.
  - intros k. rewrite W5. by apply decide_ext.
Qed.
Lemma deleteLevel_any d h n : level d n -> deleteLevel d h n = (ReadAllHashes d n ≫= deleteHash n) ++ [DeleteCanonicalHash n].
Proof. unfold deleteLevel, level. by destruct (ReadAllHashes d n). Qed.
End Database.

Section Cut.
Context `{Crypto} (U : Block -> Prop) (genesis : Block) `{!Universe U genesis}.
Implicit Types (d : ChainDB) (b c p : Block).
#[local] Abbreviation store_ok := (store_ok U genesis).

Lemma stored_level d b : stored d b -> level d (numberOf b).
Proof. intros [Hh _]. apply level_header. exists (hashOf b). by exists (bHeader b). Qed.
Lemma level_stored d n : store_ok d -> level d n -> exists b, stored d b /\ numberOf b = n.
Proof.
  intros Hd [h [x Hx]]%level_header. destruct (s_header U genesis d Hd _ _ Hx) as (b & _ & Hb & Hk). exists b. unfold key in Hk. by simplify_eq.
Qed.
Lemma level_range d n : store_ok d -> level d n -> 0 <= n < 9223372036854775808.
Proof. intros Hd (b & Hb & <-)%level_stored; [|done]. by apply (stored_range U genesis d Hd). Qed.

Lemma without_level d (Hd : store_ok d) h n : level d n -> forall lv d', without lv d d' -> without (n :: lv) d (commit (deleteLevel d h n) d').
Proof.
  intros Hn lv d' [W1 W2 W3 W4 W5 W6 W7]. pose proof (level_range d n Hd Hn) as Hr. rewrite deleteLevel_any, commit_app by done.
  destruct (deleteHashes_reads n (ReadAllHashes d n) Hr d') as (D1 & D2 & D3 & D4 & D5 & D6 & D7 & D8 & D9).
  set (e := commit (ReadAllHashes d n ≫= deleteHash n) d') in *. unfold commit. cbn [foldl].
  assert (Hin : forall b, stored d b -> numberOf b = n -> hashOf b ∈ ReadAllHashes d n).
  { intros b [Hb _] <-. apply elem_of_ReadAllHashes. by exists (bHeader b). }
  assert (Hcase : forall {A} (m m' : gmap (Z * Hash) A), (forall k x, is_Some (m !! (k, x)) -> exists b, U b /\ stored d b /\ key b = (k, x)) ->
    (forall k x, m' !! (k, x) = if decide (k ∈ lv) then None else m !! (k, x)) -> forall k x,
    (if decide (k = n /\ x ∈ ReadAllHashes d n) then None else m' !! (k, x)) = if decide (k ∈ n :: lv) then None else m !! (k, x)).
  { intros A m m' Hm Hm' k x. rewrite Hm'. pose proof (elem_of_cons lv k n) as Hc. destruct (decide (k = n)) as [->|Hne].
    - rewrite (decide_True (P := n ∈ n :: lv)) by (by left). destruct (decide (n = n /\ x ∈ ReadAllHashes d n)) as [|Hx]; [done|]. case_decide; [done|].
      destruct (m !! (n, x)) eqn:E; [|done]. exfalso. destruct (Hm n x ltac:(by eexists)) as (b & _ & Hb & Hk). unfold key in Hk. simplify_eq. naive_solver.
    - rewrite decide_False by naive_solver. destruct (decide (k ∈ lv)), (decide (k ∈ n :: lv)); try done; naive_solver. }
  constructor; simpl.
  - intros k x. rewrite D1. apply Hcase; [|done]. intros k' x' [y Hy]. by apply (s_header U genesis d Hd _ y).
  - intros k x. rewrite D2. apply Hcase; [|done]. intros k' x' [y Hy]. by apply (s_body U genesis d Hd _ y).
  - intros k x. rewrite D3. apply Hcase; [|done]. intros k' x' [y Hy]. by apply (s_td U genesis d Hd _ y).
  - intros x. rewrite D4, W4. destruct (headerNumbers d !! x) as [k|] eqn:E; simpl; [|by case_decide].
    destruct (s_number U genesis d Hd _ _ E) as (b & _ & Hb & Hk). unfold key in Hk. simplify_eq. pose proof (elem_of_cons lv (numberOf b) n) as Hc.
    assert (Hx : hashOf b ∈ ReadAllHashes d n <-> numberOf b = n).
    { split; [|by apply Hin]. intros [y Hy]%elem_of_ReadAllHashes. destruct (s_header U genesis d Hd _ _ Hy) as (b' & _ & Hb' & Hk'). unfold key in Hk'. simplify_eq.
      by rewrite (stored_inj U genesis d Hd b b'). }
    destruct (decide (hashOf b ∈ ReadAllHashes d n)), (decide (numberOf b ∈ lv)), (decide (numberOf b ∈ n :: lv)); try done; tauto.
  - intros k. change (mk (DeleteCanonicalHash n e) k = if decide (k ∈ n :: lv) then 0 else mk d k). rewrite mk_delete. unfold mk, ReadCanonicalHash. rewrite D5.
    change (default 0 (headerHashes d' !! k)) with (mk d' k). rewrite W5. pose proof (elem_of_cons lv k n) as Hc.
    destruct (decide (k = n)), (decide (k ∈ lv)), (decide (k ∈ n :: lv)); try done; tauto.
  - by rewrite D6.
  - by rewrite D7, D8, D9.
Qed.
Lemma without_levels d (Hd : store_ok d) h lv : Forall (level d) lv -> forall lv' d', without lv' d d' -> without (lv ++ lv') d (commit (lv ≫= deleteLevel d h) d').
Proof.
  intros Hlv. induction Hlv as [|n lv Hn Hlv IH]; intros lv' d' Hw; [done|]. rewrite bind_cons, commit_app.
  eapply without_iff; [|apply IH, (without_level d Hd h n Hn lv' d' Hw)]. intros k. set_solver.
Qed.

(** What is stored up to [n], and nothing above. *)
Section CutAt.
Context d d' lv n (Hd : store_ok d) (Hw : without lv d d') (Hlv : forall k, k ∈ lv <-> n < k /\ level d k) (Hn : 0 <= n).

Lemma cut_lookup {A} (m m' : gmap (Z * Hash) A) b : (forall k h, m' !! (k, h) = if decide (k ∈ lv) then None else m !! (k, h)) -> stored d b -> numberOf b <= n ->
  m' !! key b = m !! key b.
Proof. intros Hm Hb Hbn. unfold key. rewrite Hm, decide_False; [done|]. rewrite Hlv. lia. Qed.
Lemma cut_stored b : stored d' b <-> stored d b /\ numberOf b <= n.
Proof.
  split.
  - intros [Hh Hb]. unfold key in *. rewrite (w_headers _ _ _ Hw) in Hh. rewrite (w_bodies _ _ _ Hw) in Hb. case_decide as Hin; [done|].
    assert (Hs : stored d b) by done. split; [done|]. destruct (Z_lt_le_dec n (numberOf b)) as [Hlt|]; [|done]. destruct Hin. apply Hlv. split; [done|by apply stored_level].
  - intros [Hb Hbn]. pose proof Hb as [Eh Eb]. split; [by rewrite (cut_lookup (headers d) _ b (w_headers _ _ _ Hw) Hb Hbn)|by rewrite (cut_lookup (blockBodies d) _ b (w_bodies _ _ _ Hw) Hb Hbn)].
Qed.
Lemma cut_td b : stored d b -> numberOf b <= n -> tdOf d' b = tdOf d b.
Proof. intros Hb Hbn. apply cut_lookup; [apply (w_tds _ _ _ Hw)|done|done]. Qed.
Lemma cut_parent b p : stored d b -> numberOf b <= n -> parent d' b p <-> parent d b p.
Proof. intros Hb Hbn. unfold parent. rewrite cut_stored. split; [tauto|]. intros (? & ? & ?). split; [split; [done|lia]|done]. Qed.
Lemma cut_ancestor b c : stored d b -> numberOf b <= n -> ancestor d' b c <-> ancestor d b c.
Proof.
  intros Hb Hbn. split; intros [l Hl]; exists l.
  - revert Hb Hbn. induction Hl as [x|x p y l Hp Hl IH]; intros Hb Hbn; [constructor|]. apply (cut_parent x p Hb Hbn) in Hp. econstructor; [done|].
    apply IH; [apply Hp|]. destruct Hp as (_ & _ & Hpn). lia.
  - revert Hb Hbn. induction Hl as [x|x p y l Hp Hl IH]; intros Hb Hbn; [constructor|]. econstructor; [by apply cut_parent|]. apply IH; [apply Hp|].
    destruct Hp as (_ & _ & Hpn). lia.
Qed.
Lemma cut_ok : store_ok d'.
Proof.
  assert (Hex : forall k h, k ∉ lv -> (exists b, U b /\ stored d b /\ key b = (k, h)) -> exists b, U b /\ stored d' b /\ key b = (k, h)).
  { intros k h Hk (b & HU & Hb & Hkb). exists b. split; [done|]. split; [|done]. apply cut_stored. split; [done|]. unfold key in Hkb. simplify_eq.
    destruct (Z_lt_le_dec n (numberOf b)); [|done]. destruct Hk. apply Hlv. split; [done|by apply stored_level]. }
  constructor.
  - intros [k h] x. rewrite (w_headers _ _ _ Hw). case_decide; [done|]. intros Hx. apply Hex; [done|]. by apply (s_header U genesis d Hd _ x).
  - intros [k h] x. rewrite (w_bodies _ _ _ Hw). case_decide; [done|]. intros Hx. apply Hex; [done|]. by apply (s_body U genesis d Hd _ x).
  - intros [k h] x. rewrite (w_tds _ _ _ Hw). case_decide; [done|]. intros Hx. apply Hex; [done|]. by apply (s_td U genesis d Hd _ x).
  - intros h k. rewrite (w_numbers _ _ _ Hw). destruct (headerNumbers d !! h) as [m|] eqn:E; [|done]. simpl. case_decide; [done|]. intros ?. simplify_eq.
    apply Hex; [done|]. by apply (s_number U genesis d Hd).
  - apply cut_stored. split; [apply (s_genesis U genesis d Hd)|]. destruct (u_genesis (U:=U) (genesis:=genesis)) as [_ ->]. done.
  - intros b [Hb Hbn]%cut_stored. rewrite cut_td by done. destruct (s_total U genesis d Hd b Hb) as [Ht Hnum]. split; [done|].
    rewrite (w_numbers _ _ _ Hw), Hnum. simpl. rewrite decide_False; [done|]. rewrite Hlv. lia.
  - intros b [Hb Hbn]%cut_stored Hg. destruct (s_parent U genesis d Hd b Hb Hg) as (p & td & Hp & Htp & Htb). exists p, td.
    rewrite cut_parent, (cut_td b) by done. split; [done|]. destruct Hp as (Hps & _ & Hpn). rewrite cut_td by (done || lia). done.
Qed.
Lemma cut_mk k : (forall m, n < m -> mk d m <> 0 -> level d m) -> mk d' k = if decide (n < k) then 0 else mk d k.
Proof.
  intros Hm. rewrite (w_marks _ _ _ Hw). destruct (decide (n < k)) as [Hlt|Hge].
  - case_decide as Hin; [done|]. destruct (decide (mk d k = 0)) as [|Hne]; [done|]. destruct Hin. apply Hlv. auto.
  - rewrite decide_False; [done|]. rewrite Hlv. lia.
Qed.
End CutAt.
End Cut.

(** ** The heads go down *)

Section Down.
Context `{Crypto} `{TxSigning} `{Lru L} `{!LruLaws L} `{ChainWorld X T} `{!ChainWorldLaws X T} (U : Block -> Prop) (genesis : Block) `{!Universe U genesis}.
Variables (pivot : option Z) (w0 : X).
#[local] Abbreviation BC := (BlockChain L X).
#[local] Abbreviation V := (View L X).
Implicit Types (s : BC) (v : V) (d : ChainDB) (b c p : Block).
#[local] Abbreviation store_ok := (store_ok U genesis).

(** From the states [w0], after any states were opened. *)
Definition opened (w : X) : Prop := exists l, w = foldl (fun x root => snd (stateNew root x)) w0 l.
(** The state of the block is there, whatever has been opened before. *)
Definition alwaysOpens b : Prop := forall w, opened w -> exists st w', stateNew (Root (bHeader b)) w = (Ok st, w').
Lemma opened_next w root : opened w -> opened (snd (stateNew root w)).
Proof. intros [l ->]. exists (l ++ [root]). by rewrite foldl_app. Qed.

Definition withWorld (w : X) v : V := mkView (v_db v) (v_genesisHeader v) (v_currentHeader v) (v_currentHash v) (v_coins v) (v_stop v) (v_genesis v) (v_head v) (v_fast v)
  (v_future v) w (v_events v) (v_closed v).
Definition seen v s : Prop := exists w, opened w /\ at_view (withWorld w v) s.
Lemma seen_intro {A} v (m : ST BC A) Q E : (forall w, opened w -> triple (at_view (withWorld w v)) m Q E) -> triple (seen v) m Q E.
Proof. intros Hm s (w & Ho & Hs). exact (Hm w Ho s Hs). Qed.
Lemma seen_reads {A} v (m : ST BC A) (phi : A -> Prop) : (forall w, always (at_view (withWorld w v)) m (fun r s => at_view (withWorld w v) s /\ phi r)) ->
  always (seen v) m (fun r s => seen v s /\ phi r).
Proof. intros Hm. apply seen_intro. intros w Ho. eapply triple_conseq; [apply Hm|done| |done]. intros r s [Hs Hr]. split; [by exists w|done]. Qed.

Lemma always_opens v b : always (seen v) (opens (Root (bHeader b))) (fun r s => seen v s /\ (alwaysOpens b -> r = true)).
Proof.
  intros s (w & Hw & Hv & Hc). assert (Ew : world s = w) by (change (v_world (view s) = w); by rewrite Hv). unfold opens, attempt, on_world, mbind, st_bind. pose proof (stateNew_ends (Root (bHeader b)) (world s)) as He.
  destruct (stateNew (Root (bHeader b)) (world s)) as [r x] eqn:E. simpl in He.
  assert (Hs : seen v (set_world x s)).
  { exists x. split; [pose proof (opened_next w (Root (bHeader b)) Hw) as Hx; rewrite <- Ew, E in Hx; exact Hx|]. split; [|eapply caches_view; [..|exact Hc]; done]. assert (Hv' : view (set_world x s) = withWorld x (view s)) by done. by rewrite Hv', Hv. }
  destruct r as [st|e|]; simpl; [done| |done]. split; [exact Hs|]. intros Ho. destruct (Ho (world s)) as (st & x' & E'); [by rewrite Ew|congruence].
Qed.

(** *** To a block with a state *)
Section Stateful.
Context v (Hd : store_ok (v_db v)) (Hg : v_genesis v = genesis).
Local Abbreviation d := (v_db v).

Lemma seen_parent b : stored d b -> always (seen v) (parentBlock b)
  (fun r s => seen v s /\ match r with Some p => parent d b p | None => b = genesis end).
Proof.
  intros Hb. apply seen_reads. intros w. destruct (decide (hashOf b = hashOf genesis)) as [He|Hne].
  - assert (b = genesis) as ->.
    { apply (stored_inj U genesis d Hd); [done|apply (s_genesis U genesis d Hd)|done]. }
    eapply triple_conseq; [apply (always_GetBlock U genesis (withWorld w v) Hd (parentHashOf genesis) (numberOf genesis -w 1))|done| |done].
    intros [p|] s [Hs Hr]; (split; [done|]); [|done]. destruct Hr as (p' & Hp & Hh & Hf). injection Hf as ->. exfalso.
    rewrite (u_orphan (U:=U) (genesis:=genesis)) in Hh. by apply (u_hash (U:=U) (genesis:=genesis) p (stored_U U genesis d Hd p Hp)).
  - destruct (stored_parent U genesis d Hd b Hb) as [p Hp]; [congruence|]. pose proof Hp as (Hps & Hph & Hpn).
    eapply triple_conseq; [apply (always_parent U genesis (withWorld w v) Hd b p Hps Hph Hpn)|done| |done]. by intros r s [Hs ->].
Qed.

Context t (Ht : stored d t) (Hp : match pivot with Some p => p <= numberOf t | None => True end).

Lemma always_statefulBlock : forall fuel b rn, stored d b -> (Z.to_nat (numberOf b) < fuel)%nat ->
  always (seen v) (statefulBlock pivot 0 fuel b true rn)
    (fun r s => seen v s /\ ancestor d b r.1 /\ r.2 = rn /\ (alwaysOpens t -> ancestor d b t -> ancestor d r.1 t)).
Proof.
  assert (Hback : forall b, stored d b -> ancestor d b genesis) by (intros b; apply (genesis_ancestor U genesis d Hd)).
  induction fuel as [|fuel IH]; intros b rn Hb Hf; [lia|]. cbn [statefulBlock negb Z.eqb andb orb].
  eapply triple_learn; [apply always_opens|]. intros available Hav. apply triple_look. intros s (w & _ & Hv & _).
  assert (Hgs : genesisBlock s = genesis) by (rewrite <- Hg; change (genesisBlock s = v_genesis (withWorld w v)); by rewrite <- Hv).
  destruct available; cbv beta iota.
  { apply triple_value. intros s' Hs'. split; [done|]. split; [apply ancestor_refl|]. split; [done|]. tauto. }
  assert (Hnot : alwaysOpens t -> b <> t) by (intros Ho ->; by specialize (Hav Ho)).
  assert (Hgen : alwaysOpens t -> ancestor d b t -> (match pivot with None => true | Some p => p <? numberOf b end = false) \/ b = genesis -> ancestor d genesis t).
  { intros Ho Hbt [Hpf|Hbg]; [|by rewrite <- Hbg]. exfalso. destruct pivot as [n|]; [|done]. apply Z.ltb_ge in Hpf.
    apply (Hnot Ho), (ancestor_same U genesis d Hd b); [apply ancestor_refl|done|]. apply ancestor_number in Hbt. lia. }
  rewrite Hgs. destruct (match pivot with None => true | Some p => p <? numberOf b end) eqn:Epiv.
  - eapply (triple_bind _ _ _ (fun r s => seen v s /\ match r with inr p => parent d b p | inl g => g = genesis /\ b = genesis end)).
    { eapply triple_learn; [by apply seen_parent|]. intros [p|] Hpb; apply triple_value; by intros s' Hs'. }
    intros r. intros s' [Hs' Hr]. revert s' Hs'. destruct r as [g|p].
    + destruct Hr as [-> ->]. apply triple_value. intros s' Hs'. split; [done|]. split; [apply ancestor_refl|]. split; [done|]. tauto.
    + pose proof Hr as (Hps & _ & Hpn). pose proof (numberOf_nonneg p). eapply triple_conseq; [apply (IH p rn Hps)|done| |done]; [lia|].
      intros r s' (Hs' & Ha & Hrn & Hk). split; [done|]. split; [eapply ancestor_trans; [by apply ancestor_parent|done]|]. split; [done|].
      intros Ho Hbt. apply (Hk Ho). destruct Hbt as [l Hl]. inversion Hl as [x Ex1 Ex2|x q y l' Hq Hl' Ex1 Ex2]; [by destruct (Hnot Ho)|].
      rewrite (parent_inj U genesis d Hd b p q Hr Hq). by exists l'.
  - apply triple_value. intros s' Hs'. split; [done|]. split; [by apply Hback|]. split; [done|]. intros Ho Hbt. apply Hgen; auto.
Qed.
End Stateful.

(** *** The loop *)

(** The header is that of [c] and the fast head [f]; the head is [b]. *)
Definition lowerView v (d : ChainDB) c b f (w : X) : V := mkView d (v_genesisHeader v) (bHeader c) (hashOf c) (v_coins v) (v_stop v) (v_genesis v) b f
  (v_future v) w (v_events v) (v_closed v).
Definition marked d c b : ChainDB := with_heads (Some (hashOf c)) (Some (hashOf b)) (Some (hashOf c)) d.
Definition rewound v c b (w : X) : V := lowerView v (marked (v_db v) c b) c b c w.

Lemma marked_same d c b : same_blocks d (marked d c b).
Proof. done. Qed.
Lemma full_rewound v : chain_full U genesis v -> rewound v (v_head v) (v_head v) (v_world v) = v.
Proof.
  intros Hf. destruct (f_disk _ _ _ Hf) as (D1 & D2 & D3). unfold rewound, lowerView, marked, with_heads. simpl. rewrite <- D1 at 2. rewrite <- D2 at 1. rewrite <- D3 at 1.
  rewrite <- (f_header _ _ _ Hf), <- (f_hash _ _ _ Hf). rewrite <- (f_fast _ _ _ Hf) at 2. destruct v as [d0 ? ? ? ? ? ? ? ? ? ? ? ?]. by destruct d0.
Qed.

Section Loop.
Context v (Hd : store_ok (v_db v)) (Hg : v_genesis v = genesis).
Local Abbreviation d := (v_db v).
Context t (Ht : stored d t) (Hpt : match pivot with Some p => p <= numberOf t | None => True end).

(** The head is below the header, and not below [t] if its state is there. *)
Definition keeps c b : Prop := ancestor d c b /\ (alwaysOpens t -> ancestor d c t -> ancestor d b t).
Definition down c s : Prop := exists b w, at_view (rewound v c b w) s /\ keeps c b /\ opened w.

Lemma rewound_ok c b w : store_ok (v_db (rewound v c b w)).
Proof. exact (store_ok_same U genesis d _ (marked_same d c b) Hd). Qed.

Lemma keeps_parent c p b : stored d c -> parent d c p -> keeps c b -> numberOf b < numberOf p -> keeps p b.
Proof.
  intros Hc Hp [Hb Hk] Hlt. split.
  - destruct Hb as [l Hl]. inversion Hl as [x E1 E2|x q y l' Hq Hl' E1 E2]; [destruct Hp as (_ & _ & Hpn); subst; lia|].
    rewrite (parent_inj U genesis d Hd c p q Hp Hq). by exists l'.
  - intros Ho Hpt'. apply (Hk Ho). eapply ancestor_trans; [by apply ancestor_parent|done].
Qed.

(** What [updateHeads] does on the way from [c] to its parent [p]. *)
Section Step.
Context c p b (w : X) (Hc : stored d c) (Hp : parent d c p) (Hk : keeps c b) (Hw : opened w).

Lemma view_head b' s : view (set_currentBlock b' s) = mkView (v_db (view s)) (v_genesisHeader (view s)) (v_currentHeader (view s)) (v_currentHash (view s)) (v_coins (view s))
  (v_stop (view s)) (v_genesis (view s)) b' (v_fast (view s)) (v_future (view s)) (v_world (view s)) (v_events (view s)) (v_closed (view s)).
Proof. done. Qed.
Lemma view_fast f s : view (set_currentFastBlock f s) = mkView (v_db (view s)) (v_genesisHeader (view s)) (v_currentHeader (view s)) (v_currentHash (view s)) (v_coins (view s))
  (v_stop (view s)) (v_genesis (view s)) (v_head (view s)) f (v_future (view s)) (v_world (view s)) (v_events (view s)) (v_closed (view s)).
Proof. done. Qed.
Lemma view_header h hash s : view (set_hc (set_current h hash (hc s)) s) = mkView (v_db (view s)) (v_genesisHeader (view s)) h hash (v_coins (view s))
  (v_stop (view s)) (v_genesis (view s)) (v_head (view s)) (v_fast (view s)) (v_future (view s)) (v_world (view s)) (v_events (view s)) (v_closed (view s)).
Proof. done. Qed.

Lemma always_lowerHead rn : always (at_view (rewound v c b w)) (lowerHead pivot 0 (bHeader p) rn)
  (fun r s => exists b' w', at_view (lowerView v (marked d c b) c b' c w') s /\ (keeps p b' /\ opened w') /\
    commit r.1 (marked d c b) = with_heads None (Some (hashOf b')) None (marked d c b) /\ r.2 = rn).
Proof.
  pose proof Hp as (Hps & Hph & Hpn). pose proof (rewound_ok c b w) as Hd1. set (v1 := rewound v c b w) in *.
  unfold lowerHead. apply triple_look. intros s0 [Hv0 _]. change (NumberU64 (bHeader p)) with (numberOf p).
  assert (Ecur : currentBlock s0 = b) by (change (v_head (view s0) = b); by rewrite Hv0).
  assert (Egen : genesisBlock s0 = genesis) by (change (v_genesis (view s0) = genesis); by rewrite Hv0).
  rewrite Ecur, Egen. destruct (Z.ltb_spec (numberOf b) (numberOf p)) as [Hlt|Hge].
  - apply triple_value. intros s Hs. exists b, w. split; [done|]. split; [split; [by apply (keeps_parent c)|done]|done].
  - eapply triple_learn; [apply (always_GetBlock U genesis v1 Hd1)|]. intros r Hr.
    pose proof (finds_stored U genesis v1 Hd1 Some p r Hps Hr) as ->. cbv beta iota.
    eapply (triple_bind _ _ _ (fun r s => seen v1 s /\ ancestor d p r.1 /\ r.2 = rn /\ (alwaysOpens t -> ancestor d p t -> ancestor d r.1 t))).
    { eapply triple_conseq; [apply (always_statefulBlock v1 Hd1 Hg t Hpt); [exact Hps|lia]| | |done]; [intros s Hs; exists w; by split|].
      intros r s (Hs & Ha & Hrn & Hkt). split; [done|]. split; [by apply (ancestor_same_blocks d (marked d c b))|]. split; [done|].
      intros Ho Hpt'. apply (ancestor_same_blocks d (marked d c b)); [done|]. apply Hkt; [done|]. by apply (ancestor_same_blocks d (marked d c b)). }
    intros [b' n']. cbn [fst snd]. intros s (Hs & Ha & -> & Hkt). destruct Hs as (w' & Hw' & Hv & Hch). simpl.
    exists b', w'. split; [|by split]. split; [by rewrite view_head, Hv|eapply caches_view; [..|exact Hch]; done].
Qed.
Lemma always_lowerFast b' w' : always (at_view (lowerView v (marked d c b) c b' c w')) (lowerFast (bHeader p))
  (fun f s => at_view (lowerView v (marked d c b) c b' p w') s /\ f = [WriteHeadFastBlockHash (hashOf p)]).
Proof.
  pose proof Hp as (Hps & Hph & Hpn). set (v2 := lowerView v (marked d c b) c b' c w'). assert (Hd2 : store_ok (v_db v2)) by apply (rewound_ok c b w).
  unfold lowerFast. apply triple_look. intros s0 [Hv0 _]. change (NumberU64 (bHeader p)) with (numberOf p).
  assert (Ef : currentFastBlock s0 = c) by (change (v_fast (view s0) = c); by rewrite Hv0). rewrite Ef, (proj2 (Z.leb_gt (numberOf c) (numberOf p))) by lia.
  eapply triple_learn; [apply (always_GetBlock U genesis v2 Hd2)|]. intros x Hx.
  pose proof (finds_stored U genesis v2 Hd2 Some p x Hps Hx) as ->. intros s [Hv Hch]. simpl. split; [|done].
  split; [by rewrite view_fast, Hv|eapply caches_view; [..|exact Hch]; done].
Qed.
Lemma always_updateHeads rn : always (at_view (rewound v c b w)) (updateHeads pivot 0 (bHeader p) rn)
  (fun u s => exists b' w', at_view (lowerView v (marked d c b) c b' p w') s /\ (keeps p b' /\ opened w') /\
    commit (lMarks u ++ [WriteHeadHeaderHash (hashOf p)]) (marked d c b) = marked d p b' /\ lForce u = false /\ lRoot u = rn).
Proof.
  unfold updateHeads. eapply triple_bind; [apply always_lowerHead|]. intros r. apply triple_exists. intros b'. apply triple_exists. intros w'.
  intros s (Hs & Hkp & Hcm & Hrn). revert s Hs. eapply triple_bind; [apply always_lowerFast|]. intros f. apply triple_look. intros s0 _ s [Hs ->]. simpl.
  exists b', w'. split; [done|]. split; [done|]. split; [by rewrite commit_app, commit_app, Hcm|]. split; [|done].
  unfold frozen. rewrite (proj2 (Z.ltb_ge _ 0)); [done|]. apply u64_nonneg.
Qed.

(** A step down: the heads, in memory and on disk. *)
Lemma always_step rn : always (at_view (rewound v c b w))
  (u ← updateHeads pivot 0 (bHeader p) rn; _ ← on_hc (writeBatch (lMarks u ++ [WriteHeadHeaderHash (hashOf p)])); _ ← on_hc (SetCurrentHeader (bHeader p)); mret u)
  (fun u s => down p s /\ lForce u = false /\ lRoot u = rn).
Proof.
  eapply triple_bind; [apply always_updateHeads|]. intros u. apply triple_exists. intros b'. apply triple_exists. intros w'.
  intros s (Hs & Hkp & Hcm & Hu). revert s Hs. eapply triple_bind.
  { apply always_writeBatch. cbn [v_db lowerView]. rewrite Hcm. by apply grows_same. }
  intros []. cbv beta. intros s [Hv Hch]. simpl. split; [|done]. exists b', w'. split; [|done]. cbn [v_db withDb lowerView] in Hch. rewrite Hcm in Hch.
  split; [|eapply caches_view; [..|exact Hch]; done]. rewrite view_header, Hv. unfold rewound, lowerView, withDb. simpl. by rewrite Hcm.
Qed.
End Step.

(** The numbers at which something is stored have no gap. *)
Lemma level_down m k : level d m -> 0 <= k <= m -> level d k.
Proof.
  intros Hm Hk. destruct (level_stored U genesis d m Hd Hm) as (b & Hb & Hbn). destruct (path_to U genesis d Hd b Hb k) as (c & l & _ & Hc & <-); [lia|]. by apply stored_level.
Qed.
Lemma bind_levels c b h lv : Forall (level d) lv -> lv ≫= deleteLevel (marked d c b) h = lv ≫= deleteLevel d 0.
Proof. induction 1 as [|n lv Hn Hlv IH]; [done|]. rewrite !bind_cons, IH. f_equal. by rewrite (deleteLevel_any d 0), (deleteLevel_any (marked d c b) h). Qed.
Lemma levels_marked c b n : 0 <= n < 9223372036854775808 -> exists l, levelsAbove (marked d c b) (n +w 1) = Ok l /\ forall m, m ∈ l <-> n < m /\ level d m.
Proof.
  intros Hn. rewrite (u64_small (n + 1)) by (unfold is_u64; lia).
  destruct (levelsFrom_spec (marked d c b) (fun m Hm => proj2 (level_range U genesis d m Hd Hm)) (S (size (headers d))) (n + 1)) as (l & Hl & Hm); [lia| |].
  { rewrite <- size_dom. apply Nat.lt_succ_r, subseteq_size. intros k. unfold keysFrom. rewrite elem_of_filter. by intros [_ ?]. }
  exists l. split; [exact Hl|]. intros m. rewrite Hm. split; [intros [Hle Hk]; split; [lia|apply Hk; lia]|]. intros [Hlt Hl']. split; [lia|].
  intros k Hk. apply (level_down m); [done|lia].
Qed.

Lemma bind_step {S0 A B} (m : ST S0 A) (f : A -> ST S0 unit) (g : ST S0 unit) (k : A -> ST S0 B) (s : S0) :
  (u ← m; _ ← f u; _ ← g; k u) s = ((u ← m; _ ← f u; _ ← g; mret u) ≫= k) s.
Proof. unfold mbind, st_bind. destruct (m s) as [[u|e|] s1]; [|done|done]. destruct (f u s1) as [[[]|e|] s2]; [|done|done]. by destruct (g s2) as [[[]|e|] s3]. Qed.

Variables (n : Z) (Hn : 0 <= n).

(** The levels above the header are to be deleted; in the first round nothing is. *)
Definition pending (origin : bool) c (lv : list Z) : Prop := if origin then lv = [] /\ n < numberOf c else forall k, k ∈ lv <-> numberOf c < k /\ level d k.
Definition rewoundTo c (r : Batch * Z) rn s : Prop := exists e lv, ancestor d c e /\ numberOf e = n /\ down e s /\
  r = (lv ≫= deleteLevel d 0, rn) /\ forall k, k ∈ lv <-> n < k /\ level d k.

Lemma pending_next (origin : bool) c p lv above : stored d c -> parent d c p -> pending origin c lv ->
  (if origin then forall m, m ∈ above <-> numberOf c < m /\ level d m else above = []) ->
  Forall (level d) (rev above ++ [numberOf c]) /\ pending false p (lv ++ rev above ++ [numberOf c]).
Proof.
  intros Hc (_ & _ & Hpn) Hlv Hab. pose proof (stored_level d c Hc) as Hlc.
  assert (Hin : forall k, k ∈ rev above ++ [numberOf c] <-> k = numberOf c \/ k ∈ above).
  { intros k. rewrite elem_of_app, elem_of_rev, list_elem_of_singleton. tauto. }
  split.
  - apply list.Forall_forall. intros k [->|Hk]%Hin; [done|]. destruct origin; [by apply Hab|]. subst. by apply not_elem_of_nil in Hk.
  - intros k. rewrite elem_of_app, Hin. destruct origin; simpl in Hlv.
    + destruct Hlv as [-> _]. rewrite Hab. split; [intros [?%not_elem_of_nil|[->|[? ?]]]; [done|split; [lia|done]|split; [lia|done]]|].
      intros [Hlt Hk]. right. destruct (decide (k = numberOf c)); [by left|right; split; [lia|done]].
    + subst above. rewrite Hlv. split; [intros [[? ?]|[->|?%not_elem_of_nil]]; [split; [lia|done]|split; [lia|done]|done]|].
      intros [Hlt Hk]. destruct (decide (k = numberOf c)); [by right; left|left; split; [lia|done]].
Qed.

Lemma always_rewindLoop : forall fuel c (origin : bool) lv rn, stored d c -> n <= numberOf c -> (Z.to_nat (numberOf c - n) <= fuel)%nat -> pending origin c lv ->
  always (down c) (rewindLoop pivot 0 fuel n (lv ≫= deleteLevel d 0) origin rn) (fun r s => rewoundTo c r rn s).
Proof.
  induction fuel as [|fuel IH]; intros c origin lv rn Hc Hle Hf Hlv; cbn [rewindLoop]; apply triple_look; intros s0 (b & w & [Hv0 Hch0] & Hk & Hwo).
  all: assert (Ehd : currentHeader (hc s0) = bHeader c) by (change (v_currentHeader (view s0) = bHeader c); by rewrite Hv0).
  all: rewrite Ehd; change (NumberU64 (bHeader c)) with (numberOf c); destruct (Z.leb_spec (numberOf c) n) as [Hge|Hlt]; [|try lia].
  1,2: apply triple_value; intros s Hs; exists c, lv; split; [apply ancestor_refl|]; split; [lia|]; split; [done|]; split; [done|];
    destruct origin; simpl in Hlv; [lia|]; intros k; rewrite Hlv; split; intros [? ?]; (split; [lia|done]).
  destruct (stored_parent U genesis d Hd c Hc) as [p Hp].
  { intros ->. destruct (u_genesis (U:=U) (genesis:=genesis)) as [_ E]. lia. }
  pose proof Hp as (Hps & Hph & Hpn). clear Hch0 Hk Hwo b w Hv0. apply triple_exists. intros b. apply triple_exists. intros w. intros s1 (Hs1 & Hk & Hwo). revert s1 Hs1.
  pose proof (rewound_ok c b w) as Hd1. eapply triple_learn; [apply (always_GetHeader U genesis (rewound v c b w) Hd1)|]. intros r Hr.
  pose proof (finds_parent U genesis (rewound v c b w) Hd1 (fun x => Some (bHeader x)) c p r Hps Hph Hpn Hr) as ->. cbn [default]. clear Hr.
  change (HeaderHash (bHeader p)) with (hashOf p). intros s1 Hs1. rewrite bind_step. revert s1 Hs1.
  eapply triple_bind; [by apply always_step|]. intros u. cbv beta. intros s1 (Hs1 & Hfo & Hro). revert s1 Hs1. rewrite Hfo, Hro. cbn [andb].
  apply triple_exists. intros b'. apply triple_exists. intros w'. intros s2 (Hs2 & Hk' & Hwo'). revert s2 Hs2. apply triple_look. intros s2 [Hv2 _].
  assert (Edb : db s2 = marked d p b') by (change (v_db (view s2) = marked d p b'); by rewrite Hv2). rewrite Edb.
  pose proof (stored_range U genesis d Hd c Hc) as Hrc.
  eapply (triple_bind _ _ _ (fun above s => at_view (rewound v p b' w') s /\ if origin then forall m, m ∈ above <-> numberOf c < m /\ level d m else above = [])).
  { destruct origin; [|by apply triple_value]. destruct (levels_marked p b' (numberOf c)) as (l & El & Hl); [lia|]. rewrite El.
    intros s Hs. by split. }
  intros above s [Hs Hab]. destruct (pending_next origin c p lv above Hc Hp Hlv Hab) as [Hall Hnext]. rewrite (bind_levels p b' _ _ Hall), <- bind_app.
  pose proof (IH p false (lv ++ rev above ++ [numberOf c]) rn Hps ltac:(lia) ltac:(lia) Hnext s) as Hloop. specialize (Hloop ltac:(exists b', w'; by split)).
  destruct (rewindLoop _ _ _ _ _ _ _ s) as [[r|e|] s']; [|done|done]. destruct Hloop as (e & lv' & Ha & Hrest). exists e, lv'. split; [|done].
  eapply ancestor_trans; [by apply ancestor_parent|done].
Qed.
End Loop.

(** *** The heads on disk *)
Lemma always_GetBlockByHash v b : store_ok (v_db v) -> stored (v_db v) b -> always (at_view v) (GetBlockByHash (hashOf b)) (fun r s => at_view v s /\ r = Some b).
Proof.
  intros Hd Hb. unfold GetBlockByHash. eapply triple_learn; [apply (always_GetBlockNumber U genesis v Hd)|]. intros [k|] Hk; [|by destruct (Hk b Hb)].
  destruct Hk as (x & Hx & Hkx). unfold key in Hkx. injection Hkx as <- Hh. rewrite (stored_inj U genesis _ Hd x b Hx Hb Hh).
  eapply triple_conseq; [apply (always_GetBlock U genesis v Hd)|done| |done]. intros r s [Hs Hr]. split; [done|]. by apply (finds_stored U genesis v Hd Some b).
Qed.
Lemma always_GetHeaderByHash v c : store_ok (v_db v) -> stored (v_db v) c ->
  always (at_view v) (on_hc (GetHeaderByHash (hashOf c))) (fun r s => at_view v s /\ r = Some (bHeader c)).
Proof.
  intros Hd Hc s Hs. pose proof (always_GetBlockNumber U genesis v Hd (hashOf c) s Hs) as Hn. unfold on_hc, GetHeaderByHash, mbind, st_bind in *.
  destruct (GetBlockNumber (hashOf c) (hc s)) as [[[k|]|e|] c1]; try done.
  - destruct Hn as [Hs1 (x & Hx & Hkx)]. unfold key in Hkx. injection Hkx as <- Hh. rewrite (stored_inj U genesis _ Hd x c Hx Hc Hh).
    pose proof (always_GetHeader U genesis v Hd (hashOf c) (numberOf c) _ Hs1) as Hr. unfold GetHeader, on_hc in Hr. cbn [hc set_hc] in Hr.
    destruct (Headers.GetHeader (hashOf c) (numberOf c) c1) as [[r|e|] c2]; try done. destruct Hr as [Hs2 Hr].
    split; [exact Hs2|]. by apply (finds_stored U genesis v Hd (fun x => Some (bHeader x)) c).
  - destruct Hn as [_ Hn]. by destruct (Hn c Hc).
Qed.

Section Load.
Context v b c f (Hd : store_ok (v_db v)) (Hb : stored (v_db v) b) (Hc : stored (v_db v) c) (Hf : stored (v_db v) f).
Context (Eb : headBlockHash (v_db v) = hashOf b) (Ec : headHeaderHash (v_db v) = hashOf c) (Ef : headFastBlockHash (v_db v) = hashOf f).

Lemma stored_hash x : stored (v_db v) x -> (hashOf x =? 0) = false.
Proof. intros Hx. apply Z.eqb_neq, (u_hash (U:=U) (genesis:=genesis)), (stored_U U genesis _ Hd x Hx). Qed.

Lemma always_loadLastState reset : always (at_view v) (loadLastState reset) (fun _ => at_view (lowerView v (v_db v) c b f (v_world v))).
Proof.
  assert (Hdb : forall v' s, view s = v' -> v_db v' = v_db v -> db s = v_db v) by (intros v' s Hv E; change (v_db (view s) = v_db v); by rewrite Hv).
  unfold loadLastState. apply triple_look. intros s0 [Hv0 _]. rewrite (Hdb v s0 Hv0 eq_refl), Eb, stored_hash by done.
  eapply triple_learn; [by apply always_GetBlockByHash|]. intros r ->. cbv beta iota.
  set (v1 := lowerView v (v_db v) c b (v_fast v) (v_world v)).
  eapply (triple_bind _ _ _ (fun _ => at_view (mkView (v_db v) (v_genesisHeader v) (v_currentHeader v) (v_currentHash v) (v_coins v) (v_stop v) (v_genesis v) b (v_fast v)
    (v_future v) (v_world v) (v_events v) (v_closed v)))).
  { intros s [Hv Hch]. simpl. split; [by rewrite view_head, Hv|eapply caches_view; [..|exact Hch]; done]. }
  intros []. set (v2 := mkView _ _ _ _ _ _ _ _ _ _ _ _ _). apply triple_look. intros s1 [Hv1 _]. rewrite (Hdb v2 s1 Hv1 eq_refl), Ec, stored_hash by done. cbv zeta.
  eapply triple_learn; [by apply (always_GetHeaderByHash v2 c)|]. intros r ->. cbn [default].
  eapply (triple_bind _ _ _ (fun _ => at_view (lowerView v (v_db v) c b (v_fast v) (v_world v)))).
  { intros s [Hv Hch]. simpl. split; [by rewrite view_header, Hv|eapply caches_view; [..|exact Hch]; done]. }
  intros []. eapply (triple_bind _ _ _ (fun _ => at_view (lowerView v (v_db v) c b b (v_world v)))).
  { intros s [Hv Hch]. simpl. split; [by rewrite view_fast, Hv|eapply caches_view; [..|exact Hch]; done]. }
  intros []. rewrite Ef, stored_hash by done. set (v3 := lowerView v (v_db v) c b b (v_world v)).
  eapply triple_learn; [by apply (always_GetBlockByHash v3 f)|]. intros r ->. cbn [default].
  eapply (triple_bind _ _ _ (fun _ => at_view (lowerView v (v_db v) c b f (v_world v)))).
  { intros s [Hv Hch]. simpl. split; [by rewrite view_fast, Hv|eapply caches_view; [..|exact Hch]; done]. }
  intros []. do 3 (eapply triple_learn; [apply (always_GetTd U genesis (lowerView v (v_db v) c b f (v_world v)) Hd)|]; intros ? _).
  by apply triple_value.
Qed.
End Load.

(** *** What is deleted *)

(** All that is left after a rewind to [c], with [b] the head. *)
Definition cutView v (d : ChainDB) c b (w : X) : V := mkView d (v_genesisHeader v) (bHeader c) (hashOf c) (v_coins v) (v_stop v) (v_genesis v) b c
  (lru_purge (v_future v)) w (v_events v) (v_closed v).
Section Deleted.
Context v (Hf : chain_full U genesis v) c b (w : X) (Ha : ancestor (v_db v) (v_head v) c) (Hb : ancestor (v_db v) c b).
Context (lv : list Z) (Hlv : forall k, k ∈ lv <-> numberOf c < k /\ level (v_db v) k).
Local Abbreviation d := (v_db v).
Local Abbreviation d1 := (marked d c b).
Local Abbreviation d' := (commit (lv ≫= deleteLevel d 0) d1).
Local Abbreviation v' := (cutView v d' c b w).
Let Hk := f_core _ _ _ Hf.
Let Hd := k_store _ _ _ Hk.
Let Hd1 : store_ok d1 := store_ok_same U genesis d d1 (marked_same d c b) Hd.

Lemma deleted_without : without lv d1 d'.
Proof.
  assert (Hl : Forall (level d) lv) by (apply list.Forall_forall; intros k Hin; by apply Hlv in Hin as [_ ?]).
  rewrite <- (bind_levels v c b 0 lv Hl). pose proof (without_levels U genesis d1 Hd1 0 lv Hl [] d1) as Hw. rewrite app_nil_r in Hw. apply Hw.
  constructor; try done. intros h. simpl. by destruct (headerNumbers d !! h).
Qed.
Let Hw := deleted_without.
Let Hn : 0 <= numberOf c := numberOf_nonneg c.
Lemma deleted_c : stored d c.
Proof. exact (ancestor_stored _ _ _ (k_head _ _ _ Hk) Ha). Qed.
Let Hc := deleted_c.

Lemma deleted_stored x : stored d' x <-> stored d x /\ numberOf x <= numberOf c.
Proof. exact (cut_stored d1 d' lv (numberOf c) Hw Hlv x). Qed.
Lemma deleted_ancestor x y : stored d x -> numberOf x <= numberOf c -> ancestor d' x y <-> ancestor d x y.
Proof.
  intros Hx Hxn. rewrite (cut_ancestor d1 d' lv (numberOf c) Hw Hlv x y Hx Hxn). apply (ancestor_same_blocks d d1). done.
Qed.
Lemma deleted_mk k : mk d' k = if decide (numberOf c < k) then 0 else mk d k.
Proof.
  rewrite (cut_mk d1 d' lv (numberOf c) Hw Hlv k); [done|]. intros m Hm Hnz. destruct (core_marked U genesis v m Hk) as (x & Hx & Hkx); [lia|exact Hnz|].
  unfold key in Hkx. injection Hkx as <- _. by apply (stored_level d).
Qed.
Lemma deleted_head : stored d' b /\ numberOf b <= numberOf c.
Proof. pose proof (ancestor_number _ _ _ Hb). split; [|done]. apply deleted_stored. split; [by apply (ancestor_stored _ _ _ Hc)|done]. Qed.

Lemma deleted_core : chain_core U genesis v'.
Proof.
  destruct deleted_head as [Hbs Hbn]. constructor; cbn [v_db v_head v_future cutView].
  - exact (cut_ok U genesis d1 d' lv (numberOf c) Hd1 Hw Hlv Hn).
  - exact Hbs.
  - intros x Hx. apply deleted_stored in Hbs as [Hbs' _]. apply (deleted_ancestor b x Hbs' Hbn) in Hx. rewrite deleted_mk, decide_False by (apply ancestor_number in Hx; lia).
    apply (k_below _ _ _ Hk). eapply ancestor_trans; [exact Ha|]. eapply ancestor_trans; [exact Hb|exact Hx].
  - intros m Hm. rewrite deleted_mk. case_decide as Hlt; [done|]. intros Hnz. pose proof (numberOf_nonneg b).
    destruct (core_marked U genesis v m Hk) as (x & Hx & Hkx); [lia|exact Hnz|]. exists x. split; [|exact Hkx]. apply deleted_stored. split; [done|].
    unfold key in Hkx. injection Hkx as <- _. lia.
  - intros m Hm. rewrite !deleted_mk. destruct (decide (numberOf c < m + 1)); [done|]. rewrite decide_False by lia. pose proof (numberOf_nonneg b).
    apply (core_gap U genesis v m Hk). lia.
  - intros h x Hm. by destruct (lru_purge_mem _ (v_future v) h x).
Qed.
Lemma deleted_full : b = c -> chain_full U genesis v'.
Proof.
  intros E. constructor; cbn [v_db v_head v_currentHeader v_currentHash v_fast cutView]; [exact deleted_core|by rewrite E..| |].
  - destruct (w_heads _ _ _ Hw) as (-> & -> & ->). simpl. by rewrite E.
  - intros x tc th Hx Hxs. apply deleted_stored in Hxs as [_ Hxn]. rewrite E in Hx. lia.
Qed.
Lemma deleted_reads : headBlockHash d' = hashOf b /\ headHeaderHash d' = hashOf c /\ headFastBlockHash d' = hashOf c /\ txLookups d' = txLookups d.
Proof. destruct (w_heads _ _ _ Hw) as (-> & -> & ->). by rewrite (w_lookups _ _ _ Hw). Qed.
End Deleted.

(** *** The whole rewind *)
Section SetHead.
Context v (Hf : chain_full U genesis v) (Hg : v_genesis v = genesis) (Hopen : v_closed v = false) (Hwv : opened (v_world v)).
Context t (Ht : ancestor (v_db v) (v_head v) t) (Htn : numberOf t < numberOf (v_head v)) (Hpt : match pivot with Some p => p <= numberOf t | None => True end).
Local Abbreviation d := (v_db v).

(** The chain is at [t], with a head at or below it. *)
Definition rewindDone s : Prop := exists b w (lv : list Z), at_view (cutView v (commit (lv ≫= deleteLevel d 0) (marked d t b)) t b w) s /\
  ancestor d t b /\ (alwaysOpens t -> b = t) /\ forall k, k ∈ lv <-> numberOf t < k /\ level d k.

Lemma always_SetHead : always (at_view v) (SetHead pivot (numberOf t)) (fun _ => rewindDone).
Proof.
  pose proof (f_core _ _ _ Hf) as Hk. pose proof (k_store _ _ _ Hk) as Hd. pose proof (k_head _ _ _ Hk) as Hh.
  unfold SetHead, setHeadBeyondRoot, headerSetHead. intros s Hs. pose proof Hs as [Hv _].
  assert (Ecl : closed s = false) by (rewrite <- Hopen, <- Hv; done). assert (Ehd : currentHeader (hc s) = bHeader (v_head v)) by (rewrite <- (f_header _ _ _ Hf), <- Hv; done).
  unfold mbind, st_bind, st_get. rewrite Ecl. cbv iota. rewrite Ehd. change (NumberU64 (bHeader (v_head v))) with (numberOf (v_head v)).
  assert (Hdown : down v t (v_head v) s).
  { exists (v_head v), (v_world v). split; [by rewrite full_rewound|]. split; [split; [apply ancestor_refl|done]|]. exact Hwv. }
  pose proof (numberOf_nonneg t) as Hnt.
  pose proof (always_rewindLoop v Hd Hg t Hpt (numberOf t) Hnt (S (Z.to_nat (numberOf (v_head v)))) (v_head v) true [] 0 Hh ltac:(lia) ltac:(lia) (conj eq_refl Htn) s Hdown) as Hloop.
  change ([] ≫= deleteLevel d 0) with (@nil (ChainDB -> ChainDB)) in Hloop.
  destruct (rewindLoop _ _ _ _ _ _ _ s) as [[r|e|] s1]; [|done|done]. destruct Hloop as (e & lv & Hea & Hen & (b & w & [Hv1 Hc1] & [Hb Hkb] & _) & -> & Hlv).
  assert (e = t) as -> by exact (ancestor_same U genesis d Hd _ _ _ Hea Ht Hen).
  unfold purgeHeaders, purgeBlocks, st_modify, writeBatch, on_hc, st_modify. cbn [fst snd hc set_hc].
  match goal with |- context [mret 0 ?x] => change ((mret 0 : ST BC Z) x) with (@Ok Z 0, x) end. cbv beta iota.
  match goal with |- context [loadLastState deadlocked ?x] => set (s2 := x) end. set (d' := commit (lv ≫= deleteLevel d 0) (marked d t b)).
  assert (Hs2 : at_view (cutView v d' t b w) s2).
  { split.
    - change (view s2) with (mkView (commit (lv ≫= deleteLevel d 0) (v_db (view s1))) (v_genesisHeader (view s1)) (v_currentHeader (view s1)) (v_currentHash (view s1)) (v_coins (view s1))
        (v_stop (view s1)) (v_genesis (view s1)) (v_head (view s1)) (v_fast (view s1)) (lru_purge (v_future (view s1))) (v_world (view s1)) (v_events (view s1)) (v_closed (view s1))).
      by rewrite Hv1.
    - constructor; intros h x Hm; by destruct (lru_purge_mem _ _ _ _ Hm). }
  destruct (deleted_reads v Hf t b lv Hlv) as (Rb & Rh & Rf & _). destruct (deleted_head v Hf t b Ht Hb lv Hlv) as [Hbs Hbn].
  assert (Hts : stored d' t) by (apply (deleted_stored v Hf t b lv Hlv); split; [exact (ancestor_stored _ _ _ Hh Ht)|lia]).
  pose proof (always_loadLastState (cutView v d' t b w) b t t (k_store _ _ _ (deleted_core v Hf t b w Ht Hb lv Hlv)) Hbs Hts Hts Rb Rh Rf deadlocked s2 Hs2) as Hload.
  destruct (loadLastState _ s2) as [[[]|e|] s3]; [|done|done]. exists b, w, lv. split; [exact Hload|]. split; [exact Hb|]. split; [|exact Hlv].
  intros Ho. specialize (Hkb Ho (ancestor_refl d t)). apply (ancestor_same U genesis d Hd t); [exact Hb|apply ancestor_refl|].
  apply ancestor_number in Hb, Hkb. lia.
Qed.
End SetHead.
End Down.

(** ** What a rewind promises *)

Section Promises.
Context `{Crypto} `{TxSigning} `{Lru L} `{!LruLaws L} `{ChainWorld X T} `{!ChainWorldLaws X T} {U : Block -> Prop} {genesis : Block} `{!Universe U genesis}.
Variable pivot : option Z.
#[local] Abbreviation BC := (BlockChain L X).
Implicit Types (s : BC) (b c : Block).

(** C10: Rewinding a settled chain to a number below its head: exactly the blocks up
    to that number stay, the current header is the one of the head's branch with
    that number, the head is a block of this branch at or below it, and the chain
    is in order; when the state of that block is there, it is the head and the
    chain is settled.  The lookups of transactions are left as they were, those
    of deleted blocks too. *)
Theorem rewind_exact s n : settledChain (U := U) (genesis := genesis) s -> genesisBlock s = genesis -> closed s = false ->
  0 <= n < numberOf (currentBlock s) -> match pivot with Some p => p <= n | None => True end ->
  exists s' c, SetHead pivot n s = (Ok tt, s') /\ ordered (U := U) (genesis := genesis) s' /\
    ancestor (db s) (currentBlock s) c /\ numberOf c = n /\ currentHeader (hc s') = bHeader c /\ ancestor (db s') c (currentBlock s') /\
    (forall b, stored (db s') b <-> stored (db s) b /\ numberOf b <= n) /\
    (forall k, ReadCanonicalHash (db s') k = if decide (n < k) then 0 else ReadCanonicalHash (db s) k) /\
    txLookups (db s') = txLookups (db s) /\
    (alwaysOpens (world s) c -> settledChain (U := U) (genesis := genesis) s' /\ currentBlock s' = c).
Proof.
  intros [Hf Hch] Hg Hcl Hn Hp. pose proof (f_core _ _ _ Hf) as Hk.
  destruct (path_to U genesis _ (k_store _ _ _ Hk) _ (k_head _ _ _ Hk) n ltac:(cbn [v_head view]; lia)) as (c & l & Hl & Hc & <-). assert (Ha : ancestor (db s) (currentBlock s) c) by (by exists l).
  assert (Hwo : opened (world s) (world s)) by (by exists []).
  destruct (always_run _ _ _ s (always_SetHead U genesis pivot (world s) (view s) Hf Hg Hcl Hwo c Ha (proj2 Hn) Hp) (conj eq_refl Hch)) as ([] & s' & E & b & w & lv & [Hv Hc'] & Hb & Ho & Hlv).
  exists s', c. split; [exact E|]. pose proof (deleted_core U genesis (view s) Hf c b w Ha Hb lv Hlv) as Hcore.
  assert (Edb : db s' = v_db (view s')) by done. assert (Ehd : currentBlock s' = b) by (change (v_head (view s') = b); by rewrite Hv).
  assert (Ehc : currentHeader (hc s') = bHeader c) by (change (v_currentHeader (view s') = bHeader c); by rewrite Hv).
  rewrite Hv in Edb. cbn [v_db cutView] in Edb. rewrite Edb, Ehd, Ehc.
  destruct (deleted_reads U genesis (view s) Hf c b lv Hlv) as (_ & _ & _ & Hlk).
  split; [by apply (at_core _ s' Hcore)|]. split; [exact Ha|]. split; [done|]. split; [done|].
  split; [apply (deleted_ancestor U genesis (view s) Hf c b lv Hlv); [exact Hc|lia|exact Hb]|].
  split; [apply (deleted_stored U genesis (view s) Hf c b lv Hlv)|]. split; [apply (deleted_mk U genesis (view s) Hf c b lv Hlv)|]. split; [exact Hlk|].
  intros Hopen. specialize (Ho Hopen). split; [|exact Ho]. by apply (at_full _ s' (deleted_full U genesis (view s) Hf c b w Ha Hb lv Hlv Ho)).
Qed.

(** C15: A node that opens the database of a settled chain, the state of whose
    head can be opened, finds its heads again and writes nothing, whatever it
    held in memory but for caches that contradict the database.  (Without the
    state it goes back to a block that has one, and writes.) *)
Theorem reopen_finds s s0 diskRoot : settledChain (U := U) (genesis := genesis) s -> db s0 = db s -> caches_ok (db s0) s0 ->
  alwaysOpens (world s0) (currentBlock s) ->
  exists s', reopen pivot diskRoot s0 = (Ok tt, s') /\ db s' = db s /\ currentBlock s' = currentBlock s /\ currentFastBlock s' = currentFastBlock s /\
    currentHeader (hc s') = currentHeader (hc s) /\ currentHeaderHash (hc s') = currentHeaderHash (hc s) /\ caches_ok (db s') s'.
Proof.
  intros [Hf _] Edb Hch Ho. pose proof (f_core _ _ _ Hf) as Hk. destruct (f_disk _ _ _ Hf) as (Db & Dh & Df). set (b := currentBlock s) in *.
  pose proof (k_store _ _ _ Hk) as Hd. pose proof (k_head _ _ _ Hk) as Hb. cbn [v_db v_head view] in *. rewrite <- Edb in Hd, Hb, Db, Dh, Df.
  destruct (always_run _ _ _ s0 (always_loadLastState U genesis (view s0) b b b Hd Hb Hb Hb Db Dh Df (Reset pivot)) (conj eq_refl Hch)) as ([] & s1 & E1 & Hs1).
  assert (Hwo : opened (world s0) (world s0)) by (by exists []).
  assert (Hseen : seen (world s0) (lowerView (view s0) (db s0) b b b (world s0)) s1) by (exists (world s0); by split).
  destruct (always_run _ _ _ s1 (always_opens (world s0) (lowerView (view s0) (db s0) b b b (world s0)) b) Hseen) as (r & s2 & E2 & (w & _ & Hv2 & Hc2) & Hr).
  assert (Hcur : currentBlock s1 = b) by (destruct Hs1 as [Hv1 _]; change (v_head (view s1) = b); by rewrite Hv1).
  exists s2. split.
  { unfold reopen, mbind, st_bind, st_get. rewrite E1. cbv beta iota. rewrite Hcur, E2, (Hr Ho). done. }
  pose proof (f_header _ _ _ Hf) as Fh. pose proof (f_hash _ _ _ Hf) as Fx. pose proof (f_fast _ _ _ Hf) as Ff. cbn in Fh, Fx, Ff.
  assert (Edb2 : db s2 = db s) by (change (v_db (view s2) = db s); by rewrite Hv2). rewrite Edb2, Ff, Fh, Fx.
  split; [done|]. split; [change (v_head (view s2) = b); by rewrite Hv2|]. split; [change (v_fast (view s2) = b); by rewrite Hv2|].
  split; [change (v_currentHeader (view s2) = bHeader b); by rewrite Hv2|]. split; [change (v_currentHash (view s2) = hashOf b); by rewrite Hv2|].
  cbn [v_db withWorld lowerView] in Hc2. by rewrite <- Edb.
Qed.
End Promises.

(** ** On the small chain *)
#[local] Existing Instances mixHash nonceHash mapLru mapLru_laws rootsWorld rootsWorld_laws smallUniverse.
#[local] Abbreviation smallU := (fun b => b ∈ smallBlocks).

Lemma small_opens (w : list Hash) b : Root (bHeader b) ∈ w -> alwaysOpens w b.
Proof.
  intros Hb w' [l ->]. assert (Hw : forall l (x : list Hash), foldl (fun x root => snd (stateNew root x)) x l = x).
  { clear. induction l as [|h l IH]; intros x; [done|]. cbn [foldl]. rewrite <- (IH x) at 2. f_equal. simpl. unfold mbind, st_bind, st_get. by case_bool_decide. }
  rewrite Hw. exists tt, w. simpl. unfold mbind, st_bind, st_get. by rewrite bool_decide_true.
Qed.
Lemma forked_ancestor1 : ancestor (db smallForked) (currentBlock smallForked) smallA1.
Proof.
  destruct forked_blocks as (-> & _ & Ha & _). exists [smallA2]. econstructor; [apply (forked_parent _ smallA1 Ha); vm_compute; reflexivity|constructor].
Qed.

(** [a2] is deleted, [b1] stays, and the lookup of the transaction of [a2] too. *)
Lemma rewind_exact_witness : exists s', SetHead None 1 smallForked = (Ok tt, s') /\ settledChain (U := smallU) (genesis := small0) s' /\ currentBlock s' = smallA1 /\
  ~ stored (db s') smallA2 /\ stored (db s') smallB1 /\ txLookups (db s') !! 32 = Some 2.
Proof.
  assert (Hn : 0 <= 1 < numberOf (currentBlock smallForked)) by (vm_compute; split; [discriminate|reflexivity]).
  assert (Hg : genesisBlock smallForked = small0) by (vm_compute; reflexivity).
  assert (Hcl : closed smallForked = false) by (vm_compute; reflexivity).
  assert (Hlk : txLookups (db smallForked) !! 32 = Some 2) by (vm_compute; reflexivity).
  assert (Hop : alwaysOpens (world smallForked) smallA1) by (apply small_opens; vm_compute; set_solver).
  destruct forked_blocks as (Hcur & HB & HA & _).
  pose proof (rewind_exact None smallForked 1 forked_settled Hg Hcl Hn I) as Hw.
  destruct Hw as (s' & c & E & _ & Ha & Hc & _ & _ & Hst & _ & Hl & Ho).
  assert (Ec : c = smallA1).
  { apply (ancestor_same smallU small0 (db smallForked) (k_store _ _ _ (f_core _ _ _ (proj1 forked_settled))) (currentBlock smallForked)); [exact Ha|exact forked_ancestor1|exact Hc]. }
  rewrite Ec in Ho. destruct (Ho Hop) as [Hs Hh]. exists s'. split; [exact E|]. split; [exact Hs|]. split; [exact Hh|].
  split; [intros [_ H2]%Hst; vm_compute in H2; congruence|]. split; [apply Hst; split; [exact HB|vm_compute; discriminate]|]. rewrite Hl. exact Hlk.
Defined.

(** A node that has just started, over the database of the forked chain. *)
Definition startOver (d : ChainDB) (w : list Hash) : BlockChain (gmap Hash) (list Hash) :=
  mkBlockChain (mkHeaderChain d (bHeader small0) (bHeader small0) (hashOf small0) ∅ ∅ ∅ [] None) small0 small0 small0 ∅ ∅ w [] false.
Lemma nothing_cached {A} (h : Hash) (x : A) : (∅ : gmap Hash A) !! h <> Some x.
Proof. by rewrite lookup_empty. Qed.
Lemma startOver_ok d w : db (startOver d w) = d /\ world (startOver d w) = w /\ caches_ok (db (startOver d w)) (startOver d w).
Proof. split; [done|]. split; [done|]. constructor; intros h x Hm; destruct (nothing_cached h x Hm). Qed.
Lemma reopen_finds_witness : exists s', reopen None 0 (startOver (db smallForked) (world smallForked)) = (Ok tt, s') /\ currentBlock s' = smallA2.
Proof.
  destruct (startOver_ok (db smallForked) (world smallForked)) as (Edb & Ew & Hch).
  assert (Hop : alwaysOpens (world smallForked) (currentBlock smallForked)) by (apply small_opens; vm_compute; set_solver).
  destruct forked_blocks as (Hcur & _). remember (startOver (db smallForked) (world smallForked)) as s0 eqn:E0. rewrite <- Ew in Hop.
  pose proof (reopen_finds None smallForked s0 0 forked_settled Edb Hch Hop) as Hw. destruct Hw as (s' & E & _ & Hh & _).
  exists s'. split; [exact E|]. rewrite Hh. exact Hcur.
Defined.
