(* ===== verification/VMCode.v ===== *)
(** * Code of the virtual machine (core/vm/opcodes.go, analysis.go)

    The numbers of the instructions, and the analysis that tells for each byte of
    a code whether it is an instruction or data of a push.  The code writes the
    answer into a bitmap, whole bytes at a time; the reference is the walk from
    instruction to instruction. *)

From S2P Require Import Prelude.

(** ** Instructions *)
Module Op.
Definition STOP : Z := 0x0.
Definition ADD : Z := 0x1.
Definition MUL : Z := 0x2.
Definition SUB : Z := 0x3.
Definition DIV : Z := 0x4.
Definition SDIV : Z := 0x5.
Definition MOD : Z := 0x6.
Definition SMOD : Z := 0x7.
Definition ADDMOD : Z := 0x8.
Definition MULMOD : Z := 0x9.
Definition EXP : Z := 0xa.
Definition SIGNEXTEND : Z := 0xb.
Definition LT : Z := 0x10.
Definition GT : Z := 0x11.
Definition SLT : Z := 0x12.
Definition SGT : Z := 0x13.
Definition EQ : Z := 0x14.
Definition ISZERO : Z := 0x15.
Definition AND : Z := 0x16.
Definition OR : Z := 0x17.
Definition XOR : Z := 0x18.
Definition NOT : Z := 0x19.
Definition BYTE : Z := 0x1a.
Definition SHL : Z := 0x1b.
Definition SHR : Z := 0x1c.
Definition SAR : Z := 0x1d.
Definition SHA3 : Z := 0x20.
Definition ADDRESS : Z := 0x30.
Definition BALANCE : Z := 0x31.
Definition ORIGIN : Z := 0x32.
Definition CALLER : Z := 0x33.
Definition CALLVALUE : Z := 0x34.
Definition CALLDATALOAD : Z := 0x35.
Definition CALLDATASIZE : Z := 0x36.
Definition CALLDATACOPY : Z := 0x37.
Definition CODESIZE : Z := 0x38.
Definition CODECOPY : Z := 0x39.
Definition GASPRICE : Z := 0x3a.
Definition EXTCODESIZE : Z := 0x3b.
Definition EXTCODECOPY : Z := 0x3c.
Definition RETURNDATASIZE : Z := 0x3d.
Definition RETURNDATACOPY : Z := 0x3e.
Definition EXTCODEHASH : Z := 0x3f.
Definition BLOCKHASH : Z := 0x40.
Definition COINBASE : Z := 0x41.
Definition TIMESTAMP : Z := 0x42.
Definition NUMBER : Z := 0x43.
Definition DIFFICULTY : Z := 0x44.
Definition GASLIMIT : Z := 0x45.
Definition CHAINID : Z := 0x46.
Definition SELFBALANCE : Z := 0x47.
Definition BASEFEE : Z := 0x48.
Definition POP : Z := 0x50.
Definition MLOAD : Z := 0x51.
Definition MSTORE : Z := 0x52.
Definition MSTORE8 : Z := 0x53.
Definition SLOAD : Z := 0x54.
Definition SSTORE : Z := 0x55.
Definition JUMP : Z := 0x56.
Definition JUMPI : Z := 0x57.
Definition PC : Z := 0x58.
Definition MSIZE : Z := 0x59.
Definition GAS : Z := 0x5a.
Definition JUMPDEST : Z := 0x5b.
(** [PUSH1] to [PUSH32], [DUP1] to [DUP16], [SWAP1] to [SWAP16], [LOG0] to [LOG4] follow each other. *)
Definition PUSH1 : Z := 0x60.
Definition PUSH32 : Z := 0x7f.
Definition DUP1 : Z := 0x80.
Definition SWAP1 : Z := 0x90.
Definition LOG0 : Z := 0xa0.
Definition CREATE : Z := 0xf0.
Definition CALL : Z := 0xf1.
Definition CALLCODE : Z := 0xf2.
Definition RETURN : Z := 0xf3.
Definition DELEGATECALL : Z := 0xf4.
Definition CREATE2 : Z := 0xf5.
Definition STATICCALL : Z := 0xfa.
Definition REVERT : Z := 0xfd.
Definition SELFDESTRUCT : Z := 0xff.
End Op.

(** ** The bitmap *)

Abbreviation bitvec := (list Z).

(** [bits[i] |= b] and [bits[i] = b], out of range a panic. *)
Definition orByte (i b : Z) (bits : bitvec) : res bitvec :=
  match bits !! Z.to_nat i with Some x => Ok (<[Z.to_nat i := Z.lor x b]> bits) | None => Panic end.
Definition setByte (i b : Z) (bits : bitvec) : res bitvec :=
  match bits !! Z.to_nat i with Some _ => Ok (<[Z.to_nat i := b]> bits) | None => Panic end.

Definition set2BitsMask : Z := 0xC000.
Definition set3BitsMask : Z := 0xE000.
Definition set4BitsMask : Z := 0xF000.
Definition set5BitsMask : Z := 0xF800.
Definition set6BitsMask : Z := 0xFC00.
Definition set7BitsMask : Z := 0xFE00.

Definition lookupBits : list Z := [0x80; 0x40; 0x20; 0x10; 0x8; 0x4; 0x2; 0x1].

Definition set1 (pos : Z) (bits : bitvec) : res bitvec := orByte (pos / 8) (nth (Z.to_nat (pos mod 8)) lookupBits 0) bits.

Definition setN (flag pos : Z) (bits : bitvec) : res bitvec :=
  let a := Z.shiftr flag (pos mod 8) in
  bits ← orByte (pos / 8) (Z.shiftr a 8 mod 256) bits;
  let b := a mod 256 in
  if negb (b =? 0) then setByte (pos / 8 + 1) b bits else Ok bits.

Definition set8 (pos : Z) (bits : bitvec) : res bitvec :=
  let a := Z.shiftr 0xff (pos mod 8) in
  bits ← orByte (pos / 8) a bits;
  setByte (pos / 8 + 1) (255 - a) bits.

Definition set16 (pos : Z) (bits : bitvec) : res bitvec :=
  let a := Z.shiftr 0xff (pos mod 8) in
  bits ← orByte (pos / 8) a bits;
  bits ← setByte (pos / 8 + 1) 0xff bits;
  setByte (pos / 8 + 2) (255 - a) bits.

(** A position out of range of the bitmap is a panic. *)
Definition codeSegment (bits : bitvec) (pos : Z) : res bool :=
  match bits !! Z.to_nat (pos / 8) with
  | Some b => Ok (Z.land b (Z.shiftr 0x80 (pos mod 8)) =? 0)
  | None => Panic
  end.

(** The data of a push: sixteen bytes at a time, then eight, then the rest. *)
Definition setRest (numbits pos : Z) (bits : bitvec) : res bitvec :=
  if numbits =? 1 then set1 pos bits
  else if numbits =? 2 then setN set2BitsMask pos bits
  else if numbits =? 3 then setN set3BitsMask pos bits
  else if numbits =? 4 then setN set4BitsMask pos bits
  else if numbits =? 5 then setN set5BitsMask pos bits
  else if numbits =? 6 then setN set6BitsMask pos bits
  else if numbits =? 7 then setN set7BitsMask pos bits
  else Ok bits.
Fixpoint setPush (fuel : nat) (numbits pos : Z) (bits : bitvec) : res bitvec :=
  match fuel with
  | O => Err ErrOutOfFuel
  | S fuel =>
      if 16 <=? numbits then bits ← set16 pos bits; setPush fuel (numbits - 16) (pos + 16) bits
      else if 8 <=? numbits then bits ← set8 pos bits; setPush fuel (numbits - 8) (pos + 8) bits
      else setRest numbits pos bits
  end.

Definition isPush (op : Z) : bool := (Op.PUSH1 <=? op) && (op <=? Op.PUSH32).

(** The loop of [codeBitmapInternal]; no more rounds than bytes. *)
Fixpoint codeBitmapLoop (fuel : nat) (code : list byte) (pc : Z) (bits : bitvec) : res bitvec :=
  match code !! Z.to_nat pc with
  | None => Ok bits
  | Some b =>
      match fuel with
      | O => Err ErrOutOfFuel
      | S fuel =>
          let op := byteZ b in
          let pc := pc + 1 in
          if negb (isPush op) then codeBitmapLoop fuel code pc bits else
          let numbits := op - Op.PUSH1 + 1 in
          bits ← setPush 5 numbits pc bits;
          codeBitmapLoop fuel code (pc + numbits) bits
      end
  end.
Definition codeBitmapInternal (code : list byte) (bits : bitvec) : res bitvec := codeBitmapLoop (length code) code 0 bits.

(** Four bytes more than needed: the data of a push at the end may lie behind it. *)
Definition codeBitmap (code : list byte) : res bitvec :=
  codeBitmapInternal code (replicate (Z.to_nat (zlen code / 8 + 1 + 4)) 0).

(** ** The reference *)

(** The bytes behind an instruction that belong to it. *)
Definition pushSize (op : Z) : Z := if isPush op then op - Op.PUSH1 + 1 else 0.

(** [pos] is reached by walking from instruction to instruction. *)
Inductive instruction (code : list byte) : Z -> Prop :=
  | instruction_first : instruction code 0
  | instruction_next pos b : instruction code pos -> code !! Z.to_nat pos = Some b ->
      instruction code (pos + 1 + pushSize (byteZ b)).

(** ** The bitmap marks the data of pushes *)

Definition marked (bits : bitvec) (i : Z) : bool := Z.testbit (nth (Z.to_nat (i / 8)) bits 0) (7 - i mod 8).

(** [n] more bits are set from [pos] on. *)
Definition marks (pos n : Z) (bits bits' : bitvec) : Prop :=
  length bits' = length bits /\ forall i, 0 <= i -> marked bits' i = marked bits i || ((pos <=? i) && (i <? pos + n)).
Definition clean (bits : bitvec) (pos : Z) : Prop := forall i, pos <= i -> marked bits i = false.

Lemma marks_clean pos n bits bits' : 0 <= pos -> 0 <= n -> marks pos n bits bits' -> clean bits pos -> clean bits' (pos + n).
Proof. intros Hp Hn [_ Hm] Hc i Hi. rewrite Hm, Hc by lia. simpl. apply andb_false_iff. lia. Qed.
Lemma marks_trans pos n m bits bits1 bits2 : 0 <= n -> 0 <= m -> marks pos n bits bits1 -> marks (pos + n) m bits1 bits2 -> marks pos (n + m) bits bits2.
Proof.
  intros Hn Hm [Hl1 H1] [Hl2 H2]. split; [congruence|]. intros i Hi. rewrite H2, H1 by done. rewrite <- orb_assoc. f_equal.
  destruct (Z.leb_spec pos i), (Z.ltb_spec i (pos + n)), (Z.leb_spec (pos + n) i), (Z.ltb_spec i (pos + n + m)), (Z.ltb_spec i (pos + (n + m))); simpl; lia.
Qed.

(** The masks of one write: the [t]-th byte has the bits from [r] to [r + n]. *)
Definition maskOk (r n : Z) (ms : list Z) : bool :=
  (r + n <=? 8 * zlen ms) && forallb (fun t => forallb (fun j => Bool.eqb (Z.testbit (nth t ms 0) (7 - j)) ((r <=? 8 * Z.of_nat t + j) && (8 * Z.of_nat t + j <? r + n)))
    [0; 1; 2; 3; 4; 5; 6; 7]) (seq 0 (length ms)).

Lemma maskOk_bit r n ms t j : maskOk r n ms = true -> (t < length ms)%nat -> 0 <= j < 8 ->
  Z.testbit (nth t ms 0) (7 - j) = (r <=? 8 * Z.of_nat t + j) && (8 * Z.of_nat t + j <? r + n).
Proof.
  intros [_ Hm]%andb_true_iff Ht Hj. rewrite forallb_forall in Hm. specialize (Hm t ltac:(apply in_seq; lia)).
  rewrite forallb_forall in Hm. apply eqb_prop, Hm. simpl. lia.
Qed.

(** A write through the masks: the first is ored, the others are first writes. *)
Definition written (q : nat) (ms : list Z) (bits bits' : bitvec) : Prop :=
  length bits' = length bits /\ forall k, nth k bits' 0 =
    if (k <? q)%nat then nth k bits 0 else if (k =? q)%nat then Z.lor (nth k bits 0) (nth 0 ms 0)
    else if (k <? q + length ms)%nat then nth (k - q) ms 0 else nth k bits 0.

Lemma written_marks pos n ms bits bits' : 0 <= pos -> 0 <= n -> ms <> [] -> maskOk (pos mod 8) n ms = true -> clean bits pos ->
  written (Z.to_nat (pos / 8)) ms bits bits' -> marks pos n bits bits'.
Proof.
  intros Hp Hn Hne Hm Hc [Hl Hk]. split; [done|]. intros i Hi. unfold marked. rewrite Hk.
  pose proof (Z.mod_pos_bound i 8 ltac:(lia)) as Hj. pose proof (Z.div_mod i 8 ltac:(lia)). pose proof (Z.div_mod pos 8 ltac:(lia)).
  pose proof (Z.mod_pos_bound pos 8 ltac:(lia)). pose proof (Z.div_pos i 8 ltac:(lia) ltac:(lia)). pose proof (Z.div_pos pos 8 ltac:(lia) ltac:(lia)).
  assert (Hlen : (0 < length ms)%nat) by (destruct ms; [done|simpl; lia]).
  assert (Hfit : pos mod 8 + n <= 8 * Z.of_nat (length ms)) by (apply andb_true_iff in Hm as [Hm _]; unfold zlen in Hm; lia).
  destruct (Nat.ltb_spec (Z.to_nat (i / 8)) (Z.to_nat (pos / 8))).
  { replace (pos <=? i) with false by lia. by rewrite orb_false_r. }
  destruct (Nat.eqb_spec (Z.to_nat (i / 8)) (Z.to_nat (pos / 8))) as [E|E].
  { rewrite Z.lor_spec. f_equal. rewrite (maskOk_bit _ _ _ 0 _ Hm) by lia. assert (i / 8 = pos / 8) by lia. apply eq_true_iff_eq. rewrite !andb_true_iff, !Z.leb_le, !Z.ltb_lt. lia. }
  assert (Hci : marked bits i = false) by (apply Hc; lia). unfold marked in Hci. rewrite Hci. simpl.
  destruct (Nat.ltb_spec (Z.to_nat (i / 8)) (Z.to_nat (pos / 8) + length ms)%nat).
  - rewrite (maskOk_bit _ _ _ _ _ Hm) by lia. apply eq_true_iff_eq. rewrite !andb_true_iff, !Z.leb_le, !Z.ltb_lt. lia.
  - rewrite Hci. symmetry. apply andb_false_iff. right. lia.
Qed.

Lemma nth_set (bits : bitvec) q b k : (q < length bits)%nat -> nth k (<[q := b]> bits) 0 = if (k =? q)%nat then b else nth k bits 0.
Proof.
  intros Hq. rewrite !nth_lookup, list_lookup_insert. destruct (Nat.eqb_spec k q) as [->|Hne]; [by rewrite decide_True|].
  by rewrite decide_False by (intros [? _]; congruence).
Qed.
Lemma orByte_ok i b bits : (Z.to_nat i < length bits)%nat -> orByte i b bits = Ok (<[Z.to_nat i := Z.lor (nth (Z.to_nat i) bits 0) b]> bits).
Proof. intros Hi. unfold orByte. destruct (lookup_lt_is_Some_2 bits _ Hi) as [x Hx]. rewrite Hx. by rewrite nth_lookup, Hx. Qed.
Lemma setByte_ok i b bits : (Z.to_nat i < length bits)%nat -> setByte i b bits = Ok (<[Z.to_nat i := b]> bits).
Proof. intros Hi. unfold setByte. destruct (lookup_lt_is_Some_2 bits _ Hi) as [x Hx]. by rewrite Hx. Qed.

(** The masks of the writes are right for every offset in the byte. *)
Lemma offsets (P : Z -> bool) : forallb P [0; 1; 2; 3; 4; 5; 6; 7] = true -> forall r, 0 <= r < 8 -> P r = true.
Proof. intros Hf r Hr. rewrite forallb_forall in Hf. apply Hf. simpl. lia. Qed.

Ltac written_tac Hq := split; [by rewrite ?length_insert|]; intros k;
  repeat first [rewrite nth_set by (rewrite ?length_insert; lia)]; simpl;
  repeat match goal with |- context [(?a =? ?b)%nat] => destruct (Nat.eqb_spec a b) | |- context [(?a <? ?b)%nat] => destruct (Nat.ltb_spec a b) end;
  try lia; subst; try done.

Lemma set1_marks pos bits : 0 <= pos -> pos / 8 < zlen bits -> clean bits pos -> exists bits', set1 pos bits = Ok bits' /\ marks pos 1 bits bits'.
Proof.
  unfold zlen. intros Hp Hq Hc. unfold set1. rewrite orByte_ok by lia. eexists. split; [done|].
  eapply (written_marks pos 1 [nth (Z.to_nat (pos mod 8)) lookupBits 0]); try done; try lia.
  - apply (offsets (fun r => maskOk r 1 [nth (Z.to_nat r) lookupBits 0])); [by vm_compute|apply Z.mod_pos_bound; lia].
  - written_tac Hq.
Qed.

Lemma set8_marks pos bits : 0 <= pos -> pos / 8 + 1 < zlen bits -> clean bits pos -> exists bits', set8 pos bits = Ok bits' /\ marks pos 8 bits bits'.
Proof.
  unfold zlen. intros Hp Hq Hc. unfold set8. pose proof (Z.div_pos pos 8 Hp ltac:(lia)). rewrite orByte_ok by lia. cbn [mbind res_bind].
  rewrite setByte_ok by (rewrite length_insert; lia). eexists. split; [done|].
  eapply (written_marks pos 8 [Z.shiftr 255 (pos mod 8); 255 - Z.shiftr 255 (pos mod 8)]); try done; try lia.
  - apply (offsets (fun r => maskOk r 8 [Z.shiftr 255 r; 255 - Z.shiftr 255 r])); [by vm_compute|apply Z.mod_pos_bound; lia].
  - replace (Z.to_nat (pos / 8 + 1)) with (S (Z.to_nat (pos / 8))) by lia. written_tac Hq.
    replace (S (Z.to_nat (pos / 8)) - Z.to_nat (pos / 8))%nat with 1%nat by lia. done.
Qed.

Lemma set16_marks pos bits : 0 <= pos -> pos / 8 + 2 < zlen bits -> clean bits pos -> exists bits', set16 pos bits = Ok bits' /\ marks pos 16 bits bits'.
Proof.
  unfold zlen. intros Hp Hq Hc. unfold set16. pose proof (Z.div_pos pos 8 Hp ltac:(lia)). rewrite orByte_ok by lia. cbn [mbind res_bind].
  rewrite setByte_ok by (rewrite length_insert; lia). cbn [mbind res_bind]. rewrite setByte_ok by (rewrite !length_insert; lia).
  eexists. split; [done|]. eapply (written_marks pos 16 [Z.shiftr 255 (pos mod 8); 255; 255 - Z.shiftr 255 (pos mod 8)]); try done; try lia.
  - apply (offsets (fun r => maskOk r 16 [Z.shiftr 255 r; 255; 255 - Z.shiftr 255 r])); [by vm_compute|apply Z.mod_pos_bound; lia].
  - replace (Z.to_nat (pos / 8 + 1)) with (S (Z.to_nat (pos / 8))) by lia. replace (Z.to_nat (pos / 8 + 2)) with (S (S (Z.to_nat (pos / 8)))) by lia.
    written_tac Hq.
    + by replace (S (S (Z.to_nat (pos / 8))) - Z.to_nat (pos / 8))%nat with 2%nat by lia.
    + by replace (S (Z.to_nat (pos / 8)) - Z.to_nat (pos / 8))%nat with 1%nat by lia.
Qed.

Definition maskN (flag r : Z) : list Z :=
  let a := Z.shiftr flag r in if a mod 256 =? 0 then [Z.shiftr a 8 mod 256] else [Z.shiftr a 8 mod 256; a mod 256].
Lemma setN_marks flag n pos bits : forallb (fun r => maskOk r n (maskN flag r)) [0; 1; 2; 3; 4; 5; 6; 7] = true -> 0 <= n ->
  0 <= pos -> pos / 8 + 1 < zlen bits -> clean bits pos -> exists bits', setN flag pos bits = Ok bits' /\ marks pos n bits bits'.
Proof.
  unfold zlen. intros Hf Hn Hp Hq Hc. unfold setN. pose proof (Z.div_pos pos 8 Hp ltac:(lia)). pose proof (Z.mod_pos_bound pos 8 ltac:(lia)) as Hr.
  pose proof (offsets _ Hf _ Hr) as Hm. cbv beta in Hm. unfold maskN in Hm.
  rewrite orByte_ok by lia. cbn [mbind res_bind]. destruct (Z.shiftr flag (pos mod 8) mod 256 =? 0) eqn:E; cbn [negb].
  - eexists. split; [done|]. eapply (written_marks pos n); [done|done| |exact Hm|done|]; [done|]. written_tac Hq.
  - rewrite setByte_ok by (rewrite length_insert; lia). eexists. split; [done|].
    eapply (written_marks pos n); [done|done| |exact Hm|done|]; [done|].
    replace (Z.to_nat (pos / 8 + 1)) with (S (Z.to_nat (pos / 8))) by lia. written_tac Hq.
    by replace (S (Z.to_nat (pos / 8)) - Z.to_nat (pos / 8))%nat with 1%nat by lia.
Qed.

Lemma setRest_marks n pos bits : 0 <= n < 8 -> 0 <= pos -> n = 0 \/ pos / 8 + 1 < zlen bits -> clean bits pos ->
  exists bits', setRest n pos bits = Ok bits' /\ marks pos n bits bits'.
Proof.
  intros Hn Hp Hq Hc. unfold setRest.
  destruct (Z.eqb_spec n 1) as [->|]; [apply set1_marks; try done; lia|].
  destruct (Z.eqb_spec n 2) as [->|]; [apply setN_marks; [by vm_compute|lia|done|lia|done]|].
  destruct (Z.eqb_spec n 3) as [->|]; [apply setN_marks; [by vm_compute|lia|done|lia|done]|].
  destruct (Z.eqb_spec n 4) as [->|]; [apply setN_marks; [by vm_compute|lia|done|lia|done]|].
  destruct (Z.eqb_spec n 5) as [->|]; [apply setN_marks; [by vm_compute|lia|done|lia|done]|].
  destruct (Z.eqb_spec n 6) as [->|]; [apply setN_marks; [by vm_compute|lia|done|lia|done]|].
  destruct (Z.eqb_spec n 7) as [->|]; [apply setN_marks; [by vm_compute|lia|done|lia|done]|].
  assert (n = 0) as -> by lia. eexists. split; [done|]. split; [done|]. intros i Hi.
  replace ((pos <=? i) && (i <? pos + 0)) with false; [by rewrite orb_false_r|]. symmetry. apply andb_false_iff. lia.
Qed.

Lemma setPush_marks fuel : forall n pos bits, 0 <= n -> n < 8 * Z.of_nat fuel -> 0 <= pos -> pos / 8 + (n - 1) / 8 + 1 < zlen bits -> clean bits pos ->
  exists bits', setPush fuel n pos bits = Ok bits' /\ marks pos n bits bits'.
Proof.
  induction fuel as [|fuel IH]; intros n pos bits Hn Hf Hp Hq Hc; [lia|]. cbn [setPush]. unfold zlen in Hq.
  destruct (Z.leb_spec 16 n); [|destruct (Z.leb_spec 8 n); [|apply setRest_marks; unfold zlen; try done; lia]].
  - destruct (set16_marks pos bits) as (b1 & -> & H1); [done|unfold zlen; lia|done|]. cbn [mbind res_bind].
    destruct (IH (n - 16) (pos + 16) b1) as (b2 & -> & H2); [lia|lia|lia|unfold zlen; rewrite (proj1 H1); lia| |].
    { apply (marks_clean pos 16 bits); [done|lia|done|done]. }
    exists b2. split; [done|]. replace n with (16 + (n - 16)) by lia. by apply (marks_trans pos 16 (n - 16) bits b1); [lia|lia| |].
  - destruct (set8_marks pos bits) as (b1 & -> & H1); [done|unfold zlen; lia|done|]. cbn [mbind res_bind].
    destruct (IH (n - 8) (pos + 8) b1) as (b2 & -> & H2); [lia|lia|lia|unfold zlen; rewrite (proj1 H1); lia| |].
    { apply (marks_clean pos 8 bits); [done|lia|done|done]. }
    exists b2. split; [done|]. replace n with (8 + (n - 8)) by lia. by apply (marks_trans pos 8 (n - 8) bits b1); [lia|lia| |].
Qed.

(** ** The analysis agrees with the walk *)

Lemma pushSize_range b : 0 <= pushSize (byteZ b) <= 32.
Proof. unfold pushSize, isPush, Op.PUSH1, Op.PUSH32. destruct (Z.leb_spec 96 (byteZ b)), (Z.leb_spec (byteZ b) 127); simpl; lia. Qed.
Lemma instruction_nonneg code i : instruction code i -> 0 <= i.
Proof. induction 1 as [|pos b _ IH _]; [lia|]. pose proof (pushSize_range b). lia. Qed.

(** Nothing between an instruction and the next one is an instruction. *)
Lemma instruction_gap code : forall n a b x, (Z.to_nat (a + x) <= n)%nat -> instruction code a -> instruction code x ->
  code !! Z.to_nat a = Some b -> a < x -> a + 1 + pushSize (byteZ b) <= x.
Proof.
  induction n as [|n IH]; intros a b x Hn Ha Hx Hb Hax.
  - apply instruction_nonneg in Ha, Hx. lia.
  - destruct Hx as [|x0 b0 Hx0 Hb0]; [apply instruction_nonneg in Ha; lia|]. pose proof (pushSize_range b0). pose proof (pushSize_range b).
    pose proof (instruction_nonneg _ _ Ha). pose proof (instruction_nonneg _ _ Hx0).
    destruct (Z.lt_trichotomy a x0) as [Hlt|[->|Hgt]].
    + assert (a + 1 + pushSize (byteZ b) <= x0); [|lia]. by apply (IH a b x0); [lia| | | |].
    + rewrite Hb in Hb0. injection Hb0 as ->. lia.
    + assert (x0 + 1 + pushSize (byteZ b0) <= a); [|lia]. by apply (IH x0 b0 a); [lia| | | |].
Qed.

Definition analysed (code : list byte) (pc : Z) (bits : bitvec) : Prop :=
  length bits = Z.to_nat (zlen code / 8 + 5) /\ clean bits pc /\ forall i, 0 <= i < pc -> (marked bits i = false <-> instruction code i).

Lemma codeBitmapLoop_ok code : forall fuel pc bits, (length code <= fuel + Z.to_nat pc)%nat -> instruction code pc -> analysed code pc bits ->
  exists bits' pc', codeBitmapLoop fuel code pc bits = Ok bits' /\ zlen code <= pc' /\ analysed code pc' bits'.
Proof.
  induction fuel as [|fuel IH]; intros pc bits Hf Hpc Ha; pose proof (instruction_nonneg _ _ Hpc) as Hp; cbn [codeBitmapLoop].
  - rewrite lookup_ge_None_2 by lia. exists bits, pc. unfold zlen. split; [done|]. split; [lia|done].
  - destruct (code !! Z.to_nat pc) as [b|] eqn:Eb; [|apply lookup_ge_None in Eb; exists bits, pc; unfold zlen; split; [done|split; [lia|done]]].
    pose proof (lookup_lt_Some _ _ _ Eb) as Hlt. destruct Ha as (Hl & Hc & Hm). pose proof (pushSize_range b) as Hs.
    pose proof (instruction_next code pc b Hpc Eb) as Hnext.
    assert (Hstep : forall bits1, marks (pc + 1) (pushSize (byteZ b)) bits bits1 -> analysed code (pc + 1 + pushSize (byteZ b)) bits1).
    { intros bits1 Hm1. split; [by rewrite (proj1 Hm1)|]. split; [apply (marks_clean (pc + 1) _ bits); try done; [lia|lia|]; intros i Hi; apply Hc; lia|].
      intros i Hi. rewrite (proj2 Hm1) by lia. destruct (Z.lt_trichotomy i pc) as [Hlt'|[->|Hgt]].
      - replace (pc + 1 <=? i) with false by lia. cbn [andb]. rewrite orb_false_r. apply Hm. lia.
      - rewrite Hc by lia. replace (pc + 1 <=? pc) with false by lia. done.
      - replace (pc + 1 <=? i) with true by lia. replace (i <? pc + 1 + pushSize (byteZ b)) with true by lia. rewrite orb_true_r. split; [done|].
        intros Hi'. pose proof (instruction_gap code (Z.to_nat (pc + i)) pc b i ltac:(lia) Hpc Hi' Eb ltac:(lia)). lia. }
    unfold pushSize in *. destruct (isPush (byteZ b)) eqn:Ep; cbn [negb].
    + destruct (setPush_marks 5 (byteZ b - Op.PUSH1 + 1) (pc + 1) bits) as (b1 & Hb1 & Hm1);
        [lia|lia|lia|unfold zlen in *; rewrite Hl; lia|intros i Hi; apply Hc; lia|].
      rewrite Hb1. cbn [mbind res_bind]. apply IH; [lia| |by apply Hstep]. exact Hnext.
    + replace (pc + 1) with (pc + 1 + 0) by lia. apply IH; [lia|exact Hnext|]. apply Hstep. split; [done|]. intros i Hi.
      replace ((pc + 1 <=? i) && (i <? pc + 1 + 0)) with false; [by rewrite orb_false_r|]. symmetry. apply andb_false_iff. lia.
Qed.

Lemma codeSegment_marked bits i : 0 <= i -> i / 8 < zlen bits -> codeSegment bits i = Ok (negb (marked bits i)).
Proof.
  unfold zlen. intros Hi Hq. unfold codeSegment, marked. pose proof (Z.div_pos i 8 Hi ltac:(lia)).
  destruct (lookup_lt_is_Some_2 bits (Z.to_nat (i / 8)) ltac:(lia)) as [x Hx]. rewrite Hx, nth_lookup, Hx. cbn [default from_option id]. f_equal.
  pose proof (Z.mod_pos_bound i 8 ltac:(lia)) as Hr. replace (Z.shiftr 128 (i mod 8)) with (2 ^ (7 - i mod 8)).
  2: { rewrite Z.shiftr_div_pow2 by lia. change 128 with (2 ^ 7). rewrite <- Z.pow_sub_r by lia. done. }
  apply eq_true_iff_eq. rewrite Z.eqb_eq, negb_true_iff. split.
  - intros H0. apply (f_equal (fun z => Z.testbit z (7 - i mod 8))) in H0. rewrite Z.land_spec, Z.pow2_bits_true, andb_true_r, Z.bits_0 in H0 by lia. done.
  - intros H0. apply Z.bits_inj'. intros n Hn. rewrite Z.land_spec, Z.bits_0. destruct (Z.eqb_spec n (7 - i mod 8)) as [->|Hne]; [by rewrite H0|].
    rewrite Z.pow2_bits_false by lia. apply andb_false_r.
Qed.

(** What the analysis finds, for the other components. *)
Lemma codeBitmap_spec code : exists bits, codeBitmap code = Ok bits /\ forall i, 0 <= i < zlen code ->
  exists answer, codeSegment bits i = Ok answer /\ (answer = true <-> instruction code i).
Proof.
  destruct (codeBitmapLoop_ok code (length code) 0 (replicate (Z.to_nat (zlen code / 8 + 1 + 4)) 0)) as (bits & pc' & E & Hp & Hl & _ & Hm); [lia|constructor| |].
  { split; [rewrite length_replicate; f_equal; lia|]. split; [|lia]. intros i Hi. unfold marked. rewrite nth_lookup.
    destruct (replicate _ 0 !! _) as [x|] eqn:Ex; [apply lookup_replicate in Ex as [-> _]|]; apply Z.bits_0. }
  exists bits. split; [exact E|]. intros i Hi. exists (negb (marked bits i)). split; [apply codeSegment_marked; [lia|unfold zlen in *; lia]|].
  rewrite negb_true_iff. apply Hm. lia.
Qed.
