(* ===== verification/VMState.v ===== *)
(** * The state of the virtual machine and its gas
    (core/vm/stack.go, memory.go, contract.go, common.go, gas.go, memory_table.go,
    gas_table.go, operations_acl.go)

    A frame of execution: program counter, stack, memory, contract; and what the
    frames of a call share: the account state, the depth, the data the last call
    returned, the analyses of code.  A [uint256.Int] is the integer it stands for;
    its arithmetic is the class [Uint256]. *)

From S2P Require Import StateDB Prelude Params Blacklist StateTransition Processor VMCode.

(** ** 256-bit words *)

Definition is_word (x : Z) : Prop := 0 <= x < 2 ^ 256.

(** The operations of [uint256.Int]; [ExtendSign] takes the number and the byte. *)
Class Uint256 : Type := {
  wAdd : Z -> Z -> Z; wSub : Z -> Z -> Z; wMul : Z -> Z -> Z; wDiv : Z -> Z -> Z; wSDiv : Z -> Z -> Z;
  wMod : Z -> Z -> Z; wSMod : Z -> Z -> Z; wExp : Z -> Z -> Z; wExtendSign : Z -> Z -> Z;
  wNot : Z -> Z; wAnd : Z -> Z -> Z; wOr : Z -> Z -> Z; wXor : Z -> Z -> Z; wByte : Z -> Z -> Z;
  wAddMod : Z -> Z -> Z -> Z; wMulMod : Z -> Z -> Z -> Z;
  wLsh : Z -> Z -> Z; wRsh : Z -> Z -> Z; wSRsh : Z -> Z -> Z;
  wSlt : Z -> Z -> bool; wSgt : Z -> Z -> bool;
}.
(** A sum wraps; nothing relies on the other operations. *)
Class Uint256Laws `{Uint256} : Prop := { wAdd_law : forall x y, is_word x -> is_word y -> wAdd x y = (x + y) mod 2 ^ 256 }.

Definition IsUint64 (x : Z) : bool := x <=? MaxUint64.
Definition Uint64 (x : Z) : Z := u64 x.
(** [Sign] reads the word as a two's complement number. *)
Definition Sign (x : Z) : Z := if x =? 0 then 0 else if x <? 2 ^ 255 then 1 else -1.
Definition Bytes20 (x : Z) : Address := x mod 2 ^ 160.
Definition FromBig (x : Z) : Z := x mod 2 ^ 256.

(** [math.SafeAdd], [math.SafeMul]: the word and whether it overflowed. *)
Definition SafeAdd (x y : Z) : Z * bool := (x +w y, MaxUint64 <? x + y).
Definition SafeMul (x y : Z) : Z * bool := (x *w y, MaxUint64 <? x * y).

(** ** common.go *)

Definition calcMemSize64WithUint (off length64 : Z) : Z * bool :=
  if length64 =? 0 then (0, false) else
  if negb (IsUint64 off) then (0, true) else
  let val := Uint64 off +w length64 in (val, val <? Uint64 off).
Definition calcMemSize64 (off l : Z) : Z * bool := if negb (IsUint64 l) then (0, true) else calcMemSize64WithUint off (Uint64 l).

Definition RightPadBytes (slice : list byte) (l : Z) : list byte := slice ++ replicate (Z.to_nat (l - zlen slice)) Byte.x00.
(** A slice whose end lies before its start is a panic. *)
Definition getData (data : list byte) (start size : Z) : res (list byte) :=
  let length := zlen data in
  let start := if length <? start then length else start in
  let fin := start +w size in
  let fin := if length <? fin then length else fin in
  if fin <? start then Panic else
  Ok (RightPadBytes (take (Z.to_nat (fin - start)) (drop (Z.to_nat start) data)) (i64 size)).

Definition toWordSize (size : Z) : Z := if MaxUint64 - 31 <? size then MaxUint64 / 32 + 1 else (size +w 31) / 32.

(** ** Stack: the top first *)

Abbreviation Stack := (list Z).
Definition pop (st : Stack) : res (Z * Stack) := match st with [] => Panic | x :: st => Ok (x, st) end.
Definition Back (n : nat) (st : Stack) : res Z := match st !! n with Some x => Ok x | None => Panic end.
Definition dup (n : nat) (st : Stack) : res Stack := x ← Back (n - 1) st; Ok (x :: st).
Definition swap (n : nat) (st : Stack) : res Stack :=
  x ← Back 0 st; y ← Back (n - 1) st; Ok (<[0%nat := y]> (<[(n - 1)%nat := x]> st)).

(** ** Memory *)

Record Memory : Type := mkMemory { store : list byte; lastGasCost : Z }.
Definition NewMemory : Memory := mkMemory [] 0.
Definition set_store (x : list byte) (m : Memory) : Memory := mkMemory x (lastGasCost m).
Definition Len (m : Memory) : Z := zlen (store m).

(** [copy(store[off:], bytes)], when they fit. *)
Definition splice (off : Z) (bytes l : list byte) : list byte := take (Z.to_nat off) l ++ bytes ++ drop (Z.to_nat off + length bytes) l.

Definition Set_ (offset size : Z) (value : list byte) (m : Memory) : res Memory :=
  if size <=? 0 then Ok m else
  if (Len m <? offset +w size) || (offset +w size <? offset) then Panic else
  Ok (set_store (splice offset (take (Z.to_nat size) value) (store m)) m).
Definition Set32 (offset val : Z) (m : Memory) : res Memory :=
  if (Len m <? offset +w 32) || (offset +w 32 <? offset) then Panic else
  Ok (set_store (splice offset (be_encode 32 val) (store m)) m).
Definition Set8 (offset val : Z) (m : Memory) : res Memory :=
  if Len m <=? offset then Panic else Ok (set_store (<[Z.to_nat offset := Zbyte val]> (store m)) m).
Definition Resize (size : Z) (m : Memory) : Memory :=
  if Len m <? size then set_store (store m ++ replicate (Z.to_nat (size - Len m)) Byte.x00) m else m.
(** The store's capacity is its length here: a slice beyond the length is a panic. *)
Definition GetPtr (offset size : Z) (m : Memory) : res (list byte) :=
  if size =? 0 then Ok [] else
  if offset <? Len m then
    if (offset <? 0) || (size <? 0) || (Len m <? offset + size) then Panic else Ok (take (Z.to_nat size) (drop (Z.to_nat offset) (store m)))
  else Ok [].
(** The copy is not shared with the memory; the bytes are those of [GetPtr]. *)
Definition GetCopy (offset size : Z) (m : Memory) : res (list byte) := GetPtr offset size m.

(** ** Contracts *)

(** [analysis] is nil until a jump asks for it. *)
Record Contract : Type := mkContract {
  CallerAddress : Address;
  self : Address;
  analysis : option bitvec;
  Code : list byte;
  cCodeHash : Hash;
  CodeAddr : Address;
  Input : list byte;
  Gas : Z;
  value : Z;
}.
Definition set_analysis (x : option bitvec) (c : Contract) : Contract := mkContract (CallerAddress c) (self c) x (Code c) (cCodeHash c) (CodeAddr c) (Input c) (Gas c) (value c).
Definition set_Input (x : list byte) (c : Contract) : Contract := mkContract (CallerAddress c) (self c) (analysis c) (Code c) (cCodeHash c) (CodeAddr c) x (Gas c) (value c).
Definition set_Gas (x : Z) (c : Contract) : Contract := mkContract (CallerAddress c) (self c) (analysis c) (Code c) (cCodeHash c) (CodeAddr c) (Input c) x (value c).

(** Who calls: an account or a contract. *)
Inductive ContractRef : Type := AccountRef (a : Address) | ContractCaller (c : Contract).
Definition refAddress (r : ContractRef) : Address := match r with AccountRef a => a | ContractCaller c => self c end.

(** [NewContract]; the map of analyses is the caller's, or a new one ([adoptJumpdests]). *)
Definition NewContract (caller : ContractRef) (object : Address) (v gas : Z) : Contract := mkContract (refAddress caller) object None [] 0 0 [] gas v.
(** [AsDelegate]; the caller of a delegate call is a contract, another one fails the assertion. *)
Definition AsDelegate (caller : ContractRef) (c : Contract) : res Contract :=
  match caller with
  | AccountRef _ => Panic
  | ContractCaller p => Ok (mkContract (CallerAddress p) (self c) (analysis c) (Code c) (cCodeHash c) (CodeAddr c) (Input c) (Gas c) (value p))
  end.
Definition SetCallCode (addr : Address) (hash : Hash) (code : list byte) (c : Contract) : Contract :=
  mkContract (CallerAddress c) (self c) (analysis c) code hash addr (Input c) (Gas c) (value c).
Definition GetOp (n : Z) (c : Contract) : Z := match Code c !! Z.to_nat n with Some b => byteZ b | None => 0 end.
Definition UseGas (gas : Z) (c : Contract) : option Contract := if Gas c <? gas then None else Some (set_Gas (Gas c - gas) c).

(** ** The machine *)

(** What the frames share.  A map of analyses belongs to a tree of calls, so one
    is kept, emptied when an account calls ([NewContract]); [bitmaps] is the
    cache of analyses of the process. *)
Record EVM (BC : Type) : Type := mkEVM {
  StateDB_ : StateDB;
  depth : Z;
  callGasTemp : Z;
  readOnly : bool;
  returnData : list byte;
  jumpdests : gmap Hash bitvec;
  bitmaps : BC;
}.
Arguments mkEVM {BC}. Arguments StateDB_ {BC}. Arguments depth {BC}. Arguments callGasTemp {BC}. Arguments readOnly {BC}.
Arguments returnData {BC}. Arguments jumpdests {BC}. Arguments bitmaps {BC}.

(** What does not change while a transaction runs: the contexts of [NewEVM], the
    configuration, and the flag of [Cancel] as the run reads it at its n-th step. *)
Record VMEnv : Type := mkVMEnv {
  Context_ : BlockContext;
  CanCreate_ : option (StateDB -> Address -> Z -> bool);
  Origin : Address;
  GasPrice : Z;
  chainRules : Rules;
  NoRecursion : bool;
  EnablePreimageRecording : bool;
  aborted : Z -> bool;
}.

(** The compiled precompiled contracts: the gas and the run; what [crypto]
    computes for new addresses; the order in which a map of checks is walked. *)
Class Runtime : Type := {
  precompiled : Rules -> Address -> option ((list byte -> Z) * (list byte -> list byte * option error));
  CreateAddress_ : Address -> Z -> Address;
  checkOrder : gmap Z Z -> list (Z * Z);
}.

Record Frame : Type := mkFrame { pc : Z; stack : Stack; mem : Memory; contract : Contract }.

Section Machine.
Context {BC : Type}.
Implicit Types (e : EVM BC) (f : Frame).

Definition set_StateDB x e : EVM BC := mkEVM x (depth e) (callGasTemp e) (readOnly e) (returnData e) (jumpdests e) (bitmaps e).
Definition set_depth x e : EVM BC := mkEVM (StateDB_ e) x (callGasTemp e) (readOnly e) (returnData e) (jumpdests e) (bitmaps e).
Definition set_callGasTemp x e : EVM BC := mkEVM (StateDB_ e) (depth e) x (readOnly e) (returnData e) (jumpdests e) (bitmaps e).
Definition set_readOnly x e : EVM BC := mkEVM (StateDB_ e) (depth e) (callGasTemp e) x (returnData e) (jumpdests e) (bitmaps e).
Definition set_returnData x e : EVM BC := mkEVM (StateDB_ e) (depth e) (callGasTemp e) (readOnly e) x (jumpdests e) (bitmaps e).
Definition set_jumpdests x e : EVM BC := mkEVM (StateDB_ e) (depth e) (callGasTemp e) (readOnly e) (returnData e) x (bitmaps e).
Definition set_bitmaps x e : EVM BC := mkEVM (StateDB_ e) (depth e) (callGasTemp e) (readOnly e) (returnData e) (jumpdests e) x.
Definition set_pc x f : Frame := mkFrame x (stack f) (mem f) (contract f).
Definition set_stack x f : Frame := mkFrame (pc f) x (mem f) (contract f).
Definition set_mem x f : Frame := mkFrame (pc f) (stack f) x (contract f).
Definition set_contract x f : Frame := mkFrame (pc f) (stack f) (mem f) x.

(** Instructions run on the machine and the frame. *)
Definition V : Type := EVM BC * Frame.
Definition on_evm {A} (m : ST (EVM BC) A) : ST V A := fun v => let '(r, e) := m v.1 in (r, (e, v.2)).
Definition getFrame : ST V Frame := v ← st_get; mret v.2.
Definition setFrame (g : Frame -> Frame) : ST V unit := st_modify (fun v => (v.1, g v.2)).
Definition getContract : ST V Contract := f ← getFrame; mret (contract f).

(** On the account state; a lookup may load objects. *)
Definition onState {A} (g : StateDB -> A * StateDB) : ST (EVM BC) A := fun e => let '(a, s) := g (StateDB_ e) in (Ok a, set_StateDB s e).
Definition doState (g : StateDB -> StateDB) : ST (EVM BC) unit := st_modify (fun e => set_StateDB (g (StateDB_ e)) e).
Definition tryState (g : StateDB -> res StateDB) : ST (EVM BC) unit := e ← st_get; s ← st_lift (g (StateDB_ e)); st_put (set_StateDB s e).

(** A slot of the stack holds 256 bits. *)
Definition pushV (x : Z) : ST V unit := setFrame (fun f => set_stack (FromBig x :: stack f) f).
Definition popV : ST V Z := f ← getFrame; r ← st_lift (pop (stack f)); _ ← setFrame (set_stack r.2); mret r.1.
Definition BackV (n : nat) : ST V Z := f ← getFrame; st_lift (Back n (stack f)).
Definition useGas (gas : Z) : ST V bool :=
  c ← getContract;
  match UseGas gas c with None => mret false | Some c => _ ← setFrame (set_contract c); mret true end.

(** ** Memory sizes (memory_table.go) *)

Definition memSizeOf (off size : nat) (st : Stack) : res (Z * bool) := o ← Back off st; l ← Back size st; Ok (calcMemSize64 o l).
Definition memorySha3 := memSizeOf 0 1.
Definition memoryCallDataCopy := memSizeOf 0 2.
Definition memoryReturnDataCopy := memSizeOf 0 2.
Definition memoryCodeCopy := memSizeOf 0 2.
Definition memoryExtCodeCopy := memSizeOf 1 3.
Definition memoryMLoad (st : Stack) : res (Z * bool) := o ← Back 0 st; Ok (calcMemSize64WithUint o 32).
Definition memoryMStore8 (st : Stack) : res (Z * bool) := o ← Back 0 st; Ok (calcMemSize64WithUint o 1).
Definition memoryMStore (st : Stack) : res (Z * bool) := o ← Back 0 st; Ok (calcMemSize64WithUint o 32).
Definition memoryCreate := memSizeOf 1 2.
Definition memoryCreate2 := memSizeOf 1 2.
Definition largerOf (off1 size1 off2 size2 : nat) (st : Stack) : res (Z * bool) :=
  x ← memSizeOf off1 size1 st;
  if (x.2 : bool) then Ok (0, true) else
  y ← memSizeOf off2 size2 st;
  if (y.2 : bool) then Ok (0, true) else Ok (if y.1 <? x.1 then (x.1, false) else (y.1, false)).
Definition memoryCall := largerOf 5 6 3 4.
Definition memoryDelegateCall := largerOf 4 5 2 3.
Definition memoryStaticCall := largerOf 4 5 2 3.
Definition memoryReturn := memSizeOf 0 1.
Definition memoryRevert := memSizeOf 0 1.
Definition memoryLog := memSizeOf 0 1.
End Machine.

(** * Gas: what an instruction costs besides its constant

    Memory, copies, storage, calls, and the access lists of Berlin.  The functions
    may change the state: refunds, access lists, the gas set aside for a call. *)

(** ** Prices (core/vm/gas.go, params/protocol_params.go) *)
Definition GasQuickStep : Z := 2.
Definition GasFastestStep : Z := 3.
Definition GasFastStep : Z := 5.
Definition GasMidStep : Z := 8.
Definition GasSlowStep : Z := 10.
Definition GasExtStep : Z := 20.
Definition MemoryGas : Z := 3.
Definition QuadCoeffDiv : Z := 512.
Definition CopyGas : Z := 3.
Definition ExpByteFrontier : Z := 10.
Definition ExpByteEIP158 : Z := 50.
Definition ExpGas : Z := 10.
Definition LogGas : Z := 375.
Definition LogTopicGas : Z := 375.
Definition LogDataGas : Z := 8.
Definition Sha3Gas : Z := 30.
Definition Sha3WordGas : Z := 6.
Definition CreateGas : Z := 32000.
Definition Create2Gas : Z := 32000.
Definition CreateDataGas : Z := 200.
Definition JumpdestGas : Z := 1.
Definition CallCreateDepth : Z := 1024.
Definition StackLimit : Z := 1024.
Definition MaxCodeSize : Z := 24576.
Definition CallStipend : Z := 2300.
Definition CallValueTransferGas : Z := 9000.
Definition CallNewAccountGas : Z := 25000.
Definition CallGasFrontier : Z := 40.
Definition CallGasEIP150 : Z := 700.
Definition BalanceGasFrontier : Z := 20.
Definition BalanceGasEIP150 : Z := 400.
Definition BalanceGasEIP1884 : Z := 700.
Definition ExtcodeSizeGasFrontier : Z := 20.
Definition ExtcodeSizeGasEIP150 : Z := 700.
Definition ExtcodeCopyBaseFrontier : Z := 20.
Definition ExtcodeCopyBaseEIP150 : Z := 700.
Definition ExtcodeHashGasConstantinople : Z := 400.
Definition ExtcodeHashGasEIP1884 : Z := 700.
Definition SloadGasFrontier : Z := 50.
Definition SloadGasEIP150 : Z := 200.
Definition SloadGasEIP1884 : Z := 800.
Definition SloadGasEIP2200 : Z := 800.
Definition SstoreSetGas : Z := 20000.
Definition SstoreResetGas : Z := 5000.
Definition SstoreClearGas : Z := 5000.
Definition SstoreRefundGas : Z := 15000.
Definition NetSstoreNoopGas : Z := 200.
Definition NetSstoreInitGas : Z := 20000.
Definition NetSstoreCleanGas : Z := 5000.
Definition NetSstoreDirtyGas : Z := 200.
Definition NetSstoreClearRefund : Z := 15000.
Definition NetSstoreResetRefund : Z := 4800.
Definition NetSstoreResetClearRefund : Z := 19800.
Definition SstoreSentryGasEIP2200 : Z := 2300.
Definition SstoreSetGasEIP2200 : Z := 20000.
Definition SstoreResetGasEIP2200 : Z := 5000.
Definition SstoreClearsScheduleRefundEIP2200 : Z := 15000.
Definition ColdAccountAccessCostEIP2929 : Z := 2600.
Definition ColdSloadCostEIP2929 : Z := 2100.
Definition WarmStorageReadCostEIP2929 : Z := 100.
Definition SstoreClearsScheduleRefundEIP3529 : Z := SstoreResetGasEIP2200 - ColdSloadCostEIP2929 + TxAccessListStorageKeyGas.
Definition SelfdestructGasEIP150 : Z := 5000.
Definition SelfdestructRefundGas : Z := 24000.
Definition CreateBySelfdestructGas : Z := 25000.

Section Gas.
Context {BC : Type} `{Backend}.
Variable env : VMEnv.
#[local] Abbreviation E := (EVM BC).
#[local] Abbreviation V := (V (BC := BC)).
#[local] Abbreviation rules := (chainRules env).

Definition evmState {A} (g : StateDB -> A * StateDB) : ST V A := on_evm (onState g).
Definition evmDo (g : StateDB -> StateDB) : ST V unit := on_evm (doState g).
Definition evmTry (g : StateDB -> res StateDB) : ST V unit := on_evm (tryState g).
(** A sum or product that overflows is an error. *)
Definition checked (r : Z * bool) : ST V Z := if (r.2 : bool) then st_err ErrGasUintOverflow else mret r.1.
Definition asUint64 (x : Z) : ST V Z := if IsUint64 x then mret (Uint64 x) else st_err ErrGasUintOverflow.

(** ** Memory *)

Definition memoryGasCost (newMemSize : Z) : ST V Z :=
  if newMemSize =? 0 then mret 0 else
  if 0x1FFFFFFFE0 <? newMemSize then st_err ErrGasUintOverflow else
  f ← getFrame;
  let newMemSizeWords := toWordSize newMemSize in
  let newMemSize := newMemSizeWords *w 32 in
  if Len (mem f) <? newMemSize then
    let square := newMemSizeWords *w newMemSizeWords in
    let linCoef := newMemSizeWords *w MemoryGas in
    let quadCoef := square / QuadCoeffDiv in
    let newTotalFee := linCoef +w quadCoef in
    let fee := newTotalFee -w lastGasCost (mem f) in
    _ ← setFrame (set_mem (mkMemory (store (mem f)) newTotalFee));
    mret fee
  else mret 0.

Definition memoryCopierGas (stackpos : nat) (memorySize : Z) : ST V Z :=
  gas ← memoryGasCost memorySize;
  size ← BackV stackpos;
  words ← asUint64 size;
  words ← checked (SafeMul (toWordSize words) CopyGas);
  checked (SafeAdd gas words).
Definition gasCallDataCopy := memoryCopierGas 2.
Definition gasCodeCopy := memoryCopierGas 2.
Definition gasExtCodeCopy := memoryCopierGas 3.
Definition gasReturnDataCopy := memoryCopierGas 2.

Definition makeGasLog (n : Z) (memorySize : Z) : ST V Z :=
  size ← BackV 1;
  requestedSize ← asUint64 size;
  gas ← memoryGasCost memorySize;
  gas ← checked (SafeAdd gas LogGas);
  gas ← checked (SafeAdd gas (n *w LogTopicGas));
  memorySizeGas ← checked (SafeMul requestedSize LogDataGas);
  checked (SafeAdd gas memorySizeGas).

(** [gasSha3] and [gasCreate2] differ in the operand that holds the size. *)
Definition hashedGas (stackpos : nat) (memorySize : Z) : ST V Z :=
  gas ← memoryGasCost memorySize;
  size ← BackV stackpos;
  wordGas ← asUint64 size;
  wordGas ← checked (SafeMul (toWordSize wordGas) Sha3WordGas);
  checked (SafeAdd gas wordGas).
Definition gasSha3 := hashedGas 1.
Definition gasCreate2 := hashedGas 2.
Definition pureMemoryGascost := memoryGasCost.

Definition bitLen (x : Z) : Z := if x =? 0 then 0 else Z.log2 x + 1.
Definition expGas (perByte : Z) (memorySize : Z) : ST V Z :=
  exponent ← BackV 1;
  let expByteLen := (bitLen exponent + 7) / 8 in
  checked (SafeAdd (expByteLen *w perByte) ExpGas).
Definition gasExpFrontier := expGas ExpByteFrontier.
Definition gasExpEIP158 := expGas ExpByteEIP158.

(** ** Storage *)

(** What the schedules of SSTORE have in common: the refunds for a slot whose
    current value is not the original one. *)
Definition dirtyRefunds (clearRefund resetClearRefund resetRefund original current value : Z) : ST V unit :=
  _ ← (if negb (original =? 0) then
         if current =? 0 then evmTry (SubRefund clearRefund)
         else if value =? 0 then evmDo (AddRefund clearRefund) else mret tt
       else mret tt);
  if original =? value then evmDo (AddRefund (if original =? 0 then resetClearRefund else resetRefund)) else mret tt.

Definition gasSStore (memorySize : Z) : ST V Z :=
  y ← BackV 1; x ← BackV 0;
  c ← getContract;
  current ← evmState (GetState (self c) x);
  if rIsPetersburg rules || negb (rIsConstantinople rules) then
    if (current =? 0) && negb (Sign y =? 0) then mret SstoreSetGas
    else if negb (current =? 0) && (Sign y =? 0) then _ ← evmDo (AddRefund SstoreRefundGas); mret SstoreClearGas
    else mret SstoreResetGas
  else
  let value := y in
  if current =? value then mret NetSstoreNoopGas else
  original ← evmState (GetCommittedState (self c) x);
  if original =? current then
    if original =? 0 then mret NetSstoreInitGas else
    _ ← (if value =? 0 then evmDo (AddRefund NetSstoreClearRefund) else mret tt);
    mret NetSstoreCleanGas
  else
  _ ← dirtyRefunds NetSstoreClearRefund NetSstoreResetClearRefund NetSstoreResetRefund original current value;
  mret NetSstoreDirtyGas.

Definition gasSStoreEIP2200 (memorySize : Z) : ST V Z :=
  c ← getContract;
  if Gas c <=? SstoreSentryGasEIP2200 then st_err (errorf "not enough gas for reentrancy sentry") else
  y ← BackV 1; x ← BackV 0;
  current ← evmState (GetState (self c) x);
  let value := y in
  if current =? value then mret SloadGasEIP2200 else
  original ← evmState (GetCommittedState (self c) x);
  if original =? current then
    if original =? 0 then mret SstoreSetGasEIP2200 else
    _ ← (if value =? 0 then evmDo (AddRefund SstoreClearsScheduleRefundEIP2200) else mret tt);
    mret SstoreResetGasEIP2200
  else
  _ ← dirtyRefunds SstoreClearsScheduleRefundEIP2200 (SstoreSetGasEIP2200 - SloadGasEIP2200) (SstoreResetGasEIP2200 - SloadGasEIP2200) original current value;
  mret SloadGasEIP2200.

(** [SlotInAccessList] does not change the state. *)
Definition slotInAccessList (a : Address) (slot : Hash) : ST V (bool * bool) :=
  v ← st_get; st_lift (Contains (acl (StateDB_ v.1)) a slot).
Definition addressInAccessList (a : Address) : ST V bool := v ← st_get; mret (ContainsAddress (acl (StateDB_ v.1)) a).

Definition makeGasSStoreFunc (clearingRefund : Z) (memorySize : Z) : ST V Z :=
  c ← getContract;
  if Gas c <=? SstoreSentryGasEIP2200 then st_err (errorf "not enough gas for reentrancy sentry") else
  y ← BackV 1; x ← BackV 0;
  current ← evmState (GetState (self c) x);
  present ← slotInAccessList (self c) x;
  cost ← (if (present.2 : bool) then mret 0 else
            _ ← evmTry (AddSlotToAccessList (self c) x);
            if (present.1 : bool) then mret ColdSloadCostEIP2929 else st_panic);
  let value := y in
  if current =? value then mret (cost +w WarmStorageReadCostEIP2929) else
  original ← evmState (GetCommittedState (self c) x);
  if original =? current then
    if original =? 0 then mret (cost +w SstoreSetGasEIP2200) else
    _ ← (if value =? 0 then evmDo (AddRefund clearingRefund) else mret tt);
    mret (cost +w (SstoreResetGasEIP2200 - ColdSloadCostEIP2929))
  else
  _ ← dirtyRefunds clearingRefund (SstoreSetGasEIP2200 - WarmStorageReadCostEIP2929)
        (SstoreResetGasEIP2200 - ColdSloadCostEIP2929 - WarmStorageReadCostEIP2929) original current value;
  mret (cost +w WarmStorageReadCostEIP2929).
Definition gasSStoreEIP2929 := makeGasSStoreFunc SstoreClearsScheduleRefundEIP2200.
Definition gasSStoreEIP3529 := makeGasSStoreFunc SstoreClearsScheduleRefundEIP3529.

Definition gasSLoadEIP2929 (memorySize : Z) : ST V Z :=
  loc ← BackV 0;
  c ← getContract;
  present ← slotInAccessList (self c) loc;
  if (present.2 : bool) then mret WarmStorageReadCostEIP2929
  else _ ← evmTry (AddSlotToAccessList (self c) loc); mret ColdSloadCostEIP2929.

(** An account is added to the access list; was it there before? *)
Definition warm (a : Address) : ST V bool :=
  w ← addressInAccessList a;
  if (w : bool) then mret true else _ ← evmDo (AddAddressToAccessList a); mret false.

Definition gasExtCodeCopyEIP2929 (memorySize : Z) : ST V Z :=
  gas ← gasExtCodeCopy memorySize;
  a ← BackV 0;
  w ← warm (Bytes20 a);
  if (w : bool) then mret gas else checked (SafeAdd gas (ColdAccountAccessCostEIP2929 - WarmStorageReadCostEIP2929)).
Definition gasEip2929AccountCheck (memorySize : Z) : ST V Z :=
  a ← BackV 0;
  w ← warm (Bytes20 a);
  mret (if (w : bool) then 0 else ColdAccountAccessCostEIP2929 - WarmStorageReadCostEIP2929).

(** ** Calls *)

Definition callGas (isEip150 : bool) (availableGas base callCost : Z) : res Z :=
  if isEip150 then
    let availableGas := availableGas -w base in
    let gas := availableGas -w availableGas / 64 in
    if negb (IsUint64 callCost) || (gas <? Uint64 callCost) then Ok gas else Ok (Uint64 callCost)
  else if IsUint64 callCost then Ok (Uint64 callCost) else Err ErrGasUintOverflow.

(** The gas set aside for the call is added to what the call costs. *)
Definition withCallGas (gas : Z) : ST V Z :=
  c ← getContract;
  requested ← BackV 0;
  temp ← st_lift (callGas (rIsEIP150 rules) (Gas c) gas requested);
  _ ← on_evm (st_modify (set_callGasTemp temp));
  checked (SafeAdd gas temp).

Definition gasCall (memorySize : Z) : ST V Z :=
  v ← BackV 2; a ← BackV 1;
  let transfersValue := negb (v =? 0) in
  let address := Bytes20 a in
  gas ← (if rIsEIP158 rules then
           if transfersValue then emp ← evmState (StateDB.Empty address); mret (if (emp : bool) then CallNewAccountGas else 0) else mret 0
         else ex ← evmState (Exist address); mret (if (ex : bool) then 0 else CallNewAccountGas));
  let gas := if transfersValue then gas +w CallValueTransferGas else gas in
  memoryGas ← memoryGasCost memorySize;
  gas ← checked (SafeAdd gas memoryGas);
  withCallGas gas.
Definition gasCallCode (memorySize : Z) : ST V Z :=
  memoryGas ← memoryGasCost memorySize;
  v ← BackV 2;
  gas ← checked (SafeAdd (if Sign v =? 0 then 0 else CallValueTransferGas) memoryGas);
  withCallGas gas.
Definition gasDelegateCall (memorySize : Z) : ST V Z := gas ← memoryGasCost memorySize; withCallGas gas.
Definition gasStaticCall (memorySize : Z) : ST V Z := gas ← memoryGasCost memorySize; withCallGas gas.

(** The cold access is paid before the old calculator looks at the gas, and
    given back, to be charged with the rest. *)
Definition makeCallVariantGasCallEIP2929 (oldCalculator : Z -> ST V Z) (memorySize : Z) : ST V Z :=
  a ← BackV 1;
  let coldCost := ColdAccountAccessCostEIP2929 - WarmStorageReadCostEIP2929 in
  w ← warm (Bytes20 a);
  paid ← (if (w : bool) then mret true else useGas coldCost);
  if negb paid then st_err ErrOutOfGas else
  gas ← oldCalculator memorySize;
  if (w : bool) then mret gas else
  _ ← setFrame (fun f => set_contract (set_Gas (Gas (contract f) +w coldCost) (contract f)) f);
  mret (gas +w coldCost).
Definition gasCallEIP2929 := makeCallVariantGasCallEIP2929 gasCall.
Definition gasCallCodeEIP2929 := makeCallVariantGasCallEIP2929 gasCallCode.
Definition gasDelegateCallEIP2929 := makeCallVariantGasCallEIP2929 gasDelegateCall.
Definition gasStaticCallEIP2929 := makeCallVariantGasCallEIP2929 gasStaticCall.

(** ** SELFDESTRUCT *)

Definition refundSelfdestruct : ST V unit :=
  c ← getContract;
  gone ← evmState (HasSuicided (self c));
  if (gone : bool) then mret tt else evmDo (AddRefund SelfdestructRefundGas).
Definition createsAccount (a : Address) : ST V bool :=
  c ← getContract;
  emp ← evmState (StateDB.Empty a);
  if (emp : bool) then b ← evmState (GetBalance (self c)); mret (negb (b =? 0)) else mret false.

Definition gasSelfdestruct (memorySize : Z) : ST V Z :=
  gas ← (if rIsEIP150 rules then
           a ← BackV 0;
           creates ← (if rIsEIP158 rules then createsAccount (Bytes20 a) else ex ← evmState (Exist (Bytes20 a)); mret (negb ex));
           mret (SelfdestructGasEIP150 + (if (creates : bool) then CreateBySelfdestructGas else 0))
         else mret 0);
  _ ← refundSelfdestruct;
  mret gas.
Definition makeSelfdestructGasFn (refundsEnabled : bool) (memorySize : Z) : ST V Z :=
  a ← BackV 0;
  w ← warm (Bytes20 a);
  creates ← createsAccount (Bytes20 a);
  let gas := (if (w : bool) then 0 else ColdAccountAccessCostEIP2929) + (if (creates : bool) then CreateBySelfdestructGas else 0) in
  _ ← (if refundsEnabled then refundSelfdestruct else mret tt);
  mret gas.
Definition gasSelfdestructEIP2929 := makeSelfdestructGasFn true.
Definition gasSelfdestructEIP3529 := makeSelfdestructGasFn false.
End Gas.
