(* ===== verification/VMRun.v ===== *)
(** * The virtual machine
    (core/vm/evm.go, contract.go, analysis.go, instructions.go, jump_table.go,
    stack_table.go, eips.go, interpreter.go)

    Calls and creations, one definition per instruction, the tables of the forks,
    and the loop that runs a contract. *)

From S2P Require Import StateDB Prelude Params Blacklist StateTransition Processor VMCode VMState.

(** ** Calls and creations (core/vm/evm.go, contract.go, analysis.go)

    The entry points of the machine.  They are written against [Run], the
    interpreter, which runs a contract's code: [RunWith] below ties the knot. *)

Section Calls.
Context {BC : Type} `{Backend} `{Uint256} `{Runtime} `{Cache BC Hash bitvec}.
Variable env : VMEnv.
#[local] Abbreviation E := (EVM BC).
#[local] Abbreviation V := (V (BC := BC)).
#[local] Abbreviation rules := (chainRules env).

(** ** Jump destinations *)

(** Every code but the empty one has an analysis. *)
Definition codeBitmapWithCache (code : list byte) (codeHash : Hash) : ST E (option bitvec) :=
  if (codeHash =? StateDB.emptyCodeHash) || (codeHash =? 0) then mret None else
  e ← st_get;
  let '(found, c) := cache_get codeHash (bitmaps e) in
  _ ← st_put (set_bitmaps c e);
  match found with
  | Some val => mret (Some val)
  | None =>
      val ← st_lift (codeBitmap code);
      _ ← st_modify (fun e => set_bitmaps (cache_add codeHash val (bitmaps e)) e);
      mret (Some val)
  end.

Definition segmentOf (analysis : option bitvec) (udest : Z) : res bool :=
  match analysis with Some bits => codeSegment bits udest | None => Panic end.
Definition isCode (udest : Z) : ST V bool :=
  c ← getContract;
  match analysis c with
  | Some bits => st_lift (codeSegment bits udest)
  | None =>
      if negb (cCodeHash c =? 0) && negb (cCodeHash c =? StateDB.emptyCodeHash) then
        v ← st_get;
        found ← (match jumpdests v.1 !! cCodeHash c with
                 | Some bits => mret (Some bits)
                 | None =>
                     found ← on_evm (codeBitmapWithCache (Code c) (cCodeHash c));
                     _ ← on_evm (st_modify (fun e => match found with
                                                     | Some bits => set_jumpdests (<[cCodeHash c := bits]> (jumpdests e)) e
                                                     | None => e
                                                     end));
                     mret found
                 end);
        _ ← setFrame (fun f => set_contract (set_analysis found (contract f)) f);
        st_lift (segmentOf found udest)
      else
        bits ← st_lift (codeBitmap (Code c));
        _ ← setFrame (fun f => set_contract (set_analysis (Some bits) (contract f)) f);
        st_lift (codeSegment bits udest)
  end.
Definition validJumpdest (dest : Z) : ST V bool :=
  c ← getContract;
  if negb (IsUint64 dest) || (zlen (Code c) <=? Uint64 dest) then mret false else
  if negb (GetOp (Uint64 dest) c =? Op.JUMPDEST) then mret false else
  isCode (Uint64 dest).

(** ** Calls *)

Variable Run : Contract -> list byte -> bool -> ST E (list byte * option error * Contract).

(** The map of analyses of the calling contract, or a new one. *)
Definition adoptJumpdests (caller : ContractRef) : ST E unit :=
  match caller with ContractCaller _ => mret tt | AccountRef _ => st_modify (set_jumpdests ∅) end.

(** What was returned, the gas left, the error. *)
Definition outcome : Type := list byte * Z * option error.

Definition precompile (addr : Address) := precompiled rules addr.
Definition RunPrecompiledContract (p : (list byte -> Z) * (list byte -> list byte * option error)) (input : list byte) (suppliedGas : Z) : outcome :=
  let gasCost := u64 (p.1 input) in
  if suppliedGas <? gasCost then ([], 0, Some ErrOutOfGas) else
  let '(output, err) := p.2 input in (output, suppliedGas - gasCost, err).

(** [core.CanTransfer] and [core.Transfer]. *)
Definition CanTransfer (addr : Address) (amount : Z) : ST E bool := b ← onState (GetBalance addr); mret (amount <=? b).
Definition Transfer (sender recipient : Address) (amount : Z) : ST E unit :=
  _ ← doState (SubBalance sender amount); doState (AddBalance recipient amount).

Definition denied (caller addr : Address) : bool :=
  match CtxExtraValidator (Context_ env) with
  | None => false
  | Some v => IsAddressDenied v caller CheckFrom || IsAddressDenied v addr CheckTo
  end.

(** After an error the state is that of the snapshot, and the gas is gone
    unless the code reverted. *)
Definition settle (snapshot : Z) (r : outcome) : ST E outcome :=
  match r.2 with
  | None => mret r
  | Some err =>
      _ ← tryState (RevertToSnapshot snapshot);
      mret (r.1.1, if decide (err = ErrExecutionReverted) then r.1.2 else 0, Some err)
  end.

Definition runContract (c : Contract) (input : list byte) (static : bool) : ST E outcome :=
  r ← Run c input static; mret (r.1.1, Gas r.2, r.1.2).
(** The code of [addr], or the precompiled contract there, in the contract [c]. *)
Definition runCode (caller : ContractRef) (addr : Address) (input : list byte) (gas : Z) (c : res Contract) (static : bool) : ST E outcome :=
  match precompile addr with
  | Some p => mret (RunPrecompiledContract p input gas)
  | None =>
      c ← st_lift c;
      _ ← adoptJumpdests caller;
      hash ← onState (GetCodeHash addr);
      code ← onState (GetCode addr);
      runContract (SetCallCode addr hash code c) input static
  end.

Definition Call (caller : ContractRef) (addr : Address) (input : list byte) (gas value : Z) : ST E outcome :=
  e ← st_get;
  if NoRecursion env && (0 <? depth e) then mret ([], gas, None) else
  if CallCreateDepth <? depth e then mret ([], gas, Some ErrDepth) else
  if (0 <? depth e) && denied (refAddress caller) addr then mret ([], gas, Some ErrAddressDenied) else
  can ← (if value =? 0 then mret true else CanTransfer (refAddress caller) value);
  if negb can then mret ([], gas, Some ErrInsufficientBalance) else
  snapshot ← onState StateDB.Snapshot;
  exist ← onState (Exist addr);
  if negb exist && (match precompile addr with None => true | Some _ => false end) && rIsEIP158 rules && (value =? 0) then mret ([], gas, None) else
  _ ← (if (exist : bool) then mret tt else doState (CreateAccount addr));
  _ ← Transfer (refAddress caller) addr value;
  r ← (match precompile addr with
       | Some p => mret (RunPrecompiledContract p input gas)
       | None =>
           code ← onState (GetCode addr);
           match code with
           | [] => mret ([], gas, None)
           | _ =>
               _ ← adoptJumpdests caller;
               hash ← onState (GetCodeHash addr);
               runContract (SetCallCode addr hash code (NewContract caller addr value gas)) input false
           end
       end);
  settle snapshot r.

(** The checks of the other calls, which have no exception at depth zero. *)
Definition guarded (caller : ContractRef) (addr : Address) (gas : Z) (m : ST E outcome) : ST E outcome :=
  e ← st_get;
  if NoRecursion env && (0 <? depth e) then mret ([], gas, None) else
  if CallCreateDepth <? depth e then mret ([], gas, Some ErrDepth) else
  if denied (refAddress caller) addr then mret ([], gas, Some ErrAddressDenied) else m.

Definition CallCode (caller : ContractRef) (addr : Address) (input : list byte) (gas value : Z) : ST E outcome :=
  guarded caller addr gas (
    can ← CanTransfer (refAddress caller) value;
    if negb can then mret ([], gas, Some ErrInsufficientBalance) else
    snapshot ← onState StateDB.Snapshot;
    r ← runCode caller addr input gas (Ok (NewContract caller (refAddress caller) value gas)) false;
    settle snapshot r).

Definition DelegateCall (caller : ContractRef) (addr : Address) (input : list byte) (gas : Z) : ST E outcome :=
  guarded caller addr gas (
    snapshot ← onState StateDB.Snapshot;
    r ← runCode caller addr input gas (AsDelegate caller (NewContract caller (refAddress caller) 0 gas)) false;
    settle snapshot r).

Definition StaticCall (caller : ContractRef) (addr : Address) (input : list byte) (gas : Z) : ST E outcome :=
  guarded caller addr gas (
    snapshot ← onState StateDB.Snapshot;
    _ ← doState (AddBalance addr 0);
    r ← runCode caller addr input gas (Ok (NewContract caller addr 0 gas)) true;
    settle snapshot r).

(** ** Creations *)

Definition refusedCode (ret : list byte) : option error :=
  if rIsEIP158 rules && (MaxCodeSize <? zlen ret) then Some ErrMaxCodeSizeExceeded
  else match ret with b :: _ => if (byteZ b =? 0xEF) && rIsLondon rules then Some ErrInvalidCode else None | [] => None end.

(** What the initialisation returned becomes the code, if it can be paid. *)
Definition storeCode (address : Address) (r : list byte * option error * Contract) : ST E (option error * Contract) :=
  let '(ret, err, c) := r in
  match (match err with None => refusedCode ret | Some err => Some err end) with
  | Some err => mret (Some err, c)
  | None =>
      match UseGas (zlen ret *w CreateDataGas) c with
      | Some c => _ ← doState (SetCode address ret); mret (None, c)
      | None => mret (Some ErrCodeStoreOutOfGas, c)
      end
  end.

Definition create (caller : ContractRef) (code : list byte) (codeHash : Hash) (gas value : Z) (address : Address) : ST E (list byte * Address * Z * option error) :=
  e ← st_get;
  if CallCreateDepth <? depth e then mret ([], 0, gas, Some ErrDepth) else
  if match CanCreate_ env with Some can => negb (can (StateDB_ e) (refAddress caller) (CtxNumber (Context_ env))) | None => false end
  then mret ([], 0, gas, Some ErrUnauthorizedDeveloper) else
  can ← CanTransfer (refAddress caller) value;
  if negb can then mret ([], 0, gas, Some ErrInsufficientBalance) else
  nonce ← onState (GetNonce (refAddress caller));
  if nonce +w 1 <? nonce then mret ([], 0, gas, Some ErrNonceUintOverflow) else
  _ ← doState (SetNonce (refAddress caller) (nonce +w 1));
  _ ← (if rIsBerlin rules then doState (AddAddressToAccessList address) else mret tt);
  contractHash ← onState (GetCodeHash address);
  taken ← onState (GetNonce address);
  if negb (taken =? 0) || (negb (contractHash =? 0) && negb (contractHash =? StateDB.emptyCodeHash)) then mret ([], 0, 0, Some ErrContractAddressCollision) else
  snapshot ← onState StateDB.Snapshot;
  _ ← doState (CreateAccount address);
  _ ← (if rIsEIP158 rules then doState (SetNonce address 1) else mret tt);
  _ ← Transfer (refAddress caller) address value;
  let c := SetCallCode address codeHash code (NewContract caller address value gas) in
  if NoRecursion env && (0 <? depth e) then mret ([], address, gas, None) else
  _ ← adoptJumpdests caller;
  r ← Run c [] false;
  stored ← storeCode address r;
  let '(err, c) := stored in
  match err with
  | Some x =>
      if rIsHomestead rules || negb (bool_decide (x = ErrCodeStoreOutOfGas)) then
        _ ← tryState (RevertToSnapshot snapshot);
        mret (r.1.1, address, if decide (x = ErrExecutionReverted) then Gas c else 0, Some x)
      else mret (r.1.1, address, Gas c, Some x)
  | None => mret (r.1.1, address, Gas c, None)
  end.

(** The hash of the code is only asked for by [Create2]. *)
Definition Create (caller : ContractRef) (code : list byte) (gas value : Z) : ST E (list byte * Address * Z * option error) :=
  nonce ← onState (GetNonce (refAddress caller));
  create caller code 0 gas value (CreateAddress_ (refAddress caller) nonce).
(** [crypto.CreateAddress2] *)
Definition CreateAddress2 (b : Address) (salt inithash : Hash) : Address :=
  Keccak256Hash ([Byte.xff] ++ be_encode 20 b ++ be_encode 32 salt ++ be_encode 32 inithash) mod 2 ^ 160.
Definition Create2 (caller : ContractRef) (code : list byte) (gas endowment salt : Z) : ST E (list byte * Address * Z * option error) :=
  let hash := Keccak256Hash code in
  create caller code hash gas endowment (CreateAddress2 (refAddress caller) salt hash).
End Calls.

Section Instructions.
Context {BC : Type} `{Backend} `{Uint256} `{Runtime} `{Cache BC Hash bitvec}.
Variable env : VMEnv.
Variable Run : Contract -> list byte -> bool -> ST (EVM BC) (list byte * option error * Contract).
#[local] Abbreviation E := (EVM BC).
#[local] Abbreviation V := (V (BC := BC)).
#[local] Abbreviation rules := (chainRules env).
#[local] Abbreviation ctx := (Context_ env).
(** What an instruction answers: the bytes it returns. *)
#[local] Abbreviation exec := (ST V (list byte)).

Definition nothing : exec := mret [].
(** Instructions that replace their operands by one result, and that push one. *)
Definition unary (f : Z -> Z) : exec := x ← popV; _ ← pushV (f x); nothing.
Definition binary (f : Z -> Z -> Z) : exec := x ← popV; y ← popV; _ ← pushV (f x y); nothing.
Definition ternary (f : Z -> Z -> Z -> Z) : exec := x ← popV; y ← popV; z ← popV; _ ← pushV (f x y z); nothing.
Definition pushing (f : V -> Z) : exec := v ← st_get; _ ← pushV (f v); nothing.
Definition reading (f : Z -> StateDB -> Z * StateDB) : exec := x ← popV; y ← evmState (f x); _ ← pushV y; nothing.
Definition bit (b : bool) : Z := if b then 1 else 0.

(** ** Arithmetic, comparisons, bits *)
Definition opAdd : exec := binary wAdd.
Definition opSub : exec := binary wSub.
Definition opMul : exec := binary wMul.
Definition opDiv : exec := binary wDiv.
Definition opSdiv : exec := binary wSDiv.
Definition opMod : exec := binary wMod.
Definition opSmod : exec := binary wSMod.
Definition opExp : exec := binary wExp.
Definition opSignExtend : exec := binary (fun back num => wExtendSign num back).
Definition opNot : exec := unary wNot.
Definition opLt : exec := binary (fun x y => bit (x <? y)).
Definition opGt : exec := binary (fun x y => bit (y <? x)).
Definition opSlt : exec := binary (fun x y => bit (wSlt x y)).
Definition opSgt : exec := binary (fun x y => bit (wSgt x y)).
Definition opEq : exec := binary (fun x y => bit (x =? y)).
Definition opIszero : exec := unary (fun x => bit (x =? 0)).
Definition opAnd : exec := binary wAnd.
Definition opOr : exec := binary wOr.
Definition opXor : exec := binary wXor.
Definition opByte : exec := binary (fun th val => wByte val th).
Definition opAddmod : exec := ternary (fun x y z => if z =? 0 then 0 else wAddMod x y z).
Definition opMulmod : exec := ternary wMulMod.
Definition opSHL : exec := binary (fun shift value => if shift <? 256 then wLsh value shift else 0).
Definition opSHR : exec := binary (fun shift value => if shift <? 256 then wRsh value shift else 0).
Definition opSAR : exec := binary (fun shift value => if 256 <? shift then (if 0 <=? Sign value then 0 else 2 ^ 256 - 1) else wSRsh value shift).

(** ** The surroundings *)
Definition memPtr (offset size : Z) : ST V (list byte) := f ← getFrame; st_lift (GetPtr (i64 (Uint64 offset)) (i64 (Uint64 size)) (mem f)).
Definition memSet (offset size : Z) (data : list byte) : ST V unit :=
  f ← getFrame; m ← st_lift (Set_ (Uint64 offset) (Uint64 size) data (mem f)); setFrame (set_mem m).

Definition opSha3 : exec :=
  offset ← popV; size ← popV;
  data ← memPtr offset size;
  let hash := Keccak256Hash data in
  _ ← (if EnablePreimageRecording env then evmDo (AddPreimage hash data) else mret tt);
  _ ← pushV hash; nothing.
Definition opAddress : exec := pushing (fun v => self (contract v.2)).
Definition opBalance : exec := reading (fun slot s => let '(b, s) := GetBalance (Bytes20 slot) s in (FromBig b, s)).
Definition opOrigin : exec := pushing (fun _ => Origin env).
Definition opCaller : exec := pushing (fun v => CallerAddress (contract v.2)).
Definition opCallValue : exec := pushing (fun v => FromBig (value (contract v.2))).
Definition opCallDataLoad : exec :=
  x ← popV; c ← getContract;
  y ← (if IsUint64 x then data ← st_lift (getData (Input c) (Uint64 x) 32); mret (be_decode data) else mret 0);
  _ ← pushV y; nothing.
Definition opCallDataSize : exec := pushing (fun v => u64 (zlen (Input (contract v.2)))).
(** The operand, or the largest number when it is no 64-bit number. *)
Definition saturated (x : Z) : Z := if IsUint64 x then Uint64 x else MaxUint64.
Definition copyData (data : list byte) (memOffset dataOffset length : Z) : exec :=
  copy ← st_lift (getData data (saturated dataOffset) (Uint64 length));
  _ ← memSet memOffset length copy; nothing.
Definition opCallDataCopy : exec := memOffset ← popV; dataOffset ← popV; length ← popV; c ← getContract; copyData (Input c) memOffset dataOffset length.
Definition opReturnDataSize : exec := pushing (fun v => u64 (zlen (returnData v.1))).
Definition opReturnDataCopy : exec :=
  memOffset ← popV; dataOffset ← popV; length ← popV;
  if negb (IsUint64 dataOffset) then st_err ErrReturnDataOutOfBounds else
  let fin := wAdd dataOffset length in
  v ← st_get;
  if negb (IsUint64 fin) || (zlen (returnData v.1) <? Uint64 fin) then st_err ErrReturnDataOutOfBounds else
  if Uint64 fin <? Uint64 dataOffset then st_panic else
  _ ← memSet memOffset length (take (Z.to_nat (Uint64 fin - Uint64 dataOffset)) (drop (Z.to_nat (Uint64 dataOffset)) (returnData v.1)));
  nothing.
(** [CodeSize]: the length of the code, which is not loaded for it. *)
Definition GetCodeSize (a : Address) (s : StateDB) : Z * StateDB :=
  match getStateObject a s with
  | (None, s) => (0, s)
  | (Some o, s) =>
      (match code o with
       | Some c => zlen c
       | None => if CodeHash (data o) =? StateDB.emptyCodeHash then 0 else match ContractCode (CodeHash (data o)) with Some c => zlen c | None => 0 end
       end, s)
  end.
Definition opExtCodeSize : exec := reading (fun slot s => let '(n, s) := GetCodeSize (Bytes20 slot) s in (u64 n, s)).
Definition opCodeSize : exec := pushing (fun v => u64 (zlen (Code (contract v.2)))).
Definition opCodeCopy : exec := memOffset ← popV; codeOffset ← popV; length ← popV; c ← getContract; copyData (Code c) memOffset codeOffset length.
Definition opExtCodeCopy : exec :=
  a ← popV; memOffset ← popV; codeOffset ← popV; length ← popV;
  code ← evmState (GetCode (Bytes20 a));
  copyData code memOffset codeOffset length.
Definition opExtCodeHash : exec :=
  reading (fun slot s => let '(emp, s) := StateDB.Empty (Bytes20 slot) s in if (emp : bool) then (0, s) else GetCodeHash (Bytes20 slot) s).
Definition opGasprice : exec := pushing (fun _ => FromBig (GasPrice env)).
Definition blockhash (num : Z) : Z :=
  if negb (IsUint64 num) then 0 else
  let upper := u64 (CtxNumber ctx) in
  let lower := if upper <? 257 then 0 else upper -w 256 in
  if (lower <=? Uint64 num) && (Uint64 num <? upper) then CtxGetHash ctx (Uint64 num) else 0.
Definition opBlockhash : exec := unary blockhash.
Definition opCoinbase : exec := pushing (fun _ => CtxCoinbase ctx).
Definition opTimestamp : exec := pushing (fun _ => FromBig (CtxTime ctx)).
Definition opNumber : exec := pushing (fun _ => FromBig (CtxNumber ctx)).
Definition opDifficulty : exec := pushing (fun _ => FromBig (CtxDifficulty ctx)).
Definition opGasLimit : exec := pushing (fun _ => CtxGasLimit ctx).
Definition opSelfBalance : exec :=
  c ← getContract; b ← evmState (GetBalance (self c)); _ ← pushV (FromBig b); nothing.
Definition opChainID : exec := pushing (fun _ => FromBig (rChainID rules)).
(** A nil base fee reads as zero. *)
Definition opBaseFee : exec := pushing (fun _ => FromBig (default 0 (CtxBaseFee ctx))).

(** ** Stack, memory, storage, flow *)
Definition opPop : exec := _ ← popV; nothing.
Definition opMload : exec := offset ← popV; data ← memPtr offset 32; _ ← pushV (be_decode data); nothing.
Definition opMstore : exec :=
  mStart ← popV; val ← popV;
  f ← getFrame; m ← st_lift (Set32 (Uint64 mStart) val (mem f)); _ ← setFrame (set_mem m); nothing.
Definition opMstore8 : exec :=
  off ← popV; val ← popV;
  f ← getFrame; m ← st_lift (Set8 (Uint64 off) (Uint64 val) (mem f)); _ ← setFrame (set_mem m); nothing.
Definition opSload : exec := c ← getContract; reading (GetState (self c)).
Definition opSstore : exec := loc ← popV; val ← popV; c ← getContract; _ ← evmDo (SetState (self c) loc val); nothing.
Definition jumpTo (pos : Z) : exec :=
  valid ← validJumpdest pos;
  if (valid : bool) then _ ← setFrame (set_pc (Uint64 pos)); nothing else st_err ErrInvalidJump.
Definition opJump : exec := pos ← popV; jumpTo pos.
Definition opJumpi : exec :=
  pos ← popV; cond ← popV;
  if negb (cond =? 0) then jumpTo pos else _ ← setFrame (fun f => set_pc (pc f +w 1) f); nothing.
Definition opJumpdest : exec := nothing.
Definition opPc : exec := pushing (fun v => pc v.2).
Definition opMsize : exec := pushing (fun v => u64 (Len (mem v.2))).
Definition opGas : exec := pushing (fun v => Gas (contract v.2)).
Definition opPush1 : exec :=
  _ ← setFrame (fun f => set_pc (pc f +w 1) f);
  f ← getFrame;
  _ ← pushV (if pc f <? zlen (Code (contract f)) then GetOp (pc f) (contract f) else 0); nothing.
(** The bytes after the instruction, as far as there are any; [int] wraps. *)
Definition makePush (size pushByteSize : Z) : exec :=
  f ← getFrame;
  let codeLen := zlen (Code (contract f)) in
  let next := i64 (pc f +w 1) in
  let startMin := if next <? codeLen then next else codeLen in
  let endMin := if startMin + pushByteSize <? codeLen then startMin + pushByteSize else codeLen in
  if startMin <? 0 then st_panic else
  let bytes := take (Z.to_nat (endMin - startMin)) (drop (Z.to_nat startMin) (Code (contract f))) in
  _ ← pushV (be_decode (RightPadBytes bytes pushByteSize));
  _ ← setFrame (fun f => set_pc (pc f +w size) f); nothing.
Definition makeDup (size : nat) : exec := f ← getFrame; st ← st_lift (dup size (stack f)); _ ← setFrame (set_stack st); nothing.
Definition makeSwap (size : nat) : exec := f ← getFrame; st ← st_lift (swap (size + 1) (stack f)); _ ← setFrame (set_stack st); nothing.

(** ** Logs *)
Fixpoint popTopics (n : nat) : ST V (list Hash) :=
  match n with O => mret [] | S n => t ← popV; ts ← popTopics n; mret (t :: ts) end.
Definition makeLog (size : nat) : exec :=
  mStart ← popV; mSize ← popV;
  topics ← popTopics size;
  d ← memPtr mStart mSize;
  c ← getContract;
  refused ← (match CtxExtraValidator ctx with
             | Some v => st_lift (IsLogDenied checkOrder v (Some (mkLog (self c) topics d 0 0 0)))
             | None => mret false
             end);
  if (refused : bool) then st_err ErrAddressDenied else
  _ ← evmDo (AddLog (self c) topics d); nothing.

(** ** Calls *)

(** What a call answers goes to the memory, and its success on the stack. *)
Definition finishCall (retOffset retSize : Z) (r : outcome) : exec :=
  let '(ret, returnGas, err) := r in
  _ ← pushV (match err with None => 1 | Some _ => 0 end);
  _ ← (match err with
       | None | Some ErrExecutionReverted => memSet retOffset retSize ret
       | Some _ => mret tt
       end);
  _ ← setFrame (fun f => set_contract (set_Gas (Gas (contract f) +w returnGas) (contract f)) f);
  mret ret.
Definition callTemp : ST V Z := v ← st_get; mret (callGasTemp v.1).

Definition opCall : exec :=
  _ ← popV; gas ← callTemp;
  addr ← popV; value ← popV; inOffset ← popV; inSize ← popV; retOffset ← popV; retSize ← popV;
  args ← memPtr inOffset inSize;
  let gas := if value =? 0 then gas else gas +w CallStipend in
  c ← getContract;
  r ← on_evm (Call env Run (ContractCaller c) (Bytes20 addr) args gas value);
  finishCall retOffset retSize r.
Definition opCallCode : exec :=
  _ ← popV; gas ← callTemp;
  addr ← popV; value ← popV; inOffset ← popV; inSize ← popV; retOffset ← popV; retSize ← popV;
  args ← memPtr inOffset inSize;
  let gas := if value =? 0 then gas else gas +w CallStipend in
  c ← getContract;
  r ← on_evm (CallCode env Run (ContractCaller c) (Bytes20 addr) args gas value);
  finishCall retOffset retSize r.
Definition opDelegateCall : exec :=
  _ ← popV; gas ← callTemp;
  addr ← popV; inOffset ← popV; inSize ← popV; retOffset ← popV; retSize ← popV;
  args ← memPtr inOffset inSize;
  c ← getContract;
  r ← on_evm (DelegateCall env Run (ContractCaller c) (Bytes20 addr) args gas);
  finishCall retOffset retSize r.
Definition opStaticCall : exec :=
  _ ← popV; gas ← callTemp;
  addr ← popV; inOffset ← popV; inSize ← popV; retOffset ← popV; retSize ← popV;
  args ← memPtr inOffset inSize;
  c ← getContract;
  r ← on_evm (StaticCall env Run (ContractCaller c) (Bytes20 addr) args gas);
  finishCall retOffset retSize r.

(** A creation leaves the address or zero; its bytes are only those of a revert. *)
Definition finishCreate (failed : error -> bool) (r : list byte * Address * Z * option error) : exec :=
  let '(res, addr, returnGas, suberr) := r in
  _ ← pushV (match suberr with Some x => if failed x then 0 else addr | None => addr end);
  _ ← setFrame (fun f => set_contract (set_Gas (Gas (contract f) +w returnGas) (contract f)) f);
  mret (match suberr with Some ErrExecutionReverted => res | _ => [] end).
Definition opCreate : exec :=
  value ← popV; offset ← popV; size ← popV;
  input ← memPtr offset size;
  c ← getContract;
  let gas := if rIsEIP150 rules then Gas c -w Gas c / 64 else Gas c in
  _ ← useGas gas;
  c ← getContract;
  r ← on_evm (Create env Run (ContractCaller c) input gas value);
  finishCreate (fun x => rIsHomestead rules || negb (bool_decide (x = ErrCodeStoreOutOfGas))) r.
Definition opCreate2 : exec :=
  endowment ← popV; offset ← popV; size ← popV; salt ← popV;
  input ← memPtr offset size;
  c ← getContract;
  let gas := Gas c -w Gas c / 64 in
  _ ← useGas gas;
  c ← getContract;
  r ← on_evm (Create2 env Run (ContractCaller c) input gas endowment salt);
  finishCreate (fun _ => true) r.

(** ** The end *)
Definition opReturn : exec := offset ← popV; size ← popV; memPtr offset size.
Definition opRevert : exec := offset ← popV; size ← popV; memPtr offset size.
Definition opStop : exec := nothing.
Definition opSuicide : exec :=
  beneficiary ← popV; c ← getContract;
  balance ← evmState (GetBalance (self c));
  _ ← evmDo (AddBalance (Bytes20 beneficiary) balance);
  _ ← evmState (Suicide (self c)); nothing.
End Instructions.

(** ** The tables *)
Section Tables.
Context {BC : Type} `{Backend} `{Uint256} `{Runtime} `{Cache BC Hash bitvec}.
Variable env : VMEnv.
#[local] Abbreviation V := (V (BC := BC)).

(** A table is an array of 256 operations, some of them nil. *)
Record operation : Type := mkOperation {
  execute : ST V (list byte);
  constantGas : Z;
  dynamicGas : option (Z -> ST V Z);
  minStack : Z;
  maxStack : Z;
  memorySize : option (Stack -> res (Z * bool));
  halts : bool;
  jumps : bool;
  writes : bool;
  reverts : bool;
  returns : bool;
}.
Definition JumpTable : Type := Z -> option operation.

Definition maxStackOf (pops push : Z) : Z := StackLimit + pops - push.
Definition minStackOf (pops push : Z) : Z := pops.
Definition plain (f : ST V (list byte)) (gas pops push : Z) : operation :=
  mkOperation f gas None (minStackOf pops push) (maxStackOf pops push) None false false false false false.
Definition with_gas (x : Z) (o : operation) : operation :=
  mkOperation (execute o) x (dynamicGas o) (minStack o) (maxStack o) (memorySize o) (halts o) (jumps o) (writes o) (reverts o) (returns o).
Definition with_dynamic (x : Z -> ST V Z) (o : operation) : operation :=
  mkOperation (execute o) (constantGas o) (Some x) (minStack o) (maxStack o) (memorySize o) (halts o) (jumps o) (writes o) (reverts o) (returns o).
Definition with_memory (x : Stack -> res (Z * bool)) (o : operation) : operation :=
  mkOperation (execute o) (constantGas o) (dynamicGas o) (minStack o) (maxStack o) (Some x) (halts o) (jumps o) (writes o) (reverts o) (returns o).
Definition halting (o : operation) : operation :=
  mkOperation (execute o) (constantGas o) (dynamicGas o) (minStack o) (maxStack o) (memorySize o) true (jumps o) (writes o) (reverts o) (returns o).
Definition jumping (o : operation) : operation :=
  mkOperation (execute o) (constantGas o) (dynamicGas o) (minStack o) (maxStack o) (memorySize o) (halts o) true (writes o) (reverts o) (returns o).
Definition writing (o : operation) : operation :=
  mkOperation (execute o) (constantGas o) (dynamicGas o) (minStack o) (maxStack o) (memorySize o) (halts o) (jumps o) true (reverts o) (returns o).
Definition reverting (o : operation) : operation :=
  mkOperation (execute o) (constantGas o) (dynamicGas o) (minStack o) (maxStack o) (memorySize o) (halts o) (jumps o) (writes o) true (returns o).
Definition returning (o : operation) : operation :=
  mkOperation (execute o) (constantGas o) (dynamicGas o) (minStack o) (maxStack o) (memorySize o) (halts o) (jumps o) (writes o) (reverts o) true.

(** [instructionSet[op] = ...] and a change of the operation that is there. *)
Definition define (op : Z) (o : operation) (jt : JumpTable) : JumpTable := fun n => if n =? op then Some o else jt n.
Definition change (op : Z) (f : operation -> operation) (jt : JumpTable) : JumpTable := fun n => if n =? op then f <$> jt n else jt n.
Definition table (l : list (Z * operation)) : JumpTable := fun n => snd <$> List.find (fun p => p.1 =? n) l.

Variable Run : Contract -> list byte -> bool -> ST (EVM BC) (list byte * option error * Contract).

(** [PUSH2] to [PUSH32], [DUP1] to [DUP16], [SWAP1] to [SWAP16], [LOG0] to [LOG4]. *)
Definition pushes : list (Z * operation) :=
  (fun n => (Op.PUSH1 + Z.of_nat n - 1, plain (makePush (Z.of_nat n) (Z.of_nat n)) GasFastestStep 0 1)) <$> seq 2 31.
Definition dups : list (Z * operation) :=
  (fun n => (Op.DUP1 + Z.of_nat n - 1, plain (makeDup n) GasFastestStep (Z.of_nat n) (Z.of_nat n + 1))) <$> seq 1 16.
Definition swaps : list (Z * operation) :=
  (fun n => (Op.SWAP1 + Z.of_nat n - 1, plain (makeSwap n) GasFastestStep (Z.of_nat n + 1) (Z.of_nat n + 1))) <$> seq 1 16.
Definition logOps : list (Z * operation) :=
  (fun n => (Op.LOG0 + Z.of_nat n, writing (with_memory memoryLog (with_dynamic (makeGasLog (Z.of_nat n)) (plain (makeLog env n) 0 (Z.of_nat n + 2) 0))))) <$> seq 0 5.

Definition newFrontierInstructionSet : JumpTable := table ([
  (Op.STOP, halting (plain opStop 0 0 0));
  (Op.ADD, plain opAdd GasFastestStep 2 1);
  (Op.MUL, plain opMul GasFastStep 2 1);
  (Op.SUB, plain opSub GasFastestStep 2 1);
  (Op.DIV, plain opDiv GasFastStep 2 1);
  (Op.SDIV, plain opSdiv GasFastStep 2 1);
  (Op.MOD, plain opMod GasFastStep 2 1);
  (Op.SMOD, plain opSmod GasFastStep 2 1);
  (Op.ADDMOD, plain opAddmod GasMidStep 3 1);
  (Op.MULMOD, plain opMulmod GasMidStep 3 1);
  (Op.EXP, with_dynamic gasExpFrontier (plain opExp 0 2 1));
  (Op.SIGNEXTEND, plain opSignExtend GasFastStep 2 1);
  (Op.LT, plain opLt GasFastestStep 2 1);
  (Op.GT, plain opGt GasFastestStep 2 1);
  (Op.SLT, plain opSlt GasFastestStep 2 1);
  (Op.SGT, plain opSgt GasFastestStep 2 1);
  (Op.EQ, plain opEq GasFastestStep 2 1);
  (Op.ISZERO, plain opIszero GasFastestStep 1 1);
  (Op.AND, plain opAnd GasFastestStep 2 1);
  (Op.XOR, plain opXor GasFastestStep 2 1);
  (Op.OR, plain opOr GasFastestStep 2 1);
  (Op.NOT, plain opNot GasFastestStep 1 1);
  (Op.BYTE, plain opByte GasFastestStep 2 1);
  (Op.SHA3, with_memory memorySha3 (with_dynamic gasSha3 (plain (opSha3 env) Sha3Gas 2 1)));
  (Op.ADDRESS, plain opAddress GasQuickStep 0 1);
  (Op.BALANCE, plain opBalance BalanceGasFrontier 1 1);
  (Op.ORIGIN, plain (opOrigin env) GasQuickStep 0 1);
  (Op.CALLER, plain opCaller GasQuickStep 0 1);
  (Op.CALLVALUE, plain opCallValue GasQuickStep 0 1);
  (Op.CALLDATALOAD, plain opCallDataLoad GasFastestStep 1 1);
  (Op.CALLDATASIZE, plain opCallDataSize GasQuickStep 0 1);
  (Op.CALLDATACOPY, with_memory memoryCallDataCopy (with_dynamic gasCallDataCopy (plain opCallDataCopy GasFastestStep 3 0)));
  (Op.CODESIZE, plain opCodeSize GasQuickStep 0 1);
  (Op.CODECOPY, with_memory memoryCodeCopy (with_dynamic gasCodeCopy (plain opCodeCopy GasFastestStep 3 0)));
  (Op.GASPRICE, plain (opGasprice env) GasQuickStep 0 1);
  (Op.EXTCODESIZE, plain opExtCodeSize ExtcodeSizeGasFrontier 1 1);
  (Op.EXTCODECOPY, with_memory memoryExtCodeCopy (with_dynamic gasExtCodeCopy (plain opExtCodeCopy ExtcodeCopyBaseFrontier 4 0)));
  (Op.BLOCKHASH, plain (opBlockhash env) GasExtStep 1 1);
  (Op.COINBASE, plain (opCoinbase env) GasQuickStep 0 1);
  (Op.TIMESTAMP, plain (opTimestamp env) GasQuickStep 0 1);
  (Op.NUMBER, plain (opNumber env) GasQuickStep 0 1);
  (Op.DIFFICULTY, plain (opDifficulty env) GasQuickStep 0 1);
  (Op.GASLIMIT, plain (opGasLimit env) GasQuickStep 0 1);
  (Op.POP, plain opPop GasQuickStep 1 0);
  (Op.MLOAD, with_memory memoryMLoad (with_dynamic pureMemoryGascost (plain opMload GasFastestStep 1 1)));
  (Op.MSTORE, with_memory memoryMStore (with_dynamic pureMemoryGascost (plain opMstore GasFastestStep 2 0)));
  (Op.MSTORE8, with_memory memoryMStore8 (with_dynamic pureMemoryGascost (plain opMstore8 GasFastestStep 2 0)));
  (Op.SLOAD, plain opSload SloadGasFrontier 1 1);
  (Op.SSTORE, writing (with_dynamic (gasSStore env) (plain opSstore 0 2 0)));
  (Op.JUMP, jumping (plain opJump GasMidStep 1 0));
  (Op.JUMPI, jumping (plain opJumpi GasSlowStep 2 0));
  (Op.PC, plain opPc GasQuickStep 0 1);
  (Op.MSIZE, plain opMsize GasQuickStep 0 1);
  (Op.GAS, plain opGas GasQuickStep 0 1);
  (Op.JUMPDEST, plain opJumpdest JumpdestGas 0 0);
  (Op.PUSH1, plain opPush1 GasFastestStep 0 1)] ++ pushes ++ dups ++ swaps ++ logOps ++ [
  (Op.CREATE, returning (writing (with_memory memoryCreate (with_dynamic pureMemoryGascost (plain (opCreate env Run) CreateGas 3 1)))));
  (Op.CALL, returning (with_memory memoryCall (with_dynamic (gasCall env) (plain (opCall env Run) CallGasFrontier 7 1))));
  (Op.CALLCODE, returning (with_memory memoryCall (with_dynamic (gasCallCode env) (plain (opCallCode env Run) CallGasFrontier 7 1))));
  (Op.RETURN, halting (with_memory memoryReturn (with_dynamic pureMemoryGascost (plain opReturn 0 2 0))));
  (Op.SELFDESTRUCT, writing (halting (with_dynamic (gasSelfdestruct env) (plain opSuicide 0 1 0))))]).

Definition newHomesteadInstructionSet : JumpTable :=
  define Op.DELEGATECALL (returning (with_memory memoryDelegateCall (with_dynamic (gasDelegateCall env) (plain (opDelegateCall env Run) CallGasFrontier 6 1))))
  newFrontierInstructionSet.
Definition newTangerineWhistleInstructionSet : JumpTable :=
  change Op.BALANCE (with_gas BalanceGasEIP150) (change Op.EXTCODESIZE (with_gas ExtcodeSizeGasEIP150)
  (change Op.SLOAD (with_gas SloadGasEIP150) (change Op.EXTCODECOPY (with_gas ExtcodeCopyBaseEIP150)
  (change Op.CALL (with_gas CallGasEIP150) (change Op.CALLCODE (with_gas CallGasEIP150)
  (change Op.DELEGATECALL (with_gas CallGasEIP150) newHomesteadInstructionSet)))))).
Definition newSpuriousDragonInstructionSet : JumpTable :=
  change Op.EXP (with_dynamic gasExpEIP158) newTangerineWhistleInstructionSet.
Definition newByzantiumInstructionSet : JumpTable :=
  define Op.STATICCALL (returning (with_memory memoryStaticCall (with_dynamic (gasStaticCall env) (plain (opStaticCall env Run) CallGasEIP150 6 1))))
  (define Op.RETURNDATASIZE (plain opReturnDataSize GasQuickStep 0 1)
  (define Op.RETURNDATACOPY (with_memory memoryReturnDataCopy (with_dynamic gasReturnDataCopy (plain opReturnDataCopy GasFastestStep 3 0)))
  (define Op.REVERT (returning (reverting (with_memory memoryRevert (with_dynamic pureMemoryGascost (plain opRevert 0 2 0)))))
  newSpuriousDragonInstructionSet))).
Definition newConstantinopleInstructionSet : JumpTable :=
  define Op.SHL (plain opSHL GasFastestStep 2 1)
  (define Op.SHR (plain opSHR GasFastestStep 2 1)
  (define Op.SAR (plain opSAR GasFastestStep 2 1)
  (define Op.EXTCODEHASH (plain opExtCodeHash ExtcodeHashGasConstantinople 1 1)
  (define Op.CREATE2 (returning (writing (with_memory memoryCreate2 (with_dynamic gasCreate2 (plain (opCreate2 env Run) Create2Gas 4 1)))))
  newByzantiumInstructionSet)))).

Definition enable1344 : JumpTable -> JumpTable := define Op.CHAINID (plain (opChainID env) GasQuickStep 0 1).
Definition enable1884 (jt : JumpTable) : JumpTable :=
  define Op.SELFBALANCE (plain opSelfBalance GasFastStep 0 1)
  (change Op.EXTCODEHASH (with_gas ExtcodeHashGasEIP1884) (change Op.BALANCE (with_gas BalanceGasEIP1884) (change Op.SLOAD (with_gas SloadGasEIP1884) jt))).
Definition enable2200 (jt : JumpTable) : JumpTable :=
  change Op.SSTORE (with_dynamic gasSStoreEIP2200) (change Op.SLOAD (with_gas SloadGasEIP2200) jt).
Definition enable2929 (jt : JumpTable) : JumpTable :=
  change Op.SELFDESTRUCT (fun o => with_dynamic gasSelfdestructEIP2929 (with_gas SelfdestructGasEIP150 o))
  (change Op.DELEGATECALL (fun o => with_dynamic (gasDelegateCallEIP2929 env) (with_gas WarmStorageReadCostEIP2929 o))
  (change Op.STATICCALL (fun o => with_dynamic (gasStaticCallEIP2929 env) (with_gas WarmStorageReadCostEIP2929 o))
  (change Op.CALLCODE (fun o => with_dynamic (gasCallCodeEIP2929 env) (with_gas WarmStorageReadCostEIP2929 o))
  (change Op.CALL (fun o => with_dynamic (gasCallEIP2929 env) (with_gas WarmStorageReadCostEIP2929 o))
  (change Op.BALANCE (fun o => with_dynamic gasEip2929AccountCheck (with_gas WarmStorageReadCostEIP2929 o))
  (change Op.EXTCODEHASH (fun o => with_dynamic gasEip2929AccountCheck (with_gas WarmStorageReadCostEIP2929 o))
  (change Op.EXTCODESIZE (fun o => with_dynamic gasEip2929AccountCheck (with_gas WarmStorageReadCostEIP2929 o))
  (change Op.EXTCODECOPY (fun o => with_dynamic gasExtCodeCopyEIP2929 (with_gas WarmStorageReadCostEIP2929 o))
  (change Op.SLOAD (fun o => with_dynamic gasSLoadEIP2929 (with_gas 0 o))
  (change Op.SSTORE (with_dynamic gasSStoreEIP2929) jt)))))))))).
Definition enable3529 (jt : JumpTable) : JumpTable :=
  change Op.SELFDESTRUCT (with_dynamic gasSelfdestructEIP3529) (change Op.SSTORE (with_dynamic gasSStoreEIP3529) jt).
Definition enable3198 : JumpTable -> JumpTable := define Op.BASEFEE (plain (opBaseFee env) GasQuickStep 0 1).

Definition newIstanbulInstructionSet : JumpTable := enable2200 (enable1884 (enable1344 newConstantinopleInstructionSet)).
Definition newBerlinInstructionSet : JumpTable := enable2929 newIstanbulInstructionSet.
Definition newLondonInstructionSet : JumpTable := enable3198 (enable3529 newBerlinInstructionSet).

(** The table that [NewEVMInterpreter] takes for the rules of a block. *)
Definition instructionSet : JumpTable :=
  let rules := chainRules env in
  if rIsLondon rules then newLondonInstructionSet
  else if rIsBerlin rules then newBerlinInstructionSet
  else if rIsIstanbul rules then newIstanbulInstructionSet
  else if rIsConstantinople rules then newConstantinopleInstructionSet
  else if rIsByzantium rules then newByzantiumInstructionSet
  else if rIsEIP158 rules then newSpuriousDragonInstructionSet
  else if rIsEIP150 rules then newTangerineWhistleInstructionSet
  else if rIsHomestead rules then newHomesteadInstructionSet
  else newFrontierInstructionSet.
End Tables.

(** ** The interpreter *)
Section Interpreter.
Context {BC : Type} `{Backend} `{Uint256} `{Runtime} `{Cache BC Hash bitvec}.
Variable env : VMEnv.
#[local] Abbreviation V := (V (BC := BC)).
#[local] Abbreviation E := (EVM BC).

(** A round goes on, or it is the end of the run. *)
Inductive ending : Type := goOn | done_ (ret : list byte) (err : option error).

Definition checkStack (o : operation (BC := BC)) (sLen : Z) : option error :=
  if sLen <? minStack o then Some (ErrStackUnderflow sLen (minStack o))
  else if maxStack o <? sLen then Some (ErrStackOverflow sLen (maxStack o)) else None.
(** The restriction of calls that must not write. *)
Definition forbidden (o : operation (BC := BC)) (op : Z) : ST V bool :=
  v ← st_get;
  if readOnly v.1 && rIsByzantium (chainRules env) then
    if writes o then mret true
    else if op =? Op.CALL then x ← BackV 2; mret (negb (Sign x =? 0)) else mret false
  else mret false.
(** The memory an operation needs, in whole words; [None] on overflow. *)
Definition requiredMemory (o : operation (BC := BC)) : ST V (option Z) :=
  match memorySize o with
  | None => mret (Some 0)
  | Some size =>
      f ← getFrame;
      r ← (match size (stack f) with Ok r => mret r | _ => st_panic end);
      if (r.2 : bool) then mret None else
      let '(words, overflow) := SafeMul (toWordSize r.1) 32 in
      mret (if (overflow : bool) then None else Some words)
  end.
(** Does the dynamic gas suffice? *)
Definition payDynamic (o : operation (BC := BC)) (memorySize : Z) : ST V bool :=
  match dynamicGas o with
  | None => mret true
  | Some f => r ← st_catch (f memorySize); match r with Ok cost => useGas cost | _ => mret false end
  end.

(** The instruction itself, and what follows from its answer. *)
Definition perform (o : operation (BC := BC)) : ST V ending :=
  r ← st_catch (execute o);
  let res := match r with Ok res => res | _ => [] end in
  _ ← (if returns o then on_evm (st_modify (set_returnData res)) else mret tt);
  match r with
  | Err ErrOutOfFuel => st_err ErrOutOfFuel
  | Err err => mret (done_ [] (Some err))
  | _ =>
      if reverts o then mret (done_ res (Some ErrExecutionReverted))
      else if halts o then mret (done_ res None)
      else _ ← (if jumps o then mret tt else setFrame (fun f => set_pc (pc f +w 1) f)); mret goOn
  end.

(** A round of the loop. *)
Definition step (jt : JumpTable (BC := BC)) : ST V ending :=
  f ← getFrame;
  let op := GetOp (pc f) (contract f) in
  match jt op with
  | None => mret (done_ [] (Some (ErrInvalidOpCode op)))
  | Some o =>
      match checkStack o (zlen (stack f)) with
      | Some err => mret (done_ [] (Some err))
      | None =>
          no ← forbidden o op;
          if (no : bool) then mret (done_ [] (Some ErrWriteProtection)) else
          paid ← useGas (constantGas o);
          if negb paid then mret (done_ [] (Some ErrOutOfGas)) else
          size ← requiredMemory o;
          match size with
          | None => mret (done_ [] (Some ErrGasUintOverflow))
          | Some size =>
              paid ← payDynamic o size;
              if negb paid then mret (done_ [] (Some ErrOutOfGas)) else
              _ ← (if 0 <? size then setFrame (fun f => set_mem (Resize size (mem f)) f) else mret tt);
              perform o
          end
      end
  end.

(** The loop; the flag of [Cancel] is read every thousand rounds. *)
Definition stopped (steps : Z) : bool := (steps mod 1000 =? 0) && aborted env steps.

(** [Run]: [enter] sets up the frame, [leave] undoes the changes of the deferred functions. *)
Definition enter (c : Contract) (input : list byte) : Frame := mkFrame 0 [] NewMemory (set_Input input c).
Definition Run (loop : Frame -> ST E (list byte * option error * Contract)) (c : Contract) (input : list byte) (static : bool) : ST E (list byte * option error * Contract) :=
  e ← st_get;
  let switch := static && negb (readOnly e) in
  _ ← st_modify (fun e => set_returnData [] (if switch then set_readOnly true (set_depth (depth e + 1) e) else set_depth (depth e + 1) e));
  r ← (match Code c with
       | [] => mret ([], None, c)
       | _ => loop (enter c input)
       end);
  _ ← st_modify (fun e => let e := set_depth (depth e - 1) e in if switch then set_readOnly false e else e);
  mret r.

(** One unit of fuel per round; calls made in a round have what is left. *)
Fixpoint loop (fuel : nat) (steps : Z) (f : Frame) : ST E (list byte * option error * Contract) :=
  match fuel with
  | O => st_err ErrOutOfFuel
  | S fuel =>
      let steps := steps + 1 in
      if stopped steps then mret ([], None, contract f) else
      fun e =>
        match step (instructionSet env (Run (loop fuel 0))) (e, f) with
        | (Ok goOn, (e, f)) => loop fuel steps f e
        | (Ok (done_ ret err), (e, f)) => (Ok (ret, err, contract f), e)
        | (Err x, (e, _)) => (Err x, e)
        | (Panic, (e, _)) => (Panic, e)
        end
  end.
Definition RunWith (fuel : nat) : Contract -> list byte -> bool -> ST E (list byte * option error * Contract) := Run (loop fuel 0).
End Interpreter.
