(* ===== verification/VMFacts.v ===== *)
(** * What an instruction does to the gas and to the state

    Gas is only spent, calls get less than the caller has, and whatever happens
    to the account state is a run of its operations ([StateRevert]). *)

From S2P Require Import StateDB StateRevert Prelude Hoare Params Blacklist StateTransition Processor VMCode VMState VMRun.

Lemma run_trans `{Backend} s1 s2 s3 : run s1 s2 -> run s2 s3 -> run s1 s3.
Proof. induction 1; intros; [done|eapply run_op; eauto|eapply run_call; eauto]. Qed.
Lemma run_one `{Backend} o s s' : do_op o s = Ok s' -> run s s'.
Proof. intros Ho. eapply run_op; [done|constructor]. Qed.

(** An answer in range, whenever there is one. *)
Definition yields {S A} (Q : A -> Prop) (m : ST S A) : Prop := forall s a s', m s = (Ok a, s') -> Q a.
Lemma yields_ret {S A} (Q : A -> Prop) (a : A) : Q a -> yields (S:=S) Q (mret a).
Proof. intros HQ s a' s'. cbn. by intros [= <- <-]. Qed.
Lemma yields_bind {S A B} (P : A -> Prop) (Q : B -> Prop) (m : ST S A) (f : A -> ST S B) :
  yields P m -> (forall a, P a -> yields Q (f a)) -> yields Q (m ≫= f).
Proof. intros Hm Hf s b s' Hr. apply st_bind_ok in Hr as (a & s1 & Ha & Hb). eapply Hf; [by eapply Hm|done]. Qed.
Lemma yields_any {S A} (m : ST S A) : yields (fun _ => True) m.
Proof. by intros s a s'. Qed.
Lemma yields_then {S A B} (Q : B -> Prop) (m : ST S A) (f : A -> ST S B) : (forall a, yields Q (f a)) -> yields Q (m ≫= f).
Proof. intros Hf. eapply yields_bind; [apply yields_any|]. intros a _. apply Hf. Qed.
Lemma yields_err {S A} (Q : A -> Prop) e : yields (S:=S) Q (st_err e).
Proof. intros s a s'. cbn. done. Qed.
Lemma yields_panic {S A} (Q : A -> Prop) : yields (S:=S) Q st_panic.
Proof. intros s a s'. cbn. done. Qed.
Lemma yields_weaken {S A} (P Q : A -> Prop) (m : ST S A) : (forall a, P a -> Q a) -> yields P m -> yields Q m.
Proof. intros Hpq Hm s a s' Hr. apply Hpq. by eapply Hm. Qed.

(** What an instruction leaves alone, and what a price leaves alone. *)
Section Observed.
Context {BC : Type}.
Implicit Types (v : VMState.V (BC := BC)).
Definition db v : StateDB := StateDB_ v.1.
Definition gasOf v : Z := Gas (contract v.2).
Definition purse v : Z * Z * (Z * Z) := (gasOf v, callGasTemp v.1, (Len (mem v.2), lastGasCost (mem v.2))).
Definition bill v : Z * Z * (Stack * list byte) := (gasOf v, callGasTemp v.1, (stack v.2, store (mem v.2))).
End Observed.

(** Nothing of the account state is observed. *)
Class Private {BC X} (obs : VMState.V (BC := BC) -> X) : Prop := obs_db : forall e f s, obs (set_StateDB s e, f) = obs (e, f).
#[export] Instance purse_private {BC} : Private (purse (BC := BC)). Proof. done. Qed.
#[export] Instance bill_private {BC} : Private (bill (BC := BC)). Proof. done. Qed.

Ltac yields_step :=
  match goal with
  | |- yields _ (mbind _ _) => apply yields_then; intros ?
  | |- yields _ (match ?x with _ => _ end) => destruct x
  | |- yields _ (mret _) => apply yields_ret
  | |- yields _ (st_err _) => apply yields_err
  end.

Section Tame.
Context {BC : Type} `{Backend} {X : Type} (obs : VMState.V (BC := BC) -> X) {Hpriv : Private obs}.
Abbreviation V := (V (BC := BC)).
Abbreviation E := (EVM BC).
Implicit Types (v : V) (e : E).

(** Runs of state operations that are not out of fuel and change nothing that is observed. *)
Definition tame {A} (m : ST V A) : Prop := forall v, run (db v) (db (m v).2) /\ (m v).1 <> Err ErrOutOfFuel /\ obs (m v).2 = obs v.

Lemma tame_ret {A} (a : A) : tame (mret a).
Proof. intros v. split; [constructor|done]. Qed.
Lemma tame_get : tame st_get.
Proof. intros v. split; [constructor|done]. Qed.
Lemma tame_bind {A B} (m : ST V A) (f : A -> ST V B) : tame m -> (forall a, tame (f a)) -> tame (m ≫= f).
Proof.
  intros Hm Hf v. specialize (Hm v). unfold mbind, st_bind. destruct (m v) as [[a|x|] v1]; simpl in *; [|intuition congruence..].
  destruct (Hf a v1) as (? & ? & ?), Hm as (? & _ & ?). repeat split; [by eapply run_trans|done|congruence].
Qed.
Lemma tame_err {A} x : x <> ErrOutOfFuel -> tame (A:=A) (st_err x).
Proof. intros Hx v. split; [constructor|]. cbn. split; congruence. Qed.
Lemma tame_panic {A} : tame (A:=A) st_panic.
Proof. intros v. split; [constructor|done]. Qed.
Lemma tame_lift {A} (r : res A) : r <> Err ErrOutOfFuel -> tame (st_lift r).
Proof. intros Hr v. split; [constructor|]. cbn. split; congruence. Qed.
Lemma tame_if {A} (b : bool) (m1 m2 : ST V A) : tame m1 -> tame m2 -> tame (if b then m1 else m2).
Proof. by destruct b. Qed.
Lemma tame_frame g : (forall e f, obs (e, g f) = obs (e, f)) -> tame (setFrame g).
Proof. intros Hg [e f]. split; [constructor|]. split; [done|apply Hg]. Qed.
Lemma tame_getFrame : tame getFrame.
Proof. intros v. split; [constructor|done]. Qed.
Lemma tame_getContract : tame getContract.
Proof. intros v. split; [constructor|done]. Qed.

(** On the account state. *)
Lemma tame_evmState {A} (g : StateDB -> A * StateDB) (o : op) : (forall s, do_op o s = Ok (g s).2) -> tame (evmState g).
Proof.
  intros Hg [e f]. unfold evmState, on_evm, onState, db. cbn. specialize (Hg (StateDB_ e)). destruct (g (StateDB_ e)) as [a s]. cbn.
  repeat split; [by apply (run_one o)|done|apply Hpriv].
Qed.
Lemma tame_evmDo g (o : op) : (forall s, do_op o s = Ok (g s)) -> tame (evmDo g).
Proof. intros Hg [e f]. split; [apply (run_one o), Hg|]. split; [done|apply Hpriv]. Qed.
Lemma tame_evmTry g (o : op) : (forall s, do_op o s = g s) -> (forall s x, g s <> Err x) -> tame (evmTry g).
Proof.
  intros Hg Hx [e f]. unfold evmTry, on_evm, tryState, db. specialize (Hg (StateDB_ e)). specialize (Hx (StateDB_ e)).
  cbn. unfold mbind, st_bind, st_lift. cbn. destruct (g (StateDB_ e)) as [s|x|] eqn:Eg; [|by destruct (Hx x)|]; cbn; (split; [|split]); try done; [by apply (run_one o)|constructor].
Qed.
End Tame.

Create HintDb tame.
#[export] Hint Resolve tame_ret tame_get tame_panic tame_getFrame tame_getContract tame_if : tame.

Ltac not_fuel := intros; repeat case_match; done.
Ltac read_tac := intros; simpl; repeat case_match; simpl in *; simplify_eq; done.

Section Primitives.
Context {BC : Type} `{Backend} {X : Type} (obs : VMState.V (BC := BC) -> X) {Hpriv : Private obs}.
Abbreviation V := (V (BC := BC)).

Lemma pop_fuel st : pop st <> Err ErrOutOfFuel. Proof. unfold pop. not_fuel. Qed.
Lemma Back_fuel n st : Back n st <> Err ErrOutOfFuel. Proof. unfold Back. not_fuel. Qed.
Lemma dup_fuel n st : dup n st <> Err ErrOutOfFuel. Proof. unfold dup, Back. by destruct (st !! _). Qed.
Lemma swap_fuel n st : swap n st <> Err ErrOutOfFuel. Proof. unfold swap, Back. destruct (st !! 0%nat); [|done]. by destruct (st !! _). Qed.
Lemma getData_fuel d x y : getData d x y <> Err ErrOutOfFuel. Proof. unfold getData. not_fuel. Qed.
Lemma Set_fuel x y d m : Set_ x y d m <> Err ErrOutOfFuel. Proof. unfold Set_. not_fuel. Qed.
Lemma Set32_fuel x y m : Set32 x y m <> Err ErrOutOfFuel. Proof. unfold Set32. not_fuel. Qed.
Lemma Set8_fuel x y m : Set8 x y m <> Err ErrOutOfFuel. Proof. unfold Set8. not_fuel. Qed.
Lemma GetPtr_fuel x y m : GetPtr x y m <> Err ErrOutOfFuel. Proof. unfold GetPtr. not_fuel. Qed.
Lemma Contains_fuel al a slot : Contains al a slot <> Err ErrOutOfFuel. Proof. unfold Contains. not_fuel. Qed.
Lemma codeSegment_fuel bits x : codeSegment bits x <> Err ErrOutOfFuel. Proof. unfold codeSegment. not_fuel. Qed.
Lemma codeBitmap_fuel code : codeBitmap code <> Err ErrOutOfFuel.
Proof. by destruct (codeBitmap_spec code) as (bits & -> & _). Qed.
Lemma checkTopics_fuel b ts cs : checkTopics b ts cs <> Err ErrOutOfFuel.
Proof. induction cs as [|[i c] cs IH]; simpl; [done|]. not_fuel. Qed.
Lemma IsLogDenied_fuel order b l : IsLogDenied order b l <> Err ErrOutOfFuel.
Proof. unfold IsLogDenied. repeat case_match; try done; apply checkTopics_fuel. Qed.

Lemma tame_BackV n : tame obs (BackV n).
Proof. apply tame_bind; [apply tame_getFrame|]. intros f. apply tame_lift, Back_fuel. Qed.

Lemma tame_GetBalance a : tame obs (evmState (GetBalance a)). Proof. apply (tame_evmState obs _ (ORead a)). unfold GetBalance. read_tac. Qed.
Lemma tame_GetCodeHash a : tame obs (evmState (GetCodeHash a)). Proof. apply (tame_evmState obs _ (ORead a)). unfold GetCodeHash. read_tac. Qed.
Lemma tame_Exist a : tame obs (evmState (Exist a)). Proof. apply (tame_evmState obs _ (ORead a)). unfold Exist. read_tac. Qed.
Lemma tame_Empty a : tame obs (evmState (StateDB.Empty a)). Proof. apply (tame_evmState obs _ (ORead a)). unfold StateDB.Empty. read_tac. Qed.
Lemma tame_HasSuicided a : tame obs (evmState (HasSuicided a)). Proof. apply (tame_evmState obs _ (ORead a)). unfold HasSuicided. read_tac. Qed.
Lemma tame_GetCode a : tame obs (evmState (GetCode a)). Proof. by apply (tame_evmState obs _ (OGetCode a)). Qed.
Lemma tame_GetState a k : tame obs (evmState (GetState a k)). Proof. by apply (tame_evmState obs _ (OGetState a k)). Qed.
Lemma tame_GetCommittedState a k : tame obs (evmState (GetCommittedState a k)). Proof. by apply (tame_evmState obs _ (OGetCommittedState a k)). Qed.
Lemma tame_Suicide a : tame obs (evmState (Suicide a)). Proof. by apply (tame_evmState obs _ (OSuicide a)). Qed.
Lemma tame_AddBalance a x : tame obs (evmDo (AddBalance a x)). Proof. by apply (tame_evmDo obs _ (OAddBalance a x)). Qed.
Lemma tame_SetState a k x : tame obs (evmDo (SetState a k x)). Proof. by apply (tame_evmDo obs _ (OSetState a k x)). Qed.
Lemma tame_AddRefund x : tame obs (evmDo (AddRefund x)). Proof. by apply (tame_evmDo obs _ (OAddRefund x)). Qed.
Lemma tame_AddLog a ts d : tame obs (evmDo (AddLog a ts d)). Proof. by apply (tame_evmDo obs _ (OAddLog a ts d)). Qed.
Lemma tame_AddPreimage h p : tame obs (evmDo (AddPreimage h p)). Proof. by apply (tame_evmDo obs _ (OAddPreimage h p)). Qed.
Lemma tame_AddAddress a : tame obs (evmDo (AddAddressToAccessList a)). Proof. by apply (tame_evmDo obs _ (OAddAddress a)). Qed.
Lemma tame_SubRefund x : tame obs (evmTry (SubRefund x)).
Proof. apply (tame_evmTry obs _ (OSubRefund x)); [done|]. unfold SubRefund. not_fuel. Qed.
Lemma tame_AddSlot a slot : tame obs (evmTry (AddSlotToAccessList a slot)).
Proof.
  apply (tame_evmTry obs _ (OAddSlot a slot)); [done|]. intros s x. unfold AddSlotToAccessList. 
  destruct (al_AddSlot a slot (acl s)) as [[[b1 b2] al]|y|] eqn:E; [by destruct b1, b2| |done]. exfalso. unfold al_AddSlot in E. repeat case_match; done.
Qed.
End Primitives.
#[export] Hint Resolve tame_BackV tame_GetBalance tame_GetCodeHash tame_Exist tame_Empty tame_HasSuicided tame_GetCode
  tame_GetState tame_GetCommittedState tame_Suicide tame_AddBalance tame_SetState tame_AddRefund tame_AddLog tame_AddPreimage tame_AddAddress
  tame_SubRefund tame_AddSlot pop_fuel Back_fuel dup_fuel swap_fuel getData_fuel Set_fuel Set32_fuel Set8_fuel GetPtr_fuel Contains_fuel
  codeSegment_fuel codeBitmap_fuel IsLogDenied_fuel : tame.

(** One step into an instruction. *)
Ltac tame_step :=
  match goal with
  | |- tame _ (mbind _ _) => apply tame_bind; [|intros ?]
  | |- tame _ (match ?x with _ => _ end) => destruct x
  | |- tame _ (st_lift _) => apply tame_lift
  | |- tame _ (st_err _) => apply tame_err; discriminate
  | |- tame _ (setFrame _) => apply tame_frame; reflexivity
  | |- tame _ st_get => apply tame_get
  | |- _ => solve [eauto with tame typeclass_instances]
  end.
Ltac tame_tac := repeat tame_step.

(** ** Instructions *)
Section Instructions.
Context {BC : Type} `{Backend} `{Uint256} `{Runtime} `{Cache BC Hash bitvec}.
Variable env : VMEnv.
Abbreviation V := (V (BC := BC)).

Lemma tame_pushV x : tame (purse (BC:=BC)) (pushV x). Proof. by apply tame_frame. Qed.
Lemma tame_popV : tame (purse (BC:=BC)) popV.
Proof. apply tame_bind; [apply tame_getFrame|]. intros f. apply tame_bind; [apply tame_lift, pop_fuel|]. intros r. apply tame_bind; [by apply tame_frame|]. intros _. apply tame_ret. Qed.
#[local] Hint Resolve tame_pushV tame_popV : tame.
Lemma tame_unary f : tame (purse (BC:=BC)) (unary f). Proof. unfold unary, nothing. tame_tac. Qed.
Lemma tame_binary f : tame (purse (BC:=BC)) (binary f). Proof. unfold binary, nothing. tame_tac. Qed.
Lemma tame_ternary f : tame (purse (BC:=BC)) (ternary f). Proof. unfold ternary, nothing. tame_tac. Qed.
Lemma tame_pushing f : tame (purse (BC:=BC)) (pushing f). Proof. unfold pushing, nothing. tame_tac. Qed.
Lemma tame_reading f : (forall x, tame (purse (BC:=BC)) (evmState (f x))) -> tame (purse (BC:=BC)) (reading f).
Proof. intros Hf. unfold reading, nothing. apply tame_bind; [apply tame_popV|]. intros x. apply tame_bind; [apply Hf|]. intros y. tame_tac. Qed.
Lemma tame_read {A} (f : StateDB -> A * StateDB) a : (forall s, (f s).2 = (getStateObject a s).2) -> tame (purse (BC:=BC)) (evmState f).
Proof. intros Hf. apply (tame_evmState _ _ (ORead a)). intros s. by rewrite Hf. Qed.

Lemma tame_memPtr x y : tame (purse (BC:=BC)) (memPtr x y). Proof. unfold memPtr. tame_tac. Qed.

(** Writes keep the length of the memory. *)
Definition writes_in (W : Memory -> res Memory) : Prop :=
  forall m, W m <> Err ErrOutOfFuel /\ forall m', W m = Ok m' -> (Len m', lastGasCost m') = (Len m, lastGasCost m).
Lemma tame_write (W : Memory -> res Memory) : writes_in W ->
  tame (purse (BC:=BC)) (f ← getFrame; m ← st_lift (W (mem f)); setFrame (set_mem m)).
Proof.
  intros HW [e f]. destruct (HW (mem f)) as [Hf Hl]. unfold getFrame, setFrame, st_lift, mbind, st_bind. cbn. destruct (W (mem f)) as [m|x|]; cbn; (split; [apply run_done|]; split; try done).
  - unfold purse. simpl. by rewrite (Hl m eq_refl).
  - congruence.
Qed.
Lemma splice_length off (bytes l : list byte) : 0 <= off -> off + zlen bytes <= zlen l -> zlen (splice off bytes l) = zlen l.
Proof. unfold splice, zlen. intros Ho Hl. rewrite !length_app, length_take, length_drop. lia. Qed.
Lemma Set_in x y d : 0 <= x < 2 ^ 64 -> y < 2 ^ 64 -> writes_in (Set_ x y d).
Proof.
  intros Hx Hy m. split; [apply Set_fuel|]. unfold Set_. intros m'. case_if; [by intros [= <-]|]. destruct (_ || _) eqn:Eo; [done|]. intros [= <-].
  apply orb_false_iff in Eo as [E1 E2]. unfold Len in *. cbn. f_equal. apply splice_length; [lia|]. revert E1 E2. unfold zlen, u64. rewrite length_take. lia.
Qed.
Lemma Set32_in x y : 0 <= x < 2 ^ 64 -> writes_in (Set32 x y).
Proof.
  intros Hx m. split; [apply Set32_fuel|]. unfold Set32. pose proof (length_be_encode 32 y) as Hd. revert Hd. generalize (be_encode 32 y). intros d Hd. intros m'. destruct (_ || _) eqn:Eo; [done|]. intros [= <-].
  apply orb_false_iff in Eo as [E1 E2]. unfold Len, set_store in *. cbn [store lastGasCost]. f_equal. apply splice_length; [lia|]. revert E1 E2. unfold zlen, u64. rewrite Hd. lia.
Qed.
Lemma Set8_in x y : writes_in (Set8 x y).
Proof.
  intros m. split; [apply Set8_fuel|]. unfold Set8. intros m'. case_if; [done|]. intros [= <-]. unfold Len. cbn. unfold zlen. by rewrite length_insert.
Qed.
Lemma tame_memSet x y d : tame (purse (BC:=BC)) (memSet x y d).
Proof. unfold memSet, Uint64. apply (tame_write (Set_ (u64 x) (u64 y) d)). pose proof (u64_range x). pose proof (u64_range y). unfold is_u64 in *. apply Set_in; lia. Qed.
#[local] Hint Resolve tame_memPtr tame_memSet : tame.
Lemma tame_copyData d x y z : tame (purse (BC:=BC)) (copyData d x y z). Proof. unfold copyData, nothing. tame_tac. Qed.
#[local] Hint Resolve tame_copyData : tame.

Lemma tame_on_evm_keep {A} (m : ST (EVM BC) A) :
  (forall e, StateDB_ (m e).2 = StateDB_ e /\ callGasTemp (m e).2 = callGasTemp e /\ (m e).1 <> Err ErrOutOfFuel) -> tame purse (on_evm m).
Proof.
  intros Hm [e f]. unfold on_evm. cbn. destruct (Hm e) as (Hs & Ht & Hr). destruct (m e) as [r e']. simpl in *. unfold db. simpl. rewrite Hs. split; [constructor|]. split; [done|]. unfold purse. simpl. by rewrite Ht.
Qed.
Lemma tame_codeBitmapWithCache code h : tame (purse (BC:=BC)) (on_evm (codeBitmapWithCache code h)).
Proof.
  apply tame_on_evm_keep. intros e. unfold codeBitmapWithCache. case_match; [done|]. unfold mbind, st_bind, st_get.
  destruct (cache_get h (bitmaps e)) as [[val|] c]; cbn; [done|]. destruct (codeBitmap_spec code) as (bits & Hb & _). by rewrite Hb.
Qed.
Lemma tame_isCode x : tame (purse (BC:=BC)) (isCode x).
Proof.
  unfold isCode. apply tame_bind; [apply tame_getContract|]. intros c. destruct (analysis c) as [bits|]; [tame_tac|]. case_if.
  - apply tame_bind; [apply tame_get|]. intros v. apply tame_bind; [|intros found; apply tame_bind; [by apply tame_frame|]; intros _].
    + case_match; [tame_tac|]. apply tame_bind; [apply tame_codeBitmapWithCache|]. intros found. apply tame_bind; [|tame_tac].
      apply tame_on_evm_keep. intros e. cbn. by destruct found.
    + apply tame_lift. destruct found; simpl; auto with tame.
  - tame_tac.
Qed.
#[local] Hint Resolve tame_isCode : tame.
Lemma tame_jumpTo x : tame (purse (BC:=BC)) (jumpTo x). Proof. unfold jumpTo, validJumpdest, nothing. tame_tac. Qed.
#[local] Hint Resolve tame_jumpTo : tame.
Lemma tame_popTopics n : tame (purse (BC:=BC)) (popTopics n).
Proof. induction n as [|n IH]; simpl; tame_tac. Qed.
#[local] Hint Resolve tame_popTopics : tame.

Lemma tame_makeDup n : tame (purse (BC:=BC)) (makeDup n). Proof. unfold makeDup, nothing. tame_tac. Qed.
Lemma tame_makeSwap n : tame (purse (BC:=BC)) (makeSwap n). Proof. unfold makeSwap, nothing. tame_tac. Qed.
Lemma tame_makePush x y : tame (purse (BC:=BC)) (makePush x y). Proof. unfold makePush, nothing. tame_tac. Qed.
Lemma tame_makeLog n : tame (purse (BC:=BC)) (makeLog env n).
Proof. unfold makeLog, nothing. tame_tac. Qed.
Lemma tame_sha3 : tame (purse (BC:=BC)) (opSha3 env). Proof. unfold opSha3, nothing. tame_tac. Qed.
Lemma tame_suicide : tame (purse (BC:=BC)) opSuicide. Proof. unfold opSuicide, nothing. tame_tac. Qed.
Lemma tame_write_then {A} (W : Memory -> res Memory) (k : ST V A) : writes_in W -> tame (purse (BC:=BC)) k ->
  tame (purse (BC:=BC)) (f ← getFrame; m ← st_lift (W (mem f)); _ ← setFrame (set_mem m); k).
Proof.
  intros HW Hk v. destruct (tame_bind _ _ (fun _ => k) (tame_write W HW) (fun _ => Hk) v) as (Hr & Hf & Hp). revert Hr Hf Hp. unfold getFrame, setFrame, st_lift, mbind, st_bind. cbn.
  destruct (W (mem v.2)); intros; (split; [done|split; done]).
Qed.
Lemma tame_mstore : tame (purse (BC:=BC)) opMstore.
Proof.
  unfold opMstore, nothing. apply tame_bind; [apply tame_popV|]. intros x. apply tame_bind; [apply tame_popV|]. intros y.
  apply (tame_write_then (Set32 (Uint64 x) y)); [|apply tame_ret]. pose proof (u64_range x) as Hx. unfold is_u64 in Hx. by apply Set32_in.
Qed.
Lemma tame_mstore8 : tame (purse (BC:=BC)) opMstore8.
Proof.
  unfold opMstore8, nothing. apply tame_bind; [apply tame_popV|]. intros x. apply tame_bind; [apply tame_popV|]. intros y.
  apply (tame_write_then (Set8 (Uint64 x) (Uint64 y))); [apply Set8_in|apply tame_ret].
Qed.
Lemma tame_sload : tame (purse (BC:=BC)) opSload. Proof. unfold opSload. apply tame_bind; [apply tame_getContract|]. intros c. apply tame_reading. eauto with tame typeclass_instances. Qed.
Lemma tame_balance : tame (purse (BC:=BC)) opBalance.
Proof. apply tame_reading. intros x. apply (tame_read _ (Bytes20 x)). intros s. unfold GetBalance. by destruct (getStateObject _ s). Qed.
Lemma tame_codesize : tame (purse (BC:=BC)) opExtCodeSize.
Proof. apply tame_reading. intros x. apply (tame_read _ (Bytes20 x)). intros s. unfold GetCodeSize. by destruct (getStateObject _ s) as [[o|] s1]. Qed.
Lemma tame_bind_read {A B} (f : StateDB -> A * StateDB) (g : A -> StateDB -> B * StateDB) : tame (purse (BC:=BC)) (evmState f) -> (forall a, tame (purse (BC:=BC)) (evmState (g a))) ->
  tame (purse (BC:=BC)) (evmState (fun s => let '(a, s) := f s in g a s)).
Proof.
  intros Hf Hg v. specialize (Hf v). unfold evmState, on_evm, onState in *. cbn in *. destruct (f (StateDB_ v.1)) as [a s1].
  specialize (Hg a (set_StateDB s1 v.1, v.2)). unfold evmState, on_evm, onState in Hg. cbn in *. destruct (g a s1) as [b s2]. cbn in *.
  destruct Hf as (? & _), Hg as (? & _). split; [by eapply run_trans|done].
Qed.
Lemma tame_codehash : tame (purse (BC:=BC)) opExtCodeHash.
Proof.
  apply tame_reading. intros x. apply tame_bind_read; [eauto with tame typeclass_instances|]. intros [|]; [|eauto with tame typeclass_instances].
  intros v. split; [constructor|done].
Qed.
End Instructions.
#[export] Hint Resolve tame_pushV tame_popV tame_memPtr tame_memSet tame_copyData tame_jumpTo : tame.

(** ** Prices *)
Section Prices.
Context {BC : Type} `{Backend}.
Variable env : VMEnv.
Abbreviation V := (V (BC := BC)).

Lemma tame_checked {X} (obs : V -> X) {Hpriv : Private obs} r : tame obs (checked r). Proof. unfold checked. tame_tac. Qed.
Lemma tame_asUint64 {X} (obs : V -> X) {Hpriv : Private obs} x : tame obs (asUint64 x). Proof. unfold asUint64. tame_tac. Qed.
Lemma tame_memoryGasCost x : tame (bill (BC:=BC)) (memoryGasCost x).
Proof.
  intros [e f]. unfold memoryGasCost. case_if; [split; [constructor|done]|]. case_if; [split; [constructor|done]|].
  unfold getFrame, setFrame, mbind, st_bind. cbn. case_if; (split; [constructor|done]).
Qed.
#[local] Hint Resolve tame_checked tame_asUint64 tame_memoryGasCost : tame.
Lemma tame_memoryCopierGas n x : tame (bill (BC:=BC)) (memoryCopierGas n x). Proof. unfold memoryCopierGas. tame_tac. Qed.
Lemma tame_makeGasLog n x : tame (bill (BC:=BC)) (makeGasLog n x). Proof. unfold makeGasLog. tame_tac. Qed.
Lemma tame_hashedGas n x : tame (bill (BC:=BC)) (hashedGas n x). Proof. unfold hashedGas. tame_tac. Qed.
Lemma tame_expGas {X} (obs : V -> X) {Hpriv : Private obs} n x : tame obs (expGas n x). Proof. unfold expGas. tame_tac. Qed.
Lemma tame_dirtyRefunds {X} (obs : V -> X) {Hpriv : Private obs} a b c x y z : tame obs (dirtyRefunds a b c x y z). Proof. unfold dirtyRefunds. tame_tac. Qed.
Lemma tame_slotInAccessList {X} (obs : V -> X) {Hpriv : Private obs} a x : tame obs (slotInAccessList a x). Proof. unfold slotInAccessList. tame_tac. Qed.
Lemma tame_warm {X} (obs : V -> X) {Hpriv : Private obs} a : tame obs (warm a). Proof. unfold warm, addressInAccessList. tame_tac. Qed.
#[local] Hint Resolve tame_memoryCopierGas tame_dirtyRefunds tame_slotInAccessList tame_warm : tame.
Lemma tame_gasSStore {X} (obs : V -> X) {Hpriv : Private obs} x : tame obs (gasSStore env x). Proof. unfold gasSStore. tame_tac. Qed.
Lemma tame_gasSStoreEIP2200 {X} (obs : V -> X) {Hpriv : Private obs} x : tame obs (gasSStoreEIP2200 x). Proof. unfold gasSStoreEIP2200. tame_tac. Qed.
Lemma tame_makeGasSStoreFunc {X} (obs : V -> X) {Hpriv : Private obs} c x : tame obs (makeGasSStoreFunc c x). Proof. unfold makeGasSStoreFunc. tame_tac. Qed.
Lemma tame_gasSLoadEIP2929 {X} (obs : V -> X) {Hpriv : Private obs} x : tame obs (gasSLoadEIP2929 x). Proof. unfold gasSLoadEIP2929. tame_tac. Qed.
Lemma tame_gasExtCodeCopyEIP2929 x : tame (bill (BC:=BC)) (gasExtCodeCopyEIP2929 x). Proof. unfold gasExtCodeCopyEIP2929, gasExtCodeCopy. tame_tac. Qed.
Lemma tame_gasEip2929AccountCheck {X} (obs : V -> X) {Hpriv : Private obs} x : tame obs (gasEip2929AccountCheck x). Proof. unfold gasEip2929AccountCheck. tame_tac. Qed.
Lemma tame_gasSelfdestruct {X} (obs : V -> X) {Hpriv : Private obs} x : tame obs (gasSelfdestruct env x). Proof. unfold gasSelfdestruct, createsAccount, refundSelfdestruct. tame_tac. Qed.
Lemma tame_makeSelfdestructGasFn {X} (obs : V -> X) {Hpriv : Private obs} b x : tame obs (makeSelfdestructGasFn b x). Proof. unfold makeSelfdestructGasFn, createsAccount, refundSelfdestruct. tame_tac. Qed.

(** ** Prices are not negative, and some are not zero *)

Lemma yields_checked_sum (Q : Z -> Prop) x y : (x + y <= MaxUint64 -> Q (x + y)) -> 0 <= x -> 0 <= y -> yields (S:=V) Q (checked (SafeAdd x y)).
Proof.
  intros HQ Hx Hy. unfold checked, SafeAdd. simpl. destruct (Z.ltb_spec MaxUint64 (x + y)) as [E|E]; [apply yields_err|]. apply yields_ret.
  replace (x +w y) with (x + y); [apply HQ; unfold MaxUint64 in *; lia|]. unfold u64. rewrite Z.mod_small; [done|unfold MaxUint64 in *; lia].
Qed.
Lemma yields_sum x y : 0 <= x -> 0 <= y -> yields (S:=V) (fun r => 0 <= r) (checked (SafeAdd x y)).
Proof. intros Hx Hy. apply yields_checked_sum; [simpl; lia|done|done]. Qed.
Lemma yields_sum_pos x y : 0 <= x -> 0 <= y -> 0 < x + y -> yields (S:=V) (fun r => 0 < r) (checked (SafeAdd x y)).
Proof. intros Hx Hy Hs. by apply yields_checked_sum. Qed.
Lemma yields_product x y : yields (S:=V) (fun r => 0 <= r) (checked (SafeMul x y)).
Proof. unfold checked, SafeMul. simpl. case_if; [apply yields_err|]. apply yields_ret. apply u64_nonneg. Qed.
Lemma yields_memoryGasCost x : yields (S:=V) (fun r => 0 <= r) (memoryGasCost x).
Proof.
  unfold memoryGasCost. case_if; [by apply yields_ret|]. case_if; [apply yields_err|]. apply yields_then. intros f. case_if; [|by apply yields_ret].
  apply yields_then. intros _. apply yields_ret. apply u64_nonneg.
Qed.
Lemma yields_memoryCopierGas n x : yields (S:=V) (fun r => 0 <= r) (memoryCopierGas n x).
Proof.
  unfold memoryCopierGas. eapply yields_bind; [apply yields_memoryGasCost|]. intros gas Hg. apply yields_then. intros size. apply yields_then. intros words.
  eapply yields_bind; [apply yields_product|]. intros w Hw. by apply yields_sum.
Qed.
Lemma yields_hashedGas n x : yields (S:=V) (fun r => 0 <= r) (hashedGas n x).
Proof.
  unfold hashedGas. eapply yields_bind; [apply yields_memoryGasCost|]. intros gas Hg. apply yields_then. intros size. apply yields_then. intros words.
  eapply yields_bind; [apply yields_product|]. intros w Hw. by apply yields_sum.
Qed.
Lemma yields_makeGasLog n x : yields (S:=V) (fun r => 0 < r) (makeGasLog n x).
Proof.
  unfold makeGasLog. apply yields_then. intros size. apply yields_then. intros req. eapply yields_bind; [apply yields_memoryGasCost|]. intros gas Hg. simpl in Hg.
  eapply (yields_bind (fun r => 0 < r)); [apply yields_sum_pos; unfold LogGas; lia|]. intros g1 Hg1. simpl in Hg1.
  eapply (yields_bind (fun r => 0 < r)); [pose proof (u64_nonneg (n * LogTopicGas)); apply yields_sum_pos; lia|]. intros g2 Hg2. simpl in Hg2.
  eapply yields_bind; [apply yields_product|]. intros w Hw. simpl in Hw. apply yields_sum_pos; lia.
Qed.
Lemma yields_expGas n x : yields (S:=V) (fun r => 0 < r) (expGas n x).
Proof. unfold expGas. apply yields_then. intros e. pose proof (u64_nonneg ((bitLen e + 7) / 8 * n)). apply yields_sum_pos; unfold ExpGas; lia. Qed.

Lemma yields_gasSStore x : yields (S:=V) (fun r => 0 < r) (gasSStore env x).
Proof. unfold gasSStore. repeat yields_step; reflexivity. Qed.
Lemma yields_gasSStoreEIP2200 x : yields (S:=V) (fun r => 0 < r) (gasSStoreEIP2200 x).
Proof. unfold gasSStoreEIP2200. repeat yields_step; reflexivity. Qed.
Lemma small_sum x y : 0 <= x <= 5000 -> 0 < y <= 50000 -> 0 < x +w y.
Proof. intros Hx Hy. rewrite u64_small; [lia|]. unfold is_u64. lia. Qed.
Lemma yields_makeGasSStoreFunc c x : yields (S:=V) (fun r => 0 < r) (makeGasSStoreFunc c x).
Proof.
  unfold makeGasSStoreFunc. do 2 yields_step; [apply yields_err|]. do 4 yields_step.
  eapply (yields_bind (fun r => 0 <= r <= 5000)).
  { destruct (_ : bool); [by apply yields_ret|]. apply yields_then. intros _. destruct (_ : bool); [by apply yields_ret|apply yields_panic]. }
  intros cost Hc. repeat yields_step; apply small_sum; done.
Qed.
Lemma yields_gasSLoadEIP2929 x : yields (S:=V) (fun r => 0 < r) (gasSLoadEIP2929 x).
Proof. unfold gasSLoadEIP2929. repeat yields_step; reflexivity. Qed.
Lemma yields_gasExtCodeCopyEIP2929 x : yields (S:=V) (fun r => 0 <= r) (gasExtCodeCopyEIP2929 x).
Proof.
  unfold gasExtCodeCopyEIP2929. eapply yields_bind; [apply yields_memoryCopierGas|]. intros gas Hg. do 3 yields_step; [by apply yields_ret|].
  by apply yields_sum.
Qed.
Lemma yields_gasEip2929AccountCheck x : yields (S:=V) (fun r => 0 <= r) (gasEip2929AccountCheck x).
Proof. unfold gasEip2929AccountCheck. repeat yields_step; by case_match. Qed.
Lemma yields_gasSelfdestruct x : yields (S:=V) (fun r => 0 <= r) (gasSelfdestruct env x).
Proof.
  unfold gasSelfdestruct. eapply (yields_bind (fun r => 0 <= r)); [|intros gas Hg; apply yields_then; intros _; by apply yields_ret].
  repeat yields_step; by repeat case_match.
Qed.
Lemma yields_makeSelfdestructGasFn b x : yields (S:=V) (fun r => 0 <= r) (makeSelfdestructGasFn b x).
Proof. unfold makeSelfdestructGasFn. do 3 yields_step. apply yields_then. intros _. apply yields_ret. by repeat case_match. Qed.
End Prices.

(** ** The memory is paid for *)

Definition memTotal (size : Z) : Z := size / 32 * MemoryGas + size / 32 * (size / 32) / QuadCoeffDiv.
Definition pend (x : Z) (m : Memory) : Prop := 0 <= lastGasCost m <= memTotal (Z.max (Len m) x).
Definition paid (m : Memory) : Prop := pend 0 m.
Definition whole (x : Z) : Prop := 0 <= x /\ x mod 32 = 0.

Lemma memTotal_mono x y : 0 <= x <= y -> 0 <= memTotal x <= memTotal y.
Proof. intros Hx. unfold memTotal, MemoryGas, QuadCoeffDiv. assert (0 <= x / 32 <= y / 32) as Hd by (split; [apply Z.div_pos|apply Z.div_le_mono]; lia).
  assert (0 <= x / 32 * (x / 32) <= y / 32 * (y / 32)) as Hs by nia.
  assert (0 <= x / 32 * (x / 32) / 512 <= y / 32 * (y / 32) / 512) by (split; [apply Z.div_pos|apply Z.div_le_mono]; lia). lia.
Qed.
Lemma toWordSize_nonneg x : 0 <= toWordSize x.
Proof. unfold toWordSize. case_match; [by vm_compute|]. pose proof (u64_nonneg (x + 31)). apply Z.div_pos; lia. Qed.
Lemma Len_nonneg m : 0 <= Len m. Proof. unfold Len, zlen. lia. Qed.
Lemma paid_pend x m : paid m -> pend x m.
Proof. unfold paid, pend. intros Hp. pose proof (Len_nonneg m). pose proof (memTotal_mono (Z.max (Len m) 0) (Z.max (Len m) x) ltac:(lia)). lia. Qed.
Lemma pend_paid x m : 0 <= x -> pend x m -> paid (if 0 <? x then Resize x m else m).
Proof.
  intros Hx Hp. unfold paid, pend in *. pose proof (Len_nonneg m). destruct (Z.ltb_spec 0 x); [|by replace x with 0 in Hp by lia].
  unfold Resize. destruct (Z.ltb_spec (Len m) x) as [Hl|Hl]; [|replace (Z.max (Len m) 0) with (Z.max (Len m) x) by lia; exact Hp].
  unfold Len, zlen in *. cbn [store set_store lastGasCost]. rewrite length_app, length_replicate.
  replace (Z.max (Z.of_nat (length (store m) + Z.to_nat (x - Z.of_nat (length (store m))))) 0) with (Z.max (Z.of_nat (length (store m))) x) by lia. exact Hp.
Qed.

Section Memory.
Context {BC : Type} `{Backend}.
Abbreviation V := (V (BC := BC)).
Implicit Types v : V.

(** What a price leaves: nothing but the fee of the memory changes. *)
Lemma memoryGasCost_cases x v : whole x ->
  (exists c, memoryGasCost x v = (Ok c, v) /\ c = 0) \/ (memoryGasCost x v = (Err ErrGasUintOverflow, v)) \/
  (Len (mem v.2) < x <= 0x1FFFFFFFE0 /\
   memoryGasCost x v = (Ok (memTotal x -w lastGasCost (mem v.2)), (v.1, set_mem (mkMemory (store (mem v.2)) (memTotal x)) v.2))).
Proof.
  intros [Hx Hw]. unfold memoryGasCost. destruct (Z.eqb_spec x 0); [left; by exists 0|]. destruct (Z.ltb_spec 0x1FFFFFFFE0 x) as [|Hb]; [right; by left|].
  unfold getFrame, setFrame, mbind, st_bind. cbn. assert (Hto : toWordSize x = x / 32).
  { unfold toWordSize, MaxUint64. case_match; [lia|]. rewrite u64_small by (unfold is_u64; lia). lia. }
  rewrite Hto. assert (Hlen : x / 32 *w 32 = x) by (rewrite u64_small by (unfold is_u64; lia); lia). rewrite Hlen.
  destruct (Z.ltb_spec (Len (mem v.2)) x) as [Hl|Hl]; [|left; by exists 0]. right. right. split; [lia|].
  assert (Hq : 0 <= x / 32 <= 0xFFFFFFFF) by lia.
  assert (Hsq : 0 <= x / 32 * (x / 32) < 2 ^ 64) by nia.
  replace (x / 32 *w MemoryGas +w (x / 32 *w (x / 32)) / QuadCoeffDiv) with (memTotal x); [done|].
  unfold memTotal, MemoryGas, QuadCoeffDiv. rewrite (u64_small (x / 32 * (x / 32))) by (unfold is_u64; lia).
  rewrite (u64_small (x / 32 * 3)) by (unfold is_u64; lia). rewrite u64_small; [done|]. unfold is_u64. lia.
Qed.
Lemma memTotal_bound x : 0 <= x <= 0x1FFFFFFFE0 -> 0 <= memTotal x <= 2 ^ 56.
Proof. intros Hx. pose proof (memTotal_mono x 0x1FFFFFFFE0 Hx) as Hm. assert (memTotal 0x1FFFFFFFE0 <= 2 ^ 56) by (by vm_compute). lia. Qed.
Lemma preserves_memoryGasCost x : whole x -> preserves (fun v => pend x (mem v.2)) (memoryGasCost (BC:=BC) x).
Proof.
  intros Hx v Hp. destruct (memoryGasCost_cases x v Hx) as [(c & -> & _)|[->|[Hl ->]]]; [done|done|]. unfold pend in *. simpl.
  pose proof (Len_nonneg (mem v.2)). replace (Len _) with (Len (mem v.2)) by done. replace (Z.max (Len (mem v.2)) x) with x by lia.
  pose proof (memTotal_bound x ltac:(lia)). lia.
Qed.
Lemma memoryGasCost_bound x v c v' : whole x -> paid (mem v.2) -> memoryGasCost x v = (Ok c, v') -> 0 <= c <= 2 ^ 56.
Proof.
  intros Hx Hp. destruct (memoryGasCost_cases x v Hx) as [(c' & -> & Hc)|[->|[Hl ->]]]; [intros [= <- _]; lia|done|]. intros [= <- _].
  pose proof (Len_nonneg (mem v.2)). unfold paid, pend in Hp. rewrite Z.max_l in Hp by lia.
  pose proof (memTotal_mono (Len (mem v.2)) x ltac:(lia)). pose proof (memTotal_bound x ltac:(lia)). rewrite u64_small; [lia|]. unfold is_u64. lia.
Qed.
End Memory.

(** ** Gas set aside for a call *)
Section Aside.
Context {BC : Type} `{Backend}.
Variable env : VMEnv.
Abbreviation V := (V (BC := BC)).
Abbreviation rules := (chainRules env).
Implicit Types v : V.

Definition u64able (x : Z) : Prop := 0 <= x < 2 ^ 64.
(** The price of a call covers what is set aside and the fee for its value. *)
Definition set_aside (fee cost : Z) (v v1 : V) : Prop :=
  gasOf v1 = gasOf v /\ stack v1.2 = stack v.2 /\ 0 <= callGasTemp v1.1 /\ callGasTemp v1.1 + fee <= cost.
(** ... and adding a cold access to it does not overflow. *)
Definition roomy (cost : Z) v : Prop := cost <= gasOf v \/ cost + 2500 < 2 ^ 64.
Definition aside_end (x fee : Z) v (r : res Z) (v1 : V) : Prop :=
  run (db v) (db v1) /\ r <> Err ErrOutOfFuel /\ 0 <= gasOf v1 <= gasOf v /\ (pend x (mem v.2) -> pend x (mem v1.2)) /\
  forall cost, r = Ok cost -> set_aside fee cost v v1 /\ (rIsEIP150 rules = true -> roomy cost v).
Definition aside (pre : V -> Prop) (x fee : Z) (k : Stack) (m : ST V Z) : Prop := forall v, pre v -> stack v.2 = k -> u64able (gasOf v) ->
  aside_end x fee v (m v).1 (m v).2.

Lemma aside_stuck x fee v v1 r : u64able (gasOf v) -> run (db v) (db v1) -> gasOf v1 = gasOf v -> (pend x (mem v.2) -> pend x (mem v1.2)) ->
  r <> Err ErrOutOfFuel -> (forall c, r <> Ok c) -> aside_end x fee v r v1.
Proof. unfold u64able. intros Hg Hr He Hp Hf Hn. do 4 (split; [done || lia|]). intros c Hc. by destruct (Hn c). Qed.

Definition anyV (v : V) : Prop := True.
Definition paidV (v : V) : Prop := paid (mem v.2).

Lemma aside_bind {A} (pre pre' : V -> Prop) (P : A -> Prop) x fee k (m : ST V A) (f : A -> ST V Z) : tame bill m ->
  preserves (fun v => pend x (mem v.2)) m ->
  (forall v a v', pre v -> m v = (Ok a, v') -> pre' v' /\ P a) -> (forall a, P a -> aside pre' x fee k (f a)) -> aside pre x fee k (m ≫= f).
Proof.
  intros Hm Hp Hpre Hf v Hv Hk Hg. destruct (Hm v) as (Hr & Hnf & Hb). specialize (Hp v). specialize (Hpre v). unfold mbind, st_bind.
  destruct (m v) as [r v1]. simpl in *. unfold bill in Hb. injection Hb as Hg1 _ Hk1 _. destruct r as [a|y|]; [|apply aside_stuck; try solve [done | simpl in *; congruence]..].
  destruct (Hpre a v1 Hv eq_refl) as [Hv1 Ha]. specialize (Hf a Ha v1 Hv1 ltac:(congruence) ltac:(by rewrite Hg1)).
  destruct Hf as (Hr2 & Hnf2 & Hg2 & Hp2 & Hc2). split; [by eapply run_trans|]. split; [done|]. split; [lia|].
  split; [by auto|]. intros cost Hcost. destruct (Hc2 cost Hcost) as [(H1 & H2 & H3) Hroom]. unfold set_aside, roomy in *. rewrite <- Hg1, <- Hk1. auto.
Qed.
Lemma aside_back pre x fee k n (f : Z -> ST V Z) : (forall y, k !! n = Some y -> aside pre x fee k (f y)) -> aside pre x fee k (BackV n ≫= f).
Proof.
  intros Hf v Hv Hk Hg. unfold BackV, Back, getFrame, mbind, st_bind. cbn. rewrite Hk. destruct (k !! n) as [y|] eqn:Ey; cbn.
  - by apply (Hf y eq_refl v).
  - apply aside_stuck; try done. apply run_done.
Qed.

Lemma callGas_cases avail base requested temp : u64able avail -> 0 <= base <= 2 ^ 57 -> callGas (rIsEIP150 rules) avail base requested = Ok temp ->
  0 <= temp /\ (rIsEIP150 rules = true -> base + temp < 2 ^ 64 -> base + temp <= avail \/ base + temp + 2500 < 2 ^ 64).
Proof.
  unfold u64able, callGas. intros Ha Hb. pose proof (u64_range (avail - base)) as Hr. pose proof (u64_nonneg requested). unfold is_u64 in Hr.
  destruct (rIsEIP150 rules); [|case_match; [|done]; intros [= <-]; split; [done|by intros]].
  set (a := u64 (avail - base)) in *. assert (Hg : a -w a / 64 = a - a / 64) by (apply u64_small; unfold is_u64; lia). rewrite Hg.
  intros Ht. assert (0 <= temp <= a - a / 64) as Htemp.
  { destruct (negb (IsUint64 requested) || _) eqn:Eo; injection Ht as <-; [lia|]. apply orb_false_iff in Eo as [_ Eo]. unfold Uint64 in *. lia. }
  split; [lia|]. intros _ Hs. destruct (Z.le_gt_cases base avail) as [Hle|Hgt].
  - assert (a = avail - base) by (apply u64_small; unfold is_u64; lia). left. lia.
  - assert (a = avail - base + 2 ^ 64) by (unfold a, u64; lia). right. lia.
Qed.

Lemma aside_withCallGas x fee k gas : 0 <= fee <= gas -> gas <= 2 ^ 57 -> aside anyV x fee k (withCallGas env gas).
Proof.
  intros Hf Hb v _ Hk Hg. unfold withCallGas, getContract, BackV, Back, getFrame, mbind, st_bind. cbn. rewrite Hk. destruct (k !! 0%nat) as [req|]; cbn; [|apply aside_stuck; [done|apply run_done|done..]].
  destruct (callGas (rIsEIP150 rules) (Gas (contract v.2)) gas req) as [temp|y|] eqn:Ec; cbn; cycle 1.
  { assert (y <> ErrOutOfFuel) by (unfold callGas in Ec; repeat case_match; congruence). apply aside_stuck; try done; [apply run_done|congruence]. }
  { apply aside_stuck; [done|apply run_done|done..]. }
  destruct (callGas_cases _ gas req temp Hg ltac:(lia) Ec) as [Ht Hroom]. unfold checked, SafeAdd. cbn. destruct (Z.ltb_spec MaxUint64 (gas + temp)) as [Hov|Hov]; cbn.
  { apply aside_stuck; [done|apply run_done|done..]. }
  unfold MaxUint64 in Hov. rewrite u64_small by (unfold is_u64; lia). split; [apply run_done|]. split; [done|]. unfold gasOf, u64able in *. cbn. split; [lia|].
  split; [done|]. intros cost [= <-]. split; [|intros E15; unfold roomy, gasOf; cbn; by apply Hroom; [|lia]]. unfold set_aside, gasOf. cbn. repeat split; lia.
Qed.
Lemma aside_memory x fee k (f : Z -> ST V Z) : whole x -> (forall c, 0 <= c <= 2 ^ 56 -> aside anyV x fee k (f c)) -> aside paidV x fee k (memoryGasCost x ≫= f).
Proof.
  intros Hx Hf. eapply (aside_bind _ anyV (fun c => 0 <= c <= 2 ^ 56)); [apply tame_memoryGasCost|by apply preserves_memoryGasCost| |exact Hf].
  intros v c v' Hp Hc. split; [done|]. by eapply memoryGasCost_bound.
Qed.
Lemma aside_observed {A} (P : A -> Prop) x fee k (m : ST V A) (f : A -> ST V Z) : tame bill m -> tame purse m -> yields P m -> (forall a, P a -> aside paidV x fee k (f a)) -> aside paidV x fee k (m ≫= f).
Proof.
  intros Hb Hp Hy Hf. assert (Hkeep : forall v, (Len (mem (m v).2.2), lastGasCost (mem (m v).2.2)) = (Len (mem v.2), lastGasCost (mem v.2))).
  { intros v. destruct (Hp v) as (_ & _ & He). unfold purse in He. by injection He as _ _ -> ->. }
  apply (aside_bind _ paidV P); [done| | |done]; unfold preserves, paidV, paid, pend.
  - intros v. specialize (Hkeep v). injection Hkeep as -> ->. done.
  - intros v a v' Hv Hm. specialize (Hkeep v). rewrite Hm in Hkeep. simpl in Hkeep. injection Hkeep as -> ->. split; [done|by eapply Hy].
Qed.
Lemma aside_checked x fee k a b (f : Z -> ST V Z) : 0 <= a -> 0 <= b -> aside anyV x fee k (f (a + b)) -> aside anyV x fee k (checked (SafeAdd a b) ≫= f).
Proof.
  intros Ha Hb Hf v Hv Hk Hg. unfold checked, SafeAdd. cbn. destruct (Z.ltb_spec MaxUint64 (a + b)) as [|Hs]; unfold mbind, st_bind; cbn.
  - apply aside_stuck; [done|apply run_done|done..].
  - rewrite u64_small by (unfold is_u64, MaxUint64 in *; lia). by apply Hf.
Qed.

(** The fee is that of the value, the third operand. *)
Definition feeOf (k : Stack) : Z := match k !! 2%nat with Some y => if y =? 0 then 0 else CallValueTransferGas | None => 0 end.
Definition sets_aside (valued : bool) (f : Z -> ST V Z) : Prop := forall x k, whole x -> aside paidV x (if valued then feeOf k else 0) k (f x).

Lemma aside_rest x k fee gas : whole x -> 0 <= fee <= gas -> gas <= 50000 ->
  aside paidV x fee k (memoryGas ← memoryGasCost x; gas ← checked (SafeAdd gas memoryGas); withCallGas env gas).
Proof. intros Hx Hf Hg. apply aside_memory; [done|]. intros c Hc. apply aside_checked; [lia|lia|]. apply aside_withCallGas; lia. Qed.
Lemma aside_gasCall : sets_aside true (gasCall env).
Proof.
  intros x k Hx. unfold gasCall. apply aside_back. intros y Hy. apply aside_back. intros a Ha. unfold feeOf. rewrite Hy.
  apply (aside_observed (fun gas => gas = 0 \/ gas = CallNewAccountGas)); [tame_tac|tame_tac| |].
  - repeat yields_step; repeat case_match; by (left + right).
  - intros gas Hgas. apply aside_rest; [done| |]; destruct (y =? 0); destruct Hgas as [-> | ->]; by vm_compute.
Qed.
Lemma aside_gasCallCode : sets_aside true (gasCallCode env).
Proof.
  intros x k Hx. unfold gasCallCode. apply aside_memory; [done|]. intros c Hc. apply aside_back. intros y Hy. unfold feeOf. rewrite Hy.
  replace (Sign y =? 0) with (y =? 0) by (unfold Sign; repeat case_match; lia).
  apply aside_checked; [by destruct (y =? 0)|lia|]. apply aside_withCallGas; unfold CallValueTransferGas; destruct (y =? 0); lia.
Qed.
Lemma aside_plain : sets_aside false (fun x => gas ← memoryGasCost x; withCallGas env gas).
Proof. intros x k Hx. apply aside_memory; [done|]. intros c Hc. apply aside_withCallGas; lia. Qed.

(** The price of a call, whatever it is computed from. *)
Definition price_end (valued : bool) (x : Z) v (r : res Z) (v1 : V) : Prop :=
  run (db v) (db v1) /\ r <> Err ErrOutOfFuel /\ 0 <= gasOf v1 <= gasOf v /\ (pend x (mem v.2) -> pend x (mem v1.2)) /\
  forall cost, r = Ok cost -> set_aside (if valued then feeOf (stack v.2) else 0) cost v v1.
Definition call_price (valued : bool) (f : Z -> ST V Z) : Prop := forall x v, whole x -> paid (mem v.2) -> u64able (gasOf v) ->
  price_end valued x v (f x v).1 (f x v).2.
Lemma price_warm valued f : sets_aside valued f -> call_price valued f.
Proof.
  intros Hf x v Hx Hp Hg. destruct (Hf x _ Hx v Hp eq_refl Hg) as (H1 & H2 & H3 & H4 & H5).
  do 4 (split; [done|]). intros c Hc. by apply H5.
Qed.
Lemma price_stuck valued x v r : u64able (gasOf v) -> r <> Err ErrOutOfFuel -> (forall c, r <> Ok c) -> price_end valued x v r v.
Proof. unfold u64able. intros Hg Hf Hn. split; [constructor|]. do 3 (split; [done || lia|]). intros c Hc. by destruct (Hn c). Qed.

(** A frame that looks the same but for the account state. *)
Definition alike v v' : Prop := run (db v) (db v') /\ gasOf v' = gasOf v /\ stack v'.2 = stack v.2 /\
  Len (mem v'.2) = Len (mem v.2) /\ lastGasCost (mem v'.2) = lastGasCost (mem v.2).
Lemma price_alike valued x v v' r v1 : alike v v' -> price_end valued x v' r v1 -> price_end valued x v r v1.
Proof.
  intros (Hr & Hg & Hs & Hl & Hc) (H1 & H2 & H3 & H4 & H5). unfold price_end, set_aside, pend in *. rewrite Hg, Hs, Hl, Hc in *.
  split; [by eapply run_trans|]. done.
Qed.
Lemma warm_alike a v : alike v (warm a v).2 /\ (warm a v).1 <> Err ErrOutOfFuel.
Proof.
  destruct (tame_warm purse a v) as (Hr & Hf1 & Hpu). destruct (tame_warm bill a v) as (_ & _ & Hbi). unfold purse in Hpu. unfold bill in Hbi.
  injection Hpu as Hg1 _ Hl1 Hl2. injection Hbi as _ _ Hk1 _. done.
Qed.

(** The cold access is part of the price, and does not make it overflow. *)
Lemma price_paid valued f x v : sets_aside valued f -> rIsEIP150 rules = true -> whole x -> paid (mem v.2) -> u64able (gasOf v) -> 2500 <= gasOf v ->
  let v0 := (v.1, set_contract (set_Gas (gasOf v - 2500) (contract v.2)) v.2) in
  ((forall c, (f x v0).1 <> Ok c) /\ price_end valued x v (f x v0).1 (f x v0).2) \/
  exists cost v1, f x v0 = (Ok cost, v1) /\ price_end valued x v (Ok (cost +w 2500)) (v1.1, set_contract (set_Gas (gasOf v1 +w 2500) (contract v1.2)) v1.2).
Proof.
  intros Hf E15 Hx Hp Hg Hge v0. unfold u64able in *. destruct (Hf x (stack v.2) Hx v0 Hp eq_refl) as (H1 & H2 & H3 & H4 & H5); [unfold u64able, v0, gasOf in *; cbn in *; lia|].
  destruct (f x v0) as [r v1]. simpl in *. assert (Hg0 : gasOf v0 = gasOf v - 2500) by done. destruct r as [c|y|]; cycle 1.
  { left. split; [done|]. do 4 (split; [done || lia|]). done. } { left. split; [done|]. do 4 (split; [done || lia|]). done. }
  right. exists c, v1. split; [done|]. destruct (H5 c eq_refl) as [(Ha & Hb & Hc1 & Hd) Hr]. specialize (Hr E15). unfold roomy in Hr. rewrite Hg0 in *.
  assert (0 <= c) by (destruct valued; [unfold feeOf, CallValueTransferGas in Hd; repeat case_match; lia|lia]).
  assert (Hback : gasOf v1 +w 2500 = gasOf v) by (rewrite Ha, u64_small by (unfold is_u64; lia); lia).
  split; [done|]. split; [done|]. rewrite Hback. split; [unfold gasOf in *; cbn; lia|]. split; [done|].
  intros cost [= <-]. rewrite u64_small by (unfold is_u64; lia). unfold set_aside. unfold v0 in Hb. simpl in Hb. destruct valued; simpl in *; repeat split; try done; lia.
Qed.
Lemma price_cold valued f : rIsEIP150 rules = true -> sets_aside valued f -> call_price valued (makeCallVariantGasCallEIP2929 f).
Proof.
  intros E15 Hf x v Hx Hp Hg. unfold makeCallVariantGasCallEIP2929, BackV, getFrame, Back. unfold mbind, st_bind. cbn.
  destruct (stack v.2 !! 1%nat) as [a|]; cbn; [|by apply price_stuck].
  destruct (warm_alike (Bytes20 a) v) as [Hal Hnf]. destruct (warm (Bytes20 a) v) as [r v']. simpl in Hal, Hnf.
  apply (price_alike _ _ _ v'); [exact Hal|]. destruct Hal as (_ & Hg1 & _ & Hl & Hc).
  assert (Hg' : u64able (gasOf v')) by (by rewrite Hg1). assert (Hp' : paid (mem v'.2)) by (unfold paid, pend in *; by rewrite Hl, Hc).
  destruct r as [[|]|y|]; cbn; [| |by apply price_stuck; [|congruence|]|by apply price_stuck].
  { pose proof (price_warm _ _ Hf x v' Hx Hp' Hg') as Hw. by destruct (f x v') as [[c|y|] v1]. }
  unfold useGas, UseGas, getContract, getFrame, setFrame, mbind, st_bind. cbn.
  change (ColdAccountAccessCostEIP2929 - WarmStorageReadCostEIP2929) with 2500. destruct (Z.ltb_spec (Gas (contract v'.2)) 2500) as [|Hge]; cbn; [by apply price_stuck|].
  destruct (price_paid valued f x v' Hf E15 Hx Hp' Hg' Hge) as [[Hno He]|(c & v1 & He & Hend)]; unfold gasOf in *.
  - destruct (f x _) as [[c|y|] v1]; [by destruct (Hno c)|exact He|exact He].
  - rewrite He. cbn. exact Hend.
Qed.
End Aside.
