(* ===== verification/VMProps.v ===== *)
(** * The virtual machine as its callers see it

    Every call and creation ends with no more gas than it was given, a call that
    fails leaves the account state as it was, code is jumped to only where an
    instruction is. *)

From S2P Require Import StateDB StateFacts StateRevert Prelude Hoare Params Blacklist StateTransition Processor VMCode VMState VMRun VMFacts.

(** ** Reverting never answers an error *)
Section Revert.
Context `{Backend}.
Lemma revertEntry_err e s x : revertEntry e s <> Err x.
Proof.
  assert (Ho : forall a f, on_object a f s <> Err x) by (intros a f; unfold on_object; by destruct (getStateObject a s) as [[]]).
  destruct e; simpl; auto; repeat case_match; try done. match goal with |- context [al_DeleteSlot ?p ?q ?r] => destruct (al_DeleteSlot p q r) as [al|y|] eqn:Ed end; [done| |done].
  unfold al_DeleteSlot in Ed. repeat case_match; done.
Qed.
Lemma revertEntries_err es s x : revertEntries es s <> Err x.
Proof.
  revert s. induction es as [|e es IH]; intros s; [done|]. simpl. destruct (revertEntry e s) as [s1|y|] eqn:Ee; simpl; [apply IH|by destruct (revertEntry_err e s y)|done].
Qed.
Lemma RevertToSnapshot_err id s x : RevertToSnapshot id s <> Err x.
Proof.
  unfold RevertToSnapshot. destruct (list_find _ _) as [[idx [i k]]|]; [|done]. case_match; [|done]. unfold journal_revert. case_match; [done|].
  destruct (revertEntries _ s) as [s1|y|] eqn:Er; simpl; [done|by destruct (revertEntries_err _ _ _ Er)|done].
Qed.

(** The account state of before, as it is observed. *)
Definition kept (s s' : StateDB) : Prop := valid s -> state_equiv s' s /\ valid s'.
Lemma kept_reverted s s1 r : run (Snapshot s).2 s1 -> RevertToSnapshot (Snapshot s).1 s1 = Ok r -> kept s r.
Proof.
  intros Hr Hto Hv. pose proof (snapshot_good s Hv) as [_ Hvs]. destruct (run_good _ _ Hr Hvs) as [Hg [extra He]].
  destruct (revert_good s s1 extra r Hv Hg He Hto) as ([_ Hv2] & Hq & _). done.
Qed.
Lemma kept_refl s : kept s s. Proof. by intros Hv. Qed.
Lemma kept_trans s1 s2 s3 : kept s1 s2 -> kept s2 s3 -> kept s1 s3.
Proof. intros H1 H2 Hv. destruct (H1 Hv) as [He Hv2]. destruct (H2 Hv2) as [He2 Hv3]. split; [by etrans|done]. Qed.
Lemma kept_read a s : kept s (getStateObject a s).2.
Proof.
  intros Hv. destruct (getStateObject a s) as [x s1] eqn:Eg. destruct (get_spec s a x s1 (proj1 Hv) Eg) as (_ & Hl & _). split; [by apply loaded_equiv|].
  pose proof (do_op_good (ORead a) s s1 Hv) as Hg. simpl in Hg. rewrite Eg in Hg. by apply Hg.
Qed.
End Revert.

(** ** Computations of the machine that end *)
Section Ends.
Context {BC : Type} `{Backend}.
Abbreviation E := (EVM BC).
Implicit Types (e : E) (s : StateDB).

(** A run of the state from [s] that ends with an answer in [K], or in a panic. *)
Definition ends {A} (K : A -> StateDB -> Prop) (s : StateDB) (x : res A * E) : Prop :=
  run s (StateDB_ x.2) /\ (forall y, x.1 <> Err y) /\ forall a, x.1 = Ok a -> K a (StateDB_ x.2).
Definition calm {A} (P : A -> Prop) (m : ST E A) : Prop := forall e, ends (fun a _ => P a) (StateDB_ e) (m e).
Definition any {A} (a : A) : Prop := True.

Lemma calm_ret {A} (P : A -> Prop) a : P a -> calm P (mret a).
Proof. intros HP e. split; [constructor|]. split; [done|]. by intros ? [= <-]. Qed.
Lemma calm_get P : (forall e, P e) -> calm P st_get.
Proof. intros HP e. split; [constructor|]. split; [done|]. by intros ? [= <-]. Qed.
Lemma calm_bind {A B} (P : A -> Prop) (Q : B -> Prop) (m : ST E A) (f : A -> ST E B) : calm P m -> (forall a, P a -> calm Q (f a)) -> calm Q (m ≫= f).
Proof.
  intros Hm Hf e. destruct (Hm e) as (Hr & Hn & HP). unfold mbind, st_bind. destruct (m e) as [[a|y|] e1]; simpl in *; [|by destruct (Hn y)|done].
  destruct (Hf a (HP a eq_refl) e1) as (Hr2 & Hn2 & HQ). split; [by eapply run_trans|done].
Qed.
Lemma calm_any {A} (P : A -> Prop) (m : ST E A) : calm P m -> calm any m.
Proof. intros Hm e. destruct (Hm e) as (? & ? & ?). done. Qed.
Lemma calm_lift {A} (P : A -> Prop) (r : res A) : (forall x, r <> Err x) -> (forall a, r = Ok a -> P a) -> calm P (st_lift r).
Proof. intros Hr HP e. split; [constructor|]. done. Qed.
Lemma calm_modify g : (forall e, StateDB_ (g e) = StateDB_ e) -> calm any (st_modify g).
Proof. intros Hg e. split; [simpl; rewrite Hg; constructor|done]. Qed.
Lemma calm_onState {A} (g : StateDB -> A * StateDB) (o : op) : (forall s, do_op o s = Ok (g s).2) -> calm any (onState g).
Proof. intros Hg e. unfold onState. specialize (Hg (StateDB_ e)). destruct (g (StateDB_ e)) as [a s]. split; [by apply (run_one o)|done]. Qed.
Lemma calm_doState g (o : op) : (forall s, do_op o s = Ok (g s)) -> calm any (doState (BC:=BC) g).
Proof. intros Hg e. split; [apply (run_one o), Hg|done]. Qed.

(** A computation that started at [s]; [I] holds of the state it is in now. *)
Definition from {A} (s : StateDB) (I : StateDB -> Prop) (K : A -> StateDB -> Prop) (m : ST E A) : Prop := forall e, run s (StateDB_ e) -> I (StateDB_ e) -> ends K s (m e).
(** ... and that took the snapshot [id] at [sb]. *)
Definition within {A} (s sb : StateDB) (K : A -> StateDB -> Prop) (m : ST E A) : Prop := forall e, run (Snapshot sb).2 (StateDB_ e) -> ends K s (m e).

Lemma from_ret {A} s I (K : A -> StateDB -> Prop) a : (forall s', I s' -> K a s') -> from s I K (mret a).
Proof. intros HK e Hr HI. split; [done|]. split; [done|]. intros ? [= <-]. by apply HK. Qed.
Lemma from_bind {A B} s I I' (P : A -> Prop) (K : B -> StateDB -> Prop) (m : ST E A) (f : A -> ST E B) : calm P m ->
  (forall e, I (StateDB_ e) -> I' (StateDB_ (m e).2)) -> (forall a, P a -> from s I' K (f a)) -> from s I K (m ≫= f).
Proof.
  intros Hm HI Hf e Hr Hi. destruct (Hm e) as (Hr1 & Hn & HP). specialize (HI e Hi). unfold mbind, st_bind.
  destruct (m e) as [[a|y|] e1]; simpl in *; [|by destruct (Hn y)|split; [by eapply run_trans|done]].
  apply (Hf a (HP a eq_refl)); [by eapply run_trans|done].
Qed.
Lemma from_get {A} s I (K : A -> StateDB -> Prop) (f : E -> ST E A) : (forall e, from s I K (f e)) -> from s I K (st_get ≫= f).
Proof. intros Hf e Hr HI. exact (Hf e e Hr HI). Qed.
Lemma from_snapshot {A} s I (K : A -> StateDB -> Prop) (f : Z -> ST E A) :
  (forall sb, run s sb -> I sb -> within s sb K (f (Snapshot sb).1)) -> from s I K (onState Snapshot ≫= f).
Proof. intros Hf e Hr HI. apply (Hf (StateDB_ e) Hr HI). constructor. Qed.

Lemma within_run s sb (s1 : StateDB) : run s sb -> run (Snapshot sb).2 s1 -> run s s1.
Proof. intros Hr H1. eapply run_trans; [done|]. eapply (run_call false); [exact H1|reflexivity|constructor]. Qed.
Lemma within_ret {A} s sb (K : A -> StateDB -> Prop) a : run s sb -> (forall s', K a s') -> within s sb K (mret a).
Proof. intros Hr HK e H1. split; [by eapply within_run|]. split; [done|]. by intros ? [= <-]. Qed.
Lemma within_bind {A B} s sb (P : A -> Prop) (K : B -> StateDB -> Prop) (m : ST E A) (f : A -> ST E B) : run s sb -> calm P m ->
  (forall a, P a -> within s sb K (f a)) -> within s sb K (m ≫= f).
Proof.
  intros Hs Hm Hf e Hr. destruct (Hm e) as (Hr1 & Hn & HP). unfold mbind, st_bind.
  destruct (m e) as [[a|y|] e1]; simpl in *; [|by destruct (Hn y)|split; [eapply within_run; [done|by eapply run_trans]|done]].
  apply (Hf a (HP a eq_refl)). by eapply run_trans.
Qed.
(** The call is undone. *)
Lemma within_revert {A} s sb (K : A -> StateDB -> Prop) (a : A) : run s sb -> (forall s', kept sb s' -> K a s') ->
  within s sb K (_ ← tryState (RevertToSnapshot (Snapshot sb).1); mret a).
Proof.
  intros Hs HK e Hr. unfold tryState, mbind, st_bind. cbn. destruct (RevertToSnapshot (nextRevisionId sb) (StateDB_ e)) as [r|y|] eqn:Er; cbn.
  - split; [exact (run_trans _ _ _ Hs (run_call true _ _ _ _ Hr Er (run_done _)))|]. split; [done|]. intros ? [= <-]. apply HK. by eapply kept_reverted.
  - by destruct (RevertToSnapshot_err _ _ _ Er).
  - split; [by eapply within_run|done].
Qed.
End Ends.

(** ** Calls and creations *)
Section Entries.
Context {BC : Type} `{Backend} `{Uint256} `{Runtime} `{Cache BC Hash bitvec}.
Variable env : VMEnv.
Abbreviation E := (EVM BC).

(** An interpreter for contracts with less than [n] gas. *)
Definition run_ok (n : Z) (Run : Contract -> list byte -> bool -> ST E (list byte * option error * Contract)) : Prop :=
  forall c input static, 0 <= Gas c < n -> Gas c < 2 ^ 64 -> calm (fun r => 0 <= Gas r.2 <= Gas c) (Run c input static).

Variable n : Z.
Variable Run : Contract -> list byte -> bool -> ST E (list byte * option error * Contract).
Hypothesis HRun : run_ok n Run.

Definition left_of (gas : Z) (r : outcome) : Prop := 0 <= r.1.2 <= gas.
(** What a call answers: gas is left, and a call that fails changed nothing. *)
Definition call_ends (s : StateDB) (gas : Z) (r : outcome) (s' : StateDB) : Prop := left_of gas r /\ (r.2 <> None -> kept s s').
Definition fits (gas : Z) : Prop := 0 <= gas < n /\ gas < 2 ^ 64.

Lemma calm_read {A} (f : StateDB -> A * StateDB) a : (forall s, (f s).2 = (getStateObject a s).2) -> calm (BC:=BC) any (onState f).
Proof. intros Hf. apply (calm_onState _ (ORead a)). intros s. by rewrite Hf. Qed.
Lemma read_GetBalance a s : (GetBalance a s).2 = (getStateObject a s).2. Proof. unfold GetBalance. by destruct (getStateObject a s). Qed.
Lemma read_GetNonce a s : (GetNonce a s).2 = (getStateObject a s).2. Proof. unfold GetNonce. by destruct (getStateObject a s). Qed.
Lemma read_GetCodeHash a s : (GetCodeHash a s).2 = (getStateObject a s).2. Proof. unfold GetCodeHash. by destruct (getStateObject a s). Qed.
Lemma read_Exist a s : (Exist a s).2 = (getStateObject a s).2. Proof. unfold Exist. by destruct (getStateObject a s). Qed.

Lemma precompile_left p input gas : 0 <= gas -> left_of gas (RunPrecompiledContract p input gas).
Proof.
  intros Hg. unfold RunPrecompiledContract, left_of. pose proof (u64_nonneg (p.1 input)). destruct (Z.ltb_spec gas (u64 (p.1 input))); [simpl; lia|].
  destruct (p.2 input). simpl. lia.
Qed.
Lemma calm_runContract c input static : fits (Gas c) -> calm (left_of (Gas c)) (runContract Run c input static).
Proof.
  intros [Hn Hg]. unfold runContract. eapply calm_bind; [by apply HRun|]. intros r Hr. by apply calm_ret.
Qed.
Lemma calm_adopt caller : calm any (adoptJumpdests (BC:=BC) caller).
Proof. unfold adoptJumpdests. destruct caller; [by apply calm_modify|by apply calm_ret]. Qed.
Lemma calm_GetCode a : calm any (onState (BC:=BC) (GetCode a)). Proof. by apply (calm_onState _ (OGetCode a)). Qed.
Lemma calm_GetCodeHash a : calm any (onState (BC:=BC) (GetCodeHash a)). Proof. apply (calm_read _ a), read_GetCodeHash. Qed.
Lemma calm_Exist a : calm any (onState (BC:=BC) (Exist a)). Proof. apply (calm_read _ a), read_Exist. Qed.
Lemma calm_GetNonce a : calm any (onState (BC:=BC) (GetNonce a)). Proof. apply (calm_read _ a), read_GetNonce. Qed.
Lemma calm_CanTransfer a x : calm any (CanTransfer (BC:=BC) a x).
Proof. eapply calm_bind; [apply (calm_read _ a), read_GetBalance|]. intros b _. by apply calm_ret. Qed.
Lemma calm_Transfer a b x : calm any (Transfer (BC:=BC) a b x).
Proof. eapply calm_bind; [by apply (calm_doState _ (OSubBalance a x))|]. intros [] _. by apply (calm_doState _ (OAddBalance b x)). Qed.

Lemma calm_runCode caller addr input gas c static : fits gas -> (forall x, c <> Err x) -> (forall c', c = Ok c' -> Gas c' = gas) ->
  calm (left_of gas) (runCode (BC:=BC) env Run caller addr input gas c static).
Proof.
  intros Hg Hc Hgas. unfold runCode. case_match; [apply calm_ret, precompile_left; unfold fits in *; lia|].
  apply (calm_bind (fun c' => Gas c' = gas)); [by apply calm_lift|]. intros c' Hc'. eapply calm_bind; [apply calm_adopt|]. intros _ _.
  eapply calm_bind; [apply calm_GetCodeHash|]. intros h _. eapply calm_bind; [apply calm_GetCode|]. intros code _.
  rewrite <- Hc'. apply (calm_runContract (SetCallCode addr h code c')). simpl. by rewrite Hc'.
Qed.

Lemma within_settle s sb gas r : run s sb -> kept s sb -> left_of gas r -> within s sb (call_ends s gas) (settle (BC:=BC) (Snapshot sb).1 r).
Proof.
  intros Hs Hk Hl. unfold settle. destruct (r.2) as [x|] eqn:Ex.
  - apply within_revert; [done|]. intros s' Hk'. split; [|intros _; by eapply kept_trans]. unfold left_of in *. simpl. case_decide; lia.
  - apply within_ret; [done|]. intros s'. split; [done|]. by rewrite Ex.
Qed.
(** Nothing happened yet. *)
Lemma from_refused s gas ret err : 0 <= gas -> from s (kept s) (call_ends s gas) (mret (ret, gas, err) : ST E outcome).
Proof. intros Hg. apply from_ret. intros s' Hk. split; [unfold left_of; simpl; lia|done]. Qed.
Lemma from_guarded s gas caller addr m : 0 <= gas -> from s (kept s) (call_ends s gas) m -> from s (kept s) (call_ends s gas) (guarded (BC:=BC) env caller addr gas m).
Proof. intros Hg Hm. unfold guarded. apply from_get. intros e. repeat case_match; [by apply from_refused..|done]. Qed.
Lemma from_CanTransfer s K a x (f : bool -> ST E outcome) : (forall b, from s (kept s) K (f b)) -> from s (kept s) K (CanTransfer a x ≫= f).
Proof.
  intros Hf. eapply from_bind; [apply calm_CanTransfer| |by intros b _]. intros e Hk. unfold CanTransfer, onState, mbind, st_bind. cbn.
  pose proof (read_GetBalance a (StateDB_ e)) as Hr. destruct (GetBalance a (StateDB_ e)) as [b s1]. simpl in *. subst s1. eapply kept_trans; [done|apply kept_read].
Qed.

Lemma Call_from caller addr input gas value s : fits gas -> from s (kept s) (call_ends s gas) (Call (BC:=BC) env Run caller addr input gas value).
Proof.
  intros Hg. assert (Hg0 : 0 <= gas) by (unfold fits in *; lia). unfold Call. apply from_get. intros e. case_match; [by apply from_refused|]. case_match; [by apply from_refused|]. case_match; [by apply from_refused|].
  assert (Hrest : forall can, from s (kept s) (call_ends s gas) (if negb can then mret ([], gas, Some ErrInsufficientBalance) else
    snapshot ← onState StateDB.Snapshot; exist ← onState (Exist addr);
    if negb exist && (match precompile env addr with None => true | Some _ => false end) && rIsEIP158 (chainRules env) && (value =? 0) then mret ([], gas, None) else
    _ ← (if (exist : bool) then mret tt else doState (CreateAccount addr));
    _ ← Transfer (refAddress caller) addr value;
    r ← (match precompile env addr with
       | Some p => mret (RunPrecompiledContract p input gas)
       | None =>
           code ← onState (GetCode addr);
           match code with
           | [] => mret ([], gas, None)
           | _ =>
               _ ← adoptJumpdests caller;
               hash ← onState (GetCodeHash addr);
               runContract Run (SetCallCode addr hash code (NewContract caller addr value gas)) input false
           end
       end);
    settle snapshot r : ST E outcome)).
  { intros can. case_match; [by apply from_refused|]. apply from_snapshot. intros sb Hs Hk. eapply within_bind; [done|apply calm_Exist|]. intros exist _.
    case_match; [apply within_ret; [done|]; intros s'; split; [unfold left_of; simpl; lia|done]|].
    eapply (within_bind _ _ any); [done|destruct exist; [by apply calm_ret|by apply (calm_doState _ (OCreateAccount addr))]|]. intros _ _.
    eapply within_bind; [done|apply calm_Transfer|]. intros _ _. eapply within_bind; [done| |intros r Hr; by apply within_settle].
    destruct (precompile env addr); [by apply calm_ret, precompile_left|]. eapply calm_bind; [apply calm_GetCode|]. intros code _.
    destruct code as [|b code]; [apply calm_ret; unfold left_of; simpl; lia|]. eapply calm_bind; [apply calm_adopt|]. intros _ _.
    eapply calm_bind; [apply calm_GetCodeHash|]. intros h _. by apply (calm_runContract (SetCallCode addr h _ (NewContract caller addr value gas))). }
  destruct (value =? 0); [exact (Hrest true)|]. apply from_CanTransfer. exact Hrest.
Qed.
Lemma CallCode_from caller addr input gas value s : fits gas -> from s (kept s) (call_ends s gas) (CallCode (BC:=BC) env Run caller addr input gas value).
Proof.
  intros Hg. assert (Hg0 : 0 <= gas) by (unfold fits in *; lia). apply from_guarded; [done|]. apply from_CanTransfer. intros can. case_match; [by apply from_refused|].
  apply from_snapshot. intros sb Hs Hk. eapply within_bind; [done|by apply calm_runCode; [| |intros c' [= <-]]|]. intros r Hr. by apply within_settle.
Qed.
Lemma DelegateCall_from caller addr input gas s : fits gas -> from s (kept s) (call_ends s gas) (DelegateCall (BC:=BC) env Run caller addr input gas).
Proof.
  intros Hg. assert (Hg0 : 0 <= gas) by (unfold fits in *; lia). apply from_guarded; [done|].
  apply from_snapshot. intros sb Hs Hk. eapply within_bind; [done|apply calm_runCode; [done| |]; destruct caller; simpl; intros; simplify_eq; done|]. intros r Hr. by apply within_settle.
Qed.
Lemma StaticCall_from caller addr input gas s : fits gas -> from s (kept s) (call_ends s gas) (StaticCall (BC:=BC) env Run caller addr input gas).
Proof.
  intros Hg. assert (Hg0 : 0 <= gas) by (unfold fits in *; lia). apply from_guarded; [done|].
  apply from_snapshot. intros sb Hs Hk. eapply within_bind; [done|by apply (calm_doState _ (OAddBalance addr 0))|]. intros _ _.
  eapply within_bind; [done|by apply calm_runCode; [| |intros c' [= <-]]|]. intros r Hr. by apply within_settle.
Qed.

(** Creations; the nonce of the creator is spent whatever happens. *)
Definition created (gas : Z) (r : list byte * Address * Z * option error) (s' : StateDB) : Prop := 0 <= r.1.2 <= gas.
Definition now (s : StateDB) : Prop := True.

Lemma UseGas_left gas c c' : 0 <= gas -> UseGas gas c = Some c' -> 0 <= Gas c' <= Gas c.
Proof. unfold UseGas. intros Hg Hu. destruct (Z.ltb_spec (Gas c) gas); [done|]. injection Hu as <-. simpl. lia. Qed.
Lemma calm_storeCode address gas r : 0 <= Gas r.2 <= gas -> calm (fun x => 0 <= Gas x.2 <= gas) (storeCode (BC:=BC) env address r).
Proof.
  intros Hr. destruct r as [[ret err] c]. unfold storeCode. simpl in Hr. destruct (match err with None => _ | Some _ => _ end); [by apply calm_ret|].
  pose proof (u64_nonneg (zlen ret * CreateDataGas)). destruct (UseGas _ c) as [c'|] eqn:Eu; [|by apply calm_ret].
  apply UseGas_left in Eu; [|done]. eapply calm_bind; [by apply (calm_doState _ (OSetCode address ret))|]. intros _ _. apply calm_ret. simpl. lia.
Qed.
Lemma from_created s gas ret a err g : 0 <= g <= gas -> from s now (created gas) (mret (ret, a, g, err) : ST E _).
Proof. intros Hg. by apply from_ret. Qed.
Lemma from_if {A} s I (K : A -> StateDB -> Prop) (b : bool) (m1 m2 : ST E A) : from s I K m1 -> from s I K m2 -> from s I K (if b then m1 else m2).
Proof. by destruct b. Qed.
Lemma from_then {A B} s (gas : Z) (m : ST E A) (f : A -> ST E B) (K : B -> StateDB -> Prop) : calm any m -> (forall a, from s now K (f a)) -> from s now K (m ≫= f).
Proof. intros Hm Hf. eapply from_bind; [done| |intros a _; apply Hf]. done. Qed.

Lemma create_from caller code h gas value address s : fits gas -> from s now (created gas) (create (BC:=BC) env Run caller code h gas value address).
Proof.
  intros Hg. assert (Hg0 : 0 <= gas) by (unfold fits in *; lia). unfold create. apply from_get. intros e.
  apply from_if; [by apply from_created|]. apply from_if; [by apply from_created|]. apply (from_then _ gas); [apply calm_CanTransfer|]. intros can.
  apply from_if; [by apply from_created|]. apply (from_then _ gas); [apply calm_GetNonce|]. intros nonce. apply from_if; [by apply from_created|].
  apply (from_then _ gas); [by apply (calm_doState _ (OSetNonce (refAddress caller) (nonce +w 1)))|]. intros _.
  apply (from_then _ gas). { case_match; [by apply (calm_doState _ (OAddAddress address))|by apply calm_ret]. } intros _.
  apply (from_then _ gas); [apply calm_GetCodeHash|]. intros ch. apply (from_then _ gas); [apply calm_GetNonce|]. intros taken. apply from_if; [by apply from_created|].
  apply from_snapshot. intros sb Hs _. eapply within_bind; [done|by apply (calm_doState _ (OCreateAccount address))|]. intros _ _.
  eapply (within_bind _ _ any); [done|case_match; [by apply (calm_doState _ (OSetNonce address 1))|by apply calm_ret]|]. intros _ _.
  eapply within_bind; [done|apply calm_Transfer|]. intros _ _. case_match; [by apply within_ret|].
  eapply within_bind; [done|apply calm_adopt|]. intros _ _. eapply within_bind; [done|destruct Hg as [Hg1 Hg2]; by apply HRun|]. intros r Hr.
  eapply within_bind; [done|by apply (calm_storeCode address gas)|]. intros [err c] Hc. simpl in Hc.
  destruct err as [x|]; [|by apply within_ret]. case_match; [|by apply within_ret]. apply within_revert; [done|]. intros s' _. unfold created. simpl. destruct (decide _); lia.
Qed.
Lemma Create_from caller code gas value s : fits gas -> from s now (created gas) (Create (BC:=BC) env Run caller code gas value).
Proof. intros Hg. apply (from_then _ gas); [apply calm_GetNonce|]. intros nonce. by apply create_from. Qed.
Lemma Create2_from caller code gas value salt s : fits gas -> from s now (created gas) (Create2 (BC:=BC) env Run caller code gas value salt).
Proof. intros Hg. by apply create_from. Qed.
End Entries.

(** ** Instructions that call *)
Section Calling.
Context {BC : Type} `{Backend} `{Uint256} `{Runtime} `{Cache BC Hash bitvec}.
Variable env : VMEnv.
Abbreviation E := (EVM BC).
Abbreviation V := (V (BC := BC)).
Implicit Types v : V.
Variable n : Z.
Variable Run : Contract -> list byte -> bool -> ST E (list byte * option error * Contract).
Hypothesis HRun : run_ok n Run.

Definition shape v : Z * Z := (Len (mem v.2), lastGasCost (mem v.2)).
(** An instruction that started at [v0] ends with at most [top] gas. *)
Definition executed {A} (v0 : V) (top : Z) (x : res A * V) : Prop :=
  run (db v0) (db x.2) /\ x.1 <> Err ErrOutOfFuel /\ shape x.2 = shape v0 /\ 0 <= gasOf x.2 <= top.
(** On its way: nothing but the stack [k] changed. *)
Definition goes {A} (v0 : V) (top : Z) (k : Stack) (m : ST V A) : Prop :=
  forall v, run (db v0) (db v) -> purse v = purse v0 -> stack v.2 = k -> executed v0 top (m v).

Lemma executed_stuck {A} v0 top v (r : res A) : 0 <= gasOf v0 <= top -> run (db v0) (db v) -> purse v = purse v0 -> r <> Err ErrOutOfFuel -> executed v0 top (r, v).
Proof. intros Ht Hr Hp Hf. unfold purse in Hp. injection Hp as Hg _ Hl Hc. split; [done|]. split; [done|]. unfold shape. simpl. rewrite Hl, Hc, Hg. done. Qed.
Lemma goes_tame {A} v0 top k (m : ST V A) : 0 <= gasOf v0 <= top -> tame purse m -> goes v0 top k m.
Proof.
  intros Ht Hm v Hr Hp _. destruct (Hm v) as (Hr1 & Hf & Hp1). destruct (m v) as [r v1]. simpl in *. apply executed_stuck; [done|by eapply run_trans|congruence|done].
Qed.
Lemma goes_pop {A} v0 top k (f : Z -> ST V A) : 0 <= gasOf v0 <= top -> (forall x k', k = x :: k' -> goes v0 top k' (f x)) -> goes v0 top k (popV ≫= f).
Proof.
  intros Ht Hf v Hr Hp Hk. unfold popV, getFrame, setFrame, pop, mbind, st_bind. cbn. rewrite Hk. destruct k as [|x k']; cbn; [by apply executed_stuck|].
  by apply (Hf x k' eq_refl (v.1, set_stack k' v.2)).
Qed.
Lemma goes_keep {A B} v0 top k (m : ST V A) (f : A -> ST V B) : 0 <= gasOf v0 <= top -> tame purse m -> st_keeps (fun v => stack v.2) m ->
  (forall a, goes v0 top k (f a)) -> goes v0 top k (m ≫= f).
Proof.
  intros Ht Hm Hs Hf v Hr Hp Hk. destruct (Hm v) as (Hr1 & Hnf & Hp1). specialize (Hs v). unfold mbind, st_bind.
  destruct (m v) as [[a|y|] v1]; simpl in *; [|apply executed_stuck; try done; [by eapply run_trans|congruence|congruence]|apply executed_stuck; try done; [by eapply run_trans|congruence]].
  apply Hf; [by eapply run_trans|congruence|congruence].
Qed.
Lemma goes_temp {A} v0 top k (f : Z -> ST V A) : goes v0 top k (f (callGasTemp v0.1)) -> goes v0 top k (callTemp ≫= f).
Proof.
  intros Hf v Hr Hp Hk. unfold callTemp, mbind, st_bind. cbn. assert (callGasTemp v.1 = callGasTemp v0.1) as -> by (unfold purse in Hp; by injection Hp as _ -> _ _).
  by apply Hf.
Qed.
Lemma goes_contract {A} v0 top k (f : Contract -> ST V A) : (forall c, Gas c = gasOf v0 -> goes v0 top k (f c)) -> goes v0 top k (getContract ≫= f).
Proof. intros Hf v Hr Hp Hk. unfold purse in Hp. apply (Hf (contract v.2)); [by injection Hp|done|unfold purse; congruence|done]. Qed.

Lemma keeps_memPtr x y : st_keeps (fun v : V => stack v.2) (memPtr x y). Proof. by intros v. Qed.

(** What a call gives back is added. *)
Lemma finishCall_executed v0 top v k x y (r : outcome) : run (db v0) (db v) -> shape v = shape v0 -> stack v.2 = k -> 0 <= gasOf v -> 0 <= r.1.2 ->
  gasOf v + r.1.2 <= top -> top < 2 ^ 64 -> executed v0 top (finishCall x y r v).
Proof.
  intros Hr Hs Hk Hg Hl Ht Hb. destruct r as [[ret left_] err]. simpl in Hl, Ht. unfold finishCall.
  assert (Hpre : tame (purse (BC:=BC)) (_ ← pushV (match err with None => 1 | Some _ => 0 end); match err with None | Some ErrExecutionReverted => memSet x y ret | Some _ => mret tt end)).
  { apply tame_bind; [apply tame_pushV|]. intros _. destruct err as [[]|]; apply tame_ret || apply tame_memSet. }
  destruct (Hpre v) as (Hr1 & Hf1 & Hp1). revert Hr1 Hf1 Hp1. unfold mbind, st_bind. destruct (pushV _ v) as [[u|e1|] v1]; [|intros Hr1 Hf1 Hp1..].
  - destruct ((match err with None | Some ErrExecutionReverted => memSet x y ret | Some _ => mret tt end : ST V unit) v1) as [[u2|e2|] v2]; intros Hr1 Hf1 Hp1; simpl in *;
      unfold purse in Hp1; injection Hp1 as Hg1 _ Hl1 Hc1; (split; [by eapply run_trans|]; split; [done || (simpl in *; congruence)|]; unfold shape in *; simpl; rewrite Hl1, Hc1; split; [done|]).
    + unfold gasOf in *. simpl. rewrite Hg1. rewrite u64_small by (unfold is_u64; lia). lia.
    + lia.
    + lia.
  - simpl in *. unfold purse in Hp1. injection Hp1 as Hg1 _ Hl1 Hc1. split; [by eapply run_trans|]. split; [simpl in *; congruence|]. unfold shape in *. simpl. rewrite Hl1, Hc1, Hg1. split; [done|lia].
  - simpl in *. unfold purse in Hp1. injection Hp1 as Hg1 _ Hl1 Hc1. split; [by eapply run_trans|]. split; [done|]. unfold shape in *. simpl. rewrite Hl1, Hc1, Hg1. split; [done|lia].
Qed.
(** A call that ends, from within an instruction. *)
Lemma goes_call v0 top k gas x y (m : ST E outcome) : (forall s, from s (kept s) (call_ends s gas) m) -> 0 <= gasOf v0 -> 0 <= gas -> gasOf v0 + gas <= top -> top < 2 ^ 64 ->
  goes v0 top k (r ← on_evm m; finishCall x y r).
Proof.
  intros Hm Hg Hgas Ht Hb v Hr Hp Hk. unfold purse in Hp. injection Hp as Hgv _ Hl Hc. unfold mbind, st_bind, on_evm.
  destruct (Hm (StateDB_ v.1) v.1 (run_done _) (kept_refl _)) as (Hr1 & Hn & HK). destruct (m v.1) as [r e1]. simpl in *.
  assert (Hrun1 : run (db v0) (StateDB_ e1)) by (by eapply run_trans).
  assert (Hsame : shape (e1, v.2) = shape v0) by (unfold shape; simpl; by rewrite Hl, Hc).
  assert (Hge : gasOf (e1, v.2) = gasOf v0) by exact Hgv. destruct r as [r|z|]; [|by destruct (Hn z)|].
  - destruct (HK r eq_refl) as [Hleft _]. unfold left_of in Hleft. eapply finishCall_executed; try done; rewrite ?Hge; lia.
  - split; [done|]. split; [done|]. split; [done|]. simpl. rewrite Hge. lia.
Qed.

Ltac pops Hk := repeat (apply goes_pop; [lia|]; let x := fresh "x" in let k := fresh "k'" in let Hx := fresh Hk in intros x k Hx).

(** What an instruction needs to find: the gas set aside, the fee for the value. *)
Definition affordable v0 (fee top : Z) : Prop :=
  0 <= gasOf v0 /\ 0 <= callGasTemp v0.1 /\ callGasTemp v0.1 + fee < n /\ gasOf v0 + callGasTemp v0.1 + fee <= top /\ top < 2 ^ 64.

Lemma feeOf_nonneg k : 0 <= feeOf k.
Proof. unfold feeOf. repeat case_match; unfold CallValueTransferGas; lia. Qed.
Lemma stipend_fits v0 top k (x : Z) : affordable v0 (feeOf k) top -> k !! 2%nat = Some x ->
  let gas := if x =? 0 then callGasTemp v0.1 else callGasTemp v0.1 +w CallStipend in fits n gas /\ 0 <= gas /\ gasOf v0 + gas <= top.
Proof.
  unfold affordable, feeOf, CallValueTransferGas, CallStipend, fits. intros Ha Hx. rewrite Hx in Ha. destruct (x =? 0); [lia|].
  rewrite u64_small by (unfold is_u64; lia). lia.
Qed.

Lemma opCall_goes v0 top : affordable v0 (feeOf (stack v0.2)) top -> goes v0 top (stack v0.2) (opCall env Run).
Proof.
  intros Ha. pose proof (feeOf_nonneg (stack v0.2)). assert (0 <= gasOf v0 <= top) by (unfold affordable in Ha; lia). assert (top < 2 ^ 64) by apply Ha.
  unfold opCall. apply goes_pop; [done|]. intros x0 k0 H0'. apply goes_temp. apply goes_pop; [done|]. intros addr k1 H1'. apply goes_pop; [done|]. intros val k2 H2'.
  destruct (stipend_fits v0 top _ val Ha) as (Hf & Hg & Ht); [by rewrite H0', H1', H2'|].
  do 4 (apply goes_pop; [done|]; intros ? ? ?). apply goes_keep; [done|apply tame_memPtr|apply keeps_memPtr|]. intros args. apply goes_contract. intros c Hc.
  eapply goes_call; [|lia|exact Hg|exact Ht|done]. intros s. by apply (Call_from env n Run HRun).
Qed.
Lemma opCallCode_goes v0 top : affordable v0 (feeOf (stack v0.2)) top -> goes v0 top (stack v0.2) (opCallCode env Run).
Proof.
  intros Ha. pose proof (feeOf_nonneg (stack v0.2)). assert (0 <= gasOf v0 <= top) by (unfold affordable in Ha; lia). assert (top < 2 ^ 64) by apply Ha.
  unfold opCallCode. apply goes_pop; [done|]. intros x0 k0 H0'. apply goes_temp. apply goes_pop; [done|]. intros addr k1 H1'. apply goes_pop; [done|]. intros val k2 H2'.
  destruct (stipend_fits v0 top _ val Ha) as (Hf & Hg & Ht); [by rewrite H0', H1', H2'|].
  do 4 (apply goes_pop; [done|]; intros ? ? ?). apply goes_keep; [done|apply tame_memPtr|apply keeps_memPtr|]. intros args. apply goes_contract. intros c Hc.
  eapply goes_call; [|lia|exact Hg|exact Ht|done]. intros s. by apply (CallCode_from env n Run HRun).
Qed.
Lemma opDelegateCall_goes v0 top : affordable v0 0 top -> goes v0 top (stack v0.2) (opDelegateCall env Run).
Proof.
  intros Ha. assert (0 <= gasOf v0 <= top) by (unfold affordable in Ha; lia). unfold affordable in Ha.
  unfold opDelegateCall. apply goes_pop; [done|]. intros x0 k0 _. apply goes_temp.
  do 5 (apply goes_pop; [done|]; intros ? ? ?). apply goes_keep; [done|apply tame_memPtr|apply keeps_memPtr|]. intros args. apply goes_contract. intros c Hc.
  eapply (goes_call _ _ _ (callGasTemp v0.1)); try lia. intros s. apply (DelegateCall_from env n Run HRun). unfold fits. lia.
Qed.
Lemma opStaticCall_goes v0 top : affordable v0 0 top -> goes v0 top (stack v0.2) (opStaticCall env Run).
Proof.
  intros Ha. assert (0 <= gasOf v0 <= top) by (unfold affordable in Ha; lia). unfold affordable in Ha.
  unfold opStaticCall. apply goes_pop; [done|]. intros x0 k0 _. apply goes_temp.
  do 5 (apply goes_pop; [done|]; intros ? ? ?). apply goes_keep; [done|apply tame_memPtr|apply keeps_memPtr|]. intros args. apply goes_contract. intros c Hc.
  eapply (goes_call _ _ _ (callGasTemp v0.1)); try lia. intros s. apply (StaticCall_from env n Run HRun). unfold fits. lia.
Qed.

(** A creation gives what it takes from the creator. *)
Lemma finishCreate_executed v0 top v failed (r : list byte * Address * Z * option error) : run (db v0) (db v) -> shape v = shape v0 -> 0 <= gasOf v -> 0 <= r.1.2 ->
  gasOf v + r.1.2 <= top -> top < 2 ^ 64 -> executed v0 top (finishCreate failed r v).
Proof.
  intros Hr Hs Hg Hl Ht Hb. destruct r as [[[res addr] left_] err]. simpl in Hl, Ht. unfold finishCreate, pushV, setFrame, mbind, st_bind. cbn.
  split; [done|]. split; [done|]. split; [exact Hs|]. unfold gasOf in *. cbn. rewrite u64_small by (unfold is_u64; lia). lia.
Qed.
Lemma goes_create v0 top k gas failed (m : Contract -> ST E (list byte * Address * Z * option error)) : (forall c s, from s now (created gas) (m c)) ->
  0 <= gas <= gasOf v0 -> gasOf v0 <= top -> top < 2 ^ 64 ->
  goes v0 top k (_ ← useGas gas; c ← getContract; r ← on_evm (m c); finishCreate failed r).
Proof.
  intros Hm Hg Ht Hb v Hr Hp Hk. unfold purse in Hp. injection Hp as Hgv _ Hl Hc. unfold useGas, UseGas, getContract, getFrame, setFrame, on_evm, mbind, st_bind. cbn.
  unfold gasOf in Hgv at 1. rewrite Hgv. destruct (Z.ltb_spec (gasOf v0) gas); [lia|]. cbn. set (c := set_Gas _ _).
  destruct (Hm c (StateDB_ v.1) v.1 (run_done _)) as (Hr1 & Hn & HK); [done|]. destruct (m c v.1) as [r e1]. simpl in *.
  assert (Hrun1 : run (db v0) (StateDB_ e1)) by (by eapply run_trans).
  assert (Hsame : shape (e1, set_contract c v.2) = shape v0) by (unfold shape; simpl; by rewrite Hl, Hc).
  assert (Hge : gasOf (e1, set_contract c v.2) = gasOf v0 - gas) by done.
  destruct r as [r|z|]; [|by destruct (Hn z)|].
  - specialize (HK r eq_refl). unfold created in HK. eapply finishCreate_executed; try done; rewrite ?Hge; lia.
  - split; [done|]. split; [done|]. split; [done|]. simpl. rewrite Hge. lia.
Qed.
Lemma opCreate_goes v0 top : 0 <= gasOf v0 <= top -> gasOf v0 < n -> top < 2 ^ 64 -> goes v0 top (stack v0.2) (opCreate env Run).
Proof.
  intros Hg Hn Hb. unfold opCreate. do 3 (apply goes_pop; [done|]; intros ? ? ?). apply goes_keep; [done|apply tame_memPtr|apply keeps_memPtr|]. intros input.
  apply goes_contract. intros c Hc. assert (Hgas : 0 <= (if rIsEIP150 (chainRules env) then Gas c -w Gas c / 64 else Gas c) <= gasOf v0).
  { rewrite Hc. case_match; [|lia]. rewrite u64_small; [lia|]. unfold is_u64. lia. }
  eapply (goes_create _ _ _ _ _ (fun c => Create env Run (ContractCaller c) input _ _)); [|exact Hgas|lia|exact Hb]. intros c' s. apply (Create_from env n Run HRun). unfold fits. lia.
Qed.
Lemma opCreate2_goes v0 top : 0 <= gasOf v0 <= top -> gasOf v0 < n -> top < 2 ^ 64 -> goes v0 top (stack v0.2) (opCreate2 env Run).
Proof.
  intros Hg Hn Hb. unfold opCreate2. do 4 (apply goes_pop; [done|]; intros ? ? ?). apply goes_keep; [done|apply tame_memPtr|apply keeps_memPtr|]. intros input.
  apply goes_contract. intros c Hc. assert (Hgas : 0 <= Gas c -w Gas c / 64 <= gasOf v0).
  { rewrite Hc. rewrite u64_small; [lia|]. unfold is_u64. lia. }
  eapply (goes_create _ _ _ _ _ (fun c => Create2 env Run (ContractCaller c) input _ _ _)); [|exact Hgas|lia|exact Hb]. intros c' s. apply (Create2_from env n Run HRun). unfold fits. lia.
Qed.

(** ** Operations *)

Definition finishes (o : operation (BC := BC)) : bool := halts o || reverts o.
Definition price (o : operation (BC := BC)) (x : Z) v : res Z * V := match dynamicGas o with None => (Ok 0, v) | Some f => f x v end.
(** The price is sound, and the instruction spends what was paid for it. *)
Definition op_sound (o : operation (BC := BC)) : Prop := 0 <= constantGas o /\ forall x v, whole x -> paid (mem v.2) -> 0 <= gasOf v ->
  gasOf v + constantGas o <= n -> gasOf v + constantGas o < 2 ^ 64 ->
  run (db v) (db (price o x v).2) /\ (price o x v).1 <> Err ErrOutOfFuel /\ 0 <= gasOf (price o x v).2 <= gasOf v /\
  pend x (mem (price o x v).2.2) /\
  forall cost, (price o x v).1 = Ok cost -> gasOf (price o x v).2 = gasOf v /\ 0 <= cost /\
    forall v2, gasOf v2 = gasOf v - cost -> 0 <= gasOf v2 -> callGasTemp v2.1 = callGasTemp (price o x v).2.1 -> stack v2.2 = stack (price o x v).2.2 ->
      executed v2 (gasOf v) (execute o v2) /\ (finishes o = false -> gasOf (execute o v2).2 < gasOf v + constantGas o).

Record priced (f : Z -> ST V Z) : Prop := {
  priced_tame : forall x, tame bill (f x);
  priced_pend : forall x, whole x -> preserves (fun v => pend x (mem v.2)) (f x);
  priced_nonneg : forall x, yields (fun c => 0 <= c) (f x);
}.
Definition earns (o : operation (BC := BC)) : Prop :=
  0 < constantGas o \/ finishes o = true \/ exists f, dynamicGas o = Some f /\ forall x, yields (fun c => 0 < c) (f x).
Definition cheap (o : operation (BC := BC)) : Prop := 0 <= constantGas o /\ forall f, dynamicGas o = Some f -> priced f.

Lemma cheap_price o x v : cheap o -> whole x -> paid (mem v.2) -> 0 <= gasOf v ->
  run (db v) (db (price o x v).2) /\ (price o x v).1 <> Err ErrOutOfFuel /\ bill (price o x v).2 = bill v /\ pend x (mem (price o x v).2.2) /\
  forall cost, (price o x v).1 = Ok cost -> 0 <= cost.
Proof.
  intros [_ Hd] Hx Hp Hg. unfold price. destruct (dynamicGas o) as [f|]; cycle 1.
  { split; [constructor|]. split; [done|]. split; [done|]. split; [by apply paid_pend|]. by intros ? [= <-]. }
  destruct (Hd f eq_refl) as [Ht Hpe Hn]. destruct (Ht x v) as (Hr & Hf & Hb). repeat (split; [done|]). split; [by apply Hpe, paid_pend|].
  intros cost Hc. specialize (Hn x v cost (f x v).2). apply Hn. by rewrite <- Hc, <- surjective_pairing.
Qed.
Lemma bill_gas v v' : bill v' = bill v -> gasOf v' = gasOf v /\ callGasTemp v'.1 = callGasTemp v.1 /\ stack v'.2 = stack v.2.
Proof. unfold bill. intros Hb. by injection Hb as -> -> -> _. Qed.

Lemma plain_sound o : cheap o -> tame purse (execute o) -> earns o -> op_sound o.
Proof.
  intros Hc He Hea. split; [apply Hc|]. intros x v Hx Hp Hg Hn Hb. destruct (cheap_price o x v Hc Hx Hp Hg) as (Hr & Hf & Hbi & Hpe & Hco).
  apply bill_gas in Hbi as (Hg1 & Ht1 & Hs1). split; [done|]. split; [done|]. split; [lia|]. split; [done|]. intros cost Hcost. specialize (Hco cost Hcost).
  split; [done|]. split; [done|]. intros v2 Hv2 Hpos _ _. destruct (He v2) as (Hr2 & Hf2 & Hp2). unfold purse in Hp2. injection Hp2 as Hg2 _ Hl2 Hc2.
  split; [split; [done|]; split; [done|]; split; [unfold shape; by rewrite Hl2, Hc2|lia]|]. intros Hfin. destruct Hea as [Hpo|[Hfi|(f & Hd & Hpos')]]; [lia|congruence|].
  assert (0 < cost); [|destruct Hc as [? _]; lia]. unfold price in Hcost. rewrite Hd in Hcost. apply (Hpos' x v cost (f x v).2). by rewrite <- Hcost, <- surjective_pairing.
Qed.
Lemma create_sound o : cheap o -> 0 < constantGas o -> execute o = opCreate env Run \/ execute o = opCreate2 env Run -> op_sound o.
Proof.
  intros Hc Hpos He. split; [apply Hc|]. intros x v Hx Hp Hg Hn Hb. destruct (cheap_price o x v Hc Hx Hp Hg) as (Hr & Hf & Hbi & Hpe & Hco).
  apply bill_gas in Hbi as (Hg1 & Ht1 & Hs1). split; [done|]. split; [done|]. split; [lia|]. split; [done|]. intros cost Hcost. specialize (Hco cost Hcost).
  split; [done|]. split; [done|]. intros v2 Hv2 Hp2 _ _. assert (Hex : executed v2 (gasOf v) (execute o v2)).
  { destruct He as [-> | ->]; [apply opCreate_goes|apply opCreate2_goes]; try done; try lia; apply run_done. }
  split; [done|]. intros _. destruct Hex as (_ & _ & _ & Hle). lia.
Qed.
Lemma call_sound (valued : bool) o f : dynamicGas o = Some f -> call_price valued f -> 0 < constantGas o ->
  (if valued then execute o = opCall env Run \/ execute o = opCallCode env Run else execute o = opDelegateCall env Run \/ execute o = opStaticCall env Run) -> op_sound o.
Proof.
  intros Hd Hf Hpos He. split; [lia|]. intros x v Hx Hp Hg Hn Hb. destruct (Hf x v Hx Hp) as (Hr & Hnf & Hg1 & Hpe & Hc); [unfold u64able; lia|].
  unfold price. rewrite Hd. split; [done|]. split; [done|]. split; [done|]. split; [by apply Hpe, paid_pend|]. intros cost Hcost.
  destruct (Hc cost Hcost) as (Hg2 & Hs2 & Ht & Hle). split; [done|]. assert (Hfee : 0 <= if valued then feeOf (stack v.2) else 0) by (destruct valued; [apply feeOf_nonneg|lia]).
  split; [lia|]. intros v2 Hv2 Hp2 Ht2 Hst. rewrite Hs2 in Hst.
  assert (Ha : affordable v2 (if valued then feeOf (stack v2.2) else 0) (gasOf v)) by (unfold affordable; rewrite Hst, Ht2; lia).
  assert (Hex : executed v2 (gasOf v) (execute o v2)).
  { destruct valued, He as [-> | ->]; [apply opCall_goes|apply opCallCode_goes|apply opDelegateCall_goes|apply opStaticCall_goes]; try done; apply run_done. }
  split; [done|]. intros _. destruct Hex as (_ & _ & _ & ?). lia.
Qed.
End Calling.

(** ** The tables of the forks *)
Section Sound.
Context {BC : Type} `{Backend} `{Uint256} `{Runtime} `{Cache BC Hash bitvec}.
Variable env : VMEnv.
Abbreviation E := (EVM BC).
Abbreviation V := (V (BC := BC)).
Variable n : Z.
Variable Run : Contract -> list byte -> bool -> ST E (list byte * option error * Contract).
Hypothesis HRun : run_ok n Run.

Lemma preserves_pend_tame {A} x (m : ST V A) : tame purse m -> preserves (fun v => pend x (mem v.2)) m.
Proof.
  intros Hm v Hp. destruct (Hm v) as (_ & _ & He). unfold purse in He. destruct (m v) as [r v1]. simpl in *. injection He as _ _ Hl Hc. unfold pend in *.
  unfold Len in *. unfold zlen in *. by rewrite Hl, Hc.
Qed.
Lemma priced_flat (f : Z -> ST V Z) : (forall {X} (obs : V -> X), Private obs -> forall x, tame obs (f x)) -> (forall x, yields (fun c => 0 <= c) (f x)) -> priced f.
Proof. intros Ht Hy. split; [intros x; apply Ht, _|intros x _; apply preserves_pend_tame, Ht, _|done]. Qed.
Lemma yields_pos (f : Z -> ST V Z) : (forall x, yields (fun c => 0 < c) (f x)) -> forall x, yields (fun c => 0 <= c) (f x).
Proof. intros Hf x. eapply yields_weaken, Hf. simpl. lia. Qed.

Lemma pend_bind {A B} x (m : ST V A) (f : A -> ST V B) : preserves (fun v => pend x (mem v.2)) m -> (forall a, tame purse (f a)) -> preserves (fun v => pend x (mem v.2)) (m ≫= f).
Proof. intros Hm Hf. apply preserves_bind; [done|]. intros a. by apply preserves_pend_tame. Qed.
Ltac tails := repeat first [apply tame_checked, _ | apply tame_asUint64, _ | tame_step].
Lemma priced_memory : priced (BC:=BC) pureMemoryGascost.
Proof. split; [apply tame_memoryGasCost|apply preserves_memoryGasCost|apply yields_memoryGasCost]. Qed.
Lemma preserves_memoryCopierGas k x : whole x -> preserves (fun v => pend x (mem v.2)) (memoryCopierGas (BC:=BC) k x).
Proof. intros Hx. apply pend_bind; [by apply preserves_memoryGasCost|]. intros gas. tails. Qed.
Lemma priced_copy k : priced (BC:=BC) (memoryCopierGas k).
Proof. split; [apply tame_memoryCopierGas|apply preserves_memoryCopierGas|apply yields_memoryCopierGas]. Qed.
Lemma priced_hashed k : priced (BC:=BC) (hashedGas k).
Proof.
  split; [apply tame_hashedGas| |apply yields_hashedGas]. intros x Hx. apply pend_bind; [by apply preserves_memoryGasCost|]. intros gas. tails.
Qed.
Lemma priced_log k : priced (BC:=BC) (makeGasLog k).
Proof.
  split; [apply tame_makeGasLog| |apply yields_pos, yields_makeGasLog]. intros x Hx. unfold makeGasLog.
  apply preserves_bind; [apply preserves_pend_tame; tails|]. intros size. apply preserves_bind; [apply preserves_pend_tame; tails|]. intros req.
  apply pend_bind; [by apply preserves_memoryGasCost|]. intros gas. tails.
Qed.
Lemma priced_extcopy : priced (BC:=BC) gasExtCodeCopyEIP2929.
Proof.
  split; [apply tame_gasExtCodeCopyEIP2929| |apply yields_gasExtCodeCopyEIP2929]. intros x Hx. apply pend_bind; [by apply preserves_memoryCopierGas|].
  intros gas. apply tame_bind; [tame_tac|]. intros a. apply tame_bind; [apply tame_warm, _|]. intros w. tails.
Qed.
Lemma priced_exp k : priced (BC:=BC) (expGas k).
Proof. apply priced_flat; [intros; by apply tame_expGas|apply yields_pos, yields_expGas]. Qed.
Lemma priced_sstore : priced (BC:=BC) (gasSStore env).
Proof. apply priced_flat; [intros; by apply tame_gasSStore|apply yields_pos, yields_gasSStore]. Qed.
Lemma priced_sstore2200 : priced (BC:=BC) gasSStoreEIP2200.
Proof. apply priced_flat; [intros; by apply tame_gasSStoreEIP2200|apply yields_pos, yields_gasSStoreEIP2200]. Qed.
Lemma priced_sstore2929 c : priced (BC:=BC) (makeGasSStoreFunc c).
Proof. apply priced_flat; [intros; by apply tame_makeGasSStoreFunc|apply yields_pos, yields_makeGasSStoreFunc]. Qed.
Lemma priced_sload : priced (BC:=BC) gasSLoadEIP2929.
Proof. apply priced_flat; [intros; by apply tame_gasSLoadEIP2929|apply yields_pos, yields_gasSLoadEIP2929]. Qed.
Lemma priced_account : priced (BC:=BC) gasEip2929AccountCheck.
Proof. apply priced_flat; [intros; by apply tame_gasEip2929AccountCheck|apply yields_gasEip2929AccountCheck]. Qed.
Lemma priced_selfdestruct : priced (BC:=BC) (gasSelfdestruct env).
Proof. apply priced_flat; [intros; by apply tame_gasSelfdestruct|apply yields_gasSelfdestruct]. Qed.
Lemma priced_selfdestruct2929 b : priced (BC:=BC) (makeSelfdestructGasFn b).
Proof. apply priced_flat; [intros; by apply tame_makeSelfdestructGasFn|apply yields_makeSelfdestructGasFn]. Qed.
End Sound.
#[export] Hint Resolve priced_memory priced_copy priced_hashed priced_log priced_extcopy priced_exp priced_sstore priced_sstore2200 priced_sstore2929
  priced_sload priced_account priced_selfdestruct priced_selfdestruct2929 : tame.

Section TableFacts.
Context {BC : Type} `{Backend} `{Uint256} `{Runtime} `{Cache BC Hash bitvec}.
Variable env : VMEnv.
Abbreviation E := (EVM BC).
Abbreviation V := (V (BC := BC)).
Abbreviation operation := (operation (BC := BC)).
Variable Run : Contract -> list byte -> bool -> ST E (list byte * option error * Contract).

(** What the operation at each place of a table is. *)
Definition special (op : Z) : bool := existsb (fun p => p =? op) [Op.CALL; Op.CALLCODE; Op.DELEGATECALL; Op.STATICCALL; Op.CREATE; Op.CREATE2; Op.SELFDESTRUCT].
Definition is_call (o : operation) : Prop := exists valued f, dynamicGas o = Some f /\ call_price valued f /\ 0 < constantGas o /\
  (if valued then execute o = opCall env Run \/ execute o = opCallCode env Run else execute o = opDelegateCall env Run \/ execute o = opStaticCall env Run).
Definition is_create (o : operation) : Prop := cheap o /\ 0 < constantGas o /\ (execute o = opCreate env Run \/ execute o = opCreate2 env Run).
Definition is_plain (o : operation) : Prop := cheap o /\ tame purse (execute o) /\ earns o.
Definition placed (op : Z) (o : operation) : Prop :=
  if special op then
    if op =? Op.CALL then constantGas o > 0 /\ execute o = opCall env Run /\ exists f, dynamicGas o = Some f /\ call_price true f
    else if op =? Op.CALLCODE then constantGas o > 0 /\ execute o = opCallCode env Run /\ exists f, dynamicGas o = Some f /\ call_price true f
    else if op =? Op.DELEGATECALL then constantGas o > 0 /\ execute o = opDelegateCall env Run /\ exists f, dynamicGas o = Some f /\ call_price false f
    else if op =? Op.STATICCALL then constantGas o > 0 /\ execute o = opStaticCall env Run /\ exists f, dynamicGas o = Some f /\ call_price false f
    else if op =? Op.SELFDESTRUCT then cheap o /\ tame purse (execute o) /\ halts o = true
    else is_create o
  else is_plain o.
Definition placed_all (jt : JumpTable (BC := BC)) : Prop := forall op o, jt op = Some o -> placed op o.

Lemma placed_sound n op o : run_ok n Run -> placed op o -> op_sound n o.
Proof.
  intros HRun. unfold placed. repeat case_match.
  - intros (Hc & He & f & Hd & Hf). apply (call_sound env n Run HRun true o f); [done|done|lia|by left].
  - intros (Hc & He & f & Hd & Hf). apply (call_sound env n Run HRun true o f); [done|done|lia|by right].
  - intros (Hc & He & f & Hd & Hf). apply (call_sound env n Run HRun false o f); [done|done|lia|by left].
  - intros (Hc & He & f & Hd & Hf). apply (call_sound env n Run HRun false o f); [done|done|lia|by right].
  - intros (Hc & Ht & Hh). apply plain_sound; [done|done|]. right. left. unfold finishes. by rewrite Hh.
  - intros (Hc & Hp & He). by apply (create_sound env n Run HRun).
  - intros (Hc & Ht & He). by apply plain_sound.
Qed.

Lemma placed_table l : Forall (fun p => placed p.1 p.2) l -> placed_all (table l).
Proof.
  intros Hl op o. unfold table. destruct (List.find _ l) as [p|] eqn:Ef; [|done]. simpl. intros [= <-]. apply find_some in Ef as [Hin Hop].
  rewrite List.Forall_forall in Hl. specialize (Hl p Hin). apply Z.eqb_eq in Hop. by rewrite <- Hop.
Qed.
Lemma placed_define op o jt : placed op o -> placed_all jt -> placed_all (define op o jt).
Proof. intros Ho Hj p q. unfold define. destruct (Z.eqb_spec p op) as [->|]; [by intros [= <-]|apply Hj]. Qed.
Lemma placed_change op f jt : (forall o, placed op o -> placed op (f o)) -> placed_all jt -> placed_all (change op f jt).
Proof.
  intros Hf Hj p q. unfold change. destruct (Z.eqb_spec p op) as [->|]; [|apply Hj]. destruct (jt op) as [o|] eqn:Ej; [|done].
  simpl. intros [= <-]. by apply Hf, Hj.
Qed.

Lemma plain_at op o : special op = false -> cheap o -> tame purse (execute o) -> earns o -> placed op o.
Proof. intros Hs Hc Ht He. unfold placed. by rewrite Hs. Qed.
(** A constant price, or a price that is never zero. *)
Lemma plain_constant op (o : operation) : special op = false -> 0 < constantGas o -> (forall f, dynamicGas o = Some f -> priced f) -> tame purse (execute o) -> placed op o.
Proof. intros Hs Hc Hd Ht. apply plain_at; [done|split; [lia|done]|done|by left]. Qed.
Lemma plain_dynamic op (o : operation) f : special op = false -> dynamicGas o = Some f -> priced f -> (forall x, yields (fun c => 0 < c) (f x)) -> 0 <= constantGas o -> tame purse (execute o) -> placed op o.
Proof. intros Hs Hd Hf Hy Hc Ht. apply plain_at; [done|split; [done|by intros ? [= <-]%(eq_trans (eq_sym Hd))]|done|]. right. right. eauto. Qed.
Lemma plain_ending op (o : operation) : special op = false -> finishes o = true -> 0 <= constantGas o -> (forall f, dynamicGas o = Some f -> priced f) -> tame purse (execute o) -> placed op o.
Proof. intros Hs Hf Hc Hd Ht. apply plain_at; [done|done|done|by right; left]. Qed.

(** A fork that changes a price. *)
Lemma regas op x o : special op = false -> 0 < x -> placed op o -> placed op (with_gas x o).
Proof. unfold placed. intros ->. intros Hx ((Hc & Hd) & Ht & _). split; [split; [simpl; lia|done]|]. split; [done|]. by left. Qed.
Lemma redynamic op f x o : special op = false -> 0 < x -> priced f -> placed op o -> placed op (with_dynamic f (with_gas x o)).
Proof. unfold placed. intros ->. intros Hx Hf ((Hc & Hd) & Ht & _). split; [split; [simpl; lia|by intros ? [= <-]]|]. split; [done|]. by left. Qed.
Lemma redynamic_paid op f o : special op = false -> priced f -> (forall x, yields (fun c => 0 < c) (f x)) -> placed op o -> placed op (with_dynamic f o).
Proof. unfold placed. intros ->. intros Hf Hy ((Hc & Hd) & Ht & _). split; [split; [done|by intros ? [= <-]]|]. split; [done|]. right. right. by exists f. Qed.
Lemma redynamic_free op f o : special op = false -> priced f -> (forall x, yields (fun c => 0 < c) (f x)) -> placed op o -> placed op (with_dynamic f (with_gas 0 o)).
Proof. unfold placed. intros ->. intros Hf Hy ((Hc & Hd) & Ht & _). split; [split; [done|by intros ? [= <-]]|]. split; [done|]. right. right. by exists f. Qed.

Lemma special_high op : op < 0xf0 -> special op = false.
Proof.
  intros Hop. apply not_true_iff_false. unfold special. intros (p & Hin & Hp)%existsb_exists. apply Z.eqb_eq in Hp as ->.
  repeat (destruct Hin as [<- | Hin]; [by revert Hop; vm_compute|]). done.
Qed.
Lemma from_seq {A} (P : A -> Prop) (g : nat -> A) lo m : (forall k, (lo <= k < lo + m)%nat -> P (g k)) -> Forall P (g <$> seq lo m).
Proof. intros Hg. apply Forall_fmap, Forall_forall. intros k Hk%in_seq. by apply Hg. Qed.

Lemma call_regas op x o : op = Op.CALL \/ op = Op.CALLCODE \/ op = Op.DELEGATECALL -> 0 < x -> placed op o -> placed op (with_gas x o).
Proof. intros [-> | [-> | ->]] Hx; unfold placed; simpl; intros (Hc & He & Hf); repeat (split; [done || lia|]); done. Qed.

Ltac head t := match t with ?f _ => head f | _ => t end.
(** An instruction that only touches the stack, the memory and the state. *)
Ltac exec_tac :=
  cbn [execute plain halting writing with_memory with_dynamic with_gas jumping reverting returning snd fst];
  lazymatch goal with
  | |- tame _ (opSha3 _) => apply tame_sha3
  | |- tame _ opBalance => apply tame_balance
  | |- tame _ opExtCodeSize => apply tame_codesize
  | |- tame _ opExtCodeHash => apply tame_codehash
  | |- tame _ opSload => apply tame_sload
  | |- tame _ (makePush _ _) => apply tame_makePush
  | |- tame _ (makeDup _) => apply tame_makeDup
  | |- tame _ (makeSwap _) => apply tame_makeSwap
  | |- tame _ (makeLog _ _) => apply tame_makeLog
  | |- tame _ opSuicide => apply tame_suicide
  | |- tame _ opMstore => apply tame_mstore
  | |- tame _ opMstore8 => apply tame_mstore8
  | |- tame _ ?t =>
      let h := head t in unfold h;
      lazymatch goal with
      | |- tame _ (binary _) => apply tame_binary
      | |- tame _ (unary _) => apply tame_unary
      | |- tame _ (ternary _) => apply tame_ternary
      | |- tame _ (pushing _) => apply tame_pushing
      | |- _ => unfold nothing; tame_tac
      end
  end.
(** The prices of a table. *)
Ltac price_tac :=
  cbn [dynamicGas plain halting writing with_memory with_dynamic with_gas jumping reverting returning snd fst];
  let f := fresh in let Hf := fresh in intros f Hf; try discriminate Hf; injection Hf as <-;
  lazymatch goal with
  | |- priced pureMemoryGascost => apply priced_memory
  | |- priced (gasSStore _) => apply priced_sstore
  | |- priced (makeGasLog _) => apply priced_log
  | |- priced (gasSelfdestruct _) => apply priced_selfdestruct
  | |- priced gasExpFrontier => apply priced_exp
  | |- priced gasSha3 => apply priced_hashed
  | |- priced gasCreate2 => apply priced_hashed
  | |- _ => apply priced_copy
  end.
Ltac by_constant := apply plain_constant; [vm_compute; reflexivity|vm_compute; reflexivity|price_tac|exec_tac].

Ltac by_ending := apply plain_ending; [vm_compute; reflexivity|vm_compute; reflexivity|vm_compute; congruence|price_tac|exec_tac].
Ltac by_price H := eapply plain_dynamic; [vm_compute; reflexivity|reflexivity| |apply H|vm_compute; congruence|exec_tac].

Lemma pushes_placed : Forall (fun p => placed p.1 p.2) (pushes (BC := BC)).
Proof.
  apply from_seq. intros k Hk. cbn [fst snd]. apply plain_constant; [apply special_high; unfold Op.PUSH1; lia|vm_compute; reflexivity|price_tac|exec_tac].
Qed.
Lemma dups_placed : Forall (fun p => placed p.1 p.2) (dups (BC := BC)).
Proof.
  apply from_seq. intros k Hk. cbn [fst snd]. apply plain_constant; [apply special_high; unfold Op.DUP1; lia|vm_compute; reflexivity|price_tac|exec_tac].
Qed.
Lemma swaps_placed : Forall (fun p => placed p.1 p.2) (swaps (BC := BC)).
Proof.
  apply from_seq. intros k Hk. cbn [fst snd]. apply plain_constant; [apply special_high; unfold Op.SWAP1; lia|vm_compute; reflexivity|price_tac|exec_tac].
Qed.
Lemma logs_placed : Forall (fun p => placed p.1 p.2) (logOps (BC := BC) env).
Proof.
  apply from_seq. intros k Hk. cbn [fst snd]. eapply plain_dynamic; [apply special_high; unfold Op.LOG0; lia|reflexivity|apply priced_log|apply yields_makeGasLog|vm_compute; congruence|exec_tac].
Qed.

Lemma Frontier_placed : placed_all (newFrontierInstructionSet env Run).
Proof.
  apply placed_table. rewrite !Forall_app. split; [|split; [|split; [|split; [|split]]]].
  - repeat (apply Forall_cons_2); try apply Forall_nil_2; cbn [fst snd]; try by_constant; try by_ending.
    + by_price (yields_expGas (BC:=BC)). apply priced_exp.
    + by_price (yields_gasSStore (BC:=BC) env). apply priced_sstore.
  - apply pushes_placed.
  - apply dups_placed.
  - apply swaps_placed.
  - apply logs_placed.
  - repeat (apply Forall_cons_2); try apply Forall_nil_2; cbn [fst snd]; try by_ending; unfold placed; simpl.
    + split; [split; [vm_compute; congruence|price_tac]|]. split; [done|by left].
    + repeat (split; [done|]). eexists. split; [reflexivity|]. apply (price_warm env), aside_gasCall.
    + repeat (split; [done|]). eexists. split; [reflexivity|]. apply (price_warm env), aside_gasCallCode.
    + split; [split; [vm_compute; congruence|price_tac]|]. split; [exec_tac|done].
Qed.
Lemma Homestead_placed : placed_all (newHomesteadInstructionSet env Run).
Proof.
  apply placed_define; [|apply Frontier_placed]. unfold placed. simpl. repeat (split; [done|]). eexists. split; [reflexivity|]. apply (price_warm env), aside_plain.
Qed.
Lemma TangerineWhistle_placed : placed_all (newTangerineWhistleInstructionSet env Run).
Proof.
  repeat (apply placed_change; [intros o Ho; first [by apply call_regas; [auto|done|] | by apply regas]|]). apply Homestead_placed.
Qed.
Lemma SpuriousDragon_placed : placed_all (newSpuriousDragonInstructionSet env Run).
Proof. apply placed_change; [intros o Ho; apply redynamic_paid; [done|apply priced_exp|apply yields_expGas|done]|apply TangerineWhistle_placed]. Qed.
Lemma Byzantium_placed : placed_all (newByzantiumInstructionSet env Run).
Proof.
  apply placed_define; [unfold placed; simpl; repeat (split; [done|]); eexists; split; [reflexivity|]; apply (price_warm env), aside_plain|].
  apply placed_define; [by_constant|]. apply placed_define; [by_constant|]. apply placed_define; [by_ending|]. apply SpuriousDragon_placed.
Qed.
Lemma Constantinople_placed : placed_all (newConstantinopleInstructionSet env Run).
Proof.
  repeat (apply placed_define; [by_constant|]). apply placed_define; [|apply Byzantium_placed].
  unfold placed. simpl. split; [split; [vm_compute; congruence|price_tac]|]. split; [done|by right].
Qed.

Lemma Istanbul_placed : placed_all (newIstanbulInstructionSet env Run).
Proof.
  apply placed_change; [intros o Ho; apply redynamic_paid; [done|apply priced_sstore2200|apply yields_gasSStoreEIP2200|done]|].
  apply placed_change; [intros o Ho; by apply regas|]. apply placed_define; [by_constant|].
  repeat (apply placed_change; [intros o Ho; by apply regas|]). apply placed_define; [by_constant|]. apply Constantinople_placed.
Qed.

(** The prices of Berlin need the rule of EIP-150. *)
Hypothesis E15 : rIsEIP150 (chainRules env) = true.
Lemma call_redynamic (valued : bool) op f o : op = (if valued then Op.CALL else Op.DELEGATECALL) \/ op = (if valued then Op.CALLCODE else Op.STATICCALL) ->
  sets_aside env valued f -> placed op o -> placed op (with_dynamic (makeCallVariantGasCallEIP2929 f) (with_gas WarmStorageReadCostEIP2929 o)).
Proof.
  intros Hop Hf. destruct valued, Hop as [-> | ->]; unfold placed; simpl; intros (Hc & He & _); (split; [done|split; [done|]]); eexists; (split; [reflexivity|]);
    by apply (price_cold env).
Qed.
Lemma selfdestruct_redynamic f x o : priced f -> 0 <= x -> placed Op.SELFDESTRUCT o -> placed Op.SELFDESTRUCT (with_dynamic f (with_gas x o)).
Proof. intros Hf Hx. unfold placed. simpl. intros ((Hc & Hd) & Ht & Hh). split; [split; [done|by intros ? [= <-]]|done]. Qed.
Lemma selfdestruct_reprice f o : priced f -> placed Op.SELFDESTRUCT o -> placed Op.SELFDESTRUCT (with_dynamic f o).
Proof. intros Hf. unfold placed. simpl. intros ((Hc & Hd) & Ht & Hh). split; [split; [done|by intros ? [= <-]]|done]. Qed.
Lemma Berlin_placed : placed_all (newBerlinInstructionSet env Run).
Proof.
  apply placed_change; [intros o Ho; by apply selfdestruct_redynamic; [apply priced_selfdestruct2929| |]|].
  apply placed_change; [intros o Ho; apply (call_redynamic false); [by left|apply aside_plain|done]|].
  apply placed_change; [intros o Ho; apply (call_redynamic false); [by right|apply aside_plain|done]|].
  apply placed_change; [intros o Ho; apply (call_redynamic true); [by right|apply aside_gasCallCode|done]|].
  apply placed_change; [intros o Ho; apply (call_redynamic true); [by left|apply aside_gasCall|done]|].
  do 3 (apply placed_change; [intros o Ho; by apply redynamic; [..|apply priced_account|]|]).
  apply placed_change; [intros o Ho; by apply redynamic; [..|apply priced_extcopy|]|].
  apply placed_change; [intros o Ho; apply redynamic_free; [done|apply priced_sload|apply yields_gasSLoadEIP2929|done]|].
  apply placed_change; [intros o Ho; apply redynamic_paid; [done|apply priced_sstore2929|apply yields_makeGasSStoreFunc|done]|].
  apply Istanbul_placed.
Qed.
Lemma London_placed : placed_all (newLondonInstructionSet env Run).
Proof.
  apply placed_define; [by_constant|]. apply placed_change; [intros o Ho; apply selfdestruct_reprice; [apply priced_selfdestruct2929|done]|].
  apply placed_change; [intros o Ho; apply redynamic_paid; [done|apply priced_sstore2929|apply yields_makeGasSStoreFunc|done]|]. apply Berlin_placed.
Qed.
End TableFacts.

(** Every operation of every table is sound. *)
Definition ordered (r : Rules) : Prop := rIsLondon r = true \/ rIsBerlin r = true -> rIsEIP150 r = true.
Lemma instructionSet_sound {BC : Type} `{Backend} `{Uint256} `{Runtime} `{Cache BC Hash bitvec} env n Run op o : ordered (chainRules env) -> run_ok n Run ->
  instructionSet (BC := BC) env Run op = Some o -> op_sound n o.
Proof.
  intros Hord HRun Ho. eapply placed_sound; [done|]. revert op o Ho. enough (placed_all env Run (instructionSet env Run)) as Hall by exact Hall. unfold instructionSet, ordered in *.
  destruct (rIsLondon (chainRules env)); [apply London_placed; auto|]. destruct (rIsBerlin (chainRules env)); [apply Berlin_placed; auto|].
  repeat case_match; [apply Istanbul_placed|apply Constantinople_placed|apply Byzantium_placed|apply SpuriousDragon_placed|apply TangerineWhistle_placed|apply Homestead_placed|apply Frontier_placed].
Qed.

(** ** A round *)
Section Rounds.
Context {BC : Type} `{Backend} `{Uint256} `{Runtime} `{Cache BC Hash bitvec}.
Variable env : VMEnv.
Abbreviation E := (EVM BC).
Abbreviation V := (V (BC := BC)).
Implicit Types v : V.

(** A round ends without an error of its own; going on costs gas. *)
Definition round_ok (top : Z) (s : StateDB) (x : res ending * V) : Prop :=
  run s (db x.2) /\ (forall y, x.1 <> Err y) /\ 0 <= gasOf x.2 <= top /\ (x.1 = Ok goOn -> gasOf x.2 < top /\ paid (mem x.2.2)).

Lemma round_done top s v ret err : run s (db v) -> 0 <= gasOf v <= top -> round_ok top s (Ok (done_ ret err), v).
Proof. intros Hr Hg. repeat (split; [done|]). done. Qed.
Lemma round_panic top s v : run s (db v) -> 0 <= gasOf v <= top -> round_ok top s (Panic, v).
Proof. intros Hr Hg. repeat (split; [done|]). done. Qed.

Lemma round_goes top s v : run s (db v) -> 0 <= gasOf v < top -> paid (mem v.2) -> round_ok top s (Ok goOn, v).
Proof. intros Hr Hg Hp. split; [done|]. split; [done|]. split; [simpl; lia|]. intros _. split; [simpl; lia|done]. Qed.

Lemma perform_ok top s o v : run s (db v) -> executed v top (execute o v) -> paid (mem v.2) -> (finishes o = false -> gasOf (execute o v).2 < top) -> round_ok top s (perform o v).
Proof.
  intros Hr (Hr1 & Hf & Hs & Hg) Hp Hlt. unfold perform, st_catch, mbind, st_bind. destruct (execute o v) as [r v1]. simpl in *.
  assert (Hr2 : run s (db v1)) by (by eapply run_trans).
  assert (Hp1 : paid (mem v1.2)) by (unfold shape in Hs; injection Hs as Hl Hc; unfold paid, pend in *; unfold Len, zlen in *; by rewrite Hl, Hc).
  assert (Hset : forall res, exists v2, (if returns o then on_evm (st_modify (set_returnData res)) else mret tt) v1 = (Ok tt, v2) /\ db v2 = db v1 /\ v2.2 = v1.2).
  { intros res. destruct (returns o); [|by exists v1]. eexists. split; [reflexivity|done]. }
  destruct r as [res|x|]; [| |by apply round_panic].
  - destruct (Hset res) as (v2 & -> & Hd & Hv). assert (Hg2 : gasOf v2 = gasOf v1) by (unfold gasOf; by rewrite Hv). unfold finishes in Hlt.
    destruct (reverts o); [apply round_done; [by rewrite Hd|lia]|]. destruct (halts o); [apply round_done; [by rewrite Hd|lia]|]. specialize (Hlt eq_refl).
    destruct (jumps o).
    + apply round_goes; [by rewrite Hd|lia|by rewrite Hv].
    + apply (round_goes _ _ (v2.1, set_pc (pc v2.2 +w 1) v2.2)); [by rewrite <- Hd in Hr2|change (0 <= gasOf v2 < top); lia|simpl; by rewrite Hv].
  - destruct (Hset []) as (v2 & -> & Hd & Hv). assert (Hg2 : gasOf v2 = gasOf v1) by (unfold gasOf; by rewrite Hv).
    destruct x; try (by destruct Hf); (apply round_done; [by rewrite Hd|lia]).
Qed.

Lemma forbidden_cases o op v : (exists b, forbidden env o op v = (Ok b, v)) \/ forbidden env o op v = (Panic, v).
Proof.
  unfold forbidden, BackV, Back, getFrame, st_lift, mbind, st_bind. cbn. destruct (_ && _); [|by eauto]. destruct (writes o); [by eauto|].
  destruct (op =? Op.CALL); [|by eauto]. cbn. destruct (stack v.2 !! 2%nat); cbn; eauto.
Qed.
Lemma requiredMemory_cases o v : requiredMemory o v = (Ok None, v) \/ (exists x, requiredMemory o v = (Ok (Some x), v) /\ whole x) \/ requiredMemory o v = (Panic, v).
Proof.
  unfold requiredMemory. destruct (memorySize o) as [size|]; [|right; left; by exists 0]. unfold getFrame, mbind, st_bind. cbn.
  destruct (size (stack v.2)) as [[m overflow]| |]; cbn; [|by right; right..]. destruct overflow; [by left|].
  pose proof (toWordSize_nonneg m). destruct (Z.ltb_spec MaxUint64 (toWordSize m * 32)) as [|Hs]; [by left|]. right. left. eexists. split; [done|].
  unfold MaxUint64 in Hs. rewrite u64_small by (unfold is_u64; lia). split; [lia|]. by rewrite Z.mod_mul.
Qed.

Lemma useGas_cases gas v : (gasOf v < gas /\ useGas gas v = (Ok false, v)) \/
  (gas <= gasOf v /\ useGas gas v = (Ok true, (v.1, set_contract (set_Gas (gasOf v - gas) (contract v.2)) v.2))).
Proof.
  unfold useGas, UseGas, getContract, getFrame, setFrame, mbind, st_bind, gasOf. cbn. destruct (Z.ltb_spec (Gas (contract v.2)) gas); [by left|by right].
Qed.
Lemma payDynamic_price o x v : payDynamic o x v = match (price o x v).1 with
  | Ok cost => match dynamicGas o with None => (Ok true, v) | Some _ => useGas cost (price o x v).2 end
  | Err _ => (Ok false, (price o x v).2) | Panic => (Panic, (price o x v).2) end.
Proof.
  unfold payDynamic, price. destruct (dynamicGas o) as [f|]; [|done]. unfold st_catch, mbind, st_bind. by destruct (f x v) as [[c|y|] v1].
Qed.
(** What is paid for an operation is its price. *)
Lemma payDynamic_cases o x v : (exists v1, payDynamic o x v = (Ok true, v1) /\ exists cost, (price o x v).1 = Ok cost /\
    (0 <= gasOf (price o x v).2 -> gasOf v1 = gasOf (price o x v).2 - cost /\ 0 <= gasOf v1) /\ v1.1 = (price o x v).2.1 /\ stack v1.2 = stack (price o x v).2.2 /\ mem v1.2 = mem (price o x v).2.2) \/
  (payDynamic o x v = (Ok false, (price o x v).2)) \/ (payDynamic o x v = (Panic, (price o x v).2)).
Proof.
  rewrite payDynamic_price. destruct (price o x v) as [[cost|y|] v1] eqn:Ep; simpl; [|by right; left|by right; right].
  destruct (dynamicGas o) as [f|] eqn:Ed.
  - destruct (useGas_cases cost v1) as [[Hlt ->]|[Hle ->]]; [by right; left|]. left. eexists. split; [done|]. exists cost. split; [done|].
    split; [|done]. intros _. match goal with |- gasOf ?w = _ /\ _ => change (gasOf w) with (gasOf v1 - cost) end. lia.
  - unfold price in Ep. rewrite Ed in Ep. injection Ep as <- <-. left. exists v. split; [done|]. exists 0. split; [done|]. split; [intros; lia|done].
Qed.

Lemma step_ok n jt v : (forall op o, jt op = Some o -> op_sound n o) -> paid (mem v.2) -> 0 <= gasOf v <= n -> gasOf v < 2 ^ 64 -> round_ok (gasOf v) (db v) (step env jt v).
Proof.
  intros Hjt Hp Hg Hb. unfold step, getFrame, mbind, st_bind. cbn. destruct (jt _) as [o|] eqn:Ej; [|apply round_done; [constructor|lia]].
  destruct (Hjt _ _ Ej) as [Hc0 Ho]. destruct (checkStack _ _); [apply round_done; [constructor|lia]|].
  destruct (forbidden_cases o (GetOp (pc v.2) (contract v.2)) v) as [[b ->]| ->]; [|apply round_panic; [constructor|lia]].
  destruct b; [apply round_done; [constructor|lia]|].
  destruct (useGas_cases (constantGas o) v) as [[_ ->]|[Hle ->]]; [apply round_done; [constructor|lia]|]. cbn [negb].
  set (v1 := (v.1, _)). assert (Hg1 : gasOf v1 = gasOf v - constantGas o) by done. assert (Hd1 : db v1 = db v) by done. assert (Hp1 : paid (mem v1.2)) by done. clearbody v1.
  destruct (requiredMemory_cases o v1) as [->|[(x & -> & Hx)| ->]]; [apply round_done; [rewrite Hd1; constructor|lia]| |apply round_panic; [rewrite Hd1; constructor|lia]].
  destruct (Ho x v1 Hx Hp1 ltac:(lia) ltac:(lia) ltac:(lia)) as (Hr & Hf & Hgp & Hpe & Hcost). rewrite Hd1 in Hr.
  destruct (payDynamic_cases o x v1) as [(v2 & -> & cost & Hc & Hg2 & He2 & Hs2 & Hm2)|[-> | ->]]; [|apply round_done; [done|lia]|apply round_panic; [done|lia]].
  destruct (Hcost cost Hc) as (Hg3 & Hcn & Hexec). destruct (Hg2 ltac:(lia)) as [Hg4 Hpos]. cbn [negb].
  set (v3 := (v2.1, set_mem (if 0 <? x then Resize x (mem v2.2) else mem v2.2) v2.2)).
  assert (Hres : (if 0 <? x then setFrame (fun f => set_mem (Resize x (mem f)) f) else mret tt) v2 = (Ok tt, v3)).
  { unfold v3. destruct (0 <? x); [done|]. by destruct v2 as [e2 [p2 s2 m2 c2]]. }
  rewrite Hres. assert (Hgv3 : gasOf v3 = gasOf v2) by done. destruct (Hexec v3) as [Hex Hlt]; [lia|lia|unfold v3; simpl; by rewrite He2|exact Hs2|].
  apply perform_ok; [unfold db, v3; simpl; by rewrite He2| | |intros Hfin; specialize (Hlt Hfin); lia].
  - destruct Hex as (? & ? & ? & ?). repeat (split; [done|]). lia.
  - unfold v3. simpl. rewrite Hm2. apply pend_paid; [apply Hx|done].
Qed.
End Rounds.

(** ** The loop *)
Section Loops.
Context {BC : Type} `{Backend} `{Uint256} `{Runtime} `{Cache BC Hash bitvec}.
Variable env : VMEnv.
Hypothesis Hord : ordered (chainRules env).
Abbreviation E := (EVM BC).

Definition loop_ok (fuel : nat) : Prop := forall steps f (e : E), paid (mem f) -> 0 <= Gas (contract f) < Z.of_nat fuel -> Gas (contract f) < 2 ^ 64 ->
  ends (fun r _ => 0 <= Gas r.2 <= Gas (contract f)) (StateDB_ e) (loop env fuel steps f e).

Lemma Run_ok fuel : loop_ok fuel -> run_ok (Z.of_nat fuel) (RunWith (BC := BC) env fuel).
Proof.
  intros Hl c input static Hg Hb. unfold RunWith, Run. apply (calm_bind any); [by apply calm_get|]. intros e _.
  apply (calm_bind any); [apply calm_modify; intros e1; by case_match|]. intros _ _.
  apply (calm_bind (fun r => 0 <= Gas r.2 <= Gas c)).
  - destruct (Code c); [apply calm_ret; simpl; lia|]. intros e1. by apply (Hl 0 (enter c input) e1).
  - intros r Hr. apply (calm_bind any); [apply calm_modify; intros e1; by case_match|]. intros _ _. by apply calm_ret.
Qed.
Lemma loops_ok fuel : loop_ok fuel.
Proof.
  induction fuel as [|fuel IH]; intros steps f e Hp Hg Hb; [lia|]. cbn [loop]. destruct (stopped env (steps + 1)).
  { split; [constructor|]. split; [done|]. intros r [= <-]. simpl. lia. }
  assert (Hstep : round_ok (gasOf (e, f)) (db (e, f)) (step env (instructionSet env (Run (loop env fuel 0))) (e, f))).
  { apply (step_ok env (Z.of_nat fuel)); [|done|unfold gasOf; simpl; lia|done]. intros op o. apply instructionSet_sound; [done|]. by apply Run_ok. }
  destruct (step _ _ _) as [r [e1 f1]]. destruct Hstep as (Hr & Hn & Hg1 & Hgo). unfold db, gasOf in *. simpl in *.
  destruct r as [[|ret err]|y|]; [|split; [done|]; split; [done|]; by intros r [= <-]|by destruct (Hn y)|done].
  destruct (Hgo eq_refl) as [Hlt Hp1]. destruct (IH (steps + 1) f1 e1 Hp1 ltac:(lia) ltac:(lia)) as (Hr2 & Hn2 & HP). split; [by eapply run_trans|].
  split; [done|]. intros r Hres. specialize (HP r Hres). lia.
Qed.
Lemma RunWith_ok fuel : run_ok (Z.of_nat fuel) (RunWith (BC := BC) env fuel).
Proof. apply Run_ok, loops_ok. Qed.
End Loops.

(** ** For callers *)
Section Clients.
Context {BC : Type} `{Backend} `{Uint256} `{Runtime} `{Cache BC Hash bitvec}.
Variable env : VMEnv.
Abbreviation E := (EVM BC).

(** The ways into the machine: calls, and creations. *)
Definition calls (fuel : nat) (caller : ContractRef) (addr : Address) (input : list byte) (gas value : Z) : list (ST E outcome) :=
  let Run := RunWith env fuel in
  [Call env Run caller addr input gas value; CallCode env Run caller addr input gas value; DelegateCall env Run caller addr input gas; StaticCall env Run caller addr input gas].
Definition creations (fuel : nat) (caller : ContractRef) (code : list byte) (gas value salt : Z) : list (ST E (list byte * Address * Z * option error)) :=
  let Run := RunWith env fuel in
  [Create env Run caller code gas value; Create2 env Run caller code gas value salt].
(** An answer with at most the gas that was given, or a panic: the interpreter was not cut short. *)
Definition ended {A X} (given : Z) (x : res (A * Z * X) * E) : Prop := x.1 = Panic \/ exists a left_ y, x.1 = Ok (a, left_, y) /\ 0 <= left_ <= given.

Lemma calls_from fuel caller addr input gas value m s : ordered (chainRules env) -> 0 <= gas < 2 ^ 64 -> gas < Z.of_nat fuel ->
  m ∈ calls fuel caller addr input gas value -> from s (kept s) (call_ends s gas) m.
Proof.
  intros Hord Hg Hn. pose proof (RunWith_ok (BC:=BC) env Hord fuel) as HRun. assert (Hf : fits (Z.of_nat fuel) gas) by (unfold fits; lia). unfold calls.
  rewrite !elem_of_cons. intros [-> | [-> | [-> | [-> | []%elem_of_nil]]]];
    [by eapply Call_from|by eapply CallCode_from|by eapply DelegateCall_from|by eapply StaticCall_from].
Qed.
Lemma creations_from fuel caller code gas value salt m s : ordered (chainRules env) -> 0 <= gas < 2 ^ 64 -> gas < Z.of_nat fuel ->
  m ∈ creations fuel caller code gas value salt -> from s now (created gas) m.
Proof.
  intros Hord Hg Hn. pose proof (RunWith_ok (BC:=BC) env Hord fuel) as HRun. assert (Hf : fits (Z.of_nat fuel) gas) by (unfold fits; lia). unfold creations.
  rewrite !elem_of_cons. intros [-> | [-> | []%elem_of_nil]]; [by eapply Create_from|by eapply Create2_from].
Qed.

(** C8: Every call and every creation ends: one round of the interpreter for each
    unit of gas is enough, whatever the code calls and creates, and no more gas
    is left than there was. *)
Theorem calls_end fuel caller addr input code gas value salt e : ordered (chainRules env) -> 0 <= gas < 2 ^ 64 -> gas < Z.of_nat fuel ->
  (forall m, m ∈ calls fuel caller addr input gas value -> ended gas (m e)) /\
  (forall m, m ∈ creations fuel caller code gas value salt -> ended gas (m e)).
Proof.
  intros Hord Hg Hn. split; intros m Hm.
  - destruct (calls_from _ _ _ _ _ _ m (StateDB_ e) Hord Hg Hn Hm e (run_done _) (kept_refl _)) as (_ & Hne & HK). destruct (m e) as [[[[ret left_] err]|y|] e1]; [|by destruct (Hne y)|by left].
    right. exists ret, left_, err. split; [done|]. by destruct (HK _ eq_refl) as [Hl _].
  - destruct (creations_from _ _ _ _ _ _ m (StateDB_ e) Hord Hg Hn Hm e (run_done _) I) as (_ & Hne & HK). destruct (m e) as [[[[ret left_] err]|y|] e1]; [|by destruct (Hne y)|by left].
    right. exists ret, left_, err. split; [done|]. apply (HK _ eq_refl).
Qed.

(** C7: A call that fails - refused, out of gas, reverted, whatever happened in the
    calls it made - leaves the accounts, their storage, the logs, the refund and
    the access list as they were, and every call leaves a state that can be
    reverted further. *)
Theorem failed_call_reverts fuel caller addr input gas value m e ret left_ err e' : ordered (chainRules env) -> 0 <= gas < 2 ^ 64 -> gas < Z.of_nat fuel ->
  m ∈ calls fuel caller addr input gas value -> valid (StateDB_ e) -> m e = (Ok (ret, left_, err), e') ->
  valid (StateDB_ e') /\ (err <> None -> state_equiv (StateDB_ e') (StateDB_ e)).
Proof.
  intros Hord Hg Hn Hm Hv Hr. destruct (calls_from _ _ _ _ _ _ m (StateDB_ e) Hord Hg Hn Hm e (run_done _) (kept_refl _)) as (Hrun & _ & HK).
  rewrite Hr in Hrun, HK. simpl in *. split; [apply (run_good _ _ Hrun Hv)|]. intros Herr. by apply (HK _ eq_refl).
Qed.

(** ** Jump destinations *)

(** The analyses that are kept are those of the code. *)
Definition coherent_analyses (v : VMState.V (BC := BC)) : Prop :=
  let c := contract v.2 in
  (forall bits, analysis c = Some bits -> codeBitmap (Code c) = Ok bits) /\
  (forall bits, jumpdests v.1 !! cCodeHash c = Some bits -> codeBitmap (Code c) = Ok bits) /\
  (forall bits, cache_mem (bitmaps v.1) (cCodeHash c) bits -> codeBitmap (Code c) = Ok bits).

Lemma segment_of_code code bits x : codeBitmap code = Ok bits -> 0 <= x < zlen code -> exists b, codeSegment bits x = Ok b /\ (b = true <-> instruction code x).
Proof. intros Hb Hx. destruct (codeBitmap_spec code) as (bits' & Hb' & Hs). rewrite Hb in Hb'. injection Hb' as <-. by apply Hs. Qed.

Lemma analysed_code (v : VMState.V (BC := BC)) bits x : codeBitmap (Code (contract v.2)) = Ok bits -> 0 <= x < zlen (Code (contract v.2)) -> coherent_analyses v ->
  exists b, codeSegment bits x = Ok b /\ (b = true <-> instruction (Code (contract v.2)) x) /\
    coherent_analyses (v.1, set_contract (set_analysis (Some bits) (contract v.2)) v.2).
Proof.
  intros Hb Hx (Ha & Hj & Hc). destruct (segment_of_code _ _ _ Hb Hx) as (b & Hs & Hi). exists b. split; [done|]. split; [done|].
  split; [|done]. simpl. by intros ? [= <-].
Qed.
Lemma codeBitmapWithCache_spec `{!CacheLaws BC Hash bitvec} (v : VMState.V (BC := BC)) : coherent_analyses v -> cCodeHash (contract v.2) <> 0 -> cCodeHash (contract v.2) <> StateDB.emptyCodeHash ->
  exists bits e', codeBitmapWithCache (Code (contract v.2)) (cCodeHash (contract v.2)) v.1 = (Ok (Some bits), e') /\ codeBitmap (Code (contract v.2)) = Ok bits /\
    coherent_analyses (set_jumpdests (<[cCodeHash (contract v.2) := bits]> (jumpdests e')) e', v.2).
Proof.
  intros (Ha & Hj & Hc) H0' He. unfold codeBitmapWithCache. rewrite !(proj2 (Z.eqb_neq _ _)) by done. unfold mbind, st_bind. cbn.
  destruct (cache_get (cCodeHash (contract v.2)) (bitmaps v.1)) as [[val|] cc] eqn:Eg; cbn.
  - assert (Hval : codeBitmap (Code (contract v.2)) = Ok val) by (apply Hc; by eapply cache_get_sound). eexists _, _. split; [done|]. split; [done|].
    split; [exact Ha|]. split; cbn; [intros bits; rewrite lookup_insert_eq; by intros [= <-]|]. intros bits Hm. apply Hc. by eapply cache_get_keeps.
  - destruct (codeBitmap_spec (Code (contract v.2))) as (bits & Hb & _). rewrite Hb. cbn. eexists _, _. split; [done|]. split; [done|].
    split; [exact Ha|]. split; cbn; [intros bits'; rewrite lookup_insert_eq; by intros [= <-]|]. intros bits' [[_ ->]|Hm]%cache_add_mem; [done|].
    apply Hc. by eapply cache_get_keeps.
Qed.
Lemma isCode_exact `{!CacheLaws BC Hash bitvec} (v : VMState.V (BC := BC)) x : coherent_analyses v -> 0 <= x < zlen (Code (contract v.2)) ->
  exists b v', isCode x v = (Ok b, v') /\ (b = true <-> instruction (Code (contract v.2)) x) /\ coherent_analyses v'.
Proof.
  intros Hco Hx. pose proof Hco as (Ha & Hj & Hc). unfold isCode, getContract, getFrame, mbind, st_bind. cbn.
  destruct (analysis (contract v.2)) as [bits|] eqn:Ean.
  { destruct (segment_of_code _ _ _ (Ha bits eq_refl) Hx) as (b & Hs & Hi). exists b, v. cbn. by rewrite Hs. }
  destruct (Z.eqb_spec (cCodeHash (contract v.2)) 0) as [E0|E0]; [|destruct (Z.eqb_spec (cCodeHash (contract v.2)) StateDB.emptyCodeHash) as [Ee|Ee]]; cbn.
  1, 2: destruct (codeBitmap_spec (Code (contract v.2))) as (bits & Hb & _); rewrite Hb; cbn; destruct (analysed_code v bits x Hb Hx Hco) as (b & Hs & Hi & Hk);
    eexists b, _; split; [by rewrite Hs|done].
  destruct (jumpdests v.1 !! cCodeHash (contract v.2)) as [bits|] eqn:Ej; cbn.
  { destruct (analysed_code v bits x (Hj bits eq_refl) Hx Hco) as (b & Hs & Hi & Hk). eexists b, _. split; [by rewrite Hs|done]. }
  destruct (codeBitmapWithCache_spec v Hco E0 Ee) as (bits & e' & Hr & Hb & Hk). unfold on_evm. rewrite Hr. cbn.
  destruct (analysed_code (_, v.2) bits x Hb Hx Hk) as (b & Hs & Hi & Hk'). eexists b, _. split; [by rewrite Hs|done].
Qed.

(** C20: A jump is allowed exactly to a [JUMPDEST] that is an instruction, that is
    reached by walking from instruction to instruction, and not data of a push;
    the bitmap of the analysis, kept for the contract, for the calls of a
    transaction and for the process, answers without a panic. *)
Theorem jumpdest_exact `{!CacheLaws BC Hash bitvec} (v : VMState.V (BC := BC)) dest : coherent_analyses v -> 0 <= dest -> zlen (Code (contract v.2)) <= MaxUint64 ->
  exists b v', validJumpdest dest v = (Ok b, v') /\ coherent_analyses v' /\
    (b = true <-> Code (contract v.2) !! Z.to_nat dest = Some (Zbyte Op.JUMPDEST) /\ instruction (Code (contract v.2)) dest).
Proof.
  intros Hco Hd Hlen. unfold validJumpdest, getContract, getFrame, mbind, st_bind. cbn. unfold IsUint64, Uint64.
  set (code := Code (contract v.2)) in *.
  assert (Hout : zlen code <= dest -> exists b v', ((Ok false, v) : res bool * _) = (Ok b, v') /\ coherent_analyses v' /\
    (b = true <-> code !! Z.to_nat dest = Some (Zbyte Op.JUMPDEST) /\ instruction code dest)).
  { intros Hge. exists false, v. split; [done|]. split; [done|]. split; [done|]. intros [Hl _]. apply lookup_lt_Some in Hl. unfold zlen in Hge. lia. }
  destruct (Z.leb_spec dest MaxUint64) as [Hu|Hu]; cbn; [|apply Hout; lia]. rewrite u64_small by (unfold is_u64, MaxUint64 in *; lia).
  destruct (Z.leb_spec (zlen code) dest) as [Hge|Hlt]; [by apply Hout|]. unfold GetOp. fold code.
  destruct (lookup_lt_is_Some_2 code (Z.to_nat dest)) as [op Hop]; [unfold zlen in *; lia|]. rewrite Hop.
  destruct (Z.eqb_spec (byteZ op) Op.JUMPDEST) as [Eo|Eo]; cbn.
  - destruct (isCode_exact v dest Hco ltac:(done)) as (b & v' & Hr & Hb & Hk). exists b, v'. split; [done|]. split; [done|]. rewrite Hb. fold code.
    split; [|by intros [_ ?]]. intros Hi. split; [|done]. f_equal. rewrite <- Eo. symmetry. apply Zbyte_byteZ.
  - exists false, v. split; [done|]. split; [done|]. split; [done|]. intros [[= ->] _]. by destruct Eo.
Qed.
End Clients.

(** ** A store that is paid for before anything was loaded *)
Section ColdStore.
Context {BC : Type} `{Backend}.
Implicit Types v : VMState.V (BC := BC).

Lemma GetState_acl a k s : acl (GetState a k s).2 = acl s.
Proof.
  assert (Hd : forall s, acl (getDeletedStateObject a s).2 = acl s) by (intros t; unfold getDeletedStateObject; repeat case_match; done).
  assert (Hg : acl (getStateObject a s).2 = acl s).
  { unfold getStateObject. pose proof (Hd s) as Hr. destruct (getDeletedStateObject a s) as [[o|] t]; simpl in *; [done|done]. }
  unfold GetState. destruct (getStateObject a s) as [[o|] s1]; simpl in Hg; [|done]. unfold obj_GetState, obj_GetCommittedState. repeat case_match; simpl in *; simplify_eq; done.
Qed.

(** C32: From Berlin on, once more gas is left than the sentry of a store, the
    price of a store takes the contract to be in the access list already and
    panics when it is not - the case that the code calls impossible. *)
Theorem cold_store_panics clearingRefund x v : SstoreSentryGasEIP2200 < gasOf v -> (2 <= length (stack v.2))%nat ->
  ContainsAddress (acl (db v)) (self (contract v.2)) = false -> (makeGasSStoreFunc clearingRefund x v).1 = Panic.
Proof.
  intros Hg Hs Ha. unfold makeGasSStoreFunc, getContract, getFrame, mbind, st_bind. cbn. unfold gasOf in Hg.
  destruct (Z.leb_spec (Gas (contract v.2)) SstoreSentryGasEIP2200); [lia|]. destruct (stack v.2) as [|loc [|val st]] eqn:Es; [simpl in Hs; lia..|].
  unfold BackV, Back, getFrame, mbind, st_bind. cbn. rewrite ?Es. cbn. rewrite ?Es. cbn. unfold evmState, on_evm, onState. cbn.
  pose proof (GetState_acl (self (contract v.2)) loc (StateDB_ v.1)) as Hacl. destruct (GetState (self (contract v.2)) loc (StateDB_ v.1)) as [cur s1]. simpl in Hacl. cbn.
  unfold slotInAccessList, Contains, mbind, st_bind. cbn. rewrite Hacl. unfold ContainsAddress, db in Ha. apply bool_decide_eq_false in Ha.
  destruct (addresses (acl (StateDB_ v.1)) !! self (contract v.2)) as [idx|] eqn:Ei; [by destruct Ha; eauto|]. cbn.
  unfold evmTry, on_evm, tryState, AddSlotToAccessList, al_AddSlot, mbind, st_bind. cbn. by rewrite Hacl, Ei.
Qed.
End ColdStore.

(** ** Small machines *)
Module Toy.
Definition s256 (x : Z) : Z := if x <? 2 ^ 255 then x else x - 2 ^ 256.
#[export] Instance words : Uint256 := {|
  wAdd x y := (x + y) mod 2 ^ 256; wSub x y := (x - y) mod 2 ^ 256; wMul x y := (x * y) mod 2 ^ 256; wDiv x y := x / y;
  wSDiv x y := if y =? 0 then 0 else Z.quot (s256 x) (s256 y) mod 2 ^ 256; wMod x y := if y =? 0 then 0 else x mod y;
  wSMod x y := if y =? 0 then 0 else Z.rem (s256 x) (s256 y) mod 2 ^ 256; wExp x y := x ^ y mod 2 ^ 256;
  wExtendSign x b := x; wNot x := 2 ^ 256 - 1 - x; wAnd := Z.land; wOr := Z.lor; wXor := Z.lxor; wByte v th := v / 2 ^ (8 * (31 - th)) mod 256;
  wAddMod x y z := (x + y) mod z; wMulMod x y z := if z =? 0 then 0 else (x * y) mod z;
  wLsh x n := (x * 2 ^ n) mod 2 ^ 256; wRsh x n := x / 2 ^ n; wSRsh x n := (s256 x / 2 ^ n) mod 2 ^ 256;
  wSlt x y := s256 x <? s256 y; wSgt x y := s256 y <? s256 x |}.
#[export] Instance runtime : Runtime := {| precompiled _ _ := None; CreateAddress_ a n := (a + n) mod 2 ^ 160; checkOrder m := map_to_list m |}.
#[export] Existing Instance toyBackend.

Definition london : Rules := mkRules 1 true true true true true true true true true true.
(** Nobody may send to account 66. *)
Definition lists : blacklistValidator := mkValidator {[66 := DirectionTo]} ∅.
Definition context : BlockContext := mkBlockContext (fun n => n) 7 10 5 2 (Some 9) 1000000 (Some lists).
Definition machine : VMEnv := mkVMEnv context None 11 1 london false false (fun _ => false).
Lemma machine_ordered : ordered (chainRules machine).
Proof. done. Qed.
Definition start (s : StateDB) : EVM (gmap Hash (list Z)) := mkEVM s 0 0 false [] ∅ ∅.
Definition bytes (l : list Z) : list byte := map Zbyte l.

(** Stores one at slot zero, and reverts. *)
Definition reverting_code : list byte := bytes [0x60; 1; 0x60; 0; 0x55; 0x60; 0; 0x60; 0; 0xfd].
(** Stores one at slot zero. *)
Definition storing_code : list byte := bytes [0x60; 1; 0x60; 0; 0x55].
(** Gives all it has to account 66. *)
Definition giving_code : list byte := bytes [0x60; 66; 0xff].
(** Calls account 66 with one coin and all its gas. *)
Definition sending_code : list byte := bytes [0x60; 0; 0x60; 0; 0x60; 0; 0x60; 0; 0x60; 1; 0x60; 66; 0x5a; 0xf1].
Definition world (code : list byte) : StateDB := okState (do_op (OAddBalance 5 100) (okState (do_op (OSetCode 9 code) (New false)))).
Definition warmed (code : list byte) : StateDB := okState (do_op (OAddAddress 9) (world code)).

Definition fuel : nat := Z.to_nat 100001.
Definition run_call (s : StateDB) : res outcome * EVM (gmap Hash (list Z)) := Call machine (RunWith machine fuel) (AccountRef 5) 9 [] 100000 3 (start s).
Definition balance_after (a : Address) (x : res outcome * EVM (gmap Hash (list Z))) : Z := (GetBalance a (StateDB_ x.2)).1.
End Toy.
Import Toy.

Lemma fuel_enough : 100000 < Z.of_nat Toy.fuel.
Proof. unfold Toy.fuel. lia. Qed.
Lemma world_valid code : valid (Toy.warmed code).
Proof.
  assert (Hv : forall o s, valid s -> valid (okState (do_op o s))).
  { intros o s Hs. destruct (do_op o s) as [s'|x|] eqn:Ed; [by apply (do_op_good o s s')|apply New_valid|apply New_valid]. }
  unfold Toy.warmed, Toy.world. apply Hv, Hv, Hv, New_valid.
Qed.

(** A call with 100000 gas ends within as many rounds. *)
Lemma calls_end_witness : ended 100000 (Toy.run_call (Toy.warmed Toy.reverting_code)).
Proof.
  apply (calls_end Toy.machine Toy.fuel (AccountRef 5) 9 [] [] 100000 3 0 (Toy.start (Toy.warmed Toy.reverting_code)) Toy.machine_ordered ltac:(lia) fuel_enough).
  unfold calls. apply elem_of_cons. by left.
Defined.

(** A contract that stores and reverts: the store is undone and the coins are back. *)
Lemma failed_call_reverts_witness : exists left_ e', Toy.run_call (Toy.warmed Toy.reverting_code) = (Ok ([], left_, Some ErrExecutionReverted), e') /\ 0 < left_ /\
  valid (StateDB_ e') /\ state_equiv (StateDB_ e') (Toy.warmed Toy.reverting_code).
Proof.
  destruct (Toy.run_call (Toy.warmed Toy.reverting_code)) as [r e'] eqn:Er.
  assert (Hr : r = Ok ([], 77888, Some ErrExecutionReverted)) by (change r with (r, e').1; rewrite <- Er; vm_compute; reflexivity).
  unfold Toy.run_call in Er. subst r. exists 77888, e'. split; [done|]. split; [lia|].
  assert (Hm : Call Toy.machine (RunWith Toy.machine Toy.fuel) (AccountRef 5) 9 [] 100000 3 ∈ calls (BC := gmap Hash (list Z)) Toy.machine Toy.fuel (AccountRef 5) 9 [] 100000 3)
    by (unfold calls; apply elem_of_cons; by left).
  pose proof (failed_call_reverts Toy.machine Toy.fuel (AccountRef 5) 9 [] 100000 3 _ (Toy.start (Toy.warmed Toy.reverting_code)) [] 77888
    (Some ErrExecutionReverted) e' Toy.machine_ordered ltac:(lia) fuel_enough Hm (world_valid Toy.reverting_code) Er) as [Hv He].
  split; [exact Hv|]. by apply He.
Defined.

(** Behind a push: the byte 0x5b at 1 is data, the one at 3 an instruction. *)
Definition jumping_frame : VMState.V (BC := gmap Hash (list Z)) :=
  (Toy.start (New false), mkFrame 0 [] NewMemory (mkContract 5 9 None (Toy.bytes [0x61; 0x5b; 0x5b; 0x5b]) 77 9 [] 1000 0)).
Lemma jumpdest_exact_witness : (validJumpdest 3 jumping_frame).1 = Ok true /\ (validJumpdest 2 jumping_frame).1 = Ok false /\
  exists b v', validJumpdest 3 jumping_frame = (Ok b, v') /\ coherent_analyses v' /\
    (b = true <-> Code (contract jumping_frame.2) !! 3%nat = Some (Zbyte Op.JUMPDEST) /\ instruction (Code (contract jumping_frame.2)) 3).
Proof.
  split; [vm_compute; reflexivity|]. split; [vm_compute; reflexivity|]. apply (jumpdest_exact jumping_frame 3); [|lia|vm_compute; congruence].
  split; [done|]. split; intros bits Hb; vm_compute in Hb; discriminate.
Defined.

(** The engine's own calls ([vmcaller.ExecuteMsg]) do not prepare the access list. *)
Lemma cold_store_panics_witness : (Toy.run_call (Toy.world Toy.storing_code)).1 = Panic /\
  (makeGasSStoreFunc SstoreClearsScheduleRefundEIP3529 0 (Toy.start (Toy.world Toy.storing_code),
     mkFrame 4 [0; 1] NewMemory (mkContract 5 9 None Toy.storing_code 77 9 [] 5000 0))).1 = Panic.
Proof. split; [vm_compute; reflexivity|]. apply cold_store_panics; [vm_compute; reflexivity|simpl; lia|vm_compute; reflexivity]. Defined.

(** A call to a denied account is refused, but a contract that destroys itself
    pays it. *)
Example selfdestruct_pays_denied :
  Toy.balance_after 66 (Toy.run_call (Toy.warmed Toy.sending_code)) = 0 /\
  Toy.balance_after 66 (Toy.run_call (Toy.warmed Toy.giving_code)) = 3 /\ IsAddressDenied Toy.lists 66 CheckTo = true.
Proof. split; [vm_compute; reflexivity|]. split; vm_compute; reflexivity. Qed.
